(* ===== verification/_CoqProject ===== *)
-Q . S2P
Prelude.v
Numeric.v
MemHierarchy.v
DdrBound.v
TagBuffer.v
Placement.v
PlacementProofs.v
MemController.v
MemControllerProofs.v
MemControllerSpec.v
DdrWeave.v
DdrWeaveProofs.v
DdrInit.v
ReplPolicy.v
CacheArray.v
MtRand.v
H3Hash.v
HashSpec.v
ZArray.v
ZArrayProofs.v
ZArraySpec.v
Umon.v
UmonSpec.v
Partition.v
PartitionSpec.v
WayPart.v
WayPartSpec.v
InList.v
IdealLru.v
IdealPart.v
Coherence.v
MemCtrls.v
CoherenceInv.v
CoherenceInval.v
CoherenceEnv.v
CoherenceSteps.v
CoherenceAccess.v
CoherenceProtocol.v
CoherenceSpec.v
Prefetch.v
PrefetchInv.v
PrefetchSpec.v
PrefetchStream.v
FilterAccess.v
FilterCache.v
FilterSpec.v
FilterTlb.v
PrioQueue.v
PrioQueueSpec.v
WeaveEvents.v
WeaveSim.v
WeaveProofs.v
WeavePhase.v
Barrier.v
BarrierInv.v
BarrierOps.v
BarrierSteps.v
BarrierSpec.v
OooWindow.v
OooWindowInv.v
OooWindowOps.v
OooWindowSpec.v
OooQueues.v
OooCore.v
OooCoreInv.v
OooCoreRun.v
OooCoreSpec.v
Scheduler.v
SchedulerInv.v
SchedulerMoves.v
SchedulerOps.v
SchedulerPhase.v
SchedulerActs.v
SchedulerWays.v
SchedulerSmall.v
SchedulerSys.v
SchedulerLink.v
SchedulerStep.v
SchedulerDemo.v
SchedulerSpec.v
