(* ===== verification/Prelude.v ===== *)
(** * Verification of Banshee: a DRAM-cache simulator on top of zsim

    Banshee simulates a memory system in which an on-package DRAM works as a
    cache of the off-package DRAM.  A core's load or store goes through a
    hierarchy of coherent caches; a miss of the last level reaches a
    [MemoryController], which decides by its scheme (AlloyCache, UnisonCache,
    HybridCache = Banshee, ...) whether the line or page is in the DRAM cache,
    accesses the DDR channels, and moves pages between the DRAMs.  Time is
    simulated in two phases: the bound phase runs every access with zero-load
    latencies and records events; the weave phase replays the events with
    contention.  All sources named below are under [src/src].

    ** Files

    - [Prelude]: machine integers, the error and state monad [M], its weakest
      precondition [wp] (total correctness: no failing assertion, panic,
      out-of-range access, division by zero, null dereference, deadlock or
      exhausted fuel), search and counting on lists.
    - [Numeric]: doubles (IEEE binary64) and their order, [drand48], population
      count, [bithacks.h].
    - [MemHierarchy]: [memory_hierarchy.h]: requests, MESI states, and the class
      [MemSys] that states what a memory promises to its client.
    - [DdrBound], [DdrWeave], [DdrInit]: [ddr_mem.h], [ddr_mem.cpp]: one DDR
      channel.  [DdrBound] is the bound-phase access with the event recorder
      ([event_recorder.h]) and the clock conversions; [DdrWeave] the FR-FCFS
      scheduler (queues, banks, activation windows, refresh); [DdrInit] the
      constructor, the technology tables and the address mapping.
      [DdrWeaveProofs]: timing constraints and ordering.
    - [TagBuffer]: [TagBuffer] of [mc.h], [mc.cpp], and its invariant.
    - [Placement], [PlacementProofs]: [page_placement.*], [line_placement.*],
      [os_placement.*]: which page to cache and which to evict.
    - [MemController], [MemControllerProofs], [MemControllerSpec]: [mc.h],
      [mc.cpp]: the controller's constructor and its whole [access] for all
      schemes, composed with the tag buffer, the placement policies and any
      memories that satisfy [MemSys]; the DDR channels are an instance.
    - [ReplPolicy], [CacheArray]: [repl_policies.h] (LRU, LRUDC, NRU, LFU),
      [cache_arrays.*] (set-associative arrays).  [ReplPolicy] is a class with
      its laws, so that the caches are proved for every policy.
    - [MtRand], [H3Hash], [HashSpec]: [mtrand.h], [hash.*]: the random
      number generator and the hash families, with the reference definitions
      that they are compared with.
    - [ZArray], [ZArrayProofs], [ZArraySpec]: the Z arrays of [cache_arrays.*]:
      the walk over the positions, the path of a replacement and its rotation,
      composed with the hash families and any policy.
    - [Umon], [UmonSpec]: [utility_monitor.*]: the monitor that counts the misses of
      all associativities, its linked lists, and the caches with LRU replacement
      that it is compared with.
    - [Partition], [PartitionSpec]: [partition_mapper.*], [partitioner.h],
      [monitor.cpp], [lookahead.cpp]: mappers, the monitor of several partitions
      and the lookahead partitioner, over the classes [PartitionMonitor] and
      [PartReplPolicy]; [MonitorAccess] and [MonitorLaws] state what the policies
      and the partitioner rely on.
    - [WayPart], [WayPartSpec]: the way-partitioned policy of
      [part_repl_policies.h].
    - [InList]: [intrusive_list.h]: the doubly linked lists, as a heap of nodes with
      pointers, and the plain lists that they refine.
    - [IdealLru], [IdealPart]: [ideal_arrays.h]: the fully associative arrays, without
      and with partitions, over those lists.
    - [Coherence], [MemCtrls]: [coherence_ctrls.*], [cache.*], [mem_ctrls.*]: a
      tree of coherent caches over simple memories.  All caches are one store,
      because a parent invalidates its children and a request carries a pointer
      to the state of a line of the child.  [CoherenceInv], [CoherenceInval],
      [CoherenceEnv], [CoherenceSteps], [CoherenceAccess], [CoherenceProtocol],
      [CoherenceSpec]: the invariant and its preservation.
    - [FilterCache]: [filter_cache.h]: the filter in front of a core's cache, with
      its optional TLB; the filter arrays are part of the store of [Coherence],
      because invalidations change them.  [FilterAccess]: every operation of the
      hierarchy takes a line from a core's cache only together with its filter
      entry, and the core's own access.  [FilterSpec], [FilterTlb]:
      the invariant and the properties.
    - [Prefetch]: [prefetcher.*]: the stream prefetcher over any parent of the class
      [MemTop] that keeps [PfParent].  [PrefetchInv]: the events it builds, and the
      invariant.  [PrefetchSpec]: the parts of an access.  [PrefetchStream]: a parent
      for examples, histories and the properties.
    - [PrioQueue], [PrioQueueSpec]: [prio_queue.h]: the event queue of the weave
      phase, and the abstract priority queue that it refines.
    - [WeaveEvents], [WeaveSim], [WeaveProofs], [WeavePhase]:
      [timing_event.*], [contention_sim.*] and the event classes of
      [core_recorder.cpp], [weave_md1_mem.h] and [ooo_core_recorder.cpp] whose
      [simulate] only finishes the event: the heap of events with their
      dependences, and a phase of one domain.
    - [Barrier]: [barrier.h]: the barrier that separates the phases, with the
      threads' waits as a step relation.  [BarrierInv], [BarrierOps],
      [BarrierSteps]: the run list, the counters and the operations.
      [BarrierSpec]: all interleavings.
    - [OooWindow], [OooQueues], [OooCore]: [ooo_core.h], [ooo_core.cpp]: the
      out-of-order core.  [OooWindow] is the instruction window (two arrays of
      port masks and a map of far cycles), [OooQueues] the reorder buffer, the
      issue queue and the branch predictor, [OooCore] the core that composes
      them, over the interfaces [L1Caches] and [CoreRec] to the caches and the
      recorder.  [OooWindowInv], [OooWindowOps], [OooWindowSpec]: the window
      refines a table of busy ports.  [OooCoreInv], [OooCoreRun],
      [OooCoreSpec]: the stages of a uop, a basic block, and all sequences of
      blocks.
    - [Scheduler]: [scheduler.h], [scheduler.cpp], with the plain lists of
      [intrusive_list.h]: the scheduler of simulated threads over contexts, each operation split where
      it releases the lock; it is the callee of the barrier, and the cores are
      the interface [CoreOps].  [SchedulerInv]: its invariant and what it relies
      on of the cores.  [SchedulerMoves], [SchedulerOps], [SchedulerPhase]: single
      moves of threads and contexts, the policy, the end of a phase.
      [SchedulerActs], [SchedulerWays], [SchedulerSmall]: whole operations up to
      the barrier.  [SchedulerSys]: the
      system of threads, scheduler, barrier and watchdog, one step per section
      of code under the lock.  [SchedulerLink], [SchedulerStep]: the invariant of
      the system.  [SchedulerSpec], [SchedulerDemo]: the properties, and runs of
      a small machine.

    ** What the theorems show

    - Controller (C1-C4): from the state its constructor leaves, for the
      configurations of [params_ok], every sequence of requests is served to the
      end over the DDR channels; after any of them a page is in at most one way of
      its set, and the TLB names that way and no other.
    - Tag buffer (C6) and placement (C10): when an insertion succeeds; which way a
      miss replaces, or that it replaces none, on every branch of both policies,
      said by a specification of its own: the draw of the random number, the
      sampled miss, the least recently used or least frequent way, the threshold.
    - DDR channel (C16, C19, C20, C24): the clock conversions are
      inverse; requests of a row are served in order and the commands keep the
      DRAM's timing constraints; the address mapping is injective.
    - Out-of-order core (C8, C14, C15, C18, C22): the window books the first free
      port as a plain reservation table would, as long as long advances and extra
      slots are not mixed ([long_advance_keeps_extra_slots] shows why); the
      reorder buffer retires in order; the predictor stays in range; a uop
      respects its dependences; sequences of blocks run without a failed
      assertion below 2^30 cycles, again as long as uops with extra slots are not
      mixed with joins and phase boundaries, which move the clock.
    - Random numbers and hashes (C27): the generator is MT19937; the hash
      functions are linear and equal the reference loop on permuted rows (lemma
      [h3_family]).
    - Partitioning (C7, C11, C12, C23): a utility monitor counts the misses of
      LRU caches of every size; way partitioning replaces lines in a partition's
      own ways, those of other partitions first and the oldest first; a resize
      assigns the ways by the allocations if they sum to the ways, writes out of
      range if they sum to more, and fails its assertion if to less (C11); the
      lookahead algorithm ends, but gives out more buckets than there are, which
      is the second case (lemma [repartition_outcome], for monitors that keep the
      partitioner's law).  The lemma [umon_monitor_overruns] shows that the monitor
      of several partitions does not keep it: it writes out of range when it is
      read.
    - Prefetcher (C25, C38): with at least 16 buffers, no partitioned buffers and no
      load of page 0 every history of accesses and responses runs, with the
      events it builds, and prefetches stay in the page of their load; a stream of
      loads hits prefetched lines.
    - Caches (C28-C33): a replacement in a Z array moves lines along a path
      without repetition and loses only the victim; every sequence of loads and
      stores runs without a failed assertion or deadlock and leaves the hierarchy coherent;
      an access grants what it asked for; after every sequence of accesses to a new
      hierarchy, and after one more access, there is one writer, and every cache
      holds what the caches below it hold; invalidations are complete and report
      dirty data.
    - Weave phase (C34, C35): the event queue refines a priority queue; a phase
      ends and runs each event at exactly the cycle of the longest path of
      recorded delays that leads to it.
    - Ideal arrays (C21, C37): the fully associative array hits and evicts as a
      list of the most recent addresses; the partitioned one as a list per
      partition, where a miss evicts from a partition that has lines and is most
      above its target.  The constructor of the partitioned one writes out of
      range; C21 is about the states that represent the lists, among them the one
      that the constructor has built up to that write.
    - Filter cache (C36): without the TLB, for one process mask and outside the
      first line the filters are transparent, a hit is a hit of the cache with the permission the access needs; the loop that
      draws random pages ends, because the generator has full period, and pages
      are not shared; with the TLB a filter hit can be stale (lemma
      [tlb_stale_hit]).
    - Barrier (C39, C40): for every interleaving of threads no assertion fails,
      the parallelism is bounded, a phase ends only when no thread runs, and no
      wake-up is lost.
    - Scheduler (C5, C9, C13, C17, C26): for every interleaving of the threads'
      operations, the barrier and the watchdog's driving of time no assertion of
      the scheduler or the barrier fails; threads and contexts match, no queued
      thread could have a context, and no sleeper is late; what the end of a
      phase and of a quantum does; the watchdog's loop ends with the first
      sleeper awake in its phase.  C9 shows the race that the watchdog's breaking
      of fake leaves adds.

    ** Fuel

    Recursions that are not structural take a fuel, and the theorems show that
    the amount the definitions pass is enough: the levels of a cache hierarchy
    (children have smaller numbers than parents, so the number of caches
    suffices), the distance to the first event for the search of the event
    queue, the number of recorded events for the weave phase and for chains of
    delay events (the dependences are acyclic), the ways of a set and the
    entries of a buffer for searches.  The loop that draws random pages takes
    its fuel as an argument; the lemma [tlb_page_total] shows that an amount is
    enough.  The draws of
    [randInt(n)] take theirs as an argument too; how many are needed depends on
    the numbers, and the lemma says when it is not enough.  The walk of a Z array
    adds a candidate per step, so that the number of candidates suffices.
    The lookahead algorithm gives out at least one bucket per round.  The window of
    the core waits for a free place at most until it holds nothing (its arrays
    and the last far cycle), a long advance and a poisoned range take a step per
    cycle, and a block is fetched a line at a time.  The watchdog's loop takes the
    number of phases it runs as an argument, because threads that wait for the
    lock may end it early; C26 shows how many are enough.

    ** Not modelled

    Pin instrumentation, the decoder and the simpler core models (driven by a
    binary-instrumentation framework), the patches of system calls, statistics and
    configuration files (input and output), shared-memory allocation, the
    DRAMSim and detailed memory models, and of the partitioned policies Vantage.
    Of the weave phase,
    domain crossings and threads with several domains, and the bound-phase
    bookkeeping of the core recorders.  Locks are modelled where one thread can
    block itself (the caches); interleavings of several host threads for the
    barrier and the scheduler, whose critical sections are atomic under the
    scheduler's lock.  The system of the scheduler leaves out the matching of futex
    wake-ups, the breaking of fake leaves and the clean-up of killed processes,
    which are definitions of [Scheduler] and fail in some interleavings; of the
    scheduler itself, the host's sleeps and its look into [/proc] are left out. *)

From stdpp Require Import base list gmap strings.
From Stdlib Require Import ZArith Lia.
Local Open Scope Z_scope.

(** ** Machine integers

    A [w]-bit unsigned C++ integer is a [Z] in [0, 2^w); arithmetic that can
    leave the range is followed by an explicit wrap. *)

Definition u32 (z : Z) : Z := z mod 2 ^ 32.
Definition u64 (z : Z) : Z := z mod 2 ^ 64.
Definition i64 (z : Z) : Z :=
  let r := z mod 2 ^ 64 in if r <? 2 ^ 63 then r else r - 2 ^ 64.

Definition in_u32 (z : Z) : Prop := 0 <= z < 2 ^ 32.
Definition in_u64 (z : Z) : Prop := 0 <= z < 2 ^ 64.

Lemma u64_range z : in_u64 (u64 z).
Proof. unfold in_u64, u64. apply Z.mod_pos_bound. lia. Qed.

Lemma u32_range z : in_u32 (u32 z).
Proof. unfold in_u32, u32. apply Z.mod_pos_bound. lia. Qed.

Lemma u64_id z : in_u64 z -> u64 z = z.
Proof. apply Z.mod_small. Qed.

Lemma u32_id z : in_u32 z -> u32 z = z.
Proof. apply Z.mod_small. Qed.

Lemma i64_id z : - 2 ^ 63 <= z < 2 ^ 63 -> i64 z = z.
Proof.
  intros H. unfold i64. destruct (Z.ltb_spec z 0).
  - replace (z mod 2 ^ 64) with (z + 2 ^ 64).
    + destruct (Z.ltb_spec (z + 2 ^ 64) (2 ^ 63)); lia.
    + apply (Z.mod_unique _ _ (-1)); lia.
  - rewrite Z.mod_small by lia. destruct (Z.ltb_spec z (2 ^ 63)); lia.
Qed.

(** ** Failing computations

    [Ok] is a normal return.  [Err] is everything that stops the simulator:
    a failed [assert] (with the place in the source), a [panic], an index
    outside an array, an integer division by zero, the dereference of a
    pointer that was never set, a lock taken twice by one thread, and a model
    recursion that was cut short. *)

Inductive err :=
| AssertFail (where_ : string)
| Panic (where_ : string)
| OutOfRange
| DivByZero
| NullDeref
| Deadlock
| OutOfFuel.

Inductive res (A : Type) :=
| Ok (a : A)
| Err (e : err).
Arguments Ok {A} a.
Arguments Err {A} e.

(** A computation over a mutable state [S]: explicit state passing with
    errors. *)
Definition M (S A : Type) : Type := S -> res (A * S).

Definition ret {S A} (a : A) : M S A := fun s => Ok (a, s).
Definition fail {S A} (e : err) : M S A := fun _ => Err e.
Definition bind {S A B} (m : M S A) (f : A -> M S B) : M S B :=
  fun s => match m s with
           | Ok (a, s') => f a s'
           | Err e => Err e
           end.
Definition get {S} : M S S := fun s => Ok (s, s).
Definition gets {S A} (f : S -> A) : M S A := fun s => Ok (f s, s).
Definition modify {S} (f : S -> S) : M S unit := fun s => Ok (tt, f s).
Definition lift {S A} (r : res A) : M S A :=
  fun s => match r with Ok a => Ok (a, s) | Err e => Err e end.

(** [assert(b)] at a named place of the source (builds without [-DNASSERT]). *)
Definition assert_ {S} (w : string) (b : bool) : M S unit :=
  if b then ret tt else fail (AssertFail w).

(** Run a computation on one field of a larger state. *)
Definition zoom {S T A} (g : S -> T) (p : T -> S -> S) (m : M T A) : M S A :=
  fun s => match m (g s) with
           | Ok (a, t) => Ok (a, p t s)
           | Err e => Err e
           end.

Declare Scope banshee_scope.
Delimit Scope banshee_scope with banshee.
Notation "x <- m ;; k" := (bind m (fun x => k))
  (at level 100, m at next level, right associativity) : banshee_scope.
Notation "'let!' p := m 'in' k" := (bind m (fun x => match x with p => k end))
  (at level 10, p pattern, m at level 200, k at level 200) : banshee_scope.
Notation "m ;; k" := (bind m (fun _ => k))
  (at level 100, right associativity) : banshee_scope.
Open Scope banshee_scope.

(** [if (b) m] *)
Definition when {S} (b : bool) (m : M S unit) : M S unit :=
  if b then m else ret tt.

(** [for (x : l) f(x)] *)
Fixpoint forM {S A} (l : list A) (f : A -> M S unit) : M S unit :=
  match l with
  | [] => ret tt
  | x :: l' => f x ;; forM l' f
  end.

(** Reads of [l\[i\]]; C++ leaves the access outside the array undefined. *)
Definition at_ {A} (l : list A) (i : nat) : res A :=
  match l !! i with Some a => Ok a | None => Err OutOfRange end.

(** Writes of [l\[i\]]. *)
Definition set_at {A} (l : list A) (i : nat) (x : A) : res (list A) :=
  if (i <? length l)%nat then Ok (<[i := x]> l) else Err OutOfRange.

Lemma set_at_ok {A} (l : list A) i x : (i < length l)%nat -> set_at l i x = Ok (<[i := x]> l).
Proof. intros H. unfold set_at. by apply Nat.ltb_lt in H as ->. Qed.

Lemma at_ok {A} (l : list A) i x : l !! i = Some x -> at_ l i = Ok x.
Proof. intros H. unfold at_. by rewrite H. Qed.

(** Lists with the same positions have the same length. *)
Lemma length_of_lookup {A B} (l : list A) (l' : list B) :
  (forall i, is_Some (l' !! i) <-> is_Some (l !! i)) -> length l' = length l.
Proof.
  intros H. apply Nat.le_antisymm; apply Nat.nlt_ge; intros Hlt.
  - apply lookup_lt_is_Some in Hlt. apply H, lookup_lt_is_Some in Hlt. lia.
  - apply lookup_lt_is_Some in Hlt. apply H, lookup_lt_is_Some in Hlt. lia.
Qed.

(** [a / b] and [a % b] on unsigned operands. *)
Definition udiv (a b : Z) : res Z := if b =? 0 then Err DivByZero else Ok (a / b).
Definition umod (a b : Z) : res Z := if b =? 0 then Err DivByZero else Ok (a mod b).

(** ** Total correctness

    [wp m Q s]: from [s] the computation returns normally, and [Q] holds of
    the value and the final state.  No assertion, panic or out-of-range access
    is reachable in a computation that satisfies [wp]. *)
Definition wp {S A} (m : M S A) (Q : A -> S -> Prop) (s : S) : Prop :=
  match m s with Ok (a, s') => Q a s' | Err _ => False end.

Lemma wp_ok {S A} (m : M S A) Q s :
  wp m Q s -> exists a s', m s = Ok (a, s') /\ Q a s'.
Proof. unfold wp. destruct (m s) as [[a s']|e]; naive_solver. Qed.

Lemma ok_wp {S A} (m : M S A) Q s a s' :
  m s = Ok (a, s') -> Q a s' -> wp m Q s.
Proof. unfold wp. by intros ->. Qed.

Lemma wp_ret {S A} (a : A) Q (s : S) : Q a s -> wp (ret a) Q s.
Proof. done. Qed.

Lemma wp_bind {S A B} (m : M S A) (f : A -> M S B) Q s :
  wp m (fun a => wp (f a) Q) s -> wp (bind m f) Q s.
Proof. unfold wp, bind. destruct (m s) as [[a s']|]; done. Qed.

Lemma wp_mono {S A} (m : M S A) (P Q : A -> S -> Prop) s :
  wp m P s -> (forall a s', P a s' -> Q a s') -> wp m Q s.
Proof. unfold wp. destruct (m s) as [[a s']|]; naive_solver. Qed.

Lemma wp_gets {S A} (f : S -> A) Q s : Q (f s) s -> wp (gets f) Q s.
Proof. done. Qed.

Lemma wp_get {S} Q (s : S) : Q s s -> wp get Q s.
Proof. done. Qed.

Lemma wp_modify {S} (f : S -> S) Q s : Q tt (f s) -> wp (modify f) Q s.
Proof. done. Qed.

Lemma wp_assert {S} w b Q (s : S) : b = true -> Q tt s -> wp (assert_ w b) Q s.
Proof. by intros ->. Qed.

Lemma wp_lift {S A} (r : res A) a Q (s : S) : r = Ok a -> Q a s -> wp (lift r) Q s.
Proof. by intros ->. Qed.

Lemma wp_when {S} (b : bool) (m : M S unit) Q s :
  (b = true -> wp m Q s) -> (b = false -> Q tt s) -> wp (when b m) Q s.
Proof. destruct b; unfold when; intros H1 H2; [by apply H1|by apply wp_ret, H2]. Qed.

Lemma wp_zoom {S T A} (g : S -> T) p (m : M T A) Q s :
  wp m (fun a t => Q a (p t s)) (g s) -> wp (zoom g p m) Q s.
Proof. unfold wp, zoom. destruct (m (g s)) as [[a t]|]; done. Qed.

(** The rule for a counted loop: an invariant over the elements already
    visited. *)
Lemma wp_forM {S A} (l : list A) (f : A -> M S unit) (I : list A -> S -> Prop) Q s :
  I [] s ->
  (forall pre x post s', l = pre ++ x :: post -> I pre s' ->
     wp (f x) (fun _ => I (pre ++ [x])) s') ->
  (forall s', I l s' -> Q tt s') ->
  wp (forM l f) Q s.
Proof.
  intros HI Hstep HQ.
  enough (forall pre post s', l = pre ++ post -> I pre s' ->
            wp (forM post f) (fun _ => I l) s') as Hgen.
  { eapply wp_mono; [by apply (Hgen [] l)|]. intros [] s'' ?. by apply HQ. }
  intros pre post. revert pre.
  induction post as [|x post IH]; intros pre s' Hl Hs'; simpl.
  - apply wp_ret. by rewrite app_nil_r in Hl; subst.
  - apply wp_bind. eapply wp_mono; [by eapply Hstep|].
    intros [] s'' Hs''. apply (IH (pre ++ [x])); [|done].
    by rewrite <- app_assoc.
Qed.

(** The simpler rule: a state predicate every iteration keeps. *)
Lemma wp_forM_inv {S A} (l : list A) (f : A -> M S unit) (I : S -> Prop) s :
  I s -> (forall x s', x ∈ l -> I s' -> wp (f x) (fun _ => I) s') ->
  wp (forM l f) (fun _ => I) s.
Proof.
  intros HI Hstep. apply (wp_forM l f (fun _ => I)); [done| |done].
  intros pre x post s' -> HI'. apply Hstep; [|done].
  apply elem_of_app. right. left.
Qed.

(** One step of symbolic execution. *)
Ltac wp_step :=
  lazymatch goal with
  | |- wp (bind _ _) _ _ => apply wp_bind
  | |- wp (ret _) _ _ => apply wp_ret
  | |- wp (gets _) _ _ => apply wp_gets
  | |- wp get _ _ => apply wp_get
  | |- wp (modify _) _ _ => apply wp_modify
  | |- wp (assert_ _ _) _ _ => apply wp_assert
  | |- wp (zoom _ _ _) _ _ => apply wp_zoom
  | |- wp (when _ _) _ _ => apply wp_when
  | |- wp (if ?b then _ else _) _ _ => let E := fresh "E" in destruct b eqn:E
  | |- wp (match ?x with _ => _ end) _ _ => let E := fresh "E" in destruct x eqn:E
  end; cbv beta.
Ltac wp_steps := repeat (wp_step; try intros; simpl).

(** ** Search loops

    [find_idx p l] is the index of the first element of [l] that satisfies [p],
    or [length l]: the shape of every
    [for (i < n) if (p(l\[i\])) return i; return n;] of the sources. *)
Fixpoint find_idx {A} (p : A -> bool) (l : list A) : nat :=
  match l with
  | [] => 0%nat
  | x :: l' => if p x then 0%nat else S (find_idx p l')
  end.

Lemma find_idx_le {A} (p : A -> bool) l : (find_idx p l <= length l)%nat.
Proof. induction l as [|x l IH]; simpl; [lia|]. destruct (p x); lia. Qed.

Lemma find_idx_lt {A} (p : A -> bool) l :
  (find_idx p l < length l)%nat ->
  exists x, l !! find_idx p l = Some x /\ p x = true /\
    forall j y, (j < find_idx p l)%nat -> l !! j = Some y -> p y = false.
Proof.
  induction l as [|x l IH]; simpl; [lia|]. destruct (p x) eqn:E.
  - intros _. exists x. repeat split; auto. intros; lia.
  - intros H. destruct IH as (y & Hy & Hp & Hmin); [lia|].
    exists y. repeat split; auto.
    intros [|j] z Hj Hz; simplify_eq/=; [done|]. eapply Hmin; [|done]. lia.
Qed.

Lemma find_idx_none {A} (p : A -> bool) l :
  find_idx p l = length l -> forall i x, l !! i = Some x -> p x = false.
Proof.
  induction l as [|x l IH]; simpl; intros H i y Hy; [done|].
  destruct (p x) eqn:E; [lia|]. destruct i; simplify_eq/=; eauto.
Qed.

Lemma find_idx_some {A} (p : A -> bool) l i x :
  l !! i = Some x -> p x = true -> (find_idx p l <= i)%nat.
Proof.
  revert i. induction l as [|y l IH]; simpl; intros i Hi Hp; [done|].
  destruct (p y) eqn:E; [lia|]. destruct i; simplify_eq/=; [congruence|].
  apply le_n_S. eauto.
Qed.

(** [count_if p l] counts the elements that satisfy [p]. *)
Fixpoint count_if {A} (p : A -> bool) (l : list A) : nat :=
  match l with
  | [] => 0%nat
  | x :: l' => ((if p x then 1 else 0) + count_if p l')%nat
  end.

Lemma count_if_le {A} (p : A -> bool) l : (count_if p l <= length l)%nat.
Proof. induction l as [|x l IH]; simpl; [lia|]. destruct (p x); lia. Qed.

Lemma count_if_insert {A} (p : A -> bool) l i x y :
  l !! i = Some x ->
  (count_if p (<[i:=y]> l) + (if p x then 1 else 0) =
   count_if p l + (if p y then 1 else 0))%nat.
Proof.
  revert i. induction l as [|z l IH]; intros [|i] H; simplify_eq/=.
  - lia.
  - specialize (IH i H). lia.
Qed.

(** Two distinct positions witness a count of at least two. *)
Lemma count_if_ge2 {A} (p : A -> bool) l :
  (2 <= count_if p l)%nat ->
  exists i j x y, i <> j /\ l !! i = Some x /\ l !! j = Some y /\
    p x = true /\ p y = true.
Proof.
  assert (forall l, (1 <= count_if p l)%nat ->
            exists j y, l !! j = Some y /\ p y = true) as H1.
  { clear. induction l as [|y l IH]; simpl; [lia|]. destruct (p y) eqn:E; intros H.
    - by exists 0%nat, y.
    - destruct (IH H) as (j & z & ? & ?). by exists (S j), z. }
  induction l as [|x l IH]; simpl; [lia|]. destruct (p x) eqn:E; intros H.
  - destruct (H1 l) as (j & y & Hj & Hy); [lia|].
    exists 0%nat, (S j), x, y. repeat split; auto.
  - destruct IH as (i & j & y & z & Hij & Hi & Hj & Hy & Hz); [lia|].
    exists (S i), (S j), y, z. repeat split; auto.
Qed.

(** ** Hints shared by the components *)
Create HintDb banshee.
#[export] Hint Resolve u64_range u32_range find_idx_le count_if_le : banshee.
