(* ===== verification/Numeric.v ===== *)
(** * Numeric facts of the sources that are neither integers nor data:
    IEEE doubles, the C library's [drand48] family, and population counts.

    Doubles are the binary64 format of the Standard Library's [SpecFloat]
    (radix 2, 53 bits of precision, round to nearest even): every operation is
    the correctly rounded one, as SSE2 code computes it. *)

From stdpp Require Import base list.
From Stdlib Require Import ZArith Lia Floats.SpecFloat.
From S2P Require Import Prelude.
Local Open Scope Z_scope.

(** ** Doubles *)
Definition double : Type := spec_float.

Definition dbl_of_Z (z : Z) : double := binary_normalize 53 1024 z 0 false.
Definition dmul : double -> double -> double := SFmul 53 1024.
Definition ddiv : double -> double -> double := SFdiv 53 1024.
Definition dadd : double -> double -> double := SFadd 53 1024.
Definition dsub : double -> double -> double := SFsub 53 1024.
Definition dltb : double -> double -> bool := SFltb.
Definition dleb : double -> double -> bool := SFleb.
Definition deqb : double -> double -> bool := SFeqb.

(** The decimal literal [n / d]: a C++ literal is rounded to nearest, and so is
    the quotient of two small integers. *)
Definition dlit (n d : Z) : double := ddiv (dbl_of_Z n) (dbl_of_Z d).

(** Conversion of a double to [int64_t]: truncation toward zero.  Outside the
    range the value is the one [cvttsd2si] delivers. *)
Definition dbl_to_i64 (x : double) : Z :=
  let indefinite := - 2 ^ 63 in
  match x with
  | S754_zero _ => 0
  | S754_finite s m e =>
      let mag := if 0 <=? e then Zpos m * 2 ^ e else Zpos m / 2 ^ (- e) in
      let v := if s then - mag else mag in
      if ((- 2 ^ 63 <=? v) && (v <? 2 ^ 63))%bool then v else indefinite
  | _ => indefinite
  end.

(** ** [drand48]

    glibc's [struct drand48_data] as its 48-bit register: one step of the
    linear congruential generator, then the leading bits of the register. *)
Definition drand48_data : Type := Z.

Definition drand48_step (x : drand48_data) : drand48_data :=
  (25214903917 * x + 11) mod 2 ^ 48.

Definition srand48_r (seed : Z) : drand48_data := u32 seed * 2 ^ 16 + 13070.

(** [drand48_r(&b, &f)]: [f] is the register over 2^48. *)
Definition drand48_r (x : drand48_data) : double * drand48_data :=
  let x' := drand48_step x in (binary_normalize 53 1024 x' (-48) false, x').

(** [lrand48_r(&b, &r)]: [r] is the 31 leading bits. *)
Definition lrand48_r (x : drand48_data) : Z * drand48_data :=
  let x' := drand48_step x in (Z.shiftr x' 17, x').

Lemma lrand48_r_range x : 0 <= fst (lrand48_r x) < 2 ^ 31.
Proof.
  simpl. rewrite Z.shiftr_div_pow2 by lia. unfold drand48_step.
  assert (0 <= (25214903917 * x + 11) mod 2 ^ 48 < 2 ^ 48) as H
    by (apply Z.mod_pos_bound; lia).
  split; [apply Z.div_pos; lia|]. apply Z.div_lt_upper_bound; lia.
Qed.

(** ** [__builtin_popcountll] *)
Definition popcountll (z : Z) : Z :=
  Z.of_nat (count_if (fun i => Z.testbit z (Z.of_nat i)) (seq 0 64)).

Lemma popcountll_le z : 0 <= popcountll z <= 64.
Proof.
  unfold popcountll. split; [lia|].
  pose proof (count_if_le (fun i => Z.testbit z (Z.of_nat i)) (seq 0 64)) as H.
  rewrite length_seq in H. lia.
Qed.

Lemma count_if_pos {A} (p : A -> bool) l x :
  x ∈ l -> p x = true -> (0 < count_if p l)%nat.
Proof.
  induction l as [|y l IH]; intros Hx Hp; [by apply not_elem_of_nil in Hx|].
  simpl. apply elem_of_cons in Hx as [->|Hx]; [rewrite Hp; lia|].
  specialize (IH Hx Hp). lia.
Qed.

Lemma count_if_zero {A} (p : A -> bool) l :
  (forall x, x ∈ l -> p x = false) -> count_if p l = 0%nat.
Proof.
  induction l as [|y l IH]; intros H; simpl; [done|].
  rewrite (H y) by left. rewrite IH; [done|]. intros x Hx. apply H. by right.
Qed.

(** A 64-bit vector has a set bit exactly when it is not zero. *)
Lemma popcountll_pos z : in_u64 z -> (0 < popcountll z <-> z <> 0).
Proof.
  intros Hz. unfold popcountll. split.
  - intros H ->. rewrite count_if_zero in H; [lia|].
    intros x _. apply Z.bits_0.
  - intros Hne. assert (0 < z) as Hpos by (unfold in_u64 in Hz; lia).
    assert (Z.log2 z < 64) as Hlog by (apply Z.log2_lt_pow2; unfold in_u64 in Hz; lia).
    pose proof (Z.log2_nonneg z) as Hnn.
    pose proof (count_if_pos (fun i => Z.testbit z (Z.of_nat i)) (seq 0 64)
                  (Z.to_nat (Z.log2 z))) as Hc.
    enough (0 < count_if (fun i => Z.testbit z (Z.of_nat i)) (seq 0 64))%nat by lia.
    apply Hc; [apply elem_of_seq; lia|].
    rewrite Z2Nat.id by lia. by apply Z.bit_log2.
Qed.

Lemma popcountll_zero_iff z : in_u64 z -> (popcountll z = 0 <-> z = 0).
Proof.
  intros Hz. pose proof (popcountll_pos z Hz) as H.
  pose proof (popcountll_le z) as Hr. split; intros E.
  - destruct (decide (z = 0)); [done|]. apply H in n. lia.
  - subst. apply Z.le_antisymm; [|lia]. destruct (Z.le_gt_cases (popcountll 0) 0); [done|].
    exfalso. apply H; [lia|done].
Qed.

(** [v |= 1UL << b] for a line number [b] of a page. *)
Lemma lor_bit_u64 v b : in_u64 v -> 0 <= b < 64 -> in_u64 (Z.lor v (Z.shiftl 1 b)).
Proof.
  unfold in_u64. intros Hv Hb. rewrite Z.shiftl_1_l.
  assert (0 <= Z.lor v (2 ^ b)) by (apply Z.lor_nonneg; lia).
  split; [done|]. destruct (Z.eq_dec (Z.lor v (2 ^ b)) 0) as [->|Hne]; [lia|].
  apply Z.log2_lt_pow2; [lia|]. rewrite Z.log2_lor by lia.
  apply Z.max_lub_lt; [|rewrite Z.log2_pow2; lia].
  destruct (Z.eq_dec v 0) as [->|]; [simpl; lia|]. apply Z.log2_lt_pow2; lia.
Qed.

Lemma lor_bit_nonzero v b : in_u64 v -> 0 <= b < 64 -> Z.lor v (Z.shiftl 1 b) <> 0.
Proof.
  intros Hv Hb H. apply Z.lor_eq_0_iff in H as [_ H].
  rewrite Z.shiftl_1_l in H. pose proof (Z.pow_pos_nonneg 2 b). lia.
Qed.

#[export] Hint Resolve lor_bit_u64 lor_bit_nonzero popcountll_le : banshee.

(** Spot checks of the numeric model. *)
Example popcount_ex : popcountll 65535 = 16.
Proof. reflexivity. Qed.
Example dlit_ex : dltb (dlit 7 10) (dlit 8 10) = true.
Proof. reflexivity. Qed.
Example trunc_ex : dbl_to_i64 (ddiv (dbl_of_Z (-7)) (dbl_of_Z 2)) = -3.
Proof. reflexivity. Qed.
Example lrand48_ex : fst (lrand48_r (srand48_r 0)) = 366850414.
Proof. reflexivity. Qed.

(** ** Bit hacks ([src/src/bithacks.h]) *)

(** [31 - __builtin_clz(val)], and 0 for 0. *)
Definition ilog2 (val : Z) : Z := Z.log2 val.
Definition isPow2 (val : Z) : bool := negb (val =? 0) && (Z.land val (val - 1) =? 0).

(** ** Signs of doubles

    What the partitioner relies on: the quotient of a count and a positive count
    is a number that is not negative. *)

(** Not a NaN and without a minus sign. *)
Definition dbl_nonneg (x : double) : Prop :=
  match x with
  | S754_zero s | S754_infinity s | S754_finite s _ _ => s = false
  | S754_nan => False
  end.

Lemma iter_shr_nonneg p mrs : 0 <= shr_m mrs -> 0 <= shr_m (iter_pos shr_1 p mrs).
Proof.
  revert mrs. assert (forall mrs, 0 <= shr_m mrs -> 0 <= shr_m (shr_1 mrs)) as H1.
  { intros [m r s] H. simpl in *. destruct m as [|[]|]; simpl; lia. }
  induction p as [p IH|p IH|]; intros mrs H; simpl; auto.
Qed.

Lemma shr_fexp_nonneg m e l : 0 <= m -> 0 <= shr_m (fst (shr_fexp 53 1024 m e l)).
Proof.
  intros H. unfold shr_fexp, shr.
  assert (0 <= shr_m (shr_record_of_loc m l)) as Hm by (destruct l as [|[]]; done).
  destruct (_ - e); simpl; [done|by apply iter_shr_nonneg|done].
Qed.

Lemma round_aux_nonneg m e l : 0 <= m -> dbl_nonneg (binary_round_aux 53 1024 false m e l).
Proof.
  intros H. unfold binary_round_aux.
  pose proof (shr_fexp_nonneg m e l H) as H1. destruct (shr_fexp 53 1024 m e l) as [mrs1 e1]. simpl in H1.
  assert (0 <= round_nearest_even (shr_m mrs1) (loc_of_shr_record mrs1)) as H2.
  { unfold round_nearest_even. destruct (loc_of_shr_record mrs1) as [|[]]; try case_match; lia. }
  pose proof (shr_fexp_nonneg _ e1 loc_Exact H2) as H3.
  destruct (shr_fexp 53 1024 _ e1 loc_Exact) as [mrs2 e2]. simpl in H3.
  destruct (shr_m mrs2); [done| |lia]. by destruct (e2 <=? 1024 - 53).
Qed.

Lemma digits_iter k p : Zpos (digits2_pos (Pos.iter xO p k)) = Zpos (digits2_pos p) + Zpos k.
Proof.
  induction k as [|k IH] using Pos.peano_ind; [simpl; lia|].
  rewrite Pos.iter_succ. simpl digits2_pos. rewrite Pos2Z.inj_succ, IH. lia.
Qed.

(** A mantissa of 53 bits is rounded to itself. *)
Lemma round_aux_exact m e :
  fexp 53 1024 (Zpos (digits2_pos m) + e) = e -> e <= 971 ->
  binary_round_aux 53 1024 false (Zpos m) e loc_Exact = S754_finite false m e.
Proof.
  intros He He'. unfold binary_round_aux, shr_fexp.
  replace (Zdigits2 (Zpos m)) with (Zpos (digits2_pos m)) by done. rewrite He, Z.sub_diag. simpl.
  rewrite He, Z.sub_diag. simpl. destruct (Z.leb_spec e (1024 - 53)); [done|lia].
Qed.

(** Integers below 2^53 are doubles. *)
Lemma dbl_of_pos p : Zpos (digits2_pos p) <= 53 -> exists m e, dbl_of_Z (Zpos p) = S754_finite false m e.
Proof.
  intros Hd. unfold dbl_of_Z, binary_normalize, binary_round.
  rewrite Z.add_0_r. set (d := Zpos (digits2_pos p)) in *.
  assert (0 < d) as Hd0 by (unfold d; lia).
  assert (forall z, 0 < z <= 53 -> fexp 53 1024 z = z - 53) as Hf by (intros; unfold fexp, emin; lia).
  rewrite Hf by lia. unfold shl_align. rewrite Z.sub_0_r. destruct (d - 53) as [|q|q] eqn:E; [|lia|].
  - eexists _, _. apply round_aux_exact; [|lia]. fold d. rewrite Hf by lia. lia.
  - eexists _, _. apply round_aux_exact; [|lia]. rewrite digits_iter. fold d. rewrite Hf by lia. lia.
Qed.

Lemma digits_bound p n : Zpos p < 2 ^ Z.of_nat n -> Zpos (digits2_pos p) <= Z.of_nat n.
Proof.
  revert n. induction p as [p IH|p IH|]; intros n Hp.
  1,2: destruct n as [|n]; [simpl in Hp; lia|]; rewrite Nat2Z.inj_succ, Z.pow_succ_r in Hp by lia;
    simpl digits2_pos; rewrite Pos2Z.inj_succ, Nat2Z.inj_succ; specialize (IH n); lia.
  destruct n; [simpl in Hp; lia|]. simpl digits2_pos. lia.
Qed.

Lemma dbl_of_u32 z : 0 < z < 2 ^ 32 -> exists m e, dbl_of_Z z = S754_finite false m e.
Proof.
  intros Hz. destruct z as [|p|p]; [lia| |lia]. apply dbl_of_pos.
  pose proof (digits_bound p 32). simpl Z.of_nat in *. lia.
Qed.

(** The quotient of two counts. *)
Lemma ddiv_counts a b : 0 <= a < 2 ^ 32 -> 0 < b < 2 ^ 32 -> dbl_nonneg (ddiv (dbl_of_Z a) (dbl_of_Z b)).
Proof.
  intros Ha Hb. destruct (dbl_of_u32 b Hb) as (mb & eb & ->).
  destruct (Z.eq_dec a 0) as [->|Hne]; [done|].
  destruct (dbl_of_u32 a) as (ma & ea & ->); [lia|].
  unfold ddiv, SFdiv, SFdiv_core_binary.
  set (m' := match _ with Z0 => _ | Zpos _ => _ | Zneg _ => _ end).
  assert (0 <= m') as Hm'.
  { unfold m'. case_match; [lia|apply Z.shiftl_nonneg; lia|lia]. }
  pose proof (Z_div_mod m' (Zpos mb) ltac:(lia)) as Hdm.
  destruct (Z.div_eucl m' (Zpos mb)) as [q r]. simpl xorb. apply round_aux_nonneg. nia.
Qed.

(** Every such number is above the start value -1 of a maximum. *)
Lemma minus_one_lt x : dbl_nonneg x -> dltb (dbl_of_Z (-1)) x = true.
Proof.
  replace (dbl_of_Z (-1)) with (S754_finite true 4503599627370496 (-52)) by (vm_compute; reflexivity).
  destruct x as [s|s| |s m e]; simpl; try done; intros ->; done.
Qed.

(** ** Quotients of differences

    What a replacement policy relies on: the sign of a quotient is that of its
    numerator, and one that is above -1 is rounded to a number above -2. *)

Lemma round_aux_opp m e l : binary_round_aux 53 1024 true m e l = SFopp (binary_round_aux 53 1024 false m e l).
Proof.
  unfold binary_round_aux. destruct (shr_fexp 53 1024 m e l) as [mrs e1].
  destruct (shr_fexp 53 1024 _ e1 loc_Exact) as [mrs' e2]. destruct (shr_m mrs'); [done| |done]. by destruct (_ <=? _).
Qed.

Lemma dbl_of_opp p : dbl_of_Z (Zneg p) = SFopp (dbl_of_Z (Zpos p)).
Proof.
  unfold dbl_of_Z, binary_normalize, binary_round. destruct (shl_align p 0 _) as [m e]. apply round_aux_opp.
Qed.

Lemma ddiv_opp x m e : dbl_nonneg x -> ddiv (SFopp x) (S754_finite false m e) = SFopp (ddiv x (S754_finite false m e)).
Proof.
  unfold ddiv, SFdiv. destruct x as [s|s| |s m' e']; simpl; try done; intros ->; try done.
  destruct (SFdiv_core_binary _ _ _ _ _ _) as [[q e1] l]. apply round_aux_opp.
Qed.

Lemma dbl_of_nonneg z : 0 <= z < 2 ^ 32 -> dbl_nonneg (dbl_of_Z z).
Proof.
  intros Hz. destruct (Z.eq_dec z 0) as [->|]; [done|]. destruct (dbl_of_u32 z) as (m & e & ->); [lia|done].
Qed.

Lemma ddiv_negative a b : 0 < a < 2 ^ 32 -> 0 < b < 2 ^ 32 ->
  ddiv (dbl_of_Z (- a)) (dbl_of_Z b) = SFopp (ddiv (dbl_of_Z a) (dbl_of_Z b)).
Proof.
  intros Ha Hb. destruct a as [|a|a]; [lia| |lia]. change (- Zpos a) with (Zneg a). rewrite dbl_of_opp.
  pose proof (dbl_of_nonneg (Zpos a) ltac:(lia)) as Hn. destruct (dbl_of_u32 b Hb) as (m & e & ->). by apply ddiv_opp.
Qed.

(** A positive quotient has a positive numerator. *)
Lemma ddiv_positive a b : - 2 ^ 32 < a -> 0 < b < 2 ^ 32 -> dltb (dbl_of_Z 0) (ddiv (dbl_of_Z a) (dbl_of_Z b)) = true -> 0 < a.
Proof.
  intros Ha Hb Hd. destruct (Z.lt_trichotomy a 0) as [Hneg|[->|?]]; [|by destruct (dbl_of_u32 b Hb) as (m & e & E); rewrite E in Hd|done].
  replace a with (- - a) in Hd by lia. rewrite ddiv_negative in Hd by lia.
  pose proof (ddiv_counts (- a) b ltac:(lia) Hb) as Hn. destruct (ddiv _ _) as [s|s| |s m e]; simpl in *; subst; done.
Qed.

Lemma digits_upper p : Zpos p < 2 ^ Zpos (digits2_pos p).
Proof.
  induction p as [p IH|p IH|]; cbn [digits2_pos]; [| |done].
  all: rewrite Pos2Z.inj_succ, Z.pow_succ_r by lia; lia.
Qed.

Lemma digits_below p : 2 ^ (Zpos (digits2_pos p) - 1) <= Zpos p.
Proof.
  induction p as [p IH|p IH|]; cbn [digits2_pos]; [| |done].
  all: rewrite Pos2Z.inj_succ; replace (Z.succ (Zpos (digits2_pos p)) - 1) with (Z.succ (Zpos (digits2_pos p) - 1)) by lia;
    rewrite Z.pow_succ_r by lia; lia.
Qed.

Lemma digits_are p n : 2 ^ Z.of_nat n <= Zpos p < 2 ^ Z.of_nat (S n) -> Zpos (digits2_pos p) = Z.of_nat (S n).
Proof.
  intros [Hl Hu]. apply digits_bound in Hu. pose proof (digits_upper p) as Hd.
  assert (Z.of_nat n < Zpos (digits2_pos p)) by (apply (Z.pow_lt_mono_r_iff 2); lia). lia.
Qed.

Lemma iter_xO k p : Zpos (Pos.iter xO p k) = Zpos p * 2 ^ Zpos k.
Proof.
  induction k as [|k IH] using Pos.peano_ind; [simpl; lia|].
  rewrite Pos.iter_succ, Pos2Z.inj_succ, Z.pow_succ_r, Pos2Z.inj_xO, IH by lia. lia.
Qed.

(** The mantissa and the exponent of a count. *)
Lemma dbl_of_count p : Zpos p < 2 ^ 32 ->
  exists m e, dbl_of_Z (Zpos p) = S754_finite false m e /\ Zpos m = Zpos p * 2 ^ (- e) /\ - 52 <= e <= 0 /\
    Zpos (digits2_pos m) = 53.
Proof.
  intros Hp. pose proof (digits_bound p 32 Hp) as Hd. simpl Z.of_nat in Hd.
  unfold dbl_of_Z, binary_normalize, binary_round. rewrite Z.add_0_r. set (d := Zpos (digits2_pos p)) in *.
  assert (0 < d) as Hd0 by (unfold d; lia).
  assert (fexp 53 1024 d = d - 53) as Hf by (unfold fexp, emin; lia).
  rewrite Hf. unfold shl_align. rewrite Z.sub_0_r. destruct (d - 53) as [|q|q] eqn:E; [lia|lia|].
  exists (Pos.iter xO p q), (Zneg q).
  assert (Zpos (digits2_pos (Pos.iter xO p q)) = 53) as Hm by (rewrite digits_iter; fold d; lia).
  split_and!; [|rewrite iter_xO; done|lia|lia|done].
  apply round_aux_exact; [|lia]. rewrite Hm. unfold fexp, emin. lia.
Qed.

(** The second step of a rounding moves the point by one place at most. *)
Lemma shr_fexp_once m e : 0 <= m <= 2 ^ 53 -> - 200 <= e -> e <= -53 -> snd (shr_fexp 53 1024 m e loc_Exact) <= -52.
Proof.
  intros Hm He1 He2. unfold shr_fexp, shr. assert (fexp 53 1024 (Zdigits2 m + e) - e <= 1) as Hn.
  { unfold fexp, emin. destruct m as [|m|m]; simpl; [lia| |lia]. pose proof (digits_bound m 54) as Hd. simpl in Hd. lia. }
  destruct (_ - e) as [|n|n]; simpl; lia.
Qed.

Lemma round_up_bound m l : m <= round_nearest_even m l <= m + 1.
Proof. unfold round_nearest_even. destruct l as [|[]]; try case_match; lia. Qed.

(** A number below 1 is rounded to 1 or less. *)
Lemma round_aux_below_one q e l : 2 ^ 52 <= q < 2 ^ 54 -> - 200 <= e -> e <= (if q <? 2 ^ 53 then -53 else -54) ->
  match binary_round_aux 53 1024 false q e l with
  | S754_zero _ => True
  | S754_finite _ _ e2 => e2 <= -52
  | _ => False
  end.
Proof.
  intros Hq He He'. destruct q as [|q|q]; [lia| |lia].
  pose proof (round_aux_nonneg (Zpos q) e l ltac:(lia)) as Hnn. unfold binary_round_aux in *.
  assert (exists m1, 0 <= m1 < 2 ^ 53 /\ shr_m (fst (shr_fexp 53 1024 (Zpos q) e l)) = m1 /\
    - 200 <= snd (shr_fexp 53 1024 (Zpos q) e l) <= -53) as (m1 & Hm1 & Em1 & He1).
  { unfold shr_fexp. cbn [Zdigits2]. destruct (Z.ltb_spec (Zpos q) (2 ^ 53)).
    - rewrite (digits_are q 52) by (simpl Z.of_nat; lia). replace (fexp 53 1024 _ - e) with 0 by (unfold fexp, emin; simpl Z.of_nat; lia).
      exists (Zpos q). split; [lia|]. split; [by destruct l as [|[]]|]. simpl. lia.
    - rewrite (digits_are q 53) by (simpl Z.of_nat; lia). replace (fexp 53 1024 _ - e) with 1 by (unfold fexp, emin; simpl Z.of_nat; lia).
      exists (Zpos q / 2). split; [split; [apply Z.div_pos; lia|apply Z.div_lt_upper_bound; lia]|]. split; [|simpl; lia].
      rewrite <- Z.div2_div. by destruct l as [|[]], q. }
  destruct (shr_fexp 53 1024 (Zpos q) e l) as [mrs e1]. cbn [fst snd] in *. subst m1.
  pose proof (round_up_bound (shr_m mrs) (loc_of_shr_record mrs)) as Hr.
  pose proof (shr_fexp_once (round_nearest_even (shr_m mrs) (loc_of_shr_record mrs)) e1 ltac:(lia) ltac:(lia) ltac:(lia)) as He2.
  destruct (shr_fexp 53 1024 (round_nearest_even _ _) e1 loc_Exact) as [mrs2 e2]. cbn [fst snd] in *.
  destruct (shr_m mrs2); [done| |done]. destruct (Z.leb_spec e2 (1024 - 53)); [done|lia].
Qed.

(** The quotient of a count by a greater one. *)
Lemma ddiv_below_one a b : 0 < a < b -> b < 2 ^ 32 ->
  match ddiv (dbl_of_Z a) (dbl_of_Z b) with
  | S754_zero _ => True
  | S754_finite _ _ e => e <= -52
  | _ => False
  end.
Proof.
  intros Ha Hb. destruct a as [|a|a]; [lia| |lia]. destruct b as [|b|b]; [lia| |lia].
  destruct (dbl_of_count a ltac:(lia)) as (ma & ea & -> & Va & Ba & Da).
  destruct (dbl_of_count b ltac:(lia)) as (mb & eb & -> & Vb & Bb & Db).
  pose proof (digits_below ma) as La. pose proof (digits_upper ma) as Ua. rewrite Da in La, Ua.
  pose proof (digits_below mb) as Lb. pose proof (digits_upper mb) as Ub. rewrite Db in Lb, Ub.
  assert (ea <= eb) as Hee.
  { destruct (Z.le_gt_cases ea eb) as [?|Hgt]; [done|exfalso].
    assert (2 ^ (- eb) = 2 ^ (- ea) * 2 ^ (ea - eb)) as E by (rewrite <- Z.pow_add_r by lia; f_equal; lia).
    assert (2 ^ 1 <= 2 ^ (ea - eb)) as H2 by (apply Z.pow_le_mono_r; lia). rewrite E in Vb.
    assert (0 < 2 ^ (- ea)) by (apply Z.pow_pos_nonneg; lia). nia. }
  unfold ddiv, SFdiv, SFdiv_core_binary. cbn [Zdigits2]. rewrite Da, Db.
  replace (Z.min _ _) with (ea - eb - 53) by (unfold fexp, emin; lia).
  replace (ea - eb - (ea - eb - 53)) with 53 by lia. cbv iota. rewrite Z.shiftl_mul_pow2 by lia.
  pose proof (Z_div_mod (Zpos ma * 2 ^ 53) (Zpos mb) ltac:(lia)) as Hdm.
  destruct (Z.div_eucl _ _) as [q r]. cbn [xorb]. apply round_aux_below_one; [nia|lia|].
  destruct (Z.ltb_spec q (2 ^ 53)); [lia|].
  assert (ea <> eb); [|lia]. intros ->. assert (Zpos ma < Zpos mb) by nia. nia.
Qed.
Lemma ddiv_above a b : - b < a < 2 ^ 32 -> 0 < b < 2 ^ 32 -> dltb (dbl_of_Z (-2)) (ddiv (dbl_of_Z a) (dbl_of_Z b)) = true.
Proof.
  intros Ha Hb. replace (dbl_of_Z (-2)) with (S754_finite true 4503599627370496 (-51)) by (vm_compute; reflexivity).
  destruct (Z.le_gt_cases 0 a).
  - pose proof (ddiv_counts a b ltac:(lia) Hb) as Hn. destruct (ddiv _ _) as [s|s| |s m e]; simpl in *; subst; done.
  - replace a with (- - a) by lia. rewrite ddiv_negative by lia.
    pose proof (ddiv_below_one (- a) b ltac:(lia) ltac:(lia)) as Hn. pose proof (ddiv_counts (- a) b ltac:(lia) Hb) as Hn'.
    destruct (ddiv _ _) as [s|s| |s m e]; simpl in *; subst; try done. unfold dltb, SFltb. cbn [SFcompare negb].
    destruct (Z.compare_spec (-51) e); [lia|lia|done].
Qed.

Lemma dltb_trans x y z : dltb x y = true -> dltb y z = true -> dltb x z = true.
Proof.
  unfold dltb, SFltb. destruct x as [[]|[]| |[] m1 e1], y as [[]|[]| |[] m2 e2], z as [[]|[]| |[] m3 e3]; simpl; try done.
  all: destruct (Z.compare_spec e1 e2), (Z.compare_spec e2 e3), (Z.compare_spec e1 e3); try lia; subst; try done.
  all: change (PosDef.Pos.compare_cont Eq m1 m2) with (Pos.compare m1 m2);
    change (PosDef.Pos.compare_cont Eq m2 m3) with (Pos.compare m2 m3);
    change (PosDef.Pos.compare_cont Eq m1 m3) with (Pos.compare m1 m3).
  all: destruct (Pos.compare_spec m1 m2), (Pos.compare_spec m2 m3), (Pos.compare_spec m1 m3); simpl; done || lia.
Qed.

(** ** Signed integers of 32 bits *)

(** [int32_t] of an unsigned value. *)
Definition i32 (z : Z) : Z := let r := u32 z in if r <? 2 ^ 31 then r else r - 2 ^ 32.

Lemma i32_small z : - 2 ^ 31 <= z < 2 ^ 31 -> i32 z = z.
Proof.
  intros Hz. unfold i32, u32. destruct (Z.lt_ge_cases z 0).
  - rewrite <- (Z.mod_add z 1) by lia. rewrite Z.mod_small by lia. destruct (Z.ltb_spec (z + 1 * 2 ^ 32) (2 ^ 31)); lia.
  - rewrite Z.mod_small by lia. destruct (Z.ltb_spec z (2 ^ 31)); lia.
Qed.
