(* ===== verification/MemHierarchy.v ===== *)
(** * Types and interfaces of the memory hierarchy
    ([src/src/memory_hierarchy.h], [src/src/memory_hierarchy.cpp]),
    and the interface of the DRAM devices below the memory controller. *)

From stdpp Require Import base list strings.
From Stdlib Require Import ZArith Lia.
From S2P Require Import Prelude.
Local Open Scope Z_scope.

Abbreviation Address := Z.

Inductive AccessType := GETS | GETX | PUTS | PUTX.
Inductive InvType := INV | INVX | FWD.
(** The enumerators keep their one-letter names behind a module, so that they do
    not hide the constructors of [nat] and [True]. *)
Module MESI.
Inductive MESIState := I | S | E | M.
#[export] Instance MESIState_eq_dec : EqDecision MESIState.
Proof. solve_decision. Defined.
End MESI.
Export (hints) MESI.
Abbreviation MESIState := MESI.MESIState.

#[export] Instance AccessType_eq_dec : EqDecision AccessType.
Proof. solve_decision. Defined.
#[export] Instance InvType_eq_dec : EqDecision InvType.
Proof. solve_decision. Defined.

Definition IsGet (t : AccessType) : bool :=
  bool_decide (t = GETS) || bool_decide (t = GETX).
Definition IsPut (t : AccessType) : bool :=
  bool_decide (t = PUTS) || bool_decide (t = PUTX).

(** [AccessTypeName] / [InvTypeName] / [MESIStateName]: a table lookup behind a
    range check.  The numeric codes are the C enumerators' values. *)
Definition access_code (t : AccessType) : nat :=
  match t with GETS => 0 | GETX => 1 | PUTS => 2 | PUTX => 3 end%nat.
Definition inv_code (t : InvType) : nat :=
  match t with INV => 0 | INVX => 1 | FWD => 2 end%nat.
Definition mesi_code (s : MESIState) : nat :=
  match s with MESI.I => 0 | MESI.S => 1 | MESI.E => 2 | MESI.M => 3 end%nat.

Definition accessTypeNames : list string := ["GETS"; "GETX"; "PUTS"; "PUTX"]%string.
Definition invTypeNames : list string := ["INV"; "INVX"]%string.
Definition mesiStateNames : list string := ["I"; "S"; "E"; "M"]%string.

Definition table_name (w : string) (tbl : list string) (i : nat) : res string :=
  match tbl !! i with Some n => Ok n | None => Err (AssertFail w) end.

Definition AccessTypeName (t : AccessType) : res string :=
  table_name "memory_hierarchy.cpp:33" accessTypeNames (access_code t).
Definition InvTypeName (t : InvType) : res string :=
  table_name "memory_hierarchy.cpp:38" invTypeNames (inv_code t).
Definition MESIStateName (s : MESIState) : res string :=
  table_name "memory_hierarchy.cpp:43" mesiStateNames (mesi_code s).

(** [struct MemReq].  [state] is the value behind the [MESIState*] pointer: a
    callee that assigns through the pointer returns the new value.  The child's
    lock word is not a field: it is only unlocked by coherence controllers. *)
Record MemReq := mkMemReq {
  lineAddr : Address;
  type : AccessType;
  childId : Z;
  state : MESIState;
  cycle : Z;
  initialState : MESIState;
  srcId : Z;
  flags : Z
}.

Definition IFETCH : Z := 2.
Definition NOEXCL : Z := 4.
Definition NONINCLWB : Z := 8.
Definition PUTX_KEEPEXCL : Z := 16.
Definition PREFETCH : Z := 32.

(** [req.is(f)] and [req.set(f)] *)
Definition is_flag (r : MemReq) (f : Z) : bool := negb (Z.land (flags r) f =? 0).
Definition set_flag (r : MemReq) (f : Z) : MemReq :=
  mkMemReq (lineAddr r) (type r) (childId r) (state r) (cycle r) (initialState r)
    (srcId r) (Z.lor (flags r) f).

Definition with_cycle (c : Z) (r : MemReq) : MemReq :=
  mkMemReq (lineAddr r) (type r) (childId r) (state r) c (initialState r) (srcId r) (flags r).
Definition with_addr (a : Address) (r : MemReq) : MemReq :=
  mkMemReq a (type r) (childId r) (state r) (cycle r) (initialState r) (srcId r) (flags r).
Definition with_state (s : MESIState) (r : MemReq) : MemReq :=
  mkMemReq (lineAddr r) (type r) (childId r) s (cycle r) (initialState r) (srcId r) (flags r).
Definition with_type (t : AccessType) (r : MemReq) : MemReq :=
  mkMemReq (lineAddr r) t (childId r) (state r) (cycle r) (initialState r) (srcId r) (flags r).

(** The aggregate initialiser
    [{addr, t, req.childId, &state, c, req.childLock, req.initialState, req.srcId, req.flags}]
    of the controller's own requests; [&state] is a local of the caller whose
    value is never read. *)
Definition derived_req (r : MemReq) (addr : Address) (t : AccessType) (c : Z) : MemReq :=
  mkMemReq addr t (childId r) MESI.I c (initialState r) (srcId r) (flags r).

(** The state the memory at the bottom of the hierarchy grants to a request
    (the [switch] shared by every memory's [access]). *)
Definition granted_state (r : MemReq) : MESIState :=
  match type r with
  | PUTS | PUTX => MESI.I
  | GETS => if is_flag r NOEXCL then MESI.S else MESI.E
  | GETX => MESI.M
  end.

(** ** The DRAM devices

    A memory controller drives one external DRAM and [_mcdram_per_mc]
    in-package channels through [MemObject::access(req, type, data_size)].  The
    devices share the simulator's event recorders, so they are one state [D].
    An access returns the value written through [req.state] and the response
    cycle. *)
Inductive dram_id := ExtDram | McDram (channel : nat).

#[export] Instance dram_id_eq_dec : EqDecision dram_id.
Proof. solve_decision. Defined.

Class MemSys (D : Type) := {
  dram_access : dram_id -> MemReq -> Z -> Z -> D -> res ((MESIState * Z) * D)
}.

(** What the controller relies on, and what a device must provide.  [kind] 0
    opens the timing record of the request's source, [kind] 1 and 2 append to
    an open one.  [idle d src]: the source has no open record; [opened d src]: it
    has one, or the source does not record at all.  An access touches no other
    source's record.  Sizes are counted in 16-byte bursts and must be even. *)
Class MemSysLaws (D : Type) `{MemSys D} := {
  idle : D -> Z -> Prop;
  opened : D -> Z -> Prop;
  dram_open : forall id r size d,
    idle d (srcId r) -> type r <> PUTS -> Z.even size = true ->
    exists st c d', dram_access id r 0 size d = Ok ((st, c), d') /\ opened d' (srcId r) /\
      forall src, src <> srcId r -> idle d src -> idle d' src;
  dram_append : forall id r kind size d,
    opened d (srcId r) -> kind = 1 \/ kind = 2 -> Z.even size = true ->
    exists st c d', dram_access id r kind size d = Ok ((st, c), d') /\ opened d' (srcId r) /\
      forall src, src <> srcId r -> idle d src -> idle d' src
}.

(** [MemObject]'s default for the three-argument [access] is [assert(false)];
    [SimpleMemory] and [MD1Memory] override only the one-argument form. *)
Definition MemObject_access {D} (_ : MemReq) (_ _ : Z) (_ : D) : res ((MESIState * Z) * D) :=
  Err (AssertFail "memory_hierarchy.h:127").
