(* ===== verification/DdrBound.v ===== *)
(** * The bound phase of the DRAM devices

    Timing events ([src/src/timing_event.h]), the per-core event recorder
    ([src/src/event_recorder.h]) and [DDRMemory::access]
    ([src/src/ddr_mem.cpp]), with the conversions between system and memory
    cycles of [src/src/ddr_mem.h].  All devices of a controller share the
    recorders, so they form one [MemSys]; the instance of [MemSysLaws] shows
    that a DDR device gives the memory controller what it relies on. *)

From stdpp Require Import base list gmap strings.
From Stdlib Require Import ZArith Lia.
From S2P Require Import Prelude MemHierarchy.
Local Open Scope Z_scope.

(** ** Timing events *)

Inductive EventState := EV_INVALID | EV_NONE | EV_QUEUED | EV_RUNNING | EV_HELD | EV_DONE.
#[export] Instance EventState_eq_dec : EqDecision EventState.
Proof. solve_decision. Defined.

(** [class TimingEvent] with the payload of [DDRMemoryAccEvent].  Events are
    named by their position in the arena; [ev_children] lists them in the order
    of the [addChild] calls. *)
Record TimingEvent := mkEv {
  ev_state : EventState;
  ev_minStartCycle : Z;
  ev_children : list nat;
  ev_numParents : Z;
  ev_domain : Z;
  ev_preDelay : Z;
  ev_postDelay : Z;
  ev_dev : dram_id;
  ev_addr : Address;
  ev_data_size : Z;
  ev_write : bool
}.

(** [DDRMemoryAccEvent]'s constructor. *)
Definition DDRMemoryAccEvent_new (dev : dram_id) (isWrite : bool) (addr : Address)
    (data_size domain preDelay postDelay : Z) : TimingEvent :=
  mkEv EV_NONE (2 ^ 64 - 1) [] 0 domain preDelay postDelay dev addr data_size isWrite.

Definition setMinStartCycle (c : Z) (e : TimingEvent) : TimingEvent :=
  mkEv (ev_state e) c (ev_children e) (ev_numParents e) (ev_domain e) (ev_preDelay e)
    (ev_postDelay e) (ev_dev e) (ev_addr e) (ev_data_size e) (ev_write e).
Definition set_domain (d : Z) (e : TimingEvent) : TimingEvent :=
  mkEv (ev_state e) (ev_minStartCycle e) (ev_children e) (ev_numParents e) d (ev_preDelay e)
    (ev_postDelay e) (ev_dev e) (ev_addr e) (ev_data_size e) (ev_write e).
Definition set_children (cs : list nat) (e : TimingEvent) : TimingEvent :=
  mkEv (ev_state e) (ev_minStartCycle e) cs (ev_numParents e) (ev_domain e) (ev_preDelay e)
    (ev_postDelay e) (ev_dev e) (ev_addr e) (ev_data_size e) (ev_write e).
Definition add_parent (e : TimingEvent) : TimingEvent :=
  mkEv (ev_state e) (ev_minStartCycle e) (ev_children e) (u32 (ev_numParents e + 1)) (ev_domain e)
    (ev_preDelay e) (ev_postDelay e) (ev_dev e) (ev_addr e) (ev_data_size e) (ev_write e).
Definition set_ev_state (st : EventState) (e : TimingEvent) : TimingEvent :=
  mkEv st (ev_minStartCycle e) (ev_children e) (ev_numParents e) (ev_domain e) (ev_preDelay e)
    (ev_postDelay e) (ev_dev e) (ev_addr e) (ev_data_size e) (ev_write e).

(** The state transitions [run], [hold], [release] and the one of [done]. *)
Definition transition (w : string) (from : list EventState) (to : EventState) (e : TimingEvent)
    : res TimingEvent :=
  if bool_decide (ev_state e ∈ from) then Ok (set_ev_state to e) else Err (AssertFail w).
Definition ev_run := transition "timing_event.h:158" [EV_NONE; EV_QUEUED] EV_RUNNING.
Definition ev_hold := transition "timing_event.h:171" [EV_RUNNING] EV_HELD.
Definition ev_release := transition "timing_event.h:176" [EV_HELD] EV_RUNNING.
Definition ev_done := transition "timing_event.h:181" [EV_RUNNING] EV_DONE.

Abbreviation Arena := (list TimingEvent).

Definition ev_at (i : nat) : M Arena TimingEvent :=
  a <- get ;; lift (at_ a i).
Definition ev_put (i : nat) (e : TimingEvent) : M Arena unit :=
  modify (fun a => <[i := e]> a).

(** [TimingEvent::propagateDomain]: down the tree of events without a domain.
    Domains are set on the way, so no event is visited twice and the number of
    events is enough fuel. *)
Fixpoint propagateDomain (fuel : nat) (dom : Z) (i : nat) : M Arena unit :=
  match fuel with
  | O => fail OutOfFuel
  | S fuel =>
      e <- ev_at i ;;
      assert_ "timing_event.h:220" (ev_domain e =? -1) ;;
      ev_put i (set_domain dom e) ;;
      forM (ev_children e) (fun c =>
        x <- ev_at c ;; when (ev_domain x =? -1) (propagateDomain fuel dom c))
  end.

(** [parent->addChild(child, evRec)] *)
Definition addChild (parent child : nat) : M Arena unit :=
  p <- ev_at parent ;;
  assert_ "timing_event.h:107" (bool_decide (ev_state p ∈ [EV_NONE; EV_QUEUED])) ;;
  c <- ev_at child ;;
  assert_ "timing_event.h:108" (bool_decide (ev_state c = EV_NONE)) ;;
  ev_put parent (set_children (ev_children p ++ [child]) p) ;;
  a <- get ;;
  when (negb (ev_domain p =? -1) && (ev_domain c =? -1))
    (propagateDomain (length a) (ev_domain p) child) ;;
  c <- ev_at child ;;
  ev_put child (add_parent c).

(** ** The event recorder *)

(** [struct TimingRecord]; a null pointer is [None]. *)
Record TimingRecord := mkTR {
  tr_addr : Address;
  tr_reqCycle : Z;
  tr_respCycle : Z;
  tr_type : AccessType;
  tr_startEvent : option nat;
  tr_endEvent : option nat
}.

Definition tr_isValid (tr : TimingRecord) : bool := bool_decide (is_Some (tr_startEvent tr)).
Definition tr_clear (tr : TimingRecord) : TimingRecord :=
  mkTR (tr_addr tr) (tr_reqCycle tr) (tr_respCycle tr) (tr_type tr) None (tr_endEvent tr).

(** [EventRecorder::pushRecord], [popRecord] and [hasRecord] on the recorder's
    single record. *)
Definition pushRecord (rec : TimingRecord) : M TimingRecord unit :=
  tr <- get ;;
  assert_ "event_recorder.h:86" (negb (tr_isValid tr)) ;;
  modify (fun _ => rec) ;;
  assert_ "event_recorder.h:88" (tr_isValid rec).
Definition popRecord : M TimingRecord TimingRecord :=
  tr <- get ;; modify tr_clear ;; ret tr.
Definition hasRecord : M TimingRecord bool := gets tr_isValid.

(** ** Cycles of [DDRMemory] *)
Section Cycles.
Context (sysFreqKHz memFreqKHz : Z).

Definition sysToMemCycle (sysCycle : Z) : res Z :=
  match udiv (u64 (sysCycle * memFreqKHz)) sysFreqKHz with
  | Ok q => Ok (u64 (q + 1)) | Err e => Err e
  end.
Definition memToSysCycle (memCycle : Z) : res Z :=
  udiv (u64 (u64 (memCycle + 1) * sysFreqKHz)) memFreqKHz.
Definition matchingMemToSysCycle (memCycle : Z) : res Z :=
  match udiv (u64 (u64 (2 * memCycle - 1) * sysFreqKHz)) memFreqKHz with
  | Ok q => Ok (q / 2) | Err e => Err e
  end.

(** The claim of the comment in [ddr_mem.h]: [sysToMemCycle] inverts
    [matchingMemToSysCycle] when the memory is slower than half the system and
    the products fit in 64 bits. *)
Lemma matching_inverse c :
  0 < memFreqKHz -> 2 * memFreqKHz < sysFreqKHz -> 1 <= c -> 2 * c * sysFreqKHz < 2 ^ 64 ->
  exists x, matchingMemToSysCycle c = Ok x /\ sysToMemCycle x = Ok c.
Proof.
  intros Hm Hs Hc Hfit. set (S := sysFreqKHz) in *. set (M := memFreqKHz) in *.
  assert (0 <= (2 * c - 1) * S < 2 ^ 64) as Hnum by nia.
  unfold matchingMemToSysCycle, sysToMemCycle, udiv. fold S M.
  rewrite (u64_id (2 * c - 1)) by (unfold in_u64; nia). rewrite u64_id by done.
  destruct (Z.eqb_spec M 0); [lia|]. eexists. split; [done|].
  rewrite Z.div_div by lia.
  pose proof (Z.mul_div_le ((2 * c - 1) * S) (M * 2)) as Hup.
  pose proof (Z.mul_succ_div_gt ((2 * c - 1) * S) (M * 2)) as Hlow.
  set (x := (2 * c - 1) * S / (M * 2)) in *.
  assert (0 <= x) by (apply Z.div_pos; lia).
  assert (x * M < c * S) as H1 by nia. assert ((c - 1) * S <= x * M) as H2 by nia.
  rewrite (u64_id (x * M)) by (unfold in_u64; nia).
  destruct (Z.eqb_spec S 0); [lia|].
  replace (x * M / S) with (c - 1).
  - f_equal. rewrite u64_id; [lia|]. unfold in_u64. nia.
  - apply (Z.div_unique_pos _ _ _ (x * M - (c - 1) * S)); lia.
Qed.
End Cycles.

(** ** The devices of one controller *)
Record DdrConfig := mkDdr {
  d_minRdLatency : Z;
  d_minWrLatency : Z;
  d_preDelay : Z;
  d_postDelayRd : Z;
  d_postDelayWr : Z;
  d_domain : Z;
  d_sysFreqKHz : Z;
  d_memFreqKHz : Z
}.

(** [zinfo->eventRecorders\[src\]]: a missing key is a null pointer. *)
Record Bus := mkBus {
  bus_dev : dram_id -> DdrConfig;
  bus_events : Arena;
  bus_recorders : gmap Z TimingRecord
}.

Definition bus_set_events (a : Arena) (b : Bus) : Bus := mkBus (bus_dev b) a (bus_recorders b).
Definition bus_set_rec (src : Z) (tr : TimingRecord) (b : Bus) : Bus :=
  mkBus (bus_dev b) (bus_events b) (<[src := tr]> (bus_recorders b)).

(** A computation on the recorder of [src], which exists. *)
Definition on_rec {A} (src : Z) (m : M TimingRecord A) : M Bus A :=
  b <- get ;;
  match bus_recorders b !! src with
  | None => fail NullDeref
  | Some tr => let! (a, tr') := lift (m tr) in modify (bus_set_rec src tr') ;; ret a
  end.

(** [DDRMemory::access], lines 271-304: the event of the access joins the
    request's timing record. *)
Definition record_event (kind : Z) (req : MemReq) (respCycle : Z) (memEv : nat) : M Bus unit :=
  let src := srcId req in
  let set_start c :=
    zoom bus_events bus_set_events (e <- ev_at memEv ;; ev_put memEv (setMinStartCycle c e)) in
  let append critical :=
    tr <- on_rec src popRecord ;;
    set_start (tr_reqCycle tr) ;;
    match tr_endEvent tr with
    | None => fail (AssertFail "ddr_mem.cpp:286")
    | Some en =>
        zoom bus_events bus_set_events (addChild en memEv) ;;
        on_rec src (pushRecord (mkTR (tr_addr tr) (tr_reqCycle tr) (tr_respCycle tr) (type req)
                                  (tr_startEvent tr)
                                  (if (critical : bool) then Some memEv else Some en)))
    end in
  if kind =? 0 then
    set_start (cycle req) ;;
    has <- on_rec src hasRecord ;;
    assert_ "ddr_mem.cpp:281" (negb has) ;;
    on_rec src (pushRecord (mkTR (lineAddr req) (cycle req) respCycle (type req)
                              (Some memEv) (Some memEv)))
  else if kind =? 1 then append true
  else if kind =? 2 then append false
  else ret tt.

(** [DDRMemory::access(req, type, data_size)] *)
Definition ddr_access (dev : dram_id) (req : MemReq) (kind data_size : Z)
    : M Bus (MESIState * Z) :=
  let st := granted_state req in
  assert_ "ddr_mem.cpp:264" (data_size mod 2 =? 0) ;;
  if bool_decide (type req = PUTS) then ret (st, cycle req) else
  b <- get ;;
  let cf := bus_dev b dev in
  let isWrite := bool_decide (type req = PUTX) in
  burst <- lift (memToSysCycle (d_sysFreqKHz cf) (d_memFreqKHz cf) (u32 (data_size - 1))) ;;
  let respCycle := u64 (cycle req + (if isWrite then d_minWrLatency cf else d_minRdLatency cf)
                        + burst) in
  match bus_recorders b !! srcId req with
  | None => ret (st, respCycle)
  | Some _ =>
      let memEv := length (bus_events b) in
      modify (bus_set_events (bus_events b ++
        [DDRMemoryAccEvent_new dev isWrite (lineAddr req) data_size (d_domain cf) (d_preDelay cf)
           (if isWrite then d_postDelayWr cf else d_postDelayRd cf)])) ;;
      record_event kind req respCycle memEv ;;
      ret (st, respCycle)
  end.

#[export] Instance Bus_MemSys : MemSys Bus := {
  dram_access dev req kind size := ddr_access dev req kind size
}.

(** ** The laws *)

Lemma wp_ev_at i e Q (a : Arena) : a !! i = Some e -> Q e a -> wp (ev_at i) Q a.
Proof. intros Hi HQ. apply wp_bind, wp_get. eapply wp_lift; [|done]. unfold at_. by rewrite Hi. Qed.

Lemma wp_ev_put i e Q (a : Arena) : Q tt (<[i := e]> a) -> wp (ev_put i e) Q a.
Proof. done. Qed.

(** A fresh event can be hung under any event that did not run yet. *)
Lemma addChild_fresh a p c pe ce :
  a !! p = Some pe -> a !! c = Some ce -> p <> c ->
  ev_state pe ∈ [EV_NONE; EV_QUEUED] -> ev_state ce = EV_NONE -> ev_children ce = [] ->
  wp (addChild p c) (fun _ a' =>
    a' !! p = Some (set_children (ev_children pe ++ [c]) pe) /\
    (exists ce', a' !! c = Some ce' /\ ev_state ce' = EV_NONE /\ ev_children ce' = []) /\
    length a' = length a) a.
Proof.
  intros Hp Hc Hne Hsp Hsc Hch. unfold addChild.
  apply wp_bind. eapply wp_ev_at; [done|]. apply wp_bind, wp_assert; [by apply bool_decide_eq_true|].
  apply wp_bind. eapply wp_ev_at; [done|]. apply wp_bind, wp_assert; [by apply bool_decide_eq_true|].
  apply wp_bind, wp_ev_put, wp_bind, wp_get. set (a1 := <[p := _]> a).
  assert (a1 !! p = Some (set_children (ev_children pe ++ [c]) pe)) as Hp1
    by (apply list_lookup_insert_eq; by eapply lookup_lt_Some).
  assert (a1 !! c = Some ce) as Hc1 by (unfold a1; by rewrite list_lookup_insert_ne).
  assert (length a1 = length a) as Hlen by apply length_insert.
  apply wp_bind.
  eapply (wp_mono _ (fun _ a2 => a2 !! p = a1 !! p /\ length a2 = length a /\
            exists ce2, a2 !! c = Some ce2 /\ ev_state ce2 = EV_NONE /\ ev_children ce2 = [])).
  { apply wp_when; intros Hb; [|eauto 6]. apply andb_true_iff in Hb as [_ Hd].
    destruct (length a1) as [|n] eqn:El.
    { apply lookup_lt_Some in Hc1. lia. }
    simpl. apply wp_bind. eapply wp_ev_at; [done|]. apply wp_bind, wp_assert; [done|].
    apply wp_bind, wp_ev_put. rewrite Hch. apply wp_ret.
    rewrite list_lookup_insert_ne by done. rewrite length_insert. split_and!; [done|congruence|].
    eexists. rewrite list_lookup_insert_eq by (by eapply lookup_lt_Some). done. }
  intros [] a2 (E1 & E2 & ce2 & Hc2 & Hs2 & Hch2).
  apply wp_bind. eapply wp_ev_at; [done|]. apply wp_ev_put.
  rewrite list_lookup_insert_ne, E1 by done. rewrite length_insert. split_and!; [done| |done].
  eexists. rewrite list_lookup_insert_eq by (by eapply lookup_lt_Some). done.
Qed.

Definition bus_ok (b : Bus) : Prop := forall id, d_memFreqKHz (bus_dev b id) <> 0.

(** The record of [src] is closed, or [src] does not record. *)
Definition bus_idle (b : Bus) (src : Z) : Prop :=
  bus_ok b /\ forall tr, bus_recorders b !! src = Some tr -> tr_isValid tr = false.

(** The record of [src] is open and its last event still accepts children. *)
Definition bus_opened (b : Bus) (src : Z) : Prop :=
  bus_ok b /\ forall tr, bus_recorders b !! src = Some tr -> tr_isValid tr = true /\
    exists en e, tr_endEvent tr = Some en /\ bus_events b !! en = Some e /\
      ev_state e ∈ [EV_NONE; EV_QUEUED].

(** An access of [src] leaves the other recorders alone. *)
Definition bus_frame (src : Z) (b b' : Bus) : Prop :=
  bus_dev b' = bus_dev b /\
  forall src', src' <> src -> bus_recorders b' !! src' = bus_recorders b !! src'.

Lemma bus_frame_idle src b b' src' :
  bus_frame src b b' -> src' <> src -> bus_idle b src' -> bus_idle b' src'.
Proof.
  intros [Hd Hr] Hne [Hok Hi]. split; [intros id; by rewrite Hd|].
  intros tr Htr. rewrite Hr in Htr by done. by apply Hi.
Qed.

Lemma wp_on_rec {A} src tr (m : M TimingRecord A) R K (b : Bus) :
  bus_recorders b !! src = Some tr -> wp m R tr ->
  (forall a tr', R a tr' -> K a (bus_set_rec src tr' b)) -> wp (on_rec src m) K b.
Proof.
  intros Hb Hm HK. apply wp_ok in Hm as (a & tr' & Hrun & HR).
  apply wp_bind, wp_get. rewrite Hb. apply wp_bind. eapply wp_lift; [done|].
  by apply wp_bind, wp_modify, wp_ret, HK.
Qed.

Lemma wp_pushRecord rec tr :
  tr_isValid tr = false -> tr_isValid rec = true -> wp (pushRecord rec) (fun _ tr' => tr' = rec) tr.
Proof.
  intros Ht Hr. apply wp_bind, wp_get, wp_bind, wp_assert; [by rewrite Ht|].
  apply wp_bind, wp_modify. by apply wp_assert.
Qed.

(** Appending an event to an open record. *)
Lemma append_ok (b : Bus) req (critical : bool) resp memEv me :
  bus_ok b -> (exists tr, bus_recorders b !! srcId req = Some tr) -> bus_opened b (srcId req) ->
  bus_events b !! memEv = Some me -> ev_state me = EV_NONE -> ev_children me = [] ->
  (forall tr, bus_recorders b !! srcId req = Some tr -> tr_endEvent tr <> Some memEv) ->
  wp (record_event (if critical then 1 else 2) req resp memEv)
    (fun _ b' => bus_opened b' (srcId req) /\ bus_frame (srcId req) b b') b.
Proof.
  intros Hok [tr Htr] Hop Hme Hst Hch Hfresh.
  destruct (proj2 Hop tr Htr) as (Hv & en & e & Hen & He & Hes).
  specialize (Hfresh tr Htr). rewrite Hen in Hfresh. assert (en <> memEv) as Hne by congruence.
  assert (wp (tr0 <- on_rec (srcId req) popRecord ;;
    zoom bus_events bus_set_events
      (e <- ev_at memEv ;; ev_put memEv (setMinStartCycle (tr_reqCycle tr0) e)) ;;
    match tr_endEvent tr0 with
    | None => fail (AssertFail "ddr_mem.cpp:286")
    | Some en =>
        zoom bus_events bus_set_events (addChild en memEv) ;;
        on_rec (srcId req) (pushRecord (mkTR (tr_addr tr0) (tr_reqCycle tr0) (tr_respCycle tr0)
          (type req) (tr_startEvent tr0) (if critical then Some memEv else Some en)))
    end) (fun _ b' => bus_opened b' (srcId req) /\ bus_frame (srcId req) b b') b) as Hgen.
  { apply wp_bind. eapply (wp_on_rec _ tr _ (fun a tr' => a = tr /\ tr' = tr_clear tr));
      [done|by apply wp_bind, wp_get, wp_bind, wp_modify, wp_ret|].
    intros _ _ [-> ->]. apply wp_bind, wp_zoom, wp_bind. simpl.
    eapply wp_ev_at; [done|]. apply wp_ev_put. rewrite Hen.
    apply wp_bind, wp_zoom. simpl. set (me1 := setMinStartCycle _ me).
    eapply wp_mono; [apply (addChild_fresh _ en memEv e me1)|]; try done.
    - by rewrite list_lookup_insert_ne.
    - apply list_lookup_insert_eq. by eapply lookup_lt_Some.
    - intros [] a' (Hpa & (ce & Hca & Hsa & _) & _).
      eapply (wp_on_rec _ (tr_clear tr)); [simpl; apply lookup_insert_eq|by apply wp_pushRecord|].
      intros [] tr' ->. split.
      2:{ split; [done|]. intros src' Hs. simpl. by rewrite !lookup_insert_ne. }
      split; [done|]. intros tr1. simpl. rewrite lookup_insert_eq. intros [= <-].
      split; [done|]. simpl. destruct critical.
      + exists memEv, ce. rewrite Hsa. split_and!; [done|done|left].
      + eexists en, _. split_and!; [done|done|done]. }
  destruct critical; exact Hgen.
Qed.

Lemma memToSysCycle_total s m c : m <> 0 -> exists x, memToSysCycle s m c = Ok x.
Proof. intros Hm. unfold memToSysCycle, udiv. destruct (Z.eqb_spec m 0); [done|]. eauto. Qed.

Lemma even_mod2 n : Z.even n = true -> (n mod 2 =? 0) = true.
Proof. intros H. apply Z.eqb_eq. rewrite Zmod_even, H. done. Qed.

(** The common part of both laws. *)
Lemma ddr_access_ok dev req kind size b :
  Z.even size = true ->
  (kind = 0 /\ bus_idle b (srcId req) /\ type req <> PUTS) \/
  ((kind = 1 \/ kind = 2) /\ bus_opened b (srcId req)) ->
  wp (ddr_access dev req kind size)
    (fun _ b' => bus_opened b' (srcId req) /\ bus_frame (srcId req) b b') b.
Proof.
  intros He Hk. unfold ddr_access. apply wp_bind, wp_assert; [by apply even_mod2|].
  case_bool_decide as Hty.
  { apply wp_ret. destruct Hk as [(_ & _ & ?)|[_ ?]]; [done|]. split; [done|by split]. }
  apply wp_bind, wp_get. cbv zeta.
  assert (bus_ok b) as Hok by (destruct Hk as [(_ & [? _] & _)|[_ [? _]]]; done).
  destruct (memToSysCycle_total (d_sysFreqKHz (bus_dev b dev)) _ (u32 (size - 1)) (Hok dev)) as [x Hx].
  apply wp_bind. eapply wp_lift; [done|].
  destruct (bus_recorders b !! srcId req) as [tr|] eqn:Htr.
  2:{ apply wp_ret. split; [|done]. split; [done|]. intros tr Htr'. congruence. }
  apply wp_bind, wp_modify, wp_bind.
  set (ev := DDRMemoryAccEvent_new _ _ _ _ _ _ _). set (b1 := bus_set_events _ b).
  set (memEv := length (bus_events b)). set (resp := u64 _).
  assert (bus_events b1 !! memEv = Some ev) as Hev
    by (apply list_lookup_middle; done).
  eapply (wp_mono _ (fun _ b' => bus_opened b' (srcId req) /\ bus_frame (srcId req) b1 b'));
    [|intros [] b' Hb'; by apply wp_ret].
  destruct Hk as [(-> & [_ Hidle] & _)|[Hk Hop]].
  - unfold record_event. simpl. apply wp_bind, wp_zoom, wp_bind.
    eapply wp_ev_at; [exact Hev|]. apply wp_ev_put, wp_bind.
    eapply (wp_on_rec _ tr _ (fun a tr' => a = false /\ tr' = tr)); [done|by apply wp_gets; rewrite (Hidle tr)|].
    intros a tr' [-> ->]. apply wp_bind, wp_assert; [done|].
    eapply (wp_on_rec _ tr); [simpl; apply lookup_insert_eq|apply wp_pushRecord; [by apply Hidle|done]|].
    intros [] tr' ->. split.
    2:{ split; [done|]. intros src' Hs. simpl. by rewrite !lookup_insert_ne. }
    split; [done|]. intros tr1. simpl. rewrite lookup_insert_eq. intros [= <-].
    split; [done|]. simpl. eexists memEv, _.
    split_and!; [done|apply list_lookup_insert_eq; by eapply lookup_lt_Some|left].
  - assert (bus_opened b1 (srcId req)) as Hop1.
    { split; [done|]. intros tr1 Htr1. destruct (proj2 Hop tr1 Htr1) as (? & en & e & ? & Hl & ?).
      split; [done|]. exists en, e. split_and!; [done| |done]. simpl.
      rewrite lookup_app_l; [done|]. by eapply lookup_lt_Some. }
    assert (forall tr1, bus_recorders b1 !! srcId req = Some tr1 -> tr_endEvent tr1 <> Some memEv) as Hf.
    { intros tr1 Htr1 Hen. destruct (proj2 Hop tr1 Htr1) as (_ & en & e & Hen' & Hl & _).
      apply lookup_lt_Some in Hl. assert (en = memEv) as -> by congruence. unfold memEv in Hl. lia. }
    destruct Hk as [-> | ->].
    + apply (append_ok b1 req true resp memEv ev); try done. eauto.
    + apply (append_ok b1 req false resp memEv ev); try done. eauto.
Qed.

#[export] Program Instance Bus_Laws : MemSysLaws Bus := {
  idle := bus_idle;
  opened := bus_opened
}.
Next Obligation.
  intros id r size d Hi Ht He.
  destruct (wp_ok _ _ _ (ddr_access_ok id r 0 size d He (or_introl (conj eq_refl (conj Hi Ht)))))
    as ([st c] & d' & Hrun & Hop & Hfr).
  exists st, c, d'. split_and!; [done|done|]. intros src Hne. by eapply bus_frame_idle.
Qed.
Next Obligation.
  intros id r kind size d Ho Hk He.
  destruct (wp_ok _ _ _ (ddr_access_ok id r kind size d He (or_intror (conj Hk Ho))))
    as ([st c] & d' & Hrun & Hop & Hfr).
  exists st, c, d'. split_and!; [done|done|]. intros src Hne. by eapply bus_frame_idle.
Qed.

(** [popRecord] by the core, between two accesses, makes the source idle again. *)
Definition drain (src : Z) (b : Bus) : Bus :=
  match bus_recorders b !! src with
  | Some tr => bus_set_rec src (tr_clear tr) b
  | None => b
  end.

Lemma drain_idle src b : bus_ok b -> bus_idle (drain src b) src.
Proof.
  intros Hok. unfold drain. destruct (bus_recorders b !! src) as [tr|] eqn:E.
  - split; [done|]. intros tr'. simpl. rewrite lookup_insert_eq. by intros [= <-].
  - split; [done|]. intros tr'. congruence.
Qed.

(** ** The claims *)

(** C16: [sysToMemCycle] undoes [matchingMemToSysCycle] for every memory cycle
    when the memory runs at less than half the system's frequency and the
    product fits in 64 bits, as the comment in [ddr_mem.h] asserts. *)
Theorem cycle_translation_inverse sysFreq memFreq c :
  0 < memFreq -> 2 * memFreq < sysFreq -> 1 <= c -> 2 * c * sysFreq < 2 ^ 64 ->
  exists x, matchingMemToSysCycle sysFreq memFreq c = Ok x /\ sysToMemCycle sysFreq memFreq x = Ok c.
Proof. intros H1 H2 H3 H4. exact (matching_inverse sysFreq memFreq c H1 H2 H3 H4). Qed.

Lemma cycle_translation_inverse_witness :
  exists x, matchingMemToSysCycle 2000000 533333 100 = Ok x /\ sysToMemCycle 2000000 533333 x = Ok 100.
Proof. apply (cycle_translation_inverse 2000000 533333 100); lia. Defined.

(** [DDRMemory::access] keeps the recorders' discipline.  A first access
    (type 0) with the source's record closed, or a further one (type 1 or 2)
    with it open, returns without a failing assertion and leaves an open record
    whose last event accepts children; the records of the other sources are
    untouched. *)
Theorem recorder_discipline dev req kind size b :
  Z.even size = true ->
  (kind = 0 /\ bus_idle b (srcId req) /\ type req <> PUTS) \/
  ((kind = 1 \/ kind = 2) /\ bus_opened b (srcId req)) ->
  exists st c b', ddr_access dev req kind size b = Ok ((st, c), b') /\
    bus_opened b' (srcId req) /\
    forall src, src <> srcId req -> bus_recorders b' !! src = bus_recorders b !! src.
Proof.
  intros He Hk. destruct (wp_ok _ _ _ (ddr_access_ok dev req kind size b He Hk))
    as ([st c] & b' & Hrun & Hop & _ & Hfr). eauto 6.
Qed.

Lemma recorder_discipline_witness :
  exists st c b', ddr_access ExtDram (mkMemReq 5 GETX 0 MESI.I 100 MESI.I 0 0) 0 4
    (mkBus (fun _ => mkDdr 20 10 10 10 0 0 2000000 666666) [] {[ 0 := mkTR 0 0 0 GETS None None ]})
    = Ok ((st, c), b') /\ bus_opened b' 0.
Proof.
  destruct (recorder_discipline ExtDram (mkMemReq 5 GETX 0 MESI.I 100 MESI.I 0 0) 0 4
    (mkBus (fun _ => mkDdr 20 10 10 10 0 0 2000000 666666) [] {[ 0 := mkTR 0 0 0 GETS None None ]}))
    as (st & c & b' & H1 & H2 & _).
  - reflexivity.
  - left. split_and!; [done| |done]. split; [done|]. intros tr. simpl.
    rewrite lookup_singleton_eq. by intros [= <-].
  - exists st, c, b'. exact (conj H1 H2).
Defined.
