(* ===== verification/TagBuffer.v ===== *)
(** * The tag buffer of the Banshee scheme
    (class [TagBuffer] of [src/src/mc.h] and [src/src/mc.cpp]).

    The tag buffer is a small set-associative table of recently seen pages.  An
    entry with [remap] set records a page whose place in the DRAM cache changed
    and whose page-table entry is stale; it must stay until the buffer is
    flushed.  The theorems show that no insertion loses such an entry, that the
    occupancy counter is exact, and that [canInsert] really is the precondition
    under which [insert] finds a victim. *)

From stdpp Require Import base list strings.
From Stdlib Require Import ZArith Lia.
From S2P Require Import Prelude Numeric MemHierarchy.
Local Open Scope Z_scope.

Record TagBufferEntry := mkTBE {
  te_tag : Address;
  te_remap : bool;
  te_lru : Z
}.

Record TagBuffer := mkTB {
  tb_sets : list (list TagBufferEntry);
  tb_num_ways : nat;
  tb_num_sets : Z;
  tb_entry_occupied : Z;
  tb_last_clear_time : Z
}.

(** The value of the entries of one set after construction or a clear. *)
Definition reset_set (num_ways : nat) : list TagBufferEntry :=
  (fun j => mkTBE 0 false (Z.of_nat j)) <$> seq 0 num_ways.

(** [TagBuffer::TagBuffer].  [_last_clear_time] is not initialised by the
    constructor; its value is an argument. *)
Definition TagBuffer_new (tb_size : Z) (junk : Z) : TagBuffer :=
  let num_ways := 8%nat in
  let num_sets := tb_size / 8 in
  mkTB (replicate (Z.to_nat num_sets) (reset_set num_ways)) num_ways num_sets 0 junk.

(** [uint32_t set_num = tag % _num_sets] *)
Definition tb_set_num (tb : TagBuffer) (tag : Address) : res nat :=
  match umod tag (tb_num_sets tb) with
  | Ok r => Ok (Z.to_nat (u32 r))
  | Err e => Err e
  end.

(** [_tag_buffer\[tag % _num_sets\]] with its index. *)
Definition tb_set (tb : TagBuffer) (tag : Address) : res (nat * list TagBufferEntry) :=
  match tb_set_num tb tag with
  | Ok n => match at_ (tb_sets tb) n with Ok es => Ok (n, es) | Err e => Err e end
  | Err e => Err e
  end.

Definition find_tag (tag : Address) (es : list TagBufferEntry) : nat :=
  find_idx (fun e => te_tag e =? tag) es.

(** [TagBuffer::existInTB] *)
Definition existInTB (tag : Address) (tb : TagBuffer) : res nat :=
  match tb_set tb tag with
  | Ok (_, es) => Ok (find_tag tag es)
  | Err e => Err e
  end.

(** The debug loop of [canInsert] that recounts the remapped entries. *)
Definition count_remap (tb : TagBuffer) : Z :=
  u32 (Z.of_nat (sum_list (count_if te_remap <$> tb_sets tb))).

Definition insertable (tag : Address) (e : TagBufferEntry) : bool :=
  negb (te_remap e) || (te_tag e =? tag).

(** [TagBuffer::canInsert(tag)] *)
Definition canInsert (tag : Address) (tb : TagBuffer) : res bool :=
  if count_remap tb =? tb_entry_occupied tb then
    match tb_set tb tag with
    | Ok (_, es) => Ok (existsb (insertable tag) es)
    | Err e => Err e
    end
  else Err (AssertFail "mc.cpp:898").

Definition insertable2 (tag1 tag2 : Address) (e : TagBufferEntry) : bool :=
  negb (te_remap e) || (te_tag e =? tag1) || (te_tag e =? tag2).

(** [TagBuffer::canInsert(tag1, tag2)]; [&&] short-circuits. *)
Definition canInsert2 (tag1 tag2 : Address) (tb : TagBuffer) : res bool :=
  match tb_set_num tb tag1, tb_set_num tb tag2 with
  | Ok set_num1, Ok set_num2 =>
      if (set_num1 =? set_num2)%nat then
        match at_ (tb_sets tb) set_num1 with
        | Ok es => Ok (2 <=? Z.of_nat (count_if (insertable2 tag1 tag2) es))
        | Err e => Err e
        end
      else
        match canInsert tag1 tb with
        | Ok true => canInsert tag2 tb
        | r => r
        end
  | Err e, _ => Err e
  | _, Err e => Err e
  end.

(** The debug check of [insert]: two entries share a tag only if it is 0. *)
Fixpoint tags_distinct (es : list TagBufferEntry) : bool :=
  match es with
  | [] => true
  | e :: es' =>
      forallb (fun e' => negb (te_tag e =? te_tag e') || (te_tag e =? 0)) es'
      && tags_distinct es'
  end.

(** The victim loop of [insert]: the last entry without [remap] whose [lru] is
    maximal. *)
Fixpoint pick_victim (es : list TagBufferEntry) (i : nat) (max_lru : Z) (replace_way : nat) : nat :=
  match es with
  | [] => replace_way
  | e :: es' =>
      if negb (te_remap e) && (max_lru <=? te_lru e)
      then pick_victim es' (S i) (te_lru e) i
      else pick_victim es' (S i) max_lru replace_way
  end.

(** The loop body of [TagBuffer::updateLRU]. *)
Definition age_entry (lru : Z) (e : TagBufferEntry) : TagBufferEntry :=
  if negb (te_remap e) && (te_lru e <? lru)
  then mkTBE (te_tag e) (te_remap e) (u32 (te_lru e + 1))
  else e.

Definition put_set (n : nat) (es : list TagBufferEntry) (tb : TagBuffer) : TagBuffer :=
  mkTB (<[n := es]> (tb_sets tb)) (tb_num_ways tb) (tb_num_sets tb)
    (tb_entry_occupied tb) (tb_last_clear_time tb).

Definition inc_occupied (tb : TagBuffer) : TagBuffer :=
  mkTB (tb_sets tb) (tb_num_ways tb) (tb_num_sets tb)
    (u32 (tb_entry_occupied tb + 1)) (tb_last_clear_time tb).

(** [TagBuffer::updateLRU(set_num, way)] *)
Definition tb_updateLRU (n way : nat) : M TagBuffer unit :=
  es <- (tb <- get ;; lift (at_ (tb_sets tb) n)) ;;
  e <- lift (at_ es way) ;;
  assert_ "mc.cpp:980" (negb (te_remap e)) ;;
  let es1 := age_entry (te_lru e) <$> es in
  modify (put_set n (<[way := mkTBE (te_tag e) (te_remap e) 0]> es1)).

(** [TagBuffer::insert(tag, remap)] *)
Definition tb_insert (tag : Address) (remap : bool) : M TagBuffer unit :=
  tb <- get ;;
  let! (n, es) := lift (tb_set tb tag) in
  let exist_way := find_tag tag es in
  assert_ "mc.cpp:941" (tags_distinct es) ;;
  if (exist_way <? tb_num_ways tb)%nat then
    e <- lift (at_ es exist_way) ;;
    assert_ "mc.cpp:947" (te_tag e =? tag) ;;
    if remap then
      modify (if te_remap e then id else inc_occupied) ;;
      modify (put_set n (<[exist_way := mkTBE (te_tag e) true (te_lru e)]> es))
    else when (negb (te_remap e)) (tb_updateLRU n exist_way)
  else
    let replace_way := pick_victim es 0 0 (tb_num_ways tb) in
    assert_ "mc.cpp:965" (negb (replace_way =? tb_num_ways tb)%nat) ;;
    e <- lift (at_ es replace_way) ;;
    modify (put_set n (<[replace_way := mkTBE tag remap (te_lru e)]> es)) ;;
    if remap then modify inc_occupied else tb_updateLRU n replace_way.

(** [TagBuffer::clearTagBuffer] *)
Definition clearTagBuffer (tb : TagBuffer) : TagBuffer :=
  mkTB ((fun _ => reset_set (tb_num_ways tb)) <$> tb_sets tb)
    (tb_num_ways tb) (tb_num_sets tb) 0 (tb_last_clear_time tb).

(** [TagBuffer::setClearTime] *)
Definition setClearTime (time : Z) (tb : TagBuffer) : TagBuffer :=
  mkTB (tb_sets tb) (tb_num_ways tb) (tb_num_sets tb) (tb_entry_occupied tb) time.

(** [TagBuffer::getOccupancy] *)
Definition getOccupancy (tb : TagBuffer) : double :=
  ddiv (ddiv (dmul (dlit 1 1) (dbl_of_Z (tb_entry_occupied tb)))
          (dbl_of_Z (Z.of_nat (tb_num_ways tb))))
    (dbl_of_Z (tb_num_sets tb)).

(** ** The invariant *)

(** [way_lookup es i e]: entry [i] of a set; the unit the clauses speak about. *)
Record set_ok (n : nat) (es : list TagBufferEntry) : Prop := {
  so_length : length es = n;
  so_lru : forall i e, es !! i = Some e -> 0 <= te_lru e < Z.of_nat n;
  (** a tag appears twice only as the initial tag 0, and then only the first of
      the two may be remapped *)
  so_tags : forall i j a b, (i < j)%nat -> es !! i = Some a -> es !! j = Some b ->
    te_tag a = te_tag b -> te_tag a = 0 /\ te_remap b = false;
  (** the replaceable entries are strictly ordered by [lru] *)
  so_order : forall i j a b, es !! i = Some a -> es !! j = Some b ->
    te_remap a = false -> te_remap b = false -> te_lru a = te_lru b -> i = j
}.

Definition occupied_count (tb : TagBuffer) : nat :=
  sum_list (count_if te_remap <$> tb_sets tb).

Record tb_inv (tb : TagBuffer) : Prop := {
  tbi_ways : (0 < tb_num_ways tb)%nat;
  tbi_sets : 0 < tb_num_sets tb;
  tbi_size : tb_num_sets tb * Z.of_nat (tb_num_ways tb) < 2 ^ 32;
  tbi_length : length (tb_sets tb) = Z.to_nat (tb_num_sets tb);
  tbi_ok : forall i es, tb_sets tb !! i = Some es -> set_ok (tb_num_ways tb) es;
  tbi_occupied : tb_entry_occupied tb = Z.of_nat (occupied_count tb)
}.

(** The abstract value of a tag buffer: the set of pages whose mapping is held
    there until the next flush. *)
Definition remapped (tb : TagBuffer) (tag : Address) : Prop :=
  exists n es e, tb_set tb tag = Ok (n, es) /\ e ∈ es /\ te_tag e = tag /\ te_remap e = true.

(** ** Generic facts *)

Lemma sum_list_insert (l : list nat) i x y :
  l !! i = Some x -> (sum_list (<[i:=y]> l) + x = sum_list l + y)%nat.
Proof.
  revert i. induction l as [|z l IH]; intros [|i] H; simplify_eq/=; [lia|].
  specialize (IH i H). lia.
Qed.

Lemma sum_list_bound (l : list nat) b :
  (forall x, x ∈ l -> (x <= b)%nat) -> (sum_list l <= length l * b)%nat.
Proof.
  induction l as [|x l IH]; intros H; simpl; [lia|].
  assert (x <= b)%nat by (apply H; left).
  assert (sum_list l <= length l * b)%nat by (apply IH; intros; apply H; by right). lia.
Qed.

Lemma list_lookup_insert_cases {A} (l : list A) i j x y :
  <[i:=x]> l !! j = Some y -> (i = j /\ y = x) \/ (i <> j /\ l !! j = Some y).
Proof.
  intros H. destruct (decide (i = j)) as [->|Hne].
  - left. assert (j < length l)%nat.
    { apply lookup_lt_Some in H. by rewrite length_insert in H. }
    rewrite list_lookup_insert_eq in H by done. by simplify_eq.
  - right. by rewrite list_lookup_insert_ne in H.
Qed.

Lemma find_tag_hit tag es i e :
  find_tag tag es = i -> es !! i = Some e ->
  te_tag e = tag /\ forall j x, (j < i)%nat -> es !! j = Some x -> te_tag x <> tag.
Proof.
  intros <- He. pose proof (find_idx_lt (fun e => te_tag e =? tag) es) as H.
  destruct H as (x & Hx & Hp & Hmin); [by eapply lookup_lt_Some|].
  unfold find_tag in He. rewrite Hx in He. simplify_eq. apply Z.eqb_eq in Hp.
  split; [done|]. intros j y Hj Hy Heq. eapply Hmin in Hj; [|done].
  apply Z.eqb_neq in Hj. congruence.
Qed.

Lemma find_tag_miss tag es i e :
  find_tag tag es = length es -> es !! i = Some e -> te_tag e <> tag.
Proof. intros H He. by eapply find_idx_none, Z.eqb_neq in H. Qed.

Lemma pick_victim_spec es i m rw :
  (pick_victim es i m rw = rw /\
     forall k e, es !! k = Some e -> te_remap e = false -> te_lru e < m) \/
  (exists k e, pick_victim es i m rw = (i + k)%nat /\ es !! k = Some e /\
     te_remap e = false /\ m <= te_lru e /\
     forall j e', es !! j = Some e' -> te_remap e' = false -> te_lru e' <= te_lru e).
Proof.
  revert i m rw. induction es as [|x es IH]; intros i m rw; simpl; [by left|].
  destruct (negb (te_remap x) && (m <=? te_lru x)) eqn:Ex.
  - apply andb_true_iff in Ex as [Hr Hm]. apply negb_true_iff in Hr.
    apply Z.leb_le in Hm. right.
    destruct (IH (S i) (te_lru x) i) as [[Heq Hall]|(k & e & Heq & Hk & Hre & Hle & Hall)].
    + exists 0%nat, x. rewrite Heq. split_and!; [lia|done|done|done|].
      intros [|j] e' He' Hr'; simplify_eq/=; [lia|].
      apply Z.lt_le_incl. by eapply Hall.
    + exists (S k), e. rewrite Heq. split_and!; [lia|done|done|lia|].
      intros [|j] e' He' Hr'; simplify_eq/=; [lia|by eapply Hall].
  - apply andb_false_iff in Ex.
    assert (te_remap x = false -> te_lru x < m) as Hx.
    { intros Hr. destruct Ex as [Ex|Ex]; [by rewrite Hr in Ex|]. by apply Z.leb_gt in Ex. }
    destruct (IH (S i) m rw) as [[Heq Hall]|(k & e & Heq & Hk & Hre & Hle & Hall)].
    + left. split; [done|]. intros [|k] e He Hr; simplify_eq/=; eauto.
    + right. exists (S k), e. split_and!; [lia|done|done|done|].
      intros [|j] e' He' Hr'; simplify_eq/=; [|by eapply Hall].
      apply Hx in Hr'. lia.
Qed.

(** ** Operations on one set *)
Section SetLemmas.
Context (n : nat) (es : list TagBufferEntry) (Hok : set_ok n es).

(** Marking the first entry with its tag keeps the set well formed. *)
Lemma set_ok_mark tag i e :
  find_tag tag es = i -> es !! i = Some e ->
  set_ok n (<[i := mkTBE (te_tag e) true (te_lru e)]> es).
Proof.
  intros Hf He. destruct Hok as [Hlen Hlru Htags Hord].
  destruct (find_tag_hit _ _ _ _ Hf He) as [Htag Hfirst].
  split.
  - by rewrite length_insert.
  - intros j x [[<- ->]|[_ Hx]]%list_lookup_insert_cases; simpl; eauto.
  - intros j k a b Hjk [[<- ->]|[Hij Ha]]%list_lookup_insert_cases
      [[<- ->]|[Hik Hb]]%list_lookup_insert_cases Heq; simpl in *; [lia| | |eauto].
    + eapply Htags; [exact Hjk|exact He|exact Hb|done].
    + exfalso. eapply Hfirst; [exact Hjk|exact Ha|congruence].
  - intros j k a b [[<- ->]|[Hij Ha]]%list_lookup_insert_cases
      [[<- ->]|[Hik Hb]]%list_lookup_insert_cases Hra Hrb Hl; simpl in *; try done; eauto.
Qed.

(** Putting a tag the set does not have over an entry without [remap]. *)
Lemma set_ok_replace tag remap i e :
  find_tag tag es = length es -> es !! i = Some e -> te_remap e = false ->
  set_ok n (<[i := mkTBE tag remap (te_lru e)]> es).
Proof.
  intros Hf He Hre. destruct Hok as [Hlen Hlru Htags Hord].
  pose proof (find_tag_miss tag es) as Hmiss.
  split.
  - by rewrite length_insert.
  - intros j x [[<- ->]|[_ Hx]]%list_lookup_insert_cases; simpl; eauto.
  - intros j k a b Hjk [[<- ->]|[Hij Ha]]%list_lookup_insert_cases
      [[<- ->]|[Hik Hb]]%list_lookup_insert_cases Heq; simpl in *; [lia| | |eauto].
    + exfalso. eapply Hmiss; eauto.
    + exfalso. eapply Hmiss; eauto.
  - intros j k a b [[<- ->]|[Hij Ha]]%list_lookup_insert_cases
      [[<- ->]|[Hik Hb]]%list_lookup_insert_cases Hra Hrb Hl; simpl in *; try done; eauto.
Qed.

(** [updateLRU] keeps the order of the replaceable entries strict and the [lru]
    values below the associativity. *)
Lemma set_ok_touch way e :
  es !! way = Some e -> te_remap e = false -> Z.of_nat n < 2 ^ 32 ->
  set_ok n (<[way := mkTBE (te_tag e) (te_remap e) 0]> (age_entry (te_lru e) <$> es)).
Proof.
  intros He Hre Hn. destruct Hok as [Hlen Hlru Htags Hord].
  set (g := age_entry (te_lru e)).
  assert (forall x, te_tag (g x) = te_tag x /\ te_remap (g x) = te_remap x) as Hg.
  { intros x. unfold g, age_entry. by destruct (_ && _). }
  assert (forall j x, es !! j = Some x -> way <> j -> te_remap x = false ->
            te_lru (g x) = (if te_lru x <? te_lru e then te_lru x + 1 else te_lru x) /\
            te_lru x <> te_lru e) as Hl.
  { intros j x Hx Hne Hr. split.
    - unfold g, age_entry. rewrite Hr. simpl. destruct (Z.ltb_spec (te_lru x) (te_lru e)); [|done].
      simpl. apply u32_id. pose proof (Hlru _ _ Hx). pose proof (Hlru _ _ He).
      unfold in_u32. lia.
    - intros Heq. apply Hne. by eapply Hord. }
  assert (forall j x, <[way := mkTBE (te_tag e) (te_remap e) 0]> (g <$> es) !! j = Some x ->
    exists y, es !! j = Some y /\ te_tag x = te_tag y /\ te_remap x = te_remap y /\
      ((way = j /\ te_lru x = 0) \/ (way <> j /\ x = g y))) as Hinv.
  { intros j x [[<- ->]|[Hne Hx]]%list_lookup_insert_cases.
    - exists e. simpl. by split_and!; [| | |left].
    - rewrite list_lookup_fmap in Hx. destruct (es !! j) as [y|] eqn:Hy; simplify_eq/=.
      exists y. destruct (Hg y). by split_and!; [| | |right]. }
  split.
  - by rewrite length_insert, length_fmap.
  - intros j x Hx. destruct (Hinv _ _ Hx) as (y & Hy & _ & _ & [[_ ->]|[Hne ->]]).
    + pose proof (Hlru _ _ He). lia.
    + unfold g, age_entry. pose proof (Hlru _ _ Hy). pose proof (Hlru _ _ He).
      destruct (negb _ && _) eqn:Eb; [|done]. apply andb_true_iff in Eb as [_ Eb].
      apply Z.ltb_lt in Eb. simpl. rewrite u32_id by (unfold in_u32; lia). lia.
  - intros i j a b Hij Ha Hb Heq.
    destruct (Hinv _ _ Ha) as (x & Hx & Htx & Hrx & _).
    destruct (Hinv _ _ Hb) as (y & Hy & Hty & Hry & _).
    rewrite Htx, Hry. rewrite Htx, Hty in Heq. by eapply Htags.
  - intros i j a b Ha Hb Hra Hrb Heq.
    destruct (Hinv _ _ Ha) as (x & Hx & Htx & Hrx & Hcx).
    destruct (Hinv _ _ Hb) as (y & Hy & Hty & Hry & Hcy).
    rewrite Hrx in Hra. rewrite Hry in Hrb.
    pose proof (Hlru _ _ Hx). pose proof (Hlru _ _ Hy). pose proof (Hlru _ _ He).
    destruct Hcx as [[<- Hx0]|[Hnx ->]]; destruct Hcy as [[<- Hy0]|[Hny ->]]; [done| | |].
    + destruct (Hl _ _ Hy Hny Hrb) as [Hly ?]. destruct (Z.ltb_spec (te_lru y) (te_lru e)); lia.
    + destruct (Hl _ _ Hx Hnx Hra) as [Hlx ?]. destruct (Z.ltb_spec (te_lru x) (te_lru e)); lia.
    + destruct (Hl _ _ Hx Hnx Hra) as [Hlx ?]. destruct (Hl _ _ Hy Hny Hrb) as [Hly ?].
      eapply Hord; eauto.
      destruct (Z.ltb_spec (te_lru x) (te_lru e)), (Z.ltb_spec (te_lru y) (te_lru e)); lia.
Qed.

Lemma set_ok_tags_distinct : tags_distinct es = true.
Proof.
  destruct Hok as [_ _ Htags _]. clear Hok. revert Htags.
  induction es as [|x l IH]; intros H; simpl; [done|].
  apply andb_true_iff. split.
  - apply forallb_forall. intros y Hy. apply list_elem_of_In in Hy.
    apply list_elem_of_lookup in Hy as [j Hj].
    destruct (Z.eqb_spec (te_tag x) (te_tag y)) as [Heq|]; simpl; [|done].
    apply Z.eqb_eq. by apply (H 0%nat (S j) x y); [lia| | |].
  - apply IH. intros i j a b Hij Ha Hb. by apply (H (S i) (S j)); [lia| |].
Qed.

End SetLemmas.

Lemma reset_set_lookup n i e :
  reset_set n !! i = Some e -> (i < n)%nat /\ e = mkTBE 0 false (Z.of_nat i).
Proof.
  unfold reset_set. rewrite list_lookup_fmap. intros H.
  destruct (seq 0 n !! i) as [k|] eqn:Hk; simplify_eq/=.
  apply lookup_seq in Hk as [-> ?]. done.
Qed.

Lemma reset_set_ok n : set_ok n (reset_set n).
Proof.
  split.
  - unfold reset_set. by rewrite length_fmap, length_seq.
  - intros i e [? ->]%reset_set_lookup. simpl. lia.
  - intros i j a b _ [_ ->]%reset_set_lookup [_ ->]%reset_set_lookup _. done.
  - intros i j a b [_ ->]%reset_set_lookup [_ ->]%reset_set_lookup _ _. simpl. lia.
Qed.

Lemma reset_set_count n : count_if te_remap (reset_set n) = 0%nat.
Proof.
  apply count_if_zero. intros e [i He]%list_elem_of_lookup.
  by apply reset_set_lookup in He as [_ ->].
Qed.

(** ** The buffer as a whole *)

Lemma tb_set_num_inv tb tag :
  tb_inv tb -> tb_set_num tb tag = Ok (Z.to_nat (tag mod tb_num_sets tb)).
Proof.
  intros [Hw Hs Hsz _ _ _]. unfold tb_set_num, umod.
  destruct (Z.eqb_spec (tb_num_sets tb) 0); [lia|].
  assert (0 <= tag mod tb_num_sets tb < tb_num_sets tb) by (apply Z.mod_pos_bound; lia).
  rewrite u32_id; [done|]. unfold in_u32. nia.
Qed.

Lemma tb_set_inv tb tag :
  tb_inv tb -> exists n es, tb_set tb tag = Ok (n, es) /\
    tb_sets tb !! n = Some es /\ set_ok (tb_num_ways tb) es.
Proof.
  intros Hi. pose proof (tb_set_num_inv tb tag Hi) as Hn.
  destruct Hi as [Hw Hs Hsz Hlen Hok _].
  assert (0 <= tag mod tb_num_sets tb < tb_num_sets tb) by (apply Z.mod_pos_bound; lia).
  destruct (lookup_lt_is_Some_2 (tb_sets tb) (Z.to_nat (tag mod tb_num_sets tb))) as [es Hes];
    [rewrite Hlen; lia|].
  exists (Z.to_nat (tag mod tb_num_sets tb)), es.
  unfold tb_set, at_. rewrite Hn, Hes. eauto.
Qed.

Lemma tb_set_lookup tb tag n es :
  tb_set tb tag = Ok (n, es) -> tb_sets tb !! n = Some es.
Proof.
  unfold tb_set, at_. destruct (tb_set_num tb tag) as [k|]; [|done].
  destruct (tb_sets tb !! k) eqn:E; intros; by simplify_eq.
Qed.

(** Writing one set changes exactly the lookups of that set. *)
Lemma tb_set_put tb n es0 es tag :
  tb_sets tb !! n = Some es0 ->
  tb_set (put_set n es tb) tag =
    match tb_set tb tag with
    | Ok (m, es1) => Ok (m, if decide (n = m) then es else es1)
    | Err e => Err e
    end.
Proof.
  intros Hn. unfold tb_set, tb_set_num, at_. simpl.
  destruct (umod tag (tb_num_sets tb)) as [r|]; [|done].
  destruct (decide (n = Z.to_nat (u32 r))) as [->|Hne].
  - rewrite list_lookup_insert_eq by (by eapply lookup_lt_Some).
    rewrite Hn. cbn. by case_decide.
  - rewrite list_lookup_insert_ne by done.
    destruct (tb_sets tb !! Z.to_nat (u32 r)); cbn; [by case_decide|done].
Qed.

Lemma occupied_count_put tb n es0 es :
  tb_sets tb !! n = Some es0 ->
  (occupied_count (put_set n es tb) + count_if te_remap es0 =
   occupied_count tb + count_if te_remap es)%nat.
Proof.
  intros Hn. unfold occupied_count. simpl. rewrite list_fmap_insert.
  apply sum_list_insert. by rewrite list_lookup_fmap, Hn.
Qed.

Lemma occupied_count_bound tb :
  (forall i es, tb_sets tb !! i = Some es -> set_ok (tb_num_ways tb) es) ->
  (occupied_count tb <= length (tb_sets tb) * tb_num_ways tb)%nat.
Proof.
  intros Hok. unfold occupied_count.
  rewrite <- (length_fmap (count_if te_remap) (tb_sets tb)).
  apply sum_list_bound. intros x [es [-> Hes]]%list_elem_of_fmap.
  apply list_elem_of_lookup in Hes as [i Hi]. pose proof (Hok _ _ Hi) as [Hlen _ _ _].
  pose proof (count_if_le te_remap es). lia.
Qed.

Lemma occupied_lt tb : tb_inv tb -> Z.of_nat (occupied_count tb) < 2 ^ 32.
Proof.
  intros [Hw Hs Hsz Hlen Hok Hocc]. pose proof (occupied_count_bound tb Hok). nia.
Qed.

Lemma tb_inv_count tb : tb_inv tb -> (count_remap tb =? tb_entry_occupied tb) = true.
Proof.
  intros Hi. apply Z.eqb_eq. unfold count_remap.
  change (sum_list (count_if te_remap <$> tb_sets tb)) with (occupied_count tb).
  rewrite u32_id; [by rewrite (tbi_occupied _ Hi)|].
  pose proof (occupied_lt tb Hi). unfold in_u32. lia.
Qed.

(** The invariant after one set was rewritten and the counter adjusted. *)
Lemma tb_inv_put tb n es0 es occ :
  tb_inv tb -> tb_sets tb !! n = Some es0 -> set_ok (tb_num_ways tb) es ->
  occ + Z.of_nat (count_if te_remap es0) =
    tb_entry_occupied tb + Z.of_nat (count_if te_remap es) ->
  tb_inv (mkTB (<[n:=es]> (tb_sets tb)) (tb_num_ways tb) (tb_num_sets tb) occ
            (tb_last_clear_time tb)).
Proof.
  intros [Hw Hs Hsz Hlen Hok Hocc] Hn Hes Hc. split; simpl; try done.
  - by rewrite length_insert.
  - intros i x [[_ ->]|[_ Hx]]%list_lookup_insert_cases; eauto.
  - pose proof (occupied_count_put tb n es0 es Hn) as H.
    unfold occupied_count, put_set in *. simpl in *. lia.
Qed.

Lemma canInsert_ok tb tag :
  tb_inv tb -> exists n es, tb_set tb tag = Ok (n, es) /\
    canInsert tag tb = Ok (existsb (insertable tag) es).
Proof.
  intros Hi. destruct (tb_set_inv tb tag Hi) as (n & es & Hset & _ & _).
  exists n, es. split; [done|]. unfold canInsert. by rewrite tb_inv_count, Hset.
Qed.

Lemma existsb_lookup {A} (p : A -> bool) l :
  existsb p l = true <-> exists i x, l !! i = Some x /\ p x = true.
Proof.
  rewrite existsb_exists. split.
  - intros (x & Hx & Hp). apply list_elem_of_In, list_elem_of_lookup in Hx as [i Hi]. eauto.
  - intros (i & x & Hi & Hp). exists x. split; [|done].
    apply list_elem_of_In, list_elem_of_lookup. eauto.
Qed.

(** ** What [insert] does to the set of its tag *)

(** Either the tag's first entry is updated, or an entry without [remap] is
    overwritten; every other entry keeps its tag and its [remap] bit. *)
Inductive insert_shape (tag : Address) (r : bool) (es es' : list TagBufferEntry) : Prop :=
| Insert_shape (i : nat) (old new : TagBufferEntry)
    (is_lookup : es !! i = Some old)
    (is_target : (find_tag tag es = i /\ te_tag old = tag) \/
                 (find_tag tag es = length es /\ te_remap old = false))
    (is_lookup' : es' !! i = Some new)
    (is_tag : te_tag new = tag)
    (is_remap : te_remap new = (r || te_remap old)%bool)
    (is_others : forall j, j <> i ->
      (fun e => (te_tag e, te_remap e)) <$> es' !! j =
      (fun e => (te_tag e, te_remap e)) <$> es !! j).

Lemma tb_updateLRU_run tb n es way e :
  tb_sets tb !! n = Some es -> es !! way = Some e -> te_remap e = false ->
  tb_updateLRU n way tb =
    Ok (tt, put_set n (<[way := mkTBE (te_tag e) false 0]> (age_entry (te_lru e) <$> es)) tb).
Proof.
  intros Hn He Hr. unfold tb_updateLRU, bind, get, lift, at_, assert_, modify.
  rewrite Hn, He, Hr. done.
Qed.

Lemma age_entry_same l e : te_tag (age_entry l e) = te_tag e /\ te_remap (age_entry l e) = te_remap e.
Proof. unfold age_entry. by destruct (_ && _). Qed.

(** The shape produced by [updateLRU] after an entry was rewritten in place. *)
Lemma touch_shape tag es i e :
  es !! i = Some e -> te_remap e = false ->
  (find_tag tag es = i /\ te_tag e = tag) \/ (find_tag tag es = length es) ->
  insert_shape tag false es
    (<[i := mkTBE tag false 0]> (age_entry (te_lru e) <$> <[i := mkTBE tag false (te_lru e)]> es)).
Proof.
  intros He Hr Ht.
  assert (i < length es)%nat as Hi by (by eapply lookup_lt_Some).
  refine (Insert_shape _ _ _ _ i e (mkTBE tag false 0) He _ _ _ _ _).
  - destruct Ht; auto.
  - apply list_lookup_insert_eq. by rewrite length_fmap, length_insert.
  - done.
  - by rewrite Hr.
  - intros j Hj. rewrite list_lookup_insert_ne, list_lookup_fmap, list_lookup_insert_ne by done.
    destruct (es !! j) as [x|]; simpl; [|done]. by destruct (age_entry_same (te_lru e) x) as [-> ->].
Qed.

Lemma put_shape tag r es i e l :
  es !! i = Some e ->
  (find_tag tag es = i /\ te_tag e = tag) \/ (find_tag tag es = length es /\ te_remap e = false) ->
  insert_shape tag r es (<[i := mkTBE tag (r || te_remap e) l]> es).
Proof.
  intros He Ht. assert (i < length es)%nat as Hi by (by eapply lookup_lt_Some).
  refine (Insert_shape _ _ _ _ i e (mkTBE tag (r || te_remap e) l) He Ht _ _ _ _); try done.
  - by apply list_lookup_insert_eq.
  - intros j Hj. by rewrite list_lookup_insert_ne.
Qed.

(** The victim search succeeds when the tag is absent and some entry is free. *)
Lemma pick_victim_found tag es n :
  set_ok n es -> find_tag tag es = length es -> existsb (insertable tag) es = true ->
  exists e, es !! pick_victim es 0 0 n = Some e /\ te_remap e = false /\
    forall j x, es !! j = Some x -> te_remap x = false -> te_lru x <= te_lru e.
Proof.
  intros Hok Hf (i & x & Hi & Hx)%existsb_lookup.
  assert (te_remap x = false) as Hrx.
  { unfold insertable in Hx. apply orb_true_iff in Hx as [Hx|Hx].
    - by apply negb_true_iff in Hx.
    - apply Z.eqb_eq in Hx. exfalso. by eapply find_tag_miss. }
  destruct (pick_victim_spec es 0 0 n) as [[_ Hno]|(k & e & Heq & Hk & Hr & _ & Hmax)].
  - pose proof (Hno _ _ Hi Hrx). pose proof (so_lru _ _ Hok _ _ Hi). lia.
  - exists e. by rewrite Heq.
Qed.

(** [tb_after tb n es' d]: the buffer with set [n] rewritten and the occupancy
    counter moved by [d]. *)
Definition tb_after (tb : TagBuffer) (n : nat) (es' : list TagBufferEntry) (d : Z) : TagBuffer :=
  mkTB (<[n := es']> (tb_sets tb)) (tb_num_ways tb) (tb_num_sets tb)
    (tb_entry_occupied tb + d) (tb_last_clear_time tb).

Lemma sum_list_strict (l : list nat) i x b :
  l !! i = Some x -> (x < b)%nat -> (forall y, y ∈ l -> (y <= b)%nat) ->
  (sum_list l < length l * b)%nat.
Proof.
  intros Hi Hx Hall. pose proof (sum_list_insert l i x b Hi) as H1.
  pose proof (sum_list_bound (<[i:=b]> l) b) as H2. rewrite length_insert in H2.
  enough (sum_list (<[i:=b]> l) <= length l * b)%nat by lia. apply H2.
  intros y [j [[_ ->]|[_ Hy]]%list_lookup_insert_cases]%list_elem_of_lookup; [done|].
  apply Hall, list_elem_of_lookup. eauto.
Qed.

Lemma inc_occupied_id tb n es :
  tb_inv tb -> tb_sets tb !! n = Some es -> (count_if te_remap es < tb_num_ways tb)%nat ->
  u32 (tb_entry_occupied tb + 1) = tb_entry_occupied tb + 1.
Proof.
  intros Hi Hn Hlt. apply u32_id. destruct Hi as [Hw Hs Hsz Hlen Hok Hocc].
  enough (occupied_count tb < length (tb_sets tb) * tb_num_ways tb)%nat
    by (unfold in_u32; nia).
  unfold occupied_count. rewrite <- (length_fmap (count_if te_remap) (tb_sets tb)).
  eapply sum_list_strict; [by rewrite list_lookup_fmap, Hn|done|].
  intros y [l [-> [j Hl]%list_elem_of_lookup]]%list_elem_of_fmap.
  rewrite <- (so_length _ _ (Hok _ _ Hl)). apply count_if_le.
Qed.

Lemma count_remap_age l es :
  count_if te_remap (age_entry l <$> es) = count_if te_remap es.
Proof.
  induction es as [|e es IH]; csimpl; [done|].
  destruct (age_entry_same l e) as [_ ->]. by rewrite IH.
Qed.

(** [updateLRU] does not change which entries are remapped. *)
Lemma count_remap_touch es i e t l :
  es !! i = Some e -> te_remap e = false ->
  count_if te_remap (<[i := mkTBE t false 0]> (age_entry l <$> es)) = count_if te_remap es.
Proof.
  intros He Hr. rewrite <- (count_remap_age l es).
  pose proof (count_if_insert te_remap (age_entry l <$> es) i (age_entry l e)
                (mkTBE t false 0)) as H.
  rewrite list_lookup_fmap, He in H. specialize (H eq_refl).
  destruct (age_entry_same l e) as [_ Hra]. rewrite Hra, Hr in H. simpl in H. lia.
Qed.

Lemma count_free_lt es i e n :
  length es = n -> es !! i = Some e -> te_remap e = false ->
  (count_if te_remap es < n)%nat.
Proof.
  intros Hlen He Hr.
  pose proof (count_if_insert te_remap es i e (mkTBE 0 true 0) He) as H.
  rewrite Hr in H. simpl in H.
  pose proof (count_if_le te_remap (<[i:=mkTBE 0 true 0]> es)) as H'.
  rewrite length_insert in H'. lia.
Qed.

(** [insert] returns whenever [canInsert] said so; the result is described by
    its shape. *)
Section Insert.
Context (tb : TagBuffer) (tag : Address) (n : nat) (es : list TagBufferEntry).
Context (Hi : tb_inv tb) (Hset : tb_set tb tag = Ok (n, es)).

#[local] Lemma Hn : tb_sets tb !! n = Some es.
Proof using Hset. by eapply tb_set_lookup. Qed.
#[local] Lemma Hok : set_ok (tb_num_ways tb) es.
Proof using Hi Hset. apply (tbi_ok _ Hi n), Hn. Qed.
#[local] Lemma Hw32 : Z.of_nat (tb_num_ways tb) < 2 ^ 32.
Proof using Hi. pose proof (tbi_size _ Hi). pose proof (tbi_sets _ Hi). nia. Qed.

Definition insert_result (r : bool) (es' : list TagBufferEntry) (d : Z) : Prop :=
  tb_insert tag r tb = Ok (tt, tb_after tb n es' d) /\
  set_ok (tb_num_ways tb) es' /\
  d = Z.of_nat (count_if te_remap es') - Z.of_nat (count_if te_remap es) /\
  insert_shape tag r es es'.

(** The tag is already there. *)
Lemma tb_insert_existing r :
  (find_tag tag es < tb_num_ways tb)%nat -> exists es' d, insert_result r es' d.
Proof using Hi Hset.
  intros Hlt. pose proof Hn as Hn. pose proof Hok as Hok.
  destruct (lookup_lt_is_Some_2 es (find_tag tag es)) as [e He].
  { by rewrite (so_length _ _ Hok). }
  destruct (find_tag_hit tag es _ e eq_refl He) as [Htag _].
  assert (tb_insert tag r tb =
    (if r then
       modify (if te_remap e then id else inc_occupied) ;;
       modify (put_set n (<[find_tag tag es := mkTBE tag true (te_lru e)]> es))
     else when (negb (te_remap e)) (tb_updateLRU n (find_tag tag es))) tb) as Hrun.
  { unfold tb_insert, bind, get, lift, assert_, at_. rewrite Hset.
    rewrite (set_ok_tags_distinct _ _ Hok). simpl.
    apply Nat.ltb_lt in Hlt. rewrite Hlt, He, Htag, Z.eqb_refl. by destruct r. }
  unfold insert_result. rewrite Hrun. destruct r.
  - exists (<[find_tag tag es := mkTBE tag true (te_lru e)]> es), (if te_remap e then 0 else 1).
    pose proof (count_if_insert te_remap es _ e (mkTBE tag true (te_lru e)) He) as Hc.
    simpl in Hc. split_and!.
    + unfold tb_after, put_set, bind, modify. destruct (te_remap e) eqn:Hr; simpl.
      * by rewrite Z.add_0_r.
      * rewrite (inc_occupied_id tb n es Hi Hn); [done|].
        eapply count_free_lt; [apply Hok|done|done].
    + pose proof (set_ok_mark _ _ Hok tag _ e eq_refl He) as H. by rewrite Htag in H.
    + destruct (te_remap e); lia.
    + apply (put_shape tag true es _ e); auto.
  - destruct (te_remap e) eqn:Hr; simpl.
    + exists es, 0. split_and!; [|done|lia|].
      * unfold tb_after. rewrite Z.add_0_r, list_insert_id by done. by destruct tb.
      * pose proof (put_shape tag false es (find_tag tag es) e (te_lru e) He) as H.
        simpl in H. rewrite Hr in H.
        replace (mkTBE tag true (te_lru e)) with e in H by (destruct e; simpl in *; congruence).
        rewrite list_insert_id in H by done. auto.
    + rewrite (tb_updateLRU_run _ _ _ _ _ Hn He Hr), Htag.
      exists (<[find_tag tag es := mkTBE tag false 0]> (age_entry (te_lru e) <$> es)), 0.
      split_and!.
      * unfold tb_after, put_set. by rewrite Z.add_0_r.
      * pose proof (set_ok_touch _ _ Hok _ _ He Hr Hw32) as H. by rewrite Htag, Hr in H.
      * rewrite (count_remap_touch _ _ e) by done. lia.
      * pose proof (touch_shape tag es _ e He Hr (or_introl (conj eq_refl Htag))) as H.
        replace (mkTBE tag false (te_lru e)) with e in H by (destruct e; simpl in *; congruence).
        by rewrite (list_insert_id es _ e) in H.
Qed.

(** The tag is absent and an entry without [remap] can be replaced. *)
Lemma tb_insert_fresh r :
  find_tag tag es = length es -> existsb (insertable tag) es = true ->
  exists es' d, insert_result r es' d.
Proof using Hi Hset.
  intros Hf Hex. pose proof Hn as Hn. pose proof Hok as Hok.
  pose proof (so_length _ _ Hok) as Hlen.
  destruct (pick_victim_found tag es _ Hok Hf Hex) as (e & He & Hr & _).
  set (v := pick_victim es 0 0 (tb_num_ways tb)) in *.
  assert (v < length es)%nat as Hv by (by eapply lookup_lt_Some).
  set (es1 := <[v := mkTBE tag r (te_lru e)]> es).
  assert (tb_insert tag r tb =
    (if r then modify inc_occupied else tb_updateLRU n v) (put_set n es1 tb)) as Hrun.
  { unfold tb_insert, bind, get, lift, assert_, at_. rewrite Hset.
    rewrite (set_ok_tags_distinct _ _ Hok). simpl. rewrite Hf.
    destruct (Nat.ltb_spec (length es) (tb_num_ways tb)); [lia|]. fold v.
    destruct (Nat.eqb_spec v (tb_num_ways tb)); [lia|]. simpl. by rewrite He. }
  assert (set_ok (tb_num_ways tb) es1) as Hok1 by (by apply set_ok_replace).
  pose proof (count_if_insert te_remap es v e (mkTBE tag r (te_lru e)) He) as Hc.
  rewrite Hr in Hc. simpl in Hc.
  unfold insert_result. rewrite Hrun. destruct r.
  - exists es1, 1. split_and!; [|done|unfold es1; lia|].
    + unfold modify, tb_after, inc_occupied. simpl.
      rewrite (inc_occupied_id tb n es Hi Hn); [done|]. by eapply count_free_lt.
    + apply (put_shape tag true es v e); auto.
  - assert (es1 !! v = Some (mkTBE tag false (te_lru e))) as Hv1 by (by apply list_lookup_insert_eq).
    exists (<[v := mkTBE tag false 0]> (age_entry (te_lru e) <$> es1)), 0. split_and!.
    + rewrite (tb_updateLRU_run _ n es1 v (mkTBE tag false (te_lru e))); [|simpl|done|done].
      * unfold tb_after, put_set. simpl. by rewrite list_insert_insert_eq, Z.add_0_r.
      * apply list_lookup_insert_eq. by eapply lookup_lt_Some.
    + apply (set_ok_touch _ _ Hok1 _ _ Hv1); [done|apply Hw32].
    + rewrite (count_remap_touch _ _ _ _ _ Hv1) by done. unfold es1. lia.
    + by apply touch_shape; [| |right].
Qed.

Lemma tb_insert_run r :
  existsb (insertable tag) es = true -> exists es' d, insert_result r es' d.
Proof using Hi Hset.
  intros Hex. pose proof (so_length _ _ Hok) as Hlen.
  pose proof (find_idx_le (fun e => te_tag e =? tag) es) as Hle.
  fold (find_tag tag es) in Hle.
  destruct (Nat.ltb_spec (find_tag tag es) (tb_num_ways tb)).
  - by apply tb_insert_existing.
  - apply tb_insert_fresh; [lia|done].
Qed.

End Insert.

(** ** Consequences used by the memory controller *)

Definition has_remap (es : list TagBufferEntry) (t : Address) : Prop :=
  exists e, e ∈ es /\ te_tag e = t /\ te_remap e = true.

Lemma remapped_set tb t n es :
  tb_set tb t = Ok (n, es) -> (remapped tb t <-> has_remap es t).
Proof.
  intros Hs. unfold remapped, has_remap. rewrite Hs. split.
  - intros (m & es1 & e & ? & ? & ? & ?). simplify_eq. eauto.
  - intros (e & ? & ? & ?). eauto 10.
Qed.

Lemma shape_remap tag r es es' t :
  insert_shape tag r es es' ->
  (has_remap es' t <-> has_remap es t \/ (r = true /\ t = tag)).
Proof.
  intros [i old new Hold Htgt Hnew Htag Hrm Hoth]. split.
  - intros (e & [j He]%list_elem_of_lookup & <- & Hr).
    destruct (decide (j = i)) as [->|Hne].
    + assert (e = new) as -> by congruence. rewrite Hrm in Hr. destruct r; [by right|].
      left. exists old. split_and!; [by apply list_elem_of_lookup; eauto| |done].
      simpl in Hr. destruct Htgt as [[_ ?]|[_ ?]]; congruence.
    + left. specialize (Hoth j Hne). rewrite He in Hoth.
      destruct (es !! j) as [x|] eqn:Hx; simplify_eq/=.
      exists x. split_and!; [by apply list_elem_of_lookup; eauto|done|congruence].
  - intros [(e & [j He]%list_elem_of_lookup & <- & Hr)|[-> ->]].
    + destruct (decide (j = i)) as [->|Hne].
      * assert (e = old) as -> by congruence. exists new.
        split_and!; [by apply list_elem_of_lookup; eauto| |by rewrite Hrm, Hr, orb_true_r].
        destruct Htgt as [[_ ?]|[_ ?]]; congruence.
      * specialize (Hoth j Hne). rewrite He in Hoth.
        destruct (es' !! j) as [x|] eqn:Hx; simplify_eq/=.
        exists x. split_and!; [by apply list_elem_of_lookup; eauto|done|congruence].
    + exists new. split_and!; [by apply list_elem_of_lookup; eauto|done|by rewrite Hrm].
Qed.

(** [remapped] is the abstract state; these are the three abstract operations. *)
Definition remap_added (r : bool) (tag : Address) (tb tb' : TagBuffer) : Prop :=
  forall t, remapped tb' t <-> remapped tb t \/ (r = true /\ t = tag).

(** What no operation changes. *)
Definition same_geometry (tb tb' : TagBuffer) : Prop :=
  tb_num_ways tb' = tb_num_ways tb /\ tb_num_sets tb' = tb_num_sets tb.

Lemma tb_insert_after tb tag r n es es' d :
  tb_inv tb -> tb_set tb tag = Ok (n, es) -> insert_result tb tag n es r es' d ->
  tb_inv (tb_after tb n es' d) /\ remap_added r tag tb (tb_after tb n es' d) /\
  same_geometry tb (tb_after tb n es' d) /\
  (forall t, tb_set (tb_after tb n es' d) t =
     match tb_set tb t with
     | Ok (m, es1) => Ok (m, if decide (n = m) then es' else es1)
     | Err e => Err e
     end).
Proof.
  intros Hi Hset (_ & Hok & Hd & Hshape).
  pose proof (tb_set_lookup _ _ _ _ Hset) as Hn.
  assert (forall t, tb_set (tb_after tb n es' d) t =
     match tb_set tb t with
     | Ok (m, es1) => Ok (m, if decide (n = m) then es' else es1)
     | Err e => Err e
     end) as Hlook by (intros t; apply (tb_set_put tb n es es' t Hn)).
  split_and!; [|intros t|done|done].
  - apply (tb_inv_put tb n es es'); [done|done|done|]. lia.
  - destruct (tb_set_inv tb t Hi) as (m & es1 & Hs & Hm & _).
    rewrite (remapped_set _ _ _ _ Hs). pose proof (Hlook t) as Ht. rewrite Hs in Ht.
    rewrite (remapped_set _ _ _ _ Ht). case_decide as Hnm.
    + subst. assert (es1 = es) as -> by congruence. by apply shape_remap.
    + split; [by left|]. intros [?|[_ ->]]; [done|]. rewrite Hset in Hs. by simplify_eq.
Qed.

(** [insert] under the precondition the code checks. *)
Lemma tb_insert_ok tb tag r :
  tb_inv tb -> canInsert tag tb = Ok true ->
  wp (tb_insert tag r)
    (fun _ tb' => tb_inv tb' /\ remap_added r tag tb tb' /\ same_geometry tb tb') tb.
Proof.
  intros Hi Hc. destruct (canInsert_ok tb tag Hi) as (n & es & Hset & Hc').
  rewrite Hc in Hc'. simplify_eq.
  destruct (tb_insert_run tb tag n es Hi Hset r) as (es' & d & Hres); [done|].
  destruct (tb_insert_after _ _ _ _ _ _ _ Hi Hset Hres) as (H1 & H2 & H3 & _).
  eapply ok_wp; [apply Hres|done].
Qed.

Lemma canInsert_total tb tag : tb_inv tb -> exists b, canInsert tag tb = Ok b.
Proof. intros Hi. destruct (canInsert_ok tb tag Hi) as (n & es & _ & ->). eauto. Qed.

Lemma canInsert2_total tb t1 t2 : tb_inv tb -> exists b, canInsert2 t1 t2 tb = Ok b.
Proof.
  intros Hi. unfold canInsert2. rewrite !tb_set_num_inv by done.
  destruct (tb_set_inv tb t1 Hi) as (n & es & Hset & Hn & _).
  unfold tb_set in Hset. rewrite tb_set_num_inv in Hset by done. unfold at_ in *.
  destruct (tb_sets tb !! Z.to_nat (t1 mod tb_num_sets tb)) eqn:El; simplify_eq.
  case_match; [eauto|]. destruct (canInsert_total tb t1 Hi) as [[] ->]; [|eauto].
  by apply canInsert_total.
Qed.

(** Room for a second tag after the first was marked. *)
Lemma shape_room t1 t2 n es es' :
  set_ok n es -> t1 <> t2 -> (2 <= count_if (insertable2 t1 t2) es)%nat ->
  insert_shape t1 true es es' -> existsb (insertable t2) es' = true.
Proof.
  intros Hok Hne Hc [i old new Hold Htgt Hnew Htag Hrm Hoth].
  (* some counted entry at a position other than the written one *)
  assert (exists k x, k <> i /\ es !! k = Some x /\ insertable2 t1 t2 x = true)
    as (k & x & Hki & Hk & Hx).
  { destruct (count_if_ge2 _ _ Hc) as (a & b & x & y & Hab & Ha & Hb & Hx & Hy).
    destruct (decide (a = i)); [exists b, y|exists a, x]; split_and!; auto; congruence. }
  apply existsb_lookup. exists k.
  specialize (Hoth k Hki). rewrite Hk in Hoth.
  destruct (es' !! k) as [x'|] eqn:Hx'; [|done]. injection Hoth as Htx Hrx'.
  exists x'. split; [done|].
  unfold insertable2 in Hx. unfold insertable. rewrite Htx, Hrx'.
  destruct (te_remap x) eqn:Hrx; simpl in *; [|done].
  destruct (Z.eqb_spec (te_tag x) t1) as [Ht1|]; simpl in Hx; [|done].
  exfalso. destruct Htgt as [[Hf _]|[Hf _]].
  - destruct (find_tag_hit t1 es i old Hf Hold) as [Ho Hfirst].
    assert (i < k)%nat as Hik.
    { destruct (decide (k < i)%nat) as [Hlt|]; [|lia]. by destruct (Hfirst k x Hlt Hk). }
    destruct (so_tags _ _ Hok i k old x Hik Hold Hk) as [_ ?]; congruence.
  - by apply (find_tag_miss t1 es k x Hf Hk).
Qed.

(** Two insertable entries leave room for the first tag. *)
Lemma count2_room t1 t2 n es :
  set_ok n es -> (2 <= count_if (insertable2 t1 t2) es)%nat ->
  existsb (insertable t1) es = true.
Proof.
  intros Hok Hc. destruct (existsb (insertable t1) es) eqn:Hex; [done|]. exfalso.
  assert (forall i x, es !! i = Some x -> insertable2 t1 t2 x = true ->
            te_tag x = t2 /\ te_remap x = true) as Hall.
  { intros i x Hx Hp. assert (insertable t1 x = false) as Hni.
    { destruct (insertable t1 x) eqn:E; [|done].
      assert (existsb (insertable t1) es = true) by (apply existsb_lookup; eauto). congruence. }
    unfold insertable, insertable2 in *.
    destruct (te_remap x); simpl in *; [|done]. rewrite Hni in Hp. simpl in Hp.
    split; [by apply Z.eqb_eq|done]. }
  destruct (count_if_ge2 _ _ Hc) as (i & j & x & y & Hij & Hi & Hj & Hx & Hy).
  destruct (Hall _ _ Hi Hx) as [Htx Hrx]. destruct (Hall _ _ Hj Hy) as [Hty Hry].
  destruct (decide (i < j)%nat).
  - destruct (so_tags _ _ Hok i j x y) as [_ ?]; congruence.
  - destruct (so_tags _ _ Hok j i y x) as [_ ?]; [lia|done|done|congruence|congruence].
Qed.

(** Reading the answer of [canInsert2]. *)
Lemma canInsert2_true tb t1 t2 n1 es1 n2 es2 :
  tb_inv tb -> tb_set tb t1 = Ok (n1, es1) -> tb_set tb t2 = Ok (n2, es2) ->
  canInsert2 t1 t2 tb = Ok true ->
  (n1 = n2 /\ (2 <= count_if (insertable2 t1 t2) es1)%nat) \/
  (n1 <> n2 /\ existsb (insertable t1) es1 = true /\ existsb (insertable t2) es2 = true).
Proof.
  intros Hi Hs1 Hs2 Hc.
  assert (forall t n es, tb_set tb t = Ok (n, es) ->
            tb_set_num tb t = Ok n /\ at_ (tb_sets tb) n = Ok es) as Hnum.
  { intros t n es. unfold tb_set. destruct (tb_set_num tb t) as [k|]; [|done].
    destruct (at_ (tb_sets tb) k) eqn:E; intros; simplify_eq. done. }
  destruct (Hnum _ _ _ Hs1) as [Hk1 Ha1]. destruct (Hnum _ _ _ Hs2) as [Hk2 Ha2].
  unfold canInsert2 in Hc. rewrite Hk1, Hk2, Ha1 in Hc.
  destruct (Nat.eqb_spec n1 n2).
  - left. split; [done|]. injection Hc as Hc. apply Z.leb_le in Hc. lia.
  - right. split; [done|].
    destruct (canInsert_ok tb t1 Hi) as (? & ? & H1 & Hc1).
    destruct (canInsert_ok tb t2 Hi) as (? & ? & H2 & Hc2).
    rewrite Hc1, Hc2 in Hc. rewrite H1 in Hs1. rewrite H2 in Hs2. simplify_eq.
    destruct (existsb (insertable t1) es1); simplify_eq. done.
Qed.

(** The check [canInsert(tag1, tag2)] makes room for both insertions. *)
Lemma tb_insert2_ok tb t1 t2 :
  tb_inv tb -> t1 <> t2 -> canInsert2 t1 t2 tb = Ok true ->
  wp (tb_insert t1 true ;; tb_insert t2 true)
    (fun _ tb' => tb_inv tb' /\ same_geometry tb tb' /\
       forall t, remapped tb' t <-> remapped tb t \/ t = t1 \/ t = t2) tb.
Proof.
  intros Hi Hne Hc.
  destruct (tb_set_inv tb t1 Hi) as (n1 & es1 & Hs1 & Hn1 & Hok1).
  destruct (tb_set_inv tb t2 Hi) as (n2 & es2 & Hs2 & Hn2 & Hok2).
  pose proof (canInsert2_true _ _ _ _ _ _ _ Hi Hs1 Hs2 Hc) as Hcase.
  assert (existsb (insertable t1) es1 = true) as Hroom1.
  { destruct Hcase as [[_ ?]|(_ & ? & _)]; [by eapply count2_room|done]. }
  destruct (tb_insert_run tb t1 n1 es1 Hi Hs1 true Hroom1) as (es1' & d & Hres).
  destruct (tb_insert_after _ _ _ _ _ _ _ Hi Hs1 Hres) as (Hi1 & Hadd1 & [Hg1 Hg2] & Hlook).
  apply wp_bind. eapply ok_wp; [apply Hres|]. cbv beta.
  specialize (Hlook t2). rewrite Hs2 in Hlook.
  eapply wp_mono; [apply tb_insert_ok; [done|]|].
  - destruct (canInsert_ok _ t2 Hi1) as (m & es & Hm & ->). f_equal.
    rewrite Hlook in Hm. simplify_eq. case_decide as Heq.
    + destruct Hcase as [[_ Hcnt]|[? _]]; [|done].
      assert (es1 = es2) as <- by congruence.
      eapply (shape_room t1 t2 _ es1); [done|done|done|apply Hres].
    + destruct Hcase as [[? _]|(_ & _ & ?)]; done.
  - intros [] tb' (Hi2 & Hadd2 & Hg3 & Hg4). split_and!; [done|split; congruence|].
    intros t. rewrite (Hadd2 t), (Hadd1 t). clear. intuition auto.
Qed.

(** [clearTagBuffer] drops every mapping and makes every insertion possible. *)
Lemma tb_clear_ok tb :
  tb_inv tb -> tb_inv (clearTagBuffer tb) /\ same_geometry tb (clearTagBuffer tb) /\
    forall t, ~ remapped (clearTagBuffer tb) t /\ canInsert t (clearTagBuffer tb) = Ok true.
Proof.
  intros Hi. assert (forall i es, tb_sets (clearTagBuffer tb) !! i = Some es ->
                       es = reset_set (tb_num_ways tb)) as Hall.
  { intros i es. simpl. rewrite list_lookup_fmap. by destruct (tb_sets tb !! i); intros; simplify_eq/=. }
  assert (tb_inv (clearTagBuffer tb)) as Hi'.
  { destruct Hi as [Hw Hs Hsz Hlen Hok Hocc]. split; simpl; try done.
    - by rewrite length_fmap.
    - intros i es Hes. rewrite (Hall i es Hes). apply reset_set_ok.
    - unfold occupied_count. simpl. clear -Hw. induction (tb_sets tb) as [|x l IH]; csimpl; [done|].
      rewrite reset_set_count. done. }
  split_and!; [done|done|]. intros t.
  destruct (canInsert_ok _ t Hi') as (n & es & Hset & Hc).
  pose proof (Hall _ _ (tb_set_lookup _ _ _ _ Hset)) as ->. split.
  - rewrite (remapped_set _ _ _ _ Hset).
    intros (e & [i He]%list_elem_of_lookup & _ & Hr).
    apply reset_set_lookup in He as [_ ->]. done.
  - rewrite Hc. f_equal. apply existsb_lookup.
    exists 0%nat, (mkTBE 0 false 0). split; [|done].
    destruct (tbi_ways _ Hi). all: unfold reset_set; rewrite list_lookup_fmap, lookup_seq_lt by lia; done.
Qed.

Lemma tb_clear_time_inv time tb : tb_inv tb -> tb_inv (setClearTime time tb).
Proof. intros [? ? ? ? ? ?]. by split. Qed.

Lemma canInsert_clear_time time t tb : canInsert t (setClearTime time tb) = canInsert t tb.
Proof. done. Qed.

Lemma TagBuffer_new_inv tb_size junk :
  8 <= tb_size < 2 ^ 32 -> tb_inv (TagBuffer_new tb_size junk).
Proof.
  intros Hs. assert (1 <= tb_size / 8) by (apply Z.div_le_lower_bound; lia).
  assert (8 * (tb_size / 8) <= tb_size) by (apply Z.mul_div_le; lia).
  split; simpl; try lia.
  - by rewrite length_replicate.
  - intros i es [-> _]%lookup_replicate. apply reset_set_ok.
  - unfold occupied_count. simpl. rewrite fmap_replicate, reset_set_count.
    induction (Z.to_nat (tb_size / 8)) as [|k IH]; simpl; done.
Qed.

#[export] Hint Resolve tb_clear_time_inv TagBuffer_new_inv : banshee.

(** Without room, [insert] stops at its assertion. *)
Lemma tb_insert_full tb tag r :
  tb_inv tb -> canInsert tag tb = Ok false -> tb_insert tag r tb = Err (AssertFail "mc.cpp:965").
Proof.
  intros Hi Hc. destruct (canInsert_ok tb tag Hi) as (n & es & Hset & Hc').
  rewrite Hc in Hc'. injection Hc' as Hex.
  assert (forall i e, es !! i = Some e -> te_remap e = true /\ te_tag e <> tag) as Hall.
  { intros i e He. destruct (insertable tag e) eqn:Hin.
    - enough (existsb (insertable tag) es = true) by congruence. apply existsb_lookup. eauto.
    - unfold insertable in Hin. apply orb_false_iff in Hin as [H1 H2].
      apply negb_false_iff in H1. apply Z.eqb_neq in H2. done. }
  pose proof (tbi_ok _ Hi n es (tb_set_lookup _ _ _ _ Hset)) as Hok.
  pose proof (so_length _ _ Hok) as Hlen.
  assert (find_tag tag es = length es) as Hf.
  { destruct (Nat.lt_ge_cases (find_tag tag es) (length es)) as [Hlt|Hge].
    - destruct (find_idx_lt _ _ Hlt) as (x & Hx & Ht & _). apply Z.eqb_eq in Ht.
      by destruct (Hall _ _ Hx).
    - pose proof (find_idx_le (fun e => te_tag e =? tag) es). unfold find_tag in *. lia. }
  unfold tb_insert, bind, get, lift, assert_. rewrite Hset, (set_ok_tags_distinct _ _ Hok). simpl.
  rewrite Hf. destruct (Nat.ltb_spec (length es) (tb_num_ways tb)); [lia|].
  destruct (pick_victim_spec es 0 0 (tb_num_ways tb)) as [[-> _]|(k & e & _ & Hk & Hr & _)].
  - by rewrite Nat.eqb_refl.
  - destruct (Hall _ _ Hk). congruence.
Qed.

(** ** The claims *)

(** C6: [canInsert(tag)] is exactly the condition under which [insert(tag, r)]
    returns.  If it holds, the invariant is kept, no remapped page is lost, and
    the set of remapped pages grows by [tag] when [r] is set and by nothing
    otherwise; if not, [insert] stops at its assertion. *)
Theorem insert_iff_canInsert tb tag r :
  tb_inv tb ->
  (canInsert tag tb = Ok true /\ exists tb', tb_insert tag r tb = Ok (tt, tb') /\ tb_inv tb' /\
     (forall t, remapped tb' t <-> remapped tb t \/ (r = true /\ t = tag))) \/
  (canInsert tag tb = Ok false /\ tb_insert tag r tb = Err (AssertFail "mc.cpp:965")).
Proof.
  intros Hi. destruct (canInsert_total tb tag Hi) as [[] Hc].
  - left. split; [done|].
    destruct (wp_ok _ _ _ (tb_insert_ok tb tag r Hi Hc)) as ([] & tb' & H1 & H2 & H3 & _). eauto.
  - right. split; [done|]. by apply tb_insert_full.
Qed.

(** [canInsert(tag1, tag2)] makes room for both insertions of a
    replacement, also when the two pages share a set: afterwards exactly these
    two pages have joined the remapped ones. *)
Theorem insert_pair tb t1 t2 :
  tb_inv tb -> t1 <> t2 -> canInsert2 t1 t2 tb = Ok true ->
  exists tb1 tb2, tb_insert t1 true tb = Ok (tt, tb1) /\ tb_insert t2 true tb1 = Ok (tt, tb2) /\
    tb_inv tb2 /\ forall t, remapped tb2 t <-> remapped tb t \/ t = t1 \/ t = t2.
Proof.
  intros Hi Hne Hc. pose proof (tb_insert2_ok tb t1 t2 Hi Hne Hc) as Hwp.
  unfold wp, bind in Hwp. destruct (tb_insert t1 true tb) as [[[] tb1]|e] eqn:E1; [|done].
  destruct (tb_insert t2 true tb1) as [[[] tb2]|e] eqn:E2; [|done].
  destruct Hwp as (H1 & _ & H2). eauto 6.
Qed.

(** [clearTagBuffer] forgets every mapping, resets the occupancy, and makes
    every page insertable. *)
Theorem clear_empties tb :
  tb_inv tb -> tb_inv (clearTagBuffer tb) /\ tb_entry_occupied (clearTagBuffer tb) = 0 /\
    forall t, ~ remapped (clearTagBuffer tb) t /\ canInsert t (clearTagBuffer tb) = Ok true.
Proof. intros Hi. destruct (tb_clear_ok tb Hi) as (H1 & _ & H2). auto. Qed.

(** An insertion of an absent page overwrites the least recently used entry
    that is not remapped: its [lru] is the largest among them. *)
Theorem victim_is_lru tb tag n es :
  tb_inv tb -> tb_set tb tag = Ok (n, es) -> existInTB tag tb = Ok (tb_num_ways tb) ->
  canInsert tag tb = Ok true ->
  exists old, es !! pick_victim es 0 0 (tb_num_ways tb) = Some old /\ te_remap old = false /\
    forall j e, es !! j = Some e -> te_remap e = false -> te_lru e <= te_lru old.
Proof.
  intros Hi Hset Hex Hc. destruct (canInsert_ok tb tag Hi) as (n' & es' & Hset' & Hc').
  rewrite Hset in Hset'. simplify_eq. rewrite Hc in Hc'. simplify_eq.
  pose proof (tbi_ok _ Hi n' es' (tb_set_lookup _ _ _ _ Hset)) as Hok.
  unfold existInTB in Hex. rewrite Hset in Hex. injection Hex as Hf.
  apply (pick_victim_found tag es' _ Hok); [|done]. by rewrite (so_length _ _ Hok).
Qed.

(** A buffer of one set, with page 5 remapped and page 6 seen. *)
Definition after_insert (tag : Address) (r : bool) (tb : TagBuffer) : TagBuffer :=
  match tb_insert tag r tb with Ok (_, tb') => tb' | Err _ => tb end.
Definition demo_tb : TagBuffer := after_insert 6 false (after_insert 5 true (TagBuffer_new 8 0)).

Lemma after_insert_inv tag r tb : tb_inv tb -> tb_inv (after_insert tag r tb).
Proof.
  intros Hi. unfold after_insert. destruct (canInsert_total tb tag Hi) as [[] Hc].
  - destruct (wp_ok _ _ _ (tb_insert_ok tb tag r Hi Hc)) as ([] & tb' & -> & ? & _). done.
  - by rewrite tb_insert_full.
Qed.

Lemma demo_tb_inv : tb_inv demo_tb.
Proof. apply after_insert_inv, after_insert_inv, TagBuffer_new_inv. lia. Qed.

Lemma insert_iff_canInsert_witness :
  exists tb', tb_insert 7 true demo_tb = Ok (tt, tb') /\ remapped tb' 7.
Proof.
  destruct (insert_iff_canInsert demo_tb 7 true demo_tb_inv) as [(_ & tb' & H1 & _ & H2)|[H1 _]].
  - exists tb'. split; [done|]. apply H2. by right.
  - vm_compute in H1. discriminate.
Defined.

Lemma insert_pair_witness :
  exists tb1 tb2, tb_insert 7 true demo_tb = Ok (tt, tb1) /\ tb_insert 8 true tb1 = Ok (tt, tb2) /\
    remapped tb2 8.
Proof.
  destruct (insert_pair demo_tb 7 8 demo_tb_inv) as (tb1 & tb2 & H1 & H2 & _ & H3);
    [lia|vm_compute; reflexivity|].
  exists tb1, tb2. split_and!; [done|done|]. apply H3. auto.
Defined.

Lemma clear_empties_witness : canInsert 5 (clearTagBuffer demo_tb) = Ok true.
Proof. apply (clear_empties demo_tb demo_tb_inv). Defined.

Lemma victim_is_lru_witness :
  exists old, default [] (tb_sets demo_tb !! 0%nat) !!
                pick_victim (default [] (tb_sets demo_tb !! 0%nat)) 0 0 8 = Some old /\
    te_remap old = false.
Proof.
  destruct (victim_is_lru demo_tb 9 0 (default [] (tb_sets demo_tb !! 0%nat)) demo_tb_inv)
    as (old & H1 & H2 & _); [vm_compute; reflexivity..|]. by exists old.
Defined.
