(* ===== verification/Placement.v ===== *)
(** * The placement policies of the DRAM cache

    [PagePlacementPolicy] ([src/src/page_placement.h], [page_placement.cpp]):
    frequency-based replacement (FBR) with sampled counters, and LRU;
    [LinePlacementPolicy] ([line_placement.cpp]) and [OSPlacementPolicy]
    ([os_placement.cpp]).  The data they share with the memory controller
    ([Way], [Set], [Scheme], [ReqType] of [src/src/mc.h]) come first. *)

From stdpp Require Import base list strings.
From Stdlib Require Import ZArith Lia.
From S2P Require Import Prelude Numeric MemHierarchy TagBuffer.
Local Open Scope Z_scope.

(** ** Data of [mc.h] *)

Inductive ReqType := LOAD | STORE.

Inductive Scheme := AlloyCache | UnisonCache | HMA | HybridCache | NoCache | CacheOnly | Tagless.

#[export] Instance ReqType_eq_dec : EqDecision ReqType.
Proof. solve_decision. Defined.
#[export] Instance Scheme_eq_dec : EqDecision Scheme.
Proof. solve_decision. Defined.

Record Way := mkWay { w_tag : Address; w_valid : bool; w_dirty : bool }.

(** [class Set]: its ways; [num_ways] is the length. *)
Abbreviation CacheSet := (list Way).

Definition getEmptyWay (s : CacheSet) : nat := find_idx (fun w => negb (w_valid w)) s.
Definition hasEmptyWay (s : CacheSet) : bool := (getEmptyWay s <? length s)%nat.

(** What a policy asks its memory controller ([_mc->getNumWays()] and so on);
    [v_tag_buffer] is the pointer [_mc->getTagBuffer()]. *)
Record McView := mkView {
  v_num_ways : nat;
  v_num_sets : Z;
  v_granularity : Z;
  v_num_requests : Z;
  v_miss_rate : double;
  v_tag_buffer : option TagBuffer
}.

(** ** [PagePlacementPolicy] *)

Inductive RepScheme := LRU | FBR.
#[export] Instance RepScheme_eq_dec : EqDecision RepScheme.
Proof. solve_decision. Defined.

Record ChunkEntry := mkCE { ce_valid : bool; ce_tag : Address; ce_count : Z }.

Record ChunkInfo := mkCI {
  ci_entries : list ChunkEntry;
  ci_num_hits : Z;
  ci_num_misses : Z
}.

Record PagePlacement := mkPP {
  pp_policy : RepScheme;
  pp_scheme : Scheme;
  pp_num_entries : nat;
  pp_sample_rate : double;
  pp_max_count_size : Z;
  pp_enable_replace : bool;
  pp_buffer : drand48_data;
  pp_lru_bits : list (list Z);
  pp_chunks : list ChunkInfo;
  pp_num_counter_read : Z;
  pp_num_counter_write : Z;
  pp_num_empty_replace : Z
}.

Definition pp_set_buffer (b : drand48_data) (p : PagePlacement) : PagePlacement :=
  mkPP (pp_policy p) (pp_scheme p) (pp_num_entries p) (pp_sample_rate p) (pp_max_count_size p)
    (pp_enable_replace p) b (pp_lru_bits p) (pp_chunks p)
    (pp_num_counter_read p) (pp_num_counter_write p) (pp_num_empty_replace p).
Definition pp_set_lru (l : list (list Z)) (p : PagePlacement) : PagePlacement :=
  mkPP (pp_policy p) (pp_scheme p) (pp_num_entries p) (pp_sample_rate p) (pp_max_count_size p)
    (pp_enable_replace p) (pp_buffer p) l (pp_chunks p)
    (pp_num_counter_read p) (pp_num_counter_write p) (pp_num_empty_replace p).
Definition pp_set_chunks (c : list ChunkInfo) (p : PagePlacement) : PagePlacement :=
  mkPP (pp_policy p) (pp_scheme p) (pp_num_entries p) (pp_sample_rate p) (pp_max_count_size p)
    (pp_enable_replace p) (pp_buffer p) (pp_lru_bits p) c
    (pp_num_counter_read p) (pp_num_counter_write p) (pp_num_empty_replace p).
Definition pp_set_stats (r w e : Z) (p : PagePlacement) : PagePlacement :=
  mkPP (pp_policy p) (pp_scheme p) (pp_num_entries p) (pp_sample_rate p) (pp_max_count_size p)
    (pp_enable_replace p) (pp_buffer p) (pp_lru_bits p) (pp_chunks p) r w e.

(** [drand48_r(&_buffer, &f)] and [lrand48_r(&_buffer, &r)] *)
Definition pp_drand : M PagePlacement double :=
  p <- get ;;
  let (f, b) := drand48_r (pp_buffer p) in
  modify (pp_set_buffer b) ;; ret f.
Definition pp_lrand : M PagePlacement Z :=
  p <- get ;;
  let (r, b) := lrand48_r (pp_buffer p) in
  modify (pp_set_buffer b) ;; ret r.

(** [_num_counter_read ++; _num_counter_write ++;] *)
Definition pp_count_access (p : PagePlacement) : PagePlacement :=
  pp_set_stats (u64 (pp_num_counter_read p + 1)) (u64 (pp_num_counter_write p + 1))
    (pp_num_empty_replace p) p.
Definition pp_count_empty (p : PagePlacement) : PagePlacement :=
  pp_set_stats (pp_num_counter_read p) (pp_num_counter_write p)
    (u64 (pp_num_empty_replace p + 1)) p.

(** [PagePlacementPolicy::clearStats] *)
Definition clearStats (p : PagePlacement) : PagePlacement := pp_set_stats 0 0 0 p.

Definition init_entries (num_entries : nat) (junk : nat -> Address * Z) : list ChunkEntry :=
  (fun j => mkCE false (fst (junk j)) (snd (junk j))) <$> seq 0 num_entries.

Arguments init_entries : simpl never.

(** [PagePlacementPolicy::initialize].  The entries' [tag] and [count] are not
    initialised: [junk] supplies them.  The policy name is already resolved; any
    other name fails the assertion at line 50. *)
Definition initialize (num_sets : Z) (num_ways : nat) (granularity : Z) (scheme : Scheme)
    (sample_rate : double) (enable_replace : bool) (policy : RepScheme) (seed : Z)
    (junk : nat -> nat -> Address * Z) : res PagePlacement :=
  let max_count_size :=
    if dltb sample_rate (dlit 1 1) then (if 4096 <? granularity then 255 else 31) else 255 in
  let num_entries := 9%nat in
  if negb (num_ways <? num_entries)%nat then Err (AssertFail "page_placement.cpp:24") else
  let chunk i := mkCI (init_entries num_entries (junk i)) 0 0 in
  Ok (clearStats
        (mkPP policy scheme num_entries sample_rate max_count_size enable_replace (srand48_r seed)
           (replicate (Z.to_nat num_sets) (Z.of_nat <$> seq 0 num_ways))
           (chunk <$> seq 0 (Z.to_nat num_sets)) 0 0 0)).

(** [PagePlacementPolicy::updateLRU] *)
Definition age_bits (w : Z) (b : Z) : Z := if b <? w then u32 (b + 1) else b.

Definition updateLRU (set_num way_num : nat) : M PagePlacement unit :=
  p <- get ;;
  bits <- lift (at_ (pp_lru_bits p) set_num) ;;
  w <- lift (at_ bits way_num) ;;
  modify (pp_set_lru (<[set_num := <[way_num := 0]> (age_bits w <$> bits)]> (pp_lru_bits p))).

Definition get_chunk (c : nat) : M PagePlacement ChunkInfo :=
  p <- get ;; lift (at_ (pp_chunks p) c).
Definition put_entries (c : nat) (es : list ChunkEntry) : M PagePlacement unit :=
  p <- get ;;
  ci <- lift (at_ (pp_chunks p) c) ;;
  modify (pp_set_chunks (<[c := mkCI es (ci_num_hits ci) (ci_num_misses ci)]> (pp_chunks p))).

(** [PagePlacementPolicy::getChunkEntry(tag, &_chunks\[c\])], with
    [allocate = true] as in every call. *)
Definition getChunkEntry (v : McView) (tag : Address) (c : nat) : M PagePlacement nat :=
  p <- get ;;
  ci <- get_chunk c ;;
  let n := pp_num_entries p in
  let es := ci_entries ci in
  let found := find_idx (fun e => ce_valid e && (ce_tag e =? tag)) es in
  if (found <? n)%nat then ret found else
  let idx0 := find_idx (fun e => negb (ce_valid e)) es in
  idx <- (if (idx0 =? n)%nat then
            rand <- pp_lrand ;;
            f <- pp_drand ;;
            r <- lift (umod rand (u32 (Z.of_nat n - Z.of_nat (v_num_ways v)))) ;;
            let idx := (v_num_ways v + Z.to_nat r)%nat in
            assert_ "page_placement.cpp:262" (v_num_ways v <=? idx)%nat ;;
            e <- lift (at_ es idx) ;;
            ret (if (0 <? ce_count e) && dltb (ddiv (dlit 1 1) (dbl_of_Z (ce_count e))) f
                 then n else idx)
          else ret idx0) ;;
  when (idx <? n)%nat (put_entries c (<[idx := mkCE true tag 0]> es)) ;;
  ret idx.

(** [PagePlacementPolicy::sampleOrNot] *)
Definition sampleOrNot (v : McView) (sample_rate : double) (miss_rate_tune : bool)
    : M PagePlacement bool :=
  f <- pp_drand ;;
  ret (if miss_rate_tune then dltb f (dmul sample_rate (v_miss_rate v)) else dltb f sample_rate).

(** [PagePlacementPolicy::compareCounter] on two entries that exist. *)
Definition compareCounter (v : McView) (p : PagePlacement) (e1 e2 : ChunkEntry) : bool :=
  dleb (dadd (dbl_of_Z (ce_count e2))
          (dmul (dbl_of_Z (v_granularity v / 64 / 2)) (pp_sample_rate p)))
    (dbl_of_Z (ce_count e1)).

(** [PagePlacementPolicy::adjustEntryOrder]: the body is [assert(false)]. *)
Definition adjustEntryOrder (_ : nat) (_ : nat) : M PagePlacement nat :=
  fail (AssertFail "page_placement.cpp:305").

(** [PagePlacementPolicy::pickVictimWay]: the loop over the first [num_ways]
    entries. *)
Fixpoint pickVictimWay_loop (es : list ChunkEntry) (i : nat) (min_count : Z) (min_idx : nat)
    : res nat :=
  match es with
  | [] => Ok min_idx
  | e :: es' =>
      if negb (ce_valid e) then Err (AssertFail "page_placement.cpp:341")
      else if ce_count e <? min_count then pickVictimWay_loop es' (S i) (ce_count e) i
      else pickVictimWay_loop es' (S i) min_count min_idx
  end.

Definition pickVictimWay (v : McView) (es : list ChunkEntry) : res nat :=
  pickVictimWay_loop (take (v_num_ways v) es) 0 10000 (v_num_ways v).

(** [PagePlacementPolicy::handleCounterOverflow]: the overflowing entry, found
    by its address, is incremented before it is halved. *)
Definition handleCounterOverflow (es : list ChunkEntry) (overflow : nat) : list ChunkEntry :=
  imap (fun i e =>
          mkCE (ce_valid e) (ce_tag e)
            (if (i =? overflow)%nat then u32 (ce_count e + 1) / 2 else ce_count e / 2)) es.

(** [chunk_entry->count ++; if (count >= _max_count_size) handleCounterOverflow(...)] *)
Definition bump_count (max_count : Z) (es : list ChunkEntry) (idx : nat) : res (list ChunkEntry) :=
  match at_ es idx with
  | Err e => Err e
  | Ok e =>
      let e' := mkCE (ce_valid e) (ce_tag e) (u32 (ce_count e + 1)) in
      let es1 := <[idx := e']> es in
      Ok (if max_count <=? ce_count e' then handleCounterOverflow es1 idx else es1)
  end.

(** The debug loops of [handleCacheMiss] and [handleCacheHit]: every cached way
    has its page in the entry of the same index. *)
Definition ways_agree (s : CacheSet) (es : list ChunkEntry) : bool :=
  forallb (fun '(w, e) => negb (w_valid w) || (w_tag w =? ce_tag e)) (zip s es).

(** The sample rate and tuning flag both handlers compute first: always sample
    while the cache warms up. *)
Definition effective_rate (v : McView) (p : PagePlacement) : double * bool :=
  let miss_rate_tune := negb (deqb (pp_sample_rate p) (dlit 1 1)) in
  let warm := v_num_requests v <?
                u64 (v_num_sets v * Z.of_nat (v_num_ways v) * 64 * 8) in
  ((if warm then dlit 1 1 else pp_sample_rate p), miss_rate_tune).

Definition view_tb (v : McView) : res TagBuffer :=
  match v_tag_buffer v with Some tb => Ok tb | None => Err NullDeref end.

Definition view_canInsert2 (v : McView) (t1 t2 : Address) : res bool :=
  match view_tb v with Ok tb => canInsert2 t1 t2 tb | Err e => Err e end.

(** The LRU half of [handleCacheMiss]. *)
Definition handleCacheMiss_LRU (v : McView) (tag : Address) (set_num : nat) (s : CacheSet)
    : M PagePlacement nat :=
  p <- get ;;
  if hasEmptyWay s then
    updateLRU set_num (getEmptyWay s) ;; ret (getEmptyWay s)
  else if negb (pp_enable_replace p) then ret (v_num_ways v)
  else
    f <- pp_drand ;;
    _ <- pp_lrand ;;
    if dltb f (pp_sample_rate p) then
      bits <- lift (at_ (pp_lru_bits p) set_num) ;;
      let i := find_idx (fun b => b =? Z.of_nat (v_num_ways v) - 1) bits in
      assert_ "page_placement.cpp:93" (i <? v_num_ways v)%nat ;;
      victim <- lift (at_ s i) ;;
      if bool_decide (pp_scheme p = HybridCache) then
        ok <- lift (view_canInsert2 v tag (w_tag victim)) ;;
        if (ok : bool) then updateLRU set_num i ;; ret i else ret (v_num_ways v)
      else updateLRU set_num i ;; ret i
    else ret (v_num_ways v).

(** No way is free: compare the page's counter with the victim's and, if both
    pages fit in the tag buffer, swap the two entries. *)
Definition fbr_compete (v : McView) (tag : Address) (c idx : nat) (es : list ChunkEntry)
    : M PagePlacement nat :=
  p <- get ;;
  assert_ "page_placement.cpp:150" (v_num_ways v <=? idx)%nat ;;
  victim_way <- lift (pickVictimWay v es) ;;
  assert_ "page_placement.cpp:152" (victim_way <? v_num_ways v)%nat ;;
  e <- lift (at_ es idx) ;;
  victim <- lift (at_ es victim_way) ;;
  ok <- (if compareCounter v p e victim
         then lift (view_canInsert2 v tag (ce_tag victim)) else ret false) ;;
  if (ok : bool) then
    put_entries c (<[victim_way := e]> (<[idx := victim]> es)) ;;
    ret victim_way
  else ret (v_num_ways v).

(** The FBR half of [handleCacheMiss] after the debug checks, for a load that is
    sampled: update the counters and decide on a victim. *)
Definition fbr_update (v : McView) (tag : Address) (c : nat) (s : CacheSet)
    : M PagePlacement nat :=
  let empty_way := getEmptyWay s in
  modify pp_count_access ;;
  idx <- getChunkEntry v tag c ;;
  p <- get ;;
  if (idx =? pp_num_entries p)%nat then ret (v_num_ways v) else
  ci <- get_chunk c ;;
  es <- lift (bump_count (pp_max_count_size p) (ci_entries ci) idx) ;;
  put_entries c es ;;
  if (empty_way <? v_num_ways v)%nat then
    assert_ "page_placement.cpp:144" (idx =? empty_way)%nat ;;
    modify pp_count_empty ;;
    ret empty_way
  else fbr_compete v tag c idx es.

(** [PagePlacementPolicy::handleCacheMiss]: the way to replace (or [num_ways])
    and the value of [counter_access]. *)
Definition handleCacheMiss (v : McView) (tag : Address) (t : ReqType) (set_num : nat) (s : CacheSet)
    : M PagePlacement (nat * bool) :=
  p0 <- get ;;
  ci <- get_chunk set_num ;;
  modify (pp_set_chunks (<[set_num := mkCI (ci_entries ci) (ci_num_hits ci)
                                        (u64 (ci_num_misses ci + 1))]> (pp_chunks p0))) ;;
  p <- get ;;
  if bool_decide (pp_policy p = LRU) then
    w <- handleCacheMiss_LRU v tag set_num s ;; ret (w, false)
  else
    assert_ "page_placement.cpp:94" (pp_enable_replace p) ;;
    assert_ "page_placement.cpp:108" (ways_agree s (ci_entries ci)) ;;
    if bool_decide (t = STORE) then ret (v_num_ways v, false) else
    let (sample_rate, miss_rate_tune) := effective_rate v p in
    updateFBR <- (if hasEmptyWay s then ret true else sampleOrNot v sample_rate miss_rate_tune) ;;
    if (updateFBR : bool) then w <- fbr_update v tag set_num s ;; ret (w, true)
    else ret (v_num_ways v, false).

(** [PagePlacementPolicy::handleCacheHit]: the value of [counter_access]. *)
Definition handleCacheHit (v : McView) (tag : Address) (set_num : nat) (s : CacheSet) (hit_way : nat)
    : M PagePlacement bool :=
  w <- lift (at_ s hit_way) ;;
  assert_ "page_placement.cpp:183" (tag =? w_tag w) ;;
  p <- get ;;
  if bool_decide (pp_policy p = LRU) then updateLRU set_num hit_way ;; ret false else
  ci <- get_chunk set_num ;;
  assert_ "page_placement.cpp:204" (ways_agree s (ci_entries ci)) ;;
  let (sample_rate, miss_rate_tune) := effective_rate v p in
  sampled <- sampleOrNot v sample_rate miss_rate_tune ;;
  if (sampled : bool) then
    modify pp_count_access ;;
    idx <- getChunkEntry v tag set_num ;;
    ci' <- get_chunk set_num ;;
    assert_ "page_placement.cpp:235" (idx <? v_num_ways v)%nat ;;
    es <- lift (bump_count (pp_max_count_size p) (ci_entries ci') idx) ;;
    put_entries set_num es ;;
    ret true
  else ret false.

(** [PagePlacementPolicy::flushChunk] *)
Definition flushChunk (set_num : nat) : M PagePlacement unit :=
  ci <- get_chunk set_num ;;
  put_entries set_num ((fun _ => mkCE false 0 0) <$> ci_entries ci).

(** ** [LinePlacementPolicy] *)
Record LinePlacement := mkLP {
  lp_buffer : drand48_data;
  lp_sample_rate : double;
  lp_enable_replace : bool
}.

(** [LinePlacementPolicy::initialize] *)
Definition lp_initialize (seed : Z) (sample_rate : double) (enable_replace : bool) : LinePlacement :=
  mkLP (srand48_r seed) sample_rate enable_replace.

(** [LinePlacementPolicy::handleCacheMiss] *)
Definition lp_handleCacheMiss (current_tad : Way) : M LinePlacement bool :=
  p <- get ;;
  if negb (w_valid current_tad) then ret true
  else if negb (lp_enable_replace p) then ret false
  else
    let (f, b) := drand48_r (lp_buffer p) in
    modify (fun p => mkLP b (lp_sample_rate p) (lp_enable_replace p)) ;;
    ret (dltb f (lp_sample_rate p)).

(** ** [OSPlacementPolicy]: both bodies are commented out in the source. *)
Definition os_handleCacheAccess (_ : Address) (_ : ReqType) : unit := tt.
Definition remapPages : Z := 0.
