(* ===== verification/PlacementProofs.v ===== *)
(** * Correctness of the placement policies

    The invariant ties the policy's tables to the cache they describe: the
    LRU bits of every set are a permutation of [0 .. num_ways-1]; under FBR the
    first [num_ways] chunk entries mirror the ways, candidates exist only when
    the set is full, no page has two entries, and counters stay below the
    overflow limit.  Every handler keeps it, and none of their assertions can
    fail. *)

From stdpp Require Import base list strings.
From Stdlib Require Import ZArith Lia.
From S2P Require Import Prelude Numeric MemHierarchy TagBuffer Placement.
Local Open Scope Z_scope.

(** ** LRU bits *)

Definition lru_ok (n : nat) (bits : list Z) : Prop := bits ≡ₚ (Z.of_nat <$> seq 0 n).

Lemma lru_ok_length n bits : lru_ok n bits -> length bits = n.
Proof. intros H. by rewrite (Permutation_length H), length_fmap, length_seq. Qed.

Lemma lru_ok_NoDup n bits : lru_ok n bits -> NoDup bits.
Proof.
  intros H. unfold lru_ok in H. rewrite H. apply NoDup_fmap_2; [apply _|apply NoDup_seq].
Qed.

Lemma lru_ok_range n bits i b : lru_ok n bits -> bits !! i = Some b -> 0 <= b < Z.of_nat n.
Proof.
  intros H Hb. assert (b ∈ bits) as Hin by (apply list_elem_of_lookup; eauto).
  unfold lru_ok in H. rewrite H in Hin.
  apply list_elem_of_fmap in Hin as (k & -> & Hk%elem_of_seq). lia.
Qed.

(** The value a touched way pushes through the set. *)
Definition touch_fn (w b : Z) : Z := if b =? w then 0 else age_bits w b.

Lemma touch_fn_seq n k :
  (k < n)%nat -> Z.of_nat n < 2 ^ 32 ->
  (touch_fn (Z.of_nat k) <$> (Z.of_nat <$> seq 0 n)) ≡ₚ (Z.of_nat <$> seq 0 n).
Proof.
  intros Hk Hn.
  replace (seq 0 n) with (seq 0 k ++ k :: seq (S k) (n - S k)).
  2:{ replace n with (k + S (n - S k))%nat at 2 by lia. by rewrite seq_app. }
  rewrite !fmap_app, !fmap_cons.
  assert (forall a m, (a + m <= k)%nat ->
    touch_fn (Z.of_nat k) <$> (Z.of_nat <$> seq a m) = Z.of_nat <$> seq (S a) m) as Hlow.
  { intros a m. revert a. induction m as [|m IH]; intros a Ham; csimpl; [done|].
    f_equal; [|apply IH; lia]. unfold touch_fn, age_bits.
    destruct (Z.eqb_spec (Z.of_nat a) (Z.of_nat k)); [lia|].
    destruct (Z.ltb_spec (Z.of_nat a) (Z.of_nat k)); [|lia].
    rewrite u32_id by (unfold in_u32; lia). lia. }
  assert (forall a m, (k < a)%nat ->
    touch_fn (Z.of_nat k) <$> (Z.of_nat <$> seq a m) = Z.of_nat <$> seq a m) as Hhigh.
  { intros a m. revert a. induction m as [|m IH]; intros a Ham; csimpl; [done|].
    f_equal; [|apply IH; lia]. unfold touch_fn, age_bits.
    destruct (Z.eqb_spec (Z.of_nat a) (Z.of_nat k)); [lia|].
    destruct (Z.ltb_spec (Z.of_nat a) (Z.of_nat k)); lia. }
  rewrite Hlow, Hhigh by lia. unfold touch_fn at 1. rewrite Z.eqb_refl.
  rewrite <- Permutation_middle.
  change (0 :: (Z.of_nat <$> seq 1 k) ++ (Z.of_nat <$> seq (S k) (n - S k)))
    with ((Z.of_nat <$> seq 0 (S k)) ++ (Z.of_nat <$> seq (S k) (n - S k))).
  rewrite (seq_S k). simpl. rewrite fmap_app, <- app_assoc. done.
Qed.

Lemma lru_touch n bits way w :
  lru_ok n bits -> bits !! way = Some w -> Z.of_nat n < 2 ^ 32 ->
  lru_ok n (<[way := 0]> (age_bits w <$> bits)).
Proof.
  intros Hok Hw Hn.
  replace (<[way := 0]> (age_bits w <$> bits)) with (touch_fn w <$> bits).
  - pose proof (lru_ok_range _ _ _ _ Hok Hw). unfold lru_ok in *. rewrite Hok.
    replace w with (Z.of_nat (Z.to_nat w)) by lia. apply touch_fn_seq; lia.
  - apply list_eq. intros i. rewrite list_lookup_fmap. destruct (decide (i = way)) as [->|Hne].
    + rewrite list_lookup_insert_eq by (rewrite length_fmap; by eapply lookup_lt_Some).
      rewrite Hw. csimpl. unfold touch_fn. by rewrite Z.eqb_refl.
    + rewrite list_lookup_insert_ne, list_lookup_fmap by done.
      destruct (bits !! i) as [b|] eqn:Hb; csimpl; [|done].
      unfold touch_fn. destruct (Z.eqb_spec b w); [|done]. subst.
      exfalso. apply Hne. eapply NoDup_lookup; eauto using lru_ok_NoDup.
Qed.

Lemma lru_victim n bits :
  lru_ok n bits -> (0 < n)%nat -> (find_idx (fun b => (b =? Z.of_nat n - 1)%Z) bits < n)%nat.
Proof.
  intros Hok Hn. assert (Z.of_nat n - 1 ∈ bits) as Hin.
  { unfold lru_ok in Hok. rewrite Hok. apply list_elem_of_fmap.
    exists (n - 1)%nat. split; [lia|]. apply elem_of_seq. lia. }
  apply list_elem_of_lookup in Hin as [i Hi].
  pose proof (lookup_lt_Some _ _ _ Hi). rewrite (lru_ok_length _ _ Hok) in *.
  pose proof (find_idx_some (fun b => b =? Z.of_nat n - 1) bits i _ Hi (Z.eqb_refl _)) as H'.
  lia.
Qed.

Lemma lru_init n : lru_ok n (Z.of_nat <$> seq 0 n).
Proof. by unfold lru_ok. Qed.

(** ** Chunk entries *)

(** What identifies an entry; the counters are separate. *)
Definition key (e : ChunkEntry) : bool * Address := (ce_valid e, ce_tag e).

Record keys_ok (n ne : nat) (s : CacheSet) (K : list (bool * Address)) : Prop := {
  ko_ways : length s = n;
  ko_entries : length K = ne;
  ko_lt : (n < ne)%nat;
  (** the first entries mirror the ways *)
  ko_mirror : forall j w b t, s !! j = Some w -> K !! j = Some (b, t) ->
    w_valid w = b /\ (b = true -> w_tag w = t);
  (** candidates only once the set is full *)
  ko_full : forall j w k b t, s !! j = Some w -> w_valid w = false ->
    (n <= k)%nat -> K !! k = Some (b, t) -> b = false;
  (** a page has one entry *)
  ko_unique : forall i j t, K !! i = Some (true, t) -> K !! j = Some (true, t) -> i = j
}.

Definition counts_ok (maxc : Z) (es : list ChunkEntry) : Prop :=
  forall i e, es !! i = Some e -> ce_valid e = true -> 0 <= ce_count e < maxc.

Definition miss (tag : Address) (s : CacheSet) : Prop :=
  forall j w, s !! j = Some w -> w_valid w = true -> w_tag w <> tag.

Section Keys.
Context (n ne : nat) (s : CacheSet) (K : list (bool * Address)) (Hk : keys_ok n ne s K).

Lemma ways_lookup j : (j < n)%nat -> exists w b t,
  s !! j = Some w /\ K !! j = Some (b, t) /\ w_valid w = b /\ (b = true -> w_tag w = t).
Proof using Hk.
  intros Hj. destruct Hk as [Hs HK Hlt Hm _ _].
  destruct (lookup_lt_is_Some_2 s j) as [w Hw]; [lia|].
  destruct (lookup_lt_is_Some_2 K j) as [[b t] Hb]; [lia|].
  exists w, b, t. split_and!; try done; by eapply Hm.
Qed.

(** On a miss with room in the set the page has no entry, and the first free
    entry is the first free way. *)
Lemma empty_way_entry tag :
  miss tag s -> hasEmptyWay s = true ->
  (forall i, K !! i <> Some (true, tag)) /\
  find_idx (fun k => negb (fst k)) K = getEmptyWay s.
Proof using Hk.
  intros Hmiss He. unfold hasEmptyWay in He. apply Nat.ltb_lt in He.
  assert (length s = n) as Hls by apply Hk. rewrite Hls in He.
  destruct (find_idx_lt (fun w => negb (w_valid w)) s) as (w & Hw & Hv & Hfirst).
  { by rewrite Hls. }
  fold (getEmptyWay s) in *. apply negb_true_iff in Hv. split.
  - intros i Hi. destruct (decide (i < n)%nat) as [Hin|Hin].
    + destruct (ways_lookup i Hin) as (w' & b & t & Hw' & Hb & Hvb & Htb).
      rewrite Hi in Hb. simplify_eq. eapply Hmiss; eauto.
    + pose proof (ko_full _ _ _ _ Hk _ _ i true tag Hw Hv) as H.
      assert (true = false) by (apply H; [lia|done]). done.
  - destruct (ways_lookup _ He) as (w' & b & t & Hw' & Hb & Hvb & _).
    assert (w' = w) as -> by congruence. rewrite <- Hvb, Hv in Hb.
    pose proof (find_idx_some (fun k => negb (fst k)) K _ _ Hb eq_refl) as Hle.
    destruct (decide (find_idx (fun k => negb (fst k)) K < getEmptyWay s)%nat) as [Hlt|]; [|lia].
    exfalso. destruct (find_idx_lt (fun k => negb (fst k)) K) as ([b' t'] & Hk' & Hn' & _).
    { rewrite (ko_entries _ _ _ _ Hk). pose proof (ko_lt _ _ _ _ Hk). lia. }
    simpl in Hn'. apply negb_true_iff in Hn'.
    destruct (ways_lookup (find_idx (fun k => negb (fst k)) K)) as (w2 & b2 & t2 & Hw2 & Hb2 & Hvb2 & _);
      [lia|].
    apply (Hfirst _ _ Hlt) in Hw2. apply negb_false_iff in Hw2. congruence.
Qed.

(** Filling the first free way. *)
Lemma keys_fill tag d :
  miss tag s -> hasEmptyWay s = true ->
  keys_ok n ne (<[getEmptyWay s := mkWay tag true d]> s) (<[getEmptyWay s := (true, tag)]> K).
Proof using Hk.
  intros Hmiss He. destruct (empty_way_entry tag Hmiss He) as [Hno _].
  destruct (Hk) as [Hs HK Hlt Hm Hf Hu]. split.
  - by rewrite length_insert.
  - by rewrite length_insert.
  - done.
  - intros j w b t [[<- ->]|[Hj Hw]]%list_lookup_insert_cases
      [[? Heq]|[? Hb]]%list_lookup_insert_cases; try done; [by simplify_eq|eauto].
  - intros j w k b t [[_ ->]|[Hj Hw]]%list_lookup_insert_cases Hv Hnk Hb; [done|].
    apply list_lookup_insert_cases in Hb as [[<- _]|[_ Hb]]; [|by eapply Hf].
    unfold hasEmptyWay in He. apply Nat.ltb_lt in He. lia.
  - intros i j t [[<- Hi]|[Hi Hi']]%list_lookup_insert_cases
      [[<- Hj]|[Hj Hj']]%list_lookup_insert_cases; simplify_eq; try done; eauto.
    + by destruct (Hno j).
    + by destruct (Hno i).
Qed.

(** Every way is valid when the set has no empty way. *)
Lemma full_valid j w : hasEmptyWay s = false -> s !! j = Some w -> w_valid w = true.
Proof using.
  clear Hk. intros He Hw. unfold hasEmptyWay in He. apply Nat.ltb_ge in He.
  pose proof (find_idx_le (fun w => negb (w_valid w)) s) as Hle. fold (getEmptyWay s) in Hle.
  pose proof (find_idx_none (fun w => negb (w_valid w)) s) as Hnone.
  fold (getEmptyWay s) in Hnone.
  assert (negb (w_valid w) = false) as Hv by (eapply Hnone; [lia|done]).
  by apply negb_false_iff in Hv.
Qed.

(** A new candidate in a full set. *)
Lemma keys_candidate tag idx :
  hasEmptyWay s = false -> (n <= idx < ne)%nat -> (forall i, K !! i <> Some (true, tag)) ->
  keys_ok n ne s (<[idx := (true, tag)]> K).
Proof using Hk.
  intros He Hidx Hno. destruct (Hk) as [Hs HK Hlt Hm Hf Hu]. split; try done.
  - by rewrite length_insert.
  - intros j w b t Hw [[<- _]|[? Hb]]%list_lookup_insert_cases; [|eauto].
    apply lookup_lt_Some in Hw. lia.
  - intros j w k b t Hw Hv. pose proof (full_valid _ _ He Hw). congruence.
  - intros i j t [[<- Hi]|[Hi Hi']]%list_lookup_insert_cases
      [[<- Hj]|[Hj Hj']]%list_lookup_insert_cases; simplify_eq; try done; eauto.
    + by destruct (Hno j).
    + by destruct (Hno i).
Qed.

(** A candidate takes the place of a cached page. *)
Lemma keys_swap tag d idx v t' :
  hasEmptyWay s = false -> (n <= idx < ne)%nat -> (v < n)%nat ->
  K !! idx = Some (true, tag) -> K !! v = Some (true, t') ->
  keys_ok n ne (<[v := mkWay tag true d]> s) (<[v := (true, tag)]> (<[idx := (true, t')]> K)).
Proof using Hk.
  intros He Hidx Hv Hki Hkv. destruct (Hk) as [Hs HK Hlt Hm Hf Hu]. split.
  - by rewrite length_insert.
  - by rewrite !length_insert.
  - done.
  - intros j w b t [[<- ->]|[Hj Hw]]%list_lookup_insert_cases Hb.
    + apply list_lookup_insert_cases in Hb as [[_ Hb]|[? _]]; [|done]. by simplify_eq.
    + apply list_lookup_insert_cases in Hb as [[? _]|[_ Hb]]; [done|].
      apply list_lookup_insert_cases in Hb as [[<- _]|[_ Hb]]; [|eauto].
      apply lookup_lt_Some in Hw. lia.
  - intros j w k b t [[_ ->]|[Hj Hw]]%list_lookup_insert_cases Hval; [done|].
    pose proof (full_valid _ _ He Hw). congruence.
  - assert (forall i t, <[v:=(true, tag)]> (<[idx:=(true, t')]> K) !! i = Some (true, t) ->
      (i = v /\ t = tag) \/ (i = idx /\ t = t') \/ (i <> v /\ i <> idx /\ K !! i = Some (true, t))) as Hc.
    { intros i t [[<- ?]|[? Hi]]%list_lookup_insert_cases; [left; by simplify_eq|].
      apply list_lookup_insert_cases in Hi as [[<- ?]|[? Hi]]; [right; left; by simplify_eq|].
      right; right. auto. }
    intros i j t Hi Hj. apply Hc in Hi, Hj.
    destruct Hi as [[-> ->]|[[-> ->]|(? & ? & Hi)]]; destruct Hj as [[-> ?]|[[-> ?]|(? & ? & Hj)]];
      subst; try done; first
      [ pose proof (Hu _ _ _ Hki Hkv); lia | pose proof (Hu _ _ _ Hki Hj); congruence
      | pose proof (Hu _ _ _ Hkv Hj); congruence | pose proof (Hu _ _ _ Hi Hki); congruence
      | pose proof (Hu _ _ _ Hi Hkv); congruence | by eapply Hu ].
Qed.

End Keys.

(** ** Counters *)

Lemma handleCounterOverflow_lookup es k i :
  handleCounterOverflow es k !! i =
    (fun e => mkCE (ce_valid e) (ce_tag e)
                (if (i =? k)%nat then u32 (ce_count e + 1) / 2 else ce_count e / 2)) <$> es !! i.
Proof. unfold handleCounterOverflow. by rewrite list_lookup_imap. Qed.

(** Counting an access changes no key and keeps every counter below the limit. *)
Lemma bump_count_ok maxc es idx e :
  2 <= maxc < 2 ^ 32 - 1 -> counts_ok maxc es -> es !! idx = Some e -> ce_valid e = true ->
  exists es', bump_count maxc es idx = Ok es' /\ key <$> es' = key <$> es /\ counts_ok maxc es'.
Proof.
  intros Hm Hc He Hv. unfold bump_count, at_. rewrite He.
  set (es1 := <[idx := mkCE (ce_valid e) (ce_tag e) (u32 (ce_count e + 1))]> es).
  pose proof (Hc _ _ He Hv) as Hr.
  assert (u32 (ce_count e + 1) = ce_count e + 1) as Hu by (apply u32_id; unfold in_u32; lia).
  assert (key <$> es1 = key <$> es) as Hkeys.
  { unfold es1. rewrite list_fmap_insert. apply list_insert_id.
    by rewrite list_lookup_fmap, He. }
  eexists. split; [done|]. simpl. destruct (Z.leb_spec maxc (u32 (ce_count e + 1))).
  - split.
    + rewrite <- Hkeys. apply list_eq. intros i.
      rewrite !list_lookup_fmap, handleCounterOverflow_lookup. by destruct (es1 !! i).
    + intros i x. rewrite handleCounterOverflow_lookup. unfold es1.
      destruct (decide (i = idx)) as [->|Hne].
      * rewrite list_lookup_insert_eq by (by eapply lookup_lt_Some). intros ? _; simplify_eq/=.
        rewrite Nat.eqb_refl, Hu, u32_id by (unfold in_u32; lia).
        split; [apply Z.div_pos; lia|]. apply Z.div_lt_upper_bound; lia.
      * rewrite list_lookup_insert_ne by done. destruct (es !! i) as [y|] eqn:Hy; [|done].
        intros ? Hvx; simplify_eq/=. apply Nat.eqb_neq in Hne. rewrite Hne.
        pose proof (Hc _ _ Hy Hvx). split; [apply Z.div_pos; lia|].
        apply Z.div_lt_upper_bound; lia.
  - split; [done|]. intros i x [[_ ->]|[_ Hx]]%list_lookup_insert_cases Hvx; simpl in *; [lia|].
    by eapply Hc.
Qed.

Lemma pickVictimWay_loop_ok es i m mi :
  (forall k e, es !! k = Some e -> ce_valid e = true /\ ce_count e < m) -> es <> [] ->
  exists j e, pickVictimWay_loop es i m mi = Ok (i + j)%nat /\ es !! j = Some e /\
    forall k x, es !! k = Some x -> ce_count e <= ce_count x.
Proof.
  assert (forall es i m mi, (forall k e, es !! k = Some e -> ce_valid e = true) ->
    exists r, pickVictimWay_loop es i m mi = Ok r /\
      ((r = mi /\ forall k x, es !! k = Some x -> m <= ce_count x) \/
       exists j e, r = (i + j)%nat /\ es !! j = Some e /\ ce_count e < m /\
         forall k x, es !! k = Some x -> ce_count e <= ce_count x)) as Hgen.
  { clear. induction es as [|e es IH]; intros i m mi Hv; simpl; [eexists; by split; [|left]|].
    rewrite (Hv 0%nat e eq_refl). simpl.
    assert (forall k x, es !! k = Some x -> ce_valid x = true) as Hv' by (intros k; apply (Hv (S k))).
    destruct (Z.ltb_spec (ce_count e) m) as [Hlt|Hge].
    - destruct (IH (S i) (ce_count e) i Hv') as (r & -> & [[-> Hall]|(j & x & -> & Hj & Hlt' & Hall)]).
      + eexists. split; [done|]. right. exists 0%nat, e.
        split_and!; [lia|done|done|]. intros [|k] x Hx; simplify_eq/=; [lia|by eapply Hall].
      + eexists. split; [done|]. right. exists (S j), x. split_and!; [lia|done|lia|].
        intros [|k] y Hy; simplify_eq/=; [lia|by eapply Hall].
    - destruct (IH (S i) m mi Hv') as (r & -> & [[-> Hall]|(j & x & -> & Hj & Hlt' & Hall)]).
      + eexists. split; [done|]. left. split; [done|].
        intros [|k] x Hx; simplify_eq/=; [lia|by eapply Hall].
      + eexists. split; [done|]. right. exists (S j), x. split_and!; [lia|done|lia|].
        intros [|k] y Hy; simplify_eq/=; [lia|by eapply Hall]. }
  intros Hall Hne. destruct (Hgen es i m mi) as (r & -> & Hr); [intros; by eapply Hall|].
  destruct Hr as [[-> Hle]|(j & e & -> & Hj & _ & Hmin)]; [|by exists j, e].
  destruct es as [|e es]; [done|]. pose proof (Hle 0%nat e eq_refl).
  destruct (Hall 0%nat e eq_refl). lia.
Qed.

(** ** [getChunkEntry] *)

Definition not_found (tag : Address) (es : list ChunkEntry) : Prop :=
  forall i e, es !! i = Some e -> ce_valid e = true -> ce_tag e <> tag.

Definition first_free (es : list ChunkEntry) : nat := find_idx (fun e => negb (ce_valid e)) es.

(** The three outcomes: an existing entry, an entry taken for the page (the
    first free one, or a candidate of a full chunk), or none. *)
Inductive entry_choice (n ne : nat) (tag : Address) (es : list ChunkEntry)
  : nat -> list ChunkEntry -> Prop :=
| ec_found i e : es !! i = Some e -> ce_valid e = true -> ce_tag e = tag ->
    entry_choice n ne tag es i es
| ec_taken i : (i < ne)%nat -> not_found tag es ->
    (first_free es = i \/ (first_free es = ne /\ (n <= i)%nat)) ->
    entry_choice n ne tag es i (<[i := mkCE true tag 0]> es)
| ec_none : not_found tag es -> first_free es = ne -> entry_choice n ne tag es ne es.

(** The policy after its buffer moved and chunk [c]'s entries were replaced. *)
Definition pp_after (p : PagePlacement) (c : nat) (ci : ChunkInfo) (es : list ChunkEntry)
    (b : drand48_data) : PagePlacement :=
  pp_set_chunks (<[c := mkCI es (ci_num_hits ci) (ci_num_misses ci)]> (pp_chunks p))
    (pp_set_buffer b p).

Lemma pp_after_same p c ci b :
  pp_chunks p !! c = Some ci -> pp_after p c ci (ci_entries ci) b = pp_set_buffer b p.
Proof.
  intros Hc. unfold pp_after. rewrite list_insert_id; [done|]. by destruct ci.
Qed.

Lemma wp_pp_drand Q p :
  (forall f b, Q f (pp_set_buffer b p)) -> wp pp_drand Q p.
Proof. intros H. unfold pp_drand. wp_steps. apply H. Qed.

Lemma wp_pp_lrand Q p :
  (forall r b, 0 <= r -> Q r (pp_set_buffer b p)) -> wp pp_lrand Q p.
Proof.
  intros H. unfold pp_lrand. apply wp_bind, wp_get.
  pose proof (lrand48_r_range (pp_buffer p)) as Hr.
  destruct (lrand48_r (pp_buffer p)) as [r b]. simpl in Hr.
  apply wp_bind, wp_modify, wp_ret, H. lia.
Qed.

Lemma wp_get_chunk c ci Q p : pp_chunks p !! c = Some ci -> Q ci p -> wp (get_chunk c) Q p.
Proof.
  intros Hc HQ. unfold get_chunk. apply wp_bind, wp_get.
  eapply wp_lift; [unfold at_; by rewrite Hc|done].
Qed.

Lemma wp_put_entries c ci es Q p :
  pp_chunks p !! c = Some ci ->
  Q tt (pp_set_chunks (<[c := mkCI es (ci_num_hits ci) (ci_num_misses ci)]> (pp_chunks p)) p) ->
  wp (put_entries c es) Q p.
Proof.
  intros Hc HQ. unfold put_entries. apply wp_bind, wp_get, wp_bind.
  eapply wp_lift; [unfold at_; by rewrite Hc|]. by apply wp_modify.
Qed.

Lemma getChunkEntry_ok v tag c p ci :
  pp_chunks p !! c = Some ci -> length (ci_entries ci) = pp_num_entries p ->
  (v_num_ways v < pp_num_entries p)%nat -> Z.of_nat (pp_num_entries p) < 2 ^ 32 ->
  wp (getChunkEntry v tag c)
    (fun idx p' => exists es' b,
       entry_choice (v_num_ways v) (pp_num_entries p) tag (ci_entries ci) idx es' /\
       p' = pp_after p c ci es' b) p.
Proof.
  intros Hc Hlen Hlt H32. set (es := ci_entries ci) in *. set (ne := pp_num_entries p) in *.
  unfold getChunkEntry. apply wp_bind, wp_get, wp_bind. eapply wp_get_chunk; [done|].
  fold es ne. set (found := find_idx _ es). fold (first_free es).
  destruct (Nat.ltb_spec found ne) as [Hf|Hf].
  - apply wp_ret. destruct (find_idx_lt _ es (ltac:(by rewrite Hlen))) as (e & He & Hp & _).
    fold found in He. apply andb_true_iff in Hp as [Hv Ht%Z.eqb_eq].
    exists es, (pp_buffer p). split; [by eapply ec_found|].
    unfold es. rewrite pp_after_same by done. by destruct p.
  - assert (not_found tag es) as Hnf.
    { intros i e He Hv Ht. 
      pose proof (find_idx_some (fun e => ce_valid e && (ce_tag e =? tag)) es i e He) as H.
      cbv beta in H. fold found in H. rewrite Hv, Ht, Z.eqb_refl in H.
      specialize (H eq_refl). apply lookup_lt_Some in He. lia. }
    apply wp_bind. destruct (Nat.eqb_spec (first_free es) ne) as [Hff|Hff].
    + apply wp_bind, wp_pp_lrand. intros rand b1 Hrand.
      apply wp_bind, wp_pp_drand. intros f b2. apply wp_bind.
      set (m := u32 (Z.of_nat ne - Z.of_nat (v_num_ways v))).
      assert (m = Z.of_nat ne - Z.of_nat (v_num_ways v)) as Hm
        by (apply u32_id; unfold in_u32; lia).
      eapply wp_lift; [unfold umod; destruct (Z.eqb_spec m 0); [lia|done]|].
      assert (0 <= rand mod m < m) as Hmod by (apply Z.mod_pos_bound; lia).
      set (i := (v_num_ways v + Z.to_nat (rand mod m))%nat).
      assert (i < ne)%nat as Hi by (unfold i; lia).
      apply wp_bind, wp_assert; [apply Nat.leb_le; unfold i; lia|]. apply wp_bind.
      destruct (lookup_lt_is_Some_2 es i) as [e He]; [lia|].
      eapply wp_lift; [unfold at_; by rewrite He|]. apply wp_ret.
      destruct ((0 <? ce_count e) && _).
      * apply wp_bind. rewrite Nat.ltb_irrefl. apply wp_ret, wp_ret.
        exists es, b2. split; [by apply ec_none|].
        unfold es. by rewrite pp_after_same by done.
      * apply wp_bind, wp_when; [|intros Hge%Nat.ltb_ge; lia]. intros _.
        eapply wp_put_entries; [done|]. apply wp_ret.
        exists (<[i := mkCE true tag 0]> es), b2. split; [|done].
        apply ec_taken; [done|done|]. right. split; [done|unfold i; lia].
    + apply wp_ret, wp_bind. assert (first_free es < ne)%nat as Hi.
      { pose proof (find_idx_le (fun e => negb (ce_valid e)) es) as H.
        fold (first_free es) in H. lia. }
      apply wp_when; [|intros Hge%Nat.ltb_ge; lia]. intros _.
      eapply wp_put_entries; [done|]. apply wp_ret.
      exists (<[first_free es := mkCE true tag 0]> es), (pp_buffer p). split.
      * apply ec_taken; auto.
      * unfold pp_after. by destruct p.
Qed.

(** ** The invariant of a policy *)

Definition chunk_ok (n ne : nat) (maxc : Z) (s : CacheSet) (es : list ChunkEntry) : Prop :=
  keys_ok n ne s (key <$> es) /\ counts_ok maxc es.

(** The parameters fixed by [initialize]. *)
Definition pp_cfg (p : PagePlacement) :=
  (pp_policy p, pp_scheme p, pp_num_entries p, pp_sample_rate p, pp_max_count_size p,
   pp_enable_replace p).

Record pp_cfg_ok (n : nat) (p : PagePlacement) : Prop := {
  pc_ways : (0 < n < pp_num_entries p)%nat;
  pc_entries : Z.of_nat (pp_num_entries p) < 2 ^ 32;
  pc_max : 2 <= pp_max_count_size p <= 10000;
  pc_fbr : pp_policy p = FBR -> pp_enable_replace p = true
}.

(** The part of the policy's state that belongs to set [c] of the cache. *)
Definition pp_at (n c : nat) (s : CacheSet) (p : PagePlacement) : Prop :=
  exists ci bits, pp_chunks p !! c = Some ci /\ pp_lru_bits p !! c = Some bits /\
    lru_ok n bits /\ length s = n /\
    (pp_policy p = FBR -> chunk_ok n (pp_num_entries p) (pp_max_count_size p) s (ci_entries ci)).

Record pp_inv (n : nat) (cache : list CacheSet) (p : PagePlacement) : Prop := {
  pi_cfg : pp_cfg_ok n p;
  pi_at : forall c s, cache !! c = Some s -> pp_at n c s p
}.

(** What a handler for set [c] may change. *)
Record pp_frame (c : nat) (p p' : PagePlacement) : Prop := {
  pf_cfg : pp_cfg p' = pp_cfg p;
  pf_chunks : forall i, i <> c -> pp_chunks p' !! i = pp_chunks p !! i;
  pf_lru : forall i, i <> c -> pp_lru_bits p' !! i = pp_lru_bits p !! i
}.

Lemma pp_frame_refl c p : pp_frame c p p.
Proof. by split. Qed.

Lemma pp_frame_trans c p1 p2 p3 : pp_frame c p1 p2 -> pp_frame c p2 p3 -> pp_frame c p1 p3.
Proof.
  intros [A1 B1 C1] [A2 B2 C2]. split; [congruence| |]; intros i Hi.
  - by rewrite B2, B1.
  - by rewrite C2, C1.
Qed.

Lemma pp_frame_scheme c p p' :
  pp_frame c p p' -> pp_scheme p' = pp_scheme p /\ pp_policy p' = pp_policy p.
Proof. intros [E _ _]. unfold pp_cfg in E. by simplify_eq. Qed.

Lemma pp_frame_buffer c b p : pp_frame c p (pp_set_buffer b p).
Proof. by split. Qed.
Lemma pp_frame_stats c r w e p : pp_frame c p (pp_set_stats r w e p).
Proof. by split. Qed.
Lemma pp_frame_chunk c ci p : pp_frame c p (pp_set_chunks (<[c:=ci]> (pp_chunks p)) p).
Proof. split; [done| |done]. intros i Hi. simpl. by rewrite list_lookup_insert_ne. Qed.
Lemma pp_frame_lru c l p : pp_frame c p (pp_set_lru (<[c:=l]> (pp_lru_bits p)) p).
Proof. split; [done|done|]. intros i Hi. simpl. by rewrite list_lookup_insert_ne. Qed.

#[export] Hint Resolve pp_frame_refl pp_frame_buffer pp_frame_stats pp_frame_chunk pp_frame_lru
  : banshee.

Lemma pp_cfg_ok_eq n p p' : pp_cfg p' = pp_cfg p -> pp_cfg_ok n p -> pp_cfg_ok n p'.
Proof.
  intros Heq [H1 H2 H3 H4]. unfold pp_cfg in Heq.
  injection Heq as E1 E2 E3 E4 E5 E6. split; rewrite ?E1, ?E3, ?E5, ?E6; done.
Qed.

Lemma pp_at_frame n c i s p p' :
  pp_frame c p p' -> i <> c -> pp_at n i s p -> pp_at n i s p'.
Proof.
  intros [Hcfg Hch Hl] Hi (ci & bits & H1 & H2 & H3 & H4 & H5).
  unfold pp_cfg in Hcfg. injection Hcfg as E1 _ E3 _ E5 _.
  exists ci, bits. rewrite Hch, Hl, E1, E3, E5 by done. done.
Qed.

(** Re-establishing the invariant after a handler ran for set [c]. *)
Lemma pp_inv_step n cache c s' p p' :
  pp_inv n cache p -> pp_frame c p p' -> pp_at n c s' p' -> pp_inv n (<[c := s']> cache) p'.
Proof.
  intros [Hcfg Hat] Hf Hc. split; [by eapply pp_cfg_ok_eq; [apply Hf|]|].
  intros i s [[<- ->]|[Hi Hs]]%list_lookup_insert_cases; [done|].
  eapply pp_at_frame; eauto.
Qed.

Lemma pp_inv_keep n cache c s p p' :
  pp_inv n cache p -> cache !! c = Some s -> pp_frame c p p' -> pp_at n c s p' ->
  pp_inv n cache p'.
Proof.
  intros Hi Hs Hf Hc. rewrite <- (list_insert_id cache c s) by done.
  by eapply pp_inv_step.
Qed.

(** What the policies need of the controller they serve. *)
Record view_ok (v : McView) (p : PagePlacement) : Prop := {
  vo_tb : pp_policy p = FBR \/ pp_scheme p = HybridCache ->
          exists tb, v_tag_buffer v = Some tb /\ tb_inv tb
}.

(** [victim_ok v p tag s w]: replacing way [w] by [tag] is possible; under the
    Banshee scheme a valid victim and the new page both fit in the tag buffer. *)
Definition victim_ok (v : McView) (p : PagePlacement) (tag : Address) (s : CacheSet) (w : nat) : Prop :=
  forall x tb, s !! w = Some x -> w_valid x = true -> pp_scheme p = HybridCache ->
    v_tag_buffer v = Some tb -> canInsert2 tag (w_tag x) tb = Ok true.

(** ** [updateLRU] *)
Lemma updateLRU_ok n c way s p :
  pp_cfg_ok n p -> pp_at n c s p -> (way < n)%nat ->
  wp (updateLRU c way) (fun _ p' => pp_frame c p p' /\ pp_at n c s p' /\ pp_chunks p' = pp_chunks p) p.
Proof.
  intros Hcfg (ci & bits & Hci & Hbits & Hlru & Hs & Hch) Hway.
  assert (Z.of_nat n < 2 ^ 32) by (destruct Hcfg; lia).
  destruct (lookup_lt_is_Some_2 bits way) as [w Hw]; [by rewrite (lru_ok_length _ _ Hlru)|].
  unfold updateLRU. apply wp_bind, wp_get, wp_bind.
  eapply wp_lift; [unfold at_; by rewrite Hbits|]. apply wp_bind.
  eapply wp_lift; [unfold at_; by rewrite Hw|]. apply wp_modify.
  split_and!; [auto with banshee| |done].
  exists ci, (<[way:=0]> (age_bits w <$> bits)). simpl.
  rewrite list_lookup_insert_eq by (by eapply lookup_lt_Some).
  split_and!; auto using lru_touch.
Qed.

(** The LRU way of a full set. *)
Lemma handleCacheMiss_LRU_ok n v tag c s p :
  pp_cfg_ok n p -> pp_at n c s p -> v_num_ways v = n -> pp_policy p = LRU -> view_ok v p ->
  wp (handleCacheMiss_LRU v tag c s)
    (fun w p' => pp_frame c p p' /\ pp_at n c s p' /\ (w <= n)%nat /\
       ((w < n)%nat -> victim_ok v p tag s w)) p.
Proof.
  intros Hcfg Hat Hn Hpol Hv. destruct (Hat) as (ci & bits & Hci & Hbits & Hlru & Hs & _).
  unfold handleCacheMiss_LRU. apply wp_bind, wp_get.
  destruct (hasEmptyWay s) eqn:He.
  - assert (getEmptyWay s < n)%nat by (unfold hasEmptyWay in He; apply Nat.ltb_lt in He; lia).
    apply wp_bind. eapply wp_mono; [by eapply updateLRU_ok|].
    intros [] p' (Hf & Hat' & _). apply wp_ret. split_and!; [done|done|lia|].
    intros _ x tb Hx Hval. exfalso.
    destruct (find_idx_lt (fun w => negb (w_valid w)) s) as (y & Hy & Hvy & _); [fold (getEmptyWay s); lia|].
    fold (getEmptyWay s) in Hy. rewrite Hx in Hy. simplify_eq. by rewrite Hval in Hvy.
  - destruct (negb (pp_enable_replace p)).
    { apply wp_ret. rewrite Hn. split_and!; auto with banshee. intros; lia. }
    apply wp_bind, wp_pp_drand. intros f b1. apply wp_bind, wp_pp_lrand. intros r b2 _.
    set (p2 := pp_set_buffer b2 (pp_set_buffer b1 p)).
    assert (pp_frame c p p2) as Hf2 by (by split).
    assert (pp_at n c s p2) as Hat2 by exact Hat.
    assert (pp_cfg_ok n p2) as Hcfg2 by (by eapply pp_cfg_ok_eq; [|apply Hcfg]).
    destruct (dltb f (pp_sample_rate p)).
    2:{ apply wp_ret. rewrite Hn. split_and!; auto. intros; lia. }
    apply wp_bind. eapply wp_lift; [unfold at_; by rewrite Hbits|].
    set (i := find_idx _ bits).
    assert (i < n)%nat as Hi by (unfold i; rewrite Hn; apply lru_victim; [done|apply (pc_ways _ _ Hcfg)]).
    apply wp_bind, wp_assert; [apply Nat.ltb_lt; lia|]. apply wp_bind.
    destruct (lookup_lt_is_Some_2 s i) as [victim Hvic]; [lia|].
    eapply wp_lift; [unfold at_; by rewrite Hvic|].
    assert (forall Q, (forall p', pp_frame c p p' -> pp_at n c s p' -> Q i p') ->
              wp (updateLRU c i ;; ret i) Q p2) as Hupd.
    { intros Q HQ. apply wp_bind. eapply wp_mono; [by eapply updateLRU_ok|].
      intros [] p' (Hf & Hat' & _). apply wp_ret, HQ; [by eapply pp_frame_trans|done]. }
    case_bool_decide as Hsch.
    + destruct (vo_tb _ _ Hv (or_intror Hsch)) as (tb & Htb & Hinv).
      destruct (canInsert2_total tb tag (w_tag victim) Hinv) as [ok Hok].
      apply wp_bind. eapply wp_lift; [unfold view_canInsert2, view_tb; by rewrite Htb|].
      destruct ok.
      * apply Hupd. intros p' Hf' Hat'. split_and!; [done|done|lia|].
        intros _ x tb' Hx _ _ Htb'. congruence.
      * apply wp_ret. rewrite Hn. split_and!; auto. intros; lia.
    + apply Hupd. intros p' Hf' Hat'. split_and!; [done|done|lia|]. intros _ x tb' _ _ ?. done.
Qed.

(** ** FBR *)

Lemma find_idx_fmap {A B} (f : A -> B) (q : B -> bool) l :
  find_idx q (f <$> l) = find_idx (fun x => q (f x)) l.
Proof. induction l as [|x l IH]; csimpl; [done|]. by rewrite IH. Qed.

Lemma key_lookup (es : list ChunkEntry) i e : es !! i = Some e -> (key <$> es) !! i = Some (ce_valid e, ce_tag e).
Proof. intros He. by rewrite list_lookup_fmap, He. Qed.

Lemma key_lookup_inv (es : list ChunkEntry) i b t :
  (key <$> es) !! i = Some (b, t) -> exists e, es !! i = Some e /\ ce_valid e = b /\ ce_tag e = t.
Proof.
  rewrite list_lookup_fmap. destruct (es !! i) as [e|]; [|done].
  intros [= <- <-]. by exists e.
Qed.

Lemma counts_insert maxc es i e :
  counts_ok maxc es -> 0 <= ce_count e < maxc -> counts_ok maxc (<[i := e]> es).
Proof. intros Hc He j x [[_ ->]|[_ Hx]]%list_lookup_insert_cases Hv; [done|by eapply Hc]. Qed.

Section Fbr.
Context (n ne : nat) (maxc : Z) (s : CacheSet) (es : list ChunkEntry) (tag : Address).
Context (Hok : chunk_ok n ne maxc s es) (Hmiss : miss tag s) (Hmax : 2 <= maxc).

(** On a miss the chosen entry is the first free way's, or a candidate's. *)
Lemma choice_on_miss idx es' :
  entry_choice n ne tag es idx es' ->
  (idx = ne /\ es' = es) \/
  (hasEmptyWay s = true /\ idx = getEmptyWay s /\ es' = <[idx := mkCE true tag 0]> es) \/
  (hasEmptyWay s = false /\ (n <= idx < ne)%nat /\ chunk_ok n ne maxc s es' /\
   (key <$> es') !! idx = Some (true, tag)).
Proof using Hok Hmiss Hmax.
  destruct Hok as [Hk Hc]. intros Hec.
  assert (forall i e, es !! i = Some e -> ce_valid e = true -> ce_tag e = tag -> 
            hasEmptyWay s = false /\ (n <= i)%nat) as Hcached.
  { intros i e He Hv Ht. pose proof (key_lookup _ _ _ He) as Hkey. rewrite Hv, Ht in Hkey.
    destruct (hasEmptyWay s) eqn:Hemp.
    - destruct (empty_way_entry _ _ _ _ Hk tag Hmiss Hemp) as [Hno _]. by destruct (Hno i).
    - split; [done|]. destruct (decide (i < n)%nat) as [Hlt|]; [|lia].
      destruct (ways_lookup _ _ _ _ Hk i Hlt) as (w & b & t & Hw & Hb & Hvb & Htb).
      rewrite Hkey in Hb. injection Hb as <- <-. destruct (Hmiss _ _ Hw Hvb). by apply Htb. }
  assert (first_free es = find_idx (fun k => negb (fst k)) (key <$> es)) as Hff
    by (unfold first_free; by rewrite find_idx_fmap).
  destruct Hec as [i e He Hv Ht|i Hi Hnf Hfree|Hnf Hfree]; [| |by left].
  - destruct (Hcached i e He Hv Ht) as [Hemp Hni]. right; right.
    pose proof (lookup_lt_Some _ _ _ He). pose proof (ko_entries _ _ _ _ Hk) as Hlen.
    rewrite length_fmap in Hlen.
    split_and!; [done|lia|lia|by split|]. rewrite (key_lookup _ _ _ He). congruence.
  - right. destruct (hasEmptyWay s) eqn:Hemp.
    + left. destruct (empty_way_entry _ _ _ _ Hk tag Hmiss Hemp) as [_ Hfw].
      rewrite <- Hff in Hfw. split_and!; [done| |done].
      destruct Hfree as [<-|[Hfree _]]; [done|]. exfalso.
      unfold hasEmptyWay in Hemp. apply Nat.ltb_lt in Hemp.
      pose proof (ko_lt _ _ _ _ Hk). pose proof (ko_ways _ _ _ _ Hk). lia.
    + right. assert (n <= i)%nat as Hni.
      { destruct Hfree as [<-|[_ ?]]; [|done].
        destruct (decide (first_free es < n)%nat) as [Hlt|]; [|lia]. exfalso.
        destruct (ways_lookup _ _ _ _ Hk _ Hlt) as (w & b & t & Hw & Hb & Hvb & _).
        pose proof (full_valid s _ _ Hemp Hw) as Hval.
        apply key_lookup_inv in Hb as (e & He & Hve & _).
        destruct (find_idx_lt (fun e => negb (ce_valid e)) es) as (e' & He' & Hn' & _).
        { by eapply lookup_lt_Some. }
        unfold first_free in He. rewrite He in He'. simplify_eq.
        apply negb_true_iff in Hn'. congruence. }
      assert (forall j, (key <$> es) !! j <> Some (true, tag)) as Hno.
      { intros j (e & He & Hve & Hte)%key_lookup_inv. by eapply Hnf. }
      split_and!; [done|lia|lia|split|].
      * rewrite list_fmap_insert. by apply keys_candidate.
      * apply counts_insert; [done|]. simpl. lia.
      * rewrite list_fmap_insert. apply list_lookup_insert_eq.
        rewrite length_fmap. pose proof (ko_entries _ _ _ _ Hk) as Hlen.
        rewrite length_fmap in Hlen. lia.
Qed.

(** The set and the chunk after the first free way was filled. *)
Lemma fill_ok d :
  hasEmptyWay s = true ->
  let es' := <[getEmptyWay s := mkCE true tag 0]> es in
  chunk_ok n ne maxc (<[getEmptyWay s := mkWay tag true d]> s) es' /\
  exists e, es' !! getEmptyWay s = Some e /\ ce_valid e = true.
Proof using Hok Hmiss Hmax.
  destruct Hok as [Hk Hc]. intros Hemp es'. split.
  - split; [unfold es'; rewrite list_fmap_insert; by apply keys_fill|].
    apply counts_insert; [done|]. simpl. lia.
  - exists (mkCE true tag 0). split; [|done]. apply list_lookup_insert_eq.
    unfold hasEmptyWay in Hemp. apply Nat.ltb_lt in Hemp.
    pose proof (ko_entries _ _ _ _ Hk) as Hlen. rewrite length_fmap in Hlen.
    pose proof (ko_lt _ _ _ _ Hk). pose proof (ko_ways _ _ _ _ Hk). lia.
Qed.

End Fbr.

(** A full set has a victim, and it is the least used cached page. *)
Lemma pickVictimWay_ok n ne maxc s es v :
  chunk_ok n ne maxc s es -> hasEmptyWay s = false -> maxc <= 10000 -> v_num_ways v = n ->
  (0 < n)%nat ->
  exists w e, pickVictimWay v es = Ok w /\ (w < n)%nat /\ es !! w = Some e /\
    ce_valid e = true /\
    forall k x, (k < n)%nat -> es !! k = Some x -> ce_count e <= ce_count x.
Proof.
  intros [Hk Hc] Hemp Hmax Hv Hn. unfold pickVictimWay. rewrite Hv.
  pose proof (ko_entries _ _ _ _ Hk) as Hlen. rewrite length_fmap in Hlen.
  pose proof (ko_lt _ _ _ _ Hk) as Hlt.
  assert (forall k e, take n es !! k = Some e -> ce_valid e = true /\ ce_count e < 10000) as Hall.
  { intros k e He. apply lookup_take_Some in He as [He Hkn].
    destruct (ways_lookup _ _ _ _ Hk k Hkn) as (w & b & t & Hw & Hb & Hvb & _).
    pose proof (full_valid s _ _ Hemp Hw). rewrite (key_lookup _ _ _ He) in Hb.
    injection Hb as Hb _. assert (ce_valid e = true) as Hve by congruence.
    pose proof (Hc _ _ He Hve). split; [done|lia]. }
  destruct (pickVictimWay_loop_ok (take n es) 0 10000 n Hall) as (j & e & -> & Hj & Hmin).
  { intros Hnil. apply (f_equal length) in Hnil. rewrite length_take in Hnil. simpl in Hnil. lia. }
  destruct (Hall _ _ Hj) as [Hve _]. apply lookup_take_Some in Hj as [Hj Hjn].
  exists j, e. split_and!; try done. intros k x Hkn Hx. eapply Hmin.
  by rewrite lookup_take_lt.
Qed.

(** ** The handlers *)

(** The contract of [handleCacheMiss] towards the controller: [w] is [num_ways]
    and nothing about the set changes, or [w] is a way that may be replaced and
    the tables already describe the set with the new page in way [w]. *)
Record miss_post (v : McView) (n c : nat) (tag : Address) (s : CacheSet)
    (p : PagePlacement) (w : nat) (p' : PagePlacement) : Prop := {
  mp_frame : pp_frame c p p';
  mp_le : (w <= n)%nat;
  mp_keep : w = n -> pp_at n c s p';
  mp_place : (w < n)%nat -> forall d, pp_at n c (<[w := mkWay tag true d]> s) p';
  mp_victim : (w < n)%nat -> victim_ok v p tag s w
}.

Lemma pp_at_after n c (s' : CacheSet) p ci es' b bits :
  pp_chunks p !! c = Some ci -> pp_lru_bits p !! c = Some bits -> lru_ok n bits ->
  length s' = n -> chunk_ok n (pp_num_entries p) (pp_max_count_size p) s' es' ->
  pp_at n c s' (pp_after p c ci es' b).
Proof.
  intros Hci Hb Hl Hs Hck. eexists _, bits. simpl.
  rewrite list_lookup_insert_eq by (by eapply lookup_lt_Some). split_and!; eauto.
Qed.

Lemma chunk_ok_keys n ne maxc s es es' :
  key <$> es' = key <$> es -> counts_ok maxc es' ->
  chunk_ok n ne maxc s es -> chunk_ok n ne maxc s es'.
Proof. intros Hk Hc [H1 _]. split; [by rewrite Hk|done]. Qed.

Lemma pp_after_twice p c ci es b es2 b2 :
  (c < length (pp_chunks p))%nat ->
  pp_set_chunks (<[c := mkCI es2 (ci_num_hits ci) (ci_num_misses ci)]>
                   (pp_chunks (pp_after p c ci es b))) (pp_set_buffer b2 (pp_after p c ci es b)) =
  pp_after p c ci es2 b2.
Proof. intros Hc. unfold pp_after. simpl. by rewrite list_insert_insert_eq. Qed.

Lemma pp_frame_after c p ci es b : pp_frame c p (pp_after p c ci es b).
Proof. split; [done| |done]. intros i Hi. simpl. by rewrite list_lookup_insert_ne. Qed.

#[export] Hint Resolve pp_frame_after : banshee.

(** The swap of a candidate with its victim. *)
Lemma chunk_swap n ne maxc s es idx w e victim tag d :
  chunk_ok n ne maxc s es -> hasEmptyWay s = false -> (n <= idx < ne)%nat -> (w < n)%nat ->
  es !! idx = Some e -> ce_valid e = true -> ce_tag e = tag ->
  es !! w = Some victim -> ce_valid victim = true ->
  chunk_ok n ne maxc (<[w := mkWay tag true d]> s) (<[w := e]> (<[idx := victim]> es)).
Proof.
  intros [Hk Hc] Hemp Hidx Hw He Hve Hte Hvi Hvv. split.
  - rewrite !list_fmap_insert. unfold key at 1 2. rewrite Hve, Hte, Hvv.
    apply (keys_swap _ _ _ _ Hk); [done|done|done| |].
    + by rewrite (key_lookup _ _ _ He), Hve, Hte.
    + by rewrite (key_lookup _ _ _ Hvi), Hvv.
  - apply counts_insert; [apply counts_insert; [done|]|]; by eapply Hc.
Qed.

(** A set with a free way has no valid page there. *)
Lemma empty_way_invalid s x :
  hasEmptyWay s = true -> s !! getEmptyWay s = Some x -> w_valid x = false.
Proof.
  intros Hemp Hx. unfold hasEmptyWay in Hemp. apply Nat.ltb_lt in Hemp.
  destruct (find_idx_lt (fun w => negb (w_valid w)) s Hemp) as (y & Hy & Hv & _).
  unfold getEmptyWay in Hx. rewrite Hx in Hy. simplify_eq. by apply negb_true_iff.
Qed.

(** [victim_ok] from the answer of the tag buffer. *)
Lemma victim_ok_entry n ne maxc v p tag s es w victim tb :
  chunk_ok n ne maxc s es -> (w < n)%nat -> es !! w = Some victim -> ce_valid victim = true ->
  v_tag_buffer v = Some tb -> canInsert2 tag (ce_tag victim) tb = Ok true ->
  victim_ok v p tag s w.
Proof.
  intros [Hk _] Hw Hvic Hvv Htb Hok x tb' Hx Hval _ Htb'.
  destruct (ways_lookup _ _ _ _ Hk w Hw) as (w' & b & t & Hw' & Hb & _ & Htag).
  rewrite (key_lookup _ _ _ Hvic) in Hb. injection Hb as <- <-.
  assert (w' = x) as -> by congruence. assert (tb' = tb) as -> by congruence.
  by rewrite Htag.
Qed.

Section FbrUpdate.
Context (n : nat) (v : McView) (tag : Address) (c : nat) (s : CacheSet).
Context (Hn : v_num_ways v = n).

(** The competition for a full set, from any state whose entries are [es]. *)
Lemma fbr_compete_ok p ci es idx :
  pp_cfg_ok n p -> pp_policy p = FBR -> view_ok v p ->
  pp_chunks p !! c = Some ci -> ci_entries ci = es -> pp_at n c s p ->
  hasEmptyWay s = false -> (n <= idx < pp_num_entries p)%nat ->
  (key <$> es) !! idx = Some (true, tag) ->
  wp (fbr_compete v tag c idx es) (miss_post v n c tag s p) p.
Proof using Hn.
  intros Hcfg Hpol Hv Hci Hes Hat Hemp Hidx Hkey.
  destruct (Hat) as (ci' & bits & Hci' & Hbits & Hlru & Hs & Hck). specialize (Hck Hpol).
  assert (ci' = ci) as -> by congruence. rewrite Hes in Hck.
  destruct (Hcfg) as [Hways H32 Hmax _].
  apply key_lookup_inv in Hkey as (e & He & Hve & Hte).
  unfold fbr_compete. apply wp_bind, wp_get, wp_bind, wp_assert; [apply Nat.leb_le; lia|].
  destruct (pickVictimWay_ok n _ _ s es v Hck Hemp) as (w & victim & Hpick & Hw & Hvic & Hvv & _);
    [lia|done|lia|].
  apply wp_bind. eapply wp_lift; [done|]. apply wp_bind, wp_assert; [apply Nat.ltb_lt; lia|].
  apply wp_bind. eapply wp_lift; [unfold at_; by rewrite He|].
  apply wp_bind. eapply wp_lift; [unfold at_; by rewrite Hvic|]. apply wp_bind.
  destruct (vo_tb _ _ Hv (or_introl Hpol)) as (tb & Htb & Hinv).
  destruct (canInsert2_total tb tag (ce_tag victim) Hinv) as [ok Hci2].
  assert (wp (ret (v_num_ways v)) (miss_post v n c tag s p) p) as Hno.
  { apply wp_ret. rewrite Hn. split; auto with banshee; intros; lia. }
  destruct (compareCounter _ _ _ _); [|by apply wp_ret].
  eapply wp_lift; [unfold view_canInsert2, view_tb; rewrite Htb; apply Hci2|].
  destruct ok; [|done].
  apply wp_bind. eapply wp_put_entries; [done|]. apply wp_ret.
  split; [apply pp_frame_chunk|lia|intros; lia|intros _ d|intros _].
  - apply (pp_at_after n c _ p ci _ (pp_buffer p) bits); try done; [by rewrite length_insert|].
    by eapply chunk_swap.
  - by eapply victim_ok_entry.
Qed.

Lemma miss_post_frame p p1 w p' :
  pp_frame c p p1 -> pp_scheme p1 = pp_scheme p ->
  miss_post v n c tag s p1 w p' -> miss_post v n c tag s p w p'.
Proof using.
  intros Hf Hsch [H1 H2 H3 H4 H5]. split; auto; [by eapply pp_frame_trans|].
  intros Hlt x tb Hx Hval Hh. eapply H5; eauto. congruence.
Qed.

Lemma fbr_update_ok p :
  pp_cfg_ok n p -> pp_at n c s p -> pp_policy p = FBR -> view_ok v p -> miss tag s ->
  wp (fbr_update v tag c s) (miss_post v n c tag s p) p.
Proof using Hn.
  intros Hcfg Hat Hpol Hv Hmiss.
  destruct Hat as (ci & bits & Hci & Hbits & Hlru & Hs & Hck). specialize (Hck Hpol).
  destruct (Hcfg) as [Hways H32 Hmax _].
  assert (length (ci_entries ci) = pp_num_entries p) as Hlen.
  { destruct Hck as [Hk _]. pose proof (ko_entries _ _ _ _ Hk) as H. by rewrite length_fmap in H. }
  unfold fbr_update. apply wp_bind, wp_modify, wp_bind. set (p1 := pp_count_access p).
  eapply wp_mono; [apply (getChunkEntry_ok v tag c p1 ci); simpl; [done|done|lia|done]|].
  intros idx p2 (es1 & b & Hec & ->). simpl in Hec. rewrite Hn in Hec. apply wp_bind, wp_get.
  assert (forall es, pp_frame c p (pp_after p1 c ci es b)) as Hframe.
  { intros es. eapply pp_frame_trans; [|apply pp_frame_after]. by split. }
  assert (forall s' es, length s' = n ->
            chunk_ok n (pp_num_entries p) (pp_max_count_size p) s' es ->
            pp_at n c s' (pp_after p1 c ci es b)) as Hat'.
  { intros s' es Hs' Hck'. by eapply (pp_at_after n c s' p1). }
  assert (forall es, pp_chunks (pp_after p1 c ci es b) !! c =
            Some (mkCI es (ci_num_hits ci) (ci_num_misses ci))) as Hlook.
  { intros es. simpl. apply list_lookup_insert_eq. by eapply lookup_lt_Some. }
  simpl pp_num_entries. simpl pp_max_count_size.
  destruct (choice_on_miss n _ _ s (ci_entries ci) tag Hck Hmiss (proj1 Hmax) idx es1 Hec)
    as [[-> ->]|[(Hemp & -> & ->)|(Hemp & Hidx & Hck1 & Hkey)]].
  - rewrite Nat.eqb_refl. apply wp_ret. rewrite Hn.
    split; [done|done|by auto|intros; lia|intros; lia].
  - assert (getEmptyWay s < n)%nat as Hlt
      by (unfold hasEmptyWay in Hemp; apply Nat.ltb_lt in Hemp; lia).
    destruct (Nat.eqb_spec (getEmptyWay s) (pp_num_entries p)); [lia|].
    destruct (fill_ok n _ _ s (ci_entries ci) tag Hck Hmiss (proj1 Hmax) true Hemp)
      as [[_ Hcnt] (e & He & Hve)].
    assert (2 <= pp_max_count_size p < 2 ^ 32 - 1) as Hm by lia.
    destruct (bump_count_ok _ _ _ _ Hm Hcnt He Hve)
      as (es2 & Hb & Hkeys & Hc2).
    apply wp_bind. eapply wp_get_chunk; [apply Hlook|]. simpl ci_entries.
    apply wp_bind. eapply wp_lift; [done|]. apply wp_bind.
    eapply wp_put_entries; [apply Hlook|]. simpl ci_num_hits. simpl ci_num_misses.
    rewrite Hn. apply Nat.ltb_lt in Hlt as Hltb. rewrite Hltb.
    apply wp_bind, wp_assert; [apply Nat.eqb_refl|]. apply wp_bind, wp_modify, wp_ret.
    simpl. rewrite list_insert_insert_eq.
    split; [|lia|intros; lia|intros _ d|intros _ x tb Hx Hval].
    + eapply pp_frame_trans; [apply (Hframe es2)|]. by split.
    + destruct (fill_ok n _ _ s (ci_entries ci) tag Hck Hmiss (proj1 Hmax) d Hemp) as [Hfill _].
      apply (Hat' (<[getEmptyWay s := mkWay tag true d]> s) es2); [by rewrite length_insert|].
      by eapply chunk_ok_keys.
    + pose proof (empty_way_invalid s x Hemp Hx). congruence.
  - destruct (Nat.eqb_spec idx (pp_num_entries p)); [lia|].
    pose proof (key_lookup_inv _ _ _ _ Hkey) as (e & He & Hve & _).
    destruct (bump_count_ok (pp_max_count_size p) es1 idx e) as (es2 & Hb & Hkeys & Hc2);
      [lia|apply Hck1|done|done|].
    apply wp_bind. eapply wp_get_chunk; [apply Hlook|]. simpl ci_entries.
    apply wp_bind. eapply wp_lift; [done|]. apply wp_bind.
    eapply wp_put_entries; [apply Hlook|]. simpl ci_num_hits. simpl ci_num_misses.
    assert ((getEmptyWay s <? v_num_ways v)%nat = false) as ->.
    { unfold hasEmptyWay in Hemp. by rewrite Hn, <- Hs. }
    simpl. rewrite list_insert_insert_eq. fold (pp_after p1 c ci es2 b).
    eapply wp_mono.
    + eapply (fbr_compete_ok (pp_after p1 c ci es2 b)); [|done| |apply Hlook|done| |done|done|].
      * by eapply pp_cfg_ok_eq; [apply Hframe|].
      * split. apply Hv.
      * apply Hat'; [done|]. by eapply chunk_ok_keys.
      * by rewrite Hkeys.
    + intros w p' Hpost. eapply miss_post_frame; [apply (Hframe es2)|done|done].
Qed.

End FbrUpdate.

Lemma chunk_ways_agree n ne maxc s es : chunk_ok n ne maxc s es -> ways_agree s es = true.
Proof.
  intros [Hk _]. unfold ways_agree. apply forallb_forall.
  intros [w e] Hin. apply list_elem_of_In, list_elem_of_lookup in Hin as [i Hi].
  apply lookup_zip_Some in Hi as [Hw He].
  destruct (ko_mirror _ _ _ _ Hk i w _ _ Hw (key_lookup _ _ _ He)) as [Hv Ht].
  destruct (w_valid w) eqn:Hvw; simpl; [|done]. apply Z.eqb_eq, Ht. congruence.
Qed.

Lemma wp_sampleOrNot v r tune Q p :
  (forall x b, Q x (pp_set_buffer b p)) -> wp (sampleOrNot v r tune) Q p.
Proof. intros H. unfold sampleOrNot. apply wp_bind, wp_pp_drand. intros f b. apply wp_ret, H. Qed.

(** [handleCacheMiss] never fails an assertion and keeps its contract. *)
Lemma handleCacheMiss_ok n v tag t c s p :
  pp_cfg_ok n p -> pp_at n c s p -> v_num_ways v = n -> view_ok v p -> miss tag s ->
  wp (handleCacheMiss v tag t c s) (fun r p' => miss_post v n c tag s p (fst r) p') p.
Proof.
  intros Hcfg Hat Hn Hv Hmiss. destruct (Hat) as (ci & bits & Hci & Hbits & Hlru & Hs & Hck).
  unfold handleCacheMiss. apply wp_bind, wp_get, wp_bind. eapply wp_get_chunk; [done|].
  apply wp_bind, wp_modify, wp_bind, wp_get.
  set (ci1 := mkCI (ci_entries ci) (ci_num_hits ci) (u64 (ci_num_misses ci + 1))).
  set (p1 := pp_set_chunks (<[c:=ci1]> (pp_chunks p)) p).
  assert (pp_frame c p p1) as Hf1 by apply pp_frame_chunk.
  assert (pp_cfg_ok n p1) as Hcfg1 by (by eapply pp_cfg_ok_eq; [apply Hf1|]).
  assert (pp_at n c s p1) as Hat1.
  { exists ci1, bits. simpl. rewrite list_lookup_insert_eq by (by eapply lookup_lt_Some). done. }
  assert (view_ok v p1) as Hv1 by (split; apply Hv).
  assert (forall p2, pp_frame c p p2 -> pp_at n c s p2 -> miss_post v n c tag s p (v_num_ways v) p2) as Hno.
  { intros p2 Hf2 Hat2. rewrite Hn. split; auto; intros; lia. }
  case_bool_decide as Hpol.
  - apply wp_bind. eapply wp_mono; [by eapply handleCacheMiss_LRU_ok|].
    intros w p' (Hf & Hat' & Hle & Hvic). apply wp_ret. simpl.
    assert (forall s', length s' = n -> pp_at n c s' p') as Hany.
    { intros s' Hs'. destruct Hat' as (ci' & bits' & H1 & H2 & H3 & _ & _).
      exists ci', bits'. split_and!; try done. intros Hfbr.
      pose proof (pf_cfg _ _ _ Hf) as Heq. unfold pp_cfg in Heq. simplify_eq. congruence. }
    split; [by eapply pp_frame_trans|done|auto|intros _ d; apply Hany; by rewrite length_insert|done].
  - assert (pp_policy p1 = FBR) as Hfbr by (by destruct (pp_policy p1)).
    apply wp_bind, wp_assert; [by apply (pc_fbr _ _ Hcfg1)|].
    apply wp_bind, wp_assert; [by eapply chunk_ways_agree, Hck|].
    case_bool_decide; [apply wp_ret; by apply Hno|].
    destruct (effective_rate v p1) as [rate tune]. apply wp_bind.
    assert (forall p2, pp_frame c p p2 -> pp_at n c s p2 -> pp_scheme p2 = pp_scheme p ->
       pp_policy p2 = FBR ->
       wp (w <- fbr_update v tag c s ;; ret (w, true))
          (fun r p' => miss_post v n c tag s p (fst r) p') p2) as Hupd.
    { intros p2 Hf2 Hat2 Hs2 Hp2. apply wp_bind. eapply wp_mono.
      - eapply (fbr_update_ok n v tag c s Hn p2); auto.
        + by eapply pp_cfg_ok_eq; [apply Hf2|].
        + split. intros _. apply (vo_tb _ _ Hv). by left.
      - intros w p' Hp'. apply wp_ret. by eapply miss_post_frame. }
    destruct (hasEmptyWay s).
    + apply wp_ret. by apply Hupd.
    + apply wp_sampleOrNot. intros [] b.
      * by apply Hupd; [eapply pp_frame_trans; [apply Hf1|apply pp_frame_buffer]| | |].
      * apply wp_ret. apply Hno; [|done].
        eapply pp_frame_trans; [apply Hf1|apply pp_frame_buffer].
Qed.

(** On a hit the page's own entry is the one of its way. *)
Lemma choice_on_hit n ne maxc s es tag hit_way w idx es' :
  chunk_ok n ne maxc s es -> s !! hit_way = Some w -> w_valid w = true -> w_tag w = tag ->
  entry_choice n ne tag es idx es' -> idx = hit_way /\ es' = es.
Proof.
  intros [Hk _] Hw Hv Ht Hec. pose proof (lookup_lt_Some _ _ _ Hw) as Hlt.
  rewrite (ko_ways _ _ _ _ Hk) in Hlt.
  destruct (ways_lookup _ _ _ _ Hk _ Hlt) as (w' & b & t & Hw' & Hb & Hvb & Htb).
  assert (w' = w) as -> by congruence. rewrite <- Hvb, Hv in Hb, Htb.
  rewrite <- (Htb eq_refl), Ht in Hb.
  pose proof (key_lookup_inv _ _ _ _ Hb) as (e & He & Hve & Hte).
  destruct Hec as [i x Hx Hvx Htx|i Hi Hnf _|Hnf _]; [|by destruct (Hnf _ _ He Hve)..].
  split; [|done]. eapply (ko_unique _ _ _ _ Hk); [|done].
  by rewrite (key_lookup _ _ _ Hx), Hvx, Htx.
Qed.

(** [handleCacheHit] never fails an assertion and keeps the invariant. *)
Lemma handleCacheHit_ok n v tag c s hit_way w p :
  pp_cfg_ok n p -> pp_at n c s p -> v_num_ways v = n ->
  s !! hit_way = Some w -> w_valid w = true -> w_tag w = tag ->
  wp (handleCacheHit v tag c s hit_way) (fun _ p' => pp_frame c p p' /\ pp_at n c s p') p.
Proof.
  intros Hcfg Hat Hn Hw Hval Htag.
  destruct (Hat) as (ci & bits & Hci & Hbits & Hlru & Hs & Hck).
  assert (hit_way < n)%nat as Hlt by (rewrite <- Hs; by eapply lookup_lt_Some).
  unfold handleCacheHit. apply wp_bind. eapply wp_lift; [unfold at_; by rewrite Hw|].
  apply wp_bind, wp_assert; [by apply Z.eqb_eq|]. apply wp_bind, wp_get.
  case_bool_decide as Hpol.
  { apply wp_bind. eapply wp_mono; [by eapply updateLRU_ok|].
    intros [] p' (Hf & Hat' & _). by apply wp_ret. }
  assert (pp_policy p = FBR) as Hfbr by (by destruct (pp_policy p)).
  specialize (Hck Hfbr). destruct (Hcfg) as [Hways H32 Hmax _].
  apply wp_bind. eapply wp_get_chunk; [done|].
  apply wp_bind, wp_assert; [by eapply chunk_ways_agree|].
  destruct (effective_rate v p) as [rate tune].
  apply wp_bind, wp_sampleOrNot. intros [] b.
  2:{ apply wp_ret. auto with banshee. }
  apply wp_bind, wp_modify, wp_bind. set (p1 := pp_count_access (pp_set_buffer b p)).
  pose proof (ko_entries _ _ _ _ (proj1 Hck)) as Hlen. rewrite length_fmap in Hlen.
  eapply wp_mono; [apply (getChunkEntry_ok v tag c p1 ci); simpl; [done|done|lia|done]|].
  intros idx p2 (es1 & b2 & Hec & ->). simpl in Hec. rewrite Hn in Hec.
  destruct (choice_on_hit _ _ _ _ _ _ _ _ _ _ Hck Hw Hval Htag Hec) as [-> ->].
  rewrite pp_after_same by done.
  apply wp_bind. eapply wp_get_chunk; [done|].
  apply wp_bind, wp_assert; [apply Nat.ltb_lt; lia|]. apply wp_bind.
  assert (2 <= pp_max_count_size p < 2 ^ 32 - 1) as Hm by lia.
  destruct (ways_lookup _ _ _ _ (proj1 Hck) _ Hlt) as (w' & bb & t & Hw' & Hb & Hvb & _).
  assert (w' = w) as -> by congruence. apply key_lookup_inv in Hb as (e & He & Hve & _).
  destruct (bump_count_ok _ _ _ _ Hm (proj2 Hck) He) as (es2 & Hbump & Hkeys & Hc2); [congruence|].
  eapply wp_lift; [done|]. apply wp_bind. eapply wp_put_entries; [done|]. apply wp_ret.
  split.
  - eapply pp_frame_trans; [|apply (pp_frame_chunk c _ (pp_set_buffer b2 p1))]. by split.
  - apply (pp_at_after n c s p1 ci es2 b2 bits); try done. by eapply chunk_ok_keys.
Qed.

(** With no valid way and no valid entry the tables agree. *)
Lemma chunk_ok_invalid n ne maxc s es :
  length s = n -> length es = ne -> (n < ne)%nat ->
  (forall j w, s !! j = Some w -> w_valid w = false) ->
  (forall i e, es !! i = Some e -> ce_valid e = false) -> chunk_ok n ne maxc s es.
Proof.
  intros Hs He Hlt Hsv Hev.
  assert (forall i b t, (key <$> es) !! i = Some (b, t) -> b = false) as Hfalse.
  { intros i b t (e & Hi & <- & _)%key_lookup_inv. by eapply Hev. }
  split; [split|].
  - done.
  - by rewrite length_fmap.
  - done.
  - intros j w b t Hw Hb. by rewrite (Hfalse _ _ _ Hb), (Hsv _ _ Hw).
  - intros j w k b t _ _ _ Hb. by eapply Hfalse.
  - intros i j t Hb _. by apply Hfalse in Hb.
  - intros i e Hi Hv. rewrite (Hev _ _ Hi) in Hv. done.
Qed.

(** [flushChunk] matches a set whose ways were all invalidated. *)
Lemma flushChunk_ok n c s s' p :
  pp_cfg_ok n p -> pp_at n c s p -> length s' = n ->
  (forall j w, s' !! j = Some w -> w_valid w = false) ->
  wp (flushChunk c) (fun _ p' => pp_frame c p p' /\ pp_at n c s' p') p.
Proof.
  intros Hcfg (ci & bits & Hci & Hbits & Hlru & Hs & Hck) Hs' Hinv.
  unfold flushChunk. apply wp_bind. eapply wp_get_chunk; [done|].
  eapply wp_put_entries; [done|]. split; [apply pp_frame_chunk|].
  eexists _, bits. simpl. rewrite list_lookup_insert_eq by (by eapply lookup_lt_Some).
  split_and!; try done. intros Hfbr. specialize (Hck Hfbr). destruct Hck as [Hk _].
  pose proof (ko_entries _ _ _ _ Hk) as Hlen. rewrite length_fmap in Hlen.
  apply chunk_ok_invalid; simpl; [done|by rewrite length_fmap|apply (ko_lt _ _ _ _ Hk)|done|].
  intros i e He. rewrite list_lookup_fmap in He. by destruct (ci_entries ci !! i); simplify_eq/=.
Qed.

Lemma init_entries_invalid ne junk i e :
  init_entries ne junk !! i = Some e -> ce_valid e = false.
Proof.
  unfold init_entries. rewrite list_lookup_fmap.
  by destruct (seq 0 ne !! i); intros; simplify_eq/=.
Qed.

(** [initialize] establishes the invariant over a cache with no valid way. *)
Lemma initialize_inv num_sets n gran scheme rate enable policy seed junk p cache :
  initialize num_sets n gran scheme rate enable policy seed junk = Ok p ->
  (0 < n)%nat -> (policy = FBR -> enable = true) ->
  length cache = Z.to_nat num_sets ->
  (forall c s, cache !! c = Some s -> length s = n /\
     forall j w, s !! j = Some w -> w_valid w = false) ->
  pp_inv n cache p /\ pp_policy p = policy /\ pp_scheme p = scheme.
Proof.
  unfold initialize. destruct (Nat.ltb_spec n 9) as [Hlt|]; simpl; [|done].
  intros [= <-] Hn Hen Hlen Hinv. split_and!; [|done|done]. split.
  - split; simpl; [lia|lia| |done]. destruct (dltb rate _), (4096 <? gran); lia.
  - intros c s Hs. destruct (Hinv c s Hs) as [Hsl Hsv].
    pose proof (lookup_lt_Some _ _ _ Hs) as Hc. rewrite Hlen in Hc.
    eexists _, _. simpl. rewrite list_lookup_fmap, lookup_seq_lt by lia.
    rewrite lookup_replicate_2 by done. split_and!; [done|done|apply lru_init|done|].
    intros _. apply chunk_ok_invalid; [done|done|done|done|].
    intros i e He. eapply init_entries_invalid, He.
Qed.

(** ** What a miss decides

    The decision is stated apart from the code: which way of which set, after
    which draws of the generator. *)

(** Partial correctness: what is known of a result, if there is one. *)
Definition wlp {S A} (m : M S A) (Q : A -> S -> Prop) (s : S) : Prop :=
  forall a s', m s = Ok (a, s') -> Q a s'.

Lemma wlp_ret {S A} (a : A) Q (s : S) : Q a s -> wlp (ret a) Q s.
Proof. intros HQ b s' [= <- <-]. done. Qed.
Lemma wlp_bind {S A B} (m : M S A) (f : A -> M S B) Q (s : S) :
  wlp m (fun a => wlp (f a) Q) s -> wlp (bind m f) Q s.
Proof. intros Hm b s'. unfold bind. destruct (m s) as [[a s1]|] eqn:E; [|done]. by apply Hm. Qed.
Lemma wlp_mono {S A} (m : M S A) (P Q : A -> S -> Prop) s : wlp m P s -> (forall a s', P a s' -> Q a s') -> wlp m Q s.
Proof. unfold wlp. eauto. Qed.
Lemma wlp_get {S} Q (s : S) : Q s s -> wlp get Q s.
Proof. intros HQ a s' [= <- <-]. done. Qed.
Lemma wlp_modify {S} (f : S -> S) Q s : Q tt (f s) -> wlp (modify f) Q s.
Proof. intros HQ a s' [= <- <-]. done. Qed.
Lemma wlp_assert {S} w b Q (s : S) : (b = true -> Q tt s) -> wlp (assert_ w b) Q s.
Proof. intros HQ a s'. unfold assert_. destruct b; [|done]. intros [= <- <-]. auto. Qed.
Lemma wlp_lift {S A} (r : res A) Q (s : S) : (forall a, r = Ok a -> Q a s) -> wlp (lift r) Q s.
Proof. intros HQ a s'. unfold lift. destruct r; [|done]. intros [= <- <-]. auto. Qed.
Lemma wlp_when {S} (b : bool) (m : M S unit) Q s :
  (b = true -> wlp m Q s) -> (b = false -> Q tt s) -> wlp (when b m) Q s.
Proof. destruct b; intros H1 H2; [by apply H1|]. apply wlp_ret. auto. Qed.

Ltac wlp_step :=
  lazymatch goal with
  | |- wlp (bind _ _) _ _ => apply wlp_bind
  | |- wlp (ret _) _ _ => apply wlp_ret
  | |- wlp get _ _ => apply wlp_get
  | |- wlp (modify _) _ _ => apply wlp_modify
  | |- wlp (assert_ _ _) _ _ => apply wlp_assert
  | |- wlp (lift _) _ _ => apply wlp_lift
  end; cbv beta.

(** A number drawn from a state of the generator, and the state after it. *)
Definition draw (b : drand48_data) : double := fst (drand48_r b).
Definition drawn (b : drand48_data) : drand48_data := snd (drand48_r b).
Definition pick (b : drand48_data) : Z := fst (lrand48_r b).
Definition picked (b : drand48_data) : drand48_data := snd (lrand48_r b).

Lemma wlp_pp_drand Q p : Q (draw (pp_buffer p)) (pp_set_buffer (drawn (pp_buffer p)) p) -> wlp pp_drand Q p.
Proof.
  intros HQ. unfold pp_drand, draw, drawn in *. do 2 wlp_step. destruct (drand48_r _). by do 3 wlp_step.
Qed.
Lemma wlp_pp_lrand Q p : Q (pick (pp_buffer p)) (pp_set_buffer (picked (pp_buffer p)) p) -> wlp pp_lrand Q p.
Proof.
  intros HQ. unfold pp_lrand, pick, picked in *. do 2 wlp_step. destruct (lrand48_r _). by do 3 wlp_step.
Qed.
Lemma wlp_get_chunk c ci Q p : pp_chunks p !! c = Some ci -> Q ci p -> wlp (get_chunk c) Q p.
Proof.
  intros Hc HQ. unfold get_chunk. do 3 wlp_step. unfold at_. rewrite Hc. by intros ? [= <-].
Qed.
Lemma wlp_put_entries c ci es Q p : pp_chunks p !! c = Some ci ->
  Q tt (pp_set_chunks (<[c := mkCI es (ci_num_hits ci) (ci_num_misses ci)]> (pp_chunks p)) p) -> wlp (put_entries c es) Q p.
Proof.
  intros Hc HQ. unfold put_entries. do 4 wlp_step. unfold at_. rewrite Hc. intros ? [= <-]. by wlp_step.
Qed.

(** The first way without a page; a set in which every way has one. *)
Definition first_empty (s : CacheSet) (w : nat) : Prop :=
  (exists x, s !! w = Some x /\ w_valid x = false) /\
  forall j x, (j < w)%nat -> s !! j = Some x -> w_valid x = true.
Definition set_full (s : CacheSet) : Prop := forall j x, s !! j = Some x -> w_valid x = true.

Definition both_fit (v : McView) (t1 t2 : Address) : Prop :=
  exists tb, v_tag_buffer v = Some tb /\ canInsert2 t1 t2 tb = Ok true.

(** LRU: the first empty way; else, if replacement is enabled and the draw is below
    the rate, the way with the greatest age, unless under Banshee the tag buffer
    cannot take both pages. *)
Definition lru_decides (v : McView) (n : nat) (tag : Address) (s : CacheSet) (bits : list Z) (p : PagePlacement) (w : nat) : Prop :=
  first_empty s w \/
  set_full s /\
  (w = n /\ (pp_enable_replace p = false \/ dltb (draw (pp_buffer p)) (pp_sample_rate p) = false) \/
   pp_enable_replace p = true /\ dltb (draw (pp_buffer p)) (pp_sample_rate p) = true /\
   exists i x b, bits !! i = Some b /\ (forall j b', bits !! j = Some b' -> b' <= b) /\ s !! i = Some x /\
     (w = i /\ (pp_scheme p = HybridCache -> both_fit v tag (w_tag x)) \/
      w = n /\ pp_scheme p = HybridCache /\ ~ both_fit v tag (w_tag x))).

(** Whether a load updates the counters of a full set: the draw is below the rate,
    which is 1 while the cache warms up, times the miss rate if the configured
    rate is not 1. *)
Definition sampled (v : McView) (p : PagePlacement) : Prop :=
  let warm := v_num_requests v < u64 (v_num_sets v * Z.of_nat (v_num_ways v) * 64 * 8) in
  let rate := if bool_decide warm then dlit 1 1 else pp_sample_rate p in
  dltb (draw (pp_buffer p))
    (if deqb (pp_sample_rate p) (dlit 1 1) then rate else dmul rate (v_miss_rate v)) = true.

(** The entry of the page: its own; else the first free one; else, in a full table,
    a candidate that is drawn, taken from its page with the probability that its
    counter leaves; or none. *)
Definition entry_decides (n ne : nat) (tag : Address) (es : list ChunkEntry) (b : drand48_data) (idx : nat) (es1 : list ChunkEntry) : Prop :=
  (exists e, es !! idx = Some e /\ ce_valid e = true /\ ce_tag e = tag /\ es1 = es) \/
  (not_found tag es /\ (idx < ne)%nat /\ first_free es = idx /\ es1 = <[idx := mkCE true tag 0]> es) \/
  (not_found tag es /\ first_free es = ne /\
   exists e, es !! (n + Z.to_nat (pick b mod (Z.of_nat ne - Z.of_nat n)))%nat = Some e /\
     let keeps := 0 < ce_count e /\ dltb (ddiv (dlit 1 1) (dbl_of_Z (ce_count e))) (draw (picked b)) = true in
     (keeps /\ idx = ne /\ es1 = es \/
      ~ keeps /\ idx = (n + Z.to_nat (pick b mod (Z.of_nat ne - Z.of_nat n)))%nat /\ es1 = <[idx := mkCE true tag 0]> es)).

(** An access counted for entry [idx]: at the limit every counter is halved. *)
Definition counted (maxc : Z) (es : list ChunkEntry) (idx : nat) (es' : list ChunkEntry) : Prop :=
  length es' = length es /\
  exists e, es !! idx = Some e /\ forall j x, es !! j = Some x ->
    es' !! j = Some (mkCE (ce_valid x) (ce_tag x)
      (if maxc <=? ce_count e + 1 then (if (j =? idx)%nat then ce_count e + 2 else ce_count x) / 2
       else if (j =? idx)%nat then ce_count e + 1 else ce_count x)).

(** [e] is ahead of [victim] by half a page of accesses, at the sample rate. *)
Definition ahead (v : McView) (p : PagePlacement) (e victim : ChunkEntry) : Prop :=
  dleb (dadd (dbl_of_Z (ce_count victim)) (dmul (dbl_of_Z (v_granularity v / 64 / 2)) (pp_sample_rate p)))
    (dbl_of_Z (ce_count e)) = true.

(** A full set: the page competes with the cached page that has the least count,
    and changes places with its entry if it wins. *)
Definition fbr_competes (v : McView) (n : nat) (tag : Address) (p : PagePlacement) (es : list ChunkEntry) (b : drand48_data)
    (w : nat) (es' : list ChunkEntry) : Prop :=
  exists idx es1, entry_decides n (pp_num_entries p) tag es b idx es1 /\
  (idx = pp_num_entries p /\ w = n /\ es' = es \/
   (n <= idx < pp_num_entries p)%nat /\
   exists es2 e vw victim, counted (pp_max_count_size p) es1 idx es2 /\ es2 !! idx = Some e /\ (vw < n)%nat /\
     es2 !! vw = Some victim /\ (forall k x, (k < n)%nat -> es2 !! k = Some x -> ce_count victim <= ce_count x) /\
     let wins := ahead v p e victim /\ both_fit v tag (ce_tag victim) in
     (wins /\ w = vw /\ es' = <[vw := e]> (<[idx := victim]> es2) \/ ~ wins /\ w = n /\ es' = es2)).

(** FBR: a store changes nothing; a load takes an empty way; in a full set it
    competes if it is sampled. *)
Definition fbr_decides (v : McView) (n : nat) (tag : Address) (t : ReqType) (s : CacheSet) (p : PagePlacement)
    (es : list ChunkEntry) (w : nat) (es' : list ChunkEntry) : Prop :=
  t = STORE /\ w = n /\ es' = es \/
  t = LOAD /\ first_empty s w /\ counted (pp_max_count_size p) (<[w := mkCE true tag 0]> es) w es' \/
  t = LOAD /\ set_full s /\ ~ sampled v p /\ w = n /\ es' = es \/
  t = LOAD /\ set_full s /\ sampled v p /\ fbr_competes v n tag p es (drawn (pp_buffer p)) w es'.

(** *** The entry of a page *)

Lemma entry_decides_choice n ne tag es b idx es1 : (n < ne)%nat ->
  entry_decides n ne tag es b idx es1 -> entry_choice n ne tag es idx es1.
Proof.
  intros Hlt [(e & He & Hv & Ht & ->)|[(Hnf & Hi & Hff & ->)|(Hnf & Hff & e & He & Hk)]].
  - by eapply ec_found.
  - apply ec_taken; auto.
  - destruct Hk as [(_ & -> & ->)|(_ & -> & ->)]; [by apply ec_none|]. apply ec_taken; [|done|right; split; [done|lia]].
    pose proof (Z.mod_pos_bound (pick b) (Z.of_nat ne - Z.of_nat n)). lia.
Qed.

Lemma getChunkEntry_decides v tag c p ci :
  pp_chunks p !! c = Some ci -> length (ci_entries ci) = pp_num_entries p ->
  (v_num_ways v < pp_num_entries p)%nat -> Z.of_nat (pp_num_entries p) < 2 ^ 32 ->
  wlp (getChunkEntry v tag c)
    (fun idx p' => exists es1 b',
       entry_decides (v_num_ways v) (pp_num_entries p) tag (ci_entries ci) (pp_buffer p) idx es1 /\
       p' = pp_after p c ci es1 b') p.
Proof.
  intros Hc Hlen Hlt H32. set (es := ci_entries ci) in *. set (ne := pp_num_entries p) in *.
  unfold getChunkEntry. do 3 wlp_step. eapply wlp_get_chunk; [done|].
  fold es ne. set (found := find_idx _ es). fold (first_free es).
  destruct (Nat.ltb_spec found ne) as [Hf|Hf].
  { wlp_step. destruct (find_idx_lt _ es (ltac:(by rewrite Hlen))) as (e & He & Hp & _).
    fold found in He. apply andb_true_iff in Hp as [Hv Ht%Z.eqb_eq].
    exists es, (pp_buffer p). split; [left; eauto|]. unfold es. rewrite pp_after_same by done. by destruct p. }
  assert (not_found tag es) as Hnf.
  { intros i e He Hv Ht. pose proof (find_idx_some (fun e => ce_valid e && (ce_tag e =? tag)) es i e He) as H.
    cbv beta in H. fold found in H. rewrite Hv, Ht, Z.eqb_refl in H. specialize (H eq_refl). apply lookup_lt_Some in He. lia. }
  assert (u32 (Z.of_nat ne - Z.of_nat (v_num_ways v)) = Z.of_nat ne - Z.of_nat (v_num_ways v)) as Hm
    by (apply u32_id; unfold in_u32; lia).
  wlp_step. destruct (Nat.eqb_spec (first_free es) ne) as [Hff|Hff].
  - wlp_step. apply wlp_pp_lrand. wlp_step. apply wlp_pp_drand. do 2 wlp_step. rewrite Hm. unfold umod.
    destruct (Z.eqb_spec (Z.of_nat ne - Z.of_nat (v_num_ways v)) 0); [lia|]. intros r [= <-].
    do 2 wlp_step. intros _. do 2 wlp_step. intros e He. unfold at_ in He. cbn [pp_buffer pp_set_buffer].
    set (i := (v_num_ways v + _)%nat) in *. destruct (es !! i) as [e'|] eqn:Hi; [|done]. injection He as ->.
    do 2 wlp_step. set (keeps := (0 <? ce_count e) && _). destruct keeps eqn:Ek; unfold keeps in Ek.
    + rewrite Nat.ltb_irrefl. apply wlp_when; [done|]. intros _. wlp_step. exists es, (drawn (picked (pp_buffer p))). split.
      * right; right. split_and!; [done|done|]. exists e. split; [done|]. left.
        apply andb_true_iff in Ek as [Ek1%Z.ltb_lt Ek2]. done.
      * unfold es. by rewrite pp_after_same by done.
    + apply wlp_when; [intros _|intros Hge%Nat.ltb_ge; apply lookup_lt_Some in Hi; lia].
      eapply wlp_put_entries; [done|]. wlp_step. eexists _, (drawn (picked (pp_buffer p))). split; [|done].
      right; right. split_and!; [done|done|]. exists e. split; [done|]. right. split_and!; [|done|done].
      intros [Hk1%Z.ltb_lt Hk2]. by rewrite Hk1, Hk2 in Ek.
  - wlp_step. assert (first_free es < ne)%nat as Hi.
    { pose proof (find_idx_le (fun e => negb (ce_valid e)) es) as H. fold (first_free es) in H. lia. }
    wlp_step. apply wlp_when; [intros _|intros Hge%Nat.ltb_ge; lia]. eapply wlp_put_entries; [done|]. wlp_step.
    eexists _, (pp_buffer p). split; [right; left; done|]. unfold pp_after. by destruct p.
Qed.

(** *** Counting *)

Lemma bump_count_counted maxc es idx e es' :
  2 <= maxc < 2 ^ 32 - 1 -> counts_ok maxc es -> es !! idx = Some e -> ce_valid e = true ->
  bump_count maxc es idx = Ok es' -> counted maxc es idx es'.
Proof.
  intros Hm Hc He Hv. unfold bump_count, at_. rewrite He. pose proof (Hc _ _ He Hv) as Hr.
  rewrite u32_id by (unfold in_u32; lia). cbn [ce_count]. intros [= <-].
  set (es1 := <[idx := mkCE (ce_valid e) (ce_tag e) (ce_count e + 1)]> es).
  assert (forall j x, es !! j = Some x -> es1 !! j = Some (mkCE (ce_valid x) (ce_tag x)
    (if (j =? idx)%nat then ce_count e + 1 else ce_count x))) as H1.
  { intros j x Hx. unfold es1. destruct (Nat.eqb_spec j idx) as [->|Hne].
    - rewrite list_lookup_insert_eq by (by eapply lookup_lt_Some). assert (x = e) as -> by congruence. done.
    - rewrite list_lookup_insert_ne, Hx by done. by destruct x. }
  assert (length es1 = length es) as Hl1 by apply length_insert.
  unfold counted. destruct (Z.leb_spec maxc (ce_count e + 1)) as [Hle|Hle];
    (split; [|exists e; split; [done|]; intros j x Hx; rewrite ?(proj2 (Z.leb_le _ _) Hle), ?(proj2 (Z.leb_gt _ _) Hle)]).
  - unfold handleCounterOverflow. by rewrite length_imap.
  - rewrite handleCounterOverflow_lookup, (H1 _ _ Hx). destruct (j =? idx)%nat; [|done]. cbn [fmap option_fmap option_map ce_valid ce_tag ce_count].
    rewrite u32_id by (unfold in_u32; lia). by replace (ce_count e + 1 + 1) with (ce_count e + 2) by lia.
  - done.
  - by rewrite (H1 _ _ Hx).
Qed.

(** *** The handlers *)

Lemma empty_is_first s : hasEmptyWay s = true -> first_empty s (getEmptyWay s).
Proof.
  unfold hasEmptyWay, getEmptyWay. intros Hlt%Nat.ltb_lt. apply find_idx_lt in Hlt as (x & Hx & Hv & Hmin).
  split; [exists x; split; [done|by apply negb_true_iff]|]. intros j y Hj Hy.
  specialize (Hmin j y Hj Hy). by apply negb_false_iff in Hmin.
Qed.

Lemma full_is_full s : hasEmptyWay s = false -> set_full s.
Proof. intros He j x. by apply full_valid. Qed.

Lemma fits_iff v t1 t2 ok : view_canInsert2 v t1 t2 = Ok ok -> (ok = true <-> both_fit v t1 t2).
Proof.
  unfold view_canInsert2, view_tb, both_fit. destruct (v_tag_buffer v) as [tb|]; [|done]. intros E. split.
  - intros ->. eauto.
  - intros (tb' & [= <-] & E'). congruence.
Qed.

Lemma lru_oldest n bits i : lru_ok n bits -> (0 < n)%nat -> i = find_idx (fun b => b =? Z.of_nat n - 1) bits ->
  exists b, bits !! i = Some b /\ forall j b', bits !! j = Some b' -> b' <= b.
Proof.
  intros Hl Hn ->. pose proof (lru_victim n bits Hl Hn) as Hi. assert (find_idx (fun b => (b =? Z.of_nat n - 1)%Z) bits < length bits)%nat as Hi' by (by rewrite (lru_ok_length _ _ Hl)).
  apply find_idx_lt in Hi' as (b & Hb & Hbn%Z.eqb_eq & _). exists b. split; [done|]. intros j b' Hj.
  pose proof (lru_ok_range _ _ _ _ Hl Hj). lia.
Qed.

Lemma updateLRU_chunks c way p : wlp (updateLRU c way) (fun _ p' => pp_chunks p' = pp_chunks p) p.
Proof. unfold updateLRU. do 4 wlp_step. intros bits _. do 2 wlp_step. intros w _. by wlp_step. Qed.

Lemma handleCacheMiss_LRU_decides n v tag c s p bits :
  v_num_ways v = n -> (0 < n)%nat -> pp_lru_bits p !! c = Some bits -> lru_ok n bits ->
  wlp (handleCacheMiss_LRU v tag c s) (fun w p' => lru_decides v n tag s bits p w) p.
Proof.
  intros Hn Hpos Hb Hl. unfold handleCacheMiss_LRU. do 2 wlp_step. destruct (hasEmptyWay s) eqn:He.
  { wlp_step. eapply wlp_mono; [apply updateLRU_chunks|]. intros [] p' _. wlp_step. left. by apply empty_is_first. }
  apply full_is_full in He. destruct (pp_enable_replace p) eqn:Hen; cbn [negb].
  2:{ wlp_step. right. split; [done|]. left. auto. }
  wlp_step. apply wlp_pp_drand. wlp_step. apply wlp_pp_lrand. destruct (dltb _ (pp_sample_rate p)) eqn:Ed.
  2:{ wlp_step. right. split; [done|]. left. auto. }
  do 2 wlp_step. unfold at_ at 1. rewrite Hb. intros ? [= <-]. rewrite Hn. set (i := find_idx _ bits).
  destruct (lru_oldest n bits i Hl Hpos eq_refl) as (b & Hbi & Hold). do 2 wlp_step. intros _. do 2 wlp_step. intros x Hx.
  unfold at_ in Hx. destruct (s !! i) as [x'|] eqn:Hsi; [|done]. injection Hx as ->.
  assert (forall w, (w = i /\ (pp_scheme p = HybridCache -> both_fit v tag (w_tag x)) \/
      w = n /\ pp_scheme p = HybridCache /\ ~ both_fit v tag (w_tag x)) -> lru_decides v n tag s bits p w) as Hend.
  { intros w Hw. right. split; [done|]. right. split_and!; [done|done|]. exists i, x, b. auto. }
  case_bool_decide as Hs.
  - do 2 wlp_step. intros ok Hok. pose proof (fits_iff _ _ _ _ Hok) as Hfit. destruct ok.
    + wlp_step. eapply wlp_mono; [apply updateLRU_chunks|]. intros [] p' _. wlp_step. apply Hend. left. split; [done|]. intros _. by apply Hfit.
    + wlp_step. apply Hend. right. split_and!; [done|done|]. intros Hf. by apply Hfit in Hf.
  - wlp_step. eapply wlp_mono; [apply updateLRU_chunks|]. intros [] p' _. wlp_step. apply Hend. by left.
Qed.

(** The entries of chunk [c]. *)
Definition entries_at (c : nat) (p : PagePlacement) (es : list ChunkEntry) : Prop :=
  exists ci, pp_chunks p !! c = Some ci /\ ci_entries ci = es.

Section FbrDecides.
Context (n : nat) (v : McView) (tag : Address) (c : nat) (s : CacheSet).
Context (Hn : v_num_ways v = n).

Lemma fbr_compete_decides p es idx e vw victim : entries_at c p es -> es !! idx = Some e ->
  pickVictimWay v es = Ok vw -> es !! vw = Some victim ->
  wlp (fbr_compete v tag c idx es)
    (fun w p' => exists es', entries_at c p' es' /\
       let wins := ahead v p e victim /\ both_fit v tag (ce_tag victim) in
       (wins /\ w = vw /\ es' = <[vw := e]> (<[idx := victim]> es) \/ ~ wins /\ w = n /\ es' = es)) p.
Proof using Hn.
  intros (ci & Hci & Hes) He Hpick Hvic. unfold fbr_compete. do 4 wlp_step. intros _. do 2 wlp_step.
  rewrite Hpick. intros ? [= <-]. do 2 wlp_step. intros _. do 2 wlp_step. rewrite (at_ok _ _ _ He). intros ? [= <-].
  do 2 wlp_step. rewrite (at_ok _ _ _ Hvic). intros ? [= <-]. wlp_step.
  eapply wlp_mono with (P := fun ok p' => p' = p /\ (ok = true <-> ahead v p e victim /\ both_fit v tag (ce_tag victim))).
  - unfold ahead. fold (compareCounter v p e victim). destruct (compareCounter v p e victim).
    + wlp_step. intros ok Hok%fits_iff. split; [done|]. rewrite Hok. tauto.
    + wlp_step. split; [done|]. intuition done.
  - intros ok p' (-> & Hok). destruct ok.
    + wlp_step. eapply wlp_put_entries; [done|]. wlp_step. eexists. split; [|left; split; [by apply Hok|done]].
      eexists. split; [apply list_lookup_insert_eq; by eapply lookup_lt_Some|done].
    + wlp_step. exists es. split; [by exists ci|]. right. rewrite Hn. split; [|done]. intros Hw. by apply Hok in Hw.
Qed.

Lemma fbr_update_decides p es : pp_cfg_ok n p -> pp_at n c s p -> pp_policy p = FBR -> miss tag s -> entries_at c p es ->
  wlp (fbr_update v tag c s)
    (fun w p' => exists es', entries_at c p' es' /\
       if hasEmptyWay s then first_empty s w /\ counted (pp_max_count_size p) (<[w := mkCE true tag 0]> es) w es'
       else fbr_competes v n tag p es (pp_buffer p) w es') p.
Proof using Hn.
  intros Hcfg (ci & bits & Hci & Hbits & Hlru & Hs & Hck) Hpol Hmiss (ci' & Hci' & <-).
  assert (ci' = ci) as -> by congruence. specialize (Hck Hpol). destruct (Hcfg) as [Hways H32 Hmax _].
  assert (length (ci_entries ci) = pp_num_entries p) as Hlen.
  { destruct Hck as [Hk _]. pose proof (ko_entries _ _ _ _ Hk) as H. by rewrite length_fmap in H. }
  assert (2 <= pp_max_count_size p < 2 ^ 32 - 1) as Hm by lia.
  unfold fbr_update. do 3 wlp_step. set (p1 := pp_count_access p).
  eapply wlp_mono; [apply (getChunkEntry_decides v tag c p1 ci); cbn; [done|done|lia|done]|].
  intros idx p2 (es1 & b & Hed & ->). cbn [p1 pp_num_entries pp_buffer pp_count_access pp_set_stats] in Hed. rewrite Hn in Hed.
  assert (forall es, pp_chunks (pp_after p1 c ci es b) !! c = Some (mkCI es (ci_num_hits ci) (ci_num_misses ci))) as Hlook.
  { intros es. simpl. apply list_lookup_insert_eq. by eapply lookup_lt_Some. }
  do 2 wlp_step. cbn [pp_num_entries pp_max_count_size pp_after pp_set_chunks pp_set_buffer p1 pp_count_access pp_set_stats].
  pose proof (entry_decides_choice _ _ _ _ _ _ _ (proj2 Hways) Hed) as Hec.
  destruct (choice_on_miss n _ _ s (ci_entries ci) tag Hck Hmiss (proj1 Hmax) idx es1 Hec)
    as [[-> ->]|[(Hemp & -> & ->)|(Hemp & Hidx & Hck1 & Hkey)]].
  - rewrite Nat.eqb_refl. wlp_step. rewrite Hn. exists (ci_entries ci). split; [eexists; split; [apply Hlook|done]|].
    assert (hasEmptyWay s = false) as ->.
    { destruct (hasEmptyWay s) eqn:Hemp; [exfalso|done]. destruct (empty_way_entry _ _ _ _ (proj1 Hck) tag Hmiss Hemp) as [Hno Hfw].
      rewrite find_idx_fmap in Hfw. change (first_free (ci_entries ci) = getEmptyWay s) in Hfw.
      unfold hasEmptyWay in Hemp. apply Nat.ltb_lt in Hemp. inversion Hec as [i e He Hv Ht|i Hi|]; subst; [|lia|lia].
      apply lookup_lt_Some in He. lia. }
    exists (pp_num_entries p), (ci_entries ci). split; [done|]. by left.
  - rewrite Hemp. assert (getEmptyWay s < n)%nat as Hlt by (unfold hasEmptyWay in Hemp; apply Nat.ltb_lt in Hemp; lia).
    destruct (Nat.eqb_spec (getEmptyWay s) (pp_num_entries p)); [lia|].
    destruct (fill_ok n _ _ s (ci_entries ci) tag Hck Hmiss (proj1 Hmax) true Hemp) as [[_ Hcnt] (e & He & Hve)].
    wlp_step. eapply wlp_get_chunk; [apply Hlook|]. do 2 wlp_step. intros es2 Hb. cbn [ci_entries] in Hb.
    apply (bump_count_counted _ _ _ _ _ Hm Hcnt He Hve) in Hb as Hcount. wlp_step. eapply wlp_put_entries; [apply Hlook|].
    rewrite Hn. rewrite (proj2 (Nat.ltb_lt _ _) Hlt). do 2 wlp_step. intros _. do 3 wlp_step. exists es2.
    split; [|split; [by apply empty_is_first|done]]. eexists. cbn. rewrite list_insert_insert_eq.
    split; [apply list_lookup_insert_eq; by eapply lookup_lt_Some|done].
  - rewrite Hemp. destruct (Nat.eqb_spec idx (pp_num_entries p)); [lia|].
    pose proof (key_lookup_inv _ _ _ _ Hkey) as (e1 & He1 & Hve1 & _).
    destruct (bump_count_ok (pp_max_count_size p) es1 idx e1) as (es2 & Hb & Hkeys & Hc2); [lia|apply Hck1|done|done|].
    pose proof (bump_count_counted _ _ _ _ _ Hm (proj2 Hck1) He1 Hve1 Hb) as Hcount.
    wlp_step. eapply wlp_get_chunk; [apply Hlook|]. do 2 wlp_step. cbn [ci_entries]. rewrite Hb. intros ? [= <-].
    wlp_step. eapply wlp_put_entries; [apply Hlook|].
    assert ((getEmptyWay s <? v_num_ways v)%nat = false) as -> by (unfold hasEmptyWay in Hemp; by rewrite Hn, <- Hs).
    assert (chunk_ok n (pp_num_entries p) (pp_max_count_size p) s es2) as Hck2 by (by eapply chunk_ok_keys).
    destruct (pickVictimWay_ok n _ _ s es2 v Hck2 Hemp) as (vw & victim & Hpick & Hvw & Hvic & _ & Hmin); [lia|done|lia|].
    assert (is_Some (es2 !! idx)) as [e He].
    { destruct Hcount as [Hl _]. apply lookup_lt_is_Some. rewrite Hl. by eapply lookup_lt_Some. }
    eapply wlp_mono; [eapply (fbr_compete_decides _ es2 idx e vw victim); [|done|done|done]|].
    { eexists. cbn. rewrite list_insert_insert_eq. split; [apply list_lookup_insert_eq; by eapply lookup_lt_Some|done]. }
    intros w p' (es' & Hes' & Hw). exists es'. split; [done|]. exists idx, es1. split; [done|]. right. split; [done|].
    exists es2, e, vw, victim. split_and!; [done|done|done|done|done|exact Hw].
Qed.
End FbrDecides.

Lemma wlp_sampleOrNot v p p0 Q : pp_buffer p = pp_buffer p0 -> pp_sample_rate p = pp_sample_rate p0 ->
  (forall b : bool, (b = true <-> sampled v p0) -> Q b (pp_set_buffer (drawn (pp_buffer p)) p)) ->
  wlp (let (sample_rate, miss_rate_tune) := effective_rate v p in sampleOrNot v sample_rate miss_rate_tune) Q p.
Proof.
  intros Hb Hr HQ. unfold effective_rate, sampleOrNot. wlp_step. apply wlp_pp_drand. wlp_step. apply HQ.
  unfold sampled. rewrite Hb, Hr. destruct (deqb _ _); cbn [negb]; case_bool_decide as Hw;
    (destruct (Z.ltb_spec (v_num_requests v) (u64 (v_num_sets v * Z.of_nat (v_num_ways v) * 64 * 8))); [|try lia]); try done; lia.
Qed.

(** What [handleCacheMiss] decides, by its policy. *)
Definition miss_decides (v : McView) (n : nat) (tag : Address) (t : ReqType) (c : nat) (s : CacheSet) (p : PagePlacement)
    (w : nat) (p' : PagePlacement) : Prop :=
  match pp_policy p with
  | LRU => forall bits, pp_lru_bits p !! c = Some bits -> lru_decides v n tag s bits p w
  | FBR => forall es, entries_at c p es -> exists es', entries_at c p' es' /\ fbr_decides v n tag t s p es w es'
  end.

Lemma handleCacheMiss_decides n v tag t c s p :
  pp_cfg_ok n p -> pp_at n c s p -> v_num_ways v = n -> miss tag s ->
  wlp (handleCacheMiss v tag t c s) (fun r p' => miss_decides v n tag t c s p (fst r) p') p.
Proof.
  intros Hcfg Hat Hn Hmiss. destruct (Hat) as (ci & bits & Hci & Hbits & Hlru & Hs & Hck).
  unfold handleCacheMiss, miss_decides. do 3 wlp_step. eapply wlp_get_chunk; [done|]. do 4 wlp_step.
  set (ci1 := mkCI (ci_entries ci) (ci_num_hits ci) (u64 (ci_num_misses ci + 1))).
  set (p1 := pp_set_chunks (<[c:=ci1]> (pp_chunks p)) p).
  assert (pp_chunks p1 !! c = Some ci1) as Hci1 by (apply list_lookup_insert_eq; by eapply lookup_lt_Some).
  assert (entries_at c p1 (ci_entries ci)) as Hes1 by (by exists ci1).
  change (pp_policy p1) with (pp_policy p). destruct (pp_policy p) eqn:Hpol.
  - rewrite bool_decide_eq_true_2 by done. wlp_step.
    eapply wlp_mono; [apply (handleCacheMiss_LRU_decides n v tag c s p1 bits); [done|apply Hcfg|done|done]|].
    intros w p' Hw. wlp_step. intros bits' Hb'. assert (bits' = bits) as -> by congruence. exact Hw.
  - rewrite bool_decide_eq_false_2 by done. do 2 wlp_step. intros _. do 2 wlp_step. intros _.
    assert (forall w p', (exists es', entries_at c p' es' /\ fbr_decides v n tag t s p (ci_entries ci) w es') ->
      forall es, entries_at c p es -> exists es', entries_at c p' es' /\ fbr_decides v n tag t s p es w es') as Hend.
    { intros w p' Hw es (ci' & Hci' & <-). assert (ci' = ci) as -> by congruence. exact Hw. }
    case_bool_decide as Ht.
    { wlp_step. apply Hend. exists (ci_entries ci). split; [done|]. left. by rewrite Hn. }
    assert (t = LOAD) as -> by (by destruct t).
    assert (pp_cfg_ok n p1) as Hcfg1 by (by eapply pp_cfg_ok_eq; [|exact Hcfg]).
    assert (pp_at n c s p1) as Hat1 by (exists ci1, bits; split_and!; [done|exact Hbits|done|done|intros _; by apply Hck]).
    destruct (hasEmptyWay s) eqn:Hemp.
    + destruct (effective_rate v p1) as [rate tune]. do 3 wlp_step.
      eapply wlp_mono; [by apply (fbr_update_decides n v tag c s Hn p1 (ci_entries ci))|]. rewrite Hemp.
      intros w p' (es' & He' & Hw). wlp_step. apply Hend. exists es'. split; [done|]. right; left. done.
    + apply full_is_full in Hemp as Hfull. pose proof (wlp_sampleOrNot v p1 p) as Hso.
      destruct (effective_rate v p1) as [rate tune]. wlp_step. apply Hso; [done|done|]. intros b Hb. destruct b.
      * wlp_step. set (p2 := pp_set_buffer _ p1).
        assert (pp_cfg_ok n p2) as Hcfg2 by (by eapply pp_cfg_ok_eq; [|exact Hcfg1]).
        eapply wlp_mono; [by apply (fbr_update_decides n v tag c s Hn p2 (ci_entries ci))|]. rewrite Hemp.
        intros w p' (es' & He' & Hw). wlp_step. apply Hend. exists es'. split; [done|]. right; right; right.
        split_and!; [done|done|by apply Hb|exact Hw].
      * wlp_step. apply Hend. exists (ci_entries ci). split; [done|]. right; right; left.
        split_and!; [done|done|intros Hsa; by apply Hb in Hsa|by rewrite Hn|done].
Qed.

(** ** The claims *)

(** C10: the decision on a miss.  For a page that is not in the set,
    [handleCacheMiss] returns without a failing assertion, and its answer is the
    one of [miss_decides].  LRU: the first empty way; in a full set none if
    replacement is off or the draw is not below the rate, else the oldest way,
    unless under Banshee the tag buffer cannot take both pages.  FBR: none for a
    store, which changes no counter; the first empty way for a load; in a full set
    none if the load is not sampled; else the access is counted for the entry that
    the page has or takes, and the page replaces the cached page with the least
    count exactly if its own is ahead by half a page of sampled accesses and the tag
    buffer can take both.  The tables then describe the set with the page in that
    way, and otherwise the old set.  No other set's tables change. *)
Theorem miss_decision n v tag t c s p :
  pp_cfg_ok n p -> pp_at n c s p -> v_num_ways v = n -> view_ok v p -> miss tag s ->
  exists w ca p', handleCacheMiss v tag t c s p = Ok ((w, ca), p') /\
    miss_decides v n tag t c s p w p' /\
    pp_frame c p p' /\ (w <= n)%nat /\
    (w = n -> pp_at n c s p') /\
    ((w < n)%nat -> (forall d, pp_at n c (<[w := mkWay tag true d]> s) p') /\ victim_ok v p tag s w).
Proof.
  intros Hcfg Hat Hn Hv Hm.
  destruct (wp_ok _ _ _ (handleCacheMiss_ok n v tag t c s p Hcfg Hat Hn Hv Hm))
    as ([w ca] & p' & Hrun & [H1 H2 H3 H4 H5]). exists w, ca, p'.
  pose proof (handleCacheMiss_decides n v tag t c s p Hcfg Hat Hn Hm _ _ Hrun) as Hd. auto 10.
Qed.

(** On a hit [handleCacheHit] returns, its chunk entry for the page is the
    one of the hit way, and the tables keep describing the set. *)
Theorem hit_update n v tag c s hit_way w p :
  pp_cfg_ok n p -> pp_at n c s p -> v_num_ways v = n ->
  s !! hit_way = Some w -> w_valid w = true -> w_tag w = tag ->
  exists ca p', handleCacheHit v tag c s hit_way p = Ok (ca, p') /\ pp_frame c p p' /\ pp_at n c s p'.
Proof.
  intros H1 H2 H3 H4 H5 H6.
  destruct (wp_ok _ _ _ (handleCacheHit_ok n v tag c s hit_way w p H1 H2 H3 H4 H5 H6))
    as (ca & p' & Hrun & Hf & Ha). eauto.
Qed.

(** The bits after a touch, way by way. *)
Lemma touch_lookup n bits way w i b :
  lru_ok n bits -> bits !! way = Some w -> bits !! i = Some b -> Z.of_nat n < 2 ^ 32 ->
  <[way := 0]> (age_bits w <$> bits) !! i =
    Some (if decide (i = way) then 0 else if b <? w then b + 1 else b).
Proof.
  intros Hok Hw Hb Hn. destruct (decide (i = way)) as [->|Hne].
  - apply list_lookup_insert_eq. rewrite length_fmap. by eapply lookup_lt_Some.
  - rewrite list_lookup_insert_ne, list_lookup_fmap, Hb by done. csimpl. unfold age_bits.
    pose proof (lru_ok_range _ _ _ _ Hok Hb). destruct (b <? w); [|done].
    rewrite u32_id; [done|]. unfold in_u32. lia.
Qed.

(** The LRU bits of a set are always a permutation of [0 .. n-1];
    [updateLRU] gives the touched way rank 0 and keeps the order of all others. *)
Theorem lru_is_recency_order n bits way w :
  lru_ok n bits -> bits !! way = Some w -> Z.of_nat n < 2 ^ 32 ->
  let bits' := <[way := 0]> (age_bits w <$> bits) in
  lru_ok n bits' /\ bits' !! way = Some 0 /\
  forall i j bi bj bi' bj', i <> way -> j <> way ->
    bits !! i = Some bi -> bits !! j = Some bj ->
    bits' !! i = Some bi' -> bits' !! j = Some bj' -> bi < bj -> bi' < bj'.
Proof.
  intros Hok Hw Hn. cbv zeta. split_and!; [by apply lru_touch| |].
  - rewrite (touch_lookup n bits way w way w) by done. by rewrite decide_True.
  - intros i j bi bj bi' bj' Hi Hj Hbi Hbj Hi' Hj' Hlt.
    rewrite (touch_lookup n bits way w i bi), decide_False in Hi' by done.
    rewrite (touch_lookup n bits way w j bj), decide_False in Hj' by done. simplify_eq.
    assert (bi <> w) by (intros ->; apply Hi; eapply NoDup_lookup; eauto using lru_ok_NoDup).
    assert (bj <> w) by (intros ->; apply Hj; eapply NoDup_lookup; eauto using lru_ok_NoDup).
    destruct (Z.ltb_spec bi w), (Z.ltb_spec bj w); lia.
Qed.

(** Frequency-based replacement picks, in a full set, a cached page whose
    counter is minimal. *)
Theorem fbr_victim_minimal n ne maxc s es v :
  chunk_ok n ne maxc s es -> hasEmptyWay s = false -> maxc <= 10000 -> v_num_ways v = n ->
  (0 < n)%nat ->
  exists w e, pickVictimWay v es = Ok w /\ (w < n)%nat /\ es !! w = Some e /\
    forall k x, (k < n)%nat -> es !! k = Some x -> ce_count e <= ce_count x.
Proof.
  intros H1 H2 H3 H4 H5. destruct (pickVictimWay_ok n ne maxc s es v H1 H2 H3 H4 H5)
    as (w & e & ? & ? & ? & _ & ?). eauto 8.
Qed.

(** Counting an access keeps every counter of the chunk below the limit
    (an overflowing counter halves them all) and changes no entry's page. *)
Theorem counters_bounded maxc es idx e :
  2 <= maxc < 2 ^ 32 - 1 -> counts_ok maxc es -> es !! idx = Some e -> ce_valid e = true ->
  exists es', bump_count maxc es idx = Ok es' /\ key <$> es' = key <$> es /\ counts_ok maxc es'.
Proof. intros H1 H2 H3 H4. exact (bump_count_ok maxc es idx e H1 H2 H3 H4). Qed.

(** [initialize] establishes the tables' invariant over an empty cache. *)
Theorem initialize_establishes num_sets n gran scheme rate enable policy seed junk p cache :
  initialize num_sets n gran scheme rate enable policy seed junk = Ok p ->
  (0 < n)%nat -> (policy = FBR -> enable = true) -> length cache = Z.to_nat num_sets ->
  (forall c s, cache !! c = Some s -> length s = n /\ forall j w, s !! j = Some w -> w_valid w = false) ->
  pp_inv n cache p.
Proof. intros H1 H2 H3 H4 H5. by destruct (initialize_inv _ _ _ _ _ _ _ _ _ _ _ H1 H2 H3 H4 H5). Qed.

(** ** Concrete instances: one set of two ways *)
Definition demo_set : CacheSet := [mkWay 7 false false; mkWay 7 false false].
Definition demo_pp : PagePlacement :=
  match initialize 1 2 4096 HybridCache (dlit 1 1) true FBR 1 (fun _ _ => (0, 0)) with
  | Ok p => p
  | Err _ => mkPP LRU HybridCache 0 (dlit 1 1) 0 false 0 [] [] 0 0 0
  end.
Definition demo_view : McView :=
  mkView 2 1 4096 0 (dlit 1 1) (Some (TagBuffer_new 8 0)).

Lemma demo_set_invalid c s :
  [demo_set] !! c = Some s -> length s = 2%nat /\ forall j w, s !! j = Some w -> w_valid w = false.
Proof.
  intros Hc. destruct c as [|[]]; simplify_eq/=. split; [done|].
  intros j w Hw. destruct j as [|[|[]]]; by simplify_eq/=.
Qed.

Lemma initialize_establishes_witness : pp_inv 2 [demo_set] demo_pp.
Proof.
  apply (initialize_establishes 1 2 4096 HybridCache (dlit 1 1) true FBR 1 (fun _ _ => (0, 0)));
    [vm_compute; reflexivity|lia|done|done|exact demo_set_invalid].
Defined.

Lemma demo_pp_inv : pp_inv 2 [demo_set] demo_pp.
Proof.
  destruct (initialize_inv 1 2 4096 HybridCache (dlit 1 1) true FBR 1 (fun _ _ => (0, 0)) demo_pp [demo_set])
    as [H _]; [vm_compute; reflexivity|lia|done|done|exact demo_set_invalid|exact H].
Qed.

Lemma demo_view_ok : view_ok demo_view demo_pp.
Proof. split. intros _. eexists. split; [done|]. apply TagBuffer_new_inv. lia. Qed.

(** The first page goes to way 0. *)
Lemma miss_decision_witness :
  exists ca p', handleCacheMiss demo_view 7 LOAD 0 demo_set demo_pp = Ok ((0%nat, ca), p') /\
    pp_at 2 0 [mkWay 7 true false; mkWay 7 false false] p'.
Proof.
  destruct (miss_decision 2 demo_view 7 LOAD 0 demo_set demo_pp (pi_cfg _ _ _ demo_pp_inv)
    (pi_at _ _ _ demo_pp_inv 0%nat demo_set eq_refl) eq_refl demo_view_ok)
    as (w & ca & p' & Hrun & _ & _ & _ & _ & Hplace).
  - intros j x Hx Hv. destruct j as [|[|[]]]; simplify_eq/=.
  - assert (w = 0%nat) as ->.
    { assert (fst <$> match handleCacheMiss demo_view 7 LOAD 0 demo_set demo_pp with
                      | Ok (a, _) => Some a | Err _ => None end = Some 0%nat) as E
        by (vm_compute; reflexivity).
      rewrite Hrun in E. by injection E as ->. }
    exists ca, p'. split; [exact Hrun|]. exact (proj1 (Hplace ltac:(lia)) false).
Defined.

(** The state after that miss, and a hit on the page. *)
Definition demo_set1 : CacheSet := [mkWay 7 true false; mkWay 7 false false].
Definition demo_pp1 : PagePlacement :=
  match handleCacheMiss demo_view 7 LOAD 0 demo_set demo_pp with
  | Ok (_, p) => p | Err _ => demo_pp
  end.

Lemma demo_pp1_at : pp_cfg_ok 2 demo_pp1 /\ pp_at 2 0 demo_set1 demo_pp1.
Proof.
  assert (miss 7 demo_set) as Hm by (intros j x Hx Hv; destruct j as [|[|[]]]; simplify_eq/=).
  destruct (wp_ok _ _ _ (handleCacheMiss_ok 2 demo_view 7 LOAD 0 demo_set demo_pp
    (pi_cfg _ _ _ demo_pp_inv) (pi_at _ _ _ demo_pp_inv 0%nat demo_set eq_refl) eq_refl demo_view_ok Hm))
    as ([w ca] & p' & Hrun & [H1 _ _ H4 _]).
  assert (fst <$> match handleCacheMiss demo_view 7 LOAD 0 demo_set demo_pp with
                  | Ok (a, _) => Some a | Err _ => None end = Some 0%nat) as E
    by (vm_compute; reflexivity).
  rewrite Hrun in E. injection E as E. simpl in *. subst w.
  unfold demo_pp1. rewrite Hrun. split; [|exact (H4 ltac:(lia) false)].
  eapply pp_cfg_ok_eq; [apply H1|apply demo_pp_inv].
Qed.

Lemma hit_update_witness :
  exists ca p', handleCacheHit demo_view 7 0 demo_set1 0 demo_pp1 = Ok (ca, p') /\ pp_at 2 0 demo_set1 p'.
Proof.
  destruct demo_pp1_at as [Hc Ha].
  destruct (hit_update 2 demo_view 7 0 demo_set1 0 (mkWay 7 true false) demo_pp1 Hc Ha
    eq_refl eq_refl eq_refl eq_refl) as (ca & p' & H1 & _ & H2). by exists ca, p'.
Defined.

Lemma lru_is_recency_order_witness :
  lru_ok 3 (<[1%nat := 0]> (age_bits 2 <$> [1; 2; 0])).
Proof.
  refine (proj1 (lru_is_recency_order 3 [1; 2; 0] 1 2 _ eq_refl eq_refl)).
  unfold lru_ok. vm_compute. etrans; [apply Permutation_cons_append|]. apply Permutation_cons_append.
Defined.

Definition demo_es : list ChunkEntry := [mkCE true 7 4; mkCE true 8 3; mkCE true 9 1].

Lemma demo_chunk_ok : chunk_ok 2 3 31 [mkWay 7 true false; mkWay 8 true true] demo_es.
Proof.
  unfold demo_es, chunk_ok, key. split; [split|]; [done|done|lia|..].
  - intros j w b t Hw Hb. destruct j as [|[|j]]; simpl in *; by simplify_eq/=.
  - intros j w k b t Hw Hv. destruct j as [|[|j]]; simpl in *; by simplify_eq/=.
  - intros i j t Hi Hj.
    destruct i as [|[|[|i]]], j as [|[|[|j]]]; simpl in *; by simplify_eq/=.
  - intros i e He _. destruct i as [|[|[|i]]]; simpl in *; simplify_eq/=; lia.
Qed.

Lemma fbr_victim_minimal_witness :
  exists w e, pickVictimWay demo_view demo_es = Ok w /\ demo_es !! w = Some e.
Proof.
  destruct (fbr_victim_minimal 2 3 31 [mkWay 7 true false; mkWay 8 true true] demo_es demo_view
    demo_chunk_ok) as (w & e & H1 & _ & H2 & _); [reflexivity|lia|reflexivity|lia|]. by exists w, e.
Defined.

Lemma counters_bounded_witness : exists es', bump_count 5 demo_es 0 = Ok es' /\ counts_ok 5 es'.
Proof.
  destruct (counters_bounded 5 demo_es 0 (mkCE true 7 4)) as (es' & H1 & _ & H2);
    [lia| |done|done|by exists es'].
  intros i e He _. destruct i as [|[|[|[]]]]; simplify_eq/=; lia.
Defined.
