(* ===== verification/MemController.v ===== *)
(** * The memory controller with its DRAM cache
    (class [MemoryController] of [src/src/mc.h] and [src/src/mc.cpp]).

    One definition per stretch of [MemoryController::access], composed in the
    order of the source.  The state has the members that [access] reads or
    writes; the configuration has those that only the constructor writes. *)

From stdpp Require Import base list gmap strings.
From Stdlib Require Import ZArith Lia.
From S2P Require Import Prelude Numeric MemHierarchy TagBuffer Placement.
Local Open Scope Z_scope.

(** ** Data *)

(** [class TLBEntry] *)
Record TLBEntry := mkTLB {
  t_tag : Address;
  t_way : nat;
  t_count : Z;
  t_touch : Z;
  t_dirty : Z
}.

(** The statistics counters, one constructor per [Counter] member. *)
Inductive Ctr :=
| numPlacement | numCleanEviction | numDirtyEviction | numLoadHit | numLoadMiss
| numStoreHit | numStoreMiss | numCounterAccess | numTagLoad | numTagStore
| numTagBufferFlush | numTBDirtyHit | numTBDirtyMiss | numTouchedLines | numEvictedLines
| numNotTouchedLines | numTouchedPages.

#[export] Instance Ctr_eq_dec : EqDecision Ctr.
Proof. solve_decision. Defined.

(** The four per-step profile counters. *)
Record Prof := mkProf {
  num_hit_per_step : Z;
  num_miss_per_step : Z;
  mc_bw_per_step : Z;
  ext_bw_per_step : Z
}.

(** The trace of controller 0: the records not yet written, and the blocks
    written to the trace file. *)
Record Trace := mkTrace {
  tr_buf : list (Address * Z);
  tr_file : list (list (Address * Z))
}.

(** What the constructor fixes.  [c_collect_trace] is
    [_collect_trace && _name == "mem-0"]. *)
Record McConfig := mkCfg {
  c_scheme : Scheme;
  c_granularity : Z;
  c_num_ways : nat;
  c_cache_size : Z;
  c_num_sets : Z;
  c_mcdram_per_mc : Z;
  c_footprint_size : Z;
  c_bw_balance : bool;
  c_sram_tag : bool;
  c_llc_latency : Z;
  c_os_quantum : Z;
  c_collect_trace : bool
}.

Record MC (D : Type) := mkMC {
  mc_lock : bool;
  mc_trace : Trace;
  mc_num_requests : Z;
  mc_cache : list CacheSet;
  mc_tlb : gmap Z TLBEntry;
  mc_tag_buffer : option TagBuffer;
  mc_page : option PagePlacement;
  mc_line : option LinePlacement;
  mc_next_evict_idx : nat;
  mc_ds_index : Z;
  mc_prof : Prof;
  mc_stats : Ctr -> Z;
  mc_mem : D
}.
Arguments mkMC {D}.
Arguments mc_lock {D}.
Arguments mc_trace {D}.
Arguments mc_num_requests {D}.
Arguments mc_cache {D}.
Arguments mc_tlb {D}.
Arguments mc_tag_buffer {D}.
Arguments mc_page {D}.
Arguments mc_line {D}.
Arguments mc_next_evict_idx {D}.
Arguments mc_ds_index {D}.
Arguments mc_prof {D}.
Arguments mc_stats {D}.
Arguments mc_mem {D}.

Section Setters.
Context {D : Type}.
Implicit Types s : MC D.

Definition set_lock x s := mkMC x (mc_trace s) (mc_num_requests s) (mc_cache s) (mc_tlb s)
  (mc_tag_buffer s) (mc_page s) (mc_line s) (mc_next_evict_idx s) (mc_ds_index s) (mc_prof s)
  (mc_stats s) (mc_mem s).
Definition set_trace x s := mkMC (mc_lock s) x (mc_num_requests s) (mc_cache s) (mc_tlb s)
  (mc_tag_buffer s) (mc_page s) (mc_line s) (mc_next_evict_idx s) (mc_ds_index s) (mc_prof s)
  (mc_stats s) (mc_mem s).
Definition set_num_requests x s := mkMC (mc_lock s) (mc_trace s) x (mc_cache s) (mc_tlb s)
  (mc_tag_buffer s) (mc_page s) (mc_line s) (mc_next_evict_idx s) (mc_ds_index s) (mc_prof s)
  (mc_stats s) (mc_mem s).
Definition set_cache x s := mkMC (mc_lock s) (mc_trace s) (mc_num_requests s) x (mc_tlb s)
  (mc_tag_buffer s) (mc_page s) (mc_line s) (mc_next_evict_idx s) (mc_ds_index s) (mc_prof s)
  (mc_stats s) (mc_mem s).
Definition set_tlb x s := mkMC (mc_lock s) (mc_trace s) (mc_num_requests s) (mc_cache s) x
  (mc_tag_buffer s) (mc_page s) (mc_line s) (mc_next_evict_idx s) (mc_ds_index s) (mc_prof s)
  (mc_stats s) (mc_mem s).
Definition set_tag_buffer x s := mkMC (mc_lock s) (mc_trace s) (mc_num_requests s) (mc_cache s)
  (mc_tlb s) x (mc_page s) (mc_line s) (mc_next_evict_idx s) (mc_ds_index s) (mc_prof s)
  (mc_stats s) (mc_mem s).
Definition set_page x s := mkMC (mc_lock s) (mc_trace s) (mc_num_requests s) (mc_cache s)
  (mc_tlb s) (mc_tag_buffer s) x (mc_line s) (mc_next_evict_idx s) (mc_ds_index s) (mc_prof s)
  (mc_stats s) (mc_mem s).
Definition set_line x s := mkMC (mc_lock s) (mc_trace s) (mc_num_requests s) (mc_cache s)
  (mc_tlb s) (mc_tag_buffer s) (mc_page s) x (mc_next_evict_idx s) (mc_ds_index s) (mc_prof s)
  (mc_stats s) (mc_mem s).
Definition set_next_evict_idx x s := mkMC (mc_lock s) (mc_trace s) (mc_num_requests s) (mc_cache s)
  (mc_tlb s) (mc_tag_buffer s) (mc_page s) (mc_line s) x (mc_ds_index s) (mc_prof s)
  (mc_stats s) (mc_mem s).
Definition set_ds_index x s := mkMC (mc_lock s) (mc_trace s) (mc_num_requests s) (mc_cache s)
  (mc_tlb s) (mc_tag_buffer s) (mc_page s) (mc_line s) (mc_next_evict_idx s) x (mc_prof s)
  (mc_stats s) (mc_mem s).
Definition set_prof x s := mkMC (mc_lock s) (mc_trace s) (mc_num_requests s) (mc_cache s)
  (mc_tlb s) (mc_tag_buffer s) (mc_page s) (mc_line s) (mc_next_evict_idx s) (mc_ds_index s) x
  (mc_stats s) (mc_mem s).
Definition set_stats x s := mkMC (mc_lock s) (mc_trace s) (mc_num_requests s) (mc_cache s)
  (mc_tlb s) (mc_tag_buffer s) (mc_page s) (mc_line s) (mc_next_evict_idx s) (mc_ds_index s)
  (mc_prof s) x (mc_mem s).
Definition set_mem (x : D) s := mkMC (mc_lock s) (mc_trace s) (mc_num_requests s) (mc_cache s)
  (mc_tlb s) (mc_tag_buffer s) (mc_page s) (mc_line s) (mc_next_evict_idx s) (mc_ds_index s)
  (mc_prof s) (mc_stats s) x.
End Setters.

(** [_tlb\[tag\]]: a missing entry is value-initialised. *)
Definition tlb_at (tlb : gmap Z TLBEntry) (tag : Address) : TLBEntry :=
  default (mkTLB 0 0 0 0 0) (tlb !! tag).
Definition tlb_set_way (tag : Address) (way : nat) (tlb : gmap Z TLBEntry) : gmap Z TLBEntry :=
  let e := tlb_at tlb tag in
  <[tag := mkTLB (t_tag e) way (t_count e) (t_touch e) (t_dirty e)]> tlb.
Definition tlb_set_vecs (tag : Address) (touch dirty : Z) (tlb : gmap Z TLBEntry) : gmap Z TLBEntry :=
  let e := tlb_at tlb tag in
  <[tag := mkTLB (t_tag e) (t_way e) (t_count e) touch dirty]> tlb.

(** The decoded address of a request: the locals [address], [mcdram_select],
    [mc_address], [tag] and [set_num]. *)
Record Loc := mkLoc {
  l_addr : Address;
  l_chan : nat;
  l_mc_addr : Address;
  l_tag : Address;
  l_set : nat
}.

Definition decode_addr (cfg : McConfig) (address : Address) : res Loc :=
  match umod (address / 64) (c_mcdram_per_mc cfg),
        udiv (address / 64) (c_mcdram_per_mc cfg),
        udiv address (c_granularity cfg / 64) with
  | Ok sel, Ok q, Ok tag =>
      match umod tag (c_num_sets cfg) with
      | Ok set_num =>
          Ok (mkLoc address (Z.to_nat sel) (Z.lor (u64 (q * 64)) (address mod 64)) tag
                (Z.to_nat set_num))
      | Err e => Err e
      end
  | Err e, _, _ => Err e
  | _, Err e, _ => Err e
  | _, _, Err e => Err e
  end.

(** [MemoryController::getRecentMissRate] *)
Definition getRecentMissRate (p : Prof) : double :=
  ddiv (dbl_of_Z (num_miss_per_step p))
    (dbl_of_Z (u64 (num_miss_per_step p + num_hit_per_step p))).

(** [MemoryController::getRecentBWRatio] *)
Definition getRecentBWRatio (p : Prof) : double :=
  if 0 <? u64 (mc_bw_per_step p + ext_bw_per_step p)
  then ddiv (dmul (dlit 1 1) (dbl_of_Z (mc_bw_per_step p)))
         (dbl_of_Z (u64 (mc_bw_per_step p + ext_bw_per_step p)))
  else dlit 1 10000000.

(** [MemoryController::transMCAddress] and [transMCAddressPage] *)
Definition transMCAddress (mc_addr : Address) : Address :=
  let num_lines_per_mc := 128 * 1024 * 1024 / 2048 * 28 in
  let set := mc_addr mod num_lines_per_mc in
  set / 28 * 32 + set mod 28.
Definition transMCAddressPage (cfg : McConfig) (set_num way_num : Z) : Address :=
  u64 (u64 (Z.of_nat (c_num_ways cfg) * set_num + way_num) * c_granularity cfg).

(** ** [MemoryController::access], stretch by stretch *)
Section Access.
Context {D : Type} `{MemSys D} (cfg : McConfig).

Local Abbreviation ways := (c_num_ways cfg).
Local Abbreviation scheme_is sch := (bool_decide (c_scheme cfg = sch)).

(** [counter.inc(n)] *)
Definition inc_by (c : Ctr) (n : Z) : M (MC D) unit :=
  modify (fun s => set_stats
    (fun c' => if decide (c' = c) then u64 (mc_stats s c + n) else mc_stats s c') s).
Definition inc (c : Ctr) : M (MC D) unit := inc_by c 1.

(** [_mc_bw_per_step += n] and [_ext_bw_per_step += n] *)
Definition mc_bw (n : Z) : M (MC D) unit :=
  modify (fun s => let p := mc_prof s in
    set_prof (mkProf (num_hit_per_step p) (num_miss_per_step p)
                (u64 (mc_bw_per_step p + n)) (ext_bw_per_step p)) s).
Definition ext_bw (n : Z) : M (MC D) unit :=
  modify (fun s => let p := mc_prof s in
    set_prof (mkProf (num_hit_per_step p) (num_miss_per_step p)
                (mc_bw_per_step p) (u64 (ext_bw_per_step p + n))) s).
Definition count_hit : M (MC D) unit :=
  modify (fun s => let p := mc_prof s in
    set_prof (mkProf (u64 (num_hit_per_step p + 1)) (num_miss_per_step p)
                (mc_bw_per_step p) (ext_bw_per_step p)) s).
Definition count_miss : M (MC D) unit :=
  modify (fun s => let p := mc_prof s in
    set_prof (mkProf (num_hit_per_step p) (u64 (num_miss_per_step p + 1))
                (mc_bw_per_step p) (ext_bw_per_step p)) s).

(** [futex_lock(&_lock)] / [futex_unlock(&_lock)] of the only thread in the
    controller: taking a held lock never returns. *)
Definition lock_mc : M (MC D) unit :=
  s <- get ;; if (mc_lock s : bool) then fail Deadlock else modify (set_lock true).
Definition unlock_mc : M (MC D) unit := modify (set_lock false).

(** [dram->access(r, kind, size)] for a request of the controller's own; the
    response cycle. *)
Definition dram (id : dram_id) (r : MemReq) (kind size : Z) : M (MC D) Z :=
  s <- get ;;
  let! ((_, c), d) := lift (dram_access id r kind size (mc_mem s)) in
  modify (set_mem d) ;; ret c.

(** [req.lineAddr = a; req.cycle = dram->access(req, kind, size);
     req.lineAddr = address;] *)
Definition dram_req (id : dram_id) (a : Address) (req : MemReq) (kind size : Z) : M (MC D) MemReq :=
  s <- get ;;
  let! ((st, c), d) := lift (dram_access id (with_addr a req) kind size (mc_mem s)) in
  modify (set_mem d) ;; ret (with_cycle c (with_state st req)).

Definition get_set (n : nat) : M (MC D) CacheSet :=
  s <- get ;; lift (at_ (mc_cache s) n).
Definition get_way (n w : nat) : M (MC D) Way :=
  cs <- get_set n ;; lift (at_ cs w).
Definition put_way (n w : nat) (x : Way) : M (MC D) unit :=
  cs <- get_set n ;;
  _ <- lift (at_ cs w) ;;
  modify (fun s => set_cache (<[n := <[w := x]> cs]> (mc_cache s)) s).

(** Computations of the tag buffer and the policies, on the controller's
    pointers to them. *)
Definition on_tb {A} (m : M TagBuffer A) : M (MC D) A :=
  s <- get ;;
  match mc_tag_buffer s with
  | None => fail NullDeref
  | Some tb => let! (a, tb') := lift (m tb) in modify (set_tag_buffer (Some tb')) ;; ret a
  end.
Definition ask_tb {A} (f : TagBuffer -> res A) : M (MC D) A :=
  s <- get ;;
  match mc_tag_buffer s with None => fail NullDeref | Some tb => lift (f tb) end.
Definition on_page {A} (m : M PagePlacement A) : M (MC D) A :=
  s <- get ;;
  match mc_page s with
  | None => fail NullDeref
  | Some p => let! (a, p') := lift (m p) in modify (set_page (Some p')) ;; ret a
  end.
Definition on_line {A} (m : M LinePlacement A) : M (MC D) A :=
  s <- get ;;
  match mc_line s with
  | None => fail NullDeref
  | Some p => let! (a, p') := lift (m p) in modify (set_line (Some p')) ;; ret a
  end.

(** What the policies see of the controller. *)
Definition view_of (s : MC D) : McView :=
  mkView ways (c_num_sets cfg) (c_granularity cfg) (mc_num_requests s)
    (getRecentMissRate (mc_prof s)) (mc_tag_buffer s).

(** Lines 194-206: the trace of controller 0. *)
Definition max_trace_len : Z := 10000.
Definition record_trace (req : MemReq) : M (MC D) unit :=
  when (c_collect_trace cfg)
    (s <- get ;;
     let tr := mc_trace s in
     let buf := tr_buf tr ++ [(lineAddr req, if bool_decide (type req = PUTX) then 1 else 0)] in
     assert_ "mc.cpp:198" (Z.of_nat (length buf) <=? max_trace_len) ;;
     modify (set_trace
       (if Z.of_nat (length buf) =? max_trace_len
        then mkTrace [] (tr_file tr ++ [buf]) else mkTrace buf (tr_file tr)))).

(** Lines 250-300: page-granularity schemes.  The TLB says whether the page is
    cached; Unison reads tag and data, Banshee consults the tag buffer for dirty
    evictions.  Returns the request, the hit way and [hybrid_tag_probe]. *)
Definition probe_tlb (l : Loc) : M (MC D) nat :=
  s <- get ;;
  when (bool_decide (mc_tlb s !! l_tag l = None))
    (modify (set_tlb (<[l_tag l := mkTLB (l_tag l) ways 0 0 0]> (mc_tlb s))) ;;
     inc numTouchedPages) ;;
  s <- get ;;
  let way := t_way (tlb_at (mc_tlb s) (l_tag l)) in
  if negb (way =? ways)%nat then
    w <- get_way (l_set l) way ;;
    assert_ "mc.cpp:257" (w_valid w && (w_tag w =? l_tag l)) ;;
    ret way
  else
    when (negb (scheme_is Tagless))
      (cs <- get_set (l_set l) ;;
       assert_ "mc.cpp:270"
         (forallb (fun w => negb (w_tag w =? l_tag l) || negb (w_valid w)) cs)) ;;
    ret ways.

Definition probe_unison (l : Loc) (t : ReqType) (req : MemReq) : M (MC D) MemReq :=
  match t with
  | LOAD =>
      req <- dram_req (McDram (l_chan l)) (l_mc_addr l) req 0 6 ;;
      mc_bw 6 ;; inc numTagLoad ;; ret req
  | STORE =>
      c <- dram (McDram (l_chan l)) (derived_req req (l_mc_addr l) GETS (cycle req)) 0 2 ;;
      mc_bw 2 ;; inc numTagLoad ;; ret (with_cycle c req)
  end.

Definition probe_hybrid (l : Loc) (t : ReqType) : M (MC D) bool :=
  match t with
  | LOAD => ret false
  | STORE =>
      way <- ask_tb (existInTB (l_tag l)) ;;
      nw <- ask_tb (fun tb => Ok (tb_num_ways tb)) ;;
      s <- get ;;
      if ((way =? nw)%nat && (mc_ds_index s <=? Z.of_nat (l_set l)))%bool then
        inc numTBDirtyMiss ;; ret (negb (c_sram_tag cfg))
      else inc numTBDirtyHit ;; ret false
  end.

Definition probe_page (l : Loc) (t : ReqType) (req : MemReq) : M (MC D) (MemReq * nat * bool) :=
  hit_way <- probe_tlb l ;;
  req <- (if scheme_is UnisonCache then probe_unison l t req else ret req) ;;
  probe <- (if scheme_is HybridCache then probe_hybrid l t else ret false) ;;
  let req := if scheme_is HybridCache && c_sram_tag cfg
             then with_cycle (u64 (cycle req + c_llc_latency cfg)) req else req in
  ret (req, hit_way, probe).

(** Lines 301-327: Alloy, one line per set, tag and data fetched together. *)
Definition probe_line (l : Loc) (t : ReqType) (req : MemReq) : M (MC D) (MemReq * nat * bool) :=
  assert_ "mc.cpp:302" (scheme_is AlloyCache) ;;
  w <- get_way (l_set l) 0 ;;
  s <- get ;;
  let active := mc_ds_index s <=? Z.of_nat (l_set l) in
  let hit_way := if w_valid w && (w_tag w =? l_tag l) && active then 0%nat else ways in
  req <- (if bool_decide (t = LOAD) && active then
            if (c_sram_tag cfg : bool) then ret (with_cycle (u64 (cycle req + c_llc_latency cfg)) req)
            else
              req <- dram_req (McDram (l_chan l)) (l_mc_addr l) req 0 6 ;;
              mc_bw 6 ;; inc numTagLoad ;; ret req
          else ret req) ;;
  ret (req, hit_way, false).

(** Lines 344-359: the replacement decision of each scheme. *)
Definition choose_way (l : Loc) (t : ReqType) : M (MC D) (nat * bool) :=
  s <- get ;;
  let active := mc_ds_index s <=? Z.of_nat (l_set l) in
  match c_scheme cfg with
  | AlloyCache =>
      place <- (if active then w <- get_way (l_set l) 0 ;; on_line (lp_handleCacheMiss w)
                else ret false) ;;
      ret (if (place : bool) then 0%nat else 1%nat, false)
  | HMA => ret (ways, false)
  | Tagless =>
      let i := mc_next_evict_idx s in
      n <- lift (umod (Z.of_nat i + 1) (Z.of_nat ways)) ;;
      modify (set_next_evict_idx (Z.to_nat n)) ;;
      ret (i, false)
  | _ =>
      if active then
        cs <- get_set (l_set l) ;;
        on_page (handleCacheMiss (view_of s) (l_tag l) t (l_set l) cs)
      else ret (ways, false)
  end.

(** Lines 361-413: the missing data comes from external DRAM.  Returns the
    request and [data_ready_cycle]. *)
Definition ext_load (l : Loc) (t : ReqType) (probe : bool) (replace_way : nat) (req : MemReq)
    (ready : Z) : M (MC D) (MemReq * Z) :=
  s <- get ;;
  let active := mc_ds_index s <=? Z.of_nat (l_set l) in
  let from_ext kind :=
    req <- dram_req ExtDram (lineAddr req) req kind 4 ;; ext_bw 4 ;; ret (req, cycle req) in
  match c_scheme cfg with
  | AlloyCache =>
      match t with
      | LOAD => from_ext (if negb (c_sram_tag cfg) && active then 1 else 0)
      | STORE =>
          if (ways <=? replace_way)%nat then from_ext 0
          else
            c <- dram ExtDram (derived_req req (l_addr l) GETS (cycle req)) 0 4 ;;
            ext_bw 4 ;; ret (with_cycle c req, c)
      end
  | HMA | Tagless => from_ext 0
  | UnisonCache =>
      match t with
      | LOAD => from_ext 1
      | STORE => if (ways <=? replace_way)%nat then from_ext 1 else ret (req, cycle req)
      end
  | HybridCache =>
      if probe then
        c <- dram (McDram (l_chan l)) (derived_req req (l_mc_addr l) GETS (cycle req)) 0 2 ;;
        mc_bw 2 ;;
        req <- dram_req ExtDram (lineAddr req) (with_cycle c req) 1 4 ;;
        ext_bw 4 ;; inc numTagLoad ;; ret (req, cycle req)
      else from_ext 0
  | NoCache | CacheOnly => ret (req, ready)
  end.

(** Lines 418-447: the traffic of bringing the page (or line) in. *)
Definition fill_traffic (l : Loc) (req : MemReq) : M (MC D) unit :=
  let mcd := McDram (l_chan l) in
  let own a t := derived_req req a t (cycle req) in
  match c_scheme cfg with
  | AlloyCache =>
      let size := if (c_sram_tag cfg : bool) then 4 else 6 in
      dram mcd (own (l_mc_addr l) PUTX) 2 size ;; mc_bw size ;; inc numTagStore
  | UnisonCache | HybridCache | Tagless =>
      let access_size := if scheme_is HybridCache then u32 (c_granularity cfg / 64)
                         else c_footprint_size cfg in
      let size := u32 (access_size * 4) in
      let page := u64 (l_tag l * 64) in
      dram ExtDram (own page GETS) 2 size ;; ext_bw size ;;
      dram mcd (own (l_mc_addr l) PUTX) 2 size ;; mc_bw size ;;
      (if scheme_is Tagless then
         dram ExtDram (own page GETS) 2 2 ;; dram ExtDram (own page PUTS) 2 2 ;; ext_bw 4
       else when (negb (c_sram_tag cfg))
         (dram mcd (own (l_mc_addr l) PUTX) 2 2 ;; mc_bw 2)) ;;
      inc numTagStore
  | _ => ret tt
  end.

(** [bit = address - tag * 64; assert(bit < 64); bit = 1UL << bit;] and the
    update of the page's touch and dirty vectors (lines 549-558 with
    [fresh = true], 613-618, 631-636, 646-652 and 669-674 otherwise). *)
Definition touch_line (w : string) (fresh : bool) (l : Loc) (t : ReqType) : M (MC D) unit :=
  let bit := u64 (l_addr l - l_tag l * 64) in
  assert_ w (bit <? 64) ;;
  modify (fun s =>
    let e := tlb_at (mc_tlb s) (l_tag l) in
    let touch := if fresh then 0 else t_touch e in
    let dirty := if fresh then 0 else t_dirty e in
    let mask := Z.shiftl 1 bit in
    set_tlb (tlb_set_vecs (l_tag l) (Z.lor touch mask)
               (if bool_decide (t = STORE) then Z.lor dirty mask else dirty) (mc_tlb s)) s).

Definition is_page_cache : bool :=
  scheme_is UnisonCache || scheme_is Tagless || scheme_is HybridCache.

(** Lines 488-543: the write-back of a replaced page or line.  Alloy's load may
    move [req.cycle]. *)
Definition writeback (l : Loc) (t : ReqType) (old : Way) (dirty_lines : Z) (cur_cycle : Z)
    (req : MemReq) : M (MC D) MemReq :=
  let mcd := McDram (l_chan l) in
  let own a ty := derived_req req a ty cur_cycle in
  if w_dirty old then
    inc numDirtyEviction ;;
    match c_scheme cfg with
    | AlloyCache =>
        req' <- (if bool_decide (t = STORE) && c_sram_tag cfg then
                   c <- dram mcd (own (l_mc_addr l) GETS) 2 4 ;;
                   mc_bw 4 ;; ret (with_cycle c req)
                 else ret req) ;;
        dram ExtDram (own (w_tag old) PUTX) 2 4 ;; ext_bw 4 ;; ret req'
    | HybridCache =>
        let size := u32 (c_granularity cfg / 64 * 4) in
        dram mcd (own (l_mc_addr l) GETS) 2 size ;; mc_bw size ;;
        dram ExtDram (own (u64 (w_tag old * 64)) PUTX) 2 size ;; ext_bw size ;; ret req
    | UnisonCache | Tagless =>
        let size := u32 (dirty_lines * 4) in
        assert_ "mc.cpp:517" (0 <? dirty_lines) ;;
        assert_ "mc.cpp:519" (dirty_lines <=? 64) ;;
        dram mcd (own (l_mc_addr l) GETS) 2 size ;; mc_bw size ;;
        dram ExtDram (own (u64 (w_tag old * 64)) PUTX) 2 size ;; ext_bw size ;;
        when (scheme_is Tagless)
          (let page := u64 (l_tag l * 64) in
           dram ExtDram (derived_req req page GETS (cycle req)) 2 2 ;;
           dram ExtDram (derived_req req page PUTS (cycle req)) 2 2 ;; ext_bw 4) ;;
        ret req
    | _ => ret req
    end
  else
    inc numCleanEviction ;;
    when (scheme_is UnisonCache || scheme_is Tagless)
      (assert_ "mc.cpp:542" (dirty_lines =? 0)) ;;
    ret req.

(** Lines 456-472: Banshee remaps the two pages in the tag buffer. *)
Definition remap_pair (tag replaced : Address) : M (MC D) unit :=
  ok <- ask_tb (canInsert2 tag replaced) ;;
  assert_ "mc.cpp:464" ok ;;
  on_tb (tb_insert tag true) ;;
  on_tb (tb_insert replaced true).

(** Lines 451-544: a valid way is replaced. *)
Definition evict (l : Loc) (t : ReqType) (old : Way) (cur_cycle : Z) (req : MemReq)
    : M (MC D) MemReq :=
  let replaced := w_tag old in
  when (scheme_is HybridCache) (remap_pair (l_tag l) replaced) ;;
  modify (fun s => set_tlb (tlb_set_way replaced ways (mc_tlb s)) s) ;;
  s <- get ;;
  let e := tlb_at (mc_tlb s) replaced in
  let dirty_lines := popcountll (t_dirty e) in
  let touch_lines := popcountll (t_touch e) in
  let untouch_lines := u32 (c_granularity cfg / 64 - touch_lines) in
  when is_page_cache
    (assert_ "mc.cpp:480" (0 <? touch_lines) ;;
     assert_ "mc.cpp:481" (touch_lines <=? 64) ;;
     assert_ "mc.cpp:482" (dirty_lines <=? 64) ;;
     inc_by numTouchedLines touch_lines ;;
     inc_by numEvictedLines dirty_lines ;;
     inc_by numNotTouchedLines untouch_lines) ;;
  writeback l t old dirty_lines cur_cycle req.

(** Lines 545-558: the new page or line takes the way. *)
Definition install (l : Loc) (t : ReqType) (way : nat) (req : MemReq) : M (MC D) unit :=
  put_way (l_set l) way (mkWay (l_tag l) true (bool_decide (type req = PUTX))) ;;
  modify (fun s => set_tlb (tlb_set_way (l_tag l) way (mc_tlb s)) s) ;;
  when is_page_cache (touch_line "mc.cpp:551" true l t).

(** [if (type == LOAD && _tag_buffer->canInsert(tag)) _tag_buffer->insert(tag, false);] *)
Definition remember_load (l : Loc) (t : ReqType) : M (MC D) unit :=
  when (bool_decide (t = LOAD))
    (ok <- ask_tb (canInsert (l_tag l)) ;;
     when ok (on_tb (tb_insert (l_tag l) false))).

(** Lines 416-565: replacement, or a miss without one. *)
Definition replace (l : Loc) (t : ReqType) (way : nat) (cur_cycle : Z) (req : MemReq)
    : M (MC D) MemReq :=
  if (way <? ways)%nat then
    fill_traffic l req ;;
    inc numPlacement ;;
    old <- get_way (l_set l) way ;;
    req <- (if w_valid old then evict l t old cur_cycle req else ret req) ;;
    install l t way req ;; ret req
  else
    when (scheme_is HybridCache) (remember_load l t) ;;
    assert_ "mc.cpp:564" (negb (scheme_is Tagless)) ;;
    ret req.

(** Lines 335-565: a miss.  Returns the request, [data_ready_cycle] and
    [counter_access]. *)
Definition on_miss (l : Loc) (t : ReqType) (probe : bool) (req : MemReq) (ready : Z)
    : M (MC D) (MemReq * Z * bool) :=
  let cur_cycle := cycle req in
  count_miss ;;
  inc (match t with LOAD => numLoadMiss | STORE => numStoreMiss end) ;;
  let! (way, counter_access) := choose_way l t in
  let! (req, ready) := ext_load l t probe way req ready in
  req <- replace l t way cur_cycle req ;;
  ret (req, ready, counter_access).

(** Lines 568-587: Alloy and Unison write hits, Alloy read hits with an SRAM tag. *)
Definition hit_first (l : Loc) (t : ReqType) (req : MemReq) (ready : Z) : M (MC D) (MemReq * Z) :=
  let mcd := McDram (l_chan l) in
  let own ty := derived_req req (l_mc_addr l) ty (cycle req) in
  req <- (match c_scheme cfg, t with
          | AlloyCache, LOAD =>
              if (c_sram_tag cfg : bool) then
                c <- dram mcd (own GETX) 0 4 ;; mc_bw 4 ;; ret (with_cycle c req)
              else ret req
          | AlloyCache, STORE =>
              c <- dram mcd (own PUTX) 0 4 ;; mc_bw 4 ;; ret (with_cycle c req)
          | UnisonCache, STORE =>
              c <- dram mcd (own PUTX) 1 4 ;; mc_bw 4 ;; ret (with_cycle c req)
          | _, _ => ret req
          end) ;;
  ret (req, if scheme_is AlloyCache || scheme_is UnisonCache then cycle req else ready).

(** Lines 589-601: the policy sees the hit; a store marks the way dirty. *)
Definition hit_policy (l : Loc) (t : ReqType) (hit_way : nat) (req : MemReq) : M (MC D) bool :=
  counter_access <-
    (if scheme_is HybridCache || scheme_is UnisonCache then
       s <- get ;;
       cs <- get_set (l_set l) ;;
       on_page (handleCacheHit (view_of s) (l_tag l) (l_set l) cs hit_way)
     else ret false) ;;
  (if bool_decide (type req = PUTX) then
     inc numStoreHit ;;
     w <- get_way (l_set l) hit_way ;;
     put_way (l_set l) hit_way (mkWay (w_tag w) (w_valid w) true)
   else inc numLoadHit) ;;
  ret counter_access.

(** Lines 603-675: the data access and the line vectors. *)
Definition hit_data (l : Loc) (t : ReqType) (probe : bool) (req : MemReq) (ready : Z)
    : M (MC D) (MemReq * Z) :=
  let mcd := McDram (l_chan l) in
  match c_scheme cfg with
  | HybridCache =>
      if (probe : bool) then
        assert_ "mc.cpp:620" (negb (c_sram_tag cfg)) ;;
        c <- dram mcd (derived_req req (l_mc_addr l) GETS (cycle req)) 0 2 ;;
        mc_bw 2 ;; inc numTagLoad ;;
        req <- dram_req mcd (l_mc_addr l) (with_cycle c req) 1 4 ;;
        mc_bw 4 ;;
        touch_line "mc.cpp:632" false l t ;;
        ret (req, cycle req)
      else
        req <- dram_req mcd (l_mc_addr l) req 0 4 ;;
        mc_bw 4 ;;
        remember_load l t ;;
        touch_line "mc.cpp:614" false l t ;;
        ret (req, cycle req)
  | Tagless =>
      req <- dram_req mcd (l_mc_addr l) req 0 4 ;;
      mc_bw 4 ;;
      touch_line "mc.cpp:648" false l t ;;
      ret (req, cycle req)
  | HMA =>
      req <- dram_req mcd (l_mc_addr l) req 0 4 ;;
      mc_bw 4 ;; ret (req, cycle req)
  | UnisonCache =>
      dram mcd (derived_req req (l_mc_addr l) PUTX (cycle req)) 2 2 ;;
      mc_bw 2 ;; inc numTagStore ;;
      touch_line "mc.cpp:670" false l t ;;
      ret (req, ready)
  | _ => ret (req, ready)
  end.

(** Lines 566-677: a hit. *)
Definition on_hit (l : Loc) (t : ReqType) (hit_way : nat) (probe : bool) (req : MemReq) (ready : Z)
    : M (MC D) (MemReq * Z * bool) :=
  s <- get ;;
  assert_ "mc.cpp:567" (mc_ds_index s <=? Z.of_nat (l_set l)) ;;
  let! (req, ready) := hit_first l t req ready in
  count_hit ;;
  counter_access <- hit_policy l t hit_way req ;;
  let! (req, ready) := hit_data l t probe req ready in
  ret (req, ready, counter_access).

(** Lines 680-692: the counters live in the in-package DRAM. *)
Definition counter_traffic (l : Loc) (counter_access : bool) (req : MemReq) : M (MC D) unit :=
  when (counter_access && negb (c_sram_tag cfg))
    (s <- get ;;
     assert_ "mc.cpp:684" (mc_ds_index s <=? Z.of_nat (l_set l)) ;;
     inc numCounterAccess ;;
     dram (McDram (l_chan l)) (derived_req req (l_mc_addr l) GETS (cycle req)) 2 2 ;;
     dram (McDram (l_chan l)) (derived_req req (l_mc_addr l) PUTX (cycle req)) 2 2 ;;
     mc_bw 4).

(** [_tag_buffer->clearTagBuffer(); _tag_buffer->setClearTime(req.cycle);
     _numTagBufferFlush.inc();] *)
Definition flush_tb (req : MemReq) : M (MC D) unit :=
  on_tb (modify clearTagBuffer) ;;
  on_tb (modify (setClearTime (cycle req))) ;;
  inc numTagBufferFlush.

(** Lines 693-698: Banshee flushes a tag buffer that is 70% full of remaps. *)
Definition maybe_flush (req : MemReq) : M (MC D) unit :=
  when (scheme_is HybridCache)
    (occ <- ask_tb (fun tb => Ok (getOccupancy tb)) ;;
     when (dltb (dlit 7 10) occ) (flush_tb req)).

(** Lines 702-705 *)
Definition os_remap : M (MC D) unit :=
  when (scheme_is HMA)
    (s <- get ;;
     r <- lift (umod (mc_num_requests s) (c_os_quantum cfg)) ;;
     when (r =? 0) (inc_by numPlacement (u64 (remapPages * 2)))).

(** Lines 737-762: one way leaves the cache.  [mc] is the channel that is read. *)
Definition flush_way (req : MemReq) (mc set way : nat) : M (MC D) unit :=
  meta <- get_way set way ;;
  let size := u32 (c_granularity cfg / 64 * 4) in
  let own := derived_req req (u64 (w_tag meta * 64)) GETS (cycle req) in
  when (w_valid meta && w_dirty meta)
    (dram (McDram mc) own 2 size ;;
     dram ExtDram own 2 size ;;
     ext_bw size ;; mc_bw size) ;;
  when (scheme_is HybridCache && w_valid meta)
    (modify (fun s => set_tlb (tlb_set_way (w_tag meta) ways (mc_tlb s)) s) ;;
     ok <- ask_tb (canInsert (w_tag meta)) ;;
     when (negb ok) (flush_tb req) ;;
     ok <- ask_tb (canInsert (w_tag meta)) ;;
     assert_ "mc.cpp:757" ok ;;
     on_tb (tb_insert (w_tag meta) true)) ;;
  put_way set way (mkWay (w_tag meta) false false).

(** Lines 735-765 for one set. *)
Definition flush_set (req : MemReq) (mc set : nat) : M (MC D) unit :=
  forM (seq 0 ways) (flush_way req mc set) ;;
  when (scheme_is HybridCache) (on_page (flushChunk set)).

(** Lines 734-766: the sets [\[_ds_index, _ds_index + delta_index)], cut at
    [_num_sets], once per channel. *)
Definition flush_sets (req : MemReq) (lo hi : Z) : M (MC D) unit :=
  let n := Z.to_nat (Z.min hi (c_num_sets cfg) - lo) in
  forM (seq 0 (Z.to_nat (c_mcdram_per_mc cfg))) (fun mc =>
    forM (seq (Z.to_nat lo) n) (flush_set req mc)).

(** Lines 715-727: [delta_index]. *)
Definition delta_index (p : Prof) : Z :=
  let ratio := ddiv (dmul (dlit 1 1) (dbl_of_Z (mc_bw_per_step p)))
                 (dbl_of_Z (u64 (mc_bw_per_step p + ext_bw_per_step p))) in
  let target_ratio := dlit 8 10 in
  let index_step := c_num_sets cfg / 1000 in
  let gap := dsub ratio target_ratio in
  if dltb (dlit (-2) 100) gap && dltb gap (dlit 2 100) then 0
  else dbl_to_i64 (ddiv (dmul (dbl_of_Z index_step) gap) (dlit 1 100)).

(** Line 768 *)
Definition next_ds_index (ds delta : Z) : Z :=
  if i64 (i64 ds + delta) <=? 0 then 0 else u64 (ds + delta).

Definition halve_prof (p : Prof) : Prof :=
  mkProf (num_hit_per_step p / 2) (num_miss_per_step p / 2)
    (mc_bw_per_step p / 2) (ext_bw_per_step p / 2).

(** Lines 707-771: at the end of a step the profile decays, and the boundary
    [_ds_index] of the active sets moves with the bandwidth ratio. *)
Definition rebalance (req : MemReq) : M (MC D) unit :=
  s <- get ;;
  r <- lift (umod (mc_num_requests s) (c_cache_size cfg / 64 / 10)) ;;
  when (r =? 0)
    (modify (fun s => set_prof (halve_prof (mc_prof s)) s) ;;
     s <- get ;;
     when (c_bw_balance cfg && (0 <? u64 (mc_bw_per_step (mc_prof s) + ext_bw_per_step (mc_prof s))))
       (let delta := delta_index (mc_prof s) in
        let ds := mc_ds_index s in
        when (0 <? delta) (flush_sets req ds (u64 (ds + delta))) ;;
        modify (set_ds_index (next_ds_index ds delta)))).

(** Lines 245-777 for the schemes with a cache. *)
Definition access_cached (req : MemReq) : M (MC D) (Z * MESIState) :=
  let t := if IsGet (type req) then LOAD else STORE in
  l <- lift (decode_addr cfg (lineAddr req)) ;;
  let ready := cycle req in
  let! (req, hit_way, probe) :=
    if 4096 <=? c_granularity cfg then probe_page l t req else probe_line l t req in
  let! (req, ready, counter_access) :=
    if negb (hit_way =? ways)%nat then on_hit l t hit_way probe req ready
    else on_miss l t probe req ready in
  counter_traffic l counter_access req ;;
  maybe_flush req ;;
  os_remap ;;
  rebalance req ;;
  ret (ready, state req).

(** [MemoryController::access]: the response cycle and the state granted. *)
Definition access (req0 : MemReq) : M (MC D) (Z * MESIState) :=
  let req := with_state (granted_state req0) req0 in
  if bool_decide (type req = PUTS) then ret (cycle req, state req) else
  lock_mc ;;
  record_trace req ;;
  modify (fun s => set_num_requests (u64 (mc_num_requests s + 1)) s) ;;
  r <- (match c_scheme cfg with
        | NoCache =>
            req <- dram_req ExtDram (lineAddr req) req 0 4 ;;
            inc numLoadHit ;; ret (cycle req, state req)
        | CacheOnly =>
            l <- lift (decode_addr cfg (lineAddr req)) ;;
            req <- dram_req (McDram (l_chan l)) (l_mc_addr l) req 0 4 ;;
            inc numLoadHit ;; ret (cycle req, state req)
        | _ => access_cached req
        end) ;;
  unlock_mc ;;
  ret r.
End Access.

(** ** Construction *)

(** The configuration keys the constructor reads, already looked up in the
    configuration file (an external library parses it). *)
Record McParams := mkParams {
  p_name : string;
  p_enableTrace : bool;
  p_sram_tag : bool;
  p_llc_latency : Z;
  p_cache_scheme : string;
  p_ext_type : string;
  p_granularity : Z;
  p_num_ways : nat;
  p_mcdram_type : string;
  p_size_mb : Z;
  p_footprint_size : Z;
  p_bwBalance : bool;
  p_mcdramPerMC : Z;
  p_tag_buffer_size : Z;
  p_policy : RepScheme;
  p_sample_rate : double;
  p_enable_replace : bool
}.

(** Members and arrays that the constructor leaves as the allocator delivers
    them, and the values of [rand()]. *)
Record Uninit := mkUninit {
  un_lock : bool;
  un_os_quantum : Z;
  un_next_evict_idx : nat;
  un_clear_time : Z;
  un_way : nat -> nat -> Address * bool;
  un_entry : nat -> nat -> Address * Z;
  un_rand : Z
}.

(** Lines 36-65: the scheme's name and its constraints. *)
Definition parse_scheme (pr : McParams) (cache_size : Z) : res Scheme :=
  let g := p_granularity pr in
  let name := p_cache_scheme pr in
  if String.eqb name "AlloyCache" then
    if negb (g =? 64) then Err (AssertFail "mc.cpp:38")
    else if negb (p_num_ways pr =? 1)%nat then Err (AssertFail "mc.cpp:39")
    else Ok AlloyCache
  else if String.eqb name "UnisonCache" then
    if negb (g =? 4096) then Err (AssertFail "mc.cpp:42") else Ok UnisonCache
  else if String.eqb name "HMA" then
    if negb (g =? 4096) then Err (AssertFail "mc.cpp:46")
    else match udiv cache_size g with
         | Ok q => if Z.of_nat (p_num_ways pr) =? q then Ok HMA
                   else Err (AssertFail "mc.cpp:47")
         | Err e => Err e
         end
  else if String.eqb name "HybridCache" then
    if (g =? 4096) || (g =? 4096 * 512) then Ok HybridCache
    else Err (AssertFail "mc.cpp:51")
  else if String.eqb name "NoCache" then Ok NoCache
  else if String.eqb name "CacheOnly" then Ok CacheOnly
  else if String.eqb name "Tagless" then Ok Tagless
  else Err (AssertFail "mc.cpp:64").

(** The device types of lines 75-98 and 108-134; any other name panics. *)
Definition known_type (n : string) : bool :=
  existsb (String.eqb n) ["Simple"; "DDR"; "MD1"; "DRAMSim"]%string.

(** [_num_sets = _cache_size / _num_ways / _granularity] *)
Definition set_count (cache_size : Z) (num_ways : nat) (granularity : Z) : res Z :=
  match udiv cache_size (Z.of_nat num_ways) with
  | Ok q => udiv q granularity
  | Err e => Err e
  end.

Definition empty_cache (num_sets : nat) (num_ways : nat) (un : Uninit) : list CacheSet :=
  (fun i => (fun j => mkWay (fst (un_way un i j)) false (snd (un_way un i j))) <$> seq 0 num_ways)
  <$> seq 0 num_sets.

Definition zero_prof : Prof := mkProf 0 0 0 0.

(** [MemoryController::MemoryController]: configuration and initial state.
    The DRAM devices [d] are built by their own constructors.  With [NoCache]
    the members from the cache's configuration are never read. *)
Definition MemoryController_new {D} (pr : McParams) (un : Uninit) (d : D)
    : res (McConfig * MC D) :=
  let cache_size := u32 (p_size_mb pr * 1024 * 1024) in
  let trace := p_enableTrace pr && String.eqb (p_name pr) "mem-0" in
  match parse_scheme pr cache_size with
  | Err e => Err e
  | Ok scheme =>
    if p_bwBalance pr && negb (bool_decide (scheme = AlloyCache) || bool_decide (scheme = HybridCache))
    then Err (AssertFail "mc.cpp:71")
    else if negb (known_type (p_ext_type pr)) then Err (Panic "mc.cpp:98")
    else
    let cfg num_sets :=
      mkCfg scheme (p_granularity pr) (p_num_ways pr) cache_size num_sets (p_mcdramPerMC pr)
        (p_footprint_size pr) (p_bwBalance pr) (p_sram_tag pr) (p_llc_latency pr)
        (un_os_quantum un) trace in
    let start cache tb page line :=
      mkMC (if trace then false else un_lock un) (mkTrace [] []) 0 cache ∅ tb page line
        (if bool_decide (scheme = Tagless) then 0%nat else un_next_evict_idx un)
        0 zero_prof (fun _ => 0) d in
    if bool_decide (scheme = NoCache) then Ok (cfg 0, start [] None None None) else
    if (0 <? p_mcdramPerMC pr) && negb (known_type (p_mcdram_type pr))
    then Err (Panic "mc.cpp:134") else
    match set_count cache_size (p_num_ways pr) (p_granularity pr) with
    | Err e => Err e
    | Ok num_sets =>
      if bool_decide (scheme = Tagless) && negb (num_sets =? 1)
      then Err (AssertFail "mc.cpp:139") else
      let cache := empty_cache (Z.to_nat num_sets) (p_num_ways pr) un in
      let line := if bool_decide (scheme = AlloyCache)
                  then Some (lp_initialize (un_rand un) (p_sample_rate pr) (p_enable_replace pr))
                  else None in
      let tb := if bool_decide (scheme = HybridCache)
                then Some (TagBuffer_new (p_tag_buffer_size pr) (un_clear_time un)) else None in
      if bool_decide (scheme = UnisonCache) || bool_decide (scheme = HybridCache) then
        match initialize num_sets (p_num_ways pr) (p_granularity pr) scheme (p_sample_rate pr)
                (p_enable_replace pr) (p_policy pr) (un_rand un) (un_entry un) with
        | Ok pp => Ok (cfg num_sets, start cache tb (Some pp) line)
        | Err e => Err e
        end
      else Ok (cfg num_sets, start cache tb None line)
    end
  end.
