(* ===== verification/MemControllerProofs.v ===== *)
(** * The memory controller never fails, and keeps its tables consistent

    The proof follows the stretches of [access].  A stretch that only talks to
    the DRAM devices and counts is "quiet": it keeps every table of the
    controller and moves the request's timing record from closed to open.  The
    stretches that change tables are specified one by one against the
    invariant [mc_inv]. *)

From stdpp Require Import base list gmap strings.
From Stdlib Require Import ZArith Lia.
From S2P Require Import Prelude Numeric MemHierarchy TagBuffer Placement PlacementProofs MemController.
Local Open Scope Z_scope.

(** ** What a configuration must satisfy

    These are the checks of the constructor, and the four it does not make: a
    Tagless or Banshee cache of 4KB pages, a Unison cache with LRU, a step
    that is not empty, and an OS quantum that is set. *)
Definition has_cache (cfg : McConfig) : Prop :=
  c_scheme cfg <> NoCache /\ c_scheme cfg <> CacheOnly.

Record cfg_ok (cfg : McConfig) : Prop := {
  co_sets : 0 < c_num_sets cfg;
  co_ways : (0 < c_num_ways cfg)%nat;
  co_channels : 0 < c_mcdram_per_mc cfg;
  co_alloy : c_scheme cfg = AlloyCache -> c_granularity cfg = 64 /\ c_num_ways cfg = 1%nat;
  co_page : c_scheme cfg <> AlloyCache -> c_granularity cfg = 4096;
  co_step : 0 < c_cache_size cfg / 64 / 10;
  co_quantum : c_scheme cfg = HMA -> c_os_quantum cfg <> 0;
  co_balance : c_bw_balance cfg = true -> c_scheme cfg = AlloyCache \/ c_scheme cfg = HybridCache
}.

Section Proofs.
Context {D : Type} `{MemSysLaws D} (cfg : McConfig) (others : Z -> Prop).
Local Abbreviation ways := (c_num_ways cfg).
Local Abbreviation nsets := (c_num_sets cfg).
Implicit Types (s : MC D) (l : Loc).

(** ** Quiet computations *)

(** Everything but the profile, the statistics and the devices. *)
Definition core (s : MC D) :=
  (mc_lock s, mc_trace s, mc_num_requests s, mc_cache s, mc_tlb s, mc_tag_buffer s, mc_page s,
   mc_line s, mc_next_evict_idx s, mc_ds_index s).

Lemma core_cache s s' : core s' = core s -> mc_cache s' = mc_cache s.
Proof. unfold core. congruence. Qed.
Lemma core_tlb s s' : core s' = core s -> mc_tlb s' = mc_tlb s.
Proof. unfold core. congruence. Qed.
Lemma core_tb s s' : core s' = core s -> mc_tag_buffer s' = mc_tag_buffer s.
Proof. unfold core. congruence. Qed.
Lemma core_ds s s' : core s' = core s -> mc_ds_index s' = mc_ds_index s.
Proof. unfold core. congruence. Qed.

(** [quiet P Q R m]: from devices in [P], [m] returns a value in [R], leaves
    devices in [Q] and the tables as they are. *)
Definition quiet {A} (P Q : D -> Prop) (R : A -> Prop) (m : M (MC D) A) : Prop :=
  forall s, P (mc_mem s) -> wp m (fun a s' => R a /\ core s' = core s /\ Q (mc_mem s')) s.

Definition any {A} (_ : A) : Prop := True.

Lemma quiet_ret {A} P (R : A -> Prop) a : R a -> quiet P P R (ret a).
Proof. intros Ha s Hs. by apply wp_ret. Qed.

Lemma quiet_bind {A B} P Q T (R : A -> Prop) (R' : B -> Prop) m f :
  quiet P Q R m -> (forall a, R a -> quiet Q T R' (f a)) -> quiet P T R' (bind m f).
Proof.
  intros Hm Hf s Hs. apply wp_bind. eapply wp_mono; [by apply Hm|].
  intros a s1 (Ha & Hc & Hq). eapply wp_mono; [by apply Hf|].
  intros b s2 (Hb & Hc2 & Hq2). split_and!; [done|congruence|done].
Qed.

Lemma quiet_when P (b : bool) m :
  (b = true -> quiet P P any m) -> quiet P P any (when b m).
Proof. destruct b; simpl; intros Hm; [by apply Hm|by apply quiet_ret]. Qed.

Lemma quiet_assert P w b : b = true -> quiet P P any (assert_ w b).
Proof. intros -> s Hs. by apply wp_ret. Qed.

Lemma quiet_inc P c : quiet P P any (inc c).
Proof. intros s Hs. by apply wp_modify. Qed.
Lemma quiet_inc_by P c n : quiet P P any (inc_by c n).
Proof. intros s Hs. by apply wp_modify. Qed.
Lemma quiet_mc_bw P n : quiet P P any (mc_bw n).
Proof. intros s Hs. by apply wp_modify. Qed.
Lemma quiet_ext_bw P n : quiet P P any (ext_bw n).
Proof. intros s Hs. by apply wp_modify. Qed.
Lemma quiet_count_hit P : quiet P P any count_hit.
Proof. intros s Hs. by apply wp_modify. Qed.
Lemma quiet_count_miss P : quiet P P any count_miss.
Proof. intros s Hs. by apply wp_modify. Qed.

(** The request's own record is closed or open; those of the sources in
    [others] stay closed. *)
Definition rest (src : Z) (d : D) : Prop :=
  forall src', src' <> src -> others src' -> idle d src'.
Definition idle_ (src : Z) (d : D) : Prop := idle d src /\ rest src d.
Definition opened_ (src : Z) (d : D) : Prop := opened d src /\ rest src d.

Lemma rest_step src (d d' : D) :
  (forall src', src' <> src -> idle d src' -> idle d' src') -> rest src d -> rest src d'.
Proof. unfold rest. auto. Qed.

(** The fields of a request that the controller's later steps depend on. *)
Definition same_req (r r' : MemReq) : Prop :=
  srcId r' = srcId r /\ type r' = type r /\ lineAddr r' = lineAddr r.

Lemma same_req_refl r : same_req r r.
Proof. done. Qed.
Lemma same_req_trans r1 r2 r3 : same_req r1 r2 -> same_req r2 r3 -> same_req r1 r3.
Proof. intros (? & ? & ?) (? & ? & ?). split_and!; congruence. Qed.
Lemma same_req_cycle c r : same_req r (with_cycle c r).
Proof. done. Qed.

Lemma quiet_open id r size src :
  srcId r = src -> type r <> PUTS -> Z.even size = true ->
  quiet (idle_ src) (opened_ src) any (dram id r 0 size).
Proof.
  intros <- Ht He s [Hs Hre].
  destruct (dram_open id r size _ Hs Ht He) as (st & c & d & Hd & Ho & Hfr).
  unfold dram. apply wp_bind, wp_get, wp_bind. eapply wp_lift; [done|].
  apply wp_bind, wp_modify, wp_ret. split_and!; [done|done|split; [done|by eapply rest_step]].
Qed.

Lemma quiet_append id r kind size src :
  srcId r = src -> kind = 1 \/ kind = 2 -> Z.even size = true ->
  quiet (opened_ src) (opened_ src) any (dram id r kind size).
Proof.
  intros <- Hk He s [Hs Hre].
  destruct (dram_append id r kind size _ Hs Hk He) as (st & c & d & Hd & Ho & Hfr).
  unfold dram. apply wp_bind, wp_get, wp_bind. eapply wp_lift; [done|].
  apply wp_bind, wp_modify, wp_ret. split_and!; [done|done|split; [done|by eapply rest_step]].
Qed.

Lemma quiet_open_req id a r size src :
  srcId r = src -> type r <> PUTS -> Z.even size = true ->
  quiet (idle_ src) (opened_ src) (same_req r) (dram_req id a r 0 size).
Proof.
  intros <- Ht He s [Hs Hre].
  destruct (dram_open id (with_addr a r) size _ Hs Ht He) as (st & c & d & Hd & Ho & Hfr).
  unfold dram_req. apply wp_bind, wp_get, wp_bind. eapply wp_lift; [done|].
  apply wp_bind, wp_modify, wp_ret. split_and!; [done|done|split; [done|by eapply rest_step]].
Qed.

Lemma quiet_append_req id a r kind size src :
  srcId r = src -> kind = 1 \/ kind = 2 -> Z.even size = true ->
  quiet (opened_ src) (opened_ src) (same_req r) (dram_req id a r kind size).
Proof.
  intros <- Hk He s [Hs Hre].
  destruct (dram_append id (with_addr a r) kind size _ Hs Hk He) as (st & c & d & Hd & Ho & Hfr).
  unfold dram_req. apply wp_bind, wp_get, wp_bind. eapply wp_lift; [done|].
  apply wp_bind, wp_modify, wp_ret. split_and!; [done|done|split; [done|by eapply rest_step]].
Qed.

(** [m]'s effect on the state is irrelevant to what follows. *)
Lemma wp_quiet {A} P Q (R : A -> Prop) m K s :
  quiet P Q R m -> P (mc_mem s) ->
  (forall a s', R a -> core s' = core s -> Q (mc_mem s') -> K a s') -> wp m K s.
Proof. intros Hm Hs HK. eapply wp_mono; [by apply Hm|]. intros a s' (? & ? & ?). by apply HK. Qed.

Lemma even_u32_4 z : Z.even (u32 (z * 4)) = true.
Proof.
  unfold u32. apply Z.even_spec. exists ((z * 2) mod 2 ^ 31).
  replace (z * 4) with (2 * (z * 2)) by lia. change (2 ^ 32) with (2 * 2 ^ 31).
  rewrite Zmult_mod_distr_l. lia.
Qed.

Ltac quiet_side :=
  first [reflexivity | apply even_u32_4 | by left | by right | congruence | done | idtac].
Ltac quiet_tac :=
  cbv zeta;
  lazymatch goal with
  | |- quiet _ _ _ (bind _ _) => eapply quiet_bind; [quiet_tac|intros ? ?; cbv beta; quiet_tac]
  | |- quiet _ _ _ (ret _) => apply quiet_ret; try done
  | |- quiet _ _ _ (when _ _) => apply quiet_when; intros ?; quiet_tac
  | |- quiet _ _ _ (assert_ _ _) => apply quiet_assert
  | |- quiet _ _ _ (inc _) => apply quiet_inc
  | |- quiet _ _ _ (inc_by _ _) => apply quiet_inc_by
  | |- quiet _ _ _ (mc_bw _) => apply quiet_mc_bw
  | |- quiet _ _ _ (ext_bw _) => apply quiet_ext_bw
  | |- quiet (idle_ ?src) _ _ (dram _ _ 0 _) => apply (quiet_open _ _ _ src); quiet_side
  | |- quiet (opened_ ?src) _ _ (dram _ _ _ _) => apply (quiet_append _ _ _ _ src); quiet_side
  | |- quiet (idle_ ?src) _ _ (dram_req _ _ _ 0 _) => apply (quiet_open_req _ _ _ _ src); quiet_side
  | |- quiet (opened_ ?src) _ _ (dram_req _ _ _ _ _) => apply (quiet_append_req _ _ _ _ _ src); quiet_side
  | |- quiet _ _ _ (if ?b then _ else _) => destruct b eqn:?; quiet_tac
  | |- quiet _ _ _ (match ?x with _ => _ end) => destruct x eqn:?; quiet_tac
  | |- _ => idtac
  end.

(** Step over a quiet computation in state whose devices satisfy [Hp]. *)
Ltac quiet_next Hp := eapply wp_quiet; [|exact Hp|]; [quiet_tac|].

(** ** The invariant *)

Definition is_page : bool := is_page_cache cfg.
Definition tracks_dirty : Prop := c_scheme cfg = UnisonCache \/ c_scheme cfg = Tagless.

(** The cached page at set [i], way [j]. *)
Definition cached (cache : list CacheSet) (i j : nat) (w : Way) : Prop :=
  exists cs, cache !! i = Some cs /\ cs !! j = Some w.

(** The line vectors of a cached page: at least one line was touched, and for
    the schemes that write back by line, the way is dirty exactly when some
    line is. *)
Record vecs_ok (w : Way) (e : TLBEntry) : Prop := {
  vk_touch : in_u64 (t_touch e) /\ t_touch e <> 0;
  vk_dirty : in_u64 (t_dirty e);
  vk_exact : tracks_dirty -> (w_dirty w = true <-> t_dirty e <> 0)
}.

Record cache_ok (cache : list CacheSet) (ds : Z) : Prop := {
  ck_sets : length cache = Z.to_nat nsets;
  ck_ways : forall i cs, cache !! i = Some cs -> length cs = ways;
  ck_ds : in_u64 ds;
  ck_fixed : c_bw_balance cfg = false -> ds = 0;
  (** only active sets hold data *)
  ck_active : forall i j w, cached cache i j w -> w_valid w = true -> ds <= Z.of_nat i
}.

(** The TLB and the cache are inverse to each other. *)
Record tlb_ok (cache : list CacheSet) (tlb : gmap Z TLBEntry) : Prop := {
  tk_cached : forall t e, tlb !! t = Some e -> t_way e <> ways ->
    exists w, cached cache (Z.to_nat (t mod nsets)) (t_way e) w /\ w_valid w = true /\ w_tag w = t;
  tk_listed : forall i j w, cached cache i j w -> w_valid w = true ->
    Z.of_nat i = w_tag w mod nsets /\
    exists e, tlb !! w_tag w = Some e /\ t_way e = j /\ (is_page = true -> vecs_ok w e)
}.

(** The structures behind the controller's pointers. *)
Record policy_ok (cache : list CacheSet) (s : MC D) : Prop := {
  po_line : c_scheme cfg = AlloyCache -> exists lp, mc_line s = Some lp;
  po_next : c_scheme cfg = Tagless -> (mc_next_evict_idx s < ways)%nat;
  po_tb : c_scheme cfg = HybridCache -> exists tb, mc_tag_buffer s = Some tb /\ tb_inv tb;
  po_page : c_scheme cfg = UnisonCache \/ c_scheme cfg = HybridCache ->
    exists p, mc_page s = Some p /\ pp_inv ways cache p /\ pp_scheme p = c_scheme cfg /\
      (pp_policy p = FBR -> c_scheme cfg = HybridCache)
}.

Record tables_ok (s : MC D) : Prop := {
  to_cache : cache_ok (mc_cache s) (mc_ds_index s);
  to_tlb : c_scheme cfg <> AlloyCache -> tlb_ok (mc_cache s) (mc_tlb s);
  to_policy : policy_ok (mc_cache s) s
}.

(** The invariant between two accesses. *)
Record mc_inv (s : MC D) : Prop := {
  mi_lock : mc_lock s = false;
  mi_trace : Z.of_nat (length (tr_buf (mc_trace s))) < max_trace_len;
  mi_tables : has_cache cfg -> tables_ok s
}.

Lemma policy_ok_core cache s s' : core s' = core s -> policy_ok cache s -> policy_ok cache s'.
Proof.
  unfold core. intros Hc [H1 H2 H3 H4]. simplify_eq.
  split; intros.
  - destruct H1 as [lp ?]; [done|]. exists lp. congruence.
  - replace (mc_next_evict_idx s') with (mc_next_evict_idx s) by congruence. auto.
  - destruct H3 as (tb & ? & ?); [done|]. exists tb. split; congruence.
  - destruct H4 as (p & ? & ? & ?); [done|]. exists p. split; [congruence|done].
Qed.

Lemma tables_ok_core s s' : core s' = core s -> tables_ok s -> tables_ok s'.
Proof.
  intros Hc [H1 H2 H3]. split; rewrite ?(core_cache _ _ Hc), ?(core_ds _ _ Hc), ?(core_tlb _ _ Hc);
    [done|done|by eapply policy_ok_core].
Qed.

(** The decoded address of a request. *)
Record loc_ok (l : Loc) : Prop := {
  lo_set : Z.of_nat (l_set l) = l_tag l mod nsets;
  lo_tag : 0 <= l_tag l;
  lo_bit : c_scheme cfg <> AlloyCache -> 0 <= l_addr l - l_tag l * 64 < 64
}.

Lemma decode_addr_ok (Hcfg : cfg_ok cfg) address :
  0 <= address -> exists l, decode_addr cfg address = Ok l /\ loc_ok l /\ l_addr l = address.
Proof.
  intros Ha. destruct Hcfg as [Hs Hw Hm Hal Hpg _ _ _].
  assert (0 < c_granularity cfg / 64) as Hg.
  { destruct (decide (c_scheme cfg = AlloyCache)) as [E|E];
      [destruct (Hal E) as [-> _]; reflexivity|rewrite (Hpg E); reflexivity]. }
  unfold decode_addr, umod, udiv.
  destruct (Z.eqb_spec (c_mcdram_per_mc cfg) 0); [lia|].
  destruct (Z.eqb_spec (c_granularity cfg / 64) 0); [lia|].
  destruct (Z.eqb_spec nsets 0); [lia|].
  eexists. split_and!; [done| |done]. split; cbn [l_set l_tag l_addr].
  - rewrite Z2Nat.id; [done|]. apply Z.mod_pos_bound. lia.
  - apply Z.div_pos; lia.
  - intros E. rewrite (Hpg E). change (4096 / 64) with 64.
    pose proof (Z.div_mod address 64). pose proof (Z.mod_pos_bound address 64). lia.
Qed.

Lemma loc_set_lt l : 0 < nsets -> loc_ok l -> (l_set l < Z.to_nat nsets)%nat.
Proof. intros Hs [Hl _ _]. pose proof (Z.mod_pos_bound (l_tag l) nsets). lia. Qed.

Lemma loc_set_eq l : 0 < nsets -> loc_ok l -> Z.to_nat (l_tag l mod nsets) = l_set l.
Proof. intros Hs [Hl _ _]. rewrite <- Hl. lia. Qed.

(** The set of a request exists. *)
Lemma cache_set l (s : MC D) :
  0 < nsets -> loc_ok l -> cache_ok (mc_cache s) (mc_ds_index s) ->
  exists cs, mc_cache s !! l_set l = Some cs /\ length cs = ways.
Proof.
  intros Hs Hl [H1 H2 _ _ _]. destruct (lookup_lt_is_Some_2 (mc_cache s) (l_set l)) as [cs Hcs].
  { rewrite H1. by apply loc_set_lt. }
  exists cs. split; [done|]. by eapply H2.
Qed.

(** ** Looking up the cache *)

Lemma wp_get_set n cs K (s : MC D) : mc_cache s !! n = Some cs -> K cs s -> wp (get_set n) K s.
Proof. intros Hn HK. apply wp_bind, wp_get. eapply wp_lift; [|done]. unfold at_. by rewrite Hn. Qed.

Lemma wp_get_way n j w K (s : MC D) : cached (mc_cache s) n j w -> K w s -> wp (get_way n j) K s.
Proof.
  intros (cs & Hn & Hj) HK. apply wp_bind. eapply wp_get_set; [done|].
  eapply wp_lift; [|done]. unfold at_. by rewrite Hj.
Qed.

Definition put (cache : list CacheSet) (i j : nat) (x : Way) : list CacheSet :=
  match cache !! i with Some cs => <[i := <[j := x]> cs]> cache | None => cache end.

Lemma wp_put_way n j w x K (s : MC D) :
  cached (mc_cache s) n j w -> K tt (set_cache (put (mc_cache s) n j x) s) ->
  wp (put_way n j x) K s.
Proof.
  intros (cs & Hn & Hj) HK. apply wp_bind. eapply wp_get_set; [done|].
  apply wp_bind. eapply wp_lift; [unfold at_; by rewrite Hj|].
  apply wp_modify. unfold put in HK. by rewrite Hn in HK.
Qed.

(** After an update, a position holds the new way or what it held. *)
Lemma cached_put cache i j w x i' j' w' :
  cached cache i j w ->
  (cached (put cache i j x) i' j' w' <->
   (i' = i /\ j' = j /\ w' = x) \/ ((i' <> i \/ j' <> j) /\ cached cache i' j' w')).
Proof.
  intros (cs & Hi & Hj). unfold put, cached. rewrite Hi.
  pose proof (lookup_lt_Some _ _ _ Hi). pose proof (lookup_lt_Some _ _ _ Hj).
  destruct (decide (i' = i)) as [->|Hne].
  - rewrite list_lookup_insert_eq by done. destruct (decide (j' = j)) as [->|Hnj].
    + split; [|intros [(_ & _ & ->)|([?|?] & _)]; [|done..]].
      * intros (cs' & [= <-] & Hw). rewrite list_lookup_insert_eq in Hw by done.
        left. split_and!; congruence.
      * eexists. split; [done|]. by rewrite list_lookup_insert_eq.
    + split.
      * intros (cs' & [= <-] & Hw). rewrite list_lookup_insert_ne in Hw by done.
        right. split; [by right|]. eauto.
      * intros [(_ & ? & _)|(_ & cs' & E & Hw)]; [done|]. simplify_eq.
        eexists. split; [done|]. by rewrite list_lookup_insert_ne.
  - rewrite list_lookup_insert_ne by done. split.
    + intros Hc. right. auto.
    + intros [(? & _)|(_ & Hc)]; done.
Qed.

Lemma put_shape_ok cache ds i j w x :
  cache_ok cache ds -> cached cache i j w -> (w_valid x = true -> ds <= Z.of_nat i) ->
  cache_ok (put cache i j x) ds.
Proof.
  intros [H1 H2 H3 H0' H4] Hc Hx. destruct (Hc) as (cs & Hi & Hj). split.
  - unfold put. rewrite Hi. by rewrite length_insert.
  - intros i' cs' Hi'. unfold put in Hi'. rewrite Hi in Hi'.
    apply list_lookup_insert_cases in Hi' as [[<- ->]|[_ Hi']]; [|eauto].
    rewrite length_insert. eauto.
  - done.
  - done.
  - intros i' j' w' Hc' Hv. apply (cached_put _ _ _ _ _ _ _ _ Hc) in Hc' as [(-> & -> & ->)|[_ Hc']];
      [auto|eauto].
Qed.

(** On a TLB miss no way of the set holds the page. *)
Lemma tlb_miss l s cs e :
  0 < nsets -> loc_ok l -> cache_ok (mc_cache s) (mc_ds_index s) -> tlb_ok (mc_cache s) (mc_tlb s) ->
  mc_cache s !! l_set l = Some cs -> mc_tlb s !! l_tag l = Some e -> t_way e = ways ->
  miss (l_tag l) cs.
Proof.
  intros Hs Hl Hck Htk Hcs He Hw j w Hj Hv Ht.
  destruct (tk_listed _ _ Htk (l_set l) j w) as (_ & e' & He' & Hwe & _); [by exists cs|done|].
  rewrite Ht in He'. simplify_eq. pose proof (lookup_lt_Some _ _ _ Hj).
  rewrite (ck_ways _ _ Hck _ _ Hcs) in *. lia.
Qed.

(** ** Lines 250-327: probing *)

(** What no stretch before the rebalancing changes. *)
Definition outer (s : MC D) := (mc_lock s, mc_trace s, mc_num_requests s, mc_ds_index s).

Lemma outer_core s s' : core s' = core s -> outer s' = outer s.
Proof. unfold core, outer. intros Hc. simplify_eq. congruence. Qed.

(** The timing record of the request is open ([b]) or not. *)
Definition phase (b : bool) (src : Z) (d : D) : Prop := if b then opened_ src d else idle_ src d.

(** The probe's answer is right. *)
Record probe_ok (l : Loc) (hit_way : nat) (s : MC D) : Prop := {
  pr_hit : hit_way <> ways -> exists w, cached (mc_cache s) (l_set l) hit_way w /\
             w_valid w = true /\ w_tag w = l_tag l;
  pr_tlb : c_scheme cfg <> AlloyCache ->
             exists e, mc_tlb s !! l_tag l = Some e /\ t_way e = hit_way
}.

Lemma probe_ok_core l hw s s' : core s' = core s -> probe_ok l hw s -> probe_ok l hw s'.
Proof.
  intros Hc [H1 H2]. split; rewrite ?(core_cache _ _ Hc), ?(core_tlb _ _ Hc); done.
Qed.

Lemma tlb_ok_insert_new cache tlb t e :
  tlb_ok cache tlb -> tlb !! t = None -> t_way e = ways -> tlb_ok cache (<[t := e]> tlb).
Proof.
  intros [H1 H2] Hn Hw. split.
  - intros t' e'. rewrite lookup_insert_Some. intros [[-> ->]|[_ He]] Hne; [done|eauto].
  - intros i j w Hc Hv. destruct (H2 i j w Hc Hv) as (Hi & e' & He' & Hj & Hx).
    split; [done|]. exists e'. split; [|done]. rewrite lookup_insert_ne; [done|]. congruence.
Qed.

Lemma probe_tlb_ok (Hcfg : cfg_ok cfg) l s :
  c_scheme cfg <> AlloyCache -> loc_ok l -> tables_ok s ->
  wp (probe_tlb cfg l) (fun hw s' => tables_ok s' /\ outer s' = outer s /\ mc_mem s' = mc_mem s /\
     probe_ok l hw s') s.
Proof.
  intros Hal Hl Ht. pose proof (co_sets _ Hcfg) as Hns.
  unfold probe_tlb. apply wp_bind, wp_get, wp_bind.
  eapply (wp_mono _ (fun _ s' => tables_ok s' /\ outer s' = outer s /\ mc_mem s' = mc_mem s /\
            exists e, mc_tlb s' !! l_tag l = Some e)).
  { apply wp_when; intros Hb.
    - apply bool_decide_eq_true in Hb. apply wp_bind, wp_modify. apply wp_modify.
      split_and!; [|done|done|].
      + destruct Ht as [H1 H2 [P1 P2 P3 P4]]. split; [done| |by split]. intros _. by apply tlb_ok_insert_new; auto.
      + eexists. simpl. apply lookup_insert_eq.
    - apply bool_decide_eq_false in Hb. split_and!; try done.
      destruct (mc_tlb s !! l_tag l) eqn:E; [eauto|done]. }
  intros [] s1 (Ht1 & Ho & Hm & e & He). apply wp_bind, wp_get. unfold tlb_at. rewrite He. simpl.
  destruct (cache_set l s1 Hns Hl (to_cache _ Ht1)) as (cs & Hcs & Hlen).
  destruct (Nat.eqb_spec (t_way e) ways) as [Hw|Hw]; simpl.
  - pose proof (tlb_miss l s1 cs e Hns Hl (to_cache _ Ht1) (to_tlb _ Ht1 Hal) Hcs He Hw) as Hmiss.
    apply wp_bind, wp_when; intros _.
    + apply wp_bind. eapply wp_get_set; [done|]. apply wp_assert.
      * apply forallb_forall. intros w Hin. apply list_elem_of_In, list_elem_of_lookup in Hin as [j Hj].
        destruct (Z.eqb_spec (w_tag w) (l_tag l)); [|done].
        destruct (w_valid w) eqn:Hv; [|done]. by destruct (Hmiss j w Hj Hv).
      * apply wp_ret. split_and!; try done. split; [done|]. eauto.
    + apply wp_ret. split_and!; try done. split; [done|]. eauto.
  - destruct (tk_cached _ _ (to_tlb _ Ht1 Hal) _ _ He Hw) as (w & Hc & Hv & Htag).
    rewrite loc_set_eq in Hc by done.
    apply wp_bind. eapply wp_get_way; [done|]. apply wp_bind, wp_assert.
    { by rewrite Hv, Htag, Z.eqb_refl. }
    apply wp_ret. split_and!; try done. split; eauto.
Qed.

Lemma probe_unison_quiet l t req src :
  srcId req = src -> type req <> PUTS ->
  quiet (idle_ src) (opened_ src) (same_req req) (probe_unison l t req).
Proof. intros Hs Ht. unfold probe_unison. quiet_tac. Qed.

(** Asking the tag buffer changes nothing. *)
Lemma wp_ask_tb {A} (f : TagBuffer -> res A) tb a K s :
  mc_tag_buffer s = Some tb -> f tb = Ok a -> K a s -> wp (ask_tb f) K s.
Proof.
  intros Htb Hf HK. apply wp_bind, wp_get. rewrite Htb. by eapply wp_lift.
Qed.

Lemma existInTB_total tb tag : tb_inv tb -> exists w, existInTB tag tb = Ok w.
Proof.
  intros Hi. destruct (tb_set_inv tb tag Hi) as (n & es & Hs & _).
  unfold existInTB. rewrite Hs. eauto.
Qed.

Lemma probe_hybrid_ok l t s :
  c_scheme cfg = HybridCache -> tables_ok s ->
  wp (probe_hybrid cfg l t) (fun p s' => core s' = core s /\ mc_mem s' = mc_mem s /\
     (p = true -> c_sram_tag cfg = false /\ t = STORE)) s.
Proof.
  intros Hsch Ht. destruct t; simpl; [by apply wp_ret|].
  destruct (po_tb _ _ (to_policy _ Ht) Hsch) as (tb & Htb & Hi).
  destruct (existInTB_total tb (l_tag l) Hi) as [w Hw].
  apply wp_bind. eapply wp_ask_tb; [done|done|]. apply wp_bind. eapply wp_ask_tb; [done|done|].
  apply wp_bind, wp_get. destruct (_ && _); apply wp_bind, wp_modify, wp_ret; [|done].
  split_and!; [done|done|]. by destruct (c_sram_tag cfg).
Qed.

(** Which probes open the request's record. *)
Definition probes (l : Loc) (t : ReqType) (ds : Z) : bool :=
  bool_decide (c_scheme cfg = UnisonCache) ||
  (bool_decide (c_scheme cfg = AlloyCache) && bool_decide (t = LOAD) &&
   (ds <=? Z.of_nat (l_set l)) && negb (c_sram_tag cfg)).

(** The common contract of the two probes. *)
Definition probed (l : Loc) (t : ReqType) (req : MemReq) (s : MC D)
    (r : MemReq * nat * bool) (s' : MC D) : Prop :=
  let '(req', hw, p) := r in
  tables_ok s' /\ outer s' = outer s /\ same_req req req' /\ probe_ok l hw s' /\
  phase (probes l t (mc_ds_index s)) (srcId req) (mc_mem s') /\
  (p = true -> c_sram_tag cfg = false /\ t = STORE).

Lemma probe_page_ok (Hcfg : cfg_ok cfg) l t req s :
  c_scheme cfg <> AlloyCache -> loc_ok l -> tables_ok s -> idle_ (srcId req) (mc_mem s) ->
  type req <> PUTS -> wp (probe_page cfg l t req) (probed l t req s) s.
Proof.
  intros Hal Hl Ht Hidle Hty. unfold probe_page.
  apply wp_bind. eapply wp_mono; [by apply probe_tlb_ok|].
  intros hw s1 (Ht1 & Ho1 & Hm1 & Hp1). apply wp_bind.
  assert (probes l t (mc_ds_index s) = bool_decide (c_scheme cfg = UnisonCache)) as Hpr.
  { unfold probes. rewrite (bool_decide_eq_false_2 (c_scheme cfg = AlloyCache)) by done.
    by rewrite orb_false_r. }
  eapply (wp_mono _ (fun req' s2 => tables_ok s2 /\ outer s2 = outer s /\ same_req req req' /\
            probe_ok l hw s2 /\ phase (probes l t (mc_ds_index s)) (srcId req) (mc_mem s2))).
  { rewrite Hpr. case_bool_decide.
    - eapply wp_quiet; [by apply probe_unison_quiet| |].
      + by rewrite Hm1.
      + intros req' s2 Hr Hc Hop. split_and!; [by eapply tables_ok_core| |done|by eapply probe_ok_core|done].
        rewrite <- Ho1. by apply outer_core.
    - apply wp_ret. split_and!; try done. simpl. by rewrite Hm1. }
  intros req' s2 (Ht2 & Ho2 & Hr & Hp2 & Hph). apply wp_bind.
  eapply (wp_mono _ (fun p s3 => core s3 = core s2 /\ mc_mem s3 = mc_mem s2 /\
            (p = true -> c_sram_tag cfg = false /\ t = STORE))).
  { clear Hpr. case_bool_decide; [by apply probe_hybrid_ok|by apply wp_ret]. }
  intros p s3 (Hc & Hm & Hp). apply wp_ret. unfold probed.
  split_and!; [by eapply tables_ok_core| |by destruct (_ && _)|by eapply probe_ok_core| |done].
  - rewrite <- Ho2. by apply outer_core.
  - by rewrite Hm.
Qed.

Lemma probe_line_ok (Hcfg : cfg_ok cfg) l t req s :
  c_scheme cfg = AlloyCache -> loc_ok l -> tables_ok s -> idle_ (srcId req) (mc_mem s) ->
  type req <> PUTS -> wp (probe_line cfg l t req) (probed l t req s) s.
Proof.
  intros Hal Hl Ht Hidle Hty. unfold probe_line. pose proof (co_sets _ Hcfg) as Hns.
  destruct (co_alloy _ Hcfg Hal) as [_ Hw1].
  destruct (cache_set l s Hns Hl (to_cache _ Ht)) as (cs & Hcs & Hlen).
  destruct (lookup_lt_is_Some_2 cs 0) as [w Hw]; [lia|].
  assert (cached (mc_cache s) (l_set l) 0 w) as Hcw by (by exists cs).
  apply wp_bind, wp_assert; [by apply bool_decide_eq_true|].
  apply wp_bind. eapply wp_get_way; [done|]. apply wp_bind, wp_get. cbv zeta.
  set (act := mc_ds_index s <=? Z.of_nat (l_set l)).
  assert (probes l t (mc_ds_index s) = bool_decide (t = LOAD) && act && negb (c_sram_tag cfg)) as Hpr.
  { unfold probes. rewrite Hal. done. }
  assert (probe_ok l (if w_valid w && (w_tag w =? l_tag l) && act then 0%nat else ways) s) as Hpo.
  { split; [|done]. destruct (w_valid w) eqn:Hv; simpl; [|done].
    destruct (Z.eqb_spec (w_tag w) (l_tag l)); simpl; [|done]. destruct act; [|done]. eauto. }
  apply wp_bind.
  eapply (wp_mono _ (fun req' s2 => core s2 = core s /\ same_req req req' /\
            phase (probes l t (mc_ds_index s)) (srcId req) (mc_mem s2))).
  { rewrite Hpr. destruct (bool_decide (t = LOAD)), act; simpl; try by apply wp_ret.
    destruct (c_sram_tag cfg); simpl; [by apply wp_ret|].
    eapply (wp_quiet (idle_ (srcId req)) (opened_ (srcId req)) (same_req req));
      [quiet_tac|done|]. eauto. }
  intros req' s2 (Hc & Hr & Hph). apply wp_ret. unfold probed.
  split_and!; [by eapply tables_ok_core|by apply outer_core|done|by eapply probe_ok_core|done|done].
Qed.

(** ** Lines 335-359: the replacement decision *)

Record chosen (l : Loc) (s : MC D) (way : nat) (ca : bool) (s' : MC D) : Prop := {
  ch_tables : mc_cache s' = mc_cache s /\ mc_tlb s' = mc_tlb s /\
    mc_tag_buffer s' = mc_tag_buffer s /\ mc_mem s' = mc_mem s /\ outer s' = outer s;
  ch_le : (way <= ways)%nat;
  ch_keep : way = ways -> policy_ok (mc_cache s) s' /\ c_scheme cfg <> Tagless;
  ch_place : (way < ways)%nat -> forall d,
    policy_ok (put (mc_cache s) (l_set l) way (mkWay (l_tag l) true d)) s';
  ch_active : (way < ways)%nat \/ ca = true -> mc_ds_index s <= Z.of_nat (l_set l);
  ch_victim : (way < ways)%nat -> c_scheme cfg = HybridCache ->
    forall w tb, cached (mc_cache s) (l_set l) way w -> w_valid w = true ->
      mc_tag_buffer s = Some tb -> canInsert2 (l_tag l) (w_tag w) tb = Ok true
}.

(** Schemes without a page policy: what [policy_ok] says does not depend on the
    cache. *)
Lemma policy_ok_any cache cache' s :
  c_scheme cfg <> UnisonCache -> c_scheme cfg <> HybridCache ->
  policy_ok cache s -> policy_ok cache' s.
Proof. intros H1 H2 [P1 P2 P3 P4]. split; try done. intros [?|?]; done. Qed.

Lemma choose_page_ok (Hcfg : cfg_ok cfg) l t s :
  c_scheme cfg = UnisonCache \/ c_scheme cfg = HybridCache ->
  loc_ok l -> tables_ok s -> probe_ok l ways s ->
  mc_ds_index s <= Z.of_nat (l_set l) ->
  wp (cs <- get_set (l_set l) ;;
      on_page (handleCacheMiss (view_of cfg s) (l_tag l) t (l_set l) cs))
    (fun r s' => chosen l s (fst r) (snd r) s') s.
Proof.
  intros Hsch Hl Ht Hp Hact. pose proof (co_sets _ Hcfg) as Hns.
  assert (c_scheme cfg <> AlloyCache) as Hal by (destruct Hsch; congruence).
  destruct (cache_set l s Hns Hl (to_cache _ Ht)) as (cs & Hcs & Hlen).
  destruct (pr_tlb _ _ _ Hp Hal) as (e & He & Hwe).
  pose proof (tlb_miss l s cs e Hns Hl (to_cache _ Ht) (to_tlb _ Ht Hal) Hcs He Hwe) as Hmiss.
  destruct (to_policy _ Ht) as [P1 P2 P3 P4].
  destruct (P4 Hsch) as (p & Hpage & Hpi & Hps & Hpf).
  apply wp_bind. eapply wp_get_set; [done|]. apply wp_bind, wp_get. rewrite Hpage.
  assert (view_ok (view_of cfg s) p) as Hv.
  { split. simpl. intros Hor. apply P3. destruct Hor as [Hf|Hh]; [by apply Hpf|congruence]. }
  destruct (wp_ok _ _ _ (handleCacheMiss_ok ways (view_of cfg s) (l_tag l) t (l_set l) cs p
              (pi_cfg _ _ _ Hpi) (pi_at _ _ _ Hpi _ _ Hcs) eq_refl Hv Hmiss))
    as ([w ca] & p' & Hrun & [Hfr Hle Hkeep Hplace Hvic]). simpl in *.
  apply wp_bind. eapply wp_lift; [done|]. apply wp_bind, wp_modify, wp_ret. simpl.
  destruct (pp_frame_scheme _ _ _ Hfr) as [Es Ep].
  split; simpl.
  - done.
  - done.
  - intros ->. split; [|destruct Hsch; congruence].
    split; simpl; [done|done|done|]. intros _. exists p'. split_and!; [done| |congruence|].
    + by eapply pp_inv_keep; [| |done|apply Hkeep].
    + rewrite Ep. done.
  - intros Hw d. split; simpl; [done|done|done|]. intros _. exists p'.
    split_and!; [done| |congruence|by rewrite Ep].
    unfold put. rewrite Hcs. eapply pp_inv_step; [done|done|by apply Hplace].
  - done.
  - intros Hw Hh x tb (cs' & Hcs' & Hx) Hval Htb. rewrite Hcs in Hcs'. simplify_eq.
    apply (Hvic Hw x tb); simpl; congruence.
Qed.

Lemma choose_way_ok (Hcfg : cfg_ok cfg) l t s :
  has_cache cfg -> loc_ok l -> tables_ok s -> probe_ok l ways s ->
  wp (choose_way cfg l t) (fun r s' => chosen l s (fst r) (snd r) s') s.
Proof.
  intros [Hnc Hco] Hl Ht Hp. pose proof (co_sets _ Hcfg) as Hns. pose proof (co_ways _ Hcfg) as Hnw.
  destruct (cache_set l s Hns Hl (to_cache _ Ht)) as (cs & Hcs & Hlen).
  unfold choose_way. apply wp_bind, wp_get. cbv zeta.
  assert (c_scheme cfg <> Tagless ->
          wp (ret (ways, false)) (fun r s' => chosen l s (fst r) (snd r) s') s) as Hno.
  { intros Htag. apply wp_ret. split; simpl; try done; try (intros; lia).
    - intros _. split; [apply Ht|done]. }
  destruct (c_scheme cfg) eqn:Hsch; try done.
  - destruct (co_alloy _ Hcfg Hsch) as [_ Hw1].
    destruct (Z.leb_spec (mc_ds_index s) (Z.of_nat (l_set l))) as [Hact|Hact].
    + destruct (lookup_lt_is_Some_2 cs 0) as [w Hw]; [lia|].
      apply wp_bind, wp_bind. eapply wp_get_way; [by exists cs|].
      destruct (po_line _ _ (to_policy _ Ht) Hsch) as [lp Hlp].
      apply wp_bind, wp_get. rewrite Hlp.
      assert (exists b lp', lp_handleCacheMiss w lp = Ok (b, lp')) as (b & lp' & Hrun).
      { unfold lp_handleCacheMiss, bind, get, ret, modify. simpl.
        destruct (w_valid w); simpl; [|eauto]. destruct (lp_enable_replace lp); simpl; eauto. }
      apply wp_bind. eapply wp_lift; [done|]. apply wp_bind, wp_modify, wp_ret, wp_ret. simpl.
      assert (forall c', policy_ok c' (set_line (Some lp') s)) as Hpol.
      { intros c'. destruct (to_policy _ Ht) as [P1 P2 P3 P4].
        split; simpl; [eauto|done|done|]. intros [?|?]; congruence. }
      split; simpl; [done|destruct b; lia| |intros; apply Hpol|intros; lia|intros; congruence].
      intros _. split; [apply Hpol|congruence].
    + apply wp_bind, wp_ret, wp_ret. simpl.
      split; simpl; [done|lia| |intros; lia|intros [?|?]; [lia|done]|intros; lia].
      intros _. split; [apply Ht|congruence].
  - destruct (Z.leb_spec (mc_ds_index s) (Z.of_nat (l_set l))) as [Hact|Hact]; [|by apply Hno].
    eapply choose_page_ok; auto.
  - by apply Hno.
  - destruct (Z.leb_spec (mc_ds_index s) (Z.of_nat (l_set l))) as [Hact|Hact]; [|by apply Hno].
    eapply choose_page_ok; auto.
  - apply wp_bind. eapply wp_lift.
    { unfold umod. destruct (Z.eqb_spec (Z.of_nat ways) 0); [lia|done]. }
    apply wp_bind, wp_modify, wp_ret. simpl.
    pose proof (po_next _ _ (to_policy _ Ht) Hsch) as Hnext.
    assert (forall c', policy_ok c' (set_next_evict_idx
              (Z.to_nat ((Z.of_nat (mc_next_evict_idx s) + 1) mod Z.of_nat ways)) s)) as Hpol.
    { intros c'. destruct (to_policy _ Ht) as [P1 P2 P3 P4].
      split; simpl; [done| |done|intros [?|?]; congruence]. intros _.
      pose proof (Z.mod_pos_bound (Z.of_nat (mc_next_evict_idx s) + 1) (Z.of_nat ways)). lia. }
    split; simpl; [done|lia|intros; lia|intros; apply Hpol| |intros; congruence].
    intros _. rewrite (ck_fixed _ _ (to_cache _ Ht)); [lia|].
    destruct (c_bw_balance cfg) eqn:Hb; [|done].
    destruct (co_balance _ Hcfg Hb); congruence.
Qed.

(** ** Lines 361-447: traffic of a miss *)

Lemma ext_load_ok l t probe way req ready s src :
  has_cache cfg -> srcId req = src -> type req <> PUTS ->
  phase (probes l t (mc_ds_index s)) src (mc_mem s) ->
  wp (ext_load cfg l t probe way req ready)
    (fun r s' => same_req req (fst r) /\ core s' = core s /\ opened_ src (mc_mem s')) s.
Proof.
  intros [Hnc Hco] Hs Hty Hph. unfold ext_load. apply wp_bind, wp_get. cbv zeta.
  unfold probes in Hph.
  destruct (c_scheme cfg) eqn:Hsch; try done; simpl in Hph.
  all: destruct t, (mc_ds_index s <=? Z.of_nat (l_set l)), (c_sram_tag cfg), probe; simpl in Hph |- *.
  all: match type of Hph with ?P _ =>
         eapply (wp_quiet P (opened_ src) (fun r => same_req req (fst r)));
           [quiet_tac | exact Hph | intros; done] end.
Qed.

Lemma fill_traffic_quiet l req src :
  srcId req = src -> quiet (opened_ src) (opened_ src) any (fill_traffic cfg l req).
Proof.
  intros Hs. unfold fill_traffic. destruct (c_scheme cfg) eqn:Hsch; try (by apply quiet_ret).
  all: quiet_tac; try (destruct (c_sram_tag cfg); reflexivity).
Qed.

(** ** Lines 451-544: eviction *)

Lemma wp_on_tb {A} (m : M TagBuffer A) tb (R : A -> TagBuffer -> Prop) K s :
  mc_tag_buffer s = Some tb -> wp m R tb ->
  (forall a tb', R a tb' -> K a (set_tag_buffer (Some tb') s)) -> wp (on_tb m) K s.
Proof.
  intros Htb Hm HK. apply wp_ok in Hm as (a & tb' & Hrun & HR).
  apply wp_bind, wp_get. rewrite Htb. apply wp_bind. eapply wp_lift; [done|].
  by apply wp_bind, wp_modify, wp_ret, HK.
Qed.

Lemma wp_bind_inv {S A B} (m : M S A) (f : A -> M S B) Q (st : S) :
  wp (bind m f) Q st -> wp m (fun a => wp (f a) Q) st.
Proof. unfold wp, bind. destruct (m st) as [[a st']|]; done. Qed.

Lemma remap_pair_ok t1 t2 tb s :
  mc_tag_buffer s = Some tb -> tb_inv tb -> t1 <> t2 -> canInsert2 t1 t2 tb = Ok true ->
  wp (remap_pair t1 t2) (fun _ s' => exists tb', s' = set_tag_buffer (Some tb') s /\ tb_inv tb' /\
    forall t, remapped tb' t <-> remapped tb t \/ t = t1 \/ t = t2) s.
Proof.
  intros Htb Hi Hne Hc. unfold remap_pair.
  apply wp_bind. eapply wp_ask_tb; [done|done|]. apply wp_bind, wp_assert; [done|].
  pose proof (tb_insert2_ok tb t1 t2 Hi Hne Hc) as Hins. apply wp_bind_inv in Hins.
  apply wp_bind. eapply wp_on_tb; [done|exact Hins|].
  intros [] tb1 H1. eapply wp_on_tb; [done|exact H1|].
  intros [] tb2 (Hi2 & _ & Hr). exists tb2. done.
Qed.

Lemma writeback_quiet l t old dirty cur req src e :
  has_cache cfg -> srcId req = src -> dirty = popcountll (t_dirty e) ->
  (is_page = true -> vecs_ok old e) ->
  quiet (opened_ src) (opened_ src) (same_req req) (writeback cfg l t old dirty cur req).
Proof.
  intros [Hnc Hco] Hs -> Hv. unfold writeback.
  assert (tracks_dirty -> vecs_ok old e) as Hvt.
  { intros Htd. apply Hv. unfold is_page, is_page_cache.
    destruct Htd as [->| ->]; done. }
  pose proof (popcountll_le (t_dirty e)) as Hle.
  destruct (w_dirty old) eqn:Hd.
  - assert (tracks_dirty -> 0 < popcountll (t_dirty e)) as Hpos.
    { intros Htd. destruct (Hvt Htd) as [_ Hr Hx]. apply popcountll_pos; [done|]. by apply Hx. }
    unfold tracks_dirty in Hpos.
    destruct (c_scheme cfg) eqn:Hsch; try done.
    + eapply quiet_bind; [apply quiet_inc|intros ? _].
      eapply (quiet_bind _ (opened_ src) _ (same_req req)); [|intros req' Hr'; quiet_tac].
      destruct (_ && _); quiet_tac.
    + quiet_tac; [apply Z.ltb_lt; auto|apply Z.leb_le; lia].
    + quiet_tac.
    + quiet_tac; [apply Z.ltb_lt; auto|apply Z.leb_le; lia].
  - eapply quiet_bind; [apply quiet_inc|intros ? _]. eapply quiet_bind; [|intros ? _; by apply quiet_ret].
    apply quiet_when. intros Hb. apply quiet_assert. apply Z.eqb_eq.
    assert (tracks_dirty) as Htd.
    { apply orb_true_iff in Hb as [Hb|Hb]; apply bool_decide_eq_true in Hb; [by left|by right]. }
    destruct (Hvt Htd) as [_ Hr Hx]. apply popcountll_zero_iff; [done|].
    destruct (decide (t_dirty e = 0)) as [?|Hne]; [done|]. apply Hx in Hne; [|done]. congruence.
Qed.

(** What an eviction leaves: the replaced page's TLB entry points nowhere. *)
Record evicted (old : Way) (s s' : MC D) : Prop := {
  ev_cache : mc_cache s' = mc_cache s;
  ev_tlb : mc_tlb s' = tlb_set_way (w_tag old) ways (mc_tlb s);
  ev_outer : outer s' = outer s;
  ev_policy : forall c, policy_ok c s -> policy_ok c s'
}.

Lemma policy_ok_tb c tb s :
  tb_inv tb -> policy_ok c s -> policy_ok c (set_tag_buffer (Some tb) s).
Proof. intros Hi [P1 P2 P3 P4]. split; simpl; eauto. Qed.

Lemma evict_ok l t old cur req src s e :
  has_cache cfg -> srcId req = src -> opened_ src (mc_mem s) ->
  (c_scheme cfg = HybridCache -> l_tag l <> w_tag old /\
     exists tb, mc_tag_buffer s = Some tb /\ tb_inv tb /\
       canInsert2 (l_tag l) (w_tag old) tb = Ok true) ->
  (is_page = true -> mc_tlb s !! w_tag old = Some e /\ vecs_ok old e) ->
  wp (evict cfg l t old cur req) (fun req' s' =>
    same_req req req' /\ evicted old s s' /\ opened_ src (mc_mem s')) s.
Proof.
  intros Hhc Hs Hop Htb He. unfold evict. apply wp_bind.
  eapply (wp_mono _ (fun _ s1 => mc_cache s1 = mc_cache s /\ mc_tlb s1 = mc_tlb s /\
            mc_mem s1 = mc_mem s /\ outer s1 = outer s /\ forall c, policy_ok c s -> policy_ok c s1)).
  { apply wp_when; intros Hb; [|done]. apply bool_decide_eq_true in Hb.
    destruct (Htb Hb) as (Hne & tb & Hb1 & Hb2 & Hb3). eapply wp_mono; [by eapply remap_pair_ok|].
    intros [] s1 (tb' & -> & Hi & _). split_and!; try done. intros c. by apply policy_ok_tb. }
  intros [] s1 (E1 & E2 & E3 & E4 & E5). apply wp_bind, wp_modify, wp_bind, wp_get. cbv zeta.
  set (s2 := set_tlb (tlb_set_way (w_tag old) ways (mc_tlb s1)) s1).
  set (e2 := tlb_at (mc_tlb s2) (w_tag old)).
  assert (is_page = true -> vecs_ok old e2) as Hv2.
  { intros Hp. destruct (He Hp) as [He1 [Hv1 Hv2 Hv3]].
    assert (e2 = mkTLB (t_tag e) ways (t_count e) (t_touch e) (t_dirty e)) as ->.
    { unfold e2, s2, tlb_set_way, tlb_at. simpl. rewrite lookup_insert_eq. simpl.
      by rewrite E2, He1. }
    by split. }
  eapply (wp_quiet (opened_ src) (opened_ src) (same_req req)).
  - eapply quiet_bind; [apply quiet_when; intros Hp|intros ? _; by eapply writeback_quiet].
    destruct (Hv2 Hp) as [[Hr Hnz] Hd _]. pose proof (popcountll_le (t_dirty e2)).
    pose proof (popcountll_le (t_touch e2)). apply (popcountll_pos _ Hr) in Hnz.
    quiet_tac; [apply Z.ltb_lt; lia|apply Z.leb_le; lia..].
  - unfold s2. simpl. by rewrite E3.
  - intros req' s3 Hr Hc Hop3. split_and!; [done| |done].
    split.
    + rewrite (core_cache _ _ Hc). apply E1.
    + rewrite (core_tlb _ _ Hc). unfold s2. simpl. by rewrite E2.
    + rewrite (outer_core _ _ Hc). apply E4.
    + intros c Hp. apply (policy_ok_core c s2); [done|].
      destruct (E5 c Hp) as [P1 P2 P3 P4]. by split.
Qed.

(** ** Lines 545-558: the new page takes the way *)

Lemma cached_fun cache i j w w' : cached cache i j w -> cached cache i j w' -> w = w'.
Proof. intros (c & H1 & H2) (c' & H3 & H4). congruence. Qed.

Lemma tlb_ok_install cache tlb tlb' tag i j old e0 e' d :
  0 < nsets -> (j < ways)%nat -> tlb_ok cache tlb -> cached cache i j old ->
  Z.of_nat i = tag mod nsets ->
  (forall i' j' w', cached cache i' j' w' -> (j' < ways)%nat) ->
  tlb !! tag = Some e0 -> t_way e0 = ways ->
  tlb' !! tag = Some e' -> t_way e' = j ->
  (is_page = true -> vecs_ok (mkWay tag true d) e') ->
  (forall t, t <> tag ->
     (w_valid old = true /\ t = w_tag old /\ exists e, tlb' !! t = Some e /\ t_way e = ways) \/
     (~ (w_valid old = true /\ t = w_tag old) /\ tlb' !! t = tlb !! t)) ->
  tlb_ok (put cache i j (mkWay tag true d)) tlb'.
Proof.
  intros Hns Hj [T1 T2] Hold Hi Hlt He0 Hw0 He' Hwe' Hv Hoth.
  assert (forall t w i' j', cached cache i' j' w -> w_valid w = true -> w_tag w = t -> t <> tag) as Hnt.
  { intros t w i' j' Hc Hval <- Heq. destruct (T2 _ _ _ Hc Hval) as (_ & e & He & Hje & _).
    rewrite Heq in He. simplify_eq. apply Hlt in Hc. lia. }
  split.
  - intros t e He Hw. destruct (decide (t = tag)) as [->|Hne].
    + simplify_eq. exists (mkWay tag true d). split; [|done].
      apply (cached_put _ _ _ _ _ _ _ _ Hold). left. split_and!; [lia|done|done].
    + destruct (Hoth t Hne) as [(_ & _ & e1 & He1 & Hw1)|[Hnold Heq]]; [congruence|].
      rewrite Heq in He. destruct (T1 t e He Hw) as (w & Hc & Hval & Htag).
      exists w. split; [|done]. apply (cached_put _ _ _ _ _ _ _ _ Hold). right. split; [|done].
      destruct (decide (Z.to_nat (t mod nsets) = i)) as [E1|]; [|by left].
      destruct (decide (t_way e = j)) as [E2|]; [|by right].
      destruct Hnold. rewrite E1, E2 in Hc. by rewrite (cached_fun _ _ _ _ _ Hold Hc).
  - intros i' j' w Hc Hval.
    apply (cached_put _ _ _ _ _ _ _ _ Hold) in Hc as [(-> & -> & ->)|[Hpos Hc]].
    + simpl. split; [done|]. by exists e'.
    + destruct (T2 _ _ _ Hc Hval) as (Hi' & e & He & Hje & Hve). split; [done|].
      exists e. split; [|done].
      destruct (Hoth (w_tag w)) as [(Hvo & Heq & _)|[_ ->]]; [by eapply Hnt| |done].
      destruct (T2 _ _ _ Hold Hvo) as (Hio & e2 & He2 & Hj2 & _). rewrite Heq in *. simplify_eq.
      destruct Hpos as [[]|[]]; [lia|done].
Qed.

(** The TLB after [tlb_set_way], [tlb_set_vecs]. *)
Lemma tlb_set_way_other t way tlb t' : t' <> t -> tlb_set_way t way tlb !! t' = tlb !! t'.
Proof. intros Hne. unfold tlb_set_way. by rewrite lookup_insert_ne. Qed.
Lemma tlb_set_vecs_other t a b tlb t' : t' <> t -> tlb_set_vecs t a b tlb !! t' = tlb !! t'.
Proof. intros Hne. unfold tlb_set_vecs. by rewrite lookup_insert_ne. Qed.
Lemma tlb_set_way_same t way tlb : exists e, tlb_set_way t way tlb !! t = Some e /\ t_way e = way.
Proof. eexists. unfold tlb_set_way. rewrite lookup_insert_eq. done. Qed.

(** [touch_line] never fails for a 4KB page. *)
Lemma wp_touch_line w (fresh : bool) l t K s :
  loc_ok l -> c_scheme cfg <> AlloyCache ->
  (let e := tlb_at (mc_tlb s) (l_tag l) in
   let mask := Z.shiftl 1 (l_addr l - l_tag l * 64) in
   let dirty := if fresh then 0 else t_dirty e in
   K tt (set_tlb (tlb_set_vecs (l_tag l) (Z.lor (if fresh then 0 else t_touch e) mask)
                    (if bool_decide (t = STORE) then Z.lor dirty mask else dirty) (mc_tlb s)) s)) ->
  wp (touch_line w fresh l t) K s.
Proof.
  intros Hl Hal HK. unfold touch_line. destruct (lo_bit _ Hl Hal) as [Hb1 Hb2].
  rewrite (u64_id (l_addr l - l_tag l * 64)) by (unfold in_u64; lia).
  apply wp_bind, wp_assert; [by apply Z.ltb_lt|]. by apply wp_modify.
Qed.

(** The vectors of a page with its first line. *)
Lemma vecs_first l t d e :
  0 <= l_addr l - l_tag l * 64 < 64 -> d = bool_decide (t = STORE) ->
  vecs_ok (mkWay (l_tag l) true d)
    (mkTLB (t_tag e) (t_way e) (t_count e) (Z.lor 0 (Z.shiftl 1 (l_addr l - l_tag l * 64)))
       (if bool_decide (t = STORE) then Z.lor 0 (Z.shiftl 1 (l_addr l - l_tag l * 64)) else 0)).
Proof.
  intros Hb ->. assert (in_u64 0) as H0' by (unfold in_u64; lia).
  split; simpl.
  - auto with banshee.
  - case_bool_decide; auto with banshee.
  - intros _. case_bool_decide; [|done]. split; [intros _; by apply lor_bit_nonzero|done].
Qed.

Lemma not_page_alloy : is_page = true -> c_scheme cfg <> AlloyCache.
Proof. unfold is_page, is_page_cache. intros Hp E. by rewrite E in Hp. Qed.

Lemma install_ok l t way req s s0 old e0 :
  0 < nsets -> (way < ways)%nat -> loc_ok l -> type req <> PUTS ->
  t = (if IsGet (type req) then LOAD else STORE) ->
  cache_ok (mc_cache s0) (mc_ds_index s0) -> mc_ds_index s0 <= Z.of_nat (l_set l) ->
  (c_scheme cfg <> AlloyCache -> tlb_ok (mc_cache s0) (mc_tlb s0) /\
     mc_tlb s0 !! l_tag l = Some e0 /\ t_way e0 = ways) ->
  cached (mc_cache s0) (l_set l) way old ->
  mc_cache s = mc_cache s0 -> outer s = outer s0 ->
  mc_tlb s = (if w_valid old then tlb_set_way (w_tag old) ways (mc_tlb s0) else mc_tlb s0) ->
  (forall d, policy_ok (put (mc_cache s0) (l_set l) way (mkWay (l_tag l) true d)) s) ->
  wp (install cfg l t way req)
    (fun _ s' => tables_ok s' /\ outer s' = outer s0 /\ mc_mem s' = mc_mem s) s.
Proof.
  intros Hns Hway Hl Hty Ht Hck Hact Htk Hold Ec Eo Et Hpol. unfold install.
  apply wp_bind. eapply wp_put_way; [by rewrite Ec|].
  apply wp_bind, wp_modify. set (d := bool_decide (type req = PUTX)).
  set (cache' := put _ _ _ _). set (tlb2 := tlb_set_way _ _ _).
  assert (cache' = put (mc_cache s0) (l_set l) way (mkWay (l_tag l) true d)) as Ec'
    by (unfold cache'; by rewrite Ec).
  assert (d = bool_decide (t = STORE)) as Hd.
  { subst t d. destruct (type req); done. }
  assert (mc_ds_index s = mc_ds_index s0) as Eds by (unfold outer in Eo; congruence).
  assert (cache_ok cache' (mc_ds_index s)) as Hck'.
  { rewrite Ec', Eds. by eapply put_shape_ok. }
  assert (forall tlb' s', (c_scheme cfg <> AlloyCache -> tlb_ok cache' tlb') ->
            s' = set_tlb tlb' (set_cache cache' s) ->
            tables_ok s' /\ outer s' = outer s0 /\ mc_mem s' = mc_mem s) as Hfin.
  { intros tlb' s' Htlb ->. split_and!; [|done|done]. split; simpl; [done|done|].
    rewrite Ec'. destruct (Hpol d) as [P1 P2 P3 P4]. by split. }
  assert (forall tlb' e', tlb' !! l_tag l = Some e' -> t_way e' = way ->
            (is_page = true -> vecs_ok (mkWay (l_tag l) true d) e') ->
            (forall t', t' <> l_tag l -> tlb' !! t' = mc_tlb s !! t') ->
            c_scheme cfg <> AlloyCache -> tlb_ok cache' tlb') as Hins.
  { intros tlb' e' He' Hw' Hv Hsame Hal. rewrite Ec'. destruct (Htk Hal) as (Htlb & He0 & Hw0).
    eapply (tlb_ok_install _ (mc_tlb s0) tlb'); try done; [apply Hl| |].
    - intros i' j' w' (cs & Hcs & Hj). rewrite <- (ck_ways _ _ Hck _ _ Hcs). by eapply lookup_lt_Some.
    - intros t' Hne. rewrite (Hsame t' Hne), Et. destruct (w_valid old) eqn:Hv0.
      + destruct (decide (t' = w_tag old)) as [->|Hno].
        * left. split_and!; [done|done|]. apply tlb_set_way_same.
        * right. split; [by intros [_ ?]|]. by apply tlb_set_way_other.
      + right. split; [by intros [? _]|done]. }
  destruct (tlb_set_way_same (l_tag l) way (mc_tlb s)) as (e2 & He2 & Hw2).
  simpl. apply wp_when; intros Hp.
  - pose proof (not_page_alloy Hp) as Hal. apply wp_touch_line; [done|done|]. cbv beta zeta.
    eapply Hfin; [|unfold set_tlb; simpl; reflexivity]. apply (Hins _ (mkTLB (t_tag e2) (t_way e2) (t_count e2)
       (Z.lor 0 (Z.shiftl 1 (l_addr l - l_tag l * 64)))
       (if bool_decide (t = STORE) then Z.lor 0 (Z.shiftl 1 (l_addr l - l_tag l * 64)) else 0))).
    + unfold tlb_set_vecs, tlb_at. rewrite lookup_insert_eq. simpl. unfold tlb2. simpl. by rewrite He2.
    + done.
    + intros _. apply vecs_first; [by apply Hl|done].
    + intros t' Hne. rewrite tlb_set_vecs_other by done. by apply tlb_set_way_other.
  - eapply Hfin; [|done]. apply (Hins _ e2); [done|done| |].
    + unfold is_page. congruence.
    + intros t' Hne. by apply tlb_set_way_other.
Qed.

(** ** Lines 335-565: a miss *)

Definition kind_of (req : MemReq) : ReqType := if IsGet (type req) then LOAD else STORE.

Lemma tables_ok_tb tb s : tb_inv tb -> tables_ok s -> tables_ok (set_tag_buffer (Some tb) s).
Proof. intros Hi [H1 H2 H3]. split; simpl; [done|done|by apply policy_ok_tb]. Qed.

Lemma remember_load_ok l t s cache :
  c_scheme cfg = HybridCache -> policy_ok cache s ->
  wp (remember_load l t) (fun _ s' => s' = s \/ exists tb', s' = set_tag_buffer (Some tb') s /\ tb_inv tb') s.
Proof.
  intros Hsch Hpol. destruct (po_tb _ _ Hpol Hsch) as (tb & Htb & Hi).
  unfold remember_load. apply wp_when; [intros _|by left].
  destruct (canInsert_total tb (l_tag l) Hi) as [b Hb].
  apply wp_bind. eapply wp_ask_tb; [done|done|]. apply wp_when; intros ->; [|by left].
  eapply wp_on_tb; [done|by apply tb_insert_ok|]. intros [] tb' (Hi' & _ & _). eauto.
Qed.

(** The state in which the new page can be installed. *)
Definition vacated (old : Way) (s0 s1 s : MC D) : Prop :=
  mc_cache s = mc_cache s0 /\ outer s = outer s0 /\
  mc_tlb s = (if w_valid old then tlb_set_way (w_tag old) ways (mc_tlb s0) else mc_tlb s0) /\
  (forall c, policy_ok c s1 -> policy_ok c s).

Lemma vacate_ok l way ca cur req src s0 s1 s old :
  has_cache cfg -> srcId req = src -> tables_ok s0 -> probe_ok l ways s0 ->
  chosen l s0 way ca s1 -> core s = core s1 -> opened_ src (mc_mem s) ->
  (way < ways)%nat -> cached (mc_cache s0) (l_set l) way old ->
  wp (if w_valid old then evict cfg l (kind_of req) old cur req else ret req)
    (fun req' s' => same_req req req' /\ opened_ src (mc_mem s') /\ vacated old s0 s1 s') s.
Proof.
  intros Hhc Hs Ht Hp [(E1 & E2 & E3 & _ & E5) _ _ _ _ Hvic] Hc Hop Hway Hold.
  assert (forall c, policy_ok c s1 -> policy_ok c s) as Hpol by (intros c; by apply policy_ok_core).
  assert (mc_cache s = mc_cache s0 /\ mc_tlb s = mc_tlb s0 /\ outer s = outer s0 /\
          mc_tag_buffer s = mc_tag_buffer s0) as (Ec & Et & Eo & Eb).
  { rewrite (core_cache _ _ Hc), (core_tlb _ _ Hc), (outer_core _ _ Hc), (core_tb _ _ Hc). done. }
  unfold vacated. destruct (w_valid old) eqn:Hv; [|by apply wp_ret].
  assert (c_scheme cfg <> AlloyCache -> exists e, mc_tlb s0 !! w_tag old = Some e /\
            (is_page = true -> vecs_ok old e) /\ w_tag old <> l_tag l) as Hlisted.
  { intros Hal. destruct (tk_listed _ _ (to_tlb _ Ht Hal) _ _ _ Hold Hv) as (_ & e & He & Hwe & Hve).
    exists e. split_and!; [done|done|]. intros Heq.
    destruct (pr_tlb _ _ _ Hp Hal) as (e0 & He0 & Hw0). rewrite Heq in He. simplify_eq. lia. }
  assert (exists e, is_page = true -> mc_tlb s !! w_tag old = Some e /\ vecs_ok old e) as [e He].
  { destruct (decide (c_scheme cfg = AlloyCache)) as [E|E].
    - exists (mkTLB 0 0 0 0 0). intros Hpg. by apply not_page_alloy in Hpg.
    - destruct (Hlisted E) as (e & He & Hve & _). exists e. rewrite Et. auto. }
  eapply wp_mono; [eapply (evict_ok l (kind_of req) old cur req src s e Hhc Hs Hop); [|done]|].
  - intros Hh. destruct (Hlisted) as (_ & _ & _ & Hne); [congruence|]. split; [done|].
    destruct (po_tb _ _ (to_policy _ Ht) Hh) as (tb & Htb & Hi). exists tb.
    split_and!; [congruence|done|]. by apply Hvic.
  - intros req' s' (Hr & [V1 V2 V3 V4] & Hop'). split_and!; [done|done|congruence|congruence| |auto].
    by rewrite V2, Et.
Qed.

Lemma replace_ok (Hcfg : cfg_ok cfg) l way ca cur req src s0 s1 s :
  has_cache cfg -> loc_ok l -> srcId req = src -> type req <> PUTS ->
  tables_ok s0 -> probe_ok l ways s0 -> chosen l s0 way ca s1 -> core s = core s1 ->
  opened_ src (mc_mem s) ->
  wp (replace cfg l (kind_of req) way cur req) (fun req' s' =>
    same_req req req' /\ tables_ok s' /\ outer s' = outer s0 /\ opened_ src (mc_mem s')) s.
Proof.
  intros Hhc Hl Hs Hty Ht Hp Hch Hc Hop. pose proof (co_sets _ Hcfg) as Hns.
  unfold replace. destruct (Nat.ltb_spec way ways) as [Hway|Hway].
  - destruct (cache_set l s0 Hns Hl (to_cache _ Ht)) as (cs & Hcs & Hlen).
    destruct (lookup_lt_is_Some_2 cs way) as [old Hw]; [lia|].
    assert (cached (mc_cache s0) (l_set l) way old) as Hold by (by exists cs).
    apply wp_bind. eapply wp_quiet; [by apply fill_traffic_quiet|done|].
    intros ? s2 _ Hc2 Hop2. apply wp_bind. eapply wp_quiet; [apply quiet_inc|exact Hop2|].
    intros ? s3 _ Hc3 Hop3. assert (core s3 = core s1) as Hc' by congruence.
    apply wp_bind. eapply (wp_get_way _ _ old).
    { rewrite (core_cache _ _ Hc'). by destruct (ch_tables _ _ _ _ _ Hch) as (-> & _). }
    apply wp_bind. eapply wp_mono; [by eapply vacate_ok|].
    intros req' s4 (Hr & Hop4 & V1 & V2 & V3 & V4). apply wp_bind.
    assert (exists e0, c_scheme cfg <> AlloyCache -> tlb_ok (mc_cache s0) (mc_tlb s0) /\
              mc_tlb s0 !! l_tag l = Some e0 /\ t_way e0 = ways) as [e0 Htk].
    { destruct (decide (c_scheme cfg = AlloyCache)) as [E|E]; [by exists (mkTLB 0 0 0 0 0)|].
      destruct (pr_tlb _ _ _ Hp E) as (e0 & ? & ?). exists e0. intros _. split; [by apply Ht|done]. }
    destruct Hr as (Hr1 & Hr2 & Hr3).
    eapply wp_mono; [eapply (install_ok l _ way req' s4 s0 old e0)|]; try done.
    + by rewrite Hr2.
    + unfold kind_of. by rewrite Hr2.
    + apply Ht.
    + apply (ch_active _ _ _ _ _ Hch). by left.
    + intros d. apply V4, (ch_place _ _ _ _ _ Hch Hway).
    + intros [] s5 (Ht5 & Ho5 & Hm5). apply wp_ret. split_and!; [done..|]. by rewrite Hm5.
  - pose proof (ch_le _ _ _ _ _ Hch) as Hle. destruct (ch_keep _ _ _ _ _ Hch) as [Hpol Htag]; [lia|].
    destruct (ch_tables _ _ _ _ _ Hch) as (E1 & E2 & E3 & _ & E5).
    assert (tables_ok s) as Hts.
    { apply (tables_ok_core s1); [done|]. destruct Ht as [H1 H2 H3].
      split; rewrite ?E1, ?E2; [|done|done]. unfold outer in E5.
      by replace (mc_ds_index s1) with (mc_ds_index s0) by congruence. }
    assert (outer s = outer s0) as Eo by (by rewrite (outer_core _ _ Hc)).
    apply wp_bind. eapply (wp_mono _ (fun _ s' => tables_ok s' /\ outer s' = outer s0 /\
                             opened_ src (mc_mem s'))).
    { apply wp_when; intros Hb; [|done]. apply bool_decide_eq_true in Hb.
      eapply wp_mono; [by apply (remember_load_ok _ _ _ _ Hb (to_policy _ Hts))|].
      intros [] s' [->|(tb' & -> & Hi)]; [done|]. split_and!; [by apply tables_ok_tb|done|done]. }
    intros [] s' (Ht' & Ho' & Hop'). apply wp_bind, wp_assert.
    { by rewrite bool_decide_eq_false_2. }
    by apply wp_ret.
Qed.

Lemma on_miss_ok (Hcfg : cfg_ok cfg) l probe req ready s src :
  has_cache cfg -> loc_ok l -> srcId req = src -> type req <> PUTS ->
  tables_ok s -> probe_ok l ways s ->
  phase (probes l (kind_of req) (mc_ds_index s)) src (mc_mem s) ->
  wp (on_miss cfg l (kind_of req) probe req ready) (fun r s' =>
    let '(req', _, ca) := r in
    same_req req req' /\ tables_ok s' /\ outer s' = outer s /\ opened_ src (mc_mem s') /\
    (ca = true -> mc_ds_index s <= Z.of_nat (l_set l))) s.
Proof.
  intros Hhc Hl Hs Hty Ht Hp Hph. unfold on_miss.
  apply wp_bind. eapply wp_quiet; [apply quiet_count_miss|exact Hph|]. intros ? s1 _ Hc1 Hph1.
  apply wp_bind. eapply wp_quiet; [apply quiet_inc|exact Hph1|]. intros ? s2 _ Hc2 Hph2.
  assert (core s2 = core s) as Hc by congruence. clear Hc1 Hc2 Hph1 s1.
  pose proof (tables_ok_core _ _ Hc Ht) as Ht2. pose proof (probe_ok_core _ _ _ _ Hc Hp) as Hp2.
  apply wp_bind. eapply wp_mono; [by apply choose_way_ok|].
  intros [way ca] s3 Hch. simpl in Hch. apply wp_bind.
  destruct (ch_tables _ _ _ _ _ Hch) as (_ & _ & _ & E4 & E5).
  assert (mc_ds_index s3 = mc_ds_index s) as Eds.
  { rewrite <- (core_ds _ _ Hc). unfold outer in E5. congruence. }
  eapply wp_mono; [eapply (ext_load_ok l _ probe way req ready s3 src); try done|].
  { by rewrite Eds, E4. }
  intros [req1 ready1] s4 (Hr & Hc4 & Hop). simpl in Hr. apply wp_bind.
  destruct (Hr) as (Hr1 & Hr2 & Hr3).
  replace (kind_of req) with (kind_of req1) by (unfold kind_of; by rewrite Hr2).
  eapply wp_mono.
  { eapply (replace_ok Hcfg l way ca (cycle req) req1 src s2 s3 s4); try done; congruence. }
  intros req2 s5 (Hr' & Ht5 & Ho5 & Hop5). apply wp_ret.
  split_and!; [by eapply same_req_trans|done| |done|].
  - rewrite Ho5. by apply outer_core.
  - intros Hca. rewrite <- (core_ds _ _ Hc). apply (ch_active _ _ _ _ _ Hch). by right.
Qed.

(** ** Lines 566-677: a hit *)

Lemma put_id cache i j w : cached cache i j w -> put cache i j w = cache.
Proof. intros (cs & Hi & Hj). unfold put. rewrite Hi, (list_insert_id cs j w) by done. by apply list_insert_id. Qed.

Lemma tlb_ok_hit cache tlb tlb' i j w w' e e' :
  tlb_ok cache tlb -> cached cache i j w -> w_valid w = true ->
  w_valid w' = true -> w_tag w' = w_tag w ->
  tlb !! w_tag w = Some e -> tlb' !! w_tag w = Some e' -> t_way e' = t_way e ->
  (is_page = true -> vecs_ok w' e') ->
  (forall t, t <> w_tag w -> tlb' !! t = tlb !! t) ->
  tlb_ok (put cache i j w') tlb'.
Proof.
  intros [T1 T2] Hc Hv Hv' Htag He He' Hway Hvec Hoth.
  destruct (T2 _ _ _ Hc Hv) as (Hi & e1 & He1 & Hj & _). simplify_eq. split.
  - intros t e1 Ht Hw. destruct (decide (t = w_tag w)) as [->|Hne].
    + simplify_eq. exists w'. split; [|done]. apply (cached_put _ _ _ _ _ _ _ _ Hc). left.
      rewrite <- Hi. split_and!; [lia|done|done].
    + rewrite Hoth in Ht by done. destruct (T1 _ _ Ht Hw) as (x & Hx & Hvx & Htx).
      exists x. split; [|done]. apply (cached_put _ _ _ _ _ _ _ _ Hc). right. split; [|done].
      destruct (decide (Z.to_nat (t mod nsets) = i)) as [E1|]; [|by left].
      destruct (decide (t_way e1 = t_way e)) as [E2|]; [|by right].
      rewrite E1, E2 in Hx. rewrite (cached_fun _ _ _ _ _ Hc Hx) in Hne. done.
  - intros i' j' x Hx Hvx. apply (cached_put _ _ _ _ _ _ _ _ Hc) in Hx as [(-> & -> & ->)|[Hpos Hx]].
    + rewrite Htag. split; [done|]. by exists e'.
    + destruct (T2 _ _ _ Hx Hvx) as (Hi' & e1 & He1' & Hj' & Hve). split; [done|].
      exists e1. split; [|done]. rewrite Hoth; [done|]. intros Heq. rewrite Heq in *. simplify_eq.
      destruct Hpos as [[]|[]]; [lia|done].
Qed.

(** A later touch of a cached page. *)
Lemma vecs_touch w e t bit :
  vecs_ok w e -> 0 <= bit < 64 ->
  vecs_ok (mkWay (w_tag w) true (bool_decide (t = STORE) || w_dirty w))
    (mkTLB (t_tag e) (t_way e) (t_count e) (Z.lor (t_touch e) (Z.shiftl 1 bit))
       (if bool_decide (t = STORE) then Z.lor (t_dirty e) (Z.shiftl 1 bit) else t_dirty e)).
Proof.
  intros [[H1 H2] H3 H4] Hb. split; simpl.
  - auto with banshee.
  - case_bool_decide; auto with banshee.
  - intros Htd. case_bool_decide; simpl; [|by apply H4]. split; [intros _; by apply lor_bit_nonzero|done].
Qed.

(** The dirty flag is invisible to the policy. *)
Lemma keys_ok_dirty n ne cs K j w d :
  keys_ok n ne cs K -> cs !! j = Some w ->
  keys_ok n ne (<[j := mkWay (w_tag w) (w_valid w) d]> cs) K.
Proof.
  intros [K1 K2 K3 K4 K5 K6] Hj. split; try done.
  - by rewrite length_insert.
  - intros i x b t [[<- ->]|[_ Hx]]%list_lookup_insert_cases Hb; simpl; eauto.
  - intros i x k b t [[<- ->]|[_ Hx]]%list_lookup_insert_cases Hv; simpl in *; eauto.
Qed.

Lemma pp_at_dirty n c cs p j w d :
  pp_at n c cs p -> cs !! j = Some w ->
  pp_at n c (<[j := mkWay (w_tag w) (w_valid w) d]> cs) p.
Proof.
  intros (ci & bits & H1 & H2 & H3 & H4 & H5) Hj. exists ci, bits.
  split_and!; [done|done|done|by rewrite length_insert|]. intros Hf.
  destruct (H5 Hf) as [Hk Hcnt]. split; [by apply keys_ok_dirty|done].
Qed.

(** The way after a hit. *)
Definition hit_image (t : ReqType) (w : Way) : Way :=
  mkWay (w_tag w) true (bool_decide (t = STORE) || w_dirty w).

Lemma hit_policy_ok (Hcfg : cfg_ok cfg) l hw req s w :
  loc_ok l -> tables_ok s -> type req <> PUTS ->
  cached (mc_cache s) (l_set l) hw w -> w_valid w = true -> w_tag w = l_tag l ->
  wp (hit_policy cfg l (kind_of req) hw req) (fun _ s' =>
    mc_cache s' = put (mc_cache s) (l_set l) hw (hit_image (kind_of req) w) /\
    mc_tlb s' = mc_tlb s /\ outer s' = outer s /\ mc_mem s' = mc_mem s /\
    policy_ok (mc_cache s') s') s.
Proof.
  intros Hl Ht Hty Hc Hv Htag. unfold hit_policy. destruct (Hc) as (cs & Hcs & Hw).
  apply wp_bind.
  eapply (wp_mono _ (fun _ s1 => mc_cache s1 = mc_cache s /\ mc_tlb s1 = mc_tlb s /\
            outer s1 = outer s /\ mc_mem s1 = mc_mem s /\ policy_ok (mc_cache s) s1)).
  { destruct (_ || _) eqn:Hb; [|apply wp_ret; split_and!; try done; apply Ht].
    assert (c_scheme cfg = UnisonCache \/ c_scheme cfg = HybridCache) as Hsch.
    { apply orb_true_iff in Hb as [Hb|Hb]; apply bool_decide_eq_true in Hb; auto. }
    destruct (to_policy _ Ht) as [P1 P2 P3 P4]. destruct (P4 Hsch) as (p & Hpage & Hpi & Hps & Hpf).
    apply wp_bind, wp_get, wp_bind. eapply wp_get_set; [done|]. apply wp_bind, wp_get. rewrite Hpage.
    destruct (wp_ok _ _ _ (handleCacheHit_ok ways (view_of cfg s) (l_tag l) (l_set l) cs hw w p
                (pi_cfg _ _ _ Hpi) (pi_at _ _ _ Hpi _ _ Hcs) eq_refl Hw Hv Htag))
      as (ca & p' & Hrun & Hfr & Hat).
    apply wp_bind. eapply wp_lift; [done|]. apply wp_bind, wp_modify, wp_ret.
    destruct (pp_frame_scheme _ _ _ Hfr) as [Es Ep].
    split_and!; try done. split; simpl; [done|done|done|]. intros _. exists p'.
    split_and!; [done|by eapply pp_inv_keep|congruence|by rewrite Ep]. }
  intros ca s1 (E1 & E2 & E3 & E4 & Hpol). apply wp_bind. unfold hit_image, kind_of, IsGet.
  destruct (type req) eqn:Hty'; simpl; try done.
  - apply wp_modify, wp_ret. split_and!; try done; simpl.
    + rewrite put_id; [done|]. destruct w; simpl in *. by subst.
    + rewrite E1. destruct Hpol. by split.
  - apply wp_modify, wp_ret. split_and!; try done; simpl.
    + rewrite put_id; [done|]. destruct w; simpl in *. by subst.
    + rewrite E1. destruct Hpol. by split.
  - apply wp_bind, wp_modify, wp_bind. eapply (wp_get_way _ _ w); [simpl; by rewrite E1|].
    eapply (wp_put_way _ _ w); [simpl; by rewrite E1|]. apply wp_ret. simpl. rewrite E1, Hv.
    split_and!; try done. destruct Hpol as [P1 P2 P3 P4]. split; simpl; [done|done|done|].
    intros Hsch. destruct (P4 Hsch) as (p & Hp1 & Hp2 & Hp3). exists p. split_and!; [done| |apply Hp3..].
    unfold put. rewrite Hcs. eapply pp_inv_step; [done|apply pp_frame_refl|].
    rewrite <- Hv. apply pp_at_dirty; [|done]. by apply (pi_at _ _ _ Hp2).
Qed.

(** After [hit_first] the record is open exactly for Alloy and Unison. *)
Definition opens_first : bool :=
  bool_decide (c_scheme cfg = AlloyCache) || bool_decide (c_scheme cfg = UnisonCache).

Lemma hit_first_quiet l t req ready src ds :
  srcId req = src -> type req <> PUTS -> ds <= Z.of_nat (l_set l) ->
  quiet (phase (probes l t ds) src) (phase opens_first src) (fun r => same_req req (fst r))
    (hit_first cfg l t req ready).
Proof.
  intros Hs Hty Hact. unfold hit_first, opens_first, probes.
  rewrite (proj2 (Z.leb_le _ _) Hact).
  destruct (c_scheme cfg) eqn:Hsch; simpl; try (by quiet_tac).
  - destruct t; [destruct (c_sram_tag cfg)|]; simpl;
      change (phase true src) with (opened_ src); change (phase false src) with (idle_ src);
      (eapply (quiet_bind _ (opened_ src) _ (same_req req)); [quiet_tac|intros; quiet_tac]).
  - change (phase true src) with (opened_ src).
    eapply (quiet_bind _ (opened_ src) _ (same_req req)); [quiet_tac|intros; quiet_tac].
Qed.

(** The tables between the policy's update and the touch of the line. *)
Definition hit_mid (l : Loc) (hw : nat) (t : ReqType) (w : Way) (s0 s : MC D) : Prop :=
  mc_cache s = put (mc_cache s0) (l_set l) hw (hit_image t w) /\ mc_tlb s = mc_tlb s0 /\
  outer s = outer s0 /\ policy_ok (mc_cache s) s.

Lemma hit_mid_core l hw t w s0 s s' :
  core s' = core s -> hit_mid l hw t w s0 s -> hit_mid l hw t w s0 s'.
Proof.
  intros Hc (H1 & H2 & H3 & H4). unfold hit_mid.
  rewrite (core_cache _ _ Hc), (core_tlb _ _ Hc), (outer_core _ _ Hc).
  split_and!; [done..|by eapply policy_ok_core].
Qed.

Section HitTables.
Context (l : Loc) (hw : nat) (t : ReqType) (w : Way) (s0 : MC D).
Context (Ht : tables_ok s0) (Hc : cached (mc_cache s0) (l_set l) hw w)
  (Hv : w_valid w = true) (Htag : w_tag w = l_tag l).

Lemma hit_cache_ok : cache_ok (put (mc_cache s0) (l_set l) hw (hit_image t w)) (mc_ds_index s0).
Proof using Ht Hc Hv.
  eapply put_shape_ok; [apply Ht|done|]. intros _. by eapply (ck_active _ _ (to_cache _ Ht)).
Qed.

(** Schemes without line vectors are done. *)
Lemma hit_done_plain s : is_page = false -> hit_mid l hw t w s0 s -> tables_ok s.
Proof using Ht Hc Hv Htag.
  intros Hp (H1 & H2 & H3 & H4).
  assert (mc_ds_index s = mc_ds_index s0) as Eds by (unfold outer in H3; congruence).
  split; [rewrite H1, Eds; apply hit_cache_ok| |done].
  intros Hal. rewrite H1, H2.
  destruct (tk_listed _ _ (to_tlb _ Ht Hal) _ _ _ Hc Hv) as (_ & e & He & _ & _).
  eapply tlb_ok_hit; try done; [by apply Ht|]. by rewrite Hp.
Qed.

(** The others after [touch_line]. *)
Lemma touch_hit_ok m s :
  is_page = true -> loc_ok l -> hit_mid l hw t w s0 s ->
  wp (touch_line m false l t) (fun _ s' => tables_ok s' /\ outer s' = outer s0 /\
    mc_mem s' = mc_mem s) s.
Proof using Ht Hc Hv Htag.
  intros Hp Hl (H1 & H2 & H3 & H4). pose proof (not_page_alloy Hp) as Hal.
  assert (mc_ds_index s = mc_ds_index s0) as Eds by (unfold outer in H3; congruence).
  apply wp_touch_line; [done|done|]. cbv zeta.
  destruct (tk_listed _ _ (to_tlb _ Ht Hal) _ _ _ Hc Hv) as (_ & e & He & Hje & Hve).
  assert (tlb_at (mc_tlb s) (l_tag l) = e) as ->
    by (unfold tlb_at; by rewrite H2, <- Htag, He).
  split_and!; [|done|done]. split; simpl.
  - rewrite H1, Eds. apply hit_cache_ok.
  - intros _. rewrite H1. unfold tlb_set_vecs.
    assert (tlb_at (mc_tlb s) (l_tag l) = e) as -> by (unfold tlb_at; by rewrite H2, <- Htag, He).
    eapply (tlb_ok_hit _ (mc_tlb s0) _ _ _ w (hit_image t w) e);
      [by apply Ht|done..|rewrite Htag; by apply lookup_insert_eq|done| |].
    + intros _. apply vecs_touch; [auto|by apply Hl].
    + intros t' Hne. rewrite lookup_insert_ne by congruence. by rewrite H2.
  - destruct H4. by split.
Qed.
End HitTables.

(** [remember_load] between the two: only the tag buffer changes. *)
Lemma hit_remember_ok l hw t w s0 s :
  c_scheme cfg = HybridCache -> hit_mid l hw t w s0 s ->
  wp (remember_load l t) (fun _ s' => hit_mid l hw t w s0 s' /\ mc_mem s' = mc_mem s) s.
Proof.
  intros Hsch (M1 & M2 & M3 & M4).
  eapply wp_mono; [by apply (remember_load_ok l t s _ Hsch M4)|].
  intros [] s' [->|(tb & -> & Hi)]; (split; [|done]); [done|].
  split_and!; [done..|by apply policy_ok_tb].
Qed.

Lemma hit_data_ok l hw t w probe req ready src s0 s :
  has_cache cfg -> loc_ok l -> srcId req = src -> type req <> PUTS ->
  (probe = true -> c_sram_tag cfg = false) ->
  tables_ok s0 -> cached (mc_cache s0) (l_set l) hw w -> w_valid w = true -> w_tag w = l_tag l ->
  hit_mid l hw t w s0 s -> phase opens_first src (mc_mem s) ->
  wp (hit_data cfg l t probe req ready) (fun r s' =>
    same_req req (fst r) /\ tables_ok s' /\ outer s' = outer s0 /\ opened_ src (mc_mem s')) s.
Proof.
  intros [Hnc Hco] Hl Hs Hty Hpr Ht Hc Hv Htag Hm Hph. unfold hit_data.
  pose proof (hit_done_plain l hw t w s0 Ht Hc Hv Htag) as Hplain.
  pose proof (touch_hit_ok l hw t w s0 Ht Hc Hv Htag) as Htouch.
  assert (forall m req' (r : Z) (s1 : MC D), is_page = true -> same_req req req' -> hit_mid l hw t w s0 s1 ->
    opened_ src (mc_mem s1) ->
    wp (touch_line m false l t ;; ret (req', r)) (fun r s' => same_req req (fst r) /\ tables_ok s' /\
      outer s' = outer s0 /\ opened_ src (mc_mem s')) s1) as Hend.
  { intros m req' r s1 Hp Hr Hm1 Hop. apply wp_bind. eapply wp_mono; [by apply Htouch|].
    intros [] s2 (Ht2 & Ho2 & Hm2). apply wp_ret. split_and!; [done..|]. by rewrite Hm2. }
  unfold opens_first in Hph. unfold is_page, is_page_cache in Hplain, Hend.
  destruct (c_scheme cfg) eqn:Hsch; try done; simpl in Hph, Hplain, Hend.
  - apply wp_ret. split_and!; [done|by apply Hplain|by apply Hm|done].
  - apply wp_bind. quiet_next Hph. intros ? s1 _ Hc1 Hop1.
    apply wp_bind. quiet_next Hop1. intros ? s2 _ Hc2 Hop2.
    apply wp_bind. quiet_next Hop2. intros ? s3 _ Hc3 Hop3.
    apply Hend; [done..| |done]. eapply hit_mid_core; [|done]. congruence.
  - apply wp_bind. quiet_next Hph. intros req1 s1 Hr1 Hc1 Hop1.
    apply wp_bind. quiet_next Hop1. intros ? s2 _ Hc2 Hop2.
    assert (hit_mid l hw t w s0 s2) as Hm2 by (eapply hit_mid_core; [|done]; congruence).
    apply wp_ret. split_and!; [done|by apply Hplain|apply Hm2|done].
  - destruct probe.
    + apply wp_bind, wp_assert; [by rewrite Hpr|].
      apply wp_bind. quiet_next Hph. intros c s1 _ Hc1 Hop1.
      apply wp_bind. quiet_next Hop1. intros ? s2 _ Hc2 Hop2.
      apply wp_bind. quiet_next Hop2. intros ? s3 _ Hc3 Hop3.
      apply wp_bind. quiet_next Hop3. intros req4 s4 Hr4 Hc4 Hop4.
      apply wp_bind. quiet_next Hop4. intros ? s5 _ Hc5 Hop5.
      apply Hend; [done|done| |done]. eapply hit_mid_core; [|done]. congruence.
    + apply wp_bind. quiet_next Hph. intros req1 s1 Hr1 Hc1 Hop1.
      apply wp_bind. quiet_next Hop1. intros ? s2 _ Hc2 Hop2.
      assert (hit_mid l hw t w s0 s2) as Hm2 by (eapply hit_mid_core; [|done]; congruence).
      apply wp_bind. eapply (wp_mono _ (fun _ s' => hit_mid l hw t w s0 s' /\ opened_ src (mc_mem s'))).
      * eapply wp_mono; [by eapply hit_remember_ok|]. intros [] s3 [? ->]. done.
      * intros [] s3 [Hm3 Hop3]. by apply Hend.
  - apply wp_bind. quiet_next Hph. intros req1 s1 Hr1 Hc1 Hop1.
    apply wp_bind. quiet_next Hop1. intros ? s2 _ Hc2 Hop2.
    apply Hend; [done|done| |done]. eapply hit_mid_core; [|done]. congruence.
Qed.

Lemma on_hit_ok (Hcfg : cfg_ok cfg) l hw probe req ready s src :
  has_cache cfg -> loc_ok l -> srcId req = src -> type req <> PUTS ->
  (probe = true -> c_sram_tag cfg = false) ->
  tables_ok s -> probe_ok l hw s -> hw <> ways ->
  phase (probes l (kind_of req) (mc_ds_index s)) src (mc_mem s) ->
  wp (on_hit cfg l (kind_of req) hw probe req ready) (fun r s' =>
    let '(req', _, ca) := r in
    same_req req req' /\ tables_ok s' /\ outer s' = outer s /\ opened_ src (mc_mem s') /\
    (ca = true -> mc_ds_index s <= Z.of_nat (l_set l))) s.
Proof.
  intros Hhc Hl Hs Hty Hpr Ht Hp Hhw Hph. unfold on_hit.
  destruct (pr_hit _ _ _ Hp Hhw) as (w & Hc & Hv & Htag).
  pose proof (ck_active _ _ (to_cache _ Ht) _ _ _ Hc Hv) as Hact.
  apply wp_bind, wp_get, wp_bind, wp_assert; [by apply Z.leb_le|].
  apply wp_bind. eapply wp_quiet; [by apply hit_first_quiet|exact Hph|].
  intros [req1 ready1] s1 Hr Hc1 Hph1. simpl in Hr. destruct (Hr) as (Hr1 & Hr2 & Hr3).
  apply wp_bind. eapply wp_quiet; [apply quiet_count_hit|exact Hph1|]. intros ? s2 _ Hc2 Hph2.
  assert (core s2 = core s) as Hcs by congruence.
  replace (kind_of req) with (kind_of req1) by (unfold kind_of; by rewrite Hr2).
  apply wp_bind. eapply wp_mono; [eapply (hit_policy_ok Hcfg l hw req1 s2 w); try done|].
  - by eapply tables_ok_core.
  - congruence.
  - by rewrite (core_cache _ _ Hcs).
  - intros ca s3 (E1 & E2 & E3 & E4 & E5). apply wp_bind. eapply wp_mono.
    + eapply (hit_data_ok l hw (kind_of req1) w probe req1 ready1 src s s3); try done; try congruence.
      split_and!; [|rewrite E2; by apply core_tlb|rewrite E3; by apply outer_core|done].
        by rewrite E1, (core_cache _ _ Hcs).
    + intros [req4 ready4] s4 (Hr4 & Ht4 & Ho4 & Hop4). apply wp_ret.
      split_and!; [by eapply same_req_trans|done..].
Qed.

(** ** Lines 680-705 *)

Lemma counter_traffic_ok l ca req src s :
  srcId req = src -> (ca = true -> mc_ds_index s <= Z.of_nat (l_set l)) ->
  opened_ src (mc_mem s) ->
  wp (counter_traffic cfg l ca req) (fun _ s' => core s' = core s /\ opened_ src (mc_mem s')) s.
Proof.
  intros Hs Hca Hop. unfold counter_traffic. apply wp_when; [|done].
  intros [-> _]%andb_true_iff. apply wp_bind, wp_get, wp_bind, wp_assert; [by apply Z.leb_le, Hca|].
  quiet_next Hop. done.
Qed.

Lemma flush_tb_ok req s tb :
  mc_tag_buffer s = Some tb -> tb_inv tb ->
  wp (flush_tb req) (fun _ s' => exists tb' st, s' = set_stats st (set_tag_buffer (Some tb') s) /\
    tb_inv tb' /\ forall t, canInsert t tb' = Ok true) s.
Proof.
  intros Htb Hi. destruct (tb_clear_ok tb Hi) as (Hi' & _ & Hall). unfold flush_tb.
  apply wp_bind. eapply (wp_on_tb _ tb (fun _ tb' => tb' = clearTagBuffer tb)); [done|done|].
  intros [] tb1 ->. apply wp_bind.
  eapply (wp_on_tb _ (clearTagBuffer tb) (fun _ tb' => tb' = setClearTime (cycle req) (clearTagBuffer tb)));
    [done|done|].
  intros [] tb2 ->. apply wp_modify. eexists _, _. split_and!; [done|by apply tb_clear_time_inv|].
  intros t. rewrite canInsert_clear_time. apply Hall.
Qed.

Lemma maybe_flush_ok req s :
  tables_ok s ->
  wp (maybe_flush cfg req) (fun _ s' => tables_ok s' /\ outer s' = outer s /\ mc_mem s' = mc_mem s) s.
Proof.
  intros Ht. unfold maybe_flush. apply wp_when; intros Hb; [|done]. apply bool_decide_eq_true in Hb.
  destruct (po_tb _ _ (to_policy _ Ht) Hb) as (tb & Htb & Hi).
  apply wp_bind. eapply wp_ask_tb; [done|done|]. apply wp_when; intros _; [|done].
  eapply wp_mono; [by eapply flush_tb_ok|]. intros [] s' (tb' & st & -> & Hi' & _).
  split_and!; [|done|done]. apply (tables_ok_core (set_tag_buffer (Some tb') s)); [done|].
  by apply tables_ok_tb.
Qed.

Lemma os_remap_ok (Hcfg : cfg_ok cfg) s :
  wp (os_remap cfg) (fun _ s' => core s' = core s /\ mc_mem s' = mc_mem s) s.
Proof.
  unfold os_remap. apply wp_when; intros Hb; [|done]. apply bool_decide_eq_true in Hb.
  apply wp_bind, wp_get, wp_bind. eapply wp_lift.
  { unfold umod. by rewrite (proj2 (Z.eqb_neq _ _) (co_quantum _ Hcfg Hb)). }
  by apply wp_when.
Qed.

(** ** Lines 707-771: rebalancing *)

Lemma dbl_to_i64_range x : - 2 ^ 63 <= dbl_to_i64 x < 2 ^ 63.
Proof.
  unfold dbl_to_i64. destruct x as [b|b| |b m e]; try lia.
  destruct (_ && _) eqn:E; [|lia]. apply andb_true_iff in E as [E1 E2].
  apply Z.leb_le in E1. apply Z.ltb_lt in E2. done.
Qed.

Lemma delta_index_range p : - 2 ^ 63 <= delta_index cfg p < 2 ^ 63.
Proof. unfold delta_index. destruct (_ && _); [lia|]. apply dbl_to_i64_range. Qed.

(** The boundary moves by [delta], and never wraps upwards. *)
Lemma next_ds_index_ok ds delta :
  in_u64 ds -> - 2 ^ 63 <= delta < 2 ^ 63 ->
  in_u64 (next_ds_index ds delta) /\
  (delta <= 0 -> next_ds_index ds delta <= ds) /\
  (next_ds_index ds delta <= u64 (ds + delta)).
Proof.
  intros Hds Hd. unfold next_ds_index.
  assert (0 <= ds + delta -> delta <= 0 -> u64 (ds + delta) = ds + delta) as Hu.
  { intros. apply u64_id. unfold in_u64 in *. lia. }
  pose proof (u64_range (ds + delta)) as Hr.
  destruct (Z.leb_spec (i64 (i64 ds + delta)) 0) as [Hx|Hx].
  - unfold in_u64 in *. split_and!; lia.
  - split_and!; [done| |lia]. intros Hle. destruct (Z.le_gt_cases 0 (ds + delta)) as [Hp|Hn].
    + rewrite Hu; lia.
    + exfalso. assert (ds < 2 ^ 63) by lia. unfold in_u64 in Hds.
      rewrite (i64_id ds), i64_id in Hx; lia.
Qed.

Lemma tlb_ok_drop cache tlb i j w :
  tlb_ok cache tlb -> cached cache i j w ->
  tlb_ok (put cache i j (mkWay (w_tag w) false false))
    (if w_valid w then tlb_set_way (w_tag w) ways tlb else tlb).
Proof.
  intros [T1 T2] Hc.
  assert (forall t, w_valid w = false \/ t <> w_tag w ->
    (if w_valid w then tlb_set_way (w_tag w) ways tlb else tlb) !! t = tlb !! t) as Hoth.
  { intros t [->|Hne]; [done|]. destruct (w_valid w); [by apply tlb_set_way_other|done]. }
  split.
  - intros t e He Hw. assert (w_valid w = false \/ t <> w_tag w) as Hne.
    { destruct (w_valid w); [|by left]. right. intros ->.
      destruct (tlb_set_way_same (w_tag w) ways tlb) as (e' & He' & ?). congruence. }
    rewrite (Hoth t Hne) in He. destruct (T1 t e He Hw) as (x & Hx & Hvx & Htx).
    exists x. split; [|done]. apply (cached_put _ _ _ _ _ _ _ _ Hc). right. split; [|done].
    destruct (decide (Z.to_nat (t mod nsets) = i)) as [E1|]; [|by left].
    destruct (decide (t_way e = j)) as [E2|]; [|by right].
    rewrite E1, E2 in Hx. rewrite (cached_fun _ _ _ _ _ Hc Hx) in Hne. destruct Hne; congruence.
  - intros i' j' x Hx Hvx. apply (cached_put _ _ _ _ _ _ _ _ Hc) in Hx as [(_ & _ & ->)|[Hpos Hx]]; [done|].
    destruct (T2 _ _ _ Hx Hvx) as (Hi' & e & He & Hje & Hve). split; [done|]. exists e. split; [|done].
    rewrite Hoth; [done|]. destruct (w_valid w) eqn:Hv; [|by left]. right. intros Heq.
    destruct (T2 _ _ _ Hc Hv) as (Hi & e' & He' & Hje' & _). rewrite Heq in *. simplify_eq.
    destruct Hpos as [[]|[]]; [lia|done].
Qed.

(** A set is being flushed: its ways change one by one, while the policy's
    tables still describe the cache [c0] of before. *)
Record flushing (c0 : list CacheSet) (i : nat) (s : MC D) : Prop := {
  fl_cache : cache_ok (mc_cache s) (mc_ds_index s);
  fl_tlb : c_scheme cfg <> AlloyCache -> tlb_ok (mc_cache s) (mc_tlb s);
  fl_policy : policy_ok c0 s;
  fl_same : forall k, k <> i -> mc_cache s !! k = c0 !! k
}.

Lemma flushing_core c0 i s s' : core s' = core s -> flushing c0 i s -> flushing c0 i s'.
Proof.
  intros Hc [H1 H2 H3 H4].
  split; rewrite ?(core_cache _ _ Hc), ?(core_ds _ _ Hc), ?(core_tlb _ _ Hc);
    [done|done|by eapply policy_ok_core|done].
Qed.

Definition invalid_at (s : MC D) (i j : nat) : Prop :=
  forall w, cached (mc_cache s) i j w -> w_valid w = false.

(** Dropping the TLB entry and remembering the remap. *)
Lemma forget_page_ok req w tb s :
  mc_tag_buffer s = Some tb -> tb_inv tb ->
  wp (modify (fun s => set_tlb (tlb_set_way (w_tag w) ways (mc_tlb s)) s) ;;
      ok <- ask_tb (canInsert (w_tag w)) ;;
      when (negb ok) (flush_tb req) ;;
      ok <- ask_tb (canInsert (w_tag w)) ;;
      assert_ "mc.cpp:757" ok ;;
      on_tb (tb_insert (w_tag w) true))
    (fun _ s' => exists tb' st, tb_inv tb' /\ remapped tb' (w_tag w) /\
       s' = set_stats st (set_tag_buffer (Some tb') (set_tlb (tlb_set_way (w_tag w) ways (mc_tlb s)) s))) s.
Proof.
  intros Htb Hi. apply wp_bind, wp_modify. destruct (canInsert_total tb (w_tag w) Hi) as [b Hb].
  apply wp_bind. eapply wp_ask_tb; [done|done|]. apply wp_bind.
  set (s1 := set_tlb _ s).
  eapply (wp_mono _ (fun _ s2 => exists tb2 st, s2 = set_stats st (set_tag_buffer (Some tb2) s1) /\
            tb_inv tb2 /\ canInsert (w_tag w) tb2 = Ok true)).
  { apply wp_when; intros Hnb.
    - eapply wp_mono; [by eapply flush_tb_ok|]. intros [] s2 (tb2 & st & -> & Hi2 & Hall). eauto 6.
    - destruct b; [|done]. exists tb, (mc_stats s1). split_and!; [|done|done].
      destruct s; simpl in *. by subst. }
  intros [] s2 (tb2 & st & -> & Hi2 & Hc2). apply wp_bind. eapply wp_ask_tb; [done|done|].
  apply wp_bind, wp_assert; [done|]. eapply wp_on_tb; [done|by apply tb_insert_ok|].
  intros [] tb3 (Hi3 & Hadd & _). exists tb3, st. split_and!; [done| |done]. apply Hadd. right. done.
Qed.

Lemma flush_way_ok req mc i j c0 src s w :
  c_scheme cfg = AlloyCache \/ c_scheme cfg = HybridCache ->
  srcId req = src -> opened_ src (mc_mem s) -> flushing c0 i s -> cached (mc_cache s) i j w ->
  wp (flush_way cfg req mc i j) (fun _ s' => flushing c0 i s' /\ outer s' = outer s /\
    opened_ src (mc_mem s') /\
    mc_cache s' = put (mc_cache s) i j (mkWay (w_tag w) false false)) s.
Proof.
  intros Hsch Hs Hop Hf Hc. unfold flush_way.
  apply wp_bind. eapply wp_get_way; [done|]. cbv zeta. apply wp_bind.
  eapply (wp_quiet (opened_ src) (opened_ src) any); [quiet_tac|done|]. intros ? s1 _ Hc1 Hop1.
  pose proof (flushing_core _ _ _ _ Hc1 Hf) as [F1 F2 F3 F4].
  assert (mc_cache s1 = mc_cache s) as E1 by (by apply core_cache).
  apply wp_bind.
  eapply (wp_mono _ (fun _ s2 => mc_cache s2 = mc_cache s /\ outer s2 = outer s /\
            mc_ds_index s2 = mc_ds_index s1 /\ opened_ src (mc_mem s2) /\ policy_ok c0 s2 /\
            (c_scheme cfg <> AlloyCache -> mc_tlb s2 =
               if w_valid w then tlb_set_way (w_tag w) ways (mc_tlb s1) else mc_tlb s1))).
  { apply wp_when; intros Hb.
    - apply andb_true_iff in Hb as [Hb Hv]. apply bool_decide_eq_true in Hb.
      destruct (po_tb _ _ F3 Hb) as (tb & Htb & Hi).
      eapply wp_mono; [by eapply forget_page_ok|]. intros [] s2 (tb2 & st & Hi2 & _ & ->).
      split_and!; [done|by apply (outer_core _ _ Hc1)|done|done| |].
      + destruct F3 as [P1 P2 P3 P4]. split; simpl; eauto.
      + simpl. by rewrite Hv.
    - split_and!; [done|by apply (outer_core _ _ Hc1)|done|done|done|].
      intros Hal. destruct Hsch as [?|Hh]; [done|]. rewrite bool_decide_eq_true_2 in Hb by done.
      simpl in Hb. by rewrite Hb. }
  intros [] s2 (G1 & G2 & G3 & G4 & G5 & G6). eapply wp_put_way; [by rewrite G1|].
  split_and!; [|done|done|simpl; by rewrite G1]. split; simpl.
  - rewrite G1, G3. eapply put_shape_ok; [by rewrite <- E1|done|done].
  - intros Hal. rewrite G1, (G6 Hal). apply tlb_ok_drop; [|done]. rewrite <- E1. auto.
  - destruct G5. by split.
  - intros k Hk. rewrite G1. unfold put. destruct Hc as (cs & -> & _).
    rewrite list_lookup_insert_ne by done. rewrite <- E1. auto.
Qed.

(** One set: all its ways end invalid, and every table agrees again. *)
Lemma flush_set_ok req mc i src s :
  c_scheme cfg = AlloyCache \/ c_scheme cfg = HybridCache ->
  srcId req = src -> opened_ src (mc_mem s) -> tables_ok s -> (i < Z.to_nat nsets)%nat ->
  wp (flush_set cfg req mc i) (fun _ s' => tables_ok s' /\ outer s' = outer s /\
    opened_ src (mc_mem s') /\ (forall j, invalid_at s' i j) /\
    (forall k, k <> i -> mc_cache s' !! k = mc_cache s !! k)) s.
Proof.
  intros Hsch Hs Hop Ht Hi. unfold flush_set. set (c0 := mc_cache s).
  apply wp_bind.
  apply (wp_forM _ _ (fun pre s' => flushing c0 i s' /\ outer s' = outer s /\
           opened_ src (mc_mem s') /\ forall j, (j < length pre)%nat -> invalid_at s' i j)).
  - split_and!; try done; [|simpl; intros; lia]. destruct Ht. by split.
  - intros pre j post s1 Hseq (Hf & Ho & Hop1 & Hinv).
    assert (j = length pre /\ (j < ways)%nat) as [Hj Hlt].
    { assert (seq 0 ways !! length pre = Some j) as Hl
        by (by rewrite Hseq, lookup_app_r, Nat.sub_diag by lia).
      apply lookup_seq in Hl. lia. }
    destruct (lookup_lt_is_Some_2 (mc_cache s1) i) as [cs Hcs].
    { by rewrite (ck_sets _ _ (fl_cache _ _ _ Hf)). }
    destruct (lookup_lt_is_Some_2 cs j) as [w Hw].
    { by rewrite (ck_ways _ _ (fl_cache _ _ _ Hf) _ _ Hcs). }
    assert (cached (mc_cache s1) i j w) as Hc by (by exists cs).
    eapply wp_mono; [by eapply flush_way_ok|]. intros [] s2 (Hf2 & Ho2 & Hop2 & Hc2).
    split_and!; [done|congruence|done|]. intros j' Hj' x Hx. rewrite Hc2 in Hx.
    apply (cached_put _ _ _ _ _ _ _ _ Hc) in Hx as [(_ & _ & ->)|[Hpos Hx]]; [done|].
    apply (Hinv j'); [|done]. rewrite length_app in Hj'. simpl in Hj'. destruct Hpos; [done|lia].
  - intros s1 (Hf & Ho & Hop1 & Hinv). rewrite length_seq in Hinv.
    assert (forall j, invalid_at s1 i j) as Hall.
    { intros j w Hc. destruct (Hc) as (cs & Hcs & Hw). apply (Hinv j); [|done].
      rewrite <- (ck_ways _ _ (fl_cache _ _ _ Hf) _ _ Hcs). by eapply lookup_lt_Some. }
    destruct Hf as [F1 F2 F3 F4]. apply wp_when; intros Hb.
    + apply bool_decide_eq_true in Hb.
      destruct (po_page _ _ F3 (or_intror Hb)) as (p & Hp & Hpi & Hps & Hpf).
      destruct (lookup_lt_is_Some_2 (mc_cache s1) i) as [cs Hcs]; [by rewrite (ck_sets _ _ F1)|].
      destruct (lookup_lt_is_Some_2 c0 i) as [cs0 Hcs0].
      { unfold c0. by rewrite (ck_sets _ _ (to_cache _ Ht)). }
      apply wp_bind, wp_get. rewrite Hp.
      destruct (wp_ok _ _ _ (flushChunk_ok ways i cs0 cs p (pi_cfg _ _ _ Hpi)
                  (pi_at _ _ _ Hpi _ _ Hcs0) (ck_ways _ _ F1 _ _ Hcs)
                  (fun j w Hw => Hall j w (ex_intro _ cs (conj Hcs Hw)))))
        as ([] & p' & Hrun & Hfr & Hat).
      apply wp_bind. eapply wp_lift; [done|]. apply wp_bind, wp_modify, wp_ret.
      assert (mc_cache s1 = <[i := cs]> c0) as Ec.
      { apply list_eq. intros k. destruct (decide (k = i)) as [->|Hk].
        - rewrite Hcs, list_lookup_insert_eq; [done|]. by eapply lookup_lt_Some.
        - rewrite list_lookup_insert_ne by done. auto. }
      destruct (pp_frame_scheme _ _ _ Hfr) as [Es Ep].
      split_and!; [|done|done|done|exact F4]. split; simpl; [done|done|].
      destruct F3 as [P1 P2 P3 P4]. split; simpl; [done|done|done|]. intros _. exists p'.
      split_and!; [done| |congruence|]; [rewrite Ec; by eapply pp_inv_step|].
      intros Hfb. apply Hpf. congruence.
    + apply bool_decide_eq_false in Hb. destruct Hsch as [Hal|?]; [|done].
      split_and!; [|done..]. split; [done|done|]. eapply policy_ok_any; [..|done]; congruence.
Qed.

Definition flushed (lo n : nat) (s : MC D) : Prop :=
  forall i j, (lo <= i < lo + n)%nat -> invalid_at s i j.

Lemma invalid_at_same s s' i j :
  mc_cache s' !! i = mc_cache s !! i -> invalid_at s i j -> invalid_at s' i j.
Proof. intros E Hinv w (cs & Hi & Hj). apply (Hinv w). exists cs. by rewrite <- E. Qed.

(** The inner loop, over the sets [\[lo, lo + n)]. *)
Lemma flush_range_ok req mc lo n src s :
  c_scheme cfg = AlloyCache \/ c_scheme cfg = HybridCache ->
  srcId req = src -> opened_ src (mc_mem s) -> tables_ok s -> (n = 0 \/ lo + n <= Z.to_nat nsets)%nat ->
  wp (forM (seq lo n) (flush_set cfg req mc)) (fun _ s' => tables_ok s' /\ outer s' = outer s /\
    opened_ src (mc_mem s') /\ flushed lo n s') s.
Proof.
  intros Hsch Hs Hop Ht Hn.
  apply (wp_forM _ _ (fun pre s' => tables_ok s' /\ outer s' = outer s /\
           opened_ src (mc_mem s') /\ flushed lo (length pre) s')).
  - split_and!; try done. intros i j. simpl. lia.
  - intros pre i post s1 Hseq (Ht1 & Ho1 & Hop1 & Hfl).
    assert (i = (lo + length pre)%nat /\ (length pre < n)%nat) as [-> Hlt].
    { assert (seq lo n !! length pre = Some i) as Hl
        by (by rewrite Hseq, lookup_app_r, Nat.sub_diag by lia).
      apply lookup_seq in Hl. lia. }
    eapply wp_mono; [eapply (flush_set_ok req mc _ src s1); try done; lia|].
    intros [] s2 (Ht2 & Ho2 & Hop2 & Hinv & Hsame). split_and!; [done|congruence|done|].
    intros i j Hi. rewrite length_app in Hi. simpl in Hi.
    destruct (decide (i = (lo + length pre)%nat)) as [->|Hne]; [done|].
    eapply invalid_at_same; [by apply Hsame|]. apply Hfl. lia.
  - intros s1. by rewrite length_seq.
Qed.

Lemma flush_sets_ok (Hcfg : cfg_ok cfg) req lo hi src s :
  c_scheme cfg = AlloyCache \/ c_scheme cfg = HybridCache ->
  srcId req = src -> opened_ src (mc_mem s) -> tables_ok s -> 0 <= lo ->
  wp (flush_sets cfg req lo hi) (fun _ s' => tables_ok s' /\ outer s' = outer s /\
    opened_ src (mc_mem s') /\
    forall i j, lo <= Z.of_nat i < Z.min hi nsets -> invalid_at s' i j) s.
Proof.
  intros Hsch Hs Hop Ht Hlo. pose proof (co_sets _ Hcfg) as Hns. pose proof (co_channels _ Hcfg) as Hch.
  unfold flush_sets. set (n := Z.to_nat (Z.min hi nsets - lo)).
  assert (n = 0 \/ Z.to_nat lo + n <= Z.to_nat nsets)%nat as Hn by lia.
  apply (wp_forM _ _ (fun pre s' => tables_ok s' /\ outer s' = outer s /\ opened_ src (mc_mem s') /\
           (pre <> [] -> flushed (Z.to_nat lo) n s'))).
  - done.
  - intros pre mc post s1 _ (Ht1 & Ho1 & Hop1 & _).
    eapply wp_mono; [eapply (flush_range_ok req mc (Z.to_nat lo) n src s1); done|].
    intros [] s2 (Ht2 & Ho2 & Hop2 & Hfl). split_and!; [done|congruence|done|done].
  - intros s1 (Ht1 & Ho1 & Hop1 & Hfl). split_and!; try done. intros i j Hi. apply Hfl; [|lia].
    intros E. apply (f_equal length) in E. rewrite length_seq in E. simpl in E. lia.
Qed.

(** What the rebalancing leaves alone. *)
Definition outer3 (s : MC D) := (mc_lock s, mc_trace s, mc_num_requests s).

Lemma outer_outer3 s s' : outer s' = outer s -> outer3 s' = outer3 s /\ mc_ds_index s' = mc_ds_index s.
Proof. unfold outer, outer3. intros E. split; congruence. Qed.

Lemma tables_ok_ds s ds :
  tables_ok s -> in_u64 ds -> (c_bw_balance cfg = false -> ds = 0) ->
  (forall i j w, cached (mc_cache s) i j w -> w_valid w = true -> ds <= Z.of_nat i) ->
  tables_ok (set_ds_index ds s).
Proof.
  intros [[C1 C2 C3 C4 C5] H2 [P1 P2 P3 P4]] Hr Hb Hact. split; simpl; [by split|done|by split].
Qed.

Lemma rebalance_ok (Hcfg : cfg_ok cfg) req src s :
  srcId req = src -> opened_ src (mc_mem s) -> tables_ok s ->
  wp (rebalance cfg req) (fun _ s' => tables_ok s' /\ outer3 s' = outer3 s /\
    opened_ src (mc_mem s')) s.
Proof.
  intros Hs Hop Ht. unfold rebalance. apply wp_bind, wp_get, wp_bind. eapply wp_lift.
  { unfold umod. pose proof (co_step _ Hcfg). destruct (Z.eqb_spec (c_cache_size cfg / 64 / 10) 0); [lia|done]. }
  apply wp_when; intros _; [|done].
  apply wp_bind, wp_modify, wp_bind, wp_get. set (s1 := set_prof _ s).
  assert (tables_ok s1) as Ht1 by (by apply (tables_ok_core s)).
  apply wp_when; intros Hb; [|done]. apply andb_true_iff in Hb as [Hbal _].
  pose proof (co_balance _ Hcfg Hbal) as Hsch. cbv zeta.
  set (delta := delta_index cfg (mc_prof s1)). set (ds := mc_ds_index s1).
  pose proof (delta_index_range (mc_prof s1)) as Hd. fold delta in Hd.
  pose proof (ck_ds _ _ (to_cache _ Ht1)) as Hds. fold ds in Hds.
  destruct (next_ds_index_ok ds delta Hds Hd) as (Hr & Hdown & Hup).
  apply wp_bind.
  eapply (wp_mono _ (fun _ s2 => tables_ok s2 /\ outer s2 = outer s1 /\ opened_ src (mc_mem s2) /\
            (0 < delta -> forall i j, ds <= Z.of_nat i < Z.min (u64 (ds + delta)) nsets ->
                          invalid_at s2 i j))).
  { apply wp_when; intros Hdp.
    - eapply wp_mono; [eapply (flush_sets_ok Hcfg req ds _ src s1); try done; apply Hds|].
      intros [] s2 (? & ? & ? & ?). done.
    - apply Z.ltb_ge in Hdp. split_and!; try done. intros; lia. }
  intros [] s2 (Ht2 & Ho2 & Hop2 & Hinv). apply wp_modify.
  destruct (outer_outer3 _ _ Ho2) as [Ho3 Eds].
  split_and!; [|done|done]. apply tables_ok_ds; [done|done|congruence|].
  intros i j w Hc Hv. pose proof (ck_active _ _ (to_cache _ Ht2) _ _ _ Hc Hv) as Hi.
  rewrite Eds in Hi. fold ds in Hi. destruct (Z.le_gt_cases delta 0) as [Hle|Hgt]; [specialize (Hdown Hle); lia|].
  destruct (Z.le_gt_cases (u64 (ds + delta)) (Z.of_nat i)) as [?|Hlt]; [lia|].
  assert (Z.of_nat i < nsets) as Hin.
  { destruct Hc as (cs & Hcs & _). apply lookup_lt_Some in Hcs.
    rewrite (ck_sets _ _ (to_cache _ Ht2)) in Hcs. lia. }
  rewrite (Hinv Hgt i j) in Hv; [done|lia|done].
Qed.

(** ** The whole access *)

Lemma access_cached_ok (Hcfg : cfg_ok cfg) req s :
  has_cache cfg -> tables_ok s -> idle_ (srcId req) (mc_mem s) -> type req <> PUTS ->
  0 <= lineAddr req ->
  wp (access_cached cfg req) (fun _ s' => tables_ok s' /\ outer3 s' = outer3 s /\
    opened_ (srcId req) (mc_mem s')) s.
Proof.
  intros Hhc Ht Hidle Hty Haddr. unfold access_cached. fold (kind_of req).
  destruct (decode_addr_ok Hcfg (lineAddr req) Haddr) as (l & Hdec & Hl & _).
  apply wp_bind. eapply wp_lift; [done|]. apply wp_bind.
  eapply (wp_mono _ (probed l (kind_of req) req s)).
  { destruct (decide (c_scheme cfg = AlloyCache)) as [E|E].
    - destruct (co_alloy _ Hcfg E) as [-> _]. by apply probe_line_ok.
    - rewrite (co_page _ Hcfg E). by apply probe_page_ok. }
  intros [[req1 hw] probe] s1 (Ht1 & Ho1 & Hr1 & Hp1 & Hph1 & Hpr). destruct (Hr1) as (R1 & R2 & R3).
  destruct (outer_outer3 _ _ Ho1) as [Ho3 Eds].
  replace (kind_of req) with (kind_of req1) in * by (unfold kind_of; by rewrite R2).
  apply wp_bind.
  eapply (wp_mono _ (fun r s' => let '(req', _, ca) := r in
    same_req req1 req' /\ tables_ok s' /\ outer s' = outer s1 /\ opened_ (srcId req) (mc_mem s') /\
    (ca = true -> mc_ds_index s1 <= Z.of_nat (l_set l)))).
  { rewrite <- Eds in Hph1. destruct (Nat.eqb_spec hw ways) as [->|Hne]; simpl.
    - eapply on_miss_ok; try done. congruence.
    - eapply on_hit_ok; try done; [congruence|]. intros E. by apply Hpr. }
  intros [[req2 ready] ca] s2 (Hr2 & Ht2 & Ho2 & Hop2 & Hca).
  destruct (outer_outer3 _ _ Ho2) as [Ho3' Eds2].
  destruct (same_req_trans _ _ _ Hr1 Hr2) as (Q1 & _ & _).
  apply wp_bind. eapply wp_mono; [eapply (counter_traffic_ok l ca req2 (srcId req)); [done| |done]|].
  { by rewrite Eds2. }
  intros ? s3 [Hc3 Hop3]. apply wp_bind.
  eapply wp_mono; [apply maybe_flush_ok; by eapply tables_ok_core|].
  intros ? s4 (Ht4 & Ho4 & Hm4). apply wp_bind.
  eapply wp_mono; [by apply os_remap_ok|]. intros ? s5 [Hc5 Hm5].
  apply wp_bind. eapply wp_mono; [eapply (rebalance_ok Hcfg req2 (srcId req) s5 Q1)|].
  - by rewrite Hm5, Hm4.
  - by eapply tables_ok_core.
  - intros ? s6 (Ht6 & Ho6 & Hop6). apply wp_ret. split_and!; [done| |done].
    destruct (outer_outer3 _ _ (outer_core _ _ Hc5)) as [E5 _].
    destruct (outer_outer3 _ _ (outer_core _ _ Hc3)) as [E3 _].
    destruct (outer_outer3 _ _ Ho4) as [E4 _]. congruence.
Qed.
(** Lines 194-206 *)
Lemma record_trace_ok req s :
  Z.of_nat (length (tr_buf (mc_trace s))) < max_trace_len ->
  wp (record_trace cfg req) (fun _ s' => exists tr, s' = set_trace tr s /\
    Z.of_nat (length (tr_buf tr)) < max_trace_len) s.
Proof.
  intros Hlt. unfold record_trace. apply wp_when; intros _.
  2:{ exists (mc_trace s). split; [by destruct s|done]. }
  apply wp_bind, wp_get. cbv zeta. set (buf := tr_buf (mc_trace s) ++ _).
  assert (Z.of_nat (length buf) <= max_trace_len) as Hle
    by (unfold buf; rewrite length_app; simpl; lia).
  apply wp_bind, wp_assert; [by apply Z.leb_le|]. apply wp_modify. eexists. split; [done|].
  destruct (Z.eqb_spec (Z.of_nat (length buf)) max_trace_len); simpl; [done|lia].
Qed.

(** What the configuration must satisfy, by scheme. *)
Definition config_ok : Prop :=
  match c_scheme cfg with
  | NoCache => True
  | CacheOnly => 0 < nsets /\ 0 < c_mcdram_per_mc cfg /\ 64 <= c_granularity cfg
  | _ => cfg_ok cfg
  end.

(** [access]: no assertion fails, no index is out of range, the lock is
    released, and the invariant holds again. *)
Lemma access_ok req s :
  config_ok -> mc_inv s -> idle_ (srcId req) (mc_mem s) -> 0 <= lineAddr req ->
  wp (access cfg req) (fun r s' => mc_inv s' /\
    (if bool_decide (type req = PUTS) then s' = s /\ r = (cycle req, MESI.I)
     else opened_ (srcId req) (mc_mem s') /\ mc_num_requests s' = u64 (mc_num_requests s + 1))) s.
Proof.
  intros Hcfg [Hlock Htr Htab] Hidle Haddr. unfold access.
  set (req1 := with_state (granted_state req) req).
  replace (type req1) with (type req) by done. case_bool_decide as Hty.
  { apply wp_ret. split; [by split|]. split; [done|].
    unfold req1, granted_state. simpl. by rewrite Hty. }
  apply wp_bind. unfold lock_mc. apply wp_bind, wp_get. rewrite Hlock. apply wp_modify, wp_bind.
  eapply wp_mono; [by apply record_trace_ok|]. intros [] s1 (tr & -> & Htr').
  apply wp_bind, wp_modify. set (s2 := set_num_requests _ _). apply wp_bind.
  assert (idle_ (srcId req1) (mc_mem s2)) as Hidle2 by done.
  eapply (wp_mono _ (fun _ s3 => outer3 s3 = outer3 s2 /\ opened_ (srcId req) (mc_mem s3) /\
            (has_cache cfg -> tables_ok s3))).
  2:{ intros r s3 (Ho & Hop & Ht3). apply wp_bind, wp_modify, wp_ret. unfold outer3 in Ho.
      injection Ho as E1 E2 E3. split; [|split; [done|by rewrite <- E3]]. split; [done| |].
      - simpl. by rewrite E2.
      - intros Hhc. destruct (Ht3 Hhc) as [T1 T2 [P1 P2 P3 P4]]. split; [done|done|by split]. }
  assert (cfg_ok cfg -> has_cache cfg -> wp (access_cached cfg req1) (fun _ s3 =>
            outer3 s3 = outer3 s2 /\ opened_ (srcId req) (mc_mem s3) /\
            (has_cache cfg -> tables_ok s3)) s2) as Hcached.
  { intros Hc Hhc. eapply wp_mono; [by apply (access_cached_ok Hc req1 s2); try done;
      destruct (Htab Hhc) as [T1 T2 [P1 P2 P3 P4]]; split; [done|done|by split]|].
    intros r s3 (? & ? & ?). done. }
  unfold config_ok in Hcfg. unfold has_cache in *.
  destruct (c_scheme cfg) eqn:Hsch; try (apply Hcached; done).
  - apply wp_bind. eapply wp_quiet; [by apply (quiet_open_req _ _ _ _ (srcId req1))|exact Hidle2|].
    intros r s3 Hr Hc Hop. apply wp_bind. eapply wp_quiet; [apply quiet_inc|exact Hop|].
    intros ? s4 _ Hc4 Hop4. apply wp_ret. split_and!; [|done|by intros [? _]].
    assert (core s4 = core s2) as Hcc by congruence.
    apply (outer_outer3 _ _ (outer_core _ _ Hcc)).
  - destruct Hcfg as (Hs & Hm & Hg).
    assert (exists l, decode_addr cfg (lineAddr req1) = Ok l) as [l Hl].
    { unfold decode_addr, umod, udiv. destruct (Z.eqb_spec (c_mcdram_per_mc cfg) 0); [lia|].
      assert (1 <= c_granularity cfg / 64) by (apply Z.div_le_lower_bound; lia).
      destruct (Z.eqb_spec (c_granularity cfg / 64) 0); [lia|].
      destruct (Z.eqb_spec nsets 0); [lia|]. eauto. }
    apply wp_bind. eapply wp_lift; [done|].
    apply wp_bind. eapply wp_quiet; [by apply (quiet_open_req _ _ _ _ (srcId req1))|exact Hidle2|].
    intros r s3 Hr Hc Hop. apply wp_bind. eapply wp_quiet; [apply quiet_inc|exact Hop|].
    intros ? s4 _ Hc4 Hop4. apply wp_ret. split_and!; [|done|by intros [_ ?]].
    assert (core s4 = core s2) as Hcc by congruence.
    apply (outer_outer3 _ _ (outer_core _ _ Hcc)).
Qed.
End Proofs.
