(* ===== verification/MemControllerSpec.v ===== *)
(** * What the memory controller guarantees

    The constructor establishes the invariant, every access keeps it without a
    failing assertion, and so does any sequence of accesses whose timing records
    are drained by the cores.  The devices are any that satisfy [MemSysLaws];
    the witnesses use the DDR model of [DdrBound]. *)

From stdpp Require Import base list gmap strings.
From Stdlib Require Import ZArith Lia.
From S2P Require Import Prelude Numeric MemHierarchy DdrBound TagBuffer Placement PlacementProofs MemController MemControllerProofs.
Local Open Scope Z_scope.

(** ** Construction *)

Definition scheme_name (sch : Scheme) : string :=
  match sch with
  | AlloyCache => "AlloyCache" | UnisonCache => "UnisonCache" | HMA => "HMA"
  | HybridCache => "HybridCache" | NoCache => "NoCache" | CacheOnly => "CacheOnly"
  | Tagless => "Tagless"
  end.

(** What the constructor checks, per scheme. *)
Lemma parse_scheme_ok pr cache_size sch :
  parse_scheme pr cache_size = Ok sch ->
  p_cache_scheme pr = scheme_name sch /\
  (sch = AlloyCache -> p_granularity pr = 64 /\ p_num_ways pr = 1%nat) /\
  (sch = UnisonCache \/ sch = HMA -> p_granularity pr = 4096).
Proof.
  unfold parse_scheme. intros Hp.
  repeat match type of Hp with
  | (if String.eqb ?a ?b then _ else _) = _ => destruct (String.eqb_spec a b)
  | (if negb (?a =? ?b) then _ else _) = _ => destruct (Z.eqb_spec a b); simpl in Hp
  | (if negb (?a =? ?b)%nat then _ else _) = _ => destruct (Nat.eqb_spec a b); simpl in Hp
  | (if ?b then _ else _) = _ => destruct b
  | match udiv ?a ?b with _ => _ end = _ => destruct (udiv a b); simpl in Hp
  end; simplify_eq; (split_and!; [done|intros ?; try done|intros [?|?]; try done]).
Qed.

(** The parameters that the constructor does not check. *)
Record params_ok (pr : McParams) (un : Uninit) : Prop := {
  pa_lock : p_enableTrace pr && String.eqb (p_name pr) "mem-0" = true \/ un_lock un = false;
  pa_cache : p_cache_scheme pr <> "NoCache"%string ->
    (0 < p_num_ways pr)%nat /\ 0 < p_mcdramPerMC pr /\ 64 <= p_granularity pr /\
    Z.of_nat (p_num_ways pr) * p_granularity pr <= u32 (p_size_mb pr * 1024 * 1024) /\
    640 <= u32 (p_size_mb pr * 1024 * 1024);
  pa_page : p_cache_scheme pr = "HybridCache"%string \/ p_cache_scheme pr = "Tagless"%string ->
    p_granularity pr = 4096;
  pa_quantum : p_cache_scheme pr = "HMA"%string -> un_os_quantum un <> 0;
  pa_fbr : p_policy pr = FBR -> p_cache_scheme pr = "HybridCache"%string /\ p_enable_replace pr = true;
  pa_tb : 8 <= p_tag_buffer_size pr < 2 ^ 32
}.

Lemma set_count_ok cs ways g n :
  set_count cs ways g = Ok n -> (0 < ways)%nat -> 0 < g -> Z.of_nat ways * g <= cs -> 0 < n.
Proof.
  unfold set_count, udiv. intros Hn Hw Hg Hle.
  destruct (Z.eqb_spec (Z.of_nat ways) 0); [lia|]. destruct (Z.eqb_spec g 0); [lia|].
  simplify_eq. rewrite Z.div_div by lia. apply Z.div_str_pos. lia.
Qed.

Lemma empty_cache_lookup ns nw un i cs :
  empty_cache ns nw un !! i = Some cs ->
  length cs = nw /\ forall j w, cs !! j = Some w -> w_valid w = false.
Proof.
  unfold empty_cache. rewrite list_lookup_fmap. intros Hi.
  destruct (seq 0 ns !! i); simplify_eq/=. split; [by rewrite length_fmap, length_seq|].
  intros j w. rewrite list_lookup_fmap. by destruct (seq 0 nw !! j); intros; simplify_eq/=.
Qed.

(** The tables over an empty cache agree. *)
Lemma empty_tables {D} (cfg : McConfig) (s : MC D) pr un :
  c_num_ways cfg = p_num_ways pr -> (0 < p_num_ways pr)%nat ->
  mc_cache s = empty_cache (Z.to_nat (c_num_sets cfg)) (p_num_ways pr) un ->
  mc_tlb s = ∅ -> mc_ds_index s = 0 ->
  (c_scheme cfg = AlloyCache -> exists lp, mc_line s = Some lp) ->
  (c_scheme cfg = Tagless -> mc_next_evict_idx s = 0%nat) ->
  (c_scheme cfg = HybridCache -> exists tb, mc_tag_buffer s = Some tb /\ tb_inv tb) ->
  (c_scheme cfg = UnisonCache \/ c_scheme cfg = HybridCache ->
     exists p, mc_page s = Some p /\ pp_inv (c_num_ways cfg) (mc_cache s) p /\
       pp_scheme p = c_scheme cfg /\ (pp_policy p = FBR -> c_scheme cfg = HybridCache)) ->
  tables_ok cfg s.
Proof.
  intros Hw Hpos Hc Ht Hds H1 H2 H3 H4.
  assert (forall i j w, cached (mc_cache s) i j w -> w_valid w = false) as Hinv.
  { intros i j w (cs & Hi & Hj). rewrite Hc in Hi. by apply (empty_cache_lookup _ _ _ _ _ Hi) in Hj. }
  split; [split|intros _; split|split]; try done.
  - rewrite Hc. unfold empty_cache. by rewrite length_fmap, length_seq.
  - intros i cs Hi. rewrite Hc in Hi. rewrite Hw. by apply empty_cache_lookup in Hi as [? _].
  - rewrite Hds. unfold in_u64. lia.
  - intros i j w Hcw Hv. rewrite (Hinv i j w Hcw) in Hv. done.
  - intros t e He. by rewrite Ht, lookup_empty in He.
  - intros i j w Hcw Hv. rewrite (Hinv i j w Hcw) in Hv. done.
  - intros E. rewrite (H2 E), Hw. done.
Qed.

Section Construction.
Context {D : Type} (pr : McParams) (un : Uninit) (d : D) (cfg : McConfig) (s : MC D).
Context (Hnew : MemoryController_new pr un d = Ok (cfg, s)) (Hpa : params_ok pr un).

Lemma new_ok : config_ok cfg /\ mc_inv cfg s.
Proof using Hnew Hpa.
  destruct Hpa as [Plock Pcache Ppage Pq Pfbr Ptb].
  unfold MemoryController_new in Hnew.
  destruct (parse_scheme pr _) as [sch|] eqn:Hsch; [|done].
  destruct (parse_scheme_ok _ _ _ Hsch) as (Hname & Hal & H4k).
  destruct (p_bwBalance pr && _) eqn:Hbw; [done|]. destruct (negb (known_type (p_ext_type pr))); [done|].
  set (trace := p_enableTrace pr && _) in *.
  assert ((if trace then false else un_lock un) = false) as Hlock
    by (destruct trace; [done|]; destruct Plock; done).
  case_bool_decide as Hno.
  { simplify_eq. unfold config_ok. simpl. split; [done|].
    split; simpl; [done|done|]. intros [? _]. done. }
  destruct ((0 <? p_mcdramPerMC pr) && _); [done|]. destruct (set_count _ _ _) as [ns|] eqn:Hns; [|done].
  assert (p_cache_scheme pr <> "NoCache"%string) as Hnn.
  { rewrite Hname. by destruct sch. }
  destruct (Pcache Hnn) as (Hw & Hm & Hg & Hsz & Hstep).
  pose proof (set_count_ok _ _ _ _ Hns Hw ltac:(lia) Hsz) as Hpos.
  destruct (bool_decide (sch = Tagless) && _) eqn:Htl; [done|].
  assert (forall tr cfg0, cfg0 = mkCfg sch (p_granularity pr) (p_num_ways pr)
      (u32 (p_size_mb pr * 1024 * 1024)) ns (p_mcdramPerMC pr) (p_footprint_size pr)
      (p_bwBalance pr) (p_sram_tag pr) (p_llc_latency pr) (un_os_quantum un) tr ->
      config_ok cfg0) as Hcfg.
  { intros tr cfg0 ->. unfold config_ok. simpl.
    assert (sch <> CacheOnly -> cfg_ok (mkCfg sch (p_granularity pr) (p_num_ways pr)
      (u32 (p_size_mb pr * 1024 * 1024)) ns (p_mcdramPerMC pr) (p_footprint_size pr)
      (p_bwBalance pr) (p_sram_tag pr) (p_llc_latency pr) (un_os_quantum un) tr)) as Hok.
    { intros Hco. split; simpl; try done.
      - intros Hna. destruct sch; try done; try (apply H4k; auto; fail);
          apply Ppage; rewrite Hname; auto.
      - rewrite Z.div_div by lia. apply Z.div_str_pos. lia.
      - intros ->. apply Pq. by rewrite Hname.
      - intros Hb. rewrite Hb in Hbw. simpl in Hbw. apply negb_false_iff, orb_true_iff in Hbw.
        destruct Hbw as [E|E]; apply bool_decide_eq_true in E; auto. }
    destruct sch; try (by apply Hok); done. }
  destruct (bool_decide (sch = UnisonCache) || bool_decide (sch = HybridCache)) eqn:Hpol.
  - destruct (initialize _ _ _ _ _ _ _ _ _) as [pp|] eqn:Hinit; [|done]. simplify_eq.
    assert (sch = UnisonCache \/ sch = HybridCache) as Hus.
    { apply orb_true_iff in Hpol as [E|E]; apply bool_decide_eq_true in E; auto. }
    split; [by eapply Hcfg|]. split; [done|done|]. intros _.
    destruct (initialize_inv _ _ _ _ _ _ _ _ _ pp
                (empty_cache (Z.to_nat ns) (p_num_ways pr) un) Hinit) as (Hpi & Hpp & Hps).
    + done.
    + intros E. by apply Pfbr.
    + unfold empty_cache. by rewrite length_fmap, length_seq.
    + intros c cs Hc. by eapply empty_cache_lookup.
    + apply (empty_tables _ _ pr un); simpl; try done.
      * destruct Hus; intros; congruence.
      * destruct Hus; intros; congruence.
      * intros ->. eexists. split; [done|]. by apply TagBuffer_new_inv.
      * intros _. exists pp. split_and!; [done|done|done|]. intros E. rewrite Hpp in E.
        destruct (Pfbr E) as [E' _]. rewrite Hname in E'. destruct Hus as [->|?]; done.
  - simplify_eq. split; [by eapply Hcfg|]. split; [done|done|]. intros _.
    apply orb_false_iff in Hpol as [E1 E2]. apply bool_decide_eq_false in E1, E2.
    apply (empty_tables _ _ pr un); simpl; try done.
    + intros ->. by eexists.
    + intros ->. done.
    + intros [?|?]; done.
Qed.
End Construction.

(** ** Sequences of accesses

    The core that issued a request takes its timing record before it issues the
    next one. *)
Definition serve (cfg : McConfig) (req : MemReq) : M (MC Bus) unit :=
  _ <- access cfg req ;;
  modify (fun s => set_mem (drain (srcId req) (mc_mem s)) s).

Lemma drain_other src src' b : src' <> src -> bus_idle b src' -> bus_idle (drain src b) src'.
Proof.
  intros Hne [Hok Hi]. unfold drain. destruct (bus_recorders b !! src); [|by split].
  split; [done|]. intros tr. simpl. rewrite lookup_insert_ne by done. apply Hi.
Qed.

Lemma drain_closed src b : bus_idle b src -> bus_idle (drain src b) src.
Proof. intros [Hok _]. by apply drain_idle. Qed.

(** Every source of [srcs] has its record closed. *)
Definition all_idle (srcs : Z -> Prop) (b : Bus) : Prop := forall src, srcs src -> bus_idle b src.

Lemma mc_inv_mem {D} cfg (s : MC D) d : mc_inv cfg s -> mc_inv cfg (set_mem d s).
Proof.
  intros [H1 H2 H3]. split; [done|done|]. intros Hc. destruct (H3 Hc) as [T1 T2 [P1 P2 P3 P4]].
  split; [done|done|by split].
Qed.

Lemma serve_ok cfg srcs req s :
  config_ok cfg -> mc_inv cfg s -> all_idle srcs (mc_mem s) -> srcs (srcId req) -> 0 <= lineAddr req ->
  wp (serve cfg req) (fun _ s' => mc_inv cfg s' /\ all_idle srcs (mc_mem s')) s.
Proof.
  intros Hcfg Hinv Hidle Hsrc Haddr. unfold serve. apply wp_bind.
  eapply wp_mono; [apply (access_ok cfg srcs req s Hcfg Hinv); [|done]|].
  { split; [by apply Hidle|]. intros src' _ Hs. by apply Hidle. }
  intros r s1 [Hinv1 Hcase]. apply wp_modify. split; [by apply mc_inv_mem|]. simpl.
  case_bool_decide as Hty.
  - destruct Hcase as [-> _]. intros src Hs. destruct (decide (src = srcId req)) as [->|Hne].
    + by apply drain_closed, Hidle.
    + apply drain_other; [done|]. by apply Hidle.
  - destruct Hcase as [[[Hok _] Hrest] _]. intros src Hs.
    destruct (decide (src = srcId req)) as [->|Hne]; [by apply drain_idle|].
    apply drain_other; [done|]. by apply Hrest.
Qed.

(** ** The claims *)

(** C1: in every state that satisfies the invariant, and for every request
    whose source has its timing record closed, [MemoryController::access]
    returns: no assertion of the controller, of the placement policies or of
    the tag buffer fails, no array is indexed out of range, nothing is divided
    by zero and no unset pointer is followed; the lock is free again, the
    invariant holds again (the TLB and the DRAM cache are inverse to each
    other, only active sets hold data, the policy's and the tag buffer's tables
    are consistent), and a [PUTS] changes nothing. *)
Theorem access_safe {D} `{MemSysLaws D} cfg req (s : MC D) :
  config_ok cfg -> mc_inv cfg s -> idle (mc_mem s) (srcId req) -> 0 <= lineAddr req ->
  exists r s', access cfg req s = Ok (r, s') /\ mc_inv cfg s' /\ mc_lock s' = false /\
    (type req = PUTS -> s' = s /\ r = (cycle req, MESI.I)) /\
    (type req <> PUTS -> opened (mc_mem s') (srcId req) /\
                         mc_num_requests s' = u64 (mc_num_requests s + 1)).
Proof.
  intros Hcfg Hinv Hidle Haddr.
  assert (idle_ (fun _ => False) (srcId req) (mc_mem s)) as Hi by (split; [done|by intros src _ []]).
  destruct (wp_ok _ _ _ (access_ok cfg (fun _ => False) req s Hcfg Hinv Hi Haddr))
    as (r & s' & Hrun & Hinv' & Hcase).
  exists r, s'. split_and!; [done|done|by apply Hinv'| |]; case_bool_decide; try done.
  intros _. destruct Hcase as [[? _] ?]. done.
Qed.

(** C2: the constructor, when it returns, has built a configuration and a state
    that satisfy the invariant, for all the schemes, under the conditions of
    [params_ok], which it does not check itself: unless the controller traces, the
    memory it is built in has a free lock; with a DRAM cache, there are ways and
    channels, a page has at least 64 bytes, and a set and ten lines fit in the
    cache; HybridCache and Tagless have pages of 4096 bytes; for HMA the quantum
    field is not 0; FBR is used with HybridCache and replacement on; and the tag
    buffer has between 8 and 2^32 - 1 entries. *)
Theorem constructor_establishes {D} pr un (d : D) cfg s :
  MemoryController_new pr un d = Ok (cfg, s) -> params_ok pr un -> config_ok cfg /\ mc_inv cfg s.
Proof. intros Hnew Hpa. exact (new_ok pr un d cfg s Hnew Hpa). Qed.

(** A sequence of requests. *)
Lemma served_ok cfg srcs reqs s :
  config_ok cfg -> mc_inv cfg s -> all_idle srcs (mc_mem s) ->
  (forall req, req ∈ reqs -> srcs (srcId req) /\ 0 <= lineAddr req) ->
  exists s', forM reqs (serve cfg) s = Ok (tt, s') /\ mc_inv cfg s' /\ all_idle srcs (mc_mem s').
Proof.
  intros Hcfg Hinv Hidle Hreqs.
  assert (wp (forM reqs (serve cfg)) (fun _ s' => mc_inv cfg s' /\ all_idle srcs (mc_mem s')) s) as Hwp.
  { apply (wp_forM_inv reqs (serve cfg) (fun s' => mc_inv cfg s' /\ all_idle srcs (mc_mem s'))); [done|].
    intros req s' Hreq [Hi Ha]. destruct (Hreqs req Hreq). by apply serve_ok. }
  destruct (wp_ok _ _ _ Hwp) as ([] & s' & ? & ? & ?). eauto.
Qed.

(** C3: any sequence of requests, from any set of cores that take their timing
    record after each access, is served to the end over DDR devices; the
    invariant holds at the end. *)
Theorem serve_all cfg srcs reqs s :
  config_ok cfg -> mc_inv cfg s -> all_idle srcs (mc_mem s) ->
  (forall req, req ∈ reqs -> srcs (srcId req) /\ 0 <= lineAddr req) ->
  exists s', forM reqs (serve cfg) s = Ok (tt, s') /\ mc_inv cfg s' /\ all_idle srcs (mc_mem s').
Proof. apply served_ok. Qed.

(** What the invariant says of two valid ways with the same page. *)
Lemma inv_cached_once {D} cfg (s : MC D) i j i' j' w w' :
  mc_inv cfg s -> has_cache cfg -> c_scheme cfg <> AlloyCache ->
  cached (mc_cache s) i j w -> cached (mc_cache s) i' j' w' ->
  w_valid w = true -> w_valid w' = true -> w_tag w = w_tag w' ->
  i = i' /\ j = j' /\ Z.of_nat i = w_tag w mod c_num_sets cfg /\
  t_way (tlb_at (mc_tlb s) (w_tag w)) = j.
Proof.
  intros Hinv Hhc Hal Hc Hc' Hv Hv' Heq. destruct (to_tlb _ _ (mi_tables _ _ Hinv Hhc) Hal) as [_ T2].
  destruct (T2 _ _ _ Hc Hv) as (Hi & e & He & Hj & _).
  destruct (T2 _ _ _ Hc' Hv') as (Hi' & e' & He' & Hj' & _). rewrite <- Heq in *. simplify_eq.
  unfold tlb_at. rewrite He. split_and!; [lia|done|done|done].
Qed.

(** C4: once a controller with a page cache, built under the conditions of
    [params_ok], has served any sequence of requests over DDR devices, a page is in
    at most one way of the DRAM cache, its set is the one its tag selects, and its
    TLB entry names that way; conversely, a TLB entry that names a way names one
    that holds the page. *)
Theorem page_cached_once pr un (d : Bus) cfg s0 srcs reqs :
  MemoryController_new pr un d = Ok (cfg, s0) -> params_ok pr un -> has_cache cfg -> c_scheme cfg <> AlloyCache ->
  all_idle srcs (mc_mem s0) -> (forall req, req ∈ reqs -> srcs (srcId req) /\ 0 <= lineAddr req) ->
  exists s, forM reqs (serve cfg) s0 = Ok (tt, s) /\
    (forall i j w i' j' w', cached (mc_cache s) i j w -> cached (mc_cache s) i' j' w' ->
       w_valid w = true -> w_valid w' = true -> w_tag w = w_tag w' ->
       i = i' /\ j = j' /\ Z.of_nat i = w_tag w mod c_num_sets cfg /\ t_way (tlb_at (mc_tlb s) (w_tag w)) = j) /\
    (forall tag e, mc_tlb s !! tag = Some e -> t_way e <> c_num_ways cfg ->
       exists w, cached (mc_cache s) (Z.to_nat (tag mod c_num_sets cfg)) (t_way e) w /\ w_valid w = true /\ w_tag w = tag).
Proof.
  intros Hnew Hpa Hhc Hal Hidle Hreqs. destruct (new_ok pr un d cfg s0 Hnew Hpa) as [Hcfg Hinv].
  destruct (served_ok cfg srcs reqs s0 Hcfg Hinv Hidle Hreqs) as (s & Hrun & Hinv' & _). exists s. split_and!; [done| |].
  - intros. by eapply inv_cached_once.
  - intros tag e He Hw. destruct (to_tlb _ _ (mi_tables _ _ Hinv' Hhc) Hal) as [T1 _]. by apply T1.
Qed.

(** The boundary of the active sets moves by exactly [delta] when the sum is
    in range, is clamped at 0, and never moves past the flushed sets. *)
Theorem ds_index_step ds delta :
  in_u64 ds -> - 2 ^ 63 <= delta < 2 ^ 63 -> ds < 2 ^ 62 -> delta < 2 ^ 62 ->
  next_ds_index ds delta = Z.max 0 (ds + delta) /\
  next_ds_index ds delta <= u64 (ds + delta).
Proof.
  intros Hds Hd H1 H2. split; [|by apply next_ds_index_ok]. unfold next_ds_index, in_u64 in *.
  rewrite (i64_id ds) by lia. rewrite (i64_id (ds + delta)) by lia.
  destruct (Z.leb_spec (ds + delta) 0); [lia|]. rewrite u64_id by (unfold in_u64; lia). lia.
Qed.

(** ** Concrete instances *)

(** A Banshee controller with 1MB of in-package DRAM: 64 sets of 4 pages, FBR,
    a tag buffer of one set, and recording DDR devices. *)
Definition demo_params : McParams :=
  mkParams "mem-1" false false 10 "HybridCache" "DDR" 4096 4 "DDR" 1 0 true 4 8 FBR (dlit 1 10) true.
Definition demo_uninit : Uninit :=
  mkUninit false 0 0 0 (fun _ _ => (0, false)) (fun _ _ => (0, 0)) 42.
Definition demo_bus : Bus :=
  mkBus (fun _ => mkDdr 20 10 10 10 0 0 2000000 666666) [] {[ 0 := mkTR 0 0 0 GETS None None ]}.
Definition demo_cfg : McConfig :=
  mkCfg HybridCache 4096 4 1048576 64 4 0 true false 10 0 false.
Definition demo_mc : MC Bus :=
  match MemoryController_new demo_params demo_uninit demo_bus with
  | Ok (_, s) => s
  | Err _ => mkMC true (mkTrace [] []) 0 [] ∅ None None None 0 0 zero_prof (fun _ => 0) demo_bus
  end.
Definition demo_req (t : AccessType) (a : Address) : MemReq :=
  mkMemReq a t 0 MESI.I 100 MESI.I 0 0.

Lemma demo_new : MemoryController_new demo_params demo_uninit demo_bus = Ok (demo_cfg, demo_mc).
Proof. reflexivity. Qed.

Lemma demo_params_ok : params_ok demo_params demo_uninit.
Proof.
  split.
  - right. reflexivity.
  - intros _. split_and!; (vm_compute; first [reflexivity|discriminate|lia]).
  - done.
  - done.
  - done.
  - vm_compute. split; [discriminate|done].
Qed.

Lemma demo_idle : all_idle (fun src => src = 0) (mc_mem demo_mc).
Proof.
  intros src ->. split; [intros []; discriminate|]. intros tr Htr. vm_compute in Htr. by injection Htr as <-.
Qed.

Lemma access_safe_witness :
  exists r s', access demo_cfg (demo_req GETS 4097) demo_mc = Ok (r, s') /\ mc_inv demo_cfg s'.
Proof.
  destruct (new_ok _ _ _ _ _ demo_new demo_params_ok) as [Hc Hi].
  destruct (access_safe (D:=Bus) (H0:=Bus_Laws) demo_cfg (demo_req GETS 4097) demo_mc Hc Hi
    (demo_idle 0 eq_refl) (Zle_bool_imp_le 0 4097 eq_refl)) as (r & s' & H1 & H2 & _).
  exists r, s'. exact (conj H1 H2).
Defined.

Lemma constructor_establishes_witness : config_ok demo_cfg /\ mc_inv demo_cfg demo_mc.
Proof. exact (constructor_establishes _ _ _ _ _ demo_new demo_params_ok). Defined.

Lemma serve_all_witness :
  exists s', forM [demo_req GETS 4097; demo_req PUTX 4098; demo_req GETS 12289; demo_req PUTS 5]
    (serve demo_cfg) demo_mc = Ok (tt, s') /\ mc_inv demo_cfg s'.
Proof.
  destruct (new_ok _ _ _ _ _ demo_new demo_params_ok) as [Hc Hi].
  destruct (serve_all demo_cfg (fun src => src = 0)
    [demo_req GETS 4097; demo_req PUTX 4098; demo_req GETS 12289; demo_req PUTS 5] demo_mc
    Hc Hi demo_idle) as (s' & H1 & H2 & _).
  - intros req Hr. repeat (apply elem_of_cons in Hr as [->|Hr]; [by split|]).
    by apply not_elem_of_nil in Hr.
  - exists s'. exact (conj H1 H2).
Defined.

(** The state after two accesses to one page. *)
Definition demo_mc2 : MC Bus :=
  match forM [demo_req GETS 4097; demo_req PUTX 4098] (serve demo_cfg) demo_mc with
  | Ok (_, s) => s | Err _ => demo_mc
  end.

(** The run itself: page 64 sits in way 0 of set 0, and is dirty. *)
Example demo_run :
  (mc_cache demo_mc2 !! 0%nat) ≫= (fun cs => cs !! 0%nat) = Some (mkWay 64 true true) /\
  mc_num_requests demo_mc2 = 2 /\ mc_stats demo_mc2 numPlacement = 1 /\
  mc_stats demo_mc2 numStoreHit = 1.
Proof. vm_compute. done. Qed.

Lemma page_cached_once_witness :
  exists s, forM [demo_req GETS 4097; demo_req PUTX 4098] (serve demo_cfg) demo_mc = Ok (tt, s) /\
    t_way (tlb_at (mc_tlb s) 64) = 0%nat.
Proof.
  destruct (page_cached_once demo_params demo_uninit demo_bus demo_cfg demo_mc (fun src => src = 0)
    [demo_req GETS 4097; demo_req PUTX 4098] demo_new demo_params_ok) as (s & Hrun & Honce & _).
  - split; discriminate.
  - discriminate.
  - exact demo_idle.
  - intros req Hr. repeat (apply elem_of_cons in Hr as [->|Hr]; [by split|]). by apply not_elem_of_nil in Hr.
  - exists s. split; [exact Hrun|].
    assert (cached (mc_cache s) 0 0 (mkWay 64 true true)) as Hc.
    { replace (mc_cache s) with (mc_cache demo_mc2) by (unfold demo_mc2; by rewrite Hrun).
      exists (default [] (mc_cache demo_mc2 !! 0%nat)). split; vm_compute; reflexivity. }
    exact (proj2 (proj2 (proj2 (Honce 0%nat 0%nat _ 0%nat 0%nat _ Hc Hc eq_refl eq_refl eq_refl)))).
Defined.

Lemma ds_index_step_witness : next_ds_index 5 (-7) = 0 /\ next_ds_index 5 7 = 12.
Proof.
  split.
  - rewrite (proj1 (ds_index_step 5 (-7) ltac:(done) ltac:(done) ltac:(done) ltac:(done))). done.
  - rewrite (proj1 (ds_index_step 5 7 ltac:(done) ltac:(done) ltac:(done) ltac:(done))). done.
Defined.
