(* ===== verification/DdrWeave.v ===== *)
(** * The weave phase of a DDR channel
    ([DDRMemory] of [src/src/ddr_mem.h] and [src/src/ddr_mem.cpp]).

    The activation window, the request queues, FR-FCFS insertion into the bank
    queues, the scheduler with its timing constraints, refresh, and the
    scheduling event that drives it.  A request is named by its slot in the read
    or write queue; a bank's intrusive list of requests is a list of slots, so
    [r->prev] is null exactly for the head of the list. *)

From stdpp Require Import base list gmap strings.
From Stdlib Require Import ZArith Lia.
From S2P Require Import Prelude Numeric MemHierarchy DdrBound.
Local Open Scope Z_scope.

(** [-1ul] *)
Definition NO_CYCLE : Z := 2 ^ 64 - 1.

(** ** [class ActWindow] *)
Record ActWindow := mkAW { aw_buf : list Z; aw_idx : nat }.

Definition aw_init (size : nat) : ActWindow := mkAW (replicate size 0) 0.
Definition aw_inc (w : ActWindow) (i : nat) : nat :=
  if (i <? length (aw_buf w) - 1)%nat then S i else 0%nat.
Definition aw_dec (w : ActWindow) (i : nat) : nat :=
  match i with O => (length (aw_buf w) - 1)%nat | S j => j end.

Definition minActCycle (w : ActWindow) : res Z := at_ (aw_buf w) (aw_idx w).

(** The loop of [addActivation]; the fuel is the size of the buffer, after which
    [cur == idx] breaks. *)
Fixpoint aw_shift (fuel : nat) (w : ActWindow) (act : Z) (cur : nat) (buf : list Z)
    : res (nat * list Z) :=
  match fuel with
  | O => Ok (cur, buf)
  | S fuel =>
      let prev := aw_dec w cur in
      match at_ buf prev with
      | Err e => Err e
      | Ok x =>
          if act <? x then
            let buf := <[cur := x]> buf in
            if (prev =? aw_idx w)%nat then Ok (prev, buf) else aw_shift fuel w act prev buf
          else Ok (cur, buf)
      end
  end.

Definition addActivation (act : Z) (w : ActWindow) : res ActWindow :=
  match minActCycle w with
  | Err e => Err e
  | Ok oldest =>
      if negb (oldest <=? act) then Err (AssertFail "ddr_mem.h:60") else
      match aw_shift (length (aw_buf w)) w act (aw_idx w) (aw_buf w) with
      | Err e => Err e
      | Ok (cur, buf) => Ok (mkAW (<[cur := act]> buf) (aw_inc w (aw_idx w)))
      end
  end.

(** ** Requests and queues *)

Record AddrLoc := mkAL { al_row : Z; al_bank : nat; al_rank : nat; al_col : Z }.

Record Request := mkRq {
  rq_addr : Address;
  rq_loc : AddrLoc;
  rq_write : bool;
  rq_data_size : Z;
  rq_rowHitSeq : Z;
  rq_arrivalCycle : Z;
  rq_startSysCycle : Z;
  rq_ev : option nat
}.

Definition rq_set_seq (n : Z) (r : Request) : Request :=
  mkRq (rq_addr r) (rq_loc r) (rq_write r) (rq_data_size r) n (rq_arrivalCycle r)
    (rq_startSysCycle r) (rq_ev r).
Definition rq_set_arrival (c : Z) (r : Request) : Request :=
  mkRq (rq_addr r) (rq_loc r) (rq_write r) (rq_data_size r) (rq_rowHitSeq r) c
    (rq_startSysCycle r) (rq_ev r).
Definition rq_clear_ev (r : Request) : Request :=
  mkRq (rq_addr r) (rq_loc r) (rq_write r) (rq_data_size r) (rq_rowHitSeq r) (rq_arrivalCycle r)
    (rq_startSysCycle r) None.

(** [RequestQueue<Request>]: the elements by slot, the FIFO of used slots and
    the LIFO of free ones. *)
Record RequestQueue := mkQ {
  q_elems : list Request;
  q_reqs : list nat;
  q_free : list nat
}.

Definition blank_request : Request := mkRq 0 (mkAL 0 0 0 0) false 0 0 0 0 None.

Definition q_init (size : nat) : RequestQueue :=
  mkQ (replicate size blank_request) [] (seq 0 size).
Definition q_empty (q : RequestQueue) : bool := match q_reqs q with [] => true | _ => false end.
Definition q_full (q : RequestQueue) : bool := match q_free q with [] => true | _ => false end.
Definition q_size (q : RequestQueue) : Z := Z.of_nat (length (q_reqs q)).

(** [alloc()]: the last free slot becomes the youngest request. *)
Definition q_alloc (q : RequestQueue) : res (nat * RequestQueue) :=
  match last (q_free q) with
  | None => Err (AssertFail "ddr_mem.h:106")
  | Some n => Ok (n, mkQ (q_elems q) (q_reqs q ++ [n]) (removelast (q_free q)))
  end.
Definition q_get (q : RequestQueue) (n : nat) : res Request := at_ (q_elems q) n.
Definition q_put (n : nat) (r : Request) (q : RequestQueue) : RequestQueue :=
  mkQ (<[n := r]> (q_elems q)) (q_reqs q) (q_free q).
Definition q_remove (n : nat) (q : RequestQueue) : RequestQueue :=
  mkQ (q_elems q) (filter (fun m => m <> n) (q_reqs q)) (q_free q ++ [n]).

(** ** The channel *)

Record Bank := mkBank {
  b_openRow : Z;
  b_open : bool;
  b_minPreCycle : Z;
  b_lastActCycle : Z;
  b_lastCmdCycle : Z;
  b_curRowHits : Z;
  b_rdReqs : list nat;
  b_wrReqs : list nat
}.

(** [g_vector<Bank>::resize] value-initialises. *)
Definition blank_bank : Bank := mkBank 0 false 0 0 0 0 [] [].

(** Everything the constructor fixes. *)
Record DdrParams := mkDP {
  tBL : Z; tCL : Z; tRCD : Z; tRTP : Z; tRP : Z; tRRD : Z; tRAS : Z; tFAW : Z; tWTR : Z; tWR : Z;
  tRFC : Z; tREFI : Z;
  ranksPerChannel : nat;
  banksPerRank : nat;
  controllerSysLatency : Z;
  queueDepth : nat;
  rowHitLimit : Z;
  deferredWrites : bool;
  closedPage : bool;
  colShift : Z; colMask : Z; rankShift : Z; rankMask : Z; bankShift : Z; bankMask : Z; rowShift : Z;
  minWrLatency : Z;
  preDelay : Z;
  postDelayRd : Z;
  postDelayWr : Z;
  sysFreqKHz : Z;
  memFreqKHz : Z
}.

(** The scheduling events: the enumeration of [SchedEvent]. *)
Inductive SchedState := SE_IDLE | SE_QUEUED (cycle : Z) | SE_RUNNING | SE_ANNULLED (cycle : Z).

Record DdrStats := mkDS {
  profReads : Z; profWrites : Z; bytesReads : Z; bytesWrites : Z;
  profTotalRdLat : Z; profTotalWrLat : Z; profReadHits : Z; profWriteHits : Z;
  latencyHist : list Z
}.

Record Ddr := mkD {
  d_minRespCycle : Z;
  d_lastCmdWasWrite : bool;
  d_rdQueue : RequestQueue;
  d_wrQueue : RequestQueue;
  d_overflow : list Request;
  d_banks : list (list Bank);
  d_windows : list ActWindow;
  d_nextSchedEvent : option nat;
  d_nextSchedCycle : Z;
  d_freelist : list nat;
  d_sched : list SchedState;
  d_events : Arena;
  (** the [ev->done(cycle)] calls so far, latest first *)
  d_done : list (nat * Z);
  d_stats : DdrStats
}.

Definition set_resp x d := mkD x (d_lastCmdWasWrite d) (d_rdQueue d) (d_wrQueue d) (d_overflow d)
  (d_banks d) (d_windows d) (d_nextSchedEvent d) (d_nextSchedCycle d) (d_freelist d) (d_sched d)
  (d_events d) (d_done d) (d_stats d).
Definition set_lastw x d := mkD (d_minRespCycle d) x (d_rdQueue d) (d_wrQueue d) (d_overflow d)
  (d_banks d) (d_windows d) (d_nextSchedEvent d) (d_nextSchedCycle d) (d_freelist d) (d_sched d)
  (d_events d) (d_done d) (d_stats d).
Definition set_rdq x d := mkD (d_minRespCycle d) (d_lastCmdWasWrite d) x (d_wrQueue d) (d_overflow d)
  (d_banks d) (d_windows d) (d_nextSchedEvent d) (d_nextSchedCycle d) (d_freelist d) (d_sched d)
  (d_events d) (d_done d) (d_stats d).
Definition set_wrq x d := mkD (d_minRespCycle d) (d_lastCmdWasWrite d) (d_rdQueue d) x (d_overflow d)
  (d_banks d) (d_windows d) (d_nextSchedEvent d) (d_nextSchedCycle d) (d_freelist d) (d_sched d)
  (d_events d) (d_done d) (d_stats d).
Definition set_overflow x d := mkD (d_minRespCycle d) (d_lastCmdWasWrite d) (d_rdQueue d) (d_wrQueue d) x
  (d_banks d) (d_windows d) (d_nextSchedEvent d) (d_nextSchedCycle d) (d_freelist d) (d_sched d)
  (d_events d) (d_done d) (d_stats d).
Definition set_banks x d := mkD (d_minRespCycle d) (d_lastCmdWasWrite d) (d_rdQueue d) (d_wrQueue d)
  (d_overflow d) x (d_windows d) (d_nextSchedEvent d) (d_nextSchedCycle d) (d_freelist d) (d_sched d)
  (d_events d) (d_done d) (d_stats d).
Definition set_windows x d := mkD (d_minRespCycle d) (d_lastCmdWasWrite d) (d_rdQueue d) (d_wrQueue d)
  (d_overflow d) (d_banks d) x (d_nextSchedEvent d) (d_nextSchedCycle d) (d_freelist d) (d_sched d)
  (d_events d) (d_done d) (d_stats d).
Definition set_sched ev c fl se d := mkD (d_minRespCycle d) (d_lastCmdWasWrite d) (d_rdQueue d)
  (d_wrQueue d) (d_overflow d) (d_banks d) (d_windows d) ev c fl se (d_events d) (d_done d) (d_stats d).
Definition set_events x d := mkD (d_minRespCycle d) (d_lastCmdWasWrite d) (d_rdQueue d) (d_wrQueue d)
  (d_overflow d) (d_banks d) (d_windows d) (d_nextSchedEvent d) (d_nextSchedCycle d) (d_freelist d)
  (d_sched d) x (d_done d) (d_stats d).
Definition set_done x d := mkD (d_minRespCycle d) (d_lastCmdWasWrite d) (d_rdQueue d) (d_wrQueue d)
  (d_overflow d) (d_banks d) (d_windows d) (d_nextSchedEvent d) (d_nextSchedCycle d) (d_freelist d)
  (d_sched d) (d_events d) x (d_stats d).
Definition set_dstats x d := mkD (d_minRespCycle d) (d_lastCmdWasWrite d) (d_rdQueue d) (d_wrQueue d)
  (d_overflow d) (d_banks d) (d_windows d) (d_nextSchedEvent d) (d_nextSchedCycle d) (d_freelist d)
  (d_sched d) (d_events d) (d_done d) x.

Definition set_queue (w : bool) (q : RequestQueue) (d : Ddr) : Ddr :=
  if w then set_wrq q d else set_rdq q d.
Definition get_queue (w : bool) (d : Ddr) : RequestQueue := if w then d_wrQueue d else d_rdQueue d.

Definition bank_reqs (w : bool) (b : Bank) : list nat := if w then b_wrReqs b else b_rdReqs b.
Definition set_bank_reqs (w : bool) (l : list nat) (b : Bank) : Bank :=
  mkBank (b_openRow b) (b_open b) (b_minPreCycle b) (b_lastActCycle b) (b_lastCmdCycle b)
    (b_curRowHits b) (if w then b_rdReqs b else l) (if w then l else b_wrReqs b).

Section Channel.
Context (P : DdrParams).

Definition sysToMem (c : Z) : res Z := sysToMemCycle (sysFreqKHz P) (memFreqKHz P) c.
Definition memToSys (c : Z) : res Z := memToSysCycle (sysFreqKHz P) (memFreqKHz P) c.
Definition matchingSys (c : Z) : res Z := matchingMemToSysCycle (sysFreqKHz P) (memFreqKHz P) c.

(** [DDRMemory::mapLineAddr]; [col], [rank] and [bank] are 32 bits wide. *)
Definition mapLineAddr (lineAddr : Address) : res AddrLoc :=
  let field shift mask := u32 (Z.land (Z.shiftr lineAddr shift) mask) in
  let rank := Z.to_nat (field (rankShift P) (rankMask P)) in
  let bank := Z.to_nat (field (bankShift P) (bankMask P)) in
  if negb (rank <? ranksPerChannel P)%nat then Err (AssertFail "ddr_mem.cpp:324")
  else if negb (bank <? banksPerRank P)%nat then Err (AssertFail "ddr_mem.cpp:325")
  else Ok (mkAL (Z.shiftr lineAddr (rowShift P)) bank rank (field (colShift P) (colMask P))).

Definition get_bank (rank bank : nat) : M Ddr Bank :=
  d <- get ;;
  bs <- lift (at_ (d_banks d) rank) ;;
  lift (at_ bs bank).
Definition put_bank (rank bank : nat) (b : Bank) : M Ddr unit :=
  d <- get ;;
  bs <- lift (at_ (d_banks d) rank) ;;
  _ <- lift (at_ bs bank) ;;
  modify (set_banks (<[rank := <[bank := b]> bs]> (d_banks d))).

Definition get_request (w : bool) (n : nat) : M Ddr Request :=
  d <- get ;; lift (q_get (get_queue w d) n).
Definition put_request (w : bool) (n : nat) (r : Request) : M Ddr unit :=
  modify (fun d => set_queue w (q_put n r (get_queue w d)) d).

(** [ev->f()] on an event of the arena. *)
Definition on_event (f : TimingEvent -> res TimingEvent) (ev : nat) : M Ddr unit :=
  d <- get ;;
  e <- lift (at_ (d_events d) ev) ;;
  e' <- lift (f e) ;;
  modify (set_events (<[ev := e']> (d_events d))).

(** [ev->release(); ev->done(cycle);] *)
Definition respond (ev : nat) (cycle : Z) : M Ddr unit :=
  on_event ev_release ev ;;
  on_event ev_done ev ;;
  modify (fun d => set_done ((ev, cycle) :: d_done d) d).

(** The position in a bank queue: after the last request of the same row while
    its sequence number is below the limit, else last.  [rows] are the rows and
    sequence numbers of the queued requests, [fresh] the sequence number when no
    request of the row is queued. *)
Fixpoint last_same_row (row : Z) (rows : list (Z * Z)) : option (nat * Z) :=
  match rows with
  | [] => None
  | (r, seq) :: rest =>
      match last_same_row row rest with
      | Some (i, s) => Some (S i, s)
      | None => if r =? row then Some (0%nat, seq) else None
      end
  end.

(** [insertAfter(m, req)] for the element at position [i]. *)
Definition insert_after (i : nat) (x : nat) (l : list nat) : list nat :=
  take (S i) l ++ x :: drop (S i) l.

(** The new bank queue and [rowHitSeq]. *)
Definition place_request (b : Bank) (row : Z) (x : nat) (q : list nat) (rows : list (Z * Z))
    : list nat * Z :=
  match last_same_row row rows with
  | Some (i, seq) =>
      if seq <? rowHitLimit P then (insert_after i x q, u64 (seq + 1)) else (q ++ [x], 0)
  | None =>
      if b_open b && (row =? b_openRow b) && (b_curRowHits b <? rowHitLimit P)
         && match q with [] => true | _ => false end
      then (x :: q, u64 (b_curRowHits b + 1))
      else (q ++ [x], 0)
  end.

(** The rows and sequence numbers of the requests of a bank queue. *)
Fixpoint rows_of (Q : RequestQueue) (q : list nat) : res (list (Z * Z)) :=
  match q with
  | [] => Ok []
  | n :: q' =>
      match q_get Q n, rows_of Q q' with
      | Ok r, Ok l => Ok ((al_row (rq_loc r), rq_rowHitSeq r) :: l)
      | Err e, _ => Err e
      | _, Err e => Err e
      end
  end.

(** [DDRMemory::queue(req, memCycle)] for the request in slot [n] of the write
    ([w]) or read queue. *)
Definition queue_request (w : bool) (n : nat) (memCycle : Z) : M Ddr unit :=
  r <- get_request w n ;;
  r <- (if rq_write r then
          match rq_ev r with
          | None => fail NullDeref
          | Some ev =>
              base <- lift (memToSys memCycle) ;;
              let respCycle := u64 (base + minWrLatency P) in
              respond ev (u64 (respCycle - preDelay P - postDelayWr P)) ;;
              ret (rq_clear_ev r)
          end
        else ret r) ;;
  let r := rq_set_arrival memCycle r in
  let l := rq_loc r in
  b <- get_bank (al_rank l) (al_bank l) ;;
  d <- get ;;
  rows <- lift (rows_of (get_queue w d) (bank_reqs w b)) ;;
  let (q', seq) := place_request b (al_row l) n (bank_reqs w b) rows in
  put_request w n (rq_set_seq seq r) ;;
  put_bank (al_rank l) (al_bank l) (set_bank_reqs w q' b).

(** [DDRMemory::findMinCmdCycle] *)
Definition act_cycle (r : Request) (b : Bank) (minAct : Z) : res Z :=
  let preCycle := if b_open b then Z.max (rq_arrivalCycle r) (b_minPreCycle b) else b_minPreCycle b in
  if b_open b && (al_row (rq_loc r) =? b_openRow b) then Err (AssertFail "ddr_mem.cpp:516") else
  let actCycle := Z.max (rq_arrivalCycle r)
                    (Z.max (u64 (preCycle + tRP P)) (u64 (b_lastActCycle b + tRRD P))) in
  Ok (Z.max actCycle (u64 (minAct + tFAW P))).

Definition row_hit (r : Request) (b : Bank) : bool :=
  (al_row (rq_loc r) =? b_openRow b) && b_open b.

Definition findMinCmdCycle (r : Request) : M Ddr Z :=
  let l := rq_loc r in
  b <- get_bank (al_rank l) (al_bank l) ;;
  if row_hit r b then ret (Z.max (rq_arrivalCycle r) (u64 (b_lastCmdCycle b + 1)))
  else
    d <- get ;;
    w <- lift (at_ (d_windows d) (al_rank l)) ;;
    m <- lift (minActCycle w) ;;
    act <- lift (act_cycle r b m) ;;
    ret (u64 (act + tRCD P)).

(** The head of a bank queue: [!req->prev]. *)
Definition is_bank_head (w : bool) (n : nat) : M Ddr bool :=
  r <- get_request w n ;;
  b <- get_bank (al_rank (rq_loc r)) (al_bank (rq_loc r)) ;;
  ret (bool_decide (head (bank_reqs w b) = Some n)).

(** Lines 553-570: the oldest request that is at the head of its bank and whose
    command can issue by [curCycle]; and the earliest cycle seen. *)
Fixpoint select_ready (w : bool) (curCycle : Z) (q : list nat) (minSched : Z)
    : M Ddr (option nat * Z) :=
  match q with
  | [] => ret (None, minSched)
  | n :: q' =>
      h <- is_bank_head w n ;;
      if (h : bool) then
        r <- get_request w n ;;
        c <- findMinCmdCycle r ;;
        let minSched := Z.min minSched c in
        if c <=? curCycle then ret (Some n, minSched) else select_ready w curCycle q' minSched
      else select_ready w curCycle q' minSched
  end.

(** The DRAM commands of one served request. *)
Record Issue := mkIssue {
  is_act : option Z;      (** the ACT command, for a row miss *)
  is_cmd : Z;             (** the RD or WR command *)
  is_resp : Z             (** the end of the data burst *)
}.

(** Lines 586-614 and 617: when the commands issue. *)
Definition issue_of (d : Ddr) (r : Request) (b : Bank) (minAct : Z) (curCycle : Z) : res Issue :=
  let min0 := Z.max curCycle (u64 (d_minRespCycle d - tCL P)) in
  let min1 := if d_lastCmdWasWrite d && negb (rq_write r)
              then Z.max min0 (u64 (d_minRespCycle d + tWTR P)) else min0 in
  let finish minCmd act :=
    let cmdCycle := Z.max minCmd (u64 (d_minRespCycle d - tCL P)) in
    Ok (mkIssue act cmdCycle (u64 (cmdCycle + tCL P + rq_data_size r))) in
  if row_hit r b then finish min1 None
  else match act_cycle r b minAct with
       | Ok act => finish (Z.max min1 (u64 (act + tRCD P))) (Some act)
       | Err e => Err e
       end.

(** Lines 606-611 and 624-637: the bank after the commands; [next_seq] is the
    sequence number of the next request of the bank queue. *)
Definition bank_after (r : Request) (b : Bank) (i : Issue) (next_seq : option Z) : Bank :=
  let preIssued := b_open b in
  let preCycle := if b_open b then Z.max (rq_arrivalCycle r) (b_minPreCycle b) else b_minPreCycle b in
  let lastAct := match is_act i with Some a => a | None => b_lastActCycle b end in
  let pre0 := match is_act i with
              | Some _ => if preIssued then u64 (preCycle + tRAS P) else b_minPreCycle b
              | None => b_minPreCycle b
              end in
  let openRow := match is_act i with Some _ => al_row (rq_loc r) | None => b_openRow b end in
  let keep := match next_seq with Some s => negb (s =? 0) | None => false end in
  mkBank openRow (negb (closedPage P && negb keep))
    (Z.max pre0 (Z.max (u64 (lastAct + tRAS P))
                   (if rq_write r then u64 (is_resp i + tWR P) else u64 (is_cmd i + tRTP P))))
    lastAct (is_cmd i) (rq_rowHitSeq r) (b_rdReqs b) (b_wrReqs b).

Definition BINSIZE : Z := 10.
Definition NUMBINS : Z := 100.
Definition count_read (lat size : Z) (hit : bool) (s : DdrStats) : DdrStats :=
  mkDS (u64 (profReads s + 1)) (profWrites s) (u64 (bytesReads s + u32 (16 * size))) (bytesWrites s)
    (u64 (profTotalRdLat s + lat)) (profTotalWrLat s)
    (if hit then u64 (profReadHits s + 1) else profReadHits s) (profWriteHits s)
    (alter (fun n => u64 (n + 1)) (Z.to_nat (Z.min (NUMBINS - 1) (lat / BINSIZE))) (latencyHist s)).
Definition count_write (lat size : Z) (hit : bool) (s : DdrStats) : DdrStats :=
  mkDS (profReads s) (u64 (profWrites s + 1)) (bytesReads s) (u64 (bytesWrites s + u32 (16 * size)))
    (profTotalRdLat s) (u64 (profTotalWrLat s + lat))
    (profReadHits s) (if hit then u64 (profWriteHits s + 1) else profWriteHits s) (latencyHist s).

(** Lines 639-676: the response of a read, and the statistics. *)
Definition issue_response (r : Request) (hit : bool) (sysCycle : Z) : M Ddr unit :=
  d <- get ;;
  base <- lift (memToSys (d_minRespCycle d)) ;;
  let doneSysCycle := u64 (base + controllerSysLatency P) in
  let scDelay := u32 (doneSysCycle - rq_startSysCycle r) in
  match rq_ev r with
  | Some ev =>
      e <- lift (at_ (d_events d) ev) ;;
      assert_ "ddr_mem.cpp:642" (negb (ev_write e) && negb (rq_write r)) ;;
      assert_ "ddr_mem.cpp:645" (sysCycle <=? doneSysCycle) ;;
      respond ev (u64 (doneSysCycle - preDelay P - postDelayRd P)) ;;
      modify (fun d => set_dstats (count_read scDelay (rq_data_size r) hit (d_stats d)) d)
  | None =>
      modify (fun d => set_dstats (count_write scDelay (rq_data_size r) hit (d_stats d)) d)
  end.

(** Lines 582-684: serve the request in slot [n]. *)
Definition serve_request (w : bool) (n : nat) (curCycle sysCycle : Z) : M Ddr Z :=
  r <- get_request w n ;;
  let l := rq_loc r in
  b <- get_bank (al_rank l) (al_bank l) ;;
  d <- get ;;
  win <- lift (at_ (d_windows d) (al_rank l)) ;;
  m <- lift (minActCycle win) ;;
  i <- lift (issue_of d r b m curCycle) ;;
  (match is_act i with
   | Some act =>
       win' <- lift (addActivation act win) ;;
       modify (set_windows (<[al_rank l := win']> (d_windows d)))
   | None => ret tt
   end) ;;
  next_seq <- (match tail (bank_reqs w b) with
               | x :: _ => rx <- get_request w x ;; ret (Some (rq_rowHitSeq rx))
               | [] => ret None
               end) ;;
  modify (set_resp (is_resp i)) ;;
  modify (set_lastw (rq_write r)) ;;
  assert_ "ddr_mem.cpp:635" (b_lastCmdCycle b <? is_cmd i) ;;
  let b' := bank_after r b i next_seq in
  issue_response r (row_hit r b) sysCycle ;;
  modify (fun d => set_queue w (q_remove n (get_queue w d)) d) ;;
  put_bank (al_rank l) (al_bank l) (set_bank_reqs w (tail (bank_reqs w b)) b') ;;
  d <- get ;;
  ret (if q_empty (d_rdQueue d) && q_empty (d_wrQueue d) then NO_CYCLE
       else u64 (d_minRespCycle d - tCL P)).

(** Lines 544-546: which queue is served. *)
Definition serve_writes (d : Ddr) : bool :=
  let depth := Z.of_nat (queueDepth P) in
  let prioWrites := (u32 (3 * depth) / 4 <? q_size (d_wrQueue d))
                    || (d_lastCmdWasWrite d && (depth / 4 <? q_size (d_wrQueue d))) in
  q_empty (d_rdQueue d) || prioWrites.

(** [DDRMemory::trySchedule] *)
Definition trySchedule (curCycle sysCycle : Z) : M Ddr Z :=
  d <- get ;;
  if q_empty (d_rdQueue d) && q_empty (d_wrQueue d) then ret NO_CYCLE
  else if u64 (curCycle + tCL P) <? d_minRespCycle d then ret (u64 (d_minRespCycle d - tCL P))
  else
    let w := serve_writes d in
    assert_ "ddr_mem.cpp:549" (negb (q_empty (get_queue w d))) ;;
    let! (found, minSched) := select_ready w curCycle (q_reqs (get_queue w d)) NO_CYCLE in
    match found with
    | None => ret minSched
    | Some n => serve_request w n curCycle sysCycle
    end.

(** [DDRMemory::refresh] *)
Definition refresh (sysCycle : Z) : M Ddr unit :=
  memCycle <- lift (sysToMem sysCycle) ;;
  d <- get ;;
  let minRefreshCycle :=
    fold_left (fun m b => Z.max m (Z.max (b_minPreCycle b) (b_lastCmdCycle b)))
      (concat (d_banks d)) memCycle in
  assert_ "ddr_mem.cpp:695" (memCycle <=? minRefreshCycle) ;;
  let refreshDoneCycle := u64 (minRefreshCycle + tRFC P) in
  assert_ "ddr_mem.cpp:698" (tRP P <=? tRFC P) ;;
  modify (set_banks
    (map (map (fun b => mkBank (b_openRow b) false (u64 (refreshDoneCycle - tRP P))
                          (b_lastActCycle b) (b_lastCmdCycle b) (b_curRowHits b)
                          (b_rdReqs b) (b_wrReqs b))) (d_banks d))).

(** ** The scheduling event *)

(** [SchedEvent::annul] and [SchedEvent::enqueue] *)
Definition se_annul (ev : nat) : M Ddr unit :=
  d <- get ;;
  st <- lift (at_ (d_sched d) ev) ;;
  match st with
  | SE_QUEUED c =>
      modify (set_sched (d_nextSchedEvent d) (d_nextSchedCycle d) (d_freelist d)
                (<[ev := SE_ANNULLED c]> (d_sched d)))
  | _ => fail (AssertFail "ddr_mem.cpp:142")
  end.
Definition se_enqueue (ev : nat) (cycle : Z) : M Ddr unit :=
  d <- get ;;
  st <- lift (at_ (d_sched d) ev) ;;
  match st with
  | SE_IDLE =>
      modify (set_sched (d_nextSchedEvent d) (d_nextSchedCycle d) (d_freelist d)
                (<[ev := SE_QUEUED cycle]> (d_sched d)))
  | _ => fail (AssertFail "ddr_mem.cpp:136")
  end.

(** Lines 361-374: move the wake-up to [minSchedCycle]. *)
Definition wake_at (minSchedCycle sysCycle : Z) : M Ddr unit :=
  d <- get ;;
  (match d_nextSchedEvent d with Some ev => se_annul ev | None => ret tt end) ;;
  d <- get ;;
  ev <- (match d_freelist d with
         | ev :: fl =>
             modify (set_sched (Some ev) (d_nextSchedCycle d) fl (d_sched d)) ;; ret ev
         | [] =>
             let ev := length (d_sched d) in
             modify (set_sched (Some ev) (d_nextSchedCycle d) [] (d_sched d ++ [SE_IDLE])) ;; ret ev
         end) ;;
  c <- lift (matchingSys minSchedCycle) ;;
  se_enqueue ev (Z.max c sysCycle) ;;
  modify (fun d => set_sched (d_nextSchedEvent d) minSchedCycle (d_freelist d) (d_sched d) d).

Definition queue_alloc (w : bool) (r : Request) : M Ddr nat :=
  d <- get ;;
  let! (n, q) := lift (q_alloc (get_queue w d)) in
  modify (set_queue w (q_put n r q)) ;;
  ret n.

(** [DDRMemory::enqueue(ev, sysCycle)] *)
Definition enqueue (ev : nat) (sysCycle : Z) : M Ddr unit :=
  memCycle <- lift (sysToMem sysCycle) ;;
  d <- get ;;
  let overflow := q_full (d_rdQueue d) || q_full (d_wrQueue d) in
  e <- lift (at_ (d_events d) ev) ;;
  let w := deferredWrites P && ev_write e in
  loc <- lift (mapLineAddr (ev_addr e)) ;;
  let req := mkRq (ev_addr e) loc (ev_write e) (ev_data_size e) 0 memCycle sysCycle (Some ev) in
  if overflow then
    on_event ev_hold ev ;;
    modify (fun d => set_overflow (d_overflow d ++ [req]) d)
  else
    n <- queue_alloc w req ;;
    on_event ev_hold ev ;;
    queue_request w n memCycle ;;
    first <- is_bank_head w n ;;
    when first
      (d <- get ;;
       let min0 := Z.max memCycle (u64 (d_minRespCycle d - tCL P - tBL P)) in
       r <- get_request w n ;;
       min1 <- (if min0 <? d_nextSchedCycle d
                then c <- findMinCmdCycle r ;; ret (Z.max min0 c) else ret min0) ;;
       when (min1 <? d_nextSchedCycle d) (wake_at min1 sysCycle)).

(** Lines 466-485: one request moves from the overflow queue. *)
Definition refill (memCycle minSched : Z) : M Ddr Z :=
  d <- get ;;
  match d_overflow d with
  | req :: rest =>
      if negb (q_full (d_rdQueue d)) && negb (q_full (d_wrQueue d)) then
        let w := deferredWrites P && rq_write req in
        n <- queue_alloc w req ;;
        modify (set_overflow rest) ;;
        queue_request w n memCycle ;;
        first <- is_bank_head w n ;;
        if (first : bool) then
          d <- get ;;
          let minQ := Z.max memCycle (u64 (d_minRespCycle d - tCL P - tBL P)) in
          r <- get_request w n ;;
          m <- (if minQ <? minSched then c <- findMinCmdCycle r ;; ret (Z.max minQ c)
                else ret minSched) ;;
          ret (if minQ <? m then minQ else m)
        else ret minSched
      else ret minSched
  | [] => ret minSched
  end.

(** [DDRMemory::tick]: the system cycle of the next tick, or 0. *)
Definition tick (sysCycle : Z) : M Ddr Z :=
  memCycle <- lift (sysToMem sysCycle) ;;
  d <- get ;;
  assert_ "ddr_mem.cpp:463" (memCycle =? d_nextSchedCycle d) ;;
  minSched <- trySchedule memCycle sysCycle ;;
  assert_ "ddr_mem.cpp:465" (memCycle <=? minSched) ;;
  minSched <- refill memCycle minSched ;;
  modify (fun d => set_sched (if minSched =? NO_CYCLE then None else d_nextSchedEvent d) minSched
                     (d_freelist d) (d_sched d) d) ;;
  if minSched =? NO_CYCLE then ret 0
  else c <- lift (matchingSys minSched) ;; ret (Z.max c sysCycle).

(** [DDRMemory::recycleEvent] *)
Definition recycleEvent (ev : nat) : M Ddr unit :=
  d <- get ;;
  assert_ "ddr_mem.cpp:499" (negb (bool_decide (d_nextSchedEvent d = Some ev))) ;;
  assert_ "ddr_mem.cpp:500" (negb (bool_decide (ev ∈ d_freelist d))) ;;
  modify (set_sched (d_nextSchedEvent d) (d_nextSchedCycle d) (ev :: d_freelist d) (d_sched d)).

Definition set_se (ev : nat) (st : SchedState) : M Ddr unit :=
  modify (fun d => set_sched (d_nextSchedEvent d) (d_nextSchedCycle d) (d_freelist d)
                     (<[ev := st]> (d_sched d)) d).

(** [SchedEvent::simulate] *)
Definition se_simulate (ev : nat) (startCycle : Z) : M Ddr unit :=
  d <- get ;;
  st <- lift (at_ (d_sched d) ev) ;;
  match st with
  | SE_QUEUED _ =>
      set_se ev SE_RUNNING ;;
      nextCycle <- tick startCycle ;;
      if negb (nextCycle =? 0) then set_se ev (SE_QUEUED nextCycle)
      else set_se ev SE_IDLE ;; recycleEvent ev
  | SE_ANNULLED _ => set_se ev SE_IDLE ;; recycleEvent ev
  | _ => fail (AssertFail "ddr_mem.cpp:128")
  end.
End Channel.
