(* ===== verification/DdrWeaveProofs.v ===== *)
(** * Timing and ordering properties of the DDR channel *)

From stdpp Require Import base list gmap strings sorting.
From Stdlib Require Import ZArith Lia.
From S2P Require Import Prelude Numeric MemHierarchy DdrBound DdrWeave.
Local Open Scope Z_scope.

(** ** The activation window *)

(** The activations in the window, oldest first. *)
Definition window (w : ActWindow) : list Z :=
  drop (aw_idx w) (aw_buf w) ++ take (aw_idx w) (aw_buf w).

Definition window_ok (w : ActWindow) : Prop :=
  length (aw_buf w) = 4%nat /\ (aw_idx w < 4)%nat.

Lemma window_cases w :
  window_ok w -> exists a b c d, window w = [a; b; c; d] /\
    ((aw_buf w = [a; b; c; d] /\ aw_idx w = 0%nat) \/ (aw_buf w = [d; a; b; c] /\ aw_idx w = 1%nat) \/
     (aw_buf w = [c; d; a; b] /\ aw_idx w = 2%nat) \/ (aw_buf w = [b; c; d; a] /\ aw_idx w = 3%nat)).
Proof.
  intros [Hl Hi]. destruct w as [buf idx]. simpl in *.
  destruct buf as [|x0 [|x1 [|x2 [|x3 [|]]]]]; try done.
  destruct idx as [|[|[|[|]]]]; [..|lia]; unfold window; simpl; eauto 12.
Qed.

Lemma minActCycle_window w a b c d :
  window_ok w -> window w = [a; b; c; d] -> minActCycle w = Ok a.
Proof.
  intros Hok Hw. destruct (window_cases w Hok) as (a' & b' & c' & d' & Hw' & Hc).
  rewrite Hw in Hw'. simplify_eq. unfold minActCycle, at_.
  destruct Hc as [[-> ->]|[[-> ->]|[[-> ->]|[-> ->]]]]; done.
Qed.

(** Insertion into an ascending list. *)
Fixpoint insert_asc (x : Z) (l : list Z) : list Z :=
  match l with
  | [] => [x]
  | y :: l' => if x <? y then x :: l else y :: insert_asc x l'
  end.

Lemma addActivation_ok w a b c d act :
  window_ok w -> window w = [a; b; c; d] -> a <= act -> b <= act -> b <= c <= d ->
  exists w', addActivation act w = Ok w' /\ window_ok w' /\ window w' = insert_asc act [b; c; d].
Proof.
  intros Hok Hw Ha Hb Hs. pose proof (minActCycle_window _ _ _ _ _ Hok Hw) as Hmin.
  destruct (window_cases w Hok) as (a' & b' & c' & d' & Hw' & Hc).
  rewrite Hw in Hw'. injection Hw' as <- <- <- <-.
  unfold addActivation. rewrite Hmin. destruct (Z.leb_spec a act); [|lia]. simpl.
  destruct w as [buf idx]. unfold window_ok in *. simpl in *.
  destruct Hc as [[-> ->]|[[-> ->]|[[-> ->]|[-> ->]]]]; simpl; unfold at_, aw_dec, aw_inc; simpl;
    destruct (Z.ltb_spec act b); try lia; simpl;
    destruct (Z.ltb_spec act d); simpl; [destruct (Z.ltb_spec act c); simpl| |
      destruct (Z.ltb_spec act c); simpl| |destruct (Z.ltb_spec act c); simpl| |
      destruct (Z.ltb_spec act c); simpl|];
    destruct (Z.ltb_spec act b); try lia; try (destruct (Z.ltb_spec act c); try lia);
    eexists; (split; [reflexivity|]); (split; [split; simpl; lia|]); reflexivity.
Qed.

(** ** Order of a bank queue *)

Lemma last_same_row_spec row rows :
  match last_same_row row rows with
  | Some (i, s) => rows !! i = Some (row, s) /\
      forall j x, (i < j)%nat -> rows !! j = Some x -> fst x <> row
  | None => forall j x, rows !! j = Some x -> fst x <> row
  end.
Proof.
  induction rows as [|[r s] rows IH]; simpl; [done|].
  destruct (last_same_row row rows) as [[i t]|].
  - destruct IH as [H1 H2]. split; [done|]. intros [|j] x Hj Hx; [lia|]. eapply (H2 j); [lia|done].
  - destruct (Z.eqb_spec r row) as [->|Hne].
    + split; [done|]. intros [|j] x Hj Hx; [lia|]. by eapply IH.
    + intros [|j] x Hx; simplify_eq/=; [done|by eapply IH].
Qed.

(** The request goes behind every queued request of its row. *)
Lemma place_request_ok P b row x q rows :
  length rows = length q -> 0 <= rowHitLimit P < 2 ^ 64 - 1 ->
  (forall j r, rows !! j = Some r -> 0 <= snd r <= rowHitLimit P) -> 0 <= b_curRowHits b ->
  exists l1 l2 seq, place_request P b row x q rows = (l1 ++ x :: l2, seq) /\ q = l1 ++ l2 /\
    (forall j r, (length l1 <= j)%nat -> rows !! j = Some r -> fst r <> row) /\
    0 <= seq <= rowHitLimit P.
Proof.
  intros Hlen Hlim Hseq Hb. unfold place_request. pose proof (last_same_row_spec row rows) as Hl.
  destruct (last_same_row row rows) as [[i s]|].
  - destruct Hl as [Hi Hafter]. pose proof (Hseq _ _ Hi) as Hs. simpl in Hs.
    pose proof (lookup_lt_Some _ _ _ Hi) as Hlt.
    destruct (Z.ltb_spec s (rowHitLimit P)).
    + exists (take (S i) q), (drop (S i) q), (u64 (s + 1)). split_and!.
      * done.
      * by rewrite take_drop.
      * intros j r Hj. rewrite length_take in Hj. apply Hafter. lia.
      * rewrite u64_id; unfold in_u64; lia.
      * rewrite u64_id; unfold in_u64; lia.
    + exists q, [], 0. split_and!; [done|by rewrite app_nil_r| |lia|lia].
      intros j r Hj Hr. apply lookup_lt_Some in Hr. lia.
  - assert (exists l1 l2 seq, (q ++ [x], 0) = (l1 ++ x :: l2, seq) /\ q = l1 ++ l2 /\
      (forall j r, (length l1 <= j)%nat -> rows !! j = Some r -> fst r <> row) /\
      0 <= seq <= rowHitLimit P) as Hback.
    { exists q, [], 0. split_and!; [done|by rewrite app_nil_r|intros j r _; apply Hl|lia|lia]. }
    destruct (_ && _) eqn:E; [|done].
    apply andb_true_iff in E as [E Eq]. apply andb_true_iff in E as [_ Eh].
    apply Z.ltb_lt in Eh. destruct q; [|done].
    exists [], [], (u64 (b_curRowHits b + 1)).
    rewrite u64_id by (unfold in_u64; lia). split_and!; [done|done|intros j r _; apply Hl|lia|lia].
Qed.

(** ** Command timing *)

(** Cycles and parameters far from wrapping. *)
Definition cyc (c : Z) : Prop := 0 <= c < 2 ^ 62.
Definition par (c : Z) : Prop := 0 <= c < 2 ^ 32.

Record params_fit (P : DdrParams) : Prop := {
  pf_CL : par (tCL P); pf_RCD : 0 < tRCD P < 2 ^ 32; pf_RTP : par (tRTP P); pf_RP : par (tRP P);
  pf_RRD : par (tRRD P); pf_RAS : par (tRAS P); pf_FAW : par (tFAW P); pf_WTR : par (tWTR P);
  pf_WR : par (tWR P)
}.

Record bank_fit (b : Bank) : Prop := {
  bf_pre : cyc (b_minPreCycle b); bf_act : cyc (b_lastActCycle b); bf_cmd : cyc (b_lastCmdCycle b);
  (** a precharge never precedes the last column access *)
  bf_order : b_lastCmdCycle b <= b_minPreCycle b
}.

Record req_fit (r : Request) : Prop := {
  rf_arr : cyc (rq_arrivalCycle r); rf_size : par (rq_data_size r)
}.

(** Discharge the 64-bit wraps of sums that stay in range. *)
Ltac no_wrap :=
  repeat match goal with
  | |- context [u64 ?e] => rewrite (u64_id e) by (unfold in_u64; lia)
  | H : context [u64 ?e] |- _ => rewrite (u64_id e) in H by (unfold in_u64; lia)
  end.
Ltac fit :=
  repeat match goal with
  | H : params_fit _ |- _ => destruct H
  | H : bank_fit _ |- _ => destruct H
  | H : req_fit _ |- _ => destruct H
  end; unfold cyc, par in *.

(** The ACT of a row miss keeps the row, bank and rank constraints. *)
Lemma act_cycle_ok P r b minAct :
  params_fit P -> bank_fit b -> req_fit r -> cyc minAct -> row_hit r b = false ->
  exists act, act_cycle P r b minAct = Ok act /\
    rq_arrivalCycle r <= act /\ b_minPreCycle b + tRP P <= act /\
    b_lastActCycle b + tRRD P <= act /\ minAct + tFAW P <= act /\
    (b_open b = true -> rq_arrivalCycle r + tRP P <= act) /\ act < 2 ^ 62 + 2 ^ 33.
Proof.
  intros HP Hb Hr Hm Hh. unfold act_cycle, row_hit in *. rewrite andb_comm in Hh. rewrite Hh.
  eexists. split; [done|]. fit. destruct (b_open b); no_wrap; split_and!; try lia; done.
Qed.

(** What the scheduler relies on before it issues. *)
Record ready (P : DdrParams) (d : Ddr) (r : Request) (b : Bank) (minAct cur : Z) : Prop := {
  rd_params : params_fit P;
  rd_bank : bank_fit b;
  rd_req : req_fit r;
  rd_win : cyc minAct;
  rd_cur : cyc cur;
  rd_resp : tCL P <= d_minRespCycle d < 2 ^ 62;
  (** [findMinCmdCycle(r) <= curCycle] in the row-hit case *)
  rd_hit : row_hit r b = true -> b_lastCmdCycle b + 1 <= cur
}.

Lemma issue_ok P d r b minAct cur :
  ready P d r b minAct cur ->
  exists i, issue_of P d r b minAct cur = Ok i /\
    (** the data bus: the burst starts after the previous one ends *)
    d_minRespCycle d <= is_cmd i + tCL P /\ is_resp i = is_cmd i + tCL P + rq_data_size r /\
    cur <= is_cmd i /\ b_lastCmdCycle b < is_cmd i < 2 ^ 62 + 2 ^ 34 /\
    (d_lastCmdWasWrite d = true -> rq_write r = false -> d_minRespCycle d + tWTR P <= is_cmd i) /\
    (row_hit r b = true <-> is_act i = None) /\
    forall act, is_act i = Some act ->
      act + tRCD P <= is_cmd i /\ b_lastActCycle b + tRRD P <= act /\ minAct + tFAW P <= act /\
      b_minPreCycle b + tRP P <= act /\ act < 2 ^ 62 + 2 ^ 33.
Proof.
  intros [HP Hb Hr Hm Hc Hresp Hhit]. unfold issue_of.
  destruct (row_hit r b) eqn:Hh.
  - specialize (Hhit eq_refl). eexists. split; [done|]. simpl. fit.
    destruct (d_lastCmdWasWrite d), (rq_write r); simpl; no_wrap;
      (split_and!; try lia; try done).
  - destruct (act_cycle_ok P r b minAct HP Hb Hr Hm Hh) as (act & -> & H1 & H2 & H3 & H4 & H5 & H6).
    eexists. split; [done|]. simpl. fit.
    destruct (d_lastCmdWasWrite d), (rq_write r); simpl; no_wrap;
      (split_and!; try lia; try done; intros act' [= <-]; split_and!; lia).
Qed.

(** The bank after the commands: a later precharge respects the row's minimum
    open time and the read or write recovery. *)
Lemma bank_after_ok P d r b minAct cur i next :
  ready P d r b minAct cur -> issue_of P d r b minAct cur = Ok i ->
  let b' := bank_after P r b i next in
  b_lastCmdCycle b' = is_cmd i /\ b_lastCmdCycle b' <= b_minPreCycle b' /\
  b_minPreCycle b <= b_minPreCycle b' /\
  b_lastActCycle b' + tRAS P <= b_minPreCycle b' /\
  (rq_write r = false -> is_cmd i + tRTP P <= b_minPreCycle b') /\
  (rq_write r = true -> is_resp i + tWR P <= b_minPreCycle b') /\
  (b_open b' = true -> b_openRow b' = al_row (rq_loc r) \/ b_openRow b' = b_openRow b).
Proof.
  intros Hrd Hi. destruct (issue_ok _ _ _ _ _ _ Hrd) as (i' & Hi' & H1 & H2 & H3 & H4 & H5 & H6 & H7).
  rewrite Hi in Hi'. injection Hi' as <-. destruct Hrd as [HP Hb Hr Hm Hc Hresp _]. cbv zeta.
  unfold bank_after. simpl. destruct (is_act i) as [act|] eqn:Ea.
  - destruct (H7 act eq_refl) as (A1 & A2 & A3 & A4 & A5). fit.
    destruct (b_open b), (rq_write r); simpl; no_wrap; split_and!; try done; try lia; auto.
  - fit. destruct (b_open b), (rq_write r); simpl; no_wrap; split_and!; try done; try lia; auto.
Qed.

(** ** Refresh *)

Lemma fold_max_ge (f : Bank -> Z) bs m :
  m <= fold_left (fun m b => Z.max m (f b)) bs m /\
  forall b, b ∈ bs -> f b <= fold_left (fun m b => Z.max m (f b)) bs m.
Proof.
  revert m. induction bs as [|x bs IH]; intros m; simpl; [split; [lia|]; by intros b ?%not_elem_of_nil|].
  destruct (IH (Z.max m (f x))) as [H1 H2]. split; [lia|].
  intros b [->|Hb]%elem_of_cons; [lia|auto].
Qed.

Lemma fold_max_lt (f : Bank -> Z) bs m bound :
  m < bound -> (forall b, b ∈ bs -> f b < bound) -> fold_left (fun m b => Z.max m (f b)) bs m < bound.
Proof.
  revert m. induction bs as [|x bs IH]; intros m Hm Hb; simpl; [done|].
  apply IH; [|intros b Hin; apply Hb; by right]. pose proof (Hb x ltac:(left)). lia.
Qed.

Definition all_banks (d : Ddr) : list Bank := concat (d_banks d).

Lemma all_banks_map (f : Bank -> Bank) (bs : list (list Bank)) :
  concat (map (map f) bs) = map f (concat bs).
Proof. induction bs as [|x bs IH]; simpl; [done|]. by rewrite map_app, IH. Qed.

(** ** The claims *)

(** Over 64-byte bursts, the activation window of a rank holds its four
    latest activations in order: an activation that is not older than the second
    oldest replaces the oldest one and takes its place in the order. *)
Theorem activation_window_sorted w a b c d act :
  window_ok w -> window w = [a; b; c; d] -> a <= act -> b <= act -> b <= c <= d ->
  exists w', addActivation act w = Ok w' /\ window_ok w' /\ window w' = insert_asc act [b; c; d].
Proof. intros H1 H2 H3 H4 H5. exact (addActivation_ok w a b c d act H1 H2 H3 H4 H5). Qed.

(** An activation older than the three youngest ones is misplaced: the
    window [0; 30; 31; 32] with 25 added is [32; 30; 31; 25], so the next
    activation is held back by the youngest instead of the oldest of the four. *)
Theorem activation_window_misplaced :
  exists w, addActivation 25 (mkAW [0; 30; 31; 32] 0) = Ok w /\
    window w = [32; 30; 31; 25] /\ minActCycle w = Ok 32.
Proof. eexists. split; [reflexivity|]. split; reflexivity. Qed.

(** C19: FR-FCFS insertion.  A new request enters its bank queue at one place,
    behind every queued request of its row, no other request moves, and its
    row-hit sequence number stays within the limit. *)
Theorem row_order_fifo P b row x q rows :
  length rows = length q -> 0 <= rowHitLimit P < 2 ^ 64 - 1 ->
  (forall j r, rows !! j = Some r -> 0 <= snd r <= rowHitLimit P) -> 0 <= b_curRowHits b ->
  exists l1 l2 seq, place_request P b row x q rows = (l1 ++ x :: l2, seq) /\ q = l1 ++ l2 /\
    (forall j r, (length l1 <= j)%nat -> rows !! j = Some r -> fst r <> row) /\
    0 <= seq <= rowHitLimit P.
Proof. intros H1 H2 H3 H4. exact (place_request_ok P b row x q rows H1 H2 H3 H4). Qed.

(** C20: the commands of a served request respect the DRAM timing: the burst
    starts after the previous burst ends, a read after a write waits tWTR, an
    activation waits tRP after the earliest precharge, tRRD after the bank's
    last activation and tFAW after the oldest of the rank's window, the column
    access waits tRCD after the activation, and it is later than the bank's
    previous one (so the assertion of line 635 and the one of the window hold). *)
Theorem commands_respect_timing P d r b minAct cur :
  ready P d r b minAct cur ->
  exists i, issue_of P d r b minAct cur = Ok i /\
    d_minRespCycle d <= is_cmd i + tCL P /\ is_resp i = is_cmd i + tCL P + rq_data_size r /\
    cur <= is_cmd i /\ b_lastCmdCycle b < is_cmd i /\
    (d_lastCmdWasWrite d = true -> rq_write r = false -> d_minRespCycle d + tWTR P <= is_cmd i) /\
    (row_hit r b = true <-> is_act i = None) /\
    forall act, is_act i = Some act ->
      act + tRCD P <= is_cmd i /\ b_lastActCycle b + tRRD P <= act /\
      minAct + tFAW P <= act /\ b_minPreCycle b + tRP P <= act.
Proof.
  intros Hr. destruct (issue_ok P d r b minAct cur Hr) as (i & H0 & H1 & H2 & H3 & H4 & H5 & H6 & H7).
  exists i. split_and!; try done; try lia. intros act Ha. destruct (H7 act Ha) as (? & ? & ? & ? & ?). done.
Qed.

(** After the commands the bank cannot be precharged before the row was
    open for tRAS, nor before tRTP after a read or tWR after a write burst; the
    bank's constraint cycles never move backwards. *)
Theorem precharge_respects_timing P d r b minAct cur i next :
  ready P d r b minAct cur -> issue_of P d r b minAct cur = Ok i ->
  let b' := bank_after P r b i next in
  b_lastCmdCycle b' = is_cmd i /\ b_lastCmdCycle b' <= b_minPreCycle b' /\
  b_minPreCycle b <= b_minPreCycle b' /\ b_lastActCycle b' + tRAS P <= b_minPreCycle b' /\
  (rq_write r = false -> is_cmd i + tRTP P <= b_minPreCycle b') /\
  (rq_write r = true -> is_resp i + tWR P <= b_minPreCycle b').
Proof.
  intros Hr Hi. destruct (bank_after_ok P d r b minAct cur i next Hr Hi)
    as (? & ? & ? & ? & ? & ? & _). done.
Qed.

(** A refresh returns, closes every bank, and makes the next activation of
    every bank wait tRFC after the refresh cycle and after every earlier
    precharge and column access; no request or window changes. *)
Theorem refresh_closes_all P d sys mem :
  sysToMem P sys = Ok mem -> 0 <= mem < 2 ^ 62 -> par (tRFC P) -> 0 <= tRP P <= tRFC P ->
  (forall b, b ∈ all_banks d -> bank_fit b) ->
  exists d', refresh P sys d = Ok (tt, d') /\
    length (all_banks d') = length (all_banks d) /\
    d_rdQueue d' = d_rdQueue d /\ d_wrQueue d' = d_wrQueue d /\ d_windows d' = d_windows d /\
    forall b', b' ∈ all_banks d' -> b_open b' = false /\ mem + tRFC P <= b_minPreCycle b' + tRP P /\
      b_lastCmdCycle b' <= b_minPreCycle b' /\
      forall b, b ∈ all_banks d -> b_minPreCycle b + tRFC P <= b_minPreCycle b' + tRP P /\
        b_lastCmdCycle b + tRFC P <= b_minPreCycle b' + tRP P.
Proof.
  intros Hsys Hmem Hrfc Hrp Hfit. unfold refresh, bind, lift, get, assert_, modify. rewrite Hsys.
  fold (all_banks d). set (g := fun b => Z.max (b_minPreCycle b) (b_lastCmdCycle b)).
  set (m := fold_left _ (all_banks d) mem).
  destruct (fold_max_ge g (all_banks d) mem) as [Hm1 Hm2]. change (mem <= m) in Hm1.
  assert (m < 2 ^ 62) as Hm3.
  { apply (fold_max_lt g); [lia|]. intros b Hb. destruct (Hfit b Hb) as [H1 _ H2 _]. unfold cyc, g in *. lia. }
  rewrite (proj2 (Z.leb_le mem m) Hm1), (proj2 (Z.leb_le (tRP P) (tRFC P)) (proj2 Hrp)).
  eexists. split; [reflexivity|]. set (d' := set_banks _ d).
  assert (all_banks d' = map (fun b => mkBank (b_openRow b) false (u64 (u64 (m + tRFC P) - tRP P))
            (b_lastActCycle b) (b_lastCmdCycle b) (b_curRowHits b) (b_rdReqs b) (b_wrReqs b))
            (all_banks d)) as -> by (unfold all_banks, d'; simpl; by rewrite all_banks_map).
  split_and!; [by rewrite length_map|done|done|done|].
  intros b' Hb'. apply list_elem_of_In, in_map_iff in Hb' as (b0 & <- & Hb0). simpl.
  apply list_elem_of_In in Hb0. unfold par in *. no_wrap.
  assert (forall b, b ∈ all_banks d -> Z.max (b_minPreCycle b) (b_lastCmdCycle b) <= m) as Hm4 by done.
  pose proof (Hm4 _ Hb0). split_and!; [done|lia|lia|]. intros b Hb. pose proof (Hm4 _ Hb). lia.
Qed.

(** ** Concrete instances: DDR3-1066-CL8 *)
Definition demo_dp : DdrParams :=
  mkDP 4 8 8 4 8 4 20 20 4 8 59 4160 1 2 10 4 4 true true 0 127 7 0 7 1 8 10 10 28 0 2000000 533333.
Definition demo_bank : Bank := mkBank 3 true 40 20 30 0 [] [].
Definition demo_rq : Request := mkRq 0 (mkAL 5 0 0 0) false 4 0 35 0 (Some 0%nat).
Definition demo_ddr : Ddr :=
  mkD 50 true (q_init 4) (q_init 4) [] [[demo_bank; demo_bank]] [aw_init 4] None NO_CYCLE [] [] []
    [] (mkDS 0 0 0 0 0 0 0 0 (replicate 100 0)).

Lemma demo_fit : params_fit demo_dp /\ bank_fit demo_bank /\ req_fit demo_rq.
Proof. split_and!; split; unfold cyc, par; simpl; lia. Qed.

Lemma demo_ready : ready demo_dp demo_ddr demo_rq demo_bank 0 60.
Proof. destruct demo_fit as (? & ? & ?). split; try done; unfold cyc; simpl; lia. Qed.

Lemma activation_window_sorted_witness :
  exists w', addActivation 25 (mkAW [10; 20; 30; 0] 3) = Ok w' /\ window w' = [10; 20; 25; 30].
Proof.
  destruct (activation_window_sorted (mkAW [10; 20; 30; 0] 3) 0 10 20 30 25) as (w' & H1 & _ & H2);
    [split; simpl; lia|reflexivity|lia..|]. exists w'. split; [exact H1|exact H2].
Defined.

Lemma row_order_fifo_witness :
  exists l1 l2 seq, place_request demo_dp demo_bank 7 9 [1; 2; 3]%nat [(7, 0); (8, 0); (6, 0)] =
    (l1 ++ 9%nat :: l2, seq).
Proof.
  destruct (row_order_fifo demo_dp demo_bank 7 9 [1; 2; 3]%nat [(7, 0); (8, 0); (6, 0)])
    as (l1 & l2 & seq & H1 & _); [reflexivity|simpl; lia| |simpl; lia|eauto].
  intros j r Hj. destruct j as [|[|[|j]]]; simplify_eq/=; lia.
Defined.

Lemma commands_respect_timing_witness :
  exists i, issue_of demo_dp demo_ddr demo_rq demo_bank 0 60 = Ok i /\ 60 <= is_cmd i.
Proof.
  destruct (commands_respect_timing demo_dp demo_ddr demo_rq demo_bank 0 60 demo_ready)
    as (i & H1 & _ & _ & H2 & _). by exists i.
Defined.

Lemma precharge_respects_timing_witness :
  b_lastCmdCycle (bank_after demo_dp demo_rq demo_bank (mkIssue (Some 48) 60 72) None) = 60.
Proof.
  exact (proj1 (precharge_respects_timing demo_dp demo_ddr demo_rq demo_bank 0 60
                  (mkIssue (Some 48) 60 72) None demo_ready eq_refl)).
Defined.

Lemma refresh_closes_all_witness :
  exists d', refresh demo_dp 1000 demo_ddr = Ok (tt, d') /\ length (all_banks d') = 2%nat.
Proof.
  destruct (refresh_closes_all demo_dp demo_ddr 1000 267) as (d' & H1 & H2 & _);
    [reflexivity|lia|unfold par; simpl; lia|simpl; lia| |by exists d'].
  intros b Hb. destruct demo_fit as (_ & Hf & _).
  repeat (apply elem_of_cons in Hb as [->|Hb]; [exact Hf|]). by apply not_elem_of_nil in Hb.
Defined.
