(* ===== verification/DdrInit.v ===== *)
(** * Construction of a DDR channel
    ([DDRMemory::DDRMemory] and [DDRMemory::initTech] of
    [src/src/ddr_mem.cpp]; [Tokenize] of [src/src/config.cpp]), and the address
    mapping it sets up. *)

From stdpp Require Import base list strings sets.
From Stdlib Require Import ZArith Lia Ascii.
From S2P Require Import Prelude Numeric MemHierarchy DdrBound DdrWeave.
Local Open Scope Z_scope.

(** ** [Tokenize] with one delimiter

    The first token starts at the beginning of the string; after a token, all
    adjacent delimiters are skipped.  [cur] is the token being read, or [None]
    while delimiters are skipped. *)
Fixpoint Tokenize (delim : ascii) (s : string) (cur : option string) : list string :=
  match s, cur with
  | EmptyString, Some t => [t]
  | EmptyString, None => []
  | String c s', Some t =>
      if Ascii.eqb c delim then t :: Tokenize delim s' None
      else Tokenize delim s' (Some (t +:+ String c EmptyString))
  | String c s', None =>
      if Ascii.eqb c delim then Tokenize delim s' None
      else Tokenize delim s' (Some (String c EmptyString))
  end.

(** ** [initTech] *)
Record Tech := mkTech {
  te_tCK : double;
  te_tBL : Z; te_tCL : Z; te_tRCD : Z; te_tRTP : Z; te_tRP : Z; te_tRRD : Z; te_tRAS : Z;
  te_tFAW : Z; te_tWTR : Z; te_tWR : Z; te_tRFC : Z; te_tREFI : Z
}.

(** [uint32_t(n / time_scale)] *)
Definition scaled (time_scale : double) (n : Z) : Z := u32 (dbl_to_i64 (ddiv (dbl_of_Z n) time_scale)).

Definition tech_table (tech : string) (time_scale : double) : res Tech :=
  let sc := scaled time_scale in
  if String.eqb tech "DDR3-1333-CL10" then
    Ok (mkTech (ddiv (dlit 3 2) (dbl_of_Z 2)) 4 (sc 10) (sc 10) (sc 5) (sc 10) (sc 4) (sc 24) (sc 20)
          (sc 5) (sc 10) (sc 74) (sc 5200))
  else if String.eqb tech "DDR3-1066-CL7" then
    Ok (mkTech (dlit 15 8) 4 7 7 4 7 4 18 18 4 7 59 4160)
  else if String.eqb tech "DDR3-1066-CL8" then
    Ok (mkTech (dlit 15 8) 4 8 8 4 8 4 20 20 4 8 59 4160)
  else Err (Panic "ddr_mem.cpp:768").

(** The checks, [tBL] for the line size, and [memFreqKHz]. *)
Definition initTech (tech : string) (time_scale : double) (lineSize : Z) : res (Tech * Z) :=
  match tech_table tech time_scale with
  | Err e => Err e
  | Ok t =>
      if negb (dltb (dbl_of_Z 0) (te_tCK t)) then Err (AssertFail "ddr_mem.cpp:772") else
      if existsb (fun x => x =? 0)
           [te_tBL t; te_tCL t; te_tRCD t; te_tRTP t; te_tRP t; te_tRRD t; te_tRAS t; te_tFAW t;
            te_tWTR t; te_tWR t; te_tRFC t; te_tREFI t]
      then Err (AssertFail "ddr_mem.cpp:773") else
      let with_tBL b := mkTech (te_tCK t) b (te_tCL t) (te_tRCD t) (te_tRTP t) (te_tRP t) (te_tRRD t)
        (te_tRAS t) (te_tFAW t) (te_tWTR t) (te_tWR t) (te_tRFC t) (te_tREFI t) in
      let memFreq := u64 (dbl_to_i64 (ddiv (ddiv (dbl_of_Z 1000000000) (te_tCK t)) (dbl_of_Z 1000))) in
      if isPow2 lineSize && (64 <=? lineSize) then Ok (with_tBL (u32 (lineSize * te_tBL t) / 64), memFreq)
      else if lineSize =? 32 then Ok (with_tBL (te_tBL t / 2), memFreq)
      else Err (Panic "ddr_mem.cpp:782")
  end.

(** ** The address mapping *)
Record Mapping := mkMap {
  m_colShift : Z; m_colMask : Z; m_rankShift : Z; m_rankMask : Z; m_bankShift : Z; m_bankMask : Z;
  m_startBit : Z
}.

Definition empty_mapping : Mapping := mkMap 0 0 0 0 0 0 0.

(** [computeShiftAndMask] for one token. *)
Definition map_token (colBits rankBits bankBits : Z) (m : Mapping) (t : string) : res Mapping :=
  let mask bits := u32 (2 ^ bits - 1) in
  let next bits := u32 (m_startBit m + bits) in
  if String.eqb t "col" then
    if negb (m_colMask m =? 0) then Err (Panic "ddr_mem.cpp:206") else
    Ok (mkMap (m_startBit m) (mask colBits) (m_rankShift m) (m_rankMask m) (m_bankShift m)
          (m_bankMask m) (next colBits))
  else if String.eqb t "rank" then
    if negb (m_rankMask m =? 0) then Err (Panic "ddr_mem.cpp:206") else
    Ok (mkMap (m_colShift m) (m_colMask m) (m_startBit m) (mask rankBits) (m_bankShift m)
          (m_bankMask m) (next rankBits))
  else if String.eqb t "bank" then
    if negb (m_bankMask m =? 0) then Err (Panic "ddr_mem.cpp:206") else
    Ok (mkMap (m_colShift m) (m_colMask m) (m_rankShift m) (m_rankMask m) (m_startBit m)
          (mask bankBits) (next bankBits))
  else Err (Panic "ddr_mem.cpp:215").

Fixpoint map_tokens (colBits rankBits bankBits : Z) (m : Mapping) (ts : list string) : res Mapping :=
  match ts with
  | [] => Ok m
  | t :: ts' =>
      match map_token colBits rankBits bankBits m t with
      | Ok m' => map_tokens colBits rankBits bankBits m' ts'
      | Err e => Err e
      end
  end.

(** Lines 192-217 *)
Definition parse_mapping (addrMapping : string) (colSize lineSize : Z) (ranks banks : nat) : res Mapping :=
  match udiv (u32 (colSize / 8 * 64)) lineSize with
  | Err e => Err e
  | Ok lines =>
      let tokens := Tokenize ":" addrMapping (Some EmptyString) in
      if negb (length tokens =? 3)%nat then Err (Panic "ddr_mem.cpp:200")
      else map_tokens (ilog2 lines) (ilog2 (Z.of_nat ranks)) (ilog2 (Z.of_nat banks))
             empty_mapping (rev tokens)
  end.

(** [DDRMemory::DDRMemory].  [lastCmdWasWrite] is not initialised: [junk].  The
    refresh event that the constructor queues is run by the event loop. *)
Definition DDRMemory_new (lineSize colSize : Z) (ranks banks : nat) (sysFreqMHz : Z) (tech : string)
    (addrMapping : string) (ctrlLatency : Z) (depth : nat) (rowLimit : Z) (deferred closed : bool)
    (domain tBL_ : Z) (time_scale : double) (junk : bool) : res (DdrParams * DdrConfig * Ddr) :=
  let sysFreq := u32 (1000 * sysFreqMHz) in
  match initTech tech time_scale lineSize with
  | Err e => Err e
  | Ok (t, memFreq) =>
    if sysFreq / 2 <=? memFreq then Err (Panic "ddr_mem.cpp:166") else
    match memToSysCycle sysFreq memFreq (u32 (te_tCL t + 2 - 1)),
          parse_mapping addrMapping colSize lineSize ranks banks with
    | Err e, _ => Err e
    | _, Err e => Err e
    | Ok rd, Ok m =>
        let minRd := u32 (ctrlLatency + rd) in
        let P := mkDP tBL_ (te_tCL t) (te_tRCD t) (te_tRTP t) (te_tRP t) (te_tRRD t) (te_tRAS t)
          (te_tFAW t) (te_tWTR t) (te_tWR t) (te_tRFC t) (te_tREFI t) ranks banks ctrlLatency depth
          rowLimit deferred closed (m_colShift m) (m_colMask m) (m_rankShift m) (m_rankMask m)
          (m_bankShift m) (m_bankMask m) (m_startBit m) ctrlLatency ctrlLatency
          (u32 (minRd - ctrlLatency)) 0 sysFreq memFreq in
        let C := mkDdr minRd ctrlLatency ctrlLatency (u32 (minRd - ctrlLatency)) 0 domain sysFreq memFreq in
        let d := mkD (u32 (te_tCL t + tBL_ + 1)) junk (q_init depth) (q_init depth) []
          (replicate ranks (replicate banks blank_bank)) (replicate ranks (aw_init 4))
          None NO_CYCLE [] [] [] [] (mkDS 0 0 0 0 0 0 0 0 (replicate (Z.to_nat NUMBINS) 0)) in
        Ok (P, C, d)
    end
  end.

(** [MemoryController::BuildDDRMemory]: the configuration keys below a prefix,
    an unset key being [None], with the defaults of the source. *)
Record DdrKeys := mkKeys {
  k_ranksPerChannel : option nat;
  k_banksPerRank : option nat;
  k_pageSize : option Z;
  k_tech : option string;
  k_addrMapping : option string;
  k_deferWrites : option bool;
  k_closedPage : option bool;
  k_maxRowHits : option Z;
  k_queueDepth : option nat;
  k_controllerLatency : option Z
}.

Definition BuildDDRMemory (k : DdrKeys) (lineSize frequency domain tBL_ : Z) (timing_scale : double)
    (junk : bool) : res (DdrParams * DdrConfig * Ddr) :=
  DDRMemory_new lineSize (default (8 * 1024) (k_pageSize k)) (default 4%nat (k_ranksPerChannel k))
    (default 8%nat (k_banksPerRank k)) frequency
    (default "DDR3-1333-CL10"%string (k_tech k)) (default "rank:col:bank"%string (k_addrMapping k))
    (default 10 (k_controllerLatency k)) (default 16%nat (k_queueDepth k))
    (default 4 (k_maxRowHits k)) (default true (k_deferWrites k)) (default true (k_closedPage k))
    domain tBL_ timing_scale junk.

(** A configuration that sets no key. *)
Definition no_keys : DdrKeys := mkKeys None None None None None None None None None None.

(** ** The mapping loses no address *)

(** A field of [bits] bits at [shift]. *)
Definition slot (a shift bits : Z) : Z := Z.land (Z.shiftr a shift) (2 ^ bits - 1).

Lemma slot_bits a shift bits n :
  0 <= shift -> 0 <= bits -> 0 <= n < bits -> Z.testbit (slot a shift bits) n = Z.testbit a (shift + n).
Proof.
  intros Hs Hb Hn. unfold slot. replace (2 ^ bits - 1) with (Z.ones bits) by (rewrite Z.ones_equiv; lia).
  rewrite Z.land_ones, Z.mod_pow2_bits_low, Z.shiftr_spec by lia. f_equal. lia.
Qed.

Lemma slot_range a shift bits : 0 <= bits -> 0 <= slot a shift bits < 2 ^ bits.
Proof.
  intros Hb. unfold slot. replace (2 ^ bits - 1) with (Z.ones bits) by (rewrite Z.ones_equiv; lia).
  rewrite Z.land_ones by lia. apply Z.mod_pos_bound. by apply Z.pow_pos_nonneg.
Qed.

(** Equal fields make equal bits. *)
Lemma slot_eq_bits a a' shift bits n :
  0 <= shift -> 0 <= bits -> slot a shift bits = slot a' shift bits -> shift <= n < shift + bits ->
  Z.testbit a n = Z.testbit a' n.
Proof.
  intros Hs Hb Heq Hn. rewrite <- (Z.sub_add shift n), Z.add_comm.
  rewrite <- !(slot_bits _ shift bits) by lia. by rewrite Heq.
Qed.

Lemma shiftr_eq_bits a a' shift n :
  0 <= shift -> Z.shiftr a shift = Z.shiftr a' shift -> shift <= n -> Z.testbit a n = Z.testbit a' n.
Proof.
  intros Hs Heq Hn. rewrite <- (Z.sub_add shift n), <- !Z.shiftr_spec by lia. by rewrite Heq.
Qed.

(** The shifts and widths of a mapping: the three fields are adjacent, from bit
    0, and the row is above them. *)
Definition mapping_ok (P : DdrParams) (colBits rankBits bankBits : Z) : Prop :=
  0 <= colBits < 32 /\ 0 <= rankBits < 32 /\ 0 <= bankBits < 32 /\
  colMask P = 2 ^ colBits - 1 /\ rankMask P = 2 ^ rankBits - 1 /\ bankMask P = 2 ^ bankBits - 1 /\
  rowShift P = colBits + rankBits + bankBits /\
  0 <= colShift P /\ 0 <= rankShift P /\ 0 <= bankShift P /\
  2 ^ rankBits <= Z.of_nat (ranksPerChannel P) /\ 2 ^ bankBits <= Z.of_nat (banksPerRank P) /\
  forall n, 0 <= n < rowShift P ->
    colShift P <= n < colShift P + colBits \/ rankShift P <= n < rankShift P + rankBits \/
    bankShift P <= n < bankShift P + bankBits.

Lemma u32_slot a shift bits : 0 <= bits < 32 -> u32 (slot a shift bits) = slot a shift bits.
Proof.
  intros Hb. apply u32_id. pose proof (slot_range a shift bits ltac:(lia)). unfold in_u32.
  assert (2 ^ bits <= 2 ^ 32) by (apply Z.pow_le_mono_r; lia). lia.
Qed.

Lemma mapLineAddr_ok P cb rb bb a :
  mapping_ok P cb rb bb ->
  mapLineAddr P a = Ok (mkAL (Z.shiftr a (rowShift P)) (Z.to_nat (slot a (bankShift P) bb))
                          (Z.to_nat (slot a (rankShift P) rb)) (slot a (colShift P) cb)).
Proof.
  intros (Hc & Hr & Hb & Mc & Mr & Mb & _ & _ & _ & _ & Nr & Nb & _).
  unfold mapLineAddr. rewrite Mc, Mr, Mb. fold (slot a (rankShift P) rb) (slot a (bankShift P) bb)
    (slot a (colShift P) cb). rewrite !u32_slot by done.
  pose proof (slot_range a (rankShift P) rb ltac:(lia)). pose proof (slot_range a (bankShift P) bb ltac:(lia)).
  destruct (Nat.ltb_spec (Z.to_nat (slot a (rankShift P) rb)) (ranksPerChannel P)); [|lia].
  destruct (Nat.ltb_spec (Z.to_nat (slot a (bankShift P) bb)) (banksPerRank P)); [|lia]. done.
Qed.

Lemma mapLineAddr_inj P cb rb bb a a' :
  mapping_ok P cb rb bb -> 0 <= a -> 0 <= a' -> mapLineAddr P a = mapLineAddr P a' -> a = a'.
Proof.
  intros Hm Ha Ha' Heq. rewrite !(mapLineAddr_ok P cb rb bb) in Heq by done.
  injection Heq as Erow Ebank Erank Ecol.
  destruct Hm as (Hc & Hr & Hb & _ & _ & _ & Hrow & Sc & Sr & Sb & _ & _ & Hcover).
  pose proof (slot_range a (rankShift P) rb ltac:(lia)). pose proof (slot_range a' (rankShift P) rb ltac:(lia)).
  pose proof (slot_range a (bankShift P) bb ltac:(lia)). pose proof (slot_range a' (bankShift P) bb ltac:(lia)).
  apply Z.bits_inj'. intros n Hn. destruct (Z.lt_ge_cases n (rowShift P)) as [Hlt|Hge].
  - destruct (Hcover n ltac:(lia)) as [?|[?|?]].
    + apply (slot_eq_bits a a' (colShift P) cb); auto; lia.
    + apply (slot_eq_bits a a' (rankShift P) rb); auto; lia.
    + apply (slot_eq_bits a a' (bankShift P) bb); auto; lia.
  - apply (shiftr_eq_bits a a' (rowShift P)); auto; lia.
Qed.

(** The permutations of three distinct names. *)
Lemma three_names (x y z : string) ts :
  length ts = 3%nat -> x ∈ ts -> y ∈ ts -> z ∈ ts -> x <> y -> x <> z -> y <> z ->
  ts = [x; y; z] \/ ts = [x; z; y] \/ ts = [y; x; z] \/ ts = [y; z; x] \/ ts = [z; x; y] \/ ts = [z; y; x].
Proof.
  intros Hl Hx Hy Hz H1 H2 H3. destruct ts as [|a [|b [|c [|]]]]; try done.
  repeat match goal with H : _ ∈ _ :: _ |- _ => apply elem_of_cons in H as [->|H] end;
    repeat match goal with H : _ ∈ [] |- _ => by apply not_elem_of_nil in H end; try done; auto 10.
Qed.

Lemma pow2_u32 bits : 0 <= bits < 32 -> u32 (2 ^ bits - 1) = 2 ^ bits - 1.
Proof.
  intros Hb. apply u32_id. unfold in_u32.
  assert (0 < 2 ^ bits) by (apply Z.pow_pos_nonneg; lia).
  assert (2 ^ bits <= 2 ^ 32) by (apply Z.pow_le_mono_r; lia). lia.
Qed.

(** The fields of a mapping whose three tokens are [col], [rank] and [bank] in
    some order. *)
Lemma map_tokens_ok cb rb bb ts m P :
  0 <= cb < 32 -> 0 <= rb < 32 -> 0 <= bb < 32 ->
  length ts = 3%nat -> "col"%string ∈ ts -> "rank"%string ∈ ts -> "bank"%string ∈ ts ->
  map_tokens cb rb bb empty_mapping ts = Ok m ->
  colShift P = m_colShift m -> colMask P = m_colMask m -> rankShift P = m_rankShift m ->
  rankMask P = m_rankMask m -> bankShift P = m_bankShift m -> bankMask P = m_bankMask m ->
  rowShift P = m_startBit m ->
  2 ^ rb <= Z.of_nat (ranksPerChannel P) -> 2 ^ bb <= Z.of_nat (banksPerRank P) ->
  mapping_ok P cb rb bb.
Proof.
  intros Hc Hr Hb Hl H1 H2 H3 Hm E1 E2 E3 E4 E5 E6 E7 N1 N2.
  unfold mapping_ok. rewrite E1, E2, E3, E4, E5, E6, E7.
  destruct (three_names _ _ _ _ Hl H1 H2 H3) as [->|[->|[->|[->|[->| ->]]]]]; try done;
    simpl in Hm; injection Hm as <-; simpl; rewrite !pow2_u32 by done;
    rewrite !(u32_id) by (unfold in_u32; rewrite ?u32_id by (unfold in_u32; rewrite ?u32_id; unfold in_u32; lia); lia);
    split_and!; try lia; intros n Hn; lia.
Qed.

Lemma ilog2_fits n : 0 < n < 2 ^ 32 -> 0 <= ilog2 n < 32 /\ 2 ^ ilog2 n <= n.
Proof.
  intros Hn. unfold ilog2. pose proof (Z.log2_nonneg n). pose proof (Z.log2_spec n ltac:(lia)) as [H1 H2].
  split; [|done]. split; [done|]. apply (Z.pow_lt_mono_r_iff 2); lia.
Qed.

(** C24: the address mapping of a channel built from a configuration that names
    the three fields once: no line address fails the range assertions of
    [mapLineAddr], and two line addresses never share row, bank, rank and
    column. *)
Theorem address_mapping_faithful lineSize colSize ranks banks freq tech mapping lat depth lim dw cp
    dom tbl scale junk P C d :
  DDRMemory_new lineSize colSize ranks banks freq tech mapping lat depth lim dw cp dom tbl scale
    junk = Ok (P, C, d) ->
  0 < Z.of_nat ranks < 2 ^ 32 -> 0 < Z.of_nat banks < 2 ^ 32 -> lineSize <= colSize / 8 * 64 < 2 ^ 32 ->
  0 < lineSize ->
  (forall f, f ∈ ["col"; "rank"; "bank"]%string -> f ∈ Tokenize ":" mapping (Some EmptyString)) ->
  forall a, 0 <= a ->
    (exists l, mapLineAddr P a = Ok l) /\
    forall a', 0 <= a' -> mapLineAddr P a = mapLineAddr P a' -> a = a'.
Proof.
  unfold DDRMemory_new. intros Hnew Hr Hb Hc Hls Htok a Ha.
  destruct (initTech _ _ _) as [[t memFreq]|]; [|done]. destruct (_ <=? memFreq); [done|].
  destruct (memToSysCycle _ _ _); [|done]. unfold parse_mapping, udiv in Hnew.
  destruct (Z.eqb_spec lineSize 0); [lia|].
  set (ts := Tokenize ":" mapping _) in *.
  destruct (Nat.eqb_spec (length ts) 3) as [Hl|]; [|done]. simpl in Hnew.
  destruct (map_tokens _ _ _ _ _) as [m|] eqn:Hm; [|done]. injection Hnew as <- <- <-.
  set (lines := u32 (colSize / 8 * 64) / lineSize) in *.
  assert (0 < lines < 2 ^ 32) as Hlines.
  { unfold lines. rewrite u32_id by (unfold in_u32; lia). split.
    - apply Z.div_str_pos. lia.
    - apply Z.div_lt_upper_bound; [lia|]. nia. }
  destruct (ilog2_fits _ Hr) as [R1 R2]. destruct (ilog2_fits _ Hb) as [B1 B2].
  destruct (ilog2_fits _ Hlines) as [C1 C2].
  assert (forall f, f ∈ ["col"; "rank"; "bank"]%string -> f ∈ rev ts) as Hin.
  { intros f Hf.
    apply list_elem_of_In. apply -> in_rev. apply list_elem_of_In. by apply Htok. }
  set (P := mkDP _ _ _ _ _ _ _ _ _ _ _ _ _ _ _ _ _ _ _ _ _ _ _ _ _ _ _ _ _ _ _ _).
  assert (mapping_ok P (ilog2 lines) (ilog2 (Z.of_nat ranks)) (ilog2 (Z.of_nat banks))) as Hok.
  { apply (map_tokens_ok _ _ _ (rev ts) m); try done; try (by rewrite length_rev); apply Hin; set_solver. }
  split.
  - rewrite (mapLineAddr_ok P _ _ _ a Hok). eauto.
  - intros a' Ha' Heq. by eapply mapLineAddr_inj.
Qed.

Lemma address_mapping_faithful_witness :
  exists P C d, DDRMemory_new 64 8192 1 8 2000 "DDR3-1066-CL8" "rank:col:bank" 10 16 4 true true 0 4
    (dlit 1 1) false = Ok (P, C, d) /\ exists l, mapLineAddr P 123456 = Ok l.
Proof.
  destruct (DDRMemory_new 64 8192 1 8 2000 "DDR3-1066-CL8" "rank:col:bank" 10 16 4 true true 0 4
    (dlit 1 1) false) as [[[P C] d]|e] eqn:E; [|vm_compute in E; discriminate].
  exists P, C, d. split; [reflexivity|].
  refine (proj1 (address_mapping_faithful _ _ _ _ _ _ _ _ _ _ _ _ _ _ _ _ P C d E _ _ _ _ _ 123456 _));
    try (split; reflexivity || (vm_compute; discriminate)); try lia.
  intros f Hf. vm_compute.
  repeat (apply elem_of_cons in Hf as [->|Hf]; [repeat constructor|]).
  exfalso. exact (not_elem_of_nil f Hf).
Defined.

(** ** The default channel *)

Lemma default_tech :
  exists t, initTech "DDR3-1333-CL10" (dlit 1 1) 64 = Ok (t, 1333333) /\ te_tCL t = 10.
Proof. eexists. split; vm_compute; reflexivity. Qed.

(** A channel whose configuration sets no key can be built exactly when the
    system clock is at least 2667 MHz, since the default DDR3-1333 part runs at
    1333333 kHz and the constructor refuses a memory clock of half the system
    clock or more.  The default system frequency of the simulator, 2000 MHz, is
    below that bound. *)
Theorem default_channel_frequency frequency domain junk :
  0 <= frequency -> 1000 * frequency < 2 ^ 32 ->
  (exists c, BuildDDRMemory no_keys 64 frequency domain 4 (dlit 1 1) junk = Ok c)
  <-> 2667 <= frequency.
Proof.
  intros H0 Hf. destruct default_tech as (t & Ht & HtCL).
  unfold BuildDDRMemory, DDRMemory_new. cbn [default k_tech no_keys]. simpl default.
  rewrite Ht, u32_id by (unfold in_u32; lia).
  replace (1000 * frequency / 2) with (500 * frequency)
    by (apply Z.div_unique_exact; lia).
  destruct (Z.leb_spec (500 * frequency) 1333333) as [Hle|Hgt].
  - split; [by intros [? ?]|lia].
  - split; [lia|intros _]. unfold memToSysCycle, udiv. cbn [Z.eqb].
    destruct (parse_mapping _ _ _ _ _) as [m|e] eqn:E; [eauto|].
    vm_compute in E. discriminate.
Qed.

Lemma default_channel_frequency_witness :
  ~ (exists c, BuildDDRMemory no_keys 64 2000 0 4 (dlit 1 1) false = Ok c).
Proof.
  intros H. apply (default_channel_frequency 2000 0 false) in H; [|lia|reflexivity].
  apply Z.leb_le in H. discriminate.
Defined.
