(* ===== verification/ReplPolicy.v ===== *)
(** * Replacement policies ([src/src/repl_policies.h])

    The interface [ReplPolicy] as a type class, what a cache array relies on as
    the class [ReplLaws], and the policies LRU, LRUDC (the DRAM-cache-aware
    one), NRU and LFU.  The request that the interface passes along is
    read by none of these policies and is left out. *)

From stdpp Require Import base list strings.
From Stdlib Require Import ZArith Lia.
From S2P Require Import Prelude MemHierarchy.
Local Open Scope Z_scope.

(** What a policy asks its coherence controller ([cc->numSharers(id)] and
    [cc->isValid(id)]). *)
Record CCView := mkView {
  v_numSharers : nat -> res Z;
  v_isValid : nat -> res bool
}.

(** [class ReplPolicy]: [update(id, req, hit_in_dc)], [replaced(id)] and
    [rankCands(req, cands, dynamic_repl)]. *)
Class ReplPolicy (R : Type) := {
  rp_update : nat -> bool -> M R unit;
  rp_replaced : nat -> M R unit;
  rp_rankCands : CCView -> list nat -> bool -> M R nat
}.

(** The view answers for every line below [n]. *)
Definition view_total (n : nat) (v : CCView) : Prop :=
  forall id, (id < n)%nat -> (exists x, v_numSharers v id = Ok x) /\ exists b, v_isValid v id = Ok b.

(** The size of an array: lines are numbered with 32 bits, and a set has lines. *)
Definition geometry (n assoc : nat) : Prop := Z.of_nat n < 2 ^ 32 /\ (0 < assoc)%nat.

(** The contract between an array of [n] lines in sets of [assoc] and its policy.
    [rp_idle] holds between replacements, [rp_ranked] from [rankCands] to
    [replaced]. *)
Class ReplLaws (R : Type) `{ReplPolicy R} := {
  rp_idle : nat -> nat -> R -> Prop;
  rp_ranked : nat -> nat -> R -> Prop;
  rp_update_ok : forall n assoc id dc r, geometry n assoc -> (id < n)%nat -> rp_idle n assoc r ->
    wp (rp_update id dc) (fun _ r' => rp_idle n assoc r') r;
  rp_replaced_ok : forall n assoc id r, geometry n assoc -> (id < n)%nat -> rp_ranked n assoc r ->
    wp (rp_replaced id) (fun _ r' => rp_idle n assoc r') r;
  rp_rank_ok : forall n assoc v cands dyn r, geometry n assoc -> rp_idle n assoc r ->
    view_total n v -> length cands = assoc -> (forall c, c ∈ cands -> (c < n)%nat) ->
    wp (rp_rankCands v cands dyn) (fun id r' => id ∈ cands /\ rp_ranked n assoc r') r
}.

(** The loop shared by the [rank] functions: the score is truncated to 32 bits
    and the first candidate with the smallest one wins; [None] stands for the
    initial [bestCand] of -1. *)
Fixpoint rank_min (score : nat -> res Z) (cands : list nat) (bestCand : option nat) (bestScore : Z)
    : res (option nat) :=
  match cands with
  | [] => Ok bestCand
  | c :: cands' =>
      match score c with
      | Err e => Err e
      | Ok s64 =>
          let s := u32 s64 in
          rank_min score cands' (if s <? bestScore then Some c else bestCand) (Z.min s bestScore)
      end
  end.

(** The index -1 is outside every array. *)
Definition cand_of {S} (o : option nat) : M S nat :=
  match o with Some c => ret c | None => fail OutOfRange end.

(** ** [LRUReplPolicy<sharersAware>] *)
Record LRU := mkLRU { lru_timestamp : Z; lru_array : list Z }.

Definition LRU_new (numLines : nat) : LRU := mkLRU 1 (replicate numLines 0).

Definition lru_update (id : nat) (hit_in_dc : bool) : M LRU unit :=
  s <- get ;;
  a <- lift (set_at (lru_array s) id (lru_timestamp s)) ;;
  modify (fun _ => mkLRU (u64 (lru_timestamp s + 1)) a).

Definition lru_replaced (id : nat) : M LRU unit :=
  s <- get ;;
  a <- lift (set_at (lru_array s) id 0) ;;
  modify (fun _ => mkLRU (lru_timestamp s) a).

(** [score]: sharers first, then the time stamp; 0 for an invalid line without
    sharers. *)
Definition score_of (sharersAware : bool) (v : CCView) (timestamp : Z) (count : res Z) (id : nat)
    : res Z :=
  match v_numSharers v id, count, v_isValid v id with
  | Ok sh, Ok a, Ok valid =>
      Ok (u64 ((if sharersAware then sh else 0) * timestamp + a * (if (valid : bool) then 1 else 0)))
  | Err e, _, _ => Err e
  | _, Err e, _ => Err e
  | _, _, Err e => Err e
  end.

Definition lru_score (sharersAware : bool) (v : CCView) (s : LRU) (id : nat) : res Z :=
  score_of sharersAware v (lru_timestamp s) (at_ (lru_array s) id) id.

Definition lru_rank (sharersAware : bool) (v : CCView) (cands : list nat) (dynamic_repl : bool)
    : M LRU nat :=
  s <- get ;;
  best <- lift (rank_min (lru_score sharersAware v s) cands None (2 ^ 64 - 1)) ;;
  cand_of best.

Definition LRU_policy (sharersAware : bool) : ReplPolicy LRU := {|
  rp_update := lru_update;
  rp_replaced := lru_replaced;
  rp_rankCands := lru_rank sharersAware
|}.

(** ** [LRUDCReplPolicy<sharersAware>] *)
Record LRUDC := mkDC {
  dc_timestamp : Z;
  dc_replLines4DC : Z;
  dc_array : list (Z * bool)      (** [count] and [in_dram_cache] *)
}.

Definition LRUDC_new (numLines : nat) : LRUDC := mkDC 1 0 (replicate numLines (0, false)).

Definition dc_update (id : nat) (hit_in_dc : bool) : M LRUDC unit :=
  s <- get ;;
  a <- lift (set_at (dc_array s) id (dc_timestamp s, hit_in_dc)) ;;
  modify (fun _ => mkDC (u64 (dc_timestamp s + 1)) (dc_replLines4DC s) a).

Definition dc_replaced (id : nat) : M LRUDC unit :=
  s <- get ;;
  a <- lift (set_at (dc_array s) id (0, false)) ;;
  modify (fun _ => mkDC (dc_timestamp s) (dc_replLines4DC s) a).

Definition dc_count (s : LRUDC) (id : nat) : res Z :=
  match at_ (dc_array s) id with Ok (c, _) => Ok c | Err e => Err e end.
Definition dc_score (sharersAware : bool) (v : CCView) (s : LRUDC) (id : nat) : res Z :=
  score_of sharersAware v (dc_timestamp s) (dc_count s id) id.

(** The candidates that hit in the DRAM cache; a read outside the array stops
    the loop. *)
Fixpoint dc_hits (s : LRUDC) (cands : list nat) : res (list nat) :=
  match cands with
  | [] => Ok []
  | c :: cands' =>
      match at_ (dc_array s) c, dc_hits s cands' with
      | Ok (_, hit), Ok l => Ok (if (hit : bool) then c :: l else l)
      | Err e, _ => Err e
      | _, Err e => Err e
      end
  end.

Definition dc_rank (sharersAware : bool) (v : CCView) (cands : list nat) (dynamic_repl : bool)
    : M LRUDC nat :=
  s <- get ;;
  hits <- lift (dc_hits s cands) ;;
  best <- lift (rank_min (dc_score sharersAware v s) hits None (2 ^ 64 - 1)) ;;
  second <- lift (rank_min (dc_score sharersAware v s) cands None (2 ^ 64 - 1)) ;;
  when (negb (bool_decide (best = second)))
    (modify (fun s => mkDC (dc_timestamp s) (u64 (dc_replLines4DC s + 1)) (dc_array s))) ;;
  if match hits with [] => false | _ => true end && dynamic_repl then cand_of best
  else cand_of second.

Definition LRUDC_policy (sharersAware : bool) : ReplPolicy LRUDC := {|
  rp_update := dc_update;
  rp_replaced := dc_replaced;
  rp_rankCands := dc_rank sharersAware
|}.

(** ** [LegacyReplPolicy::rank]: [startReplacement] does nothing in the policies
    below, so a replacement records the candidates and asks for the best. *)
Definition legacy_rank {R} (record : CCView -> nat -> M R unit) (best : M R nat) (v : CCView)
    (cands : list nat) (dynamic_repl : bool) : M R nat :=
  forM cands (record v) ;; best.

(** ** [NRUReplPolicy]: two bits per line *)
Record NRU := mkNRU {
  nru_array : list Z;
  nru_candArray : list nat;
  nru_youngLines : Z;
  nru_candVal : Z;
  nru_candIdx : nat
}.

Definition NRU_new (numLines numCands : nat) : NRU :=
  mkNRU (replicate numLines 0) (replicate numCands 0%nat) 0 (2 ^ 20) 0.

Definition nru_set_array (a : list Z) (young : Z) (s : NRU) : NRU :=
  mkNRU a (nru_candArray s) young (nru_candVal s) (nru_candIdx s).
Definition nru_set_cands (c : list nat) (val : Z) (idx : nat) (s : NRU) : NRU :=
  mkNRU (nru_array s) c (nru_youngLines s) val idx.

Definition nru_update (id : nat) (hit_in_dc : bool) : M NRU unit :=
  s <- get ;;
  x <- lift (at_ (nru_array s) id) ;;
  let young := u32 (nru_youngLines s + u32 (1 - Z.shiftr x 1)) in
  let a := <[id := Z.lor x 2]> (nru_array s) in
  if Z.of_nat (length a) / 2 <=? young
  then modify (nru_set_array (map (fun y => Z.shiftr y 1) a) 0)
  else modify (nru_set_array a young).

Definition nru_recordCandidate (v : CCView) (id : nat) : M NRU unit :=
  s <- get ;;
  iVal <- lift (at_ (nru_array s) id) ;;
  if iVal <? nru_candVal s then
    c <- lift (set_at (nru_candArray s) 0 id) ;;
    modify (nru_set_cands c iVal 1)
  else if iVal =? nru_candVal s then
    c <- lift (set_at (nru_candArray s) (nru_candIdx s) id) ;;
    modify (nru_set_cands c (nru_candVal s) (S (nru_candIdx s)))
  else ret tt.

Definition nru_getBestCandidate : M NRU nat :=
  s <- get ;;
  assert_ "repl_policies.h:328" (0 <? nru_candIdx s)%nat ;;
  lift (at_ (nru_candArray s) (Z.to_nat (nru_youngLines s mod Z.of_nat (nru_candIdx s)))).

Definition nru_replaced (id : nat) : M NRU unit :=
  s <- get ;;
  a <- lift (set_at (nru_array s) id 0) ;;
  modify (fun s => nru_set_cands (nru_candArray s) (2 ^ 20) 0 (nru_set_array a (nru_youngLines s) s)).

#[export] Instance NRU_policy : ReplPolicy NRU := {|
  rp_update := nru_update;
  rp_replaced := nru_replaced;
  rp_rankCands := legacy_rank nru_recordCandidate nru_getBestCandidate
|}.

(** ** [LFUReplPolicy] *)
Record LFUInfo := mkInfo { li_ts : Z; li_acc : Z }.
Record LFURank := mkRank { lr_info : LFUInfo; lr_sharers : Z; lr_valid : bool }.
Definition rank_reset : LFURank := mkRank (mkInfo 0 0) 0 false.

Record LFU := mkLFU {
  lfu_timestamp : Z;
  lfu_bestCandidate : option nat;     (** [None] is -1 *)
  lfu_array : list LFUInfo;
  lfu_bestRank : LFURank
}.

Definition LFU_new (numLines : nat) : LFU := mkLFU 1 None (replicate numLines (mkInfo 0 0)) rank_reset.

(** [Rank::lessThan] *)
Definition lessThan (r other : LFURank) (curTs : Z) : bool :=
  if negb (lr_valid r) && lr_valid other then true
  else if Bool.eqb (lr_valid r) (lr_valid other) then
    if (lr_sharers r =? 0) && (0 <? lr_sharers other) then true
    else if (0 <? lr_sharers r) && (lr_sharers other =? 0) then false
    else if li_acc (lr_info r) =? 0 then true
    else if li_acc (lr_info other) =? 0 then false
    else
      let inv_freq i := u64 (curTs - li_ts i) / li_acc i in
      inv_freq (lr_info other) <? inv_freq (lr_info r)
  else false.

Definition lfu_update (id : nat) (hit_in_dc : bool) : M LFU unit :=
  s <- get ;;
  i <- lift (at_ (lfu_array s) id) ;;
  ts <- lift (udiv (u64 (u64 (li_acc i * li_ts i) + lfu_timestamp s)) (u64 (li_acc i + 1))) ;;
  modify (fun s => mkLFU (u64 (lfu_timestamp s + 1000)) (lfu_bestCandidate s)
                     (<[id := mkInfo ts (u64 (li_acc i + 1))]> (lfu_array s)) (lfu_bestRank s)).

Definition lfu_recordCandidate (v : CCView) (id : nat) : M LFU unit :=
  s <- get ;;
  i <- lift (at_ (lfu_array s) id) ;;
  sh <- lift (v_numSharers v id) ;;
  valid <- lift (v_isValid v id) ;;
  let candRank := mkRank i sh valid in
  if match lfu_bestCandidate s with None => true | Some _ => false end
     || lessThan candRank (lfu_bestRank s) (lfu_timestamp s)
  then modify (fun s => mkLFU (lfu_timestamp s) (Some id) (lfu_array s) candRank)
  else ret tt.

Definition lfu_getBestCandidate : M LFU nat :=
  s <- get ;;
  match lfu_bestCandidate s with
  | Some id => ret id
  | None => fail (AssertFail "repl_policies.h:450")
  end.

Definition lfu_replaced (id : nat) : M LFU unit :=
  s <- get ;;
  i <- lift (at_ (lfu_array s) id) ;;
  modify (fun s => mkLFU (lfu_timestamp s) None (<[id := mkInfo (li_ts i) 0]> (lfu_array s)) rank_reset).

#[export] Instance LFU_policy : ReplPolicy LFU := {|
  rp_update := lfu_update;
  rp_replaced := lfu_replaced;
  rp_rankCands := legacy_rank lfu_recordCandidate lfu_getBestCandidate
|}.

(** ** The ranking loop *)

Lemma rank_min_spec score cands best bestScore :
  (forall c, c ∈ cands -> exists s, score c = Ok s) ->
  exists r, rank_min score cands best bestScore = Ok r /\
    ((r = best /\ (forall c s, c ∈ cands -> score c = Ok s -> bestScore <= u32 s)) \/
     exists c s, r = Some c /\ c ∈ cands /\ score c = Ok s /\ u32 s < bestScore /\
       forall c' s', c' ∈ cands -> score c' = Ok s' -> u32 s <= u32 s').
Proof.
  revert best bestScore. induction cands as [|c cands IH]; intros best bestScore Hs; simpl.
  - exists best. split; [done|]. left. split; [done|]. intros c s Hc. by apply not_elem_of_nil in Hc.
  - destruct (Hs c) as [s Hsc]; [by left|]. rewrite Hsc.
    destruct (IH (if u32 s <? bestScore then Some c else best) (Z.min (u32 s) bestScore))
      as (r & Hr & Hcase); [intros c' Hc'; apply Hs; by right|].
    exists r. split; [done|]. destruct Hcase as [[-> Hle]|(c1 & s1 & -> & Hin & Hs1 & Hlt & Hle)].
    + destruct (Z.ltb_spec (u32 s) bestScore).
      * right. exists c, s. split_and!; [done|by left|done|done|]. intros c' s' Hc' Hs'.
        apply elem_of_cons in Hc' as [->|Hc']; [rewrite Hsc in Hs'; injection Hs' as <-; lia|]. pose proof (Hle c' s' Hc' Hs'). lia.
      * left. split; [done|]. intros c' s' Hc' Hs'.
        apply elem_of_cons in Hc' as [->|Hc']; [rewrite Hsc in Hs'; injection Hs' as <-; lia|]. pose proof (Hle c' s' Hc' Hs'). lia.
    + right. exists c1, s1. split_and!; [done|by right|done|lia|]. intros c' s' Hc' Hs'.
      apply elem_of_cons in Hc' as [->|Hc']; [|by eapply Hle]. rewrite Hsc in Hs'. injection Hs' as <-. lia.
Qed.

(** From the initial [bestScore] of -1 the loop always picks a candidate. *)
Lemma rank_min_picks score cands :
  cands <> [] -> (forall c, c ∈ cands -> exists s, score c = Ok s) ->
  exists c s, rank_min score cands None (2 ^ 64 - 1) = Ok (Some c) /\ c ∈ cands /\ score c = Ok s /\
    forall c' s', c' ∈ cands -> score c' = Ok s' -> u32 s <= u32 s'.
Proof.
  intros Hne Hs. destruct (rank_min_spec score cands None (2 ^ 64 - 1) Hs)
    as (r & Hr & [[-> Hle]|(c & s & -> & Hin & Hsc & _ & Hle)]); [|by exists c, s].
  destruct cands as [|c cands]; [done|]. destruct (Hs c) as [s Hsc]; [by left|].
  pose proof (Hle c s ltac:(by left) Hsc). pose proof (u32_range s). unfold in_u32 in *. lia.
Qed.

Lemma score_total n sa v ts count id :
  view_total n v -> (id < n)%nat -> (exists a, count = Ok a) -> exists s, score_of sa v ts count id = Ok s.
Proof.
  intros Hv Hid [a ->]. destruct (Hv id Hid) as [[x Hx] [b Hb]]. unfold score_of. rewrite Hx, Hb. eauto.
Qed.

Lemma at_total {A} (l : list A) i : (i < length l)%nat -> exists x, at_ l i = Ok x.
Proof. intros [x Hx]%lookup_lt_is_Some. exists x. by apply at_ok. Qed.

Lemma length_pos_ne {A} (l : list A) n : length l = n -> (0 < n)%nat -> l <> [].
Proof. intros <- H ->. simpl in H. lia. Qed.

(** ** The contract holds for the policies *)
Section Laws.
Context (n assoc : nat) (Hassoc : (0 < assoc)%nat).

Lemma lru_score_total sa v r (cands : list nat) :
  length (lru_array r) = n -> view_total n v -> (forall c, c ∈ cands -> (c < n)%nat) ->
  forall c, c ∈ cands -> exists s, lru_score sa v r c = Ok s.
Proof.
  intros Hl Hv Hc c Hin. apply (score_total n); [done|by apply Hc|].
  apply at_total. rewrite Hl. by apply Hc.
Qed.

Lemma lru_update_ok id dc r :
  (id < n)%nat -> length (lru_array r) = n ->
  wp (lru_update id dc) (fun _ r' => length (lru_array r') = n) r.
Proof.
  intros Hid Hl. unfold lru_update. apply wp_bind, wp_get, wp_bind.
  eapply wp_lift; [by apply set_at_ok; rewrite Hl|]. apply wp_modify. simpl. by rewrite length_insert.
Qed.

Lemma lru_replaced_ok id r :
  (id < n)%nat -> length (lru_array r) = n ->
  wp (lru_replaced id) (fun _ r' => length (lru_array r') = n) r.
Proof.
  intros Hid Hl. unfold lru_replaced. apply wp_bind, wp_get, wp_bind.
  eapply wp_lift; [by apply set_at_ok; rewrite Hl|]. apply wp_modify. simpl. by rewrite length_insert.
Qed.

Lemma lru_rank_ok sa v (cands : list nat) dyn r :
  length (lru_array r) = n -> view_total n v -> length cands = assoc ->
  (forall c, c ∈ cands -> (c < n)%nat) ->
  wp (lru_rank sa v cands dyn) (fun id r' => id ∈ cands /\ length (lru_array r') = n) r.
Proof.
  intros Hl Hv Hlen Hc. unfold lru_rank. apply wp_bind, wp_get, wp_bind.
  destruct (rank_min_picks (lru_score sa v r) cands) as (c & s & Hr & Hin & _).
  - by eapply length_pos_ne.
  - by apply lru_score_total.
  - eapply wp_lift; [done|]. by apply wp_ret.
Qed.

Lemma dc_hits_total r (cands : list nat) :
  length (dc_array r) = n -> (forall c, c ∈ cands -> (c < n)%nat) ->
  exists l, dc_hits r cands = Ok l /\ forall c, c ∈ l -> c ∈ cands.
Proof.
  intros Hl. induction cands as [|c cands IH]; intros Hc; simpl; [by exists []|].
  destruct IH as (l & Hd & Hsub); [intros c' ?; apply Hc; by right|].
  destruct (at_total (dc_array r) c) as [[x hit] Hx]; [rewrite Hl; apply Hc; by left|].
  rewrite Hx, Hd. eexists. split; [done|]. intros c' Hin. destruct hit.
  - apply elem_of_cons in Hin as [->|?]; [by left|right; auto].
  - right. auto.
Qed.

Lemma dc_update_ok id dc r :
  (id < n)%nat -> length (dc_array r) = n ->
  wp (dc_update id dc) (fun _ r' => length (dc_array r') = n) r.
Proof.
  intros Hid Hl. unfold dc_update. apply wp_bind, wp_get, wp_bind.
  eapply wp_lift; [by apply set_at_ok; rewrite Hl|]. apply wp_modify. simpl. by rewrite length_insert.
Qed.

Lemma dc_replaced_ok id r :
  (id < n)%nat -> length (dc_array r) = n ->
  wp (dc_replaced id) (fun _ r' => length (dc_array r') = n) r.
Proof.
  intros Hid Hl. unfold dc_replaced. apply wp_bind, wp_get, wp_bind.
  eapply wp_lift; [by apply set_at_ok; rewrite Hl|]. apply wp_modify. simpl. by rewrite length_insert.
Qed.

Lemma dc_rank_ok sa v (cands : list nat) dyn r :
  length (dc_array r) = n -> view_total n v -> length cands = assoc ->
  (forall c, c ∈ cands -> (c < n)%nat) ->
  wp (dc_rank sa v cands dyn) (fun id r' => id ∈ cands /\ length (dc_array r') = n) r.
Proof.
  intros Hl Hv Hlen Hc. unfold dc_rank. apply wp_bind, wp_get.
  destruct (dc_hits_total r cands Hl Hc) as (hits & Hd & Hsub). apply wp_bind. eapply wp_lift; [done|].
  assert (forall c, c ∈ cands -> exists s, dc_score sa v r c = Ok s) as Hsc.
  { intros c Hin. apply (score_total n); [done|by apply Hc|]. unfold dc_count.
    destruct (at_total (dc_array r) c) as [[x h] ->]; [rewrite Hl; by apply Hc|]. eauto. }
  destruct (rank_min_picks (dc_score sa v r) cands) as (c & s & Hr & Hin & _);
    [by eapply length_pos_ne|done|].
  destruct (rank_min_spec (dc_score sa v r) hits None (2 ^ 64 - 1)) as (o & Ho & _); [auto|].
  apply wp_bind. eapply wp_lift; [done|]. apply wp_bind. eapply wp_lift; [done|]. apply wp_bind.
  assert (forall r', length (dc_array r') = n ->
    wp (if match hits with [] => false | _ => true end && dyn then cand_of o else cand_of (Some c))
       (fun id r' => id ∈ cands /\ length (dc_array r') = n) r') as Hend.
  { intros r' Hl'. destruct hits as [|h hits]; simpl; [by apply wp_ret|].
    destruct dyn; [|by apply wp_ret].
    destruct (rank_min_picks (dc_score sa v r) (h :: hits)) as (c1 & s1 & Hr1 & Hin1 & _); [done|auto|].
    rewrite Hr1 in Ho. injection Ho as <-. apply wp_ret. auto. }
  apply wp_when; intros _; [apply wp_modify|]; by apply Hend.
Qed.

(** Two bits per line, and a count of young lines that fits. *)
Definition nru_bits (r : NRU) : Prop :=
  length (nru_array r) = n /\ length (nru_candArray r) = assoc /\
  (forall i x, nru_array r !! i = Some x -> 0 <= x < 4) /\ (0 <= nru_youngLines r < 2 ^ 31 + 1).

Lemma shiftr1_bits x : 0 <= x < 4 -> 0 <= Z.shiftr x 1 < 2.
Proof.
  intros H. assert (x = 0 \/ x = 1 \/ x = 2 \/ x = 3) as [->|[->|[->| ->]]] by lia; by vm_compute.
Qed.

Lemma lor2_bits x : 0 <= x < 4 -> 0 <= Z.lor x 2 < 4.
Proof.
  intros H. assert (x = 0 \/ x = 1 \/ x = 2 \/ x = 3) as [->|[->|[->| ->]]] by lia; by vm_compute.
Qed.

Lemma nru_update_bits id dc r :
  (Z.of_nat n < 2 ^ 32) -> (id < n)%nat -> nru_bits r ->
  wp (nru_update id dc) (fun _ r' => nru_bits r' /\ nru_candVal r' = nru_candVal r /\
    nru_candIdx r' = nru_candIdx r) r.
Proof.
  intros Hn Hid (Hl & Hc & Hb & Hy). unfold nru_update. apply wp_bind, wp_get, wp_bind.
  destruct (lookup_lt_is_Some_2 (nru_array r) id) as [x Hx]; [by rewrite Hl|].
  eapply wp_lift; [by apply at_ok|]. pose proof (Hb _ _ Hx) as Hx4. pose proof (shiftr1_bits x Hx4).
  rewrite (u32_id (1 - _)) by (unfold in_u32; lia).
  rewrite u32_id by (unfold in_u32; lia).
  assert (forall i y, <[id := Z.lor x 2]> (nru_array r) !! i = Some y -> 0 <= y < 4) as Hb'.
  { intros i y Hi. destruct (decide (i = id)) as [->|].
    - rewrite list_lookup_insert_eq in Hi by lia. injection Hi as <-. by apply lor2_bits.
    - rewrite list_lookup_insert_ne in Hi by done. by eapply Hb. }
  destruct (Z.leb_spec (Z.of_nat (length (<[id:=Z.lor x 2]> (nru_array r))) / 2)
              (nru_youngLines r + (1 - Z.shiftr x 1))) as [Hge|Hlt]; apply wp_modify; simpl.
  - split; [|done]. unfold nru_bits; simpl. rewrite length_map, length_insert. split_and!; try done.
    intros i y Hi. apply list_lookup_fmap_Some in Hi as (z & -> & Hz).
    pose proof (shiftr1_bits z (Hb' _ _ Hz)). lia.
  - split; [|done]. unfold nru_bits; simpl. rewrite length_insert in *. split_and!; try done; try lia.
    rewrite Hl in Hlt. pose proof (Z.div_lt_upper_bound (Z.of_nat n) 2 (2 ^ 31)). lia.
Qed.

(** The candidates recorded so far, in the first [candIdx] slots. *)
Definition nru_recorded (cands pre : list nat) (r : NRU) : Prop :=
  nru_bits r /\ (nru_candIdx r <= length pre)%nat /\
  (forall j, (j < nru_candIdx r)%nat -> exists c, nru_candArray r !! j = Some c /\ c ∈ cands) /\
  (pre = [] -> nru_candVal r = 2 ^ 20) /\ (pre <> [] -> (0 < nru_candIdx r)%nat).

Lemma nru_record_ok v cands pre c post r :
  length cands = assoc -> cands = pre ++ c :: post -> (c < n)%nat -> nru_recorded cands pre r ->
  wp (nru_recordCandidate v c) (fun _ => nru_recorded cands (pre ++ [c])) r.
Proof.
  intros Hlen Heq Hcn (Hbits & Hidx & Hin & Hnil & Hpos).
  pose proof Hbits as (Hl & Hc & Hb & Hy). assert (c ∈ cands) as Hcin.
  { rewrite Heq. apply elem_of_app. right. left. }
  assert (length pre < assoc)%nat as Hpre by (rewrite <- Hlen, Heq, length_app; simpl; lia).
  unfold nru_recordCandidate. apply wp_bind, wp_get, wp_bind.
  destruct (lookup_lt_is_Some_2 (nru_array r) c) as [x Hx]; [by rewrite Hl|].
  eapply wp_lift; [by apply at_ok|]. pose proof (Hb _ _ Hx) as Hx4. unfold nru_recorded.
  rewrite length_app. simpl.
  destruct (Z.ltb_spec x (nru_candVal r)).
  { apply wp_bind. eapply wp_lift; [apply set_at_ok; lia|]. apply wp_modify. simpl.
    unfold nru_bits; simpl. rewrite length_insert. split_and!; try done; try lia.
    - intros j Hj. assert (j = 0%nat) as -> by lia. exists c.
      by rewrite list_lookup_insert_eq by lia.
    - intros E. by destruct pre. }
  destruct (Z.eqb_spec x (nru_candVal r)) as [Heqv|Hne].
  { apply wp_bind. eapply wp_lift; [apply set_at_ok; lia|]. apply wp_modify. simpl.
    unfold nru_bits; simpl. rewrite length_insert. split_and!; try done; try lia.
    - intros j Hj. destruct (decide (j = nru_candIdx r)) as [->|].
      + exists c. by rewrite list_lookup_insert_eq by lia.
      + rewrite list_lookup_insert_ne by done. apply Hin. lia.
    - intros E. by destruct pre. }
  apply wp_ret. split_and!; try done; try lia.
  - intros E. by destruct pre.
  - intros _. destruct pre as [|p pre]; [rewrite Hnil in * by done; lia|by apply Hpos].
Qed.

Lemma nru_rank_ok v (cands : list nat) dyn r :
  nru_bits r -> nru_candVal r = 2 ^ 20 -> nru_candIdx r = 0%nat -> length cands = assoc ->
  (forall c, c ∈ cands -> (c < n)%nat) ->
  wp (legacy_rank nru_recordCandidate nru_getBestCandidate v cands dyn)
    (fun id r' => id ∈ cands /\ nru_bits r') r.
Proof.
  intros Hb Hv Hi Hlen Hc. unfold legacy_rank. apply wp_bind.
  apply (wp_forM cands _ (nru_recorded cands)).
  - split_and!; try done; rewrite ?Hi; simpl; lia.
  - intros pre x post r' Heq Hr. eapply nru_record_ok; try done. apply Hc. rewrite Heq.
    apply elem_of_app. right. left.
  - intros r' (Hb' & _ & Hin & _ & Hpos). pose proof (length_pos_ne _ _ Hlen Hassoc) as Hne.
    specialize (Hpos Hne). unfold nru_getBestCandidate. apply wp_bind, wp_get, wp_bind.
    apply wp_assert; [by apply Nat.ltb_lt|].
    destruct (Hin (Z.to_nat (nru_youngLines r' mod Z.of_nat (nru_candIdx r')))) as (c & Hcl & Hcc).
    { pose proof (Z.mod_pos_bound (nru_youngLines r') (Z.of_nat (nru_candIdx r'))). lia. }
    eapply wp_lift; [by apply at_ok|]. done.
Qed.

Lemma nru_replaced_ok id r :
  (id < n)%nat -> nru_bits r ->
  wp (nru_replaced id) (fun _ r' => nru_bits r' /\ nru_candVal r' = 2 ^ 20 /\ nru_candIdx r' = 0%nat) r.
Proof.
  intros Hid (Hl & Hc & Hb & Hy). unfold nru_replaced. apply wp_bind, wp_get, wp_bind.
  eapply wp_lift; [by apply set_at_ok; rewrite Hl|]. apply wp_modify. simpl. split; [|done].
  unfold nru_bits; simpl. rewrite length_insert. split_and!; try done; try lia.
  intros i x Hi. destruct (decide (i = id)) as [->|].
  - rewrite list_lookup_insert_eq in Hi by lia. injection Hi as <-. lia.
  - rewrite list_lookup_insert_ne in Hi by done. by eapply Hb.
Qed.
End Laws.

Program Definition LRU_laws (sa : bool) : @ReplLaws LRU (LRU_policy sa) := {|
  rp_idle n _ r := length (lru_array r) = n;
  rp_ranked n _ r := length (lru_array r) = n
|}.
Next Obligation. intros sa n assoc id dc r _. apply lru_update_ok. Qed.
Next Obligation. intros sa n assoc id r _. apply lru_replaced_ok. Qed.
Next Obligation. intros sa n assoc v cands dyn r [_ Ha] Hi Hv Hl Hc. by apply (lru_rank_ok n assoc Ha). Qed.

Program Definition LRUDC_laws (sa : bool) : @ReplLaws LRUDC (LRUDC_policy sa) := {|
  rp_idle n _ r := length (dc_array r) = n;
  rp_ranked n _ r := length (dc_array r) = n
|}.
Next Obligation. intros sa n assoc id dc r _. apply dc_update_ok. Qed.
Next Obligation. intros sa n assoc id r _. apply dc_replaced_ok. Qed.
Next Obligation. intros sa n assoc v cands dyn r [_ Ha] Hi Hv Hl Hc. by apply (dc_rank_ok n assoc Ha). Qed.

#[export] Program Instance NRU_laws : ReplLaws NRU := {|
  rp_idle n assoc r := nru_bits n assoc r /\ nru_candVal r = 2 ^ 20 /\ nru_candIdx r = 0%nat;
  rp_ranked n assoc r := nru_bits n assoc r
|}.
Next Obligation.
  intros n assoc id dc r [Hn Ha] Hid (Hb & Hv & Hi). eapply wp_mono; [by apply (nru_update_bits n assoc)|].
  intros [] r' (? & ? & ?). split_and!; [done|congruence|congruence].
Qed.
Next Obligation. intros n assoc id r [_ Ha]. by apply (nru_replaced_ok n assoc Ha). Qed.
Next Obligation.
  intros n assoc v cands dyn r [_ Ha] (Hb & Hv & Hi) _ Hlen Hc. by apply (nru_rank_ok n assoc Ha).
Qed.

(** ** What LRU evicts *)

Lemma forM_app {S A} (l1 l2 : list A) (f : A -> M S unit) s :
  forM (l1 ++ l2) f s = (forM l1 f ;; forM l2 f) s.
Proof.
  revert s. induction l1 as [|x l1 IH]; intros s; [done|]. simpl. unfold bind in *.
  destruct (f x s) as [[[] s']|]; [apply IH|done].
Qed.

(** The lines of [hist] in the order of their use. *)
Definition lru_touch_all (hist : list nat) : M LRU unit := forM hist (fun id => lru_update id false).

(** [hist] uses [id] for the last time before [post]. *)
Definition last_use (hist : list nat) (id : nat) (pre post : list nat) : Prop :=
  hist = pre ++ id :: post /\ id ∉ post.

Lemma last_use_snoc hist id x pre post :
  last_use hist id pre post -> id <> x -> last_use (hist ++ [x]) id pre (post ++ [x]).
Proof.
  intros [-> Hn] Hne. split; [by rewrite <- app_assoc|].
  rewrite elem_of_app, elem_of_cons. intros [?|[?|[]%not_elem_of_nil]]; done.
Qed.

Lemma lru_touch_all_spec n hist r :
  lru_touch_all hist (LRU_new n) = Ok (tt, r) -> Z.of_nat (length hist) < 2 ^ 32 - 1 ->
  lru_timestamp r = 1 + Z.of_nat (length hist) /\
  forall id, id ∈ hist -> exists pre post, last_use hist id pre post /\
    lru_array r !! id = Some (1 + Z.of_nat (length pre)).
Proof.
  revert r. induction hist as [|x hist IH] using rev_ind; intros r Hrun Hlen.
  { injection Hrun as <-. split; [done|]. intros id Hid. by apply not_elem_of_nil in Hid. }
  unfold lru_touch_all in *. rewrite forM_app in Hrun. unfold bind in Hrun.
  destruct (forM hist _ _) as [[[] r1]|] eqn:E1; [|done]. rewrite length_app in Hlen. simpl in Hlen.
  destruct (IH r1 eq_refl) as [Hts Harr]; [lia|]. simpl in Hrun.
  unfold lru_update, bind, get, lift, modify, set_at in Hrun. 
  destruct (Nat.ltb_spec x (length (lru_array r1))) as [Hx|]; [|done]. injection Hrun as <-. simpl.
  rewrite Hts, length_app, u64_id by (unfold in_u64; lia). simpl. split; [lia|].
  intros id Hid. destruct (decide (id = x)) as [->|Hne].
  - exists hist, []. split; [by split; [|apply not_elem_of_nil]|].
    by rewrite list_lookup_insert_eq.
  - apply elem_of_app in Hid as [Hid|Hid];
      [|by apply elem_of_cons in Hid as [?|?%not_elem_of_nil]].
    destruct (Harr id Hid) as (pre & post & Hlu & Ha). exists pre, (post ++ [x]).
    split; [by apply last_use_snoc|]. by rewrite list_lookup_insert_ne.
Qed.

(** Of two different lines, the one with the earlier last use is older. *)
Lemma last_use_order hist c c' pre post pre' post' :
  last_use hist c pre post -> last_use hist c' pre' post' -> c <> c' ->
  (length pre <= length pre')%nat -> c' ∈ post.
Proof.
  intros [H1 _] [H2 _] Hne Hle. subst hist.
  assert ((pre ++ c :: post) !! length pre' = Some c') as Hl.
  { rewrite H2. by rewrite lookup_app_r, Nat.sub_diag by lia. }
  rewrite lookup_app_r in Hl by lia. destruct (length pre' - length pre)%nat as [|k]; simpl in Hl.
  - congruence.
  - by eapply list_elem_of_lookup_2.
Qed.

(** LRU evicts the least recently used candidate.  After any sequence of
    updates, among valid candidates without sharers the victim is the one whose
    last use is the earliest: every other candidate was used after it.  The
    bound is on the number of updates, since [rank] keeps the 64-bit score in 32
    bits. *)
Theorem lru_evicts_least_recent n hist cands v sa dyn r :
  lru_touch_all hist (LRU_new n) = Ok (tt, r) -> Z.of_nat (length hist) < 2 ^ 32 - 1 ->
  cands <> [] -> (forall c, c ∈ cands -> c ∈ hist) ->
  (forall c, c ∈ cands -> v_numSharers v c = Ok 0 /\ v_isValid v c = Ok true) ->
  exists c pre post, lru_rank sa v cands dyn r = Ok (c, r) /\ c ∈ cands /\
    last_use hist c pre post /\ forall c', c' ∈ cands -> c' <> c -> c' ∈ post.
Proof.
  intros Hrun Hlen Hne Hin Hv. destruct (lru_touch_all_spec n hist r Hrun Hlen) as [Hts Harr].
  assert (forall c pre post, c ∈ cands -> last_use hist c pre post ->
    lru_array r !! c = Some (1 + Z.of_nat (length pre)) ->
    lru_score sa v r c = Ok (1 + Z.of_nat (length pre)) /\
    u32 (1 + Z.of_nat (length pre)) = 1 + Z.of_nat (length pre)) as Hscore.
  { intros c pre post Hc [Hh _] Ha. destruct (Hv c Hc) as [Hs Hb].
    assert (length pre < length hist)%nat by (rewrite Hh, length_app; simpl; lia).
    unfold lru_score, score_of. rewrite (at_ok _ _ _ Ha), Hs, Hb, u32_id by (unfold in_u32; lia).
    split; [|done]. f_equal. rewrite u64_id by (unfold in_u64; destruct sa; lia). destruct sa; lia. }
  destruct (rank_min_picks (lru_score sa v r) cands Hne) as (c & s & Hr & Hc & Hs & Hmin).
  { intros c Hc. destruct (Harr c (Hin c Hc)) as (pre & post & Hlu & Ha).
    destruct (Hscore c pre post Hc Hlu Ha). eauto. }
  destruct (Harr c (Hin c Hc)) as (pre & post & Hlu & Ha).
  destruct (Hscore c pre post Hc Hlu Ha) as [Hsc H32]. rewrite Hsc in Hs. injection Hs as <-.
  exists c, pre, post. split_and!; [|done|done|].
  { unfold lru_rank, bind, get, lift. by rewrite Hr. }
  intros c' Hc' Hcc. destruct (Harr c' (Hin c' Hc')) as (pre' & post' & Hlu' & Ha').
  destruct (Hscore c' pre' post' Hc' Hlu' Ha') as [Hsc' H32'].
  pose proof (Hmin c' _ Hc' Hsc'). eapply last_use_order; [exact Hlu|exact Hlu'|done|lia].
Qed.

(** A view in which every line is valid and has no sharers. *)
Definition plain_view : CCView := mkView (fun _ => Ok 0) (fun _ => Ok true).

Lemma lru_evicts_least_recent_witness :
  exists c pre post, lru_rank true plain_view [0; 1; 2; 3]%nat false
      (mkLRU 6 [4; 5; 3; 2]) = Ok (c, mkLRU 6 [4; 5; 3; 2]) /\
    c ∈ [0; 1; 2; 3]%nat /\ last_use [1; 3; 2; 0; 1]%nat c pre post /\
    forall c', c' ∈ [0; 1; 2; 3]%nat -> c' <> c -> c' ∈ post.
Proof.
  apply (lru_evicts_least_recent 4 [1; 3; 2; 0; 1]%nat [0; 1; 2; 3]%nat plain_view true false
           (mkLRU 6 [4; 5; 3; 2])).
  - reflexivity.
  - reflexivity.
  - discriminate.
  - intros c Hc. repeat (apply elem_of_cons in Hc as [->|Hc]; [repeat constructor|]).
    exfalso. exact (not_elem_of_nil c Hc).
  - intros c Hc. split; reflexivity.
Defined.

(** Beyond 2^32 updates the truncation of the score makes LRU evict the
    most recently used line: with time stamps 2^32 - 1 and 2^32 in a two-way
    set, the victim is the line with the larger one. *)
Theorem lru_truncated_score :
  let r := mkLRU (2 ^ 32 + 1) [2 ^ 32 - 1; 2 ^ 32] in
  lru_rank false plain_view [0; 1]%nat false r = Ok (1%nat, r).
Proof. vm_compute. reflexivity. Qed.
