(* ===== verification/CacheArray.v ===== *)
(** * Set-associative cache arrays
    ([SetAssocArray] of [src/src/cache_arrays.h] and [cache_arrays.cpp])

    An array maps line addresses to line ids.  Its hash family is an argument;
    the replacement policy is any instance of [ReplPolicy]. *)

From stdpp Require Import base list strings.
From Stdlib Require Import ZArith Lia.
From S2P Require Import Prelude Numeric MemHierarchy ReplPolicy.
Local Open Scope Z_scope.

(** The constant fields; [hf->hash(0, lineAddr)] is [ap_hash lineAddr]. *)
Record ArrayParams := mkAP {
  ap_numLines : nat;
  ap_assoc : nat;
  ap_numSets : nat;
  ap_setMask : Z;
  ap_hash : Address -> Z
}.

(** The constructor: [numSets] must be a power of two. *)
Definition SetAssocArray_new (numLines assoc : nat) (hash : Address -> Z)
    : res (ArrayParams * list Address) :=
  if (assoc =? 0)%nat then Err DivByZero else
  let numSets := (numLines / assoc)%nat in
  if isPow2 (Z.of_nat numSets)
  then Ok (mkAP numLines assoc numSets (u32 (Z.of_nat numSets - 1)) hash, replicate numLines 0)
  else Err (AssertFail "cache_arrays.cpp:36").

(** The line ids of the set of an address. *)
Definition set_ids (P : ArrayParams) (lineAddr : Address) : list nat :=
  let set := Z.to_nat (Z.land (ap_hash P lineAddr) (ap_setMask P)) in
  seq (set * ap_assoc P) (ap_assoc P).

(** The loop of [lookup]. *)
Fixpoint find_line (array : list Address) (lineAddr : Address) (ids : list nat) : res (option nat) :=
  match ids with
  | [] => Ok None
  | id :: ids' =>
      match at_ array id with
      | Err e => Err e
      | Ok a => if a =? lineAddr then Ok (Some id) else find_line array lineAddr ids'
      end
  end.

(** The mutable fields of an array and of its policy. *)
Record SetAssoc (R : Type) := mkSA { sa_array : list Address; sa_rp : R }.
Arguments mkSA {R} _ _.
Arguments sa_array {R} _.
Arguments sa_rp {R} _.

Section Array.
Context {R : Type} `{ReplPolicy R} (P : ArrayParams).

Definition sa_with_rp {A} (m : M R A) : M (SetAssoc R) A :=
  zoom sa_rp (fun r s => mkSA (sa_array s) r) m.

(** [lookup(lineAddr, req, updateReplacement, hit_in_dc)]; [None] is -1.  On a
    hit the source also casts a DRAM-cache-aware policy to [LRUDCReplPolicy<true>]
    and copies one of its counters into the statistic [RepLines4DC]
    ([cache_arrays.cpp:45-46]); this is left out.  The cast is null for
    [LRUDCReplPolicy<false>], which is the policy of terminal caches only, and
    [init.cpp:316] allows those no policy but LRU. *)
Definition sa_lookup (lineAddr : Address) (updateReplacement hit_in_dc : bool)
    : M (SetAssoc R) (option nat) :=
  s <- get ;;
  o <- lift (find_line (sa_array s) lineAddr (set_ids P lineAddr)) ;;
  match o with
  | None => ret None
  | Some id => when updateReplacement (sa_with_rp (rp_update id hit_in_dc)) ;; ret (Some id)
  end.

(** [preinsert(lineAddr, req, &wbLineAddr, dynamic_repl)]: the victim's id and
    address. *)
Definition sa_preinsert (v : CCView) (lineAddr : Address) (dynamic_repl : bool)
    : M (SetAssoc R) (nat * Address) :=
  candidate <- sa_with_rp (rp_rankCands v (set_ids P lineAddr) dynamic_repl) ;;
  s <- get ;;
  wb <- lift (at_ (sa_array s) candidate) ;;
  ret (candidate, wb).

(** [postinsert(lineAddr, req, candidate, hit_in_dc)] *)
Definition sa_postinsert (lineAddr : Address) (candidate : nat) (hit_in_dc : bool)
    : M (SetAssoc R) unit :=
  sa_with_rp (rp_replaced candidate) ;;
  s <- get ;;
  a <- lift (set_at (sa_array s) candidate lineAddr) ;;
  modify (fun s => mkSA a (sa_rp s)) ;;
  sa_with_rp (rp_update candidate hit_in_dc).
End Array.

(** ** Properties *)

(** A well-formed array: the sets partition the lines and the mask selects one. *)
Record array_ok (P : ArrayParams) : Prop := {
  ao_assoc : (0 < ap_assoc P)%nat;
  ao_sets : exists k, Z.of_nat (ap_numSets P) = 2 ^ k /\ 0 <= k < 32;
  ao_lines : (ap_numSets P * ap_assoc P <= ap_numLines P)%nat;
  ao_size : Z.of_nat (ap_numLines P) < 2 ^ 32;
  ao_mask : ap_setMask P = Z.of_nat (ap_numSets P) - 1
}.

Lemma array_geometry P : array_ok P -> geometry (ap_numLines P) (ap_assoc P).
Proof. intros Hok. split; [apply (ao_size P Hok)|apply (ao_assoc P Hok)]. Qed.

Lemma isPow2_pow n : 0 < n < 2 ^ 32 -> isPow2 n = true -> exists k, n = 2 ^ k /\ 0 <= k < 32.
Proof.
  intros Hn H. unfold isPow2 in H. apply andb_true_iff in H as [_ H]. apply Z.eqb_eq in H.
  pose proof (Z.log2_spec n ltac:(lia)) as [H1 H2]. pose proof (Z.log2_nonneg n) as H0.
  exists (Z.log2 n). split; [|split; [done|apply (Z.pow_lt_mono_r_iff 2); lia]].
  destruct (decide (n = 2 ^ Z.log2 n)) as [|Hne]; [done|]. exfalso.
  assert (Z.testbit (Z.land n (n - 1)) (Z.log2 n) = true) as Hb.
  { rewrite Z.land_spec, Z.bit_log2 by lia. simpl.
    replace (Z.log2 n) with (Z.log2 (n - 1)); [apply Z.bit_log2; lia|].
    apply Z.log2_unique; lia. }
  rewrite H, Z.bits_0 in Hb. done.
Qed.

Lemma SetAssocArray_new_ok numLines assoc hash P a :
  SetAssocArray_new numLines assoc hash = Ok (P, a) -> Z.of_nat numLines < 2 ^ 32 ->
  array_ok P /\ a = replicate numLines 0 /\ ap_numLines P = numLines.
Proof.
  unfold SetAssocArray_new. intros H Hn. destruct (Nat.eqb_spec assoc 0); [done|].
  destruct (isPow2 _) eqn:E; [|done]. injection H as <- <-. split; [|done].
  assert (numLines / assoc <= numLines)%nat by (apply Nat.Div0.div_le_upper_bound; nia).
  assert (Z.of_nat (numLines / assoc) <> 0) by (unfold isPow2 in E; intros E0; by rewrite E0 in E).
  split; simpl; [lia| | |done|].
  - apply isPow2_pow; [lia|done].
  - pose proof (Nat.Div0.mul_div_le numLines assoc). lia.
  - apply u32_id. unfold in_u32. lia.
Qed.

Lemma set_ids_lt P a id : array_ok P -> id ∈ set_ids P a -> (id < ap_numLines P)%nat.
Proof.
  intros Hok Hid. apply elem_of_seq in Hid. destruct (ao_sets P Hok) as (k & Hk & Hk32).
  assert (0 <= Z.land (ap_hash P a) (ap_setMask P) < 2 ^ k) as Hs.
  { rewrite (ao_mask P Hok), Hk. replace (2 ^ k - 1) with (Z.ones k) by (rewrite Z.ones_equiv; lia).
    rewrite Z.land_ones by lia. apply Z.mod_pos_bound. lia. }
  pose proof (ao_lines P Hok). pose proof (ao_assoc P Hok). nia.
Qed.

Lemma set_ids_length P a : length (set_ids P a) = ap_assoc P.
Proof. apply length_seq. Qed.

(** [find_line] finds the first line of the list that holds the address. *)
Lemma find_line_spec array a ids :
  (forall id, id ∈ ids -> (id < length array)%nat) ->
  exists o, find_line array a ids = Ok o /\
    match o with
    | Some id => id ∈ ids /\ array !! id = Some a
    | None => forall id, id ∈ ids -> array !! id <> Some a
    end.
Proof.
  induction ids as [|id ids IH]; intros Hlt; simpl.
  { exists None. split; [done|]. intros id Hid. by apply not_elem_of_nil in Hid. }
  destruct (lookup_lt_is_Some_2 array id) as [x Hx]; [apply Hlt; by left|]. rewrite (at_ok _ _ _ Hx).
  destruct (Z.eqb_spec x a) as [->|Hne].
  { exists (Some id). split; [done|]. split; [by left|done]. }
  destruct IH as (o & Ho & Hspec); [intros; apply Hlt; by right|]. exists o. split; [done|].
  destruct o as [i|].
  - destruct Hspec. split; [by right|done].
  - intros i Hi. apply elem_of_cons in Hi as [->|Hi]; [congruence|auto].
Qed.

(** A write to a line that does not hold [a], of another address, changes
    nothing for [a]; a write of [a] to a line of its set, when [a] is absent, is
    found. *)
Lemma find_line_other array a b i ids x :
  array !! i = Some x -> x <> a -> b <> a ->
  find_line (<[i := b]> array) a ids = find_line array a ids.
Proof.
  intros Hi Hx Hb. induction ids as [|id ids IH]; simpl; [done|]. unfold at_.
  destruct (decide (id = i)) as [->|Hne].
  - rewrite Hi, list_lookup_insert_eq by (by eapply lookup_lt_Some).
    destruct (Z.eqb_spec x a), (Z.eqb_spec b a); done.
  - rewrite list_lookup_insert_ne by done. by rewrite IH.
Qed.

Lemma find_line_insert array a i ids :
  (forall id, id ∈ ids -> (id < length array)%nat) -> i ∈ ids ->
  find_line array a ids = Ok None -> find_line (<[i := a]> array) a ids = Ok (Some i).
Proof.
  induction ids as [|id ids IH]; intros Hlt Hi Hf; [by apply not_elem_of_nil in Hi|]. simpl in *.
  destruct (lookup_lt_is_Some_2 array id) as [x Hx]; [apply Hlt; by left|].
  rewrite (at_ok _ _ _ Hx) in Hf. destruct (Z.eqb_spec x a); [done|]. unfold at_.
  destruct (decide (id = i)) as [->|Hne].
  - rewrite list_lookup_insert_eq by (apply Hlt; by left). by rewrite Z.eqb_refl.
  - rewrite list_lookup_insert_ne, Hx by done. destruct (Z.eqb_spec x a); [done|].
    apply elem_of_cons in Hi as [->|Hi]; [done|]. apply IH; [intros; apply Hlt; by right|done|done].
Qed.

(** Lines other than the written one keep their addresses. *)
Lemma find_line_keep array a b i id ids :
  find_line array b ids = Ok (Some id) -> id <> i -> a <> b ->
  find_line (<[i := a]> array) b ids = Ok (Some id).
Proof.
  intros Hf Hid Hab. induction ids as [|j ids IH]; simpl in *; [done|]. unfold at_ in *.
  destruct (array !! j) as [x|] eqn:Hj; [|done].
  destruct (decide (j = i)) as [->|Hne].
  - rewrite list_lookup_insert_eq by (by eapply lookup_lt_Some).
    destruct (Z.eqb_spec a b); [done|]. destruct (Z.eqb_spec x b); [congruence|auto].
  - rewrite list_lookup_insert_ne, Hj by done. destruct (Z.eqb_spec x b); auto.
Qed.

(** An insertion into a set-associative array.  When [lineAddr] is absent,
    [preinsert] picks a line of its set and reports the address it holds, and
    after [postinsert] a lookup finds [lineAddr] in that line; every address
    that was found in another line is still found there. *)
Theorem array_insert_lookup {R} `{ReplPolicy R} (P : ArrayParams)
    `{!ReplLaws R} v lineAddr (s : SetAssoc R) :
  array_ok P -> length (sa_array s) = ap_numLines P ->
  rp_idle (ap_numLines P) (ap_assoc P) (sa_rp s) ->
  view_total (ap_numLines P) v ->
  find_line (sa_array s) lineAddr (set_ids P lineAddr) = Ok None ->
  exists id wb s1 s2, sa_preinsert P v lineAddr false s = Ok ((id, wb), s1) /\
    sa_postinsert lineAddr id false s1 = Ok (tt, s2) /\
    rp_idle (ap_numLines P) (ap_assoc P) (sa_rp s2) /\
    id ∈ set_ids P lineAddr /\ sa_array s !! id = Some wb /\
    find_line (sa_array s2) lineAddr (set_ids P lineAddr) = Ok (Some id) /\
    forall b l, b <> lineAddr -> l <> id ->
      find_line (sa_array s) b (set_ids P b) = Ok (Some l) ->
      find_line (sa_array s2) b (set_ids P b) = Ok (Some l).
Proof.
  intros Hok Hlen Hidle Hv Hnone. pose proof (array_geometry P Hok) as Hg. set (ids := set_ids P lineAddr).
  assert (forall c, c ∈ ids -> (c < ap_numLines P)%nat) as Hlt by (intros; by eapply set_ids_lt).
  destruct (wp_ok _ _ _ (rp_rank_ok _ _ v ids false (sa_rp s) Hg Hidle Hv (set_ids_length P lineAddr) Hlt))
    as (id & r1 & Hrank & Hin & Hr1).
  destruct (wp_ok _ _ _ (rp_replaced_ok _ _ id r1 Hg (Hlt id Hin) Hr1)) as ([] & r2 & Hrep & Hr2).
  destruct (wp_ok _ _ _ (rp_update_ok _ _ id false r2 Hg (Hlt id Hin) Hr2)) as ([] & r3 & Hupd & Hr3).
  destruct (lookup_lt_is_Some_2 (sa_array s) id) as [wb Hwb]; [rewrite Hlen; auto|].
  exists id, wb, (mkSA (sa_array s) r1), (mkSA (<[id := lineAddr]> (sa_array s)) r3).
  split_and!; try done.
  - unfold sa_preinsert, sa_with_rp, bind, zoom, get, lift, ret. fold ids. rewrite Hrank. simpl.
    by rewrite (at_ok _ _ _ Hwb).
  - unfold sa_postinsert, sa_with_rp, bind, zoom, get, lift, modify. simpl. rewrite Hrep. simpl.
    rewrite set_at_ok by (rewrite Hlen; auto). simpl. by rewrite Hupd.
  - apply find_line_insert; [intros; rewrite Hlen; auto|done|done].
  - intros b l Hb Hl Hf. by apply find_line_keep.
Qed.

Definition demo_array : ArrayParams := mkAP 8 2 4 3 (fun a => a).

Lemma array_insert_lookup_witness :
  exists id wb s1 s2,
    sa_preinsert (H := LRU_policy false) demo_array plain_view 5 false
      (mkSA [0; 0; 1; 9; 0; 0; 0; 0] (LRU_new 8)) = Ok ((id, wb), s1) /\
    sa_postinsert (H := LRU_policy false) 5 id false s1 = Ok (tt, s2) /\
    find_line (sa_array s2) 5 (set_ids demo_array 5) = Ok (Some id) /\ wb = 1.
Proof.
  assert (array_ok demo_array) as Hok.
  { split; simpl; [lia| |lia|reflexivity|reflexivity]. exists 2. split; [reflexivity|lia]. }
  destruct (@array_insert_lookup LRU (LRU_policy false) demo_array (LRU_laws false)
              plain_view 5 (mkSA [0; 0; 1; 9; 0; 0; 0; 0] (LRU_new 8)))
    as (id & wb & s1 & s2 & H1 & H2 & _ & _ & _ & H3 & _).
  - exact Hok.
  - reflexivity.
  - reflexivity.
  - intros i _. split; eexists; reflexivity.
  - reflexivity.
  - exists id, wb, s1, s2. split; [exact H1|]. split; [exact H2|]. split; [exact H3|].
    vm_compute in H1. congruence.
Defined.
