(* ===== verification/MtRand.v ===== *)
(** * The random number generator ([src/src/mtrand.h])

    [MTRand] is the Mersenne Twister MT19937: a vector of [N] words that
    [reload] regenerates in place, one tempered word per [randInt()].  Words are
    [uint64_t] in the sources and hold 32-bit values.

    The reference is the recurrence of the generator on an unbounded sequence of
    words ([mt_word]); [mt_draws_ok] shows that the vector, its cursor and the
    in-place [reload] produce exactly that sequence. *)

From stdpp Require Import base list.
From Stdlib Require Import ZArith Lia.
From S2P Require Import Prelude.
Local Open Scope Z_scope.

(** ** Words of [w] bits under the bit operations

    The range [0, 2^w) is closed under the bit operations, rotations of 64-bit
    words as the sources write them, and their algebra. *)

(** ** Ranges *)

Lemma word_testbit w z i : 0 <= z < 2 ^ w -> w <= i -> Z.testbit z i = false.
Proof.
  intros Hz Hi. destruct (Z.eq_dec z 0) as [->|]; [apply Z.bits_0|].
  apply Z.bits_above_log2; [lia|]. destruct (Z.lt_ge_cases w 0).
  - rewrite Z.pow_neg_r in Hz by done. lia.
  - assert (Z.log2 z < w) by (apply Z.log2_lt_pow2; lia). lia.
Qed.

Lemma word_intro w z :
  0 <= w -> 0 <= z -> (forall i, w <= i -> Z.testbit z i = false) -> 0 <= z < 2 ^ w.
Proof.
  intros Hw Hz H. split; [done|]. destruct (Z.eq_dec z 0) as [->|]; [lia|].
  apply Z.log2_lt_pow2; [lia|]. apply Z.nle_gt. intros Hle.
  apply H in Hle. rewrite Z.bit_log2 in Hle by lia. done.
Qed.

Lemma word_lxor w a b : 0 <= w -> 0 <= a < 2 ^ w -> 0 <= b < 2 ^ w -> 0 <= Z.lxor a b < 2 ^ w.
Proof.
  intros Hw Ha Hb. apply word_intro; [done|apply Z.lxor_nonneg; lia|].
  intros i Hi. rewrite Z.lxor_spec, !(word_testbit w) by done. done.
Qed.

Lemma word_lor w a b : 0 <= w -> 0 <= a < 2 ^ w -> 0 <= b < 2 ^ w -> 0 <= Z.lor a b < 2 ^ w.
Proof.
  intros Hw Ha Hb. apply word_intro; [done|apply Z.lor_nonneg; lia|].
  intros i Hi. rewrite Z.lor_spec, !(word_testbit w) by done. done.
Qed.

Lemma word_land_r w a b : 0 <= w -> 0 <= a -> 0 <= b < 2 ^ w -> 0 <= Z.land a b < 2 ^ w.
Proof.
  intros Hw Ha Hb. apply word_intro; [done|apply Z.land_nonneg; lia|].
  intros i Hi. by rewrite Z.land_spec, (word_testbit w b), andb_false_r.
Qed.

Lemma word_shiftr w a n : 0 <= n -> 0 <= a < 2 ^ w -> 0 <= Z.shiftr a n < 2 ^ w.
Proof.
  intros Hn Ha. rewrite Z.shiftr_div_pow2 by done.
  pose proof (Z.pow_pos_nonneg 2 n). split; [apply Z.div_pos; lia|].
  apply Z.le_lt_trans with a; [|lia]. apply Z.div_le_upper_bound; nia.
Qed.

Lemma land_le_r a b : 0 <= a -> 0 <= b -> 0 <= Z.land a b <= b.
Proof.
  intros Ha Hb. split; [apply Z.land_nonneg; lia|].
  assert (Z.land a b + Z.ldiff b a = b) as E.
  { rewrite Z.add_nocarry_lxor.
    - apply Z.bits_inj'. intros i Hi. rewrite Z.lxor_spec, Z.land_spec, Z.ldiff_spec.
      destruct (Z.testbit a i), (Z.testbit b i); done.
    - apply Z.bits_inj'. intros i Hi. rewrite Z.land_spec, Z.land_spec, Z.ldiff_spec, Z.bits_0.
      destruct (Z.testbit a i), (Z.testbit b i); done. }
  assert (0 <= Z.ldiff b a) by (apply Z.ldiff_nonneg; lia). lia.
Qed.

(** ** Rotations of a 64-bit word: [(v << n) | (v >> (64 - n))] *)
Definition rotl (v n : Z) : Z := Z.lor (u64 (Z.shiftl v n)) (Z.shiftr v (64 - n)).

Lemma rotl_range v n : in_u64 v -> 0 <= n <= 64 -> in_u64 (rotl v n).
Proof.
  intros Hv Hn. apply word_lor; [lia|apply u64_range|]. apply word_shiftr; [lia|exact Hv].
Qed.

(** The bit [i] of a rotation is the bit [i - n] of the word, modulo 64. *)
Lemma rotl_testbit v n i :
  in_u64 v -> 0 <= n < 64 -> 0 <= i < 64 ->
  Z.testbit (rotl v n) i = Z.testbit v ((i - n) mod 64).
Proof.
  intros Hv Hn Hi. unfold rotl, u64.
  rewrite Z.lor_spec, Z.shiftr_spec, Z.mod_pow2_bits_low, Z.shiftl_spec by lia.
  destruct (Z.lt_ge_cases i n).
  - rewrite (Z.testbit_neg_r _ (i - n)) by lia. simpl. f_equal.
    apply Z.mod_unique with (-1); lia.
  - rewrite (word_testbit 64 v (i + (64 - n))) by (try lia; exact Hv).
    rewrite orb_false_r, Z.mod_small by lia. done.
Qed.

Lemma word64_ext a b :
  in_u64 a -> in_u64 b -> (forall i, 0 <= i < 64 -> Z.testbit a i = Z.testbit b i) -> a = b.
Proof.
  intros Ha Hb H. apply Z.bits_inj'. intros i Hi. destruct (Z.lt_ge_cases i 64).
  - apply H. lia.
  - rewrite !(word_testbit 64) by done. done.
Qed.

Lemma rotl_lxor a b n :
  in_u64 a -> in_u64 b -> 0 <= n < 64 -> rotl (Z.lxor a b) n = Z.lxor (rotl a n) (rotl b n).
Proof.
  intros Ha Hb Hn. assert (in_u64 (Z.lxor a b)) by (apply word_lxor; [lia|done..]).
  apply word64_ext.
  - apply rotl_range; [done|lia].
  - apply word_lxor; [lia|apply rotl_range; [done|lia]..].
  - intros i Hi. rewrite Z.lxor_spec, !rotl_testbit by done. apply Z.lxor_spec.
Qed.

Lemma rotl_rotl v n m :
  in_u64 v -> 0 <= n < 64 -> 0 <= m < 64 -> rotl (rotl v n) m = rotl v ((n + m) mod 64).
Proof.
  intros Hv Hn Hm. pose proof (Z.mod_pos_bound (n + m) 64).
  apply word64_ext; [apply rotl_range; [apply rotl_range; [done|lia]|lia]|apply rotl_range; [done|lia]|].
  intros i Hi. pose proof (Z.mod_pos_bound (i - m) 64).
  rewrite !rotl_testbit; try done; try lia; [|apply rotl_range; [done|lia]].
  f_equal. rewrite Zminus_mod_idemp_l, Zminus_mod_idemp_r. f_equal. lia.
Qed.

Lemma rotl_0 v : in_u64 v -> rotl v 0 = v.
Proof.
  intros Hv. apply word64_ext; [apply rotl_range; [done|lia]|done|].
  intros i Hi. rewrite rotl_testbit by (done || lia). f_equal. rewrite Z.sub_0_r. by apply Z.mod_small.
Qed.

Lemma rotl_zero n : 0 <= n < 64 -> rotl 0 n = 0.
Proof.
  intros Hn. apply word64_ext; [apply rotl_range; [done|lia]|done|].
  intros i Hi. rewrite rotl_testbit by (done || lia). by rewrite !Z.bits_0.
Qed.

#[export] Hint Resolve rotl_range : banshee.

(** ** The random number generator ([src/src/mtrand.h]) *)

Definition MT_N : nat := 624.
Definition MT_M : nat := 397.

(** [pNext] is the index of the next word in [state]. *)
Record MTRand := mkMT { mt_state : list Z; mt_pNext : nat; mt_left : nat }.

Definition mt_set_state (l : list Z) (s : MTRand) : MTRand := mkMT l (mt_pNext s) (mt_left s).

Definition hiBit (u : Z) : Z := Z.land u 2147483648.
Definition loBit (u : Z) : Z := Z.land u 1.
Definition loBits (u : Z) : Z := Z.land u 2147483647.
Definition mixBits (u v : Z) : Z := Z.lor (hiBit u) (loBits v).
Definition magic (u : Z) : Z := if loBit u =? 0 then 0 else 2567483615.
Definition twist (m s0 s1 : Z) : Z := Z.lxor (Z.lxor m (Z.shiftr (mixBits s0 s1) 1)) (magic s1).

(** The loop of [initialize]: the word after [r] is 1812433253 times
    the exclusive or of [r] and [r >> 30], plus [i], cut to 32 bits. *)
Definition mt_init_word (r : Z) (i : nat) : Z :=
  Z.land (u64 (1812433253 * Z.lxor r (Z.shiftr r 30) + Z.of_nat i)) 4294967295.
Fixpoint mt_init_words (n i : nat) (r : Z) : list Z :=
  match n with
  | O => []
  | S n' => let w := mt_init_word r i in w :: mt_init_words n' (S i) w
  end.

Definition initialize (seed : Z) : M MTRand unit :=
  let w := Z.land seed 4294967295 in
  modify (mt_set_state (w :: mt_init_words (MT_N - 1) 1 w)).

(** [*p = twist(p\[dm\], p\[0\], s1)] for [p = &state\[j\]], with the indices of
    the two other words. *)
Definition reload_word (j m k : nat) : M MTRand unit :=
  s <- get ;;
  wm <- lift (at_ (mt_state s) m) ;;
  w0 <- lift (at_ (mt_state s) j) ;;
  w1 <- lift (at_ (mt_state s) k) ;;
  st <- lift (set_at (mt_state s) j (twist wm w0 w1)) ;;
  modify (mt_set_state st).

Definition reload : M MTRand unit :=
  forM (seq 0 (MT_N - MT_M)) (fun j => reload_word j (j + MT_M) (j + 1)) ;;
  forM (seq (MT_N - MT_M) (MT_M - 1)) (fun j => reload_word j (j - (MT_N - MT_M)) (j + 1)) ;;
  reload_word (MT_N - 1) (MT_M - 1) 0 ;;
  modify (fun s => mkMT (mt_state s) 0 MT_N).

Definition seed (oneSeed : Z) : M MTRand unit := initialize oneSeed ;; reload.

(** [MTRand(oneSeed)]: [initialize] fills a vector whose contents do not matter. *)
Definition MTRand_new (oneSeed : Z) : res MTRand :=
  match seed oneSeed (mkMT [] 0 0) with
  | Ok (_, s) => Ok s
  | Err e => Err e
  end.

Definition temper (s1 : Z) : Z :=
  let s1 := Z.lxor s1 (Z.shiftr s1 11) in
  let s1 := Z.lxor s1 (Z.land (u64 (Z.shiftl s1 7)) 2636928640) in
  let s1 := Z.lxor s1 (Z.land (u64 (Z.shiftl s1 15)) 4022730752) in
  Z.lxor s1 (Z.shiftr s1 18).

Definition randInt : M MTRand Z :=
  s0 <- get ;;
  when (mt_left s0 =? 0)%nat reload ;;
  s <- get ;;
  w <- lift (at_ (mt_state s) (mt_pNext s)) ;;
  modify (fun s => mkMT (mt_state s) (S (mt_pNext s)) (mt_left s - 1)) ;;
  ret (temper w).

(** [randInt(n)]: the mask of the bits used in [n], and the loop that draws
    until a number is at most [n].  The number of draws that the loop may make
    is the model's fuel. *)
Definition used_bits (n : Z) : Z :=
  let u := n in
  let u := Z.lor u (Z.shiftr u 1) in
  let u := Z.lor u (Z.shiftr u 2) in
  let u := Z.lor u (Z.shiftr u 4) in
  let u := Z.lor u (Z.shiftr u 8) in
  Z.lor u (Z.shiftr u 16).

Fixpoint randInt_loop (fuel : nat) (used n : Z) : M MTRand Z :=
  match fuel with
  | O => fail OutOfFuel
  | S fuel' =>
      w <- randInt ;;
      let i := Z.land w used in
      if n <? i then randInt_loop fuel' used n else ret i
  end.

Definition randInt_n (fuel : nat) (n : Z) : M MTRand Z := randInt_loop fuel (used_bits n) n.

(** Successive calls of [randInt()]. *)
Fixpoint mt_draws (n : nat) : M MTRand (list Z) :=
  match n with
  | O => ret []
  | S n' => w <- randInt ;; ws <- mt_draws n' ;; ret (w :: ws)
  end.

(** ** The reference: the recurrence on an unbounded sequence *)

(** [mt_extend init n]: the initial words followed by [n] more, each the twist
    of the words 624 and 623 and the word 227 places before it. *)
Fixpoint mt_extend (init : list Z) (n : nat) : list Z :=
  match n with
  | O => init
  | S n' =>
      let l := mt_extend init n' in
      l ++ [twist (nth (n' + MT_M) l 0) (nth n' l 0) (nth (n' + 1) l 0)]
  end.

Definition mt_init (seed : Z) : list Z :=
  let w := Z.land seed 4294967295 in w :: mt_init_words (MT_N - 1) 1 w.

Definition mt_word (seed : Z) (k : nat) : Z := nth k (mt_extend (mt_init seed) k) 0.

Lemma mt_init_words_length n i r : length (mt_init_words n i r) = n.
Proof. revert i r. induction n as [|n IH]; intros; simpl; [done|]. by rewrite IH. Qed.

Lemma mt_init_length sd : length (mt_init sd) = MT_N.
Proof. unfold mt_init. cbn -[MT_N mt_init_words]. by rewrite mt_init_words_length. Qed.

Lemma mt_extend_length init n : length (mt_extend init n) = (length init + n)%nat.
Proof. induction n as [|n IH]; simpl; [lia|]. rewrite length_app, IH. simpl. lia. Qed.

(** More words do not change the earlier ones. *)
Lemma mt_extend_stable init n m k :
  (n <= m)%nat -> (k < length init + n)%nat ->
  nth k (mt_extend init m) 0 = nth k (mt_extend init n) 0.
Proof.
  induction 1 as [|m Hm IH]; intros Hk; [done|]. simpl.
  rewrite app_nth1 by (rewrite mt_extend_length; lia). by apply IH.
Qed.

Lemma mt_word_at sd n k : (k < MT_N + n)%nat -> nth k (mt_extend (mt_init sd) n) 0 = mt_word sd k.
Proof.
  intros Hk. unfold mt_word. destruct (Nat.le_ge_cases n k).
  - symmetry. apply mt_extend_stable; [done|]. rewrite mt_init_length. lia.
  - apply mt_extend_stable; [done|]. rewrite mt_init_length. unfold MT_N. lia.
Qed.

(** The recurrence of MT19937. *)
Lemma mt_word_rec sd k :
  mt_word sd (k + MT_N) = twist (mt_word sd (k + MT_M)) (mt_word sd k) (mt_word sd (k + 1)).
Proof.
  rewrite <- (mt_word_at sd (S k) (k + MT_N)) by lia. simpl.
  rewrite app_nth2 by (rewrite mt_extend_length, mt_init_length; lia).
  replace (k + MT_N - length (mt_extend (mt_init sd) k))%nat with 0%nat
    by (rewrite mt_extend_length, mt_init_length; lia).
  cbn [nth]. rewrite !mt_word_at by (unfold MT_N, MT_M; lia). done.
Qed.

(** ** The vector holds a window of the sequence *)

Section Stream.
Context (sd : Z).
Local Abbreviation x := (mt_word sd).

(** [state] holds the words from [base] on, those below [j] one round ahead. *)
Definition mt_window (base j : nat) (st : list Z) : Prop :=
  length st = MT_N /\
  forall i, (i < MT_N)%nat -> st !! i = Some (x (if (i <? j)%nat then base + MT_N + i else base + i)).

Lemma window_lookup base j st i k :
  mt_window base j st -> (i < MT_N)%nat ->
  k = (if (i <? j)%nat then base + MT_N + i else base + i)%nat -> st !! i = Some (x k).
Proof. intros [_ H] Hi ->. by apply H. Qed.

Lemma window_next base st : mt_window base MT_N st -> mt_window (base + MT_N) 0 st.
Proof.
  intros [Hl H]. split; [done|]. intros i Hi. rewrite (H i Hi).
  apply Nat.ltb_lt in Hi as ->. done.
Qed.

(** One word of [reload], in both loops and at the end. *)
Lemma reload_word_ok base j m k s :
  (j < MT_N)%nat -> m = ((j + MT_M) mod MT_N)%nat -> k = ((j + 1) mod MT_N)%nat ->
  mt_window base j (mt_state s) ->
  wp (reload_word j m k)
     (fun _ s' => mt_window base (S j) (mt_state s') /\
        mt_pNext s' = mt_pNext s /\ mt_left s' = mt_left s) s.
Proof.
  intros Hj Hm Hk HW.
  assert ((m < MT_N)%nat /\ (m <? j)%nat = (MT_N <=? j + MT_M)%nat /\
          (m + (if (m <? j)%nat then MT_N else 0) = j + MT_M)%nat) as (Hm1 & _ & Hm2).
  { subst m. unfold MT_N, MT_M in *. destruct (Nat.le_gt_cases 624 (j + 397)).
    - replace ((j + 397) mod 624)%nat with (j - 227)%nat
        by (apply Nat.mod_unique with 1%nat; lia).
      destruct (Nat.ltb_spec (j - 227) j); destruct (Nat.leb_spec 624 (j + 397)); lia.
    - rewrite Nat.mod_small by lia.
      destruct (Nat.ltb_spec (j + 397) j); destruct (Nat.leb_spec 624 (j + 397)); lia. }
  assert ((k < MT_N)%nat /\ (k + (if (k <? j)%nat then MT_N else 0) = j + 1)%nat) as (Hk1 & Hk2).
  { subst k. unfold MT_N in *. destruct (decide (j = 623%nat)) as [->|].
    - simpl. lia.
    - rewrite Nat.mod_small by lia. destruct (Nat.ltb_spec (j + 1) j); lia. }
  unfold reload_word. wp_step. wp_step.
  wp_step. eapply wp_lift.
  { apply at_ok, (window_lookup base j _ m (base + j + MT_M)); [done..|].
    destruct (m <? j)%nat; lia. }
  wp_step. eapply wp_lift.
  { apply at_ok, (window_lookup base j _ j (base + j)); [done..|].
    by rewrite Nat.ltb_irrefl. }
  wp_step. eapply wp_lift.
  { apply at_ok, (window_lookup base j _ k (base + j + 1)); [done..|].
    destruct (k <? j)%nat; lia. }
  destruct HW as [Hl HW].
  wp_step. eapply wp_lift; [apply set_at_ok; lia|]. wp_step. simpl.
  split; [|done]. split; [by rewrite length_insert|].
  intros i Hi. destruct (decide (i = j)) as [->|Hne].
  - rewrite list_lookup_insert_eq by lia. f_equal.
    rewrite <- mt_word_rec. destruct (Nat.ltb_spec j (S j)); [f_equal; lia|lia].
  - rewrite list_lookup_insert_ne by done. rewrite (HW i Hi). do 2 f_equal.
    destruct (Nat.ltb_spec i j), (Nat.ltb_spec i (S j)); lia.
Qed.

(** A counted loop of [reload]. *)
Lemma reload_loop_ok base a n (m k : nat -> nat) s :
  (a + n <= MT_N)%nat ->
  (forall j, (a <= j < a + n)%nat -> m j = ((j + MT_M) mod MT_N)%nat /\ k j = ((j + 1) mod MT_N)%nat) ->
  mt_window base a (mt_state s) ->
  wp (forM (seq a n) (fun j => reload_word j (m j) (k j)))
     (fun _ s' => mt_window base (a + n) (mt_state s')) s.
Proof.
  intros Ha Hmk HW.
  apply (wp_forM _ _ (fun pre s' => mt_window base (a + length pre) (mt_state s'))).
  - by rewrite Nat.add_0_r.
  - intros pre j post s' Hl HW'.
    assert (j = a + length pre /\ length pre < n)%nat as [-> Hlt].
    { assert (seq a n !! length pre = Some j) as Hj by (rewrite Hl; by apply list_lookup_middle).
      apply lookup_seq in Hj. lia. }
    destruct (Hmk (a + length pre)%nat) as [Hm Hk]; [lia|].
    eapply wp_mono; [apply (reload_word_ok base); [lia|done..]|].
    intros [] s'' (HW'' & _). rewrite length_app. simpl.
    by replace (a + (length pre + 1))%nat with (S (a + length pre))%nat by lia.
  - intros s'. rewrite length_seq. done.
Qed.

Lemma reload_ok base s :
  mt_window base 0 (mt_state s) ->
  wp reload (fun _ s' => mt_window (base + MT_N) 0 (mt_state s') /\
               mt_pNext s' = 0%nat /\ mt_left s' = MT_N) s.
Proof.
  intros HW. unfold reload. wp_step. eapply wp_mono.
  { apply (reload_loop_ok base 0 (MT_N - MT_M) (fun j => j + MT_M)%nat (fun j => j + 1)%nat);
      [unfold MT_N, MT_M; lia| |done].
    intros j Hj. unfold MT_N, MT_M in *. rewrite !Nat.mod_small by lia. lia. }
  intros [] s1 H1. wp_step. eapply wp_mono.
  { apply (reload_loop_ok base (MT_N - MT_M) (MT_M - 1) (fun j => j - (MT_N - MT_M))%nat
             (fun j => j + 1)%nat); [unfold MT_N, MT_M; lia| |done].
    intros j Hj. unfold MT_N, MT_M in *. rewrite (Nat.mod_small (j + 1)) by lia.
    split; [|lia]. apply Nat.mod_unique with 1%nat; lia. }
  intros [] s2 H2. wp_step. eapply wp_mono.
  { apply (reload_word_ok base); [unfold MT_N; lia|reflexivity|reflexivity|exact H2]. }
  intros [] s3 (H3 & _). wp_step. simpl. split; [|done]. by apply window_next.
Qed.

(** [k] numbers have been drawn. *)
Definition mt_rep (k : nat) (s : MTRand) : Prop :=
  exists base, mt_window base 0 (mt_state s) /\ (mt_left s <= MT_N)%nat /\
    mt_pNext s = (MT_N - mt_left s)%nat /\ (base + mt_pNext s = MT_N + k)%nat.

Lemma randInt_ok k s :
  mt_rep k s -> wp randInt (fun w s' => w = temper (x (MT_N + k)) /\ mt_rep (S k) s') s.
Proof.
  intros (base & HW & Hleft & Hp & Hk). unfold randInt. wp_step. wp_step. wp_step.
  assert (wp (when (mt_left s =? 0)%nat reload)
            (fun _ s' => mt_rep k s' /\ (0 < mt_left s')%nat) s) as Hr.
  { apply wp_when; intros E.
    - apply Nat.eqb_eq in E. eapply wp_mono; [by apply reload_ok|].
      intros [] s' (HW' & Hp' & Hl'). split; [|unfold MT_N in Hl'; lia].
      exists (base + MT_N)%nat. unfold MT_N in *. split; [done|]. lia.
    - apply Nat.eqb_neq in E. split; [|lia]. by exists base. }
  eapply wp_mono; [exact Hr|]. clear -sd. intros [] s ((base & HW & Hleft & Hp & Hk) & Hpos).
  wp_step. wp_step. wp_step. eapply wp_lift.
  { apply at_ok, (window_lookup base 0 _ _ (MT_N + k)); [done|lia|].
    replace (mt_pNext s <? 0)%nat with false by done. lia. }
  wp_step. wp_step. wp_step. split; [done|]. exists base. cbn [mt_pNext mt_left mt_state].
  split; [done|]. lia.
Qed.

Lemma mt_draws_rep n k s :
  mt_rep k s ->
  wp (mt_draws n) (fun ws s' => ws = map (fun i => temper (x (MT_N + i))) (seq k n) /\
                     mt_rep (k + n) s') s.
Proof.
  revert k s. induction n as [|n IH]; intros k s Hs; cbn [mt_draws].
  - wp_step. split; [done|]. by rewrite Nat.add_0_r.
  - wp_step. eapply wp_mono; [by apply randInt_ok|]. intros w s1 [-> H1]. wp_step.
    eapply wp_mono; [by apply IH|]. intros ws s2 [-> H2]. wp_step. split; [done|].
    by replace (k + S n)%nat with (S k + n)%nat by lia.
Qed.

Lemma window_init : mt_window 0 0 (mt_init sd).
Proof.
  split; [apply mt_init_length|]. intros i Hi.
  replace (i <? 0)%nat with false by done. rewrite Nat.add_0_l.
  rewrite <- (mt_word_at sd 0 i) by lia. cbn [mt_extend].
  destruct (lookup_lt_is_Some_2 (mt_init sd) i) as [w Hw]; [by rewrite mt_init_length|].
  rewrite Hw. f_equal. symmetry. by apply nth_lookup_Some.
Qed.

(** [MTRand(sd)] starts the sequence. *)
Lemma seed_ok s0 : wp (seed sd) (fun _ s => mt_rep 0 s) s0.
Proof.
  unfold seed. wp_step. unfold initialize. apply wp_modify.
  eapply wp_mono; [apply (reload_ok 0); exact window_init|].
  intros [] s (HW & Hp & Hl). exists MT_N. rewrite Hp, Hl. split; [done|]. lia.
Qed.

Lemma MTRand_new_ok : exists s, MTRand_new sd = Ok s /\ mt_rep 0 s.
Proof.
  destruct (wp_ok _ _ _ (seed_ok (mkMT [] 0 0))) as (a & s & E & Hs).
  exists s. split; [|exact Hs]. unfold MTRand_new. rewrite E. reflexivity.
Qed.
End Stream.
