(* ===== verification/H3Hash.v ===== *)
(** * Hash families ([src/src/hash.h], [src/src/hash.cpp])

    [H3HashFamily]: the matrix drawn from [MTRand], the unrolled [hash] and its
    output folding; [IdHashFamily].  [SHA1HashFamily] needs the PolarSSL library
    and is not modelled.

    The comment of [hash] gives the loop it was optimised from, for 64-bit
    outputs; [h3_ref] is that loop.  The rotations of the unrolled code use the
    rows in another order, so that it is the loop on a permuted matrix. *)

From stdpp Require Import base list strings.
From Stdlib Require Import ZArith Lia.
From S2P Require Import Prelude MtRand.
Local Open Scope Z_scope.

Record H3HashFamily := mkH3 { h3_numFuncs : nat; h3_resShift : nat; h3_hMatrix : list Z }.

(** The inner loop of the constructor: 64 draws make a row, high bit first. *)
Fixpoint h3_draw (kk : nat) (val : Z) : M MTRand Z :=
  match kk with
  | O => ret val
  | S kk' =>
      r <- randInt ;;
      let val := u64 (Z.shiftl val 1) in
      h3_draw kk' (if r mod 2 =? 0 then u64 (val + 1) else val)
  end.

(** The two outer loops fill the matrix in the order of its indices
    [ii*words + jj]. *)
Fixpoint h3_rows (n : nat) : M MTRand (list Z) :=
  match n with
  | O => ret []
  | S n' => v <- h3_draw 64 0 ;; vs <- h3_rows n' ;; ret (v :: vs)
  end.

Definition h3_shift_of (outputBits : Z) : res nat :=
  if outputBits <=? 8 then Ok 3%nat
  else if outputBits <=? 16 then Ok 2%nat
  else if outputBits <=? 32 then Ok 1%nat
  else if outputBits <=? 64 then Ok 0%nat
  else Err (Panic "Hash function can't produce more than 64 bits of output!!").

(** [64 >> resShift] *)
Definition h3_words (resShift : nat) : nat := Nat.shiftr 64 resShift.

Definition H3_new (numFunctions : nat) (outputBits randSeed : Z) : res H3HashFamily :=
  match h3_shift_of outputBits, MTRand_new randSeed with
  | Ok resShift, Ok rnd =>
      match h3_rows (h3_words resShift * numFunctions) rnd with
      | Ok (rows, _) => Ok (mkH3 numFunctions resShift rows)
      | Err e => Err e
      end
  | Err e, _ => Err e
  | _, Err e => Err e
  end.

(** One pass of the unrolled loop: eight rows from [base]. *)
Definition h3_pass (hMatrix : list Z) (base : nat) (val res0 : Z) : res Z :=
  match at_ hMatrix base, at_ hMatrix (base + 1), at_ hMatrix (base + 2), at_ hMatrix (base + 3),
        at_ hMatrix (base + 4), at_ hMatrix (base + 5), at_ hMatrix (base + 6),
        at_ hMatrix (base + 7) with
  | Ok m0, Ok m1, Ok m2, Ok m3, Ok m4, Ok m5, Ok m6, Ok m7 =>
      let r0 := Z.land val m0 in
      let r1 := Z.land val m1 in
      let r2 := Z.land val m2 in
      let r3 := Z.land val m3 in
      let r4 := Z.land val m4 in
      let r5 := Z.land val m5 in
      let r6 := Z.land val m6 in
      let r7 := Z.land val m7 in
      let r := Z.lxor res0 (Z.lxor (Z.lxor (Z.lxor r0 (rotl r1 1)) (rotl r2 2)) (rotl r3 3)) in
      let r := Z.lxor r (Z.lxor (Z.lxor (Z.lxor (rotl r4 4) (rotl r5 5)) (rotl r6 6)) (rotl r7 7)) in
      Ok (rotl r 8)
  | _, _, _, _, _, _, _, _ => Err OutOfRange
  end.

(** [for (x = 0; x < maxBits; x += 8)], by the number of passes left. *)
Fixpoint h3_loop (h : H3HashFamily) (id : nat) (val : Z) (passes x : nat) (res0 : Z) : res Z :=
  match passes with
  | O => Ok res0
  | S passes' =>
      match h3_pass (h3_hMatrix h) (Nat.shiftl id (6 - h3_resShift h) + x) val res0 with
      | Ok r => h3_loop h id val passes' (x + 8) r
      | Err e => Err e
      end
  end.

(** The folds of the [switch]. *)
Definition h3_fold (resShift : nat) (r : Z) : Z :=
  match resShift with
  | 1%nat => Z.lxor (Z.shiftr r 32) r
  | 2%nat =>
      let r := Z.lxor (Z.shiftr r 32) r in
      Z.lxor (Z.shiftr r 16) r
  | 3%nat =>
      let r := Z.lxor (Z.shiftr r 32) r in
      let r := Z.lxor (Z.shiftr r 16) r in
      Z.lxor (Z.shiftr r 8) r
  | _ => r
  end.

Definition h3_hash (h : H3HashFamily) (id : nat) (val : Z) : res Z :=
  if (id <? h3_numFuncs h)%nat then
    match h3_loop h id val (Nat.div (h3_words (h3_resShift h)) 8) 0 0 with
    | Ok r => Ok (h3_fold (h3_resShift h) r)
    | Err e => Err e
    end
  else Err (AssertFail "hash.cpp: id >= 0 && id < numFuncs").

(** [IdHashFamily::hash] *)
Definition id_hash (id : nat) (val : Z) : Z := val.

(** ** The loop of the comment *)
Definition h3_ref (rows : list Z) (val : Z) : Z :=
  fold_left (fun r row => rotl (Z.lxor r (Z.land val row)) 1) rows 0.

(** The row that the loop of the comment has to find at [y]: the unrolled code
    rotates the row [8q + r] by [r - 8q] in all. *)
Definition h3_row_at (y : nat) : nat :=
  let r := ((64 - y) mod 8)%nat in (8 * (((y + r) / 8) mod 8) + r)%nat.
Definition h3_permuted (rows : list Z) : list Z :=
  map (fun y => nth (h3_row_at y) rows 0) (seq 0 64).

(** The permutation uses each row once. *)
Lemma h3_row_at_perm : map h3_row_at (seq 0 64) ≡ₚ seq 0 64.
Proof.
  apply NoDup_Permutation.
  - apply (bool_decide_unpack _). vm_compute. exact I.
  - apply NoDup_seq.
  - intros y. assert (Forall (fun z => z ∈ seq 0 64) (map h3_row_at (seq 0 64))) as H1
      by (apply (bool_decide_unpack _); vm_compute; exact I).
    assert (Forall (fun z => z ∈ map h3_row_at (seq 0 64)) (seq 0 64)) as H2
      by (apply (bool_decide_unpack _); vm_compute; exact I).
    rewrite Forall_forall in H1, H2. naive_solver.
Qed.

(** ** Exclusive-or sums *)
Definition xsum : list Z -> Z := foldr Z.lxor 0.

Lemma xsum_app l1 l2 : xsum (l1 ++ l2) = Z.lxor (xsum l1) (xsum l2).
Proof. induction l1 as [|x l IH]; simpl; [done|]. by rewrite IH, Z.lxor_assoc. Qed.

Lemma xsum_perm l1 l2 : l1 ≡ₚ l2 -> xsum l1 = xsum l2.
Proof.
  induction 1 as [|x l1 l2 _ IH|x y l|l1 l2 l3 _ IH1 _ IH2]; simpl; try congruence.
  by rewrite <- !Z.lxor_assoc, (Z.lxor_comm x y).
Qed.

Lemma xsum_u64 l : Forall in_u64 l -> in_u64 (xsum l).
Proof.
  induction 1 as [|x l Hx _ IH]; simpl; [done|]. apply word_lxor; [lia|done..].
Qed.

(** A rotation goes through a sum, adding to the rotations of its terms. *)
Lemma rotl_xsum_below {A} (f : A -> Z) (e : A -> Z) (l : list A) n :
  (forall x, in_u64 (f x)) -> (forall x, x ∈ l -> 0 <= e x < 64) -> 0 <= n < 64 ->
  rotl (xsum (map (fun x => rotl (f x) (e x)) l)) n =
  xsum (map (fun x => rotl (f x) ((e x + n) mod 64)) l).
Proof.
  intros Hf He Hn. induction l as [|x l IH]; simpl.
  - apply Z.bits_inj'. intros i Hi. destruct (Z.lt_ge_cases i 64).
    + rewrite rotl_testbit by (done || lia). by rewrite !Z.bits_0.
    + rewrite Z.bits_0. apply (word_testbit 64); [apply rotl_range; [done|lia]|done].
  - assert (0 <= e x < 64) as Hx by (apply He; left).
    assert (forall y, y ∈ l -> 0 <= e y < 64) as Hl by (intros; apply He; by right).
    rewrite rotl_lxor; [by rewrite IH, rotl_rotl by auto| | |done].
    + apply rotl_range; [done|lia].
    + apply xsum_u64. apply Forall_forall. intros z Hz. apply list_elem_of_fmap in Hz as (y & -> & Hy).
      specialize (Hl y Hy). apply rotl_range; [done|lia].
Qed.

Lemma land_u64 a b : in_u64 a -> in_u64 b -> in_u64 (Z.land a b).
Proof. intros Ha Hb. apply word_land_r; [lia| |done]. unfold in_u64 in Ha. lia. Qed.
#[export] Hint Resolve land_u64 : banshee.

(** The loop of the comment on the rows [l], as a sum. *)
Lemma h3_ref_sum (g : nat -> Z) val n :
  in_u64 val -> (forall y, in_u64 (g y)) -> (n <= 64)%nat ->
  h3_ref (map g (seq 0 n)) val =
  xsum (map (fun y => rotl (Z.land val (g y)) (Z.of_nat (n - y) mod 64)) (seq 0 n)).
Proof.
  intros Hval Hg. unfold h3_ref. induction n as [|n IH]; intros Hn; [done|].
  rewrite seq_S, !map_app, fold_left_app, IH by lia. simpl.
  assert (forall y, 0 <= Z.of_nat (n - y) mod 64 < 64) as Hm by (intros; apply Z.mod_pos_bound; lia).
  rewrite rotl_lxor; [|apply xsum_u64|auto with banshee|lia].
  2:{ apply Forall_forall. intros z Hz. apply list_elem_of_fmap in Hz as (y & -> & _).
      apply rotl_range; [auto with banshee|]. specialize (Hm y). lia. }
  rewrite (rotl_xsum_below (fun y => Z.land val (g y)) (fun y => Z.of_nat (n - y) mod 64));
    [|auto with banshee|intros; apply Hm|lia].
  rewrite xsum_app. cbn [xsum foldr map]. rewrite Z.lxor_0_r. f_equal.
  - f_equal. apply map_ext_in. intros y Hy. apply in_seq in Hy. f_equal.
    rewrite Zplus_mod_idemp_l. f_equal. lia.
  - f_equal. replace (S n - n)%nat with 1%nat by lia. done.
Qed.

(** ** The unrolled loop as a sum *)

(** A family as the constructor leaves it. *)
Definition h3_ok (h : H3HashFamily) : Prop :=
  (h3_resShift h <= 3)%nat /\
  length (h3_hMatrix h) = (h3_words (h3_resShift h) * h3_numFuncs h)%nat /\
  Forall in_u64 (h3_hMatrix h).

Lemma at_nth {A} (l : list A) i d : (i < length l)%nat -> at_ l i = Ok (nth i l d).
Proof.
  intros Hi. destruct (lookup_lt_is_Some_2 l i Hi) as [x Hx].
  rewrite (at_ok _ _ _ Hx). f_equal. symmetry. by apply nth_lookup_Some.
Qed.

Lemma nth_u64 l i : Forall in_u64 l -> in_u64 (nth i l 0).
Proof.
  intros H. rewrite nth_lookup. destruct (l !! i) as [x|] eqn:E; simpl; [|done].
  rewrite Forall_lookup in H. by eapply H.
Qed.
#[export] Hint Resolve nth_u64 : banshee.

(** How far the row [i] of a function is rotated by [n] passes. *)
Definition h3_rot (n i : nat) : Z := (Z.of_nat (i mod 8) + 8 * (Z.of_nat n - Z.of_nat (i / 8))) mod 64.

Lemma h3_rot_range n i : 0 <= h3_rot n i < 64.
Proof. apply Z.mod_pos_bound. lia. Qed.
#[export] Hint Resolve h3_rot_range : banshee.

Section Loop.
Context (h : H3HashFamily) (val : Z) (Hh : h3_ok h) (Hval : in_u64 val).
Local Abbreviation g := (fun i => Z.land val (nth i (h3_hMatrix h) 0)).

Lemma g_u64 i : in_u64 (g i).
Proof. destruct Hh as (_ & _ & H). auto with banshee. Qed.

Lemma rotated_u64 {A} (f : A -> nat) (e : A -> Z) (l : list A) :
  (forall x, 0 <= e x < 64) -> in_u64 (xsum (map (fun x => rotl (g (f x)) (e x)) l)).
Proof.
  intros He. apply xsum_u64, Forall_forall. intros z Hz.
  apply list_elem_of_fmap in Hz as (y & -> & _). apply rotl_range; [apply g_u64|].
  specialize (He y). lia.
Qed.

Lemma h3_pass_sum base r :
  (base + 8 <= length (h3_hMatrix h))%nat -> in_u64 r ->
  h3_pass (h3_hMatrix h) base val r =
  Ok (rotl (Z.lxor r (xsum (map (fun j => rotl (g (base + j)%nat) (Z.of_nat j)) (seq 0 8)))) 8).
Proof.
  intros Hb Hr. unfold h3_pass. rewrite !(at_nth _ _ 0) by lia.
  cbn [seq map xsum foldr]. change (Z.of_nat 0) with 0.
  rewrite Nat.add_0_r, (rotl_0 _ (g_u64 base)), Z.lxor_0_r.
  do 2 f_equal. rewrite !Z.lxor_assoc. done.
Qed.

Lemma h3_rot_first n j : (j < 8)%nat -> ((Z.of_nat j + 8) mod 64 + 8 * Z.of_nat n) mod 64 = h3_rot (S n) j.
Proof.
  intros Hj. unfold h3_rot. rewrite Nat.mod_small, Nat.div_small by lia.
  rewrite Zplus_mod_idemp_l. f_equal. lia.
Qed.

Lemma h3_rot_next n i : h3_rot (S n) (8 + i) = h3_rot n i.
Proof.
  unfold h3_rot. replace ((8 + i) mod 8)%nat with (i mod 8)%nat.
  - replace ((8 + i) / 8)%nat with (S (i / 8))%nat; [f_equal; lia|].
    replace (8 + i)%nat with (i + 1 * 8)%nat by lia. rewrite Nat.div_add by lia. lia.
  - replace (8 + i)%nat with (i + 1 * 8)%nat by lia. by rewrite Nat.Div0.mod_add.
Qed.

Lemma h3_loop_sum id passes x r :
  (Nat.shiftl id (6 - h3_resShift h) + x + 8 * passes <= length (h3_hMatrix h))%nat ->
  (passes < 8)%nat \/ r = 0 /\ passes = 8%nat -> in_u64 r ->
  h3_loop h id val passes x r =
  Ok (Z.lxor (rotl r ((8 * Z.of_nat passes) mod 64))
        (xsum (map (fun i => rotl (g (Nat.shiftl id (6 - h3_resShift h) + x + i)%nat) (h3_rot passes i))
           (seq 0 (8 * passes))))).
Proof.
  set (base := Nat.shiftl id (6 - h3_resShift h)). revert x r.
  induction passes as [|n IH]; intros x r Hlen Hn Hr; cbn [h3_loop].
  - by rewrite rotl_0, Z.lxor_0_r.
  - fold base. rewrite h3_pass_sum by (done || lia).
    set (S8 := map _ (seq 0 8)).
    assert (in_u64 (xsum S8)) as HS8.
    { apply xsum_u64, Forall_forall. intros z Hz. apply list_elem_of_fmap in Hz as (y & -> & Hy).
      apply elem_of_seq in Hy. apply rotl_range; [apply g_u64|lia]. }
    rewrite IH; [|lia|lia|apply rotl_range; [apply word_lxor; [lia|done..]|lia]].
    f_equal. replace (8 * S n)%nat with (8 + 8 * n)%nat by lia.
    rewrite seq_app, map_app, xsum_app, <- Z.lxor_assoc.
    assert (0 <= 8 * Z.of_nat n < 64) as Hn8 by lia.
    rewrite (Z.mod_small (8 * Z.of_nat n)) by lia. f_equal.
    + rewrite rotl_rotl by (try apply word_lxor; try done; lia).
      rewrite rotl_lxor; [|done|done|apply Z.mod_pos_bound; lia]. f_equal.
      * f_equal. f_equal. lia.
      * subst S8. rewrite (rotl_xsum_below (fun j => g (base + x + j)%nat)).
        -- f_equal. apply map_ext_in. intros j Hj. apply in_seq in Hj. f_equal.
           rewrite <- h3_rot_first by lia. rewrite Zplus_mod_idemp_l.
           rewrite Zplus_mod_idemp_r. f_equal. lia.
        -- intros. apply g_u64.
        -- intros j Hj. apply elem_of_seq in Hj. lia.
        -- apply Z.mod_pos_bound. lia.
    + f_equal.
      change (seq (0 + 8) (8 * n)) with (seq (8 + 0) (8 * n)).
      rewrite <- fmap_add_seq, map_map.
      apply map_ext_in. intros i Hi. rewrite h3_rot_next. do 3 f_equal. lia.
Qed.
End Loop.

(** ** The constructor *)
Lemma h3_draw_ok sd n : forall k val s, mt_rep sd k s -> in_u64 val ->
  wp (h3_draw n val) (fun v s' => in_u64 v /\ exists k', mt_rep sd k' s') s.
Proof.
  induction n as [|n IH]; intros k val s Hs Hval; cbn [h3_draw].
  - wp_step. eauto.
  - wp_step. eapply wp_mono; [by apply randInt_ok|]. intros w s1 [_ H1].
    eapply IH; [exact H1|]. destruct (w mod 2 =? 0); apply u64_range.
Qed.

Lemma h3_rows_ok sd n : forall k s, mt_rep sd k s ->
  wp (h3_rows n) (fun rows _ => length rows = n /\ Forall in_u64 rows) s.
Proof.
  induction n as [|n IH]; intros k s Hs; cbn [h3_rows].
  - wp_step. done.
  - wp_step. eapply wp_mono; [by apply (h3_draw_ok sd 64 k)|]. intros v s1 [Hv [k1 H1]].
    wp_step. eapply wp_mono; [by apply (IH k1)|]. intros vs s2 [Hl Hvs]. wp_step.
    split; [simpl; by rewrite Hl|]. by constructor.
Qed.

Lemma H3_new_ok numFunctions outputBits randSeed :
  outputBits <= 64 ->
  exists h, H3_new numFunctions outputBits randSeed = Ok h /\ h3_ok h /\ h3_numFuncs h = numFunctions.
Proof.
  intros Hb. unfold H3_new.
  assert (exists sh, h3_shift_of outputBits = Ok sh /\ (sh <= 3)%nat) as (sh & -> & Hsh).
  { unfold h3_shift_of. repeat case_match; eauto with lia. }
  destruct (MTRand_new_ok randSeed) as (s & -> & Hs).
  destruct (wp_ok _ _ _ (h3_rows_ok randSeed (h3_words sh * numFunctions) 0 s Hs))
    as (rows & s' & -> & Hl & Hrows).
  eexists. split; [reflexivity|]. done.
Qed.

Lemma H3_new_family numFunctions outputBits randSeed h :
  H3_new numFunctions outputBits randSeed = Ok h -> h3_ok h /\ h3_numFuncs h = numFunctions.
Proof.
  intros H. destruct (Z.le_gt_cases outputBits 64) as [Hb|Hb].
  - destruct (H3_new_ok numFunctions outputBits randSeed Hb) as (h' & E & Hok & Hn).
    rewrite E in H. injection H as <-. split; [exact Hok|exact Hn].
  - unfold H3_new, h3_shift_of in H. by rewrite !(proj2 (Z.leb_gt _ _)) in H by lia.
Qed.

(** ** Every function of a family *)

(** The sum that [hash] computes, before the folds. *)
Definition h3_value (h : H3HashFamily) (id : nat) (val : Z) : Z :=
  xsum (map (fun i => rotl (Z.land val (nth (Nat.shiftl id (6 - h3_resShift h) + i) (h3_hMatrix h) 0))
                        (h3_rot (h3_words (h3_resShift h) / 8) i))
          (seq 0 (h3_words (h3_resShift h)))).

Lemma h3_hash_value h id val :
  h3_ok h -> (id < h3_numFuncs h)%nat -> in_u64 val ->
  h3_hash h id val = Ok (h3_fold (h3_resShift h) (h3_value h id val)).
Proof.
  intros Hh Hid Hval. unfold h3_hash. apply Nat.ltb_lt in Hid as Hlt. rewrite Hlt.
  pose proof Hh as (Hsh & Hlen & _).
  assert (Nat.shiftl id (6 - h3_resShift h) = h3_words (h3_resShift h) * id)%nat as Hbase.
  { unfold h3_words. rewrite Nat.shiftl_mul_pow2.
    destruct (h3_resShift h) as [|[|[|[|]]]]; simpl; lia. }
  assert (h3_words (h3_resShift h) = 8 * (h3_words (h3_resShift h) / 8) /\
          h3_words (h3_resShift h) / 8 <= 8)%nat as [Hw Hw8].
  { unfold h3_words. destruct (h3_resShift h) as [|[|[|[|]]]]; vm_compute; lia. }
  rewrite h3_loop_sum; [|done|done| |lia|done].
  - f_equal. f_equal. unfold h3_value. rewrite <- Hw.
    rewrite rotl_zero by (apply Z.mod_pos_bound; lia). rewrite Z.lxor_0_l.
    f_equal. apply map_ext. intros i. by rewrite Nat.add_0_r.
  - rewrite Hbase, Hlen, <- Hw. nia.
Qed.

(** A function of the family returns for every value. *)
Lemma h3_loop_total h id val n : forall x r,
  (Nat.shiftl id (6 - h3_resShift h) + x + 8 * n <= length (h3_hMatrix h))%nat ->
  exists r', h3_loop h id val n x r = Ok r'.
Proof.
  induction n as [|n IH]; intros x r Hlen; cbn [h3_loop]; [eauto|].
  unfold h3_pass. rewrite !(at_nth _ _ 0) by lia. apply IH. lia.
Qed.

Lemma h3_base h id : h3_ok h -> (id < h3_numFuncs h)%nat ->
  (Nat.shiftl id (6 - h3_resShift h) + 8 * (h3_words (h3_resShift h) / 8) <= length (h3_hMatrix h))%nat.
Proof.
  intros (Hsh & Hlen & _) Hid. rewrite Hlen, Nat.shiftl_mul_pow2. unfold h3_words.
  destruct (h3_resShift h) as [|[|[|[|]]]]; [| | | |lia]; cbn -[Nat.mul]; lia.
Qed.

Lemma h3_hash_total h id val : h3_ok h -> (id < h3_numFuncs h)%nat -> exists r, h3_hash h id val = Ok r.
Proof.
  intros Hh Hid. unfold h3_hash. pose proof (h3_base h id Hh Hid) as Hb. apply Nat.ltb_lt in Hid as ->.
  destruct (h3_loop_total h id val (h3_words (h3_resShift h) / 8) 0 0) as [r ->]; [lia|]. eauto.
Qed.

Lemma land_lxor_l a b c : Z.land (Z.lxor a b) c = Z.lxor (Z.land a c) (Z.land b c).
Proof.
  apply Z.bits_inj'. intros i Hi. rewrite Z.land_spec, !Z.lxor_spec, !Z.land_spec.
  destruct (Z.testbit a i), (Z.testbit b i), (Z.testbit c i); done.
Qed.

Lemma xsum_lxor {A} (f g : A -> Z) l :
  xsum (map (fun x => Z.lxor (f x) (g x)) l) = Z.lxor (xsum (map f l)) (xsum (map g l)).
Proof.
  induction l as [|x l IH]; simpl; [done|]. rewrite IH.
  apply Z.bits_inj'. intros i Hi. rewrite !Z.lxor_spec.
  destruct (Z.testbit (f x) i), (Z.testbit (g x) i), (Z.testbit (xsum (map f l)) i),
    (Z.testbit (xsum (map g l)) i); done.
Qed.

Lemma h3_value_lxor h id a b :
  h3_ok h -> in_u64 a -> in_u64 b ->
  h3_value h id (Z.lxor a b) = Z.lxor (h3_value h id a) (h3_value h id b).
Proof.
  intros (_ & _ & Hm) Ha Hb. unfold h3_value. rewrite <- xsum_lxor. f_equal.
  apply map_ext. intros i. rewrite land_lxor_l. apply rotl_lxor; auto with banshee.
Qed.

Lemma fold_step_lxor k a b :
  0 <= k -> Z.lxor (Z.shiftr (Z.lxor a b) k) (Z.lxor a b) =
  Z.lxor (Z.lxor (Z.shiftr a k) a) (Z.lxor (Z.shiftr b k) b).
Proof.
  intros Hk. rewrite Z.shiftr_lxor. apply Z.bits_inj'. intros i Hi. rewrite !Z.lxor_spec.
  destruct (Z.testbit a i), (Z.testbit b i), (Z.testbit (Z.shiftr a k) i),
    (Z.testbit (Z.shiftr b k) i); done.
Qed.

Lemma h3_fold_lxor sh a b : h3_fold sh (Z.lxor a b) = Z.lxor (h3_fold sh a) (h3_fold sh b).
Proof.
  destruct sh as [|[|[|[|]]]]; unfold h3_fold; cbv zeta;
    rewrite ?(fold_step_lxor 32), ?(fold_step_lxor 16), ?(fold_step_lxor 8) by lia; done.
Qed.

(** The unrolled code for 64-bit outputs and the loop of the comment. *)
Lemma h3_rot_row y : (y < 64)%nat -> h3_rot 8 (h3_row_at y) = Z.of_nat (64 - y) mod 64.
Proof.
  intros Hy. assert (Forall (fun y => h3_rot 8 (h3_row_at y) = Z.of_nat (64 - y) mod 64) (seq 0 64)) as H
    by (apply (bool_decide_unpack _); vm_compute; exact I).
  rewrite Forall_forall in H. apply H, elem_of_seq. lia.
Qed.

Lemma h3_value_ref h id val :
  h3_ok h -> h3_resShift h = 0%nat -> (id < h3_numFuncs h)%nat -> in_u64 val ->
  h3_value h id val = h3_ref (h3_permuted (take 64 (drop (64 * id) (h3_hMatrix h)))) val.
Proof.
  intros (_ & Hlen & Hm) Hsh Hid Hval. unfold h3_permuted.
  assert (Forall in_u64 (take 64 (drop (64 * id) (h3_hMatrix h)))) as Hrows
    by (by apply Forall_take, Forall_drop).
  rewrite (h3_ref_sum (fun y => nth (h3_row_at y) (take 64 (drop (64 * id) (h3_hMatrix h))) 0));
    [|done|auto with banshee|lia].
  unfold h3_value. rewrite Hsh. change (h3_words 0) with 64%nat. change (64 / 8)%nat with 8%nat.
  change (6 - 0)%nat with 6%nat.
  rewrite <- (xsum_perm _ _ (Permutation_map _ h3_row_at_perm)). rewrite map_map. f_equal.
  apply map_ext_in. intros y Hy. apply in_seq in Hy. rewrite h3_rot_row by lia.
  f_equal. f_equal. rewrite !nth_lookup, lookup_take_lt, lookup_drop.
  - do 2 f_equal. rewrite Nat.shiftl_mul_pow2. simpl. lia.
  - assert (h3_row_at y ∈ map h3_row_at (seq 0 64)) as Hin by (apply list_elem_of_fmap_2, elem_of_seq; lia).
    rewrite h3_row_at_perm in Hin. apply elem_of_seq in Hin. lia.
Qed.
