(* ===== verification/HashSpec.v ===== *)
(** * What the generator and the hash families promise

    [mt_stream]: [MTRand] is MT19937.  [h3_family]: a constructed H3 family is a
    family of linear functions, and with 64-bit outputs the loop of the
    comment on a permuted matrix. *)

From stdpp Require Import base list.
From Stdlib Require Import ZArith Lia.
From S2P Require Import Prelude MtRand H3Hash.
Local Open Scope Z_scope.

(** ** The generator *)

Lemma twist_range m s0 s1 : in_u32 m -> 0 <= s0 -> 0 <= s1 -> in_u32 (twist m s0 s1).
Proof.
  intros Hm H0 H1. unfold twist. apply word_lxor; [lia|apply word_lxor; [lia|exact Hm|]|].
  - apply word_shiftr; [lia|]. unfold mixBits, hiBit, loBits.
    apply word_lor; [lia|apply word_land_r; [lia|done|lia]..].
  - unfold magic. case_match; lia.
Qed.

Lemma mt_init_words_range n i r : Forall in_u32 (mt_init_words n i r).
Proof.
  revert i r. induction n as [|n IH]; intros i r; simpl; constructor; [|apply IH].
  apply word_land_r; [lia| |lia]. pose proof (u64_range (1812433253 * Z.lxor r (Z.shiftr r 30) + Z.of_nat i)) as H.
  unfold in_u64 in H. lia.
Qed.

Lemma mt_extend_range init n : Forall in_u32 init -> Forall in_u32 (mt_extend init n).
Proof.
  intros Hi. induction n as [|n IH]; cbn [mt_extend]; [done|].
  assert (forall k, in_u32 (nth k (mt_extend init n) 0)) as H.
  { intros k. rewrite nth_lookup. destruct (mt_extend init n !! k) eqn:E; simpl; [|unfold in_u32; lia].
    rewrite Forall_lookup in IH. by eapply IH. }
  apply Forall_app. split; [done|]. constructor; [|done].
  apply twist_range; [done|apply H..].
Qed.

Lemma mt_word_range sd k : 0 <= sd -> in_u32 (mt_word sd k).
Proof.
  intros Hsd. unfold mt_word. rewrite nth_lookup.
  destruct (mt_extend (mt_init sd) k !! k) as [w|] eqn:E; simpl; [|unfold in_u32; lia].
  assert (Forall in_u32 (mt_init sd)) as Hi.
  { unfold mt_init. constructor; [|apply mt_init_words_range]. apply word_land_r; lia. }
  pose proof (mt_extend_range (mt_init sd) k Hi) as H. rewrite Forall_lookup in H. by eapply H.
Qed.

Lemma temper_range w : in_u32 w -> in_u32 (temper w).
Proof.
  intros Hw. unfold temper.
  assert (in_u32 (Z.lxor w (Z.shiftr w 11))) as H1
    by (apply word_lxor; [lia|done|by apply word_shiftr; [lia|]]).
  set (w1 := Z.lxor w _) in *.
  assert (forall v m k, in_u32 v -> 0 <= m < 2 ^ 32 ->
            in_u32 (Z.lxor v (Z.land (u64 (Z.shiftl v k)) m))) as Hs.
  { intros v m k Hv Hm. apply word_lxor; [lia|done|]. apply word_land_r; [lia| |done].
    apply (u64_range (Z.shiftl v k)). }
  assert (in_u32 (Z.lxor w1 (Z.land (u64 (Z.shiftl w1 7)) 2636928640))) as H2 by (apply Hs; [done|lia]).
  set (w2 := Z.lxor w1 _) in *.
  assert (in_u32 (Z.lxor w2 (Z.land (u64 (Z.shiftl w2 15)) 4022730752))) as H3 by (apply Hs; [done|lia]).
  set (w3 := Z.lxor w2 _) in *.
  apply word_lxor; [lia|done|]. by apply word_shiftr; [lia|].
Qed.

(** [randInt(n)] returns at most [n], whatever the number of draws; a draw that
    is small enough ends the loop. *)
Lemma randInt_loop_spec sd used n fuel : 0 <= n -> forall k s,
  mt_rep sd k s ->
  match randInt_loop fuel used n s with
  | Ok (i, s') => i <= n /\ exists k', (k < k' <= k + fuel)%nat /\ mt_rep sd k' s' /\
      i = Z.land (temper (mt_word sd (MT_N + (k' - 1)))) used
  | Err e => e = OutOfFuel /\
      forall j, (k <= j < k + fuel)%nat -> n < Z.land (temper (mt_word sd (MT_N + j))) used
  end.
Proof.
  intros Hn. induction fuel as [|fuel IH]; intros k s Hs; cbn [randInt_loop].
  - split; [done|]. lia.
  - destruct (wp_ok _ _ _ (randInt_ok sd k s Hs)) as (w & s1 & E & -> & H1).
    unfold bind. rewrite E. cbv beta iota zeta.
    destruct (Z.ltb_spec n (Z.land (temper (mt_word sd (MT_N + k))) used)).
    + specialize (IH (S k) s1 H1). destruct (randInt_loop fuel used n s1) as [[i s']|e].
      * destruct IH as (Hi & k' & Hk & Hr & Ei). split; [done|]. exists k'. split; [lia|done].
      * destruct IH as [-> Hall]. split; [done|]. intros j Hj.
        destruct (decide (j = k)) as [->|]; [lia|]. apply Hall. lia.
    + cbv [ret]. split; [lia|]. exists (S k). split; [lia|]. split; [done|].
      by replace (S k - 1)%nat with k by lia.
Qed.

(** C27: the random number generator is MT19937.  The constructor returns, and the
    numbers that successive calls of [randInt()] return are the tempered words
    of the recurrence on an unbounded sequence, in its order, each below 2^32:
    the in-place regeneration of the vector reads every word it needs before or
    after it is overwritten as the recurrence demands. *)
Theorem mt_stream (sd : Z) (n : nat) :
  0 <= sd ->
  exists s, MTRand_new sd = Ok s /\
    wp (mt_draws n)
       (fun ws _ => ws = map (fun i => temper (mt_word sd (MT_N + i))) (seq 0 n) /\
          Forall in_u32 ws) s.
Proof.
  intros Hsd. destruct (MTRand_new_ok sd) as (s & E & Hs). exists s. split; [exact E|].
  eapply wp_mono; [by apply (mt_draws_rep sd n 0)|]. intros ws s' [-> _]. split; [reflexivity|].
  apply Forall_forall. intros w Hw. apply list_elem_of_fmap in Hw as (i & -> & _).
  apply temper_range, mt_word_range. exact Hsd.
Qed.

Lemma mt_stream_witness :
  exists s, MTRand_new 5489 = Ok s /\
    wp (mt_draws 1300) (fun ws _ => length ws = 1300%nat /\ nth 1299 ws 0 = temper (mt_word 5489 (MT_N + 1299))) s.
Proof.
  destruct (mt_stream 5489 1300) as (s & E & H); [lia|].
  exists s. split; [exact E|]. eapply wp_mono; [exact H|].
  intros ws s' [-> _]. split; [rewrite length_map, length_seq; reflexivity|].
  rewrite (nth_indep _ 0 (temper (mt_word 5489 (MT_N + 0)))) by (rewrite length_map, length_seq; lia).
  rewrite (map_nth (fun i => temper (mt_word 5489 (MT_N + i)))), seq_nth by lia. reflexivity.
Defined.

Definition first_draws (sd : Z) (n : nat) : res (list Z) :=
  match MTRand_new sd with
  | Ok s => match mt_draws n s with Ok (ws, _) => Ok ws | Err e => Err e end
  | Err e => Err e
  end.
Example mt_vector : first_draws 5489 3 = Ok [3499211612; 581869302; 3890346734].
Proof. vm_compute. reflexivity. Qed.

(** ** The hash families *)

Lemma h3_new_shift n ob sd h :
  H3_new n ob sd = Ok h -> 32 < ob -> h3_resShift h = 0%nat.
Proof.
  unfold H3_new, h3_shift_of. intros H Hob.
  rewrite !(proj2 (Z.leb_gt _ _)) in H by lia.
  destruct (ob <=? 64); [|done]. destruct (MTRand_new sd) as [rnd|]; [|done].
  destruct (h3_rows (h3_words 0 * n) rnd) as [[rows r]|]; [|done]. by injection H as <-.
Qed.

(** A hash family.  The constructor of [H3HashFamily] returns for every seed
    and every width up to 64 bits; each of its functions returns on every 64-bit
    value without reading outside the matrix, and is linear: the hash of an
    exclusive or is the exclusive or of the hashes.  With more than 32 output
    bits the unrolled, hand-optimised code computes what the simple loop of its
    comment computes on the function's 64 rows in another order. *)
Theorem h3_family (numFunctions : nat) (outputBits randSeed : Z) :
  outputBits <= 64 ->
  exists h, H3_new numFunctions outputBits randSeed = Ok h /\
    forall id a b, (id < numFunctions)%nat -> in_u64 a -> in_u64 b ->
      exists ha hb, h3_hash h id a = Ok ha /\ h3_hash h id b = Ok hb /\
        h3_hash h id (Z.lxor a b) = Ok (Z.lxor ha hb) /\
        (32 < outputBits ->
         ha = h3_ref (h3_permuted (take 64 (drop (64 * id) (h3_hMatrix h)))) a).
Proof.
  intros Hob. destruct (H3_new_ok numFunctions outputBits randSeed Hob) as (h & E & Hh & Hn).
  exists h. split; [exact E|]. intros id a b Hid Ha Hb. rewrite <- Hn in Hid.
  exists (h3_fold (h3_resShift h) (h3_value h id a)), (h3_fold (h3_resShift h) (h3_value h id b)).
  rewrite !h3_hash_value by (done || (apply word_lxor; [lia|done..])).
  repeat split.
  - by rewrite h3_value_lxor, h3_fold_lxor.
  - intros H32. pose proof (h3_new_shift _ _ _ _ E H32) as Hsh.
    rewrite <- h3_value_ref by done. by rewrite Hsh.
Qed.

Lemma h3_family_witness :
  exists h, H3_new 2 64 7 = Ok h /\
    exists ha hb, h3_hash h 1 12 = Ok ha /\ h3_hash h 1 10 = Ok hb /\ h3_hash h 1 6 = Ok (Z.lxor ha hb) /\
      ha = h3_ref (h3_permuted (take 64 (drop 64 (h3_hMatrix h)))) 12.
Proof.
  destruct (h3_family 2 64 7) as (h & E & H); [lia|]. exists h. split; [exact E|].
  destruct (H 1%nat 12 10) as (ha & hb & Ha & Hb & Hx & Hr); [lia|unfold in_u64; lia..|].
  exists ha, hb. split; [exact Ha|]. split; [exact Hb|]. split; [exact Hx|]. apply Hr. lia.
Defined.

(** On the matrix as it is drawn, the loop of the comment computes other values. *)
Lemma h3_comment_differs :
  match H3_new 1 64 123132127 with
  | Ok h => match h3_hash h 0 2 with Ok r => negb (r =? h3_ref (h3_hMatrix h) 2) | _ => false end
  | _ => false
  end = true.
Proof. vm_compute. reflexivity. Qed.
