(* ===== verification/ZArray.v ===== *)
(** * Z cache arrays ([ZArray] of [src/src/cache_arrays.h] and [cache_arrays.cpp])

    Each way has its own hash function, and a line may move to the position
    that any of the functions selects for its address.  A replacement walks the
    positions breadth first to collect candidates, lets the policy choose one,
    and moves the lines on the way to it by one position each.

    [lookupArray] maps positions to line ids and [array] line ids to addresses,
    0 for an empty line.  The hash functions are an argument that may fail, so
    that the family of [H3Hash] fits. *)

From stdpp Require Import base list strings.
From Stdlib Require Import ZArith Lia.
From S2P Require Import Prelude Numeric MemHierarchy ReplPolicy.
Local Open Scope Z_scope.

(** The constant fields; [hf->hash(w, lineAddr)] is [zp_hash w lineAddr]. *)
Record ZParams := mkZP {
  zp_numLines : nat;
  zp_numSets : nat;
  zp_ways : nat;
  zp_cands : nat;
  zp_setMask : Z;
  zp_hash : nat -> Address -> res Z
}.

Record ZWalkInfo := mkZW { zw_pos : nat; zw_lineId : nat; zw_parentIdx : option nat }.

(** The mutable fields of an array and of its policy. *)
Record ZState (R : Type) := mkZ {
  z_array : list Address;
  z_lookupArray : list nat;
  z_swapArray : list nat;
  z_swapArrayLen : nat;
  z_lastCandIdx : nat;
  z_statSwaps : Z;
  z_rp : R
}.
Arguments mkZ {R} _ _ _ _ _ _ _.
Arguments z_array {R} _.
Arguments z_lookupArray {R} _.
Arguments z_swapArray {R} _.
Arguments z_swapArrayLen {R} _.
Arguments z_lastCandIdx {R} _.
Arguments z_statSwaps {R} _.
Arguments z_rp {R} _.

(** The constructor. *)
Definition ZArray_new {R} (numLines ways cands : nat) (hash : nat -> Address -> res Z) (rp : R)
    : res (ZParams * ZState R) :=
  if negb (1 <? ways)%nat then Err (AssertFail "zcaches need >=2 ways to work") else
  if negb (ways <=? cands)%nat then Err (AssertFail "candidates < ways does not make sense in a zcache") else
  if negb (numLines mod ways =? 0)%nat then Err (AssertFail "number of lines is not a multiple of ways") else
  let numSets := (numLines / ways)%nat in
  if negb (isPow2 (Z.of_nat numSets)) then Err (AssertFail "must have a power of 2 # sets") else
  Ok (mkZP numLines numSets ways cands (u32 (Z.of_nat numSets - 1)) hash,
      mkZ (replicate numLines 0) (seq 0 numLines) (replicate (cands / ways + 2) 0%nat) 0 0 0 rp).

Section Z.
Context (P : ZParams).

(** [w*numSets + (hf->hash(w, lineAddr) & setMask)] *)
Definition z_pos (w : nat) (lineAddr : Address) : res nat :=
  match zp_hash P w lineAddr with
  | Ok h => Ok (w * zp_numSets P + Z.to_nat (Z.land h (zp_setMask P)))%nat
  | Err e => Err e
  end.

(** ** [lookup] *)
Fixpoint z_find (array : list Address) (lookupArray : list nat) (lineAddr : Address) (ws : list nat)
    : res (option nat) :=
  match ws with
  | [] => Ok None
  | w :: ws' =>
      match z_pos w lineAddr with
      | Err e => Err e
      | Ok pos =>
          match at_ lookupArray pos with
          | Err e => Err e
          | Ok lineId =>
              match at_ array lineId with
              | Err e => Err e
              | Ok a => if a =? lineAddr then Ok (Some lineId)
                        else z_find array lookupArray lineAddr ws'
              end
          end
      end
  end.

(** ** The walk of [preinsert] *)

(** The local variables [candidates], [numCandidates] and [all_valid]. *)
Record Walk := mkWalk { wk_cands : list ZWalkInfo; wk_num : nat; wk_valid : bool }.

Definition wk_set (i : nat) (e : ZWalkInfo) : M Walk unit :=
  s <- get ;;
  l <- lift (set_at (wk_cands s) i e) ;;
  modify (fun s => mkWalk l (wk_num s) (wk_valid s)).
Definition wk_and_valid (a : Address) : M Walk unit :=
  modify (fun s => mkWalk (wk_cands s) (wk_num s) (wk_valid s && negb (a =? 0))).
Definition wk_add (n : nat) : M Walk unit :=
  modify (fun s => mkWalk (wk_cands s) (wk_num s + n) (wk_valid s)).

Section Walk.
Context (array : list Address) (lookupArray : list nat).

Definition z_seed (lineAddr : Address) (w : nat) : M Walk unit :=
  pos <- lift (z_pos w lineAddr) ;;
  lineId <- lift (at_ lookupArray pos) ;;
  wk_set w (mkZW pos lineId None) ;;
  a <- lift (at_ array lineId) ;;
  wk_and_valid a.

(** The slot written last is kept only if its line is not the fringe line. *)
Definition z_child (fringeStart fringeId : nat) (fringeAddr : Address) (w : nat) : M Walk unit :=
  pos <- lift (z_pos w fringeAddr) ;;
  lineId <- lift (at_ lookupArray pos) ;;
  num <- gets wk_num ;;
  wk_set num (mkZW pos lineId (Some fringeStart)) ;;
  a <- lift (at_ array lineId) ;;
  wk_and_valid a ;;
  wk_add (if (lineId =? fringeId)%nat then 0 else 1).

Definition z_expand (fringeStart : nat) : M Walk unit :=
  s <- get ;;
  f <- lift (at_ (wk_cands s) fringeStart) ;;
  fringeAddr <- lift (at_ array (zw_lineId f)) ;;
  assert_ "cache_arrays.cpp: fringeAddr" (negb (fringeAddr =? 0)) ;;
  forM (seq 0 (zp_ways P)) (z_child fringeStart (zw_lineId f) fringeAddr).

(** [while (numCandidates < cands && all_valid)] *)
Fixpoint z_bfs (fuel fringeStart : nat) : M Walk unit :=
  s <- get ;;
  if ((wk_num s <? zp_cands P)%nat && wk_valid s)%bool then
    match fuel with
    | O => fail OutOfFuel
    | S fuel' => z_expand fringeStart ;; z_bfs fuel' (S fringeStart)
    end
  else ret tt.

Definition z_walk (lineAddr : Address) : M Walk unit :=
  forM (seq 0 (zp_ways P)) (z_seed lineAddr) ;;
  z_bfs (zp_cands P) 0 ;;
  s <- get ;;
  assert_ "cache_arrays.cpp: !all_valid || numCandidates >= cands"
    (negb (wk_valid s) || (zp_cands P <=? wk_num s)%nat) ;;
  modify (fun s => mkWalk (wk_cands s) (Nat.min (wk_num s) (zp_cands P)) (wk_valid s)).
End Walk.

(** [numCandidates] counts the seeds from the start.  The array of candidates is
    not initialised; its contents do not matter. *)
Definition walk_init : Walk :=
  mkWalk (replicate (zp_cands P + zp_ways P) (mkZW 0 0 None)) (zp_ways P) true.

(** [while (idx >= 0) { swapArray\[swapIdx++\] = candidates\[idx\].pos; idx = parentIdx; }] *)
Fixpoint z_swaps (fuel : nat) (cands : list ZWalkInfo) (idx : option nat) (swap : list nat) (swapIdx : nat)
    : res (list nat * nat) :=
  match idx with
  | None => Ok (swap, swapIdx)
  | Some i =>
      match fuel with
      | O => Err OutOfFuel
      | S fuel' =>
          match at_ cands i with
          | Err e => Err e
          | Ok c =>
              match set_at swap swapIdx (zw_pos c) with
              | Err e => Err e
              | Ok swap' => z_swaps fuel' cands (zw_parentIdx c) swap' (S swapIdx)
              end
          end
      end
  end.

Section Ops.
Context {R : Type} `{ReplPolicy R}.

Definition z_with_rp {A} (m : M R A) : M (ZState R) A :=
  zoom z_rp (fun r s => mkZ (z_array s) (z_lookupArray s) (z_swapArray s) (z_swapArrayLen s)
                          (z_lastCandIdx s) (z_statSwaps s) r) m.

Definition z_lookup (lineAddr : Address) (updateReplacement hit_in_dc : bool)
    : M (ZState R) (option nat) :=
  if lineAddr =? 0 then fail (Panic "ZArray::lookup called with lineAddr==0") else
  s <- get ;;
  o <- lift (z_find (z_array s) (z_lookupArray s) lineAddr (seq 0 (zp_ways P))) ;;
  match o with
  | None => ret None
  | Some id => when updateReplacement (z_with_rp (rp_update id hit_in_dc)) ;; ret (Some id)
  end.

(** [preinsert(lineAddr, req, &wbLineAddr, dynamic_repl)].  When no candidate
    matches, [minIdx] is -1 and the loop over the parents does not run. *)
Definition z_preinsert (v : CCView) (lineAddr : Address) (dynamic_repl : bool)
    : M (ZState R) (nat * Address) :=
  s <- get ;;
  walk <- lift (match z_walk (z_array s) (z_lookupArray s) lineAddr walk_init with
                | Ok (_, w) => Ok w
                | Err e => Err e
                end) ;;
  let cands := take (wk_num walk) (wk_cands walk) in
  best <- z_with_rp (rp_rankCands v (map zw_lineId cands) dynamic_repl) ;;
  assert_ "cache_arrays.cpp: bestCandidate < numLines" (best <? zp_numLines P)%nat ;;
  let minIdx := find_idx (fun c => (zw_lineId c =? best)%nat) cands in
  let! (swap, len) := lift (z_swaps (S minIdx) (wk_cands walk)
                        (if (minIdx <? length cands)%nat then Some minIdx else None) (z_swapArray s) 0) in
  modify (fun s => mkZ (z_array s) (z_lookupArray s) swap len minIdx (z_statSwaps s) (z_rp s)) ;;
  assert_ "cache_arrays.cpp: swapArrayLen > 0" (0 <? len)%nat ;;
  wb <- lift (at_ (z_array s) best) ;;
  ret (best, wb).

Definition z_set_lookup (l : list nat) : M (ZState R) unit :=
  modify (fun s => mkZ (z_array s) l (z_swapArray s) (z_swapArrayLen s) (z_lastCandIdx s)
                     (z_statSwaps s) (z_rp s)).

(** [lookupArray\[swapArray\[i\]\] = lookupArray\[swapArray\[i+1\]\]] *)
Definition z_move (i : nat) : M (ZState R) unit :=
  s <- get ;;
  p <- lift (at_ (z_swapArray s) i) ;;
  q <- lift (at_ (z_swapArray s) (i + 1)) ;;
  id <- lift (at_ (z_lookupArray s) q) ;;
  l <- lift (set_at (z_lookupArray s) p id) ;;
  z_set_lookup l.

(** [postinsert(lineAddr, req, candidate, hit_in_dc)] *)
Definition z_postinsert (lineAddr : Address) (candidate : nat) (hit_in_dc : bool)
    : M (ZState R) unit :=
  s <- get ;;
  p0 <- lift (at_ (z_swapArray s) 0) ;;
  id0 <- lift (at_ (z_lookupArray s) p0) ;;
  assert_ "cache_arrays.cpp: lookupArray[swapArray[0]] == candidate" (id0 =? candidate)%nat ;;
  forM (seq 0 (z_swapArrayLen s - 1)) z_move ;;
  s <- get ;;
  p <- lift (at_ (z_swapArray s) (z_swapArrayLen s - 1)) ;;
  l <- lift (set_at (z_lookupArray s) p candidate) ;;
  z_set_lookup l ;;
  z_with_rp (rp_replaced candidate) ;;
  s <- get ;;
  a <- lift (set_at (z_array s) candidate lineAddr) ;;
  modify (fun s => mkZ a (z_lookupArray s) (z_swapArray s) (z_swapArrayLen s) (z_lastCandIdx s)
                     (z_statSwaps s) (z_rp s)) ;;
  z_with_rp (rp_update candidate hit_in_dc) ;;
  modify (fun s => mkZ (z_array s) (z_lookupArray s) (z_swapArray s) (z_swapArrayLen s)
                     (z_lastCandIdx s) (u64 (z_statSwaps s + Z.of_nat (z_swapArrayLen s) - 1)) (z_rp s)).
End Ops.
End Z.
