(* ===== verification/ZArrayProofs.v ===== *)
(** * The invariant of a Z cache array and the walk of a replacement

    [z_inv]: the positions are a permutation of the lines and every line is at a
    position that one of the hash functions selects for its address.
    [z_walk_ok]: the walk collects at least one candidate and at most [cands],
    with the facts about parents from which [ZArraySpec] concludes that the
    moves of a replacement follow a path without repetition. *)

From stdpp Require Import base list strings.
From Stdlib Require Import ZArith Lia.
From S2P Require Import Prelude Numeric MemHierarchy ReplPolicy CacheArray ZArray.
Local Open Scope Z_scope.

Lemma count_if_snoc {A} (p : A -> bool) l x :
  count_if p (l ++ [x]) = (count_if p l + (if p x then 1 else 0))%nat.
Proof. induction l as [|y l IH]; simpl; [lia|]. rewrite IH. lia. Qed.

(** What the constructor establishes, and a hash function per way. *)
Record zparams_ok (P : ZParams) : Prop := {
  zo_ways : (2 <= zp_ways P)%nat;
  zo_cands : (zp_ways P <= zp_cands P)%nat;
  zo_lines : zp_numLines P = (zp_ways P * zp_numSets P)%nat;
  zo_sets : exists k, Z.of_nat (zp_numSets P) = 2 ^ k /\ 0 <= k;
  zo_mask : zp_setMask P = Z.of_nat (zp_numSets P) - 1;
  zo_hash : forall w a, (w < zp_ways P)%nat -> exists h, zp_hash P w a = Ok h
}.

Section Inv.
Context (P : ZParams) (HP : zparams_ok P).

(** [p] is a position that some function selects for [a]. *)
Definition z_posOf (a : Address) (p : nat) : Prop := exists w, (w < zp_ways P)%nat /\ z_pos P w a = Ok p.

Record z_inv (array : list Address) (lookupArray : list nat) : Prop := {
  zi_array : length array = zp_numLines P;
  zi_lookup : length lookupArray = zp_numLines P;
  zi_nodup : NoDup lookupArray;
  zi_range : forall p id, lookupArray !! p = Some id -> (id < zp_numLines P)%nat;
  zi_placed : forall p id a, lookupArray !! p = Some id -> array !! id = Some a -> a <> 0 -> z_posOf a p;
  zi_distinct : forall i j a, array !! i = Some a -> array !! j = Some a -> a <> 0 -> i = j
}.

Lemma z_pos_ok w a :
  (w < zp_ways P)%nat ->
  exists p, z_pos P w a = Ok p /\ (w * zp_numSets P <= p < S w * zp_numSets P)%nat /\
    (p < zp_numLines P)%nat.
Proof.
  intros Hw. destruct (zo_hash P HP w a Hw) as [h Hh]. destruct (zo_sets P HP) as (k & Hk & Hk0).
  unfold z_pos. rewrite Hh. eexists. split; [done|].
  assert (0 <= Z.land h (zp_setMask P) < Z.of_nat (zp_numSets P)) as Hb.
  { rewrite (zo_mask P HP), Hk. replace (2 ^ k - 1) with (Z.ones k) by (rewrite Z.ones_equiv; lia).
    rewrite Z.land_ones by lia. apply Z.mod_pos_bound. lia. }
  rewrite (zo_lines P HP). nia.
Qed.

(** Different ways select different positions. *)
Lemma z_pos_inj w w' a a' p : (w < zp_ways P)%nat -> (w' < zp_ways P)%nat ->
  z_pos P w a = Ok p -> z_pos P w' a' = Ok p -> w = w'.
Proof.
  intros Hw Hw' H H'.
  destruct (z_pos_ok w a Hw) as (q & Hq & Hr & _). destruct (z_pos_ok w' a' Hw') as (q' & Hq' & Hr' & _).
  rewrite H in Hq. rewrite H' in Hq'. simplify_eq. nia.
Qed.

Section Arrays.
Context (array : list Address) (lookupArray : list nat) (HI : z_inv array lookupArray).

Lemma z_line_at p : (p < zp_numLines P)%nat ->
  exists id a, lookupArray !! p = Some id /\ array !! id = Some a /\ (id < zp_numLines P)%nat.
Proof.
  intros Hp. destruct (lookup_lt_is_Some_2 lookupArray p) as [id Hid]; [by rewrite (zi_lookup _ _ HI)|].
  pose proof (zi_range _ _ HI _ _ Hid) as Hlt.
  destruct (lookup_lt_is_Some_2 array id) as [a Ha]; [by rewrite (zi_array _ _ HI)|]. eauto.
Qed.

(** Every line has a position. *)
Lemma z_line_pos id : (id < zp_numLines P)%nat -> exists p, lookupArray !! p = Some id.
Proof.
  intros Hid.
  assert (lookupArray ≡ₚ seq 0 (zp_numLines P)) as Hperm.
  { apply submseteq_length_Permutation.
    - apply NoDup_submseteq; [apply (zi_nodup _ _ HI)|]. intros x Hx.
      apply list_elem_of_lookup in Hx as [p Hp]. apply (zi_range _ _ HI) in Hp. apply elem_of_seq. lia.
    - rewrite length_seq, (zi_lookup _ _ HI). done. }
  apply list_elem_of_lookup. rewrite Hperm. apply elem_of_seq. lia.
Qed.

(** [lookup] finds exactly the line that holds an address. *)
Lemma z_find_spec a ws : (forall w, w ∈ ws -> (w < zp_ways P)%nat) ->
  exists o, z_find P array lookupArray a ws = Ok o /\
    match o with
    | Some id => array !! id = Some a
    | None => forall w p id, w ∈ ws -> z_pos P w a = Ok p -> lookupArray !! p = Some id ->
        array !! id <> Some a
    end.
Proof.
  induction ws as [|w ws IH]; intros Hws; simpl.
  { exists None. split; [done|]. intros w p id Hw. by apply not_elem_of_nil in Hw. }
  destruct (z_pos_ok w a) as (p & Ep & _ & Hp); [apply Hws; by left|]. rewrite Ep.
  destruct (z_line_at p Hp) as (id & x & Hl & Hx & _). rewrite (at_ok _ _ _ Hl), (at_ok _ _ _ Hx).
  destruct (Z.eqb_spec x a) as [->|Hne]; [by exists (Some id)|].
  destruct IH as (o & Ho & Hspec); [intros; apply Hws; by right|]. exists o. split; [done|].
  destruct o as [i|]; [done|]. intros w' p' id' Hw' Hp' Hl'.
  apply elem_of_cons in Hw' as [->|Hw']; [|by eapply Hspec].
  congruence.
Qed.

Lemma z_find_iff a id : a <> 0 ->
  z_find P array lookupArray a (seq 0 (zp_ways P)) = Ok (Some id) <-> array !! id = Some a.
Proof.
  intros Ha. destruct (z_find_spec a (seq 0 (zp_ways P))) as (o & Ho & Hspec).
  { intros w Hw. apply elem_of_seq in Hw. lia. }
  rewrite Ho. destruct o as [i|].
  - split; [by intros [= <-]|]. intros Hid. do 2 f_equal. by eapply (zi_distinct _ _ HI).
  - split; [done|]. intros Hid. exfalso.
    destruct (z_line_pos id) as [p Hp]; [rewrite <- (zi_array _ _ HI); by eapply lookup_lt_Some|].
    destruct (zi_placed _ _ HI p id a Hp Hid Ha) as (w & Hw & Hpos).
    eapply Hspec; [|exact Hpos|exact Hp|exact Hid]. apply elem_of_seq. lia.
Qed.

Lemma z_find_none a : a <> 0 ->
  z_find P array lookupArray a (seq 0 (zp_ways P)) = Ok None <-> forall id, array !! id <> Some a.
Proof.
  intros Ha. destruct (z_find_spec a (seq 0 (zp_ways P))) as (o & Ho & Hspec).
  { intros w Hw. apply elem_of_seq in Hw. lia. }
  split.
  - intros Hn id Hid. apply z_find_iff in Hid; [|done]. congruence.
  - intros Hn. rewrite Ho. destruct o as [i|]; [|done]. by destruct (Hn i).
Qed.

(** ** The walk *)
Section Walk.
Context (lineAddr : Address).

(** [C] lists the candidates kept so far. *)
Definition seen (C : list ZWalkInfo) (i id : nat) : Prop :=
  exists j c, (j < i)%nat /\ C !! j = Some c /\ zw_lineId c = id.

(** The candidate [c] at index [i]: where it is, why it was added, and that its
    line was seen before if its parent's line was. *)
Definition cand_ok (C : list ZWalkInfo) (i : nat) (c : ZWalkInfo) : Prop :=
  lookupArray !! zw_pos c = Some (zw_lineId c) /\
  match zw_parentIdx c with
  | None => z_posOf lineAddr (zw_pos c)
  | Some f =>
      (f + zp_ways P <= i)%nat /\
      exists cf af, C !! f = Some cf /\ array !! zw_lineId cf = Some af /\ af <> 0 /\
        z_posOf af (zw_pos c) /\ (seen C f (zw_lineId cf) -> seen C i (zw_lineId c))
  end.

Definition cands_ok (C : list ZWalkInfo) : Prop := forall i c, C !! i = Some c -> cand_ok C i c.

Definition all_used (C : list ZWalkInfo) : Prop :=
  forall i c, C !! i = Some c -> array !! zw_lineId c <> Some 0.

(** The lines at the positions of the first [f] candidates' addresses are
    candidates too. *)
Definition expanded (f : nat) (C : list ZWalkInfo) : Prop :=
  forall j cj a p id, (j < f)%nat -> C !! j = Some cj -> array !! zw_lineId cj = Some a ->
    z_posOf a p -> lookupArray !! p = Some id -> id <> zw_lineId cj -> seen C (length C) id.

(** The local variables hold [C]. *)
Definition holds (C : list ZWalkInfo) (s : Walk) : Prop :=
  length (wk_cands s) = (zp_cands P + zp_ways P)%nat /\ wk_num s = length C /\
  take (wk_num s) (wk_cands s) = C /\ (wk_valid s = true -> all_used C).

Lemma seen_mono C e i id : (i <= length C)%nat -> seen C i id -> seen (C ++ [e]) i id.
Proof. intros Hi (j & c & Hj & Hc & E). exists j, c. split; [done|]. by rewrite lookup_app_l by lia. Qed.

Lemma seen_weaken C i i' id : (i <= i')%nat -> seen C i id -> seen C i' id.
Proof. intros Hi (j & c & Hj & Hc). exists j, c. split; [lia|done]. Qed.

Lemma seen_last C e id : zw_lineId e = id -> seen (C ++ [e]) (length (C ++ [e])) id.
Proof.
  intros E. exists (length C), e. rewrite length_app. simpl. split; [lia|]. split; [|done].
  by rewrite list_lookup_middle.
Qed.

Lemma seen_grow C e id : seen C (length C) id -> seen (C ++ [e]) (length (C ++ [e])) id.
Proof. intros H. rewrite length_app. eapply seen_weaken; [|by apply seen_mono]. simpl. lia. Qed.

Lemma cand_ok_mono C e i c : (i < length C)%nat -> cand_ok C i c -> cand_ok (C ++ [e]) i c.
Proof.
  intros Hi [Hl Hc]. split; [done|]. destruct (zw_parentIdx c) as [f|]; [|done].
  destruct Hc as (Hf & cf & af & Hcf & Ha & Hne & Hp & Hs). split; [done|]. exists cf, af.
  split; [by rewrite lookup_app_l by (by eapply lookup_lt_Some)|]. split_and!; try done.
  intros (j & d & Hj & Hd & E). apply seen_mono; [lia|]. apply Hs. exists j, d.
  split; [done|]. by rewrite lookup_app_l in Hd by (apply lookup_lt_Some in Hcf; lia).
Qed.

Lemma cands_ok_snoc C e : cands_ok C -> cand_ok (C ++ [e]) (length C) e -> cands_ok (C ++ [e]).
Proof.
  intros HC He i c Hi. apply lookup_app_Some in Hi as [Hi|[Hle Hi]].
  - apply cand_ok_mono; [by eapply lookup_lt_Some|auto].
  - destruct (i - length C)%nat as [|n] eqn:E; [|by destruct n]. simpl in Hi. simplify_eq.
    by replace i with (length C) by lia.
Qed.

Lemma all_used_snoc C e a :
  all_used C -> array !! zw_lineId e = Some a -> a <> 0 -> all_used (C ++ [e]).
Proof.
  intros HC He Ha i c Hi. apply lookup_app_Some in Hi as [Hi|[Hle Hi]]; [by eapply HC|].
  apply list_lookup_singleton_Some in Hi as [_ <-]. congruence.
Qed.

(** A write to the slot [k] behind the candidates [C]. *)
Lemma write_slot C s e k :
  length (wk_cands s) = (zp_cands P + zp_ways P)%nat -> k = length C ->
  take k (wk_cands s) = C -> (k < zp_cands P + zp_ways P)%nat ->
  wp (wk_set k e)
    (fun _ s' => length (wk_cands s') = (zp_cands P + zp_ways P)%nat /\ wk_num s' = wk_num s /\
       wk_valid s' = wk_valid s /\ take (S k) (wk_cands s') = C ++ [e]) s.
Proof.
  intros Hl -> Ht Hlt. unfold wk_set. wp_step. wp_step. wp_step.
  eapply wp_lift; [apply set_at_ok; lia|]. wp_step. cbn [wk_cands wk_num wk_valid].
  rewrite length_insert. split_and!; try done.
  rewrite (take_S_r _ _ e); [|apply list_lookup_insert_eq; lia].
  by rewrite take_insert_ge, Ht by lia.
Qed.

(** [all_valid] after a candidate with the address [a]. *)
Lemma valid_snoc C e a b :
  (b = true -> all_used C) -> array !! zw_lineId e = Some a ->
  b && negb (a =? 0) = true -> all_used (C ++ [e]).
Proof.
  intros HC He Hb. apply andb_true_iff in Hb as [Hb Ha]. apply negb_true_iff, Z.eqb_neq in Ha.
  eapply all_used_snoc; [by apply HC|done|done].
Qed.

Definition seeded (k : nat) (s : Walk) : Prop :=
  exists C, length C = k /\ length (wk_cands s) = (zp_cands P + zp_ways P)%nat /\
    wk_num s = zp_ways P /\ take k (wk_cands s) = C /\ cands_ok C /\ (wk_valid s = true -> all_used C).

Lemma z_seed_ok w s : (w < zp_ways P)%nat -> seeded w s ->
  wp (z_seed P array lookupArray lineAddr w) (fun _ s' => seeded (S w) s') s.
Proof.
  intros Hw (C & HC & Hl & Hn & Ht & Hok & Hv). unfold z_seed.
  destruct (z_pos_ok w lineAddr Hw) as (p & Ep & _ & Hp).
  destruct (z_line_at p Hp) as (id & a & Hid & Ha & _).
  wp_step. eapply wp_lift; [exact Ep|]. wp_step. eapply wp_lift; [by apply at_ok|].
  wp_step. eapply wp_mono; [apply (write_slot C); [done|done|done|lia]|].
  intros [] s1 (Hl1 & Hn1 & Hv1 & Ht1). wp_step. eapply wp_lift; [by apply at_ok|].
  unfold wk_and_valid. wp_step. exists (C ++ [mkZW p id None]). cbn [wk_cands wk_num wk_valid].
  rewrite length_app, HC, Hv1. simpl. split_and!; [lia|done|congruence|done| |].
  - apply cands_ok_snoc; [done|]. split; [done|]. simpl. by exists w.
  - by apply valid_snoc.
Qed.

Lemma z_seeds_ok :
  wp (forM (seq 0 (zp_ways P)) (z_seed P array lookupArray lineAddr))
    (fun _ s => seeded (zp_ways P) s) (walk_init P).
Proof.
  apply (wp_forM _ _ (fun pre s => seeded (length pre) s)).
  - exists []. unfold walk_init. simpl. rewrite length_replicate. split_and!; done.
  - intros pre w post s Hs HI'. rewrite length_app, Nat.add_1_r.
    assert (seq 0 (zp_ways P) !! length pre = Some w) as Hw by (rewrite Hs; by apply list_lookup_middle).
    apply lookup_seq in Hw as [-> Hw]. by apply z_seed_ok.
  - intros s. by rewrite length_seq.
Qed.

(** ** The expansion of one candidate *)
Section Expand.
Context (fid : nat) (fa : Address).

(** The way [w] leads to another line. *)
Definition keeps_way (w : nat) : bool :=
  match z_pos P w fa with
  | Ok p => match lookupArray !! p with Some id => negb (id =? fid)%nat | None => false end
  | Err _ => false
  end.

(** Two ways select different positions, so that one of them holds another
    line. *)
Lemma some_way_kept : (1 <= count_if keeps_way (seq 0 (zp_ways P)) <= zp_ways P)%nat.
Proof.
  pose proof (zo_ways P HP) as H2. split.
  - destruct (z_pos_ok 0 fa) as (p0 & E0 & _ & Hp0); [lia|].
    destruct (z_pos_ok 1 fa) as (p1 & E1 & _ & Hp1); [lia|].
    destruct (z_line_at p0 Hp0) as (id0 & a0 & Hid0 & _). destruct (z_line_at p1 Hp1) as (id1 & a1 & Hid1 & _).
    destruct (decide (id0 = fid)) as [->|Hn0].
    + apply (count_if_pos keeps_way _ 1%nat); [apply elem_of_seq; lia|].
      unfold keeps_way. rewrite E1, Hid1. apply negb_true_iff, Nat.eqb_neq. intros ->.
      assert (p0 = p1) as <- by (by eapply (NoDup_lookup lookupArray); [apply (zi_nodup _ _ HI)|..]).
      assert (0 = 1)%nat by (eapply z_pos_inj; [| |exact E0|exact E1]; lia). done.
    + apply (count_if_pos keeps_way _ 0%nat); [apply elem_of_seq; lia|].
      unfold keeps_way. rewrite E0, Hid0. by apply negb_true_iff, Nat.eqb_neq.
  - pose proof (count_if_le keeps_way (seq 0 (zp_ways P))) as H. by rewrite length_seq in H.
Qed.
Context (C0 : list ZWalkInfo) (f : nat) (cf : ZWalkInfo).
Context (Hf : C0 !! f = Some cf) (Hfid : zw_lineId cf = fid) (Hfa : array !! fid = Some fa) (Hne : fa <> 0).
Context (Hlen : (length C0 < zp_cands P)%nat) (Hways : (f + zp_ways P <= length C0)%nat).
Context (Hexp : expanded f C0).

Definition growing (ws : list nat) (s : Walk) : Prop :=
  exists N, holds (C0 ++ N) s /\ cands_ok (C0 ++ N) /\ length N = count_if keeps_way ws /\
    forall w p id, w ∈ ws -> z_pos P w fa = Ok p -> lookupArray !! p = Some id -> id <> fid ->
      seen (C0 ++ N) (length (C0 ++ N)) id.

Lemma child_cand_ok N p w :
  (w < zp_ways P)%nat -> z_pos P w fa = Ok p -> forall id, lookupArray !! p = Some id -> id <> fid ->
  cand_ok ((C0 ++ N) ++ [mkZW p id (Some f)]) (length (C0 ++ N)) (mkZW p id (Some f)).
Proof.
  intros Hw Hp id Hid Hidne. split; [done|]. simpl. rewrite length_app. split; [lia|].
  pose proof (lookup_lt_Some _ _ _ Hf) as Hflt. exists cf, fa.
  split; [rewrite lookup_app_l, lookup_app_l by (rewrite ?length_app; lia); done|].
  rewrite Hfid. split_and!; [done|done|by exists w|].
  intros (j & d & Hj & Hd & E). rewrite lookup_app_l, lookup_app_l in Hd by (rewrite ?length_app; lia).
  assert (seen C0 (length C0) id) as (i & c & Hi & Hc & Ei).
  { eapply (Hexp j d fa p id); [done|done|by rewrite E|by exists w|done|by rewrite E]. }
  exists i, c. split; [lia|]. split; [|done].
  rewrite lookup_app_l, lookup_app_l by (rewrite ?length_app; lia). done.
Qed.

Lemma z_child_ok ws w s :
  (w < zp_ways P)%nat -> (length ws < zp_ways P)%nat -> growing ws s ->
  wp (z_child P array lookupArray f fid fa w) (fun _ s' => growing (ws ++ [w]) s') s.
Proof.
  intros Hw Hws (N & (Hl & Hn & Ht & Hv) & Hok & HN & Hseen). unfold z_child.
  destruct (z_pos_ok w fa Hw) as (p & Ep & _ & Hp).
  destruct (z_line_at p Hp) as (id & a & Hid & Ha & _).
  assert (keeps_way w = negb (id =? fid)%nat) as Hk by (unfold keeps_way; by rewrite Ep, Hid).
  pose proof (count_if_le keeps_way ws) as Hcle.
  wp_step. eapply wp_lift; [exact Ep|]. wp_step. eapply wp_lift; [by apply at_ok|].
  wp_step. wp_step. wp_step.
  eapply wp_mono; [apply (write_slot (C0 ++ N)); [done|done|done|]|].
  { rewrite Hn, length_app. lia. }
  intros [] s1 (Hl1 & Hn1 & Hv1 & Ht1). wp_step. eapply wp_lift; [by apply at_ok|].
  unfold wk_and_valid, wk_add. wp_step. wp_step. wp_step.
  unfold growing, holds. cbn [wk_cands wk_num wk_valid]. rewrite Hv1.
  destruct (Nat.eqb_spec id fid) as [->|Hidne].
  - exists N. rewrite Nat.add_0_r, Hn1. split_and!; [done|done| | |done| |].
    + assert (take (wk_num s) (take (S (wk_num s)) (wk_cands s1)) = C0 ++ N) as E.
      { rewrite Ht1, take_app_le by lia. by rewrite Hn, firstn_all. }
      by rewrite take_take, Nat.min_l in E by lia.
    + intros Hb. apply andb_true_iff in Hb as [Hb _]. auto.
    + rewrite HN, count_if_snoc, Hk. simpl. lia.
    + intros w' p' id' Hw'. apply elem_of_app in Hw' as [Hw'|Hw']; [by apply Hseen|].
      apply list_elem_of_singleton in Hw' as ->. intros. congruence.
  - exists (N ++ [mkZW p id (Some f)]). rewrite app_assoc. split_and!.
    + done.
    + rewrite Hn1, Hn, (length_app (C0 ++ N)). done.
    + rewrite Hn1, Nat.add_1_r. done.
    + intros Hb. eapply valid_snoc; [exact Hv|exact Ha|exact Hb].
    + apply cands_ok_snoc; [done|]. by apply (child_cand_ok N p w).
    + rewrite length_app, HN, count_if_snoc, Hk. done.
    + intros w' p' id' Hw'. apply elem_of_app in Hw' as [Hw'|Hw'].
      * intros. apply seen_grow. by eapply Hseen.
      * apply list_elem_of_singleton in Hw' as ->. intros H1 H2 _. apply seen_last. simpl. congruence.
Qed.

End Expand.

Lemma z_expand_ok C f s :
  holds C s -> cands_ok C -> expanded f C -> (length C < zp_cands P)%nat ->
  (f + zp_ways P <= length C)%nat -> wk_valid s = true ->
  wp (z_expand P array lookupArray f)
    (fun _ s' => exists C', holds C' s' /\ cands_ok C' /\ expanded (S f) C' /\
       (length C < length C')%nat /\ (length C' <= length C + zp_ways P)%nat) s.
Proof.
  intros HC Hok Hexp Hlen Hways Hval. pose proof (zo_ways P HP) as H2.
  destruct (lookup_lt_is_Some_2 C f) as [cf Hf]; [lia|].
  destruct (Hok f cf Hf) as [Hlk _].
  assert (exists fa, array !! zw_lineId cf = Some fa) as [fa Hfa].
  { apply lookup_lt_is_Some_2. rewrite (zi_array _ _ HI). by eapply (zi_range _ _ HI). }
  assert (fa <> 0) as Hne.
  { intros ->. destruct HC as (_ & _ & _ & Hv). by eapply (Hv Hval). }
  unfold z_expand. wp_step. wp_step. wp_step. eapply wp_lift.
  { apply at_ok. destruct HC as (_ & Hn & Ht & _). rewrite <- Hf, <- Ht.
    symmetry. apply lookup_take_lt. lia. }
  wp_step. eapply wp_lift; [by apply at_ok|].
  wp_step. wp_step; [by apply negb_true_iff, Z.eqb_neq|].
  apply (wp_forM _ _ (growing (zw_lineId cf) fa C)).
  - exists []. rewrite app_nil_r. split_and!; try done. intros w p id Hw. by apply not_elem_of_nil in Hw.
  - intros pre w post s' Hs Hg.
    assert (seq 0 (zp_ways P) !! length pre = Some w) as Hw by (rewrite Hs; by apply list_lookup_middle).
    apply lookup_seq in Hw as [-> Hw]. by eapply (z_child_ok _ fa C f cf).
  - intros s' (N & Hh & Hok' & HN & Hseen). exists (C ++ N).
    destruct (some_way_kept (zw_lineId cf) fa) as [Hk1 Hk2]. rewrite length_app.
    split_and!; [done|done| |lia|lia].
    intros j cj a p id Hj Hc Ha Hp Hl Hidne. destruct (decide (j = f)) as [->|Hjf].
    + rewrite lookup_app_l in Hc by lia. simplify_eq. destruct Hp as (w & Hw & Ep).
      eapply Hseen; [|exact Ep|exact Hl|exact Hidne]. apply elem_of_seq. lia.
    + rewrite lookup_app_l in Hc by lia.
      assert (seen C (length C) id) as (i & c & Hi & Hci & E) by (eapply (Hexp j); eauto with lia).
      exists i, c. rewrite length_app. split; [lia|]. by rewrite lookup_app_l by lia.
Qed.

Lemma z_bfs_ok fuel : forall C f s,
  holds C s -> cands_ok C -> expanded f C -> (f + zp_ways P <= length C)%nat ->
  (length C <= zp_cands P + zp_ways P)%nat -> (zp_cands P <= length C + fuel)%nat ->
  wp (z_bfs P array lookupArray fuel f)
    (fun _ s' => exists C', holds C' s' /\ cands_ok C' /\ (zp_ways P <= length C')%nat /\
       (wk_valid s' = true -> (zp_cands P <= length C')%nat)) s.
Proof.
  induction fuel as [|fuel IH]; intros C f s HC Hok Hexp Hf Hle Hfuel;
    (cbn [z_bfs]; wp_step; wp_step; pose proof HC as (_ & Hn & _ & _);
     destruct ((wk_num s <? zp_cands P)%nat && wk_valid s)%bool eqn:E;
     [apply andb_true_iff in E as [E1 E2]; apply Nat.ltb_lt in E1
     |wp_step; exists C; split_and!; [done|done|lia|intros Hv; rewrite Hv, andb_true_r in E;
        apply Nat.ltb_ge in E; lia]]).
  - lia.
  - wp_step. eapply wp_mono; [apply (z_expand_ok C); [done..|lia|done|done]|].
    intros [] s' (C' & HC' & Hok' & Hexp' & Hlt & Hub). apply (IH C'); try done; lia.
Qed.

(** The walk returns at least the seeds, and at most [cands] candidates. *)
Lemma z_walk_ok :
  wp (z_walk P array lookupArray lineAddr)
    (fun _ s => exists C, take (wk_num s) (wk_cands s) = C /\ cands_ok C /\ C <> [] /\
       (length C <= zp_cands P)%nat) (walk_init P).
Proof.
  pose proof (zo_ways P HP) as H2. pose proof (zo_cands P HP) as Hc. unfold z_walk. wp_step.
  eapply wp_mono; [apply z_seeds_ok|]. intros [] s (C & HC & Hl & Hn & Ht & Hok & Hv). wp_step.
  eapply wp_mono.
  { apply (z_bfs_ok _ C 0); [|done| |lia|lia|lia].
    - split_and!; [done|congruence|by rewrite Hn|done].
    - intros j cj a p id Hj. lia. }
  intros [] s1 (C1 & (Hl1 & Hn1 & Ht1 & _) & Hok1 & Hge & Hval). wp_step. wp_step. wp_step. wp_step.
  { destruct (wk_valid s1); [|done]. simpl. apply Nat.leb_le. rewrite Hn1. auto. }
  wp_step. cbn [wk_cands wk_num]. exists (take (zp_cands P) C1).
  split; [by rewrite <- Ht1, take_take, Nat.min_comm|]. split_and!.
  - intros i c Hi. apply lookup_take_Some in Hi as [Hi Hlt].
    destruct (Hok1 i c Hi) as [Hlk Hpar]. split; [done|]. destruct (zw_parentIdx c) as [f|]; [|done].
    destruct Hpar as (Hf & cf & af & Hcf & Ha & Hne & Hp & Hs). split; [done|]. exists cf, af.
    rewrite lookup_take_lt by lia. split_and!; try done. intros (j & d & Hj & Hd & E).
    destruct Hs as (j' & d' & Hj' & Hd' & E').
    { exists j, d. split_and!; try done. by apply lookup_take_Some in Hd as [Hd _]. }
    exists j', d'. by rewrite lookup_take_lt by lia.
  - intros E. apply (f_equal length) in E. rewrite length_take in E. simpl in E. lia.
  - rewrite length_take. lia.
Qed.
End Walk.
End Arrays.
End Inv.
