(* ===== verification/ZArraySpec.v ===== *)
(** * Insertions into a Z cache array

    The moves of a replacement follow a path without repetition from the chosen
    line to a seed, so that they rotate the lines on it: every line stays at a
    position of its own and the new address is found in the chosen line. *)

From stdpp Require Import base list strings.
From Stdlib Require Import ZArith Lia.
From S2P Require Import Prelude Numeric MtRand H3Hash MemHierarchy ReplPolicy CacheArray ZArray ZArrayProofs.
Local Open Scope Z_scope.

(** What a Z array relies on: unlike a set, a walk offers a policy any number of
    candidates. *)
Class ZReplLaws (R : Type) `{ReplPolicy R} := {
  zr_idle : nat -> R -> Prop;
  zr_ranked : nat -> R -> Prop;
  zr_update_ok : forall n id dc r, (id < n)%nat -> zr_idle n r ->
    wp (rp_update id dc) (fun _ r' => zr_idle n r') r;
  zr_replaced_ok : forall n id r, (id < n)%nat -> zr_ranked n r ->
    wp (rp_replaced id) (fun _ r' => zr_idle n r') r;
  zr_rank_ok : forall n v cands dyn r, zr_idle n r -> view_total n v -> cands <> [] ->
    (forall c, c ∈ cands -> (c < n)%nat) ->
    wp (rp_rankCands v cands dyn) (fun id r' => id ∈ cands /\ zr_ranked n r') r
}.

Lemma nonempty_length {A} (l : list A) : l <> [] -> (0 < length l)%nat.
Proof. destruct l; simpl; [done|lia]. Qed.

Program Definition LRU_zlaws (sa : bool) : @ZReplLaws LRU (LRU_policy sa) := {|
  zr_idle n r := length (lru_array r) = n;
  zr_ranked n r := length (lru_array r) = n
|}.
Next Obligation. intros sa n id dc r. apply lru_update_ok. Qed.
Next Obligation. intros sa n id r. apply lru_replaced_ok. Qed.
Next Obligation.
  intros sa n v cands dyn r Hi Hv Hne Hc.
  by apply (lru_rank_ok n (length cands) (nonempty_length _ Hne)).
Qed.

Program Definition LRUDC_zlaws (sa : bool) : @ZReplLaws LRUDC (LRUDC_policy sa) := {|
  zr_idle n r := length (dc_array r) = n;
  zr_ranked n r := length (dc_array r) = n
|}.
Next Obligation. intros sa n id dc r. apply dc_update_ok. Qed.
Next Obligation. intros sa n id r. apply dc_replaced_ok. Qed.
Next Obligation.
  intros sa n v cands dyn r Hi Hv Hne Hc.
  by apply (dc_rank_ok n (length cands) (nonempty_length _ Hne)).
Qed.

Section Spec.
Context (P : ZParams) (HP : zparams_ok P).

(** ** The path to a candidate *)
Section Path.
Context (array : list Address) (lookupArray : list nat) (lineAddr : Address).
Context (C : list ZWalkInfo) (HC : cands_ok P array lookupArray lineAddr C).

Inductive chain : nat -> list ZWalkInfo -> Prop :=
| chain_seed i c : C !! i = Some c -> zw_parentIdx c = None -> chain i [c]
| chain_step i c f cs : C !! i = Some c -> zw_parentIdx c = Some f -> chain f cs -> chain i (c :: cs).

Lemma chain_exists i : (i < length C)%nat ->
  exists cs, chain i cs /\ (length cs <= i / zp_ways P + 1)%nat.
Proof.
  induction i as [i IH] using lt_wf_ind. intros Hi. pose proof (zo_ways P HP) as H2.
  destruct (lookup_lt_is_Some_2 C i Hi) as [c Hc]. destruct (HC i c Hc) as [_ Hp].
  destruct (zw_parentIdx c) as [f|] eqn:E.
  - destruct Hp as (Hf & _). destruct (IH f) as (cs & Hcs & Hl); [lia..|].
    exists (c :: cs). split; [by eapply chain_step|]. simpl.
    assert (f / zp_ways P + 1 <= i / zp_ways P)%nat; [|lia].
    replace (f / zp_ways P + 1)%nat with ((f + 1 * zp_ways P) / zp_ways P)%nat by (by rewrite Nat.div_add by lia).
    apply Nat.Div0.div_le_mono. lia.
  - exists [c]. split; [by apply chain_seed|]. simpl. lia.
Qed.

Lemma chain_elem i cs c : chain i cs -> c ∈ cs -> exists j, (j <= i)%nat /\ C !! j = Some c.
Proof.
  induction 1 as [i c' Hc _|i c' f cs Hc Hp Hch IH]; intros Hin.
  - apply list_elem_of_singleton in Hin as ->. eauto.
  - apply elem_of_cons in Hin as [->|Hin]; [eauto|]. destruct (IH Hin) as (j & Hj & Hcj).
    destruct (HC i c' Hc) as [_ Hpar]. rewrite Hp in Hpar. destruct Hpar as (Hf & _).
    exists j. split; [lia|done].
Qed.

Lemma chain_head i cs : chain i cs -> exists c cs', cs = c :: cs' /\ C !! i = Some c.
Proof. destruct 1; eauto. Qed.

(** The path to the first candidate with its line visits each line once. *)
Lemma chain_nodup i cs : chain i cs ->
  (forall c, C !! i = Some c -> ~ seen C i (zw_lineId c)) -> NoDup (map zw_lineId cs).
Proof.
  induction 1 as [i c Hc _|i c f cs Hc Hp Hch IH]; intros Hfirst; simpl.
  - apply NoDup_singleton.
  - destruct (HC i c Hc) as [_ Hpar]. rewrite Hp in Hpar.
    destruct Hpar as (Hf & cf & af & Hcf & _ & _ & _ & Hs). pose proof (zo_ways P HP) as H2.
    apply NoDup_cons. split.
    + intros Hin. apply list_elem_of_fmap in Hin as (d & E & Hd).
      destruct (chain_elem _ _ _ Hch Hd) as (j & Hj & Hcj).
      apply (Hfirst c Hc). exists j, d. split; [lia|]. done.
    + apply IH. intros c' Hc' Hseen. simplify_eq. by apply (Hfirst c Hc), Hs.
Qed.

(** Each line of the path but the first may move to the position before it, and
    the new address to the last. *)
Fixpoint linked (cs : list ZWalkInfo) : Prop :=
  match cs with
  | [] => False
  | [c] => z_posOf P lineAddr (zw_pos c)
  | c :: ((d :: _) as cs') =>
      (exists a, array !! zw_lineId d = Some a /\ a <> 0 /\ z_posOf P a (zw_pos c)) /\ linked cs'
  end.

Lemma chain_linked i cs : chain i cs -> linked cs.
Proof.
  induction 1 as [i c Hc Hp|i c f cs Hc Hp Hch IH].
  - destruct (HC i c Hc) as [_ Hpar]. by rewrite Hp in Hpar.
  - destruct (chain_head _ _ Hch) as (d & cs' & -> & Hd).
    destruct (HC i c Hc) as [_ Hpar]. rewrite Hp in Hpar.
    destruct Hpar as (_ & cf & af & Hcf & Ha & Hne & Hpo & _). simplify_eq.
    split; [by exists af|done].
Qed.

Lemma chain_lookup i cs c : chain i cs -> c ∈ cs -> lookupArray !! zw_pos c = Some (zw_lineId c).
Proof. intros Hch Hin. destruct (chain_elem _ _ _ Hch Hin) as (j & _ & Hj). by destruct (HC j c Hj). Qed.

(** Different lines are at different positions. *)
Lemma chain_pos_nodup i cs : chain i cs -> NoDup (map zw_lineId cs) -> NoDup (map zw_pos cs).
Proof.
  intros Hch. assert (forall c, c ∈ cs -> lookupArray !! zw_pos c = Some (zw_lineId c)) as Hl
    by (intros; by eapply chain_lookup).
  clear Hch. induction cs as [|c cs IH]; simpl; [done|]. rewrite !NoDup_cons. intros [Hc Hcs].
  split; [|apply IH; [intros; apply Hl; by right|done]]. intros Hin. apply Hc.
  apply list_elem_of_fmap in Hin as (d & E & Hd). apply list_elem_of_fmap. exists d. split; [|done].
  assert (lookupArray !! zw_pos c = Some (zw_lineId c)) as H1 by (apply Hl; by left).
  assert (lookupArray !! zw_pos d = Some (zw_lineId d)) as H2 by (apply Hl; by right). congruence.
Qed.

(** The loop over the parents writes the positions of the path. *)
Lemma z_swaps_ok cands i cs fuel swap k :
  chain i cs -> (forall j c, C !! j = Some c -> cands !! j = Some c) -> (length cs <= fuel)%nat ->
  (k + length cs <= length swap)%nat ->
  exists swap', z_swaps fuel cands (Some i) swap k = Ok (swap', (k + length cs)%nat) /\
    length swap' = length swap /\ take (k + length cs) swap' = take k swap ++ map zw_pos cs.
Proof.
  intros Hch Hcands. revert fuel swap k.
  induction Hch as [i c Hc Hp|i c f cs Hc Hp Hch IH]; intros [|fuel] swap k Hfuel Hk; simpl in Hfuel, Hk; try lia;
    cbn [z_swaps]; rewrite (at_ok _ _ _ (Hcands _ _ Hc)), set_at_ok, Hp by lia.
  - exists (<[k := zw_pos c]> swap). destruct fuel; cbn [z_swaps]; simpl; (split; [f_equal; f_equal; lia|]);
      rewrite length_insert; (split; [done|]); rewrite Nat.add_1_r;
      (rewrite (take_S_r _ _ (zw_pos c)); [|apply list_lookup_insert_eq; lia]); by rewrite take_insert_ge by lia.
  - destruct (IH fuel (<[k := zw_pos c]> swap) (S k)) as (swap' & E & Hl & Ht);
      [lia|rewrite length_insert; lia|].
    exists swap'. rewrite E. simpl length. rewrite length_insert in Hl. split; [do 2 f_equal; lia|].
    split; [done|]. replace (k + S (length cs))%nat with (S k + length cs)%nat by lia. rewrite Ht.
    rewrite (take_S_r _ _ (zw_pos c)); [|apply list_lookup_insert_eq; lia].
    rewrite take_insert_ge, <- app_assoc by lia. done.
Qed.
End Path.

(** ** The rotation *)

(** The moves of [postinsert] along the positions [ps]. *)
Fixpoint z_rotate (lk : list nat) (ps : list nat) (best : nat) : list nat :=
  match ps with
  | [] => lk
  | [p] => <[p := best]> lk
  | p :: ((q :: _) as ps') =>
      match lk !! q with Some x => z_rotate (<[p := x]> lk) ps' best | None => lk end
  end.

Section Rotate.
Context (array : list Address) (lineAddr : Address) (best : nat) (n : nat).

(** A line other than [best] is at one of its positions. *)
Definition placed_but (L : list nat) : Prop :=
  forall p id a, L !! p = Some id -> id <> best -> array !! id = Some a -> a <> 0 -> z_posOf P a p.

Definition perm_like (L : list nat) : Prop :=
  length L = n /\ NoDup L /\ forall p id, L !! p = Some id -> (id < n)%nat.

(** Exchanging [best] at [p] with the line at [q]. *)
Lemma exchange_perm lk p q x :
  p <> q -> perm_like (<[p := best]> lk) -> (p < length lk)%nat -> lk !! q = Some x ->
  perm_like (<[q := best]> (<[p := x]> lk)).
Proof.
  intros Hpq (Hl & Hnd & Hr) Hp Hq. rewrite length_insert in Hl.
  pose proof (lookup_lt_Some _ _ _ Hq) as Hq'.
  assert (Hold : forall i id, (<[q := best]> (<[p := x]> lk)) !! i = Some id ->
    (<[p := best]> lk) !! (if decide (i = q) then p else if decide (i = p) then q else i) = Some id).
  { intros i id Hi. destruct (decide (i = q)) as [->|Hiq].
    - rewrite list_lookup_insert_eq in Hi by (rewrite length_insert; lia).
      rewrite list_lookup_insert_eq by lia. done.
    - rewrite list_lookup_insert_ne in Hi by done. destruct (decide (i = p)) as [->|Hip].
      + rewrite list_lookup_insert_eq in Hi by lia. rewrite list_lookup_insert_ne by done. congruence.
      + rewrite list_lookup_insert_ne in Hi by done. by rewrite list_lookup_insert_ne by done. }
  split; [by rewrite !length_insert|]. split.
  - apply NoDup_alt. intros i j id Hi Hj. apply Hold in Hi, Hj.
    pose proof (proj1 (NoDup_alt _) Hnd _ _ _ Hi Hj) as E. repeat case_decide; simplify_eq; done.
  - intros i id Hi. apply Hold in Hi. by eapply Hr.
Qed.

Lemma exchange_placed lk p q x :
  p <> q -> placed_but (<[p := best]> lk) -> (p < length lk)%nat -> lk !! q = Some x ->
  (exists a, array !! x = Some a /\ a <> 0 /\ z_posOf P a p) ->
  placed_but (<[q := best]> (<[p := x]> lk)).
Proof.
  intros Hpq HP' Hp Hq (a & Ha & Hne & Hpos) i id b Hi Hid Hb Hb0.
  pose proof (lookup_lt_Some _ _ _ Hq) as Hq'. destruct (decide (i = q)) as [->|Hiq].
  { rewrite list_lookup_insert_eq in Hi by (rewrite length_insert; lia). congruence. }
  rewrite list_lookup_insert_ne in Hi by done. destruct (decide (i = p)) as [->|Hip].
  - rewrite list_lookup_insert_eq in Hi by lia. simplify_eq. done.
  - rewrite list_lookup_insert_ne in Hi by done. apply (HP' i id b); try done.
    by rewrite list_lookup_insert_ne by done.
Qed.

(** The rotation keeps the permutation and the placement, and ends with [best]
    at a position of the new address. *)
Lemma z_rotate_ok lk c cs :
  perm_like (<[zw_pos c := best]> lk) -> placed_but (<[zw_pos c := best]> lk) ->
  (zw_pos c < length lk)%nat -> NoDup (map zw_pos (c :: cs)) ->
  (forall d, d ∈ cs -> lk !! zw_pos d = Some (zw_lineId d)) ->
  linked array lineAddr (c :: cs) ->
  let L := z_rotate lk (map zw_pos (c :: cs)) best in
  perm_like L /\ placed_but L /\ exists p, L !! p = Some best /\ z_posOf P lineAddr p.
Proof.
  revert lk c. induction cs as [|d cs IH]; intros lk c Hperm Hpl Hc Hnd Hlk Hlink.
  { simpl. split; [done|]. split; [done|]. exists (zw_pos c).
    split; [by apply list_lookup_insert_eq|done]. }
  destruct Hlink as [Hd Hlink]. assert (lk !! zw_pos d = Some (zw_lineId d)) as Hld by (apply Hlk; left).
  cbn [map]. change (map zw_pos (c :: d :: cs)) with (zw_pos c :: zw_pos d :: map zw_pos cs) in Hnd.
  apply NoDup_cons in Hnd as [Hnin Hnd]. cbn [z_rotate]. rewrite Hld.
  assert (zw_pos c <> zw_pos d) as Hcd by (intros E; apply Hnin; rewrite E; left).
  apply (IH (<[zw_pos c := zw_lineId d]> lk) d); try done.
  - by apply exchange_perm.
  - by apply exchange_placed.
  - rewrite length_insert. by eapply lookup_lt_Some.
  - intros e He. rewrite list_lookup_insert_ne; [apply Hlk; by right|].
    intros E. apply Hnin. rewrite E. right. apply list_elem_of_fmap. eauto.
Qed.
End Rotate.

(** The chosen line gets the new address. *)
Lemma z_inv_insert lk array lineAddr best L p :
  z_inv P array lk -> lineAddr <> 0 -> (forall id, array !! id <> Some lineAddr) ->
  (best < zp_numLines P)%nat -> perm_like (zp_numLines P) L -> placed_but array best L ->
  L !! p = Some best -> z_posOf P lineAddr p -> z_inv P (<[best := lineAddr]> array) L.
Proof.
  intros HI Hne Habs Hb (HL1 & HL2 & HL3) Hpl Hp Hpo.
  assert (best < length array)%nat as Hba by (by rewrite (zi_array _ _ _ HI)). split; try done.
  - rewrite length_insert. apply (zi_array _ _ _ HI).
  - intros q id a Hq Ha Ha0. destruct (decide (id = best)) as [->|Hid].
    + rewrite list_lookup_insert_eq in Ha by done. simplify_eq.
      by replace q with p by (by eapply NoDup_lookup).
    + rewrite list_lookup_insert_ne in Ha by done. by eapply Hpl.
  - intros i j a Hi Hj Ha0.
    destruct (decide (i = best)) as [->|Hib], (decide (j = best)) as [->|Hjb]; [done|..].
    + rewrite list_lookup_insert_eq in Hi by done. rewrite list_lookup_insert_ne in Hj by done.
      simplify_eq. by destruct (Habs j).
    + rewrite list_lookup_insert_eq in Hj by done. rewrite list_lookup_insert_ne in Hi by done.
      simplify_eq. by destruct (Habs i).
    + rewrite list_lookup_insert_ne in Hi by done. rewrite list_lookup_insert_ne in Hj by done.
      by eapply (zi_distinct _ _ _ HI).
Qed.

(** ** The operations *)
Section Ops.
Context {R : Type} `{!ReplPolicy R} `{!ZReplLaws R}.

Definition zs_ok (s : ZState R) : Prop :=
  z_inv P (z_array s) (z_lookupArray s) /\
  length (z_swapArray s) = (zp_cands P / zp_ways P + 2)%nat.

(** Between [preinsert] and [postinsert]: the path from the chosen line to a
    seed is in [swapArray]. *)
Definition ready (lineAddr : Address) (best : nat) (s : ZState R) : Prop :=
  exists c cs, z_swapArrayLen s = S (length cs) /\
    take (S (length cs)) (z_swapArray s) = map zw_pos (c :: cs) /\ zw_lineId c = best /\
    (forall d, d ∈ c :: cs -> z_lookupArray s !! zw_pos d = Some (zw_lineId d)) /\
    NoDup (map zw_pos (c :: cs)) /\ linked (z_array s) lineAddr (c :: cs).

Lemma z_preinsert_ok v lineAddr dyn s :
  zs_ok s -> zr_idle (zp_numLines P) (z_rp s) -> view_total (zp_numLines P) v ->
  wp (z_preinsert P v lineAddr dyn)
    (fun '(best, wb) s' => z_array s !! best = Some wb /\ zr_ranked (zp_numLines P) (z_rp s') /\
       z_array s' = z_array s /\ z_lookupArray s' = z_lookupArray s /\
       length (z_swapArray s') = length (z_swapArray s) /\ ready lineAddr best s') s.
Proof.
  intros [HI Hsw] Hidle Hv. unfold z_preinsert. wp_step. wp_step. wp_step.
  destruct (wp_ok _ _ _ (z_walk_ok P HP _ _ HI lineAddr)) as ([] & wk & Hwk & C & HC & Hok & Hne & Hlen).
  eapply wp_lift; [by rewrite Hwk|]. cbv zeta. rewrite HC.
  assert (forall c, c ∈ map zw_lineId C -> (c < zp_numLines P)%nat) as Hlt.
  { intros c Hin. apply list_elem_of_fmap in Hin as (d & -> & Hd). apply list_elem_of_lookup in Hd as [j Hj].
    destruct (Hok j d Hj) as [Hl _]. by eapply (zi_range _ _ _ HI). }
  wp_step. unfold z_with_rp. wp_step. eapply wp_mono.
  { apply (zr_rank_ok (zp_numLines P)); [done|done| |done]. by destruct C. }
  intros best r [Hin Hr]. wp_step. wp_step; [by apply Nat.ltb_lt, Hlt|].
  set (i := find_idx _ C).
  assert (exists c, C !! i = Some c /\ zw_lineId c = best /\ ~ seen C i best) as (c & Hc & Ec & Hfirst).
  { apply list_elem_of_fmap in Hin as (d & Ed & Hd). apply list_elem_of_lookup in Hd as [j Hj].
    destruct (find_idx_lt (fun c => (zw_lineId c =? best)%nat) C) as (c & Hc & Hp & Hmin).
    { eapply Nat.le_lt_trans; [eapply find_idx_some; [exact Hj|]|by eapply lookup_lt_Some].
      by apply Nat.eqb_eq. }
    exists c. split; [done|]. split; [by apply Nat.eqb_eq|]. intros (k & e & Hk & He & Ee).
    specialize (Hmin k e Hk He). apply Nat.eqb_neq in Hmin. done. }
  assert (i < length C)%nat as Hi by (by eapply lookup_lt_Some).
  rewrite (proj2 (Nat.ltb_lt _ _) Hi).
  destruct (chain_exists _ _ _ C Hok i Hi) as (cs & Hch & Hcs).
  pose proof (zo_ways P HP) as H2.
  assert (i / zp_ways P <= zp_cands P / zp_ways P)%nat as Hdiv by (apply Nat.Div0.div_le_mono; lia).
  assert (i / zp_ways P <= i)%nat as Hdiv' by (apply Nat.Div0.div_le_upper_bound; nia).
  destruct (z_swaps_ok C (wk_cands wk) i cs (S i) (z_swapArray s) 0 Hch) as (swap & Hs & Hsl & Hst).
  { intros j d Hj. rewrite <- HC in Hj. by apply lookup_take_Some in Hj as [Hj _]. }
  { lia. }
  { rewrite Hsw. lia. }
  wp_step. eapply wp_lift; [exact Hs|].
  destruct (chain_head _ _ _ Hch) as (c' & cs' & -> & Hc').
  assert (c' = c) as -> by congruence. subst best.
  apply wp_bind, wp_modify, wp_bind, wp_assert; [done|]. wp_step.
  destruct (lookup_lt_is_Some_2 (z_array s) (zw_lineId c)) as [wb Hwb].
  { rewrite (zi_array _ _ _ HI). apply Hlt. by apply list_elem_of_fmap_2, (list_elem_of_lookup_2 _ i). }
  eapply wp_lift; [by apply at_ok|]. wp_step. cbn. split_and!; try done.
  exists c, cs'. cbn. split_and!; try done.
  - intros d Hd. by eapply (chain_lookup _ _ _ C Hok).
  - apply (chain_pos_nodup _ _ _ C Hok i (c :: cs')); [exact Hch|].
    apply (chain_nodup _ _ _ C Hok i); [exact Hch|]. intros d Hd.
    by replace d with c by congruence.
  - exact (chain_linked _ _ _ C Hok i (c :: cs') Hch).
Qed.

(** The loop of moves, from the index [k] of the path on. *)
Definition with_lookup (s : ZState R) (l : list nat) : ZState R :=
  mkZ (z_array s) l (z_swapArray s) (z_swapArrayLen s) (z_lastCandIdx s) (z_statSwaps s) (z_rp s).

Lemma z_moves_ok (ps : list nat) : forall (k : nat) s (p best : nat),
  (forall j, (j <= length ps)%nat -> z_swapArray s !! (k + j)%nat = (p :: ps) !! j) ->
  (forall q, q ∈ p :: ps -> (q < length (z_lookupArray s))%nat) ->
  wp (forM (seq k (length ps)) z_move)
    (fun _ s' => exists l, s' = with_lookup s l /\ length l = length (z_lookupArray s) /\
       forall e, last (p :: ps) = Some e -> <[e := best]> l = z_rotate (z_lookupArray s) (p :: ps) best) s.
Proof.
  induction ps as [|q ps IH]; intros k s p best Hsw Hlt.
  - simpl. wp_step. exists (z_lookupArray s). split; [by destruct s|]. split; [done|]. intros e [= <-]. done.
  - cbn [length seq forM]. wp_step. unfold z_move, z_set_lookup. wp_step. wp_step.
    assert (p < length (z_lookupArray s))%nat as Hp by (apply Hlt; left).
    destruct (lookup_lt_is_Some_2 (z_lookupArray s) q) as [x Hx]; [apply Hlt; right; left|].
    wp_step. eapply wp_lift; [apply at_ok; rewrite <- (Nat.add_0_r k); by rewrite Hsw by lia|].
    wp_step. eapply wp_lift; [apply at_ok; by rewrite Hsw by (simpl; lia)|].
    wp_step. eapply wp_lift; [by apply at_ok|]. wp_step. eapply wp_lift; [by apply set_at_ok|].
    wp_step. eapply wp_mono; [apply (IH (S k) _ q best)|].
    + intros j Hj. simpl. rewrite <- Nat.add_succ_r. rewrite Hsw by (simpl; lia). done.
    + intros q' Hq'. simpl. rewrite length_insert. apply Hlt. by right.
    + intros [] s' (l & -> & Hl & Hrot). simpl in Hl. rewrite length_insert in Hl.
      exists l. split; [done|]. split; [done|]. intros e He. rewrite (Hrot e); [|by rewrite last_cons_cons in He].
      cbn [z_rotate z_lookupArray]. by rewrite Hx.
Qed.

Lemma z_postinsert_ok lineAddr best s :
  zs_ok s -> zr_ranked (zp_numLines P) (z_rp s) -> ready lineAddr best s ->
  lineAddr <> 0 -> (forall id, z_array s !! id <> Some lineAddr) ->
  wp (z_postinsert lineAddr best false)
    (fun _ s' => zs_ok s' /\ zr_idle (zp_numLines P) (z_rp s') /\
       z_array s' = <[best := lineAddr]> (z_array s)) s.
Proof.
  intros [HI Hsw] Hr (c & cs & Hlen & Htake & Hbest & Hlk & Hnd & Hlink) Hne Habs.
  assert (forall d, d ∈ c :: cs -> (zw_pos d < length (z_lookupArray s))%nat) as Hpos
    by (intros d Hd; eapply lookup_lt_Some, Hlk, Hd).
  assert (z_lookupArray s !! zw_pos c = Some best) as Hc by (rewrite <- Hbest; apply Hlk; left).
  assert (best < zp_numLines P)%nat as Hb by (by eapply (zi_range _ _ _ HI)).
  assert (forall j, (j <= length cs)%nat -> z_swapArray s !! j = map zw_pos (c :: cs) !! j) as Hswap.
  { intros j Hj. rewrite <- Htake. symmetry. apply lookup_take_lt. lia. }
  unfold z_postinsert. wp_step. wp_step. wp_step. eapply wp_lift; [apply at_ok; by rewrite (Hswap 0%nat) by lia|].
  wp_step. eapply wp_lift; [by apply at_ok|]. wp_step. wp_step; [by apply Nat.eqb_eq|]. wp_step.
  rewrite Hlen. replace (S (length cs) - 1)%nat with (length (map zw_pos cs)) by (rewrite length_map; lia).
  eapply wp_mono.
  { apply (z_moves_ok (map zw_pos cs) 0 s (zw_pos c) best).
    - intros j Hj. rewrite length_map in Hj. by apply Hswap.
    - intros q Hq. change (zw_pos c :: map zw_pos cs) with (map zw_pos (c :: cs)) in Hq.
      apply list_elem_of_fmap in Hq as (d & -> & Hd). auto. }
  intros [] s1 (l & -> & Hl & Hrot). wp_step. wp_step. cbn [with_lookup z_swapArray z_swapArrayLen].
  destruct (last (zw_pos c :: map zw_pos cs)) as [e|] eqn:He; [|by apply last_None in He].
  specialize (Hrot e eq_refl). rewrite last_lookup in He. simpl in He.
  assert (e < length l)%nat as Helt.
  { change (zw_pos c :: map zw_pos cs) with (map zw_pos (c :: cs)) in He.
    apply list_elem_of_lookup_2 in He. apply list_elem_of_fmap in He as (d & -> & Hd). rewrite Hl. auto. }
  wp_step. eapply wp_lift.
  { apply at_ok. rewrite Hlen, Hswap by lia. rewrite length_map in He. simpl. by rewrite Nat.sub_0_r. }
  wp_step. eapply wp_lift; [by apply set_at_ok|]. cbn [with_lookup z_lookupArray]. rewrite Hrot.
  unfold z_set_lookup, z_with_rp. wp_step. wp_step. wp_step. wp_step. eapply wp_mono.
  { apply (zr_replaced_ok (zp_numLines P)); [exact Hb|exact Hr]. }
  intros [] r1 Hr1. wp_step. wp_step. wp_step. cbn [with_lookup z_array].
  eapply wp_lift; [apply set_at_ok; by rewrite (zi_array _ _ _ HI)|].
  wp_step. wp_step. wp_step. wp_step. eapply wp_mono; [by apply (zr_update_ok (zp_numLines P)); [exact Hb|]|].
  intros [] r2 Hr2. wp_step. unfold zs_ok. cbn [z_array z_lookupArray z_swapArray z_rp]. split; [|done].
  split; [|done].
  destruct (z_rotate_ok (z_array s) lineAddr best (zp_numLines P) (z_lookupArray s) c cs)
    as ((HL1 & HL2 & HL3) & Hpl & p & Hp & Hpo).
  - rewrite list_insert_id by done. split; [apply (zi_lookup _ _ _ HI)|]. split; [apply (zi_nodup _ _ _ HI)|].
    apply (zi_range _ _ _ HI).
  - rewrite list_insert_id by done. intros q id a Hq _ Ha Ha0. by eapply (zi_placed _ _ _ HI).
  - apply Hpos. left.
  - done.
  - intros d Hd. apply Hlk. by right.
  - done.
  - by apply (z_inv_insert (z_lookupArray s)) with p.
Qed.

(** ** An access: look the address up, replace a line if it is absent *)
Definition found (s : ZState R) (a : Address) (id : nat) : Prop :=
  z_find P (z_array s) (z_lookupArray s) a (seq 0 (zp_ways P)) = Ok (Some id).

Definition z_access (v : CCView) (lineAddr : Address) : M (ZState R) nat :=
  o <- z_lookup P lineAddr true false ;;
  match o with
  | Some id => ret id
  | None =>
      let! (id, wb) := z_preinsert P v lineAddr false in
      z_postinsert lineAddr id false ;;
      ret id
  end.

Definition z_run (v : CCView) (as_ : list Address) : M (ZState R) unit :=
  forM as_ (fun a => z_access v a ;; ret tt).

Definition z_good (s : ZState R) : Prop := zs_ok s /\ zr_idle (zp_numLines P) (z_rp s).

(** [a] is in the line [id] and every other line is as before. *)
Definition access_effect (a : Address) (id : nat) (s s' : ZState R) : Prop :=
  forall b id', b <> 0 ->
    (found s' b id' <-> b = a /\ id' = id \/ b <> a /\ id' <> id /\ found s b id').

Lemma z_access_ok v a s :
  z_good s -> view_total (zp_numLines P) v -> a <> 0 ->
  wp (z_access v a) (fun id s' => z_good s' /\ access_effect a id s s') s.
Proof.
  intros [[HI Hsw] Hidle] Hv Ha. unfold z_access, z_lookup. wp_step.
  rewrite (proj2 (Z.eqb_neq a 0) Ha). wp_step. wp_step. wp_step.
  destruct (z_find_spec P HP _ _ HI a (seq 0 (zp_ways P))) as (o & Ho & _).
  { intros w Hw. apply elem_of_seq in Hw. lia. }
  eapply wp_lift; [exact Ho|]. destruct o as [id|].
  - apply (z_find_iff P HP _ _ HI) in Ho as Hid; [|done].
    unfold when, z_with_rp. wp_step. wp_step. eapply wp_mono.
    { apply (zr_update_ok (zp_numLines P)); [|exact Hidle]. rewrite <- (zi_array _ _ _ HI). by eapply lookup_lt_Some. }
    intros [] r Hr. wp_step. wp_step. split; [done|]. intros b id' Hb. unfold found. cbn [z_array z_lookupArray].
    rewrite !(z_find_iff P HP _ _ HI) by done. split.
    + intros Hb'. destruct (decide (b = a)) as [->|Hne]; [left; split; [done|by eapply (zi_distinct _ _ _ HI)]|].
      right. split_and!; try done. intros ->. congruence.
    + by intros [[-> ->]|(_ & _ & ?)].
  - pose proof (proj1 (z_find_none P HP _ _ HI a Ha) Ho) as Habs. wp_step. wp_step.
    eapply wp_mono; [by apply z_preinsert_ok|].
    intros [id wb] s1 (Hwb & Hr1 & Ea & El & Es & Hready).
    wp_step. eapply wp_mono.
    { apply (z_postinsert_ok a id s1); try done; [split; [by rewrite Ea, El|congruence]|by rewrite Ea]. }
    intros [] s2 ([HI2 Hsw2] & Hr2 & Ea2). wp_step. split; [done|]. rewrite Ea in Ea2. intros b id' Hb.
    pose proof (lookup_lt_Some _ _ _ Hwb) as Hlt.
    unfold found. rewrite (z_find_iff P HP _ _ HI2), (z_find_iff P HP _ _ HI), Ea2 by done.
    destruct (decide (id' = id)) as [->|Hne].
    + rewrite list_lookup_insert_eq by done. naive_solver.
    + rewrite list_lookup_insert_ne by done. split; [|naive_solver].
      intros Hb'. right. split_and!; try done. intros ->. by destruct (Habs id').
Qed.

Lemma z_run_ok v as_ s :
  z_good s -> view_total (zp_numLines P) v -> Forall (fun a => a <> 0) as_ ->
  wp (z_run v as_) (fun _ s' => z_good s') s.
Proof.
  intros Hs Hv Has. apply wp_forM_inv; [done|]. intros a s' Ha Hs'. rewrite Forall_forall in Has.
  wp_step. eapply wp_mono; [apply z_access_ok; auto|]. intros id s1 [H1 _]. by wp_step.
Qed.
End Ops.
End Spec.

Lemma ZArray_new_ok {R} `{!ReplPolicy R} `{!ZReplLaws R} numLines ways cands hash (rp : R) P s :
  ZArray_new numLines ways cands hash rp = Ok (P, s) -> Z.of_nat numLines < 2 ^ 32 ->
  (forall w a, (w < ways)%nat -> exists h, hash w a = Ok h) -> zr_idle numLines rp ->
  zparams_ok P /\ z_good P s /\ zp_numLines P = numLines.
Proof.
  unfold ZArray_new. intros H Hn Hhash Hrp.
  destruct (Nat.ltb_spec 1 ways); [|done]. destruct (Nat.leb_spec ways cands); [|done]. simpl in H.
  destruct (Nat.eqb_spec (numLines mod ways) 0) as [Hmod|]; [|done].
  destruct (isPow2 _) eqn:E; [|done]. simpl in H. simplify_eq.
  assert (numLines = ways * (numLines / ways))%nat as Hdiv.
  { pose proof (Nat.div_mod_eq numLines ways). lia. }
  assert (0 < Z.of_nat (numLines / ways)) as Hpos.
  { destruct (numLines / ways)%nat eqn:E0; [|lia]. by vm_compute in E. }
  assert (numLines / ways <= numLines)%nat by (apply Nat.Div0.div_le_upper_bound; nia).
  split; [|split; [|done]].
  - split; simpl; try done; try lia.
    + destruct (isPow2_pow (Z.of_nat (numLines / ways))) as (k & Hk & Hk32); [lia|done|].
      exists k. split; [done|lia].
    + apply u32_id. unfold in_u32. lia.
  - split; [|done]. split; [|simpl; by rewrite length_replicate]. split; simpl.
    + by rewrite length_replicate.
    + by rewrite length_seq.
    + apply NoDup_seq.
    + intros p id Hp. apply lookup_seq in Hp. lia.
    + intros p id a _ Ha. apply lookup_replicate in Ha as [-> _]. done.
    + intros i j a Hi. apply lookup_replicate in Hi as [-> _]. done.
Qed.

(** C28: insertions into a Z cache.  Build the hash functions of a Z array and the
    array as the configuration does, with any replacement policy that picks one
    of the candidates it is offered.  Then every sequence of accesses - a
    lookup and, if the address is absent, [preinsert] and [postinsert] - returns
    without a failed assertion or an access out of range, and a further access
    to [a] has exactly this effect on what lookups find: [a] is in the line
    returned, whatever that line held is gone, and every other address is still
    found in its line, although the replacement has moved lines to other
    positions. *)
Theorem z_array_correct {R} `{!ReplPolicy R} `{!ZReplLaws R} numLines ways cands setBits randSeed
    (rp : R) h P s0 v as_ :
  H3_new ways setBits randSeed = Ok h ->
  ZArray_new numLines ways cands (h3_hash h) rp = Ok (P, s0) -> Z.of_nat numLines < 2 ^ 32 ->
  zr_idle numLines rp -> view_total numLines v -> Forall (fun a => a <> 0) as_ ->
  wp (z_run P v as_)
    (fun _ s1 => forall a, a <> 0 -> wp (z_access P v a) (fun id s2 => access_effect P a id s1 s2) s1) s0.
Proof.
  intros Hh Hz Hn Hrp Hv Has.
  destruct (ZArray_new_ok numLines ways cands (h3_hash h) rp P s0) as (HP & Hgood & HN); try done.
  { intros w a Hw. destruct (H3_new_family _ _ _ _ Hh) as [Hok Hf]. apply h3_hash_total; [done|]. by rewrite Hf. }
  subst numLines. eapply wp_mono; [by apply z_run_ok|]. intros [] s1 H1 a Ha.
  eapply wp_mono; [by apply z_access_ok|]. by intros id s2 [_ ?].
Qed.

Lemma z_array_correct_witness :
  exists h P s0, H3_new 2 2 7 = Ok h /\ ZArray_new 8 2 4 (h3_hash h) (LRU_new 8) = Ok (P, s0) /\
    @wp (ZState LRU) unit (@z_run P LRU (LRU_policy false) plain_view [1; 2; 3; 4; 5; 6; 7; 8; 9; 10; 1; 5])
      (fun _ s1 => @wp (ZState LRU) nat (@z_access P LRU (LRU_policy false) plain_view 11)
         (fun id s2 => found P s2 11 id) s1) s0.
Proof.
  destruct (H3_new_ok 2 2 7) as (h & Hh & _ & _); [lia|].
  eexists h, _, _. split; [exact Hh|]. split; [reflexivity|].
  eapply wp_mono.
  - eapply (@z_array_correct LRU (LRU_policy false) (LRU_zlaws false) 8 2 4 2 7 (LRU_new 8) h _ _ plain_view);
      [exact Hh|reflexivity|reflexivity|reflexivity| |].
    + intros i _. split; eexists; reflexivity.
    + repeat constructor; discriminate.
  - intros u s1 H1. eapply wp_mono; [apply (H1 11); discriminate|].
    intros id s2 Heff. apply (Heff 11 id); [discriminate|]. left. split; reflexivity.
Defined.
