(* ===== verification/Umon.v ===== *)
(** * Utility monitors ([src/src/utility_monitor.h], [utility_monitor.cpp])

    A [UMon] samples the accesses of a partition and keeps, for each of a few
    sets, a list of the last addresses in the order of their use.  A hit at the
    place [b] of the list is a hit in every cache of more than [b] ways; so one
    monitor counts the misses of all numbers of ways at once.

    A set is an array of nodes linked through [next]; pointers are indices into
    the array of their set, [None] is [nullptr]. *)

From stdpp Require Import base list strings functions.
From Stdlib Require Import ZArith Lia.
From S2P Require Import Prelude MtRand H3Hash.
Local Open Scope Z_scope.

Record UNode := mkUNode { nd_addr : Z; nd_next : option nat }.

Record UMon := mkUM {
  um_umonLines : Z;
  um_samplingFactor : Z;
  um_buckets : nat;
  um_sets : nat;
  um_samplingFactorBits : Z;
  um_setsBits : Z;
  um_curWayHits : list Z;
  um_curMisses : Z;
  um_array : list (list UNode);
  um_heads : list nat;
  um_hf : H3HashFamily
}.

Definition um_set_counts (hits : list Z) (misses : Z) (u : UMon) : UMon :=
  mkUM (um_umonLines u) (um_samplingFactor u) (um_buckets u) (um_sets u) (um_samplingFactorBits u)
    (um_setsBits u) hits misses (um_array u) (um_heads u) (um_hf u).
Definition um_set_lists (array : list (list UNode)) (heads : list nat) (u : UMon) : UMon :=
  mkUM (um_umonLines u) (um_samplingFactor u) (um_buckets u) (um_sets u) (um_samplingFactorBits u)
    (um_setsBits u) (um_curWayHits u) (um_curMisses u) array heads (um_hf u).

(** [while (tmp >>= 1) bits++]: the position of the leading bit, 0 for 0. *)
Definition leading_bit (tmp : Z) : Z := Z.log2 tmp.

(** The nodes of a set are linked in the order of the array. *)
Definition um_new_set (buckets : nat) : list UNode :=
  map (fun j => mkUNode 0 (if (S j <? buckets)%nat then Some (S j) else None)) (seq 0 buckets).

Definition um_build (bankLines umonLines : Z) (buckets : nat) (family : res H3HashFamily) : res UMon :=
  match udiv bankLines umonLines, udiv umonLines (Z.of_nat buckets), family with
  | Ok samplingFactor, Ok sets, Ok hf =>
      Ok (mkUM umonLines samplingFactor buckets (Z.to_nat sets) (leading_bit samplingFactor)
            (leading_bit sets) (replicate buckets 0) 0
            (replicate (Z.to_nat sets) (um_new_set buckets)) (replicate (Z.to_nat sets) 0%nat) hf)
  | Err e, _, _ => Err e
  | _, Err e, _ => Err e
  | _, _, Err e => Err e
  end.

(** The seed is 0xF000BAAD. *)
Definition UMon_new (bankLines umonLines : Z) (buckets : nat) : res UMon :=
  um_build bankLines umonLines buckets (H3_new 2 32 4026579629).

(** [~(((uint64_t)-1LL) << bits)] *)
Definition low_mask (bits : Z) : Z := u64 (Z.lnot (u64 (Z.shiftl (2 ^ 64 - 1) bits))).

(** The loop that looks for the address: the node before the last one visited,
    that node, and the place of a hit.  [n] is [buckets - b]. *)
Fixpoint um_scan (nodes : list UNode) (lineAddr : Z) (n b : nat) (prev : option nat) (cur : nat)
    : res (option nat * nat * option nat) :=
  match n with
  | O => Ok (prev, cur, None)
  | S n' =>
      match at_ nodes cur with
      | Err e => Err e
      | Ok c =>
          if nd_addr c =? lineAddr then Ok (prev, cur, Some b)
          else if (n' =? 0)%nat then Ok (prev, cur, None)
          else match nd_next c with
               | None => Err NullDeref
               | Some c' => um_scan nodes lineAddr n' (S b) (Some cur) c'
               end
      end
  end.

Definition um_set_next (p : nat) (next : option nat) (nodes : list UNode) : res (list UNode) :=
  match at_ nodes p with
  | Ok c => set_at nodes p (mkUNode (nd_addr c) next)
  | Err e => Err e
  end.

(** Move the node [cur] behind [prev] to the front of the list at [head]. *)
Definition um_to_front (prev : option nat) (cur head : nat) (nodes : list UNode) : res (list UNode * nat) :=
  match prev with
  | None => Ok (nodes, head)
  | Some p =>
      match at_ nodes cur with
      | Err e => Err e
      | Ok c =>
          match um_set_next p (nd_next c) nodes with
          | Err e => Err e
          | Ok nodes1 =>
              match um_set_next cur (Some head) nodes1 with
              | Err e => Err e
              | Ok nodes2 => Ok (nodes2, cur)
              end
          end
      end
  end.

Definition um_inc (l : list Z) (b : nat) : res (list Z) :=
  match at_ l b with Ok x => set_at l b (u64 (x + 1)) | Err e => Err e end.

(** The work on a sampled access to the set [set]. *)
Definition um_touch (set : nat) (lineAddr : Z) : M UMon unit :=
  u <- get ;;
  head <- lift (at_ (um_heads u) set) ;;
  nodes <- lift (at_ (um_array u) set) ;;
  let! (prev, cur, hit) := lift (um_scan nodes lineAddr (um_buckets u) 0 None head) in
  nodes1 <- (match hit with
             | Some b =>
                 hits <- lift (um_inc (um_curWayHits u) b) ;;
                 modify (fun u => um_set_counts hits (um_curMisses u) u) ;;
                 ret nodes
             | None =>
                 modify (fun u => um_set_counts (um_curWayHits u) (u64 (um_curMisses u + 1)) u) ;;
                 c <- lift (at_ nodes cur) ;;
                 assert_ "utility_monitor.cpp: cur->next == nullptr"
                   (match nd_next c with None => true | Some _ => false end) ;;
                 lift (set_at nodes cur (mkUNode lineAddr (nd_next c)))
             end) ;;
  let! (nodes2, head2) := lift (um_to_front prev cur head nodes1) in
  array <- lift (set_at (um_array u) set nodes2) ;;
  heads <- lift (set_at (um_heads u) set head2) ;;
  modify (um_set_lists array heads).

Definition um_access (lineAddr : Z) : M UMon unit :=
  u <- get ;;
  h0 <- lift (h3_hash (um_hf u) 0 lineAddr) ;;
  if negb (Z.land h0 (low_mask (um_samplingFactorBits u)) =? 0) then ret tt else
  h1 <- lift (h3_hash (um_hf u) 1 lineAddr) ;;
  um_touch (Z.to_nat (Z.land h1 (low_mask (um_setsBits u)))) lineAddr.

(** The sum of [getNumAccesses]. *)
Definition um_getNumAccesses (u : UMon) : res Z :=
  fold_left (fun acc i => match acc, at_ (um_curWayHits u) (um_buckets u - i - 1) with
                          | Ok total, Ok h => Ok (u64 (total + h))
                          | Err e, _ => Err e
                          | _, Err e => Err e
                          end) (seq 0 (um_buckets u)) (Ok (um_curMisses u)).

(** [getMisses(misses)]: fills an array of the caller from its end. *)
Fixpoint um_curve (hits : list Z) (buckets : nat) (is_ : list nat) (total : Z) (misses : list Z)
    : res (Z * list Z) :=
  match is_ with
  | [] => Ok (total, misses)
  | i :: is' =>
      match set_at misses (buckets - i) total, at_ hits (buckets - i - 1) with
      | Ok misses', Ok h => um_curve hits buckets is' (u64 (total + h)) misses'
      | Err e, _ => Err e
      | _, Err e => Err e
      end
  end.

Definition um_getMisses (u : UMon) (misses : list Z) : res (list Z) :=
  match um_curve (um_curWayHits u) (um_buckets u) (seq 0 (um_buckets u)) (um_curMisses u) misses with
  | Ok (total, misses') => set_at misses' 0 total
  | Err e => Err e
  end.

(** The loop sets the first [buckets] counters, which are all of them. *)
Definition um_startNextInterval : M UMon unit :=
  modify (fun u => um_set_counts (um_curWayHits u) 0 u) ;;
  u <- get ;;
  forM (seq 0 (um_buckets u)) (fun b =>
    u <- get ;;
    hits <- lift (set_at (um_curWayHits u) b 0) ;;
    modify (fun u => um_set_counts hits (um_curMisses u) u)).

(** ** The reference: caches with LRU replacement

    A set of a cache of [c] ways is the list of its addresses, most recent
    first. *)
Definition lru_after (c : nat) (l : list Z) (a : Z) : list Z := take c (a :: filter (fun b => b <> a) l).

(** A trace gives the set and the address of each access. *)
Fixpoint lru_state (c : nat) (caches : nat -> list Z) (trace : list (nat * Z)) : nat -> list Z :=
  match trace with
  | [] => caches
  | (k, a) :: trace' => lru_state c (<[k := lru_after c (caches k) a]> caches) trace'
  end.

Fixpoint lru_misses (c : nat) (caches : nat -> list Z) (trace : list (nat * Z)) : nat :=
  match trace with
  | [] => 0%nat
  | (k, a) :: trace' =>
      ((if bool_decide (a ∈ caches k) then 0 else 1) +
       lru_misses c (<[k := lru_after c (caches k) a]> caches) trace')%nat
  end.

(** The set of an access that the monitor samples. *)
Definition um_sample (u : UMon) (lineAddr : Z) : option nat :=
  match h3_hash (um_hf u) 0 lineAddr, h3_hash (um_hf u) 1 lineAddr with
  | Ok h0, Ok h1 =>
      if Z.land h0 (low_mask (um_samplingFactorBits u)) =? 0
      then Some (Z.to_nat (Z.land h1 (low_mask (um_setsBits u)))) else None
  | _, _ => None
  end.
Definition um_trace (u : UMon) (as_ : list Z) : list (nat * Z) :=
  omap (fun a => (fun k => (k, a)) <$> um_sample u a) as_.
