(* ===== verification/UmonSpec.v ===== *)
(** * What a utility monitor counts

    The lists of a monitor are the LRU stacks of the sampled sets, and a cache
    of fewer ways holds a prefix of its stack; so the hit counters give the
    misses of every number of ways. *)

From stdpp Require Import base list strings functions.
From Stdlib Require Import ZArith Lia.
From S2P Require Import Prelude Numeric MtRand H3Hash Umon.
Local Open Scope Z_scope.

(** ** The linked lists of a utility monitor

    [um_list]: the nodes of a set, followed from its head, hold a list of
    addresses.  [um_touch_list]: an access to a set finds the first place that
    holds the address, or overwrites the last, and moves it to the front. *)

(** [os] is the order of the nodes; the last one has no successor. *)
Definition um_order (nodes : list UNode) (head : nat) (L : list Z) (os : list nat) : Prop :=
  NoDup os /\ length os = length L /\ os !! 0%nat = Some head /\
  forall i a, L !! i = Some a -> exists o, os !! i = Some o /\ nodes !! o = Some (mkUNode a (os !! S i)).

Definition um_list (nodes : list UNode) (head : nat) (L : list Z) : Prop :=
  exists os, um_order nodes head L os.

Lemma um_new_list buckets : (0 < buckets)%nat -> um_list (um_new_set buckets) 0 (replicate buckets 0).
Proof.
  intros Hb. exists (seq 0 buckets). split_and!.
  - apply NoDup_seq.
  - by rewrite length_seq, length_replicate.
  - by apply lookup_seq.
  - intros i a Hi. apply lookup_replicate in Hi as [-> Hi]. exists i. split; [by apply lookup_seq|].
    unfold um_new_set. rewrite list_lookup_fmap, (proj2 (lookup_seq 0 buckets i i)) by done. simpl. do 2 f_equal.
    destruct (Nat.ltb_spec (S i) buckets).
    + symmetry. by apply lookup_seq.
    + symmetry. apply lookup_ge_None. rewrite length_seq. lia.
Qed.

(** The node before the place [j]. *)
Definition prev_of (os : list nat) (j : nat) : option nat :=
  match j with O => None | S j' => os !! j' end.

Section List.
Context (nodes : list UNode) (head : nat) (L : list Z) (os : list nat) (HO : um_order nodes head L os).

Lemma order_node i : (i < length L)%nat ->
  exists o a, os !! i = Some o /\ L !! i = Some a /\ nodes !! o = Some (mkUNode a (os !! S i)).
Proof.
  intros Hi. destruct (lookup_lt_is_Some_2 L i Hi) as [a Ha].
  destruct HO as (_ & _ & _ & H). destruct (H i a Ha) as (o & Ho & Hn). eauto.
Qed.

(** The scan stops at the first place that holds the address, or at the last. *)
Lemma um_scan_ok a n : forall b o,
  (b + S n = length L)%nat -> os !! b = Some o ->
  (forall i x, (i < b)%nat -> L !! i = Some x -> x <> a) ->
  exists j o', um_scan nodes a (S n) b (prev_of os b) o =
      Ok (prev_of os j, o', if (find_idx (Z.eqb a) L <? length L)%nat then Some j else None) /\
    os !! j = Some o' /\
    j = Nat.min (find_idx (Z.eqb a) L) (length L - 1).
Proof.
  induction n as [|n IH]; intros b o Hb Ho Hno;
    destruct (order_node b) as (o1 & x & Ho1 & Hx & Hn); try lia; simplify_eq;
    pose proof (find_idx_le (Z.eqb a) L) as Hfle;
    cbn [um_scan]; rewrite (at_ok _ _ _ Hn); cbn [nd_addr nd_next].
  all: assert (b <= find_idx (Z.eqb a) L)%nat as Hge by
    (apply Nat.nlt_ge; intros Hlt; destruct (find_idx_lt (Z.eqb a) L) as (y & Hy & Ey & _); [lia|];
     apply Z.eqb_eq in Ey; subst y; by eapply Hno).
  all: destruct (Z.eqb_spec x a) as [->|Hne].
  1,3: (assert (find_idx (Z.eqb a) L = b) as E by
    (apply Nat.le_antisymm; [eapply find_idx_some; [exact Hx|apply Z.eqb_refl]|done]);
    exists b, o; rewrite E, (proj2 (Nat.ltb_lt b (length L))) by lia; split_and!; [done|done|lia]).
  - exists b, o. simpl. destruct (Nat.ltb_spec (find_idx (Z.eqb a) L) (length L)) as [Hlt|Hlt].
    + exfalso. destruct (find_idx_lt _ _ Hlt) as (y & Hy & Ey & _). apply Z.eqb_eq in Ey. subst y.
      assert (find_idx (Z.eqb a) L = b) as E by lia. rewrite E in Hy. congruence.
    + split_and!; [done|done|lia].
  - cbn [Nat.eqb]. destruct (order_node (S b)) as (o2 & y & Ho2 & Hy & _); [lia|]. rewrite Ho2.
    destruct (IH (S b) o2) as (j & o' & E & Hj); [lia|done| |].
    + intros i z Hi Hz. destruct (decide (i = b)) as [->|]; [congruence|]. by eapply (Hno i z); [lia|].
    + exists j, o'. rewrite <- E. cbn [prev_of]. by rewrite Ho.
Qed.

(** Writing an address. *)
Lemma um_write j o x a :
  os !! j = Some o -> L !! j = Some x ->
  um_order (<[o := mkUNode a (os !! S j)]> nodes) head (<[j := a]> L) os.
Proof.
  intros Ho Hx. destruct HO as (Hnd & Hl & Hh & H). split_and!; try done; [by rewrite length_insert|].
  intros i y Hi. destruct (decide (i = j)) as [->|Hne].
  - rewrite list_lookup_insert_eq in Hi by (by eapply lookup_lt_Some). simplify_eq.
    exists o. split; [done|]. rewrite list_lookup_insert_eq; [done|].
    destruct (H j x Hx) as (o' & Ho' & Hn). simplify_eq. by eapply lookup_lt_Some.
  - rewrite list_lookup_insert_ne in Hi by done. destruct (H i y Hi) as (o' & Ho' & Hn).
    exists o'. split; [done|]. rewrite list_lookup_insert_ne; [done|]. intros <-.
    apply Hne. by eapply NoDup_lookup.
Qed.

(** Moving the node at the place [j] to the front. *)
Lemma um_front j o a :
  os !! j = Some o -> L !! j = Some a ->
  exists nodes' head', um_to_front (prev_of os j) o head nodes = Ok (nodes', head') /\
    length nodes' = length nodes /\ um_list nodes' head' (a :: delete j L).
Proof.
  intros Ho Ha. pose proof HO as (Hnd & Hl & Hh & H). destruct j as [|j].
  { simpl. exists nodes, head. split_and!; [done|done|]. exists os.
    replace (a :: delete 0%nat L) with L by (destruct L; simplify_eq/=; done). done. }
  cbn [prev_of]. pose proof (lookup_lt_Some _ _ _ Ha) as Hj.
  destruct (order_node j) as (p & x & Hp & Hx & Hnp); [lia|].
  destruct (H (S j) a Ha) as (OO & HOO & Hno). assert (OO = o) as -> by congruence.
  assert (p <> o) as Hpo by (intros ->; assert (j = S j) by (by eapply NoDup_lookup); lia).
  pose proof (lookup_lt_Some _ _ _ Hnp) as Hplt. pose proof (lookup_lt_Some _ _ _ Hno) as Holt.
  unfold um_to_front. rewrite Hp, (at_ok _ _ _ Hno). unfold um_set_next.
  rewrite (at_ok _ _ _ Hnp), set_at_ok by done. cbn [nd_addr nd_next].
  assert ((<[p := mkUNode x (os !! S (S j))]> nodes) !! o = Some (mkUNode a (os !! S (S j)))) as Hno1
    by (by rewrite list_lookup_insert_ne).
  rewrite (at_ok _ _ _ Hno1), set_at_ok by (by rewrite length_insert). cbn [nd_addr].
  eexists _, _. split; [done|]. split; [by rewrite !length_insert|].
  assert (forall i, (o :: delete (S j) os) !! S i = if decide (i < S j)%nat then os !! i else os !! S i) as Hos.
  { intros i. simpl. case_decide; [by rewrite list_lookup_delete_lt|rewrite list_lookup_delete_ge; [done|lia]]. }
  exists (o :: delete (S j) os). split_and!.
  - pose proof (delete_Permutation _ _ _ Ho) as Hperm. by rewrite <- Hperm.
  - simpl. rewrite !length_delete by eauto. lia.
  - done.
  - intros i y Hi. destruct i as [|i].
    + simpl in Hi. simplify_eq. exists o. split; [done|].
      rewrite list_lookup_insert_eq by (by rewrite length_insert). rewrite Hos.
      rewrite decide_True by lia. by rewrite Hh.
    + rewrite !Hos. simpl in Hi. destruct (decide (i < S j)%nat) as [Hij|Hij].
      * rewrite list_lookup_delete_lt in Hi by done. destruct (H i y Hi) as (oi & Hoi & Hni).
        exists oi. split; [done|].
        assert (oi <> o) as Hoo by (intros ->; assert (i = S j) by (by eapply NoDup_lookup); lia).
        rewrite list_lookup_insert_ne by done. destruct (decide (i = j)) as [->|Hne].
        -- simplify_eq. rewrite list_lookup_insert_eq by done. by rewrite decide_False by lia.
        -- rewrite list_lookup_insert_ne; [by rewrite decide_True by lia|].
           intros ->. apply Hne. by eapply NoDup_lookup.
      * rewrite list_lookup_delete_ge in Hi by lia. destruct (H (S i) y Hi) as (oi & Hoi & Hni).
        exists oi. split; [done|].
        assert (oi <> o) as Hoo by (intros ->; assert (S i = S j) by (by eapply NoDup_lookup); lia).
        assert (oi <> p) as Hop by (intros ->; assert (S i = j) by (by eapply NoDup_lookup); lia).
        rewrite !list_lookup_insert_ne by done. by rewrite decide_False by lia.
Qed.
End List.

(** ** One access to a set *)

(** The addresses after an access, and the place of a hit. *)
Definition um_hit (L : list Z) (a : Z) : option nat :=
  let i := find_idx (Z.eqb a) L in if (i <? length L)%nat then Some i else None.
Definition um_after (L : list Z) (a : Z) : list Z :=
  match um_hit L a with
  | Some i => a :: delete i L
  | None => a :: take (length L - 1) L
  end.

(** The counters after an access. *)
Definition um_counted (h : option nat) (u u' : UMon) : Prop :=
  match h with
  | Some b => exists x, um_curWayHits u !! b = Some x /\
      um_curWayHits u' = <[b := u64 (x + 1)]> (um_curWayHits u) /\ um_curMisses u' = um_curMisses u
  | None => um_curWayHits u' = um_curWayHits u /\ um_curMisses u' = u64 (um_curMisses u + 1)
  end.

Definition um_same_shape (u u' : UMon) : Prop :=
  um_buckets u' = um_buckets u /\ um_sets u' = um_sets u /\
  um_samplingFactorBits u' = um_samplingFactorBits u /\ um_setsBits u' = um_setsBits u /\ um_hf u' = um_hf u.

Lemma um_touch_list u set a nodes head L :
  um_array u !! set = Some nodes -> um_heads u !! set = Some head -> um_list nodes head L ->
  length L = um_buckets u -> length (um_curWayHits u) = um_buckets u -> (0 < um_buckets u)%nat ->
  wp (um_touch set a)
    (fun _ u' => exists nodes' head', um_array u' = <[set := nodes']> (um_array u) /\
       um_heads u' = <[set := head']> (um_heads u) /\ um_list nodes' head' (um_after L a) /\
       um_counted (um_hit L a) u u' /\ um_same_shape u u') u.
Proof.
  intros Hnodes Hhead [os HO] HL Hhits Hb. unfold um_touch. wp_step. wp_step.
  wp_step. eapply wp_lift; [by apply at_ok|]. wp_step. eapply wp_lift; [by apply at_ok|].
  pose proof HO as (_ & _ & Hh & _).
  destruct (um_scan_ok nodes head L os HO a (um_buckets u - 1) 0 head) as (j & o & Hscan & Ho & Hj);
    [lia|done|intros; lia|].
  replace (S (um_buckets u - 1)) with (um_buckets u) in Hscan by lia. cbn [prev_of] in Hscan.
  wp_step. eapply wp_lift; [exact Hscan|]. cbv iota.
  assert (set < length (um_array u))%nat by (by eapply lookup_lt_Some).
  assert (set < length (um_heads u))%nat by (by eapply lookup_lt_Some).
  unfold um_after, um_hit. destruct (Nat.ltb_spec (find_idx (Z.eqb a) L) (length L)) as [Hlt|Hge].
  - destruct (find_idx_lt _ _ Hlt) as (x & Hx & Ex & _). apply Z.eqb_eq in Ex as <-.
    assert (j = find_idx (Z.eqb a) L) as -> by lia.
    destruct (lookup_lt_is_Some_2 (um_curWayHits u) (find_idx (Z.eqb a) L)) as [y Hy]; [lia|].
    destruct (um_front nodes head L os HO _ o a Ho Hx) as (nodes' & head' & Hf & _ & HL').
    wp_step. wp_step. eapply wp_lift.
    { unfold um_inc. rewrite (at_ok _ _ _ Hy). apply set_at_ok. lia. }
    do 3 wp_step. wp_step. eapply wp_lift; [exact Hf|]. cbv iota.
    wp_step. eapply wp_lift; [by apply set_at_ok|]. wp_step. eapply wp_lift; [by apply set_at_ok|].
    wp_step. exists nodes', head'. cbn. split_and!; try done. by exists y.
  - pose proof (find_idx_le (Z.eqb a) L) as Hle.
    assert (j = length L - 1)%nat as -> by lia.
    destruct (order_node nodes head L os HO (length L - 1)) as (o' & x & Ho' & Hx & Hn); [lia|].
    assert (o' = o) as -> by congruence.
    assert (os !! S (length L - 1) = None) as Hnone.
    { apply lookup_ge_None. destruct HO as (_ & Hl & _). lia. }
    destruct (um_front (<[o := mkUNode a None]> nodes) head (<[length L - 1 := a]> L)%nat os)
      with (j := (length L - 1)%nat) (o := o) (a := a) as (nodes' & head' & Hf & _ & HL').
    { pose proof (um_write nodes head L os HO (length L - 1) o x a Ho Hx) as Hw. by rewrite Hnone in Hw. }
    { done. }
    { apply list_lookup_insert_eq. lia. }
    wp_step. wp_step. wp_step. wp_step. eapply wp_lift; [by apply at_ok|]. wp_step.
    wp_step; [cbn; by rewrite Hnone|]. eapply wp_lift.
    { cbn. rewrite Hnone. apply set_at_ok. by eapply lookup_lt_Some. }
    wp_step. eapply wp_lift; [exact Hf|]. cbv iota.
    wp_step. eapply wp_lift; [by apply set_at_ok|]. wp_step. eapply wp_lift; [by apply set_at_ok|].
    wp_step. exists nodes', head'. cbn. split_and!; try done.
    replace (take (length L - 1) L) with (delete (length L - 1) (<[length L - 1 := a]> L))%nat; [done|].
    rewrite delete_take_drop, take_insert_ge, drop_ge, app_nil_r by (rewrite ?length_insert; lia). done.
Qed.

(** ** What a utility monitor counts *)

(** ** Stacks *)

Lemma find_idx_app {A} (p : A -> bool) l k :
  find_idx p (l ++ k) = if (find_idx p l <? length l)%nat then find_idx p l
                        else (length l + find_idx p k)%nat.
Proof.
  induction l as [|x l IH]; simpl; [done|]. destruct (p x); [done|]. rewrite IH.
  destruct (Nat.ltb_spec (find_idx p l) (length l)), (Nat.ltb_spec (S (find_idx p l)) (S (length l))); lia.
Qed.

Lemma find_idx_in (a : Z) (l : list Z) : (find_idx (Z.eqb a) l < length l)%nat <-> a ∈ l.
Proof.
  split; intros H.
  - destruct (find_idx_lt _ _ H) as (x & Hx & E & _). apply Z.eqb_eq in E as <-. by eapply list_elem_of_lookup_2.
  - apply list_elem_of_lookup in H as [i Hi]. eapply Nat.le_lt_trans; [|by eapply lookup_lt_Some].
    eapply find_idx_some; [done|apply Z.eqb_refl].
Qed.

Lemma in_take {A} (x : A) n l : x ∈ take n l -> x ∈ l.
Proof. intros H. apply elem_of_take in H as (i & Hi & _). by eapply list_elem_of_lookup_2. Qed.

Lemma nodup_take {A} n (l : list A) : NoDup l -> NoDup (take n l).
Proof. intros H. rewrite <- (take_drop n l) in H. by apply list.NoDup_app in H as [H _]. Qed.

Lemma delete_app_first {A} i (l k : list A) : (i < length l)%nat -> delete i (l ++ k) = delete i l ++ k.
Proof. revert i. induction l as [|x l IH]; intros [|i] Hi; simpl in *; try lia; [done|]. by rewrite IH by lia. Qed.

Lemma filter_absent (a : Z) (l : list Z) : a ∉ l -> filter (fun b => b <> a) l = l.
Proof.
  induction l as [|x l IH]; intros H; [done|]. apply not_elem_of_cons in H as [H1 H2].
  rewrite filter_cons_True by done. by rewrite IH.
Qed.

Lemma filter_delete (a : Z) (l : list Z) : NoDup l -> a ∈ l ->
  filter (fun b => b <> a) l = delete (find_idx (Z.eqb a) l) l.
Proof.
  induction l as [|x l IH]; intros Hnd Ha; [by apply not_elem_of_nil in Ha|].
  apply list.NoDup_cons in Hnd as [Hx Hnd]. simpl. destruct (Z.eqb_spec a x) as [->|Hne].
  - rewrite filter_cons_False by auto. by apply filter_absent.
  - rewrite filter_cons_True by done. apply elem_of_cons in Ha as [?|Ha]; [done|]. by rewrite IH.
Qed.

(** A cache of [c] ways holds the first [c] addresses of a larger one. *)
Lemma take_filter_take (a : Z) c (l : list Z) : NoDup l ->
  take c (filter (fun b => b <> a) l) = take c (filter (fun b => b <> a) (take (S c) l)).
Proof.
  revert c. induction l as [|x l IH]; intros c Hnd; [done|]. apply list.NoDup_cons in Hnd as [Hx Hnd].
  simpl. destruct (decide (x = a)) as [->|Hne].
  - rewrite !filter_cons_False by auto.
    rewrite (filter_absent a l) by done.
    rewrite (filter_absent a (take c l)) by (intros H; by eapply Hx, in_take).
    by rewrite take_take, Nat.min_id.
  - rewrite !filter_cons_True by done. destruct c as [|c]; [done|]. simpl. f_equal. by apply IH.
Qed.

Lemma lru_after_take c b S a : (c <= b)%nat -> NoDup S -> take c (lru_after b S a) = lru_after c (take c S) a.
Proof.
  intros Hc Hnd. unfold lru_after. rewrite take_take, Nat.min_l by done. destruct c as [|c]; [done|].
  simpl. f_equal. by apply take_filter_take.
Qed.

Lemma lru_after_nodup b S a : NoDup S -> NoDup (lru_after b S a).
Proof.
  intros H. apply nodup_take, list.NoDup_cons. split; [|by apply list.NoDup_filter].
  intros Hin. apply list_elem_of_filter in Hin as [? _]. done.
Qed.

(** The list of a set: the stack, and nodes that have not been used yet. *)
Definition stack_ok (b : nat) (L S : list Z) : Prop :=
  L = S ++ replicate (b - length S) 0 /\ (length S <= b)%nat /\ NoDup S /\ 0 ∉ S.

Lemma stack_hit b L S a : stack_ok b L S -> a <> 0 ->
  um_hit L a = if bool_decide (a ∈ S) then Some (find_idx (Z.eqb a) S) else None.
Proof.
  intros (-> & Hl & _) Ha. unfold um_hit. rewrite find_idx_app, length_app, length_replicate.
  case_bool_decide as Hin.
  - apply find_idx_in in Hin. rewrite (proj2 (Nat.ltb_lt _ _) Hin). by rewrite (proj2 (Nat.ltb_lt _ _)) by lia.
  - assert ((find_idx (Z.eqb a) S <? length S)%nat = false) as ->
      by (apply Nat.ltb_ge, Nat.nlt_ge; intros H; by apply find_idx_in in H).
    assert (~ (find_idx (Z.eqb a) (replicate (b - length S) 0%Z) < length (replicate (b - length S) 0%Z))%nat) as Hz.
    { intros H. apply find_idx_in, elem_of_replicate in H as [? _]. done. }
    rewrite length_replicate in Hz. rewrite (proj2 (Nat.ltb_ge _ _)) by lia. done.
Qed.

Lemma stack_after b L S a : (0 < b)%nat -> stack_ok b L S -> a <> 0 ->
  stack_ok b (um_after L a) (lru_after b S a).
Proof.
  intros Hb HS Ha. pose proof (stack_hit b L S a HS Ha) as Hhit. destruct HS as (HL & Hl & Hnd & H0).
  assert (length L = b) as HLb by (rewrite HL, length_app, length_replicate; lia).
  split; [|split_and!].
  - unfold um_after. rewrite Hhit. unfold lru_after. case_bool_decide as Hin.
    + rewrite filter_delete by done. apply find_idx_in in Hin.
      destruct (lookup_lt_is_Some_2 _ _ Hin) as [x Hx].
      assert (length (delete (find_idx (Z.eqb a) S) S) = (length S - 1)%nat) as Hd
        by (rewrite length_delete by eauto; lia).
      rewrite take_ge by (simpl; lia). simpl. f_equal.
      rewrite HL, delete_app_first by done. do 2 f_equal. rewrite Hd. lia.
    + rewrite filter_absent by done. destruct b as [|b]; [lia|].
      rewrite HLb. cbn [take app length]. replace (Datatypes.S b - 1)%nat with b by lia.
      f_equal. rewrite HL, take_app, take_replicate. do 2 f_equal. rewrite length_take. lia.
  - unfold lru_after. rewrite length_take. lia.
  - by apply lru_after_nodup.
  - intros Hin. apply in_take in Hin. apply elem_of_cons in Hin as [?|Hin]; [done|].
    by apply list_elem_of_filter in Hin as [_ ?].
Qed.

(** ** The counters *)
Definition sumZ : list Z -> Z := foldr Z.add 0.

(** What [getMisses] reports for [c] ways. *)
Definition um_miss (u : UMon) (c : nat) : Z := u64 (um_curMisses u + sumZ (drop c (um_curWayHits u))).

Lemma sumZ_insert c i x y l : l !! i = Some x ->
  sumZ (drop c (<[i := y]> l)) = sumZ (drop c l) + (if (i <? c)%nat then 0 else y - x).
Proof.
  revert c i. induction l as [|z l IH]; intros [|c] [|i] Hi; simplify_eq/=; try lia.
  - specialize (IH 0%nat i Hi). rewrite !drop_0 in IH. simpl in IH. lia.
  - rewrite IH by done. destruct (Nat.ltb_spec i c), (Nat.ltb_spec (S i) (S c)); lia.
Qed.

Lemma um_miss_counted u u' S a c : NoDup S ->
  um_counted (if bool_decide (a ∈ S) then Some (find_idx (Z.eqb a) S) else None) u u' ->
  um_miss u' c = u64 (um_miss u c + if bool_decide (a ∈ take c S) then 0 else 1).
Proof.
  intros Hnd H. unfold um_miss.
  assert (forall x y, u64 (u64 x + y) = u64 (x + y)) as Hu by (intros; unfold u64; apply Zplus_mod_idemp_l).
  rewrite Hu. case_bool_decide as Hin.
  - destruct H as (x & Hx & Hh & Hm). rewrite Hh, Hm, (sumZ_insert c _ x) by done.
    assert (a ∈ take c S <-> (find_idx (Z.eqb a) S < c)%nat) as Hiff.
    { apply find_idx_in in Hin as Hlt. destruct (find_idx_lt _ _ Hlt) as (z & Hz & Ez & _).
      apply Z.eqb_eq in Ez as <-. split; intros Hc.
      - apply list_elem_of_lookup in Hc as [i Hi]. apply lookup_take_Some in Hi as [Hi Hic].
        assert (i = find_idx (Z.eqb a) S) as <- by (by eapply NoDup_lookup). done.
      - apply list_elem_of_lookup. exists (find_idx (Z.eqb a) S). by rewrite lookup_take_lt. }
    destruct (Nat.ltb_spec (find_idx (Z.eqb a) S) c).
    + rewrite bool_decide_true by (by apply Hiff). f_equal. lia.
    + rewrite bool_decide_false by (rewrite Hiff; lia).
      transitivity (u64 (u64 (x + 1) + (um_curMisses u + sumZ (drop c (um_curWayHits u)) - x))); [f_equal; lia|].
      rewrite Hu. f_equal. lia.
  - destruct H as [Hh Hm]. rewrite Hh, Hm.
    rewrite bool_decide_false by (intros Hc; by apply in_take in Hc).
    rewrite Hu. f_equal. lia.
Qed.

(** [getMisses] reports [um_miss] for every number of ways. *)
Lemma um_curve_ok hits b m total0 : length hits = b -> forall n misses total,
  (n <= b)%nat -> length misses = S b -> u64 total = u64 (total0 + sumZ (drop n hits)) ->
  in_u64 total ->
  (forall c, (n < c <= b)%nat -> misses !! c = Some (u64 (total0 + sumZ (drop c hits)))) -> m = (b - n)%nat ->
  exists total' misses', um_curve hits b (seq m n) total misses = Ok (total', misses') /\
    length misses' = S b /\ in_u64 total' /\ total' = u64 (total0 + sumZ hits) /\
    forall c, (0 < c <= b)%nat -> misses' !! c = Some (u64 (total0 + sumZ (drop c hits))).
Proof.
  intros Hh n. revert m. induction n as [|n IH]; intros m misses total Hn Hl Ht Hr Hm ->.
  - simpl. exists total, misses. split_and!; try done.
    rewrite drop_0 in Ht. rewrite <- Ht. by rewrite u64_id.
  - cbn [seq um_curve]. replace (b - (b - S n))%nat with (S n) by lia.
    rewrite set_at_ok by lia. destruct (lookup_lt_is_Some_2 hits n) as [x Hx]; [lia|].
    replace (S n - 1)%nat with n by lia. rewrite (at_ok _ _ _ Hx).
    replace (S (b - S n)) with (b - n)%nat by lia. apply IH; try done; try lia.
    + by rewrite length_insert.
    + unfold u64. rewrite Z.mod_mod by lia. fold (u64 (total + x)).
      assert (drop n hits = x :: drop (S n) hits) as -> by (by apply drop_S). simpl.
      unfold u64 in *. rewrite <- Zplus_mod_idemp_l, Ht, Zplus_mod_idemp_l. f_equal. lia.
    + apply u64_range.
    + intros c Hc. destruct (decide (c = S n)) as [->|Hne].
      * rewrite list_lookup_insert_eq by lia. f_equal. rewrite <- Ht. by rewrite u64_id.
      * rewrite list_lookup_insert_ne by done. apply Hm. lia.
Qed.

Lemma um_getMisses_ok u misses :
  length (um_curWayHits u) = um_buckets u -> length misses = S (um_buckets u) -> in_u64 (um_curMisses u) ->
  exists ms, um_getMisses u misses = Ok ms /\ length ms = S (um_buckets u) /\
    forall c, (c <= um_buckets u)%nat -> ms !! c = Some (um_miss u c).
Proof.
  intros Hh Hm Hr. unfold um_getMisses.
  destruct (um_curve_ok (um_curWayHits u) (um_buckets u) 0 (um_curMisses u) Hh (um_buckets u) misses (um_curMisses u))
    as (total & ms & -> & Hl & _ & Ht & Hc); try done; try lia.
  { rewrite drop_ge by lia. simpl. f_equal. lia. }
  rewrite set_at_ok by lia. eexists. split; [done|]. split; [by rewrite length_insert|].
  intros c Hcb. unfold um_miss. destruct c as [|c].
  - rewrite list_lookup_insert_eq by lia. by rewrite Ht, drop_0.
  - rewrite list_lookup_insert_ne by done. apply Hc. lia.
Qed.

(** ** The monitor *)

(** The hash functions, the counters and the lists; [caches] are the stacks. *)
Record um_rel (u : UMon) (caches : nat -> list Z) : Prop := {
  ur_buckets : (0 < um_buckets u)%nat;
  ur_hits : length (um_curWayHits u) = um_buckets u;
  ur_misses : in_u64 (um_curMisses u);
  ur_array : length (um_array u) = um_sets u;
  ur_heads : length (um_heads u) = um_sets u;
  ur_hash : h3_ok (um_hf u) /\ h3_numFuncs (um_hf u) = 2%nat;
  ur_mask : 0 <= um_setsBits u < 64 /\ 2 ^ um_setsBits u <= Z.of_nat (um_sets u);
  ur_stacks : forall k, (k < um_sets u)%nat -> exists nodes head L, um_array u !! k = Some nodes /\
    um_heads u !! k = Some head /\ um_list nodes head L /\ stack_ok (um_buckets u) L (caches k);
  ur_nodup : forall k, NoDup (caches k)
}.

Lemma low_mask_ones b : 0 <= b < 64 -> low_mask b = 2 ^ b - 1.
Proof.
  intros Hb. unfold low_mask. rewrite Z.shiftl_mul_pow2 by lia.
  replace (u64 ((2 ^ 64 - 1) * 2 ^ b)) with (2 ^ 64 - 2 ^ b).
  - unfold Z.lnot. replace (Z.pred (- (2 ^ 64 - 2 ^ b))) with (2 ^ b - 1 + (-1) * 2 ^ 64) by lia.
    unfold u64. rewrite Z.mod_add by lia. apply Z.mod_small.
    pose proof (Z.pow_lt_mono_r 2 b 64). pose proof (Z.pow_pos_nonneg 2 b). lia.
  - unfold u64. replace ((2 ^ 64 - 1) * 2 ^ b) with ((2 ^ 64 - 2 ^ b) + (2 ^ b - 1) * 2 ^ 64) by lia.
    rewrite Z.mod_add by lia. symmetry. apply Z.mod_small.
    pose proof (Z.pow_lt_mono_r 2 b 64). pose proof (Z.pow_pos_nonneg 2 b). lia.
Qed.

Lemma set_below u caches h : um_rel u caches ->
  (Z.to_nat (Z.land h (low_mask (um_setsBits u))) < um_sets u)%nat.
Proof.
  intros H. destruct (ur_mask _ _ H) as [Hb Hs]. rewrite low_mask_ones by done.
  replace (2 ^ um_setsBits u - 1) with (Z.ones (um_setsBits u)) by (rewrite Z.ones_equiv; lia).
  rewrite Z.land_ones by lia.
  pose proof (Z.mod_pos_bound h (2 ^ um_setsBits u)). pose proof (Z.pow_pos_nonneg 2 (um_setsBits u)). lia.
Qed.

Lemma um_touch_ok u caches k a : um_rel u caches -> (k < um_sets u)%nat -> a <> 0 ->
  wp (um_touch k a)
    (fun _ u' => um_rel u' (<[k := lru_after (um_buckets u) (caches k) a]> caches) /\ um_same_shape u u' /\
       forall c, um_miss u' c = u64 (um_miss u c + if bool_decide (a ∈ take c (caches k)) then 0 else 1)) u.
Proof.
  intros H Hk Ha. pose proof (ur_buckets _ _ H) as Hb. pose proof (ur_hits _ _ H) as Hh.
  destruct (ur_stacks _ _ H k Hk) as (nodes & head & L & Hn & Hd & HL & HS).
  assert (length L = um_buckets u) as HLb.
  { destruct HS as (-> & ? & _). rewrite length_app, length_replicate. lia. }
  eapply wp_mono; [by apply (um_touch_list u k a nodes head L)|].
  intros [] u' (nodes' & head' & Earr & Ehd & HL' & Hcnt & Hshape).
  rewrite (stack_hit _ _ _ _ HS Ha) in Hcnt.
  split; [|split; [done|intros c; by apply um_miss_counted; [apply (ur_nodup _ _ H)|]]].
  destruct Hshape as (E1 & E2 & E3 & E4 & E5). split; rewrite ?E1, ?E2, ?E4, ?E5; try apply H.
  - unfold um_counted in Hcnt. case_bool_decide; [|by destruct Hcnt as [-> _]].
    destruct Hcnt as (x & _ & -> & _). by rewrite length_insert.
  - unfold um_counted in Hcnt. case_bool_decide; [destruct Hcnt as (x & _ & _ & ->); apply (ur_misses _ _ H)|].
    destruct Hcnt as [_ ->]. apply u64_range.
  - rewrite Earr, length_insert. apply (ur_array _ _ H).
  - rewrite Ehd, length_insert. apply (ur_heads _ _ H).
  - intros j Hj. rewrite Earr, Ehd. destruct (decide (j = k)) as [->|Hne].
    + exists nodes', head', (um_after L a).
      rewrite !list_lookup_insert_eq by (rewrite ?(ur_array _ _ H), ?(ur_heads _ _ H); done).
      rewrite fn_lookup_insert. split_and!; try done. by apply stack_after.
    + rewrite !list_lookup_insert_ne by done. rewrite fn_lookup_insert_ne by done. by apply (ur_stacks _ _ H).
  - intros j. destruct (decide (j = k)) as [->|Hne].
    + rewrite fn_lookup_insert. apply lru_after_nodup, (ur_nodup _ _ H).
    + rewrite fn_lookup_insert_ne by done. apply (ur_nodup _ _ H).
Qed.

(** ** Sequences of accesses *)

Lemma lru_misses_ext c f g trace : (forall k, f k = g k) -> lru_misses c f trace = lru_misses c g trace.
Proof.
  revert f g. induction trace as [|[k a] trace IH]; intros f g Hfg; simpl; [done|].
  rewrite (Hfg k). f_equal. apply IH. intros j. destruct (decide (j = k)) as [->|].
  - by rewrite !fn_lookup_insert.
  - by rewrite !fn_lookup_insert_ne.
Qed.

Lemma lru_state_take c b trace : (c <= b)%nat -> forall f g,
  (forall k, NoDup (g k)) -> (forall k, f k = take c (g k)) ->
  forall k, lru_state c f trace k = take c (lru_state b g trace k).
Proof.
  intros Hc. induction trace as [|[j a] trace IH]; intros f g Hnd Hfg k; simpl; [done|].
  apply IH.
  - intros i. destruct (decide (i = j)) as [->|].
    + rewrite fn_lookup_insert. by apply lru_after_nodup.
    + by rewrite fn_lookup_insert_ne.
  - intros i. destruct (decide (i = j)) as [->|].
    + rewrite !fn_lookup_insert, Hfg. symmetry. by apply lru_after_take.
    + by rewrite !fn_lookup_insert_ne.
Qed.

Lemma um_trace_shape u u' as_ : um_same_shape u u' -> um_trace u' as_ = um_trace u as_.
Proof. intros (_ & _ & E3 & E4 & E5). unfold um_trace, um_sample. by rewrite E3, E4, E5. Qed.

Lemma um_same_shape_trans u1 u2 u3 : um_same_shape u1 u2 -> um_same_shape u2 u3 -> um_same_shape u1 u3.
Proof. unfold um_same_shape. intros. intuition congruence. Qed.

(** What a run of accesses leaves. *)
Definition um_after_run (u : UMon) (caches : nat -> list Z) (trace : list (nat * Z)) (u' : UMon) : Prop :=
  um_rel u' (lru_state (um_buckets u) caches trace) /\ um_same_shape u u' /\
  forall c, (c <= um_buckets u)%nat ->
    um_miss u' c = u64 (um_miss u c + Z.of_nat (lru_misses c (fun k => take c (caches k)) trace)).

Lemma um_miss_range u c : in_u64 (um_miss u c).
Proof. apply u64_range. Qed.

Lemma um_access_ok u caches a : um_rel u caches -> a <> 0 ->
  wp (um_access a) (fun _ u' => um_after_run u caches (um_trace u [a]) u') u.
Proof.
  intros H Ha. destruct (ur_hash _ _ H) as [Hok Hn].
  destruct (h3_hash_total (um_hf u) 0 a) as [h0 E0]; [done|lia|].
  destruct (h3_hash_total (um_hf u) 1 a) as [h1 E1]; [done|lia|].
  assert (um_trace u [a] = if Z.land h0 (low_mask (um_samplingFactorBits u)) =? 0
            then [(Z.to_nat (Z.land h1 (low_mask (um_setsBits u))), a)] else []) as ->.
  { unfold um_trace, um_sample. simpl. rewrite E0, E1. by destruct (_ =? 0). }
  unfold um_access. wp_step. wp_step. wp_step. eapply wp_lift; [exact E0|].
  destruct (Z.land h0 _ =? 0); cbn [negb].
  - wp_step. eapply wp_lift; [exact E1|]. eapply wp_mono; [apply (um_touch_ok u caches); [done|by eapply set_below|done]|].
    intros [] u' (HR & Hs & Hm). split; [done|]. split; [done|]. intros c Hc. rewrite Hm. simpl.
    do 2 f_equal. case_bool_decide; lia.
  - wp_step. split; [done|]. split; [done|]. intros c Hc. simpl. rewrite Z.add_0_r. symmetry.
    apply u64_id, um_miss_range.
Qed.

Lemma um_run_ok as_ : forall u caches, um_rel u caches -> Forall (fun a => a <> 0) as_ ->
  wp (forM as_ um_access) (fun _ u' => um_after_run u caches (um_trace u as_) u') u.
Proof.
  induction as_ as [|a as_ IH]; intros u caches H Has; cbn [forM].
  - wp_step. split; [done|]. split; [done|]. intros c Hc. simpl. rewrite Z.add_0_r. symmetry.
    apply u64_id, um_miss_range.
  - apply Forall_cons_1 in Has as [Ha Has]. wp_step. eapply wp_mono; [by apply um_access_ok|].
    intros [] u1 (H1 & Hs1 & Hm1). eapply wp_mono; [by apply (IH u1)|]. intros [] u2 (H2 & Hs2 & Hm2).
    rewrite (um_trace_shape u u1) in H2, Hm2 by done. destruct Hs1 as (Eb & Hs1).
    assert (um_trace u (a :: as_) = um_trace u [a] ++ um_trace u as_) as Et.
    { unfold um_trace. simpl. by destruct (um_sample u a). }
    unfold um_after_run. rewrite Et, Eb in *. clear IH Et.
    assert (length (um_trace u [a]) <= 1)%nat as Hlen by (unfold um_trace; simpl; by destruct (um_sample u a); simpl; lia).
    destruct (um_trace u [a]) as [|[k b] [|]]; simpl in Hlen; [| |lia].
    + simpl in *. split; [done|]. split; [by eapply um_same_shape_trans|]. intros c Hc.
      rewrite Hm2, Hm1 by done. rewrite Z.add_0_r. f_equal. f_equal. symmetry. rewrite u64_id; [|apply um_miss_range]. done.
    + simpl in *. split; [done|]. split; [by eapply um_same_shape_trans|]. intros c Hc.
      rewrite Hm2, Hm1 by done. unfold u64. rewrite Zplus_mod_idemp_l. f_equal.
      rewrite (lru_misses_ext c (fun j => take c (<[k := lru_after (um_buckets u) (caches k) b]> caches j))
                 (<[k := lru_after c (take c (caches k)) b]> (fun j => take c (caches j)))).
      * lia.
      * intros j. destruct (decide (j = k)) as [->|].
        -- rewrite !fn_lookup_insert. apply lru_after_take; [done|apply (ur_nodup _ _ H)].
        -- by rewrite !fn_lookup_insert_ne.
Qed.

(** ** An interval *)
Lemma um_next_ok u caches : um_rel u caches ->
  wp um_startNextInterval
    (fun _ u' => um_rel u' caches /\ um_same_shape u u' /\ forall c, um_miss u' c = 0) u.
Proof.
  intros H. unfold um_startNextInterval. wp_step. wp_step. wp_step. wp_step. cbn [um_set_counts um_buckets].
  pose proof (ur_hits _ _ H) as Hh.
  apply (wp_forM _ _ (fun pre u' => exists hits, u' = um_set_counts hits 0 u /\
    length hits = um_buckets u /\ forall i, (i < length pre)%nat -> hits !! i = Some 0)).
  - exists (um_curWayHits u). split_and!; [done|done|]. simpl. lia.
  - intros pre b post u' Hs (hits & -> & Hl & Hz). wp_step. wp_step.
    assert (seq 0 (um_buckets u) !! length pre = Some b) as Hb by (rewrite Hs; by apply list_lookup_middle).
    apply lookup_seq in Hb as [-> Hb]. wp_step. eapply wp_lift; [apply set_at_ok; cbn; lia|]. wp_step.
    exists (<[length pre := 0]> hits). cbn. split_and!; [done|by rewrite length_insert|].
    intros i Hi. rewrite length_app in Hi. simpl in Hi. destruct (decide (i = length pre)) as [->|].
    + apply list_lookup_insert_eq. lia.
    + rewrite list_lookup_insert_ne by done. apply Hz. lia.
  - intros u' (hits & -> & Hl & Hz). rewrite length_seq in Hz. split_and!.
    + split; cbn; try apply H; try done.
    + done.
    + intros c. unfold um_miss. cbn.
      assert (hits = replicate (um_buckets u) 0) as ->.
      { apply list_eq. intros i. destruct (Nat.lt_ge_cases i (um_buckets u)).
        - rewrite Hz by done. symmetry. by apply lookup_replicate.
        - rewrite !lookup_ge_None_2; [done|rewrite length_replicate; lia|lia]. }
      rewrite drop_replicate. assert (forall n, sumZ (replicate n 0) = 0) as -> by (induction n; simpl; lia). done.
Qed.

Lemma UMon_new_ok bankLines umonLines buckets :
  0 <= bankLines -> 0 < Z.of_nat buckets <= umonLines -> umonLines < 2 ^ 32 ->
  exists u, UMon_new bankLines umonLines buckets = Ok u /\ um_rel u (fun _ => []) /\ um_buckets u = buckets.
Proof.
  intros Hbank Hb Hu. unfold UMon_new.
  destruct (H3_new_ok 2 32 4026579629) as (h & -> & Hh & Hn); [lia|].
  unfold um_build, udiv. rewrite !(proj2 (Z.eqb_neq _ _)) by lia.
  eexists. split; [done|]. split; [|done].
  assert (0 < umonLines / Z.of_nat buckets) as Hs by (apply Z.div_str_pos; lia).
  assert (umonLines / Z.of_nat buckets <= umonLines) as Hs' by (apply Z.div_le_upper_bound; nia).
  split; cbn.
  - lia.
  - by rewrite length_replicate.
  - unfold in_u64. lia.
  - by rewrite length_replicate.
  - by rewrite length_replicate.
  - done.
  - unfold leading_bit. rewrite Z2Nat.id by lia. pose proof (Z.log2_spec (umonLines / Z.of_nat buckets) Hs).
    split; [|lia]. split; [apply Z.log2_nonneg|]. apply (Z.pow_lt_mono_r_iff 2); [lia..|].
    eapply Z.le_lt_trans; [apply H|]. lia.
  - intros k Hk. exists (um_new_set buckets), 0%nat, (replicate buckets 0).
    rewrite !(proj2 (lookup_replicate _ _ _ _)) by done. split_and!; try done.
    + apply um_new_list. lia.
    + split_and!; simpl; [by rewrite Nat.sub_0_r|lia|apply NoDup_nil_2|apply not_elem_of_nil].
  - intros k. apply NoDup_nil_2.
Qed.

(** The accesses of two intervals and the curve of the second. *)
Definition um_two_intervals (as1 as2 misses0 : list Z) : M UMon (list Z) :=
  forM as1 um_access ;;
  um_startNextInterval ;;
  forM as2 um_access ;;
  u <- get ;;
  lift (um_getMisses u misses0).

(** C7: a utility monitor counts the misses of all associativities at once.  After
    any accesses in one interval, [startNextInterval] and any accesses in the next,
    [getMisses] returns, and for every number of ways up to [buckets] the value at
    that place is the number of misses that a cache of so many ways with LRU
    replacement has on the sampled accesses of the second interval, when it has
    seen those of the first: although the monitor keeps one linked list per set
    and moves nodes to its front. *)
Theorem umon_counts_lru_misses bankLines umonLines buckets as1 as2 misses0 :
  0 <= bankLines -> 0 < Z.of_nat buckets <= umonLines -> umonLines < 2 ^ 32 ->
  Forall (fun a => a <> 0) as1 -> Forall (fun a => a <> 0) as2 -> length misses0 = S buckets ->
  exists u, UMon_new bankLines umonLines buckets = Ok u /\
    wp (um_two_intervals as1 as2 misses0)
      (fun misses _ => length misses = S buckets /\
         forall ways, (ways <= buckets)%nat ->
           misses !! ways = Some (u64 (Z.of_nat
             (lru_misses ways (lru_state ways (fun _ => []) (um_trace u as1)) (um_trace u as2))))) u.
Proof.
  intros Hbank Hb Hu H1 H2 Hm. destruct (UMon_new_ok bankLines umonLines buckets) as (u & E & HR & Hbk); try done.
  exists u. split; [exact E|]. unfold um_two_intervals. wp_step. eapply wp_mono; [by apply um_run_ok|].
  intros [] u1 (HR1 & Hs1 & _). wp_step. eapply wp_mono; [by apply um_next_ok|]. intros [] u2 (HR2 & Hs2 & Hz).
  assert (um_same_shape u u2) as Hs by (by eapply um_same_shape_trans).
  wp_step. eapply wp_mono; [by eapply um_run_ok|]. intros [] u3 (HR3 & Hs3 & Hm3).
  rewrite (um_trace_shape u u2) in HR3, Hm3 by done.
  assert (um_buckets u2 = buckets) as Eb2 by (destruct Hs as (-> & _); done).
  assert (um_buckets u3 = buckets) as Eb3 by (destruct Hs3 as (-> & _); done).
  wp_step. wp_step.
  destruct (um_getMisses_ok u3 misses0) as (ms & Ems & Hl & Hc);
    [apply (ur_hits _ _ HR3)|by rewrite Eb3|apply (ur_misses _ _ HR3)|].
  eapply wp_lift; [exact Ems|]. split; [by rewrite Eb3 in Hl|]. intros c Hcb.
  rewrite Hc, Hm3, Hz by lia. do 3 f_equal. rewrite Z.add_0_l. f_equal. apply lru_misses_ext. intros k.
  rewrite Hbk. symmetry. apply lru_state_take; [done|intros; apply NoDup_nil_2|intros; by rewrite take_nil].
Qed.

Lemma umon_counts_lru_misses_witness :
  exists u, UMon_new 64 16 4 = Ok u /\
    wp (um_two_intervals [5; 6; 7; 8; 9; 10] [5; 6; 5; 9; 11; 6; 5] [0; 0; 0; 0; 0])
      (fun misses _ => length misses = 5%nat) u.
Proof.
  destruct (umon_counts_lru_misses 64 16 4 [5; 6; 7; 8; 9; 10] [5; 6; 5; 9; 11; 6; 5] [0; 0; 0; 0; 0])
    as (u & E & H); [lia|lia|lia|repeat constructor; discriminate|repeat constructor; discriminate|reflexivity|].
  exists u. split; [exact E|]. eapply wp_mono; [exact H|]. intros misses s [Hl _]. exact Hl.
Defined.
