(* ===== verification/Partition.v ===== *)
(** * Cache partitioning

    [partition_mapper.*]: which partition a request belongs to; [partitioner.h]
    and [monitor.cpp]: the interface of monitors and the monitor made of one
    [UMon] per partition; [lookahead.cpp]: the partitioner; [WayPartReplPolicy]
    of [part_repl_policies.h].

    Sizes and allocations are [uint32_t].  The counters of statistics are kept,
    because the code changes them together with the sizes. *)

From stdpp Require Import base list strings.
From Stdlib Require Import ZArith Lia.
From S2P Require Import Prelude Numeric MemHierarchy ReplPolicy MtRand H3Hash Umon.
Local Open Scope Z_scope.

(** ** Mappers *)
Inductive PartMapper :=
| CorePartMapper (numCores : Z)
| InstrDataPartMapper
| InstrDataCorePartMapper (numCores : Z)
| ProcessPartMapper (numProcs : Z)
| InstrDataProcessPartMapper (numProcs : Z)
| ProcessGroupPartMapper.

(** The global variables that mappers read: the index of the process, the number
    of process groups and the group of each process. *)
Record ProcView := mkPV { pv_procIdx : Z; pv_numProcGroups : Z; pv_groups : list Z }.

Definition getNumPartitions (g : ProcView) (m : PartMapper) : Z :=
  match m with
  | CorePartMapper numCores => numCores
  | InstrDataPartMapper => 2
  | InstrDataCorePartMapper numCores => u32 (2 * numCores)
  | ProcessPartMapper numProcs => numProcs
  | InstrDataProcessPartMapper numProcs => u32 (2 * numProcs)
  | ProcessGroupPartMapper => pv_numProcGroups g
  end.

Definition getPartition (g : ProcView) (m : PartMapper) (req : MemReq) : res Z :=
  match m with
  | CorePartMapper _ => Ok (srcId req)
  | InstrDataPartMapper => Ok (Z.land (flags req) IFETCH)
  | InstrDataCorePartMapper numCores =>
      Ok (u32 (srcId req + (if is_flag req IFETCH then numCores else 0)))
  | ProcessPartMapper numProcs =>
      if pv_procIdx g <? numProcs then Ok (pv_procIdx g)
      else Err (AssertFail "partition_mapper.cpp: procIdx < numProcs")
  | InstrDataProcessPartMapper numProcs =>
      if pv_procIdx g <? numProcs
      then Ok (u32 (pv_procIdx g + (if is_flag req IFETCH then numProcs else 0)))
      else Err (AssertFail "partition_mapper.cpp: procIdx < numProcs")
  | ProcessGroupPartMapper =>
      match at_ (pv_groups g) (Z.to_nat (pv_procIdx g)) with
      | Err e => Err e
      | Ok groupIdx =>
          if groupIdx <? pv_numProcGroups g then Ok groupIdx
          else Err (AssertFail "partition_mapper.cpp: groupIdx < numProcGroups")
      end
  end.

(** ** Monitors *)

(** [class PartitionMonitor]: [access(partition, lineAddr)], [get(partition,
    bucket)] and [reset()]. *)
Class PartitionMonitor (Mon : Type) := {
  pm_access : nat -> Z -> M Mon unit;
  pm_get : nat -> nat -> M Mon Z;
  pm_reset : M Mon unit
}.

(** [UMonMonitor] *)
Record UMonMonitor := mkMM {
  mm_buckets : nat;
  mm_missCache : list Z;
  mm_missCacheValid : bool;
  mm_monitors : list UMon
}.

Definition mm_set_cache (l : list Z) (m : UMonMonitor) : UMonMonitor :=
  mkMM (mm_buckets m) l (mm_missCacheValid m) (mm_monitors m).
Definition mm_set_valid (b : bool) (m : UMonMonitor) : UMonMonitor :=
  mkMM (mm_buckets m) (mm_missCache m) b (mm_monitors m).
Definition mm_set_monitors (l : list UMon) (m : UMonMonitor) : UMonMonitor :=
  mkMM (mm_buckets m) (mm_missCache m) (mm_missCacheValid m) l.

Definition UMonMonitor_new (numLines umonLines : Z) (umonBuckets numPartitions buckets : nat)
    : res UMonMonitor :=
  if (numPartitions =? 0)%nat then Err (AssertFail "monitor.cpp: _numPartitions > 0") else
  match UMon_new numLines umonLines umonBuckets with
  | Ok u => Ok (mkMM buckets (replicate (buckets * numPartitions) 0) false (replicate numPartitions u))
  | Err e => Err e
  end.

(** An operation of the monitor of one partition. *)
Definition on_monitor {A} (partition : nat) (m : M UMon A) : M UMonMonitor A :=
  s <- get ;;
  u <- lift (at_ (mm_monitors s) partition) ;;
  let! (a, u') := lift (m u) in
  modify (mm_set_monitors (<[partition := u']> (mm_monitors s))) ;;
  ret a.

Definition check_partition (w : string) (partition : nat) : M UMonMonitor unit :=
  s <- get ;; assert_ w (partition <? length (mm_monitors s))%nat.

Definition mm_access (partition : nat) (lineAddr : Z) : M UMonMonitor unit :=
  check_partition "monitor.cpp: access" partition ;;
  on_monitor partition (um_access lineAddr) ;;
  s <- get ;;
  assert_ "monitor.cpp: !missCacheValid" (negb (mm_missCacheValid s)) ;;
  modify (mm_set_valid false).

Definition mm_getNumAccesses (partition : nat) : M UMonMonitor Z :=
  check_partition "monitor.cpp: getNumAccesses" partition ;;
  s <- get ;;
  u <- lift (at_ (mm_monitors s) partition) ;;
  n <- lift (um_getNumAccesses u) ;;
  ret (u32 n).

(** [misses\[i\] = v] for [misses = &missCache\[base\]] *)
Definition mm_write (base i : nat) (v : Z) : M UMonMonitor unit :=
  s <- get ;;
  l <- lift (set_at (mm_missCache s) (base + i) (u32 v)) ;;
  modify (mm_set_cache l).

(** The [k]-th of [ratio] points between two points of the curve; the results are
    below 2^63, where the conversions to [uint64_t] and [int64_t] agree. *)
Definition upsample (m0 m1 : Z) (k ratio : nat) : Z :=
  let frac := ddiv (dbl_of_Z (Z.of_nat k)) (dbl_of_Z (Z.of_nat ratio)) in
  dbl_to_i64 (dadd (dmul (dbl_of_Z m0) (dsub (dbl_of_Z 1) frac)) (dmul (dbl_of_Z m1) frac)).

(** [getMissCurve(&missCache\[partition*buckets\], partition)].  The local array
    [umonMisses] has [umonBuckets] elements, not initialised. *)
Definition mm_getMissCurve (partition : nat) : M UMonMonitor unit :=
  check_partition "monitor.cpp: getMissCurve" partition ;;
  s <- get ;;
  let buckets := mm_buckets s in
  let base := (partition * buckets)%nat in
  u <- lift (at_ (mm_monitors s) partition) ;;
  let umonBuckets := um_buckets u in
  umonMisses <- lift (um_getMisses u (replicate umonBuckets 0)) ;;
  if (buckets <=? umonBuckets)%nat then
    ratio <- lift (udiv (Z.of_nat umonBuckets) (Z.of_nat buckets)) ;;
    assert_ "monitor.cpp: umonBuckets % buckets == 0" (umonBuckets mod buckets =? 0)%nat ;;
    forM (seq 0 buckets) (fun j =>
      v <- lift (at_ umonMisses (j * Z.to_nat ratio)) ;; mm_write base j v) ;;
    v <- lift (at_ umonMisses umonBuckets) ;;
    mm_write base buckets v
  else
    ratio <- lift (udiv (Z.of_nat buckets) (Z.of_nat umonBuckets)) ;;
    assert_ "monitor.cpp: buckets % umonBuckets == 0" (buckets mod umonBuckets =? 0)%nat ;;
    let r := Z.to_nat ratio in
    forM (seq 0 umonBuckets) (fun j =>
      v0 <- lift (at_ umonMisses j) ;;
      mm_write base (r * j) v0 ;;
      v1 <- lift (at_ umonMisses (j + 1)) ;;
      forM (seq 1 (r - 1)) (fun k => mm_write base (r * j + k) (upsample v0 v1 k r)) ;;
      v <- lift (at_ umonMisses umonBuckets) ;;
      mm_write base buckets v).

Definition mm_getMissCurves : M UMonMonitor unit :=
  s <- get ;; forM (seq 0 (length (mm_monitors s))) mm_getMissCurve.

Definition mm_get (partition bucket : nat) : M UMonMonitor Z :=
  check_partition "monitor.cpp: get" partition ;;
  s <- get ;;
  when (negb (mm_missCacheValid s)) (mm_getMissCurves ;; modify (mm_set_valid true)) ;;
  s <- get ;;
  lift (at_ (mm_missCache s) (partition * mm_buckets s + bucket)).

Definition mm_reset : M UMonMonitor unit :=
  s <- get ;;
  forM (seq 0 (length (mm_monitors s))) (fun p => on_monitor p um_startNextInterval) ;;
  modify (mm_set_valid false).

#[export] Instance UMonMonitor_monitor : PartitionMonitor UMonMonitor := {|
  pm_access := mm_access;
  pm_get := mm_get;
  pm_reset := mm_reset
|}.

(** ** The lookahead algorithm *)
Section Lookahead.
Context {Mon : Type} `{PartitionMonitor Mon}.

(** The loop of [getMaxMarginalUtility] over [is_]. *)
Fixpoint gmu_loop (part : nat) (partAlloc : Z) (is_ : list nat) (maxMu : double) (maxMuAlloc : Z)
    : M Mon (double * Z) :=
  match is_ with
  | [] => ret (maxMu, maxMuAlloc)
  | i :: is' =>
      a <- pm_get part (Z.to_nat partAlloc) ;;
      b <- pm_get part (Z.to_nat (u32 (partAlloc + Z.of_nat i))) ;;
      let extraHits := u32 (a - b) in
      let mu := ddiv (dbl_of_Z extraHits) (dbl_of_Z (Z.of_nat i)) in
      if dltb maxMu mu then gmu_loop part partAlloc is' mu (Z.of_nat i)
      else gmu_loop part partAlloc is' maxMu maxMuAlloc
  end.

Definition getMaxMarginalUtility (part : nat) (partAlloc balance : Z) : M Mon (double * Z) :=
  gmu_loop part partAlloc (seq 1 (Z.to_nat balance)) (dbl_of_Z (-1)) 0.

Fixpoint utility_loop (parts : list Z) (ps : list nat) (noCacheMisses curPartMisses : Z) : M Mon Z :=
  match ps with
  | [] => ret (u64 (noCacheMisses - curPartMisses))
  | p :: ps' =>
      n <- pm_get p 0 ;;
      a <- lift (at_ parts p) ;;
      c <- pm_get p (Z.to_nat a) ;;
      utility_loop parts ps' (u64 (noCacheMisses + n)) (u64 (curPartMisses + c))
  end.

Definition computePartitioningTotalUtility (numPartitions : nat) (parts : list Z) : M Mon Z :=
  utility_loop parts (seq 0 numPartitions) 0 0.

Definition is_forbidden (forbidden : option (list bool)) (i : nat) : res bool :=
  match forbidden with None => Ok false | Some l => at_ l i end.

(** The loop over the partitions: the largest marginal utility, its partition
    and its number of buckets. *)
Fixpoint best_loop (forbidden : option (list bool)) (allocs : list Z) (balance : Z) (is_ : list nat)
    (maxMu : double) (maxMuPart : nat) (maxMuAlloc : Z) : M Mon (nat * Z) :=
  match is_ with
  | [] => ret (maxMuPart, maxMuAlloc)
  | i :: is' =>
      f <- lift (is_forbidden forbidden i) ;;
      if (f : bool) then best_loop forbidden allocs balance is' maxMu maxMuPart maxMuAlloc
      else
        a <- lift (at_ allocs i) ;;
        let! (mu, muAlloc) := getMaxMarginalUtility i a balance in
        if dltb maxMu mu then best_loop forbidden allocs balance is' mu i muAlloc
        else best_loop forbidden allocs balance is' maxMu maxMuPart maxMuAlloc
  end.

(** [while (balance > 0)] *)
Fixpoint alloc_loop (fuel numPartitions : nat) (forbidden : option (list bool)) (allocs : list Z)
    (balance : Z) : M Mon (list Z) :=
  if balance =? 0 then ret allocs else
  match fuel with
  | O => fail OutOfFuel
  | S fuel' =>
      let! (maxMuPart, maxMuAlloc) :=
        best_loop forbidden allocs balance (seq 0 numPartitions) (dbl_of_Z (-1)) numPartitions 0 in
      assert_ "lookahead.cpp: maxMuPart < numPartitions" (maxMuPart <? numPartitions)%nat ;;
      a <- lift (at_ allocs maxMuPart) ;;
      allocs' <- lift (set_at allocs maxMuPart (u32 (a + maxMuAlloc))) ;;
      alloc_loop fuel' numPartitions forbidden allocs' (u32 (balance - maxMuAlloc))
  end.

Definition computeBestPartitioning (numPartitions : nat) (buckets minAlloc : Z)
    (forbidden : option (list bool)) : M Mon (list Z) :=
  let balance := u32 (buckets - minAlloc) in
  alloc_loop (Z.to_nat balance) numPartitions forbidden (replicate numPartitions minAlloc) balance.
End Lookahead.

(** ** [LookaheadPartitioner] *)

(** [class PartReplPolicy]: a policy has a monitor and takes partition sizes. *)
Class PartReplPolicy (R Mon : Type) := {
  pr_monitor : forall A, M Mon A -> M R A;
  pr_setPartitionSizes : list Z -> M R unit
}.

Record LookaheadPartitioner := mkLP {
  lp_numPartitions : nat;
  lp_buckets : Z;
  lp_minAlloc : Z;
  lp_allocPortion : double;
  lp_forbidden : option (list bool)
}.

Definition lp_new_curAllocs (P : LookaheadPartitioner) : res (list Z) :=
  if 0 <? lp_buckets P then Ok (replicate (Z.to_nat (lp_buckets P + 1)) 0)
  else Err (AssertFail "Must have non-zero buckets to avoid divide-by-zero exception.").

(** [allocPortion*buckets] as an argument of type [uint32_t]. *)
Definition alloc_buckets (P : LookaheadPartitioner) : Z :=
  u32 (dbl_to_i64 (dmul (lp_allocPortion P) (dbl_of_Z (lp_buckets P)))).

Section Partitioner.
Context {R Mon : Type} `{PartitionMonitor Mon} `{!PartReplPolicy R Mon} (P : LookaheadPartitioner).

(** [std::copy(bestAllocs, bestAllocs+numPartitions, curAllocs)] *)
Fixpoint copy_allocs (ps : list nat) (best cur : list Z) : res (list Z) :=
  match ps with
  | [] => Ok cur
  | p :: ps' =>
      match at_ best p with
      | Err e => Err e
      | Ok a => match set_at cur p a with Err e => Err e | Ok cur' => copy_allocs ps' best cur' end
      end
  end.

(** [partition()]; the state is [curAllocs] and the policy.  The decision to keep
    the old allocation is overridden in the source. *)
Definition partition : M (list Z * R) unit :=
  let on_repl {A} (m : M R A) : M (list Z * R) A := zoom snd (fun r s => (fst s, r)) m in
  bestAllocs <- on_repl (pr_monitor _ (computeBestPartitioning (lp_numPartitions P) (alloc_buckets P)
                           (u32 (lp_minAlloc P * Z.of_nat (lp_numPartitions P))) (lp_forbidden P))) ;;
  newUtility <- on_repl (pr_monitor _ (computePartitioningTotalUtility (lp_numPartitions P) bestAllocs)) ;;
  cur <- gets fst ;;
  curUtility <- on_repl (pr_monitor _ (computePartitioningTotalUtility (lp_numPartitions P) cur)) ;;
  cur' <- lift (copy_allocs (seq 0 (lp_numPartitions P)) bestAllocs cur) ;;
  modify (fun s => (cur', snd s)) ;;
  on_repl (pr_setPartitionSizes cur') ;;
  on_repl (pr_monitor _ pm_reset).
End Partitioner.
