(* ===== verification/PartitionSpec.v ===== *)
(** * What the partitioner computes

    The lookahead algorithm is proved against the contract [MonitorLaws] of a
    monitor.  [UMonMonitor] does not keep it: its first [get] writes behind the
    end of an array ([umon_monitor_overruns]). *)

From stdpp Require Import base list strings functions.
From Stdlib Require Import ZArith Lia.
From S2P Require Import Prelude Numeric MemHierarchy ReplPolicy MtRand H3Hash Umon UmonSpec Partition.
Local Open Scope Z_scope.

(** What a replacement policy relies on: [access] returns, for the partitions and
    the addresses of the cache. *)
Class MonitorAccess (Mon : Type) `{PartitionMonitor Mon} := {
  pm_sampling : nat -> Mon -> Prop;
  pm_addr : Address -> Prop;
  pm_access_ok : forall n m p a, pm_sampling n m -> (p < n)%nat -> pm_addr a ->
    wp (pm_access p a) (fun _ m' => pm_sampling n m') m
}.

(** What the partitioner relies on: a curve of [b + 1] values per partition,
    which stays the same while it is read. *)
Class MonitorLaws (Mon : Type) `{MonitorAccess Mon} := {
  pm_ok : nat -> nat -> Mon -> Prop;
  pm_curve : Mon -> nat -> nat -> Z;
  pm_get_ok : forall n b m p k, pm_ok n b m -> (p < n)%nat -> (k <= b)%nat ->
    wp (pm_get p k) (fun v m' => v = pm_curve m p k /\ in_u32 v /\ pm_ok n b m' /\
                       forall p k, pm_curve m' p k = pm_curve m p k) m;
  pm_reset_ok : forall n b m, pm_ok n b m ->
    wp pm_reset (fun _ m' => pm_ok n b m' /\ pm_sampling n m') m
}.

(** ** Lookahead *)
Section Lookahead.
Context {Mon : Type} `{MonitorLaws Mon} (n b : nat) (Hb32 : Z.of_nat b < 2 ^ 32 - 1).

Lemma gmu_loop_ok part a is_ : forall mu alloc balance m,
  pm_ok n b m -> (part < n)%nat -> 0 <= a -> a + balance <= Z.of_nat b ->
  (forall i, i ∈ is_ -> 1 <= Z.of_nat i <= balance) ->
  (mu = dbl_of_Z (-1) /\ is_ <> [] \/ dbl_nonneg mu /\ 1 <= alloc <= balance) ->
  wp (gmu_loop part a is_ mu alloc)
    (fun '(mu', alloc') m' => pm_ok n b m' /\ dbl_nonneg mu' /\ 1 <= alloc' <= balance) m.
Proof.
  induction is_ as [|i is_ IH]; intros mu alloc balance m Hm Hp Ha Hab His Hmu; cbn [gmu_loop].
  { wp_step. destruct Hmu as [[_ ?]|Hmu]; done. }
  assert (1 <= Z.of_nat i <= balance) as Hi by (apply His; left).
  assert (forall j, j ∈ is_ -> 1 <= Z.of_nat j <= balance) as His' by (intros; apply His; by right).
  wp_step. eapply wp_mono; [apply (pm_get_ok n b); [done|done|lia]|]. intros x m1 (_ & Hx & Hm1 & _).
  wp_step. rewrite u32_id by (unfold in_u32; lia).
  eapply wp_mono; [apply (pm_get_ok n b); [done|done|lia]|]. intros y m2 (_ & Hy & Hm2 & _).
  assert (dbl_nonneg (ddiv (dbl_of_Z (u32 (x - y))) (dbl_of_Z (Z.of_nat i)))) as Hnn.
  { apply ddiv_counts; [apply u32_range|lia]. }
  cbv zeta. destruct (dltb mu _) eqn:E.
  - apply IH with (balance := balance); try done. right. split; [done|lia].
  - apply IH with (balance := balance); try done. destruct Hmu as [[-> _]|Hmu]; [|by right].
    rewrite minus_one_lt in E by done. done.
Qed.

Lemma getMaxMarginalUtility_ok part a balance m :
  pm_ok n b m -> (part < n)%nat -> 0 <= a -> 0 < balance -> a + balance <= Z.of_nat b ->
  wp (getMaxMarginalUtility part a balance)
    (fun '(mu, alloc) m' => pm_ok n b m' /\ dbl_nonneg mu /\ 1 <= alloc <= balance) m.
Proof.
  intros Hm Hp Ha Hbal Hab. unfold getMaxMarginalUtility.
  apply (gmu_loop_ok part a _ _ 0 balance m); try done.
  - intros i Hi. apply elem_of_seq in Hi. lia.
  - left. split; [done|]. destruct (Z.to_nat balance) eqn:E; [lia|done].
Qed.

(** A partition that may get something. *)
Definition may_get (forbidden : option (list bool)) (i : nat) : Prop := is_forbidden forbidden i = Ok false.

Definition forbidden_ok (forbidden : option (list bool)) : Prop :=
  forall i, (i < n)%nat -> exists f, is_forbidden forbidden i = Ok f.

Definition mu_chosen (forbidden : option (list bool)) (balance : Z) (part : nat) (alloc : Z) : Prop :=
  (part < n)%nat /\ may_get forbidden part /\ 1 <= alloc <= balance.

Lemma best_loop_ok forbidden allocs balance is_ : forall mu part alloc m,
  pm_ok n b m -> forbidden_ok forbidden -> 0 < balance -> (forall i, i ∈ is_ -> (i < n)%nat) ->
  (forall i, (i < n)%nat -> exists a, allocs !! i = Some a /\ 0 <= a /\ a + balance <= Z.of_nat b) ->
  (mu = dbl_of_Z (-1) /\ (exists i, i ∈ is_ /\ may_get forbidden i) \/ mu_chosen forbidden balance part alloc) ->
  wp (best_loop forbidden allocs balance is_ mu part alloc)
    (fun '(part', alloc') m' => pm_ok n b m' /\ mu_chosen forbidden balance part' alloc') m.
Proof.
  induction is_ as [|i is_ IH]; intros mu part alloc m Hm Hf Hbal His Hal Hc; cbn [best_loop].
  { wp_step. split; [done|]. destruct Hc as [(_ & i & Hi & _)|Hc]; [by apply not_elem_of_nil in Hi|done]. }
  assert (i < n)%nat as Hi by (apply His; left).
  assert (forall j, j ∈ is_ -> (j < n)%nat) as His' by (intros; apply His; by right).
  destruct (Hf i Hi) as [f Ef]. wp_step. eapply wp_lift; [exact Ef|]. destruct f.
  - apply IH; try done. destruct Hc as [(-> & j & Hj & Haj)|Hc]; [|by right]. left. split; [done|].
    exists j. apply elem_of_cons in Hj as [->|Hj]; [|done]. unfold may_get in Haj. congruence.
  - destruct (Hal i Hi) as (a & Ea & Ha0 & Hab). wp_step. eapply wp_lift; [by apply at_ok|].
    wp_step. eapply wp_mono; [by apply getMaxMarginalUtility_ok|]. intros [mu' al] m' (Hm' & Hnn & Hr).
    destruct (dltb mu mu') eqn:E.
    + apply IH; try done. right. done.
    + apply IH; try done. destruct Hc as [(-> & _)|Hc]; [|by right].
      rewrite minus_one_lt in E by done. done.
Qed.

(** The allocations while [balance] buckets are left. *)
Definition allocs_ok (forbidden : option (list bool)) (minAlloc total : Z) (allocs : list Z) (balance : Z)
    : Prop :=
  length allocs = n /\ sumZ allocs + balance = total /\ 0 <= balance /\
  forall i a, allocs !! i = Some a ->
    minAlloc <= a /\ a + balance <= Z.of_nat b /\ (is_forbidden forbidden i = Ok true -> a = minAlloc).

Lemma sumZ_set l i x y : l !! i = Some x -> sumZ (<[i := y]> l) = sumZ l + (y - x).
Proof. intros Hi. pose proof (sumZ_insert 0 i x y l Hi) as E. rewrite !drop_0 in E. simpl in E. lia. Qed.

Lemma alloc_loop_ok forbidden minAlloc total fuel : forall allocs balance m,
  pm_ok n b m -> forbidden_ok forbidden -> (exists i, (i < n)%nat /\ may_get forbidden i) -> 0 <= minAlloc ->
  allocs_ok forbidden minAlloc total allocs balance -> balance <= Z.of_nat fuel ->
  wp (alloc_loop fuel n forbidden allocs balance)
    (fun allocs' m' => pm_ok n b m' /\ allocs_ok forbidden minAlloc total allocs' 0) m.
Proof.
  induction fuel as [|fuel IH]; intros allocs balance m Hm Hf Hex Hmin Hok Hfuel; cbn [alloc_loop];
    destruct (Z.eqb_spec balance 0) as [->|Hne].
  1,3: (wp_step; done).
  { destruct Hok as (_ & _ & ? & _). lia. }
  pose proof Hok as (Hl & Hsum & Hbal & Hal). destruct Hex as (i0 & Hi0 & Hall0).
  wp_step. eapply wp_mono.
  { apply (best_loop_ok forbidden allocs balance (seq 0 n)); try done; [lia| | |].
    - intros i Hi. apply elem_of_seq in Hi. lia.
    - intros i Hi. destruct (lookup_lt_is_Some_2 allocs i) as [a Ea]; [lia|].
      exists a. destruct (Hal i a Ea) as (? & ? & _). split; [done|]. lia.
    - left. split; [done|]. exists i0. split; [apply elem_of_seq; lia|done]. }
  intros [part alloc] m' (Hm' & Hp & Hpa & Hr). wp_step. wp_step; [by apply Nat.ltb_lt|].
  destruct (lookup_lt_is_Some_2 allocs part) as [a Ea]; [lia|].
  destruct (Hal part a Ea) as (Ha1 & Ha2 & _).
  wp_step. eapply wp_lift; [by apply at_ok|]. wp_step. eapply wp_lift; [apply set_at_ok; lia|].
  rewrite !u32_id by (unfold in_u32; lia).
  apply IH; try done; [by exists i0| |lia].
  split; [by rewrite length_insert|]. split; [rewrite (sumZ_set _ _ a) by done; lia|]. split; [lia|].
  intros i x Hi. destruct (decide (i = part)) as [->|Hip].
  - rewrite list_lookup_insert_eq in Hi by lia. simplify_eq. split_and!; [lia|lia|].
    unfold may_get in Hpa. congruence.
  - rewrite list_lookup_insert_ne in Hi by done. destruct (Hal i x Hi) as (? & ? & ?). split_and!; [lia|lia|done].
Qed.

Lemma sumZ_replicate k x : sumZ (replicate k x) = Z.of_nat k * x.
Proof. induction k as [|k IH]; cbn [replicate]; [done|]. simpl. fold sumZ. rewrite IH. lia. Qed.

Lemma computeBestPartitioning_ok buckets minAlloc forbidden m :
  pm_ok n b m -> forbidden_ok forbidden -> (exists i, (i < n)%nat /\ may_get forbidden i) ->
  buckets = Z.of_nat b -> 0 <= minAlloc <= buckets ->
  wp (computeBestPartitioning n buckets minAlloc forbidden)
    (fun allocs m' => pm_ok n b m' /\
       allocs_ok forbidden minAlloc (Z.of_nat n * minAlloc + (buckets - minAlloc)) allocs 0) m.
Proof.
  intros Hm Hf Hex -> Hmin. unfold computeBestPartitioning. rewrite u32_id by (unfold in_u32; lia).
  cbv zeta. apply alloc_loop_ok; try done; try lia. split; [by rewrite length_replicate|].
  split; [rewrite sumZ_replicate; lia|]. split; [lia|].
  intros i a Hi. apply lookup_replicate in Hi as [-> _]. split_and!; [lia|lia|done].
Qed.

Lemma utility_loop_ok parts ps : forall x y m,
  pm_ok n b m -> (forall p, p ∈ ps -> (p < n)%nat /\ exists a, parts !! p = Some a /\ a <= Z.of_nat b) ->
  wp (utility_loop parts ps x y) (fun _ m' => pm_ok n b m') m.
Proof.
  induction ps as [|p ps IH]; intros x y m Hm Hps; cbn [utility_loop]; [by wp_step|].
  destruct (Hps p) as (Hp & a & Ea & Ha); [left|].
  wp_step. eapply wp_mono; [apply (pm_get_ok n b); [done|done|lia]|]. intros u m1 (_ & _ & Hm1 & _).
  wp_step. eapply wp_lift; [by apply at_ok|].
  wp_step. eapply wp_mono; [apply (pm_get_ok n b); [done|done|lia]|]. intros v m2 (_ & _ & Hm2 & _).
  apply IH; [done|]. intros q Hq. apply Hps. by right.
Qed.
End Lookahead.

(** *** A monitor with fixed curves *)

Record CurveMonitor := mkCM { cm_curves : list (list Z); cm_accesses : Z }.

#[export] Instance CurveMonitor_monitor : PartitionMonitor CurveMonitor := {|
  pm_access := fun p _ =>
    m <- get ;;
    _ <- lift (at_ (cm_curves m) p) ;;
    modify (fun m => mkCM (cm_curves m) (u64 (cm_accesses m + 1)));
  pm_get := fun p k => m <- get ;; c <- lift (at_ (cm_curves m) p) ;; lift (at_ c k);
  pm_reset := modify (fun m => mkCM (cm_curves m) 0)
|}.

Definition curve_at (m : CurveMonitor) (p k : nat) : Z := default 0 (default [] (cm_curves m !! p) !! k).

Definition curves_ok (n b : nat) (m : CurveMonitor) : Prop :=
  length (cm_curves m) = n /\ Forall (fun c => length c = S b /\ Forall in_u32 c) (cm_curves m).

Lemma curves_lookup n b m p : curves_ok n b m -> (p < n)%nat ->
  exists c, cm_curves m !! p = Some c /\ length c = S b /\ Forall in_u32 c.
Proof.
  intros [Hl Hc] Hp. destruct (lookup_lt_is_Some_2 (cm_curves m) p) as [c Ec]; [lia|].
  exists c. split; [done|]. rewrite list.Forall_forall in Hc. apply Hc. by eapply list_elem_of_lookup_2.
Qed.

#[export] Program Instance CurveMonitor_access : MonitorAccess CurveMonitor := {|
  pm_sampling := fun n m => length (cm_curves m) = n;
  pm_addr := fun _ => True
|}.
Next Obligation.
  intros n m p a Hm Hp _. cbv beta in *. destruct (lookup_lt_is_Some_2 (cm_curves m) p) as [c Ec]; [lia|].
  cbn [pm_access CurveMonitor_monitor].
  wp_step. wp_step. wp_step. eapply wp_lift; [by apply at_ok|]. wp_step. done.
Qed.

#[export] Program Instance CurveMonitor_laws : MonitorLaws CurveMonitor := {|
  pm_ok := curves_ok;
  pm_curve := curve_at
|}.
Next Obligation.
  intros n b m p k Hm Hp Hk. destruct (curves_lookup _ _ _ _ Hm Hp) as (c & Ec & Hlc & Hu).
  destruct (lookup_lt_is_Some_2 c k) as [v Ev]; [lia|]. cbn [pm_get CurveMonitor_monitor].
  wp_step. wp_step. wp_step. eapply wp_lift; [by apply at_ok|]. eapply wp_lift; [by apply at_ok|].
  split; [unfold curve_at; by rewrite Ec; simpl; rewrite Ev|]. split; [|done].
  rewrite list.Forall_forall in Hu. apply Hu. by eapply list_elem_of_lookup_2.
Qed.
Next Obligation.
  intros n b m Hm. cbn [pm_reset CurveMonitor_monitor]. wp_step. split; [done|]. apply Hm.
Qed.

(** C23: for every monitor that keeps its contract, the lookahead algorithm ends,
    with no failing assertion; each partition gets at least [minAlloc] and at most
    all buckets, a forbidden one exactly [minAlloc], and together they get
    [buckets + (numPartitions - 1) * minAlloc]: the minimum of one partition only
    is taken from the buckets. *)
Theorem lookahead_allocates {Mon} `{MonitorLaws Mon} numPartitions buckets minAlloc forbidden (m : Mon) :
  pm_ok numPartitions buckets m -> Z.of_nat buckets < 2 ^ 32 - 1 -> 0 <= minAlloc <= Z.of_nat buckets ->
  forbidden_ok numPartitions forbidden -> (exists i, (i < numPartitions)%nat /\ may_get forbidden i) ->
  wp (computeBestPartitioning numPartitions (Z.of_nat buckets) minAlloc forbidden)
    (fun allocs m' => pm_ok numPartitions buckets m' /\ length allocs = numPartitions /\
       sumZ allocs = Z.of_nat buckets + (Z.of_nat numPartitions - 1) * minAlloc /\
       forall i a, allocs !! i = Some a -> minAlloc <= a <= Z.of_nat buckets /\
         (is_forbidden forbidden i = Ok true -> a = minAlloc)) m.
Proof.
  intros Hm Hb Hmin Hf Hex.
  eapply wp_mono; [by apply (computeBestPartitioning_ok numPartitions buckets)|].
  intros allocs m' (Hm' & Hl & Hs & _ & Ha). split_and!; [done|done|lia|].
  intros i a Hi. destruct (Ha i a Hi) as (? & ? & ?). split; [lia|done].
Qed.

Definition demo_curves : CurveMonitor := mkCM [[100; 90; 20; 10; 0]; [50; 10; 9; 8; 7]] 0.

Lemma demo_curves_ok : curves_ok 2 4 demo_curves.
Proof. split; [done|]. repeat constructor; unfold in_u32; lia. Qed.

Lemma lookahead_allocates_witness :
  wp (computeBestPartitioning 2 (Z.of_nat 4) 1 None) (fun allocs _ => sumZ allocs = 5) demo_curves.
Proof.
  assert (forbidden_ok 2 None) as Hf by (intros i _; by exists false).
  assert (exists i, (i < 2)%nat /\ may_get None i) as Hex by (exists 0%nat; split; [lia|reflexivity]).
  assert (0 <= 1 <= Z.of_nat 4) as Hmin by lia.
  assert (Z.of_nat 4 < 2 ^ 32 - 1) as Hb by lia.
  pose proof (lookahead_allocates 2 4 1 None demo_curves demo_curves_ok Hb Hmin Hf Hex) as Hwp.
  eapply wp_mono; [exact Hwp|]. intros allocs m' (_ & _ & Hs & _). rewrite Hs. reflexivity.
Defined.

(** ** The monitor made of utility monitors *)

Definition mm_accesses (l : list (nat * Z)) : M UMonMonitor unit := forM l (fun '(p, a) => mm_access p a).

Definition mm_inv (n : nat) (s : UMonMonitor) : Prop :=
  length (mm_monitors s) = n /\ mm_missCacheValid s = false /\
  forall p u, mm_monitors s !! p = Some u -> exists caches, um_rel u caches.

Lemma mm_access_ok n p a s : mm_inv n s -> (p < n)%nat -> a <> 0 -> wp (mm_access p a) (fun _ s' => mm_inv n s') s.
Proof.
  intros (Hl & Hv & Hu) Hp Ha. unfold mm_access, check_partition. wp_step. wp_step. wp_step.
  wp_step; [apply Nat.ltb_lt; lia|]. wp_step. unfold on_monitor. wp_step. wp_step.
  destruct (lookup_lt_is_Some_2 (mm_monitors s) p) as [u Eu]; [lia|].
  destruct (Hu p u Eu) as [caches HR].
  destruct (wp_ok _ _ _ (um_access_ok u caches a HR Ha)) as ([] & u' & E & HR' & _).
  wp_step. eapply wp_lift; [by apply at_ok|]. wp_step. eapply wp_lift; [exact E|]. cbv iota.
  wp_step. wp_step. wp_step. wp_step. wp_step. wp_step. wp_step; [cbn; by rewrite Hv|]. wp_step. cbn.
  split; [cbn; by rewrite length_insert|]. split; [done|]. intros q w Hq. cbn in Hq.
  destruct (decide (q = p)) as [->|Hne].
  - rewrite list_lookup_insert_eq in Hq by lia. simplify_eq. eauto.
  - rewrite list_lookup_insert_ne in Hq by done. eauto.
Qed.

#[export] Instance UMonMonitor_access : MonitorAccess UMonMonitor := {|
  pm_sampling := mm_inv;
  pm_addr := fun a => a <> 0;
  pm_access_ok := fun n m p a => mm_access_ok n p a m
|}.

Lemma UMonMonitor_new_ok numLines umonLines umonBuckets numPartitions buckets :
  0 <= numLines -> 0 < Z.of_nat umonBuckets <= umonLines -> umonLines < 2 ^ 32 -> (0 < numPartitions)%nat ->
  exists s, UMonMonitor_new numLines umonLines umonBuckets numPartitions buckets = Ok s /\ mm_inv numPartitions s.
Proof.
  intros Hn Hb Hu Hp. destruct (UMon_new_ok numLines umonLines umonBuckets Hn Hb Hu) as (u & E & HR & _).
  unfold UMonMonitor_new. rewrite E. destruct (Nat.eqb_spec numPartitions 0); [lia|].
  eexists. split; [reflexivity|]. split; [apply length_replicate|]. split; [done|].
  intros p w Hw. apply lookup_replicate in Hw as [-> _]. eauto.
Qed.

(** The local array of [getMissCurve] is one element short. *)
Lemma getMisses_short u caches : um_rel u caches ->
  um_getMisses u (replicate (um_buckets u) 0) = Err OutOfRange.
Proof.
  intros HR. pose proof (ur_buckets _ _ HR) as Hb. pose proof (ur_hits _ _ HR) as Hh.
  unfold um_getMisses. destruct (um_buckets u) as [|k]; [lia|]. cbn [seq um_curve].
  replace (set_at (replicate (S k) 0) (S k - 0) (um_curMisses u)) with (Err (A := list Z) OutOfRange); [done|].
  unfold set_at. rewrite length_replicate. destruct (Nat.ltb_spec (S k - 0) (S k)); [lia|done].
Qed.

(** A monitor made of utility monitors takes any accesses; after them the
    first [get], of any partition and bucket, writes behind the end of the local
    array of [getMissCurve]. *)
Theorem umon_monitor_overruns numLines umonLines umonBuckets numPartitions buckets accesses :
  0 <= numLines -> 0 < Z.of_nat umonBuckets <= umonLines -> umonLines < 2 ^ 32 -> (0 < numPartitions)%nat ->
  Forall (fun '(p, a) => (p < numPartitions)%nat /\ a <> 0) accesses ->
  exists s, UMonMonitor_new numLines umonLines umonBuckets numPartitions buckets = Ok s /\
    wp (mm_accesses accesses)
      (fun _ s' => forall p k, (p < numPartitions)%nat -> mm_get p k s' = Err OutOfRange) s.
Proof.
  intros Hn Hb Hu Hp Hacc.
  destruct (UMonMonitor_new_ok numLines umonLines umonBuckets numPartitions buckets Hn Hb Hu Hp) as (s0 & E & H0).
  exists s0. split; [exact E|]. eapply wp_mono.
  { unfold mm_accesses. apply (wp_forM_inv _ _ (mm_inv numPartitions)); [done|].
    intros [p a] s' Hin Hs'. rewrite list.Forall_forall in Hacc. destruct (Hacc _ Hin) as [? ?]. by apply mm_access_ok. }
  intros [] s (Hl & Hv & Hm) p k Hpk.
  unfold mm_get, check_partition, bind, get. rewrite (proj2 (Nat.ltb_lt _ _)) by lia. simpl. rewrite Hv. simpl.
  unfold mm_getMissCurves, bind, get. rewrite Hl. destruct numPartitions as [|N]; [lia|]. cbn [seq forM].
  unfold mm_getMissCurve at 1, check_partition, bind, get, assert_, lift. rewrite Hl. simpl.
  destruct (lookup_lt_is_Some_2 (mm_monitors s) 0) as [w Ew]; [lia|]. rewrite (at_ok _ _ _ Ew).
  destruct (Hm 0%nat w Ew) as [caches HRw]. by rewrite (getMisses_short w caches).
Qed.

Lemma umon_monitor_overruns_witness :
  exists s, UMonMonitor_new 1024 256 16 2 16 = Ok s /\
    wp (mm_accesses [(0%nat, 5); (1%nat, 7); (0%nat, 9)])
      (fun _ s' => forall p k, (p < 2)%nat -> mm_get p k s' = Err OutOfRange) s.
Proof.
  apply (umon_monitor_overruns 1024 256 16 2 16 [(0%nat, 5); (1%nat, 7); (0%nat, 9)]); try lia.
  repeat constructor; done.
Defined.
