(* ===== verification/WayPart.v ===== *)
(** * Way partitioning ([WayPartReplPolicy] of [src/src/part_repl_policies.h])

    Each way of a set-associative cache belongs to a partition, and a miss
    replaces a line in a way of its own partition.  The monitor is any
    [PartitionMonitor]; the mapper is a function of the request. *)

From stdpp Require Import base list strings.
From Stdlib Require Import ZArith Lia.
From S2P Require Import Prelude Numeric MemHierarchy ReplPolicy MtRand H3Hash Umon Partition.
Local Open Scope Z_scope.

Record PartInfo := mkPI {
  pi_size : Z;
  pi_targetSize : Z;
  pi_profHits : Z;
  pi_profMisses : Z;
  pi_profSelfEvictions : Z;
  pi_profExtEvictions : Z
}.
Definition pi_zero : PartInfo := mkPI 0 0 0 0 0 0.
Definition pi_set_size (v : Z) (i : PartInfo) : PartInfo :=
  mkPI v (pi_targetSize i) (pi_profHits i) (pi_profMisses i) (pi_profSelfEvictions i) (pi_profExtEvictions i).
Definition pi_set_target (v : Z) (i : PartInfo) : PartInfo :=
  mkPI (pi_size i) v (pi_profHits i) (pi_profMisses i) (pi_profSelfEvictions i) (pi_profExtEvictions i).
Definition pi_hit (i : PartInfo) : PartInfo :=
  mkPI (pi_size i) (pi_targetSize i) (u64 (pi_profHits i + 1)) (pi_profMisses i)
    (pi_profSelfEvictions i) (pi_profExtEvictions i).
Definition pi_miss (i : PartInfo) : PartInfo :=
  mkPI (pi_size i) (pi_targetSize i) (pi_profHits i) (u64 (pi_profMisses i + 1))
    (pi_profSelfEvictions i) (pi_profExtEvictions i).
Definition pi_self (i : PartInfo) : PartInfo :=
  mkPI (pi_size i) (pi_targetSize i) (pi_profHits i) (pi_profMisses i)
    (u64 (pi_profSelfEvictions i + 1)) (pi_profExtEvictions i).
Definition pi_ext (i : PartInfo) : PartInfo :=
  mkPI (pi_size i) (pi_targetSize i) (pi_profHits i) (pi_profMisses i)
    (pi_profSelfEvictions i) (u64 (pi_profExtEvictions i + 1)).

Record WayPartInfo := mkWP { wl_addr : Address; wl_ts : Z; wl_p : nat }.

(** The constant fields. *)
Record WPParams := mkWPP {
  wpp_partitions : nat;
  wpp_totalSize : Z;
  wpp_waySize : Z;
  wpp_ways : nat;
  wpp_testMode : bool
}.

(** The mutable fields; [None] stands for a [bestId] of -1. *)
Record WayPart (Mon : Type) := mkWay {
  wy_partInfo : list PartInfo;
  wy_array : list WayPartInfo;
  wy_wayPartIndex : list nat;
  wy_bestId : option nat;
  wy_candIdx : nat;
  wy_incomingLinePart : nat;
  wy_incomingLineAddr : Address;
  wy_timestamp : Z;
  wy_monitor : Mon
}.
Arguments mkWay {Mon} _ _ _ _ _ _ _ _ _.
Arguments wy_partInfo {Mon} _.
Arguments wy_array {Mon} _.
Arguments wy_wayPartIndex {Mon} _.
Arguments wy_bestId {Mon} _.
Arguments wy_candIdx {Mon} _.
Arguments wy_incomingLinePart {Mon} _.
Arguments wy_incomingLineAddr {Mon} _.
Arguments wy_timestamp {Mon} _.
Arguments wy_monitor {Mon} _.

Section WayPart.
Context {Mon : Type} `{PartitionMonitor Mon}.
Implicit Types s : WayPart Mon.

Definition wy_set_info (l : list PartInfo) s : WayPart Mon :=
  mkWay l (wy_array s) (wy_wayPartIndex s) (wy_bestId s) (wy_candIdx s) (wy_incomingLinePart s)
    (wy_incomingLineAddr s) (wy_timestamp s) (wy_monitor s).
Definition wy_set_array (l : list WayPartInfo) s : WayPart Mon :=
  mkWay (wy_partInfo s) l (wy_wayPartIndex s) (wy_bestId s) (wy_candIdx s) (wy_incomingLinePart s)
    (wy_incomingLineAddr s) (wy_timestamp s) (wy_monitor s).
Definition wy_set_index (l : list nat) s : WayPart Mon :=
  mkWay (wy_partInfo s) (wy_array s) l (wy_bestId s) (wy_candIdx s) (wy_incomingLinePart s)
    (wy_incomingLineAddr s) (wy_timestamp s) (wy_monitor s).
Definition wy_set_best (b : option nat) (c : nat) s : WayPart Mon :=
  mkWay (wy_partInfo s) (wy_array s) (wy_wayPartIndex s) b c (wy_incomingLinePart s)
    (wy_incomingLineAddr s) (wy_timestamp s) (wy_monitor s).
Definition wy_set_incoming (p : nat) (a : Address) s : WayPart Mon :=
  mkWay (wy_partInfo s) (wy_array s) (wy_wayPartIndex s) (wy_bestId s) (wy_candIdx s) p a
    (wy_timestamp s) (wy_monitor s).
Definition wy_set_timestamp (t : Z) s : WayPart Mon :=
  mkWay (wy_partInfo s) (wy_array s) (wy_wayPartIndex s) (wy_bestId s) (wy_candIdx s)
    (wy_incomingLinePart s) (wy_incomingLineAddr s) t (wy_monitor s).
Definition wy_set_monitor (m : Mon) s : WayPart Mon :=
  mkWay (wy_partInfo s) (wy_array s) (wy_wayPartIndex s) (wy_bestId s) (wy_candIdx s)
    (wy_incomingLinePart s) (wy_incomingLineAddr s) (wy_timestamp s) m.

(** [partInfo\[p\]] *)
Definition upd_info (p : nat) (f : PartInfo -> PartInfo) : M (WayPart Mon) unit :=
  s <- get ;;
  i <- lift (at_ (wy_partInfo s) p) ;;
  l <- lift (set_at (wy_partInfo s) p (f i)) ;;
  modify (wy_set_info l).

(** The body of the constructor's loop over ways: [w*partitions/ways] in
    [uint32_t]. *)
Definition wy_init_way (partitions ways : nat) (waySize : Z) (w : nat) : M (WayPart Mon) unit :=
  let p := Z.to_nat (u32 (Z.of_nat w * Z.of_nat partitions) / Z.of_nat ways) in
  s <- get ;;
  l <- lift (set_at (wy_wayPartIndex s) w p) ;;
  modify (wy_set_index l) ;;
  upd_info p (fun i => pi_set_target (u64 (pi_targetSize i + waySize)) i).

(** The constructor; [totalSize] keeps 32 bits of [_lines]. *)
Definition WayPart_new (partitions : nat) (lines : Z) (ways : nat) (testMode : bool) (monitor : Mon)
    : res (WPParams * WayPart Mon) :=
  let totalSize := u32 lines in
  match udiv totalSize (Z.of_nat ways) with
  | Err e => Err e
  | Ok waySize =>
      if negb (u32 (waySize * Z.of_nat ways) =? totalSize)
      then Err (AssertFail "part_repl_policies.h: waySize*ways == totalSize") else
      let s0 := mkWay (replicate partitions pi_zero) (replicate (Z.to_nat totalSize) (mkWP 0 0 0))
                  (replicate ways 0%nat) None 0 0 0 1 monitor in
      let init : M (WayPart Mon) unit :=
        upd_info 0 (pi_set_size totalSize) ;;
        forM (seq 0 ways) (wy_init_way partitions ways waySize) in
      match init s0 with
      | Ok (_, s) => Ok (mkWPP partitions totalSize waySize ways testMode, s)
      | Err e => Err e
      end
  end.

(** [update(id, req, hit_in_dc)] *)
Definition wy_update (id : nat) : M (WayPart Mon) unit :=
  s <- get ;;
  e <- lift (at_ (wy_array s) id) ;;
  p <- (if 0 <? wl_ts e then upd_info (wl_p e) pi_hit ;; ret (wl_p e)
        else
          let oldPart := wl_p e in
          let newPart := wy_incomingLinePart s in
          (if negb (oldPart =? newPart)%nat then
             upd_info oldPart (fun i => pi_set_size (u64 (pi_size i - 1)) i) ;;
             upd_info oldPart pi_ext ;;
             upd_info newPart (fun i => pi_set_size (u64 (pi_size i + 1)) i)
           else upd_info oldPart pi_self) ;;
          upd_info newPart pi_miss ;;
          ret newPart) ;;
  l <- lift (set_at (wy_array s) id (mkWP (wl_addr e) (wy_timestamp s) p)) ;;
  modify (wy_set_array l) ;;
  modify (wy_set_timestamp (u64 (wy_timestamp s + 1))) ;;
  zoom wy_monitor wy_set_monitor (pm_access p (wl_addr e)).

(** [startReplacement(req)], with the partition of the request. *)
Definition wy_startReplacement (part : res nat) (lineAddr : Address) : M (WayPart Mon) unit :=
  s <- get ;;
  assert_ "part_repl_policies.h: candIdx == 0" (wy_candIdx s =? 0)%nat ;;
  assert_ "part_repl_policies.h: bestId == -1" (match wy_bestId s with None => true | Some _ => false end) ;;
  p <- lift part ;;
  modify (wy_set_incoming p lineAddr).

(** Which of the candidate [c] and the best one so far is evicted. *)
Definition wy_better (testMode : bool) (part : nat) (c best : WayPartInfo) : bool :=
  if (testMode || ((wl_p c =? part)%nat && (wl_p best =? part)%nat))%bool then wl_ts c <? wl_ts best
  else if ((wl_p c =? part)%nat && negb (wl_p best =? part)%nat)%bool then false
  else if (negb (wl_p c =? part)%nat && (wl_p best =? part)%nat)%bool then true
  else wl_ts c <? wl_ts best.

Definition wy_recordCandidate (P : WPParams) (id : nat) : M (WayPart Mon) unit :=
  s <- get ;;
  assert_ "part_repl_policies.h: candIdx < ways" (wy_candIdx s <? wpp_ways P)%nat ;;
  let way := wy_candIdx s in
  modify (wy_set_best (wy_bestId s) (S way)) ;;
  w <- lift (at_ (wy_wayPartIndex s) way) ;;
  if (wpp_testMode P || (w =? wy_incomingLinePart s)%nat)%bool then
    match wy_bestId s with
    | None => modify (wy_set_best (Some id) (S way))
    | Some b =>
        c <- lift (at_ (wy_array s) id) ;;
        best <- lift (at_ (wy_array s) b) ;;
        when (wy_better (wpp_testMode P) (wy_incomingLinePart s) c best)
          (modify (wy_set_best (Some id) (S way)))
    end
  else ret tt.

Definition wy_getBestCandidate : M (WayPart Mon) nat :=
  s <- get ;;
  match wy_bestId s with
  | Some b => ret b
  | None => fail (AssertFail "part_repl_policies.h: bestId >= 0")
  end.

(** [rank] of [LegacyReplPolicy]. *)
Definition wy_rank (P : WPParams) (part : res nat) (lineAddr : Address) (cands : list nat)
    : M (WayPart Mon) nat :=
  wy_startReplacement part lineAddr ;;
  forM cands (wy_recordCandidate P) ;;
  wy_getBestCandidate.

Definition wy_replaced (id : nat) : M (WayPart Mon) unit :=
  modify (wy_set_best None 0) ;;
  s <- get ;;
  e <- lift (at_ (wy_array s) id) ;;
  l <- lift (set_at (wy_array s) id (mkWP (wy_incomingLineAddr s) 0 (wl_p e))) ;;
  modify (wy_set_array l).

(** [for (i < waysPart\[p\]) wayPartIndex\[curWay++\] = p] *)
Fixpoint wy_assign (p n curWay : nat) : M (WayPart Mon) nat :=
  match n with
  | O => ret curWay
  | S n' =>
      s <- get ;;
      l <- lift (set_at (wy_wayPartIndex s) curWay p) ;;
      modify (wy_set_index l) ;;
      wy_assign p n' (S curWay)
  end.

Fixpoint wy_sizes (P : WPParams) (waysPart : list Z) (ps : list nat) (curWay : nat) : M (WayPart Mon) nat :=
  match ps with
  | [] => ret curWay
  | p :: ps' =>
      n <- lift (at_ waysPart p) ;;
      t <- lift (udiv (u32 (wpp_totalSize P * n)) (Z.of_nat (wpp_ways P))) ;;
      upd_info p (pi_set_target t) ;;
      curWay' <- wy_assign p (Z.to_nat n) curWay ;;
      wy_sizes P waysPart ps' curWay'
  end.

Definition wy_setPartitionSizes (P : WPParams) (waysPart : list Z) : M (WayPart Mon) unit :=
  curWay <- wy_sizes P waysPart (seq 0 (wpp_partitions P)) 0 ;;
  assert_ "part_repl_policies.h: curWay == ways" (curWay =? wpp_ways P)%nat.

Definition WayPart_policy (P : WPParams) : PartReplPolicy (WayPart Mon) Mon := {|
  pr_monitor := fun A m => zoom wy_monitor wy_set_monitor m;
  pr_setPartitionSizes := wy_setPartitionSizes P
|}.
End WayPart.
