(* ===== verification/WayPartSpec.v ===== *)
(** * Way partitioning keeps partitions apart, until it is resized

    [waypart_replacement]: a miss evicts from a way of its own partition and the
    sizes stay exact.  [resize_outcome]: what [setPartitionSizes] does with a
    vector of allocations.  [repartition_outcome]: what [partition()] does with a
    monitor that keeps the partitioner's law. *)

From stdpp Require Import base list strings functions.
From Stdlib Require Import ZArith Lia.
From S2P Require Import Prelude Numeric MemHierarchy ReplPolicy MtRand H3Hash Umon UmonSpec Partition PartitionSpec WayPart.
Local Open Scope Z_scope.

Section Spec.
Context {Mon : Type} `{MonitorAccess Mon} (P : WPParams).
Implicit Types s : WayPart Mon.

Definition lines_of (p : nat) (l : list WayPartInfo) : nat := count_if (fun e => (wl_p e =? p)%nat) l.

(** The state apart from the monitor. *)
Record wy_shape s : Prop := {
  wi_info : length (wy_partInfo s) = wpp_partitions P;
  wi_array : Z.of_nat (length (wy_array s)) = wpp_totalSize P;
  wi_total : wpp_totalSize P < 2 ^ 32;
  wi_index : length (wy_wayPartIndex s) = wpp_ways P;
  wi_lines : forall id e, wy_array s !! id = Some e -> (wl_p e < wpp_partitions P)%nat;
  wi_incoming : (wy_incomingLinePart s < wpp_partitions P)%nat;
  wi_sizes : forall p i, wy_partInfo s !! p = Some i -> pi_size i = Z.of_nat (lines_of p (wy_array s))
}.

Record wy_inv s : Prop := {
  wi_shape :> wy_shape s;
  wi_monitor : pm_sampling (wpp_partitions P) (wy_monitor s)
}.

(** Between replacements. *)
Definition wy_idle s : Prop := wy_inv s /\ wy_bestId s = None /\ wy_candIdx s = 0%nat.

(** The way [w] may be filled by the partition [part]. *)
Definition may_fill s (part w : nat) : Prop :=
  wpp_testMode P = true \/ wy_wayPartIndex s !! w = Some part.

(** The line [e0] goes before the line [e] when [part] needs room.  In test mode the
    older line goes.  Otherwise a line of another partition goes before one of
    [part], and among lines that are alike in this the older one goes. *)
Definition goes_first (part : nat) (e0 e : WayPartInfo) : Prop :=
  if wpp_testMode P then wl_ts e0 <= wl_ts e
  else (wl_p e0 = part -> wl_p e = part) /\ ((wl_p e0 = part <-> wl_p e = part) -> wl_ts e0 <= wl_ts e).

Definition leaves_before s (part id0 id : nat) : Prop :=
  forall e e0, wy_array s !! id = Some e -> wy_array s !! id0 = Some e0 -> goes_first part e0 e.

Lemma goes_first_refl part e : goes_first part e e.
Proof. unfold goes_first. destruct (wpp_testMode P); [lia|]. split; [done|lia]. Qed.

(** The comparison of [recordCandidate] decides which of two lines goes. *)
Lemma better_goes_first part c best :
  if wy_better (wpp_testMode P) part c best then goes_first part c best else goes_first part best c.
Proof.
  unfold wy_better, goes_first. destruct (wpp_testMode P); simpl; [destruct (Z.ltb_spec (wl_ts c) (wl_ts best)); lia|].
  destruct (Nat.eqb_spec (wl_p c) part), (Nat.eqb_spec (wl_p best) part); simpl;
    try destruct (Z.ltb_spec (wl_ts c) (wl_ts best)); (split; [tauto|]); intros [? ?]; first [lia|tauto].
Qed.

Lemma goes_first_trans part x y z : goes_first part x y -> goes_first part y z -> goes_first part x z.
Proof.
  unfold goes_first. destruct (wpp_testMode P); [lia|].
  destruct (decide (wl_p x = part)), (decide (wl_p y = part)), (decide (wl_p z = part));
    intros [? Hxy] [? Hyz]; (split; [tauto|]); intros [? ?]; first [tauto|etransitivity; [apply Hxy|apply Hyz]; tauto].
Qed.

(** ** The choice of a victim *)
Section Rank.
Context (s : WayPart Mon) (part : nat) (cands : list nat).
Context (Hcands : length cands = wpp_ways P) (Hindex : length (wy_wayPartIndex s) = wpp_ways P).
Context (Hlt : forall c, c ∈ cands -> is_Some (wy_array s !! c)).

(** The best candidate among the first [k]. *)
Definition best_of (k : nat) (o : option nat) : Prop :=
  match o with
  | None => forall w, (w < k)%nat -> ~ may_fill s part w
  | Some id => (exists w, (w < k)%nat /\ cands !! w = Some id /\ may_fill s part w) /\
      forall w id', (w < k)%nat -> cands !! w = Some id' -> may_fill s part w -> leaves_before s part id id'
  end.

Definition ranking (k : nat) (s' : WayPart Mon) : Prop :=
  exists o, s' = wy_set_best o k s /\ best_of k o /\ wy_incomingLinePart s = part.

Lemma record_ok k id s' :
  (k < wpp_ways P)%nat -> cands !! k = Some id -> ranking k s' ->
  wp (wy_recordCandidate P id) (fun _ s'' => ranking (S k) s'') s'.
Proof.
  intros Hk Hid (o & -> & Hbest & Hpart). unfold wy_recordCandidate. wp_step. wp_step.
  cbn [wy_set_best wy_candIdx wy_bestId wy_wayPartIndex wy_array wy_incomingLinePart].
  wp_step. wp_step; [by apply Nat.ltb_lt|]. cbv zeta. wp_step. wp_step.
  destruct (lookup_lt_is_Some_2 (wy_wayPartIndex s) k) as [w Hw]; [lia|].
  wp_step. eapply wp_lift; [by apply at_ok|]. rewrite Hpart.
  assert (may_fill s part k <-> (wpp_testMode P || (w =? part)%nat)%bool = true) as Hfill.
  { unfold may_fill. rewrite orb_true_iff, Nat.eqb_eq, Hw. split; intros [?|?]; [by left|right; congruence|by left|right; congruence]. }
  destruct (wpp_testMode P || (w =? part)%nat)%bool eqn:E.
  - assert (may_fill s part k) as Hmay by (by apply Hfill).
    destruct o as [best|]; [|].
    + destruct Hbest as [(w0 & Hw0 & Hc0 & Hm0) Hmin].
      destruct (Hlt id) as [c Hc]; [by eapply list_elem_of_lookup_2|].
      destruct (Hlt best) as [c0 Hb0]; [by eapply list_elem_of_lookup_2|].
      wp_step. eapply wp_lift; [by apply at_ok|]. wp_step. eapply wp_lift; [by apply at_ok|].
      pose proof (better_goes_first part c c0) as Hgo.
      apply wp_when; intros Hbet; rewrite Hbet in Hgo.
      * wp_step. exists (Some id). split; [done|]. split; [|done]. split; [exists k; split_and!; [lia|done|done]|].
        intros w' id' Hw' Hc' Hm' e e0 He He0. simplify_eq.
        destruct (decide (w' = k)) as [->|Hne].
        -- simplify_eq. apply goes_first_refl.
        -- eapply goes_first_trans; [exact Hgo|]. eapply (Hmin w' id'); [lia|done|done|done|done].
      * exists (Some best). split; [done|]. split; [|done]. split; [exists w0; split_and!; [lia|done|done]|].
        intros w' id' Hw' Hc' Hm'. destruct (decide (w' = k)) as [->|Hne].
        -- simplify_eq. intros e e0 He He0. simplify_eq. done.
        -- eapply Hmin; [|done|done]. lia.
    + wp_step. exists (Some id). split; [done|]. split; [|done]. split; [exists k; split_and!; [lia|done|done]|].
      intros w' id' Hw' Hc' Hm'. destruct (decide (w' = k)) as [->|Hne].
      * simplify_eq. intros e e0 He He0. simplify_eq. apply goes_first_refl.
      * exfalso. eapply (Hbest w'); [lia|done].
  - assert (~ may_fill s part k) as Hmay by (rewrite Hfill; done).
    wp_step. exists o. split; [done|]. split; [|done]. destruct o as [best|].
    + destruct Hbest as [(w0 & Hw0 & Hc0 & Hm0) Hmin]. split; [exists w0; split_and!; [lia|done|done]|].
      intros w' id' Hw' Hc' Hm'. destruct (decide (w' = k)) as [->|Hne]; [done|]. eapply Hmin; [|done|done]. lia.
    + intros w' Hw'. destruct (decide (w' = k)) as [->|Hne]; [done|]. apply Hbest. lia.
Qed.
End Rank.

(** What a victim is: a line of a way that the partition may fill, and one that
    goes before every other such line. *)
Definition victim s (part : nat) (cands : list nat) (id : nat) : Prop :=
  (exists w, cands !! w = Some id /\ may_fill s part w) /\
  forall w id', cands !! w = Some id' -> may_fill s part w -> leaves_before s part id id'.

Lemma wy_rank_ok s part a cands :
  wy_idle s -> (part < wpp_partitions P)%nat -> (exists w, (w < wpp_ways P)%nat /\ may_fill s part w) ->
  length cands = wpp_ways P -> (forall c, c ∈ cands -> (c < length (wy_array s))%nat) ->
  wp (wy_rank P (Ok part) a cands)
    (fun id s' => victim s part cands id /\ s' = wy_set_best (Some id) (wpp_ways P) (wy_set_incoming part a s)) s.
Proof.
  intros (HI & Hb & Hc) Hpart (w0 & Hw0 & Hm0) Hlen Hlt. unfold wy_rank, wy_startReplacement.
  wp_step. wp_step. wp_step. wp_step. wp_step; [by rewrite Hc|]. wp_step. wp_step; [by rewrite Hb|].
  wp_step. eapply wp_lift; [done|]. wp_step. wp_step.
  set (s1 := wy_set_incoming part a s).
  assert (forall c, c ∈ cands -> is_Some (wy_array s1 !! c)) as Hsome by (intros; by apply lookup_lt_is_Some_2, Hlt).
  apply wp_mono with (P := fun _ s' => ranking s1 part cands (length cands) s').
  { apply (wp_forM _ _ (fun pre s' => ranking s1 part cands (length pre) s')).
    - exists None. split; [unfold s1; destruct s; simpl in *; by subst|]. split; [|done]. intros w Hw. simpl in Hw. lia.
    - intros pre c post s' Hs Hr. rewrite length_app, Nat.add_1_r.
      assert (cands !! length pre = Some c) as Hc' by (rewrite Hs; by apply list_lookup_middle).
      apply (record_ok s1 part cands Hlen); try done; [apply (wi_index _ HI)|].
      rewrite <- Hlen. by eapply lookup_lt_Some.
    - intros s' Hr. exact Hr. }
  intros [] s' (o & -> & Hbest & _). rewrite Hlen in *. unfold wy_getBestCandidate. wp_step. wp_step.
  cbn [wy_set_best wy_bestId]. destruct o as [id|]; [|by destruct (Hbest w0 Hw0)].
  wp_step. destruct Hbest as [(w & Hw & Hcw & Hmw) Hmin]. split; [|done]. split; [by exists w|].
  intros w' id' Hc' Hm'. apply (Hmin w' id'); [|done|done]. rewrite <- Hlen. by eapply lookup_lt_Some.
Qed.

(** ** Accounting *)

Lemma upd_info_ok p f s : (p < length (wy_partInfo s))%nat ->
  wp (upd_info p f) (fun _ s' => s' = wy_set_info (alter f p (wy_partInfo s)) s) s.
Proof.
  intros Hp. destruct (lookup_lt_is_Some_2 _ _ Hp) as [i Hi]. unfold upd_info. wp_step. wp_step.
  wp_step. eapply wp_lift; [by apply at_ok|]. wp_step. eapply wp_lift; [by apply set_at_ok|]. wp_step.
  f_equal. apply list_eq. intros q. destruct (decide (q = p)) as [->|Hne].
  - by rewrite list_lookup_alter_eq, list_lookup_insert_eq, Hi.
  - by rewrite list_lookup_alter_ne, list_lookup_insert_ne.
Qed.

(** The sizes that a list of lines has. *)
Definition sized (l : list PartInfo) (arr : list WayPartInfo) : Prop :=
  forall p i, l !! p = Some i -> pi_size i = Z.of_nat (lines_of p arr).

Lemma sized_alter l arr p f : (forall i, pi_size (f i) = pi_size i) -> sized l arr -> sized (alter f p l) arr.
Proof.
  intros Hf Hs q i Hq. destruct (decide (q = p)) as [->|Hne].
  - rewrite list_lookup_alter_eq in Hq. apply fmap_Some in Hq as (i0 & Hi0 & ->). rewrite Hf. by apply Hs.
  - rewrite list_lookup_alter_ne in Hq by done. by apply Hs.
Qed.

(** A line that stays in its partition leaves the sizes alone. *)
Lemma sized_keep l arr id e e' : arr !! id = Some e -> wl_p e' = wl_p e -> sized l arr -> sized l (<[id := e']> arr).
Proof.
  intros He Hp Hs q i Hq. rewrite (Hs q i Hq). f_equal. unfold lines_of.
  pose proof (count_if_insert (fun x => (wl_p x =? q)%nat) arr id e e' He) as E. cbv beta in E. rewrite Hp in E. lia.
Qed.

Lemma sized_move l arr id e e' :
  arr !! id = Some e -> wl_p e' <> wl_p e -> (Z.of_nat (length arr) < 2 ^ 32) -> sized l arr ->
  sized (alter (fun i => pi_set_size (u64 (pi_size i + 1)) i) (wl_p e')
           (alter pi_ext (wl_p e) (alter (fun i => pi_set_size (u64 (pi_size i - 1)) i) (wl_p e) l)))
    (<[id := e']> arr).
Proof.
  intros He Hne Hlen Hs q i Hq.
  pose proof (count_if_insert (fun x => (wl_p x =? q)%nat) arr id e e' He) as E. cbv beta in E.
  pose proof (count_if_le (fun x => (wl_p x =? q)%nat) arr) as Hle.
  pose proof (count_if_le (fun x => (wl_p x =? q)%nat) (<[id := e']> arr)) as Hle'. rewrite length_insert in Hle'.
  unfold sized, lines_of in *. destruct (decide (q = wl_p e')) as [->|Hq1].
  - rewrite list_lookup_alter_eq, !list_lookup_alter_ne in Hq by congruence.
    apply fmap_Some in Hq as (i0 & Hi0 & ->). cbn. rewrite (Hs _ _ Hi0).
    rewrite Nat.eqb_refl, (proj2 (Nat.eqb_neq (wl_p e) (wl_p e'))) in E by congruence.
    rewrite u64_id by (unfold in_u64; lia). lia.
  - rewrite (list_lookup_alter_ne _ _ (wl_p e')) in Hq by congruence.
    rewrite (proj2 (Nat.eqb_neq (wl_p e') q)) in E by congruence.
    destruct (decide (q = wl_p e)) as [->|Hq2].
    + rewrite !list_lookup_alter_eq in Hq. apply fmap_Some in Hq as (i1 & Hi1 & ->).
      apply fmap_Some in Hi1 as (i0 & Hi0 & ->). cbn. rewrite (Hs _ _ Hi0).
      rewrite Nat.eqb_refl in E. rewrite u64_id by (unfold in_u64; lia). lia.
    + rewrite !list_lookup_alter_ne in Hq by congruence. rewrite (Hs _ _ Hq).
      rewrite (proj2 (Nat.eqb_neq (wl_p e) q)) in E by congruence. lia.
Qed.

Lemma insert_lines_below (arr : list WayPartInfo) (id : nat) e' : (wl_p e' < wpp_partitions P)%nat ->
  (forall (j : nat) e, arr !! j = Some e -> (wl_p e < wpp_partitions P)%nat) ->
  forall (j : nat) e, <[id := e']> arr !! j = Some e -> (wl_p e < wpp_partitions P)%nat.
Proof.
  intros He' Ha j e Hj. destruct (decide (j = id)) as [->|Hne].
  - apply list_lookup_insert_Some in Hj as [(_ & <- & _)|(? & _)]; done.
  - rewrite list_lookup_insert_ne in Hj by done. eauto.
Qed.

(** What [update] leaves of a state, apart from its counters and its monitor. *)
Definition updated s (id : nat) (e' : WayPartInfo) s' : Prop :=
  wy_array s' = <[id := e']> (wy_array s) /\ wy_wayPartIndex s' = wy_wayPartIndex s /\
  wy_bestId s' = wy_bestId s /\ wy_candIdx s' = wy_candIdx s /\
  wy_timestamp s' = u64 (wy_timestamp s + 1).

Ltac upd := wp_step; eapply wp_mono; [apply upd_info_ok; cbn; rewrite ?length_alter; lia|];
  let x := fresh in intros [] x ->; cbn [wy_set_info wy_partInfo].

(** The counters of a post-miss update. *)
Lemma account_miss s id e part e' :
  wy_inv s -> wy_array s !! id = Some e -> (part < wpp_partitions P)%nat -> wl_p e' = part ->
  wp ((if negb (wl_p e =? part)%nat then
         upd_info (wl_p e) (fun i => pi_set_size (u64 (pi_size i - 1)) i) ;;
         upd_info (wl_p e) pi_ext ;;
         upd_info part (fun i => pi_set_size (u64 (pi_size i + 1)) i)
       else upd_info (wl_p e) pi_self) ;;
      upd_info part pi_miss ;; ret part)
    (fun p s' => p = part /\ exists l, s' = wy_set_info l s /\ length l = wpp_partitions P /\
       sized l (<[id := e']> (wy_array s))) s.
Proof.
  intros HI He Hpart Hp'. pose proof (wi_info _ HI) as Hl. pose proof (wi_lines _ HI _ _ He) as Hpe.
  pose proof (wi_array _ HI). pose proof (wi_total _ HI). wp_step.
  apply wp_mono with (P := fun _ s' => exists l, s' = wy_set_info l s /\ length l = wpp_partitions P /\
       sized l (<[id := e']> (wy_array s))).
  - destruct (Nat.eqb_spec (wl_p e) part) as [Heq|Hne]; cbn [negb].
    + eapply wp_mono; [apply upd_info_ok; lia|]. intros [] s' ->. eexists. split; [reflexivity|].
      rewrite length_alter. split; [done|]. apply sized_alter; [done|].
      eapply sized_keep; [done|congruence|exact (wi_sizes _ HI)].
    + upd. upd. eapply wp_mono; [apply upd_info_ok; cbn; rewrite !length_alter; lia|]. intros [] s' ->.
      eexists. split; [reflexivity|]. cbn. rewrite !length_alter. split; [done|]. rewrite <- Hp'.
      apply sized_move; [done|congruence|lia|exact (wi_sizes _ HI)].
  - intros [] s' (l & -> & Hll & Hs). upd. wp_step. split; [done|]. eexists. split; [reflexivity|].
    rewrite length_alter. split; [done|]. by apply sized_alter.
Qed.

Lemma wy_update_ok s id e :
  wy_inv s -> wy_array s !! id = Some e -> pm_addr (Mon := Mon) (wl_addr e) ->
  wp (wy_update id)
    (fun _ s' => wy_inv s' /\
       updated s id (mkWP (wl_addr e) (wy_timestamp s)
                       (if 0 <? wl_ts e then wl_p e else wy_incomingLinePart s)) s') s.
Proof.
  intros HI He Haddr. pose proof (wi_incoming _ HI) as Hinc. unfold wy_update. wp_step. wp_step. wp_step. eapply wp_lift; [by apply at_ok|]. wp_step.
  set (p' := if 0 <? wl_ts e then wl_p e else wy_incomingLinePart s).
  set (e' := mkWP (wl_addr e) (wy_timestamp s) p').
  apply wp_mono with (P := fun p s' => p = p' /\ exists l, s' = wy_set_info l s /\ length l = wpp_partitions P /\
       sized l (<[id := e']> (wy_array s))).
  { unfold e', p'. destruct (0 <? wl_ts e).
    - pose proof (wi_info _ HI) as Hl. pose proof (wi_lines _ HI _ _ He) as Hpe.
      upd. wp_step. split; [done|]. eexists. split; [reflexivity|]. rewrite length_alter. split; [done|].
      apply sized_alter; [done|]. eapply sized_keep; [done|done|exact (wi_sizes _ HI)].
    - by apply account_miss. }
  intros p s' (-> & l & -> & Hl & Hs).
  wp_step. eapply wp_lift; [apply set_at_ok; by eapply lookup_lt_Some|]. wp_step. wp_step. wp_step. wp_step. wp_step.
  assert (p' < wpp_partitions P)%nat as Hp'.
  { unfold p'. destruct (0 <? wl_ts e); [by eapply (wi_lines _ HI)|done]. }
  eapply wp_mono; [apply (pm_access_ok (wpp_partitions P)); [exact (wi_monitor _ HI)|exact Hp'|exact Haddr]|].
  intros [] m' Hm'. split; [|done]. destruct HI as [[] ?]. constructor; [constructor|]; cbn; try done.
  - by rewrite length_insert.
  - by apply insert_lines_below.
Qed.

Lemma wy_replaced_ok s id e : wy_inv s -> wy_array s !! id = Some e ->
  wp (wy_replaced id)
    (fun _ s' => s' = wy_set_best None 0 (wy_set_array (<[id := mkWP (wy_incomingLineAddr s) 0 (wl_p e)]> (wy_array s)) s)
       /\ wy_idle s') s.
Proof.
  intros HI He. unfold wy_replaced. wp_step. wp_step. wp_step. wp_step. wp_step. eapply wp_lift; [by apply at_ok|].
  wp_step. eapply wp_lift; [apply set_at_ok; by eapply lookup_lt_Some|]. wp_step. split; [done|].
  split; [|done]. pose proof (wi_lines _ HI _ _ He) as Hpe. destruct HI as [[] ?]. constructor; [constructor|]; cbn; try done.
  - by rewrite length_insert.
  - by apply insert_lines_below.
  - by eapply sized_keep.
Qed.

(** A miss: [rank], then [replaced] and [update] for the chosen line. *)
Definition wy_miss (part : res nat) (lineAddr : Address) (cands : list nat) : M (WayPart Mon) nat :=
  id <- wy_rank P part lineAddr cands ;;
  wy_replaced id ;;
  wy_update id ;;
  ret id.

Lemma wy_miss_ok s part a cands :
  wy_idle s -> (part < wpp_partitions P)%nat -> (exists w, (w < wpp_ways P)%nat /\ may_fill s part w) ->
  length cands = wpp_ways P -> (forall c, c ∈ cands -> (c < length (wy_array s))%nat) -> pm_addr (Mon := Mon) a ->
  wp (wy_miss (Ok part) a cands)
    (fun id s' => victim s part cands id /\ wy_idle s' /\
       updated s id (mkWP a (wy_timestamp s) part) s') s.
Proof.
  intros HI Hpart Hw Hlen Hlt Haddr. unfold wy_miss. wp_step. eapply wp_mono; [by apply wy_rank_ok|].
  intros id s1 [Hv ->]. pose proof Hv as [(w & Hcw & _) _].
  destruct (lookup_lt_is_Some_2 (wy_array s) id) as [e He]; [apply Hlt; by eapply list_elem_of_lookup_2|].
  destruct HI as (HI & Hb & Hc).
  wp_step. eapply wp_mono; [apply (wy_replaced_ok _ _ e); [destruct HI as [[] ?]; constructor; [constructor|]; done|done]|].
  intros [] s2 [-> (HI2 & Hb2 & Hc2)]. wp_step. cbn [wy_set_best wy_set_incoming wy_set_array wy_array wy_incomingLineAddr].
  eapply wp_mono; [eapply wy_update_ok; [exact HI2|cbn; apply list_lookup_insert_eq; by eapply lookup_lt_Some|exact Haddr]|].
  intros [] s3 (HI3 & Ha & Hi & Hb3 & Hc3 & Ht). wp_step. split; [done|]. cbn in *.
  split; [split; [done|by rewrite Hb3, Hc3]|]. rewrite list_insert_insert_eq in Ha. 
  split; [exact Ha|]. split; [done|]. rewrite Hb3, Hc3, Hb, Hc. done.
Qed.

(** ** Histories *)

(** An access that hits line [id] if it holds [lineAddr], or that misses with these
    candidates. *)
Inductive WPAccess :=
| WPHit (id : nat) (lineAddr : Address)
| WPMiss (part : nat) (lineAddr : Address) (cands : list nat).

Definition line_holds (a : Address) (e : option WayPartInfo) : bool :=
  match e with Some e => wl_addr e =? a | None => false end.

Definition wy_run (ops : list WPAccess) : M (WayPart Mon) unit :=
  forM ops (fun op =>
    match op with
    | WPHit id a => e <- gets (fun s => wy_array s !! id) ;; when (line_holds a e) (wy_update id)
    | WPMiss part a cands => wy_miss (Ok part) a cands ;; ret tt
    end).

Definition way_cands_ok (cands : list nat) : Prop :=
  length cands = wpp_ways P /\ Forall (fun c => Z.of_nat c < wpp_totalSize P) cands.

Definition history_ok (op : WPAccess) : Prop :=
  match op with
  | WPHit _ a => pm_addr (Mon := Mon) a
  | WPMiss part a cands => pm_addr (Mon := Mon) a /\ (part < wpp_partitions P)%nat /\ way_cands_ok cands
  end.

(** Every partition has a way. *)
Definition covered (index : list nat) : Prop :=
  forall part, (part < wpp_partitions P)%nat -> exists w, index !! w = Some part.

Lemma covered_fill s part : wy_idle s -> covered (wy_wayPartIndex s) -> (part < wpp_partitions P)%nat ->
  exists w, (w < wpp_ways P)%nat /\ may_fill s part w.
Proof.
  intros (HI & _) Hc Hp. destruct (Hc part Hp) as [w Hw]. exists w. split; [|by right].
  rewrite <- (wi_index _ HI). by eapply lookup_lt_Some.
Qed.

Lemma wy_miss_covered s part a cands :
  wy_idle s -> covered (wy_wayPartIndex s) -> (part < wpp_partitions P)%nat -> way_cands_ok cands -> pm_addr (Mon := Mon) a ->
  wp (wy_miss (Ok part) a cands)
    (fun id s' => victim s part cands id /\ wy_idle s' /\ updated s id (mkWP a (wy_timestamp s) part) s') s.
Proof.
  intros HI Hc Hp [Hlen Hcands] Ha. apply wy_miss_ok; try done; [by apply covered_fill|].
  intros c Hc'. rewrite list.Forall_forall in Hcands. pose proof (Hcands c Hc').
  pose proof (wi_array _ (proj1 HI)). lia.
Qed.

Lemma wy_run_ok ops s index :
  wy_idle s -> wy_wayPartIndex s = index -> covered index -> Forall history_ok ops ->
  wp (wy_run ops) (fun _ s' => wy_idle s' /\ wy_wayPartIndex s' = index) s.
Proof.
  intros HI Hx Hc Hops. unfold wy_run.
  apply (wp_forM_inv _ _ (fun s => wy_idle s /\ wy_wayPartIndex s = index)); [done|].
  intros op s' Hop [HI' Hx']. rewrite list.Forall_forall in Hops. specialize (Hops op Hop).
  destruct op as [id a|part a cands]; cbn in Hops.
  - wp_step. wp_step. apply wp_when; [|done]. unfold line_holds. intros Hh.
    destruct (wy_array s' !! id) as [e|] eqn:He; [|done]. apply Z.eqb_eq in Hh as <-.
    destruct HI' as (HI' & Hb & Hcd). eapply wp_mono; [by apply (wy_update_ok _ _ e)|].
    intros [] s2 (HI2 & _ & Hi & Hb2 & Hc2 & _). split; [split; [done|by rewrite Hb2, Hc2]|by rewrite Hi].
  - destruct Hops as (Ha & Hp & Hcands). wp_step. eapply wp_mono; [apply wy_miss_covered; try done; by rewrite Hx'|].
    intros id s2 (_ & HI2 & _ & Hi & _). wp_step. split; [done|]. by rewrite Hi.
Qed.
End Spec.

(** ** The initial assignment *)

(** The constants that the constructor sets. *)
Definition wpp_new (partitions : nat) (lines : Z) (ways : nat) (testMode : bool) : WPParams :=
  mkWPP partitions lines (lines / Z.of_nat ways) ways testMode.

Lemma count_if_replicate {A} (p : A -> bool) k x : count_if p (replicate k x) = if p x then k else 0%nat.
Proof. induction k as [|k IH]; cbn; [by destruct (p x)|]. rewrite IH. destruct (p x); lia. Qed.

Section Init.
Context {Mon : Type} `{MonitorAccess Mon} (m : Mon).
Context (partitions ways : nat) (lines : Z) (testMode : bool).
Context (Hp : (0 < partitions <= ways)%nat) (Hpw : Z.of_nat (ways * partitions) < 2 ^ 32).
Context (Hl : 0 <= lines < 2 ^ 32) (Hdiv : lines mod Z.of_nat ways = 0).
Context (Hm : pm_sampling partitions m).

Let P := wpp_new partitions lines ways testMode.

(** The partition of way [w]. *)
Definition home (w : nat) : nat := (w * partitions / ways)%nat.

Lemma home_code w : (w < ways)%nat ->
  Z.to_nat (u32 (Z.of_nat w * Z.of_nat partitions) / Z.of_nat ways) = home w /\ (home w < partitions)%nat.
Proof.
  intros Hw. rewrite u32_id by (unfold in_u32; nia).
  rewrite <- Nat2Z.inj_mul, <- Nat2Z.inj_div, Nat2Z.id. split; [done|].
  apply Nat.Div0.div_lt_upper_bound. nia.
Qed.

Lemma home_covers part : (part < partitions)%nat -> exists w, (w < ways)%nat /\ home w = part.
Proof.
  intros Hpart. exists ((part * ways + (partitions - 1)) / partitions)%nat.
  set (w := ((part * ways + (partitions - 1)) / partitions)%nat).
  assert (w * partitions <= part * ways + (partitions - 1))%nat as H1 by (unfold w; rewrite Nat.mul_comm; apply Nat.Div0.mul_div_le).
  assert (part * ways <= w * partitions)%nat as H2.
  { unfold w. pose proof (Nat.div_mod_eq (part * ways + (partitions - 1)) partitions).
    pose proof (Nat.mod_upper_bound (part * ways + (partitions - 1)) partitions). nia. }
  split; [nia|]. unfold home. symmetry. apply (Nat.div_unique _ _ _ (w * partitions - part * ways)); nia.
Qed.

Definition init_inv (k : nat) (s : WayPart Mon) : Prop :=
  wy_idle P s /\ forall w, (w < k)%nat -> wy_wayPartIndex s !! w = Some (home w).

Lemma init_way_ok k s : (k < ways)%nat -> init_inv k s ->
  wp (wy_init_way partitions ways (lines / Z.of_nat ways) k) (fun _ s' => init_inv (S k) s') s.
Proof.
  intros Hk ((HI & Hb & Hc) & Hidx). destruct (home_code k Hk) as [E Hh]. unfold wy_init_way. cbv zeta. rewrite E.
  pose proof (wi_index _ _ HI) as Hli. pose proof (wi_info _ _ HI) as Hinf. cbn in Hli, Hinf.
  wp_step. wp_step. wp_step. eapply wp_lift; [apply set_at_ok; lia|]. wp_step. wp_step.
  eapply wp_mono; [apply upd_info_ok; cbn; lia|]. intros [] s' ->.
  split; [split; [|done]|].
  - destruct HI as [[] ?]. constructor; [constructor|]; cbn; try done; [by rewrite length_alter|by rewrite length_insert|].
    by apply sized_alter.
  - intros w Hw. cbn. destruct (decide (w = k)) as [->|Hne].
    + by rewrite list_lookup_insert_eq by lia.
    + rewrite list_lookup_insert_ne by done. apply Hidx. lia.
Qed.

Lemma WayPart_new_ok :
  exists s, WayPart_new partitions lines ways testMode m = Ok (P, s) /\ wy_idle P s /\
    (forall w, (w < ways)%nat -> wy_wayPartIndex s !! w = Some (home w)) /\ covered P (wy_wayPartIndex s).
Proof.
  unfold WayPart_new. cbv zeta. rewrite (u32_id lines) by done.
  assert (Z.of_nat ways <> 0) as Hw0 by lia. unfold udiv. rewrite (proj2 (Z.eqb_neq _ _) Hw0).
  assert (lines / Z.of_nat ways * Z.of_nat ways = lines) as Hmul by (rewrite Z.mul_comm; symmetry; by apply Z.div_exact).
  rewrite Hmul, (u32_id lines), Z.eqb_refl by done. cbn [negb].
  set (s0 := mkWay _ _ _ _ _ _ _ _ _).
  assert (wp (upd_info 0 (pi_set_size lines) ;; forM (seq 0 ways) (wy_init_way partitions ways (lines / Z.of_nat ways)))
            (fun _ s => init_inv ways s) s0) as Hwp.
  { wp_step. eapply wp_mono; [apply upd_info_ok; cbn; rewrite length_replicate; lia|]. intros [] s1 ->.
    apply (wp_forM _ _ (fun pre s => init_inv (length pre) s)).
    - split; [|intros w Hw; simpl in Hw; lia]. split; [|done]. constructor; [constructor|]; cbn; try done; try lia.
      + by rewrite length_alter, length_replicate.
      + rewrite length_replicate. lia.
      + by rewrite length_replicate.
      + intros id e He. apply lookup_replicate in He as [-> _]. simpl. lia.
      + intros p i Hi. unfold lines_of. destruct (decide (p = 0%nat)) as [->|Hne].
        * rewrite list_lookup_alter_eq in Hi. apply fmap_Some in Hi as (i0 & _ & ->). cbn.
          rewrite (count_if_replicate _ (Z.to_nat lines)). cbn. lia.
        * rewrite list_lookup_alter_ne in Hi by done. apply lookup_replicate in Hi as [-> _].
          rewrite (count_if_replicate _ (Z.to_nat lines)). cbn. destruct p; [done|]. done.
    - intros pre w post s Hs Hi. rewrite length_app, Nat.add_1_r.
      assert (w = length pre /\ (w < ways)%nat) as [-> Hw].
      { assert (seq 0 ways !! length pre = Some w) as Hlk by (rewrite Hs; by apply list_lookup_middle).
        apply lookup_seq in Hlk. lia. }
      by apply init_way_ok.
    - intros s Hi. by rewrite length_seq in Hi. }
  destruct (wp_ok _ _ _ Hwp) as ([] & s & E & Hs & Hidx). rewrite E. exists s. split_and!; [done|done|done|].
  intros part Hpart. destruct (home_covers part Hpart) as (w & Hw & <-). exists w. by apply Hidx.
Qed.
End Init.

(** C12: a new way-partitioned cache, with at most as many partitions as ways, as
    many lines as fill its ways exactly and a product of ways and partitions below
    2^32, runs every history of hits and misses, with every monitor that takes
    accesses.  A further miss returns a line of a way that belongs to its
    partition (in test mode, of any way).  Among the candidates in such ways it is
    the oldest one that belongs to another partition, or, if all belong to the
    partition, the oldest one; in test mode it is the oldest one.  The line then
    belongs to the partition, no other line changes, and the size of each
    partition is the number of its lines. *)
Theorem waypart_replacement {Mon} `{MonitorAccess Mon} (m : Mon) partitions ways lines testMode ops part a cands :
  (0 < partitions <= ways)%nat -> Z.of_nat (ways * partitions) < 2 ^ 32 ->
  0 <= lines < 2 ^ 32 -> lines mod Z.of_nat ways = 0 -> pm_sampling partitions m -> pm_addr (Mon := Mon) a ->
  let P := wpp_new partitions lines ways testMode in
  Forall (history_ok (Mon := Mon) P) ops -> (part < partitions)%nat -> way_cands_ok P cands ->
  exists s, WayPart_new partitions lines ways testMode m = Ok (P, s) /\
    wp (wy_run P ops) (fun _ s1 => wy_idle P s1 /\
      wp (wy_miss P (Ok part) a cands)
        (fun id s2 => victim P s1 part cands id /\
           (testMode = false -> exists w, cands !! w = Some id /\ (w * partitions / ways)%nat = part) /\
           wy_idle P s2 /\ updated s1 id (mkWP a (wy_timestamp s1) part) s2) s1) s.
Proof.
  intros Hp Hpw Hl Hdiv Hm Ha P Hops Hpart Hcands.
  destruct (WayPart_new_ok m partitions ways lines testMode Hp Hpw Hl Hdiv Hm) as (s & E & HI & Hh & Hc).
  exists s. split; [exact E|]. eapply wp_mono; [by apply wy_run_ok|].
  intros [] s1 [HI1 Hx]. split; [done|]. eapply wp_mono; [apply wy_miss_covered; try done; by rewrite Hx|].
  intros id s2 (Hv & HI2 & Hu). split_and!; try done. intros Ht.
  destruct Hv as [(w & Hw & [?|Hmay]) _]; [cbn in *; congruence|]. exists w. split; [done|].
  assert (w < ways)%nat as Hww by (pose proof (proj1 Hcands : length cands = ways) as <-; by eapply lookup_lt_Some).
  rewrite Hx, (Hh w Hww) in Hmay. by simplify_eq.
Qed.

Definition demo_ops : list WPAccess := [WPMiss 0 5 [0; 1; 2; 3]%nat; WPHit 0 5; WPMiss 1 6 [0; 1; 2; 3]%nat].

Lemma waypart_replacement_witness :
  let P := wpp_new 2 16 4 false in
  exists m s, UMonMonitor_new 16 4 4 2 4 = Ok m /\ WayPart_new 2 16 4 false m = Ok (P, s) /\
    wp (wy_run P demo_ops) (fun _ s1 => wy_idle P s1 /\
      wp (wy_miss P (Ok 1%nat) 9 [0; 1; 2; 3]%nat)
        (fun id s2 => exists w, [0; 1; 2; 3]%nat !! w = Some id /\ (w * 2 / 4)%nat = 1%nat) s1) s.
Proof.
  intros P. assert (way_cands_ok P [0; 1; 2; 3]%nat) as Hc by (split; [reflexivity|]; repeat constructor).
  assert (Forall (history_ok (Mon := UMonMonitor) P) demo_ops) as Hops.
  { repeat apply list.Forall_cons_2; [..|apply list.Forall_nil_2]; cbn [history_ok]; try (split; [|split]); try exact Hc; cbn; lia. }
  destruct (UMonMonitor_new_ok 16 4 4 2 4) as (m & Em & Hm); try lia.
  destruct (waypart_replacement m 2 4 16 false demo_ops 1 9 [0; 1; 2; 3]%nat) as (s & Es & Hs);
    try lia; [reflexivity|exact Hm|cbn; lia|exact Hops|exact Hc|].
  exists m, s. split; [exact Em|]. split; [exact Es|]. eapply wp_mono; [exact Hs|].
  intros [] s1 [HI Hw]. split; [exact HI|]. eapply wp_mono; [exact Hw|].
  intros id s2 (_ & Hx & _). apply Hx. reflexivity.
Defined.

(** ** Resizing a way-partitioned cache

    [partition()] of [LookaheadPartitioner] on a [WayPartReplPolicy]: the ways are
    laid out by the new allocations, or the assignment of ways runs past the end
    of [wayPartIndex]. *)

Lemma wp_eq {S A} (m m' : M S A) Q s s' : m s = m' s' -> wp m' Q s' -> wp m Q s.
Proof. unfold wp. by intros ->. Qed.

Section Assign.
Context {Mon : Type} `{MonitorAccess Mon} (P : WPParams).
Implicit Types s : WayPart Mon.

(** ** Assigning ways *)

Lemma wy_assign_ok p n : forall done rest s, wy_wayPartIndex s = done ++ rest -> (n <= length rest)%nat ->
  wp (wy_assign p n (length done))
    (fun c s' => c = (length done + n)%nat /\ s' = wy_set_index (done ++ replicate n p ++ drop n rest) s) s.
Proof.
  induction n as [|n IH]; intros dn rest s Hs Hn; cbn [wy_assign].
  - wp_step. split; [lia|]. simpl. rewrite drop_0, <- Hs. by destruct s.
  - destruct rest as [|r rest]; simpl in Hn; [lia|]. wp_step. wp_step.
    wp_step. eapply wp_lift; [apply set_at_ok; rewrite Hs, length_app; simpl; lia|]. wp_step. wp_step.
    rewrite Hs, insert_app_r_alt, Nat.sub_diag by lia. cbn [list_insert insert].
    replace (S (length dn)) with (length (dn ++ [p])) by (rewrite length_app; simpl; lia).
    eapply wp_mono; [apply (IH (dn ++ [p]) rest); [cbn; by rewrite <- app_assoc|lia]|].
    intros c s' (-> & ->). rewrite length_app. simpl. split; [lia|]. by rewrite <- app_assoc.
Qed.

Lemma wy_assign_over p n : forall done rest s, wy_wayPartIndex s = done ++ rest -> (length rest < n)%nat ->
  wy_assign p n (length done) s = Err OutOfRange.
Proof.
  induction n as [|n IH]; intros dn rest s Hs Hn; [lia|]. cbn [wy_assign]. unfold bind, get, lift, set_at, modify.
  rewrite Hs, length_app. destruct rest as [|r rest]; simpl in Hn.
  - destruct (Nat.ltb_spec (length dn) (length dn + length (@nil nat))); [simpl in *; lia|done].
  - destruct (Nat.ltb_spec (length dn) (length dn + length (r :: rest))); [|simpl in *; lia].
    rewrite insert_app_r_alt, Nat.sub_diag by lia. cbn [list_insert insert].
    replace (S (length dn)) with (length (dn ++ [p])) by (rewrite length_app; simpl; lia).
    apply (IH (dn ++ [p]) rest); [cbn; by rewrite <- app_assoc|lia].
Qed.

(** The ways that the partitions [ps] get. *)
Definition ways_of (allocs : list Z) (p : nat) : nat := Z.to_nat (default 0 (allocs !! p)).
Definition layout (allocs : list Z) (ps : list nat) : list nat :=
  mjoin ((fun p => replicate (ways_of allocs p) p) <$> ps).

Lemma layout_cons allocs p ps : layout allocs (p :: ps) = replicate (ways_of allocs p) p ++ layout allocs ps.
Proof. done. Qed.

(** The new target size of [p], and the partitions with theirs. *)
Definition target_of (allocs : list Z) (p : nat) : Z :=
  u32 (wpp_totalSize P * default 0 (allocs !! p)) / Z.of_nat (wpp_ways P).
Definition retarget (allocs : list Z) (ps : list nat) (l : list PartInfo) : list PartInfo :=
  foldl (fun l p => alter (pi_set_target (target_of allocs p)) p l) l ps.

Lemma retarget_lookup allocs ps : NoDup ps -> forall l p,
  retarget allocs ps l !! p =
    (fun i => if decide (p ∈ ps) then pi_set_target (target_of allocs p) i else i) <$> l !! p.
Proof.
  induction 1 as [|q ps Hq Hnd IH]; intros l p; cbn [retarget foldl].
  { destruct (l !! p) as [i|]; [|done]. simpl. by destruct (decide (p ∈ [])) as [[]%elem_of_nil|]. }
  fold (retarget allocs ps (alter (pi_set_target (target_of allocs q)) q l)). rewrite IH. destruct (decide (p = q)) as [->|Hne].
  - rewrite list_lookup_alter_eq. destruct (l !! q) as [i|]; [|done]. simpl.
    destruct (decide (q ∈ ps)); [done|]. by destruct (decide (q ∈ q :: ps)) as [|[]]; [|left].
  - rewrite list_lookup_alter_ne by done. destruct (l !! p) as [i|]; [|done]. simpl. f_equal.
    destruct (decide (p ∈ ps)) as [H1|H1], (decide (p ∈ q :: ps)) as [H2|H2]; try done.
    + destruct H2. by right.
    + by apply elem_of_cons in H2 as [->|?].
Qed.

Lemma wy_sizes_ok allocs ps : forall done rest s,
  wy_shape P s -> (0 < wpp_ways P)%nat -> wy_wayPartIndex s = done ++ rest ->
  (forall p, p ∈ ps -> (p < wpp_partitions P)%nat /\ is_Some (allocs !! p)) ->
  if decide (length (layout allocs ps) <= length rest)%nat then
    wp (wy_sizes P allocs ps (length done))
      (fun c s' => c = (length done + length (layout allocs ps))%nat /\ wy_shape P s' /\
         wy_wayPartIndex s' = done ++ layout allocs ps ++ drop (length (layout allocs ps)) rest /\
         wy_bestId s' = wy_bestId s /\ wy_candIdx s' = wy_candIdx s /\ wy_monitor s' = wy_monitor s /\
         wy_array s' = wy_array s /\ wy_partInfo s' = retarget allocs ps (wy_partInfo s)) s
  else wy_sizes P allocs ps (length done) s = Err OutOfRange.
Proof.
  induction ps as [|p ps IH]; intros dn rest s HI Hw Hs Hps.
  { rewrite decide_True by (simpl; lia). cbn [wy_sizes]. wp_step. simpl. rewrite drop_0. split_and!; [lia|done..]. }
  destruct (Hps p) as [Hp [a Ea]]; [left|].
  assert (forall q, q ∈ ps -> (q < wpp_partitions P)%nat /\ is_Some (allocs !! q)) as Hps' by (intros; apply Hps; by right).
  assert (ways_of allocs p = Z.to_nat a) as Ew by (unfold ways_of; by rewrite Ea).
  set (s1 := wy_set_info (alter (pi_set_target (u32 (wpp_totalSize P * a) / Z.of_nat (wpp_ways P))) p (wy_partInfo s)) s).
  assert (wy_shape P s1) as HI1.
  { destruct HI. constructor; cbn; try done; [by rewrite length_alter|by apply sized_alter]. }
  assert (wy_sizes P allocs (p :: ps) (length dn) s =
          (curWay' <- wy_assign p (Z.to_nat a) (length dn) ;; wy_sizes P allocs ps curWay') s1) as Estep.
  { cbn [wy_sizes]. unfold bind at 1, lift. rewrite (at_ok _ _ _ Ea). unfold bind at 1, udiv.
    destruct (Z.eqb_spec (Z.of_nat (wpp_ways P)) 0); [lia|]. unfold bind at 1.
    destruct (wp_ok _ _ _ (upd_info_ok p (pi_set_target (u32 (wpp_totalSize P * a) / Z.of_nat (wpp_ways P))) s
      ltac:(rewrite (wi_info _ _ HI); exact Hp))) as ([] & s' & E & ->). by rewrite E. }
  rewrite layout_cons, length_app, length_replicate, Ew.
  destruct (decide (Z.to_nat a <= length rest)%nat) as [Ha|Ha].
  - destruct (wp_ok _ _ _ (wy_assign_ok p (Z.to_nat a) dn rest s1 Hs Ha)) as (c & s2 & E & -> & ->).
    set (s2 := wy_set_index _ s1) in *.
    assert (wy_shape P s2) as HI2.
    { pose proof (wi_index _ _ HI) as Hx. rewrite Hs, length_app in Hx. destruct HI1. constructor; cbn; try done.
      rewrite !length_app, length_replicate, length_drop. lia. }
    replace (length dn + Z.to_nat a)%nat with (length (dn ++ replicate (Z.to_nat a) p)) in E
      by (rewrite length_app, length_replicate; lia).
    specialize (IH (dn ++ replicate (Z.to_nat a) p) (drop (Z.to_nat a) rest) s2 HI2 Hw).
    specialize (IH ltac:(cbn; by rewrite <- app_assoc) Hps'). rewrite length_drop in IH.
    destruct (decide _) as [Hd|Hd].
    + rewrite decide_True by lia. destruct (wp_ok _ _ _ IH) as (c & s3 & E3 & -> & HI3 & Hx & Hb & Hc & Hm & Ha3 & Hi3).
      eapply ok_wp; [rewrite Estep; unfold bind; rewrite E; exact E3|].
      rewrite length_app, length_replicate. split_and!; [lia|done| |done|done|done|done|].
      * rewrite Hx, <- !app_assoc, drop_drop. done.
      * rewrite Hi3. unfold retarget. cbn. assert (target_of allocs p = u32 (wpp_totalSize P * a) / Z.of_nat (wpp_ways P)) as ->; [|done].
        unfold target_of. by rewrite Ea.
    + rewrite decide_False by lia. rewrite Estep. unfold bind. by rewrite E.
  - rewrite decide_False by lia. rewrite Estep. unfold bind. rewrite (wy_assign_over p _ dn rest s1 Hs) by lia. done.
Qed.

Lemma wy_setPartitionSizes_ok allocs s :
  wy_shape P s -> (0 < wpp_ways P)%nat -> (wpp_partitions P <= length allocs)%nat ->
  length (layout allocs (seq 0 (wpp_partitions P))) = wpp_ways P ->
  wp (wy_setPartitionSizes P allocs)
    (fun _ s' => wy_shape P s' /\ wy_wayPartIndex s' = layout allocs (seq 0 (wpp_partitions P)) /\
       wy_bestId s' = wy_bestId s /\ wy_candIdx s' = wy_candIdx s /\ wy_monitor s' = wy_monitor s /\
       wy_array s' = wy_array s /\ wy_partInfo s' = retarget allocs (seq 0 (wpp_partitions P)) (wy_partInfo s)) s.
Proof.
  intros HI Hw Hl Hlay. pose proof (wi_index _ _ HI) as Hx. unfold wy_setPartitionSizes. wp_step.
  pose proof (wy_sizes_ok allocs (seq 0 (wpp_partitions P)) [] (wy_wayPartIndex s) s HI Hw eq_refl) as Hs.
  rewrite decide_True in Hs by lia. eapply wp_mono.
  - apply Hs. intros p Hp. apply elem_of_seq in Hp. split; [lia|]. apply lookup_lt_is_Some_2. lia.
  - intros c s' (-> & HI' & Hx' & Hrest). wp_step; [apply Nat.eqb_eq; simpl; lia|]. split; [done|]. split; [|done].
    rewrite Hx', drop_ge, app_nil_r by lia. done.
Qed.

Lemma wy_setPartitionSizes_over allocs s :
  wy_shape P s -> (0 < wpp_ways P)%nat -> (wpp_partitions P <= length allocs)%nat ->
  (wpp_ways P < length (layout allocs (seq 0 (wpp_partitions P))))%nat ->
  wy_setPartitionSizes P allocs s = Err OutOfRange.
Proof.
  intros HI Hw Hl Hlay. pose proof (wi_index _ _ HI) as Hx. unfold wy_setPartitionSizes, bind.
  pose proof (wy_sizes_ok allocs (seq 0 (wpp_partitions P)) [] (wy_wayPartIndex s) s HI Hw eq_refl) as Hs.
  rewrite decide_False in Hs by lia. simpl in Hs. rewrite Hs; [done|].
  intros p Hp. apply elem_of_seq in Hp. split; [lia|]. apply lookup_lt_is_Some_2. lia.
Qed.

Lemma wy_setPartitionSizes_under allocs s :
  wy_shape P s -> (0 < wpp_ways P)%nat -> (wpp_partitions P <= length allocs)%nat ->
  (length (layout allocs (seq 0 (wpp_partitions P))) < wpp_ways P)%nat ->
  wy_setPartitionSizes P allocs s = Err (AssertFail "part_repl_policies.h: curWay == ways").
Proof.
  intros HI Hw Hl Hlay. pose proof (wi_index _ _ HI) as Hx. unfold wy_setPartitionSizes, bind.
  pose proof (wy_sizes_ok allocs (seq 0 (wpp_partitions P)) [] (wy_wayPartIndex s) s HI Hw eq_refl) as Hs.
  rewrite decide_True in Hs by lia. simpl in Hs.
  destruct (wp_ok _ _ _ (Hs ltac:(intros p Hp; apply elem_of_seq in Hp; split; [lia|]; apply lookup_lt_is_Some_2; lia)))
    as (c & s' & -> & -> & _).
  unfold assert_. by rewrite (proj2 (Nat.eqb_neq _ _)) by lia.
Qed.

(** ** The new allocations *)

Lemma layout_length l : forall pre, Forall (fun a => 0 <= a) l ->
  Z.of_nat (length (layout (pre ++ l) (seq (length pre) (length l)))) = sumZ l.
Proof.
  induction l as [|a l IH]; intros pre Hl; [done|]. apply Forall_cons_1 in Hl as [Ha Hl].
  change (seq (length pre) (length (a :: l))) with (length pre :: seq (S (length pre)) (length l)).
  rewrite layout_cons, length_app, length_replicate. unfold ways_of. rewrite list_lookup_middle by done. simpl.
  specialize (IH (pre ++ [a]) Hl). rewrite <- app_assoc, length_app, Nat.add_1_r in IH. simpl in IH. lia.
Qed.

Lemma layout_app l l' ps : (forall p, p ∈ ps -> (p < length l)%nat) -> layout (l ++ l') ps = layout l ps.
Proof.
  induction ps as [|p ps IH]; intros Hps; [done|]. rewrite !layout_cons, IH by (intros; apply Hps; by right).
  unfold ways_of. rewrite lookup_app_l by (apply Hps; left). done.
Qed.

Lemma copy_allocs_ok l : forall pre done rest, length done = length pre -> (length l <= length rest)%nat ->
  copy_allocs (seq (length pre) (length l)) (pre ++ l) (done ++ rest) = Ok (done ++ l ++ drop (length l) rest).
Proof.
  induction l as [|a l IH]; intros pre dn rest Hd Hr; [simpl; by rewrite drop_0|].
  destruct rest as [|r rest]; simpl in Hr; [lia|]. cbn [length seq copy_allocs].
  rewrite (at_ok _ _ a) by (by apply list_lookup_middle).
  rewrite (set_at_ok (dn ++ r :: rest)) by (rewrite length_app; simpl; lia).
  rewrite <- Hd, insert_app_r_alt, Nat.sub_diag by lia. cbn [list_insert insert].
  specialize (IH (pre ++ [a]) (dn ++ [a]) rest). rewrite !length_app, !Nat.add_1_r, <- !app_assoc in IH. simpl in IH.
  rewrite Hd. rewrite IH by lia. done.
Qed.

(** The number of ways that are assigned. *)
Lemma layout_total n allocs : (n <= length allocs)%nat -> Forall in_u32 allocs ->
  Z.of_nat (length (layout allocs (seq 0 n))) = sumZ (take n allocs).
Proof.
  intros Hn Ha. rewrite <- (take_drop n allocs) at 1. rewrite layout_app by (intros p Hp; apply elem_of_seq in Hp; rewrite length_take; lia).
  rewrite <- (layout_length (take n allocs) []), length_take, Nat.min_l by
    (done || (eapply list.Forall_impl; [by apply Forall_take|intros a [? _]; done])). done.
Qed.

Lemma layout_covers n allocs part : (part < n)%nat -> (n <= length allocs)%nat ->
  Forall (fun a => 1 <= a) (take n allocs) -> exists w, layout allocs (seq 0 n) !! w = Some part.
Proof.
  intros Hp Hn Ha. apply list_elem_of_lookup. unfold layout. apply list_elem_of_join.
  exists (replicate (ways_of allocs part) part). split.
  - apply elem_of_replicate. split; [done|]. destruct (lookup_lt_is_Some_2 allocs part) as [a E]; [lia|].
    assert (1 <= a) as Hge by (apply (proj1 (Forall_lookup _ _) Ha part); by rewrite lookup_take_lt).
    unfold ways_of. rewrite E. simpl. lia.
  - apply list_elem_of_fmap. exists part. split; [done|]. apply elem_of_seq. lia.
Qed.

(** What a resize to [allocs] leaves: the ways in the order of the partitions, to
    each as many as its allocation, its lines and its new target. *)
Record resized (allocs : list Z) s s' : Prop := {
  rs_idle : wy_idle P s';
  rs_index : wy_wayPartIndex s' = layout allocs (seq 0 (wpp_partitions P));
  rs_array : wy_array s' = wy_array s;
  rs_target : forall p i, wy_partInfo s' !! p = Some i -> pi_targetSize i = target_of allocs p
}.

Lemma wy_resize_ok allocs s :
  wy_idle P s -> (0 < wpp_ways P)%nat -> (wpp_partitions P <= length allocs)%nat -> Forall in_u32 allocs ->
  match sumZ (take (wpp_partitions P) allocs) ?= Z.of_nat (wpp_ways P) with
  | Eq => wp (wy_setPartitionSizes P allocs) (fun _ s' => resized allocs s s') s
  | Gt => wy_setPartitionSizes P allocs s = Err OutOfRange
  | Lt => wy_setPartitionSizes P allocs s = Err (AssertFail "part_repl_policies.h: curWay == ways")
  end.
Proof.
  intros (HI & Hb & Hc) Hw Hl Ha. pose proof (layout_total _ _ Hl Ha) as Hn.
  destruct (Z.compare_spec (sumZ (take (wpp_partitions P) allocs)) (Z.of_nat (wpp_ways P))) as [E|E|E].
  - eapply wp_mono; [apply wy_setPartitionSizes_ok; [apply HI|done|done|lia]|].
    intros [] s' (HI' & Hx & Hb' & Hc' & Hm & Harr & Hinfo). constructor; try done.
    + split; [|by rewrite Hb', Hc']. constructor; [done|]. rewrite Hm. apply (wi_monitor _ _ HI).
    + intros p i Hp. pose proof (lookup_lt_Some _ _ _ Hp) as Hlt. rewrite (wi_info _ _ HI') in Hlt.
      rewrite Hinfo, retarget_lookup in Hp by apply NoDup_seq. apply fmap_Some in Hp as (i0 & _ & ->).
      destruct (decide _) as [_|Hno]; [done|]. destruct Hno. apply elem_of_seq. lia.
  - apply wy_setPartitionSizes_under; [apply HI|done|done|lia].
  - apply wy_setPartitionSizes_over; [apply HI|done|done|lia].
Qed.
End Assign.

(** C11: what [setPartitionSizes] does to a way-partitioned cache after any history
    of hits and misses, for every vector of allocations.  If the allocations of
    the partitions sum to the ways, it returns: the ways are assigned in the order
    of the partitions, to each as many as its allocation, the lines stay, and the
    target of a partition is its share of the lines, with the product of lines and
    allocation taken modulo 2^32.  If moreover no allocation is 0, every further
    history runs and a miss takes a line of a way that its partition now has, one
    that goes before the others in such ways.  If they sum to more, it writes
    behind the end of [wayPartIndex]; if to less, its assertion fails. *)
Theorem resize_outcome {Mon} `{MonitorAccess Mon} (m : Mon) partitions ways lines testMode ops allocs :
  (0 < partitions <= ways)%nat -> Z.of_nat (ways * partitions) < 2 ^ 32 ->
  0 <= lines < 2 ^ 32 -> lines mod Z.of_nat ways = 0 -> pm_sampling partitions m ->
  let P := wpp_new partitions lines ways testMode in
  Forall (history_ok (Mon := Mon) P) ops -> (partitions <= length allocs)%nat -> Forall in_u32 allocs ->
  exists s, WayPart_new partitions lines ways testMode m = Ok (P, s) /\
    wp (wy_run P ops) (fun _ s1 =>
      match sumZ (take partitions allocs) ?= Z.of_nat ways with
      | Eq => wp (wy_setPartitionSizes P allocs) (fun _ s2 => resized P allocs s1 s2 /\
          (Forall (fun a => 1 <= a) (take partitions allocs) -> forall ops' part a cands,
             Forall (history_ok (Mon := Mon) P) ops' -> (part < partitions)%nat -> way_cands_ok P cands ->
             pm_addr (Mon := Mon) a ->
             wp (wy_run P ops') (fun _ s3 => wy_wayPartIndex s3 = layout allocs (seq 0 partitions) /\
               wp (wy_miss P (Ok part) a cands) (fun id _ => victim P s3 part cands id) s3) s2)) s1
      | Gt => wy_setPartitionSizes P allocs s1 = Err OutOfRange
      | Lt => wy_setPartitionSizes P allocs s1 = Err (AssertFail "part_repl_policies.h: curWay == ways")
      end) s.
Proof.
  intros Hp Hpw Hl Hdiv Hm P Hops Hlen Hal.
  destruct (WayPart_new_ok m partitions ways lines testMode Hp Hpw Hl Hdiv Hm) as (s & E & HI & Hh & Hc).
  exists s. split; [exact E|]. eapply wp_mono; [by apply wy_run_ok|]. intros [] s1 [HI1 _].
  pose proof (wy_resize_ok P allocs s1 HI1 ltac:(simpl; lia) Hlen Hal) as Hr. simpl in Hr.
  destruct (_ ?= _); [|exact Hr|exact Hr]. eapply wp_mono; [exact Hr|]. intros [] s2 Hs2. split; [exact Hs2|].
  intros Hone ops' part a cands Hops' Hpart Hcands Ha. destruct Hs2 as [HI2 Hx2 _ _].
  assert (covered P (layout allocs (seq 0 partitions))) as Hcov by (intros q Hq; by apply layout_covers).
  eapply wp_mono; [by eapply wy_run_ok|]. intros [] s3 [HI3 Hx3]. split; [done|].
  eapply wp_mono; [apply wy_miss_covered; try done; by rewrite Hx3|]. by intros id s4 [Hv _].
Qed.

Lemma resize_outcome_witness :
  let P := wpp_new 2 16 4 false in
  exists m s s1 s2, UMonMonitor_new 16 4 4 2 4 = Ok m /\ WayPart_new 2 16 4 false m = Ok (P, s) /\
    wy_run P demo_ops s = Ok (tt, s1) /\ wy_setPartitionSizes P [3; 1] s1 = Ok (tt, s2) /\
    wy_wayPartIndex s2 = [0; 0; 0; 1]%nat /\ wy_array s2 = wy_array s1 /\ (pi_targetSize <$> wy_partInfo s2) = [12; 4].
Proof.
  intros P. assert (way_cands_ok P [0; 1; 2; 3]%nat) as Hc by (split; [reflexivity|]; repeat constructor).
  assert (Forall (history_ok (Mon := UMonMonitor) P) demo_ops) as Hops.
  { repeat apply list.Forall_cons_2; [..|apply list.Forall_nil_2]; cbn [history_ok]; try (split; [|split]); try exact Hc; cbn; lia. }
  destruct (UMonMonitor_new_ok 16 4 4 2 4) as (m & Em & Hm); try lia.
  destruct (resize_outcome m 2 4 16 false demo_ops [3; 1]) as (s & Es & Hs);
    try lia; [reflexivity|exact Hm|exact Hops|cbn; lia|repeat constructor; cbn; lia|].
  destruct (wp_ok _ _ _ Hs) as ([] & s1 & E1 & Hr). destruct (wp_ok _ _ _ Hr) as ([] & s2 & E2 & Hs2 & _).
  exists m, s, s1, s2. split; [exact Em|]. split; [exact Es|]. split; [exact E1|]. split; [exact E2|]. destruct Hs2 as [HI Hx Ha Ht].
  split; [exact Hx|]. split; [exact Ha|]. pose proof (wi_info _ _ (proj1 HI)) as Hlen.
  destruct (wy_partInfo s2) as [|i0 [|i1 [|]]]; simpl in Hlen; try lia.
  cbn. by rewrite (Ht 0%nat i0 eq_refl), (Ht 1%nat i1 eq_refl).
Defined.

(** ** [partition()] *)
Section Resize.
Context {Mon : Type} `{MonitorLaws Mon} (P : WPParams).
Context (L : LookaheadPartitioner) (cur : list Z) (s : WayPart Mon).
Local Abbreviation N := (lp_numPartitions L).
Local Abbreviation B := (wpp_ways P).
Context (HI : wy_idle P s) (HN : N = wpp_partitions P) (HNB : (0 < N <= B)%nat).
Context (HB : alloc_buckets L = Z.of_nat B) (HB32 : Z.of_nat B < 2 ^ 32 - 1) (Hforb : lp_forbidden L = None).
Context (Hmin : 0 <= lp_minAlloc L) (Hmin' : lp_minAlloc L * Z.of_nat N <= Z.of_nat B).
Context (Hcur : length cur = S B) (Hcur' : Forall (fun a => 0 <= a <= Z.of_nat B) cur).
Context (Hmon : pm_ok N B (wy_monitor s)).

(** What the lookahead algorithm returns here. *)
Definition new_allocs (best : list Z) : Prop :=
  length best = N /\ sumZ best = Z.of_nat B + (Z.of_nat N - 1) * (lp_minAlloc L * Z.of_nat N) /\
  Forall (fun a => lp_minAlloc L * Z.of_nat N <= a <= Z.of_nat B) best.

Lemma seq_below (l : list Z) n b lo : (n <= length l)%nat -> Forall (fun a => lo <= a <= Z.of_nat b) l ->
  forall p, p ∈ seq 0 n -> (p < n)%nat /\ exists a, l !! p = Some a /\ a <= Z.of_nat b.
Proof.
  intros Hl Ha p Hp. apply elem_of_seq in Hp. split; [lia|].
  destruct (lookup_lt_is_Some_2 l p) as [a E]; [lia|]. exists a. split; [done|].
  rewrite list.Forall_forall in Ha. apply Ha. by eapply list_elem_of_lookup_2.
Qed.

(** [partition()] up to [setPartitionSizes]. *)
Lemma partition_steps :
  exists best mon', new_allocs best /\ pm_ok N B mon' /\
    partition (PartReplPolicy0 := WayPart_policy P) L (cur, s) =
      (zoom snd (fun r st => (fst st, r)) (wy_setPartitionSizes P (best ++ drop N cur)) ;;
       zoom snd (fun r st => (fst st, r)) (zoom wy_monitor wy_set_monitor pm_reset))
        (best ++ drop N cur, wy_set_monitor mon' s).
Proof.
  assert (forbidden_ok N (lp_forbidden L)) as Hf by (rewrite Hforb; intros i _; by exists false).
  assert (exists i, (i < N)%nat /\ may_get (lp_forbidden L) i) as Hex by (rewrite Hforb; exists 0%nat; split; [lia|done]).
  assert (u32 (lp_minAlloc L * Z.of_nat N) = lp_minAlloc L * Z.of_nat N) as Eu by (apply u32_id; unfold in_u32; lia).
  destruct (wp_ok _ _ _ (computeBestPartitioning_ok N B HB32 (alloc_buckets L) (lp_minAlloc L * Z.of_nat N)
    (lp_forbidden L) (wy_monitor s) Hmon Hf Hex HB ltac:(lia))) as (best & m1 & E1 & Hm1 & Hlen & Hsum & _ & Hal).
  assert (new_allocs best) as Hbest.
  { split_and!; [done|lia|]. apply list.Forall_forall. intros a Ha. apply list_elem_of_lookup in Ha as [i Hi].
    destruct (Hal i a Hi) as (? & ? & _). lia. }
  destruct (wp_ok _ _ _ (utility_loop_ok N B best (seq 0 N) 0 0 m1 Hm1 (seq_below best N B _ ltac:(lia)
    (proj2 (proj2 Hbest))))) as (u1 & m2 & E2 & Hm2).
  destruct (wp_ok _ _ _ (utility_loop_ok N B cur (seq 0 N) 0 0 m2 Hm2 (seq_below cur N B _ ltac:(lia) Hcur'))) as (u2 & m3 & E3 & Hm3).
  exists best, m3. split; [done|]. split; [done|].
  pose proof (copy_allocs_ok best [] [] cur eq_refl ltac:(lia)) as E4. rewrite Hlen in E4. cbn [app length] in E4.
  unfold partition, computePartitioningTotalUtility, bind, zoom, gets, lift, modify. rewrite Eu.
  cbn [pr_monitor pr_setPartitionSizes WayPart_policy fst snd]. unfold zoom. rewrite E1.
  cbn [pr_monitor WayPart_policy fst snd wy_set_monitor wy_monitor]. rewrite E2.
  cbn [fst snd wy_set_monitor wy_monitor]. rewrite E3.
  cbn [fst snd wy_set_monitor wy_monitor]. rewrite E4. reflexivity.
Qed.

Lemma best_layout best : new_allocs best ->
  layout (best ++ drop N cur) (seq 0 N) = layout best (seq 0 N) /\
  Z.of_nat (length (layout best (seq 0 N))) = Z.of_nat B + (Z.of_nat N - 1) * (lp_minAlloc L * Z.of_nat N).
Proof.
  intros (Hl & Hs & Ha). split.
  - apply layout_app. intros p Hp. apply elem_of_seq in Hp. lia.
  - rewrite <- Hs, <- (layout_length best []); [by rewrite Hl|].
    eapply list.Forall_impl; [exact Ha|]. simpl. lia.
Qed.

Lemma partition_over : 2 <= Z.of_nat N -> 1 <= lp_minAlloc L ->
  partition (PartReplPolicy0 := WayPart_policy P) L (cur, s) = Err OutOfRange.
Proof.
  intros HN2 Hmin1. destruct partition_steps as (best & m' & Hbest & Hm & E). rewrite E.
  destruct (best_layout best Hbest) as [E1 E2]. unfold bind, zoom. cbn [fst snd].
  rewrite wy_setPartitionSizes_over; [done|destruct HI as [[[] ?] ?]; by constructor|lia| |].
  - rewrite length_app, <- HN. destruct Hbest as (-> & _). lia.
  - rewrite <- HN, E1. nia.
Qed.

Lemma partition_exact : (Z.of_nat N - 1) * lp_minAlloc L = 0 ->
  wp (partition (PartReplPolicy0 := WayPart_policy P) L)
    (fun _ '(cur', s') => exists best, new_allocs best /\ sumZ best = Z.of_nat B /\ cur' = best ++ drop N cur /\
       wy_idle P s' /\ wy_wayPartIndex s' = layout best (seq 0 N) /\ wy_array s' = wy_array s /\
       pm_ok N B (wy_monitor s')) (cur, s).
Proof.
  intros H0'. destruct partition_steps as (best & m' & Hbest & Hm & E).
  destruct (best_layout best Hbest) as [E1 E2]. apply (wp_eq _ _ _ _ _ E).
  wp_step. wp_step. cbn [fst snd]. eapply wp_mono.
  { apply wy_setPartitionSizes_ok; [destruct HI as [[[] ?] ?]; by constructor|lia| |].
    - rewrite length_app, <- HN. destruct Hbest as (-> & _). lia.
    - rewrite <- HN, E1. nia. }
  intros [] s1 (HI1 & Hx & Hb & Hc & Hm1 & Ha & _). wp_step. wp_step. cbn [fst snd]. cbn in Hm1. rewrite Hm1.
  eapply wp_mono; [by apply (pm_reset_ok N B)|]. intros [] m2 [Hok Hsm]. cbn [fst snd].
  exists best. split; [done|]. split; [destruct Hbest as (_ & -> & _); nia|]. split; [done|].
  split; [|split_and!; [cbn; by rewrite Hx, <- HN, E1|done|done]].
  destruct HI as (_ & Hb0 & Hc0). cbn in *. split; [|cbn; by rewrite Hb, Hc].
  constructor; [|by rewrite <- HN]. destruct HI1. by constructor.
Qed.
End Resize.

(** A partitioner and a way-partitioned cache as [init.cpp] builds them: one bucket
    per way, no partition forbidden. *)
Record resize_ok {Mon} `{MonitorLaws Mon} (P : WPParams) (L : LookaheadPartitioner) (cur : list Z)
    (s : WayPart Mon) : Prop := {
  rz_idle : wy_idle P s;
  rz_parts : lp_numPartitions L = wpp_partitions P;
  rz_range : (0 < lp_numPartitions L <= wpp_ways P)%nat;
  rz_buckets : alloc_buckets L = Z.of_nat (wpp_ways P);
  rz_ways : Z.of_nat (wpp_ways P) < 2 ^ 32 - 1;
  rz_forbidden : lp_forbidden L = None;
  rz_min : 0 <= lp_minAlloc L;
  rz_fits : lp_minAlloc L * Z.of_nat (lp_numPartitions L) <= Z.of_nat (wpp_ways P);
  rz_cur : length cur = S (wpp_ways P);
  rz_allocs : Forall (fun a => 0 <= a <= Z.of_nat (wpp_ways P)) cur;
  rz_monitor : pm_ok (lp_numPartitions L) (wpp_ways P) (wy_monitor s)
}.

(** What [partition()] does to a way-partitioned cache with a monitor that keeps
    the law of the partitioner.  With one partition, or a [minAlloc] of 0, it
    returns: the ways are assigned in the order of the partitions, to each as many
    as its allocation, the lines stay, and the state is ready for the next
    interval.  Otherwise the allocations are more than the ways, and
    [setPartitionSizes] writes behind the end of [wayPartIndex].  ([UMonMonitor]
    does not keep the law: [umon_monitor_overruns].) *)
Theorem repartition_outcome {Mon} `{MonitorLaws Mon} (P : WPParams) (L : LookaheadPartitioner) cur (s : WayPart Mon) :
  resize_ok P L cur s ->
  if decide ((Z.of_nat (lp_numPartitions L) - 1) * lp_minAlloc L = 0) then
    wp (partition (PartReplPolicy0 := WayPart_policy P) L)
      (fun _ '(cur', s') => resize_ok P L cur' s' /\
         sumZ (take (lp_numPartitions L) cur') = Z.of_nat (wpp_ways P) /\
         wy_wayPartIndex s' = layout cur' (seq 0 (lp_numPartitions L)) /\ wy_array s' = wy_array s) (cur, s)
  else partition (PartReplPolicy0 := WayPart_policy P) L (cur, s) = Err OutOfRange.
Proof.
  intros [HI HN HNB HB HB32 Hf Hmin Hfit Hcur Hcur' Hmon]. destruct (decide _) as [Hz|Hnz].
  - eapply wp_mono; [by apply (partition_exact P L cur s)|].
    intros [] [cur' s'] (best & Hbest & Hs & -> & HI' & Hx & Ha & Hm').
    assert (length best = lp_numPartitions L) as Hl by apply Hbest.
    split; [constructor; try done|].
    + rewrite length_app, length_drop. lia.
    + apply Forall_app. split; [|by apply Forall_drop].
      eapply list.Forall_impl; [apply Hbest|]. simpl. nia.
    + split_and!; [|rewrite Hx; symmetry; apply layout_app; intros p Hp; apply elem_of_seq in Hp; lia|done].
      by rewrite <- Hl, take_app_length.
  - apply partition_over; try done; nia.
Qed.

(** Two partitions of four ways, each with at least one. *)
Definition demo_partitioner : LookaheadPartitioner := mkLP 2 4 1 (dbl_of_Z 1) None.

Lemma repartition_outcome_witness :
  exists s, WayPart_new 2 16 4 false demo_curves = Ok (wpp_new 2 16 4 false, s) /\
    partition (PartReplPolicy0 := WayPart_policy (wpp_new 2 16 4 false)) demo_partitioner (replicate 5 0, s)
      = Err OutOfRange.
Proof.
  destruct (WayPart_new_ok demo_curves 2 4 16 false) as (s & E & HI & _); try lia; try reflexivity.
  exists s. split; [exact E|].
  apply (repartition_outcome (wpp_new 2 16 4 false) demo_partitioner (replicate 5 0) s).
  constructor; try exact HI; try reflexivity; cbn; try lia.
  - repeat constructor; lia.
  - assert (wy_monitor s = demo_curves) as -> by (vm_compute in E; by inversion E). exact demo_curves_ok.
Defined.
