(* ===== verification/InList.v ===== *)
(** * Intrusive doubly linked lists ([src/src/intrusive_list.h])

    The nodes of all lists are one heap, because a node knows the list it is in;
    nodes and lists are named by numbers, [None] is [nullptr].  [heap_ok] relates
    the heap to plain lists; every operation acts on it as on a plain list. *)

From stdpp Require Import base list gmap strings.
From Stdlib Require Import ZArith Lia.
From S2P Require Import Prelude.
Local Open Scope Z_scope.

(** ** Data *)

Record InListNode := mkIN { in_next : option nat; in_prev : option nat; in_owner : option nat }.
Definition InListNode_new : InListNode := mkIN None None None.

Record InList := mkIL { il_head : option nat; il_tail : option nat; il_elems : Z }.
Definition InList_new : InList := mkIL None None 0.

Record InHeap := mkIH { ih_nodes : gmap nat InListNode; ih_lists : gmap nat InList }.

(** ** Pointers *)

Definition get_node (n : nat) : M InHeap InListNode :=
  h <- get ;; match ih_nodes h !! n with Some x => ret x | None => fail NullDeref end.
Definition put_node (n : nat) (x : InListNode) : M InHeap unit :=
  modify (fun h => mkIH (<[n := x]> (ih_nodes h)) (ih_lists h)).
Definition get_list (q : nat) : M InHeap InList :=
  h <- get ;; match ih_lists h !! q with Some x => ret x | None => fail NullDeref end.
Definition put_list (q : nat) (x : InList) : M InHeap unit :=
  modify (fun h => mkIH (ih_nodes h) (<[q := x]> (ih_lists h))).

(** [n->next = p], [n->prev = p] and [n->owner = p] *)
Definition set_next (n : nat) (p : option nat) : M InHeap unit :=
  x <- get_node n ;; put_node n (mkIN p (in_prev x) (in_owner x)).
Definition set_prev (n : nat) (p : option nat) : M InHeap unit :=
  x <- get_node n ;; put_node n (mkIN (in_next x) p (in_owner x)).
Definition set_owner (n : nat) (p : option nat) : M InHeap unit :=
  x <- get_node n ;; put_node n (mkIN (in_next x) (in_prev x) p).

Definition is_null (p : option nat) : bool := match p with None => true | Some _ => false end.
Definition unlinked (x : InListNode) : bool :=
  is_null (in_next x) && is_null (in_prev x) && is_null (in_owner x).

(** ** [InListNode] *)

Definition unlink (n q : nat) : M InHeap unit :=
  x <- get_node n ;;
  match in_next x with Some m => set_prev m (in_prev x) | None => ret tt end ;;
  x <- get_node n ;;
  match in_prev x with Some p => set_next p (in_next x) | None => ret tt end ;;
  set_next n None ;;
  set_prev n None ;;
  x <- get_node n ;;
  assert_ "intrusive_list.h:55" (bool_decide (in_owner x = Some q)) ;;
  set_owner n None.

Definition linkPrev (n p q : nat) : M InHeap unit :=
  x <- get_node n ;;
  assert_ "intrusive_list.h:61" (is_null (in_owner x)) ;;
  assert_ "intrusive_list.h:62" (is_null (in_prev x) && is_null (in_next x)) ;;
  y <- get_node p ;;
  match in_next y with
  | Some m =>
      z <- get_node m ;;
      assert_ "intrusive_list.h:64" (bool_decide (in_prev z = Some p)) ;;
      set_prev m (Some n) ;;
      set_next n (Some m)
  | None => ret tt
  end ;;
  set_next p (Some n) ;;
  set_prev n (Some p) ;;
  set_owner n (Some q).

(** ** [InList] *)

Definition push_front (q n : nat) : M InHeap unit :=
  x <- get_node n ;;
  assert_ "intrusive_list.h:89" (unlinked x) ;;
  l <- get_list q ;;
  match il_head l with
  | None => put_list q (mkIL (Some n) (Some n) (il_elems l))
  | Some hd =>
      y <- get_node hd ;;
      assert_ "intrusive_list.h:94" (is_null (in_prev y) && bool_decide (in_owner y = Some q)) ;;
      set_next n (Some hd) ;;
      set_prev hd (Some n) ;;
      put_list q (mkIL (Some n) (il_tail l) (il_elems l))
  end ;;
  set_owner n (Some q) ;;
  l <- get_list q ;;
  put_list q (mkIL (il_head l) (il_tail l) (u64 (il_elems l + 1))).

Definition push_back (q n : nat) : M InHeap unit :=
  x <- get_node n ;;
  assert_ "intrusive_list.h:104" (unlinked x) ;;
  l <- get_list q ;;
  match il_head l with
  | None => put_list q (mkIL (Some n) (Some n) (il_elems l)) ;; set_owner n (Some q)
  | Some _ =>
      match il_tail l with
      | None => fail (AssertFail "intrusive_list.h:110")
      | Some tl => linkPrev n tl q ;; put_list q (mkIL (il_head l) (Some n) (il_elems l))
      end
  end ;;
  l <- get_list q ;;
  put_list q (mkIL (il_head l) (il_tail l) (u64 (il_elems l + 1))).

Definition remove (q n : nat) : M InHeap unit :=
  l <- get_list q ;;
  x <- get_node n ;;
  put_list q (mkIL (if bool_decide (il_head l = Some n) then in_next x else il_head l)
                   (if bool_decide (il_tail l = Some n) then in_prev x else il_tail l) (il_elems l)) ;;
  unlink n q ;;
  l <- get_list q ;;
  put_list q (mkIL (il_head l) (il_tail l) (u64 (il_elems l - 1))).

Definition pop_front (q : nat) : M InHeap unit :=
  l <- get_list q ;;
  match il_head l with
  | None => ret tt
  | Some n =>
      x <- get_node n ;;
      put_list q (mkIL (in_next x) (il_tail l) (il_elems l)) ;;
      unlink n q ;;
      put_list q (mkIL (in_next x) (if is_null (in_next x) then None else il_tail l) (u64 (il_elems l - 1)))
  end.

Definition pop_back (q : nat) : M InHeap unit :=
  l <- get_list q ;;
  match il_head l with
  | None => ret tt
  | Some _ =>
      match il_tail l with
      | None => fail NullDeref
      | Some n =>
          x <- get_node n ;;
          put_list q (mkIL (il_head l) (in_prev x) (il_elems l)) ;;
          unlink n q ;;
          put_list q (mkIL (if is_null (in_prev x) then None else il_head l) (in_prev x) (u64 (il_elems l - 1)))
      end
  end.

Definition insertAfter (q p n : nat) : M InHeap unit :=
  x <- get_node n ;;
  assert_ "intrusive_list.h:146" (is_null (in_owner x)) ;;
  y <- get_node p ;;
  assert_ "intrusive_list.h:147" (bool_decide (in_owner y = Some q)) ;;
  linkPrev n p q ;;
  l <- get_list q ;;
  put_list q (mkIL (il_head l) (if bool_decide (il_tail l = Some p) then Some n else il_tail l) (u64 (il_elems l + 1))).

(** [front()], [back()] and [size()] *)
Definition front (q : nat) : M InHeap (option nat) := l <- get_list q ;; ret (il_head l).
Definition back (q : nat) : M InHeap (option nat) := l <- get_list q ;; ret (il_tail l).
Definition size (q : nat) : M InHeap Z := l <- get_list q ;; ret (il_elems l).

(** ** Writes through pointers *)

Definition with_next (v : option nat) (x : InListNode) : InListNode := mkIN v (in_prev x) (in_owner x).
Definition with_prev (v : option nat) (x : InListNode) : InListNode := mkIN (in_next x) v (in_owner x).
Definition with_owner (v : option nat) (x : InListNode) : InListNode := mkIN (in_next x) (in_prev x) v.

(** [if (p) p->f = v] *)
Definition write (p : option nat) (f : InListNode -> InListNode) (h : gmap nat InListNode) : gmap nat InListNode :=
  match p with Some n => alter f n h | None => h end.

Definition points (p : option nat) (h : gmap nat InListNode) : Prop :=
  match p with Some n => is_Some (h !! n) | None => True end.

Lemma wp_get_node n x h Q : ih_nodes h !! n = Some x -> Q x h -> wp (get_node n) Q h.
Proof. intros Hx HQ. unfold get_node. wp_step. wp_step. rewrite Hx. by wp_step. Qed.

Lemma wp_get_list q l h Q : ih_lists h !! q = Some l -> Q l h -> wp (get_list q) Q h.
Proof. intros Hx HQ. unfold get_list. wp_step. wp_step. rewrite Hx. by wp_step. Qed.

Lemma wp_put_list q l h Q : Q tt (mkIH (ih_nodes h) (<[q := l]> (ih_lists h))) -> wp (put_list q l) Q h.
Proof. intros HQ. unfold put_list. by wp_step. Qed.

Lemma alter_as_insert (h : gmap nat InListNode) n x f : h !! n = Some x -> <[n := f x]> h = alter f n h.
Proof.
  intros Hx. apply map_eq. intros m. destruct (decide (m = n)) as [->|].
  - by rewrite lookup_insert_eq, lookup_alter_eq, Hx.
  - by rewrite lookup_insert_ne, lookup_alter_ne.
Qed.

Lemma wp_set_next n v h Q : is_Some (ih_nodes h !! n) ->
  Q tt (mkIH (alter (with_next v) n (ih_nodes h)) (ih_lists h)) -> wp (set_next n v) Q h.
Proof.
  intros [x Hx] HQ. unfold set_next. wp_step. apply (wp_get_node _ x); [done|]. unfold put_node. wp_step.
  change (mkIN v (in_prev x) (in_owner x)) with (with_next v x). by rewrite (alter_as_insert _ _ x).
Qed.

Lemma wp_set_prev n v h Q : is_Some (ih_nodes h !! n) ->
  Q tt (mkIH (alter (with_prev v) n (ih_nodes h)) (ih_lists h)) -> wp (set_prev n v) Q h.
Proof.
  intros [x Hx] HQ. unfold set_prev. wp_step. apply (wp_get_node _ x); [done|]. unfold put_node. wp_step.
  change (mkIN (in_next x) v (in_owner x)) with (with_prev v x). by rewrite (alter_as_insert _ _ x).
Qed.

Lemma wp_set_owner n v h Q : is_Some (ih_nodes h !! n) ->
  Q tt (mkIH (alter (with_owner v) n (ih_nodes h)) (ih_lists h)) -> wp (set_owner n v) Q h.
Proof.
  intros [x Hx] HQ. unfold set_owner. wp_step. apply (wp_get_node _ x); [done|]. unfold put_node. wp_step.
  change (mkIN (in_next x) (in_prev x) v) with (with_owner v x). by rewrite (alter_as_insert _ _ x).
Qed.

Lemma write_lookup_ne p f h n : p <> Some n -> write p f h !! n = h !! n.
Proof. destruct p as [m|]; simpl; [|done]. intros. apply lookup_alter_ne. congruence. Qed.

Lemma write_is_Some p f h n : is_Some (h !! n) -> is_Some (write p f h !! n).
Proof. destruct p as [m|]; simpl; [|done]. intros. by apply lookup_alter_is_Some. Qed.

(** ** Segments *)

Definition first (l : list nat) (nx : option nat) : option nat := match l with [] => nx | n :: _ => Some n end.
Definition final (pv : option nat) (l : list nat) : option nat := match last l with None => pv | Some n => Some n end.

(** The nodes of [l] are linked in this order in the list [q], behind [pv] and before
    [nx]. *)
Fixpoint seg (h : gmap nat InListNode) (q : nat) (pv : option nat) (l : list nat) (nx : option nat) : Prop :=
  match l with
  | [] => True
  | n :: l' => h !! n = Some (mkIN (first l' nx) pv (Some q)) /\ seg h q (Some n) l' nx
  end.

Lemma final_cons pv n l : final pv (n :: l) = final (Some n) l.
Proof. unfold final. rewrite last_cons. by destruct (last l). Qed.

Lemma first_app l1 l2 nx : first (l1 ++ l2) nx = first l1 (first l2 nx).
Proof. by destruct l1. Qed.

Lemma final_snoc pv l n : final pv (l ++ [n]) = Some n.
Proof. unfold final. by rewrite last_snoc. Qed.

Lemma seg_app h q pv l1 l2 nx :
  seg h q pv (l1 ++ l2) nx <-> seg h q pv l1 (first l2 nx) /\ seg h q (final pv l1) l2 nx.
Proof.
  revert pv. induction l1 as [|n l1 IH]; intros pv; cbn [app seg].
  - change (final pv []) with pv. tauto.
  - rewrite IH, first_app, final_cons. tauto.
Qed.

(** A segment reads only its own nodes. *)
Lemma seg_ext h h' q pv l nx : (forall n, n ∈ l -> h' !! n = h !! n) -> seg h q pv l nx -> seg h' q pv l nx.
Proof.
  revert pv. induction l as [|m l IH]; intros pv Hn Hs; cbn [seg] in *; [done|]. destruct Hs as [Hm Hs].
  split; [rewrite Hn by set_solver; done|]. apply IH; [set_solver|done].
Qed.

Lemma seg_write h q pv l nx p f : (forall n, n ∈ l -> p <> Some n) -> seg h q pv l nx -> seg (write p f h) q pv l nx.
Proof. intros Hp. apply seg_ext. intros n Hn. apply write_lookup_ne. auto. Qed.

Lemma seg_owner h q pv l nx n : seg h q pv l nx -> n ∈ l -> exists x, h !! n = Some x /\ in_owner x = Some q.
Proof.
  revert pv. induction l as [|m l IH]; intros pv Hs Hn; [by apply elem_of_nil in Hn|].
  destruct Hs as [Hm Hs]. apply elem_of_cons in Hn as [->|Hn]; eauto.
Qed.

(** The pointers at the two ends. *)
Lemma seg_relink_prev h q pv pv' l nx : NoDup l -> seg h q pv l nx ->
  seg (write (first l None) (with_prev pv') h) q pv' l nx.
Proof.
  destruct l as [|n l]; [done|]. intros [Hn _]%NoDup_cons [Hx Hs]. cbn [seg first]. split.
  - simpl. by rewrite lookup_alter_eq, Hx.
  - apply seg_write; [|done]. intros m Hm [= ->]. done.
Qed.

Lemma seg_relink_next h q pv l nx nx' : NoDup l -> seg h q pv l nx ->
  seg (write (final None l) (with_next nx') h) q pv l nx'.
Proof.
  destruct l as [|n l _] using rev_ind; [done|]. intros Hnd Hs. rewrite final_snoc. apply seg_app in Hs as [H1 [H2 _]].
  apply NoDup_app in Hnd as (_ & Hn & _). apply seg_app. cbn [first seg] in *. split.
  - apply seg_write; [|done]. intros m Hm [= ->]. set_solver.
  - split; [|done]. simpl. by rewrite lookup_alter_eq, H2.
Qed.

(** ** The list a heap holds *)

Definition list_ok (h : InHeap) (q : nat) (l : list nat) : Prop :=
  ih_lists h !! q = Some (mkIL (first l None) (final None l) (u64 (Z.of_nat (length l)))) /\
  seg (ih_nodes h) q None l None /\ NoDup l.

Definition free (h : InHeap) (n : nat) : Prop := ih_nodes h !! n = Some InListNode_new.

(** An operation on [q] changes this list, its nodes and the node [n]. *)
Definition only (q : nat) (X : list nat) (h h' : InHeap) : Prop :=
  (forall n, n ∉ X -> ih_nodes h' !! n = ih_nodes h !! n) /\
  forall q', q' <> q -> ih_lists h' !! q' = ih_lists h !! q'.

Lemma only_trans q X h1 h2 h3 : only q X h1 h2 -> only q X h2 h3 -> only q X h1 h3.
Proof. intros [H1 H2] [H3 H4]. split; intros; [rewrite H3, H1|rewrite H4, H2]; done. Qed.

Lemma list_ok_notin h q q' l n : list_ok h q l -> q' <> q -> n ∈ l -> forall l', list_ok h q' l' -> n ∉ l'.
Proof.
  intros (_ & Hs & _) Hq Hn l' (_ & Hs' & _) Hn'.
  destruct (seg_owner _ _ _ _ _ _ Hs Hn) as (x & Hx & Ho). destruct (seg_owner _ _ _ _ _ _ Hs' Hn') as (x' & Hx' & Ho').
  congruence.
Qed.

Lemma free_notin h q l n : free h n -> list_ok h q l -> n ∉ l.
Proof. intros Hf (_ & Hs & _) Hn. destruct (seg_owner _ _ _ _ _ _ Hs Hn) as (x & Hx & Ho). unfold free in Hf. by simplify_eq. Qed.

(** A list reads only its own nodes. *)
Lemma list_ok_ext h h' q l : ih_lists h' !! q = ih_lists h !! q ->
  (forall n, n ∈ l -> ih_nodes h' !! n = ih_nodes h !! n) -> list_ok h q l -> list_ok h' q l.
Proof. intros Hl Hn (H1 & H2 & H3). split; [by rewrite Hl|]. split; [by eapply seg_ext|done]. Qed.

Lemma list_ok_only h h' q q' X l' : only q X h h' -> q' <> q -> (forall n, n ∈ X -> n ∉ l') ->
  list_ok h q' l' -> list_ok h' q' l'.
Proof.
  intros [Hn Hl] Hq HX. apply list_ok_ext; [by apply Hl|]. intros n Hin. apply Hn. intros Hx. by apply (HX n).
Qed.

Lemma seg_points h q pv l nx : seg h q pv l nx -> points (first l None) h /\ points (final None l) h.
Proof.
  intros Hs. split.
  - destruct l as [|n l]; [done|]. destruct Hs as [Hn _]. simpl. by rewrite Hn.
  - destruct l as [|n l _] using rev_ind; [done|]. rewrite final_snoc. apply seg_app in Hs as [_ [Hn _]].
    simpl. by rewrite Hn.
Qed.

(** [if (p) p->next = v] and [if (p) p->prev = v] *)
Lemma wp_write_next p v h Q : points p (ih_nodes h) ->
  Q tt (mkIH (write p (with_next v) (ih_nodes h)) (ih_lists h)) ->
  wp (match p with Some n => set_next n v | None => ret tt end) Q h.
Proof. destruct p as [n|]; intros Hp HQ; [by apply wp_set_next|]. wp_step. by destruct h. Qed.

Lemma wp_write_prev p v h Q : points p (ih_nodes h) ->
  Q tt (mkIH (write p (with_prev v) (ih_nodes h)) (ih_lists h)) ->
  wp (match p with Some n => set_prev n v | None => ret tt end) Q h.
Proof. destruct p as [n|]; intros Hp HQ; [by apply wp_set_prev|]. wp_step. by destruct h. Qed.

Lemma first_in l n : first l None = Some n -> n ∈ l.
Proof. destruct l; [done|]. intros [= ->]. left. Qed.

Lemma final_in l n : final None l = Some n -> n ∈ l.
Proof. destruct l as [|m l _] using rev_ind; [done|]. rewrite final_snoc. intros [= ->]. set_solver. Qed.

(** The nodes after [unlink]. *)
Definition unlinked_nodes (l1 l2 : list nat) (n : nat) (h : gmap nat InListNode) : gmap nat InListNode :=
  <[n := InListNode_new]>
    (write (final None l1) (with_next (first l2 None)) (write (first l2 None) (with_prev (final None l1)) h)).

Lemma unlink_ok h q l1 n l2 : seg (ih_nodes h) q None (l1 ++ n :: l2) None -> NoDup (l1 ++ n :: l2) ->
  wp (unlink n q) (fun _ h' => h' = mkIH (unlinked_nodes l1 l2 n (ih_nodes h)) (ih_lists h)) h.
Proof.
  intros Hs Hnd. apply seg_app in Hs as [H1 [Hn H2]]. cbn [first] in H1.
  apply NoDup_app in Hnd as (Hd1 & Hd & [Hn2 Hd2]%NoDup_cons).
  assert (n ∉ l1) as Hn1 by (intros ?; apply (Hd n); [done|left]).
  assert (first l2 None <> Some n) as Hf by (intros ?%first_in; done).
  assert (final None l1 <> Some n) as Hl by (intros ?%final_in; done).
  unfold unlink. wp_step. apply (wp_get_node _ _ _ _ Hn). cbn [in_next in_prev]. wp_step.
  apply wp_write_prev; [by eapply seg_points|]. cbn [ih_nodes ih_lists].
  wp_step. eapply wp_get_node; [cbn; rewrite write_lookup_ne by done; exact Hn|]. cbn [in_next in_prev]. wp_step.
  apply wp_write_next.
  { destruct (seg_points _ _ _ _ _ H1) as [_ Hp]. cbn. destruct (final None l1); [|done]. by apply write_is_Some. }
  cbn [ih_nodes ih_lists].
  set (h1 := write (final None l1) _ _).
  assert (h1 !! n = Some (mkIN (first l2 None) (final None l1) (Some q))) as E1.
  { unfold h1. by rewrite !write_lookup_ne. }
  wp_step. apply wp_set_next; [cbn; by rewrite E1|]. cbn [ih_nodes ih_lists].
  wp_step. apply wp_set_prev; [cbn; by rewrite lookup_alter_is_Some, E1|]. cbn [ih_nodes ih_lists].
  wp_step. eapply wp_get_node; [cbn; by rewrite !lookup_alter_eq, E1|]. cbn. wp_step. wp_step; [by apply bool_decide_eq_true_2|].
  apply wp_set_owner; [cbn; by rewrite !lookup_alter_is_Some, E1|]. cbn. f_equal.
  unfold unlinked_nodes. fold h1. apply map_eq. intros m. destruct (decide (m = n)) as [->|].
  - by rewrite !lookup_alter_eq, E1, lookup_insert_eq.
  - by rewrite !lookup_alter_ne, lookup_insert_ne.
Qed.

Lemma seg_unlinked h q l1 n l2 : seg h q None (l1 ++ n :: l2) None -> NoDup (l1 ++ n :: l2) ->
  seg (unlinked_nodes l1 l2 n h) q None (l1 ++ l2) None.
Proof.
  intros Hs Hnd. apply seg_app in Hs as [H1 [Hn H2]]. cbn [first] in H1.
  apply NoDup_app in Hnd as (Hd1 & Hd & [Hn2 Hd2]%NoDup_cons).
  assert (n ∉ l1) as Hn1 by (intros ?; apply (Hd n); [done|left]).
  unfold unlinked_nodes. apply seg_ext with
    (h := write (final None l1) (with_next (first l2 None)) (write (first l2 None) (with_prev (final None l1)) h)).
  { intros m Hm. apply lookup_insert_ne. set_solver. }
  apply seg_app. split.
  - eapply seg_relink_next; [done|]. apply seg_write; [|exact H1]. intros m Hm Hf%first_in. set_solver.
  - apply seg_write; [intros m Hm Hf%final_in; set_solver|]. by eapply seg_relink_prev.
Qed.

Lemma unlinked_only l1 n l2 h m : m ∉ l1 ++ n :: l2 -> unlinked_nodes l1 l2 n h !! m = h !! m.
Proof.
  intros Hm. unfold unlinked_nodes. rewrite lookup_insert_ne by set_solver.
  rewrite !write_lookup_ne; [done|intros ?%first_in; set_solver|intros ?%final_in; set_solver].
Qed.

Lemma u64_pred z : u64 (u64 z - 1) = u64 (z - 1).
Proof. unfold u64. by rewrite Zminus_mod_idemp_l. Qed.

Lemma u64_succ z : u64 (u64 z + 1) = u64 (z + 1).
Proof. unfold u64. by rewrite Zplus_mod_idemp_l. Qed.

(** ** The operations on the list *)

(** The heap once [n] is out of its list. *)
Definition removed (q : nat) (l1 : list nat) (n : nat) (l2 : list nat) (h : InHeap) : InHeap :=
  mkIH (unlinked_nodes l1 l2 n (ih_nodes h))
    (<[q := mkIL (first (l1 ++ l2) None) (final None (l1 ++ l2)) (u64 (Z.of_nat (length (l1 ++ l2))))]> (ih_lists h)).

Lemma removed_ok h q l1 n l2 : list_ok h q (l1 ++ n :: l2) ->
  list_ok (removed q l1 n l2 h) q (l1 ++ l2) /\ free (removed q l1 n l2 h) n /\
  only q (l1 ++ n :: l2) h (removed q l1 n l2 h).
Proof.
  intros (Hl & Hs & Hnd). split_and!.
  - split; [apply lookup_insert_eq|]. split; [by apply seg_unlinked|].
    apply NoDup_app in Hnd as (? & Hd & [? ?]%NoDup_cons). apply NoDup_app. set_solver.
  - apply lookup_insert_eq.
  - split; [intros m Hm; by apply unlinked_only|]. intros q' Hq. by apply lookup_insert_ne.
Qed.

Lemma final_app_cons pv l1 n l2 : final pv (l1 ++ n :: l2) = final (Some n) l2.
Proof. unfold final. rewrite last_app_cons, last_cons. by destruct (last l2). Qed.

Lemma first_is l1 n l2 : NoDup (l1 ++ n :: l2) ->
  (if bool_decide (first (l1 ++ n :: l2) None = Some n) then first l2 None else first (l1 ++ n :: l2) None)
  = first (l1 ++ l2) None.
Proof.
  destruct l1 as [|m l1]; simpl; intros Hnd; case_bool_decide as Hm; try done.
  injection Hm as ->. apply NoDup_cons in Hnd as [Hn _]. set_solver.
Qed.

Lemma final_is l1 n l2 : NoDup (l1 ++ n :: l2) ->
  (if bool_decide (final None (l1 ++ n :: l2) = Some n) then final None l1 else final None (l1 ++ n :: l2))
  = final None (l1 ++ l2).
Proof.
  intros Hnd. rewrite final_app_cons. destruct l2 as [|m l2 _] using rev_ind.
  - rewrite app_nil_r. by case_bool_decide.
  - rewrite app_assoc, !final_snoc. case_bool_decide as Hm; [|done]. injection Hm as ->.
    apply NoDup_app in Hnd as (_ & _ & [Hn _]%NoDup_cons). set_solver.
Qed.

Lemma length_removed (l1 l2 : list nat) (n : nat) :
  u64 (u64 (Z.of_nat (length (l1 ++ n :: l2))) - 1) = u64 (Z.of_nat (length (l1 ++ l2))).
Proof. rewrite u64_pred. f_equal. rewrite !length_app. simpl. lia. Qed.

Lemma seg_lookup_mid h q l1 n l2 : seg h q None (l1 ++ n :: l2) None ->
  h !! n = Some (mkIN (first l2 None) (final None l1) (Some q)).
Proof. intros [_ [Hn _]]%seg_app. done. Qed.

Lemma remove_split h q l1 n l2 : list_ok h q (l1 ++ n :: l2) ->
  wp (remove q n) (fun _ h' => h' = removed q l1 n l2 h) h.
Proof.
  intros (Hl & Hs & Hnd). unfold remove. wp_step. apply (wp_get_list _ _ _ _ Hl). wp_step.
  apply (wp_get_node _ _ _ _ (seg_lookup_mid _ _ _ _ _ Hs)). cbn [il_head il_tail il_elems in_next in_prev].
  rewrite first_is, final_is by done. wp_step. apply wp_put_list. wp_step.
  eapply wp_mono; [by apply (unlink_ok _ q l1 n l2)|]. intros [] h' ->. cbn [ih_nodes ih_lists].
  wp_step. eapply wp_get_list; [apply lookup_insert_eq|]. apply wp_put_list. cbn.
  unfold removed. by rewrite insert_insert_eq, length_removed.
Qed.

Lemma pop_front_ok h q n l : list_ok h q (n :: l) ->
  wp (pop_front q) (fun _ h' => h' = removed q [] n l h) h.
Proof.
  intros (Hl & Hs & Hnd). unfold pop_front. wp_step. apply (wp_get_list _ _ _ _ Hl). cbn [il_head first].
  wp_step. apply (wp_get_node _ _ _ _ (seg_lookup_mid _ _ [] _ _ Hs)). cbn [il_tail il_elems in_next in_prev].
  wp_step. apply wp_put_list. wp_step. eapply wp_mono; [by apply (unlink_ok _ q [] n l)|]. intros [] h' ->.
  apply wp_put_list. cbn [ih_nodes ih_lists]. unfold removed. rewrite insert_insert_eq, <- (length_removed [] l n).
  pose proof (final_is [] n l Hnd) as E. cbn [app] in *. rewrite <- E. do 3 f_equal.
  rewrite final_cons. destruct l as [|m l]; [by rewrite bool_decide_eq_true_2|]. cbn [first is_null].
  rewrite bool_decide_eq_false_2; [done|]. destruct l as [|k l _] using rev_ind; simpl in *.
  - intros [= ->]. apply NoDup_cons in Hnd. set_solver.
  - rewrite final_cons, final_snoc. intros [= ->]. apply NoDup_cons in Hnd. set_solver.
Qed.

Lemma pop_back_ok h q n l : list_ok h q (l ++ [n]) ->
  wp (pop_back q) (fun _ h' => h' = removed q l n [] h) h.
Proof.
  intros (Hl & Hs & Hnd). unfold pop_back. wp_step. apply (wp_get_list _ _ _ _ Hl). cbn [il_head il_tail].
  rewrite final_snoc. destruct (first (l ++ [n]) None) as [m|] eqn:Hf; [|by destruct l].
  wp_step. apply (wp_get_node _ _ _ _ (seg_lookup_mid _ _ l _ _ Hs)). cbn [il_head il_tail il_elems in_next in_prev].
  wp_step. apply wp_put_list. wp_step. eapply wp_mono; [by apply (unlink_ok _ q l n [])|]. intros [] h' ->.
  apply wp_put_list. cbn [ih_nodes ih_lists]. unfold removed. rewrite insert_insert_eq, <- (length_removed l [] n).
  rewrite app_nil_r. do 3 f_equal. destruct l as [|k l]; [done|]. simpl in Hf. injection Hf as ->.
  rewrite final_cons. unfold final. by destruct (last l).
Qed.

Lemma length_inserted (l1 l2 : list nat) (n : nat) :
  u64 (u64 (Z.of_nat (length (l1 ++ l2))) + 1) = u64 (Z.of_nat (length (l1 ++ n :: l2))).
Proof. rewrite u64_succ. f_equal. rewrite !length_app. simpl. lia. Qed.

Lemma push_front_ok h q n l : list_ok h q l -> free h n ->
  wp (push_front q n) (fun _ h' => list_ok h' q (n :: l) /\ only q (n :: l) h h') h.
Proof.
  intros Hok Hf. pose proof (free_notin _ _ _ _ Hf Hok) as Hn. destruct Hok as (Hl & Hs & Hnd).
  assert (NoDup (n :: l)) as Hnd' by by constructor.
  unfold push_front. wp_step. apply (wp_get_node _ _ _ _ Hf). wp_step. wp_step; [done|].
  wp_step. apply (wp_get_list _ _ _ _ Hl). cbn [il_head il_tail il_elems]. wp_step.
  destruct l as [|hd l]; cbn [first].
  - apply wp_put_list. wp_step. apply wp_set_owner; [cbn; by rewrite Hf|]. wp_step.
    eapply wp_get_list; [apply lookup_insert_eq|]. apply wp_put_list. cbn. split.
    + split; [apply lookup_insert_eq|]. split; [|done]. cbn. by rewrite lookup_alter_eq, Hf.
    + split; cbn; intros m Hm; [rewrite lookup_alter_ne by set_solver; done|by rewrite !lookup_insert_ne].
  - pose proof Hs as [Hhd Htl]. assert (n <> hd) as Hne by set_solver. apply NoDup_cons in Hnd as [Hhl _].
    wp_step. apply (wp_get_node _ _ _ _ Hhd). wp_step. wp_step; [by cbn; apply bool_decide_eq_true_2|].
    wp_step. apply wp_set_next; [by rewrite Hf|]. cbn [ih_nodes ih_lists].
    wp_step. apply wp_set_prev; [cbn; by rewrite lookup_alter_ne, Hhd|]. cbn [ih_nodes ih_lists].
    apply wp_put_list. cbn [ih_nodes ih_lists]. wp_step.
    apply wp_set_owner; [cbn; by rewrite lookup_alter_ne, lookup_alter_eq, Hf|]. wp_step.
    eapply wp_get_list; [apply lookup_insert_eq|]. apply wp_put_list. cbn [ih_nodes ih_lists il_head il_tail il_elems]. split.
    + pose proof (length_inserted [] (hd :: l) n) as E. cbn [app] in E.
      split; [cbn [ih_lists]; rewrite lookup_insert_eq, E; by rewrite (final_cons None n), !final_cons|].
      split; [|done]. cbn [ih_nodes seg first]. split_and!.
      * by rewrite lookup_alter_eq, lookup_alter_ne, lookup_alter_eq, Hf.
      * by rewrite lookup_alter_ne, lookup_alter_eq, lookup_alter_ne, Hhd.
      * eapply seg_ext; [|exact Htl]. intros m Hm. by rewrite !lookup_alter_ne by set_solver.
    + split; cbn; intros m Hm; [by rewrite !lookup_alter_ne by set_solver|by rewrite !lookup_insert_ne].
Qed.

(** The nodes after [linkPrev]. *)
Definition linked_nodes (q p n : nat) (l2 : list nat) (h : gmap nat InListNode) : gmap nat InListNode :=
  <[n := mkIN (first l2 None) (Some p) (Some q)]>
    (alter (with_next (Some n)) p (write (first l2 None) (with_prev (Some n)) h)).

Lemma linkPrev_ok h q l1 p l2 n : list_ok h q (l1 ++ p :: l2) -> free h n ->
  wp (linkPrev n p q) (fun _ h' => h' = mkIH (linked_nodes q p n l2 (ih_nodes h)) (ih_lists h)) h.
Proof.
  intros Hok Hf. pose proof (free_notin _ _ _ _ Hf Hok) as Hn. destruct Hok as (Hl & Hs & Hnd).
  pose proof (seg_lookup_mid _ _ _ _ _ Hs) as Hp. apply seg_app in Hs as [_ [_ H2]].
  apply NoDup_app in Hnd as (_ & _ & [Hp2 _]%NoDup_cons). assert (p <> n) as Hpn by set_solver.
  unfold linkPrev. wp_step. apply (wp_get_node _ _ _ _ Hf). wp_step. wp_step; [done|]. wp_step. wp_step; [done|].
  wp_step. apply (wp_get_node _ _ _ _ Hp). cbn [in_next]. wp_step.
  eapply wp_mono with (P := fun _ h' => h' = mkIH (<[n := mkIN (first l2 None) None None]>
      (write (first l2 None) (with_prev (Some n)) (ih_nodes h))) (ih_lists h)).
  - destruct l2 as [|m l2]; cbn [first].
    + wp_step. cbn. rewrite insert_id; [by destruct h|]. by apply Hf.
    + destruct H2 as [Hm _]. assert (m <> n) as Hmn by set_solver.
      wp_step. apply (wp_get_node _ _ _ _ Hm). wp_step. wp_step; [by apply bool_decide_eq_true_2|].
      wp_step. apply wp_set_prev; [by rewrite Hm|]. cbn [ih_nodes ih_lists].
      apply wp_set_next; [cbn; by rewrite lookup_alter_ne, Hf|]. cbn. f_equal.
      rewrite <- (alter_as_insert _ n InListNode_new); [done|]. by rewrite lookup_alter_ne.
  - intros [] h' ->. set (h1 := write _ _ _). wp_step.
    assert (is_Some (h1 !! p)) as Hp1 by (apply write_is_Some; by rewrite Hp).
    apply wp_set_next; [cbn; by rewrite lookup_insert_ne|]. cbn [ih_nodes ih_lists]. wp_step.
    apply wp_set_prev; [cbn; by rewrite lookup_alter_ne, lookup_insert_eq|]. cbn [ih_nodes ih_lists].
    apply wp_set_owner; [cbn; by rewrite lookup_alter_eq, lookup_alter_ne, lookup_insert_eq|]. cbn. f_equal.
    unfold linked_nodes. fold h1. apply map_eq. intros m. destruct (decide (m = n)) as [->|].
    + by rewrite !lookup_alter_eq, lookup_alter_ne, !lookup_insert_eq.
    + rewrite !(lookup_alter_ne _ _ n m), (lookup_insert_ne _ n m) by done.
      destruct (decide (m = p)) as [->|]; [rewrite !lookup_alter_eq|rewrite !lookup_alter_ne by done]; by rewrite lookup_insert_ne.
Qed.

Lemma seg_linked h q l1 p l2 n : seg h q None (l1 ++ p :: l2) None -> NoDup (l1 ++ p :: l2) -> n ∉ l1 ++ p :: l2 ->
  seg (linked_nodes q p n l2 h) q None (l1 ++ p :: n :: l2) None.
Proof.
  intros Hs Hnd Hn. pose proof (seg_lookup_mid _ _ _ _ _ Hs) as Hp. apply seg_app in Hs as [H1 [_ H2]].
  apply NoDup_app in Hnd as (Hd1 & Hd & [Hp2 Hd2]%NoDup_cons).
  assert (p ∉ l1) as Hp1 by (intros ?; apply (Hd p); [done|left]). unfold linked_nodes. apply seg_app. split.
  - eapply seg_ext; [|exact H1]. intros m Hm. rewrite lookup_insert_ne, lookup_alter_ne by set_solver.
    apply write_lookup_ne. intros ?%first_in. set_solver.
  - cbn [seg first]. split_and!.
    + rewrite lookup_insert_ne by set_solver. rewrite lookup_alter_eq, write_lookup_ne, Hp; [done|].
      by intros ?%first_in.
    + apply lookup_insert_eq.
    + eapply seg_ext; [|by eapply seg_relink_prev]. intros m Hm.
      by rewrite lookup_insert_ne, lookup_alter_ne by set_solver.
Qed.

(** The heap once [n] follows [p]. *)
Lemma inserted_ok h q l1 p l2 n : list_ok h q (l1 ++ p :: l2) -> free h n ->
  let l' := l1 ++ p :: n :: l2 in
  let h' := mkIH (linked_nodes q p n l2 (ih_nodes h))
              (<[q := mkIL (first l' None) (final None l') (u64 (Z.of_nat (length l')))]> (ih_lists h)) in
  list_ok h' q l' /\ only q l' h h'.
Proof.
  intros Hok Hf l' h'. pose proof (free_notin _ _ _ _ Hf Hok) as Hn. destruct Hok as (Hl & Hs & Hnd). split.
  - split; [apply lookup_insert_eq|]. split; [by apply seg_linked|].
    unfold l'. rewrite cons_middle, app_assoc. rewrite cons_middle, app_assoc in Hnd.
    apply NoDup_app in Hnd as (? & Hd & ?). apply NoDup_app. split_and!; [done| |constructor]; set_solver.
  - split; cbn; [|intros m Hm; by rewrite lookup_insert_ne]. intros m Hm. unfold l' in Hm. unfold linked_nodes.
    rewrite lookup_insert_ne, lookup_alter_ne by set_solver. apply write_lookup_ne. intros ?%first_in. set_solver.
Qed.

Lemma insertAfter_ok h q l1 p l2 n : list_ok h q (l1 ++ p :: l2) -> free h n ->
  wp (insertAfter q p n) (fun _ h' => list_ok h' q (l1 ++ p :: n :: l2) /\ only q (l1 ++ p :: n :: l2) h h') h.
Proof.
  intros Hok Hf. pose proof (inserted_ok _ _ _ _ _ _ Hok Hf) as Hins. pose proof Hok as (Hl & Hs & Hnd).
  unfold insertAfter. wp_step. apply (wp_get_node _ _ _ _ Hf). wp_step. wp_step; [done|].
  wp_step. apply (wp_get_node _ _ _ _ (seg_lookup_mid _ _ _ _ _ Hs)). wp_step. wp_step; [by apply bool_decide_eq_true_2|].
  wp_step. eapply wp_mono; [by apply (linkPrev_ok h q l1 p l2 n)|]. intros [] h' ->. wp_step.
  eapply wp_get_list; [exact Hl|]. apply wp_put_list. cbn [ih_nodes ih_lists il_head il_tail il_elems].
  replace (u64 (u64 (Z.of_nat (length (l1 ++ p :: l2))) + 1)) with (u64 (Z.of_nat (length (l1 ++ p :: n :: l2)))).
  2:{ rewrite u64_succ. f_equal. rewrite !length_app. simpl. lia. }
  replace (first (l1 ++ p :: l2) None) with (first (l1 ++ p :: n :: l2) None) by (by rewrite !first_app).
  replace (if bool_decide (final None (l1 ++ p :: l2) = Some p) then Some n else final None (l1 ++ p :: l2))
    with (final None (l1 ++ p :: n :: l2)); [done|].
  rewrite !final_app_cons, final_cons. destruct l2 as [|m l2 _] using rev_ind; [by rewrite bool_decide_eq_true_2|].
  rewrite !final_snoc, bool_decide_eq_false_2; [done|]. intros [= ->].
  apply NoDup_app in Hnd as (_ & _ & [? _]%NoDup_cons). set_solver.
Qed.

Lemma push_back_ok h q n l : list_ok h q l -> free h n ->
  wp (push_back q n) (fun _ h' => list_ok h' q (l ++ [n]) /\ only q (l ++ [n]) h h') h.
Proof.
  intros Hok Hf. pose proof Hok as (Hl & Hs & Hnd). unfold push_back. wp_step. apply (wp_get_node _ _ _ _ Hf).
  wp_step. wp_step; [done|]. wp_step. apply (wp_get_list _ _ _ _ Hl). cbn [il_head il_tail il_elems]. wp_step.
  destruct l as [|p l _] using rev_ind; cbn [first].
  - wp_step. apply wp_put_list. apply wp_set_owner; [cbn; by rewrite Hf|]. wp_step.
    eapply wp_get_list; [apply lookup_insert_eq|]. apply wp_put_list. cbn. split.
    + split; [apply lookup_insert_eq|]. split; [|by constructor; [set_solver|constructor]]. cbn. by rewrite lookup_alter_eq, Hf.
    + split; cbn; intros m Hm; [rewrite lookup_alter_ne by set_solver; done|by rewrite !lookup_insert_ne].
  - rewrite final_snoc. destruct (first (l ++ [p]) None) as [m|] eqn:Em; [|by destruct l].
    pose proof (inserted_ok _ _ _ _ _ _ Hok Hf) as Hins. rewrite <- app_assoc.
    wp_step. eapply wp_mono; [by apply (linkPrev_ok h q l p [] n)|]. intros [] h' ->. apply wp_put_list.
    wp_step. eapply wp_get_list; [apply lookup_insert_eq|]. apply wp_put_list.
    cbn [ih_nodes ih_lists il_head il_tail il_elems]. rewrite insert_insert_eq. cbn [app].
    replace (u64 (u64 (Z.of_nat (length (l ++ [p]))) + 1)) with (u64 (Z.of_nat (length (l ++ [p; n])))).
    2:{ rewrite u64_succ. f_equal. rewrite !length_app. simpl. lia. }
    assert (first (l ++ [p; n]) None = Some m) as E1 by (rewrite <- Em, !first_app; done).
    assert (final None (l ++ [p; n]) = Some n) as E2.
    { change [p; n] with ([p] ++ [n]). by rewrite app_assoc, final_snoc. }
    cbv zeta in Hins. by rewrite E1, E2 in Hins.
Qed.

Lemma filter_keeps {A} (P : A -> Prop) `{!forall x, Decision (P x)} (l : list A) : (forall x, x ∈ l -> P x) -> filter P l = l.
Proof.
  induction l as [|x l IH]; intros HP; [done|]. rewrite filter_cons_True by (apply HP; left).
  f_equal. apply IH. intros y Hy. apply HP. by right.
Qed.

Lemma filter_without (l1 l2 : list nat) n : NoDup (l1 ++ n :: l2) -> filter (fun m => m <> n) (l1 ++ n :: l2) = l1 ++ l2.
Proof.
  intros (_ & Hd & [Hn _]%NoDup_cons)%NoDup_app. rewrite filter_app, filter_cons_False by tauto.
  rewrite !filter_keeps; [done|intros m Hm ->; done|intros m Hm ->]. apply (Hd n Hm). left.
Qed.

Lemma list_remove_ok h q l n : list_ok h q l -> n ∈ l ->
  wp (remove q n) (fun _ h' => list_ok h' q (filter (fun m => m <> n) l) /\ free h' n /\ only q l h h') h.
Proof.
  intros Hok (l1 & l2 & ->)%list_elem_of_split. eapply wp_mono; [by apply remove_split|]. intros [] h' ->.
  rewrite filter_without by apply Hok. by apply removed_ok.
Qed.

(** A node moved to the front of its list, as caches do on a hit. *)
Definition to_front (q n : nat) : M InHeap unit := remove q n ;; push_front q n.

Lemma to_front_ok h q l n : list_ok h q l -> n ∈ l ->
  wp (to_front q n) (fun _ h' => list_ok h' q (n :: filter (fun m => m <> n) l) /\ only q l h h') h.
Proof.
  intros Hok Hn. unfold to_front. wp_step. eapply wp_mono; [by apply list_remove_ok|]. intros [] h1 (H1 & Hf & Ho1).
  eapply wp_mono; [by apply (push_front_ok h1 q n (filter (fun m => m <> n) l))|]. intros [] h2 (H2 & [Ha Hb]).
  split; [done|]. eapply only_trans; [exact Ho1|]. split; [|done]. intros m Hm. apply Ha.
  rewrite elem_of_cons, list_elem_of_filter. intros [->|[_ ?]]; done.
Qed.

(** ** Several lists *)

Definition lists_ok (h : InHeap) (ls : list (list nat)) : Prop := forall q l, ls !! q = Some l -> list_ok h q l.

(** A node is in one list. *)
Lemma lists_ok_one h ls q q' l l' n : lists_ok h ls -> ls !! q = Some l -> ls !! q' = Some l' -> n ∈ l -> n ∈ l' -> q = q'.
Proof.
  intros H Hq Hq' Hn Hn'. destruct (decide (q' = q)) as [|Hne]; [done|exfalso].
  by apply (list_ok_notin h q q' l n (H _ _ Hq) Hne Hn l' (H _ _ Hq')).
Qed.

Lemma lists_ok_only h h' ls q X l : lists_ok h ls -> only q X h h' -> list_ok h' q l ->
  (forall q' l', ls !! q' = Some l' -> q' <> q -> forall n, n ∈ X -> n ∉ l') -> lists_ok h' (<[q := l]> ls).
Proof.
  intros H Ho Hl HX q' l' Hq'. apply list_lookup_insert_Some in Hq' as [(-> & <- & _)|[Hne Hq']]; [done|].
  eapply list_ok_only; [done|done|by eapply HX|by apply H].
Qed.

Lemma lists_remove h ls q l n : lists_ok h ls -> ls !! q = Some l -> n ∈ l ->
  wp (remove q n) (fun _ h' => lists_ok h' (<[q := filter (fun m => m <> n) l]> ls) /\ free h' n) h.
Proof.
  intros H Hq Hn. eapply wp_mono; [apply list_remove_ok; [by apply H|done]|]. intros [] h' (Hl & Hf & Ho). split; [|done].
  eapply lists_ok_only; [done|done|done|]. intros q' l' Hq' Hne m Hm Hm'. apply Hne.
  by eapply (lists_ok_one h ls q' q l' l m).
Qed.

Lemma lists_push_front h ls q l n : lists_ok h ls -> ls !! q = Some l -> free h n ->
  wp (push_front q n) (fun _ h' => lists_ok h' (<[q := n :: l]> ls)) h.
Proof.
  intros H Hq Hf. eapply wp_mono; [apply push_front_ok; [by apply H|done]|]. intros [] h' (Hl & Ho).
  eapply lists_ok_only; [done|done|done|]. intros q' l' Hq' Hne m Hm Hm'.
  apply elem_of_cons in Hm as [->|Hm]; [by eapply free_notin; [|by apply H|]|].
  apply Hne. by eapply (lists_ok_one h ls q' q l' l m).
Qed.
