(* ===== verification/IdealLru.v ===== *)
(** * Fully associative arrays ([src/src/ideal_arrays.h])

    [IdealLRUArray] keeps its lines in one intrusive list, most recent first, and a
    hash table from addresses to lines; [IdealLRUPartArray] with
    [IdealLRUPartReplPolicy] keeps one list per partition.  A line is the number
    of its [Entry], which is also its node in the heap of [InList].

    The reference for the first is [lru_after] of [Umon]: a list of addresses.
    The number of lines is a [uint32_t], so no line has the id that is -1 as an
    [int32_t]; [None] is the -1 of [lookup]. *)

From stdpp Require Import base list gmap strings.
From Stdlib Require Import ZArith Lia.
From S2P Require Import Prelude Numeric MemHierarchy ReplPolicy MtRand H3Hash Umon UmonSpec Partition WayPart InList.
Local Open Scope Z_scope.

(** ** [IdealLRUArray] *)

Record IdealLRUArray := mkIA {
  ia_heap : InHeap;
  ia_addrs : list Address;
  ia_lineMap : gmap Z nat
}.
Definition ia_set_heap (h : InHeap) (s : IdealLRUArray) : IdealLRUArray := mkIA h (ia_addrs s) (ia_lineMap s).

(** [lruList] is list 0 of the heap. *)
Definition lruList : nat := 0.

Definition on_heap {A} (m : M InHeap A) : M IdealLRUArray A := zoom ia_heap ia_set_heap m.

Definition IdealLRUArray_new (numLines : nat) : res IdealLRUArray :=
  let h0 := mkIH ∅ {[ lruList := InList_new ]} in
  match forM (seq 0 numLines) (fun i => put_node i InListNode_new ;; push_front lruList i) h0 with
  | Ok (_, h) => Ok (mkIA h (replicate numLines 0) ∅)
  | Err e => Err e
  end.

Definition ia_lookup (lineAddr : Address) (updateReplacement : bool) : M IdealLRUArray (option nat) :=
  s <- get ;;
  match ia_lineMap s !! lineAddr with
  | None => ret None
  | Some lineId =>
      when updateReplacement (on_heap (remove lruList lineId ;; push_front lruList lineId)) ;;
      ret (Some lineId)
  end.

(** The line and [*wbLineAddr]. *)
Definition ia_preinsert : M IdealLRUArray (nat * Address) :=
  e <- on_heap (back lruList) ;;
  match e with
  | None => fail NullDeref
  | Some lineId =>
      s <- get ;;
      wb <- lift (at_ (ia_addrs s) lineId) ;;
      ret (lineId, wb)
  end.

Definition ia_postinsert (lineAddr : Address) (lineId : nat) : M IdealLRUArray unit :=
  s <- get ;;
  old <- lift (at_ (ia_addrs s) lineId) ;;
  let lineMap := delete old (ia_lineMap s) in
  assert_ "ideal_arrays.h: lineMap.find(lineAddr) == lineMap.end()" (bool_decide (lineMap !! lineAddr = None)) ;;
  addrs <- lift (set_at (ia_addrs s) lineId lineAddr) ;;
  modify (fun s => mkIA (ia_heap s) addrs (<[lineAddr := lineId]> lineMap)) ;;
  on_heap (remove lruList lineId ;; push_front lruList lineId).

(** A load or store in [Cache::access]: the address that is evicted, if the line
    is not in the array. *)
Definition ia_access (lineAddr : Address) : M IdealLRUArray (option Address) :=
  o <- ia_lookup lineAddr true ;;
  match o with
  | Some _ => ret None
  | None =>
      let! (lineId, wb) := ia_preinsert in
      ia_postinsert lineAddr lineId ;;
      ret (Some wb)
  end.

Fixpoint ia_run (trace : list Address) : M IdealLRUArray (list (option Address)) :=
  match trace with
  | [] => ret []
  | a :: trace' => o <- ia_access a ;; os <- ia_run trace' ;; ret (o :: os)
  end.

(** ** The reference *)

(** What an access to a cache of [c] lines evicts; 0 from a line that is not yet
    used. *)
Definition lru_evicts (c : nat) (l : list Z) (a : Z) : option Z :=
  if bool_decide (a ∈ l) then None
  else Some (if (length l <? c)%nat then 0 else default 0 (last l)).

Fixpoint lru_run (c : nat) (l : list Z) (trace : list Z) : list (option Z) :=
  match trace with
  | [] => []
  | a :: trace' => lru_evicts c l a :: lru_run c (lru_after c l a) trace'
  end.

(** ** The relation *)

Definition addr_of (addrs : list Address) (id : nat) : Address := default 0 (addrs !! id).

(** The hash table has the lines with an address. *)
Definition line_map_ok (addrs : list Address) (lineMap : gmap Z nat) : Prop :=
  forall a id, lineMap !! a = Some id <-> a <> 0 /\ addrs !! id = Some a.

(** Line [v] takes the address [a]. *)
Lemma line_map_replace addrs lineMap v old a : line_map_ok addrs lineMap -> addrs !! v = Some old -> a <> 0 ->
  lineMap !! a = None -> line_map_ok (<[v := a]> addrs) (<[a := v]> (delete old lineMap)).
Proof.
  intros H Hv Ha0 Ha b id. assert (v < length addrs)%nat as Hlt by (by eapply lookup_lt_Some). split.
  - intros [[<- <-]|[Hne [Hold Hb]%lookup_delete_Some]]%lookup_insert_Some.
    { split; [done|]. by apply list_lookup_insert_eq. }
    apply H in Hb as [Hb0 Hb]. split; [done|]. rewrite list_lookup_insert_ne; [done|]. congruence.
  - intros [Hb0 Hb]. apply list_lookup_insert_Some in Hb as [(-> & <- & _)|[Hne Hb]]; [apply lookup_insert_eq|].
    assert (lineMap !! b = Some id) as Hm by (by apply H). rewrite lookup_insert_ne by congruence.
    rewrite lookup_delete_ne; [done|]. intros ->. assert (lineMap !! b = Some v) by (by apply H). congruence.
Qed.

Record ia_rel (N : nat) (s : IdealLRUArray) (l : list Z) (order : list nat) : Prop := {
  ir_list : list_ok (ia_heap s) lruList order;
  ir_perm : order ≡ₚ seq 0 N;
  ir_len : length (ia_addrs s) = N;
  ir_addrs : addr_of (ia_addrs s) <$> order = l ++ replicate (N - length l) 0;
  ir_max : (length l <= N)%nat;
  ir_nodup : NoDup l;
  ir_nonzero : 0 ∉ l;
  ir_map : line_map_ok (ia_addrs s) (ia_lineMap s)
}.

Lemma ir_line N s l order id : ia_rel N s l order -> (id ∈ order <-> (id < N)%nat).
Proof. intros H. rewrite (ir_perm _ _ _ _ H), elem_of_seq. lia. Qed.

Lemma ir_lookup N s l order id : ia_rel N s l order -> id ∈ order ->
  ia_addrs s !! id = Some (addr_of (ia_addrs s) id).
Proof.
  intros H Hid. rewrite (ir_line _ _ _ _ _ H), <- (ir_len _ _ _ _ H) in Hid.
  destruct (lookup_lt_is_Some_2 _ _ Hid) as [x Hx]. unfold addr_of. by rewrite Hx.
Qed.

(** The hash table finds the addresses of [l]. *)
Lemma ir_find N s l order a : ia_rel N s l order -> a <> 0 ->
  match ia_lineMap s !! a with
  | Some id => a ∈ l /\ id ∈ order /\ addr_of (ia_addrs s) id = a
  | None => a ∉ l
  end.
Proof.
  intros H Ha. destruct (ia_lineMap s !! a) as [id|] eqn:E.
  - apply (ir_map _ _ _ _ H) in E as [_ E].
    assert (id ∈ order) as Hid.
    { rewrite (ir_line _ _ _ _ _ H), <- (ir_len _ _ _ _ H). by eapply lookup_lt_Some. }
    assert (addr_of (ia_addrs s) id = a) as Hf by (unfold addr_of; by rewrite E).
    split_and!; [|done|done].
    assert (a ∈ addr_of (ia_addrs s) <$> order) as Hin by (rewrite <- Hf; by apply list_elem_of_fmap_2).
    rewrite (ir_addrs _ _ _ _ H) in Hin. apply elem_of_app in Hin as [?|Hz]; [done|].
    apply elem_of_replicate in Hz as [? _]. done.
  - intros Hin. assert (a ∈ addr_of (ia_addrs s) <$> order) as Hin' by (rewrite (ir_addrs _ _ _ _ H); set_solver).
    apply list_elem_of_fmap_1 in Hin' as (id & Hf & Hid).
    assert (ia_lineMap s !! a = Some id) as E'; [|congruence]. apply (ir_map _ _ _ _ H). split; [done|].
    rewrite (ir_lookup _ _ _ _ _ H Hid). by rewrite Hf.
Qed.

(** ** A hit *)

Lemma fmap_filter_on (f : nat -> Z) (l : list nat) n a : (forall x, x ∈ l -> (f x = a <-> x = n)) ->
  f <$> filter (fun m => m <> n) l = filter (fun b => b <> a) (f <$> l).
Proof.
  induction l as [|x l IH]; intros Hf; [done|]. rewrite !filter_cons, fmap_cons, filter_cons.
  assert (f <$> filter (fun m => m <> n) l = filter (fun b => b <> a) (f <$> l)) as IH'.
  { apply IH. intros y Hy. apply Hf. by right. }
  destruct (Hf x) as [H1 H2]; [left|]. rewrite <- IH'. destruct (decide (x <> n)), (decide (f x <> a)); tauto || done.
Qed.

Lemma filter_perm_length (l : list Z) a : NoDup l -> a ∈ l -> length (a :: filter (fun b => b <> a) l) = length l.
Proof.
  induction l as [|b l IH]; intros Hnd Ha; [by apply elem_of_nil in Ha|]. apply NoDup_cons in Hnd as [Hb Hnd].
  destruct (decide (b = a)) as [->|Hne].
  - rewrite filter_cons_False by tauto. by rewrite filter_absent.
  - rewrite filter_cons_True by done. apply elem_of_cons in Ha as [?|Ha]; [by subst|].
    specialize (IH Hnd Ha). simpl in *. lia.
Qed.

Lemma lru_after_hit c l a : NoDup l -> a ∈ l -> (length l <= c)%nat ->
  lru_after c l a = a :: filter (fun b => b <> a) l.
Proof. intros Hnd Ha Hc. unfold lru_after. apply take_ge. by rewrite filter_perm_length. Qed.

Lemma moved_perm (order : list nat) (id : nat) : NoDup order -> id ∈ order -> id :: filter (fun m => m <> id) order ≡ₚ order.
Proof.
  intros Hnd (l1 & l2 & ->)%list_elem_of_split. rewrite filter_without by done. by rewrite Permutation_middle.
Qed.

Lemma ir_hit N s l order a id h : ia_rel N s l order -> a ∈ l -> id ∈ order -> addr_of (ia_addrs s) id = a ->
  list_ok h lruList (id :: filter (fun m => m <> id) order) ->
  ia_rel N (ia_set_heap h s) (lru_after N l a) (id :: filter (fun m => m <> id) order).
Proof.
  intros H Ha Hid Hf Hh. pose proof (ir_list _ _ _ _ H) as (_ & _ & Hnd).
  assert (a <> 0) as Ha0 by (intros ->; by apply (ir_nonzero _ _ _ _ H)).
  assert (forall x, x ∈ order -> (addr_of (ia_addrs s) x = a <-> x = id)) as Hinj.
  { intros x Hx. split; [|by intros ->]. intros Hxa.
    assert (ia_lineMap s !! a = Some x) as E1 by (apply (ir_map _ _ _ _ H); rewrite (ir_lookup _ _ _ _ _ H Hx), Hxa; done).
    assert (ia_lineMap s !! a = Some id) as E2 by (apply (ir_map _ _ _ _ H); rewrite (ir_lookup _ _ _ _ _ H Hid), Hf; done).
    congruence. }
  rewrite lru_after_hit by apply H || done.
  pose proof (filter_perm_length l a (ir_nodup _ _ _ _ H) Ha) as Hlen. split.
  - done.
  - rewrite moved_perm by done. apply H.
  - apply H.
  - cbn [ia_addrs ia_set_heap]. rewrite fmap_cons, Hf, (fmap_filter_on _ _ id a Hinj), (ir_addrs _ _ _ _ H), filter_app, Hlen.
    rewrite (filter_keeps _ (replicate _ _)); [done|]. by intros x [-> _]%elem_of_replicate.
  - rewrite Hlen. apply H.
  - apply NoDup_cons. split; [rewrite list_elem_of_filter; tauto|]. apply NoDup_filter, H.
  - rewrite elem_of_cons, list_elem_of_filter. intros [?|[_ ?]]; [done|by apply (ir_nonzero _ _ _ _ H)].
  - apply H.
Qed.

(** ** A miss *)

Lemma lru_after_miss c l a : a ∉ l -> lru_after c l a = take c (a :: l).
Proof. intros Ha. unfold lru_after. by rewrite filter_absent. Qed.

(** The contents with their unused lines, less the last one. *)
Lemma contents_but_last N (l : list Z) o v : (0 < N)%nat -> (length l <= N)%nat -> o ++ [v] = l ++ replicate (N - length l) 0 ->
  forall a, a :: o = take N (a :: l) ++ replicate (N - length (take N (a :: l))) 0 /\
    v = if (length l <? N)%nat then 0 else default 0 (last l).
Proof.
  intros HN Hl Ho a. destruct (Nat.ltb_spec (length l) N) as [Hlt|Hge].
  - replace (N - length l)%nat with (S (N - S (length l))) in Ho by lia.
    rewrite replicate_S_end, app_assoc in Ho. apply app_inj_tail in Ho as [-> ->].
    rewrite take_ge by (simpl; lia). done.
  - replace (N - length l)%nat with 0%nat in Ho by lia. simpl in Ho. rewrite app_nil_r in Ho. subst l.
    rewrite last_snoc. rewrite length_app in *. simpl in *. destruct N as [|N]; [lia|]. cbn [take].
    rewrite take_app_length' by lia. simpl. replace (N - length o)%nat with 0%nat by lia. by rewrite app_nil_r.
Qed.

Lemma ir_miss N s l o v a h : ia_rel N s l (o ++ [v]) -> a ∉ l -> a <> 0 -> list_ok h lruList (v :: o) ->
  ia_rel N (mkIA h (<[v := a]> (ia_addrs s)) (<[a := v]> (delete (addr_of (ia_addrs s) v) (ia_lineMap s))))
    (lru_after N l a) (v :: o).
Proof.
  intros H Ha Ha0 Hh. pose proof (ir_list _ _ _ _ H) as (_ & _ & Hnd).
  assert (v ∈ o ++ [v]) as Hv by set_solver. pose proof (ir_lookup _ _ _ _ _ H Hv) as Hlv.
  apply NoDup_app in Hnd as (_ & Hvo & _). assert (v ∉ o) as Hvo' by set_solver. clear Hvo.
  pose proof Hv as HvN. rewrite (ir_line _ _ _ _ _ H) in HvN.
  pose proof (ir_addrs _ _ _ _ H) as Hf. rewrite fmap_app in Hf.
  destruct (contents_but_last N l _ _ ltac:(lia) (ir_max _ _ _ _ H) Hf a) as [Hc _].
  rewrite lru_after_miss by done. split; cbn [ia_heap ia_addrs ia_lineMap].
  - done.
  - rewrite <- (ir_perm _ _ _ _ H). by rewrite Permutation_app_comm.
  - rewrite length_insert. apply H.
  - rewrite fmap_cons. unfold addr_of at 1. rewrite list_lookup_insert_eq by (rewrite (ir_len _ _ _ _ H); done). simpl.
    rewrite <- Hc. f_equal. apply list_fmap_ext. intros i x Hx. unfold addr_of. rewrite list_lookup_insert_ne; [done|].
    intros <-. apply Hvo'. by eapply list_elem_of_lookup_2.
  - rewrite length_take. lia.
  - eapply sublist_NoDup; [|apply sublist_take]. apply NoDup_cons. split; [done|apply H].
  - intros Hz%subseteq_take%elem_of_cons. destruct Hz as [?|?]; [done|by apply (ir_nonzero _ _ _ _ H)].
  - apply line_map_replace; [apply H|done|done|]. pose proof (ir_find _ _ _ _ a H Ha0) as Hfind.
    destruct (ia_lineMap s !! a); [naive_solver|done].
Qed.

(** ** Accesses *)

Lemma wp_on_heap {A} (m : M InHeap A) Q s :
  wp m (fun x h => Q x (ia_set_heap h s)) (ia_heap s) -> wp (on_heap m) Q s.
Proof. intros Hm. unfold on_heap. by wp_step. Qed.

Lemma ia_access_ok N s l order a : ia_rel N s l order -> (0 < N)%nat -> a <> 0 ->
  wp (ia_access a) (fun o s' => o = lru_evicts N l a /\ exists order', ia_rel N s' (lru_after N l a) order') s.
Proof.
  intros H HN Ha. pose proof (ir_list _ _ _ _ H) as Hl. pose proof (ir_find _ _ _ _ a H Ha) as Hfind.
  unfold ia_access, ia_lookup. do 3 wp_step. destruct (ia_lineMap s !! a) as [id|] eqn:Em.
  - destruct Hfind as (Hin & Hid & Hf). wp_step. apply wp_when; [intros _|done]. apply wp_on_heap.
    eapply wp_mono; [by apply (to_front_ok _ lruList order id)|]. intros [] h (Hh & _).
    do 2 wp_step. unfold lru_evicts. rewrite bool_decide_eq_true_2 by done. split; [done|]. eexists. by apply ir_hit.
  - wp_step. cbn. destruct order as [|v o _] using rev_ind.
    { pose proof (Permutation_length (ir_perm _ _ _ _ H)) as E. rewrite length_seq in E. simpl in E. lia. }
    assert (v ∈ o ++ [v]) as Hv by set_solver. pose proof (ir_lookup _ _ _ _ _ H Hv) as Hlv.
    wp_step. unfold ia_preinsert. wp_step. apply wp_on_heap. unfold back. wp_step.
    eapply wp_get_list; [apply Hl|]. wp_step. cbn [il_tail]. rewrite final_snoc. do 3 wp_step.
    eapply wp_lift; [by apply at_ok|]. wp_step. cbv iota. unfold ia_postinsert. do 4 wp_step.
    eapply wp_lift; [by apply at_ok|]. wp_step. wp_step.
    { apply bool_decide_eq_true_2. cbn [ia_lineMap ia_set_heap]. by apply lookup_delete_None; right. }
    wp_step. eapply wp_lift; [apply set_at_ok; by eapply lookup_lt_Some|]. do 2 wp_step. apply wp_on_heap.
    eapply wp_mono; [by apply (to_front_ok _ lruList (o ++ [v]) v)|]. intros [] h (Hh & _).
    assert (filter (fun m => m <> v) (o ++ [v]) = o) as Eo by (rewrite filter_without by apply Hl; apply app_nil_r).
    rewrite Eo in Hh. wp_step. split; [|exists (v :: o); by apply (ir_miss N s l o v a h)].
    unfold lru_evicts. rewrite bool_decide_eq_false_2 by done. f_equal.
    pose proof (ir_addrs _ _ _ _ H) as Hf. rewrite fmap_app in Hf.
    by destruct (contents_but_last N l _ _ HN (ir_max _ _ _ _ H) Hf a) as [_ ->].
Qed.

Lemma ia_run_ok N trace : forall s l order, ia_rel N s l order -> (0 < N)%nat -> Forall (fun a => a <> 0) trace ->
  wp (ia_run trace) (fun os _ => os = lru_run N l trace) s.
Proof.
  induction trace as [|a trace IH]; intros s l order H HN Ht; cbn [ia_run lru_run]; [by wp_step|].
  apply Forall_cons_1 in Ht as [Ha Ht]. wp_step. eapply wp_mono; [by eapply ia_access_ok|].
  intros o s' (-> & order' & H'). wp_step. eapply wp_mono; [by eapply IH|]. intros os s'' ->. by wp_step.
Qed.

(** ** The constructor *)

(** The lines pushed so far, the last one first. *)
Lemma push_lines N : forall h, list_ok h lruList [] ->
  wp (forM (seq 0 N) (fun i => put_node i InListNode_new ;; push_front lruList i))
    (fun _ h' => list_ok h' lruList (reverse (seq 0 N))) h.
Proof.
  intros h Hh. apply (wp_forM _ _ (fun pre h' => list_ok h' lruList (reverse pre))); [exact Hh| |by intros h' ?].
  intros pre i post h' Hs Hok. wp_step. unfold put_node. wp_step. rewrite reverse_snoc.
  assert (i ∉ pre) as Hi.
  { pose proof (NoDup_seq 0 N) as Hnd. rewrite Hs in Hnd. apply NoDup_app in Hnd as (_ & Hd & _).
    intros Hin. apply (Hd i Hin). left. }
  eapply wp_mono; [apply (push_front_ok _ lruList i (reverse pre))|by intros [] h'' [? _]].
  - apply (list_ok_ext h'); [done| |done]. intros m Hm. apply lookup_insert_ne. intros ->.
    by rewrite elem_of_reverse in Hm.
  - apply lookup_insert_eq.
Qed.

Lemma fmap_zeros (f : nat -> Z) l : (forall x, f x = 0) -> f <$> l = replicate (length l) 0.
Proof. intros Hf. induction l as [|x l IH]; [done|]. rewrite fmap_cons, Hf, IH. done. Qed.

Lemma IdealLRUArray_new_ok N : exists s, IdealLRUArray_new N = Ok s /\ ia_rel N s [] (reverse (seq 0 N)).
Proof.
  unfold IdealLRUArray_new.
  assert (list_ok (mkIH ∅ {[ lruList := InList_new ]}) lruList []) as H0 by (split_and!; [done|done|constructor]).
  destruct (wp_ok _ _ _ (push_lines N _ H0)) as ([] & h & -> & Hh). eexists. split; [done|]. split; cbn.
  - done.
  - by rewrite reverse_Permutation.
  - apply length_replicate.
  - rewrite Nat.sub_0_r. transitivity (replicate (length (reverse (seq 0 N))) 0); [|by rewrite length_reverse, length_seq].
    apply fmap_zeros. intros id. unfold addr_of. destruct (replicate N 0 !! id) as [x|] eqn:E; [|done].
    by apply lookup_replicate_1 in E as [-> _].
  - lia.
  - constructor.
  - set_solver.
  - intros a id. rewrite lookup_empty. split; [done|]. intros [Ha [? _]%lookup_replicate]. done.
Qed.

(** C37: the ideal array is an LRU cache.  A new array of [N] lines runs every sequence
    of accesses, and each access hits, or evicts the address, as in the list of
    the [N] most recent addresses. *)
Theorem ideal_array_is_lru (N : nat) (trace : list Address) : (0 < N)%nat -> Forall (fun a => a <> 0) trace ->
  exists s s', IdealLRUArray_new N = Ok s /\ ia_run trace s = Ok (lru_run N [] trace, s').
Proof.
  intros HN Ht. destruct (IdealLRUArray_new_ok N) as (s & E & H). exists s.
  destruct (wp_ok _ _ _ (ia_run_ok N trace s [] _ H HN Ht)) as (os & s' & E' & ->). by exists s'.
Qed.

Lemma ideal_array_is_lru_witness :
  (exists s s', IdealLRUArray_new 2 = Ok s /\ ia_run [5; 6; 5; 7; 6] s = Ok (lru_run 2 [] [5; 6; 5; 7; 6], s')) /\
  lru_run 2 [] [5; 6; 5; 7; 6] = [Some 0; Some 0; None; Some 6; Some 5].
Proof. split; [apply ideal_array_is_lru; [lia|repeat constructor; lia]|vm_compute; reflexivity]. Defined.

(** Address 0 also marks an unused line: to fill one erases a line 0 that is in the
    array, and the next access to line 0 misses. *)
Example line_zero_is_lost :
  match IdealLRUArray_new 2 with
  | Ok s => match ia_run [0; 5; 0] s with Ok (os, _) => Some os | Err _ => None end
  | Err _ => None
  end = Some [Some 0; Some 0; Some 0] /\
  lru_run 2 [] [0; 5; 0] = [Some 0; Some 0; None].
Proof. split; vm_compute; reflexivity. Qed.
