(* ===== verification/IdealPart.v ===== *)
(** * The partitioned fully associative array ([src/src/ideal_arrays.h])

    [IdealLRUPartArray] with its [IdealLRUPartReplPolicy]: every partition has an
    intrusive list of its lines, most recent first, and a miss takes the last line
    of the partition that is most above its target size.  The two classes are one
    state.  A line is the number of its [Entry]; list [p] of the heap is
    [partInfo\[p\].lruList].

    The reference is a list of addresses per partition. *)

From stdpp Require Import base list gmap strings.
From Stdlib Require Import ZArith Lia Floats.SpecFloat.
From S2P Require Import Prelude Numeric MemHierarchy ReplPolicy MtRand H3Hash Umon UmonSpec Partition PartitionSpec WayPart InList IdealLru.
Local Open Scope Z_scope.

(** ** Data *)

Record IPEntry := mkIE { ie_p : nat; ie_used : bool }.

Record IPParams := mkIPP { ipp_partitions : nat; ipp_numLines : nat; ipp_numBuckets : Z }.

Record IdealPart (Mon : Type) := mkIP {
  ip_heap : InHeap;
  ip_partInfo : list PartInfo;
  ip_array : list IPEntry;
  ip_monitor : Mon;
  ip_lineAddrs : list Address;
  ip_lineMap : gmap Z nat
}.
Arguments mkIP {Mon} _ _ _ _ _ _.
Arguments ip_heap {Mon} _.
Arguments ip_partInfo {Mon} _.
Arguments ip_array {Mon} _.
Arguments ip_monitor {Mon} _.
Arguments ip_lineAddrs {Mon} _.
Arguments ip_lineMap {Mon} _.

(** [partInfo\[p\]] *)
Definition info_upd (p : nat) (f : PartInfo -> PartInfo) : M (list PartInfo) unit :=
  l <- get ;;
  i <- lift (at_ l p) ;;
  l' <- lift (set_at l p (f i)) ;;
  modify (fun _ => l').
Definition info_grow (p : nat) : M (list PartInfo) unit := info_upd p (fun i => pi_set_size (u64 (pi_size i + 1)) i).
Definition info_shrink (p : nat) : M (list PartInfo) unit := info_upd p (fun i => pi_set_size (u64 (pi_size i - 1)) i).

(** How far a partition is above its target, in proportion; the difference is one
    of [int32_t]. *)
Definition part_diff (i : PartInfo) : double :=
  ddiv (dbl_of_Z (i32 (i32 (pi_size i) - i32 (pi_targetSize i)))) (dbl_of_Z (u64 (pi_targetSize i + 1))).

(** The loop of [rank]. *)
Fixpoint rank_scan (info : list PartInfo) (ps : list nat) (maxPartDiff : double) (victimPart : nat) : res nat :=
  match ps with
  | [] => Ok victimPart
  | p :: ps' =>
      match at_ info p with
      | Err e => Err e
      | Ok i =>
          if dltb maxPartDiff (part_diff i) && (0 <? pi_size i)
          then rank_scan info ps' (part_diff i) p
          else rank_scan info ps' maxPartDiff victimPart
      end
  end.

Section IdealPart.
Context {Mon : Type} `{PartitionMonitor Mon}.
Implicit Types s : IdealPart Mon.

Definition ip_set_heap (h : InHeap) s : IdealPart Mon :=
  mkIP h (ip_partInfo s) (ip_array s) (ip_monitor s) (ip_lineAddrs s) (ip_lineMap s).
Definition ip_set_info (l : list PartInfo) s : IdealPart Mon :=
  mkIP (ip_heap s) l (ip_array s) (ip_monitor s) (ip_lineAddrs s) (ip_lineMap s).
Definition ip_set_array (l : list IPEntry) s : IdealPart Mon :=
  mkIP (ip_heap s) (ip_partInfo s) l (ip_monitor s) (ip_lineAddrs s) (ip_lineMap s).
Definition ip_set_monitor (m : Mon) s : IdealPart Mon :=
  mkIP (ip_heap s) (ip_partInfo s) (ip_array s) m (ip_lineAddrs s) (ip_lineMap s).
Definition ip_set_lines (addrs : list Address) (lineMap : gmap Z nat) s : IdealPart Mon :=
  mkIP (ip_heap s) (ip_partInfo s) (ip_array s) (ip_monitor s) addrs lineMap.

Definition ip_on_heap {A} (m : M InHeap A) : M (IdealPart Mon) A := zoom ip_heap ip_set_heap m.
Definition ip_on_info {A} (m : M (list PartInfo) A) : M (IdealPart Mon) A := zoom ip_partInfo ip_set_info m.

(** ** The constructors

    [partInfo] has [partitions] elements, and the loop over them runs for
    [p <= partitions]. *)
Definition ip_init_part (partitions numLines p : nat) : M (IdealPart Mon) unit :=
  t <- lift (udiv (Z.of_nat numLines) (Z.of_nat partitions)) ;;
  ip_on_heap (put_list p InList_new) ;;
  ip_on_info (info_upd p (fun i => pi_set_size 0 (pi_set_target t i))).

Definition ip_init_line (i : nat) : M (IdealPart Mon) unit :=
  ip_on_heap (put_node i InListNode_new ;; push_front 0 i) ;;
  ip_on_info (info_grow 0).

(** The constructors with a loop over the first [bound] partitions. *)
Definition ip_construct (bound partitions numLines : nat) (monitor : Mon) : res (IdealPart Mon) :=
  let s0 := mkIP (mkIH ∅ ∅) (replicate partitions pi_zero) (replicate numLines (mkIE 0 true)) monitor
              (replicate numLines 0) ∅ in
  let init : M (IdealPart Mon) unit :=
    forM (seq 0 bound) (ip_init_part partitions numLines) ;;
    forM (seq 0 numLines) ip_init_line in
  match init s0 with
  | Ok (_, s) => Ok s
  | Err e => Err e
  end.

Definition IdealPart_new (partitions numLines : nat) (monitor : Mon) : res (IdealPart Mon) :=
  ip_construct (S partitions) partitions numLines monitor.

(** ** [IdealLRUPartReplPolicy] *)

Definition ip_setPartitionSizes (P : IPParams) (sizes : list Z) : M (IdealPart Mon) unit :=
  forM (seq 0 (ipp_partitions P)) (fun p =>
    sz <- lift (at_ sizes p) ;;
    t <- lift (udiv (u32 (sz * Z.of_nat (ipp_numLines P))) (ipp_numBuckets P)) ;;
    ip_on_info (info_upd p (pi_set_target t))).

(** The statistics and sizes of a replacement. *)
Definition ip_account (oldPart newPart : nat) : M (list PartInfo) unit :=
  (if negb (oldPart =? newPart)%nat then
     info_shrink oldPart ;; info_upd oldPart pi_ext ;; info_grow newPart
   else info_upd oldPart pi_self) ;;
  info_upd newPart pi_miss.

(** [update(id, req, hit_in_dc)], with the partition and the address of the
    request. *)
Definition ip_update (id : nat) (part : res nat) (lineAddr : Address) : M (IdealPart Mon) unit :=
  s <- get ;;
  e <- lift (at_ (ip_array s) id) ;;
  p <- (if ie_used e then
          ip_on_info (info_upd (ie_p e) pi_hit) ;;
          ip_on_heap (remove (ie_p e) id ;; push_front (ie_p e) id) ;;
          ret (ie_p e)
        else
          let oldPart := ie_p e in
          newPart <- lift part ;;
          ip_on_info (ip_account oldPart newPart) ;;
          ip_on_heap (remove oldPart id ;; push_front newPart id) ;;
          l <- lift (set_at (ip_array s) id (mkIE newPart true)) ;;
          modify (ip_set_array l) ;;
          ret newPart) ;;
  zoom ip_monitor ip_set_monitor (pm_access p lineAddr).

Definition ip_replaced (id : nat) : M (IdealPart Mon) unit :=
  s <- get ;;
  e <- lift (at_ (ip_array s) id) ;;
  l <- lift (set_at (ip_array s) id (mkIE (ie_p e) false)) ;;
  modify (ip_set_array l).

(** [rank(req)]; the warning about a partition that is not full is left out. *)
Definition ip_rank (P : IPParams) (part : res nat) : M (IdealPart Mon) nat :=
  own <- lift part ;;
  s <- get ;;
  i <- lift (at_ (ip_partInfo s) own) ;;
  let maxPartDiff := if pi_size i =? 0 then dbl_of_Z (-2) else dbl_of_Z 0 in
  victimPart <- lift (rank_scan (ip_partInfo s) (seq 0 (ipp_partitions P)) maxPartDiff own) ;;
  v <- lift (at_ (ip_partInfo s) victimPart) ;;
  assert_ "ideal_arrays.h: partInfo[victimPart].size > 0" (0 <? pi_size v) ;;
  n <- ip_on_heap (size victimPart) ;;
  assert_ "ideal_arrays.h: size == lruList.size()" (pi_size v =? n) ;;
  b <- ip_on_heap (back victimPart) ;;
  match b with Some id => ret id | None => fail NullDeref end.

(** ** [IdealLRUPartArray] *)

Definition ip_lookup (lineAddr : Address) (part : res nat) (updateReplacement : bool) : M (IdealPart Mon) (option nat) :=
  s <- get ;;
  match ip_lineMap s !! lineAddr with
  | None => ret None
  | Some lineId => when updateReplacement (ip_update lineId part lineAddr) ;; ret (Some lineId)
  end.

Definition ip_preinsert (P : IPParams) (part : res nat) : M (IdealPart Mon) (nat * Address) :=
  lineId <- ip_rank P part ;;
  s <- get ;;
  wb <- lift (at_ (ip_lineAddrs s) lineId) ;;
  ret (lineId, wb).

Definition ip_postinsert (lineAddr : Address) (part : res nat) (lineId : nat) : M (IdealPart Mon) unit :=
  s <- get ;;
  old <- lift (at_ (ip_lineAddrs s) lineId) ;;
  let lineMap := delete old (ip_lineMap s) in
  assert_ "ideal_arrays.h: lineMap.find(lineAddr) == lineMap.end()" (bool_decide (lineMap !! lineAddr = None)) ;;
  addrs <- lift (set_at (ip_lineAddrs s) lineId lineAddr) ;;
  modify (ip_set_lines addrs (<[lineAddr := lineId]> lineMap)) ;;
  ip_replaced lineId ;;
  ip_update lineId part lineAddr.

(** A load or store in [Cache::access]: the address that is evicted, if the line
    is not in the array. *)
Definition ip_access (P : IPParams) (part : res nat) (lineAddr : Address) : M (IdealPart Mon) (option Address) :=
  o <- ip_lookup lineAddr part true ;;
  match o with
  | Some _ => ret None
  | None =>
      let! (lineId, wb) := ip_preinsert P part in
      ip_postinsert lineAddr part lineId ;;
      ret (Some wb)
  end.

Definition IdealPart_policy (P : IPParams) : PartReplPolicy (IdealPart Mon) Mon := {|
  pr_monitor := fun A m => zoom ip_monitor ip_set_monitor m;
  pr_setPartitionSizes := ip_setPartitionSizes P
|}.

(** Accesses and resizes. *)
Inductive IPStep :=
| IPAccess (part : nat) (lineAddr : Address)
| IPResize (sizes : list Z).

Fixpoint ip_run (P : IPParams) (steps : list IPStep) : M (IdealPart Mon) (list (option Address)) :=
  match steps with
  | [] => ret []
  | IPAccess part a :: steps' => o <- ip_access P (Ok part) a ;; os <- ip_run P steps' ;; ret (o :: os)
  | IPResize sizes :: steps' => ip_setPartitionSizes P sizes ;; ip_run P steps'
  end.
End IdealPart.

(** ** The reference

    A list of addresses per partition, 0 for a line that is not yet used, and the
    target sizes. *)
Record PartLru := mkPL { pl_lists : list (list Z); pl_targets : list Z }.

Definition size_diff (n : nat) (t : Z) : double := ddiv (dbl_of_Z (Z.of_nat n - t)) (dbl_of_Z (t + 1)).

(** The partition with the greatest difference above [mx], if one has lines, and
    [v] otherwise. *)
Fixpoint pl_scan (ps : list nat) (lists : list (list Z)) (targets : list Z) (mx : double) (v : nat) : nat :=
  match ps with
  | [] => v
  | p :: ps' =>
      let n := length (default [] (lists !! p)) in
      let d := size_diff n (default 0 (targets !! p)) in
      if dltb mx d && (0 <? n)%nat then pl_scan ps' lists targets d p else pl_scan ps' lists targets mx v
  end.

Definition pl_victim (s : PartLru) (own : nat) : nat :=
  let mx := if (length (default [] (pl_lists s !! own)) =? 0)%nat then dbl_of_Z (-2) else dbl_of_Z 0 in
  pl_scan (seq 0 (length (pl_lists s))) (pl_lists s) (pl_targets s) mx own.

(** The list that has [a]. *)
Definition pl_home (s : PartLru) (a : Z) : nat := find_idx (fun l => bool_decide (a ∈ l)) (pl_lists s).

Definition pl_update (p : nat) (f : list Z -> list Z) (s : PartLru) : PartLru :=
  mkPL (alter f p (pl_lists s)) (pl_targets s).

Definition pl_access (s : PartLru) (own : nat) (a : Z) : option Z * PartLru :=
  let q := pl_home s a in
  if (q <? length (pl_lists s))%nat then (None, pl_update q (fun l => a :: filter (fun b => b <> a) l) s)
  else
    let v := pl_victim s own in
    (Some (default 0 (last (default [] (pl_lists s !! v)))),
     pl_update own (cons a) (pl_update v (fun l => take (pred (length l)) l) s)).

Definition pl_resize (P : IPParams) (sizes : list Z) (s : PartLru) : PartLru :=
  mkPL (pl_lists s) ((fun sz => sz * Z.of_nat (ipp_numLines P) / ipp_numBuckets P) <$> take (ipp_partitions P) sizes).

Fixpoint pl_run (P : IPParams) (s : PartLru) (steps : list IPStep) : list (option Z) :=
  match steps with
  | [] => []
  | IPAccess own a :: steps' => (pl_access s own a).1 :: pl_run P (pl_access s own a).2 steps'
  | IPResize sizes :: steps' => pl_run P (pl_resize P sizes s) steps'
  end.

(** All lines start in partition 0. *)
Definition pl_new (partitions numLines : nat) : PartLru :=
  mkPL (replicate numLines 0 :: replicate (pred partitions) [])
    (replicate partitions (Z.of_nat numLines / Z.of_nat partitions)).

(** ** The choice of a partition *)

Lemma dltb_irrefl x : dltb x x = false.
Proof.
  unfold dltb, SFltb. destruct x as [[]|[]| |[] m e]; simpl; try done.
  all: rewrite Z.compare_refl; change (PosDef.Pos.compare_cont Eq m m) with (Pos.compare m m); by rewrite Pos.compare_refl.
Qed.

Section Victim.
Context (lists : list (list Z)) (targets : list Z).

Definition pl_len (p : nat) : nat := length (default [] (lists !! p)).
Definition pl_diff (p : nat) : double := size_diff (pl_len p) (default 0 (targets !! p)).

(** What the loop returns. *)
Lemma pl_scan_max ps : forall mx v, let r := pl_scan ps lists targets mx v in
  (r = v /\ forall w, w ∈ ps -> (0 < pl_len w)%nat -> dltb mx (pl_diff w) = false) \/
  (r ∈ ps /\ (0 < pl_len r)%nat /\ dltb mx (pl_diff r) = true /\
   forall w, w ∈ ps -> (0 < pl_len w)%nat -> dltb (pl_diff r) (pl_diff w) = false).
Proof.
  induction ps as [|p ps IH]; intros mx v; cbn [pl_scan]; cbv zeta.
  { left. split; [done|]. by intros w Hw%elem_of_nil. }
  fold (pl_len p). change (size_diff (pl_len p) _) with (pl_diff p).
  destruct (dltb mx (pl_diff p) && (0 <? pl_len p)%nat) eqn:E.
  - apply andb_true_iff in E as [Ed En%Nat.ltb_lt]. right.
    destruct (IH (pl_diff p) p) as [[-> Hw]|(Hr & Hn & Hd & Hw)].
    + split_and!; [left|done|done|]. intros w [->|Hw']%elem_of_cons Hnw; [apply dltb_irrefl|by apply Hw].
    + split_and!; [by right|done|by eapply dltb_trans|]. intros w [->|Hw']%elem_of_cons Hnw; [|by apply Hw].
      apply not_true_is_false. intros E'. pose proof (dltb_trans _ _ _ Hd E') as Hc. by rewrite dltb_irrefl in Hc.
  - assert ((0 < pl_len p)%nat -> dltb mx (pl_diff p) = false) as Hp.
    { intros Hn%Nat.ltb_lt. rewrite Hn, andb_true_r in E. done. }
    destruct (IH mx v) as [[-> Hw]|(Hr & Hn & Hd & Hw)]; [left|right].
    + split; [done|]. intros w [->|Hw']%elem_of_cons; auto.
    + split_and!; [by right|done|done|]. intros w [->|Hw']%elem_of_cons Hnw; [|by apply Hw].
      apply not_true_is_false. intros E'. pose proof (dltb_trans _ _ _ Hd E') as Hc. rewrite Hp in Hc; done.
Qed.
End Victim.

(** Sizes and targets are below 2^31, and some partition has lines. *)
Record pl_wf (n : nat) (s : PartLru) : Prop := {
  plw_lists : length (pl_lists s) = n;
  plw_targets : length (pl_targets s) = n;
  plw_bound : Forall (fun t => 0 <= t < 2 ^ 31) (pl_targets s);
  plw_size : forall p, Z.of_nat (pl_len (pl_lists s) p) < 2 ^ 31;
  plw_some : exists p, (p < n)%nat /\ (0 < pl_len (pl_lists s) p)%nat
}.

(** The partition [v] from which a miss of [own] evicts: it has lines; it is above
    its target, unless it is [own] itself or [own] has no lines; and no partition
    that could be taken instead is further above. *)
Definition victim_ok (s : PartLru) (own v : nat) : Prop :=
  let len := pl_len (pl_lists s) in
  let diff := pl_diff (pl_lists s) (pl_targets s) in
  (v < length (pl_lists s))%nat /\ (0 < len v)%nat /\
  (v = own \/ len own = 0%nat \/ default 0 (pl_targets s !! v) < Z.of_nat (len v)) /\
  forall w, (w < length (pl_lists s))%nat -> (0 < len w)%nat ->
    len own = 0%nat \/ dltb (dbl_of_Z 0) (diff w) = true -> dltb (diff v) (diff w) = false.

Lemma target_bound n s p : pl_wf n s -> 0 <= default 0 (pl_targets s !! p) < 2 ^ 31.
Proof.
  intros H. destruct (pl_targets s !! p) as [t|] eqn:E; simpl; [|lia].
  exact (proj1 (Forall_lookup _ _) (plw_bound _ _ H) p t E).
Qed.

Lemma pl_victim_ok n s own : pl_wf n s -> (own < n)%nat -> victim_ok s own (pl_victim s own).
Proof.
  intros H Hown. unfold victim_ok, pl_victim. rewrite (plw_lists _ _ H). fold (pl_len (pl_lists s) own).
  assert (forall w, (w < n)%nat <-> w ∈ seq 0 n) as Hseq by (intros w; rewrite elem_of_seq; lia).
  destruct (Nat.eqb_spec (pl_len (pl_lists s) own) 0) as [Ho|Ho].
  - destruct (pl_scan_max (pl_lists s) (pl_targets s) (seq 0 n) (dbl_of_Z (-2)) own) as [[-> Hw]|(Hr & Hn & Hd & Hw)].
    + exfalso. destruct (plw_some _ _ H) as (p & Hp & Hlen). pose proof (target_bound n s p H) as Ht.
      pose proof (plw_size _ _ H p). specialize (Hw p (proj1 (Hseq p) Hp) Hlen). unfold pl_diff, size_diff in Hw.
      rewrite ddiv_above in Hw; [done|lia|lia].
    + split_and!; [by apply Hseq|done|by right; left|]. intros w Hwn%Hseq Hl _. by apply Hw.
  - destruct (pl_scan_max (pl_lists s) (pl_targets s) (seq 0 n) (dbl_of_Z 0) own) as [[-> Hw]|(Hr & Hn & Hd & Hw)].
    + split_and!; [done|lia|by left|]. intros w Hwn%Hseq Hl [?|Hd]; [done|]. by rewrite (Hw w Hwn Hl) in Hd.
    + split_and!; [by apply Hseq|done| |intros w Hwn%Hseq Hl _; by apply Hw]. right. right.
      pose proof (target_bound n s (pl_scan (seq 0 n) (pl_lists s) (pl_targets s) (dbl_of_Z 0) own) H) as Ht.
      unfold pl_diff, size_diff in Hd. apply ddiv_positive in Hd; lia.
Qed.

(** ** The relation *)

Lemma alter_is_insert {A} (f : A -> A) p (l : list A) x : l !! p = Some x -> alter f p l = <[p := f x]> l.
Proof.
  intros Hx. apply list_eq. intros i. destruct (decide (i = p)) as [->|].
  - by rewrite list_lookup_alter_eq, list_lookup_insert_eq, Hx by (by eapply lookup_lt_Some).
  - by rewrite list_lookup_alter_ne, list_lookup_insert_ne.
Qed.

Definition sizes_of {A} (ls : list (list A)) : list Z := (fun l => Z.of_nat (length l)) <$> ls.

Definition info_ok (info : list PartInfo) (sizes targets : list Z) : Prop :=
  forall p z, sizes !! p = Some z -> exists i, info !! p = Some i /\ pi_size i = z /\ targets !! p = Some (pi_targetSize i).

Lemma info_upd_ok p f g info sizes targets z : info_ok info sizes targets -> sizes !! p = Some z ->
  (forall i, pi_size (f i) = g (pi_size i)) -> (forall i, pi_targetSize (f i) = pi_targetSize i) ->
  wp (info_upd p f) (fun _ info' => info_ok info' (<[p := g z]> sizes) targets) info.
Proof.
  intros Hok Hz Hg Ht. destruct (Hok _ _ Hz) as (i & Hi & Hs & Hti). unfold info_upd. do 3 wp_step.
  eapply wp_lift; [by apply at_ok|]. wp_step. eapply wp_lift; [apply set_at_ok; by eapply lookup_lt_Some|]. wp_step.
  intros q y Hq. apply list_lookup_insert_Some in Hq as [(-> & <- & _)|[Hne Hq]].
  - exists (f i). rewrite list_lookup_insert_eq by (by eapply lookup_lt_Some). by rewrite Hg, Hs, Ht.
  - rewrite list_lookup_insert_ne by done. by apply Hok.
Qed.

(** A change of the statistics. *)
Lemma info_stat_ok p f info sizes targets : info_ok info sizes targets -> is_Some (sizes !! p) ->
  (forall i, pi_size (f i) = pi_size i) -> (forall i, pi_targetSize (f i) = pi_targetSize i) ->
  wp (info_upd p f) (fun _ info' => info_ok info' sizes targets) info.
Proof.
  intros Hok [z Hz] Hs Ht. eapply wp_mono; [by eapply (info_upd_ok p f id)|]. intros [] info'. cbn.
  by rewrite list_insert_id.
Qed.

(** A line moves from [v] to [own]. *)
Lemma ip_account_ok v own info sizes targets z : info_ok info sizes targets -> sizes !! v = Some z -> is_Some (sizes !! own) ->
  (forall p y, sizes !! p = Some y -> 0 <= y < 2 ^ 32) -> 0 < z ->
  wp (ip_account v own)
    (fun _ info' => info_ok info' (alter Z.succ own (alter Z.pred v sizes)) targets) info.
Proof.
  intros Hok Hz [y Hy] Hb Hpos. unfold ip_account. wp_step. destruct (Nat.eqb_spec v own) as [->|Hne]; cbn [negb].
  - eapply wp_mono; [by apply (info_stat_ok own pi_self info sizes targets)|]. intros [] info1 H1.
    eapply wp_mono; [by apply (info_stat_ok own pi_miss info1 sizes targets)|]. intros [] info2 H2.
    replace (alter Z.succ own (alter Z.pred own sizes)) with sizes; [done|].
    rewrite (alter_is_insert Z.pred own _ z), (alter_is_insert Z.succ own _ (Z.pred z)); [|by apply list_lookup_insert_eq; eapply lookup_lt_Some|done].
    by rewrite list_insert_insert_eq, Z.succ_pred, list_insert_id.
  - wp_step. eapply wp_mono; [by apply (info_upd_ok v _ (fun x => u64 (x - 1)) info sizes targets z)|].
    intros [] info1 H1. rewrite u64_id in H1 by (specialize (Hb _ _ Hz); unfold in_u64; lia).
    assert (v < length sizes)%nat as Hv by (by eapply lookup_lt_Some).
    wp_step. eapply wp_mono; [apply (info_stat_ok v pi_ext info1 _ targets H1); [by rewrite list_lookup_insert_eq|done|done]|].
    intros [] info2 H2. eapply wp_mono.
    { apply (info_upd_ok own _ (fun x => u64 (x + 1)) info2 _ targets y H2); [by rewrite list_lookup_insert_ne|done|done]. }
    intros [] info3 H3. rewrite u64_id in H3 by (specialize (Hb _ _ Hy); unfold in_u64; lia).
    eapply wp_mono; [apply (info_stat_ok own pi_miss info3 _ targets H3); [|done|done]|].
    { rewrite list_lookup_insert_eq; [done|]. rewrite length_insert. by eapply lookup_lt_Some. }
    intros [] info4 H4. rewrite (alter_is_insert Z.pred v _ z), (alter_is_insert Z.succ own _ y); [done|by rewrite list_lookup_insert_ne|done].
Qed.

Section Refinement.
Context {Mon : Type} `{MonitorAccess Mon} (P : IPParams).
Abbreviation n := (ipp_partitions P).
Abbreviation N := (ipp_numLines P).
Context (HN : 0 < Z.of_nat N < 2 ^ 31).
Implicit Types s : IdealPart Mon.

Record ip_rel s (pl : PartLru) (orders : list (list nat)) : Prop := {
  ipr_lists : lists_ok (ip_heap s) orders;
  ipr_count : length orders = n;
  ipr_addrs : pl_lists pl = map (fmap (addr_of (ip_lineAddrs s))) orders;
  ipr_info : info_ok (ip_partInfo s) (sizes_of orders) (pl_targets pl);
  ipr_targets : length (pl_targets pl) = n /\ Forall (fun t => 0 <= t < 2 ^ 31) (pl_targets pl);
  ipr_len : length (ip_array s) = N /\ length (ip_lineAddrs s) = N;
  ipr_in : forall p o id, orders !! p = Some o -> id ∈ o <-> ip_array s !! id = Some (mkIE p true);
  ipr_entry : forall id e, ip_array s !! id = Some e -> e = mkIE (ie_p e) true /\ (ie_p e < n)%nat;
  ipr_map : line_map_ok (ip_lineAddrs s) (ip_lineMap s);
  ipr_monitor : pm_sampling n (ip_monitor s)
}.

Lemma ipr_order s pl orders p : ip_rel s pl orders -> (p < n)%nat -> exists o, orders !! p = Some o.
Proof. intros Hr Hp. rewrite <- (ipr_count _ _ _ Hr) in Hp. by apply lookup_lt_is_Some_2. Qed.

Lemma ipr_info_at s pl orders p o : ip_rel s pl orders -> orders !! p = Some o ->
  exists i, ip_partInfo s !! p = Some i /\ pi_size i = Z.of_nat (length o) /\ pl_targets pl !! p = Some (pi_targetSize i).
Proof. intros Hr Ho. apply (ipr_info _ _ _ Hr). unfold sizes_of. by rewrite list_lookup_fmap, Ho. Qed.

Lemma ipr_small s pl orders p o : ip_rel s pl orders -> orders !! p = Some o -> (length o <= N)%nat.
Proof.
  intros Hr Ho. destruct (ipr_lists _ _ _ Hr _ _ Ho) as (_ & _ & Hnd).
  rewrite <- (length_seq N 0). apply submseteq_length, NoDup_submseteq; [done|].
  intros id Hid%(ipr_in _ _ _ Hr _ _ _ Ho)%lookup_lt_Some. rewrite (proj1 (ipr_len _ _ _ Hr)) in Hid.
  apply elem_of_seq. lia.
Qed.

(** Where a line is. *)
Lemma ipr_home s pl orders id : ip_rel s pl orders -> (id < N)%nat ->
  exists p o, ip_array s !! id = Some (mkIE p true) /\ orders !! p = Some o /\ id ∈ o /\ (p < n)%nat /\
    ip_lineAddrs s !! id = Some (addr_of (ip_lineAddrs s) id).
Proof.
  intros Hr Hid. destruct (lookup_lt_is_Some_2 (ip_array s) id) as [e He]; [by rewrite (proj1 (ipr_len _ _ _ Hr))|].
  destruct (ipr_entry _ _ _ Hr _ _ He) as [E Hp]. rewrite E in He. destruct (ipr_order _ _ _ (ie_p e) Hr Hp) as [o Ho].
  exists (ie_p e), o. split_and!; [done|done|by apply (ipr_in _ _ _ Hr _ _ _ Ho)|done|].
  destruct (lookup_lt_is_Some_2 (ip_lineAddrs s) id) as [x Hx]; [by rewrite (proj2 (ipr_len _ _ _ Hr))|].
  unfold addr_of. by rewrite Hx.
Qed.

Lemma ipr_lookup_list s pl orders p o : ip_rel s pl orders -> orders !! p = Some o ->
  pl_lists pl !! p = Some (addr_of (ip_lineAddrs s) <$> o).
Proof. intros Hr Ho. by rewrite (ipr_addrs _ _ _ Hr), list_lookup_fmap, Ho. Qed.

Lemma ipr_pl_len s pl orders p o : ip_rel s pl orders -> orders !! p = Some o -> pl_len (pl_lists pl) p = length o.
Proof. intros Hr Ho. unfold pl_len. rewrite (ipr_lookup_list _ _ _ _ _ Hr Ho). simpl. apply length_fmap. Qed.

Lemma ipr_wf s pl orders : ip_rel s pl orders -> pl_wf n pl.
Proof.
  intros Hr. destruct (ipr_targets _ _ _ Hr) as [Ht Hb].
  assert (length (pl_lists pl) = n) as Hl by (rewrite (ipr_addrs _ _ _ Hr), length_fmap; apply Hr).
  split; [done|done|done| |].
  - intros p. destruct (orders !! p) as [o|] eqn:Ho.
    + rewrite (ipr_pl_len _ _ _ _ _ Hr Ho). pose proof (ipr_small _ _ _ _ _ Hr Ho). lia.
    + unfold pl_len. rewrite (ipr_addrs _ _ _ Hr), list_lookup_fmap, Ho. simpl. lia.
  - destruct (ipr_home _ _ _ 0%nat Hr ltac:(lia)) as (p & o & _ & Ho & Hin & Hp & _). exists p. split; [done|].
    rewrite (ipr_pl_len _ _ _ _ _ Hr Ho). destruct o; [by apply elem_of_nil in Hin|]. simpl. lia.
Qed.

(** The code's differences are those of the reference. *)
Lemma part_diff_is s pl orders p o i : ip_rel s pl orders -> orders !! p = Some o -> ip_partInfo s !! p = Some i ->
  part_diff i = pl_diff (pl_lists pl) (pl_targets pl) p.
Proof.
  intros Hr Ho Hi. destruct (ipr_info_at _ _ _ _ _ Hr Ho) as (i' & Hi' & Hs & Ht). assert (i' = i) as -> by congruence.
  unfold pl_diff, part_diff, size_diff. rewrite (ipr_pl_len _ _ _ _ _ Hr Ho), Ht, Hs. simpl.
  pose proof (ipr_small _ _ _ _ _ Hr Ho). pose proof (target_bound _ _ p (ipr_wf _ _ _ Hr)) as Hb. rewrite Ht in Hb. simpl in Hb.
  rewrite !i32_small by (rewrite ?i32_small; lia). f_equal. f_equal. apply u64_id. unfold in_u64. lia.
Qed.

Lemma rank_scan_is s pl orders ps : ip_rel s pl orders -> (forall p, p ∈ ps -> (p < n)%nat) -> forall mx v,
  rank_scan (ip_partInfo s) ps mx v = Ok (pl_scan ps (pl_lists pl) (pl_targets pl) mx v).
Proof.
  intros Hr. induction ps as [|p ps IH]; intros Hps mx v; cbn [rank_scan pl_scan]; [done|].
  destruct (ipr_order _ _ _ p Hr) as [o Ho]; [apply Hps; left|].
  destruct (ipr_info_at _ _ _ _ _ Hr Ho) as (i & Hi & Hs & Ht). rewrite (at_ok _ _ _ Hi).
  rewrite (part_diff_is _ _ _ _ _ _ Hr Ho Hi). fold (pl_len (pl_lists pl) p).
  change (size_diff (pl_len (pl_lists pl) p) _) with (pl_diff (pl_lists pl) (pl_targets pl) p).
  assert ((0 <? pi_size i) = (0 <? pl_len (pl_lists pl) p)%nat) as ->.
  { rewrite Hs, (ipr_pl_len _ _ _ _ _ Hr Ho). destruct (length o); done. }
  destruct (_ && _); apply IH; intros q Hq; apply Hps; by right.
Qed.

(** ** Lookups *)

Lemma ipr_inj s pl orders id id' a : ip_rel s pl orders -> a <> 0 ->
  ip_lineAddrs s !! id = Some a -> ip_lineAddrs s !! id' = Some a -> id = id'.
Proof.
  intros Hr Ha H1 H2. assert (ip_lineMap s !! a = Some id) as E1 by (by apply (ipr_map _ _ _ Hr)).
  assert (ip_lineMap s !! a = Some id') as E2 by (by apply (ipr_map _ _ _ Hr)). congruence.
Qed.

(** A line of a list with address [a]. *)
Lemma ipr_owner s pl orders p o a : ip_rel s pl orders -> orders !! p = Some o -> a ∈ addr_of (ip_lineAddrs s) <$> o ->
  exists id, id ∈ o /\ ip_lineAddrs s !! id = Some a.
Proof.
  intros Hr Ho (id & -> & Hid)%list_elem_of_fmap_1. exists id. split; [done|].
  pose proof Hid as Hlt%(ipr_in _ _ _ Hr _ _ _ Ho)%lookup_lt_Some. rewrite (proj1 (ipr_len _ _ _ Hr)) in Hlt.
  by destruct (ipr_home _ _ _ id Hr Hlt) as (_ & _ & _ & _ & _ & _ & Hx).
Qed.

Lemma ipr_find s pl orders a : ip_rel s pl orders -> a <> 0 ->
  match ip_lineMap s !! a with
  | Some id => exists p o, ip_array s !! id = Some (mkIE p true) /\ orders !! p = Some o /\ id ∈ o /\ (p < n)%nat /\
      ip_lineAddrs s !! id = Some a /\ pl_home pl a = p
  | None => pl_home pl a = n
  end.
Proof.
  intros Hr Ha. assert (length (pl_lists pl) = n) as Hl by apply (plw_lists _ _ (ipr_wf _ _ _ Hr)).
  unfold pl_home. set (f := fun l => bool_decide (a ∈ l)).
  assert ((find_idx f (pl_lists pl) < n)%nat -> exists o id, orders !! find_idx f (pl_lists pl) = Some o /\
            id ∈ o /\ ip_lineAddrs s !! id = Some a) as Hfound.
  { intros Hlt. rewrite <- Hl in Hlt. apply find_idx_lt in Hlt as (l & El & Hin%bool_decide_eq_true & _).
    rewrite (ipr_addrs _ _ _ Hr) in El. apply list_lookup_fmap_Some in El as (o & -> & Ho).
    rewrite (ipr_addrs _ _ _ Hr). destruct (ipr_owner _ _ _ _ _ _ Hr Ho Hin) as (id & ? & ?). eauto. }
  destruct (ip_lineMap s !! a) as [id|] eqn:Em.
  - apply (ipr_map _ _ _ Hr) in Em as [_ Hid]. pose proof Hid as Hlt%lookup_lt_Some. rewrite (proj2 (ipr_len _ _ _ Hr)) in Hlt.
    destruct (ipr_home _ _ _ id Hr Hlt) as (p & o & Ha1 & Ho & Hin & Hp & Hx). exists p, o. split_and!; try done.
    assert (find_idx f (pl_lists pl) <= p)%nat as Hle.
    { eapply find_idx_some; [by eapply ipr_lookup_list|]. apply bool_decide_eq_true_2.
      assert (addr_of (ip_lineAddrs s) id = a) as <- by congruence. by apply list_elem_of_fmap_2. }
    destruct Hfound as (o' & id' & Ho' & Hin' & Hid'); [lia|].
    assert (id' = id) as -> by (by eapply (ipr_inj s pl orders id' id a)).
    by eapply (lists_ok_one (ip_heap s) orders _ _ o' o id); [apply Hr|..].
  - pose proof (find_idx_le f (pl_lists pl)) as Hle. rewrite Hl in Hle.
    destruct (decide (find_idx f (pl_lists pl) = n)) as [|Hne]; [done|exfalso].
    destruct Hfound as (o & id & _ & _ & Hid); [lia|].
    assert (ip_lineMap s !! a = Some id) as E by (by apply (ipr_map _ _ _ Hr)). congruence.
Qed.

(** ** A hit *)

Lemma wp_ip_on_heap {A} (m : M InHeap A) Q s :
  wp m (fun x h => Q x (ip_set_heap h s)) (ip_heap s) -> wp (ip_on_heap m) Q s.
Proof. intros Hm. unfold ip_on_heap. by wp_step. Qed.

Lemma wp_ip_on_info {A} (m : M (list PartInfo) A) Q s :
  wp m (fun x l => Q x (ip_set_info l s)) (ip_partInfo s) -> wp (ip_on_info m) Q s.
Proof. intros Hm. unfold ip_on_info. by wp_step. Qed.

Lemma sizes_lookup {A} (ls : list (list A)) p l : ls !! p = Some l -> sizes_of ls !! p = Some (Z.of_nat (length l)).
Proof. intros Hl. unfold sizes_of. by rewrite list_lookup_fmap, Hl. Qed.

Lemma sizes_insert {A} (ls : list (list A)) p l : sizes_of (<[p := l]> ls) = <[p := Z.of_nat (length l)]> (sizes_of ls).
Proof. unfold sizes_of. by rewrite list_fmap_insert. Qed.

Lemma moved_length (o : list nat) id : NoDup o -> id ∈ o -> length (id :: filter (fun m => m <> id) o) = length o.
Proof. intros Hnd Hin. apply Permutation_length. by apply moved_perm. Qed.

Lemma ip_rel_hit s pl orders p o id a info h m : ip_rel s pl orders -> a <> 0 -> orders !! p = Some o -> id ∈ o ->
  ip_lineAddrs s !! id = Some a -> info_ok info (sizes_of orders) (pl_targets pl) ->
  lists_ok h (<[p := id :: filter (fun m => m <> id) o]> orders) -> pm_sampling n m ->
  ip_rel (ip_set_monitor m (ip_set_heap h (ip_set_info info s))) (pl_update p (fun l => a :: filter (fun b => b <> a) l) pl)
    (<[p := id :: filter (fun m => m <> id) o]> orders).
Proof.
  intros Hr Ha Ho Hid Hx Hinfo Hh Hm. destruct (ipr_lists _ _ _ Hr _ _ Ho) as (_ & _ & Hnd). split; cbn.
  - done.
  - rewrite length_insert. apply Hr.
  - rewrite (alter_is_insert _ p _ _ (ipr_lookup_list _ _ _ _ _ Hr Ho)), (ipr_addrs _ _ _ Hr).
    change (map ?f (<[p := ?x]> orders)) with (f <$> <[p := x]> orders). rewrite list_fmap_insert. f_equal.
    rewrite fmap_cons. f_equal; [unfold addr_of; by rewrite Hx|]. symmetry. apply fmap_filter_on.
    intros x Hxo. split; [|intros ->; unfold addr_of; by rewrite Hx]. intros Hxa.
    pose proof Hxo as Hlt%(ipr_in _ _ _ Hr _ _ _ Ho)%lookup_lt_Some. rewrite (proj1 (ipr_len _ _ _ Hr)) in Hlt.
    destruct (ipr_home _ _ _ x Hr Hlt) as (_ & _ & _ & _ & _ & _ & Hxx). rewrite Hxa in Hxx.
    by eapply (ipr_inj s pl orders).
  - rewrite sizes_insert, moved_length, list_insert_id by (done || by apply sizes_lookup). done.
  - apply Hr.
  - apply Hr.
  - intros q o' x Hq. apply list_lookup_insert_Some in Hq as [(-> & <- & _)|[Hne Hq]]; [|by apply (ipr_in _ _ _ Hr)].
    by rewrite <- (ipr_in _ _ _ Hr _ _ _ Ho), (moved_perm o id Hnd Hid).
  - apply Hr.
  - apply Hr.
  - done.
Qed.

Lemma ip_update_hit s pl orders p o id a : ip_rel s pl orders -> a <> 0 -> pm_addr (Mon := Mon) a -> orders !! p = Some o -> id ∈ o ->
  ip_lineAddrs s !! id = Some a -> ip_array s !! id = Some (mkIE p true) -> forall part,
  wp (ip_update id part a)
    (fun _ s' => exists orders', ip_rel s' (pl_update p (fun l => a :: filter (fun b => b <> a) l) pl) orders') s.
Proof.
  intros Hr Ha Hpa Ho Hid Hx He part. destruct (ipr_entry _ _ _ Hr _ _ He) as [_ Hp]. cbn in Hp.
  unfold ip_update. do 3 wp_step. eapply wp_lift; [by apply at_ok|]. cbn [ie_used ie_p]. do 2 wp_step. apply wp_ip_on_info.
  eapply wp_mono; [apply (info_stat_ok p pi_hit _ _ _ (ipr_info _ _ _ Hr)); [by rewrite (sizes_lookup _ _ _ Ho)|done|done]|].
  intros [] info Hinfo. wp_step. apply wp_ip_on_heap. wp_step. cbn [ip_heap ip_set_info].
  eapply wp_mono; [by apply (lists_remove _ orders p o id); [apply Hr|..]|]. intros [] h1 (H1 & Hf).
  assert (p < length orders)%nat as Hpl by (by eapply lookup_lt_Some).
  eapply wp_mono; [eapply (lists_push_front h1); [exact H1|by apply list_lookup_insert_eq|done]|]. intros [] h2 H2.
  rewrite list_insert_insert_eq in H2. do 2 wp_step. cbn [ip_monitor ip_set_heap ip_set_info]. eapply wp_mono; [apply (pm_access_ok n _ p a); [apply Hr|done|done]|].
  intros [] m Hm. eexists. by apply (ip_rel_hit s pl orders p o id a info h2 m).
Qed.

(** ** A miss *)

Lemma ip_rank_ok s pl orders own : ip_rel s pl orders -> (own < n)%nat ->
  wp (ip_rank P (Ok own)) (fun id s' => s' = s /\ exists o, orders !! pl_victim pl own = Some (o ++ [id])) s.
Proof.
  intros Hr Hown. pose proof (ipr_wf _ _ _ Hr) as Hwf. pose proof (pl_victim_ok n pl own Hwf Hown) as (Hv & Hlen & _).
  rewrite (plw_lists _ _ Hwf) in Hv. destruct (ipr_order _ _ _ own Hr Hown) as [oo Hoo].
  destruct (ipr_info_at _ _ _ _ _ Hr Hoo) as (i & Hi & Hs & _).
  unfold ip_rank. wp_step. eapply wp_lift; [done|]. do 3 wp_step. eapply wp_lift; [by apply at_ok|]. cbv zeta. wp_step.
  assert ((pi_size i =? 0) = (pl_len (pl_lists pl) own =? 0)%nat) as ->.
  { rewrite Hs, (ipr_pl_len _ _ _ _ _ Hr Hoo). by destruct (length oo). }
  eapply wp_lift; [apply (rank_scan_is s pl orders); [done|]|]. { intros p Hp%elem_of_seq. lia. }
  assert (pl_scan (seq 0 n) (pl_lists pl) (pl_targets pl)
            (if (pl_len (pl_lists pl) own =? 0)%nat then dbl_of_Z (-2) else dbl_of_Z 0) own = pl_victim pl own) as ->.
  { unfold pl_victim. by rewrite (plw_lists _ _ Hwf). }
  destruct (ipr_order _ _ _ _ Hr Hv) as [o Ho]. rewrite (ipr_pl_len _ _ _ _ _ Hr Ho) in Hlen.
  destruct (ipr_info_at _ _ _ _ _ Hr Ho) as (j & Hj & Hsj & _). destruct (ipr_lists _ _ _ Hr _ _ Ho) as (Hl & _).
  pose proof (ipr_small _ _ _ _ _ Hr Ho).
  wp_step. eapply wp_lift; [by apply at_ok|]. wp_step. wp_step; [apply Z.ltb_lt; lia|].
  wp_step. apply wp_ip_on_heap. unfold size. wp_step. eapply wp_get_list; [exact Hl|]. do 2 wp_step.
  wp_step; [cbn; rewrite u64_id by (unfold in_u64; lia); by apply Z.eqb_eq|]. wp_step. apply wp_ip_on_heap. unfold back.
  wp_step. eapply wp_get_list; [exact Hl|]. wp_step. cbn [il_tail].
  destruct o as [|id o _] using rev_ind; [simpl in Hlen; lia|]. rewrite final_snoc. wp_step. split; [by destruct s|eauto].
Qed.

(** The line [id], the last one of partition [v], goes to the front of [own]. *)
Section Miss.
Context (s : IdealPart Mon) (pl : PartLru) (orders : list (list nat)) (v own id : nat) (o o1 : list nat) (a : Address).
Context (Hr : ip_rel s pl orders) (Hown : (own < n)%nat) (Ho : orders !! v = Some (o ++ [id])).
Context (Ho1 : <[v := o]> orders !! own = Some o1) (Ha : a <> 0) (Hm : ip_lineMap s !! a = None).

Let orders2 : list (list nat) := <[own := id :: o1]> (<[v := o]> orders).
Let pl2 : PartLru := pl_update own (cons a) (pl_update v (fun l => take (pred (length l)) l) pl).
Let addrs2 : list Address := <[id := a]> (ip_lineAddrs s).

Lemma miss_nodup : NoDup (o ++ [id]).
Proof. by destruct (ipr_lists _ _ _ Hr _ _ Ho) as (_ & _ & Hnd). Qed.

Lemma miss_id : (id < N)%nat.
Proof using Hr Ho.
  assert (id ∈ o ++ [id]) as Hid%(ipr_in _ _ _ Hr _ _ _ Ho)%lookup_lt_Some by (apply elem_of_app; right; left).
  by rewrite (proj1 (ipr_len _ _ _ Hr)) in Hid.
Qed.

(** The line is nowhere else. *)
Lemma miss_gone q o' : <[v := o]> orders !! q = Some o' -> id ∉ o'.
Proof.
  intros Hq Hin. apply list_lookup_insert_Some in Hq as [(E1 & E2 & _)|[Hne Hq]].
  - subst o'. pose proof miss_nodup as (_ & Hd & _)%NoDup_app. apply (Hd id Hin). left.
  - apply Hne. eapply (lists_ok_one _ orders v q (o ++ [id]) o' id); [apply Hr|done|done|set_solver|done].
Qed.

(** Other lines stay where they are. *)
Lemma miss_others x q o2 : x <> id -> orders2 !! q = Some o2 -> exists o0, orders !! q = Some o0 /\ (x ∈ o2 <-> x ∈ o0).
Proof.
  intros Hx Hq. assert (forall q o', <[v := o]> orders !! q = Some o' -> exists o0, orders !! q = Some o0 /\ (x ∈ o' <-> x ∈ o0)) as H1.
  { intros q' o' Hq'. apply list_lookup_insert_Some in Hq' as [(E1 & E2 & _)|[Hne Hq']]; [subst q' o'|by exists o'].
    exists (o ++ [id]). split; [done|]. set_solver. }
  unfold orders2 in Hq. apply list_lookup_insert_Some in Hq as [(E1 & E2 & _)|[Hne Hq]]; [subst q o2|by apply H1].
  destruct (H1 _ _ Ho1) as (o0 & Ho0 & Hiff). exists o0. split; [done|]. set_solver.
Qed.

Lemma miss_addrs : pl_lists pl2 = map (fmap (addr_of addrs2)) orders2.
Proof.
  assert (map (fmap (addr_of addrs2)) (<[v := o]> orders) = map (fmap (addr_of (ip_lineAddrs s))) (<[v := o]> orders)) as E.
  { apply list_fmap_ext. intros q o' Hq. apply list_fmap_ext. intros k x Hx. unfold addr_of, addrs2.
    rewrite list_lookup_insert_ne; [done|]. intros <-. apply (miss_gone _ _ Hq). by eapply list_elem_of_lookup_2. }
  unfold pl2, pl_update, orders2. cbn [pl_lists].
  assert (alter (fun l => take (pred (length l)) l) v (pl_lists pl) = map (fmap (addr_of (ip_lineAddrs s))) (<[v := o]> orders)) as ->.
  { rewrite (alter_is_insert _ v _ _ (ipr_lookup_list _ _ _ _ _ Hr Ho)), (ipr_addrs _ _ _ Hr).
    change (map ?f (<[v := ?x]> orders)) with (f <$> <[v := x]> orders). rewrite list_fmap_insert. f_equal.
    rewrite length_fmap, length_app, Nat.add_comm, fmap_app. simpl.
    by rewrite take_app_length' by (by rewrite length_fmap). }
  rewrite <- E. rewrite (alter_is_insert _ own _ (addr_of addrs2 <$> o1)).
  2:{ change (map ?f (<[v := o]> orders)) with (f <$> <[v := o]> orders). by rewrite list_lookup_fmap, Ho1. }
  etransitivity; [|symmetry; apply list_fmap_insert]. f_equal.
  change (addr_of addrs2 <$> id :: o1) with (addr_of addrs2 id :: (addr_of addrs2 <$> o1)). f_equal.
  unfold addr_of, addrs2. rewrite list_lookup_insert_eq; [done|]. rewrite (proj2 (ipr_len _ _ _ Hr)). apply miss_id.
Qed.

Lemma miss_sizes : sizes_of orders2 = alter Z.succ own (alter Z.pred v (sizes_of orders)).
Proof.
  unfold orders2. rewrite sizes_insert. rewrite (alter_is_insert Z.pred v _ _ (sizes_lookup _ _ _ Ho)), <- Z.sub_1_r.
  replace (Z.of_nat (length (o ++ [id])) - 1) with (Z.of_nat (length o)) by (rewrite length_app; simpl; lia).
  rewrite <- (sizes_insert orders v o), (alter_is_insert Z.succ own _ _ (sizes_lookup _ _ _ Ho1)). f_equal. simpl. lia.
Qed.

Lemma ip_rel_miss h info m old : lists_ok h orders2 -> info_ok info (alter Z.succ own (alter Z.pred v (sizes_of orders))) (pl_targets pl) ->
  pm_sampling n m -> ip_lineAddrs s !! id = Some old ->
  ip_rel (mkIP h info (<[id := mkIE own true]> (ip_array s)) m addrs2 (<[a := id]> (delete old (ip_lineMap s)))) pl2 orders2.
Proof.
  intros Hh Hinfo Hmon Hold. destruct (ipr_len _ _ _ Hr) as [L1 L2]. pose proof miss_id as Hid. split; cbn.
  - done.
  - unfold orders2. rewrite !length_insert. apply Hr.
  - apply miss_addrs.
  - by rewrite miss_sizes.
  - apply Hr.
  - unfold addrs2. by rewrite !length_insert.
  - intros q o2 x Hq. destruct (decide (x = id)) as [E|Hx]; [subst x|].
    + rewrite list_lookup_insert_eq by lia. unfold orders2 in Hq.
      apply list_lookup_insert_Some in Hq as [(E1 & E2 & _)|[Hne Hq]]; [subst q o2; set_solver|].
      pose proof (miss_gone _ _ Hq). naive_solver.
    + rewrite list_lookup_insert_ne by done. destruct (miss_others x q o2 Hx Hq) as (o0 & Ho0 & ->). by apply (ipr_in _ _ _ Hr).
  - intros x e Hx. apply list_lookup_insert_Some in Hx as [(E1 & E2 & _)|[Hne Hx]]; [by subst e|by apply (ipr_entry _ _ _ Hr x)].
  - by apply line_map_replace; [apply Hr|..].
  - done.
Qed.
End Miss.

(** [update] of a line that was just replaced. *)
Lemma ip_update_miss s0 s pl orders v own id o a old :
  ip_rel s pl orders -> (own < n)%nat -> orders !! v = Some (o ++ [id]) -> a <> 0 -> pm_addr (Mon := Mon) a ->
  ip_lineMap s !! a = None -> ip_lineAddrs s !! id = Some old ->
  s0 = ip_set_array (<[id := mkIE v false]> (ip_array s))
         (ip_set_lines (<[id := a]> (ip_lineAddrs s)) (<[a := id]> (delete old (ip_lineMap s))) s) ->
  wp (ip_update id (Ok own) a)
    (fun _ s' => exists orders',
       ip_rel s' (pl_update own (cons a) (pl_update v (fun l => take (pred (length l)) l) pl)) orders') s0.
Proof.
  intros Hr Hown Ho Ha Hpa Hm Hold ->. pose proof (miss_id s pl orders v id o Hr Ho) as Hid.
  destruct (ipr_len _ _ _ Hr) as [L1 L2]. destruct (ipr_lists _ _ _ Hr _ _ Ho) as (_ & _ & Hnd).
  destruct (ipr_order _ _ _ own Hr Hown) as [oo Hoo].
  destruct (lookup_lt_is_Some_2 (<[v := o]> orders) own) as [o1 Ho1].
  { rewrite length_insert, (ipr_count _ _ _ Hr). done. }
  unfold ip_update. do 3 wp_step. cbn [ip_array ip_set_array]. eapply wp_lift; [apply at_ok, list_lookup_insert_eq; lia|].
  cbn [ie_used ie_p]. do 2 wp_step. eapply wp_lift; [done|]. wp_step. apply wp_ip_on_info. cbn [ip_partInfo ip_set_array ip_set_lines].
  eapply wp_mono; [apply (ip_account_ok v own _ _ _ _ (ipr_info _ _ _ Hr) (sizes_lookup _ _ _ Ho))|].
  { by rewrite (sizes_lookup _ _ _ Hoo). }
  { intros p y Hy. apply list_lookup_fmap_Some in Hy as (o' & -> & Ho'). pose proof (ipr_small _ _ _ _ _ Hr Ho'). lia. }
  { rewrite length_app. simpl. lia. }
  intros [] info Hinfo. wp_step. apply wp_ip_on_heap. wp_step. cbn [ip_heap ip_set_info ip_set_array ip_set_lines].
  eapply wp_mono; [apply (lists_remove _ orders v (o ++ [id]) id); [apply Hr|done|set_solver]|]. intros [] h1 (H1 & Hf).
  rewrite (filter_without o [] id Hnd), app_nil_r in H1.
  eapply wp_mono; [by eapply (lists_push_front h1 _ own o1 id)|]. intros [] h2 H2.
  wp_step. eapply wp_lift; [apply set_at_ok; cbn; rewrite length_insert; lia|]. do 3 wp_step. cbn [ip_array ip_set_array ip_set_heap ip_set_info].
  rewrite list_insert_insert_eq. wp_step. cbn [ip_monitor ip_set_array ip_set_heap ip_set_info ip_set_lines]. eapply wp_mono; [apply (pm_access_ok n _ own a); [apply Hr|done|done]|].
  intros [] m Hmon. eexists. by apply (ip_rel_miss s pl orders v own id o o1 a Hr Hown Ho Ho1 Ha Hm h2 info m old).
Qed.

Lemma ip_access_ok s pl orders own a : ip_rel s pl orders -> (own < n)%nat -> a <> 0 -> pm_addr (Mon := Mon) a ->
  wp (ip_access P (Ok own) a)
    (fun r s' => r = (pl_access pl own a).1 /\ exists orders', ip_rel s' (pl_access pl own a).2 orders') s.
Proof.
  intros Hr Hown Ha Hpa. pose proof (ipr_find _ _ _ a Hr Ha) as Hfind. pose proof (plw_lists _ _ (ipr_wf _ _ _ Hr)) as Hl.
  unfold ip_access, ip_lookup, pl_access. rewrite Hl. do 3 wp_step. destruct (ip_lineMap s !! a) as [id|] eqn:Em.
  - destruct Hfind as (p & o & He & Ho & Hid & Hp & Hx & ->). rewrite (proj2 (Nat.ltb_lt _ _) Hp). cbn [fst snd].
    wp_step. apply wp_when; [intros _|done]. eapply wp_mono; [by apply (ip_update_hit s pl orders p o id a)|].
    intros [] s' Hs'. do 2 wp_step. done.
  - rewrite Hfind, Nat.ltb_irrefl. cbn [fst snd]. do 2 wp_step. unfold ip_preinsert. wp_step.
    eapply wp_mono; [by apply (ip_rank_ok s pl orders own)|]. intros id s' (-> & o & Ho).
    pose proof (miss_id s pl orders _ id o Hr Ho) as Hid. destruct (ipr_len _ _ _ Hr) as [L1 L2].
    destruct (ipr_home _ _ _ id Hr Hid) as (p & o' & He & Ho' & Hin & Hp & Hx).
    assert (p = pl_victim pl own) as ->.
    { eapply (lists_ok_one _ orders p _ o' (o ++ [id]) id); [apply Hr|done|done|done|set_solver]. }
    do 3 wp_step. eapply wp_lift; [by apply at_ok|]. wp_step. cbv iota. unfold ip_postinsert. do 4 wp_step.
    eapply wp_lift; [by apply at_ok|]. wp_step. wp_step; [apply bool_decide_eq_true_2; by apply lookup_delete_None; right|].
    wp_step. eapply wp_lift; [apply set_at_ok; lia|]. do 2 wp_step. unfold ip_replaced. do 4 wp_step.
    eapply wp_lift; [by apply at_ok|]. wp_step. eapply wp_lift; [apply set_at_ok; cbn; lia|]. wp_step. cbn [ie_p].
    eapply wp_mono; [eapply (ip_update_miss _ s pl orders _ own id o a); done|]. intros [] s' Hs'. wp_step. split; [|done].
    f_equal. rewrite (ipr_lookup_list _ _ _ _ _ Hr Ho). simpl. by rewrite fmap_last, last_snoc.
Qed.

(** ** Resizing *)

Lemma info_target_ok p t info sizes targets : info_ok info sizes targets -> is_Some (sizes !! p) ->
  wp (info_upd p (pi_set_target t)) (fun _ info' => info_ok info' sizes (<[p := t]> targets)) info.
Proof.
  intros Hok [z Hz]. destruct (Hok _ _ Hz) as (i & Hi & Hs & Hti). unfold info_upd. do 3 wp_step.
  eapply wp_lift; [by apply at_ok|]. wp_step. eapply wp_lift; [apply set_at_ok; by eapply lookup_lt_Some|]. wp_step.
  intros q y Hq. destruct (decide (q = p)) as [->|Hne].
  - exists (pi_set_target t i). rewrite !list_lookup_insert_eq by (by eapply lookup_lt_Some). split_and!; [done|cbn; congruence|done].
  - rewrite !list_lookup_insert_ne by done. by apply Hok.
Qed.

(** The first [k] values of [new] and the others of [old]. *)
Lemma overlay_step (new old : list Z) k t : length new = length old -> new !! k = Some t ->
  <[k := t]> (take k new ++ drop k old) = take (S k) new ++ drop (S k) old.
Proof.
  intros Hl Hk. assert (k < length new)%nat as Hlt by (by eapply lookup_lt_Some).
  destruct (lookup_lt_is_Some_2 old k) as [x Hx]; [lia|]. rewrite (take_S_r _ _ _ Hk), (drop_S _ _ _ Hx), <- app_assoc.
  rewrite insert_app_r_alt; [|rewrite length_take; lia].
  rewrite length_take, Nat.min_l, Nat.sub_diag by lia. done.
Qed.

Context (HB : 0 < ipp_numBuckets P) (HBN : ipp_numBuckets P * Z.of_nat N < 2 ^ 32).

Definition step_ok (st : IPStep) : Prop :=
  match st with
  | IPAccess own a => (own < n)%nat /\ a <> 0 /\ pm_addr (Mon := Mon) a
  | IPResize sizes => (n <= length sizes)%nat /\ Forall (fun sz => 0 <= sz <= ipp_numBuckets P) (take n sizes)
  end.

Lemma target_of_size sz : 0 <= sz <= ipp_numBuckets P ->
  udiv (u32 (sz * Z.of_nat N)) (ipp_numBuckets P) = Ok (sz * Z.of_nat N / ipp_numBuckets P) /\
  0 <= sz * Z.of_nat N / ipp_numBuckets P < 2 ^ 31.
Proof.
  intros Hsz. rewrite u32_id by (unfold in_u32; nia). unfold udiv. rewrite (proj2 (Z.eqb_neq _ _)) by lia. split; [done|].
  split; [apply Z.div_pos; nia|]. apply Z.div_lt_upper_bound; nia.
Qed.

Lemma ip_resize_ok s pl orders sizes : ip_rel s pl orders -> step_ok (IPResize sizes) ->
  wp (ip_setPartitionSizes P sizes) (fun _ s' => ip_rel s' (pl_resize P sizes pl) orders) s.
Proof.
  intros Hr [Hlen Hsz]. set (new := (fun sz => sz * Z.of_nat N / ipp_numBuckets P) <$> take n sizes).
  assert (length new = n) as Hnew by (unfold new; rewrite length_fmap, length_take; lia).
  destruct (ipr_targets _ _ _ Hr) as [Ht _]. unfold ip_setPartitionSizes.
  apply (wp_forM _ _ (fun pre s' => exists info, s' = ip_set_info info s /\
    info_ok info (sizes_of orders) (take (length pre) new ++ drop (length pre) (pl_targets pl)))).
  - exists (ip_partInfo s). split; [by destruct s|]. simpl. rewrite drop_0. apply Hr.
  - intros pre p post s' Hpre (info & -> & Hinfo).
    assert (seq 0 n !! length pre = Some p) as Hp by (rewrite Hpre; by apply list_lookup_middle).
    apply lookup_seq in Hp as [-> Hp]. simpl.
    destruct (lookup_lt_is_Some_2 sizes (length pre)) as [sz Hs]; [lia|].
    assert (take n sizes !! length pre = Some sz) as Hs' by (by rewrite lookup_take_lt).
    destruct (target_of_size sz) as [Et _]; [exact (proj1 (Forall_lookup _ _) Hsz _ _ Hs')|].
    wp_step. eapply wp_lift; [by apply at_ok|]. wp_step. eapply wp_lift; [exact Et|]. apply wp_ip_on_info.
    destruct (ipr_order _ _ _ (length pre) Hr Hp) as [o Ho].
    eapply wp_mono; [apply (info_target_ok (length pre) _ _ _ _ Hinfo); by rewrite (sizes_lookup _ _ _ Ho)|].
    intros [] info' Hinfo'. exists info'. split; [done|]. rewrite length_app. simpl. rewrite Nat.add_1_r.
    rewrite <- (overlay_step new (pl_targets pl) (length pre) (sz * Z.of_nat N / ipp_numBuckets P)); [done|congruence|].
    unfold new. by rewrite list_lookup_fmap, Hs'.
  - intros s' (info & -> & Hinfo). rewrite length_seq, take_ge, drop_ge, app_nil_r in Hinfo by lia.
    split; cbn; try apply Hr; [done|]. split; [done|]. apply Forall_fmap. eapply Forall_impl; [exact Hsz|].
    intros sz Hsz'. by apply target_of_size.
Qed.

(** ** Histories *)

Fixpoint pl_state (pl : PartLru) (steps : list IPStep) : PartLru :=
  match steps with
  | [] => pl
  | IPAccess own a :: steps' => pl_state (pl_access pl own a).2 steps'
  | IPResize sizes :: steps' => pl_state (pl_resize P sizes pl) steps'
  end.

Lemma ip_run_ok steps : forall s pl orders, ip_rel s pl orders -> Forall step_ok steps ->
  wp (ip_run P steps) (fun os s' => os = pl_run P pl steps /\ exists orders', ip_rel s' (pl_state pl steps) orders') s.
Proof.
  induction steps as [|st steps IH]; intros s pl orders Hr Hst; cbn [ip_run pl_run pl_state]; [wp_step; eauto|].
  apply Forall_cons_1 in Hst as [Hs Hst]. destruct st as [own a|sizes].
  - destruct Hs as (Hown & Ha & Hpa). wp_step. eapply wp_mono; [by eapply ip_access_ok|].
    intros r s1 (-> & orders1 & Hr1). wp_step. eapply wp_mono; [by eapply IH|]. intros os s2 (-> & Hr2). by wp_step.
  - wp_step. eapply wp_mono; [by eapply ip_resize_ok|]. intros [] s1 Hr1. by eapply IH.
Qed.
End Refinement.

(** ** The constructor *)

Section New.
Context {Mon : Type} `{MonitorAccess Mon} (n N : nat) (B : Z) (m : Mon).
Context (Hn : (0 < n)%nat) (HN : 0 < Z.of_nat N < 2 ^ 31) (Hm : pm_sampling n m).

Let T : Z := Z.of_nat N / Z.of_nat n.

(** The first [k] partitions. *)
Lemma init_first_ok (s : IdealPart Mon) k : (k <= length (ip_partInfo s))%nat ->
  wp (forM (seq 0 k) (ip_init_part n N))
    (fun _ s' => exists h info, s' = ip_set_info info (ip_set_heap h s) /\ length info = length (ip_partInfo s) /\
       forall p, (p < k)%nat ->
         ih_lists h !! p = Some InList_new /\ exists i, info !! p = Some i /\ pi_size i = 0 /\ pi_targetSize i = T) s.
Proof using Hn.
  clear HN Hm. intros Hk. apply (wp_forM _ _ (fun pre s' => exists h info, s' = ip_set_info info (ip_set_heap h s) /\
    length info = length (ip_partInfo s) /\ forall p, (p < length pre)%nat ->
      ih_lists h !! p = Some InList_new /\ exists i, info !! p = Some i /\ pi_size i = 0 /\ pi_targetSize i = T)).
  - exists (ip_heap s), (ip_partInfo s). split_and!; [by destruct s|done|]. simpl. lia.
  - intros pre p post s' Hpre (h & info & -> & Hl & Hdone).
    assert (seq 0 k !! length pre = Some p) as Hp by (rewrite Hpre; by apply list_lookup_middle).
    apply lookup_seq in Hp as [-> Hp]. simpl.
    destruct (lookup_lt_is_Some_2 info (length pre)) as [i Hip]; [lia|].
    unfold ip_init_part. wp_step. eapply wp_lift.
    { unfold udiv. rewrite (proj2 (Z.eqb_neq _ _)) by lia. reflexivity. }
    wp_step. unfold ip_on_heap. wp_step. apply wp_put_list. unfold ip_on_info, info_upd. wp_step. cbn.
    do 3 wp_step. eapply wp_lift; [by apply at_ok|]. wp_step. eapply wp_lift; [apply set_at_ok; lia|]. wp_step.
    eexists _, _. split; [reflexivity|]. split; [by rewrite length_insert|]. intros q Hq. rewrite length_app in Hq. simpl in Hq.
    destruct (decide (q = length pre)) as [->|Hne].
    + cbn [ih_lists]. rewrite lookup_insert_eq, list_lookup_insert_eq by lia. split; [done|]. eexists. split; [done|]. done.
    + cbn [ih_lists]. rewrite lookup_insert_ne, list_lookup_insert_ne by done. apply Hdone. lia.
  - intros s' (h & info & -> & Hl & Hdone). rewrite length_seq in Hdone. by exists h, info.
Qed.

Lemma init_parts_ok (s : IdealPart Mon) : length (ip_partInfo s) = n ->
  wp (forM (seq 0 n) (ip_init_part n N))
    (fun _ s' => exists h info, s' = ip_set_info info (ip_set_heap h s) /\ lists_ok h (replicate n []) /\
       info_ok info (replicate n 0) (replicate n T)) s.
Proof.
  intros Hi. eapply wp_mono; [apply init_first_ok; lia|]. intros [] s' (h & info & -> & Hl & Hdone).
  exists h, info. split; [done|]. split.
  - intros q l [-> Hq]%lookup_replicate_1. destruct (Hdone q) as [Hd _]; [lia|]. split_and!; [done|done|constructor].
  - intros q z [-> Hq]%lookup_replicate_1. destruct (Hdone q) as [_ (i & Hi' & Hs & Ht)]; [lia|].
    exists i. split_and!; [done|done|]. rewrite Ht. by apply lookup_replicate_2.
Qed.

Lemma init_lines_ok (s : IdealPart Mon) : lists_ok (ip_heap s) (replicate n []) -> info_ok (ip_partInfo s) (replicate n 0) (replicate n T) ->
  wp (forM (seq 0 N) ip_init_line)
    (fun _ s' => exists h info, s' = ip_set_info info (ip_set_heap h s) /\
       lists_ok h (reverse (seq 0 N) :: replicate (pred n) []) /\
       info_ok info (Z.of_nat N :: replicate (pred n) 0) (replicate n T)) s.
Proof.
  intros Hh Hi. apply (wp_forM _ _ (fun pre s' => exists h info, s' = ip_set_info info (ip_set_heap h s) /\
    lists_ok h (reverse pre :: replicate (pred n) []) /\
    info_ok info (Z.of_nat (length pre) :: replicate (pred n) 0) (replicate n T))).
  - exists (ip_heap s), (ip_partInfo s). split; [by destruct s|].
    change (reverse (@nil nat)) with (@nil nat). simpl Z.of_nat. rewrite <- !replicate_S.
    by replace (S (pred n)) with n by lia.
  - intros pre i post s' Hpre (h & info & -> & Hl & Hok).
    assert (i ∉ pre) as Hip.
    { pose proof (NoDup_seq 0 N) as Hnd. rewrite Hpre in Hnd. apply NoDup_app in Hnd as (_ & Hd & _).
      intros Hin. apply (Hd i Hin). left. }
    assert (length pre < N)%nat as Hlt.
    { rewrite <- (length_seq N 0), Hpre, length_app. simpl. lia. }
    unfold ip_init_line. wp_step. unfold ip_on_heap. wp_step. wp_step. unfold put_node. wp_step. cbn [ip_heap ip_set_info ip_set_heap].
    eapply wp_mono; [eapply (lists_push_front _ _ 0%nat (reverse pre) i)|].
    { intros q l Hq. apply (list_ok_ext h); [done| |by apply Hl]. intros x Hx. apply lookup_insert_ne. intros ->.
      destruct q as [|q]; simpl in Hq; [simplify_eq; by rewrite elem_of_reverse in Hx|].
      apply lookup_replicate_1 in Hq as [-> _]. by apply elem_of_nil in Hx. }
    { done. }
    { apply lookup_insert_eq. }
    intros [] h' Hh'. unfold ip_on_info. wp_step. cbn [ip_partInfo ip_set_info ip_set_heap].
    eapply wp_mono; [apply (info_upd_ok 0 _ (fun x => u64 (x + 1)) _ _ _ (Z.of_nat (length pre)) Hok); done|].
    intros [] info' Hinfo. exists h', info'. split; [done|]. rewrite reverse_snoc, length_app. split; [done|].
    rewrite u64_id in Hinfo by (unfold in_u64; lia). simpl in Hinfo |- *. by replace (Z.of_nat (length pre + 1)) with (Z.of_nat (length pre) + 1) by lia.
  - intros s' (h & info & -> & Hl & Hok). rewrite length_seq in Hok. by exists h, info.
Qed.

(** The constructors, with the loop stopped at the end of [partInfo]. *)
Lemma ip_construct_ok : exists s orders, ip_construct n n N m = Ok s /\ ip_rel (mkIPP n N B) s (pl_new n N) orders.
Proof.
  unfold ip_construct. set (s0 := mkIP _ _ _ _ _ _).
  assert (wp (forM (seq 0 n) (ip_init_part n N) ;; forM (seq 0 N) ip_init_line)
    (fun _ s' => exists orders, ip_rel (mkIPP n N B) s' (pl_new n N) orders) s0) as Hwp.
  { wp_step. eapply wp_mono; [apply init_parts_ok, length_replicate|]. intros [] s1 (h & info & -> & Hl & Hi).
    eapply wp_mono; [by apply init_lines_ok|]. intros [] s2 (h2 & info2 & -> & Hl2 & Hi2).
    exists (reverse (seq 0 N) :: replicate (pred n) []). split; cbn.
    - done.
    - rewrite length_replicate. lia.
    - f_equal.
      + symmetry. etransitivity; [apply fmap_zeros|by rewrite length_reverse, length_seq].
        intros id. unfold addr_of. destruct (replicate N 0 !! id) as [x|] eqn:E; [|done]. by apply lookup_replicate_1 in E as [-> _].
      + change (map ?f (replicate (pred n) [])) with (f <$> replicate (pred n) []). by rewrite fmap_replicate.
    - by rewrite fmap_replicate, length_reverse, length_seq.
    - rewrite length_replicate. split; [done|]. apply Forall_replicate. fold T.
      split; [apply Z.div_pos; lia|]. apply Z.div_lt_upper_bound; nia.
    - by rewrite !length_replicate.
    - intros p o id Hp. destruct p as [|p]; simpl in Hp.
      + simplify_eq. rewrite elem_of_reverse, elem_of_seq, lookup_replicate. naive_solver lia.
      + apply lookup_replicate_1 in Hp as [-> _]. rewrite lookup_replicate. set_solver.
    - intros id e [-> _]%lookup_replicate_1. done.
    - intros a id. rewrite lookup_empty. split; [done|]. intros [Ha [? _]%lookup_replicate_1]. done.
    - done. }
  destruct (wp_ok _ _ _ Hwp) as ([] & s & E & orders & Hr). exists s, orders. split; [|done]. by rewrite E.
Qed.
End New.

(** The constructor writes behind the end of [partInfo]. *)
Lemma ideal_part_overruns {Mon} `{PartitionMonitor Mon} (m : Mon) n N : (0 < n)%nat -> IdealPart_new n N m = Err OutOfRange.
Proof.
  intros Hn. unfold IdealPart_new, ip_construct. set (s0 := mkIP _ _ _ _ _ _).
  destruct (wp_ok _ _ _ (init_first_ok n N Hn s0 n ltac:(cbn; rewrite length_replicate; lia))) as ([] & s1 & E & h & info & -> & Hl & _).
  cbn in Hl. rewrite length_replicate in Hl.
  unfold bind at 1. rewrite seq_S, forM_app. unfold bind at 1. rewrite E. cbn [forM].
  assert (at_ info (0 + n) = Err OutOfRange) as Ea by (unfold at_; by rewrite lookup_ge_None_2 by (simpl; lia)).
  assert (udiv (Z.of_nat N) (Z.of_nat n) = Ok (Z.of_nat N / Z.of_nat n)) as Ed.
  { unfold udiv. by rewrite (proj2 (Z.eqb_neq (Z.of_nat n) 0)) by lia. }
  unfold ip_init_part. rewrite Ed.
  unfold bind, lift, ip_on_heap, ip_on_info, zoom, put_list, modify, info_upd, get. cbn [ip_partInfo ip_set_info ip_set_heap].
  unfold bind, lift. by rewrite Ea.
Qed.


Definition demo_part : IPParams := mkIPP 2 4 4.
Definition demo_history : list IPStep :=
  [IPAccess 0 5; IPAccess 1 6; IPAccess 1 7; IPAccess 0 8; IPResize [3; 1]; IPAccess 1 9; IPAccess 0 5; IPAccess 1 6].

