(* ===== verification/Coherence.v ===== *)
(** * Coherent caches
    ([src/src/coherence_ctrls.h], [coherence_ctrls.cpp], [cache.h], [cache.cpp])

    A hierarchy is one state: the caches refer to each other by their number,
    so a parent that invalidates a child, and a child whose line state is
    written through the [MESIState*] of its request, act on the same store as
    in the program.  Calls between caches go up ([access]) and down
    ([invalidate]); both are recursions along the tree, bounded by a fuel. *)

From stdpp Require Import base list gmap strings.
From Stdlib Require Import ZArith Lia.
From S2P Require Import Prelude Numeric MemHierarchy DdrBound ReplPolicy CacheArray.
Local Open Scope Z_scope.

(** ** Data *)

(** [MESITopCC::Entry]; the bit set of sharers is a set of child ids. *)
Record Entry := mkEntry { e_numSharers : Z; e_sharers : gset nat; e_exclusive : bool }.

Definition entry_clear : Entry := mkEntry 0 ∅ false.
Definition entry_isEmpty (e : Entry) : bool := e_numSharers e =? 0.
Definition entry_isExclusive (e : Entry) : bool := (e_numSharers e =? 1) && e_exclusive e.

Definition add_sharer (c : nat) (e : Entry) : Entry :=
  mkEntry (e_numSharers e) ({[c]} ∪ e_sharers e) (e_exclusive e).
Definition del_sharer (c : nat) (e : Entry) : Entry :=
  mkEntry (e_numSharers e) (e_sharers e ∖ {[c]}) (e_exclusive e).
Definition set_numSharers (n : Z) (e : Entry) : Entry := mkEntry n (e_sharers e) (e_exclusive e).
Definition set_exclusive (b : bool) (e : Entry) : Entry := mkEntry (e_numSharers e) (e_sharers e) b.

(** The profiling counters of [MESIBottomCC]. *)
Inductive BccCtr :=
| profGETSHit | profGETSMiss | profGETXHit | profGETXMissIM | profGETXMissSM
| profPUTS | profPUTX | profINV | profINVX | profFWD | profGETNextLevelLat | profGETNetLat.
#[export] Instance BccCtr_eq_dec : EqDecision BccCtr.
Proof. solve_decision. Defined.

(** The parent of a cache: another cache or a memory. *)
Inductive Parent := ToCache (p : nat) | ToMem (m : nat).
#[export] Instance Parent_eq_dec : EqDecision Parent.
Proof. solve_decision. Defined.

(** The constant fields of a cache, of its array and of its controllers. *)
Record Node := mkNode {
  n_terminal : bool;
  n_array : ArrayParams;
  n_accLat : Z;
  n_invLat : Z;
  n_selfId : nat;
  n_parents : list Parent;
  n_parentRTTs : list Z;
  n_children : list nat;
  n_childrenRTTs : list Z;
  n_nonInclusiveHack : bool
}.

(** The mutable fields: the array with its policy, the states of
    [MESIBottomCC], the directory of [MESITopCC] (absent in a terminal cache),
    the two locks and the counters. *)
Record CacheSt (R : Type) := mkCache {
  ca_sa : SetAssoc R;
  ca_bcc : list MESIState;
  ca_tcc : list Entry;
  ca_bccLock : bool;
  ca_tccLock : bool;
  ca_prof : BccCtr -> Z
}.
Arguments mkCache {R} _ _ _ _ _ _.
Arguments ca_sa {R} _.
Arguments ca_bcc {R} _.
Arguments ca_tcc {R} _.
Arguments ca_bccLock {R} _.
Arguments ca_tccLock {R} _.
Arguments ca_prof {R} _.

Definition set_sa {R} (x : SetAssoc R) (c : CacheSt R) : CacheSt R :=
  mkCache x (ca_bcc c) (ca_tcc c) (ca_bccLock c) (ca_tccLock c) (ca_prof c).
Definition set_bcc {R} (x : list MESIState) (c : CacheSt R) : CacheSt R :=
  mkCache (ca_sa c) x (ca_tcc c) (ca_bccLock c) (ca_tccLock c) (ca_prof c).
Definition set_tcc {R} (x : list Entry) (c : CacheSt R) : CacheSt R :=
  mkCache (ca_sa c) (ca_bcc c) x (ca_bccLock c) (ca_tccLock c) (ca_prof c).
Definition set_locks {R} (b t : bool) (c : CacheSt R) : CacheSt R :=
  mkCache (ca_sa c) (ca_bcc c) (ca_tcc c) b t (ca_prof c).
Definition set_prof {R} (x : BccCtr -> Z) (c : CacheSt R) : CacheSt R :=
  mkCache (ca_sa c) (ca_bcc c) (ca_tcc c) (ca_bccLock c) (ca_tccLock c) x.

(** The target of a [MESIState*]: the state of a line of a cache, or the local
    variable of the core that issued the access. *)
Inductive StatePtr := CoreState | LineState (cache line : nat).

(** [MemReq] with its pointers: [cq_state], and [cq_childLock] that names the
    cache whose [bcc] lock is passed. *)
Record CReq := mkCReq {
  cq_lineAddr : Address;
  cq_type : AccessType;
  cq_childId : nat;
  cq_state : StatePtr;
  cq_cycle : Z;
  cq_childLock : option nat;
  cq_initialState : MESIState;
  cq_srcId : Z;
  cq_flags : Z
}.

Definition cq_set_type (t : AccessType) (r : CReq) : CReq :=
  mkCReq (cq_lineAddr r) t (cq_childId r) (cq_state r) (cq_cycle r) (cq_childLock r)
    (cq_initialState r) (cq_srcId r) (cq_flags r).

(** [InvReq]; [iq_writeback] is the value behind the [bool*], and the callee
    returns its final value. *)
Record InvReq := mkInvReq {
  iq_lineAddr : Address;
  iq_type : InvType;
  iq_writeback : bool;
  iq_cycle : Z;
  iq_srcId : Z
}.

(** ** The memories at the top, and the event recorders *)
Record Recs := mkRecs { rc_events : Arena; rc_records : gmap Z TimingRecord }.

Class MemTop (D : Type) := {
  top_access : nat -> MemReq -> M D (MESIState * Z);
  top_recs : D -> Recs;
  top_set_recs : Recs -> D -> D
}.

(** ** The filter of a core's cache ([src/src/filter_cache.h])

    [FilterEntry], and the [filterArray] of every cache (empty in a cache that
    is no [FilterCache]) with the process's [procMask]. *)
Record FilterEntry := mkFE { fe_rdAddr : Address; fe_wrAddr : Address; fe_availCycle : Z }.
Record Filters := mkFl { fl_procMask : Address; fl_arrays : list (list FilterEntry) }.

(** [lineAddr & setMask] *)
Definition filter_index (arr : list FilterEntry) (lineAddr : Address) : nat :=
  Z.to_nat (Z.land lineAddr (Z.of_nat (length arr) - 1)).

(** [-1L] as an address *)
Definition no_addr : Address := 2 ^ 64 - 1.

(** What [FilterCache::invalidate] does to the filter of cache [i]. *)
Definition filter_inval (i : nat) (lineAddr : Address) (fl : Filters) : Filters :=
  match fl_arrays fl !! i with
  | None => fl
  | Some arr =>
      let idx := filter_index arr lineAddr in
      match arr !! idx with
      | None => fl
      | Some e =>
          if Z.lor (fe_rdAddr e) (fl_procMask fl) =? lineAddr then
            mkFl (fl_procMask fl)
              (<[i := <[idx := mkFE no_addr no_addr (fe_availCycle e)]> arr]> (fl_arrays fl))
          else fl
      end
  end.

Record Hier (R D : Type) := mkHier {
  h_caches : list (CacheSt R);
  h_mem : D;
  h_core : MESIState;         (** the core's state variable *)
  h_filters : Filters
}.
Arguments mkHier {R D} _ _ _ _.
Arguments h_filters {R D} _.
Arguments h_caches {R D} _.
Arguments h_mem {R D} _.
Arguments h_core {R D} _.

Section Hierarchy.
Context {R D : Type} `{RP : ReplPolicy R} `{MT : MemTop D}.
Context (nodes : list Node).

Abbreviation HS := (Hier R D).

(** ** Access to the store *)
Definition node (i : nat) : M HS Node := lift (at_ nodes i).
Definition get_cache (i : nat) : M HS (CacheSt R) := h <- get ;; lift (at_ (h_caches h) i).
Definition mod_cache (i : nat) (f : CacheSt R -> CacheSt R) : M HS unit :=
  modify (fun h => mkHier (alter f i (h_caches h)) (h_mem h) (h_core h) (h_filters h)).

Definition on_array {A} (i : nat) (m : M (SetAssoc R) A) : M HS A :=
  c <- get_cache i ;;
  let! (a, s) := lift (m (ca_sa c)) in mod_cache i (set_sa s) ;; ret a.
Definition on_mem {A} (m : M D A) : M HS A :=
  zoom h_mem (fun d h => mkHier (h_caches h) d (h_core h) (h_filters h)) m.

Definition get_state (i l : nat) : M HS MESIState := c <- get_cache i ;; lift (at_ (ca_bcc c) l).
Definition put_state (i l : nat) (s : MESIState) : M HS unit :=
  mod_cache i (fun c => set_bcc (<[l := s]> (ca_bcc c)) c).
Definition get_entry (i l : nat) : M HS Entry := c <- get_cache i ;; lift (at_ (ca_tcc c) l).
Definition put_entry (i l : nat) (e : Entry) : M HS unit :=
  mod_cache i (fun c => set_tcc (<[l := e]> (ca_tcc c)) c).

(** Reads and writes through a [MESIState*]. *)
Definition deref (p : StatePtr) : M HS MESIState :=
  match p with
  | CoreState => gets h_core
  | LineState i l => get_state i l
  end.
Definition assign (p : StatePtr) (s : MESIState) : M HS unit :=
  match p with
  | CoreState => modify (fun h => mkHier (h_caches h) (h_mem h) s (h_filters h))
  | LineState i l => put_state i l s
  end.

Definition prof_inc (i : nat) (k : BccCtr) (n : Z) : M HS unit :=
  mod_cache i (fun c => set_prof
    (fun k' => if bool_decide (k' = k) then u64 (ca_prof c k + n) else ca_prof c k') c).

(** [futex_lock] and [futex_unlock] of one thread: a lock that is already held
    is never released. *)
Definition lock_bcc (i : nat) : M HS unit :=
  c <- get_cache i ;;
  if (ca_bccLock c : bool) then fail Deadlock
  else mod_cache i (fun c => set_locks true (ca_tccLock c) c).
Definition unlock_bcc (i : nat) : M HS unit :=
  mod_cache i (fun c => set_locks false (ca_tccLock c) c).
Definition lock_tcc (i : nat) : M HS unit :=
  c <- get_cache i ;;
  if (ca_tccLock c : bool) then fail Deadlock
  else mod_cache i (fun c => set_locks (ca_bccLock c) true c).
Definition unlock_tcc (i : nat) : M HS unit :=
  mod_cache i (fun c => set_locks (ca_bccLock c) false c).

Definition on_child_lock (r : CReq) (f : nat -> M HS unit) : M HS unit :=
  match cq_childLock r with Some i => f i | None => ret tt end.

(** What the replacement policy of cache [i] can ask its controller. *)
Definition cc_numSharers (nd : Node) (c : CacheSt R) (l : nat) : res Z :=
  if n_terminal nd then Ok 0
  else match at_ (ca_tcc c) l with Ok e => Ok (e_numSharers e) | Err e => Err e end.
Definition cc_isValid (c : CacheSt R) (l : nat) : res bool :=
  match at_ (ca_bcc c) l with Ok s => Ok (bool_decide (s <> MESI.I)) | Err e => Err e end.
Definition cc_view (nd : Node) (c : CacheSt R) : CCView :=
  mkView (cc_numSharers nd c) (cc_isValid c).

(** ** [MESIBottomCC] *)
Section Bottom.
(** [parents\[p\]->access(req)] of a parent that is a cache. *)
Context (up : nat -> CReq -> M HS Z).

(** The loop of [getParentId]. *)
Fixpoint xor_fold (k : nat) (tmp acc : Z) : Z :=
  match k with
  | O => acc
  | S k => xor_fold k (Z.shiftr tmp 16) (Z.lxor acc (Z.land 65535 tmp))
  end.
Definition getParentId (lineAddr : Address) (nparents : nat) : res nat :=
  match umod (xor_fold 4 lineAddr 0) (Z.of_nat nparents) with
  | Ok r => Ok (Z.to_nat r)
  | Err e => Err e
  end.

Definition mem_req (r : CReq) (st : MESIState) : MemReq :=
  mkMemReq (cq_lineAddr r) (cq_type r) (Z.of_nat (cq_childId r)) st (cq_cycle r)
    (cq_initialState r) (cq_srcId r) (cq_flags r).

(** [parents\[getParentId(lineAddr)\]->access(req)] *)
Definition parent_access (i : nat) (req : CReq) : M HS Z :=
  nd <- node i ;;
  pid <- lift (getParentId (cq_lineAddr req) (length (n_parents nd))) ;;
  p <- lift (at_ (n_parents nd) pid) ;;
  match p with
  | ToCache p => up p req
  | ToMem m =>
      st <- deref (cq_state req) ;;
      let! (st', c) := on_mem (top_access m (mem_req req st)) in
      assign (cq_state req) st' ;; ret c
  end.

Definition bcc_isExclusive (i l : nat) : M HS bool :=
  s <- get_state i l ;; ret (bool_decide (s = MESI.E) || bool_decide (s = MESI.M)).
Definition bcc_isValid (i l : nat) : M HS bool :=
  s <- get_state i l ;; ret (bool_decide (s <> MESI.I)).

(** A request of cache [i] for its own line [l]:
    [{lineAddr, type, selfId, state, cycle, &ccLock, *state, srcId, flags}]. *)
Definition own_req (i l : nat) (lineAddr : Address) (t : AccessType) (cycle srcId flags : Z)
    : M HS CReq :=
  nd <- node i ;;
  s <- get_state i l ;;
  ret (mkCReq lineAddr t (n_selfId nd) (LineState i l) cycle (Some i) s srcId flags).

Definition bcc_processEviction (i : nat) (wbLineAddr : Address) (l : nat) (lowerLevelWriteback : bool)
    (cycle srcId : Z) : M HS Z :=
  when lowerLevelWriteback
    (s <- get_state i l ;;
     assert_ "coherence_ctrls.cpp:62" (bool_decide (s = MESI.M) || bool_decide (s = MESI.E)) ;;
     put_state i l MESI.M) ;;
  s <- get_state i l ;;
  respCycle <- (match s with
                | MESI.I => ret cycle
                | MESI.S | MESI.E =>
                    req <- own_req i l wbLineAddr PUTS cycle srcId 0 ;; parent_access i req
                | MESI.M =>
                    req <- own_req i l wbLineAddr PUTX cycle srcId 0 ;; parent_access i req
                end) ;;
  s <- get_state i l ;;
  assert_ "coherence_ctrls.cpp:87" (bool_decide (s = MESI.I)) ;;
  ret respCycle.

(** A miss of [processAccess]: the latency of the next level and of the
    network, both 32 bits wide. *)
Definition bcc_fetch (i l : nat) (lineAddr : Address) (t : AccessType) (cycle srcId flags : Z)
    : M HS Z :=
  nd <- node i ;;
  pid <- lift (getParentId lineAddr (length (n_parents nd))) ;;
  req <- own_req i l lineAddr t cycle srcId flags ;;
  resp <- parent_access i req ;;
  let nextLevelLat := u32 (resp - cycle) in
  netLat <- lift (at_ (n_parentRTTs nd) pid) ;;
  prof_inc i profGETNextLevelLat nextLevelLat ;;
  prof_inc i profGETNetLat netLat ;;
  ret (u64 (cycle + u32 (nextLevelLat + netLat))).

Definition bcc_processAccess (i : nat) (lineAddr : Address) (l : nat) (t : AccessType)
    (cycle srcId flags : Z) : M HS Z :=
  s <- get_state i l ;;
  respCycle <-
    (match t with
     | PUTS =>
         assert_ "coherence_ctrls.cpp:97" (bool_decide (s <> MESI.I)) ;;
         prof_inc i profPUTS 1 ;; ret cycle
     | PUTX =>
         assert_ "coherence_ctrls.cpp:101" (bool_decide (s = MESI.M) || bool_decide (s = MESI.E)) ;;
         when (bool_decide (s = MESI.E)) (put_state i l MESI.M) ;;
         prof_inc i profPUTX 1 ;; ret cycle
     | GETS =>
         if bool_decide (s = MESI.I) then
           c <- bcc_fetch i l lineAddr GETS cycle srcId flags ;;
           prof_inc i profGETSMiss 1 ;;
           s <- get_state i l ;;
           assert_ "coherence_ctrls.cpp:119" (bool_decide (s = MESI.S) || bool_decide (s = MESI.E)) ;;
           ret c
         else prof_inc i profGETSHit 1 ;; ret cycle
     | GETX =>
         c <- (if bool_decide (s = MESI.I) || bool_decide (s = MESI.S) then
                 prof_inc i (if bool_decide (s = MESI.I) then profGETXMissIM else profGETXMissSM) 1 ;;
                 bcc_fetch i l lineAddr GETX cycle srcId flags
               else
                 when (bool_decide (s = MESI.E)) (put_state i l MESI.M) ;;
                 prof_inc i profGETXHit 1 ;; ret cycle) ;;
         s <- get_state i l ;;
         assert_ "coherence_ctrls.cpp:150" (bool_decide (s = MESI.M)) ;;
         ret c
     end) ;;
  assert_ "coherence_ctrls.cpp:155" (cycle <=? respCycle) ;;
  ret respCycle.

Definition bcc_processWritebackOnAccess (i l : nat) : M HS unit :=
  s <- get_state i l ;;
  assert_ "coherence_ctrls.cpp:161" (bool_decide (s = MESI.M) || bool_decide (s = MESI.E)) ;;
  when (bool_decide (s = MESI.E)) (put_state i l MESI.M).

(** Returns the value of [*reqWriteback]. *)
Definition bcc_processInval (i l : nat) (t : InvType) (reqWriteback : bool) : M HS bool :=
  s <- get_state i l ;;
  assert_ "coherence_ctrls.cpp:170" (bool_decide (s <> MESI.I)) ;;
  match t with
  | INVX =>
      assert_ "coherence_ctrls.cpp:174" (bool_decide (s = MESI.E) || bool_decide (s = MESI.M)) ;;
      put_state i l MESI.S ;;
      prof_inc i profINVX 1 ;;
      ret (reqWriteback || bool_decide (s = MESI.M))
  | INV =>
      put_state i l MESI.I ;;
      prof_inc i profINV 1 ;;
      ret (reqWriteback || bool_decide (s = MESI.M))
  | FWD =>
      assert_ "coherence_ctrls.cpp:186" (bool_decide (s = MESI.S)) ;;
      prof_inc i profFWD 1 ;;
      ret reqWriteback
  end.

Definition bcc_processNonInclusiveWriteback (i : nat) (lineAddr : Address) (t : AccessType)
    (cycle : Z) (p : StatePtr) (srcId flags : Z) : M HS Z :=
  nd <- node i ;;
  if negb (n_nonInclusiveHack nd) then fail (Panic "coherence_ctrls.cpp:196") else
  s <- deref p ;;
  parent_access i (mkCReq lineAddr t (n_selfId nd) p cycle (Some i) s srcId (Z.lor flags NONINCLWB)).
End Bottom.

(** ** [MESITopCC] *)
Section Top.
(** [children\[c\]->invalidate(req)] *)
Context (down : nat -> InvReq -> M HS (Z * bool)).

(** The loop of [sendInvalidates] over the child ids [cs]: [maxCycle],
    [*reqWriteback] and [sentInvs]. *)
Fixpoint send_loop (i : nat) (lineAddr : Address) (l : nat) (t : InvType) (cycle srcId : Z)
    (cs : list nat) (maxCycle : Z) (wb : bool) (sentInvs : Z) : M HS (Z * bool * Z) :=
  match cs with
  | [] => ret (maxCycle, wb, sentInvs)
  | c :: cs' =>
      e <- get_entry i l ;;
      if bool_decide (c ∈ e_sharers e) then
        nd <- node i ;;
        ch <- lift (at_ (n_children nd) c) ;;
        let! (resp, wb') := down ch (mkInvReq lineAddr t wb cycle srcId) in
        rtt <- lift (at_ (n_childrenRTTs nd) c) ;;
        when (bool_decide (t = INV)) (e <- get_entry i l ;; put_entry i l (del_sharer c e)) ;;
        send_loop i lineAddr l t cycle srcId cs' (Z.max (u64 (resp + rtt)) maxCycle) wb'
          (u32 (sentInvs + 1))
      else send_loop i lineAddr l t cycle srcId cs' maxCycle wb sentInvs
  end.

Definition tcc_sendInvalidates (i : nat) (lineAddr : Address) (l : nat) (t : InvType)
    (reqWriteback : bool) (cycle srcId : Z) : M HS (Z * bool) :=
  e <- get_entry i l ;;
  if bool_decide (t = INVX) && negb (entry_isExclusive e) then ret (cycle, reqWriteback) else
  if entry_isEmpty e then ret (cycle, reqWriteback) else
  nd <- node i ;;
  let! (maxCycle, wb, sentInvs) :=
    send_loop i lineAddr l t cycle srcId (seq 0 (length (n_children nd))) cycle reqWriteback 0 in
  e <- get_entry i l ;;
  assert_ "coherence_ctrls.cpp:243" (sentInvs =? e_numSharers e) ;;
  (if bool_decide (t = INV) then put_entry i l (set_numSharers 0 e)
   else
     assert_ "coherence_ctrls.cpp:248" (e_exclusive e) ;;
     assert_ "coherence_ctrls.cpp:249" (e_numSharers e =? 1) ;;
     put_entry i l (set_exclusive false e)) ;;
  ret (maxCycle, wb).

Definition tcc_processEviction (i : nat) (wbLineAddr : Address) (l : nat) (reqWriteback : bool)
    (cycle srcId : Z) : M HS (Z * bool) :=
  nd <- node i ;;
  if n_nonInclusiveHack nd then put_entry i l entry_clear ;; ret (cycle, reqWriteback)
  else tcc_sendInvalidates i wbLineAddr l INV reqWriteback cycle srcId.

(** The [PUTS] case, which [PUTX] falls into. *)
Definition tcc_remove (i l childId : nat) (childState : StatePtr) : M HS unit :=
  e <- get_entry i l ;;
  assert_ "coherence_ctrls.cpp:283" (bool_decide (childId ∈ e_sharers e)) ;;
  put_entry i l (set_numSharers (u32 (e_numSharers e - 1)) (del_sharer childId e)) ;;
  assign childState MESI.I.

(** Returns the response cycle and [*inducedWriteback]. *)
Definition tcc_processAccess (i : nat) (lineAddr : Address) (l : nat) (t : AccessType)
    (childId : nat) (haveExclusive : bool) (childState : StatePtr) (inducedWriteback : bool)
    (cycle srcId flags : Z) : M HS (Z * bool) :=
  e <- get_entry i l ;;
  match t with
  | PUTX =>
      assert_ "coherence_ctrls.cpp:274" (entry_isExclusive e) ;;
      if negb (Z.land flags PUTX_KEEPEXCL =? 0) then
        assert_ "coherence_ctrls.cpp:276" (bool_decide (childId ∈ e_sharers e)) ;;
        s <- deref childState ;;
        assert_ "coherence_ctrls.cpp:277" (bool_decide (s = MESI.M)) ;;
        assign childState MESI.E ;; ret (cycle, inducedWriteback)
      else tcc_remove i l childId childState ;; ret (cycle, inducedWriteback)
  | PUTS => tcc_remove i l childId childState ;; ret (cycle, inducedWriteback)
  | GETS =>
      if entry_isEmpty e && haveExclusive && (Z.land flags NOEXCL =? 0) then
        put_entry i l (set_numSharers 1 (add_sharer childId (set_exclusive true e))) ;;
        assign childState MESI.E ;;
        ret (cycle, inducedWriteback)
      else
        assert_ "coherence_ctrls.cpp:297" (negb (bool_decide (childId ∈ e_sharers e))) ;;
        let! (respCycle, wb) :=
          (if entry_isExclusive e
           then tcc_sendInvalidates i lineAddr l INVX inducedWriteback cycle srcId
           else ret (cycle, inducedWriteback)) in
        e <- get_entry i l ;;
        assert_ "coherence_ctrls.cpp:304" (negb (entry_isExclusive e)) ;;
        put_entry i l
          (set_exclusive false (set_numSharers (u32 (e_numSharers e + 1)) (add_sharer childId e))) ;;
        assign childState MESI.S ;;
        ret (respCycle, wb)
  | GETX =>
      assert_ "coherence_ctrls.cpp:313" haveExclusive ;;
      when (bool_decide (childId ∈ e_sharers e))
        (assert_ "coherence_ctrls.cpp:317" (negb (entry_isExclusive e)) ;;
         put_entry i l (set_numSharers (u32 (e_numSharers e - 1)) (del_sharer childId e))) ;;
      let! (respCycle, wb) := tcc_sendInvalidates i lineAddr l INV inducedWriteback cycle srcId in
      e <- get_entry i l ;;
      let e' := set_exclusive true (set_numSharers (u32 (e_numSharers e + 1)) (add_sharer childId e)) in
      put_entry i l e' ;;
      assert_ "coherence_ctrls.cpp:330" (e_numSharers e' =? 1) ;;
      assign childState MESI.M ;;
      ret (respCycle, wb)
  end.

Definition tcc_processInval (i : nat) (lineAddr : Address) (l : nat) (t : InvType)
    (reqWriteback : bool) (cycle srcId : Z) : M HS (Z * bool) :=
  match t with
  | FWD =>
      nd <- node i ;;
      assert_ "coherence_ctrls.cpp:343" (negb (n_nonInclusiveHack nd)) ;;
      ret (cycle, reqWriteback)
  | _ => tcc_sendInvalidates i lineAddr l t reqWriteback cycle srcId
  end.
End Top.

(** ** The controllers [MESICC] and [MESITerminalCC] *)

(** [CheckForMESIRace]: whether to skip the access, and its type. *)
Definition CheckForMESIRace (t : AccessType) (state initialState : MESIState)
    : res (bool * AccessType) :=
  if bool_decide (state = initialState) then Ok (false, t)
  else if IsPut t then
    if bool_decide (state = MESI.I) then Ok (true, t)
    else if bool_decide (state = MESI.S) then Ok (false, match t with PUTX => PUTS | _ => t end)
    else Err (AssertFail "coherence_ctrls.h:260")
  else if bool_decide (t = GETX) then
    if negb (bool_decide (initialState = MESI.S)) then Err (AssertFail "coherence_ctrls.h:266")
    else if negb (bool_decide (state = MESI.I)) then Err (AssertFail "coherence_ctrls.h:267")
    else Ok (false, t)
  else Err (Panic "coherence_ctrls.h:270").

Definition check_race (req : CReq) : M HS (bool * CReq) :=
  s <- deref (cq_state req) ;;
  let! (skip, t) := lift (CheckForMESIRace (cq_type req) s (cq_initialState req)) in
  ret (skip, cq_set_type t req).

(** [MESICC::startAccess] and [MESITerminalCC::startAccess] *)
Definition mesicc_startAccess (i : nat) (req : CReq) : M HS (bool * CReq) :=
  on_child_lock req unlock_bcc ;; lock_tcc i ;; lock_bcc i ;; check_race req.
Definition term_startAccess (i : nat) (req : CReq) : M HS (bool * CReq) :=
  assert_ "coherence_ctrls.h:436" (IsGet (cq_type req)) ;;
  on_child_lock req unlock_bcc ;; lock_bcc i ;; check_race req.

(** [MESICC::shouldAllocate]; a terminal cache always allocates. *)
Definition mesicc_shouldAllocate (i : nat) (req : CReq) : M HS bool :=
  if IsGet (cq_type req) then ret true
  else nd <- node i ;;
       if n_nonInclusiveHack nd then ret false else fail (Panic "coherence_ctrls.h:333").

Definition mesicc_processEviction (up : nat -> CReq -> M HS Z) (down : nat -> InvReq -> M HS (Z * bool))
    (i : nat) (trigger : CReq) (wbLineAddr : Address) (l : nat) (startCycle : Z) : M HS Z :=
  let! (evCycle, wb) :=
    tcc_processEviction down i wbLineAddr l false startCycle (cq_srcId trigger) in
  bcc_processEviction up i wbLineAddr l wb evCycle (cq_srcId trigger).
Definition term_processEviction (up : nat -> CReq -> M HS Z) (i : nat) (trigger : CReq)
    (wbLineAddr : Address) (l : nat) (startCycle : Z) : M HS Z :=
  bcc_processEviction up i wbLineAddr l false startCycle (cq_srcId trigger).

(** [MESICC::processAccess]; [None] is a line id of -1. *)
Definition mesicc_processAccess (up : nat -> CReq -> M HS Z) (down : nat -> InvReq -> M HS (Z * bool))
    (i : nat) (req : CReq) (lineId : option nat) (startCycle : Z) : M HS Z :=
  let put := IsPut (cq_type req) in
  noninclusive <- (match lineId with
                   | None => ret true
                   | Some l => if put then v <- bcc_isValid i l ;; ret (negb v) else ret false
                   end) ;;
  match lineId, noninclusive with
  | Some l, false =>
      let isPrefetch := negb (Z.land (cq_flags req) PREFETCH =? 0) in
      assert_ "coherence_ctrls.h:361" (negb isPrefetch || bool_decide (cq_type req = GETS)) ;;
      let flags := Z.ldiff (cq_flags req) PREFETCH in
      respCycle <- bcc_processAccess up i (cq_lineAddr req) l (cq_type req) startCycle
                     (cq_srcId req) flags ;;
      if (isPrefetch : bool) then ret respCycle
      else
        excl <- bcc_isExclusive i l ;;
        let! (respCycle, wb) :=
          tcc_processAccess down i (cq_lineAddr req) l (cq_type req) (cq_childId req) excl
            (cq_state req) false respCycle (cq_srcId req) flags in
        when wb (bcc_processWritebackOnAccess i l) ;;
        ret respCycle
  | _, _ =>
      nd <- node i ;;
      assert_ "coherence_ctrls.h:355" (n_nonInclusiveHack nd) ;;
      assert_ "coherence_ctrls.h:356" put ;;
      bcc_processNonInclusiveWriteback up i (cq_lineAddr req) (cq_type req) startCycle (cq_state req)
        (cq_srcId req) (cq_flags req)
  end.
Definition term_processAccess (up : nat -> CReq -> M HS Z) (i : nat) (req : CReq) (lineId : option nat)
    (startCycle : Z) : M HS Z :=
  match lineId with
  | None => fail (AssertFail "coherence_ctrls.h:466")
  | Some l => bcc_processAccess up i (cq_lineAddr req) l (cq_type req) startCycle (cq_srcId req)
                (cq_flags req)
  end.

Definition mesicc_endAccess (i : nat) (req : CReq) : M HS unit :=
  on_child_lock req lock_bcc ;; unlock_bcc i ;; unlock_tcc i.
Definition term_endAccess (i : nat) (req : CReq) : M HS unit :=
  on_child_lock req lock_bcc ;; unlock_bcc i.

(** [startInv] and [processInv] *)
Definition cc_startInv (i : nat) : M HS unit := lock_bcc i.
Definition mesicc_processInv (down : nat -> InvReq -> M HS (Z * bool)) (i : nat) (req : InvReq)
    (l : nat) (startCycle : Z) : M HS (Z * bool) :=
  let! (respCycle, wb) :=
    tcc_processInval down i (iq_lineAddr req) l (iq_type req) (iq_writeback req) startCycle
      (iq_srcId req) in
  wb <- bcc_processInval i l (iq_type req) wb ;;
  unlock_bcc i ;;
  ret (respCycle, wb).
Definition term_processInv (i : nat) (req : InvReq) (l : nat) (startCycle : Z) : M HS (Z * bool) :=
  wb <- bcc_processInval i l (iq_type req) (iq_writeback req) ;;
  unlock_bcc i ;;
  ret (startCycle, wb).

(** ** Timing records in [Cache::access] *)

Definition get_recs : M HS Recs := gets (fun h => top_recs (h_mem h)).
Definition set_recs (r : Recs) : M HS unit :=
  modify (fun h => mkHier (h_caches h) (top_set_recs r (h_mem h)) (h_core h) (h_filters h)).
(** A computation on the recorder of [src], and on the events. *)
Definition on_record {A} (src : Z) (m : M TimingRecord A) : M HS A :=
  r <- get_recs ;;
  match rc_records r !! src with
  | None => fail NullDeref
  | Some tr =>
      let! (a, tr') := lift (m tr) in
      set_recs (mkRecs (rc_events r) (<[src := tr']> (rc_records r))) ;; ret a
  end.
Definition on_events {A} (m : M Arena A) : M HS A :=
  r <- get_recs ;;
  let! (a, evs) := lift (m (rc_events r)) in
  set_recs (mkRecs evs (rc_records r)) ;; ret a.

(** Lines 87-92: the record that the eviction left, if any. *)
Definition take_record (src : Z) : M HS (option TimingRecord) :=
  r <- get_recs ;;
  match rc_records r !! src with
  | Some tr => if tr_isValid tr then wb <- on_record src popRecord ;; ret (Some wb) else ret None
  | None => ret None
  end.

(** [DelayEvent(delay)]; the payload fields belong to memory events only. *)
Definition DelayEvent_new (delay : Z) : TimingEvent :=
  mkEv EV_NONE (2 ^ 64 - 1) [] 0 (-1) (u32 delay) 0 ExtDram 0 0 false.
Definition new_event (e : TimingEvent) : M HS nat :=
  r <- get_recs ;;
  set_recs (mkRecs (rc_events r ++ [e]) (rc_records r)) ;;
  ret (length (rc_events r)).

(** A record's start event is a pointer. *)
Definition start_of (tr : TimingRecord) : M HS nat :=
  match tr_startEvent tr with Some e => ret e | None => fail NullDeref end.

(** Lines 98-122: both accesses have a record: stitch them together. *)
Definition stitch (src reqCycle : Z) (wbAcc : option TimingRecord) : M HS unit :=
  match wbAcc with
  | None => ret tt
  | Some wb =>
      has <- on_record src hasRecord ;;
      if negb has then
        on_record src (pushRecord (mkTR (tr_addr wb) (tr_reqCycle wb) (tr_respCycle wb) (tr_type wb)
                                     (tr_startEvent wb) None))
      else
        acc <- on_record src popRecord ;;
        assert_ "cache.cpp:106" (reqCycle <=? tr_reqCycle wb) ;;
        assert_ "cache.cpp:107" (reqCycle <=? tr_reqCycle acc) ;;
        startEv <- new_event (setMinStartCycle reqCycle (DelayEvent_new 0)) ;;
        dWbEv <- new_event (setMinStartCycle reqCycle (DelayEvent_new (tr_reqCycle wb - reqCycle))) ;;
        dAccEv <- new_event (setMinStartCycle reqCycle (DelayEvent_new (tr_reqCycle acc - reqCycle))) ;;
        wbStart <- start_of wb ;;
        on_events (addChild startEv dWbEv) ;; on_events (addChild dWbEv wbStart) ;;
        accStart <- start_of acc ;;
        on_events (addChild startEv dAccEv) ;; on_events (addChild dAccEv accStart) ;;
        on_record src (pushRecord (mkTR (tr_addr acc) reqCycle (tr_respCycle acc) (tr_type acc)
                                     (Some startEv) (tr_endEvent acc)))
  end.

(** ** [Cache::invalidate]: [startInvalidate], then [finishInvalidate] *)
Definition finishInvalidate (down : nat -> InvReq -> M HS (Z * bool)) (i : nat) (req : InvReq)
    : M HS (Z * bool) :=
  nd <- node i ;;
  lineId <- on_array i (sa_lookup (n_array nd) (iq_lineAddr req) false false) ;;
  match lineId with
  | None => fail (AssertFail "cache.cpp:138")
  | Some l =>
      let respCycle := u64 (iq_cycle req + n_invLat nd) in
      if n_terminal nd then term_processInv i req l respCycle
      else mesicc_processInv down i req l respCycle
  end.

(** The part of [FilterCache::invalidate] between them. *)
Definition filter_invalidate (i : nat) (lineAddr : Address) : M HS unit :=
  modify (fun h => mkHier (h_caches h) (h_mem h) (h_core h) (filter_inval i lineAddr (h_filters h))).

(** Children have smaller numbers than their parents. *)
Fixpoint invalidate (fuel i : nat) (req : InvReq) : M HS (Z * bool) :=
  match fuel with
  | O => fail OutOfFuel
  | S fuel =>
      cc_startInv i ;;
      filter_invalidate i (iq_lineAddr req) ;;
      finishInvalidate (invalidate fuel) i req
  end.

(** ** [Cache::access] *)

(** Lines 73-84: make space for the line. *)
Definition allocate (up : nat -> CReq -> M HS Z) (down : nat -> InvReq -> M HS (Z * bool)) (i : nat)
    (req : CReq) (respCycle : Z) : M HS nat :=
  nd <- node i ;;
  c <- get_cache i ;;
  let! (l, wbLineAddr) :=
    on_array i (sa_preinsert (n_array nd) (cc_view nd c) (cq_lineAddr req) false) in
  _ <- (if n_terminal nd then term_processEviction up i req wbLineAddr l respCycle
        else mesicc_processEviction up down i req wbLineAddr l respCycle) ;;
  on_array i (sa_postinsert (cq_lineAddr req) l false) ;;
  ret l.

Definition cc_shouldAllocate (nd : Node) (i : nat) (req : CReq) : M HS bool :=
  if n_terminal nd then ret true else mesicc_shouldAllocate i req.

(** Lines 69-85: the lookup, and the allocation after a miss. *)
Definition find_space (up : nat -> CReq -> M HS Z) (down : nat -> InvReq -> M HS (Z * bool)) (nd : Node)
    (i : nat) (req : CReq) (respCycle : Z) : M HS (option nat) :=
  lineId <- on_array i (sa_lookup (n_array nd) (cq_lineAddr req) (IsGet (cq_type req)) false) ;;
  match lineId with
  | Some l => ret (Some l)
  | None =>
      alloc <- cc_shouldAllocate nd i req ;;
      if (alloc : bool) then l <- allocate up down i req respCycle ;; ret (Some l) else ret None
  end.

Definition cache_access_body (up : nat -> CReq -> M HS Z) (down : nat -> InvReq -> M HS (Z * bool))
    (i : nat) (req0 : CReq) : M HS Z :=
  nd <- node i ;;
  let! (skipAccess, req) :=
    (if n_terminal nd then term_startAccess i req0 else mesicc_startAccess i req0) in
  respCycle <-
    (if (skipAccess : bool) then ret (cq_cycle req)
     else
       let respCycle := u64 (cq_cycle req + n_accLat nd) in
       lineId <- find_space up down nd i req respCycle ;;
       wbAcc <- take_record (cq_srcId req) ;;
       respCycle <- (if n_terminal nd then term_processAccess up i req lineId respCycle
                     else mesicc_processAccess up down i req lineId respCycle) ;;
       stitch (cq_srcId req) (cq_cycle req) wbAcc ;;
       ret respCycle) ;;
  (if n_terminal nd then term_endAccess i req else mesicc_endAccess i req) ;;
  assert_ "cache.cpp:127" (cq_cycle req <=? respCycle) ;;
  ret respCycle.

(** Parents have larger numbers than their children. *)
Fixpoint cache_access (fuel i : nat) (req : CReq) : M HS Z :=
  match fuel with
  | O => fail OutOfFuel
  | S fuel => cache_access_body (cache_access fuel) (invalidate (S i)) i req
  end.

(** An access of a core to its cache [i]: the core's state variable is [I] and
    no lock is passed. *)
Definition core_access (i : nat) (lineAddr : Address) (t : AccessType) (cycle srcId flags : Z)
    : M HS Z :=
  modify (fun h => mkHier (h_caches h) (h_mem h) MESI.I (h_filters h)) ;;
  cache_access (length nodes - i) i
    (mkCReq lineAddr t 0 CoreState cycle None MESI.I srcId flags).
End Hierarchy.

(** ** Construction ([MESIBottomCC], [MESITopCC], [Cache] with an empty array) *)
Definition MAX_CACHE_CHILDREN : nat := 256.

Definition cache_new {R} (nd : Node) (array : list Address) (rp : R) : res (CacheSt R) :=
  let n := ap_numLines (n_array nd) in
  if (MAX_CACHE_CHILDREN <? length (n_children nd))%nat then Err (Panic "coherence_ctrls.cpp:210")
  else Ok (mkCache (mkSA array rp) (replicate n MESI.I)
             (if n_terminal nd then [] else replicate n entry_clear) false false (fun _ => 0)).
