(* ===== verification/MemCtrls.v ===== *)
(** * The simple memories ([src/src/mem_ctrls.h], [src/src/mem_ctrls.cpp])

    [SimpleMemory] with its fixed latency and [MD1Memory] with the latency of an
    M/D/1 queue, as the memories at the top of a cache hierarchy. *)

From stdpp Require Import base list gmap strings.
From Stdlib Require Import ZArith Lia.
From S2P Require Import Prelude Numeric MemHierarchy DdrBound ReplPolicy CacheArray Coherence.
Local Open Scope Z_scope.

(** [SimpleMemory::access].  The constructor sets [_collect_trace] to false, so
    the trace is never written. *)
Definition simple_access (latency : Z) (req : MemReq) : res (MESIState * Z) :=
  let respCycle := u64 (cycle req + latency) in
  if cycle req <? respCycle then Ok (granted_state req, respCycle)
  else Err (AssertFail "mem_ctrls.cpp:94").

(** ** [MD1Memory] *)
Record MD1 := mkMD1 {
  md_lastPhase : Z;
  md_maxRequestsPerCycle : double;
  md_smoothedPhaseAccesses : double;
  md_zeroLoadLatency : Z;
  md_curLatency : Z;
  md_curPhaseAccesses : Z;
  md_reads : Z;
  md_writes : Z;
  md_totalRdLat : Z;
  md_totalWrLat : Z;
  md_load : Z;
  md_updates : Z;
  md_clampedLoads : Z
}.

Definition MD1Memory_new (requestSize megacyclesPerSecond megabytesPerSecond zeroLoadLatency : Z)
    : res MD1 :=
  let bytesPerCycle := ddiv (dbl_of_Z megabytesPerSecond) (dbl_of_Z megacyclesPerSecond) in
  let rate := ddiv bytesPerCycle (dbl_of_Z requestSize) in
  if dltb (dbl_of_Z 0) rate
  then Ok (mkMD1 0 rate (dbl_of_Z 0) zeroLoadLatency zeroLoadLatency 0 0 0 0 0 0 0 0)
  else Err (AssertFail "mem_ctrls.cpp:116").

(** [updateLatency] in phase [numPhases] of [phaseLength] cycles. *)
Definition updateLatency (numPhases phaseLength : Z) (s : MD1) : MD1 :=
  let phaseCycles := u32 (u64 (numPhases - md_lastPhase s) * phaseLength) in
  if phaseCycles <? 10000 then s else
  let half := dlit 1 2 in
  let smoothed := dadd (dmul (dbl_of_Z (md_curPhaseAccesses s)) half)
                       (dmul (md_smoothedPhaseAccesses s) half) in
  let requestsPerCycle := ddiv smoothed (dbl_of_Z phaseCycles) in
  let load0 := ddiv requestsPerCycle (md_maxRequestsPerCycle s) in
  let clamp := dltb (dlit 95 100) load0 in
  let load := if clamp then dlit 95 100 else load0 in
  let one := dbl_of_Z 1 in
  let latMultiplier := dadd one (ddiv (dmul half load) (dsub one load)) in
  mkMD1 numPhases (md_maxRequestsPerCycle s) smoothed (md_zeroLoadLatency s)
    (u32 (dbl_to_i64 (dmul latMultiplier (dbl_of_Z (md_zeroLoadLatency s)))))
    0 (md_reads s) (md_writes s) (md_totalRdLat s) (md_totalWrLat s)
    (u64 (md_load s + u32 (dbl_to_i64 (dmul load (dbl_of_Z 100))))) (u64 (md_updates s + 1))
    (if clamp then u64 (md_clampedLoads s + 1) else md_clampedLoads s).

(** The counters of a real access. *)
Definition md1_count (write : bool) (s : MD1) : MD1 :=
  let l := md_curLatency s in
  mkMD1 (md_lastPhase s) (md_maxRequestsPerCycle s) (md_smoothedPhaseAccesses s)
    (md_zeroLoadLatency s) l (u32 (md_curPhaseAccesses s + 1))
    (if write then md_reads s else u64 (md_reads s + 1))
    (if write then u64 (md_writes s + 1) else md_writes s)
    (if write then md_totalRdLat s else u64 (md_totalRdLat s + l))
    (if write then u64 (md_totalWrLat s + l) else md_totalWrLat s)
    (md_load s) (md_updates s) (md_clampedLoads s).

(** [MD1Memory::access] *)
Definition md1_access (numPhases phaseLength : Z) (req : MemReq) (s : MD1) : (MESIState * Z) * MD1 :=
  let s := if md_lastPhase s <? numPhases then updateLatency numPhases phaseLength s else s in
  let s' := match type req with
            | PUTX => md1_count true s
            | PUTS => s
            | GETS | GETX => md1_count false s
            end in
  ((granted_state req,
    u64 (cycle req + (if bool_decide (type req = PUTS) then 0 else md_curLatency s))), s').

(** ** The memories of a system *)
Inductive Memory := SimpleMem (latency : Z) | MD1Mem (s : MD1).

Record Top := mkTop {
  tp_mems : list Memory;
  tp_numPhases : Z;
  tp_phaseLength : Z;
  tp_recs : Recs
}.

Definition tp_put (m : nat) (x : Memory) (d : Top) : Top :=
  mkTop (<[m := x]> (tp_mems d)) (tp_numPhases d) (tp_phaseLength d) (tp_recs d).

Definition memory_access (m : nat) (req : MemReq) : M Top (MESIState * Z) :=
  d <- get ;;
  x <- lift (at_ (tp_mems d) m) ;;
  match x with
  | SimpleMem latency => lift (simple_access latency req)
  | MD1Mem s =>
      let (r, s') := md1_access (tp_numPhases d) (tp_phaseLength d) req s in
      modify (tp_put m (MD1Mem s')) ;; ret r
  end.

#[export] Instance Top_MemTop : MemTop Top := {
  top_access := memory_access;
  top_recs := tp_recs;
  top_set_recs r d := mkTop (tp_mems d) (tp_numPhases d) (tp_phaseLength d) r
}.
