(* ===== verification/CoherenceInv.v ===== *)
(** * The invariant of a coherent hierarchy

    The state of a line seen from outside a cache ([hst], [hsh], [hex]: MESI
    state, sharers and exclusivity of an address in a cache), the topology of a
    hierarchy, the invariant, and how the primitive updates change the view. *)

From stdpp Require Import base list gmap strings sets.
From Stdlib Require Import ZArith Lia.
From S2P Require Import Prelude Numeric MemHierarchy DdrBound ReplPolicy CacheArray Coherence.
Local Open Scope Z_scope.

(** Exclusive states. *)
Definition isx (s : MESIState) : Prop := s = MESI.E \/ s = MESI.M.

Lemma isx_bool s : isx s <-> bool_decide (s = MESI.E) || bool_decide (s = MESI.M) = true.
Proof. rewrite orb_true_iff, !bool_decide_eq_true. done. Qed.

Lemma isx_not_I s : isx s -> s <> MESI.I.
Proof. by intros [-> | ->]. Qed.

(** ** The view of one cache *)
Section View.
Context {R : Type}.
Implicit Types (c : CacheSt R) (nd : Node).

Definition cline nd c (a : Address) : option nat :=
  match find_line (sa_array (ca_sa c)) a (set_ids (n_array nd) a) with Ok o => o | Err _ => None end.
Definition cst nd c (a : Address) : MESIState :=
  match cline nd c a with Some l => default MESI.I (ca_bcc c !! l) | None => MESI.I end.
Definition centry nd c (a : Address) : Entry :=
  match cline nd c a with Some l => default entry_clear (ca_tcc c !! l) | None => entry_clear end.
Definition csh nd c (a : Address) : gset nat := e_sharers (centry nd c a).
Definition cex nd c (a : Address) : bool := entry_isExclusive (centry nd c a).

(** The invariant of one cache: a valid line is the one a lookup finds, the
    sharer count is the number of sharers, an invalid line has none and an
    exclusive one at most one. *)
Record cache_ok nd c : Prop := {
  co_array : length (sa_array (ca_sa c)) = ap_numLines (n_array nd);
  co_bcc : length (ca_bcc c) = ap_numLines (n_array nd);
  co_tcc : n_terminal nd = false -> length (ca_tcc c) = ap_numLines (n_array nd);
  co_term : n_terminal nd = true -> ca_tcc c = [];
  co_line : forall l s a, ca_bcc c !! l = Some s -> s <> MESI.I ->
    sa_array (ca_sa c) !! l = Some a -> cline nd c a = Some l;
  co_count : forall l e, ca_tcc c !! l = Some e -> e_numSharers e = Z.of_nat (size (e_sharers e));
  co_empty : forall l e, ca_tcc c !! l = Some e -> ca_bcc c !! l = Some MESI.I -> e_sharers e = ∅;
  co_single : forall l e, ca_tcc c !! l = Some e -> e_exclusive e = true -> (size (e_sharers e) <= 1)%nat
}.

Context (nd : Node) (Hnd : array_ok (n_array nd)).

Lemma cline_spec c a :
  length (sa_array (ca_sa c)) = ap_numLines (n_array nd) ->
  find_line (sa_array (ca_sa c)) a (set_ids (n_array nd) a) = Ok (cline nd c a) /\
  match cline nd c a with
  | Some l => l ∈ set_ids (n_array nd) a /\ (l < ap_numLines (n_array nd))%nat /\
      sa_array (ca_sa c) !! l = Some a
  | None => forall l, l ∈ set_ids (n_array nd) a -> sa_array (ca_sa c) !! l <> Some a
  end.
Proof.
  intros Hlen. destruct (find_line_spec (sa_array (ca_sa c)) a (set_ids (n_array nd) a))
    as (o & Ho & Hspec).
  { intros id Hid. rewrite Hlen. by eapply set_ids_lt. }
  unfold cline. rewrite Ho. split; [done|]. destruct o as [l|]; [|done]. destruct Hspec.
  split_and!; [done|by eapply set_ids_lt|done].
Qed.

Lemma cline_array c a l : cache_ok nd c -> cline nd c a = Some l ->
  (l < ap_numLines (n_array nd))%nat /\ sa_array (ca_sa c) !! l = Some a.
Proof.
  intros Hok Hl. destruct (cline_spec c a (co_array _ _ Hok)) as [_ H]. rewrite Hl in H. tauto.
Qed.

Lemma cline_inj c a b l : cache_ok nd c -> cline nd c a = Some l -> cline nd c b = Some l -> a = b.
Proof.
  intros Hok Ha Hb. destruct (cline_array c a l Hok Ha) as [_ H1].
  destruct (cline_array c b l Hok Hb) as [_ H2]. congruence.
Qed.

Lemma cline_state c a l : cache_ok nd c -> cline nd c a = Some l ->
  ca_bcc c !! l = Some (cst nd c a).
Proof.
  intros Hok Hl. destruct (cline_array c a l Hok Hl) as [Hlt _]. unfold cst. rewrite Hl.
  rewrite <- (co_bcc _ _ Hok) in Hlt. apply lookup_lt_is_Some in Hlt as [s ->]. done.
Qed.

Lemma cline_entry c a l : cache_ok nd c -> n_terminal nd = false -> cline nd c a = Some l ->
  ca_tcc c !! l = Some (centry nd c a).
Proof.
  intros Hok Ht Hl. destruct (cline_array c a l Hok Hl) as [Hlt _]. unfold centry. rewrite Hl.
  rewrite <- (co_tcc _ _ Hok Ht) in Hlt. apply lookup_lt_is_Some in Hlt as [s ->]. done.
Qed.

Lemma cst_line c a : cst nd c a <> MESI.I -> exists l, cline nd c a = Some l.
Proof. unfold cst. destruct (cline nd c a); [eauto|done]. Qed.

Lemma csh_empty c a : cache_ok nd c -> cst nd c a = MESI.I -> csh nd c a = ∅ /\ cex nd c a = false.
Proof.
  intros Hok Hst. unfold csh, cex, centry. destruct (cline nd c a) as [l|] eqn:Hl; [|done].
  destruct (ca_tcc c !! l) as [e|] eqn:He; [|done]. simpl.
  pose proof (cline_state c a l Hok Hl) as Hb. rewrite Hst in Hb.
  pose proof (co_empty _ _ Hok l e He Hb) as Hemp. split; [done|].
  unfold entry_isExclusive. rewrite (co_count _ _ Hok l e He), Hemp, size_empty. done.
Qed.

(** *** A change of state of the line of [a] *)
Lemma put_bcc_view c a l s :
  cache_ok nd c -> cline nd c a = Some l ->
  let c' := set_bcc (<[l := s]> (ca_bcc c)) c in
  (forall b, cline nd c' b = cline nd c b) /\ (forall b, centry nd c' b = centry nd c b) /\
  cst nd c' a = s /\ (forall b, b <> a -> cst nd c' b = cst nd c b).
Proof.
  intros Hok Hl c'. assert (forall b, cline nd c' b = cline nd c b) as HL by done.
  assert (forall b, centry nd c' b = centry nd c b) as HE by done. split_and!; [done|done| |].
  - unfold cst. rewrite HL, Hl. simpl. rewrite list_lookup_insert_eq; [done|].
    rewrite (co_bcc _ _ Hok). by eapply cline_array.
  - intros b Hb. unfold cst. rewrite HL. destruct (cline nd c b) as [l'|] eqn:Hl'; [|done]. simpl.
    rewrite list_lookup_insert_ne; [done|]. intros <-. by apply Hb, (cline_inj c b a l).
Qed.

Lemma put_bcc_ok c a l s :
  cache_ok nd c -> cline nd c a = Some l -> (s = MESI.I -> csh nd c a = ∅) ->
  cache_ok nd (set_bcc (<[l := s]> (ca_bcc c)) c).
Proof.
  intros Hok Hl Hs. destruct (cline_array c a l Hok Hl) as [Hlt Ha].
  destruct Hok as [H1 H2 H3 H4 H5 H6 H7 H8]. split; simpl; try done.
  - by rewrite length_insert.
  - intros l' s' a' Hl' Hs' Ha'. change (cline nd c a' = Some l').
    destruct (decide (l' = l)) as [->|Hne]; [by simplify_eq|].
    rewrite list_lookup_insert_ne in Hl' by done. by eapply H5.
  - intros l' e He Hb. destruct (decide (l' = l)) as [->|Hne].
    + rewrite list_lookup_insert_eq in Hb by lia. injection Hb as ->. specialize (Hs eq_refl).
      unfold csh, centry in Hs. by rewrite Hl, He in Hs.
    + rewrite list_lookup_insert_ne in Hb by done. by eapply H7.
Qed.

(** *** A change of the directory entry of [a] *)
Lemma put_tcc_view c a l e :
  cache_ok nd c -> n_terminal nd = false -> cline nd c a = Some l ->
  let c' := set_tcc (<[l := e]> (ca_tcc c)) c in
  (forall b, cline nd c' b = cline nd c b) /\ (forall b, cst nd c' b = cst nd c b) /\
  centry nd c' a = e /\ (forall b, b <> a -> centry nd c' b = centry nd c b).
Proof.
  intros Hok Ht Hl c'. assert (forall b, cline nd c' b = cline nd c b) as HL by done.
  split_and!; [done|done| |].
  - unfold centry. rewrite HL, Hl. simpl. rewrite list_lookup_insert_eq; [done|].
    rewrite (co_tcc _ _ Hok Ht). by eapply cline_array.
  - intros b Hb. unfold centry. rewrite HL. destruct (cline nd c b) as [l'|] eqn:Hl'; [|done]. simpl.
    rewrite list_lookup_insert_ne; [done|]. intros <-. by apply Hb, (cline_inj c b a l).
Qed.

Lemma put_tcc_ok c a l e :
  cache_ok nd c -> cline nd c a = Some l -> n_terminal nd = false ->
  e_numSharers e = Z.of_nat (size (e_sharers e)) -> (cst nd c a = MESI.I -> e_sharers e = ∅) ->
  (e_exclusive e = true -> (size (e_sharers e) <= 1)%nat) ->
  cache_ok nd (set_tcc (<[l := e]> (ca_tcc c)) c).
Proof.
  intros Hok Hl Ht Hc Hs Hx. pose proof (cline_state c a l Hok Hl) as Hst.
  destruct Hok as [H1 H2 H3 H4 H5 H6 H7 H8]. split; simpl; try done.
  - intros _. rewrite length_insert. auto.
  - congruence.
  - intros l' e' He. apply list_lookup_insert_Some in He as [(-> & -> & _)|[_ He]]; eauto.
  - intros l' e' He Hb. apply list_lookup_insert_Some in He as [(-> & -> & _)|[_ He]]; [|eauto].
    apply Hs. congruence.
  - intros l' e' He. apply list_lookup_insert_Some in He as [(-> & -> & _)|[_ He]]; eauto.
Qed.

(** *** Insertion of an absent address into an invalid line *)
Lemma find_line_none_keep array a b i ids :
  find_line array b ids = Ok None -> a <> b -> find_line (<[i := a]> array) b ids = Ok None.
Proof.
  intros Hf Hab. induction ids as [|j ids IH]; simpl in *; [done|]. unfold at_ in *.
  destruct (array !! j) as [x|] eqn:Hj; [|done]. destruct (Z.eqb_spec x b); [done|].
  destruct (decide (j = i)) as [->|Hne].
  - rewrite list_lookup_insert_eq by (by eapply lookup_lt_Some). destruct (Z.eqb_spec a b); [done|auto].
  - rewrite list_lookup_insert_ne, Hj by done. destruct (Z.eqb_spec x b); [done|auto].
Qed.

Lemma insert_view c a l rp :
  cache_ok nd c -> cline nd c a = None -> l ∈ set_ids (n_array nd) a -> ca_bcc c !! l = Some MESI.I ->
  let c' := set_sa (mkSA (<[l := a]> (sa_array (ca_sa c))) rp) c in
  cache_ok nd c' /\ cline nd c' a = Some l /\
  (forall b, cst nd c' b = cst nd c b /\ csh nd c' b = csh nd c b /\ cex nd c' b = cex nd c b) /\
  (forall b, b <> a -> cst nd c b <> MESI.I -> cline nd c' b = cline nd c b).
Proof.
  intros Hok Hnone Hin HI c'. set (arr := sa_array (ca_sa c)).
  assert (forall id b, id ∈ set_ids (n_array nd) b -> (id < length arr)%nat) as Hlt.
  { intros id b Hid. unfold arr. rewrite (co_array _ _ Hok). by eapply set_ids_lt. }
  assert (length (sa_array (ca_sa c')) = ap_numLines (n_array nd)) as Hlen.
  { simpl. rewrite length_insert. apply (co_array _ _ Hok). }
  assert (find_line arr a (set_ids (n_array nd) a) = Ok None) as Hf.
  { destruct (cline_spec c a (co_array _ _ Hok)) as [Hf _]. by rewrite Hnone in Hf. }
  assert (cline nd c' a = Some l) as Ha.
  { unfold cline. simpl. fold arr. rewrite find_line_insert; [done|intros; by eapply Hlt|done|done]. }
  assert (forall b l', cline nd c b = Some l' -> l' <> l -> cline nd c' b = Some l') as Hkeep.
  { intros b l' Hb Hne. destruct (decide (a = b)) as [->|Hab]; [congruence|].
    destruct (cline_spec c b (co_array _ _ Hok)) as [Hfb _]. unfold cline. simpl. fold arr in Hfb |- *.
    rewrite Hb in Hfb. by rewrite (find_line_keep _ _ _ _ _ _ Hfb Hne Hab). }
  assert (cache_ok nd c') as Hok'.
  { destruct Hok as [H1 H2 H3 H4 H5 H6 H7 H8]. split; try done. intros l' s b Hs HsI Hb. simpl in Hs, Hb.
    destruct (decide (l' = l)) as [->|Hne]; [congruence|].
    rewrite list_lookup_insert_ne in Hb by done. apply Hkeep; [by eapply H5|done]. }
  assert (forall b, b <> a -> cst nd c b <> MESI.I -> cline nd c' b = cline nd c b) as Hvalid.
  { intros b Hb Hst. destruct (cst_line c b Hst) as [l' Hl']. rewrite Hl'. apply Hkeep; [done|].
    intros ->. rewrite (cline_state c b l Hok Hl') in HI. congruence. }
  split_and!; [done|done| |done].
  assert (forall b, cst nd c' b = cst nd c b /\ centry nd c' b = centry nd c b \/
                    cst nd c' b = MESI.I /\ cst nd c b = MESI.I) as Hst.
  { intros b. destruct (cline nd c b) as [l'|] eqn:Hl'.
    - destruct (decide (l' = l)) as [->|Hne].
      + right. split; [|pose proof (cline_state c b l Hok Hl'); congruence].
        destruct (decide (cst nd c' b = MESI.I)) as [|Hne]; [done|]. exfalso.
        destruct (cst_line c' b Hne) as [l2 Hl2]. pose proof (cline_state c' b l2 Hok' Hl2) as Hb2.
        destruct (cline_array c' b l2 Hok' Hl2) as [_ Hb3]. simpl in Hb2, Hb3. fold arr in Hb3.
        destruct (decide (l2 = l)) as [->|Hne2]; [congruence|].
        rewrite list_lookup_insert_ne in Hb3 by done.
        rewrite (co_line _ _ Hok l2 _ b Hb2 Hne Hb3) in Hl'. congruence.
      + left. unfold cst, centry. by rewrite (Hkeep b l' Hl' Hne), Hl'.
    - destruct (decide (b = a)) as [->|Hba].
      + right. unfold cst. rewrite Ha, Hl'. simpl. by rewrite HI.
      + left. destruct (cline_spec c b (co_array _ _ Hok)) as [Hfb _]. rewrite Hl' in Hfb.
        unfold cst, centry. rewrite Hl'. unfold cline. simpl. fold arr.
        by rewrite find_line_none_keep. }
  intros b. unfold csh, cex. destruct (Hst b) as [[-> ->]|[H1 H2]]; [done|].
  destruct (csh_empty c b Hok H2) as [E1 E2], (csh_empty c' b Hok' H1) as [E3 E4].
  unfold csh, cex in *. rewrite H1, H2, E1, E2, E3, E4. done.
Qed.
End View.

(** ** The topology *)

(** The parent of cache [i] for an address. *)
Definition parent_of (nodes : list Node) (i : nat) (a : Address) : option Parent :=
  match nodes !! i with
  | Some nd => match getParentId a (length (n_parents nd)) with
               | Ok k => n_parents nd !! k
               | Err _ => None
               end
  | None => None
  end.

Definition lat_ok (z : Z) : Prop := 0 <= z < 2 ^ 32.

(** A tree for every address: caches are numbered from the cores up, the child
    ids agree, terminal caches have no children, every cache is inclusive. *)
Record topo_ok (nodes : list Node) (nmem : nat) : Prop := {
  to_size : Z.of_nat (length nodes) <= 2 ^ 20;
  to_array : forall i nd, nodes !! i = Some nd -> array_ok (n_array nd);
  to_some : forall i nd, nodes !! i = Some nd -> n_parents nd <> [];
  to_parent : forall i nd k p, nodes !! i = Some nd -> n_parents nd !! k = Some p ->
    match p with
    | ToMem m => (m < nmem)%nat
    | ToCache j => (i < j)%nat /\ exists pd, nodes !! j = Some pd /\ n_terminal pd = false /\
        n_children pd !! n_selfId nd = Some i
    end;
  to_child : forall j pd k i, nodes !! j = Some pd -> n_children pd !! k = Some i ->
    (i < j)%nat /\ exists nd, nodes !! i = Some nd /\ n_selfId nd = k;
  to_term : forall i nd, nodes !! i = Some nd -> n_terminal nd = true -> n_children nd = [];
  to_incl : forall i nd, nodes !! i = Some nd -> n_nonInclusiveHack nd = false;
  to_width : forall i nd, nodes !! i = Some nd -> (length (n_children nd) <= MAX_CACHE_CHILDREN)%nat;
  to_rtts : forall i nd, nodes !! i = Some nd ->
    length (n_parentRTTs nd) = length (n_parents nd) /\
    length (n_childrenRTTs nd) = length (n_children nd);
  to_lat : forall i nd, nodes !! i = Some nd ->
    lat_ok (n_accLat nd) /\ lat_ok (n_invLat nd) /\
    Forall lat_ok (n_parentRTTs nd) /\ Forall lat_ok (n_childrenRTTs nd)
}.

Lemma xor_fold_nonneg k tmp acc : 0 <= acc -> 0 <= xor_fold k tmp acc.
Proof.
  revert tmp acc. induction k as [|k IH]; intros tmp acc Hacc; simpl; [done|]. apply IH.
  apply Z.lxor_nonneg. split; [intros _|done]. apply Z.land_nonneg. left. lia.
Qed.

Lemma getParentId_lt a n : n <> 0%nat -> exists k, getParentId a n = Ok k /\ (k < n)%nat.
Proof.
  intros Hn. unfold getParentId, umod. destruct (Z.eqb_spec (Z.of_nat n) 0); [lia|].
  eexists. split; [done|]. pose proof (Z.mod_pos_bound (xor_fold 4 a 0) (Z.of_nat n)). lia.
Qed.

(** [j] is below [i], or is [i], on the way of the address. *)
Inductive under (nodes : list Node) (a : Address) (i : nat) : nat -> Prop :=
| under_refl : under nodes a i i
| under_step j q : parent_of nodes j a = Some (ToCache q) -> under nodes a i q -> under nodes a i j.

Section Topology.
Context (nodes : list Node) (nmem : nat) (Htopo : topo_ok nodes nmem).

Lemma parent_total i nd a :
  nodes !! i = Some nd -> exists k p, getParentId a (length (n_parents nd)) = Ok k /\
    n_parents nd !! k = Some p /\ parent_of nodes i a = Some p.
Proof.
  intros Hi. destruct (getParentId_lt a (length (n_parents nd))) as (k & Hk & Hlt).
  { intros E. apply length_zero_iff_nil in E. by apply (to_some _ _ Htopo i nd). }
  apply lookup_lt_is_Some in Hlt as [p Hp]. exists k, p. split_and!; [done|done|].
  unfold parent_of. by rewrite Hi, Hk.
Qed.

Lemma parent_cache i a q :
  parent_of nodes i a = Some (ToCache q) ->
  (i < q)%nat /\ exists nd qd, nodes !! i = Some nd /\ nodes !! q = Some qd /\
    n_terminal qd = false /\ n_children qd !! n_selfId nd = Some i.
Proof.
  unfold parent_of. destruct (nodes !! i) as [nd|] eqn:Hi; [|done].
  destruct (getParentId _ _) as [k|]; [|done]. intros Hk.
  destruct (to_parent _ _ Htopo i nd k _ Hi Hk) as (Hlt & qd & Hq & Ht & Hc). eauto 10.
Qed.

Lemma under_le a i j : under nodes a i j -> (j <= i)%nat.
Proof. induction 1 as [|j q Hp _ IH]; [done|]. apply parent_cache in Hp as [? _]. lia. Qed.

Lemma under_inv a i j :
  under nodes a i j -> j = i \/ exists q, parent_of nodes j a = Some (ToCache q) /\ under nodes a i q.
Proof. inversion 1; eauto. Qed.

Lemma under_trans a i j k : under nodes a i j -> under nodes a j k -> under nodes a i k.
Proof. intros H1 H2. induction H2; [done|]. by eapply under_step. Qed.

Lemma under_child a i c : parent_of nodes c a = Some (ToCache i) -> under nodes a i c.
Proof. intros Hp. eapply under_step; [done|apply under_refl]. Qed.

(** Below [i] but not [i]: below one of the children of [i]. *)
Lemma under_split a i j :
  under nodes a i j -> j <> i ->
  exists c, parent_of nodes c a = Some (ToCache i) /\ under nodes a c j.
Proof.
  induction 1 as [|j q Hp Hu IH]; intros Hne; [done|].
  destruct (decide (q = i)) as [->|Hq]; [exists j; split; [done|apply under_refl]|].
  destruct (IH Hq) as (c & Hc & Huc). exists c. split; [done|]. by eapply under_step.
Qed.

(** The subtrees of two children are disjoint. *)
Lemma under_disjoint a i c1 c2 j :
  parent_of nodes c1 a = Some (ToCache i) -> parent_of nodes c2 a = Some (ToCache i) ->
  under nodes a c1 j -> under nodes a c2 j -> c1 = c2.
Proof.
  intros H1 H2 Hu1. revert c2 H2. induction Hu1 as [|j q Hp Hu1 IH]; intros c2 H2 Hu2.
  - apply under_inv in Hu2 as [?|(q & Hq & Hu)]; [done|]. rewrite H1 in Hq. injection Hq as <-.
    apply under_le in Hu. apply parent_cache in H2 as [? _]. lia.
  - apply under_inv in Hu2 as [->|(q' & Hq & Hu)].
    + rewrite Hp in H2. injection H2 as ->. apply under_le in Hu1.
      apply parent_cache in H1 as [? _]. lia.
    + rewrite Hp in Hq. injection Hq as <-. by apply IH.
Qed.

Lemma under_dec a i j : under nodes a i j \/ ~ under nodes a i j.
Proof.
  remember (length nodes - j)%nat as k eqn:Hk. revert j Hk.
  induction k as [k IH] using lt_wf_ind; intros j ->.
  destruct (decide (j = i)) as [->|Hne]; [left; apply under_refl|].
  destruct (parent_of nodes j a) as [[q|m]|] eqn:Hp.
  - destruct (parent_cache _ _ _ Hp) as (Hlt & nd & qd & _ & Hq & _).
    apply lookup_lt_Some in Hq. destruct (IH (length nodes - q)%nat ltac:(lia) q eq_refl) as [Hu|Hu].
    + left. by eapply under_step.
    + right. intros [?|(q' & Hq' & Hu')]%under_inv; [done|]. congruence.
  - right. intros [?|(q' & Hq' & _)]%under_inv; congruence.
  - right. intros [?|(q' & Hq' & _)]%under_inv; congruence.
Qed.

Lemma under_node a i j : under nodes a i j -> is_Some (nodes !! i) -> is_Some (nodes !! j).
Proof.
  intros Hu Hi. apply under_inv in Hu as [->|(q & Hp & _)]; [done|].
  apply parent_cache in Hp as (_ & nd & _ & Hn & _). eauto.
Qed.
End Topology.

(** ** The view of a hierarchy *)
Section HierView.
Context {R D : Type} (nodes : list Node).
Implicit Types (h : Hier R D) (c : CacheSt R).

Definition hview {A} (dflt : A) (f : Node -> CacheSt R -> A) h (i : nat) : A :=
  match nodes !! i, h_caches h !! i with Some nd, Some c => f nd c | _, _ => dflt end.
Definition hst h (i : nat) (a : Address) : MESIState := hview MESI.I (fun nd c => cst nd c a) h i.
Definition hsh h (i : nat) (a : Address) : gset nat := hview ∅ (fun nd c => csh nd c a) h i.
Definition hex h (i : nat) (a : Address) : bool := hview false (fun nd c => cex nd c a) h i.

Definition upd h (i : nat) c : Hier R D := mkHier (<[i := c]> (h_caches h)) (h_mem h) (h_core h) (h_filters h).

Lemma hview_eq {A} (x : A) f h i nd c :
  nodes !! i = Some nd -> h_caches h !! i = Some c -> hview x f h i = f nd c.
Proof. intros H1 H2. unfold hview. by rewrite H1, H2. Qed.

Lemma hview_same {A} (x : A) f h h' i :
  h_caches h' !! i = h_caches h !! i -> hview x f h' i = hview x f h i.
Proof. intros E. unfold hview. by rewrite E. Qed.

Lemma upd_same h i c c0 : h_caches h !! i = Some c0 -> h_caches (upd h i c) !! i = Some c.
Proof. intros Hc. apply list_lookup_insert_eq. by eapply lookup_lt_Some. Qed.
Lemma upd_other h i j c : j <> i -> h_caches (upd h i c) !! j = h_caches h !! j.
Proof. intros Hne. by apply list_lookup_insert_ne. Qed.
Lemma upd_upd h i c c' : upd (upd h i c) i c' = upd h i c'.
Proof. unfold upd. simpl. by rewrite list_insert_insert_eq. Qed.
Lemma upd_id h i c : h_caches h !! i = Some c -> upd h i c = h.
Proof. intros Hc. unfold upd. rewrite list_insert_id by done. by destruct h. Qed.

(** ** The protocol invariant of a directory

    For the address [a], the sharers of cache [p] are exactly the children that
    hold the line; the directory is exclusive exactly when its sharer is in E or
    M; whatever a child holds, [p] holds (inclusion), exclusively if the child
    does. *)
Record node_ok h (p : nat) (a : Address) : Prop := {
  no_sharers : forall pd k, nodes !! p = Some pd ->
    k ∈ hsh h p a <-> exists i, n_children pd !! k = Some i /\
      parent_of nodes i a = Some (ToCache p) /\ hst h i a <> MESI.I;
  no_excl : forall pd k i, nodes !! p = Some pd -> n_children pd !! k = Some i ->
    parent_of nodes i a = Some (ToCache p) ->
    isx (hst h i a) <-> k ∈ hsh h p a /\ hex h p a = true;
  no_incl : hsh h p a <> ∅ -> hst h p a <> MESI.I;
  no_top : hex h p a = true -> isx (hst h p a)
}.

(** [node_ok] depends on the view of [p] and on the states of its children. *)
Lemma node_ok_ext h h' p a :
  node_ok h p a -> hsh h' p a = hsh h p a -> hex h' p a = hex h p a -> hst h' p a = hst h p a ->
  (forall i, parent_of nodes i a = Some (ToCache p) -> hst h' i a = hst h i a) ->
  node_ok h' p a.
Proof.
  intros [H1 H2 H3 H4] E1 E2 E3 E4. split.
  - intros pd k Hp. rewrite E1, (H1 pd k Hp).
    split; intros (i & Hc & Hpar & Hst); exists i; rewrite ?E4 in * by done; done.
  - intros pd k i Hp Hc Hpar. rewrite E1, E2, E4 by done. by apply H2 with pd.
  - by rewrite E1, E3.
  - by rewrite E2, E3.
Qed.

(** Every cache is well formed. *)
Definition caches_ok h : Prop :=
  length (h_caches h) = length nodes /\
  forall i nd c, nodes !! i = Some nd -> h_caches h !! i = Some c -> cache_ok nd c.

(** The coherence invariant of a hierarchy at rest. *)
Record coherent h : Prop := {
  ch_caches : caches_ok h;
  ch_nodes : forall p a, node_ok h p a
}.

Lemma cache_of h i nd : caches_ok h -> nodes !! i = Some nd ->
  exists c, h_caches h !! i = Some c /\ cache_ok nd c.
Proof.
  intros [Hlen Hok] Hi. destruct (lookup_lt_is_Some_2 (h_caches h) i) as [c Hc].
  { rewrite Hlen. by eapply lookup_lt_Some. }
  eauto.
Qed.

(** ** Rules for the primitive computations *)
Context `{RP : ReplPolicy R} `{MT : MemTop D}.

Lemma wp_node i nd Q h : nodes !! i = Some nd -> Q nd h -> wp (node nodes i) Q h.
Proof. intros Hi HQ. eapply wp_lift; [by apply at_ok|done]. Qed.

Lemma wp_get_cache i c Q h : h_caches h !! i = Some c -> Q c h -> wp (get_cache i) Q h.
Proof. intros Hi HQ. apply wp_bind, wp_get. eapply wp_lift; [by apply at_ok|done]. Qed.

Lemma wp_mod_cache i f c Q h :
  h_caches h !! i = Some c -> Q tt (upd h i (f c)) -> wp (mod_cache i f) Q h.
Proof.
  intros Hi HQ. apply wp_modify. unfold upd in HQ.
  replace (alter f i (h_caches h)) with (<[i := f c]> (h_caches h)); [done|].
  apply list_eq. intros j. destruct (decide (j = i)) as [->|Hne].
  - rewrite list_lookup_alter_eq, list_lookup_insert_eq, Hi by (by eapply lookup_lt_Some). done.
  - by rewrite list_lookup_insert_ne, list_lookup_alter_ne by done.
Qed.

Lemma wp_get_state i l c s Q h :
  h_caches h !! i = Some c -> ca_bcc c !! l = Some s -> Q s h -> wp (get_state i l) Q h.
Proof.
  intros Hi Hl HQ. apply wp_bind. eapply wp_get_cache; [done|]. eapply wp_lift; [by apply at_ok|done].
Qed.

Lemma wp_get_entry i l c e Q h :
  h_caches h !! i = Some c -> ca_tcc c !! l = Some e -> Q e h -> wp (get_entry i l) Q h.
Proof.
  intros Hi Hl HQ. apply wp_bind. eapply wp_get_cache; [done|]. eapply wp_lift; [by apply at_ok|done].
Qed.

Lemma wp_put_state i l c s Q h :
  h_caches h !! i = Some c -> Q tt (upd h i (set_bcc (<[l := s]> (ca_bcc c)) c)) ->
  wp (put_state i l s) Q h.
Proof. intros Hc HQ. unfold put_state. by eapply wp_mod_cache. Qed.

Lemma wp_put_entry i l c e Q h :
  h_caches h !! i = Some c -> Q tt (upd h i (set_tcc (<[l := e]> (ca_tcc c)) c)) ->
  wp (put_entry i l e) Q h.
Proof. intros Hc HQ. unfold put_entry. by eapply wp_mod_cache. Qed.

(** A lookup without an update of the policy changes nothing. *)
Lemma wp_lookup_quiet i nd c a Q h :
  nodes !! i = Some nd -> array_ok (n_array nd) -> h_caches h !! i = Some c -> cache_ok nd c ->
  Q (cline nd c a) h -> wp (on_array i (sa_lookup (n_array nd) a false false)) Q h.
Proof.
  intros Hi Harr Hc Hok HQ. unfold on_array. apply wp_bind. eapply wp_get_cache; [done|].
  destruct (cline_spec nd Harr c a (co_array _ _ Hok)) as [Hf _]. apply wp_bind.
  assert (sa_lookup (n_array nd) a false false (ca_sa c) = Ok (cline nd c a, ca_sa c)) as Hrun.
  { unfold sa_lookup, bind, get, lift. rewrite Hf. destruct (cline nd c a); done. }
  eapply wp_lift; [exact Hrun|]. apply wp_bind. eapply wp_mod_cache; [done|]. apply wp_ret.
  replace (set_sa (ca_sa c) c) with c by (by destruct c). by rewrite upd_id.
Qed.
End HierView.
