(* ===== verification/CoherenceInval.v ===== *)
(** * Invalidations

    [Cache::invalidate] on a subtree of a coherent hierarchy: it returns, the
    subtree loses the line (or its exclusivity), the directories of the subtree
    stay consistent, and nothing else changes. *)

From stdpp Require Import base list gmap strings sets.
From Stdlib Require Import ZArith Lia.
From S2P Require Import Prelude Numeric MemHierarchy DdrBound ReplPolicy CacheArray Coherence CoherenceInv.
Local Open Scope Z_scope.

Lemma length_filter_size (X : gset nat) (cs : list nat) :
  NoDup cs -> (forall k, k ∈ X -> k ∈ cs) -> length (filter (.∈ X) cs) = size X.
Proof.
  intros Hnd Hsub. rewrite <- (size_list_to_set (C := gset nat)) by (by apply NoDup_filter).
  f_equal. apply set_eq. intros k. rewrite elem_of_list_to_set, list_elem_of_filter. naive_solver.
Qed.

Lemma filter_ext_in (X Y : gset nat) (cs : list nat) :
  (forall k, k ∈ cs -> k ∈ X <-> k ∈ Y) -> filter (.∈ X) cs = filter (.∈ Y) cs.
Proof.
  induction cs as [|k cs IH]; intros Hxy; [done|]. rewrite !filter_cons.
  rewrite IH by (intros; apply Hxy; by right). specialize (Hxy k ltac:(by left)).
  destruct (decide (k ∈ X)), (decide (k ∈ Y)); naive_solver.
Qed.

Section Inval.
Context {R D : Type} `{RP : ReplPolicy R} `{MT : MemTop D}.
Context (nodes : list Node) (nmem : nat) (Htopo : topo_ok nodes nmem).
Implicit Types (h : Hier R D) (c : CacheSt R).

Abbreviation under := (under nodes).
Abbreviation parent_of := (parent_of nodes).
Abbreviation hst := (hst nodes).
Abbreviation node_ok := (node_ok nodes).

(** The latency that one level of invalidations can add. *)
Definition step_lat : Z := 2 ^ 33.

(** What an invalidation of [a] may change in a cache: states and directory
    entries of [a] only. *)
Definition touched (nd : Node) (a : Address) c c' : Prop :=
  ca_sa c' = ca_sa c /\ ca_bccLock c' = ca_bccLock c /\ ca_tccLock c' = ca_tccLock c /\
  forall b, b <> a -> cst nd c' b = cst nd c b /\ centry nd c' b = centry nd c b.

Definition touched_at (a : Address) h h' (j : nat) : Prop :=
  exists nd c c', nodes !! j = Some nd /\ h_caches h !! j = Some c /\ h_caches h' !! j = Some c' /\
    touched nd a c c'.

(** A consistent subtree whose [bcc] locks are free. *)
Definition sub_ok h (i : nat) (a : Address) : Prop :=
  forall j, under a i j -> node_ok h j a /\
    exists nd c, nodes !! j = Some nd /\ h_caches h !! j = Some c /\ cache_ok nd c /\
      ca_bccLock c = false.

(** Only the subtree of [i] changes, and only for [a]. *)
Definition only_under (a : Address) (i : nat) h h' : Prop :=
  h_mem h' = h_mem h /\ h_core h' = h_core h /\
  forall j, h_caches h' !! j = h_caches h !! j \/ (under a i j /\ touched_at a h h' j).

Definition inv_pre (t : InvType) (s : MESIState) : Prop :=
  match t with INV => s <> MESI.I | INVX => isx s | FWD => False end.
Definition inv_target (t : InvType) : MESIState := match t with INV => MESI.I | _ => MESI.S end.

(** Some cache of the subtree holds modified data. *)
Definition dirty h (i : nat) (a : Address) : Prop := exists j, under a i j /\ hst h j a = MESI.M.

(** What a parent relies on when it invalidates its child [i]. *)
Definition inval_spec (down : nat -> InvReq -> M (Hier R D) (Z * bool)) (i : nat) : Prop :=
  forall a t wb cyc src h,
    sub_ok h i a -> inv_pre t (hst h i a) -> 0 <= cyc -> cyc + step_lat * Z.of_nat (S i) < 2 ^ 64 ->
    wp (down i (mkInvReq a t wb cyc src)) (fun r h' =>
      only_under a i h h' /\ sub_ok h' i a /\ hst h' i a = inv_target t /\
      cyc <= r.1 <= cyc + step_lat * Z.of_nat (S i) /\
      (r.2 = true -> wb = true \/ isx (hst h i a)) /\
      (wb = true \/ dirty h i a -> r.2 = true)) h.

Lemma dirty_same h h' i a :
  (forall j, under a i j -> h_caches h' !! j = h_caches h !! j) -> dirty h i a -> dirty h' i a.
Proof.
  intros Hs (j & Hu & Hj). exists j. split; [done|]. rewrite <- Hj. by apply hview_same, Hs.
Qed.

Lemma sub_ok_frame h h' i a :
  sub_ok h i a -> (forall j, under a i j -> h_caches h' !! j = h_caches h !! j) -> sub_ok h' i a.
Proof.
  intros Hsub Hsame j Hu. destruct (Hsub j Hu) as [Hn (nd & c & Hj & Hc & Hok & Hl)]. split.
  - eapply node_ok_ext; [done|..]; try (by apply hview_same, Hsame).
    intros k Hk. apply hview_same, Hsame. by eapply under_step.
  - exists nd, c. by rewrite Hsame.
Qed.

Lemma sub_ok_child h i k a : sub_ok h i a -> parent_of k a = Some (ToCache i) -> sub_ok h k a.
Proof.
  intros Hsub Hp j Hu. apply Hsub. eapply under_trans; [by apply under_child|done].
Qed.

Lemma touched_refl nd a c : touched nd a c c.
Proof. done. Qed.
Lemma touched_trans nd a c1 c2 c3 : touched nd a c1 c2 -> touched nd a c2 c3 -> touched nd a c1 c3.
Proof.
  intros (A1 & A2 & A3 & A4) (B1 & B2 & B3 & B4). split_and!; try congruence.
  intros b Hb. destruct (A4 b Hb), (B4 b Hb). split; congruence.
Qed.

(** ** The loop over the children of [p] *)
Section Loop.
Context (down : nat -> InvReq -> M (Hier R D) (Z * bool)).
Context (p : nat) (pd : Node) (a : Address) (l : nat) (t : InvType) (cyc src : Z).
Context (Hp : nodes !! p = Some pd).
Context (Hdown : forall ch, (ch < p)%nat -> inval_spec down ch).
Context (Hcyc0 : 0 <= cyc) (Hcyc : cyc + step_lat * Z.of_nat p + 2 ^ 32 < 2 ^ 64).

(** The children that receive the invalidation. *)
Definition target_child (X : gset nat) (cs : list nat) (ch : nat) : Prop :=
  exists k, k ∈ cs /\ k ∈ X /\ n_children pd !! k = Some ch.

Definition child_ready h (ch : nat) : Prop :=
  parent_of ch a = Some (ToCache p) /\ sub_ok h ch a /\ inv_pre t (hst h ch a).

(** Everything but the entry of [p] that the loop changes. *)
Definition loop_frame (T : nat -> Prop) h h' : Prop :=
  h_mem h' = h_mem h /\ h_core h' = h_core h /\
  forall j, j <> p -> h_caches h' !! j = h_caches h !! j \/
    (exists ch, T ch /\ under a ch j /\ touched_at a h h' j).

Definition entry_after (e : Entry) (cs : list nat) : Entry :=
  match t with
  | INV => mkEntry (e_numSharers e) (e_sharers e ∖ list_to_set cs) (e_exclusive e)
  | _ => e
  end.

Lemma touched_at_trans h1 h2 h3 j :
  touched_at a h1 h2 j -> touched_at a h2 h3 j -> touched_at a h1 h3 j.
Proof.
  intros (nd & c1 & c2 & Hn & H1 & H2 & T1) (nd' & c2' & c3 & Hn' & H2' & H3 & T2). simplify_eq.
  exists nd, c1, c3. split_and!; try done. by eapply touched_trans.
Qed.

Lemma touched_at_left h1 h2 h3 j :
  touched_at a h1 h2 j -> h_caches h3 !! j = h_caches h2 !! j -> touched_at a h1 h3 j.
Proof. intros (nd & c1 & c2 & Hn & H1 & H2 & T) E. exists nd, c1, c2. by rewrite E. Qed.
Lemma touched_at_right h1 h2 h3 j :
  h_caches h2 !! j = h_caches h1 !! j -> touched_at a h2 h3 j -> touched_at a h1 h3 j.
Proof. intros E (nd & c1 & c2 & Hn & H1 & H2 & T). exists nd, c1, c2. by rewrite <- E. Qed.

Lemma loop_frame_trans (T1 T2 T : nat -> Prop) h1 h2 h3 :
  loop_frame T1 h1 h2 -> loop_frame T2 h2 h3 -> (forall k, T1 k -> T k) -> (forall k, T2 k -> T k) ->
  loop_frame T h1 h3.
Proof.
  intros (A1 & A2 & A3) (B1 & B2 & B3) I1 I2. split_and!; try congruence. intros j Hj.
  destruct (A3 j Hj) as [E1|(c1 & C1 & U1 & T1')], (B3 j Hj) as [E2|(c2 & C2 & U2 & T2')].
  - left. congruence.
  - right. exists c2. split_and!; [auto|done|by eapply touched_at_right].
  - right. exists c1. split_and!; [auto|done|by eapply touched_at_left].
  - right. exists c1. split_and!; [auto|done|by eapply touched_at_trans].
Qed.

Definition loop_post (e : Entry) (cp : CacheSt R) (cs : list nat) (wb : bool) (sent : Z) h
    (r : Z * bool * Z) h' : Prop :=
  h_caches h' !! p = Some (set_tcc (<[l := entry_after e cs]> (ca_tcc cp)) cp) /\
  loop_frame (target_child (e_sharers e) cs) h h' /\
  (forall ch, target_child (e_sharers e) cs ch -> sub_ok h' ch a /\ hst h' ch a = inv_target t) /\
  cyc <= r.1.1 <= cyc + step_lat * Z.of_nat p + 2 ^ 32 /\
  (r.1.2 = true -> wb = true \/ exists ch, target_child (e_sharers e) cs ch /\ isx (hst h ch a)) /\
  ((wb = true \/ exists ch, target_child (e_sharers e) cs ch /\ dirty h ch a) -> r.1.2 = true) /\
  r.2 = sent + Z.of_nat (length (filter (.∈ e_sharers e) cs)).

Lemma entry_after_skip e k cs : k ∉ e_sharers e -> entry_after e (k :: cs) = entry_after e cs.
Proof.
  intros Hk. unfold entry_after. destruct t; try done. f_equal. apply set_eq. intros x.
  rewrite list_to_set_cons, !elem_of_difference, elem_of_union, elem_of_singleton. naive_solver.
Qed.

Lemma entry_after_cons e k cs :
  entry_after (match t with INV => del_sharer k e | _ => e end) cs = entry_after e (k :: cs).
Proof.
  unfold entry_after, del_sharer. destruct t; try done. simpl. f_equal. apply set_eq. intros x.
  rewrite !elem_of_difference, elem_of_union, elem_of_singleton. naive_solver.
Qed.

Lemma target_cons X k cs ch :
  target_child X (k :: cs) ch <-> (k ∈ X /\ n_children pd !! k = Some ch) \/ target_child X cs ch.
Proof.
  unfold target_child. split.
  - intros (k' & Hin & HX & Hc). apply elem_of_cons in Hin as [->|Hin]; naive_solver.
  - intros [[HX Hc]|(k' & Hin & HX & Hc)]; [exists k|exists k']; rewrite elem_of_cons; naive_solver.
Qed.

(** The subtree of a child is not affected by invalidations of its siblings. *)
Lemma subtree_same (T : nat -> Prop) h h' ch :
  parent_of ch a = Some (ToCache p) ->
  (forall j, j <> p -> h_caches h' !! j = h_caches h !! j \/ exists ch1, T ch1 /\ under a ch1 j) ->
  (forall ch1, T ch1 -> parent_of ch1 a = Some (ToCache p) /\ ch1 <> ch) ->
  forall j, under a ch j -> h_caches h' !! j = h_caches h !! j.
Proof.
  intros Hpar Hsame HT j Hu. destruct (Hsame j) as [?|(ch1 & H1 & Hu1)]; [|done|].
  - pose proof (under_le _ _ Htopo _ _ _ Hu). apply (parent_cache _ _ Htopo) in Hpar as [? _]. lia.
  - destruct (HT ch1 H1) as [Hpar1 Hne].
    by pose proof (under_disjoint _ _ Htopo _ _ _ _ _ Hpar Hpar1 Hu Hu1).
Qed.

Lemma subtree_keep h h' ch :
  (forall j, under a ch j -> h_caches h' !! j = h_caches h !! j) ->
  (sub_ok h ch a -> sub_ok h' ch a) /\ hst h' ch a = hst h ch a.
Proof.
  intros Hsame. split; [intros; by eapply sub_ok_frame|]. apply hview_same, Hsame, under_refl.
Qed.

(** A child is named once. *)
Lemma child_unique k k' ch : n_children pd !! k = Some ch -> n_children pd !! k' = Some ch -> k = k'.
Proof.
  intros H1 H2. destruct (to_child _ _ Htopo _ _ _ _ Hp H1) as (_ & nd & Hn & <-).
  destruct (to_child _ _ Htopo _ _ _ _ Hp H2) as (_ & nd' & Hn' & <-). congruence.
Qed.

(** The child at the head of the list. *)
Lemma step_frame h h1 ch1 :
  parent_of ch1 a = Some (ToCache p) -> only_under a ch1 h h1 ->
  h_caches h1 !! p = h_caches h !! p /\ loop_frame (eq ch1) h h1.
Proof.
  intros Hpar (H1 & H2 & H3). split.
  - destruct (H3 p) as [?|[Hu _]]; [done|]. apply (under_le _ _ Htopo) in Hu.
    apply (parent_cache _ _ Htopo) in Hpar as [? _]. lia.
  - split_and!; [done|done|]. intros j Hj. destruct (H3 j) as [?|[Hu Ht]]; eauto.
Qed.

Lemma loop_frame_upd (T : nat -> Prop) h h1 c : loop_frame T h h1 -> loop_frame T h (upd h1 p c).
Proof.
  intros (H1 & H2 & H3). split_and!; [done|done|]. intros j Hj.
  destruct (H3 j Hj) as [E|(ch & HT & Hu & Ht)].
  - left. by rewrite upd_other.
  - right. exists ch. split_and!; [done|done|]. eapply touched_at_left; [done|]. by apply upd_other.
Qed.

Lemma loop_frame_same (T : nat -> Prop) h h' j :
  loop_frame T h h' -> j <> p -> h_caches h' !! j = h_caches h !! j \/ exists ch, T ch /\ under a ch j.
Proof. intros (_ & _ & H3) Hj. destruct (H3 j Hj) as [?|(ch & ? & ? & _)]; eauto. Qed.

Lemma send_step h cp e wb k ch :
  h_caches h !! p = Some cp -> ca_tcc cp !! l = Some e -> n_children pd !! k = Some ch ->
  child_ready h ch ->
  wp (down ch (mkInvReq a t wb cyc src)) (fun r h1 =>
    h_caches h1 !! p = Some cp /\ loop_frame (eq ch) h h1 /\ sub_ok h1 ch a /\
    hst h1 ch a = inv_target t /\ cyc <= r.1 <= cyc + step_lat * Z.of_nat p /\
    (r.2 = true -> wb = true \/ isx (hst h ch a)) /\ (wb = true \/ dirty h ch a -> r.2 = true)) h.
Proof.
  intros Hcp He Hk (Hpar & Hsub & Hpre). destruct (parent_cache _ _ Htopo _ _ _ Hpar) as [Hlt _].
  assert (step_lat * Z.of_nat (S ch) <= step_lat * Z.of_nat p) by (unfold step_lat; lia).
  eapply wp_mono; [by apply (Hdown ch Hlt); try lia|].
  intros r h1 (Hf & Hs & Hst & Hb & Hw & Hd). destruct (step_frame h h1 ch Hpar Hf) as [E F].
  split_and!; try done; [congruence|lia|lia].
Qed.

Lemma loop_compose h h2 h' cp e k ch cs wb wb1 sent r :
  n_children pd !! k = Some ch -> k ∈ e_sharers e -> k ∉ cs ->
  (forall ch', target_child (e_sharers e) (k :: cs) ch' -> parent_of ch' a = Some (ToCache p)) ->
  loop_frame (eq ch) h h2 -> sub_ok h2 ch a -> hst h2 ch a = inv_target t ->
  (wb1 = true -> wb = true \/ isx (hst h ch a)) -> (wb = true \/ dirty h ch a -> wb1 = true) ->
  (forall ch', target_child (e_sharers e) cs ch' -> hst h2 ch' a = hst h ch' a /\
     (dirty h ch' a -> dirty h2 ch' a)) ->
  let e2 := match t with INV => del_sharer k e | _ => e end in
  loop_post e2 (set_tcc (<[l := e2]> (ca_tcc cp)) cp) cs wb1 (sent + 1) h2 r h' ->
  loop_post e cp (k :: cs) wb sent h r h'.
Proof.
  intros Hk HkX Hkcs Hpar F1 Hsub Hst Hwb Hwd Hsame e2 (P1 & P2 & P3 & P4 & P5 & P5' & P6).
  assert (forall ch', target_child (e_sharers e2) cs ch' <-> target_child (e_sharers e) cs ch') as HT.
  { intros ch'. unfold target_child, e2. destruct t; try done. simpl. split; intros (k' & ? & ? & ?);
      exists k'; split_and!; try done; [set_solver|]. apply elem_of_difference. split; [done|].
    apply not_elem_of_singleton. by intros ->. }
  assert (forall ch', target_child (e_sharers e) cs ch' -> ch' <> ch) as Hne.
  { intros ch' (k' & Hk' & _ & Hc') ->. assert (k' = k) as -> by (by eapply child_unique). done. }
  assert (forall j, under a ch j -> h_caches h' !! j = h_caches h2 !! j) as Hch.
  { apply (subtree_same (target_child (e_sharers e2) cs)); [apply Hpar, target_cons; by left| |].
    - intros j Hj. by apply loop_frame_same.
    - intros ch1 H1. rewrite HT in H1. split; [apply Hpar, target_cons; by right|by apply Hne]. }
  destruct (subtree_keep h2 h' ch Hch) as [K1 K2]. unfold loop_post. split_and!; try lia.
  - rewrite P1. f_equal. unfold set_tcc. simpl. rewrite list_insert_insert_eq. unfold e2.
    by rewrite entry_after_cons.
  - eapply loop_frame_trans; [exact F1|exact P2| |].
    + intros ch' <-. apply target_cons. by left.
    + intros ch' H'. apply target_cons. right. by apply HT.
  - intros ch' H'. apply target_cons in H' as [[_ Hc']|H'].
    + assert (ch' = ch) as -> by congruence. split; [by apply K1|by rewrite K2].
    + apply P3, HT, H'.
  - intros Hr. destruct (P5 Hr) as [Hw|(ch' & H' & Hx)].
    + destruct (Hwb Hw) as [?|Hx]; [by left|]. right. exists ch. split; [apply target_cons; by left|done].
    + right. rewrite HT in H'. exists ch'. split; [apply target_cons; by right|].
      by rewrite <- (proj1 (Hsame ch' H')).
  - intros Hr. apply P5'. destruct Hr as [Hw|(ch' & H' & Hd)]; [left; auto|].
    apply target_cons in H' as [[_ Hc']|H'].
    + assert (ch' = ch) as -> by congruence. left. auto.
    + right. exists ch'. split; [by apply HT|]. by apply (Hsame ch' H').
  - rewrite P6, filter_cons_True by done. simpl length.
    assert (filter (.∈ e_sharers e2) cs = filter (.∈ e_sharers e) cs) as ->; [|lia].
    apply filter_ext_in. intros k' Hk'. unfold e2. destruct t; try done. simpl.
    rewrite elem_of_difference, elem_of_singleton. split; [tauto|]. intros ?. split; [done|].
    by intros ->.
Qed.

(** No child is left. *)
Lemma loop_nil h cp e maxC wb sent :
  h_caches h !! p = Some cp -> ca_tcc cp !! l = Some e ->
  cyc <= maxC <= cyc + step_lat * Z.of_nat p + 2 ^ 32 -> loop_post e cp [] wb sent h (maxC, wb, sent) h.
Proof.
  intros Hcp He HmaxC. unfold loop_post. simpl.
  assert (entry_after e [] = e) as ->.
  { unfold entry_after. destruct t; try done. simpl. rewrite difference_empty_L. by destruct e. }
  rewrite list_insert_id by done. split_and!; try lia; try done.
  - rewrite Hcp. f_equal. by destruct cp.
  - split_and!; [done|done|]. by left.
  - intros ch (k & Hk & _). by apply not_elem_of_nil in Hk.
  - by left.
  - intros [?|(ch & (k & Hk & _) & _)]; [done|]. by apply not_elem_of_nil in Hk.
Qed.

(** A child that does not share the line. *)
Lemma loop_skip h h' cp e k cs wb sent r :
  k ∉ e_sharers e -> loop_post e cp cs wb sent h r h' -> loop_post e cp (k :: cs) wb sent h r h'.
Proof.
  intros HkX (P1 & P2 & P3 & P4 & P5 & P5' & P6). unfold loop_post.
  rewrite entry_after_skip, filter_cons_False by done.
  assert (forall ch, target_child (e_sharers e) (k :: cs) ch <-> target_child (e_sharers e) cs ch) as HT
    by (intros ch; rewrite target_cons; naive_solver).
  split_and!; try done; try lia.
  - eapply (loop_frame_trans (fun _ => False)); [|exact P2|by intros ch []|intros ch; apply HT].
    split_and!; [done|done|]. by left.
  - intros ch Hch. apply P3, HT, Hch.
  - intros Hr. destruct (P5 Hr) as [?|(ch & Hch & ?)]; [by left|]. right. exists ch. split; [by apply HT|done].
  - intros Hr. apply P5'. destruct Hr as [?|(ch & Hch & ?)]; [by left|]. right. exists ch. split; [by apply HT|done].
Qed.

Lemma child_rtt k ch : n_children pd !! k = Some ch -> exists rtt, n_childrenRTTs pd !! k = Some rtt /\ lat_ok rtt.
Proof.
  intros Hk. destruct (to_rtts _ _ Htopo p pd Hp) as [_ Hlen]. destruct (to_lat _ _ Htopo p pd Hp) as (_ & _ & _ & Hf).
  destruct (lookup_lt_is_Some_2 (n_childrenRTTs pd) k) as [x Hx].
  { rewrite Hlen. by eapply lookup_lt_Some. }
  exists x. split; [done|]. rewrite Forall_lookup in Hf. by eapply Hf.
Qed.

(** The child's bit is cleared when the line is taken away from it. *)
Lemma clear_sharer_ok h h1 cp e k ch :
  h_caches h1 !! p = Some cp -> ca_tcc cp !! l = Some e -> loop_frame (eq ch) h h1 ->
  wp (when (bool_decide (t = INV)) (e0 <- get_entry p l;; put_entry p l (del_sharer k e0)))
    (fun _ h2 => h_caches h2 !! p =
         Some (set_tcc (<[l := match t with INV => del_sharer k e | _ => e end]> (ca_tcc cp)) cp) /\
       loop_frame (eq ch) h h2 /\ forall j, j <> p -> h_caches h2 !! j = h_caches h1 !! j) h1.
Proof.
  intros Hcp1 He F1. destruct (bool_decide_reflect (t = INV)) as [Et|Et]; simpl.
  - apply wp_bind. eapply wp_get_entry; [done|done|]. eapply wp_put_entry; [done|]. split_and!.
    + rewrite Et. by eapply upd_same.
    + by apply loop_frame_upd.
    + intros j Hj. by apply upd_other.
  - apply wp_ret. split_and!; [|done|done]. rewrite Hcp1. f_equal.
    destruct t; [done|..]; rewrite list_insert_id by done; by destruct cp.
Qed.

Lemma send_loop_ok cs : forall h cp e maxC wb sent,
  NoDup cs -> h_caches h !! p = Some cp -> ca_tcc cp !! l = Some e ->
  (forall k, k ∈ e_sharers e -> is_Some (n_children pd !! k)) ->
  (forall ch, target_child (e_sharers e) cs ch -> child_ready h ch) ->
  cyc <= maxC <= cyc + step_lat * Z.of_nat p + 2 ^ 32 -> 0 <= sent ->
  sent + Z.of_nat (length cs) < 2 ^ 32 ->
  wp (send_loop nodes down p a l t cyc src cs maxC wb sent) (loop_post e cp cs wb sent h) h.
Proof.
  induction cs as [|k cs IH]; intros h cp e maxC wb sent Hnd Hcp He Hsome Hready HmaxC Hs0 Hs; simpl.
  { apply wp_ret. by apply loop_nil. }
  apply NoDup_cons in Hnd as [Hkcs Hnd]. simpl in Hs.
  apply wp_bind. eapply wp_get_entry; [done|done|].
  destruct (bool_decide_reflect (k ∈ e_sharers e)) as [HkX|HkX].
  2:{ eapply wp_mono; [apply (IH h cp e maxC wb sent); try done; try lia|].
      - intros ch Hch. apply Hready, target_cons. by right.
      - intros r h'. by apply loop_skip. }
  destruct (Hsome k HkX) as [ch Hch].
  assert (target_child (e_sharers e) (k :: cs) ch) as Htch by (apply target_cons; by left).
  destruct (child_rtt k ch Hch) as (rtt & Hrl & Hrtt).
  apply wp_bind. eapply wp_node; [done|]. apply wp_bind. eapply wp_lift; [by apply at_ok|].
  apply wp_bind. eapply wp_mono; [by eapply send_step; [done|done|done|apply Hready]|].
  intros [resp wb1] h1 (Hcp1 & F1 & Hsub1 & Hst1 & Hb1 & Hw1 & Hd1). cbv beta iota. simpl in Hb1, Hw1, Hd1.
  apply wp_bind. eapply wp_lift; [by apply at_ok|].
  set (e2 := match t with INV => del_sharer k e | _ => e end).
  set (cp2 := set_tcc (<[l := e2]> (ca_tcc cp)) cp).
  apply wp_bind. eapply wp_mono; [by apply (clear_sharer_ok h h1 cp e k ch)|]. fold e2. fold cp2.
  intros [] h2 (Hcp2 & F2 & Hsame2).
  assert (u64 (resp + rtt) = resp + rtt) as -> by (apply u64_id; unfold in_u64, lat_ok in *; lia).
  assert (u32 (sent + 1) = sent + 1) as -> by (apply u32_id; unfold in_u32; lia).
  assert (parent_of ch a = Some (ToCache p)) as Hpar by (apply (Hready ch Htch)).
  assert (forall ch', target_child (e_sharers e) cs ch' -> ch' <> ch) as Hne.
  { intros ch' (k' & Hk' & _ & Hc') ->. assert (k' = k) as -> by (by eapply child_unique). done. }
  assert (forall ch', target_child (e_sharers e) cs ch' ->
            forall j, under a ch' j -> h_caches h2 !! j = h_caches h !! j) as Hcs.
  { intros ch' Hch'. apply (subtree_same (eq ch)).
    - apply (Hready ch'), target_cons. by right.
    - intros j Hj. by apply loop_frame_same.
    - intros ch1 <-. split; [done|]. intros ->. by apply (Hne ch'). }
  assert (forall j, under a ch j -> h_caches h2 !! j = h_caches h1 !! j) as Hch2.
  { intros j Hu. apply Hsame2. intros ->. apply (under_le _ _ Htopo) in Hu.
    apply (parent_cache _ _ Htopo) in Hpar as [? _]. lia. }
  destruct (subtree_keep h1 h2 ch Hch2) as [K1 K2].
  eapply wp_mono.
  - apply (IH h2 cp2 e2); try done; try lia.
    + unfold cp2. simpl. apply list_lookup_insert_eq. by eapply lookup_lt_Some.
    + intros k' Hk'. apply Hsome. unfold e2 in Hk'. destruct t; simpl in Hk'; set_solver.
    + intros ch' (k' & Hk' & HX & Hc'). assert (target_child (e_sharers e) cs ch') as Hch'.
      { exists k'. split_and!; [done| |done]. unfold e2 in HX. destruct t; simpl in HX; set_solver. }
      destruct (Hready ch') as (A1 & A2 & A3); [apply target_cons; by right|].
      destruct (subtree_keep h h2 ch' (Hcs ch' Hch')) as [B1 B2].
      split_and!; [done|by apply B1|by rewrite B2].
    + unfold lat_ok in Hrtt. lia.
  - intros r h' Hpost. eapply (loop_compose h h2 h' cp e k ch cs wb wb1 sent); try done.
    + intros ch' Hch'. apply (Hready ch' Hch').
    + by apply K1.
    + by rewrite K2.
    + intros ch' Hch'. split; [by apply (subtree_keep h h2 ch' (Hcs ch' Hch'))|].
      apply dirty_same, (Hcs ch' Hch').
Qed.

(** ** [sendInvalidates] *)

(** The entry afterwards. *)
Definition sent_entry (e : Entry) : Entry :=
  match t with
  | INV => mkEntry 0 ∅ (e_exclusive e)
  | _ => if entry_isExclusive e then set_exclusive false e else e
  end.

(** The children that are reached: a downgrade goes to an exclusive sharer
    only. *)
Definition reached (e : Entry) (ch : nat) : Prop :=
  (t = INV \/ entry_isExclusive e = true) /\
  exists k, k ∈ e_sharers e /\ n_children pd !! k = Some ch.

Definition send_post (e : Entry) (cp : CacheSt R) (wb : bool) h (r : Z * bool) h' : Prop :=
  h_caches h' !! p = Some (set_tcc (<[l := sent_entry e]> (ca_tcc cp)) cp) /\
  loop_frame (reached e) h h' /\
  (forall ch, reached e ch -> sub_ok h' ch a /\ hst h' ch a = inv_target t) /\
  cyc <= r.1 <= cyc + step_lat * Z.of_nat p + 2 ^ 32 /\
  (r.2 = true -> wb = true \/ exists ch, reached e ch /\ isx (hst h ch a)) /\
  ((wb = true \/ exists ch, reached e ch /\ dirty h ch a) -> r.2 = true).

Lemma send_nothing h cp e wb :
  h_caches h !! p = Some cp -> ca_tcc cp !! l = Some e -> sent_entry e = e ->
  (forall ch, ~ reached e ch) -> send_post e cp wb h (cyc, wb) h.
Proof.
  intros Hcp He Hs Hno. unfold send_post. rewrite Hs, list_insert_id by done. simpl.
  split_and!; try (unfold step_lat; lia).
  - rewrite Hcp. f_equal. by destruct cp.
  - split_and!; [done|done|]. by left.
  - intros ch Hch. by destruct (Hno ch).
  - by left.
  - intros [?|(ch & Hch & _)]; [done|]. by destruct (Hno ch).
Qed.

(** All children are in the loop. *)
Definition all_children : list nat := seq 0 (length (n_children pd)).

Lemma sharers_listed e : (forall k, k ∈ e_sharers e -> is_Some (n_children pd !! k)) ->
  forall k, k ∈ e_sharers e -> k ∈ all_children.
Proof. intros Hsome k Hk. apply elem_of_seq. destruct (Hsome k Hk) as [? ?%lookup_lt_Some]. lia. Qed.

Lemma target_reached e ch :
  t = INV \/ entry_isExclusive e = true -> (forall k, k ∈ e_sharers e -> k ∈ all_children) ->
  target_child (e_sharers e) all_children ch <-> reached e ch.
Proof.
  intros Hgo Hall. unfold target_child, reached. split.
  - intros (k & _ & HX & Hc). eauto.
  - intros (_ & k & HX & Hc). exists k. auto.
Qed.

(** The entry that is written at the end. *)
Lemma send_close h h1 cp e wb maxC wb' sent :
  (forall ch, target_child (e_sharers e) all_children ch <-> reached e ch) ->
  (forall ch, reached e ch -> child_ready h ch) ->
  loop_post e cp all_children wb 0 h (maxC, wb', sent) h1 ->
  send_post e cp wb h (maxC, wb')
    (upd h1 p (set_tcc (<[l := sent_entry e]> (ca_tcc (set_tcc (<[l := entry_after e all_children]> (ca_tcc cp)) cp)))
       (set_tcc (<[l := entry_after e all_children]> (ca_tcc cp)) cp))).
Proof.
  intros HT Hready (P1 & P2 & P3 & P4 & P5 & P5' & P6). simpl in P4, P5, P5'.
  unfold send_post. split_and!; cbn [fst snd]; try lia.
  - erewrite upd_same by done. f_equal. unfold set_tcc. simpl. by rewrite list_insert_insert_eq.
  - apply loop_frame_upd. eapply (loop_frame_trans (fun _ => False)); [|exact P2|by intros ch []|intros ch; apply HT].
    split_and!; [done|done|]. by left.
  - intros ch Hch. destruct (P3 ch) as [Hs Hst]; [by apply HT|]. destruct (Hready ch Hch) as (Hpar & _).
    match goal with |- sub_ok ?h2 _ _ /\ _ => destruct (subtree_keep h1 h2 ch) as [K1 K2] end.
    + intros j Hu. apply upd_other. intros ->. apply (under_le _ _ Htopo) in Hu.
      apply (parent_cache _ _ Htopo) in Hpar as [? _]. lia.
    + split; [exact (K1 Hs)|]. etrans; [exact K2|exact Hst].
  - intros Hr. destruct (P5 Hr) as [?|(ch & Hch & Hx)]; [by left|]. right. exists ch. split; [by apply HT|done].
  - intros Hr. apply P5'. destruct Hr as [?|(ch & Hch & Hx)]; [by left|]. right. exists ch. split; [by apply HT|done].
Qed.

Lemma sendInvalidates_ok h cp e wb :
  t <> FWD -> h_caches h !! p = Some cp -> ca_tcc cp !! l = Some e ->
  e_numSharers e = Z.of_nat (size (e_sharers e)) ->
  (forall k, k ∈ e_sharers e -> is_Some (n_children pd !! k)) ->
  (forall ch, reached e ch -> child_ready h ch) ->
  wp (tcc_sendInvalidates nodes down p a l t wb cyc src) (send_post e cp wb h) h.
Proof.
  intros Ht Hcp He Hcount Hsome Hready. unfold tcc_sendInvalidates.
  apply wp_bind. eapply wp_get_entry; [done|done|].
  destruct (bool_decide (t = INVX) && negb (entry_isExclusive e)) eqn:Eskip.
  { apply andb_true_iff in Eskip as [Et Ex]. apply bool_decide_eq_true in Et.
    apply negb_true_iff in Ex. apply wp_ret, send_nothing; try done.
    - unfold sent_entry. by rewrite Et, Ex.
    - intros ch [[?|?] _]; congruence. }
  destruct (entry_isEmpty e) eqn:Eempty.
  { unfold entry_isEmpty in Eempty. apply Z.eqb_eq in Eempty.
    assert (e_sharers e = ∅) as Hemp by (apply leibniz_equiv, size_empty_inv; lia).
    apply wp_ret, send_nothing; try done.
    - unfold sent_entry, entry_isExclusive. rewrite Eempty. destruct e as [n X b]; simpl in *. subst.
      by destruct t.
    - intros ch [_ (k & Hk & _)]. set_solver. }
  assert (t = INV \/ entry_isExclusive e = true) as Hgo.
  { destruct t; [by left| |done]. right. simpl in Eskip. by destruct (entry_isExclusive e). }
  fold all_children. pose proof (sharers_listed e Hsome) as Hall.
  assert (forall ch, target_child (e_sharers e) all_children ch <-> reached e ch) as HT
    by (intros ch; by apply target_reached).
  pose proof (to_width _ _ Htopo p pd Hp) as Hw. unfold MAX_CACHE_CHILDREN in Hw.
  apply wp_bind. eapply wp_node; [done|]. apply wp_bind. eapply wp_mono.
  { apply (send_loop_ok all_children h cp e cyc wb 0); try done.
    - apply NoDup_seq.
    - intros ch Hch. apply Hready, HT, Hch.
    - unfold step_lat. lia.
    - unfold all_children. rewrite length_seq. lia. }
  intros [[maxC wb'] sent] h1 HP. pose proof HP as (P1 & _ & _ & _ & _ & _ & P6). cbv beta iota. simpl in P6.
  assert (ca_tcc (set_tcc (<[l:=entry_after e all_children]> (ca_tcc cp)) cp) !! l = Some (entry_after e all_children)) as He1.
  { simpl. apply list_lookup_insert_eq. by eapply lookup_lt_Some. }
  apply wp_bind. eapply wp_get_entry; [done|done|].
  apply wp_bind, wp_assert.
  { apply Z.eqb_eq. rewrite P6, (length_filter_size _ all_children (NoDup_seq _ _) Hall).
    unfold entry_after. destruct t; simpl; lia. }
  pose proof (send_close h h1 cp e wb maxC wb' sent HT Hready HP) as Hpost.
  destruct (bool_decide_reflect (t = INV)) as [Et|Et].
  - apply wp_bind. eapply wp_put_entry; [done|]. apply wp_ret. refine (eq_ind _ (fun e' => send_post e cp wb h (maxC, wb') (upd h1 p (set_tcc (<[l := e']> _) _))) Hpost _ _).
    unfold sent_entry, entry_after. rewrite Et. unfold set_numSharers. simpl. f_equal.
    symmetry. apply elem_of_equiv_empty_L. intros k. rewrite elem_of_difference, elem_of_list_to_set.
    naive_solver.
  - destruct Hgo as [?|Hx]; [done|]. pose proof Hx as Hx'. unfold entry_isExclusive in Hx'.
    apply andb_true_iff in Hx' as [H1 H2].
    assert (entry_after e all_children = e) as Eae by (unfold entry_after; by destruct t). rewrite Eae in *.
    apply wp_bind, wp_bind, wp_assert; [done|]. apply wp_bind, wp_assert; [done|].
    eapply wp_put_entry; [done|]. apply wp_ret. refine (eq_ind _ (fun e' => send_post e cp wb h (maxC, wb') (upd h1 p (set_tcc (<[l := e']> _) _))) Hpost _ _).
    unfold sent_entry. destruct t; [done| |done]. by rewrite Hx.
Qed.

Lemma reached_dec e ch : parent_of ch a = Some (ToCache p) -> reached e ch \/ ~ reached e ch.
Proof.
  intros Hpar. destruct (parent_cache _ _ Htopo _ _ _ Hpar) as (_ & nd & pd' & Hn & Hp' & _ & Hc).
  rewrite Hp in Hp'. injection Hp' as <-.
  destruct (decide (n_selfId nd ∈ e_sharers e)) as [Hk|Hk].
  - destruct (decide (t = INV)) as [Et|Et].
    + left. split; [by left|eauto].
    + destruct (entry_isExclusive e) eqn:Ex.
      * left. split; [by right|eauto].
      * right. intros [[?|?] _]; congruence.
  - right. intros (_ & k & Hk' & Hc'). assert (k = n_selfId nd) as -> by (by eapply child_unique). done.
Qed.

(** Every child afterwards: reached, or unchanged. *)
Lemma after_send h h' e cp wb r ch :
  send_post e cp wb h r h' -> (forall ch, reached e ch -> child_ready h ch) ->
  parent_of ch a = Some (ToCache p) -> sub_ok h ch a ->
  sub_ok h' ch a /\
  (reached e ch /\ hst h' ch a = inv_target t \/ ~ reached e ch /\ hst h' ch a = hst h ch a).
Proof.
  intros (_ & F & Hr & _) Hready Hpar Hsub. destruct (reached_dec e ch Hpar) as [Hre|Hre].
  - destruct (Hr ch Hre) as [H1 H2]. split; [done|]. by left.
  - destruct (subtree_keep h h' ch) as [K1 K2]; [|split; [by apply K1|by right]].
    apply (subtree_same (reached e)); [done| |].
    + intros j Hj. by apply loop_frame_same.
    + intros ch1 H1. split; [apply (Hready ch1 H1)|]. by intros ->.
Qed.
End Loop.

(** ** The whole invalidation *)

Lemma cache_ok_locks nd c b t : cache_ok nd c -> cache_ok nd (set_locks b t c).
Proof. intros [H1 H2 H3 H4 H5 H6 H7 H8]. by split. Qed.
Lemma cache_ok_prof nd c f : cache_ok nd c -> cache_ok nd (set_prof f c).
Proof. intros [H1 H2 H3 H4 H5 H6 H7 H8]. by split. Qed.

(** [processInval] of the bottom controller. *)
Lemma processInval_ok i nd c a l t wb h :
  nodes !! i = Some nd -> h_caches h !! i = Some c -> cache_ok nd c -> cline nd c a = Some l ->
  t <> FWD -> inv_pre t (cst nd c a) ->
  wp (bcc_processInval i l t wb) (fun wb' h' => exists f,
    h' = upd h i (set_prof f (set_bcc (<[l := inv_target t]> (ca_bcc c)) c)) /\
    wb' = wb || bool_decide (cst nd c a = MESI.M)) h.
Proof.
  intros Hi Hc Hok Hl Ht Hpre. unfold bcc_processInval.
  pose proof (cline_state nd (to_array _ _ Htopo i nd Hi) c a l Hok Hl) as Hs.
  apply wp_bind. eapply wp_get_state; [done|done|].
  apply wp_bind, wp_assert.
  { apply bool_decide_eq_true. destruct t; [done|by apply isx_not_I|done]. }
  destruct t; [..|done].
  - apply wp_bind. eapply wp_put_state; [done|]. apply wp_bind. eapply wp_mod_cache; [by eapply upd_same|].
    apply wp_ret. eexists. rewrite upd_upd. done.
  - apply wp_bind, wp_assert; [by apply isx_bool|].
    apply wp_bind. eapply wp_put_state; [done|]. apply wp_bind. eapply wp_mod_cache; [by eapply upd_same|].
    apply wp_ret. eexists. rewrite upd_upd. done.
Qed.

Lemma node_ok_term h i nd a c :
  nodes !! i = Some nd -> n_terminal nd = true -> h_caches h !! i = Some c -> cache_ok nd c ->
  node_ok h i a.
Proof.
  intros Hi Ht Hc Hok. pose proof (to_term _ _ Htopo i nd Hi Ht) as Hch.
  assert (centry nd c a = entry_clear) as He.
  { unfold centry. rewrite (co_term _ _ Hok Ht). by destruct (cline nd c a). }
  assert (hsh nodes h i a = ∅ /\ hex nodes h i a = false) as [H1 H2].
  { unfold hsh, hex. rewrite !(hview_eq nodes _ _ _ _ _ _ Hi Hc). unfold csh, cex. by rewrite He. }
  split; rewrite ?H1, ?H2; try done.
  - intros pd k Hp. simplify_eq. rewrite Hch. split; [set_solver|]. intros (j & Hj & _). done.
  - intros pd k j Hp Hj. simplify_eq. by rewrite Hch in Hj.
Qed.

(** The directory of [i] after the invalidation of its line. *)
Lemma node_ok_after h h' i nd a t c c' :
  nodes !! i = Some nd -> h_caches h !! i = Some c -> h_caches h' !! i = Some c' ->
  node_ok h i a -> t <> FWD -> cst nd c' a = inv_target t ->
  centry nd c' a = sent_entry t (centry nd c a) ->
  (forall ch, parent_of ch a = Some (ToCache i) ->
     reached nd t (centry nd c a) ch /\ hst h' ch a = inv_target t \/
     ~ reached nd t (centry nd c a) ch /\ hst h' ch a = hst h ch a) ->
  node_ok h' i a.
Proof.
  intros Hi Hc Hc' Hn Ht Hst He Hch.
  assert (hsh nodes h i a = e_sharers (centry nd c a)) as S0
    by (unfold hsh; by rewrite (hview_eq nodes _ _ _ _ _ _ Hi Hc)).
  assert (hex nodes h i a = entry_isExclusive (centry nd c a)) as X0
    by (unfold hex; by rewrite (hview_eq nodes _ _ _ _ _ _ Hi Hc)).
  assert (hsh nodes h' i a = e_sharers (sent_entry t (centry nd c a))) as S1
    by (unfold hsh; rewrite (hview_eq nodes _ _ _ _ _ _ Hi Hc'); unfold csh; by rewrite He).
  assert (hex nodes h' i a = entry_isExclusive (sent_entry t (centry nd c a))) as X1
    by (unfold hex; rewrite (hview_eq nodes _ _ _ _ _ _ Hi Hc'); unfold cex; by rewrite He).
  assert (hst h' i a = inv_target t) as T1
    by (unfold CoherenceInv.hst; by rewrite (hview_eq nodes _ _ _ _ _ _ Hi Hc')).
  set (e := centry nd c a) in *. destruct Hn as [N1 N2 N3 N4]. rewrite S0, X0 in *.
  assert (hex nodes h' i a = false) as X2.
  { rewrite X1. unfold sent_entry. destruct t; [done| |done].
    destruct (entry_isExclusive e) eqn:Ex; [|done]. unfold entry_isExclusive. simpl. apply andb_false_r. }
  assert (forall k ch, n_children nd !! k = Some ch -> parent_of ch a = Some (ToCache i) ->
    (k ∈ hsh nodes h' i a <-> hst h' ch a <> MESI.I) /\ ~ isx (hst h' ch a)) as Hkey.
  { intros k ch Hk Hpar. rewrite S1.
    assert (forall k', k' ∈ e_sharers e -> n_children nd !! k' = Some ch -> k' = k) as Huniq.
    { intros k' _ Hk'. by eapply (child_unique i nd). }
    pose proof (proj1 (N1 nd k Hi)) as Nf. pose proof (proj2 (N1 nd k Hi)) as Nb.
    pose proof (N2 nd k ch Hi Hk Hpar) as Nx.
    destruct (Hch ch Hpar) as [[(Hgo & k' & Hk' & Hc'') Hs]|[Hno Hs]]; rewrite Hs.
    - assert (k' = k) as -> by auto. unfold sent_entry. destruct t; simpl.
      + split; [split; [set_solver|done]|by intros []].
      + destruct Hgo as [|Ex]; [done|]. rewrite Ex. simpl. split; [done|by intros []].
      + done.
    - assert (k ∉ e_sharers e \/ t = INVX /\ entry_isExclusive e = false) as [Hk'|[-> Ex]].
      { destruct (decide (k ∈ e_sharers e)) as [Hke|]; [|by left]. right. destruct t; [|split|done].
        - exfalso. apply Hno. split; [by left|eauto].
        - done.
        - destruct (entry_isExclusive e) eqn:Ex; [|done]. exfalso. apply Hno. split; [by right|eauto]. }
      + assert (hst h ch a = MESI.I) as ->.
        { destruct (decide (hst h ch a = MESI.I)) as [|Hne]; [done|]. exfalso. apply Hk', Nb. eauto. }
        split; [|by intros []]. split; [|done]. unfold sent_entry. destruct t; simpl; [set_solver| |done].
        destruct (entry_isExclusive e); simpl; done.
      + unfold sent_entry. rewrite Ex. split.
        * split; [|intros; apply Nb; eauto]. intros Hin. destruct (Nf Hin) as (ch' & Hc1 & _ & Hne). congruence.
        * intros Hx. apply Nx in Hx as [_ ?]. congruence. }
  split.
  - intros pd k Hp. simplify_eq. split.
    + intros Hk. assert (k ∈ e_sharers e) as Hke.
      { rewrite S1 in Hk. unfold sent_entry in Hk. destruct t; simpl in Hk; [set_solver| |done].
        by destruct (entry_isExclusive e). }
      apply (N1 nd k Hi) in Hke as (ch & Hc1 & Hpar & _). exists ch. split_and!; [done|done|].
      by apply (Hkey k ch).
    + intros (ch & Hc1 & Hpar & Hne). by apply (Hkey k ch).
  - intros pd k ch Hp Hk Hpar. simplify_eq. rewrite X2. split; [|by intros [_ ?]].
    intros Hx. by apply (Hkey k ch) in Hx.
  - rewrite T1, S1. unfold sent_entry, inv_target. by destruct t.
  - by rewrite X2.
Qed.

(** The entry that [sendInvalidates] leaves is well formed. *)
Lemma sent_tcc_ok i nd c a l t :
  nodes !! i = Some nd -> n_terminal nd = false -> cache_ok nd c -> cline nd c a = Some l ->
  cache_ok nd (set_tcc (<[l := sent_entry t (centry nd c a)]> (ca_tcc c)) c).
Proof.
  intros Hi Et Hok Hl. pose proof (to_array _ _ Htopo i nd Hi) as Harr.
  pose proof (cline_entry nd Harr c a l Hok Et Hl) as He. pose proof (co_count _ _ Hok l _ He) as Hc.
  pose proof (co_single _ _ Hok l _ He) as Hs. apply (put_tcc_ok nd Harr c a); try done.
  - unfold sent_entry. destruct t; simpl; [by rewrite ?size_empty|..]; by destruct (entry_isExclusive _).
  - intros HI. destruct (csh_empty nd Harr c a Hok HI) as [E _]. unfold csh in E. unfold sent_entry.
    destruct t; simpl; [done|..]; by destruct (entry_isExclusive _).
  - unfold sent_entry. destruct t; cbn [e_exclusive e_sharers]; [rewrite size_empty; lia|..]; by destruct (entry_isExclusive _).
Qed.

(** What an invalidation makes of the cache it arrives at: [c2] is the cache
    after the directory sent its invalidations down. *)
Lemma inval_close h h2 i nd a l t c e2 f :
  nodes !! i = Some nd -> h_caches h !! i = Some c -> cache_ok nd c -> ca_bccLock c = false ->
  cline nd c a = Some l -> t <> FWD -> sub_ok h i a ->
  (n_terminal nd = true -> e2 = None) ->
  (n_terminal nd = false -> e2 = Some (sent_entry t (centry nd c a))) ->
  let c1 := set_locks true (ca_tccLock c) c in
  let c2 := match e2 with Some e => set_tcc (<[l := e]> (ca_tcc c1)) c1 | None => c1 end in
  h_caches h2 !! i = Some c2 ->
  h_mem h2 = h_mem h -> h_core h2 = h_core h ->
  (forall j, j <> i -> h_caches h2 !! j = h_caches h !! j \/ (under a i j /\ touched_at a h h2 j)) ->
  (forall ch, parent_of ch a = Some (ToCache i) -> sub_ok h2 ch a /\
     (reached nd t (centry nd c a) ch /\ hst h2 ch a = inv_target t \/
      ~ reached nd t (centry nd c a) ch /\ hst h2 ch a = hst h ch a)) ->
  let c3 := set_prof f (set_bcc (<[l := inv_target t]> (ca_bcc c2)) c2) in
  let h' := upd h2 i (set_locks false (ca_tccLock c3) c3) in
  only_under a i h h' /\ sub_ok h' i a /\ hst h' i a = inv_target t.
Proof.
  intros Hi Hc Hok Hlk Hl Ht Hsub Hterm Hnt c1 c2 Hc2 Hm Hcore Hframe Hch c3 h'.
  pose proof (to_array _ _ Htopo i nd Hi) as Harr.
  destruct (Hsub i (under_refl _ _ _)) as [Hn _].
  assert (cache_ok nd c1) as Hok1 by (by apply cache_ok_locks).
  assert (cache_ok nd c2 /\ cline nd c2 a = Some l /\ (forall b, cst nd c2 b = cst nd c b) /\
    (forall b, b <> a -> centry nd c2 b = centry nd c b) /\
    (n_terminal nd = false -> centry nd c2 a = sent_entry t (centry nd c a)) /\
    (t = INV -> csh nd c2 a = ∅)) as (Hok2 & Hl2 & Hst2 & Hen2 & Hea2 & Hemp).
  { unfold c2. destruct (n_terminal nd) eqn:Et.
    - rewrite (Hterm eq_refl). split_and!; try done. intros _. unfold csh, centry.
      change (ca_tcc c1) with (ca_tcc c). rewrite (co_term _ _ Hok Et). by destruct (cline nd c1 a).
    - rewrite (Hnt eq_refl).
      destruct (put_tcc_view nd Harr c1 a l (sent_entry t (centry nd c a)) Hok1 Et Hl) as (V1 & V2 & V3 & V4).
      split_and!; try done.
      + by apply (sent_tcc_ok i nd c1 a).
      + intros ->. unfold csh. by rewrite V3. }
  destruct (put_bcc_view nd Harr c2 a l (inv_target t) Hok2 Hl2) as (W1 & W2 & W3 & W4).
  set (c4 := set_locks false (ca_tccLock c3) c3) in *.
  assert (cache_ok nd c4) as Hok4.
  { apply cache_ok_locks, cache_ok_prof, (put_bcc_ok nd Harr c2 a); try done. destruct t; [auto|done|done]. }
  assert (h_caches h' !! i = Some c4) as Hc4 by (by eapply upd_same).
  assert (touched nd a c c4) as Htouch.
  { split_and!.
    - unfold c4, c3, c2. by destruct e2.
    - done.
    - unfold c4, c3, c2. by destruct e2.
    - intros b Hb. split; [etrans; [by apply W4|apply Hst2]|]. etrans; [apply W2|by apply Hen2]. }
  assert (forall ch, parent_of ch a = Some (ToCache i) ->
    forall j, under a ch j -> h_caches h' !! j = h_caches h2 !! j) as Hbelow.
  { intros ch Hpar j Hu. apply upd_other. intros ->. apply (under_le _ _ Htopo) in Hu.
    apply (parent_cache _ _ Htopo) in Hpar as [? _]. lia. }
  split_and!.
  - split_and!; [done|done|]. intros j. destruct (decide (j = i)) as [->|Hj].
    + right. split; [apply under_refl|]. exists nd, c, c4. done.
    + destruct (Hframe j Hj) as [E|[Hu T]]; [left|right; split; [done|]].
      * unfold h'. by rewrite upd_other.
      * eapply touched_at_left; [done|]. by apply upd_other.
  - intros j Hu. destruct (decide (j = i)) as [->|Hj].
    + split; [|by exists nd, c4]. destruct (n_terminal nd) eqn:Et; [by eapply node_ok_term|].
      eapply (node_ok_after h h' i nd a t c c4); try done.
      * etrans; [apply W2|by apply Hea2].
      * intros ch Hpar. destruct (subtree_keep a h2 h' ch (Hbelow ch Hpar)) as [_ K2]. rewrite K2.
        apply (Hch ch Hpar).
    + apply (under_split nodes) in Hu as (ch & Hpar & Hu); [|done].
      destruct (subtree_keep a h2 h' ch (Hbelow ch Hpar)) as [K1 _]. by apply K1, Hu; apply (Hch ch Hpar).
  - unfold CoherenceInv.hst. rewrite (hview_eq nodes _ _ _ _ _ _ Hi Hc4). exact W3.
Qed.

(** The children of a cache in a consistent subtree can be invalidated. *)
Lemma children_ready h i nd a t c :
  nodes !! i = Some nd -> h_caches h !! i = Some c -> sub_ok h i a -> t <> FWD ->
  forall ch, reached nd t (centry nd c a) ch -> child_ready i a t h ch.
Proof.
  intros Hi Hc Hsub Ht ch (Hgo & k & Hk & Hkc). destruct (Hsub i (under_refl _ _ _)) as [[N1 N2 _ _] _].
  assert (hsh nodes h i a = e_sharers (centry nd c a)) as S0
    by (unfold hsh; by rewrite (hview_eq nodes _ _ _ _ _ _ Hi Hc)).
  assert (hex nodes h i a = entry_isExclusive (centry nd c a)) as X0
    by (unfold hex; by rewrite (hview_eq nodes _ _ _ _ _ _ Hi Hc)).
  rewrite S0 in *. pose proof Hk as Hk'. apply (N1 nd k Hi) in Hk' as (ch' & Hc' & Hpar & Hne).
  assert (ch' = ch) as -> by congruence. split_and!; [done|by eapply sub_ok_child|].
  destruct t; [done| |done]. destruct Hgo as [|Hx]; [done|].
  apply (N2 nd k ch Hi Hkc Hpar). by rewrite X0.
Qed.

(** Along a consistent subtree, whoever holds the line is below holders. *)
Lemma sub_above h i a j :
  sub_ok h i a -> under a i j ->
  (hst h j a <> MESI.I -> hst h i a <> MESI.I) /\ (isx (hst h j a) -> isx (hst h i a)).
Proof.
  intros Hsub Hu. induction Hu as [|j q Hp Hu IH]; [done|].
  destruct (parent_cache _ _ Htopo _ _ _ Hp) as (_ & nd & qd & _ & Hq & _ & Hk).
  destruct (Hsub q Hu) as [[N1 N2 N3 N4] _]. destruct IH as [I1 I2]. split.
  - intros Hne. apply I1, N3. intros E. assert (n_selfId nd ∈ hsh nodes h q a) as Hin by (apply (N1 qd _ Hq); eauto).
    rewrite E in Hin. by apply not_elem_of_empty in Hin.
  - intros Hx. apply I2, N4. by apply (N2 qd _ j Hq Hk Hp).
Qed.

(** The invalidations reach the modified data. *)
Lemma dirty_reached h i nd a t c ch j :
  nodes !! i = Some nd -> h_caches h !! i = Some c -> sub_ok h i a -> t <> FWD ->
  parent_of ch a = Some (ToCache i) -> under a ch j -> hst h j a = MESI.M ->
  reached nd t (centry nd c a) ch.
Proof.
  intros Hi Hc Hsub Ht Hpar Hu Hj.
  destruct (parent_cache _ _ Htopo _ _ _ Hpar) as (_ & cd & id & _ & Hid & _ & Hk).
  assert (id = nd) as -> by congruence. destruct (Hsub i (under_refl _ _ _)) as [[N1 N2 _ _] _].
  assert (isx (hst h ch a)) as Hx.
  { apply (sub_above h ch a j); [by eapply sub_ok_child|done|]. by right. }
  apply (N2 nd _ ch Hi Hk Hpar) in Hx as [Hin Hex]. unfold hsh in Hin. unfold hex in Hex.
  rewrite (hview_eq nodes _ _ _ _ _ _ Hi Hc) in Hin. rewrite (hview_eq nodes _ _ _ _ _ _ Hi Hc) in Hex.
  split; [by right|]. by exists (n_selfId cd).
Qed.

Lemma under_terminal a i j nd : nodes !! i = Some nd -> n_terminal nd = true -> under a i j -> j = i.
Proof.
  intros Hi Ht Hu. destruct (decide (j = i)) as [|Hne]; [done|]. exfalso.
  apply (under_split nodes) in Hu as (c & Hp & _); [|done].
  apply (parent_cache _ _ Htopo) in Hp as (_ & _ & pd & _ & Hpd & Hpt & _). congruence.
Qed.

Lemma upd_lock_sub h i a c c1 ch :
  h_caches h !! i = Some c -> parent_of ch a = Some (ToCache i) ->
  forall j, under a ch j -> h_caches (upd h i c1) !! j = h_caches h !! j.
Proof.
  intros Hc Hpar j Hu. apply upd_other. intros ->. apply (under_le _ _ Htopo) in Hu.
  apply (parent_cache _ _ Htopo) in Hpar as [? _]. lia.
Qed.

(** The promise of an invalidation of [a] in the subtree of [i]. *)
Definition inval_post i a t (wb : bool) (cyc : Z) h (r : Z * bool) h' : Prop :=
  only_under a i h h' /\ sub_ok h' i a /\ hst h' i a = inv_target t /\
  cyc <= r.1 <= cyc + step_lat * Z.of_nat (S i) /\
  (r.2 = true -> wb = true \/ isx (hst h i a)) /\ (wb = true \/ dirty h i a -> r.2 = true).

(** One cache that holds the line at [l], with its lock taken. *)
Section Holder.
Context h (i : nat) (nd : Node) (c : CacheSt R) (a : Address) (t : InvType) (wb : bool) (cyc src : Z) (l : nat).
Context (Ht : t <> FWD) (Hi : nodes !! i = Some nd) (Hc : h_caches h !! i = Some c) (Hsub : sub_ok h i a).
Context (Hok : cache_ok nd c) (Hl : cline nd c a = Some l) (HneI : cst nd c a <> MESI.I) (Hpre : inv_pre t (cst nd c a)).
Context (Hlk : ca_bccLock c = false) (Hc0 : 0 <= cyc) (Hcb : cyc + step_lat * Z.of_nat (S i) < 2 ^ 64).
Let c1 : CacheSt R := set_locks true (ca_tccLock c) c.

Lemma holder_state : hst h i a = cst nd c a.
Proof. unfold CoherenceInv.hst. by rewrite (hview_eq nodes _ _ _ _ _ _ Hi Hc). Qed.

Lemma holder_room : 0 <= n_invLat nd < 2 ^ 32 /\ 0 < step_lat /\
  cyc + n_invLat nd + step_lat * Z.of_nat i + 2 ^ 32 <= cyc + step_lat * Z.of_nat (S i).
Proof. clear Hcb Hc0. destruct (to_lat _ _ Htopo i nd Hi) as (_ & Hinv & _). unfold lat_ok, step_lat in *. lia. Qed.

Lemma leaf_invalidated : n_terminal nd = true ->
  wp (term_processInv i (mkInvReq a t wb cyc src) l (cyc + n_invLat nd)) (inval_post i a t wb cyc h) (upd h i c1).
Proof.
  intros Et. pose proof holder_state as Hst. destruct holder_room as (Hinv & Hsp & Hroom).
  pose proof (to_array _ _ Htopo i nd Hi) as Harr. assert (cache_ok nd c1) as Hok1 by (by apply cache_ok_locks).
  assert (h_caches (upd h i c1) !! i = Some c1) as Hc1 by (by eapply upd_same).
  unfold term_processInv. cbn [iq_type iq_writeback]. apply wp_bind.
  eapply wp_mono; [by eapply (processInval_ok i nd c1 a)|].
  intros wb' h1 (f & -> & ->). rewrite upd_upd. apply wp_bind.
  eapply wp_mod_cache; [by eapply upd_same|]. rewrite upd_upd. apply wp_ret.
  rewrite <- (upd_upd h i c1).
  destruct (inval_close h (upd h i c1) i nd a l t c None f) as (G1 & G2 & G3); try done.
  - congruence.
  - intros j Hj. left. by apply upd_other.
  - intros ch Hpar. apply (parent_cache _ _ Htopo) in Hpar as (_ & _ & qd & _ & Hq & Hqt & _). congruence.
  - split_and!; try done; cbn [fst snd]; try lia.
    + intros Hw. apply orb_true_iff in Hw as [?|Hm]; [by left|]. right. rewrite Hst. right.
      by apply bool_decide_eq_true in Hm.
    + intros [->|(j & Hu & Hj)]; [done|]. rewrite (under_terminal a i j nd Hi Et Hu), Hst in Hj.
      apply orb_true_iff. right. by apply bool_decide_eq_true.
Qed.

Lemma holder_children k : k ∈ e_sharers (centry nd c a) -> is_Some (n_children nd !! k).
Proof.
  intros Hk. destruct (Hsub i (under_refl _ _ _)) as [[N1 _ _ _] _]. destruct (proj1 (N1 nd k Hi)) as (ch & ? & _); [|eauto].
  unfold hsh. by rewrite (hview_eq nodes _ _ _ _ _ _ Hi Hc).
Qed.

Lemma holder_ready ch : reached nd t (centry nd c a) ch -> child_ready i a t (upd h i c1) ch.
Proof.
  intros Hch. destruct (children_ready h i nd a t c Hi Hc Hsub Ht ch Hch) as (A1 & A2 & A3).
  destruct (subtree_keep a h (upd h i c1) ch (upd_lock_sub h i a c c1 ch Hc A1)) as [K1 K2].
  split_and!; [done|by apply K1|by rewrite K2].
Qed.

Lemma dir_invalidated fuel : (forall ch, (ch < i)%nat -> inval_spec (invalidate nodes fuel) ch) -> n_terminal nd = false ->
  wp (mesicc_processInv nodes (invalidate nodes fuel) i (mkInvReq a t wb cyc src) l (cyc + n_invLat nd))
    (inval_post i a t wb cyc h) (upd h i c1).
Proof.
  intros IH Et. pose proof holder_state as Hst. destruct holder_room as (Hinv & Hsp & Hroom).
  pose proof (to_array _ _ Htopo i nd Hi) as Harr. assert (cache_ok nd c1) as Hok1 by (by apply cache_ok_locks).
  assert (h_caches (upd h i c1) !! i = Some c1) as Hc1 by (by eapply upd_same).
  destruct (Hsub i (under_refl _ _ _)) as [Hn _].
  unfold mesicc_processInv, tcc_processInval. cbn [iq_type iq_writeback iq_srcId iq_lineAddr].
  set (e := centry nd c a). assert (ca_tcc c1 !! l = Some e) as He by exact (cline_entry nd Harr c a l Hok Et Hl).
  pose proof (co_count _ _ Hok l e He) as Hcount.
  pose proof holder_children as Hsome. pose proof holder_ready as Hready. fold e in Hsome, Hready.
  assert (wp (tcc_sendInvalidates nodes (invalidate nodes fuel) i a l t wb (cyc + n_invLat nd) src)
            (send_post i nd a l t (cyc + n_invLat nd) e c1 wb (upd h i c1)) (upd h i c1)) as Hsend.
  { apply sendInvalidates_ok; try done; lia. }
  apply wp_bind. apply (wp_mono _ (send_post i nd a l t (cyc + n_invLat nd) e c1 wb (upd h i c1)));
    [by destruct t|]. intros [resp wb1] h2 Hpost. cbv beta iota.
  pose proof Hpost as (P1 & (Pm & Pc & P2) & P3 & P4 & P5 & P6). cbn [fst snd] in P4, P5, P6.
  set (c2 := set_tcc (<[l := sent_entry t e]> (ca_tcc c1)) c1) in *.
  assert (cache_ok nd c2 /\ cline nd c2 a = Some l) as [Hok2 Hl2].
  { split; [|done]. by apply (sent_tcc_ok i nd c1 a). }
  apply wp_bind. eapply wp_mono; [by eapply (processInval_ok i nd c2 a)|].
  intros wb' h3 (f & -> & ->). apply wp_bind. eapply wp_mod_cache; [by eapply upd_same|].
  rewrite upd_upd. apply wp_ret.
  destruct (inval_close h h2 i nd a l t c (Some (sent_entry t e)) f) as (G1 & G2 & G3); try done.
  - congruence.
  - intros j Hj. destruct (P2 j Hj) as [E|(ch & Hch & Hu & T)].
    + left. rewrite E. by apply upd_other.
    + right. destruct (Hready ch Hch) as (Hpar & _). split.
      * eapply under_trans; [by apply under_child|done].
      * eapply touched_at_right; [|done]. by apply upd_other.
  - intros ch Hpar.
    destruct (subtree_keep a h (upd h i c1) ch (upd_lock_sub h i a c c1 ch Hc Hpar)) as [K1 K2].
    rewrite <- K2. eapply after_send; try done. apply K1. by eapply sub_ok_child.
  - split_and!; try done; cbn [fst snd]; try lia.
    + intros Hw. apply orb_true_iff in Hw as [Hw|Hm]; [|right; rewrite Hst; right; by apply bool_decide_eq_true in Hm].
      destruct (P5 Hw) as [?|(ch & Hch & Hx)]; [by left|]. right.
      destruct (Hready ch Hch) as (Hpar & _). destruct Hch as (_ & k & Hk & Hkc).
      destruct (subtree_keep a h (upd h i c1) ch (upd_lock_sub h i a c c1 ch Hc Hpar)) as [_ K2].
      rewrite K2 in Hx. destruct Hn as [_ N2 _ N4]. apply N4.
      by apply (N2 nd k ch Hi Hkc Hpar) in Hx as [_ ?].
    + intros Hd. apply orb_true_iff. destruct Hd as [->|(j & Hu & Hj)]; [left; auto|].
      destruct (decide (j = i)) as [->|Hne].
      { right. apply bool_decide_eq_true. by rewrite <- Hj, Hst. }
      apply (under_split nodes) in Hu as (ch & Hpar & Hu); [|done]. left. apply P6. right. exists ch.
      split; [by eapply (dirty_reached h i nd a t c)|].
      eapply dirty_same; [|by exists j]. by apply (upd_lock_sub h i a c c1 ch).
Qed.
End Holder.

Lemma invalidate_ok fuel : forall i, (i < fuel)%nat -> inval_spec (invalidate nodes fuel) i.
Proof.
  induction fuel as [|fuel IH]; intros i Hlt; [lia|]. intros a t wb cyc src h0 Hsub0 Hpre Hc0 Hcb.
  set (h := mkHier (h_caches h0) (h_mem h0) (h_core h0) (filter_inval i a (h_filters h0))).
  assert (sub_ok h i a) as Hsub by (eapply sub_ok_frame; [exact Hsub0|done]).
  change (hst h0) with (hst h) in Hpre.
  enough (wp (invalidate nodes (S fuel) i (mkInvReq a t wb cyc src)) (inval_post i a t wb cyc h) h0)
    as Hgoal by exact Hgoal.
  assert (t <> FWD) as Ht by (by destruct t).
  destruct (Hsub i (under_refl _ _ _)) as [_ (nd & c & Hi & Hc & Hok & Hlk)].
  pose proof (to_array _ _ Htopo i nd Hi) as Harr. pose proof (holder_state h i nd c a Hi Hc) as Hst.
  rewrite Hst in Hpre. assert (cst nd c a <> MESI.I) as HneI.
  { destruct t; [done|by apply isx_not_I|done]. }
  destruct (cst_line nd c a HneI) as [l Hl]. set (c1 := set_locks true (ca_tccLock c) c).
  simpl invalidate. apply wp_bind. unfold cc_startInv, lock_bcc. apply wp_bind.
  eapply wp_get_cache; [exact Hc|]. rewrite Hlk. eapply wp_mod_cache; [exact Hc|]. fold c1.
  apply wp_bind, wp_modify. change (mkHier _ _ _ _) with (upd h i c1). clearbody h.
  assert (cache_ok nd c1) as Hok1 by (by apply cache_ok_locks).
  assert (h_caches (upd h i c1) !! i = Some c1) as Hc1 by (by eapply upd_same).
  unfold finishInvalidate. apply wp_bind. eapply wp_node; [done|]. apply wp_bind.
  eapply wp_lookup_quiet; [done|done|done|done|]. cbn [iq_cycle iq_lineAddr].
  assert (cline nd c1 a = Some l) as -> by done.
  destruct (holder_room i nd cyc Hi) as (Hinv & Hsp & Hroom).
  rewrite u64_id by (unfold in_u64; lia). destruct (n_terminal nd) eqn:Et.
  - by apply leaf_invalidated.
  - apply dir_invalidated; try done. intros ch Hch. apply IH. lia.
Qed.
End Inval.
