(* ===== verification/CoherenceEnv.v ===== *)
(** * What an access relies on and what it keeps

    The environment of an access (a coherent hierarchy, the locks that are held,
    the policies between replacements, a memory that answers), the contract of
    the memories at the top, and the rules for the steps that change one cache. *)

From stdpp Require Import base list gmap strings sets functions.
From Stdlib Require Import ZArith Lia.
From S2P Require Import Prelude Numeric MemHierarchy DdrBound ReplPolicy CacheArray Coherence CoherenceInv CoherenceInval.
Local Open Scope Z_scope.

(** ** The contract of the memories at the top

    A memory answers every request that starts before cycle [max_cycle] with the
    state that the protocol grants, and leaves no timing record. *)
Definition max_cycle : Z := 2 ^ 63 + 2 ^ 61.

Class MemTopLaws (D : Type) `{MemTop D} := {
  top_ok : nat -> D -> Prop;
  top_access_ok : forall n m req d, top_ok n d -> (m < n)%nat -> 0 <= cycle req <= max_cycle ->
    wp (top_access m req) (fun r d' => r.1 = granted_state req /\ top_ok n d') d;
  top_quiet : forall n d src tr, top_ok n d -> rc_records (top_recs d) !! src = Some tr ->
    tr_isValid tr = false
}.

Section Env.
Context {R D : Type} `{RP : ReplPolicy R} `{MT : MemTop D} `{RL : !ReplLaws R} `{ML : !MemTopLaws D}.
Context (nodes : list Node) (nmem : nat) (Htopo : topo_ok nodes nmem).
Implicit Types (h : Hier R D) (c : CacheSt R) (B T : nat -> bool) (X F S : nat -> Address -> Prop).

Abbreviation under := (under nodes).
Abbreviation parent_of := (parent_of nodes).
Abbreviation hst := (hst nodes).
Abbreviation hsh := (hsh nodes).
Abbreviation hex := (hex nodes).
Abbreviation node_ok := (node_ok nodes).

(** ** Coherence away from some directory entries *)
Definition cohx X h : Prop := caches_ok nodes h /\ forall j b, ~ X j b -> node_ok h j b.
Definition at_entry (p : nat) (a : Address) : nat -> Address -> Prop := fun j b => j = p /\ b = a.

Lemma cohx_weaken X h : coherent nodes h -> cohx X h.
Proof. intros [H1 H2]. by split. Qed.

Lemma cohx_close p a h : cohx (at_entry p a) h -> node_ok h p a -> coherent nodes h.
Proof.
  intros [H1 H2] Hn. split; [done|]. intros j b.
  destruct (decide (j = p)) as [->|]; [destruct (decide (b = a)) as [->|]; [done|]|];
    apply H2; by intros [??].
Qed.

(** ** Locks, policies, and the environment *)
Definition locks h B T : Prop :=
  forall j c, h_caches h !! j = Some c -> ca_bccLock c = B j /\ ca_tccLock c = T j.

(** The policies of the caches from [k] on are between replacements. *)
Definition idle (k : nat) h : Prop :=
  forall j nd c, (k <= j)%nat -> nodes !! j = Some nd -> h_caches h !! j = Some c ->
    rp_idle (ap_numLines (n_array nd)) (ap_assoc (n_array nd)) (sa_rp (ca_sa c)).

Record env h B T (k : nat) : Prop := {
  en_coherent : coherent nodes h;
  en_locks : locks h B T;
  en_idle : idle k h;
  en_top : top_ok nmem (h_mem h)
}.

(** A line that is not accessed keeps its state, is lost, or receives the dirty
    data of an exclusive copy below it. *)
Definition evolves (s s' : MESIState) : Prop :=
  s' = s \/ s' = MESI.I \/ (s = MESI.E /\ s' = MESI.M).

Lemma evolves_trans s1 s2 s3 : evolves s1 s2 -> evolves s2 s3 -> evolves s1 s3.
Proof. unfold evolves. naive_solver. Qed.

(** What a step may change: the arrays of the caches below [k], the core's
    variable and the states in [F] are kept; the states in [S] evolve. *)
Record moved (k : nat) F S h h' : Prop := {
  mv_core : h_core h' = h_core h;
  mv_sa : forall j, (j < k)%nat -> ca_sa <$> h_caches h' !! j = ca_sa <$> h_caches h !! j;
  mv_fixed : forall j b, F j b -> hst h' j b = hst h j b;
  mv_shrink : forall j b, S j b -> evolves (hst h j b) (hst h' j b)
}.

Lemma moved_refl k F S h : moved k F S h h.
Proof. split; try done. intros j b _. by left. Qed.

Lemma moved_trans k F S h1 h2 h3 : moved k F S h1 h2 -> moved k F S h2 h3 -> moved k F S h1 h3.
Proof.
  intros [A1 A2 A3 A4] [B1 B2 B3 B4]. split.
  - congruence.
  - intros j Hj. by rewrite B2, A2.
  - intros j b Hb. by rewrite B3, A3.
  - intros j b Hb. eapply evolves_trans; [by apply A4|by apply B4].
Qed.

Lemma moved_weaken k k' F F' S S' h h' :
  moved k F S h h' -> (k' <= k)%nat -> (forall j b, F' j b -> F j b) ->
  (forall j b, S' j b -> S j b \/ F j b) -> moved k' F' S' h h'.
Proof.
  intros [A1 A2 A3 A4] Hk HF HS. split; [done|..].
  - intros j Hj. apply A2. lia.
  - auto.
  - intros j b Hb. destruct (HS j b Hb); [auto|left; auto].
Qed.

(** ** Steps that leave states, directories and arrays alone *)
Definition same_cache c c' : Prop :=
  sa_array (ca_sa c') = sa_array (ca_sa c) /\ ca_bcc c' = ca_bcc c /\ ca_tcc c' = ca_tcc c.

Definition hsim h h' : Prop := forall j, option_Forall2 same_cache (h_caches h !! j) (h_caches h' !! j).

Lemma hsim_upd h i c c' : h_caches h !! i = Some c -> same_cache c c' -> hsim h (upd h i c').
Proof.
  intros Hc Hs j. destruct (decide (j = i)) as [->|Hne].
  - rewrite (upd_same _ _ _ _ Hc), Hc. by constructor.
  - rewrite upd_other by done. destruct (h_caches h !! j); constructor. done.
Qed.

Lemma same_cache_view nd c c' a :
  same_cache c c' -> cline nd c' a = cline nd c a /\ cst nd c' a = cst nd c a /\
  centry nd c' a = centry nd c a.
Proof.
  intros (E1 & E2 & E3). assert (cline nd c' a = cline nd c a) as El by (unfold cline; by rewrite E1).
  split_and!; [done|..]; [unfold cst|unfold centry]; by rewrite El, ?E2, ?E3.
Qed.

Lemma same_cache_ok nd c c' : same_cache c c' -> cache_ok nd c -> cache_ok nd c'.
Proof.
  intros Hs [H1 H2 H3 H4 H5 H6 H7 H8]. pose proof Hs as (E1 & E2 & E3).
  split; rewrite ?E1, ?E2, ?E3; try done. intros l s a Hl HI Ha.
  rewrite (proj1 (same_cache_view nd c c' a Hs)). by eapply H5.
Qed.

Lemma hview_hsim {A} (x : A) f h h' j :
  hsim h h' -> (forall nd c c', same_cache c c' -> f nd c' = f nd c) ->
  hview nodes x f h' j = hview nodes x f h j.
Proof.
  intros Hs Hf. unfold hview. destruct (nodes !! j) as [nd|]; [|done].
  destruct (Hs j) as [c c' Hc|]; [by apply Hf|done].
Qed.

Lemma hsim_views h h' j b :
  hsim h h' -> hst h' j b = hst h j b /\ hsh h' j b = hsh h j b /\ hex h' j b = hex h j b.
Proof.
  intros Hs. split_and!; apply hview_hsim; try done; intros nd c c' Hc;
    destruct (same_cache_view nd c c' b Hc) as (_ & E1 & E2); unfold csh, cex; by rewrite ?E2.
Qed.

Lemma hsim_caches_ok h h' : hsim h h' -> caches_ok nodes h -> caches_ok nodes h'.
Proof.
  intros Hs [Hlen Hok]. split.
  - rewrite <- Hlen. apply length_of_lookup. intros j. destruct (Hs j); rewrite ?is_Some_alt; done.
  - intros i nd c' Hi Hc'. pose proof (Hs i) as Hj. rewrite Hc' in Hj. inversion Hj as [c ? Hcc Hc|]; subst.
    eapply same_cache_ok; [done|]. eapply Hok; [done|]. done.
Qed.

Lemma hsim_cohx X h h' : hsim h h' -> cohx X h -> cohx X h'.
Proof.
  intros Hs [H1 H2]. split; [by eapply hsim_caches_ok|]. intros j b Hb.
  destruct (hsim_views h h' j b Hs) as (E1 & E2 & E3). apply (node_ok_ext nodes h); auto.
  intros i _. by apply hsim_views.
Qed.

Lemma hsim_coherent h h' : hsim h h' -> coherent nodes h -> coherent nodes h'.
Proof.
  intros Hs Hc. destruct (hsim_cohx (fun _ _ => False) h h' Hs (cohx_weaken _ _ Hc)). split; auto.
Qed.

Lemma hsim_moved k F S h h' :
  hsim h h' -> h_core h' = h_core h ->
  (forall j, (j < k)%nat -> ca_sa <$> h_caches h' !! j = ca_sa <$> h_caches h !! j) ->
  moved k F S h h'.
Proof.
  intros Hs Hc Hsa. split; [done|done|..]; intros j b _; destruct (hsim_views h h' j b Hs); [done|by left].
Qed.

(** One cache changes its locks or counters. *)
Definition relocked c c' : Prop := ca_sa c' = ca_sa c /\ ca_bcc c' = ca_bcc c /\ ca_tcc c' = ca_tcc c.

Lemma relocked_same c c' : relocked c c' -> same_cache c c'.
Proof. unfold same_cache. by intros (-> & -> & ->). Qed.

Lemma upd_sa h i c c' j :
  h_caches h !! i = Some c -> ca_sa c' = ca_sa c ->
  ca_sa <$> h_caches (upd h i c') !! j = ca_sa <$> h_caches h !! j.
Proof.
  intros Hc E. destruct (decide (j = i)) as [->|Hne].
  - rewrite (upd_same _ _ _ _ Hc), Hc. simpl. by rewrite E.
  - by rewrite upd_other.
Qed.

Lemma idle_sa k h h' :
  (forall j, (k <= j)%nat -> ca_sa <$> h_caches h' !! j = ca_sa <$> h_caches h !! j) -> idle k h -> idle k h'.
Proof.
  intros E Hi j nd c' Hk Hj Hc'. specialize (E j Hk). rewrite Hc' in E.
  destruct (h_caches h !! j) as [c|] eqn:Hc; [|done]. injection E as ->. eauto.
Qed.

Lemma locks_upd h i c c' B T :
  locks h B T -> h_caches h !! i = Some c ->
  locks (upd h i c') (<[i := ca_bccLock c']> B) (<[i := ca_tccLock c']> T).
Proof.
  intros Hl Hc j d Hj. destruct (decide (j = i)) as [->|Hne].
  - rewrite (upd_same _ _ _ _ Hc) in Hj. injection Hj as ->. by rewrite !fn_lookup_insert.
  - rewrite upd_other in Hj by done. rewrite !fn_lookup_insert_ne by done. by apply Hl.
Qed.

Lemma locks_ext h B B' T T' :
  locks h B T -> (forall j, B' j = B j) -> (forall j, T' j = T j) -> locks h B' T'.
Proof. intros Hl EB ET j c Hc. rewrite EB, ET. by apply Hl. Qed.

Lemma locks_keep h i c c' B T :
  locks h B T -> h_caches h !! i = Some c -> ca_bccLock c' = ca_bccLock c -> ca_tccLock c' = ca_tccLock c ->
  locks (upd h i c') B T.
Proof.
  intros Hl Hc E1 E2 j d Hj. destruct (decide (j = i)) as [->|Hne].
  - rewrite (upd_same _ _ _ _ Hc) in Hj. injection Hj as <-. rewrite E1, E2. by apply Hl.
  - rewrite upd_other in Hj by done. by apply Hl.
Qed.

Lemma env_locks_ext h B B' T T' k :
  env h B T k -> (forall j, B' j = B j) -> (forall j, T' j = T j) -> env h B' T' k.
Proof. intros [E1 E2 E3 E4] EB ET. split; try done. by eapply locks_ext. Qed.

Lemma env_upd h i c c' B T k :
  env h B T k -> h_caches h !! i = Some c -> relocked c c' ->
  env (upd h i c') (<[i := ca_bccLock c']> B) (<[i := ca_tccLock c']> T) k /\
  moved (length nodes) (fun _ _ => True) (fun _ _ => True) h (upd h i c').
Proof.
  intros [E1 E2 E3 E4] Hc Hr. pose proof (hsim_upd h i c c' Hc (relocked_same _ _ Hr)) as Hs.
  split; [split|].
  - by eapply hsim_coherent.
  - by eapply locks_upd.
  - eapply idle_sa; [|done]. intros j _. eapply upd_sa; [done|]. apply Hr.
  - done.
  - apply hsim_moved; [done|done|]. intros j _. eapply upd_sa; [done|]. apply Hr.
Qed.

Abbreviation anything := (fun (_ : nat) (_ : Address) => True).

Lemma env_cache h B T k i nd :
  env h B T k -> nodes !! i = Some nd ->
  exists c, h_caches h !! i = Some c /\ cache_ok nd c /\ ca_bccLock c = B i /\ ca_tccLock c = T i.
Proof.
  intros [E1 E2 E3 E4] Hi. destruct (cache_of nodes h i nd (ch_caches _ _ E1) Hi) as (c & Hc & Hok).
  exists c. split_and!; [done|done|..]; by eapply E2.
Qed.

(** ** The locks *)
Lemma lock_bcc_ok h B T k i nd (Q : unit -> Hier R D -> Prop) :
  env h B T k -> nodes !! i = Some nd -> B i = false ->
  (forall h', env h' (<[i := true]> B) T k -> moved (length nodes) anything anything h h' -> Q tt h') ->
  wp (lock_bcc i) Q h.
Proof.
  intros He Hi HB HQ. destruct (env_cache _ _ _ _ _ _ He Hi) as (c & Hc & _ & L1 & L2).
  unfold lock_bcc. apply wp_bind. eapply wp_get_cache; [done|]. rewrite L1, HB.
  eapply wp_mod_cache; [done|]. destruct (env_upd h i c (set_locks true (ca_tccLock c) c) B T k He Hc) as [E M];
    [done|]. apply HQ; [|done]. eapply env_locks_ext; [done|done|]. intros j. simpl. rewrite L2.
  destruct (decide (j = i)) as [->|]; [by rewrite fn_lookup_insert|by rewrite fn_lookup_insert_ne].
Qed.

Lemma unlock_bcc_ok h B T k i nd (Q : unit -> Hier R D -> Prop) :
  env h B T k -> nodes !! i = Some nd ->
  (forall h', env h' (<[i := false]> B) T k -> moved (length nodes) anything anything h h' -> Q tt h') ->
  wp (unlock_bcc i) Q h.
Proof.
  intros He Hi HQ. destruct (env_cache _ _ _ _ _ _ He Hi) as (c & Hc & _ & L1 & L2).
  eapply wp_mod_cache; [done|]. destruct (env_upd h i c (set_locks false (ca_tccLock c) c) B T k He Hc) as [E M];
    [done|]. apply HQ; [|done]. eapply env_locks_ext; [done|done|]. intros j. simpl. rewrite L2.
  destruct (decide (j = i)) as [->|]; [by rewrite fn_lookup_insert|by rewrite fn_lookup_insert_ne].
Qed.

Lemma lock_tcc_ok h B T k i nd (Q : unit -> Hier R D -> Prop) :
  env h B T k -> nodes !! i = Some nd -> T i = false ->
  (forall h', env h' B (<[i := true]> T) k -> moved (length nodes) anything anything h h' -> Q tt h') ->
  wp (lock_tcc i) Q h.
Proof.
  intros He Hi HT HQ. destruct (env_cache _ _ _ _ _ _ He Hi) as (c & Hc & _ & L1 & L2).
  unfold lock_tcc. apply wp_bind. eapply wp_get_cache; [done|]. rewrite L2, HT.
  eapply wp_mod_cache; [done|]. destruct (env_upd h i c (set_locks (ca_bccLock c) true c) B T k He Hc) as [E M];
    [done|]. apply HQ; [|done]. eapply env_locks_ext; [done| |done]. intros j. simpl. rewrite L1.
  destruct (decide (j = i)) as [->|]; [by rewrite fn_lookup_insert|by rewrite fn_lookup_insert_ne].
Qed.

Lemma unlock_tcc_ok h B T k i nd (Q : unit -> Hier R D -> Prop) :
  env h B T k -> nodes !! i = Some nd ->
  (forall h', env h' B (<[i := false]> T) k -> moved (length nodes) anything anything h h' -> Q tt h') ->
  wp (unlock_tcc i) Q h.
Proof.
  intros He Hi HQ. destruct (env_cache _ _ _ _ _ _ He Hi) as (c & Hc & _ & L1 & L2).
  eapply wp_mod_cache; [done|]. destruct (env_upd h i c (set_locks (ca_bccLock c) false c) B T k He Hc) as [E M];
    [done|]. apply HQ; [|done]. eapply env_locks_ext; [done| |done]. intros j. simpl. rewrite L1.
  destruct (decide (j = i)) as [->|]; [by rewrite fn_lookup_insert|by rewrite fn_lookup_insert_ne].
Qed.

Lemma prof_inc_ok h B T k i nd ctr n (Q : unit -> Hier R D -> Prop) :
  env h B T k -> nodes !! i = Some nd ->
  (forall h', env h' B T k -> moved (length nodes) anything anything h h' -> Q tt h') ->
  wp (prof_inc i ctr n) Q h.
Proof.
  intros He Hi HQ. destruct (env_cache _ _ _ _ _ _ He Hi) as (c & Hc & _ & L1 & L2).
  eapply wp_mod_cache; [done|]. edestruct (env_upd h i c) as [E M]; [done|done|..|apply HQ; [|exact M]];
    [done|]. eapply env_locks_ext; [done|..]; intros j; simpl; rewrite ?L1, ?L2;
  (destruct (decide (j = i)) as [->|]; [by rewrite fn_lookup_insert|by rewrite fn_lookup_insert_ne]).
Qed.

(** The line of an address stays where it is as long as the array does. *)
Definition hline h (i : nat) (a : Address) : option nat := hview nodes None (fun nd c => cline nd c a) h i.

Lemma moved_line k F S h h' i a : moved k F S h h' -> (i < k)%nat -> hline h' i a = hline h i a.
Proof.
  intros Hm Hlt. pose proof (mv_sa _ _ _ _ _ Hm i Hlt) as E. unfold hline, hview.
  destruct (nodes !! i) as [nd|]; [|done]. destruct (h_caches h' !! i), (h_caches h !! i); try done.
  injection E as E. unfold cline. by rewrite E.
Qed.

Lemma get_state_ok h B T k i nd a l (Q : MESIState -> Hier R D -> Prop) :
  env h B T k -> nodes !! i = Some nd -> hline h i a = Some l -> Q (hst h i a) h ->
  wp (get_state i l) Q h.
Proof.
  intros He Hi Hl HQ. destruct (env_cache _ _ _ _ _ _ He Hi) as (c & Hc & Hok & _).
  unfold hline in Hl. rewrite (hview_eq nodes _ _ _ _ _ _ Hi Hc) in Hl.
  unfold CoherenceInv.hst in HQ. rewrite (hview_eq nodes _ _ _ _ _ _ Hi Hc) in HQ.
  eapply wp_get_state; [done| |done]. by apply cline_state; [by eapply to_array|..].
Qed.

(** ** A change of one state or of one directory entry *)
Lemma hview_upd {A} (x : A) f h i j c c0 nd :
  nodes !! i = Some nd -> h_caches h !! i = Some c0 ->
  hview nodes x f (upd h i c) j = if decide (j = i) then f nd c else hview nodes x f h j.
Proof.
  intros Hi Hc. destruct (decide (j = i)) as [->|Hne].
  - apply hview_eq; [done|]. by eapply upd_same.
  - apply hview_same. by apply upd_other.
Qed.

Lemma caches_ok_upd h i nd c c' :
  caches_ok nodes h -> nodes !! i = Some nd -> h_caches h !! i = Some c -> cache_ok nd c' ->
  caches_ok nodes (upd h i c').
Proof.
  intros [Hlen Hok] Hi Hc Hc'. split; [simpl; by rewrite length_insert|].
  intros j nd' d Hj Hd. destruct (decide (j = i)) as [->|Hne].
  - rewrite (upd_same _ _ _ _ Hc) in Hd. by simplify_eq.
  - rewrite upd_other in Hd by done. by eapply Hok.
Qed.

Lemma put_state_cohx X h i nd c a l s :
  cohx X h -> nodes !! i = Some nd -> h_caches h !! i = Some c -> cline nd c a = Some l ->
  (s = MESI.I -> hsh h i a = ∅) -> (hex h i a = true -> isx s) ->
  (forall q, parent_of i a = Some (ToCache q) -> X q a \/
     ((s <> MESI.I <-> hst h i a <> MESI.I) /\ (isx s <-> isx (hst h i a)))) ->
  let h' := upd h i (set_bcc (<[l := s]> (ca_bcc c)) c) in
  cohx X h' /\ hst h' i a = s /\ (forall j b, j <> i \/ b <> a -> hst h' j b = hst h j b) /\
  (forall j b, hsh h' j b = hsh h j b /\ hex h' j b = hex h j b).
Proof.
  intros [Hco Hno] Hi Hc Hl Hs0 Hsx Hpar h'. pose proof (to_array _ _ Htopo i nd Hi) as Harr.
  pose proof (proj2 Hco i nd c Hi Hc) as Hok.
  destruct (put_bcc_view nd Harr c a l s Hok Hl) as (V1 & V2 & V3 & V4).
  assert (hst h' i a = s) as S1 by (unfold CoherenceInv.hst, h'; by rewrite (hview_upd _ _ _ _ _ _ c nd), decide_True).
  assert (forall j b, j <> i \/ b <> a -> hst h' j b = hst h j b) as S2.
  { intros j b Hjb. unfold CoherenceInv.hst, h'. rewrite (hview_upd _ _ _ _ _ _ c nd) by done.
    destruct (decide (j = i)) as [->|]; [|done]. rewrite (hview_eq nodes _ _ _ _ _ _ Hi Hc). apply V4. tauto. }
  assert (forall j b, hsh h' j b = hsh h j b /\ hex h' j b = hex h j b) as S3.
  { intros j b. unfold CoherenceInv.hsh, CoherenceInv.hex, h'. rewrite !(hview_upd _ _ _ _ _ _ c nd) by done.
    destruct (decide (j = i)) as [->|]; [|done]. rewrite !(hview_eq nodes _ _ _ _ _ _ Hi Hc).
    unfold csh, cex. by rewrite V2. }
  split_and!; try done. split.
  { eapply caches_ok_upd; try done. apply (put_bcc_ok nd Harr c a); try done. intros E.
    specialize (Hs0 E). unfold CoherenceInv.hsh in Hs0. by rewrite (hview_eq nodes _ _ _ _ _ _ Hi Hc) in Hs0. }
  intros j b HX. specialize (Hno j b HX). destruct (S3 j b) as [E1 E2].
  destruct (decide (b = a)) as [->|Hb]; [|apply (node_ok_ext nodes h); auto].
  destruct (decide (j = i)) as [->|Hj].
  - assert (forall ch, parent_of ch a = Some (ToCache i) -> hst h' ch a = hst h ch a) as Hch.
    { intros ch Hch. apply S2. left. intros ->. apply (parent_cache _ _ Htopo) in Hch as [? _]. lia. }
    destruct Hno as [N1 N2 N3 N4]. split; rewrite ?E1, ?E2, ?S1; auto.
    + intros pd k Hp. rewrite (N1 pd k Hp). split; intros (ch & A1 & A2 & A3); exists ch;
        [rewrite (Hch ch A2)|rewrite (Hch ch A2) in A3]; done.
    + intros pd k ch Hp Hk A2. rewrite Hch by done. by eapply N2.
  - destruct (decide (parent_of i a = Some (ToCache j))) as [Hpj|Hpj].
    2:{ apply (node_ok_ext nodes h); auto. intros ch Hch. apply S2. left. by intros ->. }
    destruct (Hpar j Hpj) as [?|[F1 F2]]; [done|]. destruct Hno as [N1 N2 N3 N4]. split; rewrite ?E1, ?E2; auto.
    + intros pd k Hp. rewrite (N1 pd k Hp). split; intros (ch & A1 & A2 & A3); exists ch; split_and!; try done;
        (destruct (decide (ch = i)) as [->|Hne]; [rewrite S1 in *; tauto|]);
        [rewrite S2 by auto|rewrite S2 in A3 by auto]; done.
    + intros pd k ch Hp Hk A2. rewrite <- (N2 pd k ch Hp Hk A2).
      destruct (decide (ch = i)) as [->|]; [by rewrite S1|by rewrite S2 by auto].
    + rewrite S2 by auto. done.
    + rewrite S2 by auto. done.
Qed.

Lemma put_entry_cohx X h p pd c a l e :
  cohx X h -> X p a -> nodes !! p = Some pd -> n_terminal pd = false -> h_caches h !! p = Some c ->
  cline pd c a = Some l -> e_numSharers e = Z.of_nat (size (e_sharers e)) ->
  (hst h p a = MESI.I -> e_sharers e = ∅) -> (e_exclusive e = true -> (size (e_sharers e) <= 1)%nat) ->
  let h' := upd h p (set_tcc (<[l := e]> (ca_tcc c)) c) in
  cohx X h' /\ (forall j b, hst h' j b = hst h j b) /\
  hsh h' p a = e_sharers e /\ hex h' p a = entry_isExclusive e.
Proof.
  intros [Hco Hno] HX Hp Ht Hc Hl He1 He2 He3 h'. pose proof (to_array _ _ Htopo p pd Hp) as Harr.
  pose proof (proj2 Hco p pd c Hp Hc) as Hok.
  destruct (put_tcc_view pd Harr c a l e Hok Ht Hl) as (V1 & V2 & V3 & V4).
  assert (forall j b, hst h' j b = hst h j b) as S1.
  { intros j b. unfold CoherenceInv.hst, h'. rewrite (hview_upd _ _ _ _ _ _ c pd) by done.
    destruct (decide (j = p)) as [->|]; [|done]. by rewrite (hview_eq nodes _ _ _ _ _ _ Hp Hc). }
  split_and!; try done.
  2,3: unfold CoherenceInv.hsh, CoherenceInv.hex, h'; rewrite (hview_upd _ _ _ _ _ _ c pd), decide_True by done;
    unfold csh, cex; by rewrite V3.
  split.
  { eapply caches_ok_upd; try done. apply (put_tcc_ok pd Harr c a); try done.
    intros E. apply He2. unfold CoherenceInv.hst. by rewrite (hview_eq nodes _ _ _ _ _ _ Hp Hc). }
  intros j b Hjb. assert (j <> p \/ b <> a) as Hne.
  { destruct (decide (j = p)) as [->|]; [|by left]. right. by intros ->. }
  assert (hsh h' j b = hsh h j b /\ hex h' j b = hex h j b) as [E1 E2].
  { unfold CoherenceInv.hsh, CoherenceInv.hex, h'. rewrite !(hview_upd _ _ _ _ _ _ c pd) by done.
    destruct (decide (j = p)) as [->|]; [|done]. rewrite !(hview_eq nodes _ _ _ _ _ _ Hp Hc).
    unfold csh, cex. rewrite V4 by tauto. done. }
  apply (node_ok_ext nodes h); auto.
Qed.

(** Inclusion along the tree. *)
Lemma below_invalid h i a j :
  coherent nodes h -> under a i j -> hst h i a = MESI.I -> hst h j a = MESI.I.
Proof.
  intros Hco Hu Hi. induction Hu as [|j q Hp Hu IH]; [done|].
  destruct (parent_cache _ _ Htopo _ _ _ Hp) as (_ & nd & qd & Hj & Hq & _ & Hk).
  destruct (ch_nodes _ _ Hco q a) as [N1 _ N3 _].
  destruct (decide (hst h j a = MESI.I)) as [|Hne]; [done|]. exfalso. apply N3; [|done].
  intros E. assert (n_selfId nd ∈ hsh h q a) as Hin by (apply (N1 qd _ Hq); eauto).
  rewrite E in Hin. by apply not_elem_of_empty in Hin.
Qed.
End Env.
