(* ===== verification/CoherenceSteps.v ===== *)
(** * The steps of an access

    The invalidations that a directory sends during an access, its updates in
    [MESITopCC::processAccess], and the state changes of [MESIBottomCC], each
    with the part of the invariant that it keeps. *)

From stdpp Require Import base list gmap strings sets functions.
From Stdlib Require Import ZArith Lia.
From S2P Require Import Prelude Numeric MemHierarchy DdrBound ReplPolicy CacheArray Coherence CoherenceInv CoherenceInval CoherenceEnv.
Local Open Scope Z_scope.

Section Steps.
Context {R D : Type} `{RP : ReplPolicy R} `{MT : MemTop D} `{RL : !ReplLaws R} `{ML : !MemTopLaws D}.
Context (nodes : list Node) (nmem : nat) (Htopo : topo_ok nodes nmem).
Implicit Types (h : Hier R D) (c : CacheSt R) (B T : nat -> bool) (X F S : nat -> Address -> Prop).

Abbreviation under := (under nodes).
Abbreviation parent_of := (parent_of nodes).
Abbreviation hst := (hst nodes).
Abbreviation hsh := (hsh nodes).
Abbreviation hex := (hex nodes).
Abbreviation node_ok := (node_ok nodes).
Abbreviation hline := (hline nodes).

(** Only states and directory entries change. *)
Definition fr c : SetAssoc R * bool * bool := (ca_sa c, ca_bccLock c, ca_tccLock c).
Record framed h h' : Prop := {
  fr_mem : h_mem h' = h_mem h;
  fr_core : h_core h' = h_core h;
  fr_caches : forall j, fr <$> h_caches h' !! j = fr <$> h_caches h !! j
}.

Lemma framed_refl h : framed h h.
Proof. done. Qed.
Lemma framed_trans h1 h2 h3 : framed h1 h2 -> framed h2 h3 -> framed h1 h3.
Proof. intros [A1 A2 A3] [B1 B2 B3]. split; [congruence|congruence|]. intros j. by rewrite B3, A3. Qed.
Lemma framed_upd h i c c' : h_caches h !! i = Some c -> fr c' = fr c -> framed h (upd h i c').
Proof.
  intros Hc E. split; [done|done|]. intros j. destruct (decide (j = i)) as [->|Hne].
  - rewrite (upd_same _ _ _ _ Hc), Hc. simpl. by rewrite E.
  - by rewrite upd_other.
Qed.

Lemma framed_length h h' : framed h h' -> length (h_caches h') = length (h_caches h).
Proof.
  intros Hf. apply length_of_lookup. intros j. pose proof (fr_caches _ _ Hf j) as E.
  by rewrite <- (fmap_is_Some fr (h_caches h' !! j)), E, fmap_is_Some.
Qed.

Lemma framed_sa h h' j : framed h h' -> ca_sa <$> h_caches h' !! j = ca_sa <$> h_caches h !! j.
Proof.
  intros Hf. pose proof (fr_caches _ _ Hf j) as E.
  destruct (h_caches h' !! j), (h_caches h !! j); try done. injection E as E1 _ _. simpl. by rewrite E1.
Qed.

Lemma framed_line h h' j a : framed h h' -> hline h' j a = hline h j a.
Proof.
  intros Hf. pose proof (framed_sa h h' j Hf) as E. unfold CoherenceEnv.hline, hview.
  destruct (nodes !! j); [|done]. destruct (h_caches h' !! j), (h_caches h !! j); try done.
  injection E as E. unfold cline. by rewrite E.
Qed.

Lemma framed_locks h h' B T : framed h h' -> locks h B T -> locks h' B T.
Proof.
  intros Hf Hl j c' Hc'. pose proof (fr_caches _ _ Hf j) as E. rewrite Hc' in E.
  destruct (h_caches h !! j) as [c|] eqn:Hc; [|done]. injection E as _ -> ->. by apply Hl.
Qed.

Lemma framed_env h h' B T k :
  framed h h' -> env nodes nmem h B T k -> coherent nodes h' -> env nodes nmem h' B T k.
Proof.
  intros Hf [E1 E2 E3 E4] Hco. split; [done|by eapply framed_locks| |].
  - eapply idle_sa; [|done]. intros j _. by apply framed_sa.
  - by rewrite (fr_mem _ _ Hf).
Qed.

Lemma framed_moved k F S h h' :
  framed h h' -> (forall j b, F j b -> hst h' j b = hst h j b) ->
  (forall j b, S j b -> evolves (hst h j b) (hst h' j b)) -> moved nodes k F S h h'.
Proof. intros Hf HF HS. split; [apply Hf| |done|done]. intros j _. by apply framed_sa. Qed.

(** ** Invalidations sent from a directory *)

(** The sharers of an entry that can be invalidated. *)
Definition sharers_ready h (p : nat) (pd : Node) (a : Address) (t : InvType) (e : Entry) : Prop :=
  forall k, k ∈ e_sharers e -> exists ch, n_children pd !! k = Some ch /\
    parent_of ch a = Some (ToCache p) /\ (t = INV \/ entry_isExclusive e = true -> inv_pre t (hst h ch a)).

Record sent h (p : nat) (pd : Node) (a : Address) (l : nat) (t : InvType) (e : Entry) (cp : CacheSt R)
    (cyc : Z) (wb : bool) (r : Z * bool) h' : Prop := {
  se_cohx : cohx nodes (at_entry p a) h';
  se_cache : h_caches h' !! p = Some (set_tcc (<[l := sent_entry t e]> (ca_tcc cp)) cp);
  se_framed : framed h h';
  se_other : forall j b, b <> a -> hst h' j b = hst h j b;
  se_self : hst h' p a = hst h p a;
  se_reached : forall ch, reached pd t e ch -> hst h' ch a = inv_target t;
  se_kept : forall ch j, parent_of ch a = Some (ToCache p) -> ~ reached pd t e ch -> under a ch j ->
    h_caches h' !! j = h_caches h !! j;
  se_outside : forall j, ~ under a p j -> h_caches h' !! j = h_caches h !! j;
  se_time : cyc <= r.1 <= cyc + step_lat * Z.of_nat p + 2 ^ 32;
  se_wb : r.2 = true -> wb = true \/ exists ch, reached pd t e ch /\ isx (hst h ch a);
  se_dirty : (wb = true \/ exists ch, reached pd t e ch /\ dirty nodes h ch a) -> r.2 = true
}.

Lemma sub_ok_of h p a ch B T :
  cohx nodes (at_entry p a) h -> locks h B T -> (forall j, (j < p)%nat -> B j = false) ->
  is_Some (nodes !! p) -> parent_of ch a = Some (ToCache p) -> sub_ok nodes h ch a.
Proof.
  intros [Hco Hno] Hl HB Hp Hpar j Hu. pose proof (under_le _ _ Htopo _ _ _ Hu) as Hle.
  destruct (parent_cache _ _ Htopo _ _ _ Hpar) as (Hlt & nd & _ & Hn & _). split.
  - apply Hno. intros [-> _]. lia.
  - destruct (under_node _ _ Htopo a ch j Hu) as [nj Hj]; [eauto|].
    destruct (cache_of nodes h j nj Hco Hj) as (c & Hc & Hok). exists nj, c. split_and!; try done.
    destruct (Hl j c Hc) as [-> _]. apply HB. lia.
Qed.

Lemma touched_fr nd a c c' : touched nd a c c' -> fr c' = fr c.
Proof. intros (E1 & E2 & E3 & _). unfold fr. congruence. Qed.

Lemma loop_framed p a (G : nat -> Prop) h h' cp l e :
  loop_frame nodes p a G h h' -> h_caches h !! p = Some cp ->
  h_caches h' !! p = Some (set_tcc (<[l := e]> (ca_tcc cp)) cp) -> framed h h'.
Proof.
  intros (H1 & H2 & H3) Hp Hp'. split; [done|done|]. intros j. destruct (decide (j = p)) as [->|Hj].
  - by rewrite Hp, Hp'.
  - destruct (H3 j Hj) as [->|(ch & _ & _ & nd & c & c' & _ & Hc & Hc' & Ht)]; [done|].
    rewrite Hc, Hc'. simpl. by rewrite (touched_fr _ _ _ _ Ht).
Qed.

(** The view of other addresses is untouched. *)
Lemma loop_other p pd a (G : nat -> Prop) h h' cp l e j b :
  loop_frame nodes p a G h h' -> nodes !! p = Some pd -> n_terminal pd = false ->
  h_caches h !! p = Some cp -> cache_ok pd cp -> cline pd cp a = Some l ->
  h_caches h' !! p = Some (set_tcc (<[l := e]> (ca_tcc cp)) cp) -> b <> a ->
  hst h' j b = hst h j b /\ hsh h' j b = hsh h j b /\ hex h' j b = hex h j b.
Proof.
  intros (H1 & H2 & H3) Hp Ht Hcp Hok Hl Hp' Hb. unfold CoherenceInv.hst, CoherenceInv.hsh, CoherenceInv.hex.
  destruct (decide (j = p)) as [->|Hj].
  - rewrite !(hview_eq nodes _ _ _ _ _ _ Hp Hcp), !(hview_eq nodes _ _ _ _ _ _ Hp Hp').
    destruct (put_tcc_view pd (to_array _ _ Htopo p pd Hp) cp a l e Hok Ht Hl) as (V1 & V2 & V3 & V4).
    unfold csh, cex. by rewrite V4.
  - destruct (H3 j Hj) as [E|(ch & _ & _ & nd & c & c' & Hn & Hc & Hc' & Ht')].
    + by rewrite !(hview_same nodes _ _ _ _ _ E).
    + rewrite !(hview_eq nodes _ _ _ _ _ _ Hn Hc), !(hview_eq nodes _ _ _ _ _ _ Hn Hc').
      destruct Ht' as (_ & _ & _ & Ht'). destruct (Ht' b Hb) as [E1 E2]. unfold csh, cex. by rewrite E1, E2.
Qed.

Lemma sent_close h h' p pd a l t cp cyc e wb r B T :
  cohx nodes (at_entry p a) h -> locks h B T -> (forall j, (j < p)%nat -> B j = false) ->
  nodes !! p = Some pd -> n_terminal pd = false -> h_caches h !! p = Some cp -> cline pd cp a = Some l ->
  centry pd cp a = e -> (forall ch, reached pd t e ch -> child_ready nodes p a t h ch) ->
  send_post nodes p pd a l t cyc e cp wb h r h' -> sent h p pd a l t e cp cyc wb r h'.
Proof.
  intros Hx Hl HB Hp Ht Hcp Hline He Hready Hpost. pose proof Hx as [Hco Hno].
  pose proof (proj2 Hco p pd cp Hp Hcp) as Hok. pose proof (to_array _ _ Htopo p pd Hp) as Harr.
  pose proof Hpost as (P1 & P2 & P3 & P4 & P5 & P6).
  assert (forall j b, b <> a -> hst h' j b = hst h j b /\ hsh h' j b = hsh h j b /\ hex h' j b = hex h j b) as Hoth.
  { intros j b Hb. by eapply loop_other. }
  assert (hst h' p a = hst h p a) as Hself.
  { unfold CoherenceInv.hst. rewrite (hview_eq nodes _ _ _ _ _ _ Hp Hcp), (hview_eq nodes _ _ _ _ _ _ Hp P1).
    by apply (put_tcc_view pd Harr cp a l (sent_entry t e) Hok Ht Hline). }
  assert (forall ch, parent_of ch a = Some (ToCache p) -> sub_ok nodes h' ch a) as Hsub.
  { intros ch Hpar. eapply (after_send nodes nmem Htopo p pd a l t cyc Hp h h' e cp wb r ch); try done.
    by eapply sub_ok_of. }
  assert (forall j, j <> p -> h_caches h' !! j = h_caches h !! j \/ exists ch, reached pd t e ch /\ under a ch j) as Hfr.
  { intros j Hj. by eapply loop_frame_same. }
  split; try done.
  - split; [split|].
    + rewrite <- (proj1 Hco). by eapply framed_length, loop_framed.
    + intros j nd c Hj Hc. destruct (decide (j = p)) as [->|Hne].
      * simplify_eq. by apply (sent_tcc_ok nodes nmem Htopo p pd cp a).
      * destruct (Hfr j Hne) as [E|(ch & Hre & Hu)]; [rewrite E in Hc; by eapply (proj2 Hco)|].
        destruct (Hready ch Hre) as (Hpar & _). destruct (Hsub ch Hpar j Hu) as (_ & nd' & c' & ? & ? & ? & _).
        by simplify_eq.
    + intros j b Hjb. destruct (decide (b = a)) as [->|Hb].
      2:{ destruct (Hoth j b Hb) as (E1 & E2 & E3). apply (node_ok_ext nodes h);
            [apply Hno; by intros [? ?]|done|done|done|]. intros i _. by apply Hoth. }
      assert (j <> p) as Hj by (intros ->; by apply Hjb).
      destruct (under_dec nodes nmem Htopo a p j) as [Hu|Hu].
      * apply (under_split nodes) in Hu as (ch & Hpar & Hu); [|done]. by apply (Hsub ch Hpar).
      * assert (h_caches h' !! j = h_caches h !! j) as E.
        { destruct (Hfr j Hj) as [?|(ch & Hre & Hu')]; [done|]. exfalso. apply Hu.
          destruct (Hready ch Hre) as (Hpar & _). eapply under_trans; [by apply under_child|done]. }
        apply (node_ok_ext nodes h); try (by apply hview_same); [by apply Hno|].
        intros i Hi. destruct (decide (i = p)) as [->|Hip]; [done|]. apply hview_same.
        destruct (Hfr i Hip) as [?|(ch & Hre & Hu')]; [done|]. exfalso.
        destruct (Hready ch Hre) as (Hpar & _). apply under_inv in Hu' as [->|(q & Hq & Hu')]; [congruence|].
        apply Hu. rewrite Hi in Hq. injection Hq as <-. eapply under_trans; [by apply under_child|done].
  - by eapply loop_framed.
  - intros j b Hb. by apply Hoth.
  - intros ch Hre. by apply P3.
  - intros ch j Hpar Hre Hu. apply (subtree_same nodes nmem Htopo p a (reached pd t e) h h' ch); try done.
    intros ch1 H1. split; [apply (Hready ch1 H1)|]. by intros ->.
  - intros j Hu. destruct (Hfr j) as [?|(ch & Hre & Hu')]; [intros ->; apply Hu, under_refl|done|].
    exfalso. apply Hu. destruct (Hready ch Hre) as (Hpar & _). eapply under_trans; [by apply under_child|done].
Qed.

Context (down : nat -> InvReq -> M (Hier R D) (Z * bool)).

Lemma send_ok h p pd a l t cp wb cyc src B T :
  (forall ch, (ch < p)%nat -> inval_spec nodes down ch) ->
  cohx nodes (at_entry p a) h -> locks h B T -> (forall j, (j < p)%nat -> B j = false) ->
  nodes !! p = Some pd -> n_terminal pd = false -> h_caches h !! p = Some cp -> cline pd cp a = Some l ->
  t <> FWD -> sharers_ready h p pd a t (centry pd cp a) ->
  0 <= cyc -> cyc + step_lat * Z.of_nat p + 2 ^ 32 < 2 ^ 64 ->
  wp (tcc_sendInvalidates nodes down p a l t wb cyc src)
    (sent h p pd a l t (centry pd cp a) cp cyc wb) h.
Proof.
  intros Hdown Hx Hl HB Hp Ht Hcp Hline Hf Hsh H0 Hb. pose proof (to_array _ _ Htopo p pd Hp) as Harr.
  pose proof (proj2 (proj1 Hx) p pd cp Hp Hcp) as Hok. pose proof (cline_entry pd Harr cp a l Hok Ht Hline) as He.
  assert (forall ch, reached pd t (centry pd cp a) ch -> child_ready nodes p a t h ch) as Hready.
  { intros ch (Hgo & k & Hk & Hkc). destruct (Hsh k Hk) as (ch' & Hc' & Hpar & Hpre). simplify_eq.
    split_and!; [done| |by apply Hpre]. eapply sub_ok_of; eauto. }
  eapply wp_mono.
  - eapply (sendInvalidates_ok nodes nmem Htopo down p pd a l t cyc src Hp Hdown H0 Hb); try done.
    + by apply (co_count _ _ Hok l).
    + intros k Hk. destruct (Hsh k Hk) as (ch & ? & _). eauto.
  - intros r h' Hpost. by eapply sent_close.
Qed.

(** ** [MESITopCC::processAccess] *)

(** The request of cache [ch] that fits its state; [PUT]s carry no flags. *)
Definition req_ok (t : AccessType) (s : MESIState) (sh : gset nat) (fl : Z) : Prop :=
  Z.land fl PREFETCH = 0 /\
  match t with
  | GETS => s = MESI.I
  | GETX => s = MESI.I \/ s = MESI.S
  | PUTS => (s = MESI.S \/ s = MESI.E) /\ sh = ∅ /\ fl = 0
  | PUTX => s = MESI.M /\ sh = ∅ /\ fl = 0
  end.

(** The state that the request ends with. *)
Definition granted (t : AccessType) (s : MESIState) : Prop :=
  match t with
  | GETS => s = MESI.S \/ s = MESI.E
  | GETX => s = MESI.M
  | PUTS | PUTX => s = MESI.I
  end.

(** The state of the directory's own line, after [MESIBottomCC::processAccess]. *)
Definition own_ready (t : AccessType) (s : MESIState) : Prop :=
  match t with GETS | PUTS => s <> MESI.I | GETX | PUTX => s = MESI.M end.

Lemma dir_intro h p pd a :
  nodes !! p = Some pd ->
  (forall k, k ∈ hsh h p a -> exists i, n_children pd !! k = Some i /\ parent_of i a = Some (ToCache p)) ->
  (forall k i, n_children pd !! k = Some i -> parent_of i a = Some (ToCache p) ->
     (k ∈ hsh h p a <-> hst h i a <> MESI.I) /\ (isx (hst h i a) <-> k ∈ hsh h p a /\ hex h p a = true)) ->
  hst h p a <> MESI.I -> (hex h p a = true -> isx (hst h p a)) -> node_ok h p a.
Proof.
  intros Hp H1 H2 H3 H4. split; try done.
  - intros pd' k Hp'. simplify_eq. split.
    + intros Hk. destruct (H1 k Hk) as (i & Hi & Hpar). exists i. split_and!; try done.
      by apply (proj1 (H2 k i Hi Hpar)).
    + intros (i & Hi & Hpar & Hne). by apply (proj1 (H2 k i Hi Hpar)).
  - intros pd' k i Hp' Hi Hpar. simplify_eq. exact (proj2 (H2 k i Hi Hpar)).
Qed.

(** The child's state is written through its pointer. *)
Lemma assign_ok h p a ch nd lc s (Q : unit -> Hier R D -> Prop) :
  cohx nodes (at_entry p a) h -> nodes !! ch = Some nd -> hline h ch a = Some lc ->
  parent_of ch a = Some (ToCache p) -> (s = MESI.I -> hsh h ch a = ∅) -> (hex h ch a = true -> isx s) ->
  (forall h', cohx nodes (at_entry p a) h' -> framed h h' -> hst h' ch a = s ->
     (forall j b, j <> ch \/ b <> a -> hst h' j b = hst h j b) ->
     (forall j b, hsh h' j b = hsh h j b /\ hex h' j b = hex h j b) -> Q tt h') ->
  wp (assign (LineState ch lc) s) Q h.
Proof.
  intros Hx Hch Hl Hpar H1 H2 HQ. destruct (cache_of nodes h ch nd (proj1 Hx) Hch) as (c & Hc & Hok).
  unfold CoherenceEnv.hline in Hl. rewrite (hview_eq nodes _ _ _ _ _ _ Hch Hc) in Hl.
  eapply wp_put_state; [done|].
  destruct (put_state_cohx nodes nmem Htopo (at_entry p a) h ch nd c a lc s) as (A1 & A2 & A3 & A4); try done.
  { intros q Hq. left. split; [congruence|done]. }
  apply HQ; try done. by eapply framed_upd.
Qed.

(** The directory entry is written. *)
Lemma put_entry_ok h p pd a l e (Q : unit -> Hier R D -> Prop) :
  cohx nodes (at_entry p a) h -> nodes !! p = Some pd -> n_terminal pd = false -> hline h p a = Some l ->
  e_numSharers e = Z.of_nat (size (e_sharers e)) -> hst h p a <> MESI.I ->
  (e_exclusive e = true -> (size (e_sharers e) <= 1)%nat) ->
  (forall h' cp', cohx nodes (at_entry p a) h' -> framed h h' -> (forall j b, hst h' j b = hst h j b) ->
     (forall j, j <> p -> h_caches h' !! j = h_caches h !! j) ->
     hsh h' p a = e_sharers e -> hex h' p a = entry_isExclusive e ->
     h_caches h' !! p = Some cp' -> cline pd cp' a = Some l ->
     centry pd cp' a = e -> ca_tcc cp' !! l = Some e -> Q tt h') ->
  wp (put_entry p l e) Q h.
Proof.
  intros Hx Hp Ht Hl H1 H2 H3 HQ. destruct (cache_of nodes h p pd (proj1 Hx) Hp) as (c & Hc & Hok).
  unfold CoherenceEnv.hline in Hl. rewrite (hview_eq nodes _ _ _ _ _ _ Hp Hc) in Hl.
  pose proof (to_array _ _ Htopo p pd Hp) as Harr. eapply wp_put_entry; [done|].
  destruct (put_entry_cohx nodes nmem Htopo (at_entry p a) h p pd c a l e) as (A1 & A2 & A3 & A4); try done.
  destruct (put_tcc_view pd Harr c a l e Hok Ht Hl) as (V1 & _ & V3 & _).
  apply (HQ _ (set_tcc (<[l := e]> (ca_tcc c)) c)); try done.
  - by eapply framed_upd.
  - intros j Hj. by apply upd_other.
  - by eapply upd_same.
  - simpl. apply list_lookup_insert_eq. rewrite (co_tcc _ _ Hok Ht). by eapply cline_array.
Qed.

Section Directory.
Context (p : nat) (pd : Node) (ch : nat) (nd : Node) (a : Address) (l lc : nat).
Context (Hp : nodes !! p = Some pd) (Hterm : n_terminal pd = false) (Hch : nodes !! ch = Some nd).
Context (Hpar : parent_of ch a = Some (ToCache p)).
Context (Hdown : forall i, (i < p)%nat -> inval_spec nodes down i).

(** What a directory step leaves: [s] is the state of the child. *)
Record dir_post h (t : AccessType) (cyc : Z) (r : Z * bool) h' : Prop := {
  dp_coherent : coherent nodes h';
  dp_framed : framed h h';
  dp_granted : granted t (hst h' ch a);
  dp_self : hst h' p a = hst h p a;
  dp_other : forall j b, b <> a -> hst h' j b = hst h j b;
  dp_below : forall j, under a ch j -> j <> ch -> hst h' j a = hst h j a;
  dp_put : IsPut t = true -> forall j, j <> ch -> hst h' j a = hst h j a;
  dp_time : cyc <= r.1 <= cyc + step_lat * Z.of_nat p + 2 ^ 32;
  dp_wb : r.2 = true -> isx (hst h p a)
}.

Lemma child_slot : n_children pd !! n_selfId nd = Some ch.
Proof.
  destruct (parent_cache _ _ Htopo _ _ _ Hpar) as (_ & nd' & pd' & H1 & H2 & _ & H3). by simplify_eq.
Qed.

Lemma slot_other k i : n_children pd !! k = Some i -> k <> n_selfId nd <-> i <> ch.
Proof.
  intros Hk. split; intros Hne ->; apply Hne; [|by rewrite child_slot in Hk; simplify_eq].
  eapply (child_unique nodes nmem Htopo p pd); [done|done|]. apply child_slot.
Qed.

(** The view of the directory as the entry. *)
Lemma entry_view h : cohx nodes (at_entry p a) h -> hline h p a = Some l ->
  exists cp e, h_caches h !! p = Some cp /\ cline pd cp a = Some l /\ centry pd cp a = e /\
    ca_tcc cp !! l = Some e /\ hsh h p a = e_sharers e /\ hex h p a = entry_isExclusive e /\
    e_numSharers e = Z.of_nat (size (e_sharers e)) /\
    (e_exclusive e = true -> (size (e_sharers e) <= 1)%nat).
Proof.
  intros Hx Hl. destruct (cache_of nodes h p pd (proj1 Hx) Hp) as (cp & Hc & Hok).
  unfold CoherenceEnv.hline in Hl. rewrite (hview_eq nodes _ _ _ _ _ _ Hp Hc) in Hl.
  pose proof (to_array _ _ Htopo p pd Hp) as Harr. pose proof (cline_entry pd Harr cp a l Hok Hterm Hl) as He.
  exists cp, (centry pd cp a). unfold CoherenceInv.hsh, CoherenceInv.hex.
  rewrite !(hview_eq nodes _ _ _ _ _ _ Hp Hc). split_and!; try done.
  - by apply (co_count _ _ Hok l).
  - by apply (co_single _ _ Hok l).
Qed.

Lemma u32_small n : 0 <= n < 2 ^ 32 -> u32 n = n.
Proof. intros H. by apply u32_id. Qed.

Lemma hex_single h i b : caches_ok nodes h -> hex h i b = true -> size (hsh h i b) = 1%nat.
Proof.
  intros [_ Hok]. unfold CoherenceInv.hex, CoherenceInv.hsh, hview.
  destruct (nodes !! i) as [ni|] eqn:Hi; [|done]. destruct (h_caches h !! i) as [c|] eqn:Hc; [|done].
  specialize (Hok i ni c Hi Hc). unfold cex, csh, centry. destruct (cline ni c b) as [x|]; [|done].
  destruct (ca_tcc c !! x) as [e|] eqn:He; [|done]. simpl. unfold entry_isExclusive.
  rewrite (co_count _ _ Hok x e He). intros [E _]%andb_true_iff. apply Z.eqb_eq in E. lia.
Qed.

(** Sharers are children, so there are few of them. *)
Lemma sharers_bound h : coherent nodes h -> (size (hsh h p a) <= MAX_CACHE_CHILDREN)%nat.
Proof.
  intros Hco. destruct (ch_nodes _ _ Hco p a) as [N1 _ _ _].
  transitivity (size (list_to_set (seq 0 (length (n_children pd))) : gset nat)).
  - apply subseteq_size. intros k Hk. apply (N1 pd k Hp) in Hk as (i & Hi & _).
    apply elem_of_list_to_set, elem_of_seq. apply lookup_lt_Some in Hi. lia.
  - rewrite size_list_to_set by apply NoDup_seq. rewrite length_seq. by eapply to_width.
Qed.

Lemma sharer_iff h : coherent nodes h -> n_selfId nd ∈ hsh h p a <-> hst h ch a <> MESI.I.
Proof.
  intros Hco. destruct (ch_nodes _ _ Hco p a) as [N1 _ _ _]. rewrite (N1 pd _ Hp). split.
  - intros (i & Hi & _ & Hne). rewrite child_slot in Hi. congruence.
  - intros Hne. exists ch. split_and!; [apply child_slot|done|done].
Qed.

Lemma single_sharer h i b k k' :
  caches_ok nodes h -> hex h i b = true -> k ∈ hsh h i b -> k' ∈ hsh h i b -> k = k'.
Proof.
  intros Hok Hx Hk Hk'. apply (hex_single h i b Hok) in Hx. apply size_1_elem_of in Hx as [x Hx].
  rewrite Hx in Hk, Hk'. apply elem_of_singleton in Hk as ->. by apply elem_of_singleton in Hk' as ->.
Qed.

Lemma child_not_self : ch <> p.
Proof. intros ->. apply (parent_cache _ _ Htopo) in Hpar as [? _]. lia. Qed.

(** The two writes that end every case: the new entry [e], then the state [s] of
    the child. *)
Lemma grant_ok h e s (Q : unit -> Hier R D -> Prop) :
  cohx nodes (at_entry p a) h -> hline h p a = Some l -> hline h ch a = Some lc ->
  e_numSharers e = Z.of_nat (size (e_sharers e)) ->
  (e_exclusive e = true -> (size (e_sharers e) <= 1)%nat) ->
  (forall k, k ∈ e_sharers e -> exists i, n_children pd !! k = Some i /\ parent_of i a = Some (ToCache p)) ->
  (forall k i, n_children pd !! k = Some i -> parent_of i a = Some (ToCache p) -> i <> ch ->
     (k ∈ e_sharers e <-> hst h i a <> MESI.I) /\
     (isx (hst h i a) <-> k ∈ e_sharers e /\ entry_isExclusive e = true)) ->
  (n_selfId nd ∈ e_sharers e <-> s <> MESI.I) ->
  (isx s <-> n_selfId nd ∈ e_sharers e /\ entry_isExclusive e = true) ->
  hst h p a <> MESI.I -> (entry_isExclusive e = true -> isx (hst h p a)) ->
  (s = MESI.I -> hsh h ch a = ∅) -> (hex h ch a = true -> isx s) ->
  (forall h1, (forall Q2 : unit -> Hier R D -> Prop,
       (forall h2, coherent nodes h2 -> framed h h2 -> hst h2 ch a = s ->
          (forall j b, j <> ch \/ b <> a -> hst h2 j b = hst h j b) -> Q2 tt h2) ->
       wp (assign (LineState ch lc) s) Q2 h1) -> Q tt h1) ->
  wp (put_entry p l e) Q h.
Proof.
  intros Hx Hl Hlc Hcnt Hsing Hin Hoth Hself Hselfx HpI HpX Hs0 Hsx HQ.
  eapply put_entry_ok; try done. intros h1 cp1 Hx1 F1 St1 C1 S1 X1 _ _ _ _. apply HQ. intros Q2 HQ2.
  assert (h_caches h1 !! ch = h_caches h !! ch) as Ech by apply C1, child_not_self.
  assert (hsh h1 ch a = hsh h ch a /\ hex h1 ch a = hex h ch a) as [Es Ex] by (split; by apply hview_same).
  eapply assign_ok; try done.
  { by rewrite (framed_line _ _ ch a F1). }
  { by rewrite Es. }
  { by rewrite Ex. }
  intros h2 Hx2 F2 St2 So2 V2.
  assert (forall j b, j <> ch \/ b <> a -> hst h2 j b = hst h j b) as Hsame by (intros; by rewrite So2, St1).
  destruct (V2 p a) as [S2 X2]. rewrite S1 in S2. rewrite X1 in X2.
  assert (p <> ch) as Hpch by exact (not_eq_sym child_not_self).
  apply HQ2; try done; [|by eapply framed_trans].
  apply (cohx_close nodes p a); [done|]. apply (dir_intro h2 p pd a Hp).
  - by rewrite S2.
  - intros k i Hk Hi. rewrite S2, X2. destruct (decide (i = ch)) as [Ei|Hic].
    + subst i. assert (k = n_selfId nd) as -> by (by eapply child_unique; [..|apply child_slot]).
      by rewrite St2.
    + rewrite Hsame by auto. by apply Hoth.
  - rewrite Hsame by auto. done.
  - rewrite X2, Hsame by auto. done.
Qed.

(** The entry of a coherent hierarchy. *)
Lemma entry_children h e :
  coherent nodes h -> hsh h p a = e_sharers e -> hex h p a = entry_isExclusive e ->
  (forall k, k ∈ e_sharers e -> exists i, n_children pd !! k = Some i /\
     parent_of i a = Some (ToCache p) /\ hst h i a <> MESI.I) /\
  (forall k i, n_children pd !! k = Some i -> parent_of i a = Some (ToCache p) ->
     (k ∈ e_sharers e <-> hst h i a <> MESI.I) /\
     (isx (hst h i a) <-> k ∈ e_sharers e /\ entry_isExclusive e = true)).
Proof.
  intros Hco Hs Hx. destruct (ch_nodes _ _ Hco p a) as [N1 N2 _ _]. rewrite Hs, Hx in *. split.
  - intros k Hk. by apply (N1 pd k Hp).
  - intros k i Hk Hi. split; [|by apply (N2 pd)]. rewrite (N1 pd k Hp). split.
    + intros (i' & ? & _ & ?). congruence.
    + intros Hne. eauto.
Qed.

(** [PUTS], and [PUTX] after its assertion. *)
Lemma remove_ok h :
  coherent nodes h -> hline h p a = Some l -> hline h ch a = Some lc ->
  hst h ch a <> MESI.I -> hsh h ch a = ∅ ->
  wp (tcc_remove p l (n_selfId nd) (LineState ch lc)) (fun _ h' =>
    coherent nodes h' /\ framed h h' /\ hst h' ch a = MESI.I /\
    forall j b, j <> ch \/ b <> a -> hst h' j b = hst h j b) h.
Proof.
  intros Hco Hl Hlc Hne Hemp. pose proof (cohx_weaken nodes (at_entry p a) h Hco) as Hx.
  destruct (entry_view h Hx Hl) as (cp & e & Hcp & Hcl & Hce & He & S0 & X0 & Hcnt & Hsing).
  destruct (entry_children h e Hco S0 X0) as [K1 K2].
  pose proof (proj2 (sharer_iff h Hco) Hne) as Hin. pose proof (ch_nodes _ _ Hco p a) as [N1 N2 N3 N4].
  pose proof (sharers_bound h Hco) as Hbd. unfold MAX_CACHE_CHILDREN in Hbd. rewrite S0 in *.
  assert (size (e_sharers e ∖ {[n_selfId nd]}) = size (e_sharers e) - 1)%nat as Hsz.
  { rewrite size_difference by set_solver. by rewrite size_singleton. }
  assert (size (e_sharers e) <> 0)%nat as Hnz by (intros E; apply size_empty_inv in E; set_solver).
  unfold tcc_remove. apply wp_bind. eapply wp_get_entry; [done|done|].
  apply wp_bind, wp_assert; [by apply bool_decide_eq_true|].
  rewrite u32_small by lia. set (e' := set_numSharers _ _).
  assert (entry_isExclusive e' = false) as Hnx.
  { unfold entry_isExclusive. simpl. destruct (Z.eqb_spec (e_numSharers e - 1) 1); [|done]. simpl.
    destruct (e_exclusive e) eqn:Ex; [|done]. specialize (Hsing eq_refl). lia. }
  apply wp_bind. apply (grant_ok h e' MESI.I); rewrite ?Hnx; try done; simpl.
  - rewrite Hsz. lia.
  - intros Hx'. specialize (Hsing Hx'). lia.
  - intros k [Hk _]%elem_of_difference. destruct (K1 k Hk) as (i & ? & ? & _). eauto.
  - intros k i Hk Hi Hic. destruct (K2 k i Hk Hi) as [J1 J2].
    assert (k <> n_selfId nd) as Hks by (by apply (slot_other k i)).
    rewrite elem_of_difference, elem_of_singleton, <- J1. split; [tauto|].
    split; [|by intros [_ ?]]. intros [Hk' Hx']%J2. exfalso. apply Hks.
    eapply (single_sharer h); [by apply Hco|by rewrite X0|by rewrite S0|by rewrite S0].
  - set_solver.
  - split; [by intros []|by intros [_ ?]].
  - apply N3. set_solver.
  - intros Hx'. apply (hex_single _ _ _ (proj1 Hx)) in Hx'. by rewrite Hemp in Hx'.
  - intros h1 Has. apply Has. done.
Qed.

Context (B T : nat -> bool) (HB : forall j, (j < p)%nat -> B j = false).
Context (cyc src fl : Z) (Hcyc0 : 0 <= cyc) (Hcyc : cyc + step_lat * Z.of_nat p + 2 ^ 32 < 2 ^ 64).

Lemma time_now r : r = cyc -> cyc <= r <= cyc + step_lat * Z.of_nat p + 2 ^ 32.
Proof. unfold step_lat. lia. Qed.

Lemma put_dir_post h h' t :
  IsPut t = true -> coherent nodes h' -> framed h h' -> hst h' ch a = MESI.I ->
  (forall j b, j <> ch \/ b <> a -> hst h' j b = hst h j b) -> dir_post h t cyc (cyc, false) h'.
Proof.
  intros Ht Hco Hf Hst Hs. split; try done.
  - by destruct t.
  - apply Hs. left. exact (not_eq_sym child_not_self).
  - intros j b Hb. apply Hs. by right.
  - intros j _ Hj. apply Hs. by left.
  - intros _ j Hj. apply Hs. by left.
  - by apply time_now.
Qed.

Lemma dir_put_ok h t excl :
  IsPut t = true -> coherent nodes h -> hline h p a = Some l -> hline h ch a = Some lc ->
  req_ok t (hst h ch a) (hsh h ch a) fl ->
  wp (tcc_processAccess nodes down p a l t (n_selfId nd) excl (LineState ch lc) false cyc src fl)
    (dir_post h t cyc) h.
Proof.
  intros Ht Hco Hl Hlc [_ Hreq]. pose proof (cohx_weaken nodes (at_entry p a) h Hco) as Hx.
  destruct (entry_view h Hx Hl) as (cp & e & Hcp & Hcl & Hce & He & S0 & X0 & _).
  assert (hst h ch a <> MESI.I /\ hsh h ch a = ∅ /\ fl = 0) as (Hne & Hemp & ->).
  { destruct t; try done; destruct Hreq as (Hs & ? & ?); split_and!; try done; naive_solver congruence. }
  unfold tcc_processAccess. apply wp_bind. eapply wp_get_entry; [done|done|].
  destruct t; try done.
  - apply wp_bind. eapply wp_mono; [by apply remove_ok|]. intros [] h' (A1 & A2 & A3 & A4).
    apply wp_ret. by apply put_dir_post.
  - destruct Hreq as [HM _]. destruct (entry_children h e Hco S0 X0) as [_ K2].
    apply wp_bind, wp_assert.
    { apply (proj2 (K2 _ _ child_slot Hpar)). by right. }
    simpl. apply wp_bind. eapply wp_mono; [by apply remove_ok|]. intros [] h' (A1 & A2 & A3 & A4).
    apply wp_ret. by apply put_dir_post.
Qed.

(** Before a sharer is added: no child holds the line exclusively. *)
Lemma downgrade_ok h cp e :
  coherent nodes h -> locks h B T -> hst h ch a = MESI.I ->
  h_caches h !! p = Some cp -> cline pd cp a = Some l -> centry pd cp a = e ->
  ca_tcc cp !! l = Some e -> hsh h p a = e_sharers e -> hex h p a = entry_isExclusive e ->
  wp (if entry_isExclusive e then tcc_sendInvalidates nodes down p a l INVX false cyc src
      else ret (cyc, false)) (fun r h1 =>
    cohx nodes (at_entry p a) h1 /\ framed h h1 /\ hst h1 p a = hst h p a /\
    (forall j b, b <> a -> hst h1 j b = hst h j b) /\
    (forall j, under a ch j -> h_caches h1 !! j = h_caches h !! j) /\
    (exists cp1 e1, h_caches h1 !! p = Some cp1 /\ ca_tcc cp1 !! l = Some e1 /\
       e_sharers e1 = e_sharers e /\ e_numSharers e1 = e_numSharers e /\ entry_isExclusive e1 = false) /\
    (forall k i, n_children pd !! k = Some i -> parent_of i a = Some (ToCache p) ->
       (k ∈ e_sharers e <-> hst h1 i a <> MESI.I) /\ ~ isx (hst h1 i a)) /\
    cyc <= r.1 <= cyc + step_lat * Z.of_nat p + 2 ^ 32 /\ (r.2 = true -> isx (hst h p a))) h.
Proof.
  intros Hco Hlk HI Hcp Hcl Hce He S0 X0. destruct (entry_children h e Hco S0 X0) as [K1 K2].
  pose proof (ch_nodes _ _ Hco p a) as [_ _ _ N4]. destruct (entry_isExclusive e) eqn:Ex.
  - eapply wp_mono.
    { eapply (send_ok h p pd a l INVX); try done; [by apply cohx_weaken|]. rewrite Hce.
      intros k Hk. destruct (K1 k Hk) as (i & Hi & Hpi & Hne). exists i. split_and!; try done.
      intros _. by apply (proj2 (K2 k i Hi Hpi)). }
    rewrite Hce. intros r h1 [A1 A2 A3 A4 A5 A6 A7 _ [A8 A8'] A9 _].
    assert (~ reached pd INVX e ch) as Hnr.
    { intros (_ & k & Hk & Hkc). apply (K2 k ch Hkc Hpar) in Hk. done. }
    assert (sent_entry INVX e = set_exclusive false e) as Ese by (unfold sent_entry; by rewrite Ex).
    split_and!; try done.
    + intros j Hu. by apply (A7 ch).
    + rewrite Ese in A2. eexists _, (set_exclusive false e). split_and!; [exact A2|..|done|done|].
      * simpl. apply list_lookup_insert_eq. by eapply lookup_lt_Some.
      * unfold entry_isExclusive. simpl. apply andb_false_r.
    + intros k i Hk Hpi. destruct (K2 k i Hk Hpi) as [J1 J2]. destruct (decide (k ∈ e_sharers e)) as [Hin|Hin].
      * rewrite A6; [split; [by split|by intros []]|]. split; [by right|eauto].
      * assert (hst h1 i a = hst h i a) as ->.
        { apply hview_same. apply (A7 i); [done| |apply under_refl]. intros (_ & k' & Hk' & Hkc').
          pose proof (child_unique nodes nmem Htopo p pd Hp k' k i Hkc' Hk) as ->. done. }
        split; [done|]. intros Hxi. by apply J2 in Hxi as [? _].
    + intros Hr. apply N4. by rewrite X0.
  - apply wp_ret. split_and!; try done.
    + by apply cohx_weaken.
    + eauto 10.
    + intros k i Hk Hpi. destruct (K2 k i Hk Hpi) as [J1 J2]. split; [done|]. by intros [_ ?]%J2.
    + by apply time_now.
Qed.

Abbreviation have_excl s := (bool_decide (s = MESI.E) || bool_decide (s = MESI.M)).

(** A grant to a child whose subtree was not disturbed. *)
Lemma get_dir_post h h1 h2 t s r :
  IsPut t = false -> framed h h1 -> hst h1 p a = hst h p a ->
  (forall j b, b <> a -> hst h1 j b = hst h j b) ->
  (forall j, under a ch j -> j <> ch -> hst h1 j a = hst h j a) ->
  cyc <= r.1 <= cyc + step_lat * Z.of_nat p + 2 ^ 32 -> (r.2 = true -> isx (hst h p a)) ->
  granted t s ->
  coherent nodes h2 -> framed h1 h2 -> hst h2 ch a = s ->
  (forall j b, j <> ch \/ b <> a -> hst h2 j b = hst h1 j b) -> dir_post h t cyc r h2.
Proof.
  intros Ht F1 Sp So Sb Htm Hwb Hg Hco F2 Hs Hsame. split; try done.
  - by eapply framed_trans.
  - by rewrite Hs.
  - rewrite Hsame; [done|]. left. exact (not_eq_sym child_not_self).
  - intros j b Hb. rewrite Hsame by (by right). auto.
  - intros j Hu Hj. rewrite Hsame by (by left). auto.
  - by rewrite Ht.
Qed.

Lemma hst_caches h h1 j b : h_caches h1 !! j = h_caches h !! j -> hst h1 j b = hst h j b.
Proof. apply hview_same. Qed.

Lemma dir_gets_ok h :
  coherent nodes h -> locks h B T -> hline h p a = Some l -> hline h ch a = Some lc ->
  hst h ch a = MESI.I -> hst h p a <> MESI.I ->
  wp (tcc_processAccess nodes down p a l GETS (n_selfId nd) (have_excl (hst h p a))
        (LineState ch lc) false cyc src fl) (dir_post h GETS cyc) h.
Proof.
  intros Hco Hlk Hl Hlc HI HpI. pose proof (cohx_weaken nodes (at_entry p a) h Hco) as Hx.
  destruct (entry_view h Hx Hl) as (cp & e & Hcp & Hcl & Hce & He & S0 & X0 & Hcnt & Hsing).
  destruct (entry_children h e Hco S0 X0) as [K1 K2].
  assert (n_selfId nd ∉ e_sharers e) as Hnin by (rewrite <- S0, (sharer_iff h Hco); naive_solver).
  pose proof (ch_nodes _ _ Hco ch a) as [_ _ N3 N4]. rewrite HI in N3, N4.
  assert (hex h ch a = false) as Hxch.
  { destruct (hex h ch a); [|done]. by destruct (N4 eq_refl). }
  pose proof (sharers_bound h Hco) as Hbd. unfold MAX_CACHE_CHILDREN in Hbd. rewrite S0 in Hbd.
  unfold tcc_processAccess. apply wp_bind. eapply wp_get_entry; [done|done|].
  destruct (entry_isEmpty e && have_excl (hst h p a) && (Z.land fl NOEXCL =? 0)) eqn:Eg.
  - apply andb_true_iff in Eg as [[Ee Eh]%andb_true_iff _]. apply isx_bool in Eh.
    unfold entry_isEmpty in Ee. apply Z.eqb_eq in Ee.
    assert (e_sharers e = ∅) as Hemp by (apply leibniz_equiv, size_empty_inv; lia).
    set (e' := set_numSharers _ _).
    assert (e_sharers e' = {[n_selfId nd]}) as Esh by (simpl; rewrite Hemp; set_solver).
    apply wp_bind. apply (grant_ok h e' MESI.E); rewrite ?Esh, ?size_singleton; try done.
    + intros k Hk%elem_of_singleton. rewrite Hk. eexists. split; [apply child_slot|done].
    + intros k i Hk Hi Hic. destruct (K2 k i Hk Hi) as [J1 J2]. rewrite Hemp in J1, J2.
      assert (k <> n_selfId nd) by (by apply (slot_other k i)). rewrite <- J1, J2. set_solver.
    + set_solver.
    + split; [intros _; set_solver|by left].
    + by left.
    + intros h1 Has. apply wp_bind. apply Has. intros h2 A1 A2 A3 A4. apply wp_ret.
      eapply (get_dir_post h h h2); try done; [by apply time_now|by right].
  - apply wp_bind, wp_assert; [by rewrite bool_decide_eq_false_2|].
    apply wp_bind. eapply wp_mono; [by eapply downgrade_ok|].
    intros [resp wb] h1 (Hx1 & F1 & Sp & So & Sb & (cp1 & e1 & Hcp1 & He1 & Es1 & En1 & Ex1) & Kids & Htm & Hwb).
    cbv beta iota. apply wp_bind. eapply wp_get_entry; [done|done|]. apply wp_bind, wp_assert; [by rewrite Ex1|].
    rewrite En1, u32_small by lia. set (e' := set_exclusive _ _).
    assert (e_sharers e' = {[n_selfId nd]} ∪ e_sharers e) as Esh by (simpl; by rewrite Es1).
    assert (entry_isExclusive e' = false) as Ex' by apply andb_false_r.
    assert (h_caches h1 !! ch = h_caches h !! ch) as Ech by (apply Sb, under_refl).
    apply wp_bind. apply (grant_ok h1 e' MESI.S); rewrite ?Esh, ?Ex'; try done.
    + by rewrite (framed_line _ _ p a F1).
    + by rewrite (framed_line _ _ ch a F1).
    + simpl. rewrite size_union, size_singleton by set_solver. lia.
    + intros k [->%elem_of_singleton|Hk]%elem_of_union; [eexists; split; [apply child_slot|done]|].
      destruct (K1 k Hk) as (i & ? & ? & _). eauto.
    + intros k i Hk Hi Hic. destruct (Kids k i Hk Hi) as [J1 J2].
      assert (k <> n_selfId nd) by (by apply (slot_other k i)). rewrite <- J1. split; [set_solver|].
      split; [done|by intros [_ ?]].
    + set_solver.
    + split; [by intros []|by intros [_ ?]].
    + by rewrite Sp.
    + assert (hex h1 ch a = hex h ch a) as -> by (by apply hview_same). by rewrite Hxch.
    + intros h2 Has. apply wp_bind. apply Has. intros h3 A1 A2 A3 A4. apply wp_ret.
      eapply (get_dir_post h h1 h3); try done; [|by left]. intros j Hu _. by apply hst_caches, Sb.
Qed.

(** [GETX] first takes the requester out of the sharers. *)
Lemma unshare_ok h cp e :
  coherent nodes h -> hline h p a = Some l -> hst h p a <> MESI.I -> ~ isx (hst h ch a) ->
  h_caches h !! p = Some cp -> cline pd cp a = Some l -> centry pd cp a = e ->
  ca_tcc cp !! l = Some e -> hsh h p a = e_sharers e -> hex h p a = entry_isExclusive e ->
  e_numSharers e = Z.of_nat (size (e_sharers e)) ->
  (e_exclusive e = true -> (size (e_sharers e) <= 1)%nat) ->
  wp (when (bool_decide (n_selfId nd ∈ e_sharers e))
        (assert_ "coherence_ctrls.cpp:317" (negb (entry_isExclusive e)) ;;
         put_entry p l (set_numSharers (u32 (e_numSharers e - 1)) (del_sharer (n_selfId nd) e))))
    (fun _ h1 => exists cp1 e1, cohx nodes (at_entry p a) h1 /\ framed h h1 /\
       (forall j b, hst h1 j b = hst h j b) /\ (forall j, j <> p -> h_caches h1 !! j = h_caches h !! j) /\
       h_caches h1 !! p = Some cp1 /\ cline pd cp1 a = Some l /\ centry pd cp1 a = e1 /\
       ca_tcc cp1 !! l = Some e1 /\ e_sharers e1 = e_sharers e ∖ {[n_selfId nd]}) h.
Proof.
  intros Hco Hl HpI Hnx Hcp Hcl Hce He S0 X0 Hcnt Hsing.
  pose proof (cohx_weaken nodes (at_entry p a) h Hco) as Hx. destruct (entry_children h e Hco S0 X0) as [K1 K2].
  pose proof (sharers_bound h Hco) as Hbd. unfold MAX_CACHE_CHILDREN in Hbd. rewrite S0 in Hbd.
  apply wp_when.
  - intros Hin%bool_decide_eq_true. apply wp_bind, wp_assert.
    { apply negb_true_iff. destruct (entry_isExclusive e) eqn:Ex; [|done]. exfalso. apply Hnx.
      by apply (proj2 (K2 _ _ child_slot Hpar)). }
    assert (size (e_sharers e ∖ {[n_selfId nd]}) = size (e_sharers e) - 1)%nat as Hsz.
    { rewrite size_difference by set_solver. by rewrite size_singleton. }
    assert (size (e_sharers e) <> 0)%nat as Hnz by (intros E; apply size_empty_inv in E; set_solver).
    rewrite u32_small by lia. eapply put_entry_ok; try done; simpl.
    + rewrite Hsz. lia.
    + intros Hx'. specialize (Hsing Hx'). lia.
    + intros h1 cp1 Hx1 F1 St1 C1 _ _ Hcp1 Hl1 He1 Ht1. exists cp1. eexists. split_and!; try done.
  - intros Hnin%bool_decide_eq_false. exists cp, e. split_and!; try done. set_solver.
Qed.

Lemma dir_getx_ok h :
  coherent nodes h -> locks h B T -> hline h p a = Some l -> hline h ch a = Some lc ->
  ~ isx (hst h ch a) -> hst h p a = MESI.M ->
  wp (tcc_processAccess nodes down p a l GETX (n_selfId nd) (have_excl (hst h p a))
        (LineState ch lc) false cyc src fl) (dir_post h GETX cyc) h.
Proof.
  intros Hco Hlk Hl Hlc Hnx HpM. pose proof (cohx_weaken nodes (at_entry p a) h Hco) as Hx.
  assert (hst h p a <> MESI.I) as HpI by (by rewrite HpM).
  destruct (entry_view h Hx Hl) as (cp & e & Hcp & Hcl & Hce & He & S0 & X0 & Hcnt & Hsing).
  destruct (entry_children h e Hco S0 X0) as [K1 K2].
  unfold tcc_processAccess. apply wp_bind. eapply wp_get_entry; [done|done|].
  apply wp_bind, wp_assert; [apply isx_bool; by right|].
  apply wp_bind. eapply wp_mono; [by eapply (unshare_ok h cp e)|]. clear cp Hcp Hcl Hce He.
  intros [] h1 (cp1 & e1 & Hx1 & F1 & St1 & C1 & Hcp1 & Hcl1 & Hce1 & He1 & Es1).
  assert (h_caches h1 !! ch = h_caches h !! ch) as Ech1 by (apply C1, child_not_self).
  apply wp_bind. eapply wp_mono.
  { eapply (send_ok h1 p pd a l INV cp1 false cyc src B T); try done; [by eapply framed_locks|]. rewrite Hce1.
    intros k Hk. rewrite Es1 in Hk. apply elem_of_difference in Hk as [Hk _].
    destruct (K1 k Hk) as (i & Hi & Hpi & Hne). exists i. split_and!; try done. intros _. simpl. by rewrite St1. }
  rewrite Hce1. intros [resp wb] h2 [Hx2 Hcp2 F2 So2 Sp2 Hre Hke _ Htm Hwb _]. cbv beta iota.
  assert (ca_tcc (set_tcc (<[l := sent_entry INV e1]> (ca_tcc cp1)) cp1) !! l = Some (mkEntry 0 ∅ (e_exclusive e1)))
    as He2 by (simpl; apply list_lookup_insert_eq; by eapply lookup_lt_Some).
  apply wp_bind. eapply wp_get_entry; [done|exact He2|]. cbn [e_numSharers].
  change (u32 (0 + 1)) with 1. set (e' := set_exclusive _ _).
  assert (e_sharers e' = {[n_selfId nd]}) as Esh by (simpl; set_solver).
  assert (~ reached pd INV e1 ch) as Hnr.
  { intros (_ & k & Hk & Hkc). rewrite Es1 in Hk.
    assert (k = n_selfId nd) as -> by (by eapply child_unique; [..|apply child_slot]). set_solver. }
  assert (forall j, under a ch j -> h_caches h2 !! j = h_caches h !! j) as Hbelow.
  { intros j Hu. rewrite (Hke ch j Hpar Hnr Hu). apply C1. intros ->. apply (under_le _ _ Htopo) in Hu.
    destruct (parent_cache _ _ Htopo _ _ _ Hpar) as [? _]. lia. }
  assert (forall k i, n_children pd !! k = Some i -> parent_of i a = Some (ToCache p) -> i <> ch ->
            hst h2 i a = MESI.I) as Hgone.
  { intros k i Hk Hi Hic. assert (k <> n_selfId nd) by (by apply (slot_other k i)).
    destruct (decide (k ∈ e_sharers e)) as [Hin|Hin].
    - apply (Hre i). split; [by left|]. exists k. split; [set_solver|done].
    - rewrite (hst_caches h1); [|apply (Hke i); [done| |apply under_refl]].
      + rewrite St1. destruct (K2 k i Hk Hi) as [J1 _]. destruct (decide (hst h i a = MESI.I)); [done|]. tauto.
      + intros (_ & k' & Hk' & Hkc'). rewrite Es1 in Hk'.
        pose proof (child_unique nodes nmem Htopo p pd Hp k' k i Hkc' Hk) as ->. set_solver. }
  apply wp_bind. apply (grant_ok h2 e' MESI.M); rewrite ?Esh, ?size_singleton; try done.
  - by rewrite (framed_line _ _ p a F2), (framed_line _ _ p a F1).
  - by rewrite (framed_line _ _ ch a F2), (framed_line _ _ ch a F1).
  - intros k Hk%elem_of_singleton. rewrite Hk. eexists. split; [apply child_slot|done].
  - intros k i Hk Hi Hic. rewrite (Hgone k i Hk Hi Hic).
    assert (k <> n_selfId nd) by (by apply (slot_other k i)). split; [set_solver|].
    split; [by intros []|]. set_solver.
  - set_solver.
  - split; [intros _; set_solver|by right].
  - by rewrite Sp2, St1.
  - intros _. right. by rewrite Sp2, St1.
  - by right.
  - intros h3 Has. apply wp_bind, wp_assert; [done|]. apply wp_bind. apply Has. intros h4 A1 A2 A3 A4.
    apply wp_ret. eapply (get_dir_post h h2 h4); try done.
    + by eapply framed_trans.
    + by rewrite Sp2, St1.
    + intros j b Hb. by rewrite So2, St1.
    + intros j Hu _. by apply hst_caches, Hbelow.
    + intros _. right. done.
Qed.

(** Every case of [MESITopCC::processAccess]. *)
Lemma dir_access_ok h t :
  coherent nodes h -> locks h B T -> hline h p a = Some l -> hline h ch a = Some lc ->
  req_ok t (hst h ch a) (hsh h ch a) fl -> own_ready t (hst h p a) ->
  wp (tcc_processAccess nodes down p a l t (n_selfId nd) (have_excl (hst h p a))
        (LineState ch lc) false cyc src fl) (dir_post h t cyc) h.
Proof.
  intros Hco Hlk Hl Hlc Hreq Hown. destruct t.
  - apply dir_gets_ok; try done. apply Hreq.
  - apply dir_getx_ok; try done. destruct Hreq as [_ [->| ->]]; by intros [].
  - by apply dir_put_ok.
  - by apply dir_put_ok.
Qed.
End Directory.
End Steps.
