(* ===== verification/CoherenceAccess.v ===== *)
(** * Accesses

    [Cache::access] on a coherent hierarchy: the request of a cache to its
    parent returns, grants the state that the protocol promises, and leaves the
    hierarchy coherent with every lock as it was. *)

From stdpp Require Import base list gmap strings sets functions.
From Stdlib Require Import ZArith Lia.
From S2P Require Import Prelude Numeric MemHierarchy DdrBound ReplPolicy CacheArray Coherence CoherenceInv CoherenceInval CoherenceEnv CoherenceSteps.
Local Open Scope Z_scope.

Section Access.
Context {R D : Type} `{RP : ReplPolicy R} `{MT : MemTop D} `{RL : !ReplLaws R} `{ML : !MemTopLaws D}.
Context (nodes : list Node) (nmem : nat) (Htopo : topo_ok nodes nmem).
Implicit Types (h : Hier R D) (c : CacheSt R) (B T : nat -> bool) (F G : nat -> Address -> Prop).

Abbreviation under := (under nodes).
Abbreviation parent_of := (parent_of nodes).
Abbreviation hst := (hst nodes).
Abbreviation hsh := (hsh nodes).
Abbreviation hex := (hex nodes).
Abbreviation hline := (hline nodes).
Abbreviation env := (env nodes nmem).
Abbreviation moved := (moved nodes).
Abbreviation anything := (fun (_ : nat) (_ : Address) => True).

(** Only the controller of [i] is locked. *)
Definition only (i : nat) : nat -> bool := fun j => bool_decide (j = i).

(** The copies of [a] below [i], and the lines that the access is not about. *)
Definition below (i : nat) (a : Address) : nat -> Address -> Prop :=
  fun j b => b = a /\ under a i j /\ j <> i.
Definition rest (t : AccessType) (a : Address) : nat -> Address -> Prop :=
  fun _ b => b <> a \/ IsPut t = true.

(** Write-backs start later than the access that causes them. *)
Definition cyc_ok (t : AccessType) (i : nat) (cyc : Z) : Prop :=
  0 <= cyc <= 2 ^ 63 + (if IsGet t then 2 ^ 34 * Z.of_nat (S i) else 2 ^ 60).

Record up_pre h (i : nat) (nd : Node) (l : nat) (a : Address) (t : AccessType) (cyc fl : Z) T : Prop := {
  up_env : env h (only i) T (S i);
  up_node : nodes !! i = Some nd;
  up_free : forall j, (i < j)%nat -> T j = false;
  up_line : hline h i a = Some l;
  up_req : req_ok t (hst h i a) (hsh h i a) fl;
  up_cyc : cyc_ok t i cyc
}.
Definition up_post h (i : nat) (a : Address) (t : AccessType) T h' : Prop :=
  env h' (only i) T (S i) /\ moved (S i) (below i a) (rest t a) h h' /\ granted t (hst h' i a).

(** What cache [i] relies on when it sends a request for [a] up. *)
Definition up_spec (f : CReq -> M (Hier R D) Z) (i : nat) (a : Address) : Prop :=
  forall h nd l t cyc src fl T, up_pre h i nd l a t cyc fl T ->
    wp (f (mkCReq a t (n_selfId nd) (LineState i l) cyc (Some i) (hst h i a) src fl))
      (fun _ => up_post h i a t T) h.

Lemma node_small i nd : nodes !! i = Some nd -> Z.of_nat i < 2 ^ 20.
Proof. intros Hi. apply lookup_lt_Some in Hi. pose proof (to_size _ _ Htopo). lia. Qed.

Lemma cyc_ok_max t i nd cyc : nodes !! i = Some nd -> cyc_ok t i cyc -> 0 <= cyc <= max_cycle.
Proof.
  intros Hi%node_small [H0 Hc]. split; [done|]. unfold max_cycle. destruct (IsGet t); lia.
Qed.

(** ** State changes at one cache *)
Lemma put_state_env h B T k i nd a l s (Q : unit -> Hier R D -> Prop) :
  env h B T k -> nodes !! i = Some nd -> hline h i a = Some l ->
  (s = MESI.I -> hsh h i a = ∅) -> (hex h i a = true -> isx s) ->
  (forall q, parent_of i a = Some (ToCache q) ->
     (s <> MESI.I <-> hst h i a <> MESI.I) /\ (isx s <-> isx (hst h i a))) ->
  (forall h', env h' B T k -> framed h h' -> hst h' i a = s ->
     (forall j b, j <> i \/ b <> a -> hst h' j b = hst h j b) ->
     (forall j b, hsh h' j b = hsh h j b /\ hex h' j b = hex h j b) -> Q tt h') ->
  wp (put_state i l s) Q h.
Proof.
  intros He Hi Hl H0 Hx Hpar HQ. destruct (env_cache _ _ _ _ _ _ _ _ He Hi) as (c & Hc & Hok & _).
  unfold CoherenceEnv.hline in Hl. rewrite (hview_eq nodes _ _ _ _ _ _ Hi Hc) in Hl.
  eapply wp_put_state; [done|]. pose proof (en_coherent _ _ _ _ _ _ He) as Hco.
  destruct (put_state_cohx nodes nmem Htopo (fun _ _ => False) h i nd c a l s) as (A1 & A2 & A3 & A4); try done.
  { by apply cohx_weaken. }
  { intros q Hq. right. by apply (Hpar q). }
  assert (framed h (upd h i (set_bcc (<[l := s]> (ca_bcc c)) c))) as Hf by (by eapply framed_upd).
  apply HQ; try done. eapply framed_env; [done|done|]. destruct A1 as [B1 B2]. split; auto.
Qed.

(** A line that becomes dirty: E or M before, M afterwards. *)
Lemma make_dirty h B T k i nd a l (Q : unit -> Hier R D -> Prop) :
  env h B T k -> nodes !! i = Some nd -> hline h i a = Some l -> isx (hst h i a) ->
  (forall h', env h' B T k -> moved (length nodes) (fun j b => j <> i \/ b <> a) anything h h' ->
     hst h' i a = MESI.M -> (forall j b, hsh h' j b = hsh h j b) -> Q tt h') ->
  wp (put_state i l MESI.M) Q h.
Proof.
  intros He Hi Hl Hx HQ. eapply put_state_env; try done.
  - by right.
  - intros q _. split; [|split; [done|by right]]. split; [intros _; by apply isx_not_I|done].
  - intros h' He' Hf Hs Hsame Hv. apply HQ; try done; [|intros j b; apply Hv].
    apply framed_moved; [done|done|]. intros j b _.
    destruct (decide (j = i)) as [->|]; [|left; apply Hsame; by left].
    destruct (decide (b = a)) as [->|]; [|left; apply Hsame; by right].
    rewrite Hs. destruct Hx as [-> | ->]; [by right; right|by left].
Qed.

Lemma make_dirty_when h B T k i nd a l (Q : unit -> Hier R D -> Prop) :
  env h B T k -> nodes !! i = Some nd -> hline h i a = Some l -> isx (hst h i a) ->
  (forall h', env h' B T k -> moved (length nodes) (fun j b => j <> i \/ b <> a) anything h h' ->
     hst h' i a = MESI.M -> (forall j b, hsh h' j b = hsh h j b) -> Q tt h') ->
  wp (when (bool_decide (hst h i a = MESI.E)) (put_state i l MESI.M)) Q h.
Proof.
  intros He Hi Hl Hx HQ. apply wp_when.
  - intros _. by eapply make_dirty.
  - intros HnE%bool_decide_eq_false. apply HQ; try done; [apply moved_refl|]. by destruct Hx.
Qed.

Lemma hex_empty h i a : coherent nodes h -> hsh h i a = ∅ -> ~ hex h i a = true.
Proof. intros Hco Hs Hx. apply (hex_single nodes h i a (ch_caches _ _ Hco)) in Hx. by rewrite Hs in Hx. Qed.

(** ** Requests to the parent *)
Context (up : nat -> CReq -> M (Hier R D) Z).

(** A memory at the top. *)
Lemma hsim_mem h d : hsim h (mkHier (h_caches h) d (h_core h) (h_filters h)).
Proof. intros j. simpl. destruct (h_caches h !! j); by constructor. Qed.

Lemma env_mem h B T k d : env h B T k -> top_ok nmem d -> env (mkHier (h_caches h) d (h_core h) (h_filters h)) B T k.
Proof.
  intros [E1 E2 E3 E4] Hd. split; try done. eapply hsim_coherent; [apply hsim_mem|done].
Qed.

Lemma granted_ok r t s : type r = t -> granted_state r = s -> granted t s.
Proof. unfold granted_state. intros -> <-. destruct t; simpl; auto. destruct (is_flag r NOEXCL); auto. Qed.

Lemma memory_parent h i nd l a t cyc src fl T m :
  up_pre h i nd l a t cyc fl T -> parent_of i a = Some (ToMem m) ->
  let req := mkCReq a t (n_selfId nd) (LineState i l) cyc (Some i) (hst h i a) src fl in
  wp (st <- deref (cq_state req) ;;
      let! (st', c) := on_mem (top_access m (mem_req req st)) in assign (cq_state req) st' ;; ret c)
    (fun _ => up_post h i a t T) h.
Proof.
  intros [He Hi Hfree Hl Hreq Hcyc] Hpar req.
  assert (m < nmem)%nat as Hm.
  { unfold CoherenceInv.parent_of in Hpar. rewrite Hi in Hpar. destruct (getParentId _ _); [|done].
    by pose proof (to_parent _ _ Htopo i nd _ _ Hi Hpar). }
  apply wp_bind. eapply get_state_ok; try done. apply wp_bind. unfold on_mem. apply wp_zoom.
  eapply wp_mono.
  { eapply top_access_ok; [apply (en_top _ _ _ _ _ _ He)|done|]. by eapply cyc_ok_max. }
  intros [st' cy] d [Hst Hd]. simpl in Hst. cbv beta iota. apply wp_bind.
  set (h1 := mkHier (h_caches h) d (h_core h) (h_filters h)).
  assert (env h1 (only i) T (S i)) as He1 by (by apply env_mem).
  assert (granted t st') as Hg by (by apply (granted_ok (mem_req req (hst h i a)))).
  change (put_state i l st') with (assign (R := R) (D := D) (LineState i l) st'). unfold assign.
  assert (hsh h1 i a = hsh h i a /\ hst h1 i a = hst h i a /\ hex h1 i a = hex h i a) as (V1 & V2 & V3) by done.
  pose proof (ch_nodes _ _ (en_coherent _ _ _ _ _ _ He) i a) as [_ _ _ N4].
  eapply put_state_env; try done.
  - intros ->. rewrite V1. destruct Hreq as [_ Hreq]. destruct t; simpl in Hg; try naive_solver.
  - rewrite V3. intros Hex. pose proof (N4 Hex) as Hx. destruct Hreq as [_ Hreq]. destruct t; simpl in Hg.
    + rewrite Hreq in Hx. by destruct Hx.
    + rewrite Hg. by right.
    + exfalso. eapply hex_empty; [apply He|apply Hreq|done].
    + exfalso. eapply hex_empty; [apply He|apply Hreq|done].
  - intros q Hq. congruence.
  - intros h2 He2 Hf Hs Hsame _. apply wp_ret. split_and!; [done| |by rewrite Hs].
    apply (moved_trans _ _ _ _ h h1 h2); [by apply hsim_moved; [apply hsim_mem|..]|].
    apply framed_moved; [done|..].
    + intros j b (-> & _ & Hj). apply Hsame. by left.
    + intros j b Hb. destruct (decide (j = i)) as [->|]; [|left; apply Hsame; by left].
      destruct (decide (b = a)) as [->|]; [|left; apply Hsame; by right].
      destruct Hb as [|Hp]; [done|]. right. left. rewrite Hs. by destruct t.
Qed.

(** Every parent that is a cache answers as promised. *)
Definition parents_ok (i : nat) : Prop :=
  forall a q, parent_of i a = Some (ToCache q) -> up_spec (up q) i a.

Lemma parent_access_ok i a : parents_ok i -> up_spec (parent_access nodes up i) i a.
Proof.
  intros Hup h nd l t cyc src fl T Hpre. pose proof (up_node _ _ _ _ _ _ _ _ _ Hpre) as Hi.
  destruct (parent_total nodes nmem Htopo i nd a Hi) as (k & p & Hk & Hp & Hpar).
  unfold parent_access. apply wp_bind. eapply wp_node; [done|]. apply wp_bind. eapply wp_lift; [done|].
  apply wp_bind. eapply wp_lift; [by apply at_ok|]. destruct p as [q|m].
  - by apply (Hup a q).
  - by apply (memory_parent h i nd l a t cyc src fl T m).
Qed.

(** A request built from the cache's own line. *)
Lemma own_req_ok h B T k i nd a l t cyc src fl (Q : CReq -> Hier R D -> Prop) :
  env h B T k -> nodes !! i = Some nd -> hline h i a = Some l ->
  Q (mkCReq a t (n_selfId nd) (LineState i l) cyc (Some i) (hst h i a) src fl) h ->
  wp (own_req nodes i l a t cyc src fl) Q h.
Proof.
  intros He Hi Hl HQ. unfold own_req. apply wp_bind. eapply wp_node; [done|]. apply wp_bind.
  eapply get_state_ok; try done.
Qed.

Context (i : nat) (nd : Node) (Hi : nodes !! i = Some nd) (Hup : parents_ok i).
Context (T : nat -> bool) (Hfree : forall j, (i < j)%nat -> T j = false).

Lemma node_in : (i < length nodes)%nat.
Proof. by eapply lookup_lt_Some. Qed.

Lemma moved_long F G h h' : moved (length nodes) F G h h' -> moved (S i) F G h h'.
Proof. intros Hm. eapply moved_weaken; [done|apply node_in|done|by left]. Qed.

(** ** [MESIBottomCC::processEviction] of a valid line *)
Lemma request_up h b l t cyc src fl :
  up_pre h i nd l b t cyc fl T ->
  wp (req <- own_req nodes i l b t cyc src fl ;; parent_access nodes up i req)
    (fun _ => up_post h i b t T) h.
Proof.
  intros Hpre. pose proof Hpre as [He _ _ Hl _ _]. apply wp_bind. eapply own_req_ok; try done.
  by apply parent_access_ok.
Qed.

Lemma evict_up h b l cyc src :
  env h (only i) T (S i) -> hline h i b = Some l -> hst h i b <> MESI.I -> hsh h i b = ∅ ->
  cyc_ok PUTS i cyc ->
  wp (match hst h i b with
      | MESI.I => ret cyc
      | MESI.S | MESI.E => req <- own_req nodes i l b PUTS cyc src 0 ;; parent_access nodes up i req
      | MESI.M => req <- own_req nodes i l b PUTX cyc src 0 ;; parent_access nodes up i req
      end) (fun _ h' => env h' (only i) T (S i) /\ moved (S i) (fun _ _ => False) anything h h' /\
                        hst h' i b = MESI.I) h.
Proof.
  intros He Hl Hne Hemp Hcyc.
  assert (forall t, IsPut t = true -> req_ok t (hst h i b) (hsh h i b) 0 ->
    wp (req <- own_req nodes i l b t cyc src 0 ;; parent_access nodes up i req)
      (fun _ h' => env h' (only i) T (S i) /\ moved (S i) (fun _ _ => False) anything h h' /\
                   hst h' i b = MESI.I) h) as Hput.
  { intros t Ht Hr. eapply wp_mono.
    - apply request_up. split; try done. unfold cyc_ok in *. by destruct t.
    - intros r h' (E & Mv & Hg). split_and!; [done| |by destruct t].
      eapply moved_weaken; [done|done|done|]. intros j b' _. left. by right. }
  destruct (hst h i b) eqn:Hs; try done; apply Hput; try done; split; auto.
Qed.

Lemma processEviction_ok h b l wb cyc src :
  env h (only i) T (S i) -> hline h i b = Some l -> hst h i b <> MESI.I -> hsh h i b = ∅ ->
  (wb = true -> isx (hst h i b)) -> cyc_ok PUTS i cyc ->
  wp (bcc_processEviction nodes up i b l wb cyc src) (fun _ h' =>
    env h' (only i) T (S i) /\ moved (S i) (fun _ _ => False) anything h h' /\ hst h' i b = MESI.I) h.
Proof.
  intros He Hl Hne Hemp Hwb Hcyc. unfold bcc_processEviction. apply wp_bind.
  assert (wp (when wb (s <- get_state i l ;;
      assert_ "coherence_ctrls.cpp:62" (bool_decide (s = MESI.M) || bool_decide (s = MESI.E)) ;;
      put_state i l MESI.M)) (fun _ h1 => env h1 (only i) T (S i) /\
        moved (S i) (fun _ _ => False) anything h h1 /\ hline h1 i b = Some l /\
        hst h1 i b <> MESI.I /\ hsh h1 i b = ∅) h) as Hmark.
  { apply wp_when; [|intros _; split_and!; [done|apply moved_refl|done..]]. intros Hw. specialize (Hwb Hw).
    apply wp_bind. eapply get_state_ok; try done. apply wp_bind, wp_assert.
    { rewrite orb_comm. by apply isx_bool. }
    eapply make_dirty; try done. intros h1 E1 M1 S1 V1. split_and!; [done|..].
    - eapply moved_long, moved_weaken; [done|done|done|by left].
    - rewrite <- Hl. eapply moved_line; [done|apply node_in].
    - by rewrite S1.
    - by rewrite V1. }
  eapply wp_mono; [exact Hmark|]. intros [] h1 (E1 & M1 & L1 & S1 & V1). clear Hmark.
  apply wp_bind. eapply get_state_ok; try done. apply wp_bind.
  eapply wp_mono; [by apply evict_up|]. intros r h2 (E2 & M2 & S2).
  apply wp_bind. eapply (get_state_ok nodes nmem Htopo h2 _ _ _ i nd b); try done.
  - rewrite <- L1. eapply moved_line; [done|lia].
  - apply wp_bind, wp_assert; [by rewrite S2|]. apply wp_ret. split_and!; try done. by eapply moved_trans.
Qed.

(** ** [MESIBottomCC::processAccess] *)

(** The policies of this cache too. *)
Lemma env_with_own h h' B :
  env h B T i -> env h' B T (S i) -> moved (S i) (fun _ _ => False) (fun _ _ => False) h h' -> env h' B T i.
Proof.
  intros [_ _ I1 _] [E1 E2 E3 E4] Hm. split; try done. intros j pd c Hj Hp Hc.
  destruct (decide (j = i)) as [->|]; [|apply (E3 j pd c); [lia|done|done]].
  pose proof (mv_sa _ _ _ _ _ _ Hm i ltac:(lia)) as E. rewrite Hc in E.
  destruct (h_caches h !! i) as [c0|] eqn:Hc0; [|done]. injection E as ->. by apply (I1 i pd c0).
Qed.

Lemma env_above h B k k' : env h B T k -> (k <= k')%nat -> env h B T k'.
Proof. intros [E1 E2 E3 E4] Hk. split; try done. intros j pd c Hj. apply E3. lia. Qed.

Lemma fetch_ok h a l t cyc src fl :
  env h (only i) T i -> hline h i a = Some l -> IsGet t = true ->
  req_ok t (hst h i a) (hsh h i a) fl -> cyc_ok t i cyc ->
  wp (bcc_fetch nodes up i l a t cyc src fl) (fun r h' =>
    env h' (only i) T i /\ moved (S i) (below i a) (rest t a) h h' /\ granted t (hst h' i a) /\
    cyc <= r <= cyc + 2 ^ 32) h.
Proof.
  intros He Hl Ht Hreq Hcyc. destruct (parent_total nodes nmem Htopo i nd a Hi) as (k & p & Hk & Hp & Hpar).
  destruct (cyc_ok_max t i nd cyc Hi Hcyc) as [H0 Hmax].
  assert (is_Some (n_parentRTTs nd !! k)) as [rtt Hrtt].
  { apply lookup_lt_is_Some. destruct (to_rtts _ _ Htopo i nd Hi) as [-> _]. by eapply lookup_lt_Some. }
  unfold bcc_fetch. apply wp_bind. eapply wp_node; [done|]. apply wp_bind. eapply wp_lift; [done|].
  apply wp_bind. eapply own_req_ok; try done. apply wp_bind. eapply wp_mono.
  { apply (parent_access_ok i a Hup). split; try done. apply (env_above h _ i); [done|lia]. }
  intros resp h1 (E1 & M1 & G1).
  assert (env h1 (only i) T i) as E1'.
  { eapply env_with_own; [done|done|]. eapply moved_weaken; [done|done|done|by left]. }
  apply wp_bind. eapply wp_lift; [by apply at_ok|].
  apply wp_bind. eapply prof_inc_ok; [done|done|]. intros h2 E2 M2.
  apply wp_bind. eapply prof_inc_ok; [done|done|]. intros h3 E3 M3. apply wp_ret.
  pose proof (u32_range (u32 (resp - cyc) + rtt)) as Hr. unfold in_u32 in Hr.
  rewrite u64_id by (unfold in_u64, max_cycle in *; lia). split_and!; try lia; try done.
  - eapply moved_trans; [done|]. eapply moved_long, moved_weaken; [by eapply moved_trans|done|done|by left].
  - by rewrite (mv_fixed _ _ _ _ _ _ M3), (mv_fixed _ _ _ _ _ _ M2).
Qed.

(** The state that a request finds in the cache it arrives at. *)
Definition own_start (t : AccessType) (s : MESIState) : Prop :=
  match t with GETS | GETX => True | PUTS => s <> MESI.I | PUTX => isx s end.

Record bcc_post h (a : Address) (t : AccessType) (cyc r : Z) h' : Prop := {
  bp_env : env h' (only i) T i;
  bp_moved : moved (S i) (below i a) (rest t a) h h';
  bp_ready : own_ready t (hst h' i a);
  bp_time : cyc <= r <= cyc + 2 ^ 32
}.

(** Steps that change no state, and a line that becomes dirty. *)
Lemma moved_still a t h h' : moved (length nodes) anything anything h h' -> moved (S i) (below i a) (rest t a) h h'.
Proof. intros Hm. eapply moved_long, moved_weaken; [done|done|done|by left]. Qed.

Lemma moved_dirty a t h h' :
  moved (length nodes) (fun j b => j <> i \/ b <> a) anything h h' -> moved (S i) (below i a) (rest t a) h h'.
Proof.
  intros Hm. eapply moved_long, moved_weaken; [done|done| |by left]. intros j b (_ & _ & Hj). by left.
Qed.

Lemma bcc_post_still h h1 h2 a t cyc r :
  bcc_post h a t cyc r h1 -> env h2 (only i) T i -> moved (length nodes) anything anything h1 h2 ->
  bcc_post h a t cyc r h2.
Proof.
  intros [A1 A2 A3 A4] E M. split; try done.
  - eapply moved_trans; [done|]. by apply moved_still.
  - by rewrite (mv_fixed _ _ _ _ _ _ M).
Qed.

Lemma hit_ok h a t cyc ctr :
  env h (only i) T i -> own_ready t (hst h i a) ->
  wp (prof_inc i ctr 1 ;; ret cyc) (bcc_post h a t cyc) h.
Proof.
  intros He Ho. apply wp_bind. eapply prof_inc_ok; [done|done|]. intros h1 E1 M1. apply wp_ret.
  eapply (bcc_post_still h h); [|done|done]. split; try done; [apply moved_refl|lia].
Qed.

Lemma dirty_hit_ok h a l t cyc ctr :
  env h (only i) T i -> hline h i a = Some l -> isx (hst h i a) -> (t = GETX \/ t = PUTX) ->
  wp (when (bool_decide (hst h i a = MESI.E)) (put_state i l MESI.M) ;; prof_inc i ctr 1 ;; ret cyc)
    (bcc_post h a t cyc) h.
Proof.
  intros He Hl Hx Ht. apply wp_bind. eapply make_dirty_when; try done. intros h1 E1 M1 S1 _.
  eapply wp_mono; [apply (hit_ok h1 a t); [done|]; by destruct Ht as [-> | ->]|].
  intros r h2 [B1 B2 B3 B4]. split; try done. eapply moved_trans; [|done]. by apply moved_dirty.
Qed.

Lemma miss_ok h a l t cyc src fl :
  env h (only i) T i -> hline h i a = Some l -> IsGet t = true ->
  req_ok t (hst h i a) (hsh h i a) fl -> cyc_ok t i cyc ->
  wp (bcc_fetch nodes up i l a t cyc src fl) (fun r h' =>
    bcc_post h a t cyc r h' /\ granted t (hst h' i a)) h.
Proof.
  intros He Hl Ht Hreq Hcyc. eapply wp_mono; [by apply fetch_ok|]. intros r h1 (E1 & M1 & G1 & Hb).
  split; [|done]. split; try done. destruct t; try done. by destruct G1 as [-> | ->].
Qed.

Lemma bcc_access_ok h a l t cyc src fl :
  env h (only i) T i -> hline h i a = Some l -> own_start t (hst h i a) ->
  Z.land fl PREFETCH = 0 -> (IsGet t = true -> cyc_ok t i cyc) ->
  wp (bcc_processAccess nodes up i a l t cyc src fl) (bcc_post h a t cyc) h.
Proof.
  intros He Hl Hs Hfl Hcyc. unfold bcc_processAccess. apply wp_bind.
  eapply get_state_ok; try done. apply wp_bind.
  apply (wp_mono _ (bcc_post h a t cyc)).
  2:{ intros r h1 HP. pose proof (bp_time _ _ _ _ _ _ HP). apply wp_bind, wp_assert; [lia|]. by apply wp_ret. }
  assert (forall r h1, bcc_post h a t cyc r h1 -> hline h1 i a = Some l) as Hline.
  { intros r h1 [_ Hm _ _]. rewrite <- Hl. eapply moved_line; [done|lia]. }
  destruct t; simpl in Hs.
  - destruct (bool_decide_reflect (hst h i a = MESI.I)) as [HI|HI]; [|by apply hit_ok].
    apply wp_bind. eapply wp_mono; [apply miss_ok; try done; auto; by split|].
    intros r h1 [HP Hg]. apply wp_bind. eapply prof_inc_ok; [by apply HP|done|]. intros h2 E2 M2.
    pose proof (bcc_post_still h h1 h2 a GETS cyc r HP E2 M2) as HP2.
    apply wp_bind. eapply get_state_ok; try done; [by eapply Hline|].
    rewrite (mv_fixed _ _ _ _ _ _ M2) by done. apply wp_bind, wp_assert; [|by apply wp_ret].
    by destruct Hg as [-> | ->].
  - apply wp_bind. apply (wp_mono _ (bcc_post h a GETX cyc)).
    2:{ intros r h1 HP. apply wp_bind. eapply get_state_ok; [done|apply HP|done|by eapply Hline|].
        rewrite (bp_ready _ _ _ _ _ _ HP). apply wp_bind, wp_assert; [done|]. by apply wp_ret. }
    destruct (bool_decide (hst h i a = MESI.I) || bool_decide (hst h i a = MESI.S)) eqn:Em.
    + apply wp_bind. eapply prof_inc_ok; [done|done|]. intros h1 E1 M1.
      assert (hst h1 i a = hst h i a) as Es by (by rewrite (mv_fixed _ _ _ _ _ _ M1)).
      eapply wp_mono; [apply (miss_ok h1 a l GETX); try done; auto|].
      * rewrite <- Hl. eapply moved_line; [done|apply node_in].
      * split; [done|]. rewrite Es. rewrite orb_true_iff, !bool_decide_eq_true in Em. done.
      * intros r h2 [[A1 A2 A3 A4] _]. split; try done. eapply moved_trans; [by apply moved_still|done].
    + apply dirty_hit_ok; try done; [|by left]. rewrite orb_false_iff, !bool_decide_eq_false in Em.
      destruct (hst h i a); [naive_solver..|by left|by right].
  - apply wp_bind, wp_assert; [by apply bool_decide_eq_true|]. by apply hit_ok.
  - apply wp_bind, wp_assert; [rewrite orb_comm; by apply isx_bool|]. apply dirty_hit_ok; try done. by right.
Qed.

Lemma writebackOnAccess_ok h a l (Q : unit -> Hier R D -> Prop) :
  env h (only i) T i -> hline h i a = Some l -> isx (hst h i a) ->
  (forall h', env h' (only i) T i -> moved (length nodes) (fun j b => j <> i \/ b <> a) anything h h' ->
     hst h' i a = MESI.M -> Q tt h') ->
  wp (bcc_processWritebackOnAccess i l) Q h.
Proof.
  intros He Hl Hx HQ. apply wp_bind. eapply get_state_ok; try done.
  apply wp_bind, wp_assert; [rewrite orb_comm; by apply isx_bool|].
  eapply make_dirty_when; try done. intros h' E M S _. by apply HQ.
Qed.

(** ** Evictions *)
Context (down : nat -> InvReq -> M (Hier R D) (Z * bool)).
Context (Hdown : forall j, (j < i)%nat -> inval_spec nodes down j).

Lemma only_below j : (j < i)%nat -> only i j = false.
Proof. intros Hj. apply bool_decide_eq_false. lia. Qed.

(** The directory drops the sharers of a valid victim. *)
Lemma drop_sharers_ok h b l cyc src :
  env h (only i) T (S i) -> n_terminal nd = false -> hline h i b = Some l -> hst h i b <> MESI.I ->
  0 <= cyc -> cyc + step_lat * Z.of_nat i + 2 ^ 32 < 2 ^ 64 ->
  wp (tcc_sendInvalidates nodes down i b l INV false cyc src) (fun r h' =>
    env h' (only i) T (S i) /\ moved (S i) (fun _ _ => False) anything h h' /\
    hst h' i b = hst h i b /\ hsh h' i b = ∅ /\ cyc <= r.1 <= cyc + step_lat * Z.of_nat i + 2 ^ 32 /\
    (r.2 = true -> isx (hst h i b))) h.
Proof.
  intros He Ht Hl Hne H0 Hb. pose proof (en_coherent _ _ _ _ _ _ He) as Hco.
  pose proof (cohx_weaken nodes (at_entry i b) h Hco) as Hx.
  destruct (entry_view nodes nmem Htopo i nd b l Hi Ht h Hx Hl)
    as (cp & e & Hcp & Hcl & Hce & Hte & S0 & X0 & _).
  destruct (entry_children nodes i nd b Hi h e Hco S0 X0) as [K1 K2]. rewrite <- Hce in K1, K2.
  eapply wp_mono.
  { eapply (send_ok nodes nmem Htopo down h i nd b l INV cp false cyc src (only i) T); try done.
    - apply (en_locks _ _ _ _ _ _ He).
    - apply only_below.
    - intros k Hk. destruct (K1 k Hk) as (ch & ? & ? & ?). eauto. }
  rewrite Hce in *. intros r h1 [Hx1 Hcp1 F1 So1 Sp1 Hre Hke Hout [Htm1 Htm2] Hwb _].
  assert (forall ch, parent_of ch b = Some (ToCache i) -> hst h1 ch b = MESI.I) as Hgone.
  { intros ch Hpar. destruct (parent_cache _ _ Htopo _ _ _ Hpar) as (_ & cd & id & Hcd & Hid & _ & Hk).
    assert (id = nd) as -> by congruence. destruct (K2 _ _ Hk Hpar) as [J1 _].
    destruct (reached_dec nodes nmem Htopo i nd b INV Hi e ch Hpar) as [Hr|Hr]; [by apply Hre|].
    rewrite (hst_caches nodes h); [|by apply (Hke ch); [..|apply under_refl]].
    destruct (decide (hst h ch b = MESI.I)) as [|Hn]; [done|]. exfalso. apply Hr. split; [by left|]. exists (n_selfId cd). split; [by apply J1|done]. }
  assert (hsh h1 i b = ∅ /\ hex h1 i b = false) as [S1 X1].
  { unfold CoherenceInv.hsh, CoherenceInv.hex. rewrite !(hview_eq nodes _ _ _ _ _ _ Hi Hcp1).
    destruct (put_tcc_view nd (to_array _ _ Htopo i nd Hi) cp b l (sent_entry INV e)
                (proj2 (proj1 Hx) i nd cp Hi Hcp) Ht Hcl) as (_ & _ & V & _). unfold csh, cex. by rewrite V. }
  assert (coherent nodes h1) as Hco1.
  { apply (cohx_close nodes i b); [done|]. apply (dir_intro nodes h1 i nd b Hi); rewrite ?S1, ?X1, ?Sp1; try done.
    intros k ch Hk Hpar. rewrite (Hgone ch Hpar). split; [set_solver|]. split; [by intros []|set_solver]. }
  split_and!; try done; [by eapply framed_env| |].
  - apply framed_moved; [done|done|]. intros j b' _. destruct (decide (b' = b)) as [->|Hb']; [|left; by apply So1].
    destruct (under_dec nodes nmem Htopo b i j) as [Hu|Hu]; [|left; by apply hst_caches, Hout].
    destruct (decide (j = i)) as [->|Hj]; [by left|]. right. left.
    apply (under_split nodes) in Hu as (ch & Hpar & Hu); [|done].
    apply (below_invalid nodes nmem Htopo h1 ch b j Hco1 Hu). by apply Hgone.
  - intros Hr. destruct (Hwb Hr) as [|(ch & (_ & k & Hk & Hkc) & Hxc)]; [done|].
    destruct (K1 k Hk) as (ch' & Hc' & Hpar & _). assert (ch' = ch) as -> by congruence.
    apply (ch_nodes _ _ Hco i b). rewrite X0. by apply (K2 k ch Hkc Hpar).
Qed.

(** A victim that holds nothing. *)
Lemma evict_invalid h b l c cyc src :
  h_caches h !! i = Some c -> ca_bcc c !! l = Some MESI.I ->
  wp (bcc_processEviction nodes up i b l false cyc src) (fun _ h' => h' = h) h.
Proof.
  intros Hc Hs. unfold bcc_processEviction. simpl. apply wp_bind, wp_ret. apply wp_bind.
  eapply wp_get_state; [done|done|]. apply wp_bind, wp_ret. apply wp_bind.
  eapply wp_get_state; [done|done|]. apply wp_bind, wp_assert; [done|]. by apply wp_ret.
Qed.

Definition cc_evict (req : CReq) (b : Address) (l : nat) (cyc : Z) : M (Hier R D) Z :=
  if n_terminal nd then term_processEviction nodes up i req b l cyc
  else mesicc_processEviction nodes up down i req b l cyc.

Lemma cc_evict_ok h c req b l cyc :
  env h (only i) T (S i) -> h_caches h !! i = Some c -> sa_array (ca_sa c) !! l = Some b ->
  (l < ap_numLines (n_array nd))%nat -> 0 <= cyc <= 2 ^ 63 + 2 ^ 56 ->
  wp (cc_evict req b l cyc) (fun _ h' => env h' (only i) T (S i) /\
    moved (S i) (fun _ _ => False) anything h h' /\
    exists c', h_caches h' !! i = Some c' /\ ca_bcc c' !! l = Some MESI.I) h.
Proof.
  intros He Hc Harr Hlt Hcyc. pose proof (en_coherent _ _ _ _ _ _ He) as Hco.
  pose proof (proj2 (ch_caches _ _ Hco) i nd c Hi Hc) as Hok.
  pose proof (to_incl _ _ Htopo i nd Hi) as Hincl. pose proof (node_small i nd Hi) as Hsm.
  assert (step_lat * Z.of_nat i <= 2 ^ 53) as Hst by (unfold step_lat; lia).
  assert (is_Some (ca_bcc c !! l)) as [s Hs] by (apply lookup_lt_is_Some; by rewrite (co_bcc _ _ Hok)).
  unfold cc_evict, term_processEviction, mesicc_processEviction, tcc_processEviction.
  destruct (decide (s = MESI.I)) as [->|Hne].
  - assert (wp (bcc_processEviction nodes up i b l false cyc (cq_srcId req)) (fun _ h' =>
      env h' (only i) T (S i) /\ moved (S i) (fun _ _ => False) anything h h' /\
      exists c', h_caches h' !! i = Some c' /\ ca_bcc c' !! l = Some MESI.I) h) as Hgo.
    { eapply wp_mono; [by eapply evict_invalid|]. intros r h' ->. split_and!; [done|apply moved_refl|eauto]. }
    destruct (n_terminal nd) eqn:Ht; [done|].
    assert (is_Some (ca_tcc c !! l)) as [e Hte] by (apply lookup_lt_is_Some; by rewrite (co_tcc _ _ Hok Ht)).
    apply wp_bind, wp_bind. eapply wp_node; [done|]. rewrite Hincl. unfold tcc_sendInvalidates.
    apply wp_bind. eapply wp_get_entry; [done|done|]. simpl. unfold entry_isEmpty.
    rewrite (co_count _ _ Hok l e Hte), (co_empty _ _ Hok l e Hte Hs), size_empty. simpl. by apply wp_ret.
  - pose proof (co_line _ _ Hok l s b Hs Hne Harr) as Hcl.
    assert (hline h i b = Some l) as Hl by (unfold CoherenceEnv.hline; by rewrite (hview_eq nodes _ _ _ _ _ _ Hi Hc)).
    assert (hst h i b = s) as Hsb.
    { unfold CoherenceInv.hst. rewrite (hview_eq nodes _ _ _ _ _ _ Hi Hc). unfold cst. by rewrite Hcl, Hs. }
    assert (forall h1 wb cy, env h1 (only i) T (S i) -> moved (S i) (fun _ _ => False) anything h h1 ->
      hst h1 i b = s -> hsh h1 i b = ∅ -> (wb = true -> isx s) -> 0 <= cy <= 2 ^ 63 + 2 ^ 60 ->
      wp (bcc_processEviction nodes up i b l wb cy (cq_srcId req)) (fun _ h' => env h' (only i) T (S i) /\
        moved (S i) (fun _ _ => False) anything h h' /\
        exists c', h_caches h' !! i = Some c' /\ ca_bcc c' !! l = Some MESI.I) h1) as Hgo.
    { intros h1 wb cy E1 M1 S1 V1 Hw Hcy. assert (hline h1 i b = Some l) as L1.
      { rewrite <- Hl. eapply moved_line; [done|lia]. }
      eapply wp_mono; [apply processEviction_ok; try done; by rewrite S1|]. intros r h2 (E2 & M2 & S2).
      split_and!; [done|by eapply moved_trans|].
      destruct (env_cache _ _ _ _ _ _ _ _ E2 Hi) as (c2 & Hc2 & Hok2 & _). exists c2. split; [done|].
      rewrite <- S2. unfold CoherenceInv.hst. rewrite (hview_eq nodes _ _ _ _ _ _ Hi Hc2).
      apply cline_state; [by eapply to_array|done|].
      assert (hline h2 i b = Some l) as L2 by (rewrite <- L1; eapply moved_line; [done|lia]).
      unfold CoherenceEnv.hline in L2. by rewrite (hview_eq nodes _ _ _ _ _ _ Hi Hc2) in L2. }
    destruct (n_terminal nd) eqn:Ht.
    + apply Hgo; try done; [apply moved_refl| |lia]. unfold CoherenceInv.hsh.
      rewrite (hview_eq nodes _ _ _ _ _ _ Hi Hc). unfold csh, centry. rewrite (co_term _ _ Hok Ht). by rewrite Hcl.
    + apply wp_bind, wp_bind. eapply wp_node; [done|]. rewrite Hincl.
      eapply wp_mono; [apply (drop_sharers_ok h b l); try done; [by rewrite Hsb|lia|lia]|].
      intros [ev wb] h1 (E1 & M1 & S1 & V1 & Htm & Hw). simpl in Htm, Hw. cbv beta iota.
      apply Hgo; try done; [congruence|by rewrite <- Hsb|lia].
Qed.

(** ** The cache array *)
Lemma wp_on_array {A} c (m : M (SetAssoc R) A) (Q : A -> Hier R D -> Prop) h :
  h_caches h !! i = Some c -> wp m (fun x s => Q x (upd h i (set_sa s c))) (ca_sa c) ->
  wp (on_array i m) Q h.
Proof.
  intros Hc Hm. unfold on_array. apply wp_bind. eapply wp_get_cache; [done|].
  apply wp_ok in Hm as (x & s & Hrun & HQ). apply wp_bind. eapply wp_lift; [done|]. apply wp_bind.
  eapply wp_mod_cache; [done|]. by apply wp_ret.
Qed.

Lemma hsim_line h h' j a : hsim h h' -> hline h' j a = hline h j a.
Proof.
  intros Hs. apply hview_hsim; [done|]. intros ? c c' Hc. by apply same_cache_view.
Qed.

Lemma upd_sa_other h c c' j :
  h_caches h !! i = Some c -> j <> i -> ca_sa <$> h_caches (upd h i c') !! j = ca_sa <$> h_caches h !! j.
Proof. intros Hc Hj. by rewrite upd_other. Qed.

(** The policy of cache [i] changes. *)
Lemma policy_step h B c rp :
  env h B T i -> h_caches h !! i = Some c ->
  let h' := upd h i (set_sa (mkSA (sa_array (ca_sa c)) rp) c) in
  hsim h h' /\ moved i anything anything h h' /\ env h' B T (S i) /\
  (rp_idle (ap_numLines (n_array nd)) (ap_assoc (n_array nd)) rp -> env h' B T i).
Proof.
  intros He Hc h'. pose proof He as [E1 E2 E3 E4].
  assert (hsim h h') as Hs by (by eapply hsim_upd).
  assert (coherent nodes h') as Hco by (by eapply hsim_coherent).
  assert (locks h' B T) as Hl by (by eapply locks_keep).
  split_and!; try done.
  - apply hsim_moved; [done|done|]. intros j Hj. eapply upd_sa_other; [done|lia].
  - split; try done. eapply idle_sa; [|by eapply (en_idle _ _ _ _ _ _ (env_above h B i (S i) He _))].
    intros j Hj. eapply upd_sa_other; [done|lia].
  - intros Hrp. split; try done. intros j pd c' Hj Hp Hc'. destruct (decide (j = i)) as [->|Hne].
    + unfold h' in Hc'. rewrite (upd_same _ _ _ _ Hc) in Hc'. by simplify_eq.
    + unfold h' in Hc'. rewrite upd_other in Hc' by done. by eapply E3.
  Unshelve. lia.
Qed.

Lemma lookup_ok h B a touch :
  env h B T i ->
  wp (on_array i (sa_lookup (n_array nd) a touch false)) (fun o h' =>
    o = hline h i a /\ env h' B T i /\ moved i anything anything h h' /\ hsim h h') h.
Proof.
  intros He. destruct (env_cache _ _ _ _ _ _ _ _ He Hi) as (c & Hc & Hok & _).
  pose proof (to_array _ _ Htopo i nd Hi) as Harr.
  destruct (cline_spec nd Harr c a (co_array _ _ Hok)) as [Hf Hspec].
  assert (hline h i a = cline nd c a) as -> by (unfold CoherenceEnv.hline; by rewrite (hview_eq nodes _ _ _ _ _ _ Hi Hc)).
  pose proof (en_idle _ _ _ _ _ _ He i nd c (le_n i) Hi Hc) as Hidle.
  eapply wp_on_array; [done|]. unfold sa_lookup. apply wp_bind, wp_get. apply wp_bind. eapply wp_lift; [done|].
  assert (set_sa (ca_sa c) c = c) as Ec by (by destruct c).
  assert (ca_sa c = mkSA (sa_array (ca_sa c)) (sa_rp (ca_sa c))) as Esa by (by destruct (ca_sa c)).
  destruct (policy_step h B c (sa_rp (ca_sa c)) He Hc) as (P1 & P2 & _ & P4). rewrite <- Esa in P1, P2, P4.
  destruct (cline nd c a) as [l|].
  - apply wp_bind. apply wp_when; intros _.
    + unfold sa_with_rp. apply wp_zoom. eapply wp_mono.
      { apply (rp_update_ok (ap_numLines (n_array nd)) (ap_assoc (n_array nd)) l false);
          [by apply array_geometry|apply Hspec|done]. }
      intros [] rp Hrp. apply wp_ret. destruct (policy_step h B c rp He Hc) as (Q1 & Q2 & _ & Q4). auto.
    + apply wp_ret. split_and!; auto.
  - apply wp_ret. split_and!; auto.
Qed.

Lemma cc_view_total c : cache_ok nd c -> view_total (ap_numLines (n_array nd)) (cc_view nd c).
Proof.
  intros Hok id Hid. simpl. unfold cc_numSharers, cc_isValid. split.
  - destruct (n_terminal nd) eqn:Ht; [eauto|]. rewrite <- (co_tcc _ _ Hok Ht) in Hid.
    apply lookup_lt_is_Some in Hid as [e He]. rewrite (at_ok _ _ _ He). eauto.
  - rewrite <- (co_bcc _ _ Hok) in Hid. apply lookup_lt_is_Some in Hid as [s Hs]. rewrite (at_ok _ _ _ Hs). eauto.
Qed.

Lemma preinsert_ok h B c a :
  env h B T i -> h_caches h !! i = Some c ->
  wp (on_array i (sa_preinsert (n_array nd) (cc_view nd c) a false)) (fun r h' =>
    hsim h h' /\ moved i anything anything h h' /\ env h' B T (S i) /\ r.1 ∈ set_ids (n_array nd) a /\
    exists c', h_caches h' !! i = Some c' /\ sa_array (ca_sa c') !! r.1 = Some r.2 /\
      rp_ranked (ap_numLines (n_array nd)) (ap_assoc (n_array nd)) (sa_rp (ca_sa c'))) h.
Proof.
  intros He Hc. pose proof (to_array _ _ Htopo i nd Hi) as Harr.
  pose proof (proj2 (ch_caches _ _ (en_coherent _ _ _ _ _ _ He)) i nd c Hi Hc) as Hok.
  pose proof (en_idle _ _ _ _ _ _ He i nd c (le_n i) Hi Hc) as Hidle.
  eapply wp_on_array; [done|]. unfold sa_preinsert, sa_with_rp. apply wp_bind, wp_zoom. eapply wp_mono.
  { apply (rp_rank_ok (ap_numLines (n_array nd)) (ap_assoc (n_array nd))); try done.
    - by apply array_geometry.
    - by apply cc_view_total.
    - apply set_ids_length.
    - intros k Hk. by eapply set_ids_lt. }
  intros l rp [Hin Hrk]. apply wp_bind, wp_get. simpl.
  assert (is_Some (sa_array (ca_sa c) !! l)) as [b Hb].
  { apply lookup_lt_is_Some. rewrite (co_array _ _ Hok). by eapply set_ids_lt. }
  apply wp_bind. eapply wp_lift; [by apply at_ok|]. apply wp_ret.
  destruct (policy_step h B c rp He Hc) as (P1 & P2 & P3 & _). split_and!; try done.
  eexists. split; [by eapply upd_same|]. done.
Qed.

Lemma postinsert_ok h B c a l :
  env h B T (S i) -> h_caches h !! i = Some c -> hline h i a = None -> l ∈ set_ids (n_array nd) a ->
  ca_bcc c !! l = Some MESI.I ->
  rp_ranked (ap_numLines (n_array nd)) (ap_assoc (n_array nd)) (sa_rp (ca_sa c)) ->
  wp (on_array i (sa_postinsert a l false)) (fun _ h' =>
    env h' B T i /\ moved i anything anything h h' /\ hline h' i a = Some l) h.
Proof.
  intros He Hc Hl Hin HI Hrk. pose proof (to_array _ _ Htopo i nd Hi) as Harr. pose proof He as [Hco Hlk Hid Htop].
  pose proof (proj2 (ch_caches _ _ Hco) i nd c Hi Hc) as Hok.
  assert (l < ap_numLines (n_array nd))%nat as Hlt by (by eapply set_ids_lt).
  assert (cline nd c a = None) as Hcl.
  { unfold CoherenceEnv.hline in Hl. by rewrite (hview_eq nodes _ _ _ _ _ _ Hi Hc) in Hl. }
  eapply wp_on_array; [done|]. unfold sa_postinsert, sa_with_rp. apply wp_bind, wp_zoom. eapply wp_mono.
  { by apply (rp_replaced_ok (ap_numLines (n_array nd)) (ap_assoc (n_array nd)) l); [apply array_geometry|..]. }
  intros [] r1 Hr1. apply wp_bind, wp_get. simpl. apply wp_bind. eapply wp_lift.
  { apply set_at_ok. by rewrite (co_array _ _ Hok). }
  apply wp_bind, wp_modify. simpl. apply wp_zoom. eapply wp_mono.
  { by apply (rp_update_ok (ap_numLines (n_array nd)) (ap_assoc (n_array nd)) l false); [apply array_geometry|..]. }
  intros [] r2 Hr2. cbn [sa_array sa_rp].
  destruct (insert_view nd Harr c a l r2 Hok Hcl Hin HI) as (Hok' & Ha & Hv & _).
  set (c' := set_sa (mkSA (<[l := a]> (sa_array (ca_sa c))) r2) c) in *.
  assert (forall j b, hst (upd h i c') j b = hst h j b /\ hsh (upd h i c') j b = hsh h j b /\
                      hex (upd h i c') j b = hex h j b) as Hviews.
  { intros j b. unfold CoherenceInv.hst, CoherenceInv.hsh, CoherenceInv.hex.
    rewrite !(hview_upd nodes _ _ _ _ _ _ c nd) by done. destruct (decide (j = i)) as [->|]; [|done].
    rewrite !(hview_eq nodes _ _ _ _ _ _ Hi Hc). destruct (Hv b) as (-> & -> & ->). done. }
  assert (coherent nodes (upd h i c')) as Hco'.
  { split; [by eapply caches_ok_upd; [apply Hco|..]|]. intros j b. destruct (Hviews j b) as (V1 & V2 & V3).
    apply (node_ok_ext nodes h); try done; [apply Hco|]. intros k _. by apply Hviews. }
  split_and!.
  - split; [done| | |done].
    + by eapply locks_keep.
    + intros j pd d Hj Hp Hd. destruct (decide (j = i)) as [->|Hne].
      * rewrite (upd_same _ _ _ _ Hc) in Hd. by simplify_eq.
      * rewrite upd_other in Hd by done. apply (Hid j pd d); [lia|done|done].
  - split; [done|..].
    + intros j Hj. eapply upd_sa_other; [done|lia].
    + intros j b _. apply Hviews.
    + intros j b _. left. apply Hviews.
  - unfold CoherenceEnv.hline. rewrite (hview_upd nodes _ _ _ _ _ _ c nd) by done. by rewrite decide_True.
Qed.

(** ** Making space for a line *)
Lemma line_invalid h a : coherent nodes h -> hline h i a = None -> hst h i a = MESI.I.
Proof.
  intros Hco Hl. destruct (cache_of nodes h i nd (ch_caches _ _ Hco) Hi) as (c & Hc & _).
  unfold CoherenceEnv.hline in Hl. rewrite (hview_eq nodes _ _ _ _ _ _ Hi Hc) in Hl.
  unfold CoherenceInv.hst. rewrite (hview_eq nodes _ _ _ _ _ _ Hi Hc). unfold cst. by rewrite Hl.
Qed.

Lemma allocate_ok h req cyc :
  let a := cq_lineAddr req in
  env h (only i) T i -> hline h i a = None -> 0 <= cyc <= 2 ^ 63 + 2 ^ 56 ->
  wp (allocate nodes up down i req cyc) (fun l h' =>
    env h' (only i) T i /\
    moved i (fun j b => b = a /\ under a i j) (fun _ b => b <> a) h h' /\ hline h' i a = Some l) h.
Proof.
  intros a He Hl Hcyc. destruct (env_cache _ _ _ _ _ _ _ _ He Hi) as (c & Hc & Hok & _).
  pose proof (en_coherent _ _ _ _ _ _ He) as Hco. pose proof (to_array _ _ Htopo i nd Hi) as Harr.
  unfold allocate. apply wp_bind. eapply wp_node; [done|]. apply wp_bind. eapply wp_get_cache; [done|].
  apply wp_bind. eapply wp_mono; [by apply preinsert_ok|].
  intros [l b] h1 (Hs1 & M1 & E1 & Hin & c1 & Hc1 & Hb & Hrk). simpl in Hin, Hb. cbv beta iota.
  apply wp_bind. eapply wp_mono.
  { apply (cc_evict_ok h1 c1 req b l cyc); try done. by eapply set_ids_lt. }
  intros r h2 (E2 & M2 & c2 & Hc2 & HI).
  assert (hline h2 i a = None) as L2.
  { rewrite <- Hl, <- (hsim_line h h1 i a Hs1). eapply moved_line; [done|lia]. }
  assert (sa_rp (ca_sa c2) = sa_rp (ca_sa c1)) as Erp.
  { pose proof (mv_sa _ _ _ _ _ _ M2 i ltac:(lia)) as E. rewrite Hc1, Hc2 in E. by injection E as ->. }
  apply wp_bind. eapply wp_mono; [by apply (postinsert_ok h2 (only i) c2 a l); [..|rewrite Erp]|].
  intros [] h3 (E3 & M3 & L3). apply wp_ret. split_and!; try done.
  assert (moved i (fun _ _ => False) anything h h3) as Hm.
  { eapply moved_trans; [eapply moved_weaken; [exact M1|done|done|by left]|].
    eapply moved_trans; [eapply moved_weaken; [exact M2|lia|done|by left]|].
    eapply moved_weaken; [exact M3|done|done|by left]. }
  split; [apply Hm|apply Hm| |intros j b' _; by apply Hm].
  intros j b' [-> Hu]. pose proof (line_invalid h a Hco Hl) as H0.
  rewrite (below_invalid nodes nmem Htopo h i a j Hco Hu H0).
  assert (hst h2 i a = MESI.I) as H2 by (apply line_invalid; [apply E2|done]).
  assert (hst h3 i a = MESI.I) as H3 by (by rewrite (mv_fixed _ _ _ _ _ _ M3)).
  apply (below_invalid nodes nmem Htopo h3 i a j); [apply E3|done|done].
Qed.

(** No record waits in the recorders. *)
Lemma take_record_ok h B k src (Q : option TimingRecord -> Hier R D -> Prop) :
  env h B T k -> Q None h -> wp (take_record src) Q h.
Proof.
  intros He HQ. unfold take_record. apply wp_bind, wp_gets.
  destruct (rc_records (top_recs (h_mem h)) !! src) as [tr|] eqn:Htr; [|done].
  rewrite (top_quiet _ _ _ _ (en_top _ _ _ _ _ _ He) Htr). done.
Qed.

Lemma find_space_ok h req cyc :
  let a := cq_lineAddr req in
  env h (only i) T i -> (IsGet (cq_type req) = true /\ 0 <= cyc <= 2 ^ 63 + 2 ^ 56 \/ hst h i a <> MESI.I) ->
  wp (find_space nodes up down nd i req cyc) (fun o h' => exists l, o = Some l /\
    env h' (only i) T i /\ moved i (fun j b => b = a /\ under a i j) (fun _ b => b <> a) h h' /\
    (hst h i a <> MESI.I -> moved i anything anything h h') /\ hline h' i a = Some l) h.
Proof.
  intros a He Hget. unfold find_space. apply wp_bind. eapply wp_mono; [by apply lookup_ok|].
  intros o h1 (-> & E1 & M1 & Hs1). fold a. pose proof (hsim_line h h1 i a Hs1) as L1.
  destruct (hline h i a) as [l|] eqn:Hl.
  - apply wp_ret. exists l. split_and!; try done. eapply moved_weaken; [exact M1|done|done|by left].
  - pose proof (line_invalid h a (en_coherent _ _ _ _ _ _ He) Hl) as HI.
    destruct Hget as [[Hget Hcyc]|Hne]; [|done].
    apply wp_bind. apply (wp_mono _ (fun b h2 => b = true /\ h2 = h1)).
    { unfold cc_shouldAllocate, mesicc_shouldAllocate. rewrite Hget. by destruct (n_terminal nd); apply wp_ret. }
    intros b h2 [-> ->]. apply wp_bind. eapply wp_mono; [apply (allocate_ok h1 req cyc E1); by rewrite ?L1|].
    intros l h2 (E2 & M2 & L2). apply wp_ret. exists l. split_and!; try done.
    eapply moved_trans; [|done]. eapply moved_weaken; [exact M1|done|done|by left].
Qed.

(** ** An access of a core to its cache *)
Lemma check_race_ok h req s (Q : bool * CReq -> Hier R D -> Prop) :
  wp (deref (cq_state req)) (fun s' h' => s' = s /\ h' = h) h -> cq_initialState req = s ->
  Q (false, req) h -> wp (check_race req) Q h.
Proof.
  intros Hd Hs HQ. unfold check_race. apply wp_bind. eapply wp_mono; [done|]. intros s' h' [-> ->].
  unfold CheckForMESIRace. rewrite Hs, bool_decide_eq_true_2 by done. apply wp_bind. eapply wp_lift; [done|].
  cbv beta iota. apply wp_ret. by destruct req.
Qed.

Definition unlocked : nat -> bool := fun _ => false.

Lemma term_access_ok h a t cyc src fl :
  n_terminal nd = true -> env h unlocked T i -> h_core h = MESI.I -> IsGet t = true ->
  Z.land fl PREFETCH = 0 -> 0 <= cyc <= 2 ^ 63 ->
  wp (cache_access_body nodes up down i (mkCReq a t 0 CoreState cyc None MESI.I src fl)) (fun r h' =>
    env h' unlocked T i /\ moved i (fun _ _ => False) (fun _ b => b <> a) h h' /\
    own_ready t (hst h' i a) /\ cyc <= r) h.
Proof.
  intros Ht He Hcore Hget Hfl Hcyc. destruct (to_lat _ _ Htopo i nd Hi) as (Hacc & _). unfold lat_ok in Hacc.
  unfold cache_access_body. apply wp_bind. eapply wp_node; [done|]. rewrite Ht. apply wp_bind.
  unfold term_startAccess. apply wp_bind, wp_assert; [done|]. apply wp_bind, wp_ret. apply wp_bind.
  eapply lock_bcc_ok; [done|done|done|]. intros h1 E1 M1.
  apply (check_race_ok h1 _ MESI.I).
  { apply wp_gets. split; [|done]. by rewrite (mv_core _ _ _ _ _ _ M1). }
  { done. }
  cbn [cq_cycle cq_lineAddr cq_type cq_srcId]. apply wp_bind.
  rewrite u64_id by (unfold in_u64; lia).
  assert (env h1 (only i) T i) as E1'.
  { eapply env_locks_ext; [done| |done]. intros j. unfold only, unlocked. destruct (decide (j = i)) as [->|Hne].
    - by rewrite fn_lookup_insert, bool_decide_eq_true_2.
    - by rewrite fn_lookup_insert_ne, bool_decide_eq_false_2. }
  apply wp_bind. eapply wp_mono; [apply (find_space_ok h1); [done|left; split; [done|lia]]|].
  intros o h2 (l & -> & E2 & M2 & _ & L2). cbn [cq_lineAddr] in M2, L2. apply wp_bind.
  eapply take_record_ok; [done|]. apply wp_bind. unfold term_processAccess.
  cbn [cq_lineAddr cq_type cq_srcId cq_flags]. eapply wp_mono.
  { apply bcc_access_ok; try done; [by destruct t|]. intros _. unfold cyc_ok. rewrite Hget. lia. }
  intros r h3 [E3 M3 G3 Htm]. apply wp_bind, wp_ret. apply wp_ret. apply wp_bind.
  unfold term_endAccess. apply wp_bind, wp_ret. eapply unlock_bcc_ok; [done|done|]. intros h4 E4 M4.
  apply wp_bind, wp_assert; [simpl; lia|]. apply wp_ret. split_and!; [..|lia].
  - eapply env_locks_ext; [done| |done]. intros j. unfold only, unlocked. destruct (decide (j = i)) as [->|Hne].
    + by rewrite fn_lookup_insert.
    + by rewrite fn_lookup_insert_ne, bool_decide_eq_false_2.
  - eapply moved_trans; [eapply moved_weaken; [exact M1|pose proof node_in; lia|done|by left]|].
    eapply moved_trans; [eapply moved_weaken; [exact M2|done|done|by left]|].
    eapply moved_trans; [eapply moved_weaken; [exact M3|lia|done|]|].
    { intros j b Hb. left. by left. }
    eapply moved_weaken; [exact M4|pose proof node_in; lia|done|by left].
  - by rewrite (mv_fixed _ _ _ _ _ _ M4).
Qed.
End Access.
