(* ===== verification/CoherenceProtocol.v ===== *)
(** * The protocol

    The access of a cache to its parent, the recursion along the tree, and the
    properties of a whole hierarchy: an access of a core returns and keeps the
    hierarchy coherent, a coherent hierarchy has one writer or many readers and
    is inclusive, and an invalidation removes a line from a subtree. *)

From stdpp Require Import base list gmap strings sets functions.
From Stdlib Require Import ZArith Lia.
From S2P Require Import Prelude Numeric MemHierarchy DdrBound ReplPolicy CacheArray Coherence MemCtrls CoherenceInv CoherenceInval CoherenceEnv CoherenceSteps CoherenceAccess.
Local Open Scope Z_scope.

Section Protocol.
Context {R D : Type} `{RP : ReplPolicy R} `{MT : MemTop D} `{RL : !ReplLaws R} `{ML : !MemTopLaws D}.
Context (nodes : list Node) (nmem : nat) (Htopo : topo_ok nodes nmem).
Implicit Types (h : Hier R D) (c : CacheSt R) (B T : nat -> bool) (F G : nat -> Address -> Prop).

Abbreviation under := (under nodes).
Abbreviation parent_of := (parent_of nodes).
Abbreviation hst := (hst nodes).
Abbreviation hsh := (hsh nodes).
Abbreviation hline := (hline nodes).
Abbreviation env := (env nodes nmem).
Abbreviation moved := (moved nodes).
Abbreviation anything := (fun (_ : nat) (_ : Address) => True).

(** ** Along an edge of the tree *)
Lemma parent_holds h ch p a :
  coherent nodes h -> parent_of ch a = Some (ToCache p) ->
  (hst h ch a <> MESI.I -> hst h p a <> MESI.I) /\ (isx (hst h ch a) -> isx (hst h p a)).
Proof.
  intros Hco Hpar. destruct (parent_cache _ _ Htopo _ _ _ Hpar) as (_ & nd & pd & Hn & Hp & _ & Hk).
  destruct (ch_nodes _ _ Hco p a) as [N1 N2 N3 N4]. split.
  - intros Hne. apply N3. intros E. assert (n_selfId nd ∈ hsh h p a) as Hin by (apply (N1 pd _ Hp); eauto).
    rewrite E in Hin. by apply not_elem_of_empty in Hin.
  - intros Hx. apply N4. by apply (N2 pd _ ch Hp Hk Hpar).
Qed.

(** The sharers are determined by the states of the children. *)
Lemma sharers_kept h h' i nd a :
  coherent nodes h -> coherent nodes h' -> nodes !! i = Some nd ->
  (forall j, parent_of j a = Some (ToCache i) -> hst h' j a = hst h j a) -> hsh h' i a = hsh h i a.
Proof.
  intros H1 H2 Hi Hs. destruct (ch_nodes _ _ H1 i a) as [N1 _ _ _], (ch_nodes _ _ H2 i a) as [M1 _ _ _].
  apply set_eq. intros k. rewrite (N1 nd k Hi), (M1 nd k Hi).
  split; intros (j & Hj & Hpar & Hne); exists j; [rewrite <- (Hs j Hpar)|rewrite (Hs j Hpar)]; done.
Qed.

Lemma env_below h h' B T p k :
  env h' B T p -> idle nodes k h -> (forall j, (j < p)%nat -> ca_sa <$> h_caches h' !! j = ca_sa <$> h_caches h !! j) ->
  env h' B T k.
Proof.
  intros [E1 E2 E3 E4] Hid Hsa. split; try done. intros j nd c Hj Hn Hc.
  destruct (decide (p <= j)%nat) as [Hp|Hp]; [by apply (E3 j nd c)|].
  specialize (Hsa j ltac:(lia)). rewrite Hc in Hsa. destruct (h_caches h !! j) as [c0|] eqn:Hc0; [|done].
  injection Hsa as ->. by apply (Hid j nd c0).
Qed.

Section Edge.
Context (up : nat -> CReq -> M (Hier R D) Z) (down : nat -> InvReq -> M (Hier R D) (Z * bool)).
Context (p : nat) (pd : Node) (ch : nat) (nd : Node) (a : Address).
Context (Hp : nodes !! p = Some pd) (Hterm : n_terminal pd = false) (Hch : nodes !! ch = Some nd).
Context (Hpar : parent_of ch a = Some (ToCache p)).
Context (Hup : parents_ok nodes nmem up p) (Hdown : forall j, (j < p)%nat -> inval_spec nodes down j).

Lemma child_lt : (ch < p)%nat.
Proof. by destruct (parent_cache _ _ Htopo _ _ _ Hpar). Qed.
Lemma parent_in : (p < length nodes)%nat.
Proof. by eapply lookup_lt_Some. Qed.

Lemma below_under j b : below nodes ch a j b -> b = a /\ under a p j /\ j <> p.
Proof.
  intros (-> & Hu & Hj). split_and!; [done| |].
  - eapply under_trans; [by apply under_child|done].
  - apply (under_le _ _ Htopo) in Hu. pose proof child_lt. lia.
Qed.

(** The steps of the parent, as the child sees them. *)
Abbreviation seen t h h' := (moved (S ch) (below nodes ch a) (rest t a) h h').

Lemma seen_still t h h' k : moved k anything anything h h' -> (ch < k)%nat -> seen t h h'.
Proof. intros Hm Hk. eapply moved_weaken; [done|lia|done|by left]. Qed.

Lemma seen_space t h h' :
  moved p (fun j b => b = a /\ under a p j) (fun _ b => b <> a) h h' ->
  (hst h p a <> MESI.I -> moved p anything anything h h') -> (IsPut t = true -> hst h p a <> MESI.I) ->
  seen t h h'.
Proof.
  intros H1 H2 H3. destruct (IsPut t) eqn:Et; [apply (seen_still t h h' p); [auto|apply child_lt]|].
  eapply moved_weaken; [exact H1|pose proof child_lt; lia|..].
  - intros j b Hb. by apply below_under in Hb as (-> & ? & _).
  - intros j b [Hb|Hb]; [by left|congruence].
Qed.

Lemma seen_bcc t h h' : moved (S p) (below nodes p a) (rest t a) h h' -> seen t h h'.
Proof.
  intros Hm. eapply moved_weaken; [done|pose proof child_lt; lia| |by left].
  intros j b Hb. by apply below_under in Hb.
Qed.

Lemma seen_dir t cyc r h h' : dir_post nodes p ch a h t cyc r h' -> seen t h h'.
Proof.
  intros [D1 D2 D3 D4 D5 D6 D7 D8 D9]. apply framed_moved; [done|..].
  - intros j b (-> & Hu & Hj). by apply D6.
  - intros j b Hb. destruct (decide (b = a)) as [->|Hne]; [|left; by apply D5].
    destruct Hb as [|Hput]; [done|]. destruct (decide (j = ch)) as [->|Hj]; [|left; by apply D7].
    right. left. by destruct t.
Qed.

Lemma seen_dirty t h h' :
  moved (length nodes) (fun j b => j <> p \/ b <> a) anything h h' -> seen t h h'.
Proof.
  intros Hm. eapply moved_weaken; [done|pose proof child_lt; pose proof parent_in; lia| |by left].
  intros j b Hb. left. by apply below_under in Hb as (_ & _ & ?).
Qed.

(** What the parent keeps true of the child while it works. *)
Record child_state h (l : nat) (t : AccessType) (fl : Z) h' : Prop := {
  cs_line : hline h' ch a = Some l;
  cs_req : req_ok t (hst h' ch a) (hsh h' ch a) fl
}.

Lemma child_kept h l t fl h' :
  coherent nodes h -> coherent nodes h' -> hline h ch a = Some l -> req_ok t (hst h ch a) (hsh h ch a) fl ->
  (forall j, j <> ch -> under a ch j -> hst h' j a = hst h j a) -> hst h' ch a = hst h ch a ->
  (forall j, (j < p)%nat -> ca_sa <$> h_caches h' !! j = ca_sa <$> h_caches h !! j) ->
  child_state h l t fl h'.
Proof.
  intros H1 H2 Hl Hr Hs Hsc Hsa. split.
  - rewrite <- Hl. specialize (Hsa ch child_lt). unfold CoherenceEnv.hline, hview. rewrite Hch.
    destruct (h_caches h' !! ch), (h_caches h !! ch); try done. injection Hsa as E. unfold cline. by rewrite E.
  - rewrite Hsc, (sharers_kept h h' ch nd a H1 H2 Hch); [done|]. intros j Hj. apply Hs.
    + intros ->. apply (parent_cache _ _ Htopo) in Hj as [? _]. lia.
    + by apply under_child.
Qed.

Abbreviation nothing := (fun (_ : nat) (_ : Address) => False).

Lemma own_start_of h t fl : coherent nodes h -> req_ok t (hst h ch a) (hsh h ch a) fl -> own_start t (hst h p a).
Proof.
  intros Hco [_ Hr]. destruct (parent_holds h ch p a Hco Hpar) as [P1 P2]. destruct t; simpl in *; try done.
  - apply P1. by destruct Hr as [[-> | ->] _].
  - apply P2. right. by destruct Hr.
Qed.

Lemma ldiff_land x y : Z.land (Z.ldiff x y) y = 0.
Proof. apply Z.bits_inj'. intros n Hn. rewrite Z.land_spec, Z.ldiff_spec, Z.bits_0. by destruct (Z.testbit x n), (Z.testbit y n). Qed.

Lemma process_ok h T l lp t cyc cyc0 s0 src fl :
  env h (only p) T p -> (forall j, (p < j)%nat -> T j = false) -> hline h p a = Some lp ->
  hline h ch a = Some l -> req_ok t (hst h ch a) (hsh h ch a) fl ->
  (IsGet t = true -> cyc_ok t p cyc) -> 0 <= cyc <= 2 ^ 63 + 2 ^ 60 + 2 ^ 32 ->
  wp (mesicc_processAccess nodes up down p
        (mkCReq a t (n_selfId nd) (LineState ch l) cyc0 (Some ch) s0 src fl) (Some lp) cyc)
    (fun r h' => env h' (only p) T p /\ seen t h h' /\ moved p nothing nothing h h' /\
       granted t (hst h' ch a) /\ cyc <= r) h.
Proof.
  intros He Hfree Hlp Hl Hreq Hcg Hcyc. pose proof (en_coherent _ _ _ _ _ _ He) as Hco.
  pose proof (own_start_of h t fl Hco Hreq) as Hown. pose proof (node_small nodes nmem Htopo p pd Hp) as Hsm.
  assert (step_lat * Z.of_nat p <= 2 ^ 53) as Hst by (unfold step_lat; lia).
  assert (req_ok t (hst h ch a) (hsh h ch a) (Z.ldiff fl PREFETCH)) as Hreq'.
  { destruct Hreq as [_ Hr]. split; [apply ldiff_land|]. destruct t; try done; destruct Hr as (? & ? & ->); done. }
  unfold mesicc_processAccess. cbn [cq_type cq_flags cq_lineAddr cq_childId cq_state cq_srcId]. apply wp_bind.
  apply (wp_mono _ (fun b h1 => b = false /\ h1 = h)).
  { destruct (IsPut t) eqn:Et; [|by apply wp_ret]. apply wp_bind, wp_bind. eapply get_state_ok; try done.
    do 2 apply wp_ret. split; [|done]. rewrite bool_decide_eq_true_2; [done|].
    destruct t; try done. by apply isx_not_I. }
  intros b h0 [-> ->]. rewrite (proj1 Hreq). simpl. apply wp_bind, wp_ret. apply wp_bind. eapply wp_mono.
  { eapply (bcc_access_ok nodes nmem Htopo up p pd Hp Hup T); try done. apply ldiff_land. }
  intros r1 h1 [E1 M1 G1 Ht1]. pose proof (seen_bcc t h h1 M1) as Sn1.
  assert (child_state h l t (Z.ldiff fl PREFETCH) h1) as [L1 R1].
  { apply child_kept; try done; [apply E1|..].
    - intros j Hj Hu. apply (mv_fixed _ _ _ _ _ _ M1). apply (below_under j a). by split_and!.
    - apply (mv_fixed _ _ _ _ _ _ M1). split_and!; [done|by apply under_child|]. pose proof child_lt. lia.
    - intros j Hj. apply (mv_sa _ _ _ _ _ _ M1). lia. }
  assert (hline h1 p a = Some lp) as Lp1 by (rewrite <- Hlp; eapply moved_line; [exact M1|lia]).
  apply wp_bind, wp_bind. eapply get_state_ok; try done. apply wp_ret. apply wp_bind. eapply wp_mono.
  { eapply (dir_access_ok nodes nmem Htopo down p pd ch nd a lp l Hp Hterm Hch Hpar Hdown (only p) T);
      [apply only_below|lia|lia|apply E1|apply E1|done|done|done|done]. }
  intros [r2 wb] h2 HD. pose proof (seen_dir t r1 _ h1 h2 HD) as Sn2.
  destruct HD as [D1 D2 D3 D4 D5 D6 D7 D8 D9]. simpl in D8, D9. cbv beta iota.
  assert (env h2 (only p) T p) as E2 by (by eapply framed_env).
  assert (moved p nothing nothing h h2) as N2.
  { eapply moved_trans; [eapply moved_weaken; [exact M1|lia|done|done]|].
    by apply (framed_moved nodes p nothing nothing h1 h2). }
  assert (hline h2 p a = Some lp) as Lp2 by (by rewrite (framed_line nodes h1 h2 p a D2)).
  apply wp_bind. apply wp_when.
  - intros Hw. eapply writebackOnAccess_ok; try done; [by rewrite D4; apply D9|].
    intros h3 E3 M3 _. apply wp_ret. split_and!; try done; [..|lia].
    + eapply moved_trans; [by eapply moved_trans|]. by apply seen_dirty.
    + eapply moved_trans; [done|]. eapply moved_weaken; [exact M3|pose proof parent_in; lia|done|done].
    + rewrite (mv_fixed _ _ _ _ _ _ M3); [done|]. left. pose proof child_lt. lia.
  - intros _. apply wp_ret. split_and!; try done; [by eapply moved_trans|lia].
Qed.

(** The locks on the way in and on the way out. *)
Lemma start_ok h T l t cyc src fl (Q : bool * CReq -> Hier R D -> Prop) :
  env h (only ch) T (S ch) -> T p = false -> hline h ch a = Some l ->
  let req := mkCReq a t (n_selfId nd) (LineState ch l) cyc (Some ch) (hst h ch a) src fl in
  (forall h', env h' (only p) (<[p := true]> T) (S ch) -> moved (length nodes) anything anything h h' ->
     Q (false, req) h') ->
  wp (mesicc_startAccess p req) Q h.
Proof.
  intros He HT Hl req HQ. pose proof child_lt as Hlt. unfold mesicc_startAccess. apply wp_bind.
  eapply unlock_bcc_ok; [done|done|]. intros h1 E1 M1. apply wp_bind.
  eapply lock_tcc_ok; [done|done|done|]. intros h2 E2 M2. apply wp_bind.
  eapply lock_bcc_ok; [done|done|..].
  { rewrite fn_lookup_insert_ne by lia. apply bool_decide_eq_false. lia. }
  intros h3 E3 M3. assert (moved (length nodes) anything anything h h3) as Hm.
  { eapply moved_trans; [done|]. by eapply moved_trans. }
  assert (env h3 (only p) (<[p := true]> T) (S ch)) as E3'.
  { eapply env_locks_ext; [done| |done]. intros j. unfold only.
    destruct (decide (j = p)) as [->|Hjp]; [by rewrite fn_lookup_insert, bool_decide_eq_true_2|].
    rewrite fn_lookup_insert_ne by done. rewrite bool_decide_eq_false_2 by done.
    destruct (decide (j = ch)) as [->|Hjc]; [by rewrite fn_lookup_insert|].
    by rewrite fn_lookup_insert_ne, bool_decide_eq_false_2. }
  apply (check_race_ok h3 _ (hst h ch a)); [|done|by apply HQ].
  eapply get_state_ok; [done|done|done|..].
  - rewrite <- Hl. eapply moved_line; [exact Hm|]. by eapply lookup_lt_Some.
  - split; [|done]. by apply (mv_fixed _ _ _ _ _ _ Hm).
Qed.

Lemma end_ok h T k req (Q : unit -> Hier R D -> Prop) :
  env h (only p) (<[p := true]> T) k -> T p = false -> cq_childLock req = Some ch ->
  (forall h', env h' (only ch) T k -> moved (length nodes) anything anything h h' -> Q tt h') ->
  wp (mesicc_endAccess p req) Q h.
Proof.
  intros He HT Hreq HQ. pose proof child_lt as Hlt. unfold mesicc_endAccess, on_child_lock. rewrite Hreq.
  apply wp_bind. eapply lock_bcc_ok; [done|done|apply bool_decide_eq_false; lia|]. intros h1 E1 M1.
  apply wp_bind. eapply unlock_bcc_ok; [done|done|]. intros h2 E2 M2.
  eapply unlock_tcc_ok; [done|done|]. intros h3 E3 M3. apply HQ.
  - eapply env_locks_ext; [done|..].
    + intros j. unfold only. destruct (decide (j = p)) as [->|Hjp].
      { rewrite fn_lookup_insert. apply bool_decide_eq_false. lia. }
      rewrite fn_lookup_insert_ne by done.
      destruct (decide (j = ch)) as [->|Hjc]; [by rewrite fn_lookup_insert, bool_decide_eq_true_2|].
      by rewrite fn_lookup_insert_ne, !bool_decide_eq_false_2.
    + intros j. destruct (decide (j = p)) as [->|Hjp]; [by rewrite fn_lookup_insert|].
      by rewrite !fn_lookup_insert_ne.
  - eapply moved_trans; [done|]. by eapply moved_trans.
Qed.

(** The access of a cache to its parent. *)
Lemma mesi_access_ok : up_spec nodes nmem (cache_access_body nodes up down p) ch a.
Proof.
  intros h nd' l t cyc src fl T [He Hn Hfree Hl Hreq Hcyc]. rewrite Hch in Hn. injection Hn as <-.
  pose proof child_lt as Hlt. pose proof (en_coherent _ _ _ _ _ _ He) as Hco.
  pose proof (node_small nodes nmem Htopo p pd Hp) as Hsm.
  destruct (to_lat _ _ Htopo p pd Hp) as (Hacc & _). unfold lat_ok in Hacc. unfold cyc_ok in Hcyc.
  unfold cache_access_body. apply wp_bind. eapply wp_node; [done|]. rewrite Hterm. apply wp_bind.
  apply (start_ok h T l t cyc src fl _ He); [by apply Hfree|done|]. intros h1 E1 M1.
  set (req := mkCReq a t (n_selfId nd) (LineState ch l) cyc (Some ch) (hst h ch a) src fl).
  change (cq_cycle req) with cyc. change (cq_srcId req) with src.
  assert (0 <= cyc + n_accLat pd <= 2 ^ 63 + 2 ^ 60 + 2 ^ 32) as Hb by (destruct (IsGet t); lia).
  rewrite u64_id by (unfold in_u64; lia). set (T' := <[p := true]> T) in *.
  assert (forall j, (p < j)%nat -> T' j = false) as Hfree'.
  { intros j Hj. unfold T'. rewrite fn_lookup_insert_ne by lia. apply Hfree. lia. }
  assert (env h1 (only p) T' p) as E1' by (eapply env_above; [done|lia]).
  assert (forall j b, hst h1 j b = hst h j b) as S1 by (intros; by apply (mv_fixed _ _ _ _ _ _ M1)).
  assert (hline h1 ch a = Some l) as L1.
  { rewrite <- Hl. eapply moved_line; [exact M1|]. by eapply lookup_lt_Some. }
  assert (IsPut t = true -> hst h1 p a <> MESI.I) as Hput.
  { intros Ht. rewrite S1. apply (parent_holds h ch p a Hco Hpar). destruct Hreq as [_ Hr].
    destruct t; try done; [by destruct Hr as [[-> | ->] _]|by destruct Hr as [-> _]]. }
  apply wp_bind, wp_bind. eapply wp_mono.
  { apply (find_space_ok nodes nmem Htopo up p pd Hp Hup T' Hfree' down Hdown h1 req (cyc + n_accLat pd) E1').
    change (cq_type req) with t. change (cq_lineAddr req) with a.
    destruct (IsGet t) eqn:Et; [left|right]; [split; [done|lia]|]. apply Hput. by destruct t. }
  intros o h2 (lp & -> & E2 & M2 & M2' & L2). change (cq_lineAddr req) with a in M2, M2', L2.
  pose proof (seen_space t h1 h2 M2 M2' Hput) as Sn2.
  assert (child_state h1 l t fl h2) as [Lc2 R2].
  { apply child_kept; try done; [apply E1|apply E2|..].
    - rewrite (sharers_kept h h1 ch nd a Hco (en_coherent _ _ _ _ _ _ E1) Hch); [by rewrite S1|]. intros; apply S1.
    - intros j Hj Hu. apply (mv_fixed _ _ _ _ _ _ M2). split; [done|].
      eapply under_trans; [by apply under_child|done].
    - apply (mv_fixed _ _ _ _ _ _ M2). split; [done|]. by apply under_child.
    - intros j Hj. by apply (mv_sa _ _ _ _ _ _ M2). }
  apply wp_bind. eapply take_record_ok; [done|]. apply wp_bind. eapply wp_mono.
  { apply (process_ok h2 T' l lp t (cyc + n_accLat pd) cyc (hst h ch a) src fl); try done.
    intros Ht. unfold cyc_ok. rewrite Ht in *. lia. }
  intros r h3 (E3 & Sn3 & M3 & G3 & Hr). apply wp_bind, wp_ret. apply wp_ret. apply wp_bind.
  assert (env h3 (only p) T' (S ch)) as E3'.
  { eapply env_below; [done|apply E1|]. intros j Hj.
    rewrite (mv_sa _ _ _ _ _ _ M3 j Hj). by apply (mv_sa _ _ _ _ _ _ M2). }
  eapply end_ok; [done|by apply Hfree|done|]. intros h4 E4 M4. apply wp_bind, wp_assert; [lia|].
  apply wp_ret. split_and!; [done| |by rewrite (mv_fixed _ _ _ _ _ _ M4)].
  assert (ch < length nodes)%nat as Hchin by (by eapply lookup_lt_Some).
  eapply moved_trans; [by apply (seen_still t h h1 (length nodes))|]. eapply moved_trans; [exact Sn2|].
  eapply moved_trans; [exact Sn3|]. by apply (seen_still t h3 h4 (length nodes)).
Qed.
End Edge.

(** ** The recursion *)
Lemma access_recursion fuel : forall p pd,
  nodes !! p = Some pd -> n_terminal pd = false -> (length nodes - p <= fuel)%nat ->
  forall ch a, parent_of ch a = Some (ToCache p) -> up_spec nodes nmem (cache_access nodes fuel p) ch a.
Proof.
  induction fuel as [|fuel IH]; intros p pd Hp Ht Hf ch a Hpar.
  { apply lookup_lt_Some in Hp. lia. }
  destruct (parent_cache _ _ Htopo _ _ _ Hpar) as (_ & nd & _ & Hch & _).
  simpl. eapply (mesi_access_ok _ _ p pd ch nd a); try done.
  - intros b q Hq. destruct (parent_cache _ _ Htopo _ _ _ Hq) as (Hlt & _ & qd & _ & Hqd & Hqt & _).
    eapply IH; [done|done|lia|done].
  - intros j Hj. apply (invalidate_ok nodes nmem Htopo (S p)). lia.
Qed.

Lemma parents_answer i fuel : (length nodes - S i <= fuel)%nat -> parents_ok nodes nmem (cache_access nodes fuel) i.
Proof.
  intros Hf b q Hq. destruct (parent_cache _ _ Htopo _ _ _ Hq) as (Hlt & _ & qd & _ & Hqd & Hqt & _).
  eapply access_recursion; [done|done|lia|done].
Qed.
End Protocol.
