(* ===== verification/CoherenceSpec.v ===== *)
(** * Properties of a cache hierarchy

    From an empty hierarchy every sequence of core accesses runs to its end and
    leaves the hierarchy coherent; what coherence means for the caches of the
    cores; what an invalidation does. *)

From stdpp Require Import base list gmap strings sets functions.
From Stdlib Require Import ZArith Lia.
From S2P Require Import Prelude Numeric MemHierarchy DdrBound ReplPolicy CacheArray Coherence MemCtrls CoherenceInv CoherenceInval CoherenceEnv CoherenceSteps CoherenceAccess CoherenceProtocol.
Local Open Scope Z_scope.

(** ** The simple memories keep the contract of the top *)
Definition memory_ok (x : Memory) : Prop :=
  match x with SimpleMem latency => 0 < latency < 2 ^ 32 | MD1Mem _ => True end.

Record mems_ok (n : nat) (d : Top) : Prop := {
  mo_length : (n <= length (tp_mems d))%nat;
  mo_mems : Forall memory_ok (tp_mems d);
  mo_quiet : map_Forall (fun _ tr => tr_isValid tr = false) (rc_records (tp_recs d))
}.

Lemma memory_access_ok n m req d :
  mems_ok n d -> (m < n)%nat -> 0 <= cycle req <= max_cycle ->
  wp (memory_access m req) (fun r d' => r.1 = granted_state req /\ mems_ok n d') d.
Proof.
  intros [H1 H2 H3] Hm Hcyc. unfold memory_access. apply wp_bind, wp_get.
  destruct (lookup_lt_is_Some_2 (tp_mems d) m ltac:(lia)) as [x Hx].
  apply wp_bind. eapply wp_lift; [by apply at_ok|]. pose proof (Forall_lookup_1 _ _ _ _ H2 Hx) as Hok.
  destruct x as [lat|s].
  - simpl in Hok. unfold max_cycle in Hcyc. eapply wp_lift; [|split; [|by split]].
    + unfold simple_access. rewrite u64_id by (unfold in_u64; lia).
      destruct (Z.ltb_spec (cycle req) (cycle req + lat)); [done|lia].
    + done.
  - unfold md1_access. apply wp_bind, wp_modify, wp_ret. split; [done|]. split; simpl; [|by apply Forall_insert|done].
    by rewrite length_insert.
Qed.

#[export] Instance Top_laws : MemTopLaws Top := {
  top_ok := mems_ok;
  top_access_ok := memory_access_ok;
  top_quiet n d src tr H := mo_quiet n d H src tr
}.

Section Spec.
Context {R D : Type} `{RP : ReplPolicy R} `{MT : MemTop D} `{RL : !ReplLaws R} `{ML : !MemTopLaws D}.
Implicit Types (h : Hier R D) (nodes : list Node).

(** A coherent hierarchy between accesses: no lock is held, no replacement is
    under way. *)
Definition at_rest nodes (nmem : nat) h : Prop := env nodes nmem h unlocked unlocked 0.

(** An access of a core. *)
Record CoreOp := mkOp {
  op_cache : nat;
  op_addr : Address;
  op_type : AccessType;
  op_cycle : Z;
  op_src : Z;
  op_flags : Z
}.
Definition op_ok nodes (o : CoreOp) : Prop :=
  (exists nd, nodes !! op_cache o = Some nd /\ n_terminal nd = true) /\ IsGet (op_type o) = true /\
  Z.land (op_flags o) PREFETCH = 0 /\ 0 <= op_cycle o <= 2 ^ 63.
Definition run_op nodes (o : CoreOp) : M (Hier R D) Z :=
  core_access nodes (op_cache o) (op_addr o) (op_type o) (op_cycle o) (op_src o) (op_flags o).

Section Laws.
Context (nodes : list Node) (nmem : nat) (Htopo : topo_ok nodes nmem).

Lemma run_op_ok h o :
  at_rest nodes nmem h -> op_ok nodes o ->
  wp (run_op nodes o) (fun r h' =>
    at_rest nodes nmem h' /\ own_ready (op_type o) (hst nodes h' (op_cache o) (op_addr o)) /\
    (forall j b, b <> op_addr o -> evolves (hst nodes h j b) (hst nodes h' j b)) /\ op_cycle o <= r) h.
Proof.
  intros He ((nd & Hi & Ht) & Hg & Hf & Hc). destruct o as [i a t cyc src fl]. simpl in *.
  unfold run_op, core_access. simpl. apply wp_bind, wp_modify.
  set (h1 := mkHier (h_caches h) (h_mem h) MESI.I (h_filters h)).
  assert (hsim h h1) as Hs by (intros j; simpl; by destruct (h_caches h !! j); constructor).
  pose proof He as [E1 E2 E3 E4]. assert (env nodes nmem h1 unlocked unlocked 0) as He1.
  { split; try done. by eapply hsim_coherent. }
  pose proof (lookup_lt_Some _ _ _ Hi) as Hlt. destruct (length nodes - i)%nat as [|fuel] eqn:Ef; [lia|].
  simpl. eapply wp_mono.
  { eapply (term_access_ok nodes nmem Htopo (cache_access nodes fuel) i nd Hi); try done.
    - apply parents_answer; [done|lia].
    - intros j Hj. apply (invalidate_ok nodes nmem Htopo (S i)). lia.
    - apply (env_above nodes nmem unlocked h1 unlocked 0); [done|lia]. }
  intros r h2 (A1 & A2 & A3 & A4). split_and!; try done.
  - eapply (env_below nodes nmem h1); [done|apply He1|]. intros j Hj. by apply (mv_sa _ _ _ _ _ _ A2).
  - intros j b Hb. pose proof (mv_shrink _ _ _ _ _ _ A2 j b Hb) as Hev.
    destruct (hsim_views nodes h h1 j b Hs) as [E _]. by rewrite E in Hev.
Qed.

(** A sequence of accesses. *)
Lemma run_ops_ok ops : forall h,
  at_rest nodes nmem h -> Forall (op_ok nodes) ops ->
  wp (forM ops (fun o => run_op nodes o ;; ret tt)) (fun _ h' => at_rest nodes nmem h') h.
Proof.
  intros h He Hops. apply (wp_forM_inv ops _ (at_rest nodes nmem)); [done|]. intros o h' Ho He'.
  apply wp_bind. eapply wp_mono; [apply (run_op_ok h' o He'); apply (proj1 (list.Forall_forall _ _) Hops o); apply Ho|].
  intros r h2 (A & _). by apply wp_ret.
Qed.
End Laws.

(** ** The hierarchy that the simulator starts with *)

(** Caches as their constructors leave them. *)
Definition fresh_caches nodes (cs : list (CacheSt R)) : Prop :=
  Forall2 (fun nd c => exists arr rp, cache_new nd arr rp = Ok c /\ length arr = ap_numLines (n_array nd) /\
    rp_idle (ap_numLines (n_array nd)) (ap_assoc (n_array nd)) rp) nodes cs.

Lemma cache_new_ok nd arr rp c :
  cache_new (R := R) nd arr rp = Ok c -> length arr = ap_numLines (n_array nd) ->
  cache_ok nd c /\ ca_bccLock c = false /\ ca_tccLock c = false /\ sa_rp (ca_sa c) = rp /\
  forall a, cst nd c a = MESI.I /\ csh nd c a = ∅ /\ cex nd c a = false.
Proof.
  unfold cache_new. destruct (_ <? _)%nat; [done|]. intros [= <-] Harr.
  assert (forall l s, replicate (ap_numLines (n_array nd)) MESI.I !! l = Some s -> s = MESI.I) as Hst.
  { intros l s [-> _]%lookup_replicate. done. }
  assert (forall l e, (if n_terminal nd then [] else replicate (ap_numLines (n_array nd)) entry_clear) !! l = Some e ->
            e = entry_clear) as Hen.
  { intros l e. destruct (n_terminal nd); [done|]. by intros [-> _]%lookup_replicate. }
  split_and!; try done.
  - split; simpl; try done; try (by rewrite length_replicate).
    + intros ->. by rewrite length_replicate.
    + by intros ->.
    + intros l s a Hs Hne. by apply Hst in Hs.
    + by intros l e ->%Hen.
    + by intros l e ->%Hen.
    + by intros l e ->%Hen.
  - intros a. unfold cst, csh, cex, centry. destruct (cline nd _ a) as [l|]; [|done]. simpl. split_and!.
    + destruct (replicate _ _ !! l) as [s|] eqn:Hl; [by rewrite (Hst _ _ Hl)|done].
    + destruct (_ !! l) as [e|] eqn:Hl; [by rewrite (Hen _ _ Hl)|done].
    + destruct (_ !! l) as [e|] eqn:Hl; [by rewrite (Hen _ _ Hl)|done].
Qed.

Lemma fresh_at_rest nodes nmem cs d fl :
  topo_ok nodes nmem -> fresh_caches nodes cs -> top_ok nmem d ->
  at_rest nodes nmem (mkHier cs d MESI.I fl).
Proof.
  intros Htopo Hf Hd. set (h := mkHier cs d MESI.I fl).
  assert (forall i nd c, nodes !! i = Some nd -> cs !! i = Some c ->
    cache_ok nd c /\ ca_bccLock c = false /\ ca_tccLock c = false /\
    rp_idle (ap_numLines (n_array nd)) (ap_assoc (n_array nd)) (sa_rp (ca_sa c)) /\
    forall a, cst nd c a = MESI.I /\ csh nd c a = ∅ /\ cex nd c a = false) as Hnew.
  { intros i nd c Hi Hc. destruct (Forall2_lookup_lr _ _ _ _ _ _ Hf Hi Hc) as (arr & rp & Hn & Hl & Hid).
    destruct (cache_new_ok nd arr rp c Hn Hl) as (A1 & A2 & A3 & <- & A5). done. }
  assert (forall j a, hst nodes h j a = MESI.I /\ hsh nodes h j a = ∅ /\ hex nodes h j a = false) as Hv.
  { intros j a. unfold hst, hsh, hex, hview. destruct (nodes !! j) as [nd|] eqn:Hj; [|done]. simpl.
    destruct (cs !! j) as [c|] eqn:Hc; [|done]. by apply (Hnew j nd c). }
  assert (forall j c, cs !! j = Some c -> is_Some (nodes !! j)) as Hin.
  { intros j c Hc. destruct (Forall2_lookup_r _ _ _ _ _ Hf Hc) as (nd & ? & _). eauto. }
  split; [split; [split|]|..].
  - simpl. symmetry. by eapply Forall2_length.
  - intros i nd c Hi Hc. by apply (Hnew i nd c).
  - intros j a. destruct (Hv j a) as (V1 & V2 & V3). split; rewrite ?V1, ?V2, ?V3; try done.
    + intros pd k _. split; [set_solver|]. intros (i & _ & _ & Hne). by destruct (Hv i a) as [? _].
    + intros pd k i _ _ _. destruct (Hv i a) as [-> _]. split; [by intros []|set_solver].
  - intros j c Hc. destruct (Hin j c Hc) as [nd Hj]. by destruct (Hnew j nd c Hj Hc) as (_ & -> & -> & _).
  - intros j nd c _ Hj Hc. by apply (Hnew j nd c).
  - done.
Qed.
End Spec.

(** ** Readers and writers *)
Section Sharing.
Context {R D : Type} (nodes : list Node) (nmem : nat) (Htopo : topo_ok nodes nmem).
Implicit Types (h : Hier R D).

Lemma exclusive_above h a r i :
  coherent nodes h -> under nodes a r i -> isx (hst nodes h i a) -> isx (hst nodes h r a).
Proof.
  intros Hco Hu. induction Hu as [|j q Hp _ IH]; intros Hx; [done|].
  apply IH. by apply (parent_holds nodes nmem Htopo h j q a Hco Hp).
Qed.

Lemma held_above h a r i :
  coherent nodes h -> under nodes a r i -> hst nodes h i a <> MESI.I -> hst nodes h r a <> MESI.I.
Proof.
  intros Hco Hu. induction Hu as [|j q Hp _ IH]; intros Hx; [done|].
  apply IH. by apply (parent_holds nodes nmem Htopo h j q a Hco Hp).
Qed.

(** Below one cache, a line held exclusively in one subtree is in no other. *)
Lemma exclusive_sibling h a p c1 c2 :
  coherent nodes h -> parent_of nodes c1 a = Some (ToCache p) -> parent_of nodes c2 a = Some (ToCache p) ->
  c1 <> c2 -> isx (hst nodes h c1 a) -> hst nodes h c2 a = MESI.I.
Proof.
  intros Hco H1 H2 Hne Hx.
  destruct (parent_cache _ _ Htopo _ _ _ H1) as (_ & n1 & pd & Hn1 & Hp & _ & K1).
  destruct (parent_cache _ _ Htopo _ _ _ H2) as (_ & n2 & pd' & Hn2 & Hp' & _ & K2). simplify_eq.
  pose proof (ch_nodes _ _ Hco p a) as [N1 N2 _ _].
  destruct (decide (hst nodes h c2 a = MESI.I)) as [|Hh]; [done|]. exfalso.
  destruct (proj1 (N2 pd _ c1 Hp K1 H1) Hx) as [Hin Hex].
  assert (n_selfId n2 ∈ hsh nodes h p a) as Hin2 by (apply (N1 pd _ Hp); eauto).
  assert (n_selfId n1 = n_selfId n2) as E.
  { by apply (single_sharer nodes h p a); [apply Hco|..]. }
  rewrite E in K1. congruence.
Qed.

Lemma exclusive_elsewhere h a i j ni nj : forall r,
  coherent nodes h -> under nodes a r i -> under nodes a r j -> i <> j ->
  nodes !! i = Some ni -> n_terminal ni = true -> nodes !! j = Some nj -> n_terminal nj = true ->
  isx (hst nodes h i a) -> hst nodes h j a = MESI.I.
Proof.
  intros r Hco. induction r as [r IH] using lt_wf_ind. intros Hi Hj Hne Hni Hti Hnj Htj Hx.
  destruct (decide (i = r)) as [->|Hir].
  { by rewrite (under_terminal nodes nmem Htopo a r j ni Hni Hti Hj) in Hne. }
  destruct (decide (j = r)) as [->|Hjr].
  { by rewrite (under_terminal nodes nmem Htopo a r i nj Hnj Htj Hi) in Hne. }
  pose proof (under_split nodes a r i Hi Hir) as (c1 & P1 & U1).
  pose proof (under_split nodes a r j Hj Hjr) as (c2 & P2 & U2).
  destruct (decide (c1 = c2)) as [->|Hc].
  - apply (IH c2); try done. by apply (parent_cache _ _ Htopo) in P2 as [? _].
  - apply (below_invalid nodes nmem Htopo h c2 a j Hco U2).
    apply (exclusive_sibling h a r c1 c2 Hco P1 P2 Hc). by apply (exclusive_above h a c1 i).
Qed.
End Sharing.

(** ** A small system: two L1 caches, an L2 and one memory *)
Definition demo_l2 : ArrayParams := mkAP 16 2 8 7 (fun a => a).
Definition demo_nodes : list Node := [
  mkNode true demo_array 4 4 0 [ToCache 2] [10] [] [] false;
  mkNode true demo_array 4 4 1 [ToCache 2] [10] [] [] false;
  mkNode false demo_l2 7 7 0 [ToMem 0] [20] [0%nat; 1%nat] [10; 10] false].

Lemma demo_topo : topo_ok demo_nodes 1.
Proof.
  assert (forall n k m, Z.of_nat n = 2 ^ m -> 0 <= m < 32 -> (n * 2 <= k)%nat -> Z.of_nat k < 2 ^ 32 ->
            array_ok (mkAP k 2 n (Z.of_nat n - 1) (fun a => a))) as Harr.
  { intros n k m H1 H2 H3 H4. split; simpl; [lia|by exists m|done|done|done]. }
  split.
  - reflexivity || (simpl; lia).
  - intros [|[|[|i]]] nd Hi; simplify_eq/=; first [by apply (Harr 4%nat 8%nat 2)|by apply (Harr 8%nat 16%nat 3)].
  - intros [|[|[|i]]] nd Hi; simplify_eq/=; done.
  - intros [|[|[|i]]] nd [|k] p Hi Hp; simplify_eq/=; try done; try lia;
      (split; [lia|eexists; split_and!; reflexivity]).
  - intros [|[|[|j]]] pd [|[|k]] i Hj Hk; simplify_eq/=; try done; (split; [lia|eexists; split; reflexivity]).
  - intros [|[|[|i]]] nd Hi Ht; simplify_eq/=; done.
  - intros [|[|[|i]]] nd Hi; simplify_eq/=; done.
  - intros [|[|[|i]]] nd Hi; simplify_eq/=; unfold MAX_CACHE_CHILDREN; try done; simpl; lia.
  - intros [|[|[|i]]] nd Hi; simplify_eq/=; done.
  - intros [|[|[|i]]] nd Hi; simplify_eq/=; try done; unfold lat_ok; split_and!; repeat constructor; lia.
Qed.

Definition demo_cache (nd : Node) : CacheSt LRU :=
  let n := ap_numLines (n_array nd) in
  mkCache (mkSA (replicate n 0) (LRU_new n)) (replicate n MESI.I)
    (if n_terminal nd then [] else replicate n entry_clear) false false (fun _ => 0).
Definition demo_caches : list (CacheSt LRU) := map demo_cache demo_nodes.
Definition demo_top : Top := mkTop [SimpleMem 100] 0 10000 (mkRecs [] ∅).
Definition demo_hier : Hier LRU Top := mkHier demo_caches demo_top MESI.I (mkFl 0 []).
#[local] Instance demo_policy : ReplPolicy LRU := LRU_policy false.
#[local] Instance demo_laws : ReplLaws LRU := LRU_laws false.

Lemma demo_fresh : fresh_caches demo_nodes demo_caches.
Proof.
  repeat constructor; eexists (replicate _ 0), (LRU_new _); (split; [reflexivity|split; reflexivity]).
Qed.

Lemma demo_mems : mems_ok 1 demo_top.
Proof.
  split; [simpl; lia| |]; simpl.
  - repeat constructor.
  - intros src tr H. by rewrite lookup_empty in H.
Qed.

(** The state after a computation that returns. *)
Definition after {S A} (m : M S A) (s : S) : S := match m s with Ok (_, s') => s' | Err _ => s end.
Lemma wp_after {S A} (m : M S A) (P : S -> Prop) s : wp m (fun _ => P) s -> P (after m s).
Proof. unfold wp, after. by destruct (m s) as [[]|]. Qed.

Lemma demo_rest : at_rest demo_nodes 1 demo_hier.
Proof. apply fresh_at_rest; [apply demo_topo|apply demo_fresh|apply demo_mems]. Qed.

(** Core 0 writes line 5; afterwards core 1 reads line 6. *)
Definition demo_write : CoreOp := mkOp 0 5 GETX 1000 0 0.
Definition demo_read : CoreOp := mkOp 1 6 GETS 2000 1 0.

Lemma demo_write_ok : op_ok demo_nodes demo_write.
Proof. split; [eexists; split; reflexivity|]. split_and!; try reflexivity; simpl; lia. Qed.
Lemma demo_read_ok : op_ok demo_nodes demo_read.
Proof. split; [eexists; split; reflexivity|]. split_and!; try reflexivity; simpl; lia. Qed.

Definition demo_written : Hier LRU Top := after (run_op demo_nodes demo_write) demo_hier.
Lemma demo_written_rest : at_rest demo_nodes 1 demo_written.
Proof.
  apply (wp_after (run_op demo_nodes demo_write) (at_rest demo_nodes 1)).
  eapply wp_mono; [apply (run_op_ok demo_nodes 1 demo_topo _ _ demo_rest demo_write_ok)|].
  by intros r h' (H & _).
Qed.

(** The subtrees of a hierarchy at rest can be invalidated. *)
Lemma rest_sub_ok {R D} (nodes : list Node) nmem (h : Hier R D) T i a :
  topo_ok nodes nmem -> coherent nodes h -> locks h unlocked T -> (i < length nodes)%nat ->
  sub_ok nodes h i a.
Proof.
  intros Htopo Hco Hlk Hi j Hu. split; [apply Hco|].
  apply lookup_lt_is_Some in Hi. destruct (under_node nodes nmem Htopo a i j Hu Hi) as [nd Hj].
  destruct (cache_of nodes h j nd (ch_caches _ _ Hco) Hj) as (c & Hc & Hok). exists nd, c.
  split_and!; try done. by destruct (Hlk j c Hc).
Qed.

(** An invalidation of [a] leaves the other lines alone. *)
Lemma only_under_other {R D} (nodes : list Node) a i (h h' : Hier R D) j b :
  (forall j, h_caches h' !! j = h_caches h !! j \/ (under nodes a i j /\ touched_at nodes a h h' j)) ->
  b <> a -> hst nodes h' j b = hst nodes h j b.
Proof.
  intros Hf Hb. unfold hst. destruct (Hf j) as [E|(_ & nd & c & c' & Hj & Hc & Hc' & _ & _ & _ & Ht)].
  - by apply hview_same.
  - rewrite (hview_eq nodes _ _ _ _ _ _ Hj Hc), (hview_eq nodes _ _ _ _ _ _ Hj Hc'). by apply Ht.
Qed.

(** ** The properties *)
Section Claims.
Context {R D : Type} `{RP : ReplPolicy R} `{MT : MemTop D} `{RL : !ReplLaws R} `{ML : !MemTopLaws D}.
Context (nodes : list Node) (nmem : nat).

(** C29: from the hierarchy that the constructors build, every sequence of
    loads and stores of the cores runs to its end: no assertion or panic of the
    coherence controllers, of the caches or of their arrays is reached, no lock
    is taken twice and the recursion along the tree ends.  The hierarchy is
    coherent afterwards and every lock is free. *)
Theorem hierarchy_runs cs d fl (ops : list CoreOp) :
  topo_ok nodes nmem -> fresh_caches nodes cs -> top_ok nmem d -> Forall (op_ok nodes) ops ->
  exists h', forM ops (fun o => run_op nodes o ;; ret tt) (mkHier cs d MESI.I fl) = Ok (tt, h') /\
    coherent nodes h' /\ locks h' (fun _ => false) (fun _ => false).
Proof.
  intros Htopo Hf Hd Hops. pose proof (fresh_at_rest nodes nmem cs d fl Htopo Hf Hd) as Hr.
  destruct (wp_ok _ _ _ (run_ops_ok nodes nmem Htopo ops _ Hr Hops)) as ([] & h' & Hrun & [H1 H2 _ _]). eauto.
Qed.

(** C30: one access of a core to its cache in a hierarchy at rest.  It returns,
    not before it was issued; afterwards the core's cache holds the line, and
    holds it modified if the access was a store; every other line of every
    cache keeps its state, is lost, or turns from exclusive to modified; and
    the hierarchy is at rest again. *)
Theorem core_access_grants h o :
  topo_ok nodes nmem -> at_rest nodes nmem h -> op_ok nodes o ->
  exists r h', run_op nodes o h = Ok (r, h') /\ op_cycle o <= r /\ at_rest nodes nmem h' /\
    (op_type o = GETS -> hst nodes h' (op_cache o) (op_addr o) <> MESI.I) /\
    (op_type o = GETX -> hst nodes h' (op_cache o) (op_addr o) = MESI.M) /\
    forall j b, b <> op_addr o -> hst nodes h' j b = hst nodes h j b \/ hst nodes h' j b = MESI.I \/
      (hst nodes h j b = MESI.E /\ hst nodes h' j b = MESI.M).
Proof.
  intros Htopo He Ho. destruct (wp_ok _ _ _ (run_op_ok nodes nmem Htopo h o He Ho)) as (r & h' & Hrun & A & G & E & Hr).
  exists r, h'. split_and!; try done; intros Ht; by rewrite Ht in G.
Qed.

(** A hierarchy at rest has one writer per line, and is inclusive. *)
Lemma rest_single_writer h a r i j ni nj :
  topo_ok nodes nmem -> at_rest nodes nmem h -> under nodes a r i -> under nodes a r j -> i <> j ->
  nodes !! i = Some ni -> n_terminal ni = true -> nodes !! j = Some nj -> n_terminal nj = true ->
  hst nodes h i a = MESI.E \/ hst nodes h i a = MESI.M -> hst nodes h j a = MESI.I.
Proof. intros Htopo [Hco _ _ _] **. by apply (exclusive_elsewhere nodes nmem Htopo h a i j ni nj r). Qed.

Lemma rest_inclusive h a r i :
  topo_ok nodes nmem -> at_rest nodes nmem h -> under nodes a r i ->
  (hst nodes h i a <> MESI.I -> hst nodes h r a <> MESI.I) /\
  (isx (hst nodes h i a) -> isx (hst nodes h r a)).
Proof.
  intros Htopo [Hco _ _ _] Hu. split; [by eapply held_above|by eapply exclusive_above].
Qed.

(** The states after a history and one more access. *)
Lemma run_then_op cs d fl ops o :
  topo_ok nodes nmem -> fresh_caches nodes cs -> top_ok nmem d -> Forall (op_ok nodes) ops -> op_ok nodes o ->
  exists h r h', forM ops (fun o => run_op nodes o ;; ret tt) (mkHier cs d MESI.I fl) = Ok (tt, h) /\
    run_op nodes o h = Ok (r, h') /\ at_rest nodes nmem h' /\
    (op_type o = GETX -> hst nodes h' (op_cache o) (op_addr o) = MESI.M).
Proof.
  intros Htopo Hf Hd Hops Ho. pose proof (fresh_at_rest nodes nmem cs d fl Htopo Hf Hd) as Hr.
  destruct (wp_ok _ _ _ (run_ops_ok nodes nmem Htopo ops _ Hr Hops)) as ([] & h & Hrun & Hh).
  destruct (wp_ok _ _ _ (run_op_ok nodes nmem Htopo h o Hh Ho)) as (r & h' & Hop & Hr' & G & _ & _).
  exists h, r, h'. split_and!; try done. intros Ht. by rewrite Ht in G.
Qed.

(** C31: one writer.  From the hierarchy that the constructors build, after any
    sequence of loads and stores of the cores and one more access, a line that a
    core's cache holds in E or M is in no other core's cache below a common
    ancestor; if that access was a store, its line is modified in its own cache and
    has been taken from all these others. *)
Theorem single_writer cs d fl (ops : list CoreOp) o :
  topo_ok nodes nmem -> fresh_caches nodes cs -> top_ok nmem d -> Forall (op_ok nodes) ops -> op_ok nodes o ->
  exists h r h', forM ops (fun o => run_op nodes o ;; ret tt) (mkHier cs d MESI.I fl) = Ok (tt, h) /\
    run_op nodes o h = Ok (r, h') /\
    (forall a anc i j ni nj, under nodes a anc i -> under nodes a anc j -> i <> j ->
       nodes !! i = Some ni -> n_terminal ni = true -> nodes !! j = Some nj -> n_terminal nj = true ->
       hst nodes h' i a = MESI.E \/ hst nodes h' i a = MESI.M -> hst nodes h' j a = MESI.I) /\
    (op_type o = GETX -> hst nodes h' (op_cache o) (op_addr o) = MESI.M /\
       forall anc j nj, under nodes (op_addr o) anc (op_cache o) -> under nodes (op_addr o) anc j -> j <> op_cache o ->
         nodes !! j = Some nj -> n_terminal nj = true -> hst nodes h' j (op_addr o) = MESI.I).
Proof.
  intros Htopo Hf Hd Hops Ho. destruct (run_then_op cs d fl ops o Htopo Hf Hd Hops Ho) as (h & r & h' & Hrun & Hop & Hr & HM).
  exists h, r, h'. split_and!; [done|done| |].
  - intros a anc i j ni nj **. by apply (rest_single_writer h' a anc i j ni nj).
  - intros Ht. specialize (HM Ht). split; [done|]. intros anc j nj Hu Hu' Hne Hj Hjt.
    destruct Ho as [(ni & Hi & Hit) _]. by eapply (rest_single_writer h' _ anc (op_cache o) j ni nj); auto.
Qed.

(** C32: inclusion.  From the hierarchy that the constructors build, after any
    sequence of loads and stores of the cores, a line that a cache holds is held by
    every cache above it on the way of the address, and exclusively so if the
    lower cache holds it exclusively. *)
Theorem inclusive_hierarchy cs d fl (ops : list CoreOp) :
  topo_ok nodes nmem -> fresh_caches nodes cs -> top_ok nmem d -> Forall (op_ok nodes) ops ->
  exists h, forM ops (fun o => run_op nodes o ;; ret tt) (mkHier cs d MESI.I fl) = Ok (tt, h) /\
    forall a anc i, under nodes a anc i ->
      (hst nodes h i a <> MESI.I -> hst nodes h anc a <> MESI.I) /\
      (isx (hst nodes h i a) -> isx (hst nodes h anc a)).
Proof.
  intros Htopo Hf Hd Hops. pose proof (fresh_at_rest nodes nmem cs d fl Htopo Hf Hd) as Hr.
  destruct (wp_ok _ _ _ (run_ops_ok nodes nmem Htopo ops _ Hr Hops)) as ([] & h & Hrun & Hh).
  exists h. split; [done|]. intros a anc i Hu. by apply rest_inclusive.
Qed.

(** C33: an invalidation of a line that a cache holds, in a hierarchy at rest.  It
    returns within the latency of the subtree; after INV no cache of the subtree
    holds the line, after INVX none holds it exclusively; outside of the subtree
    no cache changes and inside no other line does; and if the line was modified
    anywhere in the subtree, the write-back flag says so. *)
Theorem invalidation_complete h i a t wb cyc src :
  topo_ok nodes nmem -> at_rest nodes nmem h -> (i < length nodes)%nat ->
  inv_pre t (hst nodes h i a) -> 0 <= cyc -> cyc + 2 ^ 33 * Z.of_nat (S i) < 2 ^ 64 ->
  exists r wb' h', invalidate nodes (S i) i (mkInvReq a t wb cyc src) h = Ok ((r, wb'), h') /\
    cyc <= r <= cyc + 2 ^ 33 * Z.of_nat (S i) /\
    (forall j, under nodes a i j -> (t = INV -> hst nodes h' j a = MESI.I) /\ ~ isx (hst nodes h' j a)) /\
    (forall j, ~ under nodes a i j -> h_caches h' !! j = h_caches h !! j) /\
    (forall j b, b <> a -> hst nodes h' j b = hst nodes h j b) /\
    (forall j, under nodes a i j -> hst nodes h j a = MESI.M -> wb' = true).
Proof.
  intros Htopo [Hco Hlk _ _] Hi Hpre H0 Hcyc.
  assert (sub_ok nodes h i a) as Hsub by (by eapply rest_sub_ok).
  destruct (wp_ok _ _ _ (invalidate_ok nodes nmem Htopo (S i) i (le_n _) a t wb cyc src h Hsub Hpre H0 Hcyc))
    as ([r wb'] & h' & Hrun & (_ & _ & Hf) & Hsub' & Hst & Hb & _ & Hd).
  exists r, wb', h'. split_and!; try done; try apply Hb.
  - intros j Hu. destruct (sub_above nodes nmem Htopo h' i a j Hsub' Hu) as [A1 A2]. rewrite Hst in A1, A2.
    destruct t; try done; (split; [|by intros []%A2]); [|done]. intros _.
    destruct (decide (hst nodes h' j a = MESI.I)) as [|Hne]; [done|]. by destruct (A1 Hne).
  - intros j Hu. by destruct (Hf j) as [?|[? _]].
  - intros j b Hb'. by apply (only_under_other nodes a i h h').
  - intros j Hu HM. apply Hd. right. by exists j.
Qed.
End Claims.

(** Instances of the properties in the small system. *)
Lemma hierarchy_runs_witness :
  exists h', forM [demo_write; demo_read] (fun o => run_op demo_nodes o ;; ret tt) demo_hier = Ok (tt, h') /\
    coherent demo_nodes h'.
Proof.
  destruct (hierarchy_runs demo_nodes 1 demo_caches demo_top (mkFl 0 []) [demo_write; demo_read]) as (h' & H1 & H2 & _).
  - exact demo_topo.
  - exact demo_fresh.
  - exact demo_mems.
  - constructor; [exact demo_write_ok|]. constructor; [exact demo_read_ok|]. constructor.
  - exists h'. split; [exact H1|exact H2].
Defined.

Lemma core_access_grants_witness :
  exists r h', run_op demo_nodes demo_write demo_hier = Ok (r, h') /\ 1000 <= r /\
    hst demo_nodes h' 0 5 = MESI.M.
Proof.
  destruct (core_access_grants demo_nodes 1 demo_hier demo_write) as (r & h' & H1 & H2 & _ & _ & H3 & _).
  - exact demo_topo.
  - exact demo_rest.
  - exact demo_write_ok.
  - exists r, h'. split; [exact H1|]. split; [exact H2|]. exact (H3 eq_refl).
Defined.

Lemma demo_under i : (i < 2)%nat -> under demo_nodes 5 2 i.
Proof.
  intros Hi. apply (under_step demo_nodes 5 2 i 2); [|apply under_refl].
  destruct i as [|[|i]]; [reflexivity|reflexivity|lia].
Qed.

Definition demo_share : CoreOp := mkOp 1 5 GETS 500 1 0.
Lemma demo_share_ok : op_ok demo_nodes demo_share.
Proof. split; [eexists; split; reflexivity|]. split_and!; [reflexivity|reflexivity|cbn; lia|cbn; lia]. Qed.

(** A load of core 1 and a store of core 0: the store takes the line from core 1. *)
Lemma single_writer_witness :
  exists h r h', forM [demo_share] (fun o => run_op demo_nodes o ;; ret tt) demo_hier = Ok (tt, h) /\
    run_op demo_nodes demo_write h = Ok (r, h') /\ hst demo_nodes h' 0 5 = MESI.M /\ hst demo_nodes h' 1 5 = MESI.I.
Proof.
  destruct (single_writer demo_nodes 1 demo_caches demo_top (mkFl 0 []) [demo_share] demo_write)
    as (h & r & h' & Hrun & Hop & _ & Hst).
  - exact demo_topo.
  - exact demo_fresh.
  - exact demo_mems.
  - constructor; [exact demo_share_ok|]. constructor.
  - exact demo_write_ok.
  - exists h, r, h'. split; [exact Hrun|]. split; [exact Hop|]. destruct (Hst eq_refl) as [HM HI]. split; [exact HM|].
    apply (HI 2%nat 1%nat (mkNode true demo_array 4 4 1 [ToCache 2] [10] [] [] false)).
    + apply demo_under. cbn. lia.
    + apply demo_under. lia.
    + discriminate.
    + reflexivity.
    + reflexivity.
Defined.

Lemma inclusive_hierarchy_witness :
  exists h, forM [demo_write; demo_read] (fun o => run_op demo_nodes o ;; ret tt) demo_hier = Ok (tt, h) /\
    (hst demo_nodes h 0 5 <> MESI.I -> hst demo_nodes h 2 5 <> MESI.I).
Proof.
  destruct (inclusive_hierarchy demo_nodes 1 demo_caches demo_top (mkFl 0 []) [demo_write; demo_read]) as (h & Hrun & Hincl).
  - exact demo_topo.
  - exact demo_fresh.
  - exact demo_mems.
  - constructor; [exact demo_write_ok|]. constructor; [exact demo_read_ok|]. constructor.
  - exists h. split; [exact Hrun|]. apply (Hincl 5 2%nat 0%nat). apply demo_under. lia.
Defined.

Lemma invalidation_complete_witness :
  exists r h', invalidate demo_nodes 3 2 (mkInvReq 5 INV false 3000 0) demo_written = Ok ((r, true), h') /\
    hst demo_nodes h' 0 5 = MESI.I /\ hst demo_nodes h' 2 5 = MESI.I.
Proof.
  destruct (invalidation_complete demo_nodes 1 demo_written 2 5 INV false 3000 0)
    as (r & wb' & h' & H1 & _ & H2 & _ & _ & H3).
  - exact demo_topo.
  - exact demo_written_rest.
  - simpl. lia.
  - vm_compute. discriminate.
  - lia.
  - lia.
  - assert (wb' = true) as E.
    { apply (H3 0%nat); [apply demo_under; lia|vm_compute; reflexivity]. }
    exists r, h'. rewrite E in H1. split; [exact H1|]. split.
    + apply (H2 0%nat); [apply demo_under; lia|reflexivity].
    + apply (H2 2%nat); [apply under_refl|reflexivity].
Defined.
