(* ===== verification/Prefetch.v ===== *)
(** * The stream prefetcher ([src/src/prefetcher.h], [src/src/prefetcher.cpp])

    It sits between two levels of caches, watches the loads, learns a stride per
    page of 64 lines and fetches ahead.  Its parent is a [MemTop], which also has
    the events and the recorders of the cores. *)

From stdpp Require Import base list gmap strings.
From Stdlib Require Import ZArith Lia.
From S2P Require Import Prelude Numeric MemHierarchy DdrBound Coherence.
Local Open Scope Z_scope.

(** [SatCounter<M, T, I>] *)
Definition sat_dec (count : Z) : Z := Z.max (count - 1) 0.
Definition sat_inc (mx count : Z) : Z := Z.min (count + 1) mx.

(** The counter of an entry is a [SatCounter<3, 2, 1>]. *)
Definition conf_reset : Z := 1.
Definition conf_inc (count : Z) : Z := sat_inc 3 count.
Definition conf_pred (count : Z) : bool := 2 <=? count.

(** [StreamPrefetcher::Entry]; [times] are pairs of [startCycle] and [respCycle],
    [respEvents] are pointers. *)
Record PfEntry := mkPE {
  pe_stride : Z;
  pe_conf : Z;
  pe_times : list (Z * Z);
  pe_valid : list bool;
  pe_respEvents : list (option nat);
  pe_lastPos : Z;
  pe_lastLastPos : Z;
  pe_lastPrefetchPos : Z;
  pe_lastCycle : Z;
  pe_ts : Z
}.

(** [gm_calloc]: no constructor runs. *)
Definition pe_zero : PfEntry :=
  mkPE 0 0 (replicate 64 (0, 0)) (replicate 64 false) (replicate 64 None) 0 0 0 0 0.

Definition pe_alloc (curCycle : Z) (e : PfEntry) : PfEntry :=
  mkPE 1 conf_reset (pe_times e) (replicate 64 false) (replicate 64 None) 0 0 0 curCycle (pe_ts e).

Definition pe_set_ts (t : Z) (e : PfEntry) : PfEntry :=
  mkPE (pe_stride e) (pe_conf e) (pe_times e) (pe_valid e) (pe_respEvents e) (pe_lastPos e)
    (pe_lastLastPos e) (pe_lastPrefetchPos e) (pe_lastCycle e) t.
Definition pe_set_last (lastPos lastLastPos : Z) (e : PfEntry) : PfEntry :=
  mkPE (pe_stride e) (pe_conf e) (pe_times e) (pe_valid e) (pe_respEvents e) lastPos lastLastPos
    (pe_lastPrefetchPos e) (pe_lastCycle e) (pe_ts e).
Definition pe_set_prefetched (p : Z) (e : PfEntry) : PfEntry :=
  mkPE (pe_stride e) (pe_conf e) (pe_times e) (pe_valid e) (pe_respEvents e) (pe_lastPos e)
    (pe_lastLastPos e) p (pe_lastCycle e) (pe_ts e).
Definition pe_set_stride (stride conf : Z) (e : PfEntry) : PfEntry :=
  mkPE stride conf (pe_times e) (pe_valid e) (pe_respEvents e) (pe_lastPos e) (pe_lastLastPos e)
    (pe_lastPrefetchPos e) (pe_lastCycle e) (pe_ts e).
Definition pe_set_hit (valid : list bool) (lastCycle : Z) (e : PfEntry) : PfEntry :=
  mkPE (pe_stride e) (pe_conf e) (pe_times e) valid (pe_respEvents e) (pe_lastPos e)
    (pe_lastLastPos e) (pe_lastPrefetchPos e) lastCycle (pe_ts e).
Definition pe_set_fetch (valid : list bool) (times : list (Z * Z)) (e : PfEntry) : PfEntry :=
  mkPE (pe_stride e) (pe_conf e) times valid (pe_respEvents e) (pe_lastPos e) (pe_lastLastPos e)
    (pe_lastPrefetchPos e) (pe_lastCycle e) (pe_ts e).
Definition pe_set_events (l : list (option nat)) (e : PfEntry) : PfEntry :=
  mkPE (pe_stride e) (pe_conf e) (pe_times e) (pe_valid e) l (pe_lastPos e) (pe_lastLastPos e)
    (pe_lastPrefetchPos e) (pe_lastCycle e) (pe_ts e).

Inductive PfCounter :=
| profAccesses | profPrefetches | profDoublePrefetches | profPageHits | profHits | profShortHits
| profStrideSwitches | profLowConfAccs.
#[export] Instance PfCounter_eq_dec : EqDecision PfCounter.
Proof. solve_decision. Defined.

(** [StreamPrefetcher]; [pf_owner] is the payload ([idx], [prefetchPos]) of the
    [PrefetchResponseEvent]s. *)
Record StreamPrefetcher := mkPF {
  pf_timestamp : Z;
  pf_tag : list Address;
  pf_array : list PfEntry;
  pf_childId : Z;
  pf_numBuffers : nat;
  pf_partitionBuffers : bool;
  pf_prof : PfCounter -> Z;
  pf_owner : gmap nat (nat * nat)
}.

Definition StreamPrefetcher_new (numBuffers : nat) (partitionBuffers : bool) (childId : Z) : StreamPrefetcher :=
  mkPF 0 (replicate numBuffers 0) (replicate numBuffers pe_zero) childId numBuffers partitionBuffers
    (fun _ => 0) ∅.

Definition pf_set_entries (t : Z) (tag : list Address) (array : list PfEntry) (p : StreamPrefetcher)
    : StreamPrefetcher :=
  mkPF t tag array (pf_childId p) (pf_numBuffers p) (pf_partitionBuffers p) (pf_prof p) (pf_owner p).
Definition pf_set_array (array : list PfEntry) (p : StreamPrefetcher) : StreamPrefetcher :=
  pf_set_entries (pf_timestamp p) (pf_tag p) array p.
Definition pf_count (c : PfCounter) (p : StreamPrefetcher) : StreamPrefetcher :=
  mkPF (pf_timestamp p) (pf_tag p) (pf_array p) (pf_childId p) (pf_numBuffers p) (pf_partitionBuffers p)
    (fun c' => if decide (c' = c) then u64 (pf_prof p c' + 1) else pf_prof p c') (pf_owner p).
Definition pf_own (ev : nat) (o : nat * nat) (p : StreamPrefetcher) : StreamPrefetcher :=
  mkPF (pf_timestamp p) (pf_tag p) (pf_array p) (pf_childId p) (pf_numBuffers p) (pf_partitionBuffers p)
    (pf_prof p) (<[ev := o]> (pf_owner p)).

Record PfWorld (D : Type) := mkPW { pw_pf : StreamPrefetcher; pw_mem : D }.
Arguments mkPW {D} _ _.
Arguments pw_pf {D} _.
Arguments pw_mem {D} _.

Section Prefetcher.
Context {D : Type} `{MemTop D}.
Abbreviation PM := (M (PfWorld D)).

Definition on_pf (f : StreamPrefetcher -> StreamPrefetcher) : PM unit :=
  modify (fun w => mkPW (f (pw_pf w)) (pw_mem w)).
Definition prof (c : PfCounter) : PM unit := on_pf (pf_count c).

(** [parent->access(req)] *)
Definition pf_parent_access (req : MemReq) : PM (MESIState * Z) :=
  zoom pw_mem (fun d w => mkPW (pw_pf w) d) (top_access 0 req).

Definition pf_recs : PM Recs := gets (fun w => top_recs (pw_mem w)).
Definition pf_set_recs (r : Recs) : PM unit :=
  modify (fun w => mkPW (pw_pf w) (top_set_recs r (pw_mem w))).

(** [zinfo->eventRecorders\[srcId\]] and its operations. *)
Definition has_evRec (src : Z) : PM bool :=
  r <- pf_recs ;; ret (bool_decide (is_Some (rc_records r !! src))).
Definition on_evRec {A} (src : Z) (m : M TimingRecord A) : PM A :=
  r <- pf_recs ;;
  match rc_records r !! src with
  | None => fail NullDeref
  | Some tr =>
      let! (a, tr') := lift (m tr) in
      pf_set_recs (mkRecs (rc_events r) (<[src := tr']> (rc_records r))) ;; ret a
  end.
Definition pf_addChild (p c : nat) : PM unit :=
  r <- pf_recs ;;
  let! (_, evs) := lift (addChild p c (rc_events r)) in
  pf_set_recs (mkRecs evs (rc_records r)).

(** [new (evRec) DelayEvent(delay)] with [setMinStartCycle(c)], and the event of a
    prefetch response, which has domain 0. *)
Definition pf_new (e : TimingEvent) : PM nat :=
  r <- pf_recs ;;
  pf_set_recs (mkRecs (rc_events r ++ [e]) (rc_records r)) ;;
  ret (length (rc_events r)).
Definition new_delay (delay c : Z) : PM nat := pf_new (setMinStartCycle c (DelayEvent_new delay)).
Definition new_response (c : Z) : PM nat :=
  pf_new (mkEv EV_NONE c [] 0 0 0 0 ExtDram 0 0 false).

Definition event_of (w : string) (o : option nat) : PM nat :=
  match o with Some e => ret e | None => fail (AssertFail w) end.

(** The record of the demand access, taken from the recorder if it has one. *)
Definition take_acc (src : Z) : PM (option TimingRecord) :=
  r <- pf_recs ;;
  match rc_records r !! src with
  | Some tr => if tr_isValid tr then acc <- on_evRec src popRecord ;; ret (Some acc) else ret None
  | None => ret None
  end.

(** [initAcc]; [acc] is [None] while the record is not valid. *)
Definition initAcc (lineAddr : Address) (ty : AccessType) (reqCycle respCycle : Z)
    (acc : option TimingRecord) : PM TimingRecord :=
  match acc with
  | Some a =>
      if reqCycle <? tr_reqCycle a then
        dUpEv <- new_delay (tr_reqCycle a - reqCycle) reqCycle ;;
        st <- event_of "startEvent" (tr_startEvent a) ;;
        pf_addChild dUpEv st ;;
        ret (mkTR (tr_addr a) reqCycle (tr_respCycle a) (tr_type a) (Some dUpEv) (tr_endEvent a))
      else ret a
  | None =>
      startEv <- new_delay (respCycle - reqCycle) reqCycle ;;
      endEv <- new_delay 0 respCycle ;;
      pf_addChild startEv endEv ;;
      ret (mkTR lineAddr reqCycle respCycle ty (Some startEv) (Some endEv))
  end.

(** [array\[idx\]] *)
Definition pf_get_entry (idx : nat) : PM PfEntry :=
  w <- get ;; lift (at_ (pf_array (pw_pf w)) idx).
Definition upd_entry (idx : nat) (f : PfEntry -> PfEntry) : PM unit :=
  w <- get ;;
  e <- lift (at_ (pf_array (pw_pf w)) idx) ;;
  l <- lift (set_at (pf_array (pw_pf w)) idx (f e)) ;;
  on_pf (pf_set_array l).

(** Lines 262-278: the events between the start of the prefetch and its response. *)
Definition connect_prefetch (src reqCycle pfRespCycle : Z) (pfEndEv : nat) : PM nat :=
  has <- on_evRec src hasRecord ;;
  if (has : bool) then
    pfAcc <- on_evRec src popRecord ;;
    assert_ "prefetcher.cpp:265" (reqCycle <=? tr_reqCycle pfAcc) ;;
    assert_ "prefetcher.cpp:266" (tr_respCycle pfAcc <=? pfRespCycle) ;;
    pfStartEv <- new_delay (tr_reqCycle pfAcc - reqCycle) reqCycle ;;
    st <- event_of "startEvent" (tr_startEvent pfAcc) ;;
    pf_addChild pfStartEv st ;;
    pfDownEv <- new_delay (pfRespCycle - tr_respCycle pfAcc) (tr_respCycle pfAcc) ;;
    en <- event_of "endEvent" (tr_endEvent pfAcc) ;;
    pf_addChild en pfDownEv ;;
    pf_addChild pfDownEv pfEndEv ;;
    ret pfStartEv
  else
    pfStartEv <- new_delay (pfRespCycle - reqCycle) reqCycle ;;
    pf_addChild pfStartEv pfEndEv ;;
    ret pfStartEv.

(** Lines 280-289: the start of the prefetch joins the record of the demand access. *)
Definition join_prefetch (lineAddr : Address) (ty : AccessType) (reqCycle respCycle : Z)
    (acc : option TimingRecord) (pfStartEv : nat) : PM TimingRecord :=
  a <- initAcc lineAddr ty reqCycle respCycle acc ;;
  assert_ "prefetcher.cpp:281" (tr_reqCycle a =? reqCycle) ;;
  startEv <- new_delay 0 reqCycle ;;
  ast <- event_of "startEvent" (tr_startEvent a) ;;
  pf_addChild startEv ast ;;
  pf_addChild startEv pfStartEv ;;
  ret (mkTR (tr_addr a) (tr_reqCycle a) (tr_respCycle a) (tr_type a) (Some startEv) (tr_endEvent a)).

(** [issuePrefetch(prefetchPos)].  [acc] is the record of the demand access. *)
Definition issuePrefetch (req : MemReq) (idx : nat) (pos : Z) (reqCycle respCycle : Z) (prefetchPos : Z)
    (acc : option TimingRecord) : PM (option TimingRecord) :=
  let src := srcId req in
  let! (st, pfRespCycle) :=
    pf_parent_access (mkMemReq (u64 (lineAddr req + prefetchPos - pos)) GETS (childId req) MESI.I reqCycle
                     MESI.I src PREFETCH) in
  assert_ "prefetcher.cpp:252" (bool_decide (st = MESI.I)) ;;
  e <- pf_get_entry idx ;;
  valid <- lift (set_at (pe_valid e) (Z.to_nat prefetchPos) true) ;;
  times <- lift (set_at (pe_times e) (Z.to_nat prefetchPos) (u32 reqCycle, pfRespCycle)) ;;
  upd_entry idx (pe_set_fetch valid times) ;;
  hasRec <- has_evRec src ;;
  if negb (hasRec : bool) then ret acc else
  pfEndEv <- new_response pfRespCycle ;;
  on_pf (pf_own pfEndEv (idx, Z.to_nat prefetchPos)) ;;
  pfStartEv <- connect_prefetch src reqCycle pfRespCycle pfEndEv ;;
  a <- join_prefetch (lineAddr req) (type req) reqCycle respCycle acc pfStartEv ;;
  e <- pf_get_entry idx ;;
  events <- lift (set_at (pe_respEvents e) (Z.to_nat prefetchPos) (Some pfEndEv)) ;;
  upd_entry idx (pe_set_events events) ;;
  ret (Some a).

(** The loop over the tags; the last match counts. *)
Definition pf_find_tag (pageAddr : Address) (tags : list Address) : nat :=
  fold_left (fun idx i => if bool_decide (tags !! i = Some pageAddr) then i else idx)
    (seq 0 (length tags)) (length tags).

(** The loop that looks for a victim: 16 entries, whatever [numBuffers] is. *)
Fixpoint find_victim (array : list PfEntry) (reqCycle : Z) (is_ : list nat) (cand : nat) (candScore : Z)
    : res nat :=
  match is_ with
  | [] => Ok cand
  | i :: is' =>
      match at_ array i with
      | Err x => Err x
      | Ok e =>
          if u64 (reqCycle + 5000) <? pe_lastCycle e then find_victim array reqCycle is' cand candScore
          else if pe_ts e <? candScore then find_victim array reqCycle is' i (pe_ts e)
          else find_victim array reqCycle is' cand candScore
      end
  end.

(** The entry miss: lines 173-195. *)
Definition pf_miss (reqCycle pageAddr pos : Z) : PM unit :=
  w <- get ;;
  let p := pw_pf w in
  cand <- lift (find_victim (pf_array p) reqCycle (seq 0 16) (pf_numBuffers p) (2 ^ 64 - 1)) ;;
  when (cand <? pf_numBuffers p)%nat
    (e <- pf_get_entry cand ;;
     let e' := pe_set_ts (pf_timestamp p) (pe_set_last pos 0 (pe_alloc reqCycle e)) in
     tag <- lift (set_at (pf_tag p) cand pageAddr) ;;
     array <- lift (set_at (pf_array p) cand e') ;;
     on_pf (pf_set_entries (u64 (pf_timestamp p + 1)) tag array)).

(** Lines 216-229: the response to the access waits for that of the prefetch. *)
Definition link_response (lineAddr : Address) (ty : AccessType) (reqCycle resp : Z)
    (acc : option TimingRecord) (respEv : nat) : PM TimingRecord :=
  a <- initAcc lineAddr ty reqCycle resp acc ;;
  assert_ "prefetcher.cpp:218" (tr_respCycle a <=? resp) ;;
  en <- event_of "prefetcher.cpp:219" (tr_endEvent a) ;;
  dDownEv <- new_delay (resp - tr_respCycle a) (tr_respCycle a) ;;
  dEndEv <- new_delay 0 resp ;;
  pf_addChild en dDownEv ;;
  pf_addChild dDownEv dEndEv ;;
  pf_addChild respEv dEndEv ;;
  ret (mkTR (tr_addr a) (tr_reqCycle a) resp (tr_type a) (tr_startEvent a) (Some dEndEv)).

(** Lines 204-231: a hit in the prefetch buffer.  Returns the response cycle,
    [shortPrefetch] and the record. *)
Definition pf_buffer_hit (req : MemReq) (idx : nat) (pos reqCycle respCycle : Z) (acc : option TimingRecord)
    : PM (Z * bool * option TimingRecord) :=
  e <- pf_get_entry idx ;;
  v <- lift (at_ (pe_valid e) (Z.to_nat pos)) ;;
  if negb (v : bool) then ret (respCycle, false, acc) else
  t <- lift (at_ (pe_times e) (Z.to_nat pos)) ;;
  let pfRespCycle := snd t in
  let shortPrefetch := respCycle <? pfRespCycle in
  valid <- lift (set_at (pe_valid e) (Z.to_nat pos) false) ;;
  let resp := Z.max pfRespCycle respCycle in
  upd_entry idx (pe_set_hit valid (Z.max resp (pe_lastCycle e))) ;;
  prof profHits ;;
  when shortPrefetch (prof profShortHits) ;;
  hasRec <- has_evRec (srcId req) ;;
  ev <- lift (at_ (pe_respEvents e) (Z.to_nat pos)) ;;
  match ev with
  | Some respEv =>
      if negb (hasRec : bool) then ret (resp, shortPrefetch, acc) else
      a <- link_response (lineAddr req) (type req) reqCycle resp acc respEv ;;
      ret (resp, shortPrefetch, Some a)
  | None => ret (resp, shortPrefetch, acc)
  end.

(** Lines 234-327: update the predictors and issue prefetches. *)
Definition pf_fetch_ahead (req : MemReq) (idx : nat) (pos reqCycle respCycle stride : Z)
    (shortPrefetch : bool) (acc : option TimingRecord) : PM (option TimingRecord) :=
  e <- pf_get_entry idx ;;
  if conf_pred (pe_conf e) then
    d <- lift (udiv (u32 (pe_lastPrefetchPos e - pe_lastPos e)) (u32 stride)) ;;
    let fetchDepth := i32 d in
    let prefetchPos := if fetchDepth <? 1 then u32 (pos + stride) else u32 (pe_lastPrefetchPos e + stride) in
    let fetchDepth := if fetchDepth <? 1 then 1 else fetchDepth in
    if negb (prefetchPos <? 64) then ret acc else
    v <- lift (at_ (pe_valid e) (Z.to_nat prefetchPos)) ;;
    if (v : bool) then ret acc else
    acc1 <- issuePrefetch req idx pos reqCycle respCycle prefetchPos acc ;;
    prof profPrefetches ;;
    e1 <- pf_get_entry idx ;;
    let second := u32 (prefetchPos + stride) in
    let! (last, acc2) :=
      (if (shortPrefetch && (fetchDepth <? 8) && (second <? 64))%bool then
         v2 <- lift (at_ (pe_valid e1) (Z.to_nat second)) ;;
         if (v2 : bool) then ret (prefetchPos, acc1) else
         acc2 <- issuePrefetch req idx pos reqCycle respCycle second acc1 ;;
         prof profPrefetches ;;
         prof profDoublePrefetches ;;
         ret (second, acc2)
       else ret (prefetchPos, acc1)) in
    upd_entry idx (pe_set_prefetched last) ;;
    ret acc2
  else prof profLowConfAccs ;; ret acc.

(** A stride that is not the entry's. *)
Definition pf_other_stride (idx : nat) (pos stride : Z) : PM unit :=
  e <- pf_get_entry idx ;;
  let conf := sat_dec (pe_conf e) in
  upd_entry idx (pe_set_stride (pe_stride e) conf) ;;
  (if conf_pred conf then ret tt else
   let lastStride := i32 (pe_lastPos e - pe_lastLastPos e) in
   when (negb (stride =? 0) && negb (stride =? pe_stride e) && (stride =? lastStride))%bool
     (upd_entry idx (pe_set_stride stride conf_reset) ;; prof profStrideSwitches)) ;;
  upd_entry idx (pe_set_prefetched pos).

Definition pf_page_hit (req : MemReq) (idx : nat) (pos reqCycle respCycle : Z) (acc : option TimingRecord)
    : PM (Z * option TimingRecord) :=
  prof profPageHits ;;
  w <- get ;;
  upd_entry idx (pe_set_ts (pf_timestamp (pw_pf w))) ;;
  on_pf (fun p => pf_set_entries (u64 (pf_timestamp p + 1)) (pf_tag p) (pf_array p) p) ;;
  let! (resp, shortPrefetch, acc1) := pf_buffer_hit req idx pos reqCycle respCycle acc in
  e <- pf_get_entry idx ;;
  let stride := i32 (pos - pe_lastPos e) in
  acc2 <-
    (if pe_stride e =? stride then
       upd_entry idx (pe_set_stride (pe_stride e) (conf_inc (pe_conf e))) ;;
       pf_fetch_ahead req idx pos reqCycle resp stride shortPrefetch acc1
     else pf_other_stride idx pos stride ;; ret acc1) ;;
  upd_entry idx (fun e => pe_set_last pos (pe_lastPos e) e) ;;
  ret (resp, acc2).

(** [access(req)]: the request as the caller finds it afterwards, and the response
    cycle. *)
Definition with_child (c : Z) (r : MemReq) : MemReq :=
  mkMemReq (lineAddr r) (type r) c (state r) (cycle r) (initialState r) (srcId r) (flags r).

Definition pf_access (req0 : MemReq) : PM (MemReq * Z) :=
  w <- get ;;
  let p := pw_pf w in
  let req := with_child (pf_childId p) req0 in
  if negb (bool_decide (type req = GETS)) then
    let! (st, resp) := pf_parent_access req in ret (with_state st req, resp)
  else
    prof profAccesses ;;
    let reqCycle := cycle req in
    let! (st, respCycle) := pf_parent_access req in
    acc <- take_acc (srcId req) ;;
    let pageAddr := Z.shiftr (lineAddr req) 6 in
    assert_ "prefetcher.cpp:143" (negb (pf_partitionBuffers p)) ;;
    let pos := Z.land (lineAddr req) 63 in
    let idx := pf_find_tag pageAddr (pf_tag p) in
    let! (resp, acc') :=
      (if (idx =? pf_numBuffers p)%nat then pf_miss reqCycle pageAddr pos ;; ret (respCycle, acc)
       else pf_page_hit req idx pos reqCycle respCycle acc) in
    match acc' with
    | Some a => on_evRec (srcId req) (pushRecord a)
    | None => ret tt
    end ;;
    ret (with_state st req0, resp).

(** [PrefetchResponseEvent::simulate]: [simulatePrefetchResponse], then [done]. *)
Definition simulatePrefetchResponse (ev : nat) : PM unit :=
  w <- get ;;
  match pf_owner (pw_pf w) !! ev with
  | None => fail NullDeref
  | Some (idx, prefetchPos) =>
      assert_ "prefetcher.cpp:344" ((idx <? 16)%nat && (prefetchPos <? 64)%nat) ;;
      e <- pf_get_entry idx ;;
      evPtr <- lift (at_ (pe_respEvents e) prefetchPos) ;;
      when (bool_decide (evPtr = Some ev))
        (l <- lift (set_at (pe_respEvents e) prefetchPos None) ;; upd_entry idx (pe_set_events l))
  end.
End Prefetcher.
