(* ===== verification/PrefetchInv.v ===== *)
(** * The invariant of the prefetcher

    Entries are well formed, strides of used entries are not 0, and the events that
    entries point to have not run.  Every part of an access keeps it. *)

From stdpp Require Import base list gmap strings.
From Stdlib Require Import ZArith Lia.
From S2P Require Import Prelude Numeric MemHierarchy DdrBound Coherence Prefetch.
Local Open Scope Z_scope.

(** ** Events of the prefetcher

    Building the graph of events of an access never fails: an event is hung below
    another that has not run, and new events stay fresh until the weave phase.
    [PfParent] is what the prefetcher relies on of its parent. *)

(** ** Arenas *)

(** The children of events are events. *)
Definition arena_ok (a : Arena) : Prop :=
  forall i e, a !! i = Some e -> Forall (fun c => (c < length a)%nat) (ev_children e).

(** Events are added, and no event changes its state. *)
Definition arena_le (a a' : Arena) : Prop :=
  forall i e, a !! i = Some e -> exists e', a' !! i = Some e' /\ ev_state e' = ev_state e.

#[export] Instance arena_le_preorder : PreOrder arena_le.
Proof.
  split; [intros a i e He; eauto|]. intros a1 a2 a3 H12 H23 i e He.
  destruct (H12 i e He) as (e2 & He2 & E2). destruct (H23 i e2 He2) as (e3 & He3 & E3). exists e3. split; congruence.
Qed.

Definition fresh (a : Arena) (i : nat) : Prop := exists e, a !! i = Some e /\ ev_state e = EV_NONE.
(** The event may still get children. *)
Definition ev_pending (a : Arena) (i : nat) : Prop :=
  exists e, a !! i = Some e /\ ev_state e ∈ [EV_NONE; EV_QUEUED].

Lemma fresh_mono a a' i : arena_le a a' -> fresh a i -> fresh a' i.
Proof. intros Hle (e & He & Hs). destruct (Hle i e He) as (e' & He' & E). exists e'. split; congruence. Qed.
Lemma pending_mono a a' i : arena_le a a' -> ev_pending a i -> ev_pending a' i.
Proof. intros Hle (e & He & Hs). destruct (Hle i e He) as (e' & He' & E). exists e'. split; congruence. Qed.
Lemma fresh_pending a i : fresh a i -> ev_pending a i.
Proof. intros (e & He & Hs). exists e. split; [done|]. rewrite Hs. left. Qed.

Create HintDb pfev.
#[export] Hint Resolve fresh_mono pending_mono fresh_pending : pfev.

Lemma arena_app a e : arena_ok a -> ev_children e = [] -> ev_state e = EV_NONE ->
  arena_ok (a ++ [e]) /\ arena_le a (a ++ [e]) /\ fresh (a ++ [e]) (length a).
Proof.
  intros Ha Hc Hs. split_and!.
  - intros i x Hx. rewrite length_app. apply lookup_snoc_Some in Hx as [[_ Hx]|[_ <-]].
    + eapply list.Forall_impl; [by eapply Ha|]. simpl. lia.
    + rewrite Hc. by constructor.
  - intros i x Hx. exists x. split; [|done]. by apply lookup_app_l_Some.
  - exists e. split; [|done]. by rewrite list_lookup_middle.
Qed.

(** Changes of one event that keep its state. *)
Lemma arena_put a i e e' :
  arena_ok a -> a !! i = Some e -> ev_state e' = ev_state e ->
  Forall (fun c => (c < length a)%nat) (ev_children e') ->
  arena_ok (<[i := e']> a) /\ arena_le a (<[i := e']> a).
Proof.
  intros Ha Hi Hs Hc. split.
  - intros j x Hx. rewrite length_insert. destruct (decide (j = i)) as [->|Hne].
    + rewrite list_lookup_insert_eq in Hx by (by eapply lookup_lt_Some). by simplify_eq.
    + rewrite list_lookup_insert_ne in Hx by done. by eapply Ha.
  - intros j x Hx. destruct (decide (j = i)) as [->|Hne].
    + exists e'. rewrite list_lookup_insert_eq by (by eapply lookup_lt_Some). simplify_eq. done.
    + exists x. by rewrite list_lookup_insert_ne.
Qed.

Definition grown (a : Arena) : Arena -> Prop := fun a' => arena_ok a' /\ arena_le a a' /\ length a' = length a.

(** The events without a domain: each call of [propagateDomain] gives one to one of
    them. *)
Definition undom (a : Arena) : nat := count_if (fun e => ev_domain e =? -1) a.

Lemma propagateDomain_ok fuel dom : dom <> -1 -> forall i a e,
  (undom a <= fuel)%nat -> arena_ok a -> a !! i = Some e -> ev_domain e = -1 ->
  wp (propagateDomain fuel dom i) (fun _ a' => grown a a' /\ (undom a' <= undom a)%nat) a.
Proof.
  intros Hdom. induction fuel as [|fuel IH]; intros i a e Hf Ha Hi Hd; cbn [propagateDomain].
  { exfalso. enough (0 < undom a)%nat by lia.
    apply (count_if_pos _ _ e); [by eapply list_elem_of_lookup_2|by apply Z.eqb_eq]. }
  wp_step. eapply wp_ev_at; [done|]. wp_step. wp_step; [by apply Z.eqb_eq|]. wp_step. apply wp_ev_put.
  destruct (arena_put a i e (set_domain dom e)) as [Ha1 Hle1]; [done|done|done|exact (Ha i e Hi)|].
  set (a1 := <[i := _]> a) in *. assert (length a1 = length a) as Hl1 by apply length_insert.
  assert (S (undom a1) = undom a) as Hu1.
  { pose proof (count_if_insert (fun e => ev_domain e =? -1) a i e (set_domain dom e) Hi) as E. cbn in E.
    rewrite (proj2 (Z.eqb_eq _ _) Hd), (proj2 (Z.eqb_neq _ _) Hdom) in E. unfold undom, a1. lia. }
  apply wp_mono with (P := fun _ a' => grown a a' /\ (undom a' <= undom a1)%nat); [|intros [] a' [? ?]; split; [done|lia]].
  apply (wp_forM_inv _ _ (fun a' => grown a a' /\ (undom a' <= undom a1)%nat)); [done|].
  intros c a2 Hc ((Ha2 & Hle2 & Hl2) & Hu2). wp_step.
  assert (c < length a2)%nat as Hlt.
  { rewrite Hl2. pose proof (Ha i e Hi) as HF. rewrite list.Forall_forall in HF. by apply HF. }
  destruct (lookup_lt_is_Some_2 _ _ Hlt) as [x Hx]. eapply wp_ev_at; [done|].
  apply wp_when; intros Hb; [|done]. apply Z.eqb_eq in Hb.
  eapply wp_mono; [eapply (IH c a2 x); [lia|done..]|]. intros [] a3 ((Ha3 & Hle3 & Hl3) & Hu3).
  split; [split_and!; [done|by transitivity a2|congruence]|lia].
Qed.

Lemma addChild_ok a p c : arena_ok a -> ev_pending a p -> fresh a c -> wp (addChild p c) (fun _ => grown a) a.
Proof.
  intros Ha (pe & Hp & Hsp) (ce & Hc & Hsc). unfold addChild.
  wp_step. eapply wp_ev_at; [done|]. wp_step. wp_step; [by apply bool_decide_eq_true|].
  wp_step. eapply wp_ev_at; [done|]. wp_step. wp_step; [by apply bool_decide_eq_true|].
  wp_step. apply wp_ev_put.
  destruct (arena_put a p pe (set_children (ev_children pe ++ [c]) pe)) as [Ha1 Hle1]; [done|done|done| |].
  { cbn. apply Forall_app. split; [by eapply Ha|]. repeat constructor. by eapply lookup_lt_Some. }
  set (a1 := <[p := _]> a) in *. assert (length a1 = length a) as Hl1 by apply length_insert.
  destruct (Hle1 c ce Hc) as (ce1 & Hc1 & Hs1). wp_step. wp_step. wp_step.
  apply wp_mono with (P := fun _ => grown a1).
  - apply wp_when; intros Hb; [|done]. apply andb_true_iff in Hb as [Hb' Hb]. apply Z.eqb_eq in Hb.
    apply negb_true_iff, Z.eqb_neq in Hb'.
    eapply wp_mono; [eapply propagateDomain_ok; [exact Hb'|apply count_if_le|done|exact Hc1|]|by intros [] a' [? _]]. unfold a1 in Hc1. destruct (decide (c = p)) as [->|Hne].
    + rewrite list_lookup_insert_eq in Hc1 by (by eapply lookup_lt_Some). by simplify_eq.
    + rewrite list_lookup_insert_ne in Hc1 by done. by simplify_eq.
  - intros [] a2 (Ha2 & Hle2 & Hl2). destruct (Hle2 c ce1 Hc1) as (ce2 & Hc2 & Hs2).
    wp_step. eapply wp_ev_at; [done|]. apply wp_ev_put.
    destruct (arena_put a2 c ce2 (add_parent ce2)) as [Ha3 Hle3]; [done|done|done|exact (Ha2 c ce2 Hc2)|].
    split_and!; [done|by do 2 (etrans; [done|])|rewrite length_insert; congruence].
Qed.

(** ** The parent *)

(** A record of an access from cycle [c] to [resp]. *)
Definition tr_ok (a : Arena) (c resp : Z) (tr : TimingRecord) : Prop :=
  exists s e, tr_startEvent tr = Some s /\ tr_endEvent tr = Some e /\ fresh a s /\ fresh a e /\
    c <= tr_reqCycle tr /\ tr_respCycle tr <= resp.

Lemma tr_ok_mono a a' c resp resp' tr : arena_le a a' -> resp <= resp' -> tr_ok a c resp tr -> tr_ok a' c resp' tr.
Proof.
  intros Hle Hr (s & e & Hs & He & Fs & Fe & Hc & Hresp). exists s, e.
  split_and!; try done; try (by eapply fresh_mono). lia.
Qed.

Definition rec_idle (src : Z) (r : Recs) : Prop :=
  forall tr, rc_records r !! src = Some tr -> tr_isValid tr = false.

(** Only the record of [src] may change. *)
Definition recs_le (src : Z) (r r' : Recs) : Prop :=
  arena_le (rc_events r) (rc_events r') /\
  (forall s, s <> src -> rc_records r' !! s = rc_records r !! s) /\
  (is_Some (rc_records r' !! src) <-> is_Some (rc_records r !! src)).

#[export] Instance recs_le_preorder src : PreOrder (recs_le src).
Proof.
  split; [intros r; split_and!; done|]. intros r1 r2 r3 (H1 & H2 & H3) (K1 & K2 & K3). split_and!.
  - by etrans.
  - intros s Hs. by rewrite K2, H2.
  - by rewrite K3.
Qed.

(** What the prefetcher relies on of its parent, for the requests [pp_req]. *)
Class PfParent (D : Type) `{MemTop D} := {
  pp_ok : D -> Prop;
  pp_req : MemReq -> Prop;
  pp_recs_set : forall r d, top_recs (top_set_recs r d) = r;
  pp_ok_set : forall r d, pp_ok d -> pp_ok (top_set_recs r d);
  pp_access : forall d req, pp_ok d -> pp_req req -> arena_ok (rc_events (top_recs d)) ->
    rec_idle (srcId req) (top_recs d) ->
    wp (top_access 0 req)
      (fun '(st, resp) d' => pp_ok d' /\ cycle req <= resp /\ (is_flag req PREFETCH = true -> st = MESI.I) /\
         arena_ok (rc_events (top_recs d')) /\ recs_le (srcId req) (top_recs d) (top_recs d') /\
         forall tr, rc_records (top_recs d') !! srcId req = Some tr -> tr_isValid tr = true ->
           tr_ok (rc_events (top_recs d')) (cycle req) resp tr) d
}.

Section Events.
Context {D : Type} `{PfParent D}.
Implicit Types w : PfWorld D.

Definition recs w : Recs := top_recs (pw_mem w).
Definition evs w : Arena := rc_events (recs w).

Definition mem_ok w : Prop := pp_ok (pw_mem w) /\ arena_ok (evs w).

(** What a step of building events does. *)
Definition ev_step w w' : Prop :=
  mem_ok w' /\ pw_pf w' = pw_pf w /\ arena_le (evs w) (evs w') /\ rc_records (recs w') = rc_records (recs w).

Lemma ev_step_refl w : mem_ok w -> ev_step w w.
Proof. intros Hw. split_and!; done. Qed.
Lemma ev_step_trans w1 w2 w3 : ev_step w1 w2 -> ev_step w2 w3 -> ev_step w1 w3.
Proof. intros (H1 & H2 & H3 & H4) (K1 & K2 & K3 & K4). split_and!; [done|congruence|by etrans|congruence]. Qed.
Lemma ev_step_arena w w' : ev_step w w' -> arena_le (evs w) (evs w').
Proof. intros (_ & _ & Hr & _). exact Hr. Qed.

Lemma set_events_step w a :
  mem_ok w -> arena_ok a -> arena_le (evs w) a ->
  ev_step w (mkPW (pw_pf w) (top_set_recs (mkRecs a (rc_records (recs w))) (pw_mem w))).
Proof.
  intros (Hp & Ha) Ha' Hle. unfold ev_step, mem_ok, evs, recs. cbn [pw_pf pw_mem]. rewrite pp_recs_set. cbn.
  split_and!; try done. by apply pp_ok_set.
Qed.

Lemma pf_new_ok e w : mem_ok w -> ev_children e = [] -> ev_state e = EV_NONE ->
  wp (pf_new e) (fun i w' => ev_step w w' /\ fresh (evs w') i /\ i = length (evs w)) w.
Proof.
  intros Hw Hc Hs. destruct (arena_app (evs w) e) as (Ha & Hle & Hf); [apply Hw|done|done|].
  unfold pf_new, pf_recs, pf_set_recs. wp_step. wp_step. wp_step. wp_step. wp_step.
  split; [by apply set_events_step|]. split; [|done]. unfold evs, recs. cbn. by rewrite pp_recs_set.
Qed.

Lemma new_delay_ok d c w : mem_ok w -> wp (new_delay d c) (fun i w' => ev_step w w' /\ fresh (evs w') i) w.
Proof. intros Hw. eapply wp_mono; [by apply pf_new_ok|]. by intros i w' (? & ? & _). Qed.

Lemma pf_addChild_ok p c w : mem_ok w -> ev_pending (evs w) p -> fresh (evs w) c ->
  wp (pf_addChild p c) (fun _ w' => ev_step w w') w.
Proof.
  intros Hw Hp Hc. unfold pf_addChild, pf_recs, pf_set_recs. wp_step. wp_step. wp_step.
  destruct (wp_ok _ _ _ (addChild_ok (evs w) p c (proj2 Hw) Hp Hc)) as ([] & a & E & Ha & Hle & _).
  eapply wp_lift; [exact E|]. cbv iota. wp_step. by apply set_events_step.
Qed.

Lemma event_of_ok x o i Q w : o = Some i -> Q i w -> wp (event_of x o) Q w.
Proof. by intros ->. Qed.

(** [acc], the record of the demand access of [src], so far. *)
Definition acc_ok (src : Z) w (c resp : Z) (acc : option TimingRecord) : Prop :=
  match acc with Some tr => tr_ok (evs w) c resp tr /\ is_Some (rc_records (recs w) !! src) | None => True end.

Lemma acc_ok_step src w w' c resp resp' acc : recs_le src (recs w) (recs w') -> resp <= resp' ->
  acc_ok src w c resp acc -> acc_ok src w' c resp' acc.
Proof.
  intros (Hs & _ & Hk) Hr. destruct acc as [tr|]; [|done]. intros [Ht Hi].
  split; [by eapply tr_ok_mono|by apply Hk].
Qed.

Lemma initAcc_ok src la ty c resp acc w : mem_ok w -> acc_ok src w c resp acc ->
  wp (initAcc la ty c resp acc)
    (fun a w' => ev_step w w' /\ tr_ok (evs w') c resp a /\ tr_reqCycle a = c) w.
Proof.
  intros Hw Hacc. unfold initAcc. destruct acc as [a|].
  - destruct Hacc as [(s & e & Hs & He & Fs & Fe & Hc & Hr) _]. destruct (Z.ltb_spec c (tr_reqCycle a)) as [Hlt|Hge].
    + wp_step. eapply wp_mono; [by apply new_delay_ok|]. intros d w1 [S1 F1]. wp_step. eapply event_of_ok; [done|].
      pose proof (ev_step_arena _ _ S1) as L1.
      wp_step. eapply wp_mono; [apply pf_addChild_ok; [apply S1|by apply fresh_pending|by eapply fresh_mono]|].
      intros [] w2 S2. pose proof (ev_step_arena _ _ S2) as L2. wp_step. split; [by eapply ev_step_trans|]. split; [|done].
      exists d, e. cbn. split_and!; try lia; eauto with pfev.
    + wp_step. split; [by apply ev_step_refl|]. split; [|lia]. exists s, e. split_and!; done.
  - wp_step. eapply wp_mono; [by apply new_delay_ok|]. intros s w1 [S1 F1].
    wp_step. eapply wp_mono; [apply new_delay_ok, S1|]. intros e w2 [S2 F2].
    pose proof (ev_step_arena _ _ S2) as L2.
    wp_step. eapply wp_mono; [apply pf_addChild_ok; [apply S2|apply fresh_pending; by eapply fresh_mono|done]|].
    intros [] w3 S3. pose proof (ev_step_arena _ _ S3) as L3. wp_step.
    split; [do 2 (eapply ev_step_trans; [done|]); done|]. split; [|done].
    exists s, e. cbn. split_and!; try lia; eauto with pfev.
Qed.

Lemma join_prefetch_ok src la ty c resp acc st w : mem_ok w -> acc_ok src w c resp acc -> fresh (evs w) st ->
  wp (join_prefetch la ty c resp acc st) (fun a w' => ev_step w w' /\ tr_ok (evs w') c resp a) w.
Proof.
  intros Hw Hacc Hst. unfold join_prefetch. wp_step. eapply wp_mono; [by apply (initAcc_ok src)|].
  intros a w6 (S6 & Ta & Ea). wp_step. wp_step; [by apply Z.eqb_eq|].
  wp_step. eapply wp_mono; [apply new_delay_ok, S6|]. intros sv w7 [S7 F7]. pose proof (ev_step_arena _ _ S6) as L6.
  pose proof (ev_step_arena _ _ S7) as L7.
  destruct Ta as (as_ & ae & Es & Ee & Fs & Fe & Hca & Hra).
  wp_step. eapply event_of_ok; [done|].
  wp_step. eapply wp_mono; [apply pf_addChild_ok; [apply S7|eauto with pfev..]|]. intros [] w8 S8.
  pose proof (ev_step_arena _ _ S8) as L8.
  wp_step. eapply wp_mono; [apply pf_addChild_ok; [apply S8|eauto 8 with pfev..]|]. intros [] w9 S9.
  pose proof (ev_step_arena _ _ S9) as L9. wp_step. split.
  - exact (ev_step_trans _ _ _ S6 (ev_step_trans _ _ _ S7 (ev_step_trans _ _ _ S8 S9))).
  - exists sv, ae. cbn. split_and!; try done; try lia; eauto 8 with pfev.
Qed.

Lemma link_response_ok src la ty c resp acc ev w : mem_ok w -> acc_ok src w c resp acc -> ev_pending (evs w) ev ->
  wp (link_response la ty c resp acc ev) (fun a w' => ev_step w w' /\ tr_ok (evs w') c resp a) w.
Proof.
  intros Hw Hacc Pev. unfold link_response. wp_step. eapply wp_mono; [by apply (initAcc_ok src)|].
  intros a w4 (S4 & (s & en & Es & Een & Fs & Fe & Hca & Hra) & Ea).
  wp_step. wp_step; [by apply Z.leb_le|]. wp_step. eapply event_of_ok; [done|].
  wp_step. eapply wp_mono; [apply new_delay_ok, S4|]. intros d1 w5 [S5 F5].
  wp_step. eapply wp_mono; [apply new_delay_ok, S5|]. intros d2 w6 [S6 F6].
  pose proof (ev_step_arena _ _ S4) as L4. pose proof (ev_step_arena _ _ S5) as L5. pose proof (ev_step_arena _ _ S6) as L6.
  wp_step. eapply wp_mono; [apply pf_addChild_ok; [apply S6|eauto with pfev..]|]. intros [] w7 S7. pose proof (ev_step_arena _ _ S7) as L7.
  wp_step. eapply wp_mono; [apply pf_addChild_ok; [apply S7|eauto 8 with pfev..]|]. intros [] w8 S8. pose proof (ev_step_arena _ _ S8) as L8.
  wp_step. eapply wp_mono; [apply pf_addChild_ok; [apply S8|eauto 10 with pfev..]|]. intros [] w9 S9. pose proof (ev_step_arena _ _ S9) as L9.
  wp_step. split.
  - exact (ev_step_trans _ _ _ S4 (ev_step_trans _ _ _ S5 (ev_step_trans _ _ _ S6 (ev_step_trans _ _ _ S7
             (ev_step_trans _ _ _ S8 S9))))).
  - exists s, d2. cbn. split_and!; try done; try lia; eauto 10 with pfev.
Qed.
End Events.

(** ** The invariant of the prefetcher *)

Record pe_ok (e : PfEntry) : Prop := {
  eo_times : length (pe_times e) = 64%nat;
  eo_valid : length (pe_valid e) = 64%nat;
  eo_events : length (pe_respEvents e) = 64%nat;
  eo_last : 0 <= pe_lastPos e < 64;
  eo_lastLast : 0 <= pe_lastLastPos e < 64;
  eo_lastPrefetch : 0 <= pe_lastPrefetchPos e < 64;
  eo_stride : -63 <= pe_stride e <= 63;
  eo_conf : 0 <= pe_conf e <= 3
}.

(** The response events of an entry are its own, and have not run. *)
Definition responses_ok (a : Arena) (owner : gmap nat (nat * nat)) (i : nat) (e : PfEntry) : Prop :=
  forall q ev, pe_respEvents e !! q = Some (Some ev) -> owner !! ev = Some (i, q) /\ ev_pending a ev.

Record pf_ok (a : Arena) (p : StreamPrefetcher) : Prop := {
  pk_tag : length (pf_tag p) = pf_numBuffers p;
  pk_array : length (pf_array p) = pf_numBuffers p;
  pk_16 : (16 <= pf_numBuffers p)%nat;
  pk_part : pf_partitionBuffers p = false;
  pk_high : forall i t, pf_tag p !! i = Some t -> (16 <= i)%nat -> t = 0;
  pk_entry : forall i e, pf_array p !! i = Some e -> pe_ok e;
  pk_stride : forall i e t, pf_array p !! i = Some e -> pf_tag p !! i = Some t -> t <> 0 -> pe_stride e <> 0;
  pk_events : forall i e, pf_array p !! i = Some e -> responses_ok a (pf_owner p) i e;
  pk_owner : forall ev i q, pf_owner p !! ev = Some (i, q) -> (i < 16)%nat /\ (q < 64)%nat /\ is_Some (a !! ev);
  pk_hits : in_u64 (pf_prof p profHits)
}.

Lemma pf_ok_mono a a' p : arena_le a a' -> pf_ok a p -> pf_ok a' p.
Proof.
  intros Hle [H1 H2 H3 H4 H5 H6 H7 H8 H9 H10]. constructor; try done.
  - intros i e Hi q ev Hq. destruct (H8 i e Hi q ev Hq). eauto with pfev.
  - intros ev i q Hev. destruct (H9 ev i q Hev) as (? & ? & x & Hx). split_and!; [done|done|].
    destruct (Hle ev x Hx) as (x' & ? & _). eauto.
Qed.

Lemma pf_ok_entry a p i e e' :
  pf_ok a p -> pf_array p !! i = Some e -> pe_ok e' -> pe_stride e' = pe_stride e \/ pe_stride e' <> 0 ->
  responses_ok a (pf_owner p) i e' -> pf_ok a (pf_set_array (<[i := e']> (pf_array p)) p).
Proof.
  intros [H1 H2 H3 H4 H5 H6 H7 H8 H9 H10] Hi He' Hs Hr.
  assert (i < length (pf_array p))%nat as Hlt by (by eapply lookup_lt_Some).
  assert (forall j x, <[i := e']> (pf_array p) !! j = Some x -> j = i /\ x = e' \/ pf_array p !! j = Some x) as Hlk.
  { intros j x Hx. apply list_lookup_insert_Some in Hx as [(-> & <- & _)|(_ & Hx)]; [by left|by right]. }
  constructor; cbn; try done.
  - by rewrite length_insert.
  - intros j x Hx. destruct (Hlk j x Hx) as [[-> ->]|Hx']; eauto.
  - intros j x t Hx Ht Hne. destruct (Hlk j x Hx) as [[-> ->]|Hx']; [|eauto].
    destruct Hs as [->|Hs]; [|done]. by apply (H7 i e t).
  - intros j x Hx. destruct (Hlk j x Hx) as [[-> ->]|Hx']; eauto.
Qed.

(** A new event belongs to the entry [i]. *)
Lemma pf_ok_own a p ev i q : pf_ok a p -> pf_owner p !! ev = None -> is_Some (a !! ev) -> (i < 16)%nat -> (q < 64)%nat ->
  pf_ok a (pf_own ev (i, q) p).
Proof.
  intros [H1 H2 H3 H4 H5 H6 H7 H8 H9 H10] Hn Ha Hi Hq. constructor; try done; cbn.
  - intros j e Hj q' ev' Hq'. destruct (H8 j e Hj q' ev' Hq') as [Ho Hp]. split; [|done].
    rewrite lookup_insert_ne; [done|]. intros <-. congruence.
  - intros ev' j q' Hev. destruct (decide (ev' = ev)) as [->|Hne].
    + rewrite lookup_insert_eq in Hev. by simplify_eq.
    + rewrite lookup_insert_ne in Hev by done. eauto.
Qed.

Lemma responses_ok_own a owner ev x i e : owner !! ev = None -> responses_ok a owner i e ->
  responses_ok a (<[ev := x]> owner) i e.
Proof.
  intros Hn Hr q ev' Hq. destruct (Hr q ev' Hq) as [Ho Hp]. split; [|done].
  rewrite lookup_insert_ne; [done|]. intros <-. congruence.
Qed.

(** Fields that a step leaves alone. *)
Definition same_frame (p p' : StreamPrefetcher) : Prop :=
  pf_tag p' = pf_tag p /\ pf_childId p' = pf_childId p /\ pf_numBuffers p' = pf_numBuffers p.

Section Steps.
Context {D : Type} `{PfParent D} (src : Z).
Implicit Types w : PfWorld D.

Definition INV w : Prop := mem_ok w /\ pf_ok (evs w) (pw_pf w) /\ rec_idle src (recs w).

(** A step that changes the entry [idx] from [e] to [e'] and counts [hits]. *)
Definition entry_upd (idx : nat) (e e' : PfEntry) (hits : Z) w w' : Prop :=
  INV w' /\ recs_le src (recs w) (recs w') /\ same_frame (pw_pf w) (pw_pf w') /\
  pf_array (pw_pf w) !! idx = Some e /\
  pf_array (pw_pf w') = <[idx := e']> (pf_array (pw_pf w)) /\
  pf_prof (pw_pf w') profHits = u64 (pf_prof (pw_pf w) profHits + hits).

Lemma upd_lookup idx e e' h w w' : entry_upd idx e e' h w w' -> pf_array (pw_pf w') !! idx = Some e'.
Proof.
  intros (_ & _ & _ & He & -> & _). apply list_lookup_insert_eq. by eapply lookup_lt_Some.
Qed.

Lemma upd_trans idx e1 e2 e3 h h' w1 w2 w3 :
  entry_upd idx e1 e2 h w1 w2 -> entry_upd idx e2 e3 h' w2 w3 -> entry_upd idx e1 e3 (h + h') w1 w3.
Proof.
  intros (H1 & H2 & (F1 & F2 & F3) & H4 & H5 & H6) (K1 & K2 & (G1 & G2 & G3) & K4 & K5 & K6). split_and!; try done.
  - by etrans.
  - split_and!; congruence.
  - by rewrite K5, H5, list_insert_insert_eq.
  - rewrite K6, H6. unfold u64. rewrite Zplus_mod_idemp_l. f_equal. lia.
Qed.

(** Building events leaves the entries alone. *)
Lemma step_inv w w' : INV w -> ev_step w w' -> INV w'.
Proof.
  intros (Hm & Hp & Hi) (Hm' & Ep & Hle & Er). split_and!; [done| |].
  - rewrite Ep. by eapply pf_ok_mono.
  - unfold rec_idle. by rewrite Er.
Qed.

Lemma get_entry_ok idx e w Q : pf_array (pw_pf w) !! idx = Some e -> Q e w -> wp (pf_get_entry idx) Q w.
Proof. intros He HQ. unfold pf_get_entry. wp_step. wp_step. eapply wp_lift; [by apply at_ok|done]. Qed.

Lemma upd_entry_eq idx f e w : pf_array (pw_pf w) !! idx = Some e ->
  wp (upd_entry idx f)
    (fun _ w' => w' = mkPW (pf_set_array (<[idx := f e]> (pf_array (pw_pf w))) (pw_pf w)) (pw_mem w)) w.
Proof.
  intros He. unfold upd_entry, on_pf. wp_step. wp_step. wp_step. eapply wp_lift; [by apply at_ok|].
  wp_step. eapply wp_lift; [apply set_at_ok; by eapply lookup_lt_Some|]. by wp_step.
Qed.

Lemma set_entry_inv idx e e' w :
  INV w -> pf_array (pw_pf w) !! idx = Some e -> pe_ok e' -> pe_stride e' = pe_stride e \/ pe_stride e' <> 0 ->
  responses_ok (evs w) (pf_owner (pw_pf w)) idx e' ->
  INV (mkPW (pf_set_array (<[idx := e']> (pf_array (pw_pf w))) (pw_pf w)) (pw_mem w)).
Proof. intros (Hm & Hp & Hi) He Hok Hs Hr. split_and!; [done| |done]. by eapply pf_ok_entry. Qed.

Lemma upd_entry_upd idx f e w :
  INV w ->
  pf_array (pw_pf w) !! idx = Some e -> pe_ok (f e) -> pe_stride (f e) = pe_stride e \/ pe_stride (f e) <> 0 ->
  responses_ok (evs w) (pf_owner (pw_pf w)) idx (f e) ->
  wp (upd_entry idx f) (fun _ w' => entry_upd idx e (f e) 0 w w') w.
Proof.
  intros Hw He Hok Hs Hr. eapply wp_mono; [by apply upd_entry_eq|]. intros [] w' ->.
  split_and!; try done; [by eapply set_entry_inv|]. cbn. rewrite Z.add_0_r, u64_id; [done|].
  apply (pk_hits _ _ (proj1 (proj2 Hw))).
Qed.

Lemma upd_refl idx e w : INV w -> pf_array (pw_pf w) !! idx = Some e -> entry_upd idx e e 0 w w.
Proof.
  intros Hw He. split_and!; try done; [by rewrite list_insert_id|].
  rewrite Z.add_0_r, u64_id; [done|]. apply (pk_hits _ _ (proj1 (proj2 Hw))).
Qed.

Lemma prof_upd idx e c w : INV w -> pf_array (pw_pf w) !! idx = Some e ->
  wp (prof c) (fun _ w' => entry_upd idx e e (if decide (c = profHits) then 1 else 0) w w') w.
Proof.
  intros Hw He. unfold prof, on_pf. wp_step. destruct Hw as (Hm & Hp & Hi). split_and!; try done; cbn.
  - split_and!; try done. destruct Hp as [H1 H2 H3 H4 H5 H6 H7 H8 H9 H10]. constructor; try done.
    cbn. destruct (decide _); [apply u64_range|done].
  - by rewrite list_insert_id.
  - destruct (decide (c = profHits)) as [->|Hne]; [done|]. rewrite decide_False by congruence.
    rewrite Z.add_0_r, u64_id; [done|]. apply (pk_hits _ _ Hp).
Qed.

(** The closed record of [src] is taken out of its recorder. *)
Lemma on_evRec_ok {A} (m : M TimingRecord A) Q w tr : rc_records (recs w) !! src = Some tr ->
  wp m (fun a tr' => Q a (mkPW (pw_pf w) (top_set_recs (mkRecs (evs w) (<[src := tr']> (rc_records (recs w)))) (pw_mem w)))) tr ->
  wp (on_evRec src m) Q w.
Proof.
  intros Hr Hm. unfold on_evRec, pf_recs, pf_set_recs. wp_step. wp_step. unfold recs in Hr. rewrite Hr.
  destruct (wp_ok _ _ _ Hm) as (a & tr' & E & HQ). wp_step. eapply wp_lift; [exact E|]. cbv iota. wp_step. wp_step. by wp_step.
Qed.

(** The state after an access of the parent, with the record that it left, until
    that record is taken. *)
Definition accessed (c resp : Z) w w' : Prop :=
  mem_ok w' /\ pw_pf w' = pw_pf w /\ recs_le src (recs w) (recs w') /\
  forall tr, rc_records (recs w') !! src = Some tr -> tr_isValid tr = true -> tr_ok (evs w') c resp tr.

Lemma pf_parent_access_ok req w : INV w -> srcId req = src -> pp_req req ->
  wp (pf_parent_access req)
    (fun '(st, resp) w' => cycle req <= resp /\ (is_flag req PREFETCH = true -> st = MESI.I) /\
       accessed (cycle req) resp w w') w.
Proof.
  intros ((Hp & Ha) & _ & Hi) Hsrc Hreq. unfold pf_parent_access. wp_step. eapply wp_mono.
  { apply (pp_access (pw_mem w) req); [done|done|done|by rewrite Hsrc]. }
  intros [st resp] d' (Hp' & Hc & Hst & Ha' & Hle & Htr). rewrite Hsrc in *. split_and!; try done.
Qed.

Lemma popRecord_ok w tr : mem_ok w -> rc_records (recs w) !! src = Some tr ->
  wp (on_evRec src popRecord)
    (fun a w' => a = tr /\ mem_ok w' /\ pw_pf w' = pw_pf w /\ evs w' = evs w /\ rec_idle src (recs w') /\
       recs_le src (recs w) (recs w')) w.
Proof.
  intros (Hp & Ha) Hr. eapply on_evRec_ok; [done|]. unfold popRecord. wp_step. wp_step. wp_step. wp_step. wp_step.
  unfold mem_ok, evs, recs, rec_idle, recs_le. cbn [pw_pf pw_mem]. rewrite pp_recs_set. cbn [rc_events rc_records].
  split_and!; try done.
  - by apply pp_ok_set.
  - intros tr'. rewrite lookup_insert_eq. intros [= <-]. done.
  - intros s Hs. by rewrite lookup_insert_ne.
  - rewrite lookup_insert_eq. split; by eauto.
Qed.

Lemma hasRecord_ok w tr Q : mem_ok w -> rc_records (recs w) !! src = Some tr ->
  (forall w', mem_ok w' -> pw_pf w' = pw_pf w -> evs w' = evs w -> rc_records (recs w') = rc_records (recs w) ->
     Q (tr_isValid tr) w') -> wp (on_evRec src hasRecord) Q w.
Proof.
  intros (Hp & Ha) Hr HQ. eapply on_evRec_ok; [done|]. unfold hasRecord. wp_step.
  rewrite insert_id by done. apply HQ; unfold mem_ok, evs, recs; cbn; rewrite ?pp_recs_set; try done.
  split; [by apply pp_ok_set|done].
Qed.

Lemma idle_recs_le w w' : recs_le src (recs w) (recs w') -> rc_records (recs w) !! src = None -> rec_idle src (recs w').
Proof.
  intros (_ & _ & Hs) Hn tr Htr. destruct (proj1 Hs) as [x Hx]; [by eexists|]. congruence.
Qed.

Lemma step_recs_le w w' : ev_step w w' -> recs_le src (recs w) (recs w').
Proof. intros (_ & _ & Hle & Er). unfold recs_le. rewrite Er. done. Qed.

Lemma connect_prefetch_ok c resp en w tr :
  mem_ok w -> rc_records (recs w) !! src = Some tr -> (tr_isValid tr = true -> tr_ok (evs w) c resp tr) ->
  fresh (evs w) en ->
  wp (connect_prefetch src c resp en)
    (fun st w' => mem_ok w' /\ pw_pf w' = pw_pf w /\ recs_le src (recs w) (recs w') /\ rec_idle src (recs w') /\
       fresh (evs w') st) w.
Proof.
  intros Hm Hr Htr Hen. unfold connect_prefetch. wp_step. eapply hasRecord_ok; [done|done|].
  intros w0 Hm0 Ep0 Ee0 Er0.
  assert (recs_le src (recs w) (recs w0)) as Hle0.
  { unfold evs in Ee0. unfold recs_le. rewrite Ee0, Er0. done. }
  rewrite <- Ep0. rewrite <- Ee0 in Htr, Hen. destruct (tr_isValid tr) eqn:Ev.
  - destruct (Htr eq_refl) as (s & e & Hs & He & Fs & Fe & Hc & Hrs).
    wp_step. eapply wp_mono; [apply (popRecord_ok w0 tr); [done|by rewrite Er0]|].
    intros a w1 (-> & Hm1 & Ep1 & Ee1 & Hi1 & Hle1). rewrite <- Ee1 in *.
    wp_step. wp_step; [by apply Z.leb_le|]. wp_step. wp_step; [by apply Z.leb_le|].
    wp_step. eapply wp_mono; [by apply new_delay_ok|]. intros st w2 [S2 F2]. pose proof (ev_step_arena _ _ S2) as L2.
    wp_step. eapply event_of_ok; [done|].
    wp_step. eapply wp_mono; [apply pf_addChild_ok; [apply S2|eauto with pfev..]|]. intros [] w3 S3.
    pose proof (ev_step_arena _ _ S3) as L3.
    wp_step. eapply wp_mono; [apply new_delay_ok, S3|]. intros dn w4 [S4 F4]. pose proof (ev_step_arena _ _ S4) as L4.
    wp_step. eapply event_of_ok; [done|].
    wp_step. eapply wp_mono; [apply pf_addChild_ok; [apply S4|eauto with pfev..]|]. intros [] w5 S5.
    pose proof (ev_step_arena _ _ S5) as L5.
    wp_step. eapply wp_mono; [apply pf_addChild_ok; [apply S5|eauto 8 with pfev..]|]. intros [] w6 S6.
    pose proof (ev_step_arena _ _ S6) as L6. wp_step.
    pose proof (ev_step_trans _ _ _ S2 (ev_step_trans _ _ _ S3 (ev_step_trans _ _ _ S4 (ev_step_trans _ _ _ S5 S6)))) as S.
    split_and!; [apply S|destruct S as (_ & -> & _); done| | |eauto 8 with pfev].
    + etrans; [done|]. etrans; [done|]. by apply step_recs_le.
    + destruct S as (_ & _ & _ & Er). unfold rec_idle. by rewrite Er.
  - wp_step. eapply wp_mono; [by apply new_delay_ok|]. intros st w2 [S2 F2]. pose proof (ev_step_arena _ _ S2) as L2.
    wp_step. eapply wp_mono; [apply pf_addChild_ok; [apply S2|eauto with pfev..]|]. intros [] w3 S3.
    pose proof (ev_step_arena _ _ S3) as L3. wp_step. pose proof (ev_step_trans _ _ _ S2 S3) as S.
    split_and!; [apply S|destruct S as (_ & -> & _); done| | |eauto with pfev].
    + etrans; [done|]. by apply step_recs_le.
    + destruct S as (_ & _ & _ & Er). unfold rec_idle. rewrite Er, Er0, Hr. by intros ? [= <-].
Qed.

(** What the predictor reads is the same. *)
Definition same_core (e e' : PfEntry) : Prop :=
  pe_stride e' = pe_stride e /\ pe_conf e' = pe_conf e /\ pe_lastPos e' = pe_lastPos e /\
  pe_lastLastPos e' = pe_lastLastPos e.

(** A prefetch into position [q]. *)
Definition fetched (q : Z) (e e' : PfEntry) : Prop :=
  pe_valid e' = <[Z.to_nat q := true]> (pe_valid e) /\ same_core e e' /\
  pe_lastPrefetchPos e' = pe_lastPrefetchPos e.

(** The bits and times that a prefetch sets. *)
Lemma fetch_entry a p idx e q times :
  pf_ok a p -> pf_array p !! idx = Some e -> length times = 64%nat ->
  let e' := pe_set_fetch (<[q := true]> (pe_valid e)) times e in
  pf_ok a (pf_set_array (<[idx := e']> (pf_array p)) p) /\ pe_ok e'.
Proof.
  intros Hp He Ht e'. assert (pe_ok e') as Hok.
  { destruct (pk_entry _ _ Hp _ _ He). constructor; cbn; try done. by rewrite length_insert. }
  split; [|done]. eapply pf_ok_entry; [done|done|done|by left|]. exact (pk_events _ _ Hp _ _ He).
Qed.

Lemma set_event_inv w idx e q ev :
  INV w -> pf_array (pw_pf w) !! idx = Some e -> pf_owner (pw_pf w) !! ev = Some (idx, q) -> ev_pending (evs w) ev ->
  INV (mkPW (pf_set_array (<[idx := pe_set_events (<[q := Some ev]> (pe_respEvents e)) e]> (pf_array (pw_pf w))) (pw_pf w))
         (pw_mem w)).
Proof.
  intros Hw He Ho Hp. pose proof Hw as (_ & Hpf & _). eapply set_entry_inv; [done|done| |by left|].
  - destruct (pk_entry _ _ Hpf _ _ He). constructor; cbn; try done. by rewrite length_insert.
  - intros q' ev' Hq'. cbn in Hq'. apply list_lookup_insert_Some in Hq' as [(-> & [= ->] & _)|(_ & Hq')]; [done|].
    by eapply (pk_events _ _ Hpf).
Qed.

Lemma issuePrefetch_ok req idx e pos c resp q acc w :
  INV w -> pf_array (pw_pf w) !! idx = Some e -> (idx < 16)%nat -> 0 <= q < 64 -> srcId req = src ->
  acc_ok src w c resp acc ->
  pp_req (mkMemReq (u64 (lineAddr req + q - pos)) GETS (childId req) MESI.I c MESI.I src PREFETCH) ->
  wp (issuePrefetch req idx pos c resp q acc)
    (fun acc' w' => acc_ok src w' c resp acc' /\ exists e', entry_upd idx e e' 0 w w' /\ fetched q e e') w.
Proof.
  intros Hw He Hidx Hq Hsrc Hacc Hreq. unfold issuePrefetch. rewrite Hsrc. cbv zeta.
  pose proof Hw as (Hm & Hpf & Hi). pose proof (pk_entry _ _ Hpf _ _ He) as Heo.
  wp_step. eapply wp_mono; [by apply pf_parent_access_ok|]. cbn [cycle]. intros [st pfResp] w1 (Hpr & Hst & Hm1 & Ep1 & Hle1 & Htr1).
  rewrite Hst by done. wp_step. wp_step; [done|].
  wp_step. eapply (get_entry_ok _ e); [by rewrite Ep1|].
  wp_step. eapply wp_lift; [apply set_at_ok; rewrite (eo_valid _ Heo); lia|].
  wp_step. eapply wp_lift; [apply set_at_ok; rewrite (eo_times _ Heo); lia|].
  wp_step. eapply wp_mono; [apply (upd_entry_eq _ _ e); by rewrite Ep1|]. intros [] w2 ->. rewrite Ep1.
  set (e2 := pe_set_fetch _ _ e). set (p2 := pf_set_array _ _). set (w2 := mkPW p2 (pw_mem w1)).
  destruct (fetch_entry (evs w1) (pw_pf w) idx e (Z.to_nat q) (<[Z.to_nat q := (u32 c, pfResp)]> (pe_times e)))
    as [Hpf2 Heo2]; [eapply pf_ok_mono; [apply Hle1|done]|done|by rewrite length_insert, (eo_times _ Heo)|].
  fold e2 in Hpf2, Heo2. fold p2 in Hpf2.
  assert (mem_ok w2) as Hm2 by exact Hm1.
  assert (pf_array p2 !! idx = Some e2) as He2 by (apply list_lookup_insert_eq; by eapply lookup_lt_Some).
  assert (forall w', INV w' -> recs_le src (recs w) (recs w') -> pf_tag (pw_pf w') = pf_tag (pw_pf w) ->
            pf_childId (pw_pf w') = pf_childId (pw_pf w) -> pf_numBuffers (pw_pf w') = pf_numBuffers (pw_pf w) ->
            pf_prof (pw_pf w') = pf_prof (pw_pf w) -> forall e', pf_array (pw_pf w') = <[idx := e']> (pf_array (pw_pf w)) ->
            entry_upd idx e e' 0 w w') as Hupd.
  { intros w' Hw' Hle' T1 T2 T3 T4 e' Ha. split_and!; try done.
    rewrite T4, Z.add_0_r, u64_id; [done|]. apply (pk_hits _ _ Hpf). }
  wp_step. unfold has_evRec, pf_recs. wp_step. wp_step. wp_step. fold (recs w2).
  destruct (rc_records (recs w2) !! src) as [tr|] eqn:Er; cbn [is_Some].
  - rewrite bool_decide_eq_true_2 by eauto. cbn [negb]. wp_step. eapply wp_mono; [by apply pf_new_ok|].
    intros ev w3 (S3 & F3 & Eev). pose proof (ev_step_arena _ _ S3) as L3.
    wp_step. unfold on_pf. wp_step. set (w4 := mkPW _ (pw_mem w3)).
    assert (pf_owner p2 !! ev = None) as Hnew.
    { destruct (pf_owner p2 !! ev) as [[i' q']|] eqn:Eo; [|done].
      destruct (pk_owner _ _ Hpf2 _ _ _ Eo) as (_ & _ & x & Hx). apply lookup_lt_Some in Hx.
      unfold evs, recs in Eev. unfold evs, recs in Hx. cbn in Eev. lia. }
    assert (pf_ok (evs w4) (pw_pf w4)) as Hpf4.
    { cbn. rewrite (proj1 (proj2 S3)). apply pf_ok_own; [by eapply pf_ok_mono|done| |done|lia].
      destruct F3 as (x & Hx & _). by eexists. }
    assert (rc_records (recs w4) !! src = Some tr) as Er4.
    { destruct S3 as (_ & _ & _ & E). unfold recs in E. unfold recs. cbn. by rewrite E. }
    wp_step. eapply wp_mono.
    { apply (connect_prefetch_ok c pfResp ev w4 tr); [exact (proj1 S3)|done| |exact F3].
      intros Hv. eapply tr_ok_mono; [exact L3|reflexivity|]. by apply Htr1. }
    intros st5 w5 (Hm5 & Ep5 & Hle5 & Hi5 & F5).
    assert (INV w5) as Hw5.
    { split_and!; [done| |done]. rewrite Ep5. eapply pf_ok_mono; [apply Hle5|done]. }
    assert (recs_le src (recs w) (recs w5)) as Hle05.
    { etrans; [exact Hle1|]. etrans; [|exact Hle5]. exact (step_recs_le w2 w3 S3). }
    wp_step. eapply wp_mono; [apply (join_prefetch_ok src); [done|eapply acc_ok_step; [apply Hle05|reflexivity|done]|done]|].
    intros a w9 (S & Ta).
    assert (INV w9) as Hw9 by (by eapply step_inv).
    assert (pw_pf w9 = pf_own ev (idx, Z.to_nat q) p2) as Ep9.
    { destruct S as (_ & -> & _). rewrite Ep5. cbn. by rewrite (proj1 (proj2 S3)). }
    assert (pf_array (pw_pf w9) !! idx = Some e2) as He9 by (rewrite Ep9; exact He2).
    wp_step. eapply (get_entry_ok _ e2); [done|].
    wp_step. eapply wp_lift; [apply set_at_ok; rewrite (eo_events _ Heo2); lia|].
    wp_step. eapply wp_mono; [by apply (upd_entry_eq _ _ e2)|]. intros [] w10 ->. wp_step. split.
    + split; [exact Ta|]. cbn. destruct S as (_ & _ & _ & Er9). unfold recs at 1. cbn. fold (recs w9). rewrite Er9.
      apply (proj2 (proj2 Hle5)). by eexists.
    + exists (pe_set_events (<[Z.to_nat q := Some ev]> (pe_respEvents e2)) e2). split; [|by split_and!].
      apply Hupd; try (cbn; by rewrite Ep9).
      * apply set_event_inv; [done|done|rewrite Ep9; apply lookup_insert_eq|].
        eapply pending_mono; [|apply fresh_pending; exact F3]. etrans; [apply Hle5|]. by apply ev_step_arena.
      * etrans; [exact Hle05|]. exact (step_recs_le w5 w9 S).
      * cbn. rewrite Ep9. cbn. by rewrite list_insert_insert_eq.
  - rewrite bool_decide_eq_false_2 by (by intros [? ?]). cbn [negb]. wp_step. split.
    + eapply acc_ok_step; [apply Hle1|reflexivity|done].
    + exists e2. split; [|by split_and!]. apply Hupd; try done. split_and!; [done|done|].
      intros tr Htr. unfold recs in Er. cbn in Er. unfold recs in Htr. cbn in Htr. congruence.
Qed.
End Steps.
