(* ===== verification/PrefetchSpec.v ===== *)
(** * What the prefetcher does

    The parts of an access, one after the other, and a whole one: no access fails,
    prefetches stay in the page of their load, and what becomes of the entry. *)

From stdpp Require Import base list gmap strings.
From Stdlib Require Import ZArith Lia.
From S2P Require Import Prelude Numeric MemHierarchy DdrBound Coherence Prefetch PrefetchInv.
Local Open Scope Z_scope.

Section Spec.
Context {D : Type} `{PfParent D} (src : Z).
Implicit Types w : PfWorld D.
Local Abbreviation INV := (INV (D := D) src).
Local Abbreviation entry_upd := (entry_upd (D := D) src).

(** ** The prefetch buffer *)

(** Whether the line at [pos] is prefetched. *)
Definition is_valid (e : PfEntry) (pos : Z) : bool := default false (pe_valid e !! Z.to_nat pos).

Lemma valid_lookup e pos : pe_ok e -> 0 <= pos < 64 -> pe_valid e !! Z.to_nat pos = Some (is_valid e pos).
Proof.
  intros He Hp. unfold is_valid. destruct (lookup_lt_is_Some_2 (pe_valid e) (Z.to_nat pos)) as [v ->]; [|done].
  rewrite (eo_valid _ He). lia.
Qed.

Definition consumed (pos : Z) (e e' : PfEntry) : Prop :=
  pe_valid e' = <[Z.to_nat pos := false]> (pe_valid e) /\ same_core e e' /\
  pe_lastPrefetchPos e' = pe_lastPrefetchPos e.

Lemma prof_skip idx e c w : INV w -> pf_array (pw_pf w) !! idx = Some e -> c <> profHits ->
  wp (prof c) (fun _ w' => entry_upd idx e e 0 w w') w.
Proof. intros Hw He Hc. eapply wp_mono; [by apply (prof_upd src idx e)|]. intros [] w'. by rewrite decide_False. Qed.

Lemma upd_step idx e e' h w1 w2 w3 : entry_upd idx e e' h w1 w2 -> ev_step w2 w3 -> entry_upd idx e e' h w1 w3.
Proof.
  intros (H1 & H2 & H3 & H4 & H5 & H6) S. pose proof S as (_ & Ep & _). unfold PrefetchInv.entry_upd. rewrite Ep.
  split_and!; try done; [by eapply step_inv|]. etrans; [done|]. by apply step_recs_le.
Qed.

(** The response of a prefetch joins the record of the access. *)
Lemma pf_buffer_hit_ok req idx e pos c resp acc w :
  INV w -> pf_array (pw_pf w) !! idx = Some e -> 0 <= pos < 64 -> srcId req = src -> acc_ok src w c resp acc ->
  wp (pf_buffer_hit req idx pos c resp acc)
    (fun '(resp', short, acc') w' => resp <= resp' /\ acc_ok src w' c resp' acc' /\
       exists e', entry_upd idx e e' (if is_valid e pos then 1 else 0) w w' /\ consumed pos e e') w.
Proof.
  intros Hw He Hpos Hsrc Hacc. pose proof Hw as (_ & Hpf & _). pose proof (pk_entry _ _ Hpf _ _ He) as Heo.
  unfold pf_buffer_hit. rewrite Hsrc. wp_step. eapply get_entry_ok; [done|].
  wp_step. eapply wp_lift; [by apply at_ok, valid_lookup|]. destruct (is_valid e pos) eqn:Ev; cbn [negb].
  2: { wp_step. split; [lia|]. split; [done|]. exists e. split; [by apply upd_refl|]. split; [|done].
       rewrite list_insert_id; [done|]. by rewrite (valid_lookup e pos), Ev. }
  destruct (lookup_lt_is_Some_2 (pe_times e) (Z.to_nat pos)) as [t Ht]; [rewrite (eo_times _ Heo); lia|].
  wp_step. eapply wp_lift; [by apply at_ok|]. wp_step. eapply wp_lift; [apply set_at_ok; rewrite (eo_valid _ Heo); lia|].
  cbv zeta. set (resp' := Z.max (snd t) resp). assert (resp <= resp') as Hresp by (unfold resp'; lia).
  set (e1 := pe_set_hit (<[Z.to_nat pos := false]> (pe_valid e)) (Z.max resp' (pe_lastCycle e)) e).
  wp_step. eapply wp_mono.
  { apply (upd_entry_upd src idx _ e); [done|done| |by left|].
    - destruct Heo. constructor; cbn; try done. by rewrite length_insert.
    - exact (pk_events _ _ Hpf _ _ He). }
  intros [] w1 U1. fold e1 in U1. pose proof (upd_lookup _ _ _ _ _ _ _ U1) as He1.
  wp_step. eapply wp_mono; [apply (prof_upd src idx e1); [apply U1|done]|]. intros [] w2 U2. rewrite decide_True in U2 by done.
  pose proof (upd_trans _ _ _ _ _ _ _ _ _ _ U1 U2) as U12. pose proof (upd_lookup _ _ _ _ _ _ _ U2) as He2.
  wp_step. apply wp_mono with (P := fun _ w3 => entry_upd idx e e1 1 w w3).
  { apply wp_when; intros _; [|exact U12]. eapply wp_mono; [apply prof_skip; [apply U2|exact He2|done]|].
    intros [] w3 U3. pose proof (upd_trans _ _ _ _ _ _ _ _ _ _ U12 U3) as U. exact U. }
  intros [] w3 U3. pose proof U3 as ((Hm3 & Hpf3 & _) & Hle3 & _).
  assert (consumed pos e e1) as Hcon by (by split_and!).
  assert (acc_ok src w3 c resp' acc) as Hacc3 by (eapply acc_ok_step; [apply Hle3|exact Hresp|done]).
  wp_step. unfold has_evRec, pf_recs. wp_step. wp_step. wp_step.
  destruct (lookup_lt_is_Some_2 (pe_respEvents e) (Z.to_nat pos)) as [ev Eev]; [rewrite (eo_events _ Heo); lia|].
  wp_step. eapply wp_lift; [by apply at_ok|]. destruct ev as [ev|]; [|wp_step; split_and!; [lia|done|by exists e1]].
  case_bool_decide as Hrec; cbn [negb]; [|wp_step; split_and!; [lia|done|by exists e1]].
  assert (ev_pending (evs w3) ev) as Pev.
  { eapply (pk_events _ _ Hpf3 idx e1); [by eapply upd_lookup|exact Eev]. }
  wp_step. eapply wp_mono; [by apply (link_response_ok src)|]. intros a w4 (S4 & Ta). wp_step.
  split; [done|]. split; [split; [exact Ta|]; rewrite (proj2 (proj2 (proj2 S4))); exact Hrec|].
  exists e1. split; [by eapply upd_step|done].
Qed.

(** ** Fetching ahead *)

(** The position that the next prefetch goes to. *)
Definition target (e : PfEntry) (pos stride : Z) : Z :=
  if i32 (u32 (pe_lastPrefetchPos e - pe_lastPos e) / u32 stride) <? 1 then u32 (pos + stride)
  else u32 (pe_lastPrefetchPos e + stride).

(** What [pf_fetch_ahead] makes of an entry. *)
Definition ahead (pos stride : Z) (e e' : PfEntry) : Prop :=
  let t := target e pos stride in
  same_core e e' /\
  ((pe_valid e' = pe_valid e /\ pe_lastPrefetchPos e' = pe_lastPrefetchPos e /\
    (conf_pred (pe_conf e) = false \/ 64 <= t \/ is_valid e t = true)) \/
   exists last, conf_pred (pe_conf e) = true /\ t < 64 /\ is_valid e t = false /\ 0 <= last < 64 /\
     (last = t \/ last = u32 (t + stride)) /\ pe_lastPrefetchPos e' = last /\
     pe_valid e' = <[Z.to_nat last := true]> (<[Z.to_nat t := true]> (pe_valid e))).

(** The requests that prefetches for [req] may be. *)
Definition prefetches_ok (req : MemReq) (pos c : Z) : Prop :=
  forall q, 0 <= q < 64 ->
    pp_req (mkMemReq (u64 (lineAddr req + q - pos)) GETS (childId req) MESI.I c MESI.I src PREFETCH).

Lemma set_prefetched_upd idx e last w : INV w -> pf_array (pw_pf w) !! idx = Some e -> 0 <= last < 64 ->
  wp (upd_entry idx (pe_set_prefetched last)) (fun _ w' => entry_upd idx e (pe_set_prefetched last e) 0 w w') w.
Proof.
  intros Hw He Hl. pose proof Hw as (_ & Hpf & _). apply upd_entry_upd; [done|done| |by left|].
  - destruct (pk_entry _ _ Hpf _ _ He). by constructor.
  - exact (pk_events _ _ Hpf _ _ He).
Qed.

(** The second prefetch, after a short hit. *)
Lemma second_prefetch_ok req idx e pos c resp t second (go : bool) acc w :
  INV w -> pf_array (pw_pf w) !! idx = Some e -> (idx < 16)%nat -> 0 <= t < 64 -> 0 <= second ->
  srcId req = src -> acc_ok src w c resp acc -> prefetches_ok req pos c ->
  wp (if (go && (second <? 64))%bool then
        v2 <- lift (at_ (pe_valid e) (Z.to_nat second)) ;;
        if (v2 : bool) then ret (t, acc) else
        acc2 <- issuePrefetch req idx pos c resp second acc ;;
        prof profPrefetches ;;
        prof profDoublePrefetches ;;
        ret (second, acc2)
      else ret (t, acc))
    (fun '(last, acc') w' => acc_ok src w' c resp acc' /\
       exists e', entry_upd idx e e' 0 w w' /\ same_core e e' /\ 0 <= last < 64 /\
         (last = t /\ pe_valid e' = pe_valid e \/
          last = second /\ pe_valid e' = <[Z.to_nat last := true]> (pe_valid e))) w.
Proof.
  intros Hw He Hidx Ht Hsec Hsrc Hacc Hreq. pose proof Hw as (_ & Hpf & _). pose proof (pk_entry _ _ Hpf _ _ He) as Heo.
  assert (entry_upd idx e e 0 w w) as Hrefl by (by apply upd_refl).
  destruct (go && (second <? 64))%bool eqn:Eg.
  2: { wp_step. split; [done|]. exists e. split_and!; try done; try lia; by left. }
  apply andb_true_iff in Eg as [_ Hlt]. apply Z.ltb_lt in Hlt.
  wp_step. eapply wp_lift; [apply at_ok, valid_lookup; [done|lia]|]. destruct (is_valid e second).
  { wp_step. split; [done|]. exists e. split_and!; try done; try lia; by left. }
  wp_step. eapply wp_mono; [apply (issuePrefetch_ok src); try done; by apply Hreq|].
  intros acc2 w1 (Hacc1 & e1 & U1 & Hv & Hcore & _). pose proof (upd_lookup _ _ _ _ _ _ _ U1) as He1.
  wp_step. eapply wp_mono; [apply prof_skip; [apply U1|exact He1|done]|]. intros [] w2 U2.
  wp_step. eapply wp_mono; [apply prof_skip; [apply U2|by eapply upd_lookup|done]|]. intros [] w3 U3. wp_step.
  pose proof (upd_trans _ _ _ _ _ _ _ _ _ _ U1 (upd_trans _ _ _ _ _ _ _ _ _ _ U2 U3)) as U.
  split; [eapply acc_ok_step; [|reflexivity|done]|].
  - etrans; [apply (proj1 (proj2 U2))|]. apply (proj1 (proj2 U3)).
  - exists e1. split_and!; try done; try lia; by right.
Qed.

Lemma pf_fetch_ahead_ok req idx e pos c resp stride short acc w :
  INV w -> pf_array (pw_pf w) !! idx = Some e -> (idx < 16)%nat -> -63 <= stride <= 63 -> stride <> 0 ->
  srcId req = src -> acc_ok src w c resp acc -> prefetches_ok req pos c ->
  wp (pf_fetch_ahead req idx pos c resp stride short acc)
    (fun acc' w' => acc_ok src w' c resp acc' /\ exists e', entry_upd idx e e' 0 w w' /\ ahead pos stride e e') w.
Proof.
  intros Hw He Hidx Hs Hs0 Hsrc Hacc Hreq. pose proof Hw as (_ & Hpf & _). pose proof (pk_entry _ _ Hpf _ _ He) as Heo.
  assert (entry_upd idx e e 0 w w) as Hrefl by (by apply upd_refl).
  unfold pf_fetch_ahead. wp_step. eapply get_entry_ok; [done|]. destruct (conf_pred (pe_conf e)) eqn:Ec.
  2: { wp_step. eapply wp_mono; [by apply prof_skip|]. intros [] w1 U1. wp_step.
       split; [eapply acc_ok_step; [apply (proj1 (proj2 U1))|reflexivity|done]|].
       exists e. split; [done|]. split; [done|]. left. split_and!; [done|done|by left]. }
  assert (u32 stride <> 0) as Hu.
  { unfold u32. intros Hz. destruct (Z.lt_trichotomy stride 0) as [Hn|[Hn|Hn]]; [|done|rewrite Z.mod_small in Hz by lia; lia].
    rewrite <- (Z.mod_add stride 1 (2 ^ 32)) in Hz by lia. rewrite Z.mod_small in Hz by lia. lia. }
  wp_step. eapply wp_lift; [unfold udiv; by rewrite (proj2 (Z.eqb_neq _ _) Hu)|]. cbv zeta.
  fold (target e pos stride). set (t := target e pos stride).
  assert (0 <= t) as Ht0 by (unfold t, target; destruct (_ <? 1); apply u32_range).
  destruct (Z.ltb_spec t 64) as [Htlt|Htge]; cbn [negb].
  2: { wp_step. split; [done|]. exists e. split; [done|]. split; [done|]. left. fold t. split_and!; try done. right. left. lia. }
  wp_step. eapply wp_lift; [apply at_ok, valid_lookup; [done|lia]|]. destruct (is_valid e t) eqn:Ev.
  { wp_step. split; [done|]. exists e. split; [done|]. split; [done|]. left. fold t. split_and!; try done. by right; right. }
  wp_step. eapply wp_mono; [apply (issuePrefetch_ok src); try done; apply Hreq; lia|].
  intros acc1 w1 (Hacc1 & e1 & U1 & Hv1 & Hcore1 & Hlp1). pose proof (upd_lookup _ _ _ _ _ _ _ U1) as He1.
  wp_step. eapply wp_mono; [apply prof_skip; [apply U1|exact He1|done]|]. intros [] w2 U2.
  pose proof (upd_lookup _ _ _ _ _ _ _ U2) as He2. wp_step. eapply get_entry_ok; [done|]. wp_step.
  eapply wp_mono.
  { apply (second_prefetch_ok req idx e1 pos c resp t (u32 (t + stride))); try done; [apply U2|apply u32_range|].
    eapply acc_ok_step; [apply (proj1 (proj2 U2))|reflexivity|done]. }
  intros [last acc2] w3 (Hacc3 & e3 & U3 & Hcore3 & Hlast & Hcase). pose proof (upd_lookup _ _ _ _ _ _ _ U3) as He3.
  wp_step. eapply wp_mono; [apply set_prefetched_upd; [apply U3|exact He3|done]|]. intros [] w4 U4. wp_step.
  split; [eapply acc_ok_step; [apply (proj1 (proj2 U4))|reflexivity|done]|].
  exists (pe_set_prefetched last e3). split.
  - exact (upd_trans _ _ _ _ _ _ _ _ _ _ U1 (upd_trans _ _ _ _ _ _ _ _ _ _ U2 (upd_trans _ _ _ _ _ _ _ _ _ _ U3 U4))).
  - destruct Hcore1 as (A1 & A2 & A3 & A4), Hcore3 as (B1 & B2 & B3 & B4).
    split; [split_and!; cbn; congruence|]. right. exists last. fold t. split_and!; try done; try lia; try (tauto || naive_solver).
    cbn. destruct Hcase as [[-> ->]|[-> ->]]; rewrite Hv1; [|done]. by rewrite list_insert_insert_eq.
Qed.

(** Changes of the predictor's fields. *)
Lemma core_upd idx f e w :
  INV w -> pf_array (pw_pf w) !! idx = Some e -> pe_ok (f e) -> pe_stride (f e) = pe_stride e \/ pe_stride (f e) <> 0 ->
  pe_respEvents (f e) = pe_respEvents e ->
  wp (upd_entry idx f) (fun _ w' => entry_upd idx e (f e) 0 w w') w.
Proof.
  intros Hw He Hok Hs Hr. apply upd_entry_upd; [done|done|done|done|]. unfold responses_ok. rewrite Hr.
  exact (pk_events _ _ (proj1 (proj2 Hw)) _ _ He).
Qed.

Lemma pf_other_stride_ok idx e pos stride w :
  INV w -> pf_array (pw_pf w) !! idx = Some e -> 0 <= pos < 64 -> -63 <= stride <= 63 ->
  wp (pf_other_stride idx pos stride) (fun _ w' => exists e', entry_upd idx e e' 0 w w') w.
Proof.
  intros Hw He Hpos Hs. pose proof (pk_entry _ _ (proj1 (proj2 Hw)) _ _ He) as Heo.
  assert (0 <= sat_dec (pe_conf e) <= 3) as Hconf by (unfold sat_dec; destruct Heo; lia).
  unfold pf_other_stride. wp_step. eapply get_entry_ok; [done|]. cbv zeta.
  wp_step. eapply wp_mono; [apply core_upd; [done|done|destruct Heo; by constructor|by left|done]|].
  intros [] w1 U1. set (e1 := pe_set_stride _ _ e) in *. pose proof (upd_lookup _ _ _ _ _ _ _ U1) as He1.
  wp_step. apply wp_mono with (P := fun _ w2 => exists e2, entry_upd idx e e2 0 w w2).
  - destruct (conf_pred _); [wp_step; eauto|]. apply wp_when; intros Hc; [|eauto].
    apply andb_true_iff in Hc as [Hc _]. apply andb_true_iff in Hc as [Hc _]. apply negb_true_iff, Z.eqb_neq in Hc.
    wp_step. eapply wp_mono; [apply core_upd; [apply U1|exact He1|destruct Heo; by constructor|by right|done]|].
    intros [] w2 U2. eapply wp_mono; [apply prof_skip; [apply U2|by eapply upd_lookup|done]|]. intros [] w3 U3.
    eexists. exact (upd_trans _ _ _ _ _ _ _ _ _ _ U1 (upd_trans _ _ _ _ _ _ _ _ _ _ U2 U3)).
  - intros [] w2 [e2 U2]. eapply wp_mono; [apply set_prefetched_upd; [apply U2|by eapply upd_lookup|done]|].
    intros [] w3 U3. eexists. exact (upd_trans _ _ _ _ _ _ _ _ _ _ U2 U3).
Qed.

(** ** A page of the table *)

(** What an access with the stride of the entry does to it. *)
Definition streamed (pos : Z) (e e' : PfEntry) : Prop :=
  exists e1 e2, pe_valid e1 = <[Z.to_nat pos := false]> (pe_valid e) /\ pe_stride e1 = pe_stride e /\
    pe_conf e1 = conf_inc (pe_conf e) /\ pe_lastPos e1 = pe_lastPos e /\
    pe_lastPrefetchPos e1 = pe_lastPrefetchPos e /\ ahead pos (pe_stride e) e1 e2 /\
    e' = pe_set_last pos (pe_lastPos e2) e2.

Lemma tick_upd idx e w : INV w -> pf_array (pw_pf w) !! idx = Some e ->
  wp (on_pf (fun p => pf_set_entries (u64 (pf_timestamp p + 1)) (pf_tag p) (pf_array p) p))
    (fun _ w' => entry_upd idx e e 0 w w') w.
Proof.
  intros Hw He. unfold on_pf. wp_step. destruct Hw as (Hm & Hp & Hi). split_and!; try done; cbn.
  - split_and!; try done. destruct Hp. by constructor.
  - by rewrite list_insert_id.
  - rewrite Z.add_0_r, u64_id; [done|]. apply (pk_hits _ _ Hp).
Qed.

Lemma pf_page_hit_ok req idx e t pos c resp acc w :
  INV w -> pf_array (pw_pf w) !! idx = Some e -> pf_tag (pw_pf w) !! idx = Some t -> t <> 0 -> (idx < 16)%nat ->
  0 <= pos < 64 -> srcId req = src -> acc_ok src w c resp acc -> prefetches_ok req pos c ->
  wp (pf_page_hit req idx pos c resp acc)
    (fun '(resp', acc') w' => resp <= resp' /\ acc_ok src w' c resp' acc' /\
       exists e', entry_upd idx e e' (if is_valid e pos then 1 else 0) w w' /\
         (pe_stride e = pos - pe_lastPos e -> streamed pos e e')) w.
Proof.
  intros Hw He Ht Ht0 Hidx Hpos Hsrc Hacc Hreq. pose proof Hw as (_ & Hpf & _).
  pose proof (pk_entry _ _ Hpf _ _ He) as Heo. pose proof (pk_stride _ _ Hpf _ _ _ He Ht Ht0) as Hs0.
  unfold pf_page_hit. wp_step. eapply wp_mono; [by apply (prof_skip idx e)|]. intros [] w1 U1. wp_step. wp_step.
  wp_step. eapply wp_mono; [apply core_upd; [apply U1|by eapply upd_lookup|destruct Heo; by constructor|by left|done]|].
  intros [] w2 U2. set (e0 := pe_set_ts _ e) in *.
  wp_step. eapply wp_mono; [apply tick_upd; [apply U2|by eapply upd_lookup]|]. intros [] w3 U3.
  pose proof (upd_trans _ _ _ _ _ _ _ _ _ _ U1 (upd_trans _ _ _ _ _ _ _ _ _ _ U2 U3)) as U03.
  wp_step. eapply wp_mono.
  { apply (pf_buffer_hit_ok req idx e0 pos c resp acc); [apply U03|by eapply upd_lookup|done|done|].
    eapply acc_ok_step; [apply (proj1 (proj2 U03))|reflexivity|done]. }
  intros [[resp' short] acc1] w4 (Hresp & Hacc4 & e4 & U4 & Hv4 & (C1 & C2 & C3 & C4) & Hlp4).
  change (is_valid e0 pos) with (is_valid e pos) in U4.
  pose proof (upd_trans _ _ _ _ _ _ _ _ _ _ U03 U4) as U04. pose proof (upd_lookup _ _ _ _ _ _ _ U4) as He4.
  pose proof (pk_entry _ _ (proj1 (proj2 (proj1 U4))) _ _ He4) as Heo4.
  wp_step. eapply get_entry_ok; [done|]. cbv zeta. rewrite i32_small by (destruct Heo4; lia).
  wp_step. apply wp_mono with (P := fun acc2 w' => acc_ok src w' c resp' acc2 /\
      exists e', entry_upd idx e4 e' 0 w4 w' /\ (pe_stride e = pos - pe_lastPos e ->
        exists e1, pe_valid e1 = pe_valid e4 /\ pe_stride e1 = pe_stride e /\
          pe_conf e1 = conf_inc (pe_conf e) /\ pe_lastPos e1 = pe_lastPos e /\
          pe_lastPrefetchPos e1 = pe_lastPrefetchPos e /\ ahead pos (pe_stride e) e1 e')).
  - destruct (Z.eqb_spec (pe_stride e4) (pos - pe_lastPos e4)) as [Hst|Hst].
    + assert (0 <= conf_inc (pe_conf e4) <= 3) as Hconf by (unfold conf_inc, sat_inc; destruct Heo4; lia).
      wp_step. eapply wp_mono; [apply core_upd; [apply U4|exact He4|destruct Heo4; by constructor|by left|done]|].
      intros [] w5 U5. set (e5 := pe_set_stride _ _ e4) in *. eapply wp_mono.
      { apply (pf_fetch_ahead_ok req idx e5 pos c resp' (pos - pe_lastPos e4) short acc1);
          [apply U5|by eapply upd_lookup|done|destruct Heo4; lia|cbn in *; congruence|done| |done].
        eapply acc_ok_step; [apply (proj1 (proj2 U5))|reflexivity|done]. }
      intros acc2 w6 (Hacc6 & e6 & U6 & Hah). split; [done|]. exists e6.
      split; [exact (upd_trans _ _ _ _ _ _ _ _ _ _ U5 U6)|]. intros _. exists e5. cbn in *.
      split_and!; try congruence.
    + wp_step. eapply wp_mono; [apply (pf_other_stride_ok idx e4); [apply U4|exact He4|done|destruct Heo4; lia]|].
      intros [] w5 [e5 U5]. wp_step. split; [eapply acc_ok_step; [apply (proj1 (proj2 U5))|reflexivity|done]|].
      exists e5. split; [done|]. intros Hx. cbn in *. congruence.
  - intros acc2 w5 (Hacc5 & e5 & U5 & Hstr). pose proof (upd_lookup _ _ _ _ _ _ _ U5) as He5.
    pose proof (pk_entry _ _ (proj1 (proj2 (proj1 U5))) _ _ He5) as Heo5.
    wp_step. eapply wp_mono; [apply core_upd; [apply U5|exact He5|destruct Heo5; by constructor|by left|done]|].
    intros [] w6 U6. wp_step. split; [done|].
    split; [eapply acc_ok_step; [apply (proj1 (proj2 U6))|reflexivity|done]|].
    eexists. split.
    { pose proof (upd_trans _ _ _ _ _ _ _ _ _ _ U04 (upd_trans _ _ _ _ _ _ _ _ _ _ U5 U6)) as U.
      replace (0 + (0 + 0) + (if is_valid e pos then 1 else 0) + (0 + 0)) with (if is_valid e pos then 1 else 0) in U by lia.
      exact U. }
    intros Hx. destruct (Hstr Hx) as (e1 & Hv1 & S1 & S2 & S3 & S4 & Hah). exists e1, e5. split_and!; try done. rewrite Hv1, Hv4. done.
Qed.

(** ** A page that is not in the table *)

Lemma find_tag_spec page tags :
  (pf_find_tag page tags = length tags /\ forall i, tags !! i <> Some page) \/
  tags !! pf_find_tag page tags = Some page.
Proof.
  unfold pf_find_tag.
  enough (forall k idx, (k <= length tags)%nat ->
    (idx = length tags /\ (forall i, (i < k)%nat -> tags !! i <> Some page)) \/ tags !! idx = Some page ->
    let r := fold_left (fun idx i => if bool_decide (tags !! i = Some page) then i else idx) (seq k (length tags - k)) idx in
    (r = length tags /\ forall i, tags !! i <> Some page) \/ tags !! r = Some page) as Hgen.
  { specialize (Hgen 0%nat (length tags)). rewrite Nat.sub_0_r in Hgen. apply Hgen; [lia|]. left. split; [done|lia]. }
  intros k idx Hk. remember (length tags - k)%nat as n eqn:En. revert k idx Hk En.
  induction n as [|n IH]; intros k idx Hk En Hinv; cbn.
  - destruct Hinv as [[-> Hn]|Hs]; [|by right]. left. split; [done|]. intros i Hi. apply (Hn i); [|done].
    apply lookup_lt_Some in Hi. lia.
  - apply IH; [lia|lia|]. case_bool_decide as Hb; [by right|]. destruct Hinv as [[-> Hn]|Hs]; [|by right].
    left. split; [done|]. intros i Hi Hs. destruct (decide (i = k)) as [->|Hne]; [done|]. apply (Hn i); [lia|done].
Qed.

(** An entry that may be replaced at cycle [c]. *)
Definition cold (c : Z) (e : PfEntry) : Prop := pe_lastCycle e <= u64 (c + 5000).

Lemma find_victim_ok array c is_ : forall cand score,
  (forall i, i ∈ is_ -> is_Some (array !! i)) ->
  exists r, find_victim array c is_ cand score = Ok r /\ (r = cand \/ r ∈ is_) /\
    ((exists i e, i ∈ is_ /\ array !! i = Some e /\ cold c e /\ pe_ts e < score) -> r ∈ is_).
Proof.
  induction is_ as [|i is_ IH]; intros cand score Hs; cbn [find_victim].
  { exists cand. split_and!; [done|by left|]. by intros (i & e & Hi%not_elem_of_nil & _). }
  destruct (Hs i) as [e He]; [left|]. rewrite (at_ok _ _ _ He).
  assert (forall j, j ∈ is_ -> is_Some (array !! j)) as Hs' by (intros; apply Hs; by right).
  destruct (Z.ltb_spec (u64 (c + 5000)) (pe_lastCycle e)) as [Hw|Hc].
  - destruct (IH cand score Hs') as (r & E & Hr & Hex). exists r. split; [done|].
    split; [destruct Hr as [->|Hr]; [by left|right; by right]|]. intros (j & x & Hj & Hx & Hcold & Hts). right. apply Hex.
    exists j, x. split_and!; try done. apply elem_of_cons in Hj as [->|Hj]; [|done]. simplify_eq. unfold cold in Hcold. lia.
  - destruct (Z.ltb_spec (pe_ts e) score) as [Ht|Ht].
    + destruct (IH i (pe_ts e) Hs') as (r & E & Hr & _). exists r. split; [done|].
      assert (r ∈ i :: is_) as Hin by (destruct Hr as [->|Hr]; [left|by right]). split; [by right|done].
    + destruct (IH cand score Hs') as (r & E & Hr & Hex). exists r. split; [done|].
      split; [destruct Hr as [->|Hr]; [by left|right; by right]|]. intros (j & x & Hj & Hx & Hcold & Hts). right. apply Hex.
      exists j, x. split_and!; try done. apply elem_of_cons in Hj as [->|Hj]; [|done]. simplify_eq. lia.
Qed.

(** An entry that was just taken for a page. *)
Definition new_entry (pos : Z) (e : PfEntry) : Prop :=
  pe_stride e = 1 /\ pe_conf e = 1 /\ pe_valid e = replicate 64 false /\ pe_lastPos e = pos /\
  pe_lastPrefetchPos e = 0.

(** The page has an entry, and only one. *)
Definition page_entry w (page : Address) (idx : nat) (e : PfEntry) : Prop :=
  pf_tag (pw_pf w) !! idx = Some page /\ pf_array (pw_pf w) !! idx = Some e /\
  forall j, pf_tag (pw_pf w) !! j = Some page -> j = idx.

Lemma pf_miss_ok c page pos w :
  INV w -> page <> 0 -> 0 <= pos < 64 -> (forall i, pf_tag (pw_pf w) !! i <> Some page) ->
  wp (pf_miss c page pos)
    (fun _ w' => INV w' /\ recs w' = recs w /\ pf_childId (pw_pf w') = pf_childId (pw_pf w) /\
       pf_prof (pw_pf w') = pf_prof (pw_pf w) /\
       ((exists i e, (i < 16)%nat /\ pf_array (pw_pf w) !! i = Some e /\ cold c e /\ pe_ts e < 2 ^ 64 - 1) ->
        exists idx e, page_entry w' page idx e /\ new_entry pos e)) w.
Proof.
  intros Hw Hpg Hpos Hno. pose proof Hw as (Hm & Hpf & Hi). unfold pf_miss. wp_step. wp_step. cbv zeta.
  destruct (find_victim_ok (pf_array (pw_pf w)) c (seq 0 16) (pf_numBuffers (pw_pf w)) (2 ^ 64 - 1)) as (r & E & Hr & Hex).
  { intros i Hin%elem_of_seq. apply lookup_lt_is_Some_2. destruct Hpf. lia. }
  wp_step. eapply wp_lift; [exact E|]. apply wp_when; intros Hlt.
  2: { split_and!; try done. intros (i & e & Hi16 & He & Hc & Hts). exfalso. apply Nat.ltb_ge in Hlt.
       assert (r ∈ seq 0 16) as Hin%elem_of_seq; [|destruct Hpf; lia]. apply Hex. exists i, e.
       split_and!; try done. apply elem_of_seq. lia. }
  apply Nat.ltb_lt in Hlt. assert (r < 16)%nat as Hr16.
  { destruct Hr as [->|Hin%elem_of_seq]; lia. }
  destruct (lookup_lt_is_Some_2 (pf_array (pw_pf w)) r) as [e He]; [destruct Hpf; lia|].
  wp_step. eapply get_entry_ok; [done|]. set (e' := pe_set_ts _ _).
  wp_step. eapply wp_lift; [apply set_at_ok; destruct Hpf; lia|]. wp_step. eapply wp_lift; [apply set_at_ok; destruct Hpf; lia|].
  unfold on_pf. wp_step. pose proof (pk_entry _ _ Hpf _ _ He) as Heo.
  assert (pe_ok e') as Heo' by (destruct Heo; constructor; cbn; rewrite ?length_replicate; try done; lia).
  split_and!; try done.
  - split_and!; try done. pose proof (pk_tag _ _ Hpf) as Htl.
    assert (pe_stride e' <> 0) as Hs1 by done.
    pose proof (or_intror Hs1 : pe_stride e' = pe_stride e \/ pe_stride e' <> 0) as Hst.
    destruct (pf_ok_entry _ _ r e e' Hpf He Heo' Hst)
      as [H1 H2 H3 H4 H5 H6 H7 H8 H9 H10].
    { intros q ev Hq. change (replicate 64 None !! q = Some (Some ev)) in Hq. apply lookup_replicate in Hq as [[=] _]. }
    clearbody e'. constructor;
      cbn [pw_pf pf_set_entries pf_set_array pf_tag pf_array pf_numBuffers pf_partitionBuffers pf_owner pf_prof] in *;
      try assumption.
    + by rewrite length_insert.
    + intros j t Hj Hj16. rewrite list_lookup_insert_ne in Hj by lia. eauto.
    + intros j x t Hx Hj Ht. destruct (decide (j = r)) as [->|Hne].
      * rewrite list_lookup_insert_eq in Hx by (by eapply lookup_lt_Some). simplify_eq. exact Hs1.
      * rewrite list_lookup_insert_ne in Hj by done. eauto.
  - intros _. exists r, e'. split; [split_and!; cbn|done].
    + apply list_lookup_insert_eq. destruct Hpf. lia.
    + apply list_lookup_insert_eq. by eapply lookup_lt_Some.
    + intros j Hj. destruct (decide (j = r)) as [->|Hne]; [done|]. rewrite list_lookup_insert_ne in Hj by done.
      by destruct (Hno j).
Qed.
End Spec.

(** ** Histories of the prefetcher

    Accesses of all cores and responses of prefetches in the weave phase, in any
    order. *)

(** The page of a line and its place in it. *)
Definition pf_page_of (a : Address) : Address := Z.shiftr a 6.
Definition pos_of (a : Address) : Z := Z.land a 63.

Lemma page_pos a : a = 64 * pf_page_of a + pos_of a /\ 0 <= pos_of a < 64.
Proof.
  unfold pf_page_of, pos_of. change 63 with (Z.ones 6). rewrite Z.land_ones, Z.shiftr_div_pow2 by lia. change (2 ^ 6) with 64.
  split; [apply Z.div_mod; lia|apply Z.mod_pos_bound; lia].
Qed.

Section Run.
Context {D : Type} `{PfParent D}.
Implicit Types w : PfWorld D.

(** The invariant, and that no record is open. *)
Definition base w : Prop := mem_ok w /\ pf_ok (evs w) (pw_pf w).
Definition pf_at_rest w : Prop := base w /\ forall src, rec_idle src (recs w).

Lemma at_rest_inv src w : pf_at_rest w -> INV src w.
Proof. intros [[Hm Hp] Hi]. by split_and!. Qed.

(** A load that the parent takes, with all prefetches that may follow from it:
    those of lines of its page. *)
Definition load_ok (childId_ : Z) (req : MemReq) : Prop :=
  type req = GETS /\ 0 <= lineAddr req < 2 ^ 64 /\ pf_page_of (lineAddr req) <> 0 /\
  pp_req (with_child childId_ req) /\
  forall q, 0 <= q < 64 ->
    pp_req (mkMemReq (64 * pf_page_of (lineAddr req) + q) GETS childId_ MESI.I (cycle req) MESI.I (srcId req) PREFETCH).

Definition pf_req_ok (childId_ : Z) (req : MemReq) : Prop :=
  if decide (type req = GETS) then load_ok childId_ req else pp_req (with_child childId_ req).

Lemma load_prefetches childId_ req : load_ok childId_ req ->
  prefetches_ok (D := D) (srcId req) (with_child childId_ req) (pos_of (lineAddr req)) (cycle req).
Proof.
  intros (_ & Ha & _ & _ & Hq) q Hq64. cbn. destruct (page_pos (lineAddr req)) as [E Hpos].
  replace (u64 (lineAddr req + q - pos_of (lineAddr req))) with (64 * pf_page_of (lineAddr req) + q); [by apply Hq|].
  rewrite u64_id; [lia|]. unfold in_u64. split; [lia|].
  assert (64 * pf_page_of (lineAddr req) <= 64 * (2 ^ 58 - 1)) by lia. lia.
Qed.

(** The record of the access, after it was taken from the recorder. *)
Lemma take_acc_ok src c resp w :
  mem_ok w -> pf_ok (evs w) (pw_pf w) ->
  (forall tr, rc_records (recs w) !! src = Some tr -> tr_isValid tr = true -> tr_ok (evs w) c resp tr) ->
  wp (take_acc src) (fun acc w' => INV src w' /\ pw_pf w' = pw_pf w /\ recs_le src (recs w) (recs w') /\
    acc_ok src w' c resp acc) w.
Proof.
  intros Hm Hp Htr. unfold take_acc, pf_recs. wp_step. wp_step. fold (recs w).
  destruct (rc_records (recs w) !! src) as [tr|] eqn:Er.
  - destruct (tr_isValid tr) eqn:Ev.
    + wp_step. eapply wp_mono; [by apply (popRecord_ok src w tr)|].
      intros a w1 (-> & Hm1 & Ep1 & Ee1 & Hi1 & Hle1). wp_step.
      split; [split; [done|]; split; [by rewrite Ep1, Ee1|done]|]. split; [done|]. split; [done|]. split.
      * rewrite Ee1. by apply Htr.
      * apply Hle1. by eexists.
    + wp_step. split; [|done]. split; [done|]. split; [done|]. intros tr' Htr'. congruence.
  - wp_step. split; [|done]. split; [done|]. split; [done|]. intros tr' Htr'. congruence.
Qed.

(** What an access leaves in the recorder of its core. *)
Definition recorded src (c resp : Z) w : Prop :=
  forall tr, rc_records (recs w) !! src = Some tr -> tr_isValid tr = true -> tr_ok (evs w) c resp tr.

Lemma push_ok src c resp acc w : INV src w -> acc_ok src w c resp acc ->
  wp (match acc with Some a => on_evRec src (pushRecord a) | None => ret tt end)
    (fun _ w' => base w' /\ pw_pf w' = pw_pf w /\ recs_le src (recs w) (recs w') /\ recorded src c resp w') w.
Proof.
  intros (Hm & Hp & Hi) Hacc. destruct acc as [a|].
  - destruct Hacc as [Ht [tr Hr]]. eapply on_evRec_ok; [done|]. unfold pushRecord. wp_step. wp_step.
    wp_step. wp_step; [by rewrite (Hi tr Hr)|]. wp_step. wp_step.
    assert (tr_isValid a = true) as Hv.
    { destruct Ht as (s & e & Hs & _). unfold tr_isValid. rewrite Hs. by apply bool_decide_eq_true. }
    apply wp_assert; [done|]. destruct Hm as [Hm1 Hm2].
    unfold base, mem_ok, recorded, recs_le, evs, recs. cbn [pw_pf pw_mem]. rewrite pp_recs_set. cbn [rc_events rc_records].
    split_and!; try done.
    + by apply pp_ok_set.
    + intros s Hs. by rewrite lookup_insert_ne.
    + rewrite lookup_insert_eq. split; by eauto.
    + intros tr'. rewrite lookup_insert_eq. intros [= <-] _. done.
  - wp_step. split_and!; try done. intros tr Htr Hv. rewrite (Hi tr Htr) in Hv. done.
Qed.

(** How many hits of the buffer the access is, for a page with the entry [e]. *)
Definition hit_of (e : PfEntry) (pos : Z) : Z := if is_valid e pos then 1 else 0.

(** ** A load *)

(** What a load of the line at [pos] of [page] does to the table: it hits the page's
    entry, or takes an entry for the page if there is one to take. *)
Definition after_load (page : Address) (pos c : Z) (p p' : StreamPrefetcher) : Prop :=
  pf_childId p' = pf_childId p /\
  (forall idx e, pf_tag p !! idx = Some page -> pf_array p !! idx = Some e ->
     (forall j, pf_tag p !! j = Some page -> j = idx) ->
     pf_tag p' = pf_tag p /\ (exists e', pf_array p' !! idx = Some e' /\
       (pe_stride e = pos - pe_lastPos e -> streamed pos e e')) /\
     pf_prof p' profHits = u64 (pf_prof p profHits + hit_of e pos)) /\
  ((forall i, pf_tag p !! i <> Some page) ->
   pf_prof p' profHits = pf_prof p profHits /\
   ((exists i e, (i < 16)%nat /\ pf_array p !! i = Some e /\ cold c e /\ pe_ts e < 2 ^ 64 - 1) ->
    exists idx e, pf_tag p' !! idx = Some page /\ pf_array p' !! idx = Some e /\
      (forall j, pf_tag p' !! j = Some page -> j = idx) /\ new_entry pos e)).

(** The lookup in the table, and what follows. *)
Lemma table_ok req page pos c resp acc w :
  INV (srcId req) w -> page <> 0 -> 0 <= pos < 64 -> acc_ok (srcId req) w c resp acc ->
  prefetches_ok (D := D) (srcId req) req pos c ->
  wp (if (pf_find_tag page (pf_tag (pw_pf w)) =? pf_numBuffers (pw_pf w))%nat then pf_miss c page pos ;; ret (resp, acc)
      else pf_page_hit req (pf_find_tag page (pf_tag (pw_pf w))) pos c resp acc)
    (fun '(resp', acc') w' => resp <= resp' /\ INV (srcId req) w' /\ acc_ok (srcId req) w' c resp' acc' /\
       recs_le (srcId req) (recs w) (recs w') /\ after_load page pos c (pw_pf w) (pw_pf w')) w.
Proof.
  intros Hw Hpg Hpos Hacc Hreq. pose proof Hw as (_ & Hpf & _).
  destruct (find_tag_spec page (pf_tag (pw_pf w))) as [[E Hno]|Hyes].
  - rewrite E, (pk_tag _ _ Hpf), Nat.eqb_refl. wp_step. eapply wp_mono; [by apply (pf_miss_ok (srcId req))|].
    intros [] w' (Hw' & Er & Ec & Ep & Hex). wp_step. split; [lia|]. split; [done|].
    assert (recs_le (srcId req) (recs w) (recs w')) as Hle by (by rewrite Er).
    split; [by eapply acc_ok_step|]. split; [done|]. split; [done|]. split; [intros idx e Hi; by destruct (Hno idx)|].
    intros _. split; [by rewrite Ep|]. intros Hcold. destruct (Hex Hcold) as (idx & e & (T1 & T2 & T3) & Hn).
    by exists idx, e.
  - set (idx := pf_find_tag page (pf_tag (pw_pf w))) in *. assert (idx < pf_numBuffers (pw_pf w))%nat as Hlt.
    { rewrite <- (pk_tag _ _ Hpf). by eapply lookup_lt_Some. }
    rewrite (proj2 (Nat.eqb_neq _ _)) by lia.
    destruct (lookup_lt_is_Some_2 (pf_array (pw_pf w)) idx) as [e He]; [by rewrite (pk_array _ _ Hpf)|].
    assert (idx < 16)%nat as H16.
    { destruct (Nat.lt_ge_cases idx 16) as [?|Hge]; [done|]. by destruct Hpg, (pk_high _ _ Hpf idx page). }
    eapply wp_mono; [by apply (pf_page_hit_ok (srcId req) req idx e page)|].
    intros [resp' acc'] w' (Hr & Hacc' & e' & U & Hst). split; [done|]. split; [apply U|]. split; [done|]. split; [apply U|].
    pose proof (upd_lookup _ _ _ _ _ _ _ U) as He'. destruct U as (_ & _ & (F1 & F2 & F3) & _ & _ & F4).
    split; [done|]. split; [|intros Hno; by destruct (Hno idx)].
    intros j x Hj Hx Hu. assert (j = idx) as -> by (symmetry; by apply Hu). rewrite He in Hx. injection Hx as <-.
    split; [done|]. split; [by exists e'|done].
Qed.

Lemma pf_load_ok req w :
  INV (srcId req) w -> load_ok (pf_childId (pw_pf w)) req ->
  wp (pf_access req)
    (fun '(req', resp) w' => childId req' = childId req /\ cycle req <= resp /\
       base w' /\ recs_le (srcId req) (recs w) (recs w') /\ recorded (srcId req) (cycle req) resp w' /\
       after_load (pf_page_of (lineAddr req)) (pos_of (lineAddr req)) (cycle req) (pw_pf w) (pw_pf w')) w.
Proof.
  intros Hw Hreq. pose proof Hreq as (Hty & Ha & Hpg & Hpp & _).
  unfold pf_access. wp_step. wp_step. cbv zeta. set (req' := with_child (pf_childId (pw_pf w)) req).
  rewrite bool_decide_eq_true_2 by exact Hty. cbn [negb].
  assert (exists e0, pf_array (pw_pf w) !! 0%nat = Some e0) as [e0 He0].
  { apply lookup_lt_is_Some_2. destruct Hw as (_ & [] & _). lia. }
  wp_step. eapply wp_mono; [by apply (prof_skip (srcId req) 0 e0)|]. intros [] w1 (Hw1 & Hle1 & (F1 & F2 & F3) & _ & F4 & F5).
  rewrite list_insert_id in F4 by done. rewrite Z.add_0_r, u64_id in F5 by (apply (pk_hits _ _ (proj1 (proj2 Hw)))).
  wp_step. eapply wp_mono; [by apply (pf_parent_access_ok (srcId req))|].
  intros [st resp] w2 (Hresp & _ & Hm2 & Ep2 & Hle2 & Htr2). cbn [cycle req' with_child] in *.
  wp_step. eapply wp_mono.
  { apply (take_acc_ok (srcId req) (cycle req) resp); [done| |done]. rewrite Ep2.
    eapply pf_ok_mono; [apply Hle2|]. apply Hw1. }
  intros acc w3 (Hw3 & Ep3 & Hle3 & Hacc3). rewrite Ep2 in Ep3.
  wp_step. wp_step; [by rewrite (pk_part _ _ (proj1 (proj2 Hw)))|].
  wp_step. rewrite <- F1, <- F3, <- Ep3. fold (pf_page_of (lineAddr req)). fold (pos_of (lineAddr req)).
  eapply wp_mono.
  { apply (table_ok req'); [done|done|apply page_pos|done|exact (load_prefetches _ req Hreq)]. }
  intros [resp' acc'] w4 (Hr & Hw4 & Hacc4 & Hle4 & Hal).
  wp_step. eapply wp_mono; [by apply (push_ok (srcId req) (cycle req) resp')|].
  intros [] w5 (Hb5 & Ep5 & Hle5 & Hrec5). wp_step. split; [done|]. split; [lia|]. split; [done|].
  split; [do 4 (etrans; [eassumption|]); done|]. split; [done|]. rewrite Ep5.
  unfold after_load in *. rewrite Ep3, F1, F2, F4, F5 in Hal. exact Hal.
Qed.

(** Other requests pass through; the caller's [childId] is not put back. *)
Lemma pf_other_ok req w :
  INV (srcId req) w -> type req <> GETS -> pp_req (with_child (pf_childId (pw_pf w)) req) ->
  wp (pf_access req)
    (fun '(req', resp) w' => cycle req <= resp /\ base w' /\ recs_le (srcId req) (recs w) (recs w') /\
       recorded (srcId req) (cycle req) resp w' /\ pw_pf w' = pw_pf w /\ childId req' = pf_childId (pw_pf w)) w.
Proof.
  intros Hw Hty Hreq. unfold pf_access. wp_step. wp_step. cbv zeta. rewrite bool_decide_eq_false_2 by exact Hty. cbn [negb].
  wp_step. eapply wp_mono; [by apply (pf_parent_access_ok (srcId req))|].
  intros [st resp] w2 (Hresp & _ & Hm2 & Ep2 & Hle2 & Htr2). wp_step. split; [done|].
  split; [split; [done|]; rewrite Ep2; eapply pf_ok_mono; [apply Hle2|apply Hw]|]. by split_and!.
Qed.

(** ** Accesses of cores, which take their records *)
Definition pf_core_access (req : MemReq) : M (PfWorld D) (MemReq * Z) :=
  r <- pf_access req ;; _ <- take_acc (srcId req) ;; ret r.

Lemma pf_drain_ok src c resp w0 w :
  pf_at_rest w0 -> base w -> recs_le src (recs w0) (recs w) -> recorded src c resp w ->
  wp (take_acc src) (fun _ w' => pf_at_rest w' /\ pw_pf w' = pw_pf w) w.
Proof.
  intros [_ Hi] [Hm Hp] Hle Hrec. eapply wp_mono; [by apply (take_acc_ok src c resp)|].
  intros acc w' ((Hm' & Hp' & Hi') & Ep & Hle' & _). split; [|done]. split; [by split|].
  intros s. destruct (decide (s = src)) as [->|Hne]; [done|]. intros tr Htr.
  rewrite (proj1 (proj2 Hle') s Hne), (proj1 (proj2 Hle) s Hne) in Htr. by apply (Hi s).
Qed.

Lemma core_access_ok req w :
  pf_at_rest w -> pf_req_ok (pf_childId (pw_pf w)) req ->
  wp (pf_core_access req)
    (fun '(req', resp) w' => pf_at_rest w' /\ cycle req <= resp /\ pf_childId (pw_pf w') = pf_childId (pw_pf w) /\
       (type req = GETS -> childId req' = childId req /\
          after_load (pf_page_of (lineAddr req)) (pos_of (lineAddr req)) (cycle req) (pw_pf w) (pw_pf w'))) w.
Proof.
  intros Hw Hreq. unfold pf_core_access. wp_step. unfold pf_req_ok in Hreq. destruct (decide (type req = GETS)) as [Hty|Hty].
  - eapply wp_mono; [apply pf_load_ok; [by apply at_rest_inv|done]|].
    intros [req' resp] w1 (Hc & Hresp & Hb & Hle & Hrec & Hal).
    wp_step. eapply wp_mono; [by apply (pf_drain_ok _ (cycle req) resp w)|]. intros acc w2 [Hr Ep]. wp_step. rewrite Ep.
    split_and!; try done. apply Hal.
  - eapply wp_mono; [apply pf_other_ok; [by apply at_rest_inv|done|done]|].
    intros [req' resp] w1 (Hresp & Hb & Hle & Hrec & Ep1 & Hc).
    wp_step. eapply wp_mono; [by apply (pf_drain_ok _ (cycle req) resp w)|]. intros acc w2 [Hr Ep]. wp_step. rewrite Ep, Ep1.
    split_and!; done.
Qed.

(** ** Responses in the weave phase *)

(** A change of the state of an event. *)
Definition ev_update (ev : nat) (f : TimingEvent -> res TimingEvent) : M (PfWorld D) unit :=
  r <- pf_recs ;;
  e <- lift (at_ (rc_events r) ev) ;;
  e' <- lift (f e) ;;
  pf_set_recs (mkRecs (<[ev := e']> (rc_events r)) (rc_records r)).

(** [run] and [done] of a [PrefetchResponseEvent]; its children are left to the weave
    phase. *)
Definition pf_respond (ev : nat) : M (PfWorld D) unit :=
  ev_update ev ev_run ;; simulatePrefetchResponse ev ;; ev_update ev ev_done.

Definition outstanding w (ev : nat) : Prop := is_Some (pf_owner (pw_pf w) !! ev) /\ ev_pending (evs w) ev.

Lemma ev_update_ok ev f e e' w : mem_ok w -> evs w !! ev = Some e -> f e = Ok e' -> ev_children e' = ev_children e ->
  wp (ev_update ev f) (fun _ w' => mem_ok w' /\ pw_pf w' = pw_pf w /\ evs w' = <[ev := e']> (evs w) /\
    rc_records (recs w') = rc_records (recs w)) w.
Proof.
  intros [Hp Ha] He Hf Hch. unfold ev_update, pf_recs, pf_set_recs. wp_step. wp_step.
  wp_step. eapply wp_lift; [by apply at_ok|]. wp_step. eapply wp_lift; [done|]. wp_step.
  unfold mem_ok, evs, recs. cbn [pw_pf pw_mem]. rewrite pp_recs_set. cbn [rc_events rc_records].
  split_and!; try done; [by apply pp_ok_set|]. intros i x Hx. rewrite length_insert.
  apply list_lookup_insert_Some in Hx as [(-> & <- & _)|(_ & Hx)]; [rewrite Hch|]; by eapply Ha.
Qed.

(** Once no entry points to [ev], its state does not matter. *)
Lemma pf_ok_forget a p ev e : pf_ok a p -> (forall i x q, pf_array p !! i = Some x -> pe_respEvents x !! q <> Some (Some ev)) ->
  pf_ok (<[ev := e]> a) p.
Proof.
  intros [H1 H2 H3 H4 H5 H6 H7 H8 H9 H10] Hno. constructor; try done.
  - intros i x Hx q ev' Hq. destruct (H8 i x Hx q ev' Hq) as [Ho (y & Hy & Hs)]. split; [done|]. exists y. split; [|done].
    rewrite list_lookup_insert_ne; [done|]. intros <-. by eapply Hno.
  - intros ev' i q Ho. destruct (H9 ev' i q Ho) as (? & ? & Hs). split_and!; [done|done|].
    apply lookup_lt_is_Some. rewrite length_insert. by apply lookup_lt_is_Some.
Qed.

Lemma respond_ok ev w : pf_at_rest w -> outstanding w ev ->
  wp (pf_respond ev) (fun _ w' => pf_at_rest w' /\ pf_childId (pw_pf w') = pf_childId (pw_pf w)) w.
Proof.
  intros [[Hm Hp] Hi] [[[i q] Ho] (e & He & Hs)]. unfold pf_respond.
  assert (ev_run e = Ok (set_ev_state EV_RUNNING e)) as Erun by (unfold ev_run, transition; by rewrite bool_decide_eq_true_2).
  wp_step. eapply wp_mono; [by eapply (ev_update_ok ev ev_run e)|]. intros [] w1 (Hm1 & Ep1 & Ee1 & Er1).
  destruct (pk_owner _ _ Hp _ _ _ Ho) as (Hi16 & Hq64 & _).
  destruct (lookup_lt_is_Some_2 (pf_array (pw_pf w)) i) as [x Hx]; [destruct Hp; lia|].
  pose proof (pk_entry _ _ Hp _ _ Hx) as Hxo.
  destruct (lookup_lt_is_Some_2 (pe_respEvents x) q) as [o Eo]; [rewrite (eo_events _ Hxo); lia|].
  wp_step. apply wp_mono with (P := fun _ w2 => mem_ok w2 /\ evs w2 = evs w1 /\ rc_records (recs w2) = rc_records (recs w) /\
    pf_ok (evs w) (pw_pf w2) /\ pf_childId (pw_pf w2) = pf_childId (pw_pf w) /\
    forall j y q', pf_array (pw_pf w2) !! j = Some y -> pe_respEvents y !! q' <> Some (Some ev)).
  - unfold simulatePrefetchResponse. wp_step. wp_step. rewrite Ep1, Ho. wp_step.
    wp_step; [by apply andb_true_iff; split; apply Nat.ltb_lt|].
    wp_step. eapply (get_entry_ok _ x); [by rewrite Ep1|]. wp_step. eapply wp_lift; [by apply at_ok|].
    apply wp_when; intros Hb.
    + apply bool_decide_eq_true in Hb as ->. wp_step. eapply wp_lift; [apply set_at_ok; rewrite (eo_events _ Hxo); lia|].
      eapply wp_mono; [apply (upd_entry_eq _ _ x); by rewrite Ep1|]. intros [] w2 ->. rewrite Ep1.
      split_and!; try done.
      * eapply pf_ok_entry; [done|done| |by left|].
        -- destruct Hxo. constructor; cbn; try done. by rewrite length_insert.
        -- intros q' ev' Hq'. cbn in Hq'. apply list_lookup_insert_Some in Hq' as [(_ & [=] & _)|(_ & Hq')].
           by eapply (pk_events _ _ Hp).
      * intros j y q' Hy Hq'. apply list_lookup_insert_Some in Hy as [(-> & <- & _)|(Hne & Hy)].
        -- cbn in Hq'. apply list_lookup_insert_Some in Hq' as [(_ & [=] & _)|(Hne & Hq')].
           destruct (pk_events _ _ Hp _ _ Hx _ _ Hq') as [Ho' _]. congruence.
        -- destruct (pk_events _ _ Hp _ _ Hy _ _ Hq') as [Ho' _]. congruence.
    + apply bool_decide_eq_false in Hb. rewrite Ep1. split_and!; try done. intros j y q' Hy Hq'.
      destruct (pk_events _ _ Hp _ _ Hy _ _ Hq') as [Ho' _]. congruence.
  - intros [] w2 (Hm2 & Ee2 & Er2 & Hp2 & Hc2 & Hno).
    assert (evs w2 !! ev = Some (set_ev_state EV_RUNNING e)) as He2.
    { rewrite Ee2, Ee1. apply list_lookup_insert_eq. by eapply lookup_lt_Some. }
    eapply wp_mono; [by eapply (ev_update_ok ev ev_done)|]. intros [] w3 (Hm3 & Ep3 & Ee3 & Er3).
    split; [|by rewrite Ep3]. split; [split; [done|]|].
    + rewrite Ee3, Ee2, Ee1, Ep3, list_insert_insert_eq. by apply pf_ok_forget.
    + intros src tr Htr. rewrite Er3, Er2 in Htr. by apply (Hi src).
Qed.
End Run.
