(* ===== verification/PrefetchStream.v ===== *)
(** * The prefetcher runs, and follows streams *)

From stdpp Require Import base list gmap strings.
From Stdlib Require Import ZArith Lia.
From S2P Require Import Prelude Numeric MemHierarchy DdrBound Coherence Prefetch PrefetchInv PrefetchSpec.
Local Open Scope Z_scope.

(** ** A parent for the prefetcher

    A memory with a fixed latency that records an event per access; it keeps the
    contract [PfParent]. *)

Record FixedMem := mkFM { fm_latency : Z; fm_recs : Recs }.

Definition fm_access (req : MemReq) : M FixedMem (MESIState * Z) :=
  d <- get ;;
  let resp := u64 (cycle req + fm_latency d) in
  let r := fm_recs d in
  modify (fun d =>
    match rc_records r !! srcId req with
    | None => d
    | Some _ =>
        mkFM (fm_latency d)
          (mkRecs (rc_events r ++ [setMinStartCycle (cycle req) (DelayEvent_new (fm_latency d))])
             (<[srcId req := mkTR (lineAddr req) (cycle req) resp (type req)
                               (Some (length (rc_events r))) (Some (length (rc_events r)))]> (rc_records r)))
    end) ;;
  ret (if is_flag req PREFETCH then MESI.I else MESI.E, resp).

#[export] Instance FixedMem_top : MemTop FixedMem := {|
  top_access := fun _ => fm_access;
  top_recs := fm_recs;
  top_set_recs := fun r d => mkFM (fm_latency d) r
|}.

#[export] Program Instance FixedMem_parent : PfParent FixedMem := {|
  pp_ok := fun d => 0 <= fm_latency d < 2 ^ 63;
  pp_req := fun req => 0 <= cycle req < 2 ^ 63
|}.
Next Obligation. done. Qed.
Next Obligation. done. Qed.
Next Obligation.
  intros d req Hd Hc Ha Hi. cbv beta in *. cbn [top_access FixedMem_top]. unfold fm_access.
  wp_step. wp_step. cbv zeta. wp_step. wp_step. wp_step. cbn [top_recs FixedMem_top] in *.
  rewrite u64_id by (unfold in_u64; lia).
  destruct (arena_app (rc_events (fm_recs d)) (setMinStartCycle (cycle req) (DelayEvent_new (fm_latency d))))
    as (Ha' & Hle & Hf); [done|done|done|].
  destruct (rc_records (fm_recs d) !! srcId req) as [tr0|] eqn:Er; cbn [fm_latency fm_recs rc_events rc_records].
  - split_and!; try done; try lia.
    + by destruct (is_flag req PREFETCH).
    + split_and!; cbn; [done|intros s Hs; by rewrite lookup_insert_ne|]. rewrite lookup_insert_eq, Er. split; by eauto.
    + intros tr. rewrite lookup_insert_eq. intros [= <-] _. eexists _, _. cbn. split_and!; try done; lia.
  - split_and!; try done; try lia; [by destruct (is_flag req PREFETCH)|]. intros tr Htr. congruence.
Qed.

Definition no_record : TimingRecord := mkTR 0 0 0 GETS None None.

(** One core with a recorder. *)
Definition demo_mem : FixedMem := mkFM 100 (mkRecs [] {[0 := no_record]}).

Definition pf_load (a c : Z) : MemReq := mkMemReq a GETS 3 MESI.I c MESI.I 0 0.

Lemma pf_demo_idle src : rec_idle src (top_recs demo_mem).
Proof.
  intros tr Htr. cbn in Htr. destruct (decide (src = 0)) as [->|Hne].
  - rewrite lookup_singleton_eq in Htr. by injection Htr as <-.
  - by rewrite lookup_singleton_ne in Htr.
Qed.

Lemma demo_arena : arena_ok (rc_events (top_recs demo_mem)).
Proof. intros i e He. done. Qed.

Lemma load_load_ok a c : 64 <= a < 2 ^ 64 -> 0 <= c < 2 ^ 63 -> load_ok (D := FixedMem) 7 (pf_load a c).
Proof.
  intros Ha Hc. destruct (page_pos a) as [E Hp]. split_and!; cbn; try done; try lia.
Qed.

(** ** The prefetcher runs, and follows streams *)

(** ** Histories *)

Inductive PfOp :=
| PfAccess (req : MemReq)
| PfRespond (ev : nat).

Section Histories.
Context {D : Type} `{PfParent D}.
Implicit Types w : PfWorld D.

Definition is_outstanding w (ev : nat) : bool :=
  match pf_owner (pw_pf w) !! ev, evs w !! ev with
  | Some _, Some e => bool_decide (ev_state e ∈ [EV_NONE; EV_QUEUED])
  | _, _ => false
  end.

(** Responses come only of prefetches that wait for one. *)
Definition pf_run (ops : list PfOp) : M (PfWorld D) unit :=
  forM ops (fun op =>
    match op with
    | PfAccess req => pf_core_access req ;; ret tt
    | PfRespond ev => w <- get ;; when (is_outstanding w ev) (pf_respond ev)
    end).

Definition pf_op_ok (childId_ : Z) (op : PfOp) : Prop :=
  match op with PfAccess req => pf_req_ok (D := D) childId_ req | PfRespond _ => True end.

Lemma is_outstanding_ok w ev : is_outstanding w ev = true -> outstanding w ev.
Proof.
  unfold is_outstanding, outstanding, ev_pending. destruct (pf_owner _ !! ev), (evs w !! ev) as [e|]; try done.
  intros Hb%bool_decide_eq_true. split; [done|]. by exists e.
Qed.

Lemma pf_run_ok childId_ ops w : pf_at_rest w -> pf_childId (pw_pf w) = childId_ -> Forall (pf_op_ok childId_) ops ->
  wp (pf_run ops) (fun _ w' => pf_at_rest w' /\ pf_childId (pw_pf w') = childId_) w.
Proof.
  intros Hw Hc Hops. unfold pf_run. apply (wp_forM_inv _ _ (fun w => pf_at_rest w /\ pf_childId (pw_pf w) = childId_)); [done|].
  intros op w' Hin [Hw' Hc']. rewrite list.Forall_forall in Hops. specialize (Hops op Hin). destruct op as [req|ev]; cbn in Hops.
  - wp_step. eapply wp_mono; [apply core_access_ok; [done|by rewrite Hc']|]. intros [req' resp] w1 (Hr & _ & Hc1 & _).
    wp_step. split; [done|congruence].
  - wp_step. wp_step. apply wp_when; intros Hb; [|done]. apply is_outstanding_ok in Hb.
    eapply wp_mono; [by apply respond_ok|]. intros [] w1 [Hr Hc1]. split; [done|congruence].
Qed.

Lemma pf_start_ok numBuffers childId_ d :
  (16 <= numBuffers)%nat -> pp_ok d -> arena_ok (rc_events (top_recs d)) -> (forall src, rec_idle src (top_recs d)) ->
  pf_at_rest (mkPW (StreamPrefetcher_new numBuffers false childId_) d).
Proof.
  intros Hn Hd Ha Hi. split; [|done]. split; [done|]. constructor; cbn [StreamPrefetcher_new pw_pf pf_tag pf_array pf_numBuffers pf_partitionBuffers pf_owner pf_prof].
  - apply length_replicate.
  - apply length_replicate.
  - done.
  - done.
  - intros i t Ht _. by apply lookup_replicate in Ht as [-> _].
  - intros i e He. apply lookup_replicate in He as [-> _]. constructor; cbn; lia.
  - intros i e t _ Ht. by apply lookup_replicate in Ht as [-> _].
  - intros i e He q ev Hq. apply lookup_replicate in He as [-> _]. change (replicate 64 None !! q = Some (Some ev)) in Hq.
    by apply lookup_replicate in Hq as [? _].
  - intros ev i q Hx. by rewrite lookup_empty in Hx.
  - unfold in_u64. lia.
Qed.
End Histories.

(** C38: a prefetcher with at least 16 buffers, not partitioned among the children,
    runs every history of requests of the cores, with no load of page 0, and of
    responses of prefetches, over every parent that keeps its contract for the requests and
    for loads of the lines of their pages; then a further such request returns not
    before it was made, a load gives the caller's [childId] back, and the state is
    at rest again: entries are well formed, the events they point to have not run,
    and no record is left.  Prefetches therefore stay in the page of their load,
    and building the graph of events fails no assertion. *)
Theorem prefetcher_runs {D} `{PfParent D} numBuffers childId_ (d : D) ops req :
  (16 <= numBuffers)%nat -> pp_ok d -> arena_ok (rc_events (top_recs d)) -> (forall src, rec_idle src (top_recs d)) ->
  Forall (pf_op_ok (D := D) childId_) ops -> pf_req_ok (D := D) childId_ req ->
  wp (pf_run ops)
    (fun _ w => pf_at_rest w /\
       wp (pf_core_access req)
         (fun '(req', resp) w' => pf_at_rest w' /\ cycle req <= resp /\ (type req = GETS -> childId req' = childId req)) w)
    (mkPW (StreamPrefetcher_new numBuffers false childId_) d).
Proof.
  intros Hn Hd Ha Hi Hops Hreq. eapply wp_mono; [by apply (pf_run_ok childId_); [apply pf_start_ok| |]|].
  intros [] w [Hw Hc]. split; [done|]. eapply wp_mono; [apply core_access_ok; [done|by rewrite Hc]|].
  intros [req' resp] w' (Hr & Hresp & _ & Hl). split_and!; [done|done|]. intros Hty. by apply Hl.
Qed.

Lemma prefetcher_runs_witness :
  wp (pf_run [PfAccess (pf_load 640 10); PfAccess (pf_load 641 20); PfRespond 3; PfAccess (pf_load 642 30)])
    (fun _ w => pf_at_rest w /\
       wp (pf_core_access (pf_load 643 40))
         (fun '(req', resp) w' => pf_at_rest w' /\ 40 <= resp /\ (GETS = GETS -> childId req' = 3)) w)
    (mkPW (StreamPrefetcher_new 16 false 7) demo_mem).
Proof.
  assert (forall a c, 64 <= a < 2 ^ 64 -> 0 <= c < 2 ^ 63 -> pf_req_ok (D := FixedMem) 7 (pf_load a c)) as Hreq.
  { intros a c Ha Hc. unfold pf_req_ok. cbn. by apply load_load_ok. }
  apply (prefetcher_runs 16 7 demo_mem
    [PfAccess (pf_load 640 10); PfAccess (pf_load 641 20); PfRespond 3; PfAccess (pf_load 642 30)] (pf_load 643 40)).
  - lia.
  - cbn. lia.
  - exact demo_arena.
  - exact pf_demo_idle.
  - repeat apply list.Forall_cons_2; [..|apply list.Forall_nil_2]; cbn [pf_op_ok]; try exact I; apply Hreq; lia.
  - apply Hreq; lia.
Defined.

(** ** Streams *)

Lemma bit_insert (l : list bool) a v q : 0 <= a < Z.of_nat (length l) -> 0 <= q ->
  default false (<[Z.to_nat a := v]> l !! Z.to_nat q) = if decide (q = a) then v else default false (l !! Z.to_nat q).
Proof.
  intros Ha Hq. destruct (decide (q = a)) as [->|Hne].
  - by rewrite list_lookup_insert_eq by lia.
  - by rewrite list_lookup_insert_ne by lia.
Qed.

(** The entry of a page that is read line by line, up to [pos]: the lines from there
    to the last prefetch wait. *)
Definition streaming (pos : Z) (e : PfEntry) : Prop :=
  pe_stride e = 1 /\ 2 <= pe_conf e /\ pe_lastPos e = pos /\ length (pe_valid e) = 64%nat /\
  0 <= pe_lastPrefetchPos e < 64 /\ (pos < 63 -> pos < pe_lastPrefetchPos e) /\
  forall q, 0 <= q < 64 -> is_valid e q = (pos <? q) && (q <=? pe_lastPrefetchPos e).

(** One step ahead, when the lines between [pos] and [t] wait and [t] is next. *)
Lemma ahead_streaming pos t e1 e2 :
  pe_stride e1 = 1 -> 2 <= pe_conf e1 -> length (pe_valid e1) = 64%nat -> 0 <= pe_lastPrefetchPos e1 < 64 ->
  0 <= pos < t -> t <= 64 -> (t = 64 -> pos = 63 \/ pe_lastPrefetchPos e1 = 63) ->
  target e1 pos 1 = t -> (forall q, 0 <= q < 64 -> is_valid e1 q = (pos <? q) && (q <? t)) ->
  ahead pos 1 e1 e2 -> streaming pos (pe_set_last pos (pe_lastPos e2) e2).
Proof.
  intros Hs Hc Hl HL Hpos Ht Hend Et Hv [(S1 & S2 & S3 & S4) Hcase]. rewrite Et in Hcase.
  assert (conf_pred (pe_conf e1) = true) as Hp by (by apply Z.leb_le).
  unfold streaming, is_valid in *. cbn. split; [congruence|]. split; [congruence|]. split; [done|].
  destruct Hcase as [(V & L & [Hn|[Hn|Hn]])|(last & _ & Hlt & _ & Hlast & Hor & L & V)].
  - congruence.
  - rewrite V, L. assert (t = 64) as -> by lia. specialize (Hend eq_refl).
    split_and!; [done|lia|lia|lia|]. intros q Hq. rewrite Hv by done. destruct Hend as [->|Hend].
    + destruct (Z.ltb_spec 63 q); [lia|done].
    + rewrite Hend. f_equal. destruct (Z.ltb_spec q 64), (Z.leb_spec q 63); lia.
  - exfalso. destruct (Z.lt_ge_cases t 64) as [Hlt|Hge].
    + rewrite Hv in Hn by lia. apply andb_true_iff in Hn as [_ Hn]. apply Z.ltb_lt in Hn. lia.
    + assert (pe_valid e1 !! Z.to_nat t = None) as Hnone by (apply lookup_ge_None; lia). by rewrite Hnone in Hn.
  - rewrite V, L, !length_insert. split_and!; try done; try lia.
    { intros _. destruct Hor as [->| ->]; [lia|]. rewrite u32_id by (unfold in_u32; lia). lia. }
    assert (last = t \/ last = t + 1) as Hor'.
    { destruct Hor as [->|Hor]; [by left|right]. rewrite Hor. apply u32_id. unfold in_u32. lia. }
    intros q Hq. rewrite bit_insert by (rewrite ?length_insert; lia). rewrite bit_insert by lia. rewrite Hv by done.
    destruct (decide (q = last)), (decide (q = t)); symmetry; rewrite ?andb_true_iff, ?Z.ltb_lt, ?Z.leb_le; try (split; lia).
    destruct (Z.ltb_spec pos q), (Z.ltb_spec q t), (Z.leb_spec q last); try done; lia.
Qed.

(** The second load of the stream. *)
Lemma stream_start pos e e' : 0 <= pos < 63 -> new_entry pos e -> streamed (pos + 1) e e' ->
  streaming (pos + 1) e' /\ hit_of e (pos + 1) = 0.
Proof.
  intros Hpos (Hs & Hc & Hv & Hlp & HL) (e1 & e2 & V1 & S1 & C1 & P1 & L1 & Hah & ->).
  assert (forall q, default false (replicate 64 false !! Z.to_nat q) = false) as Hf.
  { intros q. destruct (replicate 64 false !! Z.to_nat q) as [v|] eqn:E; [|done]. by apply lookup_replicate in E as [-> _]. }
  split; [|unfold hit_of, is_valid; by rewrite Hv, Hf].
  rewrite Hs in Hah. apply (ahead_streaming (pos + 1) (pos + 2) e1 e2); try done; try lia.
  - rewrite C1, Hc. done.
  - by rewrite V1, Hv, length_insert, length_replicate.
  - unfold target. rewrite L1, P1, HL, Hlp. replace (u32 1) with 1 by done. rewrite Z.div_1_r.
    assert (i32 (u32 (0 - pos)) = - pos) as ->.
    { unfold i32. rewrite (u32_id (u32 _)) by apply u32_range. change (i32 (0 - pos) = - pos). rewrite i32_small; lia. }
    destruct (Z.ltb_spec (- pos) 1); [|lia]. rewrite u32_id by (unfold in_u32; lia). lia.
  - intros q Hq. unfold is_valid. rewrite V1, Hv, bit_insert by (rewrite ?length_replicate; lia). rewrite Hf.
    destruct (decide _), (Z.ltb_spec (pos + 1) q), (Z.ltb_spec q (pos + 2)); try done; lia.
Qed.

(** Every further load is a hit. *)
Lemma stream_step pos e e' : 0 <= pos < 63 -> streaming pos e -> pe_conf e <= 3 -> streamed (pos + 1) e e' ->
  streaming (pos + 1) e' /\ hit_of e (pos + 1) = 1.
Proof.
  intros Hpos (Hs & Hc & Hlp & Hl & HL & Hlt & Hv) Hc3 (e1 & e2 & V1 & S1 & C1 & P1 & L1 & Hah & ->).
  specialize (Hlt ltac:(lia)). split.
  - rewrite Hs in Hah. apply (ahead_streaming (pos + 1) (pe_lastPrefetchPos e + 1) e1 e2); try done; try lia.
    + rewrite C1. unfold conf_inc, sat_inc. lia.
    + by rewrite V1, length_insert.
    + unfold target. rewrite L1, P1, Hlp. replace (u32 1) with 1 by done. rewrite Z.div_1_r.
      rewrite (u32_id (_ - _)) by (unfold in_u32; lia). rewrite i32_small by lia.
      destruct (Z.ltb_spec (pe_lastPrefetchPos e - pos) 1); [lia|]. rewrite u32_id by (unfold in_u32; lia). lia.
    + intros q Hq. unfold is_valid in *. rewrite V1, bit_insert by lia. rewrite Hv by done.
      destruct (decide _), (Z.ltb_spec pos q), (Z.ltb_spec (pos + 1) q), (Z.ltb_spec q (pe_lastPrefetchPos e + 1)),
        (Z.leb_spec q (pe_lastPrefetchPos e)); try done; lia.
  - unfold hit_of. rewrite Hv by lia.
    destruct (Z.ltb_spec pos (pos + 1)), (Z.leb_spec (pos + 1) (pe_lastPrefetchPos e)); try done; lia.
Qed.

Lemma line_split page x : 0 <= x < 64 -> pf_page_of (64 * page + x) = page /\ pos_of (64 * page + x) = x.
Proof. intros Hx. destruct (page_pos (64 * page + x)) as [E Hp]. lia. Qed.

Section Streams.
Context {D : Type} `{PfParent D}.
Implicit Types w : PfWorld D.

Definition loads (reqs : list MemReq) : M (PfWorld D) unit := forM reqs (fun req => pf_core_access req ;; ret tt).

(** Loads of successive lines of [page] from [pos] on. *)
Fixpoint stream (childId_ page pos : Z) (reqs : list MemReq) : Prop :=
  match reqs with
  | [] => True
  | req :: reqs' => lineAddr req = 64 * page + pos /\ load_ok (D := D) childId_ req /\ stream childId_ page (pos + 1) reqs'
  end.

Definition hits w : Z := pf_prof (pw_pf w) profHits.

(** The entry of the page at [idx] is [e]. *)
Definition at_page (page : Address) (idx : nat) (e : PfEntry) w : Prop :=
  pf_tag (pw_pf w) !! idx = Some page /\ pf_array (pw_pf w) !! idx = Some e /\
  forall j, pf_tag (pw_pf w) !! j = Some page -> j = idx.

(** The next load of the stream. *)
Lemma next_load req page idx e pos w childId_ :
  pf_at_rest w -> pf_childId (pw_pf w) = childId_ -> at_page page idx e w -> pe_stride e = 1 -> pe_lastPos e = pos ->
  0 <= pos < 63 -> lineAddr req = 64 * page + (pos + 1) -> load_ok (D := D) childId_ req ->
  wp (pf_core_access req)
    (fun _ w' => pf_at_rest w' /\ pf_childId (pw_pf w') = childId_ /\ hits w' = u64 (hits w + hit_of e (pos + 1)) /\
       exists e', at_page page idx e' w' /\ streamed (pos + 1) e e') w.
Proof.
  intros Hw Hc (T1 & T2 & T3) Hs Hl Hpos Ha Hreq. pose proof Hreq as (Hty & _).
  destruct (line_split page (pos + 1) ltac:(lia)) as [Ep Eq].
  eapply wp_mono; [apply core_access_ok; [done|]|].
  { unfold pf_req_ok. rewrite decide_True by done. by rewrite Hc. }
  intros [req' resp] w' (Hr & _ & Hc' & Hal). destruct (Hal Hty) as (_ & _ & Hhit & _). rewrite Ha, Ep, Eq in Hhit.
  destruct (Hhit idx e T1 T2 T3) as (Et & (e' & He' & Hst) & Hh). split_and!; try done; [congruence|].
  exists e'. split; [split_and!; [by rewrite Et|done|by rewrite Et]|]. apply Hst. lia.
Qed.

Lemma stream_loop page idx childId_ reqs : forall w e pos,
  pf_at_rest w -> pf_childId (pw_pf w) = childId_ -> at_page page idx e w -> streaming pos e -> 0 <= pos ->
  pos + Z.of_nat (length reqs) < 64 -> stream childId_ page (pos + 1) reqs ->
  wp (loads reqs) (fun _ w' => pf_at_rest w' /\ hits w' = u64 (hits w + Z.of_nat (length reqs))) w.
Proof.
  induction reqs as [|req reqs IH]; intros w e pos Hw Hc Hat Hst Hpos Hlen Hstr.
  { unfold loads. cbn [forM]. wp_step. split; [done|]. unfold hits. cbn [length]. rewrite Z.add_0_r, u64_id; [done|].
    apply (pk_hits _ _ (proj2 (proj1 Hw))). }
  destruct Hstr as (Ha & Hreq & Hstr). cbn [length] in Hlen. unfold loads. cbn [forM]. wp_step. wp_step.
  pose proof Hst as (Hs & _ & Hl & _).
  assert (pe_conf e <= 3) as Hc3.
  { destruct Hat as (_ & He & _). apply (eo_conf _ (pk_entry _ _ (proj2 (proj1 Hw)) _ _ He)). }
  eapply wp_mono; [apply (next_load req page idx e pos w childId_); try done; lia|].
  intros [req' resp] w1 (Hw1 & Hc1 & Hh & e' & Hat' & Hst'). wp_step.
  destruct (stream_step pos e e' ltac:(lia) Hst Hc3 Hst') as [Hst1 Eh].
  eapply wp_mono; [apply (IH w1 e' (pos + 1)); try done; lia|]. intros [] w2 [Hw2 Hh2]. split; [done|].
  rewrite Hh2, Hh, Eh. unfold u64. rewrite Zplus_mod_idemp_l. f_equal. cbn [length]. lia.
Qed.
End Streams.

(** C25: a stream of loads of successive lines of a page that is not in the table,
    when some entry may be replaced, hits a prefetched line from the third load on:
    the hits grow by the number of loads less two. *)
Theorem stream_prefetched {D} `{PfParent D} page pos req0 req1 reqs (w : PfWorld D) :
  pf_at_rest w -> (forall i, pf_tag (pw_pf w) !! i <> Some page) ->
  (exists i e, (i < 16)%nat /\ pf_array (pw_pf w) !! i = Some e /\ cold (cycle req0) e /\ pe_ts e < 2 ^ 64 - 1) ->
  0 <= pos -> pos + Z.of_nat (length reqs) + 2 <= 64 ->
  stream (D := D) (pf_childId (pw_pf w)) page pos (req0 :: req1 :: reqs) ->
  wp (loads (req0 :: req1 :: reqs))
    (fun _ w' => pf_at_rest w' /\ hits w' = u64 (hits w + Z.of_nat (length reqs))) w.
Proof.
  intros Hw Hno Hcold Hpos Hlen (Ha0 & Hr0 & Ha1 & Hr1 & Hstr).
  destruct (line_split page pos ltac:(lia)) as [Ep0 Eq0]. pose proof Hr0 as (Hty & _).
  unfold loads. cbn [forM]. wp_step. wp_step. eapply wp_mono; [apply core_access_ok; [done|]|].
  { unfold pf_req_ok. by rewrite decide_True. }
  intros [req' resp] w1 (Hw1 & _ & Hc1 & Hal). wp_step. destruct (Hal Hty) as (_ & _ & _ & Hnew).
  rewrite Ha0, Ep0, Eq0 in Hnew. destruct (Hnew Hno) as [Hh1 Hent]. destruct (Hent Hcold) as (idx & e & T1 & T2 & T3 & Hn).
  pose proof Hn as (Hs & _ & _ & Hl & _).
  wp_step. wp_step. eapply wp_mono; [apply (next_load req1 page idx e pos w1 (pf_childId (pw_pf w))); try done; lia|].
  intros [req1' resp1] w2 (Hw2 & Hc2 & Hh2 & e' & Hat & Hst). wp_step.
  destruct (stream_start pos e e' ltac:(lia) Hn Hst) as [Hst1 Eh].
  eapply wp_mono.
  { apply (stream_loop page idx (pf_childId (pw_pf w)) reqs w2 e' (pos + 1)); try done; lia. }
  intros [] w3 [Hw3 Hh3]. split; [done|]. rewrite Hh3, Hh2, Eh. unfold hits. rewrite Hh1, Z.add_0_r.
  rewrite (u64_id (pf_prof _ _)); [done|]. apply (pk_hits _ _ (proj2 (proj1 Hw))).
Qed.

Lemma stream_prefetched_witness :
  wp (loads [pf_load 640 10; pf_load 641 20; pf_load 642 30; pf_load 643 40; pf_load 644 50])
    (fun _ w' => pf_at_rest w' /\ hits w' = 3) (mkPW (StreamPrefetcher_new 16 false 7) demo_mem).
Proof.
  apply (stream_prefetched 10 0 (pf_load 640 10) (pf_load 641 20) [pf_load 642 30; pf_load 643 40; pf_load 644 50]
           (mkPW (StreamPrefetcher_new 16 false 7) demo_mem)).
  - apply pf_start_ok; [lia|cbn; lia|exact demo_arena|exact pf_demo_idle].
  - intros i Hi. cbn [pw_pf StreamPrefetcher_new pf_tag] in Hi. apply lookup_replicate in Hi as [Hi _]. discriminate.
  - exists 0%nat, pe_zero. split; [lia|]. split; [reflexivity|]. split; [unfold cold; cbn; discriminate|reflexivity].
  - lia.
  - cbn. lia.
  - cbn [stream]. repeat (split; [reflexivity|split; [apply load_load_ok; lia|]]). exact I.
Defined.

(** ** Where the prefetcher fails *)

(** Entries that were never taken have the tag and the stride 0, so that the page 0
    finds one, and the second load of line 0 divides by its stride. *)
Lemma line_zero_divides :
  loads [pf_load 0 10; pf_load 0 20] (mkPW (StreamPrefetcher_new 16 false 7) demo_mem) = Err DivByZero.
Proof. vm_compute. reflexivity. Qed.

(** The search for an entry reads 16 of them, however many there are. *)
Lemma few_buffers_overrun :
  loads [pf_load 640 10] (mkPW (StreamPrefetcher_new 8 false 7) demo_mem) = Err OutOfRange.
Proof. vm_compute. reflexivity. Qed.
