(* ===== verification/FilterAccess.v ===== *)
(** * An access of a core and the lines its filter remembers

    The access of a core to its own cache may replace a line of the accessed
    set and change the states of that set; every other line of the cache of
    any core is lost only together with its filter entry. *)

From stdpp Require Import base list gmap strings.
From Stdlib Require Import ZArith Lia.
From S2P Require Import Prelude Numeric MemHierarchy DdrBound ReplPolicy CacheArray Coherence CoherenceInv CoherenceEnv CoherenceSteps CoherenceAccess.
Local Open Scope Z_scope.

(** ** What an access may do to the filters and to the caches of the cores

    A core's filter ([src/src/filter_cache.h]) remembers lines that its cache
    holds.  [ffr ex h h'] says that between two states the cache of a core
    loses a line, or a permission on it, only if its filter has dropped the
    line too; the lines in [ex] are exempt.  Every operation of a hierarchy
    keeps this relation, whatever the state of the directories. *)

(** ** Filters *)

(** 0 marks a cleared entry, [no_addr] an invalidated one. *)
Definition valid_addr (v : Address) : Prop := v <> 0 /\ v <> no_addr.

Definition in_filter (fl : Filters) (j : nat) (a : Address) : Prop :=
  exists arr idx e, fl_arrays fl !! j = Some arr /\ arr !! idx = Some e /\ valid_addr (fe_rdAddr e) /\
    Z.lor (fe_rdAddr e) (fl_procMask fl) = a.

(** An entry is at the index of its address. *)
Definition filters_wf (fl : Filters) : Prop :=
  forall j arr idx e, fl_arrays fl !! j = Some arr -> arr !! idx = Some e -> valid_addr (fe_rdAddr e) ->
    idx = filter_index arr (Z.lor (fe_rdAddr e) (fl_procMask fl)).

Definition dropped (e : FilterEntry) : Prop := fe_rdAddr e = no_addr /\ fe_wrAddr e = no_addr.

(** [fl'] has fewer entries than [fl]. *)
Record fl_le (fl' fl : Filters) : Prop := {
  fle_mask : fl_procMask fl' = fl_procMask fl;
  fle_len : length (fl_arrays fl') = length (fl_arrays fl);
  fle_arrays : forall j arr', fl_arrays fl' !! j = Some arr' ->
    exists arr, fl_arrays fl !! j = Some arr /\ length arr' = length arr /\
      forall idx e', arr' !! idx = Some e' -> exists e, arr !! idx = Some e /\ (e' = e \/ dropped e')
}.

Lemma fl_le_refl fl : fl_le fl fl.
Proof. split; [done|done|]. intros j arr H. exists arr. split_and!; [done|done|]. eauto. Qed.

Lemma fl_le_trans f1 f2 f3 : fl_le f3 f2 -> fl_le f2 f1 -> fl_le f3 f1.
Proof.
  intros [M2 L2 A2] [M1 L1 A1]. split; [congruence|congruence|]. intros j arr3 H3.
  destruct (A2 _ _ H3) as (arr2 & H2 & E2 & B2). destruct (A1 _ _ H2) as (arr1 & H1 & E1 & B1).
  exists arr1. split_and!; [done|congruence|]. intros idx e3 He3.
  destruct (B2 _ _ He3) as (e2 & He2 & [->|Hd]); destruct (B1 _ _ He2) as (e1 & He1 & Hor); eauto.
Qed.

Lemma dropped_invalid e : dropped e -> ~ valid_addr (fe_rdAddr e).
Proof. intros [-> _] [_ ?]. done. Qed.

Lemma filters_wf_le fl fl' : fl_le fl' fl -> filters_wf fl -> filters_wf fl'.
Proof.
  intros [Hm Hl Ha] Hwf j arr' idx e' H' He' Hv. destruct (Ha _ _ H') as (arr & H & Hlen & Hent).
  destruct (Hent _ _ He') as (e & He & [->|Hd]); [|by apply dropped_invalid in Hd].
  rewrite (Hwf j arr idx e) by done. unfold filter_index. by rewrite Hm, Hlen.
Qed.

Lemma in_filter_le fl fl' j a : fl_le fl' fl -> in_filter fl' j a -> in_filter fl j a.
Proof.
  intros [Hm Hl Ha] (arr' & idx & e' & H' & He' & Hv & Heq). destruct (Ha _ _ H') as (arr & H & _ & Hent).
  destruct (Hent _ _ He') as (e & He & [->|Hd]); [|by apply dropped_invalid in Hd].
  exists arr, idx, e. by rewrite <- Hm.
Qed.

Lemma filter_inval_le i a fl : fl_le (filter_inval i a fl) fl.
Proof.
  unfold filter_inval. destruct (fl_arrays fl !! i) as [arr|] eqn:Hi; [|apply fl_le_refl].
  destruct (arr !! filter_index arr a) as [e|] eqn:He; [|apply fl_le_refl].
  destruct (_ =? _); [|apply fl_le_refl]. split; simpl; [done|by rewrite length_insert|].
  intros j arr' H'. apply list_lookup_insert_Some in H' as [(<- & <- & _)|[Hne H']].
  - exists arr. rewrite length_insert. split_and!; [done|done|]. intros idx e' H2.
    apply list_lookup_insert_Some in H2 as [(<- & <- & _)|[_ ?]]; [|by eauto].
    exists e. split; [done|]. by right.
  - exists arr'. split_and!; [done|done|]. eauto.
Qed.

(** The line is no longer in the filter. *)
Lemma filter_inval_out i a fl : filters_wf fl -> ~ in_filter (filter_inval i a fl) i a.
Proof.
  intros Hwf Hin. pose proof (filter_inval_le i a fl) as Hle.
  pose proof (filters_wf_le _ _ Hle Hwf) as Hwf'. destruct Hin as (arr' & idx & e' & H' & He' & Hv & Heq).
  pose proof (Hwf' _ _ _ _ H' He' Hv) as Hidx. rewrite Heq in Hidx.
  revert H' Heq. unfold filter_inval. destruct (fl_arrays fl !! i) as [arr|] eqn:Hi; [|congruence].
  destruct (arr !! filter_index arr a) as [e|] eqn:He; [|intros; simplify_eq; congruence].
  destruct (Z.eqb_spec (Z.lor (fe_rdAddr e) (fl_procMask fl)) a) as [E|E].
  - simpl. intros H' _. rewrite list_lookup_insert_eq in H' by (by eapply lookup_lt_Some).
    injection H' as <-. rewrite Hidx in He'.
    unfold filter_index in He'. rewrite length_insert in He'. fold (filter_index arr a) in He'.
    rewrite list_lookup_insert_eq in He' by (by eapply lookup_lt_Some).
    injection He' as <-. by destruct Hv as [_ ?].
  - intros H' Heq. by simplify_eq.
Qed.

(** ** The relation *)
Section Frame.
Context {R D : Type} `{RP : ReplPolicy R} `{MT : MemTop D} (nodes : list Node).
Implicit Types (h : Hier R D) (c : CacheSt R) (ex : nat -> nat -> Prop).

Definition terminal (j : nat) : Prop := exists nd, nodes !! j = Some nd /\ n_terminal nd = true.

(** The lines whose address may change. *)
Context (xa : nat -> nat -> Prop).

(** What may change in the cache [j] of a core. *)
Definition line_kept ex (fl' : Filters) (j : nat) c c' : Prop :=
  forall l, ~ xa j l -> sa_array (ca_sa c') !! l = sa_array (ca_sa c) !! l /\
    (~ ex j l -> ca_bcc c' !! l = ca_bcc c !! l \/ exists a, sa_array (ca_sa c) !! l = Some a /\ ~ in_filter fl' j a).

Record ffr ex h h' : Prop := {
  ff_filters : fl_le (h_filters h') (h_filters h);
  ff_caches : forall j c, terminal j -> h_caches h !! j = Some c ->
    exists c', h_caches h' !! j = Some c' /\ line_kept ex (h_filters h') j c c'
}.

Lemma ffr_refl ex h : ffr ex h h.
Proof. split; [apply fl_le_refl|]. intros j c _ Hc. exists c. split; [done|]. intros l _. auto. Qed.

Lemma ffr_trans ex h1 h2 h3 : ffr ex h1 h2 -> ffr ex h2 h3 -> ffr ex h1 h3.
Proof.
  intros [F1 C1] [F2 C2]. split; [by eapply fl_le_trans|]. intros j c Hj Hc.
  destruct (C1 j c Hj Hc) as (c2 & Hc2 & K1). destruct (C2 j c2 Hj Hc2) as (c3 & Hc3 & K2).
  exists c3. split; [done|]. intros l Hl. destruct (K1 l Hl) as [A1 B1], (K2 l Hl) as [A2 B2].
  split; [congruence|]. intros Hx. destruct (B2 Hx) as [B2'|(a & Ha & Hn)].
  - rewrite B2'. destruct (B1 Hx) as [|(a & Ha & Hn)]; [by left|]. right. exists a. split; [done|].
    intros Hin. by eapply Hn, in_filter_le.
  - right. exists a. split; [congruence|done].
Qed.

(** The computation keeps the relation whenever it returns. *)
Definition fsafe ex {A} (m : M (Hier R D) A) : Prop :=
  forall h r h', filters_wf (h_filters h) -> m h = Ok (r, h') -> ffr ex h h'.

Lemma fs_ret ex {A} (a : A) : fsafe ex (ret a).
Proof. intros h r h' _ [= <- <-]. apply ffr_refl. Qed.
Lemma fs_fail ex {A} e : fsafe ex (fail (A := A) e).
Proof. by intros h r h' _ H. Qed.
Lemma fs_get ex : fsafe ex get.
Proof. intros h r h' _ [= <- <-]. apply ffr_refl. Qed.
Lemma fs_gets ex {A} (f : Hier R D -> A) : fsafe ex (gets f).
Proof. intros h r h' _ [= <- <-]. apply ffr_refl. Qed.
Lemma fs_lift ex {A} (x : res A) : fsafe ex (lift x).
Proof. intros h r h' _. unfold lift. destruct x; [|done]. intros [= <- <-]. apply ffr_refl. Qed.
Lemma fs_assert ex w b : fsafe ex (assert_ w b).
Proof. destruct b; [apply fs_ret|apply fs_fail]. Qed.
Lemma fs_bind ex {A B} (m : M (Hier R D) A) (f : A -> M (Hier R D) B) :
  fsafe ex m -> (forall a, fsafe ex (f a)) -> fsafe ex (bind m f).
Proof.
  intros Hm Hf h r h' Hwf. unfold bind. destruct (m h) as [[a h1]|] eqn:E; [|done]. intros H.
  pose proof (Hm h a h1 Hwf E) as H1. eapply ffr_trans; [exact H1|]. eapply Hf; [|exact H].
  eapply filters_wf_le; [apply H1|done].
Qed.
Lemma fs_when ex b m : fsafe ex m -> fsafe ex (when b m).
Proof. intros H. destruct b; [done|apply fs_ret]. Qed.

Lemma fs_modify ex f :
  (forall h, h_caches (f h) = h_caches h) -> (forall h, h_filters (f h) = h_filters h) -> fsafe ex (modify f).
Proof.
  intros Hc Hf h r h' _ [= _ <-]. split; [rewrite Hf; apply fl_le_refl|].
  intros j c _ H. exists c. rewrite Hc. split; [done|]. intros l _. auto.
Qed.

(** A change of one cache. *)
Lemma fs_mod_cache ex i f :
  (forall c l, terminal i -> sa_array (ca_sa (f c)) !! l = sa_array (ca_sa c) !! l /\
     (~ ex i l -> ca_bcc (f c) !! l = ca_bcc c !! l)) ->
  fsafe ex (mod_cache i f).
Proof.
  intros Hf h r h' _ [= _ <-]. split; simpl; [apply fl_le_refl|]. intros j c Hj Hc.
  destruct (decide (j = i)) as [->|Hne].
  - exists (f c). rewrite list_lookup_alter_eq, Hc. split; [done|]. intros l Hl. destruct (Hf c l Hj). auto.
  - exists c. rewrite list_lookup_alter_ne by done. split; [done|]. intros l _. auto.
Qed.

(** Lines that the computation may write. *)
Definition mine ex (i l : nat) : Prop := terminal i -> ex i l.

Lemma fs_put_state ex i l s : mine ex i l -> fsafe ex (put_state i l s).
Proof.
  intros Hm. apply fs_mod_cache. intros c l' Ht. simpl. split; [done|]. intros Hl.
  rewrite list_lookup_insert_ne; [done|]. intros ->. by apply Hl, Hm.
Qed.
Lemma fs_get_cache ex i : fsafe ex (get_cache (R := R) (D := D) i).
Proof. apply fs_bind; [apply fs_get|]. intros h. apply fs_lift. Qed.
Lemma fs_on_mem ex {A} (m : M D A) : fsafe ex (on_mem (R := R) m).
Proof.
  intros h r h' _. unfold on_mem, zoom. destruct (m (h_mem h)) as [[a d]|]; [|done]. intros [= <- <-].
  split; simpl; [apply fl_le_refl|]. intros j c _ Hc. exists c. split; [done|]. intros l _. auto.
Qed.
Lemma fs_on_array ex i {A} (m : M (SetAssoc R) A) :
  (forall s a s', m s = Ok (a, s') -> sa_array s' = sa_array s) -> fsafe ex (on_array (D := D) i m).
Proof.
  intros Hm h r h' _. unfold on_array, get_cache, bind, get, lift, at_.
  destruct (h_caches h !! i) as [c|] eqn:Hc; [|done]. destruct (m (ca_sa c)) as [[a s]|] eqn:E; [|done].
  intros [= <- <-]. split; simpl; [apply fl_le_refl|]. intros j c' Hj Hc'.
  destruct (decide (j = i)) as [->|Hne].
  - exists (set_sa s c'). rewrite list_lookup_alter_eq, Hc'. split; [done|]. intros l _. simpl. simplify_eq.
    rewrite (Hm _ _ _ E). auto.
  - exists c'. rewrite list_lookup_alter_ne by done. split; [done|]. intros l _. auto.
Qed.

(** ** The operations *)

(** The target of a state pointer may be written. *)
Definition ptr_mine ex (p : StatePtr) : Prop :=
  match p with CoreState => True | LineState i l => mine ex i l end.
Definition up_safe ex (up : nat -> CReq -> M (Hier R D) Z) : Prop :=
  forall k req, ~ terminal k -> ptr_mine ex (cq_state req) -> fsafe ex (up k req).
Definition down_safe ex (down : nat -> InvReq -> M (Hier R D) (Z * bool)) : Prop :=
  forall k req, fsafe ex (down k req).

Lemma fs_keep_sa_bcc ex i f :
  (forall c, ca_sa (f c) = ca_sa c /\ ca_bcc (f c) = ca_bcc c) -> fsafe ex (mod_cache (D := D) i f).
Proof. intros Hf. apply fs_mod_cache. intros c l _. destruct (Hf c) as [-> ->]. done. Qed.

Lemma mine_nonterminal ex i l : ~ terminal i -> mine ex i l.
Proof. by intros Hn Ht. Qed.

(** Symbolic execution. *)
Ltac fs_step :=
  cbv zeta;
  lazymatch goal with
  | |- forall _, _ => intros ?
  | |- fsafe _ (bind _ _) => apply fs_bind
  | |- fsafe _ (ret _) => apply fs_ret
  | |- fsafe _ (fail _) => apply fs_fail
  | |- fsafe _ get => apply fs_get
  | |- fsafe _ (gets _) => apply fs_gets
  | |- fsafe _ (lift _) => apply fs_lift
  | |- fsafe _ (assert_ _ _) => apply fs_assert
  | |- fsafe _ (when _ _) => apply fs_when
  | |- fsafe _ (get_cache _) => apply fs_get_cache
  | |- fsafe _ (on_mem _) => apply fs_on_mem
  | |- fsafe _ (put_state _ _ _) => apply fs_put_state
  | |- fsafe _ (mod_cache _ _) => apply fs_keep_sa_bcc
  | |- fsafe _ (if ?b then _ else _) => destruct b
  | |- fsafe _ (match ?x with _ => _ end) => destruct x
  end.
Ltac fs_steps := repeat fs_step; try done; try (by split).

Lemma fs_node ex i : fsafe ex (node (R := R) (D := D) nodes i).
Proof. unfold node. fs_steps. Qed.
Lemma fs_get_state ex i l : fsafe ex (get_state (R := R) (D := D) i l).
Proof. unfold get_state. fs_steps. Qed.
Lemma fs_get_entry ex i l : fsafe ex (get_entry (R := R) (D := D) i l).
Proof. unfold get_entry. fs_steps. Qed.
Lemma fs_put_entry ex i l e : fsafe ex (put_entry (R := R) (D := D) i l e).
Proof. unfold put_entry. fs_steps. Qed.
Lemma fs_deref ex p : fsafe ex (deref (R := R) (D := D) p).
Proof. destruct p; unfold deref, get_state; fs_steps. Qed.
Lemma fs_assign ex p s : ptr_mine ex p -> fsafe ex (assign (R := R) (D := D) p s).
Proof. destruct p; intros Hp; unfold assign; [by apply fs_modify|]. by apply fs_put_state. Qed.
Lemma fs_prof ex i k n : fsafe ex (prof_inc (R := R) (D := D) i k n).
Proof. unfold prof_inc. fs_steps. Qed.
Lemma fs_lock_bcc ex i : fsafe ex (lock_bcc (R := R) (D := D) i).
Proof. unfold lock_bcc. fs_steps. Qed.
Lemma fs_unlock_bcc ex i : fsafe ex (unlock_bcc (R := R) (D := D) i).
Proof. unfold unlock_bcc. fs_steps. Qed.
Lemma fs_lock_tcc ex i : fsafe ex (lock_tcc (R := R) (D := D) i).
Proof. unfold lock_tcc. fs_steps. Qed.
Lemma fs_unlock_tcc ex i : fsafe ex (unlock_tcc (R := R) (D := D) i).
Proof. unfold unlock_tcc. fs_steps. Qed.

Create HintDb fsafe.
Hint Resolve fs_node fs_get_state fs_get_entry fs_put_entry fs_deref fs_assign fs_prof fs_lock_bcc fs_unlock_bcc
  fs_lock_tcc fs_unlock_tcc : fsafe.
Ltac fs := repeat fs_step; try done; try (by split); auto with fsafe.

Lemma fs_child_lock ex req f : (forall i, fsafe ex (f i)) -> fsafe ex (on_child_lock (R := R) (D := D) req f).
Proof. intros Hf. unfold on_child_lock. fs. Qed.
Lemma fs_own_req ex i l a t cyc src fl : fsafe ex (own_req (R := R) (D := D) nodes i l a t cyc src fl).
Proof. unfold own_req. fs. Qed.
Lemma fs_excl ex i l : fsafe ex (bcc_isExclusive (R := R) (D := D) i l).
Proof. unfold bcc_isExclusive. fs. Qed.
Lemma fs_isValid ex i l : fsafe ex (bcc_isValid (R := R) (D := D) i l).
Proof. unfold bcc_isValid. fs. Qed.
Hint Resolve fs_child_lock fs_own_req fs_excl fs_isValid : fsafe.

Lemma at_inv {A} (l : list A) i a h h' : lift (at_ l i) h = Ok (a, h') -> l !! i = Some a.
Proof. unfold lift, at_. destruct (l !! i); simpl; [by intros [= -> _]|done]. Qed.

(** A value with a property known from the computation that returned it. *)
Lemma fs_bind_post ex {A B} (P : A -> Prop) (m : M (Hier R D) A) (f : A -> M (Hier R D) B) :
  fsafe ex m -> (forall h a h', m h = Ok (a, h') -> P a) -> (forall a, P a -> fsafe ex (f a)) ->
  fsafe ex (bind m f).
Proof.
  intros Hm HP Hf h r h' Hwf. unfold bind. destruct (m h) as [[a h1]|] eqn:E; [|done]. intros H.
  pose proof (Hm h a h1 Hwf E) as H1. eapply ffr_trans; [exact H1|].
  eapply (Hf a (HP _ _ _ E)); [|exact H]. eapply filters_wf_le; [apply H1|done].
Qed.

Lemma own_req_state i l a t cyc src fl h req h' :
  own_req (R := R) (D := D) nodes i l a t cyc src fl h = Ok (req, h') -> cq_state req = LineState i l.
Proof.
  unfold own_req, bind. destruct (node nodes i h) as [[nd h1]|]; [|done].
  destruct (get_state i l h1) as [[s h2]|]; [|done]. by intros [= <- _].
Qed.

Context (nmem : nat) (Htopo : topo_ok nodes nmem).

Section Bottom.
Context ex (up : nat -> CReq -> M (Hier R D) Z) (Hup : up_safe ex up).

Lemma fs_parent_access i req : ptr_mine ex (cq_state req) -> fsafe ex (parent_access nodes up i req).
Proof.
  intros Hp. unfold parent_access. apply (fs_bind_post ex (fun nd => nodes !! i = Some nd)); [apply fs_node|..].
  { intros h nd h'. apply at_inv. }
  intros nd Hi. fs_step; [fs|]. intros pid.
  apply (fs_bind_post ex (fun p => n_parents nd !! pid = Some p)); [fs|..].
  { intros h p h'. apply at_inv. }
  intros [q|m] Hq; [|fs].
  apply Hup; [|done]. intros (qd & Hqd & Ht).
  destruct (to_parent _ _ Htopo i nd pid _ Hi Hq) as (_ & qd' & ? & ? & _). congruence.
Qed.

Lemma fs_own_parent i l a t cyc src fl :
  mine ex i l -> fsafe ex (req <- own_req nodes i l a t cyc src fl ;; parent_access nodes up i req).
Proof.
  intros Hm. apply (fs_bind_post ex (fun req => cq_state req = LineState i l)); [fs|apply own_req_state|].
  intros req Hr. apply fs_parent_access. by rewrite Hr.
Qed.
Hint Resolve fs_own_parent fs_parent_access : fsafe.

Lemma fs_bcc_eviction i a l wb cyc src : mine ex i l -> fsafe ex (bcc_processEviction nodes up i a l wb cyc src).
Proof.
  intros Hm. unfold bcc_processEviction. fs_step; [fs|]. intros _. fs_step; [fs|]. intros s.
  fs_step; [|fs]. destruct s; first [apply fs_ret|by apply fs_own_parent].
Qed.

Lemma fs_fetch i l a t cyc src fl : mine ex i l -> fsafe ex (bcc_fetch nodes up i l a t cyc src fl).
Proof.
  intros Hm. unfold bcc_fetch. fs_step; [fs|]. intros nd. fs_step; [fs|]. intros pid.
  apply (fs_bind_post ex (fun req => cq_state req = LineState i l)); [fs|apply own_req_state|].
  intros req Hr. fs_step; [apply fs_parent_access; by rewrite Hr|]. fs.
Qed.
Hint Resolve fs_fetch fs_bcc_eviction : fsafe.

Lemma fs_bcc_access i a l t cyc src fl : mine ex i l -> fsafe ex (bcc_processAccess nodes up i a l t cyc src fl).
Proof. intros Hm. unfold bcc_processAccess. fs. Qed.

Lemma fs_noninclusive i a t cyc p src fl :
  ptr_mine ex p -> fsafe ex (bcc_processNonInclusiveWriteback nodes up i a t cyc p src fl).
Proof. intros Hp. unfold bcc_processNonInclusiveWriteback. fs. Qed.
End Bottom.

Lemma fs_wb_access ex i l : mine ex i l -> fsafe ex (bcc_processWritebackOnAccess (R := R) (D := D) i l).
Proof. intros Hm. unfold bcc_processWritebackOnAccess. fs. Qed.
Lemma fs_bcc_inval ex i l t wb : mine ex i l -> fsafe ex (bcc_processInval (R := R) (D := D) i l t wb).
Proof. intros Hm. unfold bcc_processInval. fs. Qed.
Hint Resolve fs_bcc_eviction fs_bcc_access fs_noninclusive fs_wb_access fs_bcc_inval : fsafe.

Section Top.
Context ex (down : nat -> InvReq -> M (Hier R D) (Z * bool)) (Hdown : down_safe ex down).

Lemma fs_send_loop i a l t cyc src cs : forall mx wb n, fsafe ex (send_loop nodes down i a l t cyc src cs mx wb n).
Proof. induction cs as [|c cs IH]; intros mx wb n; simpl; fs. Qed.
Hint Resolve fs_send_loop : fsafe.
Lemma fs_send i a l t wb cyc src : fsafe ex (tcc_sendInvalidates nodes down i a l t wb cyc src).
Proof. unfold tcc_sendInvalidates. fs. Qed.
Hint Resolve fs_send : fsafe.
Lemma fs_tcc_eviction i a l wb cyc src : fsafe ex (tcc_processEviction nodes down i a l wb cyc src).
Proof. unfold tcc_processEviction. fs. Qed.
Lemma fs_remove i l (c : nat) p : ptr_mine ex p -> fsafe ex (tcc_remove (R := R) (D := D) i l c p).
Proof. intros Hp. unfold tcc_remove. fs. Qed.
Hint Resolve fs_remove : fsafe.
Lemma fs_tcc_access i a l t (c : nat) b p wb cyc src fl :
  ptr_mine ex p -> fsafe ex (tcc_processAccess nodes down i a l t c b p wb cyc src fl).
Proof. intros Hp. unfold tcc_processAccess. fs. Qed.
Lemma fs_tcc_inval i a l t wb cyc src : fsafe ex (tcc_processInval nodes down i a l t wb cyc src).
Proof. unfold tcc_processInval. fs. Qed.
End Top.
Hint Resolve fs_send fs_tcc_eviction fs_tcc_access fs_tcc_inval : fsafe.

(** ** Controllers and caches *)
Lemma fs_race ex req : fsafe ex (check_race (R := R) (D := D) req).
Proof. unfold check_race. fs. Qed.
Hint Resolve fs_race : fsafe.
Lemma fs_start ex i req : fsafe ex (mesicc_startAccess (R := R) (D := D) i req).
Proof. unfold mesicc_startAccess. fs. Qed.
Lemma fs_tstart ex i req : fsafe ex (term_startAccess (R := R) (D := D) i req).
Proof. unfold term_startAccess. fs. Qed.
Lemma fs_end ex i req : fsafe ex (mesicc_endAccess (R := R) (D := D) i req).
Proof. unfold mesicc_endAccess. fs. Qed.
Lemma fs_tend ex i req : fsafe ex (term_endAccess (R := R) (D := D) i req).
Proof. unfold term_endAccess. fs. Qed.
Lemma fs_should ex nd i req : fsafe ex (cc_shouldAllocate (R := R) (D := D) nodes nd i req).
Proof. unfold cc_shouldAllocate, mesicc_shouldAllocate. fs. Qed.
Hint Resolve fs_start fs_tstart fs_end fs_tend fs_should : fsafe.

(** The recorders are not part of the caches. *)
Lemma fs_get_recs ex : fsafe ex (get_recs (R := R) (D := D)).
Proof. unfold get_recs. fs. Qed.
Lemma fs_set_recs ex r : fsafe ex (set_recs (R := R) (D := D) r).
Proof. by apply fs_modify. Qed.
Hint Resolve fs_get_recs fs_set_recs : fsafe.
Lemma fs_on_record ex {A} src (m : M TimingRecord A) : fsafe ex (on_record (R := R) (D := D) src m).
Proof. unfold on_record. fs. Qed.
Lemma fs_on_events ex {A} (m : M Arena A) : fsafe ex (on_events (R := R) (D := D) m).
Proof. unfold on_events. fs. Qed.
Lemma fs_new_event ex e : fsafe ex (new_event (R := R) (D := D) e).
Proof. unfold new_event. fs. Qed.
Lemma fs_start_of ex tr : fsafe ex (start_of (R := R) (D := D) tr).
Proof. unfold start_of. fs. Qed.
Hint Resolve fs_on_record fs_on_events fs_new_event fs_start_of : fsafe.
Lemma fs_take ex src : fsafe ex (take_record (R := R) (D := D) src).
Proof. unfold take_record. fs. Qed.
Lemma fs_stitch ex src cyc wb : fsafe ex (stitch (R := R) (D := D) src cyc wb).
Proof. unfold stitch. fs. Qed.
Hint Resolve fs_take fs_stitch : fsafe.

(** ** Invalidations *)
Lemma lookup_array P a b1 b2 (s : SetAssoc R) o s' :
  sa_lookup P a b1 b2 s = Ok (o, s') ->
  sa_array s' = sa_array s /\ find_line (sa_array s) a (set_ids P a) = Ok o.
Proof.
  unfold sa_lookup, bind, get, lift. destruct (find_line _ _ _) as [o'|] eqn:E; simpl; [|done].
  destruct o' as [id|]; [|by intros [= <- <-]]. unfold when. destruct b1; [|by intros [= <- <-]].
  unfold sa_with_rp, zoom. destruct (rp_update id b2 (sa_rp s)) as [[[] r]|]; [|done]. by intros [= <- <-].
Qed.

Lemma find_line_some array a ids l : find_line array a ids = Ok (Some l) -> array !! l = Some a /\ l ∈ ids.
Proof.
  induction ids as [|id ids IH]; simpl; [done|]. unfold at_. destruct (array !! id) as [x|] eqn:E; [|done].
  destruct (Z.eqb_spec x a) as [->|]; [intros [= <-]; split; [done|left]|]. intros H. destruct (IH H). split; [done|by right].
Qed.

Lemma fs_lookup ex i P a b1 b2 : fsafe ex (on_array (D := D) i (sa_lookup P a b1 b2)).
Proof. apply fs_on_array. intros s o s' H. by apply lookup_array in H as [? _]. Qed.
Hint Resolve fs_lookup : fsafe.

(** The line that a lookup in a hierarchy delivers. *)
Lemma on_lookup_line i P a b1 b2 h o h' :
  on_array (D := D) i (sa_lookup P a b1 b2) h = Ok (o, h') ->
  exists c c', h_caches h !! i = Some c /\ h_caches h' !! i = Some c' /\ h_filters h' = h_filters h /\
    sa_array (ca_sa c') = sa_array (ca_sa c) /\ ca_bcc c' = ca_bcc c /\
    find_line (sa_array (ca_sa c)) a (set_ids P a) = Ok o.
Proof.
  unfold on_array, get_cache, bind, get, lift, at_. destruct (h_caches h !! i) as [c|] eqn:Hc; simpl; [|done].
  destruct (sa_lookup P a b1 b2 (ca_sa c)) as [[o' s]|] eqn:E; [|done]. intros [= <- <-].
  apply lookup_array in E as [E1 E2]. exists c, (set_sa s c). simpl. rewrite list_lookup_alter_eq, Hc. done.
Qed.


(** A change of the state of one line whose address the filter does not have. *)
Lemma ffr_dropped ex i l a h h' c :
  h_caches h !! i = Some c -> sa_array (ca_sa c) !! l = Some a -> ~ in_filter (h_filters h) i a ->
  h_filters h' = h_filters h -> (forall j, j <> i -> h_caches h' !! j = h_caches h !! j) ->
  (exists c', h_caches h' !! i = Some c' /\ ca_sa c' = ca_sa c /\
     forall l', l' <> l -> ca_bcc c' !! l' = ca_bcc c !! l') ->
  ffr ex h h'.
Proof.
  intros Hc Ha Hnot Hfl Hother (c' & Hc' & Hsa & Hbcc). split; [rewrite Hfl; apply fl_le_refl|].
  intros j cj Hj Hcj. destruct (decide (j = i)) as [->|Hne].
  - simplify_eq. exists c'. split; [done|]. intros l' _. rewrite Hsa. split; [done|]. intros _.
    destruct (decide (l' = l)) as [->|]; [|left; auto]. right. exists a. by rewrite Hfl.
  - exists cj. rewrite Hother by done. split; [done|]. intros l' _. auto.
Qed.

Lemma processInval_changes i l t wb h r h' :
  bcc_processInval (D := D) i l t wb h = Ok (r, h') ->
  h_filters h' = h_filters h /\ (forall j, j <> i -> h_caches h' !! j = h_caches h !! j) /\
  forall c, h_caches h !! i = Some c -> exists c', h_caches h' !! i = Some c' /\ ca_sa c' = ca_sa c /\
    forall l', l' <> l -> ca_bcc c' !! l' = ca_bcc c !! l'.
Proof.
  unfold bcc_processInval, get_state, get_cache, put_state, prof_inc, mod_cache, modify, assert_, bind, get, lift, at_, ret, fail.
  intros H. destruct (h_caches h !! i) as [c|] eqn:Hc; [|done].
  repeat (case_match; simplify_eq/=); (split_and!; [done|intros j Hne; by rewrite !list_lookup_alter_ne|]);
    intros c0 [= <-]; rewrite !list_lookup_alter_eq, Hc; (eexists; split; [reflexivity|]); simpl; (split; [done|]);
    intros l' Hl'; by rewrite ?list_lookup_insert_ne.
Qed.

Lemma fs_finish ex down i req h r h' :
  down_safe ex down -> filters_wf (h_filters h) -> ~ in_filter (h_filters h) i (iq_lineAddr req) ->
  finishInvalidate nodes down i req h = Ok (r, h') -> ffr ex h h'.
Proof.
  intros Hdown Hwf Hnot. unfold finishInvalidate.
  unfold bind at 1. destruct (node nodes i h) as [[nd h0]|] eqn:En; [|done].
  assert (h0 = h) as -> by (revert En; unfold node, lift, at_; destruct (nodes !! i); [by intros [= _ ->]|done]).
  apply at_inv in En.
  unfold bind at 1. destruct (on_array i _ h) as [[o h1]|] eqn:Eo; [|done].
  pose proof (fs_lookup ex i _ _ _ _ h o h1 Hwf Eo) as Hff1.
  destruct (on_lookup_line _ _ _ _ _ _ _ _ Eo) as (c & c1 & Hc & Hc1 & Hfl & Hsa & Hbcc & Hfind).
  destruct o as [l|]; [|done]. apply find_line_some in Hfind as [Hl _]. rewrite <- Hsa in Hl. rewrite <- Hfl in Hnot, Hwf.
  cbv zeta. destruct (n_terminal nd) eqn:Et.
  - unfold term_processInv. unfold bind at 1. destruct (bcc_processInval _ _ _ _ h1) as [[wb h2]|] eqn:Eb; [|done].
    intros Hrest. eapply ffr_trans; [exact Hff1|].
    destruct (processInval_changes _ _ _ _ _ _ _ Eb) as (F1 & F2 & F3).
    eapply ffr_trans; [by eapply ffr_dropped; [exact Hc1|exact Hl|..]; eauto|].
    assert (fsafe ex (unlock_bcc (D := D) i ;; ret (u64 (iq_cycle req + n_invLat nd), wb))) as Hfs by fs.
    eapply Hfs; [by rewrite F1|exact Hrest].
  - intros Hrest. eapply ffr_trans; [exact Hff1|].
    assert (fsafe ex (mesicc_processInv nodes down i req l (u64 (iq_cycle req + n_invLat nd)))) as Hfs.
    { unfold mesicc_processInv. assert (mine ex i l) by (intros (nd' & ? & ?); congruence). fs. }
    eapply Hfs; [done|exact Hrest].
Qed.

Lemma fs_invalidate ex fuel : down_safe ex (invalidate nodes fuel).
Proof.
  induction fuel as [|fuel IH]; intros i req; simpl; [apply fs_fail|].
  apply fs_bind; [apply fs_lock_bcc|]. intros _ h r h' Hwf. unfold bind at 1, filter_invalidate, modify.
  set (h1 := mkHier _ _ _ _). intros Hrun.
  assert (ffr ex h h1) as Hff.
  { split; [apply filter_inval_le|]. intros j c _ Hc. exists c. split; [done|]. intros l _. auto. }
  eapply ffr_trans; [exact Hff|]. eapply fs_finish; [exact IH| | |exact Hrun].
  - eapply filters_wf_le; [apply Hff|done].
  - by apply filter_inval_out.
Qed.

(** ** Accesses of the caches above the cores *)
Lemma fs_on_array_any ex i {A} (m : M (SetAssoc R) A) : ~ terminal i -> fsafe ex (on_array (D := D) i m).
Proof.
  intros Hn h r h' _. unfold on_array, get_cache, bind, get, lift, at_.
  destruct (h_caches h !! i) as [c|] eqn:Hc; [|done]. destruct (m (ca_sa c)) as [[a s]|]; [|done].
  intros [= <- <-]. split; simpl; [apply fl_le_refl|]. intros j c' Hj Hc'.
  exists c'. rewrite list_lookup_alter_ne by (by intros ->). split; [done|]. intros l _. auto.
Qed.

Lemma start_req i req0 h skip req h' (b : bool) :
  (if b then term_startAccess i req0 else mesicc_startAccess i req0) h = Ok ((skip, req), h') ->
  cq_state req = cq_state req0 /\ cq_lineAddr req = cq_lineAddr req0.
Proof.
  assert (forall h h', check_race (R := R) (D := D) req0 h = Ok ((skip, req), h') ->
    cq_state req = cq_state req0 /\ cq_lineAddr req = cq_lineAddr req0) as Hrace.
  { intros h1 h1'. unfold check_race, bind. destruct (deref _ h1) as [[s h2]|]; [|done]. unfold lift.
    destruct (CheckForMESIRace _ _ _) as [[sk t]|]; simpl; [|done]. by intros [= <- <- _]. }
  destruct b; unfold term_startAccess, mesicc_startAccess, bind.
  - destruct (assert_ _ _ h) as [[[] h1]|]; [|done]. destruct (on_child_lock _ _ h1) as [[[] h2]|]; [|done].
    destruct (lock_bcc i h2) as [[[] h3]|]; [|done]. apply Hrace.
  - destruct (on_child_lock _ _ h) as [[[] h1]|]; [|done]. destruct (lock_tcc i h1) as [[[] h2]|]; [|done].
    destruct (lock_bcc i h2) as [[[] h3]|]; [|done]. apply Hrace.
Qed.

Section Body.
Context ex (up : nat -> CReq -> M (Hier R D) Z) (Hup : up_safe ex up).
Context (down : nat -> InvReq -> M (Hier R D) (Z * bool)) (Hdown : down_safe ex down).

Lemma fs_access_body i req : ~ terminal i -> ptr_mine ex (cq_state req) ->
  fsafe ex (cache_access_body nodes up down i req).
Proof.
  intros Hn Hp. assert (forall l, mine ex i l) as Hm by (intros l; by apply mine_nonterminal).
  assert (forall A (m : M (SetAssoc R) A), fsafe ex (on_array (D := D) i m)) as Harr
    by (intros; by apply fs_on_array_any).
  unfold cache_access_body. fs_step; [fs|]. intros nd.
  apply (fs_bind_post ex (fun x => cq_state x.2 = cq_state req)); [fs|..].
  { intros h [skip req'] h' H. by apply start_req in H as [? _]. }
  intros [skip req'] Hr. simpl in Hr. rewrite <- Hr in Hp.
  unfold find_space, allocate, term_processEviction, mesicc_processEviction, term_processAccess, mesicc_processAccess.
  fs.
Qed.
End Body.

Lemma fs_cache_access ex fuel : up_safe ex (cache_access nodes fuel).
Proof.
  induction fuel as [|fuel IH]; intros k req Hk Hp; simpl; [apply fs_fail|].
  apply fs_access_body; [exact IH|exact (fs_invalidate ex (S k))|done|done].
Qed.
End Frame.

(** ** An access of a core and the lines its filter remembers *)

Lemma at_some {A} (l : list A) k x : at_ l k = Ok x -> l !! k = Some x.
Proof. unfold at_. destruct (l !! k); [by intros [= ->]|done]. Qed.

Section Access.
Context {R D : Type} `{RP : ReplPolicy R} `{MT : MemTop D} `{RL : !ReplLaws R}.
Context (nodes : list Node) (nmem : nat) (Htopo : topo_ok nodes nmem).
Context (i : nat) (nd : Node) (Hi : nodes !! i = Some nd) (Hterm : n_terminal nd = true).
Context (a : Address).
Implicit Types (h : Hier R D) (c : CacheSt R).

(** The lines of the accessed set. *)
Definition own_set (j l : nat) : Prop := j = i /\ l ∈ set_ids (n_array nd) a.

Abbreviation safe := (fsafe nodes own_set own_set).
Abbreviation frame := (ffr nodes own_set own_set).

Lemma own_mine l : l ∈ set_ids (n_array nd) a -> mine nodes own_set i l.
Proof. by intros Hl _. Qed.

(** A change of the array inside of the set. *)
Lemma fs_on_array_own {A} (m : M (SetAssoc R) A) :
  (forall s x s', m s = Ok (x, s') ->
     forall l, ~ l ∈ set_ids (n_array nd) a -> sa_array s' !! l = sa_array s !! l) ->
  safe (on_array (D := D) i m).
Proof.
  intros Hm h r h' _. unfold on_array, get_cache, bind, get, lift, at_.
  destruct (h_caches h !! i) as [c|] eqn:Hc; [|done]. destruct (m (ca_sa c)) as [[x s]|] eqn:E; [|done].
  intros [= <- <-]. split; simpl; [apply fl_le_refl|]. intros j c' Hj Hc'.
  destruct (decide (j = i)) as [->|Hne].
  - exists (set_sa s c'). rewrite list_lookup_alter_eq, Hc'. split; [done|]. intros l Hl. simpl. simplify_eq.
    rewrite (Hm _ _ _ E) by (intros ?; by apply Hl). auto.
  - exists c'. rewrite list_lookup_alter_ne by done. split; [done|]. intros l _. auto.
Qed.

Lemma postinsert_array l b (s s' : SetAssoc R) x :
  sa_postinsert a l b s = Ok (x, s') -> forall l', l' <> l -> sa_array s' !! l' = sa_array s !! l'.
Proof.
  unfold sa_postinsert, sa_with_rp, zoom, bind, get, lift, modify, set_at. intros H l' Hl.
  repeat (case_match; simplify_eq/=). all: by rewrite list_lookup_insert_ne.
Qed.

Lemma fs_postinsert l b : l ∈ set_ids (n_array nd) a -> safe (on_array (D := D) i (sa_postinsert a l b)).
Proof.
  intros Hl. apply fs_on_array_own. intros s x s' H l' Hl'. eapply postinsert_array; [done|]. by intros ->.
Qed.

Lemma preinsert_array v b (s s' : SetAssoc R) x :
  sa_preinsert (n_array nd) v a b s = Ok (x, s') -> sa_array s' = sa_array s.
Proof.
  unfold sa_preinsert, sa_with_rp, zoom, bind, get, lift, ret. intros H.
  repeat (case_match; simplify_eq/=); done.
Qed.

(** The victim is a line of the set. *)
Lemma preinsert_victim v b (s s' : SetAssoc R) l wb :
  rp_idle (ap_numLines (n_array nd)) (ap_assoc (n_array nd)) (sa_rp s) ->
  view_total (ap_numLines (n_array nd)) v ->
  sa_preinsert (n_array nd) v a b s = Ok ((l, wb), s') -> l ∈ set_ids (n_array nd) a.
Proof.
  intros Hidle Hv. pose proof (to_array nodes nmem Htopo i nd Hi) as Hok. pose proof (array_geometry _ Hok) as Hg.
  unfold sa_preinsert, sa_with_rp, zoom, bind, get, lift, ret.
  destruct (rp_rankCands _ _ _ _) as [[id r1]|] eqn:E; [|done].
  assert (wp (rp_rankCands v (set_ids (n_array nd) a) b)
            (fun id _ => id ∈ set_ids (n_array nd) a) (sa_rp s)) as Hwp.
  { eapply wp_mono; [apply (rp_rank_ok _ _ v (set_ids (n_array nd) a) b (sa_rp s) Hg Hidle Hv)|].
    - apply set_ids_length.
    - intros c Hc. by eapply set_ids_lt.
    - by intros id' r' [? _]. }
  unfold wp in Hwp. rewrite E in Hwp. simpl. destruct (at_ _ id); [|done]. by intros [= <- _ _].
Qed.

Section Body.
Context (up : nat -> CReq -> M (Hier R D) Z) (Hup : up_safe nodes own_set own_set up).
Context (down : nat -> InvReq -> M (Hier R D) (Z * bool)).

(** The allocation after a miss. *)
Lemma allocate_frame req cyc h l h' :
  filters_wf (h_filters h) -> cq_lineAddr req = a ->
  (forall c, h_caches h !! i = Some c -> cache_ok nd c /\
     rp_idle (ap_numLines (n_array nd)) (ap_assoc (n_array nd)) (sa_rp (ca_sa c))) ->
  allocate nodes up down i req cyc h = Ok (l, h') ->
  frame h h' /\ l ∈ set_ids (n_array nd) a.
Proof.
  intros Hwf Ha Hc. unfold allocate, node, get_cache, bind, get, lift. rewrite (at_ok _ _ _ Hi), Ha.
  destruct (at_ (h_caches h) i) as [c|] eqn:Ec; [|done].
  assert (h_caches h !! i = Some c) as Hci by (by eapply at_some).
  destruct (Hc c Hci) as [Hok Hidle].
  destruct (on_array i (sa_preinsert _ _ _ _) h) as [[[l0 wb] h1]|] eqn:E1; [|done]. rewrite Hterm.
  assert (l0 ∈ set_ids (n_array nd) a) as Hl.
  { revert E1. unfold on_array, get_cache, bind, get, lift. rewrite Ec.
    destruct (sa_preinsert _ _ _ _ (ca_sa c)) as [[[x y] s']|] eqn:E; [|done]. intros [= <- <- _].
    eapply preinsert_victim; [exact Hidle| |exact E]. by apply cc_view_total. }
  assert (safe (term_processEviction nodes up i req wb l0 cyc ;;
           on_array i (sa_postinsert a l0 false) ;; ret l0)) as Hs.
  { apply fs_bind; [by apply (fs_bcc_eviction nodes own_set nmem Htopo), own_mine|]. intros _.
    apply fs_bind; [by apply fs_postinsert|]. intros _. apply fs_ret. }
  assert (frame h h1) as F1.
  { eapply (fs_on_array nodes); [|exact Hwf|exact E1]. intros s x s'. apply preinsert_array. }
  unfold bind, ret in Hs. specialize (Hs h1). cbv beta in Hs.
  destruct (term_processEviction _ _ _ _ _ _ _ h1) as [[x h2]|]; [|done].
  destruct (on_array i (sa_postinsert _ _ _) h2) as [[y h3]|]; [|done]. intros [= <- <-]. split; [|done].
  eapply ffr_trans; [exact F1|]. eapply Hs; [|reflexivity]. eapply filters_wf_le; [apply F1|done].
Qed.

(** The state at the lookup. *)
Definition fit c : Prop :=
  cache_ok nd c /\ rp_idle (ap_numLines (n_array nd)) (ap_assoc (n_array nd)) (sa_rp (ca_sa c)).

Lemma find_space_frame req cyc h o h' :
  filters_wf (h_filters h) -> cq_lineAddr req = a -> (forall c, h_caches h !! i = Some c -> fit c) ->
  find_space nodes up down nd i req cyc h = Ok (o, h') ->
  frame h h' /\ forall l, o = Some l -> l ∈ set_ids (n_array nd) a.
Proof.
  intros Hwf Ha Hc. unfold find_space. unfold bind at 1. rewrite Ha.
  destruct (on_array i (sa_lookup _ _ _ _) h) as [[[l|] h1]|] eqn:E1; [| |done];
    pose proof (fs_lookup nodes own_set own_set _ _ _ _ _ _ _ _ Hwf E1) as F1.
  - destruct (on_lookup_line _ _ _ _ _ _ _ _ E1) as (c & c' & _ & _ & _ & _ & _ & Hf).
    intros [= <- <-]. split; [done|]. intros l' [= ->]. by apply find_line_some in Hf as [_ ?].
  - unfold cc_shouldAllocate. rewrite Hterm. unfold ret, bind.
    destruct (allocate nodes up down i req cyc h1) as [[l h2]|] eqn:E2; [|done]. intros [= <- <-].
    destruct (allocate_frame req cyc h1 l h2) as [F2 Hl]; try done.
    + eapply filters_wf_le; [apply F1|done].
    + intros c Hc1. revert E1. unfold on_array, get_cache, sa_lookup, bind, get, lift, at_, ret.
      destruct (h_caches h !! i) as [c0|] eqn:Hc0; [|done].
      destruct (find_line _ _ _) as [[l'|]|]; simpl.
      * destruct (when _ _ _) as [[? ?]|]; [done|done].
      * intros [= <-]. simpl in Hc1. rewrite list_lookup_alter_eq, Hc0 in Hc1. injection Hc1 as <-.
        destruct (Hc c0 eq_refl) as [[] ?]. by split; [split|].
      * done.
    + split; [by eapply ffr_trans|]. by intros l' [= <-].
Qed.

(** The start of an access of a core changes a lock. *)
Lemma start_fit req h skip req' h' :
  cq_childLock req = None -> (forall c, h_caches h !! i = Some c -> fit c) ->
  term_startAccess (D := D) i req h = Ok ((skip, req'), h') -> forall c, h_caches h' !! i = Some c -> fit c.
Proof.
  intros Hl Hc. unfold term_startAccess, on_child_lock, lock_bcc, check_race, deref, get_state, get_cache, mod_cache, assert_, bind, get, gets, lift, modify, ret, fail.
  rewrite Hl. intros H c.
  destruct (IsGet _); [|done]. destruct (at_ (h_caches h) i) as [c0|] eqn:E0; [|done].
  apply at_some in E0. destruct (ca_bccLock c0); [done|]. set (h1 := mkHier _ _ _ _) in H.
  assert (h' = h1) as ->.
  { repeat (case_match; simplify_eq/=); done. }
  simpl. rewrite list_lookup_alter_eq, E0. intros [= <-]. destruct (Hc c0 E0) as [[] ?]. by split; [split|].
Qed.

(** The access of a core to its cache. *)
Lemma term_access_frame req h r h' :
  filters_wf (h_filters h) -> cq_lineAddr req = a -> cq_state req = CoreState -> cq_childLock req = None ->
  (forall c, h_caches h !! i = Some c -> fit c) ->
  cache_access_body nodes up down i req h = Ok (r, h') -> frame h h'.
Proof.
  intros Hwf Ha Hst Hlk Hc. unfold cache_access_body. unfold bind at 1, node at 1, lift. rewrite (at_ok _ _ _ Hi), Hterm.
  unfold bind at 1. destruct (term_startAccess i req h) as [[[skip req'] h1]|] eqn:E1; [|done].
  pose proof (fs_tstart nodes own_set own_set i req h _ _ Hwf E1) as F1.
  assert (filters_wf (h_filters h1)) as Hwf1 by (eapply filters_wf_le; [apply F1|done]).
  pose proof (start_fit req h skip req' h1 Hlk Hc E1) as Hc1.
  destruct (start_req i req h skip req' h1 true E1) as [Hst' Ha']. rewrite Ha in Ha'. rewrite Hst in Hst'.
  assert (forall o, (forall l, o = Some l -> l ∈ set_ids (n_array nd) a) -> forall x,
    safe (term_processAccess nodes up i req' o x)) as Hacc.
  { intros [l|] Hl x; unfold term_processAccess; [|apply fs_fail].
    by apply (fs_bcc_access nodes own_set nmem Htopo), own_mine, Hl. }
  intros Hrun. eapply ffr_trans; [exact F1|]. revert Hrun. destruct skip.
  - intros Hrun. eapply fs_bind; [apply fs_ret| |exact Hwf1|exact Hrun]. intros x.
    apply fs_bind; [apply fs_tend|]. intros _. apply fs_bind; [apply fs_assert|]. intros _. apply fs_ret.
  - unfold bind at 1 2. destruct (find_space _ _ _ _ _ _ _ h1) as [[o h2]|] eqn:E2; [|done].
    destruct (find_space_frame req' _ h1 o h2 Hwf1 Ha' Hc1 E2) as [F2 Ho].
    intros Hrun. eapply ffr_trans; [exact F2|].
    assert (safe ((wbAcc <- take_record (cq_srcId req') ;;
       respCycle <- term_processAccess nodes up i req' o (u64 (cq_cycle req' + n_accLat nd)) ;;
       stitch (cq_srcId req') (cq_cycle req') wbAcc ;; ret respCycle))) as S1.
    { apply fs_bind; [apply fs_take|]. intros w. apply fs_bind; [by apply Hacc|]. intros x.
      apply fs_bind; [apply fs_stitch|]. intros _. apply fs_ret. }
    assert (forall x, safe (term_endAccess (R := R) (D := D) i req' ;; assert_ "cache.cpp:127" (cq_cycle req' <=? x) ;; ret x)) as S2.
    { intros x. apply fs_bind; [apply fs_tend|]. intros _. apply fs_bind; [apply fs_assert|]. intros _. apply fs_ret. }
    eapply (fs_bind nodes own_set own_set _ _ S1 S2); [|exact Hrun]. eapply filters_wf_le; [apply F2|done].
Qed.
End Body.
End Access.
