(* ===== verification/FilterCache.v ===== *)
(** * The filter cache of a core ([src/src/filter_cache.h])

    A [FilterCache] is a core's cache with a direct-mapped filter in front of
    it.  The filter arrays are in the hierarchy ([h_filters] of [Coherence]),
    because an invalidation that arrives at the cache changes them; the other
    fields are here.  [filterLock] is not modelled: accesses are sequential, and
    the lock is free before and after each of them. *)

From stdpp Require Import base list gmap strings.
From Stdlib Require Import ZArith Lia.
From S2P Require Import Prelude Numeric MemHierarchy DdrBound ReplPolicy CacheArray Coherence.
Local Open Scope Z_scope.

Record FilterCache := mkFC {
  fc_srcId : Z;
  fc_reqFlags : Z;
  fc_fGETSHit : Z;
  fc_fGETXHit : Z;
  fc_enable_tlb : bool;
  fc_buffer : drand48_data;
  fc_tlb : gmap Z Z;
  fc_exist_pgnum : gset Z
}.

(** [clear] *)
Definition fe_clear : FilterEntry := mkFE 0 0 0.

(** The constructor: the fields and the [filterArray]; [self] is the address of
    the object, the seed of the generator. *)
Definition FilterCache_new (numSets : nat) (enableTLB : bool) (self : Z) : FilterCache * list FilterEntry :=
  (mkFC (2 ^ 32 - 1) 0 0 0 enableTLB (srand48_r self) ∅ ∅, replicate numSets fe_clear).

Definition setSourceId (id : Z) (f : FilterCache) : FilterCache :=
  mkFC id (fc_reqFlags f) (fc_fGETSHit f) (fc_fGETXHit f) (fc_enable_tlb f) (fc_buffer f) (fc_tlb f) (fc_exist_pgnum f).
Definition setFlags (flags : Z) (f : FilterCache) : FilterCache :=
  mkFC (fc_srcId f) flags (fc_fGETSHit f) (fc_fGETXHit f) (fc_enable_tlb f) (fc_buffer f) (fc_tlb f) (fc_exist_pgnum f).
Definition filter_hit (isLoad : bool) (f : FilterCache) : FilterCache :=
  mkFC (fc_srcId f) (fc_reqFlags f) (if isLoad then u64 (fc_fGETSHit f + 1) else fc_fGETSHit f)
    (if isLoad then fc_fGETXHit f else u64 (fc_fGETXHit f + 1)) (fc_enable_tlb f) (fc_buffer f) (fc_tlb f)
    (fc_exist_pgnum f).

(** ** The TLB *)

(** The loop that draws page numbers until one is not in use. *)
Fixpoint draw_pgnum (fuel : nat) (used : gset Z) (b : drand48_data) : res (Z * drand48_data) :=
  match fuel with
  | O => Err OutOfFuel
  | S fuel =>
      let (rand, b') := lrand48_r b in
      let pgnum := Z.land rand (2 ^ 52 - 1) in
      if bool_decide (pgnum ∈ used) then draw_pgnum fuel used b' else Ok (pgnum, b')
  end.

(** The page number of [vpgnum]. *)
Definition tlb_page (fuel : nat) (vpgnum : Z) : M FilterCache Z :=
  f <- get ;;
  match fc_tlb f !! vpgnum with
  | Some pgnum => ret pgnum
  | None =>
      let! (pgnum, b) := lift (draw_pgnum fuel (fc_exist_pgnum f) (fc_buffer f)) in
      modify (fun f => mkFC (fc_srcId f) (fc_reqFlags f) (fc_fGETSHit f) (fc_fGETXHit f) (fc_enable_tlb f) b
        (<[vpgnum := pgnum]> (fc_tlb f)) ({[pgnum]} ∪ fc_exist_pgnum f)) ;;
      ret pgnum
  end.

(** Lines 137-155: the physical line of a virtual line. *)
Definition translate (fuel : nat) (procMask vLineAddr : Address) : M FilterCache Address :=
  f <- get ;;
  if fc_enable_tlb f then
    pgnum <- tlb_page fuel (Z.shiftr vLineAddr 6) ;;
    ret (Z.lor (Z.lor procMask (u64 (Z.shiftl pgnum 6))) (Z.land vLineAddr 63))
  else ret (Z.lor procMask vLineAddr).

(** ** The cores' side of a hierarchy *)

(** The filter caches are the caches [0 .. n-1] of the hierarchy. *)
Record FSys (R D : Type) := mkFS { fs_hier : Hier R D; fs_fcs : list FilterCache }.
Arguments mkFS {R D} _ _.
Arguments fs_hier {R D} _.
Arguments fs_fcs {R D} _.

Section Ops.
Context {R D : Type} `{RP : ReplPolicy R} `{MT : MemTop D}.
Context (nodes : list Node) (lineBits : Z) (fuel : nat).

Definition on_hier {A} (m : M (Hier R D) A) : M (FSys R D) A :=
  zoom fs_hier (fun h s => mkFS h (fs_fcs s)) m.

(** A computation on the fields of filter cache [i]. *)
Definition on_fc {A} (i : nat) (m : M FilterCache A) : M (FSys R D) A :=
  s <- get ;;
  f <- lift (at_ (fs_fcs s) i) ;;
  match m f with
  | Err e => fail e
  | Ok (a, f') => modify (fun s => mkFS (fs_hier s) (<[i := f']> (fs_fcs s))) ;; ret a
  end.

Definition filterArray (i : nat) : M (FSys R D) (list FilterEntry) :=
  s <- get ;; lift (at_ (fl_arrays (h_filters (fs_hier s))) i).
Definition set_filterArray (i : nat) (arr : list FilterEntry) : M (FSys R D) unit :=
  on_hier (modify (fun h => mkHier (h_caches h) (h_mem h) (h_core h)
    (mkFl (fl_procMask (h_filters h)) (<[i := arr]> (fl_arrays (h_filters h)))))).

Definition filter_replace (i : nat) (vLineAddr : Address) (idx : nat) (isLoad : bool) (curCycle : Z) : M (FSys R D) Z :=
  s <- get ;;
  pLineAddr <- on_fc i (translate fuel (fl_procMask (h_filters (fs_hier s))) vLineAddr) ;;
  f <- on_fc i get ;;
  respCycle <- on_hier (core_access nodes i pLineAddr (if isLoad then GETS else GETX) curCycle
                          (fc_srcId f) (fc_reqFlags f)) ;;
  arr <- filterArray i ;;
  e <- lift (at_ arr idx) ;;
  set_filterArray i (<[idx := mkFE vLineAddr (if isLoad then no_addr else vLineAddr)
    (if fe_rdAddr e =? vLineAddr then fe_availCycle e else respCycle)]> arr) ;;
  ret respCycle.

Definition load (i : nat) (vAddr : Address) (curCycle : Z) : M (FSys R D) Z :=
  let vLineAddr := Z.shiftr vAddr lineBits in
  arr <- filterArray i ;;
  let idx := filter_index arr vLineAddr in
  e <- lift (at_ arr idx) ;;
  let availCycle := fe_availCycle e in
  if vLineAddr =? fe_rdAddr e then
    on_fc i (modify (filter_hit true)) ;;
    ret (Z.max curCycle availCycle)
  else filter_replace i vLineAddr idx true curCycle.

Definition store (i : nat) (vAddr : Address) (curCycle : Z) : M (FSys R D) Z :=
  let vLineAddr := Z.shiftr vAddr lineBits in
  arr <- filterArray i ;;
  let idx := filter_index arr vLineAddr in
  e <- lift (at_ arr idx) ;;
  let availCycle := fe_availCycle e in
  if vLineAddr =? fe_wrAddr e then
    on_fc i (modify (filter_hit false)) ;;
    ret (Z.max curCycle availCycle)
  else filter_replace i vLineAddr idx false curCycle.

Definition contextSwitch (i : nat) : M (FSys R D) unit :=
  arr <- filterArray i ;;
  set_filterArray i (map (fun _ => fe_clear) arr).
End Ops.
