(* ===== verification/FilterSpec.v ===== *)
(** * Filter hits are hits

    Whatever the cores load and store, a line that a filter reports is held by
    the core's cache with the permission the access needs; with the optional
    TLB this is not so. *)

From stdpp Require Import base list gmap strings.
From Stdlib Require Import ZArith Lia.
From S2P Require Import Prelude Numeric MemHierarchy DdrBound ReplPolicy CacheArray Coherence MemCtrls CoherenceInv CoherenceInval CoherenceEnv CoherenceSteps CoherenceAccess CoherenceProtocol CoherenceSpec FilterAccess FilterCache.
Local Open Scope Z_scope.

(** ** Addresses *)

(** [procMask] is the process number in the bits above the line address. *)
Definition mask_ok (lineBits pm : Z) : Prop :=
  0 < lineBits <= 32 /\ exists procIdx, pm = procIdx * 2 ^ (64 - lineBits).

Lemma mask_index lineBits pm v (arr : list FilterEntry) k :
  mask_ok lineBits pm -> Z.of_nat (length arr) = 2 ^ k -> 0 <= k < 32 ->
  filter_index arr (Z.lor v pm) = filter_index arr v.
Proof.
  intros [Hl [p ->]] Hlen Hk. unfold filter_index. rewrite Hlen, Z.land_lor_distr_l.
  assert (Z.land (p * 2 ^ (64 - lineBits)) (2 ^ k - 1) = 0) as ->; [|by rewrite Z.lor_0_r].
  rewrite Z.sub_1_r, <- Z.ones_equiv, Z.land_ones by lia.
  replace (64 - lineBits) with ((64 - lineBits - k) + k) by lia.
  rewrite Z.pow_add_r, Z.mul_assoc by lia. apply Z.mod_mul. lia.
Qed.

(** Two lines in the same place have the same set. *)
Lemma set_ids_same P a b l : l ∈ set_ids P a -> l ∈ set_ids P b ->
  Z.to_nat (Z.land (ap_hash P a) (ap_setMask P)) = Z.to_nat (Z.land (ap_hash P b) (ap_setMask P)).
Proof. unfold set_ids. rewrite !elem_of_seq. intros. nia. Qed.

(** ** The invariant *)
Section Invariant.
Context {R D : Type} `{RP : ReplPolicy R} `{MT : MemTop D} `{RL : !ReplLaws R} `{ML : !MemTopLaws D}.
Context (nodes : list Node) (nmem : nat) (Htopo : topo_ok nodes nmem) (lineBits pm : Z).
Implicit Types (h : Hier R D) (s : FSys R D).

(** The configuration that [init.cpp] accepts for a filter: a set-associative
    array without hash, with one filter entry per set. *)
Definition filter_fits (fl : Filters) : Prop :=
  mask_ok lineBits (fl_procMask fl) /\
  forall j arr, fl_arrays fl !! j = Some arr -> exists nd, nodes !! j = Some nd /\ n_terminal nd = true /\
    length arr = ap_numSets (n_array nd) /\ forall a, ap_hash (n_array nd) a = a.

(** What an entry of the filter of cache [j] says about the cache. *)
Definition entry_ok h (j : nat) (arr : list FilterEntry) (idx : nat) (e : FilterEntry) : Prop :=
  let a := Z.lor (fe_rdAddr e) (fl_procMask (h_filters h)) in
  (valid_addr (fe_rdAddr e) -> idx = filter_index arr (fe_rdAddr e) /\ hst nodes h j a <> MESI.I) /\
  (valid_addr (fe_wrAddr e) -> fe_wrAddr e = fe_rdAddr e /\ hst nodes h j a = MESI.M).

Definition entries_ok h : Prop :=
  forall j arr idx e, fl_arrays (h_filters h) !! j = Some arr -> arr !! idx = Some e -> entry_ok h j arr idx e.

Record filter_inv s : Prop := {
  fi_rest : at_rest nodes nmem (fs_hier s);
  fi_mask : fl_procMask (h_filters (fs_hier s)) = pm;
  fi_fits : filter_fits (h_filters (fs_hier s));
  fi_entries : entries_ok (fs_hier s);
  fi_caches : length (fs_fcs s) = length (fl_arrays (h_filters (fs_hier s)));
  fi_fcs : Forall (fun f => fc_enable_tlb f = false /\ Z.land (fc_reqFlags f) PREFETCH = 0) (fs_fcs s)
}.

Lemma fits_index fl j arr v :
  filter_fits fl -> fl_arrays fl !! j = Some arr -> filter_index arr (Z.lor v (fl_procMask fl)) = filter_index arr v.
Proof.
  intros [Hm Hf] Hj. destruct (Hf j arr Hj) as (nd & Hn & _ & Hlen & _).
  destruct (ao_sets _ (to_array _ _ Htopo j nd Hn)) as (k & Hk & Hb).
  apply (mask_index lineBits _ _ _ k Hm); [congruence|done].
Qed.

Lemma entries_wf h : filter_fits (h_filters h) -> entries_ok h -> filters_wf (h_filters h).
Proof.
  intros Hf He j arr idx e Hj Hi Hv. destruct (He j arr idx e Hj Hi) as [[-> _] _]; [done|].
  symmetry. by apply (fits_index _ j).
Qed.

Lemma filter_fits_le fl fl' : fl_le fl' fl -> filter_fits fl -> filter_fits fl'.
Proof.
  intros [Hm Hl Ha] [H1 H2]. split; [by rewrite Hm|]. intros j arr' H'.
  destruct (Ha j arr' H') as (arr & Hj & Hlen & _). rewrite Hlen. by apply H2.
Qed.

(** Only the caches and the memories matter. *)
Lemma at_rest_same h h' :
  h_caches h' = h_caches h -> h_mem h' = h_mem h -> at_rest nodes nmem h -> at_rest nodes nmem h'.
Proof.
  intros Ec Em [E1 E2 E3 E4]. split; [|intros j c; rewrite Ec; apply E2|intros j nd c; rewrite Ec; apply E3|by rewrite Em].
  eapply hsim_coherent; [|exact E1]. intros j. rewrite Ec. by destruct (h_caches h !! j); constructor.
Qed.

Lemma hst_same h h' j a : h_caches h' = h_caches h -> hst nodes h' j a = hst nodes h j a.
Proof. intros E. unfold hst, hview. by rewrite E. Qed.

(** A line in a set other than the accessed one keeps its state as long as it
    is in the filter. *)
Lemma frame_keeps h h' i nd a j nj b :
  at_rest nodes nmem h -> at_rest nodes nmem h' -> ffr nodes (own_set i nd a) (own_set i nd a) h h' ->
  nodes !! j = Some nj -> n_terminal nj = true -> in_filter (h_filters h') j b ->
  (forall l, l ∈ set_ids (n_array nj) b -> ~ own_set i nd a j l) ->
  hst nodes h j b <> MESI.I -> hst nodes h' j b = hst nodes h j b.
Proof.
  intros [Hco _ _ _] [Hco' _ _ _] [_ Hff] Hj Ht Hin Hout Hne.
  destruct (cache_of nodes h j nj (ch_caches _ _ Hco) Hj) as (c & Hc & Hok).
  destruct (cache_of nodes h' j nj (ch_caches _ _ Hco') Hj) as (c' & Hc' & Hok').
  destruct (Hff j c) as (c2 & Hc2 & Hkept); [by exists nj|done|]. rewrite Hc2 in Hc'. injection Hc' as ->.
  revert Hne. unfold hst. rewrite (hview_eq nodes _ _ _ _ _ _ Hj Hc), (hview_eq nodes _ _ _ _ _ _ Hj Hc2).
  unfold cst at 1 3. destruct (cline_spec nj (to_array _ _ Htopo j nj Hj) c b (co_array _ _ Hok)) as [Hf _].
  destruct (cline nj c b) as [l|] eqn:El; [|done]. intros Hne.
  apply find_line_some in Hf as [Hl Hset]. destruct (Hkept l (Hout l Hset)) as [Harr Hst].
  destruct (Hst (Hout l Hset)) as [E|(b' & Hb' & Hnot)]; [|congruence].
  destruct (ca_bcc c !! l) as [st|] eqn:Es; [|done]. simpl in *.
  unfold cst. rewrite (co_line _ _ Hok' l st b); [by rewrite E|congruence|done|congruence].
Qed.

(** An access keeps what the filters say, but for the entry of the accessed set. *)
Lemma access_entries h o r h' :
  at_rest nodes nmem h -> filter_fits (h_filters h) -> entries_ok h -> op_ok nodes o ->
  run_op nodes o h = Ok (r, h') ->
  at_rest nodes nmem h' -> fl_le (h_filters h') (h_filters h) /\
  forall j arr idx e, fl_arrays (h_filters h') !! j = Some arr -> arr !! idx = Some e ->
    (j = op_cache o -> idx <> filter_index arr (op_addr o)) -> entry_ok h' j arr idx e.
Proof.
  intros Hr Hfit Hent ((nd & Hi & Ht) & _ & _ & _) Hrun Hr'. pose proof (entries_wf h Hfit Hent) as Hwf.
  set (h1 := mkHier (h_caches h) (h_mem h) MESI.I (h_filters h)).
  assert (ffr nodes (own_set (op_cache o) nd (op_addr o)) (own_set (op_cache o) nd (op_addr o)) h1 h') as Hff.
  { destruct o as [i a t cyc src fl]. simpl in *. revert Hrun. unfold run_op, core_access. simpl.
    unfold bind, modify. fold h1. pose proof (lookup_lt_Some _ _ _ Hi).
    destruct (length nodes - i)%nat as [|fuel] eqn:Ef; [lia|]. simpl. intros Hrun.
    eapply (term_access_frame nodes nmem Htopo i nd Hi Ht a (cache_access nodes fuel)
      (fs_cache_access nodes _ nmem Htopo _ fuel) (invalidate nodes (S i)));
      [| | | | |exact Hrun]; try done.
    intros c Hc. split; [|by apply (en_idle _ _ _ _ _ _ Hr i nd c); [lia|..]].
    destruct (cache_of nodes h i nd (ch_caches _ _ (en_coherent _ _ _ _ _ _ Hr)) Hi) as (c' & Hc' & Hok).
    simpl in Hc. congruence. }
  split; [apply Hff|]. intros j arr idx e Hj He Hout.
  destruct (fle_arrays _ _ (ff_filters _ _ _ _ _ Hff) j arr Hj) as (arr0 & Hj0 & Hlen & Harr).
  destruct (Harr idx e He) as (e0 & He0 & [->|[E1 E2]]).
  2:{ split; [by rewrite E1; intros [_ ?]|by rewrite E2; intros [_ ?]]. }
  destruct (proj2 Hfit j arr0 Hj0) as (nj & Hnj & Htj & Hsets & Hhash).
  destruct (Hent j arr0 idx e0 Hj0 He0) as [Hrd Hwr].
  pose proof (fle_mask _ _ (ff_filters _ _ _ _ _ Hff)) as Hmask. simpl in Hmask.
  assert (valid_addr (fe_rdAddr e0) ->
    hst nodes h' j (Z.lor (fe_rdAddr e0) (fl_procMask (h_filters h'))) =
    hst nodes h j (Z.lor (fe_rdAddr e0) (fl_procMask (h_filters h)))) as Hkeep.
  { intros Hv. destruct (Hrd Hv) as [Hidx Hst]. rewrite Hmask.
    apply (frame_keeps h1 h' (op_cache o) nd (op_addr o) j nj); try done.
    - by apply (at_rest_same h).
    - exists arr, idx, e0. split_and!; try done. by rewrite Hmask.
    - intros l Hl [-> Hl2]. rewrite Hi in Hnj. injection Hnj as ->. apply Hout; [done|].
      pose proof (set_ids_same _ _ _ _ Hl Hl2) as Hs. rewrite !Hhash in Hs.
      rewrite (ao_mask _ (to_array _ _ Htopo _ _ Hi)), <- Hsets in Hs.
      fold (filter_index arr0 (Z.lor (fe_rdAddr e0) (fl_procMask (h_filters h)))) in Hs.
      rewrite (fits_index _ (op_cache o) arr0 _ Hfit Hj0), <- Hidx in Hs. rewrite Hs.
      unfold filter_index. by rewrite Hlen. }
  split.
  - intros Hv. rewrite Hkeep by done. destruct (Hrd Hv) as [-> Hst]. split; [|done]. unfold filter_index. by rewrite Hlen.
  - intros Hv. destruct (Hwr Hv) as [Heq Hst]. split; [done|]. rewrite Hkeep; [done|]. by rewrite <- Heq.
Qed.

(** ** The operations *)

Lemma wp_on_fc {A} i (m : M FilterCache A) f a f' (Q : A -> FSys R D -> Prop) s :
  fs_fcs s !! i = Some f -> m f = Ok (a, f') -> Q a (mkFS (fs_hier s) (<[i := f']> (fs_fcs s))) -> wp (on_fc i m) Q s.
Proof.
  intros Hf Hm HQ. unfold on_fc. apply wp_bind, wp_get, wp_bind. eapply wp_lift; [by apply at_ok|]. rewrite Hm.
  apply wp_bind, wp_modify, wp_ret. done.
Qed.

(** A computation that only reads the fields. *)
Lemma wp_on_fc_read {A} i (m : M FilterCache A) f a (Q : A -> FSys R D -> Prop) s :
  fs_fcs s !! i = Some f -> m f = Ok (a, f) -> Q a s -> wp (on_fc i m) Q s.
Proof. intros Hf Hm HQ. eapply wp_on_fc; [done|done|]. rewrite list_insert_id by done. by destruct s. Qed.

Lemma wp_filterArray i arr (Q : list FilterEntry -> FSys R D -> Prop) s :
  fl_arrays (h_filters (fs_hier s)) !! i = Some arr -> Q arr s -> wp (filterArray i) Q s.
Proof. intros Hi HQ. unfold filterArray. apply wp_bind, wp_get. eapply wp_lift; [by apply at_ok|done]. Qed.

(** The state with another filter array. *)
Definition with_array (i : nat) (arr : list FilterEntry) h : Hier R D :=
  mkHier (h_caches h) (h_mem h) (h_core h)
    (mkFl (fl_procMask (h_filters h)) (<[i := arr]> (fl_arrays (h_filters h)))).

Lemma with_array_fits i arr arr' h :
  filter_fits (h_filters h) -> fl_arrays (h_filters h) !! i = Some arr -> length arr' = length arr ->
  filter_fits (h_filters (with_array i arr' h)).
Proof.
  intros [H1 H2] Hi Hlen. split; [done|]. simpl. intros j a Hj.
  apply list_lookup_insert_Some in Hj as [(<- & <- & _)|[_ Hj]]; [|by apply H2]. rewrite Hlen. by apply H2.
Qed.

Lemma with_array_entry i arr0 h j arr arr' idx e :
  entry_ok h j arr idx e -> length arr' = length arr -> entry_ok (with_array i arr0 h) j arr' idx e.
Proof.
  intros [H1 H2] Hlen. unfold entry_ok, filter_index. by rewrite !(hst_same h), Hlen.
Qed.

(** The index of an address is inside of the filter. *)
Lemma index_lt h j arr v :
  filter_fits (h_filters h) -> fl_arrays (h_filters h) !! j = Some arr -> (filter_index arr v < length arr)%nat.
Proof.
  intros [_ Hf] Hj. destruct (Hf j arr Hj) as (nd & Hn & _ & Hlen & _).
  destruct (ao_sets _ (to_array _ _ Htopo j nd Hn)) as (k & Hk & Hb). rewrite <- Hlen in Hk.
  unfold filter_index. rewrite Hk, Z.sub_1_r, <- Z.ones_equiv, Z.land_ones by lia.
  pose proof (Z.mod_pos_bound v (2 ^ k) ltac:(lia)). lia.
Qed.

Definition access_type (isLoad : bool) : AccessType := if isLoad then GETS else GETX.
Definition line_addr (v : Address) : Address := Z.lor v pm.

(** What an operation of a core promises. *)
Definition served (isLoad : bool) (i : nat) (v : Address) (cyc : Z) s (r : Z) s' : Prop :=
  filter_inv s' /\ own_ready (access_type isLoad) (hst nodes (fs_hier s') i (line_addr v)) /\ cyc <= r /\
  length (fs_fcs s') = length (fs_fcs s).

Lemma filter_replace_ok fuel s i f arr v isLoad cyc :
  filter_inv s -> fs_fcs s !! i = Some f -> fl_arrays (h_filters (fs_hier s)) !! i = Some arr ->
  valid_addr v -> 0 <= cyc <= 2 ^ 63 ->
  wp (filter_replace nodes fuel i v (filter_index arr v) isLoad cyc) (served isLoad i v cyc s) s.
Proof.
  intros [Hr Hmask Hfit Hent Hlen Hfc] Hf Harr Hv Hcyc. unfold filter_replace.
  destruct (Forall_lookup_1 _ _ _ _ Hfc Hf) as [Htlb Hflags].
  apply wp_bind, wp_get, wp_bind. eapply wp_on_fc_read; [done|unfold translate, bind, get; by rewrite Htlb|].
  apply wp_bind. eapply wp_on_fc_read; [done|done|].
  set (a := Z.lor (fl_procMask (h_filters (fs_hier s))) v).
  assert (op_ok nodes (mkOp i a (access_type isLoad) cyc (fc_srcId f) (fc_reqFlags f))) as Hop.
  { destruct (proj2 Hfit i arr Harr) as (nd & Hn & Ht & _). split; [by exists nd|]. by destruct isLoad. }
  destruct (wp_ok _ _ _ (run_op_ok nodes nmem Htopo _ _ Hr Hop)) as (r & h' & Hrun & Hr' & Hown & _ & Hle).
  destruct (access_entries _ _ _ _ Hr Hfit Hent Hop Hrun Hr') as [Hfl Hent']. simpl in *.
  apply wp_bind. unfold on_hier. apply wp_zoom. unfold wp. unfold run_op in Hrun. simpl in Hrun. unfold access_type in Hrun.
  rewrite Hrun.
  assert (exists arr', fl_arrays (h_filters h') !! i = Some arr' /\ length arr' = length arr) as (arr' & Harr' & Hlen').
  { destruct (lookup_lt_is_Some_2 (fl_arrays (h_filters h')) i) as [arr' H'].
    { rewrite (fle_len _ _ Hfl). by eapply lookup_lt_Some. }
    exists arr'. split; [done|]. destruct (fle_arrays _ _ Hfl i arr' H') as (x & Hx & ? & _). congruence. }
  assert (filter_fits (h_filters h')) as Hfit' by (by eapply filter_fits_le).
  assert (filter_index arr' v = filter_index arr v) as Hidx by (unfold filter_index; by rewrite Hlen').
  rewrite <- Hidx. pose proof (index_lt h' i arr' v Hfit' Harr') as Hlt.
  destruct (lookup_lt_is_Some_2 arr' _ Hlt) as [e He].
  change (wp (arr <- filterArray i ;; e <- lift (at_ arr (filter_index arr' v)) ;;
    set_filterArray i (<[filter_index arr' v := mkFE v (if isLoad then no_addr else v)
      (if fe_rdAddr e =? v then fe_availCycle e else r)]> arr) ;; ret r) (served isLoad i v cyc s)
    (mkFS h' (fs_fcs s))).
  apply wp_bind. eapply wp_filterArray; [done|]. apply wp_bind. eapply wp_lift; [by apply at_ok|].
  set (E := mkFE _ _ _). apply wp_bind. unfold set_filterArray, on_hier. apply wp_zoom, wp_modify, wp_ret.
  fold (with_array i (<[filter_index arr' v := E]> arr') h'). simpl.
  assert (a = line_addr v) as Hline by (unfold a, line_addr; by rewrite Hmask, Z.lor_comm).
  split; [split|]; simpl.
  - by apply (at_rest_same h').
  - by rewrite (fle_mask _ _ Hfl).
  - eapply with_array_fits; [done|done|by rewrite length_insert].
  - intros j arr2 idx e2 Hj He2. simpl in Hj. apply list_lookup_insert_Some in Hj as [(<- & <- & _)|[Hne Hj]].
    + apply list_lookup_insert_Some in He2 as [(<- & <- & _)|[Hne He2]].
      * unfold entry_ok. simpl. rewrite (fle_mask _ _ Hfl), Hmask. fold (line_addr v). rewrite !(hst_same h'), <- Hline by done.
        split; [intros _; split; [unfold filter_index; by rewrite length_insert|by destruct isLoad; [|rewrite Hown]]|].
        destruct isLoad; [by intros [_ ?]|done].
      * eapply with_array_entry; [apply (Hent' i arr' idx e2 Harr' He2)|by rewrite length_insert].
        intros _. unfold a. rewrite Z.lor_comm, <- (fle_mask _ _ Hfl).
        rewrite (fits_index _ i arr' v Hfit' Harr'). congruence.
    + eapply with_array_entry; [apply (Hent' j arr2 idx e2 Hj He2)|done]. by intros ->.
  - by rewrite length_insert, (fle_len _ _ Hfl).
  - done.
  - split_and!; [by rewrite (hst_same h'), <- Hline|done|done].
Qed.

(** Counting a hit changes nothing that matters. *)
Lemma hit_inv s i f isLoad : filter_inv s -> fs_fcs s !! i = Some f ->
  filter_inv (mkFS (fs_hier s) (<[i := filter_hit isLoad f]> (fs_fcs s))).
Proof.
  intros [H1 H0 H2 H3 H4 H5] Hf. split; simpl; try done; [by rewrite length_insert|].
  apply Forall_insert; [done|]. by destruct (Forall_lookup_1 _ _ _ _ H5 Hf).
Qed.

(** The addresses that the cores use: not the first line, and 64 bits. *)
Definition vaddr_ok (vAddr : Address) : Prop := 2 ^ lineBits <= vAddr < 2 ^ 64.

Lemma vaddr_valid m vAddr : mask_ok lineBits m -> vaddr_ok vAddr -> valid_addr (Z.shiftr vAddr lineBits).
Proof.
  intros [Hl _] [H1 H2]. rewrite Z.shiftr_div_pow2 by lia. assert (2 ^ 1 <= 2 ^ lineBits) by (apply Z.pow_le_mono_r; lia).
  split; [|unfold no_addr].
  - pose proof (Z.div_le_mono (2 ^ lineBits) vAddr (2 ^ lineBits) ltac:(lia) ltac:(lia)) as Hd.
    rewrite Z.div_same in Hd by lia. lia.
  - pose proof (Z.div_lt_upper_bound vAddr (2 ^ lineBits) (2 ^ 63) ltac:(lia) ltac:(nia)). lia.
Qed.

Lemma filter_of s i : filter_inv s -> (i < length (fs_fcs s))%nat ->
  exists f arr, fs_fcs s !! i = Some f /\ fl_arrays (h_filters (fs_hier s)) !! i = Some arr.
Proof.
  intros Hinv Hi. destruct (lookup_lt_is_Some_2 _ _ Hi) as [f Hf]. rewrite (fi_caches s Hinv) in Hi.
  destruct (lookup_lt_is_Some_2 _ _ Hi) as [arr Ha]. eauto.
Qed.

Definition fop (isLoad : bool) (fuel i : nat) (vAddr : Address) (cyc : Z) : M (FSys R D) Z :=
  if isLoad then load nodes lineBits fuel i vAddr cyc else store nodes lineBits fuel i vAddr cyc.

Lemma fop_served isLoad fuel s i vAddr cyc :
  filter_inv s -> (i < length (fs_fcs s))%nat -> vaddr_ok vAddr -> 0 <= cyc <= 2 ^ 63 ->
  wp (fop isLoad fuel i vAddr cyc) (served isLoad i (Z.shiftr vAddr lineBits) cyc s) s.
Proof.
  intros Hinv Hi Hva Hcyc. destruct (filter_of s i Hinv Hi) as (f & arr & Hf & Harr).
  pose proof Hinv as [Hr Hmask Hfit Hent _ _]. pose proof (vaddr_valid _ vAddr (proj1 Hfit) Hva) as Hv.
  destruct (lookup_lt_is_Some_2 arr _ (index_lt _ i arr (Z.shiftr vAddr lineBits) Hfit Harr)) as [e He].
  destruct (Hent i arr _ e Harr He) as [Hrd Hwr].
  assert (forall b, own_ready (access_type b) (hst nodes (fs_hier s) i (line_addr (Z.shiftr vAddr lineBits))) ->
    wp (on_fc i (modify (filter_hit b)) ;; ret (Z.max cyc (fe_availCycle e)))
       (served b i (Z.shiftr vAddr lineBits) cyc s) s) as Hhit.
  { intros b Hown. apply wp_bind. eapply wp_on_fc; [done|done|]. apply wp_ret.
    split_and!; [by apply hit_inv|done|lia|]. simpl. by rewrite length_insert. }
  unfold fop. destruct isLoad; [unfold load|unfold store]; (apply wp_bind; eapply wp_filterArray; [done|]; cbv zeta;
    apply wp_bind; eapply wp_lift; [by apply at_ok|]);
    match goal with |- context [?x =? ?y] => destruct (Z.eqb_spec x y) as [E|_] end;
    [apply Hhit|by eapply filter_replace_ok|apply Hhit|by eapply filter_replace_ok].
  - unfold line_addr. rewrite E, <- Hmask. by apply Hrd; rewrite <- E.
  - unfold line_addr. destruct Hwr as [Heq HM]; [by rewrite <- E|]. by rewrite E, Heq, <- Hmask.
Qed.

Lemma contextSwitch_ok s i :
  filter_inv s -> (i < length (fs_fcs s))%nat ->
  wp (contextSwitch i) (fun _ s' => filter_inv s' /\ length (fs_fcs s') = length (fs_fcs s)) s.
Proof.
  intros Hinv Hi. destruct (filter_of s i Hinv Hi) as (f & arr & Hf & Harr). destruct Hinv as [Hr Hmask Hfit Hent Hlen Hfc].
  unfold contextSwitch. apply wp_bind. eapply wp_filterArray; [done|].
  unfold set_filterArray, on_hier. apply wp_zoom, wp_modify. split; [|done]. split; simpl.
  - by apply (at_rest_same (fs_hier s)).
  - done.
  - by eapply (with_array_fits i arr); [..|rewrite length_map].
  - intros j arr2 idx e Hj He. simpl in Hj. apply list_lookup_insert_Some in Hj as [(<- & <- & _)|[Hne Hj]].
    + rewrite list_lookup_fmap in He. destruct (arr !! idx); [|done]. injection He as <-.
      by split; intros [? _].
    + by eapply with_array_entry; [apply Hent|].
  - by rewrite length_insert.
  - done.
Qed.

(** ** Runs *)
Inductive FOp :=
| FLoad (i : nat) (vAddr : Address) (cycle : Z)
| FStore (i : nat) (vAddr : Address) (cycle : Z)
| FSwitch (i : nat).

Definition fop_ok (n : nat) (o : FOp) : Prop :=
  match o with
  | FLoad i va c | FStore i va c => (i < n)%nat /\ vaddr_ok va /\ 0 <= c <= 2 ^ 63
  | FSwitch i => (i < n)%nat
  end.
Definition run_fop (fuel : nat) (o : FOp) : M (FSys R D) unit :=
  match o with
  | FLoad i va c => load nodes lineBits fuel i va c ;; ret tt
  | FStore i va c => store nodes lineBits fuel i va c ;; ret tt
  | FSwitch i => contextSwitch i
  end.

Lemma run_fops_ok fuel n ops s :
  filter_inv s -> length (fs_fcs s) = n -> Forall (fop_ok n) ops ->
  wp (forM ops (run_fop fuel)) (fun _ s' => filter_inv s' /\ length (fs_fcs s') = n) s.
Proof.
  intros Hinv Hn Hops. apply (wp_forM_inv ops _ (fun s => filter_inv s /\ length (fs_fcs s) = n)); [done|].
  intros o s' Ho [Hinv' Hn']. pose proof (proj1 (list.Forall_forall _ _) Hops o Ho) as Hok.
  destruct o as [i va c|i va c|i]; simpl in Hok.
  - destruct Hok as (H1 & H2 & H3). apply wp_bind.
    eapply wp_mono; [apply (fop_served true); [done|lia|done|done]|]. intros r s2 (A & _ & _ & B).
    apply wp_ret. split; [done|congruence].
  - destruct Hok as (H1 & H2 & H3). apply wp_bind.
    eapply wp_mono; [apply (fop_served false); [done|lia|done|done]|]. intros r s2 (A & _ & _ & B).
    apply wp_ret. split; [done|congruence].
  - eapply wp_mono; [apply contextSwitch_ok; [done|lia]|]. intros [] s2 [A B]. split; [done|congruence].
Qed.

(** The filter caches as [init.cpp] builds them, without the TLB. *)
Definition fresh_filters (fcs : list FilterCache) (arrays : list (list FilterEntry)) : Prop :=
  Forall2 (fun f arr => exists n self src flags, Z.land flags PREFETCH = 0 /\
    f = setFlags flags (setSourceId src (FilterCache_new n false self).1) /\ arr = (FilterCache_new n false self).2)
    fcs arrays.

Lemma fresh_inv cs d fcs arrays :
  fresh_caches nodes cs -> top_ok nmem d -> filter_fits (mkFl pm arrays) -> fresh_filters fcs arrays ->
  filter_inv (mkFS (mkHier cs d MESI.I (mkFl pm arrays)) fcs).
Proof.
  intros Hc Hd Hfit Hf. split; simpl.
  - by apply fresh_at_rest.
  - done.
  - done.
  - intros j arr idx e Hj He. simpl in Hj.
    destruct (Forall2_lookup_r _ _ _ _ _ Hf Hj) as (f & _ & n & self & src & flags & _ & _ & ->).
    apply lookup_replicate in He as [-> _]. by split; intros [? _].
  - by eapply Forall2_length.
  - apply list.Forall_forall. intros f [j Hj]%list_elem_of_lookup.
    destruct (Forall2_lookup_l _ _ _ _ _ Hf Hj) as (arr & _ & n & self & src & flags & Hfl & -> & _). done.
Qed.
End Invariant.

(** ** The properties *)
Section Claims.
Context {R D : Type} `{RP : ReplPolicy R} `{MT : MemTop D} `{RL : !ReplLaws R} `{ML : !MemTopLaws D}.
Context (nodes : list Node) (nmem : nat) (lineBits pm : Z) (fuel : nat).

(** C36: the filters of the cores of one process are transparent, without the TLB
    and for addresses outside the first line.  From the caches and filters that the
    constructors build, with one [procMask] for all cores and the TLB off, every
    sequence of loads, stores and context switches of the cores at such addresses
    runs to its end in a coherent hierarchy.
    After it every such load and store of a core returns, hit or miss in the
    filter, not before it was issued; and then the core's cache holds the line
    of the address, in M after a store. *)
Theorem filter_transparent cs (d : D) fcs arrays ops :
  topo_ok nodes nmem -> fresh_caches nodes cs -> top_ok nmem d ->
  filter_fits nodes lineBits (mkFl pm arrays) -> fresh_filters fcs arrays ->
  Forall (fop_ok lineBits (length fcs)) ops ->
  exists s : FSys R D,
    forM ops (run_fop nodes lineBits fuel) (mkFS (mkHier cs d MESI.I (mkFl pm arrays)) fcs) = Ok (tt, s) /\
    coherent nodes (fs_hier s) /\
    forall i vAddr cyc, (i < length fcs)%nat -> vaddr_ok lineBits vAddr -> 0 <= cyc <= 2 ^ 63 ->
      (exists r s', load nodes lineBits fuel i vAddr cyc s = Ok (r, s') /\ cyc <= r /\
         hst nodes (fs_hier s') i (Z.lor (Z.shiftr vAddr lineBits) pm) <> MESI.I) /\
      (exists r s', store nodes lineBits fuel i vAddr cyc s = Ok (r, s') /\ cyc <= r /\
         hst nodes (fs_hier s') i (Z.lor (Z.shiftr vAddr lineBits) pm) = MESI.M).
Proof.
  intros Htopo Hc Hd Hfit Hf Hops. pose proof (fresh_inv nodes nmem Htopo lineBits pm cs d fcs arrays Hc Hd Hfit Hf) as Hinv.
  destruct (wp_ok _ _ _ (run_fops_ok nodes nmem Htopo lineBits pm fuel _ ops _ Hinv eq_refl Hops))
    as ([] & s & Hrun & Hinv' & Hlen). simpl in Hlen.
  exists s. split_and!; [done|apply Hinv'|]. intros i vAddr cyc Hi Hva Hcyc. rewrite <- Hlen in Hi.
  split.
  - destruct (wp_ok _ _ _ (fop_served nodes nmem Htopo lineBits pm true fuel s i vAddr cyc Hinv' Hi Hva Hcyc))
      as (r & s' & H1 & _ & H2 & H3 & _). eauto.
  - destruct (wp_ok _ _ _ (fop_served nodes nmem Htopo lineBits pm false fuel s i vAddr cyc Hinv' Hi Hva Hcyc))
      as (r & s' & H1 & _ & H2 & H3 & _). eauto.
Qed.
End Claims.

(** ** Two cores with filters *)
#[local] Instance demo_policy : ReplPolicy LRU := LRU_policy false.
#[local] Instance demo_laws : ReplLaws LRU := LRU_laws false.

Definition demo_fc (tlb : bool) (i : Z) : FilterCache := setFlags 0 (setSourceId i (FilterCache_new 4 tlb (4096 * (i + 1))).1).
Definition demo_fcs (tlb : bool) : list FilterCache := [demo_fc tlb 0; demo_fc tlb 1].
Definition demo_filters : Filters := mkFl 0 [replicate 4 fe_clear; replicate 4 fe_clear].
Definition demo_fsys (tlb : bool) : FSys LRU Top := mkFS (mkHier demo_caches demo_top MESI.I demo_filters) (demo_fcs tlb).

Lemma demo_fits : filter_fits demo_nodes 6 demo_filters.
Proof.
  split; [split; [lia|by exists 0]|]. intros [|[|j]] arr Hj; simplify_eq/=; (eexists; split_and!; done).
Qed.

Lemma demo_fresh_filters : fresh_filters (demo_fcs false) [replicate 4 fe_clear; replicate 4 fe_clear].
Proof. repeat constructor; [exists 4%nat, 4096, 0, 0|exists 4%nat, 8192, 1, 0]; done. Qed.

(** Core 0 loads a line, core 1 stores to it. *)
Lemma filter_transparent_witness :
  exists s : FSys LRU Top,
    forM [FLoad 0 4160 100; FStore 1 4168 200; FSwitch 1] (run_fop demo_nodes 6 0) (demo_fsys false) = Ok (tt, s) /\
    exists r s', load demo_nodes 6 0 0 4160 1000 s = Ok (r, s') /\ 1000 <= r /\ hst demo_nodes (fs_hier s') 0 65 <> MESI.I.
Proof.
  destruct (filter_transparent demo_nodes 1 6 0 0 demo_caches demo_top (demo_fcs false)
    [replicate 4 fe_clear; replicate 4 fe_clear] [FLoad 0 4160 100; FStore 1 4168 200; FSwitch 1]) as (s & H1 & _ & H2).
  - exact demo_topo.
  - exact demo_fresh.
  - exact demo_mems.
  - exact demo_fits.
  - exact demo_fresh_filters.
  - repeat constructor; simpl; unfold vaddr_ok; lia.
  - exists s. split; [exact H1|].
    destruct (H2 0%nat 4160 1000) as [H _]; [simpl; lia|unfold vaddr_ok; lia|lia|exact H].
Defined.

