(* ===== verification/FilterTlb.v ===== *)
(** * The page randomisation of the filter cache

    With [sim.enableTLB] a filter cache draws a random page for every virtual
    page.  The generator has full period, so the loop that looks for an unused
    page ends; pages are not shared.  The filter compares virtual addresses
    with the physical ones of invalidations, so its hits can be stale. *)

From stdpp Require Import base list gmap sets strings.
From Stdlib Require Import ZArith Lia.
From S2P Require Import Prelude Numeric MemHierarchy DdrBound ReplPolicy CacheArray Coherence MemCtrls CoherenceInv CoherenceSpec FilterAccess FilterCache FilterSpec.
Local Open Scope Z_scope.

(** ** The generator visits every value of its register *)
Definition lcg (x : Z) : Z := 25214903917 * x + 11.

(** [2^k] steps are an affine map that is the identity modulo [2^k] and moves
    every value modulo [2^(k+1)]. *)
Lemma lcg_pow k : exists q o, forall x,
  Nat.iter (2 ^ k) lcg x = (1 + 2 ^ (Z.of_nat k + 2) * q) * x + 2 ^ Z.of_nat k * (2 * o + 1).
Proof.
  induction k as [|k (q & o & IH)].
  - exists 6303725979, 5. intros x. simpl. unfold lcg. lia.
  - set (P := 2 ^ Z.of_nat k) in *. assert (2 ^ (Z.of_nat k + 2) = 4 * P) as E1.
    { unfold P. rewrite Z.pow_add_r by lia. lia. }
    rewrite E1 in IH. rewrite Nat2Z.inj_succ.
    assert (2 ^ (Z.succ (Z.of_nat k) + 2) = 8 * P) as ->.
    { unfold P. replace (Z.succ (Z.of_nat k) + 2) with (Z.of_nat k + 3) by lia. rewrite Z.pow_add_r by lia. lia. }
    rewrite Z.pow_succ_r by lia. fold P.
    exists (q + 2 * P * q * q), (o + 2 * P * q * o + P * q). intros x.
    replace (2 ^ S k)%nat with (2 ^ k + 2 ^ k)%nat by (simpl; lia). rewrite Nat.iter_add, !IH. ring.
Qed.

Lemma lcg_reach k x y : exists n m, Nat.iter n lcg x = y + 2 ^ Z.of_nat k * m.
Proof.
  induction k as [|k (n & m & IH)].
  - exists 0%nat, (x - y). simpl. lia.
  - rewrite Nat2Z.inj_succ, Z.pow_succ_r by lia. destruct (Z.Even_or_Odd m) as [[c ->]|[c ->]].
    + exists n, c. rewrite IH. ring.
    + destruct (lcg_pow k) as (q & o & Hp). exists (2 ^ k + n)%nat. rewrite Nat.iter_add, Hp, IH.
      rewrite Z.pow_add_r by lia.
      exists (c + o + 1 + 2 * q * (y + 2 ^ Z.of_nat k * (2 * c + 1))). ring.
Qed.

Lemma drand48_iter n x : 0 <= x < 2 ^ 48 -> Nat.iter n drand48_step x = Nat.iter n lcg x mod 2 ^ 48.
Proof.
  intros Hx. induction n as [|n IH]; simpl; [by rewrite Z.mod_small|]. rewrite IH. unfold drand48_step, lcg.
  rewrite <- (Z.add_mod_idemp_l (25214903917 * Nat.iter n _ x)), <- (Z.mul_mod_idemp_r 25214903917 (Nat.iter n _ x)) by lia.
  by rewrite Z.add_mod_idemp_l by lia.
Qed.

(** Every value follows every other one. *)
Lemma drand48_reach x y : 0 <= y < 2 ^ 48 -> exists n, Nat.iter (S n) drand48_step x = y.
Proof.
  intros Hy. destruct (lcg_reach 48 (drand48_step x) y) as (n & m & H). exists n.
  rewrite Nat.iter_succ_r, drand48_iter by (apply Z.mod_pos_bound; lia). rewrite H.
  change (Z.of_nat 48) with 48. rewrite Z.mul_comm, Z.mod_add by lia. by apply Z.mod_small.
Qed.

(** ** Drawing a page *)
Definition page_of (b : drand48_data) : Z := Z.land (Z.shiftr b 17) (2 ^ 52 - 1).

Lemma unused_page n (used : gset Z) : (size used < n)%nat -> exists p, 0 <= p < Z.of_nat n /\ p ∉ used.
Proof.
  revert used. induction n as [|n IH]; intros used Hs; [lia|]. destruct (decide (Z.of_nat n ∈ used)) as [Hin|Hout].
  - destruct (IH (used ∖ {[Z.of_nat n]})) as (p & Hp & Hn).
    { assert ({[Z.of_nat n]} ⊆ used) as Hsub by set_solver. pose proof (subseteq_size _ _ Hsub) as H1.
      rewrite size_difference by done. rewrite size_singleton in *. lia. }
    exists p. split; [lia|]. intros Hp'. apply Hn. assert (p <> Z.of_nat n) by lia. set_solver.
  - exists (Z.of_nat n). split; [lia|done].
Qed.

Lemma page_of_shift p : 0 <= p < 2 ^ 31 -> page_of (p * 2 ^ 17) = p.
Proof.
  intros Hp. unfold page_of. rewrite Z.shiftr_div_pow2, Z.div_mul by lia.
  change (2 ^ 52 - 1) with (Z.ones 52). rewrite Z.land_ones by lia. apply Z.mod_small. lia.
Qed.

Lemma draw_reaches n : forall b used, ~ (page_of (Nat.iter (S n) drand48_step b) ∈ used) ->
  exists p b', forall fuel, (n < fuel)%nat -> draw_pgnum fuel used b = Ok (p, b') /\ ~ (p ∈ used).
Proof.
  induction n as [|n IH]; intros b used Hp.
  - exists (page_of (drand48_step b)), (drand48_step b). intros [|fuel] Hf; [lia|]. simpl in *.
    by rewrite bool_decide_eq_false_2.
  - destruct (decide (page_of (drand48_step b) ∈ used)) as [Hin|Hout].
    + rewrite Nat.iter_succ_r in Hp. destruct (IH (drand48_step b) used Hp) as (p & b' & H). exists p, b'.
      intros [|fuel] Hf; [lia|]. destruct (H fuel ltac:(lia)) as [H1 H2]. split; [|done]. simpl.
      by rewrite bool_decide_eq_true_2.
    + exists (page_of (drand48_step b)), (drand48_step b). intros [|fuel] Hf; [lia|]. simpl.
      by rewrite bool_decide_eq_false_2.
Qed.

(** ** The map *)
Record tlb_ok (f : FilterCache) : Prop := {
  tk_used : forall v p, fc_tlb f !! v = Some p -> p ∈ fc_exist_pgnum f;
  tk_inj : forall v1 v2 p, fc_tlb f !! v1 = Some p -> fc_tlb f !! v2 = Some p -> v1 = v2;
  tk_size : size (fc_exist_pgnum f) = size (fc_tlb f)
}.

(** The TLB.  As long as fewer than [2^31] pages are mapped, looking up a
    page returns, mapped or not: the loop that draws random pages until it
    finds an unused one ends.  The page is then mapped, no other page changes
    its translation, and no two virtual pages share one. *)
Theorem tlb_page_total f vpgnum :
  tlb_ok f -> Z.of_nat (size (fc_tlb f)) < 2 ^ 31 ->
  exists n p f', (forall fuel, (n < fuel)%nat -> tlb_page fuel vpgnum f = Ok (p, f')) /\
    tlb_ok f' /\ fc_tlb f' !! vpgnum = Some p /\
    (forall v, v <> vpgnum -> fc_tlb f' !! v = fc_tlb f !! v).
Proof.
  intros [Hu Hi Hs] Hsize. unfold tlb_page, bind, get. destruct (fc_tlb f !! vpgnum) as [p|] eqn:Hv.
  { exists 0%nat, p, f. by split_and!. }
  destruct (unused_page (Z.to_nat (2 ^ 31)) (fc_exist_pgnum f)) as (p0 & Hp0 & Hfree); [lia|].
  destruct (drand48_reach (fc_buffer f) (p0 * 2 ^ 17)) as [n Hn]; [lia|].
  destruct (draw_reaches n (fc_buffer f) (fc_exist_pgnum f)) as (p & b & Hdraw).
  { rewrite Hn, page_of_shift; [done|lia]. }
  destruct (Hdraw (S n) ltac:(lia)) as [_ Hp].
  exists n, p. eexists. split; [intros fuel Hf; unfold lift, modify, ret; by rewrite (proj1 (Hdraw fuel Hf))|].
  split; [split|split]; simpl.
  - intros v q Hq. apply lookup_insert_Some in Hq as [[_ <-]|[_ Hq]]; [set_solver|]. apply Hu in Hq. set_solver.
  - intros v1 v2 q H1 H2. apply lookup_insert_Some in H1 as [[<- <-]|[N1 H1]], H2 as [[<- ?]|[N2 H2]]; subst; try done.
    + by apply Hu in H2.
    + by apply Hu in H1.
    + by eapply Hi.
  - rewrite size_union, size_singleton, map_size_insert_None by set_solver. lia.
  - by rewrite lookup_insert_eq.
  - intros v Hne. by rewrite lookup_insert_ne.
Qed.

(** ** Stale hits *)
#[local] Instance demo_policy : ReplPolicy LRU := LRU_policy false.

(** A hit does not look at the cache. *)
Lemma load_hit {R D} `{ReplPolicy R} `{MemTop D} nodes lineBits fuel i vAddr cyc (s : FSys R D) f arr e :
  fs_fcs s !! i = Some f -> fl_arrays (h_filters (fs_hier s)) !! i = Some arr ->
  arr !! filter_index arr (Z.shiftr vAddr lineBits) = Some e -> fe_rdAddr e = Z.shiftr vAddr lineBits ->
  exists s', load nodes lineBits fuel i vAddr cyc s = Ok (Z.max cyc (fe_availCycle e), s') /\ fs_hier s' = fs_hier s.
Proof.
  intros Hf Ha He Hrd. unfold load, filterArray, on_fc, bind, get, lift. rewrite (at_ok _ _ _ Ha), (at_ok _ _ _ He).
  rewrite Hrd, Z.eqb_refl, (at_ok _ _ _ Hf). simpl. eexists. split; reflexivity.
Qed.

(** A cleared entry has the address of line 0: a load of it hits in the empty
    filter although no cache holds the line. *)
Lemma zero_line_hit : exists s', load demo_nodes 6 10 0 8 100 (demo_fsys false) = Ok (100, s') /\
  fs_hier s' = fs_hier (demo_fsys false) /\ hst demo_nodes (fs_hier s') 0 0 = MESI.I.
Proof.
  destruct (load_hit demo_nodes 6 10 0 8 100 (demo_fsys false) (demo_fc false 0) (replicate 4 fe_clear) fe_clear)
    as (s' & H1 & H2); try reflexivity.
  exists s'. split; [exact H1|]. split; [exact H2|]. rewrite H2. vm_compute. reflexivity.
Qed.

(** Core 0 loads a line; core 1 loads three pages whose lines are in the same
    set of the L2, which evicts core 0's line. *)
Definition demo_tlb_ops : list FOp :=
  [FLoad 0 4160 100; FLoad 1 8256 1000; FLoad 1 12352 2000; FLoad 1 16448 3000].
Definition demo_tlb_run : M (FSys LRU Top) unit := forM demo_tlb_ops (run_fop demo_nodes 6 10).
Definition demo_tlb_state : FSys LRU Top := after demo_tlb_run (demo_fsys true).

Lemma after_ok {S} (m : M S unit) s : match m s with Ok _ => true | Err _ => false end = true -> m s = Ok (tt, after m s).
Proof. unfold after. by destruct (m s) as [[[] ?]|]. Qed.

(** With the TLB a filter hit can be stale.  After four loads by two cores,
    a load of core 0 hits in its filter and leaves the hierarchy alone,
    although the physical line that the TLB has for the address is not in core
    0's cache any more: the invalidation did not match the filter's virtual
    address. *)
Theorem tlb_stale_hit :
  demo_tlb_run (demo_fsys true) = Ok (tt, demo_tlb_state) /\
  (exists r s', load demo_nodes 6 10 0 4160 9000 demo_tlb_state = Ok (r, s') /\ fs_hier s' = fs_hier demo_tlb_state) /\
  (exists f p, fs_fcs demo_tlb_state !! 0%nat = Some f /\ translate 10 0 (Z.shiftr 4160 6) f = Ok (p, f) /\
     hst demo_nodes (fs_hier demo_tlb_state) 0 p = MESI.I).
Proof.
  split; [apply (after_ok demo_tlb_run (demo_fsys true)); vm_compute; reflexivity|]. split.
  - eexists. eapply load_hit; vm_compute; reflexivity.
  - eexists _, _. split; [vm_compute; reflexivity|]. split; vm_compute; reflexivity.
Qed.

(** A filter cache with one page mapped. *)
Definition demo_tlb_fc : FilterCache :=
  match tlb_page 5 1 (FilterCache_new 4 true 4096).1 with Ok (_, f) => f | Err _ => (FilterCache_new 4 true 4096).1 end.

Lemma tlb_page_total_witness :
  exists n p f', (forall fuel, (n < fuel)%nat -> tlb_page fuel 2 demo_tlb_fc = Ok (p, f')) /\
    fc_tlb f' !! 2 = Some p /\ fc_tlb f' !! 1 = fc_tlb demo_tlb_fc !! 1.
Proof.
  destruct (tlb_page_total demo_tlb_fc 2) as (n & p & f' & H1 & _ & H2 & H3).
  - assert (fc_tlb demo_tlb_fc = {[1 := 2098272622]}) as E by (vm_compute; reflexivity).
    split.
    + rewrite E. intros v q [<- <-]%lookup_singleton_Some. vm_compute. reflexivity.
    + rewrite E. intros v1 v2 q [<- _]%lookup_singleton_Some [<- _]%lookup_singleton_Some. reflexivity.
    + vm_compute. reflexivity.
  - vm_compute. reflexivity.
  - exists n, p, f'. split; [exact H1|]. split; [exact H2|]. apply H3. discriminate.
Defined.
