(* ===== verification/PrioQueue.v ===== *)
(** * The event queue of the weave phase ([src/src/prio_queue.h])

    [PrioQueue<T, B>] keeps the elements of the next [B] blocks of 64 cycles in
    an array of intrusive lists with an occupancy bit per list, and all others
    in an ordered map.  The abstract queue is a finite map from objects to
    cycles; the theorems show that the array, the bits, the lists and the map
    implement it. *)

From stdpp Require Import base list gmap strings sorting.
From Stdlib Require Import ZArith Lia.
From S2P Require Import Prelude Numeric.
Local Open Scope Z_scope.

(** ** Data *)

(** [struct PQBlock]: the heads of 64 lists, and [occ]. *)
Record PQBlock := mkBlk { pb_array : list (option nat); pb_occ : Z }.

(** Objects are numbered; [pq_next] holds their [next] fields, where a missing
    key is a null pointer. *)
Record PrioQueue := mkPQ {
  pq_blocks : list PQBlock;
  pq_feMap : list (Z * nat);
  pq_curBlock : Z;
  pq_elems : Z;
  pq_next : gmap nat nat
}.

Definition pq_set_block (i : nat) (b : PQBlock) (q : PrioQueue) : PrioQueue :=
  mkPQ (<[i := b]> (pq_blocks q)) (pq_feMap q) (pq_curBlock q) (pq_elems q) (pq_next q).
Definition pq_set_far (f : list (Z * nat)) (q : PrioQueue) : PrioQueue :=
  mkPQ (pq_blocks q) f (pq_curBlock q) (pq_elems q) (pq_next q).
Definition pq_set_cur (c : Z) (q : PrioQueue) : PrioQueue :=
  mkPQ (pq_blocks q) (pq_feMap q) c (pq_elems q) (pq_next q).
Definition pq_set_elems (n : Z) (q : PrioQueue) : PrioQueue :=
  mkPQ (pq_blocks q) (pq_feMap q) (pq_curBlock q) n (pq_next q).
Definition pq_set_next (o : nat) (x : option nat) (q : PrioQueue) : PrioQueue :=
  mkPQ (pq_blocks q) (pq_feMap q) (pq_curBlock q) (pq_elems q)
    (match x with Some y => <[o := y]> (pq_next q) | None => delete o (pq_next q) end).

(** [__builtin_ctzl]; not called with 0. *)
Definition ctzl (v : Z) : nat := find_idx (fun i => Z.testbit v (Z.of_nat i)) (seq 0 64).

(** [feMap.insert]: behind the elements with the same key. *)
Fixpoint fe_insert (c : Z) (o : nat) (l : list (Z * nat)) : list (Z * nat) :=
  match l with
  | [] => [(c, o)]
  | (c', o') :: l' => if c <? c' then (c, o) :: l else (c', o') :: fe_insert c o l'
  end.

(** The prefix of the map with keys below [top], and the rest. *)
Fixpoint fe_split (top : Z) (l : list (Z * nat)) : list (Z * nat) * list (Z * nat) :=
  match l with
  | [] => ([], [])
  | (c, o) :: l' =>
      if c <? top then let (now, later) := fe_split top l' in ((c, o) :: now, later) else ([], l)
  end.

(** ** Operations *)
Section PQ.
Context (B : nat).

Definition empty_block : PQBlock := mkBlk (replicate 64 None) 0.
Definition PrioQueue_new : PrioQueue := mkPQ (replicate B empty_block) [] 0 0 ∅.

(** [curBlock % B] *)
Definition block_index (absBlock : Z) : M PrioQueue nat :=
  r <- lift (umod absBlock (Z.of_nat B)) ;; ret (Z.to_nat r).
Definition get_block (i : nat) : M PrioQueue PQBlock := q <- get ;; lift (at_ (pq_blocks q) i).

(** [PQBlock::enqueue(obj, pos)] *)
Definition block_enqueue (i : nat) (obj : nat) (pos : nat) : M PrioQueue unit :=
  b <- get_block i ;;
  let occ := Z.lor (pb_occ b) (Z.shiftl 1 (Z.of_nat pos)) in
  q <- get ;;
  assert_ "prio_queue.h:57" (bool_decide (pq_next q !! obj = None)) ;;
  head <- lift (at_ (pb_array b) pos) ;;
  modify (pq_set_next obj head) ;;
  array <- lift (set_at (pb_array b) pos (Some obj)) ;;
  modify (pq_set_block i (mkBlk array occ)).

(** [PQBlock::dequeue(offset)]: the object and the offset. *)
Definition block_dequeue (i : nat) : M PrioQueue (nat * nat) :=
  b <- get_block i ;;
  assert_ "prio_queue.h:43" (negb (pb_occ b =? 0)) ;;
  let pos := ctzl (pb_occ b) in
  head <- lift (at_ (pb_array b) pos) ;;
  match head with
  | None => fail NullDeref
  | Some obj =>
      q <- get ;;
      let next := pq_next q !! obj in
      array <- lift (set_at (pb_array b) pos next) ;;
      let occ := match next with
                 | None => Z.lxor (pb_occ b) (Z.shiftl 1 (Z.of_nat pos))
                 | Some _ => pb_occ b
                 end in
      modify (pq_set_block i (mkBlk array occ)) ;;
      modify (pq_set_next obj None) ;;
      ret (obj, pos)
  end.

(** The object goes to the block of its cycle. *)
Definition near_enqueue (obj : nat) (cycle : Z) : M PrioQueue unit :=
  i <- block_index (cycle / 64) ;;
  block_enqueue i obj (Z.to_nat (cycle mod 64)).

Definition enqueue (obj : nat) (cycle : Z) : M PrioQueue unit :=
  let absBlock := cycle / 64 in
  q <- get ;;
  assert_ "prio_queue.h:81" (pq_curBlock q <=? absBlock) ;;
  (if absBlock <? u64 (pq_curBlock q + Z.of_nat B) then near_enqueue obj cycle
   else modify (fun q => pq_set_far (fe_insert cycle obj (pq_feMap q)) q)) ;;
  modify (fun q => pq_set_elems (u64 (pq_elems q + 1)) q).

(** Lines 99-115: the far elements of the next blocks move to the array. *)
Definition migrate : M PrioQueue unit :=
  q <- get ;;
  let topCycle := u64 (u64 (pq_curBlock q + Z.of_nat B) * 64) in
  let (now, later) := fe_split topCycle (pq_feMap q) in
  forM now (fun '(cycle, obj) =>
    let absBlock := cycle / 64 in
    q <- get ;;
    assert_ "prio_queue.h:107" (pq_curBlock q <=? absBlock) ;;
    assert_ "prio_queue.h:108" (absBlock <? u64 (pq_curBlock q + Z.of_nat B)) ;;
    near_enqueue obj cycle) ;;
  modify (pq_set_far later).

(** The body of the loop of [dequeue]. *)
Definition next_block : M PrioQueue unit :=
  modify (fun q => pq_set_cur (u64 (pq_curBlock q + 1)) q) ;;
  q <- get ;;
  r <- lift (umod (pq_curBlock q) (Z.of_nat (B / 2))) ;;
  when ((r =? 0) && match pq_feMap q with [] => false | _ => true end) migrate.

Fixpoint find_block (fuel : nat) : M PrioQueue unit :=
  q <- get ;;
  i <- block_index (pq_curBlock q) ;;
  b <- get_block i ;;
  if pb_occ b =? 0 then
    match fuel with
    | O => fail OutOfFuel
    | S fuel => next_block ;; find_block fuel
    end
  else ret tt.

(** The first element is in one of the next [B] blocks or is the first far
    element. *)
Definition dequeue_fuel (q : PrioQueue) : nat :=
  match pq_feMap q with
  | (c, _) :: _ => B + Z.to_nat (c / 64 - pq_curBlock q)
  | [] => B
  end.

Definition dequeue : M PrioQueue (nat * Z) :=
  q <- get ;;
  assert_ "prio_queue.h:95" (negb (pq_elems q =? 0)) ;;
  find_block (dequeue_fuel q) ;;
  q <- get ;;
  i <- block_index (pq_curBlock q) ;;
  let! (obj, offset) := block_dequeue i in
  modify (fun q => pq_set_elems (u64 (pq_elems q - 1)) q) ;;
  ret (obj, u64 (u64 (pq_curBlock q * 64) + Z.of_nat offset)).

Definition pq_size : M PrioQueue Z := gets pq_elems.

(** The loops of [firstCycle]: the first occupied block among the next ones. *)
Fixpoint first_occupied (ks : list nat) : M PrioQueue (option Z) :=
  match ks with
  | [] => ret None
  | i :: ks' =>
      q <- get ;;
      let absBlock := u64 (pq_curBlock q + Z.of_nat i) in
      j <- block_index absBlock ;;
      b <- get_block j ;;
      if pb_occ b =? 0 then first_occupied ks'
      else ret (Some (u64 (u64 (absBlock * 64) + Z.of_nat (ctzl (pb_occ b)))))
  end.

Definition firstCycle : M PrioQueue Z :=
  q <- get ;;
  assert_ "prio_queue.h:132" (negb (pq_elems q =? 0)) ;;
  near <- first_occupied (seq 0 (B / 2)) ;;
  match near with
  | Some c => ret c
  | None =>
      mid <- first_occupied (seq (B / 2) (B - B / 2)) ;;
      match mid, pq_feMap q with
      | Some c, [] => ret c
      | Some c, (f, _) :: _ => ret (Z.min c f)
      | None, (f, _) :: _ => ret f
      | None, [] => fail NullDeref
      end
  end.
End PQ.

(** ** Chains and bits *)

(** [head] starts a list of [next] pointers through the objects of [l]. *)
Fixpoint is_chain (next : gmap nat nat) (head : option nat) (l : list nat) : Prop :=
  match l with
  | [] => head = None
  | o :: l' => head = Some o /\ is_chain next (next !! o) l'
  end.

Lemma is_chain_frame next next' head l :
  (forall o, o ∈ l -> next' !! o = next !! o) -> is_chain next head l -> is_chain next' head l.
Proof.
  revert head. induction l as [|o l IH]; intros head Heq; [done|]. intros [-> Hl].
  split; [done|]. rewrite Heq by left. apply IH; [|done]. intros o' Ho'. apply Heq. by right.
Qed.

Lemma umod_ok a b : b <> 0 -> umod a b = Ok (a mod b).
Proof. intros Hb. unfold umod. by apply Z.eqb_neq in Hb as ->. Qed.

Lemma ctzl_spec v :
  in_u64 v -> v <> 0 ->
  (ctzl v < 64)%nat /\ Z.testbit v (Z.of_nat (ctzl v)) = true /\
  forall j, (j < ctzl v)%nat -> Z.testbit v (Z.of_nat j) = false.
Proof.
  intros Hv Hne. unfold in_u64 in Hv.
  assert (Z.log2 v < 64) as Hlog by (apply Z.log2_lt_pow2; lia).
  pose proof (Z.log2_nonneg v) as Hnn.
  set (p := fun i => Z.testbit v (Z.of_nat i)).
  assert (ctzl v <= Z.to_nat (Z.log2 v))%nat as Hle.
  { apply (find_idx_some p _ _ (Z.to_nat (Z.log2 v))); [apply lookup_seq; lia|].
    subst p; simpl. rewrite Z2Nat.id by lia. apply Z.bit_log2. lia. }
  destruct (find_idx_lt p (seq 0 64)) as (x & Hx & Hp & Hmin).
  { rewrite length_seq. change (find_idx p (seq 0 64)) with (ctzl v). lia. }
  change (find_idx p (seq 0 64)) with (ctzl v) in *. apply lookup_seq in Hx as [-> ?]. split_and!; [lia|done|].
  intros j Hj. eapply (Hmin j j Hj). apply lookup_seq. lia.
Qed.

(** Flipping a set bit clears it. *)
Lemma lxor_bit_u64 v b : in_u64 v -> 0 <= b < 64 -> in_u64 (Z.lxor v (Z.shiftl 1 b)).
Proof.
  unfold in_u64. intros Hv Hb. rewrite Z.shiftl_1_l.
  assert (0 < 2 ^ b) by (apply Z.pow_pos_nonneg; lia).
  assert (0 <= Z.lxor v (2 ^ b)) by (apply Z.lxor_nonneg; lia).
  split; [done|]. destruct (Z.eq_dec (Z.lxor v (2 ^ b)) 0) as [->|Hne]; [lia|].
  apply Z.log2_lt_pow2; [lia|]. eapply Z.le_lt_trans; [apply Z.log2_lxor; lia|].
  apply Z.max_lub_lt; [|rewrite Z.log2_pow2; lia].
  destruct (Z.eq_dec v 0) as [->|]; [simpl; lia|]. apply Z.log2_lt_pow2; lia.
Qed.

Lemma lor_testbit v b j :
  0 <= b -> 0 <= j -> Z.testbit (Z.lor v (Z.shiftl 1 b)) j = if j =? b then true else Z.testbit v j.
Proof.
  intros Hb Hj. rewrite Z.lor_spec, Z.shiftl_1_l, Z.pow2_bits_eqb, (Z.eqb_sym b j) by lia.
  destruct (j =? b); by rewrite ?orb_true_r, ?orb_false_r.
Qed.

Lemma lxor_testbit v b j :
  0 <= b -> 0 <= j ->
  Z.testbit (Z.lxor v (Z.shiftl 1 b)) j = if j =? b then negb (Z.testbit v j) else Z.testbit v j.
Proof.
  intros Hb Hj. rewrite Z.lxor_spec, Z.shiftl_1_l, Z.pow2_bits_eqb, (Z.eqb_sym b j) by lia.
  destruct (j =? b); by rewrite ?xorb_true_r, ?xorb_false_r.
Qed.

(** ** The array of blocks *)

Definition occupied (l : list nat) : bool := match l with [] => false | _ => true end.

(** A block stores the lists of its 64 cycles. *)
Record blk_rep (next : gmap nat nat) (L : nat -> list nat) (b : PQBlock) : Prop := {
  br_len : length (pb_array b) = 64%nat;
  br_occ : in_u64 (pb_occ b);
  br_chain : forall pos, (pos < 64)%nat ->
    exists head, pb_array b !! pos = Some head /\ is_chain next head (L pos);
  br_bit : forall pos, (pos < 64)%nat -> Z.testbit (pb_occ b) (Z.of_nat pos) = occupied (L pos)
}.

Lemma blk_rep_ext next next' (L L' : nat -> list nat) b :
  (forall pos, (pos < 64)%nat -> L' pos = L pos) ->
  (forall pos o, (pos < 64)%nat -> o ∈ L pos -> next' !! o = next !! o) ->
  blk_rep next L b -> blk_rep next' L' b.
Proof.
  intros HL Hnext [Hlen Hocc Hch Hbit]. split; [done|done|..].
  - intros pos Hpos. destruct (Hch pos Hpos) as (h & Hh & Hc). exists h. rewrite HL by done.
    split; [done|]. eapply is_chain_frame; [|exact Hc]. eauto.
  - intros pos Hpos. by rewrite HL, Hbit.
Qed.

Lemma blk_rep_zero next L b :
  blk_rep next L b -> (pb_occ b = 0 <-> forall pos, (pos < 64)%nat -> L pos = []).
Proof.
  intros [Hlen Hocc Hch Hbit]. split.
  - intros Hz pos Hpos. specialize (Hbit pos Hpos). rewrite Hz, Z.bits_0 in Hbit.
    by destruct (L pos).
  - intros HL. destruct (decide (pb_occ b = 0)) as [|Hne]; [done|]. exfalso.
    destruct (ctzl_spec _ Hocc Hne) as (Hlt & Hb & _). rewrite Hbit, HL in Hb by done. done.
Qed.

(** The list for cycle [c] of the elements kept in the array. *)
Definition push (near : Z -> list nat) (c : Z) (o : nat) : Z -> list nat :=
  fun x => if x =? c then o :: near x else near x.
Definition pop (near : Z -> list nat) (c : Z) : Z -> list nat :=
  fun x => if x =? c then tail (near x) else near x.

Lemma cycle_split c : c = c / 64 * 64 + Z.of_nat (Z.to_nat (c mod 64)).
Proof. pose proof (Z.mod_pos_bound c 64). pose proof (Z.div_mod c 64). lia. Qed.

Lemma push_inj near c o :
  (forall x, o ∉ near x) -> (forall c c' o, o ∈ near c -> o ∈ near c' -> c = c') ->
  forall c1 c2 o', o' ∈ push near c o c1 -> o' ∈ push near c o c2 -> c1 = c2.
Proof.
  intros Hnew Hinj c1 c2 o'. unfold push.
  destruct (Z.eqb_spec c1 c), (Z.eqb_spec c2 c); rewrite ?elem_of_cons; naive_solver.
Qed.

Lemma block_enqueue_rep next next' L b o pos array :
  blk_rep next L b -> (pos < 64)%nat -> (forall p, (p < 64)%nat -> o ∉ L p) ->
  array = <[pos := Some o]> (pb_array b) ->
  Some (next' !! o) = pb_array b !! pos -> (forall o', o' <> o -> next' !! o' = next !! o') ->
  blk_rep next' (fun p => if (p =? pos)%nat then o :: L p else L p)
    (mkBlk array (Z.lor (pb_occ b) (Z.shiftl 1 (Z.of_nat pos)))).
Proof.
  intros [Hlen Hocc Hch Hbit] Hpos Hnew -> Hn Ho. split; simpl.
  - by rewrite length_insert.
  - apply lor_bit_u64; [done|lia].
  - intros p Hp. destruct (Hch p Hp) as (h & Hh & Hc).
    assert (is_chain next' h (L p)) as Hc'.
    { eapply is_chain_frame; [|exact Hc]. intros o' Ho'. apply Ho. intros ->. by eapply Hnew. }
    destruct (Nat.eqb_spec p pos) as [->|Hne].
    + exists (Some o). rewrite list_lookup_insert_eq by lia. split; [done|]. split; [done|].
      rewrite Hh in Hn. by injection Hn as ->.
    + exists h. by rewrite list_lookup_insert_ne.
  - intros p Hp. rewrite lor_testbit by lia.
    destruct (Nat.eqb_spec p pos) as [->|Hne].
    + by rewrite Z.eqb_refl.
    + destruct (Z.eqb_spec (Z.of_nat p) (Z.of_nat pos)); [lia|]. by apply Hbit.
Qed.

Lemma block_dequeue_rep next next' L b o l pos :
  blk_rep next L b -> (pos < 64)%nat -> L pos = o :: l -> (forall p, (p < 64)%nat -> NoDup (L p)) ->
  (forall p, (p < 64)%nat -> o ∈ L p -> p = pos) ->
  (forall o', o' <> o -> next' !! o' = next !! o') ->
  blk_rep next' (fun p => if (p =? pos)%nat then tail (L p) else L p)
    (mkBlk (<[pos := next !! o]> (pb_array b))
       (match next !! o with
        | None => Z.lxor (pb_occ b) (Z.shiftl 1 (Z.of_nat pos))
        | Some _ => pb_occ b
        end)).
Proof.
  intros [Hlen Hocc Hch Hbit] Hpos HL Hnd Honly Ho.
  assert (is_chain next (next !! o) l) as Hl.
  { destruct (Hch pos Hpos) as (h & _ & Hc). rewrite HL in Hc. apply Hc. }
  assert (o ∉ l) as Hol by (specialize (Hnd pos Hpos); rewrite HL in Hnd; by apply NoDup_cons in Hnd as []).
  assert (match next !! o with None => false | Some _ => true end = occupied l) as Hocl.
  { destruct l; simpl in Hl; [by rewrite Hl|by destruct Hl as [-> _]]. }
  split; simpl.
  - by rewrite length_insert.
  - destruct (next !! o); [done|]. apply lxor_bit_u64; [done|lia].
  - intros p Hp. destruct (Nat.eqb_spec p pos) as [->|Hne].
    + exists (next !! o). rewrite list_lookup_insert_eq, HL by lia. split; [done|].
      eapply is_chain_frame; [|exact Hl]. intros o' Ho'. apply Ho. by intros ->.
    + destruct (Hch p Hp) as (h & Hh & Hc). exists h. rewrite list_lookup_insert_ne by done.
      split; [done|]. eapply is_chain_frame; [|exact Hc]. intros o' Ho'. apply Ho.
      intros ->. eauto.
  - intros p Hp. destruct (Nat.eqb_spec p pos) as [->|Hne].
    + rewrite HL. simpl. rewrite <- Hocl. specialize (Hbit pos Hp). rewrite HL in Hbit.
      destruct (next !! o); [done|]. by rewrite lxor_testbit, Z.eqb_refl, Hbit by lia.
    + rewrite <- (Hbit p) by done. destruct (next !! o); [done|]. rewrite lxor_testbit by lia.
      destruct (Z.eqb_spec (Z.of_nat p) (Z.of_nat pos)); [lia|done].
Qed.

Lemma elem_of_pop near c x o : o ∈ pop near c x -> o ∈ near x.
Proof. unfold pop. destruct (x =? c); [|done]. destruct (near x); [done|]. by right. Qed.

Section Proofs.
Context (B : nat) (HB : (2 <= B)%nat) (HB32 : Z.of_nat B < 2 ^ 32).
Local Abbreviation BZ := (Z.of_nat B).

Record near_inv (near : Z -> list nat) (q : PrioQueue) : Prop := {
  ni_len : length (pq_blocks q) = B;
  ni_blk : forall b, pq_curBlock q <= b < pq_curBlock q + BZ ->
    exists blk, pq_blocks q !! Z.to_nat (b mod BZ) = Some blk /\
      blk_rep (pq_next q) (fun pos => near (b * 64 + Z.of_nat pos)) blk;
  ni_window : forall c o, o ∈ near c -> pq_curBlock q <= c / 64 < pq_curBlock q + BZ;
  ni_nodup : forall c, NoDup (near c);
  ni_inj : forall c c' o, o ∈ near c -> o ∈ near c' -> c = c';
  ni_cur : 0 <= pq_curBlock q
}.

(** Within the window no two blocks share a place in the array. *)
Lemma block_inj cur b b' :
  cur <= b < cur + BZ -> cur <= b' < cur + BZ -> Z.to_nat (b mod BZ) = Z.to_nat (b' mod BZ) -> b = b'.
Proof.
  intros Hb Hb' Heq. pose proof (Z.mod_pos_bound b BZ). pose proof (Z.mod_pos_bound b' BZ).
  apply Z2Nat.inj in Heq; [|lia|lia].
  pose proof (Z.div_mod b BZ). pose proof (Z.div_mod b' BZ).
  assert (b / BZ = b' / BZ) by nia. nia.
Qed.

Lemma block_index_ok b q : wp (block_index B b) (fun i q' => i = Z.to_nat (b mod BZ) /\ q' = q) q.
Proof.
  unfold block_index. wp_step. eapply wp_lift; [apply umod_ok; lia|done].
Qed.

(** Replacing one block of the window keeps the others. *)
Lemma near_inv_set near near' q q' b blk' :
  near_inv near q -> pq_curBlock q <= b < pq_curBlock q + BZ ->
  pq_blocks q' = <[Z.to_nat (b mod BZ) := blk']> (pq_blocks q) -> pq_curBlock q' = pq_curBlock q ->
  blk_rep (pq_next q') (fun pos => near' (b * 64 + Z.of_nat pos)) blk' ->
  (forall c, c / 64 <> b -> near' c = near c) ->
  (forall c o, c / 64 <> b -> o ∈ near c -> pq_next q' !! o = pq_next q !! o) ->
  (forall c, NoDup (near' c)) -> (forall c c' o, o ∈ near' c -> o ∈ near' c' -> c = c') ->
  near_inv near' q'.
Proof.
  intros [Hlen Hblk Hwin Hnd Hinj Hc0] Hb Hbl Hcur Hrep Hoth Hnext Hnd' Hinj'.
  assert (forall c o, o ∈ near' c -> pq_curBlock q <= c / 64 < pq_curBlock q + BZ) as Hwin'.
  { intros c o Ho. destruct (decide (c / 64 = b)) as [->|Hne]; [done|].
    rewrite Hoth in Ho by done. eauto. }
  split; rewrite ?Hbl, ?Hcur, ?length_insert; [done| |done..].
  intros b' Hb'. destruct (decide (b' = b)) as [->|Hne].
  - exists blk'. split; [|done]. apply list_lookup_insert_eq. rewrite Hlen.
    pose proof (Z.mod_pos_bound b BZ). lia.
  - destruct (Hblk b' Hb') as (blk & Hl & Hr). exists blk. split.
    + rewrite list_lookup_insert_ne; [done|]. intros Heq. apply Hne. symmetry.
      by eapply block_inj.
    + assert (forall pos, (pos < 64)%nat -> (b' * 64 + Z.of_nat pos) / 64 <> b) as Hd.
      { intros pos Hpos. rewrite Z.add_comm, Z.div_add, Z.div_small by lia. lia. }
      eapply blk_rep_ext; [..|exact Hr]; [intros; by apply Hoth, Hd|].
      intros pos o Hpos Ho. eapply Hnext; [by apply (Hd pos)|done].
Qed.

(** [blocks\[i\].enqueue]: the object becomes the head of the list of its
    cycle. *)
Lemma near_enqueue_ok near q o c :
  near_inv near q -> pq_next q !! o = None -> (forall x, o ∉ near x) ->
  pq_curBlock q <= c / 64 < pq_curBlock q + BZ ->
  wp (near_enqueue B o c)
    (fun _ q' => near_inv (push near c o) q' /\ pq_feMap q' = pq_feMap q /\
       pq_curBlock q' = pq_curBlock q /\ pq_elems q' = pq_elems q /\
       forall o', o' <> o -> pq_next q' !! o' = pq_next q !! o') q.
Proof.
  intros Hq Hnull Hnew Hc. unfold near_enqueue, block_enqueue. wp_step.
  eapply wp_mono; [apply block_index_ok|]. intros i q' [-> ->].
  destruct (ni_blk _ _ Hq _ Hc) as (blk & Hblk & Hrep).
  pose proof (Z.mod_pos_bound c 64 ltac:(lia)) as Hm.
  set (pos := Z.to_nat (c mod 64)). assert (pos < 64)%nat as Hpos by lia.
  destruct (br_chain _ _ _ Hrep pos Hpos) as (h & Hh & _).
  unfold get_block. do 3 wp_step.
  eapply wp_lift; [by apply at_ok|]. cbv beta zeta. do 4 wp_step; [by rewrite bool_decide_true|].
  wp_step. eapply wp_lift; [by apply at_ok|]. do 3 wp_step.
  eapply wp_lift; [apply set_at_ok; by rewrite (br_len _ _ _ Hrep)|]. wp_step.
  assert (forall o', o' <> o -> pq_next (pq_set_next o h q) !! o' = pq_next q !! o') as Ho.
  { intros o' Hne. simpl. destruct h; by simplify_map_eq. }
  split_and!; [|done..].
  eapply near_inv_set with (b := c / 64); [exact Hq|exact Hc|done|done|..].
  - eapply blk_rep_ext; [..|eapply (block_enqueue_rep _ (pq_next (pq_set_next o h q)) _ blk o pos);
      [exact Hrep|done|intros; apply Hnew|reflexivity| |exact Ho]].
    + intros p Hp. cbv beta. unfold push.
      destruct (Nat.eqb_spec p pos) as [->|Hne].
      * rewrite <- cycle_split, Z.eqb_refl. done.
      * rewrite (cycle_split c) at 2. fold pos.
        destruct (Z.eqb_spec (c / 64 * 64 + Z.of_nat p) (c / 64 * 64 + Z.of_nat pos)); [lia|done].
    + done.
    + simpl. rewrite Hh. f_equal. destruct h; by simplify_map_eq.
  - intros x Hx. unfold push. destruct (Z.eqb_spec x c); [congruence|done].
  - intros x o' Hx Ho'. apply Ho. intros ->. by eapply Hnew.
  - intros x. unfold push. destruct (Z.eqb_spec x c); [|apply Hq].
    apply NoDup_cons. split; [apply Hnew|apply Hq].
  - apply push_inj; [done|apply Hq].
Qed.

Lemma near_inv_pop near q q' b blk blk' c o l :
  near_inv near q -> pq_curBlock q <= b < pq_curBlock q + BZ -> c / 64 = b -> near c = o :: l ->
  pq_blocks q !! Z.to_nat (b mod BZ) = Some blk ->
  blk' = mkBlk (<[Z.to_nat (c mod 64) := pq_next q !! o]> (pb_array blk))
       (match pq_next q !! o with
        | None => Z.lxor (pb_occ blk) (Z.shiftl 1 (Z.of_nat (Z.to_nat (c mod 64))))
        | Some _ => pb_occ blk
        end) ->
  pq_blocks q' = <[Z.to_nat (b mod BZ) := blk']> (pq_blocks q) -> pq_curBlock q' = pq_curBlock q ->
  (forall o', o' <> o -> pq_next q' !! o' = pq_next q !! o') ->
  near_inv (pop near c) q'.
Proof.
  intros Hq Hb <- HL Hblk -> Hbl Hcur Hnext.
  destruct (ni_blk _ _ Hq _ Hb) as (blk2 & Hblk2 & Hrep). simplify_eq.
  pose proof (Z.mod_pos_bound c 64 ltac:(lia)) as Hm.
  assert (o ∈ near c) as Ho by (rewrite HL; left).
  eapply near_inv_set; [exact Hq|exact Hb|exact Hbl|exact Hcur|..].
  - eapply blk_rep_ext; [..|eapply (block_dequeue_rep _ (pq_next q') _ blk o l (Z.to_nat (c mod 64)));
      [exact Hrep|lia|cbv beta; by rewrite <- cycle_split|intros; apply Hq| |exact Hnext]].
    + intros p Hp. cbv beta. unfold pop. destruct (Nat.eqb_spec p (Z.to_nat (c mod 64))) as [->|Hne].
      * by rewrite <- cycle_split, Z.eqb_refl.
      * rewrite (cycle_split c) at 2.
        destruct (Z.eqb_spec (c / 64 * 64 + Z.of_nat p) (c / 64 * 64 + Z.of_nat (Z.to_nat (c mod 64))));
          [lia|done].
    + done.
    + intros p Hp Hop. pose proof (ni_inj _ _ Hq _ _ _ Hop Ho). pose proof (cycle_split c). lia.
  - intros x Hx. unfold pop. destruct (Z.eqb_spec x c); [congruence|done].
  - intros x o' Hx Ho'. apply Hnext. intros ->. pose proof (ni_inj _ _ Hq _ _ _ Ho' Ho). congruence.
  - intros x. unfold pop. destruct (x =? c); [|apply Hq]. pose proof (ni_nodup _ _ Hq x) as Hnd.
    destruct (near x); [done|]. by apply NoDup_cons in Hnd as [].
  - intros c1 c2 o' H1%elem_of_pop H2%elem_of_pop. by eapply (ni_inj _ _ Hq).
Qed.

(** [blocks\[curBlock % B\].dequeue]: the head of the first list that is not
    empty. *)
Lemma block_dequeue_ok near q c0 :
  near_inv near q -> near c0 <> [] -> c0 / 64 = pq_curBlock q ->
  wp (block_dequeue (Z.to_nat (pq_curBlock q mod BZ)))
    (fun '(o, pos) q' => exists c l, c = pq_curBlock q * 64 + Z.of_nat pos /\ near c = o :: l /\
       c / 64 = pq_curBlock q /\
       (forall c', c' / 64 = pq_curBlock q -> near c' <> [] -> c <= c') /\
       near_inv (pop near c) q' /\ pq_feMap q' = pq_feMap q /\
       pq_curBlock q' = pq_curBlock q /\ pq_elems q' = pq_elems q /\ pq_next q' !! o = None /\
       forall o', o' <> o -> pq_next q' !! o' = pq_next q !! o') q.
Proof.
  intros Hq Hne Hc0. set (b := pq_curBlock q) in *.
  assert (pq_curBlock q <= b < pq_curBlock q + BZ) as Hb by lia.
  destruct (ni_blk _ _ Hq b Hb) as (blk & Hblk & Hrep).
  pose proof (Z.mod_pos_bound c0 64 ltac:(lia)) as Hm.
  assert (pb_occ blk <> 0) as Hocc.
  { intros Hz. apply Hne. pose proof (proj1 (blk_rep_zero _ _ _ Hrep) Hz (Z.to_nat (c0 mod 64))) as H.
    cbv beta in H. rewrite <- Hc0, <- cycle_split in H. apply H. lia. }
  destruct (ctzl_spec _ (br_occ _ _ _ Hrep) Hocc) as (Hpos & Hbit & Hmin).
  set (pos := ctzl (pb_occ blk)) in *. set (c := b * 64 + Z.of_nat pos).
  assert (c / 64 = b /\ c mod 64 = Z.of_nat pos) as [Hcb Hcm].
  { subst c. rewrite Z.add_comm, Z.div_add, Z.div_small, Z.mod_add, Z.mod_small by lia. lia. }
  destruct (br_chain _ _ _ Hrep pos Hpos) as (h & Hh & Hch).
  rewrite (br_bit _ _ _ Hrep) in Hbit by done. cbv beta in Hbit, Hch. fold c in Hbit, Hch.
  destruct (near c) as [|o l] eqn:HL; [done|]. destruct Hch as [-> Hl].
  unfold block_dequeue, get_block. do 3 wp_step.
  eapply wp_lift; [by apply at_ok|]. do 2 wp_step; [lia|]. cbv zeta. wp_step. fold pos.
  eapply wp_lift; [by apply at_ok|]. cbv beta iota zeta. do 3 wp_step.
  eapply wp_lift; [apply set_at_ok; by rewrite (br_len _ _ _ Hrep)|]. do 5 wp_step.
  exists c, l. split_and!; [done|done|done| |..].
  - intros c' Hc' Hn. apply Z.nlt_ge. intros Hlt. apply Hn.
    pose proof (Z.mod_pos_bound c' 64 ltac:(lia)) as Hm'. pose proof (cycle_split c') as Hs.
    rewrite Hc' in Hs. assert (Z.to_nat (c' mod 64) < pos)%nat as Hp by lia.
    specialize (Hmin _ Hp). rewrite (br_bit _ _ _ Hrep) in Hmin by lia. cbv beta in Hmin.
    rewrite <- Hs in Hmin. by destruct (near c').
  - eapply near_inv_pop with (b := b) (blk := blk) (o := o) (l := l);
      [exact Hq|exact Hb|exact Hcb|exact HL|exact Hblk|reflexivity|..].
    + simpl. rewrite Hcm, Nat2Z.id. done.
    + done.
    + intros o' Ho'. simpl. by simplify_map_eq.
  - done.
  - done.
  - done.
  - simpl. by simplify_map_eq.
  - intros o' Ho'. simpl. by simplify_map_eq.
Qed.

(** Past an empty block the window moves on. *)
Lemma near_inv_advance near q :
  near_inv near q -> (forall c, c / 64 = pq_curBlock q -> near c = []) ->
  near_inv near (pq_set_cur (pq_curBlock q + 1) q).
Proof.
  intros Hq Hempty. pose proof (ni_cur _ _ Hq) as Hcur. split; simpl; try apply Hq; [| |lia].
  - intros b Hb. destruct (decide (b = pq_curBlock q + BZ)) as [->|Hne].
    + destruct (ni_blk _ _ Hq (pq_curBlock q)) as (blk & Hblk & Hrep); [lia|].
      exists blk. split.
      * rewrite <- Hblk. f_equal. f_equal. rewrite <- Z.add_mod_idemp_r, Z.mod_same by lia.
        by rewrite Z.add_0_r.
      * eapply blk_rep_ext; [..|exact Hrep]; [|done]. intros pos Hpos. cbv beta.
        rewrite (Hempty (pq_curBlock q * 64 + Z.of_nat pos))
          by (rewrite Z.add_comm, Z.div_add, Z.div_small; lia).
        destruct (near ((pq_curBlock q + BZ) * 64 + Z.of_nat pos)) as [|o l] eqn:E; [done|].
        assert (o ∈ near ((pq_curBlock q + BZ) * 64 + Z.of_nat pos)) as Ho by (rewrite E; left).
        apply (ni_window _ _ Hq) in Ho. rewrite Z.add_comm, Z.div_add, Z.div_small in Ho by lia. lia.
    + apply Hq. lia.
  - intros c o Ho. pose proof (ni_window _ _ Hq _ _ Ho).
    destruct (decide (c / 64 = pq_curBlock q)) as [E|]; [|lia].
    rewrite (Hempty _ E) in Ho. by apply not_elem_of_nil in Ho.
Qed.

(** The loops of [firstCycle]. *)
Lemma first_occupied_ok near q a n :
  near_inv near q -> (a + n <= B)%nat -> pq_curBlock q < 2 ^ 58 - 2 ^ 32 ->
  wp (first_occupied B (seq a n))
    (fun r q' => q' = q /\
       match r with
       | Some c => near c <> [] /\ pq_curBlock q + Z.of_nat a <= c / 64 < pq_curBlock q + Z.of_nat (a + n) /\
           forall c', pq_curBlock q + Z.of_nat a <= c' / 64 -> near c' <> [] -> c <= c'
       | None => forall c', pq_curBlock q + Z.of_nat a <= c' / 64 < pq_curBlock q + Z.of_nat (a + n) ->
           near c' = []
       end) q.
Proof.
  intros Hq. revert a. induction n as [|n IH]; intros a Han Hcur; simpl.
  { apply wp_ret. split; [done|]. intros c' ?. lia. }
  pose proof (ni_cur _ _ Hq) as Hc0. do 2 wp_step. cbv zeta.
  rewrite (u64_id (pq_curBlock q + Z.of_nat a)) by (unfold in_u64; lia).
  wp_step. eapply wp_mono; [apply block_index_ok|]. intros i q' [-> ->].
  set (b := pq_curBlock q + Z.of_nat a).
  destruct (ni_blk _ _ Hq b) as (blk & Hblk & Hrep); [lia|].
  unfold get_block. do 3 wp_step. eapply wp_lift; [by apply at_ok|].
  pose proof (blk_rep_zero _ _ _ Hrep) as Hz.
  assert (forall c', c' / 64 = b -> pb_occ blk = 0 -> near c' = []) as Hz'.
  { intros c' Hc' E. pose proof (Z.mod_pos_bound c' 64 ltac:(lia)).
    pose proof (proj1 Hz E (Z.to_nat (c' mod 64))) as H'. cbv beta in H'.
    rewrite <- Hc', <- cycle_split in H'. apply H'. lia. }
  wp_step.
  - apply Z.eqb_eq in E. eapply wp_mono; [apply IH; lia|].
    intros r q' [-> Hr]. split; [done|]. destruct r as [c|].
    + destruct Hr as (Hn & Hrange & Hm). split_and!; [done|lia|lia|].
      intros c' Hc' Hn'. apply Hm; [|done].
      destruct (decide (c' / 64 = b)) as [Eb|]; [|lia]. destruct Hn'. by apply Hz'.
    + intros c' Hc'. destruct (decide (c' / 64 = b)) as [Eb|]; [by apply Hz'|]. apply Hr. lia.
  - apply Z.eqb_neq in E. wp_step. split; [done|].
    destruct (ctzl_spec _ (br_occ _ _ _ Hrep) E) as (Hpos & Hbit & Hmin).
    rewrite (br_bit _ _ _ Hrep) in Hbit by done. cbv beta in Hbit.
    rewrite (u64_id (b * 64)) by (unfold in_u64; lia).
    rewrite u64_id by (unfold in_u64; lia).
    set (pos := ctzl (pb_occ blk)) in *.
    assert ((b * 64 + Z.of_nat pos) / 64 = b) as Hd by (rewrite Z.add_comm, Z.div_add, Z.div_small; lia).
    split_and!; [by intros En; rewrite En in Hbit|lia|lia|].
    intros c' Hc' Hn'. apply Z.nlt_ge. intros Hlt.
    assert (c' / 64 = b) as Eb by (assert (c' / 64 <= (b * 64 + Z.of_nat pos) / 64) by (apply Z.div_le_mono; lia); lia).
    pose proof (Z.mod_pos_bound c' 64 ltac:(lia)). pose proof (cycle_split c') as Hs. rewrite Eb in Hs.
    assert (Z.to_nat (c' mod 64) < pos)%nat as Hp by lia.
    specialize (Hmin _ Hp). rewrite (br_bit _ _ _ Hrep) in Hmin by lia. cbv beta in Hmin.
    rewrite <- Hs in Hmin. by destruct (near c').
Qed.
End Proofs.
