(* ===== verification/PrioQueueSpec.v ===== *)
(** * The event queue implements a priority queue

    The abstract queue is a finite map from objects to cycles.  [pq_rep]
    relates it to the array and the map of far elements; the lemmas run each
    operation of [PrioQueue.v] on a represented queue, and the refinement
    theorem replays any legal sequence of calls in the abstract queue. *)

From stdpp Require Import base list gmap strings sorting.
From Stdlib Require Import ZArith Lia.
From S2P Require Import Prelude Numeric PrioQueue.
Local Open Scope Z_scope.

(** ** The map of far elements *)

Definition key_le (x y : Z * nat) : Prop := x.1 <= y.1.

Lemma elem_of_fe_insert c o l x : x ∈ fe_insert c o l <-> x = (c, o) \/ x ∈ l.
Proof.
  induction l as [|[c' o'] l IH]; simpl; [by rewrite list_elem_of_singleton, elem_of_nil; naive_solver|].
  destruct (c <? c'); rewrite ?elem_of_cons, ?IH; naive_solver.
Qed.

Lemma fe_insert_sorted c o l :
  StronglySorted key_le l -> StronglySorted key_le (fe_insert c o l).
Proof.
  induction 1 as [|[c' o'] l Hl IH Hall]; simpl; [repeat constructor|].
  destruct (Z.ltb_spec c c').
  - constructor; [by constructor|]. constructor; [unfold key_le; simpl; lia|].
    eapply Forall_impl; [exact Hall|]. unfold key_le. simpl. intros; lia.
  - constructor; [done|]. apply Forall_forall. intros x Hx. apply elem_of_fe_insert in Hx as [->|Hx].
    + unfold key_le. simpl. lia.
    + rewrite Forall_forall in Hall. by apply Hall.
Qed.

Lemma fe_insert_perm c o l : fe_insert c o l ≡ₚ (c, o) :: l.
Proof.
  induction l as [|[c' o'] l IH]; simpl; [done|]. destruct (c <? c'); [done|].
  rewrite IH. apply Permutation_swap.
Qed.

Lemma fe_split_app top l : let (now, later) := fe_split top l in l = now ++ later.
Proof.
  induction l as [|[c o] l IH]; simpl; [done|]. destruct (c <? top); [|done].
  destruct (fe_split top l). by rewrite IH.
Qed.

Lemma fe_split_now top l : let (now, _) := fe_split top l in forall x, x ∈ now -> x.1 < top.
Proof.
  induction l as [|[c o] l IH]; simpl; [by intros x ?%not_elem_of_nil|].
  destruct (Z.ltb_spec c top); [|by intros x ?%not_elem_of_nil].
  destruct (fe_split top l). intros x [->|Hx]%elem_of_cons; [done|auto].
Qed.

Lemma fe_split_later top l :
  StronglySorted key_le l -> let (_, later) := fe_split top l in forall x, x ∈ later -> top <= x.1.
Proof.
  induction 1 as [|[c o] l Hl IH Hall]; simpl; [by intros x ?%not_elem_of_nil|].
  destruct (Z.ltb_spec c top); [by destruct (fe_split top l)|].
  intros x [->|Hx]%elem_of_cons; [done|]. rewrite Forall_forall in Hall.
  specialize (Hall x Hx). unfold key_le in Hall. simpl in Hall. lia.
Qed.

(** ** Representation *)
Section Rep.
Context (B : nat) (HB : (2 <= B)%nat) (HB32 : Z.of_nat B < 2 ^ 32).
Local Abbreviation BZ := (Z.of_nat B).
Local Abbreviation HZ := (Z.of_nat (B / 2)).

(** The far elements: sorted, with an unused [next] field, from block [lo]
    on. *)
Record far_inv (near : Z -> list nat) (items : gmap nat Z) (next : gmap nat nat) (lo : Z)
    (far : list (Z * nat)) : Prop := {
  fi_sorted : StronglySorted key_le far;
  fi_nodup : NoDup far.*2;
  fi_elem : forall c o, (c, o) ∈ far -> items !! o = Some c /\ lo <= c / 64 /\ next !! o = None;
  fi_disj : forall c o, (c, o) ∈ far -> forall x, o ∉ near x
}.

Record pq_rep (near : Z -> list nat) (far : list (Z * nat)) (lo : Z) (items : gmap nat Z)
    (q : PrioQueue) : Prop := {
  pr_near : near_inv B near q;
  pr_far : far_inv near items (pq_next q) lo far;
  pr_items : forall c o, o ∈ near c -> items !! o = Some c;
  pr_cover : forall c o, items !! o = Some c -> o ∈ near c \/ (c, o) ∈ far;
  pr_next : forall o o', pq_next q !! o = Some o' -> is_Some (items !! o);
  pr_cycles : forall c o, items !! o = Some c -> 0 <= c < 2 ^ 63;
  pr_elems : pq_elems q = Z.of_nat (size items);
  pr_size : Z.of_nat (size items) < 2 ^ 64;
  pr_cur : pq_curBlock q <= 2 ^ 57
}.

(** The far elements lie beyond the window of the last multiple of [B/2] that
    the current block passed. *)
Definition far_from (cur : Z) : Z := cur / HZ * HZ + BZ.

Definition pq_inv (items : gmap nat Z) (q : PrioQueue) : Prop :=
  exists near, pq_rep near (pq_feMap q) (far_from (pq_curBlock q)) items q.

Lemma half_bounds : 0 < HZ /\ 2 * HZ <= BZ.
Proof.
  pose proof (Nat.div_str_pos B 2). pose proof (Nat.Div0.mul_div_le B 2). lia.
Qed.

Lemma far_from_bounds cur : 0 <= cur -> cur + BZ - HZ < far_from cur <= cur + BZ.
Proof.
  intros Hc. destruct half_bounds as [H1 H2]. unfold far_from.
  pose proof (Z.div_mod cur HZ). pose proof (Z.mod_pos_bound cur HZ). nia.
Qed.

(** An element of an unpassed block is never late. *)
Lemma pq_rep_block near far lo items q c o :
  pq_rep near far lo items q -> pq_curBlock q <= lo -> items !! o = Some c -> pq_curBlock q <= c / 64.
Proof.
  intros Hq Hlo Ho. destruct (pr_cover _ _ _ _ _ Hq _ _ Ho) as [Hn|Hf].
  - apply (ni_window _ _ _ (pr_near _ _ _ _ _ Hq)) in Hn. lia.
  - apply (fi_elem _ _ _ _ _ (pr_far _ _ _ _ _ Hq)) in Hf as (_ & Hf & _). lia.
Qed.

Lemma far_inv_push near items items' next next' lo far c o :
  far_inv near items next lo far -> (forall x, (x, o) ∉ far) ->
  (forall o', o' <> o -> next' !! o' = next !! o') -> (forall o', o' <> o -> items' !! o' = items !! o') ->
  far_inv (push near c o) items' next' lo far.
Proof.
  intros [Hs Hnd He Hd] Hno Hnext Hit. split; [done|done|..]; intros c' o' Hin.
  - assert (o' <> o) by (intros ->; by eapply Hno).
    rewrite Hnext, Hit by done. by apply He.
  - intros x. unfold push. destruct (x =? c); [|by eapply Hd].
    intros [->|Hx]%elem_of_cons; [by eapply Hno|by eapply Hd].
Qed.

Lemma elem_of_push near c o x o' : o' ∈ push near c o x <-> (x = c /\ o' = o) \/ o' ∈ near x.
Proof. unfold push. destruct (Z.eqb_spec x c); rewrite ?elem_of_cons; naive_solver. Qed.

(** A far element that the window has reached moves to the array. *)
Lemma move_near near c o far lo items q :
  pq_rep near ((c, o) :: far) lo items q -> pq_curBlock q <= c / 64 < pq_curBlock q + BZ ->
  wp (near_enqueue B o c)
    (fun _ q' => pq_rep (push near c o) far lo items q' /\ pq_feMap q' = pq_feMap q /\
       pq_curBlock q' = pq_curBlock q) q.
Proof.
  intros Hq Hc. destruct Hq as [Hn Hf Hi Hcov Hnx Hcy He Hsz Hcu].
  destruct Hf as [Hs Hnd Hfe Hd]. apply NoDup_cons in Hnd as [Hno Hnd].
  destruct (Hfe c o) as (Ho & Hlo & Hnull); [by left|].
  eapply wp_mono; [apply (near_enqueue_ok B HB HB32 near)|]; [done|done|by eapply Hd; left|done|].
  intros [] q' (Hn' & Hfe' & Hcur & Hel & Hnext). split; [|done].
  split; rewrite ?Hel, ?Hcur; [done| | | | |done..].
  - eapply far_inv_push; [|by intros x Hx; apply Hno, (list_elem_of_fmap_2 snd _ (x, o))|exact Hnext|done].
    split; [by apply StronglySorted_inv in Hs as []|done|..]; intros c' o' Hin;
      [apply Hfe|eapply Hd]; by right.
  - intros x o'. rewrite elem_of_push. intros [[-> ->]|Hx]; auto.
  - intros x o' Ho'. rewrite elem_of_push. destruct (Hcov _ _ Ho') as [|[E|]%elem_of_cons]; [by auto| |by auto].
    simplify_eq. by auto.
  - intros o' o2 Ho'. destruct (decide (o' = o)) as [->|Hne]; [by rewrite Ho|].
    eapply Hnx. by rewrite <- Hnext.
Qed.

(** The loop that moves the far elements of the new half of the window. *)
Lemma migrate_loop far0 near later lo items q :
  pq_rep near (far0 ++ later) lo items q -> pq_curBlock q <= lo ->
  (forall x, x ∈ far0 -> x.1 / 64 < pq_curBlock q + BZ) ->
  wp (forM far0 (fun '(cycle, obj) =>
        let absBlock := cycle / 64 in
        q <- get ;;
        assert_ "prio_queue.h:107" (pq_curBlock q <=? absBlock) ;;
        assert_ "prio_queue.h:108" (absBlock <? u64 (pq_curBlock q + BZ)) ;;
        near_enqueue B obj cycle))
    (fun _ q' => exists near', pq_rep near' later lo items q' /\ pq_curBlock q' = pq_curBlock q) q.
Proof.
  revert near q. induction far0 as [|[c o] far0 IH]; intros near q Hq Hlo Hnow; simpl.
  { apply wp_ret. eauto. }
  pose proof (ni_cur _ _ _ (pr_near _ _ _ _ _ Hq)). pose proof (pr_cur _ _ _ _ _ Hq).
  destruct (fi_elem _ _ _ _ _ (pr_far _ _ _ _ _ Hq) c o) as (_ & Hc & _); [by left|].
  pose proof (Hnow (c, o) ltac:(by left)) as Hc'. simpl in Hc'.
  do 5 wp_step; [lia|]. do 2 wp_step; [rewrite u64_id by (unfold in_u64; lia); lia|].
  eapply wp_mono; [eapply move_near; [exact Hq|lia]|].
  intros [] q' (Hq' & _ & Hcur). rewrite <- Hcur. eapply IH; [exact Hq'|lia|].
  intros x Hx. rewrite Hcur. apply Hnow. by right.
Qed.

Lemma pq_rep_lo near far lo lo' items q :
  pq_rep near far lo items q -> (forall c o, (c, o) ∈ far -> lo' <= c / 64) ->
  pq_rep near far lo' items q.
Proof.
  intros [] Hlo. split; try done. destruct pr_far0 as [? ? He ?]. split; [done|done| |done].
  intros c o Hin. destruct (He c o Hin) as (? & _ & ?). eauto.
Qed.

Lemma pq_rep_far near far lo items q f :
  pq_rep near far lo items q -> pq_rep near far lo items (pq_set_far f q).
Proof. intros [[] ? ? ? ? ? ? ? ?]. split; done. Qed.

Lemma migrate_ok near items q lo :
  pq_rep near (pq_feMap q) lo items q -> pq_curBlock q <= lo ->
  wp (migrate B)
    (fun _ q' => exists near', pq_rep near' (pq_feMap q') (pq_curBlock q + BZ) items q' /\
       pq_curBlock q' = pq_curBlock q) q.
Proof.
  intros Hq Hlo. unfold migrate.
  pose proof (ni_cur _ _ _ (pr_near _ _ _ _ _ Hq)). pose proof (pr_cur _ _ _ _ _ Hq).
  do 2 wp_step. cbv zeta. rewrite (u64_id (pq_curBlock q + BZ)) by (unfold in_u64; lia).
  rewrite u64_id by (unfold in_u64; lia). set (top := (pq_curBlock q + BZ) * 64).
  pose proof (fe_split_app top (pq_feMap q)) as Happ.
  pose proof (fe_split_now top (pq_feMap q)) as Hnow.
  pose proof (fe_split_later top (pq_feMap q) (fi_sorted _ _ _ _ _ (pr_far _ _ _ _ _ Hq))) as Hlater.
  destruct (fe_split top (pq_feMap q)) as [now later]. rewrite Happ in Hq. wp_step.
  eapply wp_mono; [eapply migrate_loop; [exact Hq|done|]|].
  - intros x Hx. apply Z.div_lt_upper_bound; [lia|]. specialize (Hnow x Hx). lia.
  - intros [] q' (near' & Hq' & Hcur). wp_step. exists near'. split; [|done].
    apply pq_rep_far. eapply pq_rep_lo; [exact Hq'|]. intros c o Hin.
    apply Z.div_le_lower_bound; [lia|]. specialize (Hlater _ Hin). simpl in Hlater. lia.
Qed.

(** Blocks between two multiples of [B/2] have the same bound. *)
Lemma far_from_next cur :
  0 <= cur -> far_from (cur + 1) = if (cur + 1) mod HZ =? 0 then cur + 1 + BZ else far_from cur.
Proof.
  intros Hc. destruct half_bounds as [H1 H2]. unfold far_from.
  pose proof (Z.div_mod (cur + 1) HZ). pose proof (Z.mod_pos_bound (cur + 1) HZ).
  destruct (Z.eqb_spec ((cur + 1) mod HZ) 0) as [E|E]; [nia|].
  f_equal. f_equal. apply (Z.div_unique cur HZ _ ((cur + 1) mod HZ - 1)); lia.
Qed.

Lemma pq_rep_advance near far lo items q :
  pq_rep near far lo items q -> (forall c, c / 64 = pq_curBlock q -> near c = []) ->
  pq_curBlock q + 1 <= 2 ^ 57 -> pq_rep near far lo items (pq_set_cur (pq_curBlock q + 1) q).
Proof.
  intros [Hn ? ? ? ? ? ? ? ?] Hempty Hc. split; try done. by apply near_inv_advance.
Qed.

(** One round of the search: an empty block is left behind. *)
Lemma next_block_ok near items q :
  pq_rep near (pq_feMap q) (far_from (pq_curBlock q)) items q ->
  (forall c, c / 64 = pq_curBlock q -> near c = []) -> pq_curBlock q + 1 <= 2 ^ 57 ->
  wp (next_block B) (fun _ q' => pq_inv items q' /\ pq_curBlock q' = pq_curBlock q + 1) q.
Proof.
  intros Hq Hempty Hc. pose proof (ni_cur _ _ _ (pr_near _ _ _ _ _ Hq)) as H0.
  destruct half_bounds as [H1 H2]. unfold next_block. do 4 wp_step.
  rewrite u64_id by (unfold in_u64; lia). set (q1 := pq_set_cur (pq_curBlock q + 1) q).
  assert (pq_rep near (pq_feMap q1) (far_from (pq_curBlock q)) items q1) as Hq1.
  { by apply pq_rep_advance. }
  wp_step. eapply wp_lift; [apply umod_ok; lia|].
  change (pq_curBlock q1) with (pq_curBlock q + 1). change (pq_feMap q1) with (pq_feMap q).
  wp_step; intros E.
  - apply andb_true_iff in E as [E _].
    eapply wp_mono; [eapply migrate_ok; [exact Hq1|]|].
    + pose proof (far_from_bounds (pq_curBlock q) H0).
      change (pq_curBlock q1) with (pq_curBlock q + 1). lia.
    + intros [] q' (near' & Hq' & Hcur). split; [|done]. exists near'. rewrite Hcur.
      change (pq_curBlock q1) with (pq_curBlock q + 1). rewrite far_from_next, E by done. exact Hq'.
  - split; [|done]. exists near. change (pq_curBlock q1) with (pq_curBlock q + 1).
    rewrite far_from_next by done. destruct ((pq_curBlock q + 1) mod HZ =? 0); [|done].
    eapply pq_rep_lo; [exact Hq1|]. change (pq_feMap q1) with (pq_feMap q).
    destruct (pq_feMap q); [by intros ? ? ?%not_elem_of_nil|done].
Qed.

(** The occupancy word of the current block. *)
Lemma current_block near items q :
  pq_rep near (pq_feMap q) (far_from (pq_curBlock q)) items q ->
  exists blk, pq_blocks q !! Z.to_nat (pq_curBlock q mod BZ) = Some blk /\
    (pb_occ blk = 0 -> (forall x, x / 64 = pq_curBlock q -> near x = []) /\
                       forall c o, items !! o = Some c -> pq_curBlock q < c / 64) /\
    (pb_occ blk <> 0 -> exists c, near c <> [] /\ c / 64 = pq_curBlock q).
Proof.
  intros Hq. pose proof (ni_cur _ _ _ (pr_near _ _ _ _ _ Hq)) as H0.
  pose proof (far_from_bounds _ H0) as Hff. destruct half_bounds as [H1 H2].
  destruct (ni_blk _ _ _ (pr_near _ _ _ _ _ Hq) (pq_curBlock q) ltac:(lia)) as (blk & Hblk & Hrep).
  exists blk. split; [done|]. split.
  - intros E. assert (forall x, x / 64 = pq_curBlock q -> near x = []) as Hempty.
    { intros x Hx. pose proof (Z.mod_pos_bound x 64 ltac:(lia)). rewrite (cycle_split x), Hx.
      apply (proj1 (blk_rep_zero _ _ _ Hrep) E). lia. }
    split; [done|]. intros c o Ho.
    pose proof (pq_rep_block _ _ _ _ _ _ _ Hq ltac:(lia) Ho) as Hge.
    destruct (pr_cover _ _ _ _ _ Hq _ _ Ho) as [Hn|Hf].
    + destruct (decide (c / 64 = pq_curBlock q)) as [Ec|]; [|lia].
      rewrite (Hempty _ Ec) in Hn. by apply not_elem_of_nil in Hn.
    + apply (fi_elem _ _ _ _ _ (pr_far _ _ _ _ _ Hq)) in Hf as (_ & Hf & _). lia.
  - intros E. destruct (ctzl_spec _ (br_occ _ _ _ Hrep) E) as (Hp & Hb & _).
    rewrite (br_bit _ _ _ Hrep) in Hb by done. eexists. split; [by intros En; rewrite En in Hb|].
    rewrite Z.add_comm, Z.div_add, Z.div_small; lia.
Qed.

(** The search stops at the block of the first element. *)
Lemma find_block_ok fuel items q c o :
  pq_inv items q -> items !! o = Some c -> c / 64 - pq_curBlock q <= Z.of_nat fuel ->
  wp (find_block B fuel)
    (fun _ q' => exists near c', pq_rep near (pq_feMap q') (far_from (pq_curBlock q')) items q' /\
       near c' <> [] /\ c' / 64 = pq_curBlock q') q.
Proof.
  revert q. induction fuel as [|fuel IH]; intros q [near Hq] Ho Hfuel; simpl;
    destruct (current_block _ _ _ Hq) as (blk & Hblk & Hz & Hnz);
    do 3 wp_step; (eapply wp_mono; [apply (block_index_ok B HB)|]); intros i q' [-> ->];
    unfold get_block; do 3 wp_step; (eapply wp_lift; [by apply at_ok|]);
    (wp_step; [apply Z.eqb_eq in E; destruct (Hz E) as [Hempty Hgt]; specialize (Hgt _ _ Ho)
              |apply Z.eqb_neq in E; wp_step; destruct (Hnz E) as (c' & ? & ?); by exists near, c']).
  { lia. }
  pose proof (pr_cycles _ _ _ _ _ Hq _ _ Ho) as Hcy.
  assert (c / 64 < 2 ^ 57) by (apply Z.div_lt_upper_bound; lia).
  wp_step. eapply wp_mono; [eapply next_block_ok; [exact Hq|done|lia]|].
  intros [] q' [Hq' Hcur]. apply (IH q' Hq' Ho). lia.
Qed.

(** ** The operations *)

Definition is_min (items : gmap nat Z) (c : Z) : Prop := forall o c', items !! o = Some c' -> c <= c'.

Lemma pq_rep_enqueue_near near far lo items q q' o c :
  pq_rep near far lo items q -> items !! o = None -> 0 <= c < 2 ^ 63 ->
  Z.of_nat (size items) + 1 < 2 ^ 64 ->
  near_inv B (push near c o) q' -> pq_curBlock q' = pq_curBlock q ->
  pq_elems q' = pq_elems q + 1 -> (forall o', o' <> o -> pq_next q' !! o' = pq_next q !! o') ->
  pq_rep (push near c o) far lo (<[o := c]> items) q'.
Proof.
  intros [Hn Hf Hi Hcov Hnx Hcy He Hsz Hcu] Ho Hc Hs Hn' Hcur Hel Hnext.
  split; rewrite ?Hcur, ?map_size_insert_None by done; [done|..|by rewrite Hel; lia|lia|done].
  - eapply far_inv_push; [exact Hf| |exact Hnext|intros o' ?; by apply lookup_insert_ne].
    intros x Hx. apply (fi_elem _ _ _ _ _ Hf) in Hx as [Hx _]. congruence.
  - intros x o'. rewrite elem_of_push. intros [[-> ->]|Hx]; [by rewrite lookup_insert_eq|].
    apply Hi in Hx. rewrite lookup_insert_ne; [done|]. intros ->. congruence.
  - intros x o'. rewrite elem_of_push. destruct (decide (o' = o)) as [->|Hne].
    + rewrite lookup_insert_eq. naive_solver.
    + rewrite lookup_insert_ne by done. intros Hx. destruct (Hcov _ _ Hx); auto.
  - intros o' o2 Ho'. destruct (decide (o' = o)) as [->|Hne]; [by rewrite lookup_insert_eq|].
    rewrite lookup_insert_ne by done. eapply Hnx. by rewrite <- Hnext.
  - intros x o'. destruct (decide (o' = o)) as [->|Hne]; [rewrite lookup_insert_eq; naive_solver|].
    rewrite lookup_insert_ne by done. apply Hcy.
Qed.

Lemma pq_rep_enqueue_far near far lo items q o c :
  pq_rep near far lo items q -> items !! o = None -> 0 <= c < 2 ^ 63 -> lo <= c / 64 ->
  Z.of_nat (size items) + 1 < 2 ^ 64 ->
  pq_rep near (fe_insert c o far) lo (<[o := c]> items)
    (pq_set_elems (pq_elems q + 1) (pq_set_far (fe_insert c o far) q)).
Proof.
  intros [Hn Hf Hi Hcov Hnx Hcy He Hsz Hcu] Ho Hc Hlo Hs.
  assert (forall o' x, items !! o' = Some x -> o' <> o) as Hother by (intros o' x Hx ->; congruence).
  assert (forall o' x, <[o := c]> items !! o' = Some x -> o' = o /\ x = c \/ items !! o' = Some x) as Hcase.
  { intros o' x. destruct (decide (o' = o)) as [->|]; [rewrite lookup_insert_eq|rewrite lookup_insert_ne by done];
      naive_solver. }
  split; rewrite ?map_size_insert_None by done; simpl; [by destruct Hn|..|lia|lia|done].
  - split; [by apply fe_insert_sorted, Hf|..].
    + rewrite fe_insert_perm. simpl. apply NoDup_cons. split; [|apply Hf].
      intros ([x o'] & -> & Hin)%list_elem_of_fmap. simpl in *.
      apply (fi_elem _ _ _ _ _ Hf) in Hin as [Hin _]. congruence.
    + intros x o' [[= -> ->]|Hin]%elem_of_fe_insert.
      * rewrite lookup_insert_eq. split_and!; [done|done|]. apply eq_None_not_Some.
        intros [o2 H2]. apply Hnx in H2 as [? ?]. congruence.
      * apply (fi_elem _ _ _ _ _ Hf) in Hin as (Hit & ? & ?).
        rewrite lookup_insert_ne; [done|]. by eapply not_eq_sym, Hother.
    + intros x o' [[= -> ->]|Hin]%elem_of_fe_insert y Hy; [apply Hi in Hy; congruence|].
      by eapply (fi_disj _ _ _ _ _ Hf).
  - intros x o' Hx%Hi. rewrite lookup_insert_ne; [done|]. by eapply not_eq_sym, Hother.
  - intros x o' [[-> ->]|Hx]%Hcase; rewrite elem_of_fe_insert; [by auto|].
    destruct (Hcov _ _ Hx); auto.
  - intros o' o2 [x Hx]%Hnx. exists x. rewrite lookup_insert_ne; [done|]. by eapply not_eq_sym, Hother.
  - intros x o' [[-> ->]|Hx]%Hcase; eauto.
Qed.

Lemma enqueue_ok items q o c :
  pq_inv items q -> items !! o = None -> 0 <= c < 2 ^ 63 -> pq_curBlock q <= c / 64 ->
  Z.of_nat (size items) + 1 < 2 ^ 64 ->
  wp (enqueue B o c)
    (fun _ q' => pq_inv (<[o := c]> items) q' /\ pq_curBlock q' = pq_curBlock q) q.
Proof.
  intros [near Hq] Ho Hc Hcur Hs. unfold enqueue. cbv zeta.
  pose proof (ni_cur _ _ _ (pr_near _ _ _ _ _ Hq)) as H0. pose proof (pr_cur _ _ _ _ _ Hq).
  pose proof (pr_elems _ _ _ _ _ Hq) as Hel. pose proof (far_from_bounds _ H0) as Hff.
  assert (pq_next q !! o = None) as Hnull.
  { apply eq_None_not_Some. intros [o2 H2]. apply (pr_next _ _ _ _ _ Hq) in H2 as [? ?]. congruence. }
  do 4 wp_step; [lia|]. rewrite u64_id by (unfold in_u64; lia). do 2 wp_step.
  - eapply wp_mono; [apply (near_enqueue_ok B HB HB32 near); [apply Hq|done| |lia]|].
    + intros x Hx. apply (pr_items _ _ _ _ _ Hq) in Hx. congruence.
    + intros [] q' (Hn' & Hfe & Hcur' & Hel' & Hnext). wp_step.
      rewrite u64_id by (unfold in_u64; lia). split; [|done]. exists (push near c o). simpl.
      rewrite Hfe, Hcur'. eapply pq_rep_enqueue_near; [exact Hq|done|done|done| |done|..].
      * destruct Hn'. by split.
      * simpl. lia.
      * done.
  - do 2 wp_step. simpl. rewrite u64_id by (unfold in_u64; lia). split; [|done]. exists near. simpl.
    eapply pq_rep_enqueue_far; [exact Hq|done|done|lia|done].
Qed.

Lemma pq_rep_dequeue near far lo items q q' o c l :
  pq_rep near far lo items q -> near c = o :: l ->
  near_inv B (pop near c) q' -> pq_curBlock q' = pq_curBlock q -> pq_elems q' = pq_elems q - 1 ->
  pq_next q' !! o = None -> (forall o', o' <> o -> pq_next q' !! o' = pq_next q !! o') ->
  pq_rep (pop near c) far lo (delete o items) q'.
Proof.
  intros [Hn Hf Hi Hcov Hnx Hcy He Hsz Hcu] HL Hn' Hcur Hel Hnull Hnext.
  assert (o ∈ near c) as Ho by (rewrite HL; left). pose proof (Hi _ _ Ho) as Hio.
  pose proof (ni_nodup _ _ _ Hn c) as Hnd. rewrite HL in Hnd. apply NoDup_cons in Hnd as [Hol Hnd].
  assert (forall x o', o' ∈ pop near c x -> o' <> o) as Hpop.
  { intros x o' Hin ->. pose proof (elem_of_pop _ _ _ _ Hin) as Hx.
    rewrite (ni_inj _ _ _ Hn _ _ _ Hx Ho) in Hin. unfold pop in Hin.
    rewrite Z.eqb_refl, HL in Hin. done. }
  pose proof (map_size_delete_Some o items ltac:(eauto)) as Hsd.
  pose proof (map_size_ne_0_lookup_2 items o ltac:(eauto)).
  split; rewrite ?Hcur; [done|..|lia|lia|done].
  - destruct Hf as [Hs Hfn Hfe Hd]. split; [done|done|..]; intros x o' Hin.
    + destruct (Hfe x o' Hin) as (? & ? & ?). assert (o' <> o) by (intros ->; by eapply Hd).
      by rewrite lookup_delete_ne, Hnext.
    + intros y Hy%elem_of_pop. by eapply Hd.
  - intros x o' Hx. rewrite lookup_delete_ne by (by eapply not_eq_sym, Hpop). by apply Hi, (elem_of_pop _ c).
  - intros x o' [Hne Hx]%lookup_delete_Some. destruct (Hcov _ _ Hx) as [Hin|]; [left|by right].
    unfold pop. destruct (Z.eqb_spec x c) as [->|]; [|done]. rewrite HL in Hin |- *.
    apply elem_of_cons in Hin as [->|]; [done|done].
  - intros o' o2 Ho'. assert (o' <> o) by (intros ->; congruence).
    rewrite lookup_delete_ne by done. eapply Hnx. by rewrite <- Hnext.
  - intros x o' [_ Hx]%lookup_delete_Some. eauto.
Qed.

Lemma dequeue_fuel_ok items q :
  pq_inv items q -> items <> ∅ ->
  exists c o, items !! o = Some c /\ c / 64 - pq_curBlock q <= Z.of_nat (dequeue_fuel B q).
Proof.
  intros [near Hq] Hne. unfold dequeue_fuel.
  destruct (pq_feMap q) as [|[c o] far] eqn:Ef.
  - apply map_choose in Hne as (o & c & Ho). exists c, o. split; [done|].
    destruct (pr_cover _ _ _ _ _ Hq _ _ Ho) as [Hn|Hf]; [|by apply not_elem_of_nil in Hf].
    apply (ni_window _ _ _ (pr_near _ _ _ _ _ Hq)) in Hn. lia.
  - destruct (fi_elem _ _ _ _ _ (pr_far _ _ _ _ _ Hq) c o) as (Ho & _); [left|].
    exists c, o. split; [done|]. lia.
Qed.

Lemma elems_nonzero items q : pq_inv items q -> items <> ∅ -> negb (pq_elems q =? 0) = true.
Proof.
  intros [near Hq] Hne. rewrite (pr_elems _ _ _ _ _ Hq).
  assert (size items <> 0%nat) by (by rewrite map_size_non_empty_iff). lia.
Qed.

Lemma dequeue_ok items q :
  pq_inv items q -> items <> ∅ ->
  wp (dequeue B)
    (fun '(o, c) q' => items !! o = Some c /\ is_min items c /\ pq_inv (delete o items) q' /\
       pq_curBlock q' = c / 64) q.
Proof.
  intros Hq Hne. destruct (dequeue_fuel_ok _ _ Hq Hne) as (c0 & o0 & Ho0 & Hfuel).
  unfold dequeue. do 4 wp_step; [by eapply elems_nonzero|]. wp_step.
  eapply wp_mono; [by eapply find_block_ok|]. clear q Hq Hfuel.
  intros [] q (near & c1 & Hq & Hc1 & Hblk). do 3 wp_step.
  eapply wp_mono; [apply (block_index_ok B HB)|]. intros i q' [-> ->]. wp_step.
  eapply wp_mono; [by apply (block_dequeue_ok B HB HB32 near q c1); [apply Hq|..]|].
  pose proof (ni_cur _ _ _ (pr_near _ _ _ _ _ Hq)) as H0. pose proof (pr_cur _ _ _ _ _ Hq).
  pose proof (far_from_bounds _ H0) as Hff. destruct half_bounds as [H1 H2].
  intros [o pos] q' (c & l & Hc & HL & Hcb & Hmin & Hn' & Hfe & Hcur & Hel & Hnull & Hnext).
  do 3 wp_step.
  assert (o ∈ near c) as Ho by (rewrite HL; left). pose proof (pr_items _ _ _ _ _ Hq _ _ Ho) as Hio.
  pose proof (map_size_ne_0_lookup_2 items o ltac:(eauto)).
  pose proof (pr_elems _ _ _ _ _ Hq). pose proof (pr_size _ _ _ _ _ Hq).
  pose proof (pr_cycles _ _ _ _ _ Hq _ _ Hio).
  replace (u64 (u64 (pq_curBlock q * 64) + Z.of_nat pos)) with c
    by (rewrite (u64_id (pq_curBlock q * 64)), u64_id by (unfold in_u64; lia); lia).
  split_and!; [done| | |by rewrite Hcb].
  - intros o' c' Ho'. pose proof (pq_rep_block _ _ _ _ _ _ _ Hq ltac:(lia) Ho') as Hge.
    destruct (decide (c' / 64 = pq_curBlock q)) as [Eb|Hb].
    + apply Hmin; [done|]. destruct (pr_cover _ _ _ _ _ Hq _ _ Ho') as [Hin|Hf].
      * intros En. rewrite En in Hin. by apply not_elem_of_nil in Hin.
      * apply (fi_elem _ _ _ _ _ (pr_far _ _ _ _ _ Hq)) in Hf as (_ & Hf & _). lia.
    + apply Z.nlt_ge. intros Hlt. assert (c' / 64 <= c / 64) by (apply Z.div_le_mono; lia). lia.
  - exists (pop near c). simpl. rewrite Hfe, Hcur.
    eapply pq_rep_dequeue; [exact Hq|exact HL| |done| |done|done].
    + destruct Hn'. by split.
    + simpl. rewrite u64_id; unfold in_u64; lia.
Qed.

Lemma near_elem near items far lo q c :
  pq_rep near far lo items q -> near c <> [] -> exists o, items !! o = Some c.
Proof.
  intros Hq Hne. destruct (near c) as [|o l] eqn:E; [done|]. exists o.
  apply (pr_items _ _ _ _ _ Hq). rewrite E. left.
Qed.

Lemma far_head_min near far lo items q c o :
  pq_rep near ((c, o) :: far) lo items q -> forall c' o', (c', o') ∈ (c, o) :: far -> c <= c'.
Proof.
  intros Hq c' o' [E|Hin]%elem_of_cons; [by simplify_eq|].
  pose proof (fi_sorted _ _ _ _ _ (pr_far _ _ _ _ _ Hq)) as [_ Hs]%StronglySorted_inv.
  rewrite Forall_forall in Hs. by apply (Hs (c', o')).
Qed.

Lemma firstCycle_ok items q :
  pq_inv items q -> items <> ∅ ->
  wp (firstCycle B) (fun c q' => q' = q /\ is_min items c /\ exists o, items !! o = Some c) q.
Proof.
  intros [near Hq] Hne. unfold firstCycle.
  pose proof (ni_cur _ _ _ (pr_near _ _ _ _ _ Hq)) as H0. pose proof (pr_cur _ _ _ _ _ Hq).
  pose proof (far_from_bounds _ H0) as Hff. destruct half_bounds as [H1 H2].
  assert (forall c o, o ∈ near c -> near c <> []) as Hnn.
  { intros c o Ho E. rewrite E in Ho. by apply not_elem_of_nil in Ho. }
  pose proof (fun c o Hin => proj1 (ni_window _ _ _ (pr_near _ _ _ _ _ Hq) c o Hin)) as Hwin.
  do 4 wp_step; [by eapply elems_nonzero; [exists near|]|]. wp_step.
  eapply wp_mono; [by apply (first_occupied_ok B HB HB32 near); [apply Hq|lia..]|].
  intros r1 q1 [-> Hr1]. destruct r1 as [c|].
  { destruct Hr1 as (Hn & Hc & Hmin). wp_step. split_and!; [done| |by eapply near_elem].
    intros o c' Ho. destruct (pr_cover _ _ _ _ _ Hq _ _ Ho) as [Hin|Hf].
    - apply Hmin; [|by eapply Hnn]. apply Hwin in Hin. lia.
    - apply (fi_elem _ _ _ _ _ (pr_far _ _ _ _ _ Hq)) in Hf as (_ & Hf & _).
      apply Z.lt_le_incl, Z.nle_gt. intros Hle. assert (c' / 64 <= c / 64) by (apply Z.div_le_mono; lia). lia. }
  wp_step. eapply wp_mono; [by apply (first_occupied_ok B HB HB32 near); [apply Hq|lia..]|].
  intros r2 q2 [-> Hr2].
  assert (forall c' o, o ∈ near c' -> pq_curBlock q + HZ <= c' / 64 < pq_curBlock q + BZ) as Hlate.
  { intros c' o Ho. pose proof (ni_window _ _ _ (pr_near _ _ _ _ _ Hq) _ _ Ho).
    destruct (Z.lt_ge_cases (c' / 64) (pq_curBlock q + HZ)); [|lia].
    exfalso. apply (Hnn _ _ Ho), Hr1. lia. }
  pose proof (pr_cover _ _ _ _ _ Hq) as Hcov.
  destruct (pq_feMap q) as [|[f o] far] eqn:Ef, r2 as [c|]; try wp_step; [|exfalso|split; [done|]..].
  - destruct Hr2 as (Hn & Hc & Hmin). split_and!; [done| |by eapply near_elem].
    intros o c' Ho. destruct (Hcov _ _ Ho) as [Hin|Hf]; [|by apply not_elem_of_nil in Hf].
    apply Hmin; [|by eapply Hnn]. apply Hlate in Hin. lia.
  - apply map_choose in Hne as (o & c & Ho). destruct (Hcov _ _ Ho) as [Hin|Hf]; [|by apply not_elem_of_nil in Hf].
    apply (Hnn _ _ Hin), Hr2. apply Hlate in Hin. lia.
  - destruct Hr2 as (Hn & Hc & Hmin). split.
    + intros o' c' Ho. destruct (Hcov _ _ Ho) as [Hin|Hf].
      * assert (c <= c'); [|lia]. apply Hmin; [|by eapply Hnn]. apply Hlate in Hin. lia.
      * pose proof (far_head_min _ _ _ _ _ _ _ Hq _ _ Hf). lia.
    + destruct (Z.min_spec c f) as [[_ ->]|[_ ->]]; [by eapply near_elem|].
      exists o. apply (fi_elem _ _ _ _ _ (pr_far _ _ _ _ _ Hq)). left.
  - split.
    + intros o' c' Ho. destruct (Hcov _ _ Ho) as [Hin|Hf].
      * exfalso. apply (Hnn _ _ Hin), Hr2. apply Hlate in Hin. lia.
      * by eapply far_head_min.
    + exists o. apply (fi_elem _ _ _ _ _ (pr_far _ _ _ _ _ Hq)). left.
Qed.

Lemma pq_size_ok items q : pq_inv items q -> wp pq_size (fun n q' => q' = q /\ n = Z.of_nat (size items)) q.
Proof. intros [near Hq]. unfold pq_size. wp_step. split; [done|apply Hq]. Qed.

Lemma PrioQueue_new_inv : pq_inv ∅ (PrioQueue_new B).
Proof.
  exists (fun _ => []). split; simpl; try done; try set_solver.
  - split; simpl; [by rewrite length_replicate| |by intros ? ? ?%not_elem_of_nil|intros; constructor|by intros ? ? ? ?%not_elem_of_nil|lia].
    intros b Hb. exists empty_block. split.
    + apply lookup_replicate. split; [done|]. pose proof (Z.mod_pos_bound b BZ). lia.
    + split; [done|done| |].
      * intros pos Hpos. exists None. split; [|done]. by apply lookup_replicate.
      * intros pos Hpos. apply Z.bits_0.
  - split; [constructor|constructor|..]; by intros ? ? ?%not_elem_of_nil.
Qed.

(** ** Refinement of the abstract queue *)

(** Objects with their cycles, and the cycle of the last [dequeue]. *)
Record AQueue := mkAQ { aq_items : gmap nat Z; aq_last : Z }.
Definition aq_empty : AQueue := mkAQ ∅ 0.

Inductive pq_op := Enqueue (o : nat) (c : Z) | Dequeue | FirstCycle | Size.
Inductive pq_val := VUnit | VElem (o : nat) (c : Z) | VNum (n : Z).

Inductive aq_step : AQueue -> pq_op -> pq_val -> AQueue -> Prop :=
| aq_enqueue items last o c :
    items !! o = None ->
    aq_step (mkAQ items last) (Enqueue o c) VUnit (mkAQ (<[o := c]> items) last)
| aq_dequeue items last o c :
    items !! o = Some c -> is_min items c ->
    aq_step (mkAQ items last) Dequeue (VElem o c) (mkAQ (delete o items) c)
| aq_first items last o c :
    items !! o = Some c -> is_min items c ->
    aq_step (mkAQ items last) FirstCycle (VNum c) (mkAQ items last)
| aq_size items last :
    aq_step (mkAQ items last) Size (VNum (Z.of_nat (size items))) (mkAQ items last).

(** What the caller owes: an object is in the queue at most once, goes to no
    block before the one last dequeued from, and is asked for only when there
    is one. *)
Definition aq_pre (a : AQueue) (op : pq_op) : Prop :=
  match op with
  | Enqueue o c => aq_items a !! o = None /\ 0 <= c < 2 ^ 63 /\ aq_last a / 64 <= c / 64 /\
      Z.of_nat (size (aq_items a)) + 1 < 2 ^ 64
  | Dequeue | FirstCycle => aq_items a <> ∅
  | Size => True
  end.

Definition run_pq (op : pq_op) : M PrioQueue pq_val :=
  match op with
  | Enqueue o c => enqueue B o c ;; ret VUnit
  | Dequeue => let! (o, c) := dequeue B in ret (VElem o c)
  | FirstCycle => c <- firstCycle B ;; ret (VNum c)
  | Size => n <- pq_size ;; ret (VNum n)
  end.

Fixpoint run_pqs (ops : list pq_op) : M PrioQueue (list pq_val) :=
  match ops with
  | [] => ret []
  | op :: ops' => v <- run_pq op ;; vs <- run_pqs ops' ;; ret (v :: vs)
  end.

Inductive aq_steps : AQueue -> list pq_op -> list pq_val -> AQueue -> Prop :=
| aq_nil a : aq_steps a [] [] a
| aq_cons a op v a' ops vs a'' :
    aq_step a op v a' -> aq_steps a' ops vs a'' -> aq_steps a (op :: ops) (v :: vs) a''.

(** Every call of the sequence is legal, whatever the calls before returned. *)
Fixpoint aq_legal (a : AQueue) (ops : list pq_op) : Prop :=
  match ops with
  | [] => True
  | op :: ops' => aq_pre a op /\ forall v a', aq_step a op v a' -> aq_legal a' ops'
  end.

Definition aq_rel (a : AQueue) (q : PrioQueue) : Prop :=
  pq_inv (aq_items a) q /\ pq_curBlock q = aq_last a / 64.

(** The forward simulation. *)
Lemma run_pq_simulates a q op :
  aq_rel a q -> aq_pre a op -> wp (run_pq op) (fun v q' => exists a', aq_step a op v a' /\ aq_rel a' q') q.
Proof.
  destruct a as [items last]. intros [Hq Hcur] Hpre. unfold aq_rel in *. destruct op as [o c| | |]; simpl in *; wp_step.
  - destruct Hpre as (Ho & Hc & Hb & Hs). eapply wp_mono; [apply enqueue_ok; [exact Hq|done|done|lia|done]|].
    intros [] q' [Hq' Hc']. wp_step. eexists. split; [by constructor|]. simpl. by rewrite Hc'.
  - eapply wp_mono; [by apply dequeue_ok|]. intros [o c] q' (Ho & Hm & Hq' & Hc'). wp_step.
    eexists. split; [by constructor|]. done.
  - eapply wp_mono; [by apply firstCycle_ok|]. intros c q' (-> & Hm & o & Ho). wp_step.
    eexists. split; [by econstructor|]. done.
  - eapply wp_mono; [by apply pq_size_ok|]. intros n q' [-> ->]. wp_step. eexists. split; [constructor|done].
Qed.

Lemma run_pqs_simulates ops a q :
  aq_rel a q -> aq_legal a ops ->
  wp (run_pqs ops) (fun vs q' => exists a', aq_steps a ops vs a' /\ aq_rel a' q') q.
Proof.
  revert a q. induction ops as [|op ops IH]; intros a q Hq Hl; simpl.
  { apply wp_ret. exists a. split; [constructor|done]. }
  destruct Hl as [Hpre Hl]. wp_step. eapply wp_mono; [by eapply run_pq_simulates|].
  intros v q' (a' & Hstep & Hq'). wp_step. eapply wp_mono; [by eapply IH, Hl|].
  intros vs q'' (a'' & Hsteps & Hq''). wp_step. exists a''. split; [by econstructor|done].
Qed.
End Rep.

(** C34: the array of blocks, the occupancy bits, the intrusive lists and the
    map of far elements implement a priority queue: every sequence of calls
    that is legal for the abstract queue runs without a failed assertion from
    the empty queue, and its results are those of the abstract queue, where
    [dequeue] and [firstCycle] deliver an element with the least cycle. *)
Theorem prio_queue_refines (B : nat) (ops : list pq_op) :
  (2 <= B)%nat -> Z.of_nat B < 2 ^ 32 -> aq_legal aq_empty ops ->
  exists vs q a, run_pqs B ops (PrioQueue_new B) = Ok (vs, q) /\ aq_steps aq_empty ops vs a /\ pq_inv B (aq_items a) q.
Proof.
  intros HB HB32 Hl.
  destruct (wp_ok _ _ _ (run_pqs_simulates B HB HB32 ops aq_empty (PrioQueue_new B)
    (conj (PrioQueue_new_inv B HB HB32) eq_refl) Hl)) as (vs & q & Hrun & a & Hs & Hq & _).
  by exists vs, q, a.
Qed.

Lemma prio_queue_refines_witness :
  exists vs q a, run_pqs 4 [Enqueue 1 70; Enqueue 2 5000; Enqueue 3 70; Dequeue; Size] (PrioQueue_new 4) = Ok (vs, q) /\
    aq_steps aq_empty [Enqueue 1 70; Enqueue 2 5000; Enqueue 3 70; Dequeue; Size] vs a /\ pq_inv 4 (aq_items a) q.
Proof.
  apply (prio_queue_refines 4); [lia|lia|].
  repeat (split; [|intros v a Hs; inversion Hs; subst; clear Hs]); try done; vm_compute; naive_solver.
Defined.

(** A run across the window: two elements of one cycle come out in the reverse
    order of their insertion, and a far element follows. *)
Example run_pqs_ex :
  match run_pqs 4 [Enqueue 1 70; Enqueue 2 5000; Enqueue 3 70; FirstCycle; Dequeue; Dequeue; Dequeue; Size]
          (PrioQueue_new 4) with
  | Ok (vs, _) => vs
  | Err _ => []
  end = [VUnit; VUnit; VUnit; VNum 70; VElem 3 70; VElem 1 70; VElem 2 5000; VNum 0].
Proof. vm_compute. reflexivity. Qed.
