(* ===== verification/WeaveEvents.v ===== *)
(** * Timing events and the contention simulator
    ([src/src/timing_event.h], [timing_event.cpp], [contention_sim.cpp],
    [core_recorder.cpp], [weave_md1_mem.h])

    The bound phase records events and their dependences; the weave phase runs
    them in the order of their cycles.  This file holds the data and the
    operations: the heap of events, the event-block lists of children, the
    state machine of an event, and the loop of a simulation thread that owns
    one domain.  Events live in a heap; a freed event is no longer in it, so
    that an access after the free is an error of the model. *)

From stdpp Require Import base list gmap strings.
From Stdlib Require Import ZArith Lia.
From S2P Require Import Prelude Numeric PrioQueue.
Local Open Scope Z_scope.

(** ** Data *)

Inductive EventState := EV_INVALID | EV_NONE | EV_QUEUED | EV_RUNNING | EV_HELD | EV_DONE.
#[global] Instance EventState_eq_dec : EqDecision EventState.
Proof. solve_decision. Defined.

(** The classes of events whose [simulate] is modelled. *)
Inductive EventKind :=
| DelayEvent
| TimingCoreEvent (core : nat) (origStartCycle : Z)
| OOODispatchEvent
| WeaveMemAccEvent (lat : Z).
#[global] Instance EventKind_eq_dec : EqDecision EventKind.
Proof. solve_decision. Defined.

Definition TIMING_BLOCK_EVENTS : nat := 3.

(** [TimingEventBlock]: three pointers; the list of blocks has the newest
    block first. *)
Definition TimingEventBlock : Type := list (option nat).
Definition TimingEventBlock_new : TimingEventBlock := replicate TIMING_BLOCK_EVENTS None.

(** [class TimingEvent]; of [child] and [children] one is in use, depending on
    [numChildren].  The [next] pointer is kept by the queue. *)
Record TimingEvent := mkTE {
  te_kind : EventKind;
  te_privCycle : Z;
  te_state : EventState;
  te_cycle : Z;
  te_minStartCycle : Z;
  te_child : option nat;
  te_children : list TimingEventBlock;
  te_domain : Z;
  te_numChildren : Z;
  te_numParents : Z;
  te_preDelay : Z;
  te_postDelay : Z
}.

Definition te_set_priv (c : Z) (e : TimingEvent) : TimingEvent :=
  mkTE (te_kind e) c (te_state e) (te_cycle e) (te_minStartCycle e) (te_child e) (te_children e)
    (te_domain e) (te_numChildren e) (te_numParents e) (te_preDelay e) (te_postDelay e).
Definition te_set_state (s : EventState) (e : TimingEvent) : TimingEvent :=
  mkTE (te_kind e) (te_privCycle e) s (te_cycle e) (te_minStartCycle e) (te_child e) (te_children e)
    (te_domain e) (te_numChildren e) (te_numParents e) (te_preDelay e) (te_postDelay e).
Definition te_set_cycle (c : Z) (e : TimingEvent) : TimingEvent :=
  mkTE (te_kind e) (te_privCycle e) (te_state e) c (te_minStartCycle e) (te_child e) (te_children e)
    (te_domain e) (te_numChildren e) (te_numParents e) (te_preDelay e) (te_postDelay e).
Definition te_set_min (c : Z) (e : TimingEvent) : TimingEvent :=
  mkTE (te_kind e) (te_privCycle e) (te_state e) (te_cycle e) c (te_child e) (te_children e)
    (te_domain e) (te_numChildren e) (te_numParents e) (te_preDelay e) (te_postDelay e).
Definition te_set_domain (d : Z) (e : TimingEvent) : TimingEvent :=
  mkTE (te_kind e) (te_privCycle e) (te_state e) (te_cycle e) (te_minStartCycle e) (te_child e) (te_children e)
    d (te_numChildren e) (te_numParents e) (te_preDelay e) (te_postDelay e).
Definition te_set_parents (n : Z) (e : TimingEvent) : TimingEvent :=
  mkTE (te_kind e) (te_privCycle e) (te_state e) (te_cycle e) (te_minStartCycle e) (te_child e) (te_children e)
    (te_domain e) (te_numChildren e) n (te_preDelay e) (te_postDelay e).
Definition te_set_children (n : Z) (c : option nat) (bs : list TimingEventBlock) (e : TimingEvent) : TimingEvent :=
  mkTE (te_kind e) (te_privCycle e) (te_state e) (te_cycle e) (te_minStartCycle e) c bs
    (te_domain e) n (te_numParents e) (te_preDelay e) (te_postDelay e).

(** [CoreRecorder]: the part the events report to. *)
Inductive RecState := HALTED | RUNNING | DRAINING.
#[global] Instance RecState_eq_dec : EqDecision RecState.
Proof. solve_decision. Defined.

Record CoreRecorder := mkRec {
  cr_state : RecState;
  cr_gapCycles : Z;
  cr_prevRespCycle : Z;
  cr_prevRespEvent : option nat;
  cr_lastStart : Z;
  cr_lastOrigStart : Z;
  cr_totalGapCycles : Z;
  cr_totalHaltedCycles : Z;
  cr_lastUnhaltedCycle : Z;
  cr_domain : Z;
  cr_startSlack : Z
}.

Record DomainData := mkDom { dd_pq : PrioQueue; dd_curCycle : Z }.

(** The simulator: the heap of events, [ContentionSim], and the recorders of
    the cores.  [w_log] is [logVec], the log of a [POST_MORTEM] build;
    [w_fresh] is the allocator's next event. *)
Record World := mkW {
  w_events : gmap nat TimingEvent;
  w_fresh : nat;
  w_domains : list DomainData;
  w_limit : Z;
  w_lastLimit : Z;
  w_inCSim : bool;
  w_log : list (Z * nat);
  w_cores : list CoreRecorder;
  w_phaseLength : Z;
  w_globPhaseCycles : Z
}.

Definition w_set_events (h : gmap nat TimingEvent) (w : World) : World :=
  mkW h (w_fresh w) (w_domains w) (w_limit w) (w_lastLimit w) (w_inCSim w) (w_log w) (w_cores w)
    (w_phaseLength w) (w_globPhaseCycles w).
Definition w_set_fresh (n : nat) (w : World) : World :=
  mkW (w_events w) n (w_domains w) (w_limit w) (w_lastLimit w) (w_inCSim w) (w_log w) (w_cores w)
    (w_phaseLength w) (w_globPhaseCycles w).
Definition w_set_domains (d : list DomainData) (w : World) : World :=
  mkW (w_events w) (w_fresh w) d (w_limit w) (w_lastLimit w) (w_inCSim w) (w_log w) (w_cores w)
    (w_phaseLength w) (w_globPhaseCycles w).
Definition w_set_limit (l : Z) (w : World) : World :=
  mkW (w_events w) (w_fresh w) (w_domains w) l (w_lastLimit w) (w_inCSim w) (w_log w) (w_cores w)
    (w_phaseLength w) (w_globPhaseCycles w).
Definition w_set_lastLimit (l : Z) (w : World) : World :=
  mkW (w_events w) (w_fresh w) (w_domains w) (w_limit w) l (w_inCSim w) (w_log w) (w_cores w)
    (w_phaseLength w) (w_globPhaseCycles w).
Definition w_set_inCSim (b : bool) (w : World) : World :=
  mkW (w_events w) (w_fresh w) (w_domains w) (w_limit w) (w_lastLimit w) b (w_log w) (w_cores w)
    (w_phaseLength w) (w_globPhaseCycles w).
Definition w_set_log (l : list (Z * nat)) (w : World) : World :=
  mkW (w_events w) (w_fresh w) (w_domains w) (w_limit w) (w_lastLimit w) (w_inCSim w) l (w_cores w)
    (w_phaseLength w) (w_globPhaseCycles w).
Definition w_set_cores (c : list CoreRecorder) (w : World) : World :=
  mkW (w_events w) (w_fresh w) (w_domains w) (w_limit w) (w_lastLimit w) (w_inCSim w) (w_log w) c
    (w_phaseLength w) (w_globPhaseCycles w).

(** ** The heap *)

Definition get_event (e : nat) : M World TimingEvent :=
  w <- get ;;
  match w_events w !! e with Some ev => ret ev | None => fail NullDeref end.

Definition put_event (e : nat) (ev : TimingEvent) : M World unit :=
  modify (fun w => w_set_events (<[e := ev]> (w_events w)) w).

Definition upd_event (e : nat) (f : TimingEvent -> TimingEvent) : M World unit :=
  ev <- get_event e ;; put_event e (f ev).

(** The constructors: [-1] as an unsigned 64-bit [minStartCycle].  The one that
    takes only a domain does not initialise [cycle]; no class of events uses it. *)
Definition TimingEvent_init (k : EventKind) (preDelay postDelay domain : Z) : TimingEvent :=
  mkTE k 0 EV_NONE 0 (2 ^ 64 - 1) None [] domain 0 0 preDelay postDelay.

(** [new (evRec) K(...)] *)
Definition new_event (ev : TimingEvent) : M World nat :=
  w <- get ;;
  put_event (w_fresh w) ev ;;
  modify (w_set_fresh (S (w_fresh w))) ;;
  ret (w_fresh w).

Definition DelayEvent_new (delay : Z) : TimingEvent := TimingEvent_init DelayEvent delay 0 (-1).
Definition TimingCoreEvent_new (delay origStartCycle : Z) (core : nat) (domain : Z) : TimingEvent :=
  TimingEvent_init (TimingCoreEvent core origStartCycle) 0 (u32 delay) domain.

Definition setMinStartCycle (e : nat) (c : Z) : M World unit := upd_event e (te_set_min c).

(** ** Children *)

(** The pointers of a block up to the first null one. *)
Fixpoint block_prefix (b : TimingEventBlock) : list nat :=
  match b with Some e :: b' => e :: block_prefix b' | _ => [] end.

(** [visitChildren]: the events in the order of the visit. *)
Definition visitChildren (ev : TimingEvent) : res (list nat) :=
  if te_numChildren ev =? 0 then Ok []
  else if te_numChildren ev =? 1 then
    match te_child ev with Some c => Ok [c] | None => Err NullDeref end
  else
    let visited := concat (map block_prefix (te_children ev)) in
    if Z.of_nat (length visited) =? te_numChildren ev then Ok visited
    else Err (AssertFail "timing_event.h:249").

(** The pointer part of [addChild]. *)
Definition link_child (c : nat) (ev : TimingEvent) : res TimingEvent :=
  if te_numChildren ev =? 0 then Ok (te_set_children 1 (Some c) (te_children ev) ev)
  else if te_numChildren ev =? 1 then
    Ok (te_set_children 2 None
          [<[1%nat := Some c]> (<[0%nat := te_child ev]> TimingEventBlock_new)] ev)
  else
    let idx := Z.to_nat (te_numChildren ev mod Z.of_nat TIMING_BLOCK_EVENTS) in
    let blocks := if (idx =? 0)%nat then TimingEventBlock_new :: te_children ev else te_children ev in
    match blocks with
    | [] => Err NullDeref
    | b :: bs => Ok (te_set_children (u32 (te_numChildren ev + 1)) None (<[idx := Some c]> b :: bs) ev)
    end.

(** [propagateDomain]; each call gives a domain to one event. *)
Fixpoint propagateDomain (fuel : nat) (e : nat) (dom : Z) : M World unit :=
  match fuel with
  | O => fail OutOfFuel
  | S fuel =>
      ev <- get_event e ;;
      assert_ "timing_event.h:220" (te_domain ev =? -1) ;;
      put_event e (te_set_domain dom ev) ;;
      cs <- lift (visitChildren ev) ;;
      forM cs (fun c =>
        child <- get_event c ;;
        when (te_domain child =? -1) (propagateDomain fuel c dom))
  end.

Definition event_state_in (l : list EventState) (ev : TimingEvent) : bool := bool_decide (te_state ev ∈ l).

(** [addChild] *)
Definition addChild (p c : nat) : M World unit :=
  ev <- get_event p ;;
  assert_ "timing_event.h:107" (event_state_in [EV_NONE; EV_QUEUED] ev) ;;
  child <- get_event c ;;
  assert_ "timing_event.h:108" (event_state_in [EV_NONE] child) ;;
  ev' <- lift (link_child c ev) ;;
  put_event p ev' ;;
  child <- get_event c ;;
  w <- get ;;
  when (negb (te_domain ev' =? -1) && (te_domain child =? -1))
    (propagateDomain (S (size (w_events w))) c (te_domain ev')) ;;
  upd_event c (fun child => te_set_parents (u32 (te_numParents child + 1)) child).
