(* ===== verification/WeaveSim.v ===== *)
(** * The contention simulator ([src/src/contention_sim.cpp],
    [timing_event.h], [timing_event.cpp], [core_recorder.cpp])

    The state machine of an event ([queue], [parentDone], [run], [done],
    [requeue], [hold], [release]), the two enqueue operations of
    [ContentionSim], and the loop of a simulation thread that owns one
    domain. *)

From stdpp Require Import base list gmap strings.
From Stdlib Require Import ZArith Lia.
From S2P Require Import Prelude Numeric PrioQueue WeaveEvents.
Local Open Scope Z_scope.

Definition PQ_BLOCKS : nat := 1024.

(** [domains\[d\]]; the index is a signed integer. *)
Definition get_domain (d : Z) : M World DomainData :=
  w <- get ;;
  if d <? 0 then fail OutOfRange else lift (at_ (w_domains w) (Z.to_nat d)).
Definition put_domain (d : Z) (dd : DomainData) : M World unit :=
  w <- get ;;
  ds <- lift (set_at (w_domains w) (Z.to_nat d) dd) ;;
  modify (w_set_domains ds).

(** A call on [domains\[d\].pq]. *)
Definition on_pq {A} (d : Z) (m : M PrioQueue A) : M World A :=
  dom <- get_domain d ;;
  match m (dd_pq dom) with
  | Ok (a, q) => put_domain d (mkDom q (dd_curCycle dom)) ;; ret a
  | Err e => fail e
  end.

Definition numDomains (w : World) : Z := Z.of_nat (length (w_domains w)).

(** [getCurCycle] *)
Definition getCurCycle (d : Z) : M World Z :=
  w <- get ;;
  assert_ "contention_sim.h:146" (u32 d <? numDomains w) ;;
  dom <- get_domain d ;;
  assert_ "contention_sim.h:148" (0 <=? i64 (dd_curCycle dom)) ;;
  ret (dd_curCycle dom).

(** [ContentionSim::enqueue]: in the weave phase. *)
Definition csim_enqueue (e : nat) (cycle : Z) : M World unit :=
  w <- get ;;
  assert_ "contention_sim.cpp:186" (w_inCSim w) ;;
  ev <- get_event e ;;
  assert_ "contention_sim.cpp:188" (w_lastLimit w <=? cycle) ;;
  assert_ "contention_sim.cpp:190" (cycle <? u64 (w_lastLimit w + u32 (10 * w_phaseLength w) + 1000000)) ;;
  dom <- get_domain (te_domain ev) ;;
  assert_ "contention_sim.cpp:192" (dd_curCycle dom <=? cycle) ;;
  put_event e (te_set_priv cycle ev) ;;
  assert_ "contention_sim.cpp:194" (te_numParents ev =? 0) ;;
  assert_ "contention_sim.cpp:195" (negb (te_domain ev =? -1)) ;;
  assert_ "contention_sim.cpp:196" (te_domain ev <? numDomains w) ;;
  on_pq (te_domain ev) (PrioQueue.enqueue PQ_BLOCKS e cycle).

(** [ContentionSim::enqueueSynced]: in the bound phase. *)
Definition enqueueSynced (e : nat) (cycle : Z) : M World unit :=
  w <- get ;;
  assert_ "contention_sim.cpp:202" (negb (w_inCSim w)) ;;
  ev <- get_event e ;;
  assert_ "contention_sim.cpp:203" (negb (te_domain ev =? -1)) ;;
  assert_ "contention_sim.cpp:204" (te_domain ev <? numDomains w) ;;
  assert_ "contention_sim.cpp:209" (w_lastLimit w <=? cycle) ;;
  assert_ "contention_sim.cpp:211" (cycle <? u64 (w_lastLimit w + u32 (10 * w_phaseLength w) + 10000)) ;;
  put_event e (te_set_priv cycle ev) ;;
  assert_ "contention_sim.cpp:213" (te_numParents ev =? 0) ;;
  on_pq (te_domain ev) (PrioQueue.enqueue PQ_BLOCKS e cycle).

(** ** The state machine of an event *)

(** [TimingEvent::queue] *)
Definition te_queue (e : nat) (nextCycle : Z) : M World unit :=
  ev <- get_event e ;;
  assert_ "timing_event.cpp:46" (event_state_in [EV_NONE] ev && (te_numParents ev =? 0)) ;;
  put_event e (te_set_state EV_QUEUED ev) ;;
  enqueueSynced e nextCycle.

(** [TimingEvent::requeue] *)
Definition te_requeue (e : nat) (nextCycle : Z) : M World unit :=
  ev <- get_event e ;;
  assert_ "timing_event.cpp:52" (te_numParents ev =? 0) ;;
  assert_ "timing_event.cpp:53" (event_state_in [EV_RUNNING; EV_HELD] ev) ;;
  put_event e (te_set_state EV_QUEUED ev) ;;
  csim_enqueue e nextCycle.

Definition te_hold (e : nat) : M World unit :=
  ev <- get_event e ;;
  assert_ "timing_event.h:171" (event_state_in [EV_RUNNING] ev) ;;
  put_event e (te_set_state EV_HELD ev).

Definition te_release (e : nat) : M World unit :=
  ev <- get_event e ;;
  assert_ "timing_event.h:176" (event_state_in [EV_HELD] ev) ;;
  put_event e (te_set_state EV_RUNNING ev).

(** [parentDone], with [done] for the events that finish at once. *)
Definition parentDone (done_ : nat -> Z -> M World unit) (e : nat) (startCycle : Z) : M World unit :=
  ev <- get_event e ;;
  let cycle := Z.max (te_cycle ev) startCycle in
  match te_kind ev with
  | DelayEvent =>
      let ev := te_set_parents (u32 (te_numParents ev - 1)) (te_set_cycle cycle ev) in
      put_event e ev ;;
      when (te_numParents ev =? 0)
        (put_event e (te_set_state EV_RUNNING ev) ;;
         done_ e (u64 (cycle + te_preDelay ev)))
  | _ =>
      assert_ "timing_event.cpp:36" (negb (te_numParents ev =? 0)) ;;
      let ev := te_set_parents (te_numParents ev - 1) (te_set_cycle cycle ev) in
      put_event e ev ;;
      when (te_numParents ev =? 0)
        (assert_ "timing_event.cpp:39" (event_state_in [EV_NONE] ev) ;;
         put_event e (te_set_state EV_QUEUED ev) ;;
         csim_enqueue e (u64 (cycle + te_preDelay ev)))
  end.

(** [freeEvent]: the event and its blocks go back to the allocator. *)
Definition freeEvent (e : nat) : M World unit :=
  modify (fun w => w_set_events (delete e (w_events w)) w).

(** [done]; the fuel bounds the chain of events that finish at once. *)
Fixpoint te_done (fuel : nat) (e : nat) (doneCycle : Z) : M World unit :=
  match fuel with
  | O => fail OutOfFuel
  | S fuel =>
      ev <- get_event e ;;
      assert_ "timing_event.h:181" (event_state_in [EV_RUNNING] ev) ;;
      put_event e (te_set_state EV_DONE ev) ;;
      cs <- lift (visitChildren ev) ;;
      forM cs (fun c => parentDone (te_done fuel) c (u64 (doneCycle + te_postDelay ev))) ;;
      freeEvent e
  end.

(** [CoreRecorder::reportEventSimulated] *)
Definition reportEventSimulated (core : nat) (e : nat) (startCycle origStartCycle : Z) : M World unit :=
  w <- get ;;
  cr <- lift (at_ (w_cores w) core) ;;
  let last := bool_decide (cr_prevRespEvent cr = Some e) in
  assert_ "core_recorder.cpp:224" (negb last || bool_decide (cr_state cr = DRAINING)) ;;
  cores <- lift (set_at (w_cores w) core
    (mkRec (cr_state cr) (cr_gapCycles cr) (cr_prevRespCycle cr)
       (if last then None else cr_prevRespEvent cr) startCycle origStartCycle (cr_totalGapCycles cr)
       (cr_totalHaltedCycles cr) (cr_lastUnhaltedCycle cr) (cr_domain cr)
       (u64 (startCycle - origStartCycle)))) ;;
  modify (w_set_cores cores).

(** The [simulate] of the class of the event. *)
Definition te_simulate (fuel : nat) (e : nat) (startCycle : Z) : M World unit :=
  ev <- get_event e ;;
  match te_kind ev with
  | DelayEvent => fail (Panic "timing_event.h:303")
  | TimingCoreEvent core orig => reportEventSimulated core e startCycle orig ;; te_done fuel e startCycle
  | OOODispatchEvent => te_done fuel e startCycle
  | WeaveMemAccEvent lat => te_done fuel e (u64 (startCycle + lat))
  end.

Definition te_run (fuel : nat) (e : nat) (startCycle : Z) : M World unit :=
  ev <- get_event e ;;
  assert_ "timing_event.h:158" (event_state_in [EV_NONE; EV_QUEUED] ev) ;;
  put_event e (te_set_state EV_RUNNING ev) ;;
  te_simulate fuel e startCycle.

(** ** A simulation thread with one domain *)

Definition set_curCycle (d : Z) (c : Z) : M World unit :=
  dom <- get_domain d ;; put_domain d (mkDom (dd_pq dom) c).

(** [pq.size() && pq.firstCycle() < limit] *)
Definition phase_pending (d : Z) : M World bool :=
  w <- get ;;
  n <- on_pq d pq_size ;;
  if n =? 0 then ret false
  else c <- on_pq d (firstCycle PQ_BLOCKS) ;; ret (c <? w_limit w).

(** The body of the loop. *)
Definition phase_step (fuel : nat) (d : Z) : M World unit :=
  w <- get ;;
  dom <- get_domain d ;;
  let domCycle := dd_curCycle dom in
  let! (te, cycle) := on_pq d (PrioQueue.dequeue PQ_BLOCKS) in
  assert_ "contention_sim.cpp:308" (domCycle <=? cycle) ;;
  when (negb (cycle =? domCycle)) (set_curCycle d cycle) ;;
  te_run fuel te cycle ;;
  n <- on_pq d pq_size ;;
  newCycle <- (if n =? 0 then ret (w_limit w) else on_pq d (firstCycle PQ_BLOCKS)) ;;
  assert_ "contention_sim.cpp:315" (cycle <=? newCycle) ;;
  when (negb (newCycle =? cycle)) (set_curCycle d newCycle) ;;
  modify (fun w => w_set_log (w_log w ++ [(cycle, te)]) w).

Fixpoint phase_loop (rounds fuel : nat) (d : Z) : M World unit :=
  pending <- phase_pending d ;;
  if pending : bool then
    match rounds with
    | O => fail OutOfFuel
    | S rounds => phase_step fuel d ;; phase_loop rounds fuel d
    end
  else ret tt.

(** [simulatePhaseThread] for a thread with the domain [d]: no event runs
    twice, and none waits for more events than there are. *)
Definition simulatePhaseThread (d : Z) : M World unit :=
  w <- get ;;
  phase_loop (size (w_events w)) (size (w_events w)) d ;;
  set_curCycle d (w_limit w).
