(* ===== verification/WeaveProofs.v ===== *)
(** * The weave phase runs every event at its critical-path cycle

    The invariant ties the heap of events, the queue and a list [G] of the
    dependences that are still to be delivered to three ghost functions:
    [start e], the cycle at which the longest path of recorded delays reaches
    [e]; [out e], the cycle it passes on to its children; and [depth], which
    decreases along dependences.  The lemmas follow a delivery through
    [parentDone], [done], [run] and the loop of the simulation thread. *)

From stdpp Require Import base list gmap strings sorting.
From Stdlib Require Import ZArith Lia.
From S2P Require Import Prelude Numeric PrioQueue PrioQueueSpec WeaveEvents WeaveSim.
Local Open Scope Z_scope.

(** The time an event takes by itself. *)
Definition lat_of (k : EventKind) : Z := match k with WeaveMemAccEvent lat => lat | _ => 0 end.

(** The farthest cycle the simulator accepts. *)
Definition far_bound (w : World) : Z := w_lastLimit w + u32 (10 * w_phaseLength w) + 1000000.

Definition from (G : list (nat * nat)) (p : nat) : list (nat * nat) := filter (fun e => e.1 = p) G.
Definition into (G : list (nat * nat)) (x : nat) : list (nat * nat) := filter (fun e => e.2 = x) G.

(** ** Running single operations *)

Lemma wp_get_event e ev (Q : TimingEvent -> World -> Prop) w :
  w_events w !! e = Some ev -> Q ev w -> wp (get_event e) Q w.
Proof. intros He HQ. unfold get_event. do 2 wp_step. rewrite He. by wp_step. Qed.

Lemma wp_put_event e ev (Q : unit -> World -> Prop) w :
  Q tt (w_set_events (<[e := ev]> (w_events w)) w) -> wp (put_event e ev) Q w.
Proof. intros HQ. unfold put_event. by wp_step. Qed.

Lemma w_set_events_twice h h' w : w_set_events h (w_set_events h' w) = w_set_events h w.
Proof. done. Qed.

Lemma wp_on_pq {A} (m : M PrioQueue A) q cur w (Q : A -> World -> Prop) :
  w_domains w = [mkDom q cur] ->
  wp m (fun a q' => Q a (w_set_domains [mkDom q' cur] w)) q -> wp (on_pq 0 m) Q w.
Proof.
  intros Hd Hm. apply wp_ok in Hm as (a & q' & Hm & HQ). unfold on_pq, get_domain. do 3 wp_step.
  simpl. rewrite Hd. eapply wp_lift; [done|]. cbv beta. simpl. rewrite Hm. wp_step.
  unfold put_domain. do 3 wp_step. rewrite Hd. eapply wp_lift; [done|]. by do 2 wp_step.
Qed.

Lemma wp_set_curCycle q cur c w (Q : unit -> World -> Prop) :
  w_domains w = [mkDom q cur] -> Q tt (w_set_domains [mkDom q c] w) -> wp (set_curCycle 0 c) Q w.
Proof.
  intros Hd HQ. unfold set_curCycle, get_domain, put_domain. do 3 wp_step. simpl. rewrite Hd.
  eapply wp_lift; [done|]. do 3 wp_step. rewrite Hd. eapply wp_lift; [done|]. by wp_step.
Qed.

Lemma pq_blocks_bounds : (2 <= PQ_BLOCKS)%nat /\ Z.of_nat PQ_BLOCKS < 2 ^ 32.
Proof. split; unfold PQ_BLOCKS; lia. Qed.

(** [ContentionSim::enqueue] passes its assertions and adds the event. *)
Lemma csim_enqueue_ok e ev c items q cur w :
  w_inCSim w = true -> w_events w !! e = Some ev -> te_domain ev = 0 -> te_numParents ev = 0 ->
  w_domains w = [mkDom q cur] -> w_lastLimit w <= c < far_bound w -> far_bound w < 2 ^ 63 ->
  0 <= cur <= c -> pq_inv PQ_BLOCKS items q -> pq_curBlock q <= cur / 64 -> items !! e = None ->
  Z.of_nat (size items) + 1 < 2 ^ 64 -> 0 <= w_lastLimit w ->
  wp (csim_enqueue e c)
    (fun _ w' => exists q', pq_inv PQ_BLOCKS (<[e := c]> items) q' /\ pq_curBlock q' = pq_curBlock q /\
       w' = w_set_domains [mkDom q' cur] (w_set_events (<[e := te_set_priv c ev]> (w_events w)) w)) w.
Proof.
  intros Hin He Hdom Hnp Hd Hc Hfb Hcur Hq Hblk Hi Hs Hll. unfold csim_enqueue.
  destruct pq_blocks_bounds as [HB HB32]. unfold far_bound in *.
  do 4 wp_step; [done|]. wp_step. eapply wp_get_event; [done|].
  do 2 wp_step; [lia|]. do 2 wp_step; [rewrite u64_id by (unfold in_u64; lia); lia|].
  unfold get_domain. rewrite Hdom. do 3 wp_step. change (0 <? 0) with false. cbv iota. rewrite Hd. eapply wp_lift; [done|].
  do 2 wp_step; [simpl; lia|]. wp_step. apply wp_put_event.
  do 2 wp_step; [lia|]. do 2 wp_step; [done|].
  do 2 wp_step; [unfold numDomains; by rewrite Hd|].
  eapply wp_on_pq; [exact Hd|]. eapply wp_mono; [apply (enqueue_ok PQ_BLOCKS HB HB32 items); [done|done|lia| |done]|].
  - assert (cur / 64 <= c / 64) by (apply Z.div_le_mono; lia). lia.
  - intros [] q' [Hq' Hb']. by exists q'.
Qed.

(** ** The invariant *)
Section Weave.
Context (start out : nat -> Z) (depth : nat -> nat).

(** What the state of an event says about its dependences. *)
Definition ev_dyn (G : list (nat * nat)) (items : gmap nat Z) (e : nat) (ev : TimingEvent) : Prop :=
  match te_state ev with
  | EV_NONE => te_numParents ev = Z.of_nat (length (into G e)) /\ into G e <> [] /\
      te_numParents ev < 2 ^ 32 /\ 0 <= te_cycle ev /\ te_cycle ev + te_preDelay ev <= start e /\
      (te_cycle ev + te_preDelay ev = start e \/
       exists p, (p, e) ∈ G /\ out p + te_preDelay ev = start e)
  | EV_QUEUED => te_numParents ev = 0 /\ into G e = [] /\ items !! e = Some (start e) /\
      te_kind ev <> DelayEvent
  | EV_RUNNING => te_numParents ev = 0 /\ into G e = []
  | EV_DONE => into G e = []
  | EV_INVALID | EV_HELD => False
  end.

Record ev_static (w : World) (e : nat) (ev : TimingEvent) : Prop := {
  es_domain : te_domain ev = 0;
  es_pre : in_u32 (te_preDelay ev);
  es_post : in_u32 (te_postDelay ev);
  es_lat : in_u32 (lat_of (te_kind ev));
  es_start : w_lastLimit w <= start e < far_bound w
}.

Definition live (ev : TimingEvent) : Prop := te_state ev <> EV_DONE.

Record weave_inv (G : list (nat * nat)) (items : gmap nat Z) (q : PrioQueue) (cur : Z) (w : World) : Prop := {
  wi_domains : w_domains w = [mkDom q cur];
  wi_pq : pq_inv PQ_BLOCKS items q;
  wi_block : pq_curBlock q <= cur / 64;
  wi_cur : 0 <= w_lastLimit w <= cur;
  wi_bound : far_bound w < 2 ^ 62;
  wi_inCSim : w_inCSim w = true;
  wi_size : Z.of_nat (size (w_events w)) < 2 ^ 63;
  wi_items : forall e c, items !! e = Some c ->
    c = start e /\ exists ev, w_events w !! e = Some ev /\ te_state ev = EV_QUEUED;
  wi_static : forall e ev, w_events w !! e = Some ev -> ev_static w e ev;
  wi_dyn : forall e ev, w_events w !! e = Some ev -> ev_dyn G items e ev;
  wi_edge : forall p x, (p, x) ∈ G -> (depth x < depth p)%nat /\
    exists ev, w_events w !! x = Some ev /\ te_state ev = EV_NONE /\ out p + te_preDelay ev <= start x;
  wi_live : forall p ev, w_events w !! p = Some ev -> live ev ->
    exists l, visitChildren ev = Ok l /\ from G p ≡ₚ pair p <$> l /\
      out p = start p + lat_of (te_kind ev) + te_postDelay ev
}.

Lemma items_none G items q cur w e ev :
  weave_inv G items q cur w -> w_events w !! e = Some ev -> te_state ev <> EV_QUEUED -> items !! e = None.
Proof.
  intros Hw He Hs. apply eq_None_not_Some. intros [c Hc].
  apply (wi_items _ _ _ _ _ Hw) in Hc as (_ & ev' & ? & ?). simplify_eq.
Qed.

Lemma items_size G items q cur w :
  weave_inv G items q cur w -> Z.of_nat (size items) + 1 < 2 ^ 64.
Proof.
  intros Hw. pose proof (wi_size _ _ _ _ _ Hw) as Hs.
  assert (size (dom items) <= size (dom (w_events w)))%nat as Hle.
  { apply subseteq_size. intros e [c Hc]%elem_of_dom.
    apply (wi_items _ _ _ _ _ Hw) in Hc as (_ & ev & ? & _). apply elem_of_dom. eauto. }
  rewrite !size_dom in Hle. lia.
Qed.

(** The fields that no operation of the weave phase changes. *)
Record same_static (ev ev' : TimingEvent) : Prop := {
  ss_kind : te_kind ev' = te_kind ev;
  ss_domain : te_domain ev' = te_domain ev;
  ss_pre : te_preDelay ev' = te_preDelay ev;
  ss_post : te_postDelay ev' = te_postDelay ev;
  ss_visit : visitChildren ev' = visitChildren ev
}.

Lemma ev_static_same w w' e ev ev' :
  same_static ev ev' -> w_lastLimit w' = w_lastLimit w -> far_bound w' = far_bound w ->
  ev_static w e ev -> ev_static w' e ev'.
Proof. intros [Hk Hd Hpr Hpo Hv] Hl Hf []. split; rewrite ?Hk, ?Hd, ?Hpr, ?Hpo, ?Hl, ?Hf; done. Qed.

Lemma ev_static_world w w' e ev :
  w_lastLimit w' = w_lastLimit w -> far_bound w' = far_bound w -> ev_static w e ev -> ev_static w' e ev.
Proof. by apply ev_static_same. Qed.

Lemma elem_of_into G x p y : (p, y) ∈ into G x <-> y = x /\ (p, y) ∈ G.
Proof. unfold into. rewrite list_elem_of_filter. done. Qed.
Lemma elem_of_from G p x y : (y, x) ∈ from G p <-> y = p /\ (y, x) ∈ G.
Proof. unfold from. rewrite list_elem_of_filter. done. Qed.

Lemma into_nil G x p : into G x = [] -> (p, x) ∉ G.
Proof. intros Hn Hin. assert ((p, x) ∈ into G x) as H by by apply elem_of_into. rewrite Hn in H. by apply not_elem_of_nil in H. Qed.

Lemma into_cons_ne G G' p x y : G ≡ₚ (p, x) :: G' -> y <> x -> into G y ≡ₚ into G' y.
Proof. intros HG Hne. unfold into. by rewrite HG, filter_cons_False by (simpl; congruence). Qed.
Lemma into_cons_eq G G' p x : G ≡ₚ (p, x) :: G' -> into G x ≡ₚ (p, x) :: into G' x.
Proof. intros HG. unfold into. by rewrite HG, filter_cons_True. Qed.
Lemma from_cons_ne G G' p x y : G ≡ₚ (p, x) :: G' -> y <> p -> from G y ≡ₚ from G' y.
Proof. intros HG Hne. unfold from. by rewrite HG, filter_cons_False by (simpl; congruence). Qed.
Lemma from_cons_eq G G' p x : G ≡ₚ (p, x) :: G' -> from G p ≡ₚ (p, x) :: from G' p.
Proof. intros HG. unfold from. by rewrite HG, filter_cons_True. Qed.

Lemma ev_dyn_frame G G' items items' e ev :
  into G e ≡ₚ into G' e -> items' !! e = items !! e -> ev_dyn G items e ev -> ev_dyn G' items' e ev.
Proof.
  intros HG Hi. unfold ev_dyn.
  assert (into G e = [] -> into G' e = []) as Hnil.
  { intros E. rewrite E in HG. by apply Permutation_nil in HG. }
  destruct (te_state ev); try done; rewrite ?Hi; try naive_solver.
  intros (Hn & Hne & Hlt & Hc & Hle & Hatt). split_and!; try done.
  - by rewrite Hn, HG.
  - intros E. apply Hne. rewrite E in HG. by apply Permutation_nil_r in HG.
  - destruct Hatt as [?|(p & Hp & ?)]; [by left|]. right. exists p. split; [|done].
    assert ((p, e) ∈ into G e) as Hin by by apply elem_of_into. rewrite HG in Hin.
    by apply elem_of_into in Hin as [_ ?].
Qed.

Lemma size_insert_same {A} (h : gmap nat A) e x y : h !! e = Some x -> size (<[e := y]> h) = size h.
Proof. intros He. apply map_size_insert_Some. eauto. Qed.

(** One dependence of [e] is delivered; its source has finished. *)
Lemma inv_deliver G G' items items' q q' cur w p e ev ev' :
  weave_inv G items q cur w -> w_events w !! e = Some ev -> te_state ev = EV_NONE ->
  G ≡ₚ (p, e) :: G' -> (forall evp, w_events w !! p = Some evp -> ~ live evp) ->
  same_static ev ev' -> ev_dyn G' items' e ev' ->
  (items' = items \/ items' = <[e := start e]> items /\ te_state ev' = EV_QUEUED) ->
  pq_inv PQ_BLOCKS items' q' -> pq_curBlock q' <= cur / 64 ->
  weave_inv G' items' q' cur (w_set_domains [mkDom q' cur] (w_set_events (<[e := ev']> (w_events w)) w)).
Proof.
  intros Hw He Hst HG Hp Hss Hdyn Hit Hq Hb.
  pose proof (items_none _ _ _ _ _ _ _ Hw He ltac:(by rewrite Hst)) as Hnone.
  assert (forall x, x <> e -> items' !! x = items !! x) as Hother.
  { intros x Hx. destruct Hit as [->|[-> _]]; [done|]. by apply lookup_insert_ne. }
  destruct Hw as [Hd Hpq Hbl Hcu Hfb Hin Hsz Hi Hstat Hdy Hed Hlv].
  split; simpl; [done|done|done|done|done|done|by erewrite size_insert_same|..].
  - intros x c Hx. destruct (decide (x = e)) as [->|Hne].
    + rewrite lookup_insert_eq. destruct Hit as [->|[-> Hq']]; [congruence|].
      rewrite lookup_insert_eq in Hx. injection Hx as <-. eauto.
    + rewrite Hother in Hx by done. rewrite lookup_insert_ne by done. eauto.
  - intros x evx [[<- <-]|[Hne Hx]]%lookup_insert_Some; [|by apply (ev_static_world w), Hstat].
    eapply (ev_static_same w); [exact Hss|done|done|by apply Hstat].
  - intros x evx [[<- <-]|[Hne Hx]]%lookup_insert_Some; [done|].
    eapply ev_dyn_frame; [|by apply Hother, not_eq_sym|by apply Hdy].
    by apply (into_cons_ne _ _ p e), not_eq_sym.
  - intros p' x Hin'. destruct (Hed p' x) as (Hdep & evx & Hx & Hxs & Hle); [rewrite HG; by right|].
    split; [done|]. destruct (decide (x = e)) as [->|Hne].
    + rewrite lookup_insert_eq. exists ev'. split; [done|]. simplify_eq.
      rewrite (ss_pre _ _ Hss). split; [|done]. revert Hdyn. unfold ev_dyn.
      destruct (te_state ev'); intros Hdyn; try done; exfalso; eapply into_nil; try exact Hin'; apply Hdyn.
    + rewrite lookup_insert_ne by done. eauto.
  - assert (p <> e) as Hpe by (intros ->; apply (Hp _ He); unfold live; by rewrite Hst).
    intros x evx [[<- <-]|[Hne Hx]]%lookup_insert_Some Hl.
    + destruct (Hlv _ _ He) as (l & Hv & Hf & Ho); [unfold live; by rewrite Hst|]. exists l.
      rewrite (ss_visit _ _ Hss), (ss_kind _ _ Hss), (ss_post _ _ Hss). split_and!; [done| |done].
      rewrite <- Hf. symmetry. by apply (from_cons_ne _ _ p e), not_eq_sym.
    + destruct (Hlv _ _ Hx Hl) as (l & Hv & Hf & Ho). exists l. split_and!; [done| |done].
      rewrite <- Hf. symmetry. apply (from_cons_ne _ _ p e); [done|]. intros ->. by eapply Hp.
Qed.

(** The state of an event without undelivered dependences moves on. *)
Lemma inv_set_state G items items' q q' cur w e ev s :
  weave_inv G items q cur w -> w_events w !! e = Some ev -> te_state ev <> EV_NONE ->
  live ev -> ev_dyn G items' e (te_set_state s ev) ->
  (items' = items /\ te_state ev <> EV_QUEUED \/ items' = delete e items) ->
  pq_inv PQ_BLOCKS items' q' -> pq_curBlock q' <= cur / 64 ->
  weave_inv G items' q' cur
    (w_set_domains [mkDom q' cur] (w_set_events (<[e := te_set_state s ev]> (w_events w)) w)).
Proof.
  intros Hw He Hst Hl Hdyn Hit Hq Hb.
  assert (forall x, x <> e -> items' !! x = items !! x) as Hother.
  { intros x Hx. destruct Hit as [[-> _]| ->]; [done|]. by apply lookup_delete_ne. }
  assert (items' !! e = None) as Hnone.
  { destruct Hit as [[-> Hnq]| ->]; [by eapply items_none|apply lookup_delete_eq]. }
  destruct Hw as [Hd Hpq Hbl Hcu Hfb Hin Hsz Hi Hstat Hdy Hed Hlv].
  split; simpl; [done|done|done|done|done|done|by erewrite size_insert_same|..].
  - intros x c Hx. destruct (decide (x = e)) as [->|Hne]; [congruence|].
    rewrite Hother in Hx by done. rewrite lookup_insert_ne by done. eauto.
  - intros x evx [[<- <-]|[Hne Hx]]%lookup_insert_Some; [|by apply (ev_static_world w), Hstat].
    eapply (ev_static_same w); [|done|done|by apply Hstat]. done.
  - intros x evx [[<- <-]|[Hne Hx]]%lookup_insert_Some; [done|].
    eapply ev_dyn_frame; [done|by apply Hother, not_eq_sym|by apply Hdy].
  - intros p' x Hin'. destruct (Hed p' x Hin') as (Hdep & evx & Hx & Hxs & Hle). split; [done|].
    rewrite lookup_insert_ne; [by eauto|]. intros ->. congruence.
  - intros x evx [[<- <-]|[Hne Hx]]%lookup_insert_Some Hlx; [|by apply Hlv].
    by destruct (Hlv _ _ He Hl) as (l & ? & ? & ?); exists l.
Qed.

Lemma inv_free G items q cur w e ev :
  weave_inv G items q cur w -> w_events w !! e = Some ev -> ~ live ev ->
  weave_inv G items q cur (w_set_events (delete e (w_events w)) w).
Proof.
  intros Hw He Hl. assert (te_state ev = EV_DONE) as Hs by (destruct (decide (te_state ev = EV_DONE)); [done|by destruct Hl]).
  destruct Hw as [Hd Hpq Hbl Hcu Hfb Hin Hsz Hi Hstat Hdy Hed Hlv].
  pose proof (Hdy _ _ He) as Hdone. unfold ev_dyn in Hdone. rewrite Hs in Hdone.
  split; simpl; try done.
  - pose proof (map_size_delete_Some e (w_events w) ltac:(eauto)). lia.
  - intros x c Hx. destruct (Hi x c Hx) as (? & evx & Hx' & ?). split; [done|]. exists evx. split; [|done].
    rewrite lookup_delete_ne; [done|]. intros ->. congruence.
  - intros x evx [Hne Hx]%lookup_delete_Some. by apply (ev_static_world w), Hstat.
  - intros x evx [Hne Hx]%lookup_delete_Some. by apply Hdy.
  - intros p x Hin'. destruct (Hed p x Hin') as (? & evx & Hx & Hxs & ?). split; [done|].
    exists evx. rewrite lookup_delete_ne; [done|]. intros ->. by eapply into_nil.
  - intros x evx [Hne Hx]%lookup_delete_Some. by apply Hlv.
Qed.

(** Between two events of the queue no event is running or finished. *)
Definition busy (ev : TimingEvent) : Prop := te_state ev = EV_RUNNING \/ te_state ev = EV_DONE.

(** ** Deliveries

    What a delivery from [s] may change: events of [X] and delay events
    finish, others stay; events that have finished keep their undelivered
    dependences, except [s]. *)
Record frame (X : nat -> Prop) (s : nat) (cur : Z) (G : list (nat * nat)) (items : gmap nat Z) (w : World)
    (G' : list (nat * nat)) (items' : gmap nat Z) (w' : World) : Prop := {
  fr_env : w' = w_set_domains (w_domains w') (w_set_events (w_events w') w);
  fr_kind : forall x ev', w_events w' !! x = Some ev' ->
    exists ev, w_events w !! x = Some ev /\ te_kind ev' = te_kind ev;
  fr_done : forall x ev, w_events w !! x = Some ev -> ~ live ev ->
    w_events w' !! x = Some ev /\ (x <> s -> from G' x ≡ₚ from G x);
  fr_keep : forall x ev, ~ X x -> w_events w !! x = Some ev -> te_kind ev <> DelayEvent ->
    is_Some (w_events w' !! x);
  fr_edge : forall p x, (p, x) ∈ G' -> (p, x) ∈ G /\
    forall ev, w_events w !! p = Some ev -> live ev -> exists ev', w_events w' !! p = Some ev' /\ live ev';
  fr_items : forall x c, items' !! x = Some c -> items !! x = Some c \/ cur <= c;
  fr_busy : forall x ev', w_events w' !! x = Some ev' -> busy ev' -> X x \/ w_events w !! x = Some ev'
}.

(** Deliveries of one source in sequence. *)
Lemma frame_trans X s cur G items w G1 items1 w1 G2 items2 w2 :
  frame X s cur G items w G1 items1 w1 -> frame X s cur G1 items1 w1 G2 items2 w2 ->
  frame X s cur G items w G2 items2 w2.
Proof.
  intros [E1 K1 D1 P1 A1 I1 B1] [E2 K2 D2 P2 A2 I2 B2]. split.
  - rewrite E2, E1. done.
  - intros x ev' Hx. destruct (K2 _ _ Hx) as (ev1 & Hx1 & ->). by apply K1.
  - intros x ev Hx Hl. destruct (D1 _ _ Hx Hl) as [Hx1 HG1]. destruct (D2 _ _ Hx1 Hl) as [Hx2 HG2].
    split; [done|]. intros Hne. by rewrite HG2, HG1.
  - intros x ev HX Hx Hk. destruct (P1 x ev HX Hx Hk) as [ev1 Hx1].
    destruct (K1 _ _ Hx1) as (ev0 & ? & Hk1). simplify_eq. eapply P2; [done|done|]. by rewrite Hk1.
  - intros p x Hin. destruct (A2 _ _ Hin) as [Hin1 L2]. destruct (A1 _ _ Hin1) as [Hin0 L1].
    split; [done|]. intros ev Hp Hl. destruct (L1 ev Hp Hl) as (ev1 & Hp1 & Hl1). eauto.
  - intros x c Hx. destruct (I2 _ _ Hx) as [Hx1|]; [|by right]. by apply I1.
  - intros x ev' Hx Hb. destruct (B2 _ _ Hx Hb) as [?|Hx1]; [by left|]. by apply B1.
Qed.

Lemma frame_refl X s cur G items w : frame X s cur G items w G items w.
Proof. split; try naive_solver. by destruct w. Qed.

(** The first part of a delivery: the receiver records it. *)
Lemma frame_deliver X s cur G G' items items' w w' e ev ev' q' :
  w_events w !! e = Some ev -> live ev -> live ev' -> te_kind ev' = te_kind ev -> G ≡ₚ (s, e) :: G' ->
  (X e \/ ~ busy ev') ->
  w' = w_set_domains [mkDom q' cur] (w_set_events (<[e := ev']> (w_events w)) w) ->
  (items' = items \/ items' = <[e := start e]> items /\ cur <= start e) ->
  frame X s cur G items w G' items' w'.
Proof.
  intros He Hl Hl' Hk HG Hbusy -> Hit. split; simpl; [done|..].
  - intros x evx [[<- <-]|[Hne Hx]]%lookup_insert_Some; eauto.
  - intros x evx Hx Hd. split; [rewrite lookup_insert_ne; [done|]; intros ->; by simplify_eq|].
    intros Hne. symmetry. by apply (from_cons_ne _ _ s e).
  - intros x evx HX Hx Hkx. apply lookup_insert_is_Some'. eauto.
  - intros p x Hin. split; [rewrite HG; by right|]. intros evp Hp Hlp.
    destruct (decide (p = e)) as [->|]; [exists ev'; by rewrite lookup_insert_eq|].
    exists evp. by rewrite lookup_insert_ne.
  - intros x c. destruct Hit as [->|[-> Hc]]; [by left|].
    intros [[<- <-]|[? ?]]%lookup_insert_Some; [by right|by left].
  - intros x evx [[<- <-]|[? ?]]%lookup_insert_Some Hb; [|by right]. destruct Hbusy; [by left|done].
Qed.

(** The specification of [done]: the event and the delay events below it
    finish, and all their dependences are delivered. *)
Definition done_spec (fuel : nat) : Prop :=
  forall e ev G items q cur w,
    weave_inv G items q cur w -> w_events w !! e = Some ev -> te_state ev = EV_RUNNING ->
    (depth e < fuel)%nat -> cur <= start e ->
    wp (te_done fuel e (u64 (start e + lat_of (te_kind ev))))
      (fun _ w' => exists G' items' q', weave_inv G' items' q' cur w' /\
         frame (fun x => x = e) e cur G items w G' items' w' /\ w_events w' !! e = None) w.

(** What is known of a receiver. *)
Lemma receiver_ok G G' items q cur w p e :
  weave_inv G items q cur w -> G ≡ₚ (p, e) :: G' ->
  exists ev, w_events w !! e = Some ev /\ te_state ev = EV_NONE /\ ev_static w e ev /\
    out p + te_preDelay ev <= start e /\ 0 <= te_cycle ev /\ te_cycle ev + te_preDelay ev <= start e /\
    te_numParents ev = Z.of_nat (length (into G' e)) + 1 /\ te_numParents ev < 2 ^ 32 /\ (depth e < depth p)%nat /\
    (te_cycle ev + te_preDelay ev = start e \/ out p + te_preDelay ev = start e \/
     exists p', (p', e) ∈ G' /\ out p' + te_preDelay ev = start e).
Proof.
  intros Hw HG. assert ((p, e) ∈ G) as Hin by (rewrite HG; left).
  destruct (wi_edge _ _ _ _ _ Hw _ _ Hin) as (Hdep & ev & He & Hst & Hle). exists ev.
  pose proof (wi_dyn _ _ _ _ _ Hw _ _ He) as Hdyn. unfold ev_dyn in Hdyn. rewrite Hst in Hdyn.
  destruct Hdyn as (Hn & _ & Hlt & Hc & Hcle & Hatt).
  pose proof (into_cons_eq _ _ _ _ HG) as Hinto.
  split_and!; try done.
  - by apply (wi_static _ _ _ _ _ Hw).
  - rewrite Hn, Hinto. simpl. lia.
  - destruct Hatt as [?|(p' & Hp' & ?)]; [by left|]. right. rewrite HG in Hp'.
    apply elem_of_cons in Hp' as [E|Hp']; [simplify_eq; by left|]. right. eauto.
Qed.

Lemma te_static_fields s n c ev : same_static ev (te_set_state s (te_set_parents n (te_set_cycle c ev))).
Proof. by destruct ev. Qed.

(** After the last delivery the receiver starts at its critical-path cycle. *)
Lemma last_delivery G' p e ev :
  into G' e = [] -> out p + te_preDelay ev <= start e -> te_cycle ev + te_preDelay ev <= start e ->
  (te_cycle ev + te_preDelay ev = start e \/ out p + te_preDelay ev = start e \/
     exists p', (p', e) ∈ G' /\ out p' + te_preDelay ev = start e) ->
  Z.max (te_cycle ev) (out p) + te_preDelay ev = start e.
Proof.
  intros Hnil H1 H2 [?|[?|(p' & Hp' & _)]]; [lia|lia|]. exfalso. by eapply into_nil.
Qed.

Lemma not_last_dyn G' items p e ev ev' n :
  into G' e <> [] -> te_state ev = EV_NONE -> out p + te_preDelay ev <= start e -> 0 <= te_cycle ev ->
  te_cycle ev + te_preDelay ev <= start e -> n = Z.of_nat (length (into G' e)) -> n < 2 ^ 32 ->
  (te_cycle ev + te_preDelay ev = start e \/ out p + te_preDelay ev = start e \/
     exists p', (p', e) ∈ G' /\ out p' + te_preDelay ev = start e) ->
  ev' = te_set_parents n (te_set_cycle (Z.max (te_cycle ev) (out p)) ev) -> ev_dyn G' items e ev'.
Proof.
  intros Hne Hst H1 H2 H3 Hn Hlt Hatt ->. unfold ev_dyn. simpl. rewrite Hst. split_and!; try done; [lia|lia|].
  destruct Hatt as [?|[?|?]]; [left; lia|left; lia|by right].
Qed.

(** A delivery that makes a delay event finish. *)
Lemma frame_nested s cur G items w G1 items1 w1 G2 items2 w2 e ev ev1 :
  frame (fun x => x = e) s cur G items w G1 items1 w1 -> frame (fun x => x = e) e cur G1 items1 w1 G2 items2 w2 ->
  w_events w !! e = Some ev -> live ev -> te_kind ev = DelayEvent ->
  w_events w1 !! e = Some ev1 -> live ev1 -> w_events w2 !! e = None ->
  frame (fun _ => False) s cur G items w G2 items2 w2.
Proof.
  intros [E1 K1 D1 P1 A1 I1 B1] [E2 K2 D2 P2 A2 I2 B2] He Hl Hk He1 Hl1 He2. split.
  - rewrite E2, E1. done.
  - intros x ev' Hx. destruct (K2 _ _ Hx) as (ev2 & Hx1 & ->). by apply K1.
  - intros x evx Hx Hlx. destruct (D1 _ _ Hx Hlx) as [Hx1 HG1]. destruct (D2 _ _ Hx1 Hlx) as [Hx2 HG2].
    split; [done|]. intros Hne. rewrite HG2; [by apply HG1|]. intros ->. by simplify_eq.
  - intros x evx _ Hx Hkx. assert (x <> e) as Hne by congruence.
    destruct (P1 x evx Hne Hx Hkx) as [ev2 Hx1].
    destruct (K1 _ _ Hx1) as (ev0 & ? & Hk1). simplify_eq. eapply P2; [done|done|by rewrite Hk1].
  - intros p x Hin. destruct (A2 _ _ Hin) as [Hin1 L2]. destruct (A1 _ _ Hin1) as [Hin0 L1].
    split; [done|]. intros evp Hp Hlp. destruct (L1 evp Hp Hlp) as (ev2 & Hp1 & Hl2). eauto.
  - intros x c Hx. destruct (I2 _ _ Hx) as [Hx1|]; [|by right]. by apply I1.
  - intros x ev' Hx Hb. right. destruct (B2 _ _ Hx Hb) as [->|Hx1]; [congruence|].
    destruct (B1 _ _ Hx1 Hb) as [->|]; [congruence|done].
Qed.

(** One delivery. *)
Definition delivered (p : nat) (cur : Z) (G G' : list (nat * nat)) (items : gmap nat Z) (w w' : World) : Prop :=
  exists G2 items' q', weave_inv G2 items' q' cur w' /\
    frame (fun _ => False) p cur G items w G2 items' w' /\ from G2 p ≡ₚ from G' p.

(** The receiver is no delay event: it is queued after the last delivery. *)
Lemma deliver_queued G G' items q cur w p e ev :
  weave_inv G items q cur w -> G ≡ₚ (p, e) :: G' -> (forall evp, w_events w !! p = Some evp -> ~ live evp) ->
  cur <= out p -> w_events w !! e = Some ev -> te_state ev = EV_NONE -> te_kind ev <> DelayEvent ->
  into G' e = [] -> Z.max (te_cycle ev) (out p) + te_preDelay ev = start e ->
  wp (csim_enqueue e (start e)) (fun _ w' => delivered p cur G G' items w w')
    (w_set_events (<[e := te_set_state EV_QUEUED (te_set_parents 0 (te_set_cycle (Z.max (te_cycle ev) (out p)) ev))]> (w_events w)) w).
Proof.
  intros Hw HG Hp Hcur He Hst Hk Hnil Hstart.
  pose proof (wi_static _ _ _ _ _ Hw _ _ He) as [Hd Hpre Hpost Hlat Hs]. unfold in_u32 in *.
  set (ev1 := te_set_state EV_QUEUED _).
  pose proof (items_none _ _ _ _ _ _ _ Hw He ltac:(by rewrite Hst)) as Hnone.
  pose proof (wi_cur _ _ _ _ _ Hw). pose proof (wi_bound _ _ _ _ _ Hw).
  eapply wp_mono; [apply (csim_enqueue_ok e ev1 (start e) items q cur); simpl; try done; try apply Hw|].
  - by rewrite lookup_insert_eq.
  - unfold far_bound in *. simpl. lia.
  - lia.
  - by eapply items_size.
  - intros [] w' (q' & Hq' & Hb & ->). rewrite w_set_events_twice. simpl w_events. rewrite insert_insert_eq.
    exists G', (<[e := start e]> items), q'. split_and!; [|..|done].
    + eapply (inv_deliver _ _ _ _ _ _ _ _ p e ev (te_set_priv (start e) ev1)); try done.
      * unfold ev_dyn. simpl. rewrite lookup_insert_eq. done.
      * by right.
      * rewrite Hb. apply Hw.
    + eapply (frame_deliver _ _ _ _ _ _ _ _ _ e ev (te_set_priv (start e) ev1)); [done|..|right; split; [done|lia]]; try done;
        [unfold live; by rewrite Hst|right; by intros [|]].
Qed.

(** The receiver waits for more. *)
Lemma deliver_wait G G' items q cur w p e ev evp :
  weave_inv G items q cur w -> G ≡ₚ (p, e) :: G' -> w_events w !! p = Some evp -> ~ live evp ->
  w_events w !! e = Some ev -> 0 <= cur <= out p -> into G' e <> [] ->
  delivered p cur G G' items w
    (w_set_events (<[e := te_set_parents (te_numParents ev - 1) (te_set_cycle (Z.max (te_cycle ev) (out p)) ev)]>
       (w_events w)) w).
Proof.
  intros Hw HG Hevp Hdead He Hcur Hne.
  destruct (receiver_ok _ _ _ _ _ _ _ _ Hw HG) as
    (ev' & He' & Hst & Hstat & Hle & Hc0 & Hcle & Hn & Hlt & Hdpt & Hatt). simplify_eq.
  assert (forall evp, w_events w !! p = Some evp -> ~ live evp) as Hp by (intros; by simplify_eq).
  pose proof Hstat as [Hd Hpre Hpost Hlat Hs]. unfold in_u32 in *.
  pose proof (wi_bound _ _ _ _ _ Hw) as Hfb. pose proof (wi_cur _ _ _ _ _ Hw).
  assert (live ev) as Hlive by (unfold live; by rewrite Hst).
  exists G', items, q. set (ev1 := te_set_parents _ _).
  replace (w_set_events _ w) with (w_set_domains [mkDom q cur] (w_set_events (<[e := ev1]> (w_events w)) w))
    by (rewrite <- (wi_domains _ _ _ _ _ Hw); by destruct w).
  split_and!; [|..|done].
  - eapply (inv_deliver _ _ _ _ _ _ _ _ p e ev ev1); try done; [|by left|apply Hw|apply Hw].
    eapply (not_last_dyn _ _ p e ev _ (te_numParents ev - 1)); try done; lia.
  - eapply (frame_deliver _ _ _ _ _ _ _ _ _ e ev ev1); try done; [|by left].
    right. unfold busy. simpl. rewrite Hst. by intros [|].
Qed.

Lemma parentDone_ok fuel G G' items q cur w p e evp :
  done_spec fuel -> weave_inv G items q cur w -> G ≡ₚ (p, e) :: G' ->
  w_events w !! p = Some evp -> ~ live evp -> (depth p <= fuel)%nat -> 0 <= cur <= out p ->
  wp (parentDone (te_done fuel) e (out p)) (fun _ w' => delivered p cur G G' items w w') w.
Proof.
  intros Hdone Hw HG Hevp Hdead Hdep Hcur.
  destruct (receiver_ok _ _ _ _ _ _ _ _ Hw HG) as
    (ev & He & Hst & Hstat & Hle & Hc0 & Hcle & Hn & Hlt & Hdpt & Hatt).
  assert (forall evp, w_events w !! p = Some evp -> ~ live evp) as Hp by (intros; by simplify_eq).
  pose proof Hstat as [Hd Hpre Hpost Hlat Hs]. unfold in_u32 in *.
  pose proof (wi_bound _ _ _ _ _ Hw) as Hfb. pose proof (wi_cur _ _ _ _ _ Hw).
  assert (live ev) as Hlive by (unfold live; by rewrite Hst).
  unfold parentDone. wp_step. eapply wp_get_event; [done|]. cbv zeta.
  set (cyc := Z.max (te_cycle ev) (out p)).
  assert (into G' e <> [] -> delivered p cur G G' items w
    (w_set_events (<[e := te_set_parents (te_numParents ev - 1) (te_set_cycle cyc ev)]> (w_events w)) w)) as Hwait
    by (by apply (deliver_wait G G' items q cur w p e ev evp)).
  assert ((te_numParents ev - 1 =? 0) = true -> into G' e = []) as Hlast.
  { intros E. apply nil_length_inv. lia. }
  assert ((te_numParents ev - 1 =? 0) = false -> into G' e <> []) as Hmore.
  { intros E Hnil. rewrite Hnil in Hn. simpl in Hn. lia. }
  destruct (decide (te_kind ev = DelayEvent)) as [Hk|Hk].
  - rewrite Hk. rewrite (u32_id (te_numParents ev - 1)) by (unfold in_u32; lia). wp_step. apply wp_put_event.
    simpl te_numParents. wp_step; intros E; [|by apply Hwait, Hmore].
    specialize (Hlast E). pose proof (last_delivery _ _ _ _ Hlast Hle Hcle Hatt) as Hstart. fold cyc in Hstart.
    wp_step. apply wp_put_event. simpl te_preDelay. rewrite Hstart. rewrite w_set_events_twice. simpl w_events. rewrite insert_insert_eq.
    set (ev1 := te_set_state EV_RUNNING _).
    set (w1 := w_set_events (<[e := ev1]> (w_events w)) w).
    assert (w1 = w_set_domains [mkDom q cur] (w_set_events (<[e := ev1]> (w_events w)) w)) as Hw1.
    { rewrite <- (wi_domains _ _ _ _ _ Hw). by destruct w. }
    assert (weave_inv G' items q cur w1) as Hinv1.
    { rewrite Hw1. eapply (inv_deliver _ _ _ _ _ _ _ _ p e ev ev1); try done; [|by left|apply Hw|apply Hw].
      unfold ev_dyn. simpl. split; [lia|done]. }
    assert (frame (fun x => x = e) p cur G items w G' items w1) as Hfr1.
    { eapply (frame_deliver _ _ _ _ _ _ _ _ _ e ev ev1); try done; by left. }
    assert (w_events w1 !! e = Some ev1) as He1 by (simpl; apply lookup_insert_eq).
    pose proof (Hdone e ev1 G' items q cur w1 Hinv1 He1 eq_refl ltac:(lia) ltac:(lia)) as Hwp.
    replace (lat_of (te_kind ev1)) with 0 in Hwp by (simpl; by rewrite Hk). rewrite Z.add_0_r in Hwp.
    eapply wp_mono; [exact Hwp|]. intros [] w2 (G2 & items2 & q2 & Hinv2 & Hfr2 & Hnone2).
    exists G2, items2, q2. split_and!; [done|by eapply frame_nested|].
    destruct (fr_done _ _ _ _ _ _ _ _ _ Hfr1 p evp Hevp Hdead) as [Hevp1 _].
    apply (fr_done _ _ _ _ _ _ _ _ _ Hfr2 p evp Hevp1 Hdead). intros ->. apply Hdead. by replace evp with ev by congruence.
  - assert (wp (assert_ "timing_event.cpp:36" (negb (te_numParents ev =? 0)) ;;
      put_event e (te_set_parents (te_numParents ev - 1) (te_set_cycle cyc ev)) ;;
      when (te_numParents ev - 1 =? 0)
        (assert_ "timing_event.cpp:39" (event_state_in [EV_NONE] (te_set_parents (te_numParents ev - 1) (te_set_cycle cyc ev))) ;;
         put_event e (te_set_state EV_QUEUED (te_set_parents (te_numParents ev - 1) (te_set_cycle cyc ev))) ;;
         csim_enqueue e (u64 (cyc + te_preDelay ev))))
      (fun _ w' => delivered p cur G G' items w w') w) as Hgoal; [|by destruct (te_kind ev)].
    do 2 wp_step; [lia|]. wp_step. apply wp_put_event. wp_step; intros E; [|by apply Hwait, Hmore].
    specialize (Hlast E). pose proof (last_delivery _ _ _ _ Hlast Hle Hcle Hatt) as Hstart. fold cyc in Hstart.
    do 2 wp_step; [unfold event_state_in; apply bool_decide_eq_true; simpl; rewrite Hst; left|].
    wp_step. apply wp_put_event. rewrite w_set_events_twice. simpl w_events. rewrite insert_insert_eq, Hstart.
    rewrite u64_id by (unfold in_u64; lia). replace (te_numParents ev - 1) with 0 by lia.
    eapply deliver_queued; try done. lia.
Qed.

(** All the dependences of a finished event are delivered. *)
Lemma deliver_all fuel l : forall G items q cur w p evp,
  done_spec fuel -> weave_inv G items q cur w -> from G p ≡ₚ pair p <$> l ->
  w_events w !! p = Some evp -> ~ live evp -> (depth p <= fuel)%nat -> 0 <= cur <= out p ->
  wp (forM l (fun c => parentDone (te_done fuel) c (out p)))
    (fun _ w' => exists G' items' q', weave_inv G' items' q' cur w' /\
       frame (fun _ => False) p cur G items w G' items' w' /\ from G' p = []) w.
Proof.
  induction l as [|e l IH]; intros G items q cur w p evp Hdone Hw Hfrom Hp Hdead Hdep Hcur; simpl.
  { apply wp_ret. exists G, items, q. split_and!; [done|apply frame_refl|by apply Permutation_nil_r]. }
  assert ((p, e) ∈ G) as Hin.
  { apply (elem_of_from G p e p). rewrite Hfrom. left. }
  apply elem_of_Permutation in Hin as [G' HG].
  pose proof (from_cons_eq _ _ _ _ HG) as Hf. rewrite Hfrom in Hf. simpl in Hf.
  apply Permutation_cons_inv in Hf.
  wp_step. eapply wp_mono; [by eapply parentDone_ok|].
  intros [] w1 (G1 & items1 & q1 & Hw1 & Hfr1 & Hf1).
  destruct (fr_done _ _ _ _ _ _ _ _ _ Hfr1 p evp Hp Hdead) as [Hp1 _].
  eapply wp_mono; [eapply (IH G1 items1 q1 cur w1 p evp); try done; by rewrite Hf1, Hf|].
  intros [] w2 (G2 & items2 & q2 & Hw2 & Hfr2 & Hnil). exists G2, items2, q2.
  split_and!; [done| |done]. by eapply frame_trans.
Qed.

(** From the running event to the freed one. *)
Lemma frame_finish e ev cur G items w G2 items2 w2 :
  w_events w !! e = Some ev -> te_state ev = EV_RUNNING ->
  frame (fun _ => False) e cur G items (w_set_events (<[e := te_set_state EV_DONE ev]> (w_events w)) w)
    G2 items2 w2 ->
  from G2 e = [] ->
  frame (fun x => x = e) e cur G items w G2 items2 (w_set_events (delete e (w_events w2)) w2).
Proof.
  intros He Hst [E K D P A I Bz] Hnil. split; simpl in *.
  - rewrite E. done.
  - intros x ev' [Hne Hx]%lookup_delete_Some. destruct (K _ _ Hx) as (ev1 & Hx1 & Hk).
    rewrite lookup_insert_ne in Hx1 by done. eauto.
  - intros x evx Hx Hd. assert (x <> e) as Hne.
    { intros ->. apply Hd. unfold live. simplify_eq. congruence. }
    destruct (D x evx) as [Hx2 HG2]; [by rewrite lookup_insert_ne|done|].
    rewrite lookup_delete_ne by done. eauto.
  - intros x evx Hne Hx Hk. rewrite lookup_delete_ne by done. eapply P; [tauto| |done].
    by rewrite lookup_insert_ne.
  - intros p x Hin. destruct (A p x Hin) as [Hin0 L]. split; [done|]. intros evp Hp Hl.
    assert (p <> e) as Hne.
    { intros ->. assert ((e, x) ∈ from G2 e) as Hin2 by by apply elem_of_from.
      rewrite Hnil in Hin2. by apply not_elem_of_nil in Hin2. }
    rewrite lookup_delete_ne by done. apply (L evp); [by rewrite lookup_insert_ne|done].
  - done.
  - intros x ev' [Hne Hx]%lookup_delete_Some Hb. right. destruct (Bz _ _ Hx Hb) as [[]|Hx1].
    by rewrite lookup_insert_ne in Hx1.
Qed.

Lemma te_done_ok fuel : done_spec fuel.
Proof.
  induction fuel as [|fuel IH]; intros e ev G items q cur w Hw He Hst Hdep Hcur; [lia|].
  pose proof (wi_static _ _ _ _ _ Hw _ _ He) as [Hd Hpre Hpost Hlat Hs]. unfold in_u32 in *.
  pose proof (wi_bound _ _ _ _ _ Hw). pose proof (wi_cur _ _ _ _ _ Hw).
  assert (live ev) as Hlive by (unfold live; by rewrite Hst).
  destruct (wi_live _ _ _ _ _ Hw _ _ He Hlive) as (l & Hv & Hfrom & Hout).
  pose proof (wi_dyn _ _ _ _ _ Hw _ _ He) as Hdyn. unfold ev_dyn in Hdyn. rewrite Hst in Hdyn.
  simpl. wp_step. eapply wp_get_event; [done|].
  do 2 wp_step; [unfold event_state_in; rewrite Hst; done|]. wp_step. apply wp_put_event.
  wp_step. eapply wp_lift; [exact Hv|]. wp_step.
  set (w1 := w_set_events _ w). set (ev1 := te_set_state EV_DONE ev) in *.
  assert (w1 = w_set_domains [mkDom q cur] (w_set_events (<[e := ev1]> (w_events w)) w)) as Hw1.
  { rewrite <- (wi_domains _ _ _ _ _ Hw). by destruct w. }
  assert (weave_inv G items q cur w1) as Hinv1.
  { rewrite Hw1. eapply (inv_set_state G items items q q cur w e ev EV_DONE);
      [done|done|by rewrite Hst|done|apply Hdyn|left; by rewrite Hst|apply Hw|apply Hw]. }
  rewrite (u64_id (start e + _)) by (unfold in_u64; lia).
  replace (u64 (start e + lat_of (te_kind ev) + te_postDelay ev)) with (out e)
    by (rewrite u64_id; unfold in_u64; lia).
  eapply wp_mono; [apply (deliver_all fuel l G items q cur w1 e ev1); try done; [simpl; by rewrite lookup_insert_eq|by intros Hl; apply Hl|lia|lia]|].
  intros [] w2 (G2 & items2 & q2 & Hw2 & Hfr2 & Hnil). unfold freeEvent. wp_step.
  destruct (fr_done _ _ _ _ _ _ _ _ _ Hfr2 e ev1) as [He2 _]; [simpl; by rewrite lookup_insert_eq|by intros Hl; apply Hl|].
  exists G2, items2, q2. split_and!.
  - eapply inv_free; [done|exact He2|by intros Hl; apply Hl].
  - by eapply frame_finish.
  - simpl. apply lookup_delete_eq.
Qed.
End Weave.
