(* ===== verification/WeavePhase.v ===== *)
(** * A phase of the weave simulation

    One simulation thread with one domain: the loop of
    [ContentionSim::simulatePhaseThread] dequeues and runs events until the
    first one of the queue is past the limit of the phase. *)

From stdpp Require Import base list gmap strings sorting.
From Stdlib Require Import ZArith Lia.
From S2P Require Import Prelude Numeric PrioQueue PrioQueueSpec WeaveEvents WeaveSim WeaveProofs.
Local Open Scope Z_scope.

Section Phase.
Context (start out : nat -> Z) (depth : nat -> nat).
Local Abbreviation weave_inv := (weave_inv start out depth).

(** Every undelivered dependence comes from an event that has yet to run. *)
Definition closed (G : list (nat * nat)) (w : World) : Prop :=
  forall p x, (p, x) ∈ G -> exists ev, w_events w !! p = Some ev /\ live ev.

Definition quiet (w : World) : Prop := forall e ev, w_events w !! e = Some ev -> ~ busy ev.

(** The recorder of a core has its last event outside the phase, unless the
    core is draining. *)
Definition cores_ok (limit : Z) (w : World) : Prop :=
  forall e ev core orig, w_events w !! e = Some ev -> te_kind ev = TimingCoreEvent core orig ->
    exists cr, w_cores w !! core = Some cr /\
      (cr_prevRespEvent cr = Some e -> cr_state cr = DRAINING \/ limit <= start e).

Lemma inv_cores G items q cur w cs :
  weave_inv G items q cur w -> weave_inv G items q cur (w_set_cores cs w).
Proof.
  intros []. split; try done. intros e ev He. by apply (ev_static_world start w), wi_static.
Qed.

Lemma inv_log G items q cur w l :
  weave_inv G items q cur w -> weave_inv G items q cur (w_set_log l w).
Proof.
  intros []. split; try done. intros e ev He. by apply (ev_static_world start w), wi_static.
Qed.

Lemma inv_cur G items q q' cur cur' w :
  weave_inv G items q cur w -> w_lastLimit w <= cur' -> pq_inv PQ_BLOCKS items q' ->
  pq_curBlock q' <= cur' / 64 -> weave_inv G items q' cur' (w_set_domains [mkDom q' cur'] w).
Proof.
  intros [] Hl Hq' Hb. split; try done; simpl; [lia|].
  intros e ev He. by apply (ev_static_world start w), wi_static.
Qed.

(** ** Running one event *)

Lemma report_ok limit core e c orig ev w :
  cores_ok limit w -> w_events w !! e = Some ev -> te_kind ev = TimingCoreEvent core orig ->
  start e < limit ->
  wp (reportEventSimulated core e c orig)
    (fun _ w' => exists cs, w' = w_set_cores cs w /\ cores_ok limit w') w.
Proof.
  intros Hco He Hk Hlt. destruct (Hco _ _ _ _ He Hk) as (cr & Hcr & Hdr).
  unfold reportEventSimulated. do 3 wp_step. eapply wp_lift; [by apply at_ok|]. cbv zeta.
  do 2 wp_step.
  { destruct (decide (cr_prevRespEvent cr = Some e)) as [Hp|Hp]; [|by rewrite (bool_decide_false _ Hp)].
    destruct (Hdr Hp) as [Hd|]; [|lia]. rewrite (bool_decide_true _ Hd). by rewrite orb_true_r. }
  wp_step. eapply wp_lift; [apply set_at_ok; by eapply lookup_lt_Some|]. wp_step. eexists. split; [done|].
  intros x evx core' orig' Hx Hkx. simpl in Hx. destruct (Hco _ _ _ _ Hx Hkx) as (cr' & Hcr' & Hdr'). simpl.
  destruct (decide (core' = core)) as [->|Hne]; [|rewrite list_lookup_insert_ne by done; eauto].
  simplify_eq. eexists. split; [apply list_lookup_insert_eq; by eapply lookup_lt_Some|]. simpl.
  destruct (bool_decide _); [done|exact Hdr'].
Qed.

(** The event at the head of the queue runs and finishes. *)
Lemma te_run_ok limit fuel e ev G items q q' c w :
  weave_inv G items q c w -> items !! e = Some c -> w_events w !! e = Some ev ->
  pq_inv PQ_BLOCKS (delete e items) q' -> pq_curBlock q' <= c / 64 ->
  cores_ok limit w -> c < limit -> (depth e < fuel)%nat ->
  wp (te_run fuel e c)
    (fun _ w' => exists G' items' q2 cs, weave_inv G' items' q2 c w' /\ cores_ok limit w' /\
       frame (fun x => x = e) e c G (delete e items)
         (w_set_cores cs (w_set_domains [mkDom q' c]
            (w_set_events (<[e := te_set_state EV_RUNNING ev]> (w_events w)) w))) G' items' w' /\
       w_events w' !! e = None)
    (w_set_domains [mkDom q' c] w).
Proof.
  intros Hw Hi He Hq' Hb Hco Hlt Hdep.
  destruct (wi_items _ _ _ _ _ _ _ _ Hw _ _ Hi) as (Hc & ev' & ? & Hst). simplify_eq.
  pose proof (wi_dyn _ _ _ _ _ _ _ _ Hw _ _ He) as Hdyn. unfold ev_dyn in Hdyn. rewrite Hst in Hdyn.
  destruct Hdyn as (Hn & Hinto & _ & Hk).
  pose proof (wi_static _ _ _ _ _ _ _ _ Hw _ _ He) as [Hd Hpre Hpost Hlat Hs]. unfold in_u32 in *.
  pose proof (wi_bound _ _ _ _ _ _ _ _ Hw). pose proof (wi_cur _ _ _ _ _ _ _ _ Hw).
  unfold te_run. wp_step. eapply wp_get_event; [done|].
  do 2 wp_step; [unfold event_state_in; by rewrite Hst|]. wp_step. apply wp_put_event.
  set (ev1 := te_set_state EV_RUNNING ev).
  set (w1 := w_set_domains [mkDom q' (start e)] (w_set_events (<[e := ev1]> (w_events w)) w)).
  change (w_set_events _ (w_set_domains _ w)) with w1.
  assert (weave_inv G (delete e items) q' (start e) w1) as Hw1.
  { eapply (inv_set_state start out depth G items _ q q' (start e) w e ev EV_RUNNING);
      [done|done|by rewrite Hst|unfold live; by rewrite Hst|by split|by right|done|done]. }
  assert (w_events w1 !! e = Some ev1) as He1 by apply lookup_insert_eq.
  assert (cores_ok limit w1) as Hco1.
  { intros x evx core orig Hx Hkx. simpl in Hx. apply lookup_insert_Some in Hx as [[<- <-]|[_ Hx]]; by eapply Hco. }
  assert (forall w2 cs, w2 = w_set_cores cs w1 -> cores_ok limit w2 ->
    wp (te_done fuel e (u64 (start e + lat_of (te_kind ev))))
    (fun _ w' => exists G' items' q2 cs, weave_inv G' items' q2 (start e) w' /\ cores_ok limit w' /\
       frame (fun x => x = e) e (start e) G (delete e items) (w_set_cores cs w1) G' items' w' /\
       w_events w' !! e = None) w2) as Hdone.
  { intros w2 cs -> Hco2. eapply wp_mono; [eapply (te_done_ok start out depth fuel e ev1);
      [by apply inv_cores|exact He1|done|done|done]|].
    intros [] w3 (G' & items' & q2 & Hw3 & Hfr & Hnone). exists G', items', q2, cs. split_and!; [done| |done|done].
    intros x evx core orig Hx Hkx. destruct (fr_kind _ _ _ _ _ _ _ _ _ Hfr _ _ Hx) as (ev0 & Hx0 & Hk0).
    pose proof (fr_env _ _ _ _ _ _ _ _ _ Hfr) as ->. simpl.
    apply (Hco2 x ev0 core orig Hx0). by rewrite <- Hk0. }
  unfold te_simulate. wp_step. eapply wp_get_event; [exact He1|]. simpl te_kind.
  destruct (te_kind ev) as [|core orig| |lat] eqn:Ek; [done|..]; simpl lat_of in *;
    rewrite ?Z.add_0_r in Hdone.
  - wp_step. eapply wp_mono; [eapply (report_ok limit core e (start e) orig ev1 w1); try done|].
    intros [] w2 (cs & -> & Hco2). rewrite u64_id in Hdone by (unfold in_u64; lia). by eapply Hdone.
  - rewrite u64_id in Hdone by (unfold in_u64; lia). by eapply (Hdone w1 (w_cores w1)).
  - by eapply (Hdone w1 (w_cores w1)).
Qed.

(** ** The loop *)

(** After some rounds of the phase that started in [w0]: [L] is what they
    logged. *)
Record phase_inv (limit : Z) (w0 : World) (L : list (Z * nat)) (G : list (nat * nat)) (items : gmap nat Z)
    (q : PrioQueue) (cur : Z) (w : World) : Prop := {
  pi_inv : weave_inv G items q cur w;
  pi_closed : closed G w;
  pi_quiet : quiet w;
  pi_cores : cores_ok limit w;
  pi_items : forall e c, items !! e = Some c -> cur <= c;
  pi_block : pq_curBlock q <= limit / 64;
  pi_limit : w_limit w = limit;
  pi_last : w_lastLimit w = w_lastLimit w0;
  pi_logged : w_log w = w_log w0 ++ L;
  pi_kind : forall x ev, w_events w !! x = Some ev ->
    exists ev0, w_events w0 !! x = Some ev0 /\ te_kind ev = te_kind ev0;
  pi_left : forall x ev0, w_events w0 !! x = Some ev0 -> te_kind ev0 <> DelayEvent ->
    is_Some (w_events w !! x) \/ (start x, x) ∈ L;
  pi_ran : forall c x, (c, x) ∈ L -> c = start x /\ c < limit /\ c <= cur /\ w_events w !! x = None /\
    exists ev0, w_events w0 !! x = Some ev0 /\ te_kind ev0 <> DelayEvent;
  pi_sorted : StronglySorted key_le L;
  pi_nodup : NoDup L.*2
}.

Lemma sorted_snoc (L : list (Z * nat)) x :
  StronglySorted key_le L -> (forall y, y ∈ L -> y.1 <= x.1) -> StronglySorted key_le (L ++ [x]).
Proof.
  induction 1 as [|y L HL IH Hall]; intros Hle; simpl; [repeat constructor|].
  constructor; [apply IH; intros z Hz; apply Hle; by right|].
  apply Forall_app. split; [done|]. constructor; [|done]. apply Hle. left.
Qed.

Lemma queued_head G items q cur w e c :
  weave_inv G items q cur w -> items !! e = Some c ->
  c = start e /\ exists ev, w_events w !! e = Some ev /\ te_kind ev <> DelayEvent.
Proof.
  intros Hw Hi. destruct (wi_items _ _ _ _ _ _ _ _ Hw _ _ Hi) as (-> & ev & He & Hst). split; [done|].
  exists ev. split; [done|]. pose proof (wi_dyn _ _ _ _ _ _ _ _ Hw _ _ He) as Hd.
  unfold ev_dyn in Hd. rewrite Hst in Hd. naive_solver.
Qed.

(** The log and the remaining events after one round. *)
Lemma phase_inv_step limit w0 L G items q cur w e ev c G' items' q2 cs q' w' cur' q3 :
  phase_inv limit w0 L G items q cur w -> items !! e = Some c -> w_events w !! e = Some ev ->
  is_min items c -> c < limit -> weave_inv G' items' q2 c w' -> cores_ok limit w' ->
  frame (fun x => x = e) e c G (delete e items)
         (w_set_cores cs (w_set_domains [mkDom q' c]
            (w_set_events (<[e := te_set_state EV_RUNNING ev]> (w_events w)) w))) G' items' w' ->
  w_events w' !! e = None -> c <= cur' -> (forall x c', items' !! x = Some c' -> cur' <= c') ->
  pq_inv PQ_BLOCKS items' q3 -> pq_curBlock q3 <= c / 64 ->
  phase_inv limit w0 (L ++ [(c, e)]) G' items' q3 cur'
    (w_set_log (w_log w' ++ [(c, e)]) (w_set_domains [mkDom q3 cur'] w')).
Proof.
  intros Hpi Hi He Hmin Hlt Hw' Hco Hfr Hnone Hcur Hit Hq3 Hb3.
  destruct Hpi as [Hw Hcl Hqu _ Hge Hbl Hlim Hlast Hlog Hkind Hleft Hran Hsort Hnd].
  destruct (queued_head _ _ _ _ _ _ _ Hw Hi) as (-> & ev' & He' & Hk).
  assert (ev' = ev) as -> by congruence.
  pose proof (wi_cur _ _ _ _ _ _ _ _ Hw'). destruct Hfr as [E K D P A I Bz]. simpl in *.
  assert (start e / 64 <= limit / 64) by (apply Z.div_le_mono; lia).
  assert (start e / 64 <= cur' / 64) by (apply Z.div_le_mono; lia).
  assert (forall x evx, w_events w' !! x = Some evx ->
    x <> e /\ exists ev0, w_events w !! x = Some ev0 /\ te_kind evx = te_kind ev0) as Hkeep.
  { intros x evx Hx. assert (x <> e) as Hne by congruence. split; [done|].
    destruct (K _ _ Hx) as (ev0 & Hx0 & ?). rewrite lookup_insert_ne in Hx0 by done. eauto. }
  split.
  - apply inv_log. eapply inv_cur; [exact Hw'|lia|done|lia].
  - intros p x Hin. destruct (A p x Hin) as [Hin0 L0]. simpl.
    destruct (Hcl p x Hin0) as (evp & Hp & Hlp). destruct (decide (p = e)) as [->|Hne].
    + apply (L0 (te_set_state EV_RUNNING ev)); [by rewrite lookup_insert_eq|done].
    + apply (L0 evp); [by rewrite lookup_insert_ne|done].
  - intros x evx Hx Hb. destruct (Hkeep _ _ Hx) as [Hne _].
    destruct (Bz _ _ Hx Hb) as [|Hx1]; [done|]. rewrite lookup_insert_ne in Hx1 by done. by eapply Hqu.
  - done.
  - done.
  - lia.
  - simpl. rewrite E. done.
  - simpl. rewrite E. done.
  - simpl. rewrite E. simpl. by rewrite Hlog, <- app_assoc.
  - intros x evx Hx. destruct (Hkeep _ _ Hx) as (_ & ev1 & Hx1 & ->). eauto.
  - intros x ev0 Hx0 Hk0. simpl. rewrite elem_of_app, list_elem_of_singleton.
    destruct (decide (x = e)) as [->|Hne]; [by auto|].
    destruct (Hleft x ev0 Hx0 Hk0) as [[ev1 Hx1]|]; [left|by auto].
    destruct (Hkind _ _ Hx1) as (ev2 & ? & Hk1).
    apply (P x ev1 Hne); [by rewrite lookup_insert_ne|congruence].
  - intros c' x. rewrite elem_of_app, list_elem_of_singleton. simpl. intros [Hin|[= -> ->]].
    + destruct (Hran c' x Hin) as (-> & ? & Hle & Hno & ?). split_and!; try done.
      * specialize (Hge _ _ Hi). lia.
      * apply eq_None_not_Some. intros [evx Hx]. destruct (Hkeep _ _ Hx) as (_ & ? & ? & _). congruence.
    + split_and!; try done. destruct (Hkind _ _ He) as (ev0 & ? & ?). exists ev0. split; [done|congruence].
  - apply sorted_snoc; [done|]. intros [c' x] Hin. simpl. destruct (Hran c' x Hin) as (_ & _ & ? & _).
    specialize (Hge _ _ Hi). lia.
  - rewrite fmap_app. simpl. apply NoDup_app. split_and!; [done| |repeat constructor; by intros ?%not_elem_of_nil].
    intros x ([c' x'] & -> & Hin)%list_elem_of_fmap. rewrite list_elem_of_singleton. simpl. intros ->.
    destruct (Hran c' e Hin) as (_ & _ & _ & Hno & _). congruence.
Qed.

Lemma w_set_domains_same w d : w_domains w = d -> w_set_domains d w = w.
Proof. intros <-. by destruct w. Qed.

Lemma size_ok items q cur w (Q : Z -> World -> Prop) :
  w_domains w = [mkDom q cur] -> pq_inv PQ_BLOCKS items q -> Q (Z.of_nat (size items)) w ->
  wp (on_pq 0 pq_size) Q w.
Proof.
  intros Hd Hq HQ. eapply wp_on_pq; [exact Hd|]. eapply wp_mono; [by eapply pq_size_ok|].
  intros n q' [-> ->]. by rewrite w_set_domains_same.
Qed.

Lemma first_ok items q cur w (Q : Z -> World -> Prop) :
  w_domains w = [mkDom q cur] -> pq_inv PQ_BLOCKS items q -> items <> ∅ ->
  (forall c e, items !! e = Some c -> is_min items c -> Q c w) ->
  wp (on_pq 0 (firstCycle PQ_BLOCKS)) Q w.
Proof.
  intros Hd Hq Hne HQ. destruct pq_blocks_bounds as [HB HB32].
  eapply wp_on_pq; [exact Hd|]. eapply wp_mono; [by apply (firstCycle_ok PQ_BLOCKS HB HB32 items)|].
  intros c q' (-> & Hm & e & He). rewrite w_set_domains_same by done. eauto.
Qed.

Lemma size_zero_iff (items : gmap nat Z) : (Z.of_nat (size items) =? 0) = true <-> items = ∅.
Proof. rewrite Z.eqb_eq. rewrite <- (map_size_empty_iff items). lia. Qed.

Lemma phase_pending_ok limit w0 L G items q cur w :
  phase_inv limit w0 L G items q cur w ->
  wp (phase_pending 0) (fun b w' => w' = w /\
    if b : bool then exists c e, items !! e = Some c /\ c < limit
    else forall e c, items !! e = Some c -> limit <= c) w.
Proof.
  intros Hpi. pose proof (pi_inv _ _ _ _ _ _ _ _ Hpi) as Hw. unfold phase_pending. do 3 wp_step.
  eapply size_ok; [apply Hw|apply Hw|]. wp_step.
  - wp_step. split; [done|]. apply size_zero_iff in E as ->. done.
  - wp_step. eapply first_ok; [apply Hw|apply Hw| |].
    + intros ->. done.
    + intros c e He Hm. wp_step. split; [done|]. rewrite (pi_limit _ _ _ _ _ _ _ _ Hpi).
      destruct (Z.ltb_spec c limit) as [Hlt|Hge]; [by exists c, e|].
      intros e' c' He'. specialize (Hm e' c' He'). lia.
Qed.

Lemma phase_step_ok limit fuel w0 L G items q cur w c0 e0 :
  phase_inv limit w0 L G items q cur w -> items !! e0 = Some c0 -> c0 < limit ->
  (forall e, is_Some (w_events w !! e) -> (depth e < fuel)%nat) ->
  wp (phase_step fuel 0)
    (fun _ w' => exists e c G' items' q' cur', phase_inv limit w0 (L ++ [(c, e)]) G' items' q' cur' w' /\
       (size (w_events w') < size (w_events w))%nat /\
       forall x, is_Some (w_events w' !! x) -> is_Some (w_events w !! x)) w.
Proof.
  intros Hpi Hi0 Hc0 Hdep. pose proof (pi_inv _ _ _ _ _ _ _ _ Hpi) as Hw.
  pose proof (wi_domains _ _ _ _ _ _ _ _ Hw) as Hd. destruct pq_blocks_bounds as [HB HB32].
  pose proof (wi_cur _ _ _ _ _ _ _ _ Hw) as Hcur.
  unfold phase_step, get_domain. do 5 wp_step. change (0 <? 0) with false. cbv iota. rewrite Hd. simpl Z.to_nat.
  eapply wp_lift; [done|]. cbv zeta. simpl dd_curCycle. wp_step.
  eapply wp_on_pq; [exact Hd|].
  eapply wp_mono; [apply (dequeue_ok PQ_BLOCKS HB HB32 items); [apply Hw|by intros ->]|].
  intros [e c] q1 (Hi & Hmin & Hq1 & Hb1). cbv beta iota.
  pose proof (pi_items _ _ _ _ _ _ _ _ Hpi _ _ Hi) as Hge. specialize (Hmin _ _ Hi0) as Hlt.
  destruct (queued_head _ _ _ _ _ _ _ Hw Hi) as (Hc & ev & He & _).
  do 2 wp_step; [lia|]. wp_step.
  assert (wp (when (negb (c =? cur)) (set_curCycle 0 c)) (fun _ w' => w' = w_set_domains [mkDom q1 c] w)
    (w_set_domains [mkDom q1 cur] w)) as Hset.
  { wp_step; intros E; [|by replace cur with c by lia]. by eapply wp_set_curCycle. }
  eapply wp_mono; [exact Hset|]. intros [] w1 ->. clear Hset. wp_step.
  assert (weave_inv G items q c (w_set_domains [mkDom q c] w)) as Hwc.
  { eapply inv_cur; [exact Hw|lia|apply Hw|]. pose proof (wi_block _ _ _ _ _ _ _ _ Hw).
    assert (cur / 64 <= c / 64) by (apply Z.div_le_mono; lia). lia. }
  eapply wp_mono; [apply (te_run_ok limit fuel e ev G items q q1 c (w_set_domains [mkDom q c] w)); try done;
    [lia|by apply (pi_cores _ _ _ _ _ _ _ _ Hpi)|lia|by apply Hdep]|].
  intros [] w2 (G2 & items2 & q2 & cs & Hw2 & Hco2 & Hfr & Hnone).
  pose proof (wi_domains _ _ _ _ _ _ _ _ Hw2) as Hd2.
  assert (forall x c', items2 !! x = Some c' -> c <= c') as Hge2.
  { intros x c' Hx. destruct (fr_items _ _ _ _ _ _ _ _ _ Hfr _ _ Hx) as [[_ Hx0]%lookup_delete_Some|]; [by eapply Hmin|done]. }
  wp_step. eapply size_ok; [exact Hd2|apply Hw2|]. wp_step.
  assert (wp (if Z.of_nat (size items2) =? 0 then ret (w_limit w) else on_pq 0 (firstCycle PQ_BLOCKS))
    (fun n w' => w' = w2 /\ c <= n /\ forall x c', items2 !! x = Some c' -> n <= c') w2) as Hnew.
  { rewrite (pi_limit _ _ _ _ _ _ _ _ Hpi). wp_step.
    - wp_step. apply size_zero_iff in E as ->. split_and!; [done|lia|done].
    - eapply first_ok; [exact Hd2|apply Hw2|by intros ->|]. intros n x Hx Hm. split_and!; [done|eauto|exact Hm]. }
  eapply wp_mono; [exact Hnew|]. clear Hnew. intros n w3 (-> & Hcn & Hn).
  do 2 wp_step; [lia|]. wp_step.
  assert (wp (when (negb (n =? c)) (set_curCycle 0 n)) (fun _ w' => w' = w_set_domains [mkDom q2 n] w2) w2) as Hset.
  { wp_step; intros E; [by eapply wp_set_curCycle|]. replace n with c by lia. by rewrite w_set_domains_same. }
  eapply wp_mono; [exact Hset|]. intros [] w4 ->. wp_step. exists e, c, G2, items2, q2, n. split_and!.
  - apply (phase_inv_step limit w0 L G items q cur w e ev c G2 items2 q2 cs q1 w2 n q2); try done;
      [lia|apply Hw2|apply Hw2].
  - simpl. rewrite <- !(size_dom (D := gset nat)). apply subset_size. split.
    + intros x [evx Hx]%elem_of_dom. apply elem_of_dom.
      destruct (fr_kind _ _ _ _ _ _ _ _ _ Hfr _ _ Hx) as (ev0 & Hx0 & _).
      simpl in Hx0. apply lookup_insert_Some in Hx0 as [[<- _]|[_ ?]]; eauto.
    + intros Hsub. specialize (Hsub e (proj2 (elem_of_dom (D := gset nat) _ _) (ex_intro _ ev He))).
      apply elem_of_dom in Hsub as [? ?]. congruence.
  - simpl. intros x [evx Hx]. destruct (fr_kind _ _ _ _ _ _ _ _ _ Hfr _ _ Hx) as (ev0 & Hx0 & _).
    simpl in Hx0. apply lookup_insert_Some in Hx0 as [[<- _]|[_ ?]]; eauto.
Qed.

Lemma phase_loop_ok limit fuel w0 rounds : forall L G items q cur w,
  phase_inv limit w0 L G items q cur w -> (size (w_events w) <= rounds)%nat ->
  (forall e, is_Some (w_events w !! e) -> (depth e < fuel)%nat) ->
  wp (phase_loop rounds fuel 0)
    (fun _ w' => exists L' G' items' q' cur', phase_inv limit w0 L' G' items' q' cur' w' /\
       (forall e c, items' !! e = Some c -> limit <= c) /\
       (forall e, is_Some (w_events w' !! e) -> (depth e < fuel)%nat)) w.
Proof.
  induction rounds as [|rounds IH]; intros L G items q cur w Hpi Hsz Hdep; simpl; wp_step;
    (eapply wp_mono; [by eapply phase_pending_ok|]); intros [] w' [-> Hp].
  - destruct Hp as (c & e & Hi & _).
    destruct (queued_head _ _ _ _ _ _ _ (pi_inv _ _ _ _ _ _ _ _ Hpi) Hi) as (_ & ev & He & _).
    pose proof (map_size_ne_0_lookup_2 _ e (ex_intro _ ev He)). lia.
  - wp_step. by exists L, G, items, q, cur.
  - destruct Hp as (c & e & Hi & Hlt). wp_step. eapply wp_mono; [by eapply phase_step_ok|].
    intros [] w1 (e1 & c1 & G1 & items1 & q1 & cur1 & Hpi1 & Hsz1 & Hsub).
    eapply IH; [exact Hpi1|lia|eauto].
  - wp_step. by exists L, G, items, q, cur.
Qed.

(** When the queue has nothing left before the limit, no event has: a waiting
    event has an unfinished predecessor that starts no later. *)
Lemma nothing_left limit fuel w0 L G items q cur w :
  phase_inv limit w0 L G items q cur w -> (forall e c, items !! e = Some c -> limit <= c) ->
  (forall e, is_Some (w_events w !! e) -> (depth e < fuel)%nat) ->
  forall e ev, w_events w !! e = Some ev -> limit <= start e.
Proof.
  intros Hpi Hlim Hdep. pose proof (pi_inv _ _ _ _ _ _ _ _ Hpi) as Hw.
  enough (forall n e ev, (fuel - depth e <= n)%nat -> w_events w !! e = Some ev -> limit <= start e) as H by eauto.
  induction n as [|n IH]; intros e ev Hn He.
  { pose proof (Hdep e (ex_intro _ ev He)). lia. }
  pose proof (wi_dyn _ _ _ _ _ _ _ _ Hw _ _ He) as Hd. unfold ev_dyn in Hd.
  pose proof (pi_quiet _ _ _ _ _ _ _ _ Hpi _ _ He) as Hb. unfold busy in Hb.
  destruct (te_state ev) eqn:Hst; try tauto.
  - destruct Hd as (_ & Hne & _). destruct (into G e) as [|[p e'] l] eqn:Ei; [done|].
    assert ((p, e') ∈ into G e) as Hin by (rewrite Ei; left). apply elem_of_into in Hin as [-> Hin].
    destruct (wi_edge _ _ _ _ _ _ _ _ Hw _ _ Hin) as (Hdp & ev' & He' & _ & Hle).
    destruct (pi_closed _ _ _ _ _ _ _ _ Hpi _ _ Hin) as (evp & Hp & Hlp).
    destruct (wi_live _ _ _ _ _ _ _ _ Hw _ _ Hp Hlp) as (l' & _ & _ & Hout).
    destruct (wi_static _ _ _ _ _ _ _ _ Hw _ _ Hp) as [_ _ Hpost Hlat _].
    destruct (wi_static _ _ _ _ _ _ _ _ Hw _ _ He') as [_ Hpre _ _ _]. unfold in_u32 in *.
    pose proof (Hdep p (ex_intro _ evp Hp)). assert (limit <= start p) by (eapply IH; [|exact Hp]; lia). lia.
  - destruct Hd as (_ & _ & Hi & _). eauto.
Qed.
End Phase.

(** ** A depth bounded by the number of events *)

Definition rank (depth : nat -> nat) (w : World) (e : nat) : nat :=
  size (filter (fun x : nat * TimingEvent => (depth x.1 < depth e)%nat) (w_events w)).

Lemma rank_mono depth w x p ev :
  w_events w !! x = Some ev -> (depth x < depth p)%nat -> (rank depth w x < rank depth w p)%nat.
Proof.
  intros Hx Hlt. unfold rank. rewrite <- !(size_dom (D := gset nat)). apply subset_size. split.
  - intros y [evy [Hy Hd]%map_lookup_filter_Some]%elem_of_dom. apply elem_of_dom. exists evy.
    apply map_lookup_filter_Some. split; [done|]. simpl in *. lia.
  - intros Hsub. assert (x ∈ dom (filter (fun y : nat * TimingEvent => (depth y.1 < depth p)%nat) (w_events w))) as Hin.
    { apply elem_of_dom. exists ev. by apply map_lookup_filter_Some. }
    apply Hsub, elem_of_dom in Hin as [? [_ Hd]%map_lookup_filter_Some]. simpl in Hd. lia.
Qed.

Lemma rank_lt depth w e : is_Some (w_events w !! e) -> (rank depth w e < size (w_events w))%nat.
Proof.
  intros [ev He]. unfold rank. rewrite <- !(size_dom (D := gset nat)). apply subset_size. split.
  - intros y [evy [Hy Hd]%map_lookup_filter_Some]%elem_of_dom. apply elem_of_dom. eauto.
  - intros Hsub. specialize (Hsub e (proj2 (elem_of_dom (D := gset nat) _ _) (ex_intro _ ev He))).
    apply elem_of_dom in Hsub as [? [_ Hd]%map_lookup_filter_Some]. simpl in Hd. lia.
Qed.

Lemma weave_inv_rank start out depth G items q cur w :
  weave_inv start out depth G items q cur w -> weave_inv start out (rank depth w) G items q cur w.
Proof.
  intros []. split; try done. intros p x Hin. destruct (wi_edge p x Hin) as (Hd & ev & Hx & ?).
  split; [|by eauto]. by eapply rank_mono.
Qed.

(** ** The theorem *)

(** The events are recorded for one domain and wait in the queue or for
    predecessors; [start e] is the longest path of delays to [e]. *)
Definition weave_ready (start : nat -> Z) (cur : Z) (w : World) : Prop :=
  exists out depth G items q, weave_inv start out depth G items q cur w /\ closed G w /\ quiet w /\
    forall e c, items !! e = Some c -> cur <= c.

(** C35: a phase of the weave simulation of one domain, whose events start before the
    far-future bound of [enqueue] (the last limit plus ten phases and a million
    cycles, below 2^62), runs without a failed assertion and ends: it
    runs exactly the events, other than delay events,
    whose critical-path cycle (the longest path of recorded delays from the
    queued events) is before the limit, each once and at exactly that cycle,
    in the order of the cycles (delay events run inside their last parent); the
    others are still recorded, the clock of
    the domain stands at the limit, and the next phase can start. *)
Theorem weave_critical_path (start : nat -> Z) (cur : Z) (w : World) :
  weave_ready start cur w -> cores_ok start (w_limit w) w -> cur <= w_limit w ->
  exists w' L,
    simulatePhaseThread 0 w = Ok (tt, w') /\ w_log w' = w_log w ++ L /\
    StronglySorted key_le L /\ NoDup L.*2 /\
    (forall c e, (c, e) ∈ L <-> c = start e /\ start e < w_limit w /\
       exists ev, w_events w !! e = Some ev /\ te_kind ev <> DelayEvent) /\
    (forall e ev, w_events w !! e = Some ev -> te_kind ev <> DelayEvent ->
       (is_Some (w_events w' !! e) <-> w_limit w <= start e)) /\
    weave_ready start (w_limit w) w'.
Proof.
  intros (out & depth & G & items & q & Hw & Hcl & Hqu & Hge) Hco Hcur.
  apply weave_inv_rank in Hw. set (limit := w_limit w) in *.
  assert (phase_inv start out (rank depth w) limit w [] G items q cur w) as Hpi.
  { split; try done; [|by rewrite app_nil_r|by eauto|by eauto|by intros ? ? ?%not_elem_of_nil|constructor|constructor].
    pose proof (wi_block _ _ _ _ _ _ _ _ Hw). assert (cur / 64 <= limit / 64) by (apply Z.div_le_mono; lia). lia. }
  assert (wp (simulatePhaseThread 0) (fun _ w' => exists L G' items' q' cur' w1,
    w' = w_set_domains [mkDom q' limit] w1 /\ w_domains w1 = [mkDom q' cur'] /\
    phase_inv start out (rank depth w) limit w L G' items' q' cur' w1 /\
    (forall e c, items' !! e = Some c -> limit <= c) /\
    (forall e, is_Some (w_events w1 !! e) -> (rank depth w e < size (w_events w))%nat)) w) as Hwp.
  { unfold simulatePhaseThread. do 3 wp_step.
    eapply wp_mono; [eapply phase_loop_ok; [exact Hpi|done|apply rank_lt]|].
    intros [] w1 (L & G' & items' & q' & cur' & Hpi' & Hl & Hr).
    pose proof (wi_domains _ _ _ _ _ _ _ _ (pi_inv _ _ _ _ _ _ _ _ _ _ _ Hpi')) as Hd.
    eapply wp_set_curCycle; [exact Hd|]. by exists L, G', items', q', cur', w1. }
  apply wp_ok in Hwp as ([] & w' & Hrun & L & G' & items' & q' & cur' & w1 & -> & Hd & Hpi' & Hl & Hr).
  pose proof (nothing_left _ _ _ _ _ _ _ _ _ _ _ _ Hpi' Hl Hr) as Hleft.
  destruct Hpi' as [Hw1 Hcl1 Hqu1 Hco1 Hge1 Hbl1 Hlim1 Hlast1 Hlog1 Hkind1 Hpl1 Hran1 Hs1 Hn1].
  eexists _, L. split_and!; [exact Hrun|done|done|done|..].
  - intros c e. split.
    + intros Hin. destruct (Hran1 c e Hin) as (-> & ? & _ & _ & ?). done.
    + intros (-> & Hlt & ev & He & Hk). destruct (Hpl1 e ev He Hk) as [[ev1 He1]|]; [|done].
      specialize (Hleft _ _ He1). lia.
  - intros e ev He Hk. simpl. split.
    + intros [ev1 He1]. by eapply Hleft.
    + intros Hge'. destruct (Hpl1 e ev He Hk) as [|Hin]; [done|].
      destruct (Hran1 _ _ Hin) as (_ & ? & _). lia.
  - exists out, (rank depth w), G', items', q'. split_and!; [|done..].
    eapply inv_cur; [exact Hw1| |apply Hw1|done].
    rewrite Hlast1. pose proof (wi_cur _ _ _ _ _ _ _ _ Hw). lia.
Qed.

(** ** A recorded graph

    A dispatch event at cycle 100 leads through a delay of 10 cycles and
    through a memory access (20 cycles before, 5 for the access, 7 after) to
    an event of core 0. *)
Definition demo_start (e : nat) : Z := match e with 1%nat => 100 | 2%nat => 110 | 3%nat => 120 | _ => 132 end.
Definition demo_out (e : nat) : Z := match e with 1%nat => 100 | 2%nat => 110 | _ => 132 end.
Definition demo_depth (e : nat) : nat := match e with 1%nat => 3 | 2%nat | 3%nat => 2 | _ => 1 end.

Definition demo_recorder : CoreRecorder := mkRec RUNNING 0 0 None 0 0 0 0 0 0 0.
Definition demo_empty (q : PrioQueue) (inCSim : bool) : World :=
  mkW ∅ 1 [mkDom q 0] 200 0 inCSim [] [demo_recorder] 1000 0.

(** The bound phase records it. *)
Definition demo_record : M World unit :=
  e1 <- new_event (TimingEvent_init OOODispatchEvent 0 0 0) ;;
  te_queue e1 100 ;;
  e2 <- new_event (DelayEvent_new 10) ;;
  addChild e1 e2 ;;
  e3 <- new_event (TimingEvent_init (WeaveMemAccEvent 5) 20 7 0) ;;
  addChild e1 e3 ;;
  e4 <- new_event (TimingCoreEvent_new 0 90 0 (-1)) ;;
  addChild e2 e4 ;;
  addChild e3 e4.

Definition demo_events : gmap nat TimingEvent :=
  {[ 1%nat := mkTE OOODispatchEvent 100 EV_QUEUED 0 (2 ^ 64 - 1) None [[Some 2%nat; Some 3%nat; None]] 0 2 0 0 0;
     2%nat := mkTE DelayEvent 0 EV_NONE 0 (2 ^ 64 - 1) (Some 4%nat) [] 0 1 1 10 0;
     3%nat := mkTE (WeaveMemAccEvent 5) 0 EV_NONE 0 (2 ^ 64 - 1) (Some 4%nat) [] 0 1 1 20 7;
     4%nat := mkTE (TimingCoreEvent 0 90) 0 EV_NONE 0 (2 ^ 64 - 1) None [] 0 0 2 0 0 ]}.

Definition demo_queue : PrioQueue :=
  match PrioQueue.enqueue PQ_BLOCKS 1 100 (PrioQueue_new PQ_BLOCKS) with Ok (_, q) => q | Err _ => PrioQueue_new PQ_BLOCKS end.

Definition demo_world : World := w_set_events demo_events (demo_empty demo_queue true).

Example demo_recorded :
  match demo_record (demo_empty (PrioQueue_new PQ_BLOCKS) false) with
  | Ok (_, w) => w_events w
  | Err _ => ∅
  end = demo_events.
Proof. vm_compute. reflexivity. Qed.

Lemma demo_queue_inv : pq_inv PQ_BLOCKS {[1%nat := 100]} demo_queue /\ pq_curBlock demo_queue = 0.
Proof.
  destruct pq_blocks_bounds as [HB HB32].
  pose proof (enqueue_ok PQ_BLOCKS HB HB32 ∅ (PrioQueue_new PQ_BLOCKS) 1 100
    (PrioQueue_new_inv PQ_BLOCKS HB HB32) eq_refl ltac:(lia) ltac:(done) ltac:(done)) as H.
  unfold wp in H. unfold demo_queue. destruct (PrioQueue.enqueue _ _ _ _) as [[[] q]|]; [|done]. done.
Qed.

Lemma demo_events_inv (P : nat -> TimingEvent -> Prop) :
  (forall e, e ∈ [1; 2; 3; 4]%nat -> match demo_events !! e with Some ev => P e ev | None => True end) ->
  forall e ev, demo_events !! e = Some ev -> P e ev.
Proof.
  intros HP e ev He. specialize (HP e). rewrite He in HP. apply HP.
  unfold demo_events in He. rewrite !lookup_insert_Some, lookup_singleton_Some in He.
  destruct He as [[<- _]|[_ [[<- _]|[_ [[<- _]|[_ [<- _]]]]]]]; repeat constructor.
Qed.

(** Cases on an element of a closed list. *)
Ltac list_cases H := repeat (apply elem_of_cons in H as [H|H]; [simplify_eq|]); [..|by apply not_elem_of_nil in H].

Lemma weave_demo_ready : weave_ready demo_start 0 demo_world.
Proof.
  destruct demo_queue_inv as [Hq Hb].
  exists demo_out, demo_depth, [(1, 2); (1, 3); (2, 4); (3, 4)]%nat, {[1%nat := 100]}, demo_queue.
  assert (forall e c, ({[1%nat := 100]} : gmap nat Z) !! e = Some c -> e = 1%nat /\ c = 100) as Hit.
  { intros e c [<- <-]%lookup_singleton_Some. done. }
  split_and!.
  - split; [done|exact Hq|by rewrite Hb|by vm_compute|by vm_compute|done|by vm_compute|..].
    + intros e c [-> ->]%Hit. split; [done|]. eexists. split; [vm_compute; reflexivity|done].
    + refine (demo_events_inv _ _). intros e He. list_cases He; split; vm_compute; naive_solver.
    + refine (demo_events_inv _ _). intros e He. list_cases He; vm_compute; split_and!; try done; right;
        [exists 1%nat|exists 1%nat|exists 3%nat]; (split; [repeat constructor|done]).
    + intros p x Hin. list_cases Hin; (split; [vm_compute; lia|]); eexists;
        (split_and!; [vm_compute; reflexivity|done|by vm_compute]).
    + refine (demo_events_inv _ _). intros e He. list_cases He; vm_compute; intros _; eexists;
        (split_and!; [reflexivity|reflexivity|done]).
  - intros p x Hin. list_cases Hin; eexists; (split; [vm_compute; reflexivity|done]).
  - refine (demo_events_inv _ _). intros e He. list_cases He; vm_compute; by intros [|].
  - intros e c [-> ->]%Hit. done.
Qed.

Lemma demo_cores_ok : cores_ok demo_start (w_limit demo_world) demo_world.
Proof.
  intros e ev core orig He Hk. revert Hk. pattern e, ev. revert e ev He. refine (demo_events_inv _ _).
  intros e He. list_cases He; vm_compute; intros [= <- <-]. eexists. split; [reflexivity|done].
Qed.

Lemma weave_critical_path_witness :
  exists w' L, simulatePhaseThread 0 demo_world = Ok (tt, w') /\ w_log w' = w_log demo_world ++ L /\
    (132, 4%nat) ∈ L.
Proof.
  destruct (weave_critical_path demo_start 0 demo_world weave_demo_ready demo_cores_ok ltac:(done))
    as (w' & L & Hrun & Hlog & _ & _ & Hin & _).
  exists w', L. split_and!; [done|done|]. apply Hin. split_and!; [done|done|].
  eexists. split; [reflexivity|done].
Defined.

Example demo_log :
  match simulatePhaseThread 0 demo_world with Ok (_, w) => w_log w | Err _ => [] end =
  [(100, 1%nat); (120, 3%nat); (132, 4%nat)].
Proof. vm_compute. reflexivity. Qed.
