(* ===== verification/Barrier.v ===== *)
(** * The phase barrier ([src/src/barrier.h])

    Threads join and leave the barrier at any time; between joining and leaving
    they run one phase after the other, at most [parallelThreads] of them at a
    time.  [join], [leave] and [sync] run under the scheduler's lock up to the
    point where they release it; the threads then wait on a futex outside of
    it. *)

From stdpp Require Import base list strings.
From Stdlib Require Import ZArith Lia.
From S2P Require Import Prelude.
Local Open Scope Z_scope.

(** [constants.h] *)
Definition MAX_THREADS : nat := 2048.

(** What the barrier needs of its client and of its generator: the callback at
    the end of a phase, and [MTRand::randInt(n)] of the Mersenne Twister library
    [mtrand.h], an integer in [0, n]. *)
Class Callee (S : Type) := callback : S -> S.
Class RandInt (G : Type) := {
  randInt : nat -> G -> nat * G;
  randInt_le : forall n g, ((randInt n g).1 <= n)%nat
}.

Inductive TState := OFFLINE | WAITING | RUNNING | LEFT.
#[export] Instance TState_eq_dec : EqDecision TState.
Proof. solve_decision. Defined.

Record ThreadSyncInfo := mkTS { ts_state : TState; ts_futexWord : Z; ts_lastIdx : nat }.

Record Barrier (S G : Type) := mkBar {
  b_parallelThreads : Z;
  b_threadList : list ThreadSyncInfo;
  b_runList : list nat;
  b_runListSize : nat;
  b_curThreadIdx : nat;
  b_runningThreads : Z;
  b_leftThreads : Z;
  b_phaseCount : Z;
  b_rnd : G;
  b_sched : S
}.
Arguments mkBar {S G} _ _ _ _ _ _ _ _ _ _.
Arguments b_parallelThreads {S G} _.
Arguments b_threadList {S G} _.
Arguments b_runList {S G} _.
Arguments b_runListSize {S G} _.
Arguments b_curThreadIdx {S G} _.
Arguments b_runningThreads {S G} _.
Arguments b_leftThreads {S G} _.
Arguments b_phaseCount {S G} _.
Arguments b_rnd {S G} _.
Arguments b_sched {S G} _.

Section Barrier.
Context {S G : Type} `{Callee S} `{RandInt G}.
Abbreviation B := (Barrier S G).

Definition set_threads (x : list ThreadSyncInfo) (b : B) : B :=
  mkBar (b_parallelThreads b) x (b_runList b) (b_runListSize b) (b_curThreadIdx b) (b_runningThreads b)
    (b_leftThreads b) (b_phaseCount b) (b_rnd b) (b_sched b).
Definition set_runList (x : list nat) (b : B) : B :=
  mkBar (b_parallelThreads b) (b_threadList b) x (b_runListSize b) (b_curThreadIdx b) (b_runningThreads b)
    (b_leftThreads b) (b_phaseCount b) (b_rnd b) (b_sched b).
Definition set_size (x : nat) (b : B) : B :=
  mkBar (b_parallelThreads b) (b_threadList b) (b_runList b) x (b_curThreadIdx b) (b_runningThreads b)
    (b_leftThreads b) (b_phaseCount b) (b_rnd b) (b_sched b).
Definition set_cur (x : nat) (b : B) : B :=
  mkBar (b_parallelThreads b) (b_threadList b) (b_runList b) (b_runListSize b) x (b_runningThreads b)
    (b_leftThreads b) (b_phaseCount b) (b_rnd b) (b_sched b).
Definition set_running (x : Z) (b : B) : B :=
  mkBar (b_parallelThreads b) (b_threadList b) (b_runList b) (b_runListSize b) (b_curThreadIdx b) x
    (b_leftThreads b) (b_phaseCount b) (b_rnd b) (b_sched b).
Definition set_left (x : Z) (b : B) : B :=
  mkBar (b_parallelThreads b) (b_threadList b) (b_runList b) (b_runListSize b) (b_curThreadIdx b)
    (b_runningThreads b) x (b_phaseCount b) (b_rnd b) (b_sched b).
Definition set_phase (x : Z) (b : B) : B :=
  mkBar (b_parallelThreads b) (b_threadList b) (b_runList b) (b_runListSize b) (b_curThreadIdx b)
    (b_runningThreads b) (b_leftThreads b) x (b_rnd b) (b_sched b).
Definition set_rnd (x : G) (b : B) : B :=
  mkBar (b_parallelThreads b) (b_threadList b) (b_runList b) (b_runListSize b) (b_curThreadIdx b)
    (b_runningThreads b) (b_leftThreads b) (b_phaseCount b) x (b_sched b).
Definition set_sched (x : S) (b : B) : B :=
  mkBar (b_parallelThreads b) (b_threadList b) (b_runList b) (b_runListSize b) (b_curThreadIdx b)
    (b_runningThreads b) (b_leftThreads b) (b_phaseCount b) (b_rnd b) x.

(** The constructor; [lastIdx] is not initialised. *)
Definition Barrier_new (parallelThreads : Z) (lastIdxs : list nat) (rnd : G) (sched : S) : B :=
  mkBar parallelThreads (map (mkTS OFFLINE 0) lastIdxs) (replicate MAX_THREADS 0%nat) 0 0 0 0 0 rnd sched.

(** ** Array accesses *)
Definition thread (tid : nat) : M B ThreadSyncInfo := b <- get ;; lift (at_ (b_threadList b) tid).
Definition put_thread (tid : nat) (t : ThreadSyncInfo) : M B unit :=
  b <- get ;; l <- lift (set_at (b_threadList b) tid t) ;; modify (set_threads l).
Definition run_at (idx : nat) : M B nat := b <- get ;; lift (at_ (b_runList b) idx).
Definition put_run (idx tid : nat) : M B unit :=
  b <- get ;; l <- lift (set_at (b_runList b) idx tid) ;; modify (set_runList l).
Definition set_lastIdx (tid idx : nat) : M B unit :=
  t <- thread tid ;; put_thread tid (mkTS (ts_state t) (ts_futexWord t) idx).
Definition set_state (tid : nat) (s : TState) : M B unit :=
  t <- thread tid ;; put_thread tid (mkTS s (ts_futexWord t) (ts_lastIdx t)).
Definition set_futex (tid : nat) (w : Z) : M B unit :=
  t <- thread tid ;; put_thread tid (mkTS (ts_state t) w (ts_lastIdx t)).

(** ** Waking threads *)

(** The body of the loop of [checkRunList]. *)
Definition wake_next : M B unit :=
  b <- get ;;
  let idx := b_curThreadIdx b in
  modify (set_cur (idx + 1)) ;;
  wtid <- run_at idx ;;
  t <- thread wtid ;;
  if bool_decide (ts_state t = WAITING) then
    set_state wtid RUNNING ;;
    set_lastIdx wtid idx ;;
    (if ts_futexWord t =? 1 then set_futex wtid 0 else fail (Panic "barrier.h:266")) ;;
    modify (fun b => set_running (u32 (b_runningThreads b + 1)) b)
  else ret tt.

Definition can_wake (b : B) : bool :=
  (b_runningThreads b <? b_parallelThreads b) && (b_curThreadIdx b <? b_runListSize b)%nat.

Fixpoint run_list_loop (fuel : nat) : M B unit :=
  b <- get ;;
  if can_wake b then
    match fuel with
    | O => fail OutOfFuel
    | Datatypes.S fuel => wake_next ;; run_list_loop fuel
    end
  else ret tt.

Definition checkRunList : M B unit :=
  b <- get ;; run_list_loop (b_runListSize b - b_curThreadIdx b).

(** ** The end of a phase *)

(** The clean-up pass: threads that left go offline. *)
Fixpoint cleanup_loop (fuel idx newSize : nat) : M B nat :=
  if (idx <? newSize)%nat then
    match fuel with
    | O => fail OutOfFuel
    | Datatypes.S fuel =>
        wtid <- run_at idx ;;
        t <- thread wtid ;;
        if bool_decide (ts_state t = LEFT) then
          set_state wtid OFFLINE ;;
          stid <- run_at (newSize - 1) ;;
          put_run idx stid ;;
          set_lastIdx stid idx ;;
          cleanup_loop fuel idx (newSize - 1)
        else cleanup_loop fuel (idx + 1) newSize
    end
  else ret newSize.

Definition cleanup : M B unit :=
  b <- get ;;
  assert_ "barrier.h:216" (0 <? b_runListSize b)%nat ;;
  newSize <- cleanup_loop (b_runListSize b) 0 (b_runListSize b) ;;
  b <- get ;;
  assert_ "barrier.h:232" (Z.of_nat (b_runListSize b - newSize) =? b_leftThreads b) ;;
  modify (set_left 0) ;;
  modify (set_size newSize).

(** The Fisher-Yates shuffle. *)
Fixpoint shuffle (i : nat) : M B unit :=
  match i with
  | O => ret tt
  | Datatypes.S i' =>
      b <- get ;;
      let (j, g) := randInt i (b_rnd b) in
      modify (set_rnd g) ;;
      itid <- run_at i ;;
      jtid <- run_at j ;;
      put_run i jtid ;;
      put_run j itid ;;
      set_lastIdx itid j ;;
      set_lastIdx jtid i ;;
      shuffle i'
  end.

Definition end_phase : M B unit :=
  modify (fun b => set_sched (callback (b_sched b)) b) ;;
  modify (set_cur 0) ;;
  b <- get ;;
  let phaseCount := b_phaseCount b in
  modify (set_phase (u32 (phaseCount + 1))) ;;
  when (Z.land phaseCount 31 =? 0) cleanup ;;
  b <- get ;;
  when (b_parallelThreads b <? Z.of_nat (b_runListSize b)) (shuffle (b_runListSize b - 1)).

Definition checkEndPhase : M B unit :=
  b <- get ;;
  if ((b_curThreadIdx b =? b_runListSize b)%nat && (b_runningThreads b =? 0))%bool then
    if b_leftThreads b =? Z.of_nat (b_runListSize b) then ret tt else end_phase
  else ret tt.

Definition tryWakeNext : M B unit := checkRunList ;; checkEndPhase ;; checkRunList.

(** ** The operations, up to the release of the lock *)

(** A thread that left after its turn in this phase: it swaps places with the
    last thread before [curThreadIdx] and is next. *)
Definition reschedule (tid lastIdx : nat) : M B unit :=
  b <- get ;;
  let cur := (b_curThreadIdx b - 1)%nat in
  modify (set_cur cur) ;;
  x <- run_at lastIdx ;;
  assert_ "barrier.h:137" (tid =? x)%nat ;;
  otherTid <- run_at cur ;;
  put_run lastIdx otherTid ;;
  put_run cur tid ;;
  set_lastIdx otherTid lastIdx ;;
  set_lastIdx tid cur.

Definition join (tid : nat) : M B unit :=
  t <- thread tid ;;
  assert_ "barrier.h:126" (bool_decide (ts_state t = LEFT \/ ts_state t = OFFLINE)) ;;
  (if bool_decide (ts_state t = OFFLINE) then
     b <- get ;;
     put_run (b_runListSize b) tid ;;
     modify (fun b => set_size (b_runListSize b + 1) b)
   else
     modify (fun b => set_left (u32 (b_leftThreads b - 1)) b) ;;
     let lastIdx := ts_lastIdx t in
     b <- get ;;
     when (lastIdx <? b_curThreadIdx b)%nat (reschedule tid lastIdx)) ;;
  set_state tid WAITING ;;
  set_futex tid 1 ;;
  tryWakeNext.

Definition leave (tid : nat) : M B unit :=
  t <- thread tid ;;
  if bool_decide (ts_state t = RUNNING) then
    set_state tid LEFT ;;
    modify (fun b => set_left (u32 (b_leftThreads b + 1)) b) ;;
    modify (fun b => set_running (u32 (b_runningThreads b - 1)) b) ;;
    tryWakeNext
  else
    assert_ "barrier.h:174" (bool_decide (ts_state t = WAITING)) ;;
    set_state tid LEFT ;;
    modify (fun b => set_left (u32 (b_leftThreads b + 1)) b).

Definition sync (tid : nat) : M B unit :=
  t <- thread tid ;;
  assert_ "barrier.h:183" (bool_decide (ts_state t = RUNNING)) ;;
  set_futex tid 1 ;;
  set_state tid WAITING ;;
  modify (fun b => set_running (u32 (b_runningThreads b - 1)) b) ;;
  tryWakeNext.

(** ** Outside of the lock *)

(** [if (threadList\[tid\].state == WAITING)] after the release of the lock *)
Definition must_wait (tid : nat) (b : B) : bool :=
  match b_threadList b !! tid with Some t => bool_decide (ts_state t = WAITING) | None => false end.

(** The wait returns once the futex word has changed; then the state must be
    [RUNNING]. *)
Definition woken (tid : nat) (b : B) : bool :=
  match b_threadList b !! tid with Some t => negb (ts_futexWord t =? 1) | None => false end.
Definition after_wait (tid : nat) : M B unit :=
  t <- thread tid ;; assert_ "barrier.h:161" (bool_decide (ts_state t = RUNNING)).

(** Where a thread is: outside of the barrier; after the lock's release in
    [join] or [sync]; in the wait; or running its phase. *)
Inductive Pc := Out | Checking | Sleeping | Active.
#[export] Instance Pc_eq_dec : EqDecision Pc.
Proof. solve_decision. Defined.

Definition Config : Type := B * (nat -> Pc).
Definition at_pc (pc : nat -> Pc) (tid : nat) (p : Pc) : nat -> Pc := fun t => if decide (t = tid) then p else pc t.

Inductive step : Config -> Config -> Prop :=
| step_join tid b b' pc : (tid < MAX_THREADS)%nat -> pc tid = Out -> join tid b = Ok (tt, b') ->
    step (b, pc) (b', at_pc pc tid Checking)
| step_sync tid b b' pc : pc tid = Active -> sync tid b = Ok (tt, b') -> step (b, pc) (b', at_pc pc tid Checking)
| step_leave tid b b' pc : pc tid = Active -> leave tid b = Ok (tt, b') -> step (b, pc) (b', at_pc pc tid Out)
| step_go tid b pc : pc tid = Checking -> must_wait tid b = false -> step (b, pc) (b, at_pc pc tid Active)
| step_wait tid b pc : pc tid = Checking -> must_wait tid b = true -> step (b, pc) (b, at_pc pc tid Sleeping)
| step_wake tid b b' pc : pc tid = Sleeping -> woken tid b = true -> after_wait tid b = Ok (tt, b') ->
    step (b, pc) (b', at_pc pc tid Active).

Definition initial (c : Config) : Prop :=
  exists par lastIdxs rnd sched, 0 < par < 2 ^ 32 /\ length lastIdxs = MAX_THREADS /\
    c = (Barrier_new par lastIdxs rnd sched, fun _ => Out).

Inductive reachable : Config -> Prop :=
| reach_init c : initial c -> reachable c
| reach_step c c' : reachable c -> step c c' -> reachable c'.
End Barrier.
