(* ===== verification/BarrierInv.v ===== *)
(** * The invariant of the barrier

    The run list and the thread table agree; the counters count; what a swap
    in the run list and the removal of a thread do. *)

From stdpp Require Import base list strings.
From Stdlib Require Import ZArith Lia.
From S2P Require Import Prelude Barrier.
Local Open Scope Z_scope.

(** ** Lists *)
Section Lists.
Context {A : Type}.
Implicit Types (l : list A) (x y : A).

Lemma swap_lt l i j x y : (i < j)%nat -> l !! i = Some x -> l !! j = Some y ->
  <[j := x]> (<[i := y]> l) ≡ₚ l.
Proof.
  intros Hij Hi Hj. rewrite <- (take_drop_middle l i x Hi) in Hj |- *.
  assert (length (take i l) = i) as Hlen by (apply length_take_le, Nat.lt_le_incl; by eapply lookup_lt_Some).
  rewrite lookup_app_r in Hj by lia. rewrite Hlen in Hj.
  destruct (j - i)%nat as [|k] eqn:Ek; [lia|]. simpl in Hj.
  rewrite (insert_app_r_alt _ _ i) by lia. rewrite insert_app_r_alt by lia. rewrite Hlen, Nat.sub_diag, Ek. simpl.
  apply Permutation_app_head. rewrite <- (take_drop_middle _ k y Hj).
  rewrite insert_app_r_alt by (rewrite length_take; lia).
  rewrite length_take_le by (apply Nat.lt_le_incl; by eapply lookup_lt_Some). rewrite Nat.sub_diag. simpl.
  rewrite <- !Permutation_middle. apply Permutation_swap.
Qed.

Lemma swap_perm l i j x y : l !! i = Some x -> l !! j = Some y -> <[j := x]> (<[i := y]> l) ≡ₚ l.
Proof.
  intros Hi Hj. destruct (Nat.lt_total i j) as [H|[->|H]].
  - by apply swap_lt.
  - simplify_eq. by rewrite (list_insert_id l), list_insert_id.
  - rewrite list_insert_insert_ne by lia. by apply swap_lt.
Qed.

(** Filling a hole with the last element. *)
Lemma swap_remove_perm l n i x y : (n < length l)%nat -> (i <= n)%nat -> l !! i = Some x -> l !! n = Some y ->
  take (Datatypes.S n) l ≡ₚ x :: take n (<[i := y]> l).
Proof.
  intros Hn Hi Hx Hy. rewrite (take_S_r l n y Hy). destruct (decide (i = n)) as [->|Hne].
  - simplify_eq. rewrite take_insert_ge by lia. symmetry. apply Permutation_cons_append.
  - rewrite take_insert_lt by lia. assert (take n l !! i = Some x) as Hx' by (rewrite lookup_take_lt by lia; done).
    rewrite (insert_take_drop _ i y) by (by eapply lookup_lt_Some).
    rewrite <- (take_drop_middle (take n l) i x Hx') at 1.
    rewrite <- app_assoc, <- app_comm_cons, <- Permutation_middle. apply perm_skip.
    apply Permutation_app_head. symmetry. apply Permutation_cons_append.
Qed.
End Lists.

(** ** Counting threads *)
Definition stt (tl : list ThreadSyncInfo) (t : nat) : TState :=
  match tl !! t with Some x => ts_state x | None => OFFLINE end.
Definition cnt (s : TState) (tl : list ThreadSyncInfo) (l : list nat) : nat :=
  length (filter (fun t => stt tl t = s) l).

Lemma stt_insert tl t x u : (t < length tl)%nat -> stt (<[t := x]> tl) u = if decide (u = t) then ts_state x else stt tl u.
Proof.
  intros Ht. unfold stt. destruct (decide (u = t)) as [->|Hne]; [by rewrite list_lookup_insert_eq|].
  by rewrite list_lookup_insert_ne.
Qed.

Lemma cnt_perm s tl l l' : l ≡ₚ l' -> cnt s tl l = cnt s tl l'.
Proof. intros Hp. unfold cnt. by rewrite Hp. Qed.

Lemma cnt_ext s tl tl' l : (forall t, t ∈ l -> stt tl' t = stt tl t) -> cnt s tl' l = cnt s tl l.
Proof.
  unfold cnt. induction l as [|t l IH]; intros Hx; [done|]. rewrite !filter_cons.
  rewrite (Hx t) by left. specialize (IH (fun u Hu => Hx u (list_elem_of_further _ _ _ Hu))).
  destruct (decide _); simpl; lia.
Qed.

Lemma cnt_cons s tl t l : cnt s tl (t :: l) = ((if decide (stt tl t = s) then 1 else 0) + cnt s tl l)%nat.
Proof. unfold cnt. rewrite filter_cons. by destruct (decide _). Qed.

(** A thread changes its state. *)
Lemma cnt_set s tl l t x : NoDup l -> t ∈ l -> (t < length tl)%nat ->
  (cnt s (<[t := x]> tl) l + (if decide (stt tl t = s) then 1 else 0) =
   cnt s tl l + (if decide (ts_state x = s) then 1 else 0))%nat.
Proof.
  intros Hnd Hin Ht. induction Hnd as [|u l Hu Hnd IH]; [by apply not_elem_of_nil in Hin|].
  rewrite !cnt_cons. destruct (decide (u = t)) as [->|Hne].
  - rewrite (cnt_ext s tl (<[t := x]> tl) l).
    + rewrite (stt_insert tl t x t), (decide_True (P := t = t)) by done. lia.
    + intros v Hv. rewrite stt_insert by done. rewrite decide_False; [done|]. by intros ->.
  - rewrite (stt_insert tl t x u) by done. rewrite (decide_False (P := u = t)) by done.
    assert (t ∈ l) as Hin' by (apply elem_of_cons in Hin as [->|?]; done). specialize (IH Hin'). lia.
Qed.

Lemma cnt_pos s tl l t : t ∈ l -> stt tl t = s -> (0 < cnt s tl l)%nat.
Proof.
  intros Hin Hs. unfold cnt. assert (t ∈ filter (fun t => stt tl t = s) l) as H by (by apply list_elem_of_filter).
  destruct (filter _ l); [by apply not_elem_of_nil in H|simpl; lia].
Qed.

Lemma cnt_le s tl l : (cnt s tl l <= length l)%nat.
Proof. apply length_filter. Qed.

(** Every thread has one state. *)
Lemma cnt_total tl l : (forall t, t ∈ l -> stt tl t <> OFFLINE) ->
  (cnt WAITING tl l + cnt RUNNING tl l + cnt LEFT tl l = length l)%nat.
Proof.
  induction l as [|t l IH]; intros Hin; [done|]. rewrite !cnt_cons. simpl.
  specialize (IH (fun u Hu => Hin u (list_elem_of_further _ _ _ Hu))).
  pose proof (Hin t (list_elem_of_here _ _)) as Ht. destruct (stt tl t); try done; repeat case_decide; try done; lia.
Qed.

(** ** The run list and the threads *)

(** The first [n] entries of the run list are the threads that are not offline,
    once each; a running thread and one that left know their position; the
    futex word is 1 while a thread waits and 0 while it runs. *)
Record list_ok (tl : list ThreadSyncInfo) (rl : list nat) (n : nat) : Prop := {
  lo_threads : length tl = MAX_THREADS;
  lo_runs : length rl = MAX_THREADS;
  lo_size : (n <= length rl)%nat;
  lo_nodup : NoDup (take n rl);
  lo_in : forall t, t ∈ take n rl <-> stt tl t <> OFFLINE;
  lo_idx : forall i t x, (i < n)%nat -> rl !! i = Some t -> tl !! t = Some x ->
    ts_state x = RUNNING \/ ts_state x = LEFT -> ts_lastIdx x = i;
  lo_futex : forall t x, tl !! t = Some x ->
    (ts_state x = WAITING -> ts_futexWord x = 1) /\ (ts_state x = RUNNING -> ts_futexWord x = 0)
}.

Lemma stt_some tl t x : tl !! t = Some x -> stt tl t = ts_state x.
Proof. unfold stt. by intros ->. Qed.

Lemma stt_online tl t : stt tl t <> OFFLINE -> exists x, tl !! t = Some x.
Proof. unfold stt. destruct (tl !! t); [eauto|done]. Qed.

Section ListOk.
Context (tl : list ThreadSyncInfo) (rl : list nat) (n : nat) (Hok : list_ok tl rl n).

(** The entries are threads. *)
Lemma run_thread i : (i < n)%nat -> exists t x, rl !! i = Some t /\ tl !! t = Some x /\ t ∈ take n rl.
Proof.
  intros Hi. pose proof (lo_size _ _ _ Hok). destruct (lookup_lt_is_Some_2 rl i ltac:(lia)) as [t Ht].
  assert (t ∈ take n rl) as Hin.
  { apply list_elem_of_lookup. exists i. by rewrite lookup_take_lt. }
  destruct (stt_online tl t) as [x Hx]; [by apply (lo_in _ _ _ Hok)|]. eauto.
Qed.

Lemma run_in i t : (i < n)%nat -> rl !! i = Some t -> t ∈ take n rl.
Proof. intros Hi Ht. apply list_elem_of_lookup. exists i. by rewrite lookup_take_lt. Qed.

Lemma run_inj i j t : (i < n)%nat -> (j < n)%nat -> rl !! i = Some t -> rl !! j = Some t -> i = j.
Proof.
  intros Hi Hj H1 H2. apply (NoDup_lookup (take n rl) i j t (lo_nodup _ _ _ Hok)); by rewrite lookup_take_lt.
Qed.

Lemma run_pos t : t ∈ take n rl -> exists i, (i < n)%nat /\ rl !! i = Some t.
Proof.
  intros [i Hi]%list_elem_of_lookup. pose proof (lookup_lt_Some _ _ _ Hi) as Hlt. rewrite length_take in Hlt.
  exists i. split; [lia|]. by rewrite lookup_take_lt in Hi by lia.
Qed.

(** An online thread gets a new record; what its state needs is given. *)
Lemma list_ok_set t x :
  t ∈ take n rl -> ts_state x <> OFFLINE ->
  (ts_state x = RUNNING \/ ts_state x = LEFT -> forall i, (i < n)%nat -> rl !! i = Some t -> ts_lastIdx x = i) ->
  (ts_state x = WAITING -> ts_futexWord x = 1) -> (ts_state x = RUNNING -> ts_futexWord x = 0) ->
  list_ok (<[t := x]> tl) rl n.
Proof.
  intros Hin Hs Hl Hw Hr. pose proof Hok as [H1 H2 H3 H4 H5 H6 H7].
  assert (t < length tl)%nat as Hlt.
  { apply H5, stt_online in Hin as [y Hy]. by eapply lookup_lt_Some. }
  split; [by rewrite length_insert|done|done|done|..].
  - intros u. rewrite stt_insert by done. destruct (decide (u = t)) as [->|]; [done|apply H5].
  - intros i u y Hi Hu Hy. apply list_lookup_insert_Some in Hy as [(-> & -> & _)|[_ Hy]]; [by auto|by eapply H6].
  - intros u y Hy. apply list_lookup_insert_Some in Hy as [(-> & -> & _)|[_ Hy]]; [done|by eapply H7].
Qed.

(** Two threads change their places. *)
Lemma list_ok_swap i j a b tl' :
  (i < n)%nat -> (j < n)%nat -> rl !! i = Some a -> rl !! j = Some b -> length tl' = length tl ->
  (forall t x', tl' !! t = Some x' -> exists x, tl !! t = Some x /\ ts_state x' = ts_state x /\
     ts_futexWord x' = ts_futexWord x /\
     ts_lastIdx x' = if decide (t = a) then j else if decide (t = b) then i else ts_lastIdx x) ->
  list_ok tl' (<[j := a]> (<[i := b]> rl)) n /\ (forall t, stt tl' t = stt tl t).
Proof.
  intros Hi Hj Ha Hb Hlen Htl. pose proof Hok as [H1 H2 H3 H4 H5 H6 H7].
  assert (forall t, stt tl' t = stt tl t) as Hst.
  { intros t. unfold stt. destruct (tl' !! t) as [x'|] eqn:E; [by destruct (Htl t x' E) as (x & -> & -> & _)|].
    apply lookup_ge_None in E. rewrite Hlen in E. by apply lookup_ge_None in E as ->. }
  split; [|done]. assert (take n (<[j := a]> (<[i := b]> rl)) ≡ₚ take n rl) as Hp.
  { rewrite !take_insert_lt by done. by apply swap_perm; rewrite lookup_take_lt. }
  split; [congruence|by rewrite !length_insert|by rewrite !length_insert|by rewrite Hp|..].
  - intros t. by rewrite Hp, Hst.
  - intros k t x' Hk Ht Hx' Hs. destruct (Htl t x' Hx') as (x & Hx & E1 & _ & E3). rewrite E1 in Hs. rewrite E3.
    apply list_lookup_insert_Some in Ht as [(-> & -> & _)|[Nj Ht]]; [by rewrite decide_True|].
    apply list_lookup_insert_Some in Ht as [(-> & -> & _)|[Ni Ht]].
    + destruct (decide (t = a)) as [->|]; [|by rewrite decide_True]. exfalso. apply Nj. by eapply run_inj.
    + rewrite !decide_False; [by eapply H6|..]; intros ->; [apply Nj|apply Ni]; by eapply run_inj.
  - intros t x' Hx'. destruct (Htl t x' Hx') as (x & Hx & -> & -> & _). by eapply H7.
Qed.
End ListOk.

(** A thread that left goes offline, and the last one takes its place. *)
Lemma list_ok_remove tl rl n i w v x y tl' :
  list_ok tl rl (S n) -> (i <= n)%nat -> rl !! i = Some w -> rl !! n = Some v -> tl !! w = Some x ->
  <[w := mkTS OFFLINE (ts_futexWord x) (ts_lastIdx x)]> tl !! v = Some y ->
  tl' = <[v := mkTS (ts_state y) (ts_futexWord y) i]> (<[w := mkTS OFFLINE (ts_futexWord x) (ts_lastIdx x)]> tl) ->
  list_ok tl' (<[i := v]> rl) n /\ take (S n) rl ≡ₚ w :: take n (<[i := v]> rl) /\
  (forall t, stt tl' t = if decide (t = w) then OFFLINE else stt tl t).
Proof.
  intros Hok Hi Hw Hv Hx Hy ->. pose proof Hok as [H1 H2 H3 H4 H5 H6 H7].
  pose proof (lookup_lt_Some _ _ _ Hx) as Hlw. pose proof (lookup_lt_Some _ _ _ Hy) as Hlv.
  assert (take (S n) rl ≡ₚ w :: take n (<[i := v]> rl)) as Hp by (by apply swap_remove_perm; [lia|..]).
  set (tl1 := <[w := _]> tl) in *. set (tl2 := <[v := _]> tl1).
  assert (forall t, stt tl2 t = if decide (t = w) then OFFLINE else stt tl t) as Hst.
  { intros t. unfold tl2. rewrite stt_insert by done. simpl. rewrite <- (stt_some _ _ _ Hy).
    assert (stt tl1 t = if decide (t = w) then OFFLINE else stt tl t) as E by (unfold tl1; by rewrite stt_insert).
    by destruct (decide (t = v)) as [->|]. }
  split_and!; [|done|done]. pose proof H4 as Hnd. rewrite Hp in Hnd. apply NoDup_cons in Hnd as [Hnw Hnd].
  split; [unfold tl2, tl1; by rewrite !length_insert|by rewrite length_insert|rewrite length_insert; lia|done|..].
  - intros t. rewrite Hst. specialize (H5 t). rewrite Hp, elem_of_cons in H5.
    destruct (decide (t = w)) as [->|Hne]; [done|]. rewrite <- H5. naive_solver.
  - intros k t z Hk Ht Hz Hs.
    apply list_lookup_insert_Some in Hz as [(<- & <- & _)|[Nv Hz]]; simpl.
    + apply list_lookup_insert_Some in Ht as [(-> & _ & _)|[_ Ht]]; [done|].
      pose proof (run_inj _ _ _ Hok n k v ltac:(lia) ltac:(lia) Hv Ht). lia.
    + apply list_lookup_insert_Some in Ht as [(_ & -> & _)|[Ni Ht]]; [done|].
      apply list_lookup_insert_Some in Hz as [(<- & <- & _)|[Nw Hz]]; [by destruct Hs|].
      eapply (H6 k t); try done. lia.
  - intros t z Hz. apply list_lookup_insert_Some in Hz as [(<- & <- & _)|[_ Hz]]; simpl;
      [apply list_lookup_insert_Some in Hy as [(_ & <- & _)|[_ Hy]]; [done|by eapply H7]|].
    apply list_lookup_insert_Some in Hz as [(<- & <- & _)|[_ Hz]]; [done|by eapply H7].
Qed.

(** Threads are numbered below the size of the table. *)
Lemma nodup_bounded (l : list nat) m : NoDup l -> (forall t, t ∈ l -> (t < m)%nat) -> (length l <= m)%nat.
Proof.
  intros Hnd Hlt. rewrite <- (length_seq m 0). apply submseteq_length, NoDup_submseteq; [done|].
  intros t Ht%Hlt. apply elem_of_seq. lia.
Qed.

(** An offline thread joins at the end of the run list. *)
Lemma list_ok_append tl rl n t x :
  list_ok tl rl n -> (t < MAX_THREADS)%nat -> stt tl t = OFFLINE -> ts_state x = WAITING -> ts_futexWord x = 1 ->
  (n < length rl)%nat /\ list_ok (<[t := x]> tl) (<[n := t]> rl) (S n) /\
  take (S n) (<[n := t]> rl) = take n rl ++ [t] /\ ~ t ∈ take n rl.
Proof.
  intros [H1 H2 H3 H4 H5 H6 H7] Ht Hoff Hs Hf. assert (~ t ∈ take n rl) as Hn by (rewrite H5; auto).
  assert (NoDup (t :: take n rl)) as Hnd by (by constructor).
  assert (n < length rl)%nat as Hlt.
  { rewrite H2. apply (nodup_bounded _ MAX_THREADS) in Hnd.
    - simpl in Hnd. rewrite length_take_le in Hnd by done. lia.
    - intros u [->|Hu]%elem_of_cons; [done|]. apply H5, stt_online in Hu as [y Hy]. rewrite <- H1.
      by eapply lookup_lt_Some. }
  assert (take (S n) (<[n := t]> rl) = take n rl ++ [t]) as Htake.
  { rewrite (take_S_r _ n t) by (by apply list_lookup_insert_eq). by rewrite take_insert_ge. }
  split_and!; [done| |done|done]. split.
  - by rewrite length_insert.
  - by rewrite length_insert.
  - rewrite length_insert. lia.
  - rewrite Htake, <- Permutation_cons_append. done.
  - intros u. rewrite Htake, elem_of_app, list_elem_of_singleton, stt_insert by lia.
    destruct (decide (u = t)) as [->|Hne]; [rewrite Hs; naive_solver|]. rewrite H5. naive_solver.
  - intros i u y Hi Hu Hy Hst. apply list_lookup_insert_Some in Hy as [(-> & -> & _)|[Hne Hy]]; [rewrite Hs in Hst; by destruct Hst|].
    apply list_lookup_insert_Some in Hu as [(_ & -> & _)|[Hi' Hu]]; [done|]. eapply H6; try done. lia.
  - intros u y Hy. apply list_lookup_insert_Some in Hy as [(-> & -> & _)|[_ Hy]]; [by rewrite Hs|by eapply H7].
Qed.
