(* ===== verification/BarrierOps.v ===== *)
(** * The operations of the barrier keep the invariant *)

From stdpp Require Import base list strings.
From Stdlib Require Import ZArith Lia.
From S2P Require Import Prelude Barrier BarrierInv.
Local Open Scope Z_scope.

Section Ops.
Context {S G : Type} `{Callee S} `{RandInt G}.
Implicit Types (b : Barrier S G).

Abbreviation TL := b_threadList.
Abbreviation RL := b_runList.
Definition runs b : list nat := take (b_runListSize b) (RL b).

Record bar_ok b : Prop := {
  bk_list : list_ok (TL b) (RL b) (b_runListSize b);
  bk_cur : (b_curThreadIdx b <= b_runListSize b)%nat;
  bk_running : b_runningThreads b = Z.of_nat (cnt RUNNING (TL b) (runs b));
  bk_left : b_leftThreads b = Z.of_nat (cnt LEFT (TL b) (runs b));
  bk_par : b_runningThreads b <= b_parallelThreads b;
  bk_width : 0 < b_parallelThreads b < 2 ^ 32
}.

(** What is still to do in the phase: threads to look at and threads that run. *)
Definition work b : Z := Z.of_nat (b_runListSize b - b_curThreadIdx b) + b_runningThreads b.

Lemma runs_length b : bar_ok b -> length (runs b) = b_runListSize b.
Proof. intros Hok. unfold runs. apply length_take_le. apply (lo_size _ _ _ (bk_list b Hok)). Qed.

Lemma counts_small b : bar_ok b -> Z.of_nat (b_runListSize b) <= 2048 /\
  0 <= b_runningThreads b <= 2048 /\ 0 <= b_leftThreads b <= 2048 /\
  (cnt RUNNING (TL b) (runs b) + cnt LEFT (TL b) (runs b) <= b_runListSize b)%nat.
Proof.
  intros Hok. pose proof (runs_length b Hok) as Hl. pose proof (bk_list b Hok) as Hlo.
  pose proof (lo_size _ _ _ Hlo) as Hs. rewrite (lo_runs _ _ _ Hlo) in Hs. unfold MAX_THREADS in Hs.
  assert (Z.of_nat (b_runListSize b) <= 2048) by lia.
  rewrite (bk_running b Hok), (bk_left b Hok).
  pose proof (cnt_total (TL b) (runs b)) as Ht. rewrite Hl in Ht.
  specialize (Ht (fun t Hin => proj1 (lo_in _ _ _ Hlo t) Hin)). lia.
Qed.

(** ** Array accesses *)
Lemma wp_thread t x (Q : ThreadSyncInfo -> Barrier S G -> Prop) b : TL b !! t = Some x -> Q x b -> wp (thread t) Q b.
Proof. intros Ht HQ. apply wp_bind, wp_get. by eapply wp_lift; [apply at_ok|]. Qed.
Lemma wp_put_thread t x (Q : unit -> Barrier S G -> Prop) b :
  (t < length (TL b))%nat -> Q tt (set_threads (<[t := x]> (TL b)) b) -> wp (put_thread t x) Q b.
Proof. intros Ht HQ. apply wp_bind, wp_get, wp_bind. by eapply wp_lift; [apply set_at_ok|apply wp_modify]. Qed.
Lemma wp_run_at i t (Q : nat -> Barrier S G -> Prop) b : RL b !! i = Some t -> Q t b -> wp (run_at i) Q b.
Proof. intros Ht HQ. apply wp_bind, wp_get. by eapply wp_lift; [apply at_ok|]. Qed.
Lemma wp_put_run i t (Q : unit -> Barrier S G -> Prop) b :
  (i < length (RL b))%nat -> Q tt (set_runList (<[i := t]> (RL b)) b) -> wp (put_run i t) Q b.
Proof. intros Ht HQ. apply wp_bind, wp_get, wp_bind. by eapply wp_lift; [apply set_at_ok|apply wp_modify]. Qed.

(** An update of one field of a thread. *)
Lemma wp_upd_thread t x f (Q : unit -> Barrier S G -> Prop) b :
  TL b !! t = Some x -> Q tt (set_threads (<[t := f x]> (TL b)) b) -> wp (y <- thread t ;; put_thread t (f y)) Q b.
Proof.
  intros Ht HQ. apply wp_bind. eapply wp_thread; [done|]. apply wp_put_thread; [by eapply lookup_lt_Some|done].
Qed.
Lemma wp_set_state t x s (Q : unit -> Barrier S G -> Prop) b :
  TL b !! t = Some x -> Q tt (set_threads (<[t := mkTS s (ts_futexWord x) (ts_lastIdx x)]> (TL b)) b) ->
  wp (set_state t s) Q b.
Proof. apply (wp_upd_thread t x (fun x => mkTS s (ts_futexWord x) (ts_lastIdx x))). Qed.
Lemma wp_set_lastIdx t x i (Q : unit -> Barrier S G -> Prop) b :
  TL b !! t = Some x -> Q tt (set_threads (<[t := mkTS (ts_state x) (ts_futexWord x) i]> (TL b)) b) ->
  wp (set_lastIdx t i) Q b.
Proof. apply (wp_upd_thread t x (fun x => mkTS (ts_state x) (ts_futexWord x) i)). Qed.
Lemma wp_set_futex t x w (Q : unit -> Barrier S G -> Prop) b :
  TL b !! t = Some x -> Q tt (set_threads (<[t := mkTS (ts_state x) w (ts_lastIdx x)]> (TL b)) b) ->
  wp (set_futex t w) Q b.
Proof. apply (wp_upd_thread t x (fun x => mkTS (ts_state x) w (ts_lastIdx x))). Qed.

(** ** Waking *)

(** A thread in the part of the run list that is still to be looked at. *)
Definition unseen b (t : nat) : Prop :=
  exists i, (b_curThreadIdx b <= i < b_runListSize b)%nat /\ RL b !! i = Some t.

(** What waking threads changes. *)
Record woke b b' : Prop := {
  wk_par : b_parallelThreads b' = b_parallelThreads b;
  wk_runs : RL b' = RL b;
  wk_size : b_runListSize b' = b_runListSize b;
  wk_left : b_leftThreads b' = b_leftThreads b;
  wk_phase : b_phaseCount b' = b_phaseCount b;
  wk_sched : b_sched b' = b_sched b;
  wk_cur : (b_curThreadIdx b <= b_curThreadIdx b')%nat;
  wk_running : b_runningThreads b <= b_runningThreads b';
  wk_work : work b' <= work b;
  wk_states : forall t, stt (TL b') t = stt (TL b) t \/ (stt (TL b) t = WAITING /\ stt (TL b') t = RUNNING);
  wk_unseen : forall t, unseen b t -> stt (TL b') t = WAITING -> unseen b' t
}.

Lemma woke_refl b : woke b b.
Proof. by split; auto. Qed.
Lemma woke_trans b1 b2 b3 : woke b1 b2 -> woke b2 b3 -> woke b1 b3.
Proof.
  intros [] []. split; try congruence; try lia.
  - intros t. destruct (wk_states0 t) as [E|[E1 E2]], (wk_states1 t) as [F|[F1 F2]];
      first [left; congruence|right; split; congruence].
  - intros t Hu Hw. apply wk_unseen1; [|done]. apply wk_unseen0; [done|]. destruct (wk_states1 t) as [F|[F1 F2]]; congruence.
Qed.

(** A thread that the run list still has to offer. *)
Definition pending b : Prop :=
  exists i t, (b_curThreadIdx b <= i < b_runListSize b)%nat /\ RL b !! i = Some t /\ stt (TL b) t = WAITING.

Lemma unseen_pending b t : unseen b t -> stt (TL b) t = WAITING -> pending b.
Proof. intros (i & Hi & Ht) Hw. by exists i, t. Qed.

Lemma wake_next_ok b : bar_ok b -> can_wake b = true ->
  wp wake_next (fun _ b' => bar_ok b' /\ woke b b' /\ b_curThreadIdx b' = (b_curThreadIdx b + 1)%nat /\
    (pending b -> 0 < b_runningThreads b' \/ pending b')) b.
Proof.
  intros Hok [Hrun Hcur]%andb_true_iff. apply Z.ltb_lt in Hrun. apply Nat.ltb_lt in Hcur.
  pose proof Hok as [Hl Hc Hr Hlf Hp Hw]. pose proof (counts_small b Hok) as (Hs1 & Hs2 & Hs3 & _).
  destruct (run_thread _ _ _ Hl (b_curThreadIdx b) Hcur) as (t & x & Ht & Hx & Hin).
  unfold wake_next. apply wp_bind, wp_get, wp_bind, wp_modify, wp_bind. eapply wp_run_at; [exact Ht|].
  apply wp_bind. eapply wp_thread; [exact Hx|].
  destruct (bool_decide_reflect (ts_state x = WAITING)) as [Hst|Hst].
  - destruct (lo_futex _ _ _ Hl t x Hx) as [Hf _]. pose proof (lookup_lt_Some _ _ _ Hx) as Hlt.
    apply wp_bind. eapply wp_set_state; [exact Hx|]. apply wp_bind.
    eapply wp_set_lastIdx; [by apply list_lookup_insert_eq|]. apply wp_bind. rewrite (Hf Hst), Z.eqb_refl.
    eapply wp_set_futex; [simpl; rewrite list_insert_insert_eq; by apply list_lookup_insert_eq|].
    apply wp_modify. simpl. rewrite !list_insert_insert_eq.
    set (y := mkTS RUNNING 0 (b_curThreadIdx b)).
    assert (list_ok (<[t := y]> (TL b)) (RL b) (b_runListSize b)) as Hl'.
    { apply list_ok_set; try done. intros _ i Hi Hti. symmetry. by eapply run_inj. }
    pose proof (cnt_set RUNNING _ _ _ y (lo_nodup _ _ _ Hl) Hin Hlt) as C1.
    pose proof (cnt_set LEFT _ _ _ y (lo_nodup _ _ _ Hl) Hin Hlt) as C2.
    rewrite (stt_some _ _ _ Hx), Hst in C1, C2. simpl in C1, C2. repeat case_decide; try done.
    rewrite u32_id by (unfold in_u32; lia).
    split_and!.
    + split; simpl; try done; try lia. all: unfold runs in *; simpl; lia.
    + split; simpl; try done; try lia; [unfold work; simpl; lia|..].
      * intros u. rewrite stt_insert by done. destruct (decide (u = t)) as [->|]; [|by left].
        right. by rewrite (stt_some _ _ _ Hx).
      * intros u (i & Hi & Hu). rewrite stt_insert by done. destruct (decide (u = t)) as [->|Hne]; [done|]. intros _.
        exists i. split; [|done]. simpl. assert (i <> b_curThreadIdx b) by congruence. lia.
    + done.
    + intros _. left. simpl. lia.
  - apply wp_ret. split_and!.
    + split; simpl; try done; lia.
    + split; simpl; try done; try lia; [unfold work; simpl; lia|auto|].
      intros u (i & Hi & Hu) Hus. exists i. split; [|done]. simpl.
      destruct (decide (i = b_curThreadIdx b)) as [->|]; [|lia]. simplify_eq. by rewrite (stt_some _ _ _ Hx) in Hus.
    + done.
    + intros (i & u & Hi & Hu & Hus). right. exists i, u. simpl. split_and!; try done; [|lia].
      destruct (decide (i = b_curThreadIdx b)) as [->|]; [|lia]. simplify_eq. by rewrite (stt_some _ _ _ Hx) in Hus.
Qed.

Lemma run_list_loop_ok fuel : forall b, bar_ok b -> (b_runListSize b - b_curThreadIdx b <= fuel)%nat ->
  wp (run_list_loop fuel) (fun _ b' => bar_ok b' /\ woke b b' /\ can_wake b' = false /\
    (0 < b_runningThreads b \/ pending b -> 0 < b_runningThreads b')) b.
Proof.
  induction fuel as [|fuel IH]; intros b Hok Hf; (apply wp_bind, wp_get; destruct (can_wake b) eqn:Ec).
  - apply andb_true_iff in Ec as [_ Ec]. apply Nat.ltb_lt in Ec. lia.
  - apply wp_ret. split_and!; [done|apply woke_refl|done|]. intros [|(i & t & ? & _)]; [done|lia].
  - apply wp_bind. eapply wp_mono; [by apply wake_next_ok|]. intros _ b1 (Hok1 & W1 & E1 & P1).
    apply andb_true_iff in Ec as [_ Ec]. apply Nat.ltb_lt in Ec.
    eapply wp_mono; [apply IH; [done|rewrite (wk_size _ _ W1), E1; lia]|].
    intros _ b2 (Hok2 & W2 & C2 & P2). split_and!; [done|by eapply woke_trans|done|].
    intros [Hr|Hp]; [pose proof (wk_running _ _ W1); pose proof (wk_running _ _ W2); lia|]. by apply P2, P1.
  - apply wp_ret. split_and!; [done|apply woke_refl|done|]. intros [|(i & t & Hi & _)]; [done|].
    apply andb_false_iff in Ec as [Ec|Ec]; [apply Z.ltb_ge in Ec|apply Nat.ltb_ge in Ec; lia].
    pose proof (bk_width b Hok). lia.
Qed.

Lemma checkRunList_ok b : bar_ok b ->
  wp checkRunList (fun _ b' => bar_ok b' /\ woke b b' /\ can_wake b' = false /\
    (0 < b_runningThreads b \/ pending b -> 0 < b_runningThreads b')) b.
Proof. intros Hok. apply wp_bind, wp_get. by apply run_list_loop_ok. Qed.

(** ** The end of a phase *)

(** The fields that reordering the run list does not change. *)
Record kept b b' : Prop := {
  kp_par : b_parallelThreads b' = b_parallelThreads b;
  kp_size : b_runListSize b' = b_runListSize b;
  kp_cur : b_curThreadIdx b' = b_curThreadIdx b;
  kp_running : b_runningThreads b' = b_runningThreads b;
  kp_left : b_leftThreads b' = b_leftThreads b;
  kp_phase : b_phaseCount b' = b_phaseCount b;
  kp_sched : b_sched b' = b_sched b
}.
Lemma kept_refl b : kept b b.
Proof. by split. Qed.
Lemma kept_trans b1 b2 b3 : kept b1 b2 -> kept b2 b3 -> kept b1 b3.
Proof. intros [] []. split; congruence. Qed.

(** No thread of the run list has left. *)
Lemma none_left n b : list_ok (TL b) (RL b) n ->
  (forall k t, (k < n)%nat -> RL b !! k = Some t -> stt (TL b) t <> LEFT) ->
  cnt LEFT (TL b) (take n (RL b)) = 0%nat /\ forall t, stt (TL b) t <> LEFT.
Proof.
  intros Hok Hno. assert (forall t, stt (TL b) t <> LEFT) as Hall.
  { intros t Ht. assert (t ∈ take n (RL b)) as Hin by (apply (lo_in _ _ _ Hok); by rewrite Ht).
    apply run_pos in Hin as (k & Hk & Hkt). by eapply Hno. }
  split; [|done]. unfold cnt. apply length_zero_iff_nil. destruct (filter _ _) as [|t l] eqn:E; [done|].
  assert (t ∈ filter (fun t => stt (TL b) t = LEFT) (take n (RL b))) as Hin by (rewrite E; left).
  by apply list_elem_of_filter in Hin as [?%Hall _].
Qed.

Lemma cleanup_loop_ok fuel : forall i n b,
  list_ok (TL b) (RL b) n -> (n - i <= fuel)%nat -> (i <= n)%nat ->
  (forall k t, (k < i)%nat -> RL b !! k = Some t -> stt (TL b) t <> LEFT) ->
  wp (cleanup_loop fuel i n) (fun m b' => list_ok (TL b') (RL b') m /\ kept b b' /\ (m <= n)%nat /\
    cnt LEFT (TL b) (take n (RL b)) = (n - m)%nat /\ cnt LEFT (TL b') (take m (RL b')) = 0%nat /\
    (forall t, stt (TL b') t = if decide (stt (TL b) t = LEFT) then OFFLINE else stt (TL b) t)) b.
Proof.
  induction fuel as [|fuel IH]; intros i n b Hok Hf Hi Hno; simpl; (destruct (Nat.ltb_spec i n) as [Hlt|Hge]; [|assert (i = n) as -> by lia]).
  - lia.
  - apply wp_ret. destruct (none_left n b Hok Hno) as [E1 E2]. split_and!; try done; try lia.
    intros t. by rewrite decide_False.
  - destruct n as [|n]; [lia|]. destruct (run_thread _ _ _ Hok i Hlt) as (w & x & Hw & Hx & Hin).
    apply wp_bind. eapply wp_run_at; [exact Hw|]. apply wp_bind. eapply wp_thread; [exact Hx|].
    destruct (bool_decide_reflect (ts_state x = LEFT)) as [Hst|Hst].
    + apply wp_bind. eapply wp_set_state; [exact Hx|]. simpl. rewrite Nat.sub_0_r.
      destruct (run_thread _ _ _ Hok n ltac:(lia)) as (v & x' & Hv & Hx' & _).
      apply wp_bind. eapply wp_run_at; [exact Hv|]. apply wp_bind.
      eapply wp_put_run; [simpl; by eapply lookup_lt_Some|].
      destruct (lookup_lt_is_Some_2 (<[w := mkTS OFFLINE (ts_futexWord x) (ts_lastIdx x)]> (TL b)) v) as [y Hy].
      { rewrite length_insert. by eapply lookup_lt_Some. }
      apply wp_bind. eapply wp_set_lastIdx; [exact Hy|]. simpl.
      destruct (list_ok_remove _ _ n i w v x y _ Hok ltac:(lia) Hw Hv Hx Hy eq_refl) as (Hok' & Hp & Hst').
      eapply wp_mono; [apply IH; simpl; [exact Hok'|lia|lia|]|].
      * intros k t Hk Ht. rewrite list_lookup_insert_ne in Ht by lia. rewrite Hst'. case_decide; [done|]. by eapply Hno.
      * intros m b' (A1 & A2 & A3 & A4 & A5 & A6). simpl in *. split_and!; try done; [|lia|..].
        -- eapply kept_trans; [|exact A2]. by split.
        -- rewrite (cnt_perm _ _ _ _ Hp), cnt_cons, (stt_some _ _ _ Hx), decide_True by done.
           rewrite (cnt_ext LEFT (TL b)) in A4; [rewrite A4; lia|].
           intros t Ht. rewrite Hst'. rewrite decide_False; [done|]. intros ->.
           pose proof (lo_nodup _ _ _ Hok) as Hnd. rewrite Hp in Hnd. by apply NoDup_cons in Hnd as [? _].
        -- intros t. rewrite A6, Hst'. destruct (decide (t = w)) as [->|]; [|done].
           by rewrite (stt_some _ _ _ Hx), Hst.
    + rewrite Nat.add_1_r. apply IH; [done|lia|lia|]. intros k t Hk Ht.
      destruct (decide (k = i)) as [->|]; [|eapply Hno; [|done]; lia]. simplify_eq. by rewrite (stt_some _ _ _ Hx).
  - apply wp_ret. destruct (none_left n b Hok Hno) as [E1 E2]. split_and!; try done; try lia.
    intros t. by rewrite decide_False.
Qed.

Lemma cleanup_ok b : bar_ok b -> b_runningThreads b = 0 -> (0 < b_runListSize b)%nat -> b_curThreadIdx b = 0%nat ->
  wp cleanup (fun _ b' => bar_ok b' /\ b_curThreadIdx b' = 0%nat /\ b_runningThreads b' = 0 /\
    b_parallelThreads b' = b_parallelThreads b /\ b_phaseCount b' = b_phaseCount b /\ b_sched b' = b_sched b /\
    (forall t, stt (TL b') t = if decide (stt (TL b) t = LEFT) then OFFLINE else stt (TL b) t)) b.
Proof.
  intros Hok Hzero Hs Hc. pose proof Hok as [Hl _ Hr Hlf Hp Hw].
  unfold cleanup. apply wp_bind, wp_get, wp_bind, wp_assert; [by apply Nat.ltb_lt|]. apply wp_bind.
  eapply wp_mono; [apply cleanup_loop_ok; [exact Hl|lia|lia|intros k t Hk; lia]|].
  intros m b' (A1 & [K1 K2 K3 K4 K5 K6 K7] & A3 & A4 & A5 & A6). apply wp_bind, wp_get, wp_bind, wp_assert.
  { apply Z.eqb_eq. rewrite K2, K5, Hlf. unfold runs. by rewrite A4. }
  apply wp_bind, wp_modify, wp_modify. split_and!; simpl; try congruence; [|exact A6].
  split; simpl; [done|lia|..].
  - rewrite K4, Hzero. unfold runs. simpl. apply eq_sym. rewrite Hr in Hzero. unfold runs in Hzero.
    destruct (cnt RUNNING (TL b') (take m (RL b'))) as [|k] eqn:E; [done|].
    assert (exists t, stt (TL b') t = RUNNING) as [t Ht].
    { unfold cnt in E. destruct (filter _ _) as [|t l] eqn:Ef; [done|]. exists t.
      assert (t ∈ filter (fun t => stt (TL b') t = RUNNING) (take m (RL b'))) as Hin by (rewrite Ef; left).
      by apply list_elem_of_filter in Hin as [? _]. }
    rewrite A6 in Ht. case_decide; [done|].
    assert (0 < cnt RUNNING (TL b) (runs b))%nat; [|unfold runs in *; lia].
    apply (cnt_pos _ _ _ t); [|done]. apply (lo_in _ _ _ Hl). by rewrite Ht.
  - unfold runs. simpl. by rewrite A5.
  - rewrite K4, K1. lia.
  - by rewrite K1.
Qed.

Lemma shuffle_ok n i : forall b, list_ok (TL b) (RL b) n -> (i < n)%nat ->
  wp (shuffle i) (fun _ b' => list_ok (TL b') (RL b') n /\ kept b b' /\ take n (RL b') ≡ₚ take n (RL b) /\
    (forall t, stt (TL b') t = stt (TL b) t)) b.
Proof.
  induction i as [|i IH]; intros b Hok Hi; [by apply wp_ret|]. simpl.
  apply wp_bind, wp_get. pose proof (randInt_le (Datatypes.S i) (b_rnd b)) as Hj.
  destruct (randInt (Datatypes.S i) (b_rnd b)) as [j g] eqn:Er. simpl in Hj.
  apply wp_bind, wp_modify, wp_bind.
  destruct (run_thread _ _ _ Hok (Datatypes.S i) Hi) as (a & x & Ha & Hx & _).
  destruct (run_thread _ _ _ Hok j ltac:(lia)) as (c & y & Hc & Hy & _).
  eapply wp_run_at; [exact Ha|]. apply wp_bind. eapply wp_run_at; [exact Hc|].
  apply wp_bind. eapply wp_put_run; [simpl; by eapply lookup_lt_Some|].
  apply wp_bind. eapply wp_put_run; [simpl; rewrite length_insert; by eapply lookup_lt_Some|].
  apply wp_bind. eapply wp_set_lastIdx; [exact Hx|]. simpl.
  pose proof (lookup_lt_Some _ _ _ Hx) as Hla. pose proof (lookup_lt_Some _ _ _ Hy) as Hlc.
  set (tl1 := <[a := _]> (TL b)).
  destruct (lookup_lt_is_Some_2 tl1 c) as [y1 Hy1]; [unfold tl1; by rewrite length_insert|].
  apply wp_bind. eapply wp_set_lastIdx; [exact Hy1|]. simpl.
  destruct (list_ok_swap _ _ _ Hok (Datatypes.S i) j a c (<[c := mkTS (ts_state y1) (ts_futexWord y1) (Datatypes.S i)]> tl1))
    as [Hok' Hst]; try done; [lia|unfold tl1; by rewrite !length_insert|..].
  { intros t z Hz. unfold tl1 in *.
    apply list_lookup_insert_Some in Hz as [(<- & <- & _)|[Nc Hz]]; simpl.
    - apply list_lookup_insert_Some in Hy1 as [(<- & <- & _)|[Na Hy1]].
      + exists x. rewrite decide_True by done. split_and!; try done. simpl.
        by apply (run_inj _ _ _ Hok _ _ a); [lia|lia|..].
      + exists y. simplify_eq. rewrite decide_False, decide_True by done. done.
    - apply list_lookup_insert_Some in Hz as [(<- & <- & _)|[Na Hz]]; simpl.
      + exists x. by rewrite decide_True.
      + exists z. by rewrite !decide_False. }
  eapply wp_mono; [apply IH; simpl; [exact Hok'|lia]|].
  intros _ b' (B1 & B2 & B3 & B4). simpl in *. split_and!; [done|..].
  - eapply kept_trans; [|exact B2]. by split.
  - rewrite B3, !take_insert_lt by lia. by apply swap_perm; rewrite lookup_take_lt by lia.
  - intros t. by rewrite B4.
Qed.

(** A reordered run list counts the same. *)
Lemma bar_ok_reordered b b' : bar_ok b -> list_ok (TL b') (RL b') (b_runListSize b) -> kept b b' ->
  runs b' ≡ₚ runs b -> (forall t, stt (TL b') t = stt (TL b) t) -> bar_ok b'.
Proof.
  intros [Hl Hc Hr Hlf Hp Hw] Hl' [K1 K2 K3 K4 K5 K6 K7] Hperm Hst.
  split; rewrite ?K1, ?K2, ?K3, ?K4, ?K5; try done.
  - rewrite (cnt_perm _ _ _ _ Hperm), (cnt_ext RUNNING (TL b)); [done|]. intros t _. apply Hst.
  - rewrite (cnt_perm _ _ _ _ Hperm), (cnt_ext LEFT (TL b)); [done|]. intros t _. apply Hst.
Qed.

(** The state after the actions at the end of a phase. *)
Record ended b b' : Prop := {
  ed_ok : bar_ok b';
  ed_cur : b_curThreadIdx b' = 0%nat;
  ed_running : b_runningThreads b' = 0;
  ed_par : b_parallelThreads b' = b_parallelThreads b;
  ed_phase : b_phaseCount b' = u32 (b_phaseCount b + 1);
  ed_sched : b_sched b' = callback (b_sched b);
  ed_states : forall t, stt (TL b') t = stt (TL b) t \/ (stt (TL b) t = LEFT /\ stt (TL b') t = OFFLINE)
}.

Lemma end_phase_ok b : bar_ok b -> b_runningThreads b = 0 -> (0 < b_runListSize b)%nat ->
  wp end_phase (fun _ b' => ended b b') b.
Proof.
  intros Hok Hz Hs. unfold end_phase. apply wp_bind, wp_modify, wp_bind, wp_modify, wp_bind, wp_get, wp_bind, wp_modify.
  set (b1 := set_phase _ _). assert (bar_ok b1) as Hok1.
  { destruct Hok. split; simpl; try done; lia. }
  assert (ended b b1) as E1 by (split; simpl; auto).
  apply wp_bind. assert (wp (when (Z.land (b_phaseCount b) 31 =? 0) cleanup) (fun _ b' => ended b b') b1) as Hcl.
  { apply wp_when; [|done]. intros _. eapply wp_mono; [by apply cleanup_ok|].
    intros _ b2 (A1 & A2 & A3 & A4 & A5 & A6 & A7). split; try done. intros t. rewrite A7. simpl.
    case_decide; [by right|by left]. }
  eapply wp_mono; [exact Hcl|]. intros _ b2 [B1 B2 B3 B4 B5 B6 B7]. apply wp_bind, wp_get, wp_when; [|done].
  intros Hlt%Z.ltb_lt. pose proof (bk_width b2 B1) as Hw.
  eapply wp_mono; [apply (shuffle_ok (b_runListSize b2)); [apply B1|lia]|].
  intros _ b3 (C1 & C2 & C3 & C4). pose proof C2 as [K1 K2 K3 K4 K5 K6 K7].
  split; try congruence; [|intros t; rewrite C4; apply B7].
  apply (bar_ok_reordered b2); try done. unfold runs. by rewrite K2.
Qed.

Lemma some_waiting b : bar_ok b -> b_runningThreads b = 0 -> b_leftThreads b <> Z.of_nat (b_runListSize b) ->
  exists t, stt (TL b) t = WAITING.
Proof.
  intros Hok Hz Hne. pose proof (bk_running b Hok) as Hr. pose proof (bk_left b Hok) as Hlf.
  pose proof (cnt_total (TL b) (runs b) (fun t Hin => proj1 (lo_in _ _ _ (bk_list b Hok) t) Hin)) as Ht.
  rewrite (runs_length b Hok) in Ht. destruct (cnt WAITING (TL b) (runs b)) eqn:E; [lia|].
  unfold cnt in E. destruct (filter _ _) as [|t l] eqn:Ef; [done|]. exists t.
  assert (t ∈ filter (fun t => stt (TL b) t = WAITING) (runs b)) as Hin by (rewrite Ef; left).
  by apply list_elem_of_filter in Hin as [? _].
Qed.

Lemma waiting_unseen b t : bar_ok b -> b_curThreadIdx b = 0%nat -> stt (TL b) t = WAITING -> unseen b t.
Proof.
  intros Hok Hc Ht. assert (t ∈ runs b) as Hin by (apply (lo_in _ _ _ (bk_list b Hok)); by rewrite Ht).
  apply run_pos in Hin as (i & Hi & Hit). exists i. split_and!; [lia|lia|done].
Qed.
Lemma waiting_pending b t : bar_ok b -> b_curThreadIdx b = 0%nat -> stt (TL b) t = WAITING -> pending b.
Proof. intros Hok Hc Ht. apply (unseen_pending b t); [by apply waiting_unseen|done]. Qed.

(** Between two operations: no thread can be woken, and if none runs all have
    left. *)
Definition quiet b : Prop :=
  can_wake b = false /\ (b_runningThreads b = 0 -> b_leftThreads b = Z.of_nat (b_runListSize b)).

(** The phase goes on, or it ended while no thread was running. *)
Inductive advanced b b' : Prop :=
| adv_same : woke b b' -> advanced b b'
| adv_phase : b_parallelThreads b' = b_parallelThreads b -> b_phaseCount b' = u32 (b_phaseCount b + 1) ->
    b_sched b' = callback (b_sched b) -> (forall t, stt (TL b) t <> RUNNING) ->
    (forall t, stt (TL b') t = stt (TL b) t \/ (stt (TL b) t = WAITING /\ stt (TL b') t = RUNNING) \/
       (stt (TL b) t = LEFT /\ stt (TL b') t = OFFLINE)) ->
    (forall t, unseen b t -> stt (TL b) t <> WAITING) -> (forall t, stt (TL b') t = WAITING -> unseen b' t) ->
    advanced b b'.

Lemma none_running b t : bar_ok b -> b_runningThreads b = 0 -> stt (TL b) t <> RUNNING.
Proof.
  intros Hok Hz Ht. pose proof (bk_running b Hok) as Hr.
  assert (t ∈ runs b) as Hin by (apply (lo_in _ _ _ (bk_list b Hok)); by rewrite Ht).
  pose proof (cnt_pos RUNNING (TL b) (runs b) t Hin Ht). lia.
Qed.

Lemma not_can_wake b : bar_ok b -> can_wake b = false -> b_runningThreads b = 0 -> b_curThreadIdx b = b_runListSize b.
Proof.
  intros Hok Hc Hz. pose proof (bk_width b Hok). pose proof (bk_cur b Hok).
  apply andb_false_iff in Hc as [Hc%Z.ltb_ge|Hc%Nat.ltb_ge]; lia.
Qed.

Lemma tryWakeNext_ok b : bar_ok b ->
  wp tryWakeNext (fun _ b' => bar_ok b' /\ quiet b' /\ advanced b b' /\
    (0 < b_runningThreads b \/ pending b -> woke b b')) b.
Proof.
  intros Hok. unfold tryWakeNext. apply wp_bind. eapply wp_mono; [by apply checkRunList_ok|].
  intros _ b1 (Hok1 & W1 & C1 & P1). apply wp_bind. unfold checkEndPhase. apply wp_bind, wp_get.
  assert (forall Q : Barrier S G -> Prop, quiet b1 -> (forall b', bar_ok b' -> quiet b' -> woke b1 b' -> Q b') ->
    wp checkRunList (fun _ => Q) b1) as Hsame.
  { intros Q [_ Hq] HQ. eapply wp_mono; [by apply checkRunList_ok|]. intros _ b2 (Hok2 & W2 & C2 & P2).
    apply HQ; try done. split; [done|]. intros Hz. rewrite (wk_left _ _ W2), (wk_size _ _ W2). apply Hq.
    pose proof (wk_running _ _ W2). pose proof (counts_small b1 Hok1). lia. }
  destruct (_ && _)%bool eqn:Ec.
  - apply andb_true_iff in Ec as [Ec1%Nat.eqb_eq Ec2%Z.eqb_eq].
    destruct (Z.eqb_spec (b_leftThreads b1) (Z.of_nat (b_runListSize b1))) as [El|Hne].
    + apply wp_ret, Hsame; [by split|]. intros b2 Hok2 Q2 W2.
      assert (woke b b2) by (by eapply woke_trans). split_and!; try done. by apply adv_same.
    + destruct (some_waiting b1 Hok1 Ec2 Hne) as [t Ht].
      assert (0 < b_runListSize b1)%nat as Hs.
      { assert (t ∈ runs b1) as Hin by (apply (lo_in _ _ _ (bk_list b1 Hok1)); by rewrite Ht).
        apply run_pos in Hin as (i & Hi & _). lia. }
      eapply wp_mono; [by apply end_phase_ok|]. intros _ b2 [Hok2 D2 D3 D4 D5 D6 D7].
      eapply wp_mono; [by apply checkRunList_ok|]. intros _ b3 (Hok3 & W3 & C3 & P3).
      assert (0 < b_runningThreads b3) as Hpos.
      { apply P3. right. apply (waiting_pending b2 t); try done. by destruct (D7 t) as [->|[? _]]; [|congruence]. }
      assert (forall u, stt (TL b) u <> RUNNING /\ stt (TL b1) u = stt (TL b) u) as Hnr.
      { intros u. pose proof (none_running b1 u Hok1 Ec2) as Hu. destruct (wk_states _ _ W1 u) as [E|[_ E]]; [|done].
        by rewrite E in Hu. }
      split_and!; [done|split; [done|lia]| |].
      * apply adv_phase; [rewrite (wk_par _ _ W3), D4; apply W1|rewrite (wk_phase _ _ W3), D5; by rewrite (wk_phase _ _ W1)
          |rewrite (wk_sched _ _ W3), D6; by rewrite (wk_sched _ _ W1)|apply Hnr|..].
        2: { intros u Hun Hus. pose proof (P1 (or_intror (unseen_pending b u Hun Hus))). lia. }
        2: { intros u Hus. apply (wk_unseen _ _ W3); [|done]. apply waiting_unseen; [done|done|].
             destruct (wk_states _ _ W3 u) as [F|[F1 F2]]; congruence. }
        intros u. destruct (Hnr u) as [_ Hu]. rewrite <- Hu.
        destruct (D7 u) as [E|[E1 E2]], (wk_states _ _ W3 u) as [F|[F1 F2]]; rewrite ?F, ?E, ?F2; auto; try congruence.
        right. left. by rewrite <- E.
      * intros Hor. apply P1 in Hor. lia.
  - apply wp_ret, Hsame.
    + split; [done|]. intros Hz. pose proof (not_can_wake b1 Hok1 C1 Hz) as Hcur.
      apply Nat.eqb_eq in Hcur. rewrite Hcur, Hz in Ec. done.
    + intros b2 Hok2 Q2 W2. assert (woke b b2) by (by eapply woke_trans). split_and!; try done. by apply adv_same.
Qed.
End Ops.
