(* ===== verification/BarrierSteps.v ===== *)
(** * Joining, leaving and synchronising *)

From stdpp Require Import base list strings.
From Stdlib Require Import ZArith Lia.
From S2P Require Import Prelude Barrier BarrierInv BarrierOps.
Local Open Scope Z_scope.

Section Steps.
Context {S G : Type} `{Callee S} `{RandInt G}.
Implicit Types (b : Barrier S G).
Abbreviation TL := b_threadList.
Abbreviation RL := b_runList.

(** The state of a thread after thread [t] got the state [s] and threads were
    woken or taken offline. *)
Definition becomes (s0 s1 : TState) : Prop :=
  s1 = s0 \/ (s0 = WAITING /\ s1 = RUNNING) \/ (s0 = LEFT /\ s1 = OFFLINE).
Definition with_state (t : nat) (s : TState) (st : nat -> TState) (u : nat) : TState := if decide (u = t) then s else st u.

(** The phase goes on. *)
Definition continues b b' : Prop := b_phaseCount b' = b_phaseCount b /\ b_sched b' = b_sched b.
(** The phase ended; no thread but [t] was running, and none was still to be
    looked at. *)
Definition phase_ends (t : nat) b b' : Prop :=
  b_phaseCount b' = u32 (b_phaseCount b + 1) /\ b_sched b' = callback (b_sched b) /\
  forall u, u <> t -> stt (TL b) u <> RUNNING /\ (unseen b u -> stt (TL b) u <> WAITING).

(** Which of the waiting threads are still to be looked at. *)
Definition unseen_from (P : nat -> Prop) b' : Prop := forall u, P u -> stt (TL b') u = WAITING -> unseen b' u.
(** What the operations of [t] keep of that. *)
Definition looked (t : nat) b b' : Prop :=
  (continues b b' -> unseen_from (fun u => u <> t /\ unseen b u) b') /\
  (phase_ends t b b' -> unseen_from (fun _ => True) b').

(** What every operation of thread [t] guarantees. *)
Record op_post (t : nat) (s : TState) b b' : Prop := {
  op_bar : bar_ok b';
  op_quiet : quiet b';
  op_par : b_parallelThreads b' = b_parallelThreads b;
  op_states : forall u, becomes (with_state t s (stt (TL b)) u) (stt (TL b') u)
}.

(** Thread [t], which runs, goes into state [s] and waking threads follows. *)
Definition stopped (t : nat) (x : ThreadSyncInfo) (l : Z) b : Barrier S G :=
  set_running (b_runningThreads b - 1) (set_left l (set_threads (<[t := x]> (TL b)) b)).

Lemma stopped_ok t x y b : bar_ok b -> TL b !! t = Some y -> ts_state y = RUNNING ->
  (ts_state x = WAITING /\ ts_futexWord x = 1 \/ ts_state x = LEFT /\ ts_lastIdx x = ts_lastIdx y) ->
  bar_ok (stopped t x (b_leftThreads b + if decide (ts_state x = LEFT) then 1 else 0) b).
Proof.
  intros [Hl Hc Hr Hlf Hp Hw] Hy Hst Hx. pose proof (lookup_lt_Some _ _ _ Hy) as Hlt.
  assert (t ∈ runs b) as Hin by (apply (lo_in _ _ _ Hl); by rewrite (stt_some _ _ _ Hy), Hst).
  pose proof (cnt_set RUNNING _ _ _ x (lo_nodup _ _ _ Hl) Hin Hlt) as C1.
  pose proof (cnt_set LEFT _ _ _ x (lo_nodup _ _ _ Hl) Hin Hlt) as C2.
  rewrite (stt_some _ _ _ Hy), Hst in C1, C2. unfold stopped, runs in *.
  split; simpl; try done; try lia.
  - apply list_ok_set; try done; try naive_solver congruence.
    intros Hor i Hi Hit. destruct Hx as [[E _]|[_ ->]]; [by rewrite E in Hor; destruct Hor|].
    by apply (lo_idx _ _ _ Hl i t y); auto.
  - destruct Hx as [[E _]|[E _]]; rewrite E in C1; simpl in C1; repeat case_decide; try done; unfold runs; simpl; lia.
  - destruct Hx as [[E _]|[E _]]; rewrite E in C2 |- *; simpl in C2; repeat case_decide; try done; unfold runs; simpl; lia.
Qed.

Lemma phase_moves z : u32 (z + 1) <> z.
Proof.
  unfold u32. intros E. pose proof (Z.div_mod (z + 1) (2 ^ 32) ltac:(lia)) as D. rewrite E in D. lia.
Qed.

Lemma stopped_post t x y b b' l : TL b !! t = Some y -> ts_state y = RUNNING ->
  bar_ok b' -> quiet b' -> advanced (stopped t x l b) b' ->
  op_post t (ts_state x) b b' /\ ((continues b b' /\ work b' < work b) \/ phase_ends t b b') /\ looked t b b'.
Proof.
  intros Hy Hst Hok Hq Hadv. pose proof (lookup_lt_Some _ _ _ Hy) as Hlt.
  assert (forall u, stt (TL (stopped t x l b)) u = with_state t (ts_state x) (stt (TL b)) u) as Hs
    by (intros u; simpl; by rewrite stt_insert).
  destruct Hadv as [W|E1 E2 E3 E4 E5 E6 E7].
  - split; [split; try done; [apply W|]|split].
    + intros u. rewrite <- Hs. unfold becomes. destruct (wk_states _ _ W u); auto.
    + left. split; [split; apply W|]. pose proof (wk_work _ _ W) as Hwk. unfold work, stopped in *. simpl in Hwk. lia.
    + split.
      * intros _ u [_ Hu] Hw. by apply (wk_unseen _ _ W).
      * intros [Hp _]. pose proof (wk_phase _ _ W) as E. rewrite Hp in E. simpl in E. by apply phase_moves in E.
  - split; [split; try done|split].
    + intros u. rewrite <- Hs. unfold becomes. destruct (E5 u) as [?|[?|?]]; auto.
    + right. split_and!; [done|done|]. intros u Hu. specialize (E4 u). specialize (E6 u). rewrite Hs in E4, E6.
      unfold with_state in E4, E6. rewrite decide_False in E4, E6 by done. split; [done|]. intros Hun. by apply E6.
    + split.
      * intros [Hp _]. rewrite Hp in E2. symmetry in E2. by apply phase_moves in E2.
      * intros _ u _. apply E7.
Qed.

Lemma sync_ok t x b : bar_ok b -> TL b !! t = Some x -> ts_state x = RUNNING ->
  wp (sync t) (fun _ b' => op_post t WAITING b b' /\ ((continues b b' /\ work b' < work b) \/ phase_ends t b b') /\
    looked t b b') b.
Proof.
  intros Hok Hx Hst. pose proof (lookup_lt_Some _ _ _ Hx) as Hlt. pose proof (counts_small b Hok) as (_ & Hs & _).
  assert (0 < b_runningThreads b) as Hpos.
  { destruct (Z.eq_dec (b_runningThreads b) 0) as [E|]; [|lia].
    by destruct (none_running b t Hok E); rewrite (stt_some _ _ _ Hx). }
  unfold sync. apply wp_bind. eapply wp_thread; [done|]. apply wp_bind, wp_assert; [by apply bool_decide_eq_true|].
  apply wp_bind. eapply wp_set_futex; [done|]. apply wp_bind. eapply wp_set_state; [by apply list_lookup_insert_eq|].
  apply wp_bind, wp_modify. simpl. rewrite list_insert_insert_eq, u32_id by (unfold in_u32; lia).
  set (y := mkTS WAITING 1 (ts_lastIdx x)).
  pose proof (stopped_ok t y x b Hok Hx Hst (or_introl (conj eq_refl eq_refl))) as Hok1. simpl in Hok1. rewrite Z.add_0_r in Hok1.
  eapply wp_mono; [apply (tryWakeNext_ok _ Hok1)|]. intros _ b' (A1 & A2 & A3 & _).
  by apply (stopped_post t y x b b' (b_leftThreads b)).
Qed.

Lemma leave_ok t x b : bar_ok b -> TL b !! t = Some x -> ts_state x = RUNNING ->
  wp (leave t) (fun _ b' => op_post t LEFT b b' /\ ((continues b b' /\ work b' < work b) \/ phase_ends t b b') /\
    looked t b b') b.
Proof.
  intros Hok Hx Hst. pose proof (lookup_lt_Some _ _ _ Hx) as Hlt. pose proof (counts_small b Hok) as (_ & Hs & Hs2 & _).
  assert (0 < b_runningThreads b) as Hpos.
  { destruct (Z.eq_dec (b_runningThreads b) 0) as [E|]; [|lia].
    by destruct (none_running b t Hok E); rewrite (stt_some _ _ _ Hx). }
  unfold leave. apply wp_bind. eapply wp_thread; [done|]. rewrite bool_decide_eq_true_2 by done.
  apply wp_bind. eapply wp_set_state; [done|]. apply wp_bind, wp_modify, wp_bind, wp_modify. simpl.
  rewrite !u32_id by (unfold in_u32; lia). set (y := mkTS LEFT (ts_futexWord x) (ts_lastIdx x)).
  pose proof (stopped_ok t y x b Hok Hx Hst (or_intror (conj eq_refl eq_refl))) as Hok1. simpl in Hok1.
  eapply wp_mono; [apply (tryWakeNext_ok _ Hok1)|]. intros _ b' (A1 & A2 & A3 & _).
  by apply (stopped_post t y x b b' (b_leftThreads b + 1)).
Qed.

(** A thread that joins waits in the part of the run list that is still to be
    looked at, so that the phase cannot end. *)
Definition joined (t : nat) b b1 : Prop :=
  bar_ok b1 /\ unseen b1 t /\ b_parallelThreads b1 = b_parallelThreads b /\ continues b b1 /\
  (forall u, unseen b u -> unseen b1 u) /\ forall u, stt (TL b1) u = with_state t WAITING (stt (TL b)) u.

Lemma joined_new t x b : bar_ok b -> TL b !! t = Some x -> ts_state x = OFFLINE ->
  let b1 := set_threads (<[t := mkTS WAITING 1 (ts_lastIdx x)]> (TL b))
    (set_size (b_runListSize b + 1) (set_runList (<[b_runListSize b := t]> (RL b)) b)) in
  (b_runListSize b < length (RL b))%nat /\ joined t b b1.
Proof.
  intros [Hl Hc Hr Hlf Hp Hw] Hx Hst b1. pose proof (lookup_lt_Some _ _ _ Hx) as Hlt.
  pose proof Hlt as HM. rewrite (lo_threads _ _ _ Hl) in HM.
  destruct (list_ok_append _ _ _ t (mkTS WAITING 1 (ts_lastIdx x)) Hl HM) as (A1 & A2 & A3 & A4); try done.
  { by rewrite (stt_some _ _ _ Hx). }
  assert (forall s, s <> WAITING ->
    cnt s (<[t := mkTS WAITING 1 (ts_lastIdx x)]> (TL b)) (take (Datatypes.S (b_runListSize b)) (<[b_runListSize b := t]> (RL b))) =
    cnt s (TL b) (runs b)) as Hcnt.
  { intros s Hs. rewrite A3, (cnt_perm _ _ _ (t :: runs b)) by (unfold runs; symmetry; apply Permutation_cons_append).
    rewrite cnt_cons, stt_insert, (decide_True (P := t = t)) by done. simpl. rewrite decide_False by congruence.
    apply cnt_ext. intros u Hu. rewrite stt_insert by done. rewrite decide_False; [done|]. by intros ->. }
  split; [done|]. split_and!; try done.
  - unfold b1. rewrite Nat.add_1_r. split; simpl; try done; [lia|..]; unfold runs; simpl; by rewrite Hcnt.
  - exists (b_runListSize b). unfold b1. simpl. split_and!; [lia|lia|by apply list_lookup_insert_eq].
  - intros u (i & Hi & Hu). exists i. unfold b1. simpl. split; [lia|]. rewrite list_lookup_insert_ne by lia. done.
  - intros u. unfold b1. simpl. by rewrite stt_insert.
Qed.

(** A thread that left and rejoins where it is. *)
Lemma rejoined t x b : bar_ok b -> TL b !! t = Some x -> ts_state x = LEFT -> (b_curThreadIdx b <= ts_lastIdx x)%nat ->
  joined t b (set_threads (<[t := mkTS WAITING 1 (ts_lastIdx x)]> (TL b)) (set_left (b_leftThreads b - 1) b)).
Proof.
  intros [Hl Hc Hr Hlf Hp Hw] Hx Hst Hcur. pose proof (lookup_lt_Some _ _ _ Hx) as Hlt.
  assert (t ∈ runs b) as Hin by (apply (lo_in _ _ _ Hl); by rewrite (stt_some _ _ _ Hx), Hst).
  set (y := mkTS WAITING 1 (ts_lastIdx x)).
  pose proof (cnt_set RUNNING _ _ _ y (lo_nodup _ _ _ Hl) Hin Hlt) as C1.
  pose proof (cnt_set LEFT _ _ _ y (lo_nodup _ _ _ Hl) Hin Hlt) as C2.
  rewrite (stt_some _ _ _ Hx), Hst in C1, C2. simpl in C1, C2. repeat case_decide; try done.
  split_and!; try done.
  - split; simpl; try done; unfold runs in *; simpl; try lia.
    apply list_ok_set; try done. by intros [?|?].
  - pose proof Hin as (i & Hi & Hit)%run_pos. exists i. simpl.
    assert (ts_lastIdx x = i) as <- by (apply (lo_idx _ _ _ Hl i t x); auto). done.
  - intros u. simpl. by rewrite stt_insert.
Qed.

(** A thread that left after its turn changes places with the last thread
    before [curThreadIdx]. *)
Lemma moved_back t x b c y : bar_ok b -> TL b !! t = Some x -> ts_state x = LEFT ->
  (ts_lastIdx x < b_curThreadIdx b)%nat -> RL b !! (b_curThreadIdx b - 1)%nat = Some c -> TL b !! c = Some y ->
  let cur := (b_curThreadIdx b - 1)%nat in
  let tl1 := <[c := mkTS (ts_state y) (ts_futexWord y) (ts_lastIdx x)]> (TL b) in
  let b1 := set_threads (<[t := mkTS LEFT (ts_futexWord x) cur]> tl1)
    (set_runList (<[cur := t]> (<[ts_lastIdx x := c]> (RL b))) (set_cur cur b)) in
  bar_ok b1 /\ b_curThreadIdx b1 = cur /\ (forall u, stt (TL b1) u = stt (TL b) u) /\ (forall u, unseen b u -> unseen b1 u).
Proof.
  intros Hok Hx Hst Hlast Hc Hy cur tl1 b1. pose proof Hok as [Hl Hcur Hr Hlf Hp Hw].
  pose proof (lookup_lt_Some _ _ _ Hx) as Hlt. pose proof (lookup_lt_Some _ _ _ Hy) as Hlc.
  assert (t ∈ runs b) as Hin by (apply (lo_in _ _ _ Hl); by rewrite (stt_some _ _ _ Hx), Hst).
  apply run_pos in Hin as (i & Hi & Hit).
  assert (ts_lastIdx x = i) as E by (apply (lo_idx _ _ _ Hl i t x); auto). subst i.
  assert (cur < b_runListSize b)%nat as Hcs by (unfold cur; lia).
  destruct (list_ok_swap _ _ _ Hl (ts_lastIdx x) cur t c (TL b1) Hi Hcs Hit Hc) as [Hok' Hst'].
  { unfold b1, tl1. simpl. by rewrite !length_insert. }
  { intros u z Hz. unfold b1, tl1 in Hz. simpl in Hz.
    apply list_lookup_insert_Some in Hz as [(<- & <- & _)|[Nt Hz]]; simpl.
    - exists x. by rewrite decide_True.
    - apply list_lookup_insert_Some in Hz as [(<- & <- & _)|[Nc Hz]]; simpl.
      + exists y. rewrite decide_False, decide_True by done. done.
      + exists z. by rewrite !decide_False. }
  split_and!; [|done|done|].
  2: { intros u (j & Hj & Hu). exists j. unfold b1. simpl. split; [unfold cur in *; lia|].
       rewrite !list_lookup_insert_ne by (unfold cur in *; lia). done. }
  apply (bar_ok_reordered (set_cur cur b)); try done.
  - split; simpl; try done. unfold cur. lia.
  - unfold runs, b1. simpl. rewrite !take_insert_lt by (unfold cur in *; lia).
    apply swap_perm; rewrite lookup_take_lt by lia; done.
Qed.

Lemma reschedule_ok t x b l : bar_ok b -> TL b !! t = Some x -> ts_state x = LEFT ->
  (ts_lastIdx x < b_curThreadIdx b)%nat ->
  wp (reschedule t (ts_lastIdx x)) (fun _ b' => exists b1, b' = set_left l b1 /\ bar_ok b1 /\
    TL b1 !! t = Some (mkTS LEFT (ts_futexWord x) (b_curThreadIdx b1)) /\ (forall u, stt (TL b1) u = stt (TL b) u) /\
    b_parallelThreads b1 = b_parallelThreads b /\ continues b b1 /\ b_leftThreads b1 = b_leftThreads b /\
    (forall u, unseen b u -> unseen b1 u)) (set_left l b).
Proof.
  intros Hok Hx Hst Hcur. pose proof (bk_list b Hok) as Hl. pose proof (bk_cur b Hok) as Hcs.
  destruct (run_thread _ _ _ Hl (b_curThreadIdx b - 1) ltac:(lia)) as (c & y & Hc & Hy & _).
  assert (RL b !! ts_lastIdx x = Some t) as Hpos.
  { assert (t ∈ runs b) as Hin by (apply (lo_in _ _ _ Hl); by rewrite (stt_some _ _ _ Hx), Hst).
    apply run_pos in Hin as (i & Hi & Hit). by rewrite (lo_idx _ _ _ Hl i t x Hi Hit Hx) by auto. }
  pose proof (lookup_lt_Some _ _ _ Hx) as Hlt.
  destruct (moved_back t x b c y Hok Hx Hst Hcur Hc Hy) as (M1 & M2 & M3 & M4). set (b1 := set_threads _ _) in M1, M2, M3, M4.
  unfold reschedule. apply wp_bind, wp_get, wp_bind, wp_modify, wp_bind. eapply wp_run_at; [exact Hpos|].
  apply wp_bind, wp_assert; [apply Nat.eqb_refl|]. apply wp_bind. eapply wp_run_at; [exact Hc|].
  apply wp_bind. eapply wp_put_run; [by eapply lookup_lt_Some|].
  apply wp_bind. eapply wp_put_run; [simpl; rewrite length_insert; by eapply lookup_lt_Some|].
  apply wp_bind. eapply wp_set_lastIdx; [exact Hy|]. simpl.
  assert (exists z, <[c := mkTS (ts_state y) (ts_futexWord y) (ts_lastIdx x)]> (TL b) !! t = Some z /\
    ts_state z = LEFT /\ ts_futexWord z = ts_futexWord x) as (z & Hz & Hz1 & Hz2).
  { destruct (decide (c = t)) as [->|Hne]; [|exists x; by rewrite list_lookup_insert_ne].
    simplify_eq. eexists. rewrite list_lookup_insert_eq by done. done. }
  eapply wp_set_lastIdx; [exact Hz|]. simpl. rewrite Hz1, Hz2.
  exists b1. split_and!; try done. unfold b1. simpl. by rewrite list_lookup_insert_eq by (by rewrite length_insert).
Qed.

Lemma join_ok t x b : bar_ok b -> TL b !! t = Some x -> ts_state x = OFFLINE \/ ts_state x = LEFT ->
  wp (join t) (fun _ b' => op_post t WAITING b b' /\ continues b b' /\ unseen_from (fun u => u = t \/ unseen b u) b') b.
Proof.
  intros Hok Hx Hst. pose proof (lookup_lt_Some _ _ _ Hx) as Hlt. pose proof (counts_small b Hok) as (_ & _ & Hs & _).
  assert (forall b1, joined t b b1 -> wp tryWakeNext (fun _ b' => op_post t WAITING b b' /\ continues b b' /\
    unseen_from (fun u => u = t \/ unseen b u) b') b1) as Hfin.
  { intros b1 (J1 & J2 & J3 & [E1 E2] & J4 & J5). eapply wp_mono; [by apply tryWakeNext_ok|].
    intros _ b' (A1 & A2 & _ & A4). assert (woke b1 b') as W.
    { apply A4. right. apply (unseen_pending b1 t); [done|]. rewrite J5. unfold with_state. by rewrite decide_True. }
    split_and!.
    - split; [done|done|by rewrite (wk_par _ _ W)|].
      intros u. rewrite <- J5. unfold becomes. destruct (wk_states _ _ W u); auto.
    - split; [by rewrite (wk_phase _ _ W)|by rewrite (wk_sched _ _ W)].
    - intros u Hu Hw. apply (wk_unseen _ _ W); [|done]. destruct Hu as [->|Hu]; [done|by apply J4]. }
  unfold join. apply wp_bind. eapply wp_thread; [done|]. apply wp_bind, wp_assert; [apply bool_decide_eq_true; tauto|].
  apply wp_bind. destruct (bool_decide_reflect (ts_state x = OFFLINE)) as [Hoff|Hno].
  - destruct (joined_new t x b Hok Hx Hoff) as [Hsz HJ].
    apply wp_bind, wp_get, wp_bind. eapply wp_put_run; [done|]. apply wp_modify. simpl.
    apply wp_bind. eapply wp_set_state; [done|]. apply wp_bind.
    eapply wp_set_futex; [by apply list_lookup_insert_eq|]. simpl. rewrite list_insert_insert_eq. by apply Hfin.
  - assert (ts_state x = LEFT) as Hleft by naive_solver.
    assert (0 < b_leftThreads b) as Hpos.
    { rewrite (bk_left b Hok). assert (0 < cnt LEFT (TL b) (runs b))%nat; [|lia].
      apply (cnt_pos _ _ _ t); [apply (lo_in _ _ _ (bk_list b Hok))|]; by rewrite (stt_some _ _ _ Hx). }
    apply wp_bind, wp_modify. rewrite u32_id by (unfold in_u32; lia). cbv zeta. apply wp_bind, wp_get, wp_when.
    + intros Hcur%Nat.ltb_lt. eapply wp_mono; [by apply (reschedule_ok t x b (b_leftThreads b - 1))|].
      intros _ b' (b1 & -> & R1 & R2 & R3 & R4 & R5 & R6 & R7). simpl.
      pose proof (lookup_lt_Some _ _ _ R2) as Hlt1.
      apply wp_bind. eapply wp_set_state; [exact R2|]. apply wp_bind.
      eapply wp_set_futex; [by apply list_lookup_insert_eq|]. simpl. rewrite list_insert_insert_eq. apply Hfin.
      destruct (rejoined t _ b1 R1 R2 eq_refl) as (J1 & J2 & J3 & J4 & J5 & J6); [done|]. rewrite R6 in *.
      split_and!; try done; try apply R5. intros u. rewrite J6. unfold with_state. by rewrite R3.
    + intros Hge%Nat.ltb_ge. apply wp_bind. eapply wp_set_state; [done|]. apply wp_bind.
      eapply wp_set_futex; [by apply list_lookup_insert_eq|]. simpl. rewrite list_insert_insert_eq.
      by apply Hfin, rejoined.
Qed.
End Steps.
