(* ===== verification/BarrierSpec.v ===== *)
(** * Properties of the phase barrier

    For every interleaving of the threads: no assertion fails, the number of
    threads that run at a time is bounded, a phase ends only when no thread
    runs, and no thread waits in vain. *)

From stdpp Require Import base list strings.
From Stdlib Require Import ZArith Lia.
From S2P Require Import Prelude Barrier BarrierInv BarrierOps BarrierSteps.
Local Open Scope Z_scope.

Section Spec.
Context {S G : Type} `{Callee S} `{RandInt G}.
Implicit Types (b : Barrier S G) (pc : nat -> Pc) (c : Config (S := S) (G := G)).
Abbreviation TL := b_threadList.

(** What the barrier knows about a thread at each place of its code. *)
Definition pc_ok (p : Pc) (s : TState) : Prop :=
  match p with
  | Out => s = OFFLINE \/ s = LEFT
  | Checking | Sleeping => s = WAITING \/ s = RUNNING
  | Active => s = RUNNING
  end.

Record cfg_ok c : Prop := {
  cf_bar : bar_ok c.1;
  cf_quiet : quiet c.1;
  cf_pc : forall t, pc_ok (c.2 t) (stt (TL c.1) t)
}.

Lemma becomes_pc p s s' : becomes s s' -> pc_ok p s -> pc_ok p s'.
Proof. unfold becomes. destruct p; simpl; intuition congruence. Qed.

(** A thread that is not outside is in the table. *)
Lemma pc_thread c t : cfg_ok c -> c.2 t <> Out -> exists x, TL c.1 !! t = Some x.
Proof.
  intros Hok Hne. pose proof (cf_pc c Hok t) as Hp. apply stt_online. intros E. rewrite E in Hp.
  destruct (c.2 t); simpl in Hp; intuition congruence.
Qed.

Lemma table c t : cfg_ok c -> (t < MAX_THREADS)%nat -> exists x, TL c.1 !! t = Some x.
Proof.
  intros Hok Ht. apply lookup_lt_is_Some_2. by rewrite (lo_threads _ _ _ (bk_list _ (cf_bar c Hok))).
Qed.

Lemma op_cfg t s p b b' pc : cfg_ok (b, pc) -> op_post t s b b' -> pc_ok p s -> cfg_ok (b', at_pc pc t p).
Proof.
  intros [C1 C2 C3] [O1 O2 _ O4] Hp. split; simpl; try done. intros u. specialize (O4 u). unfold at_pc, with_state in *.
  destruct (decide (u = t)); [by eapply becomes_pc|]. eapply becomes_pc; [done|]. apply C3.
Qed.

Lemma move_cfg t p b pc : cfg_ok (b, pc) -> pc_ok p (stt (TL b) t) -> cfg_ok (b, at_pc pc t p).
Proof.
  intros [C1 C2 C3] Hp. split; try done. intros u. unfold at_pc. simpl. destruct (decide (u = t)) as [->|]; [done|apply C3].
Qed.

(** The operations return in every reachable state. *)
Lemma join_runs c t : cfg_ok c -> (t < MAX_THREADS)%nat -> c.2 t = Out ->
  wp (join t) (fun _ b' => op_post t WAITING c.1 b' /\ continues c.1 b' /\ unseen_from (fun u => u = t \/ unseen c.1 u) b') c.1.
Proof.
  intros Hok Ht Hp. destruct (table c t Hok Ht) as [x Hx]. apply (join_ok t x); [apply Hok|done|].
  pose proof (cf_pc c Hok t) as Hpc. by rewrite Hp, (stt_some _ _ _ Hx) in Hpc.
Qed.
Lemma active_state c t : cfg_ok c -> c.2 t = Active -> exists x, TL c.1 !! t = Some x /\ ts_state x = RUNNING.
Proof.
  intros Hok Hp. destruct (pc_thread c t Hok) as [x Hx]; [by rewrite Hp|]. exists x. split; [done|].
  pose proof (cf_pc c Hok t) as Hpc. by rewrite Hp, (stt_some _ _ _ Hx) in Hpc.
Qed.
Lemma sync_runs c t : cfg_ok c -> c.2 t = Active ->
  wp (sync t) (fun _ b' => op_post t WAITING c.1 b' /\ ((continues c.1 b' /\ work b' < work c.1) \/ phase_ends t c.1 b') /\
    looked t c.1 b') c.1.
Proof. intros Hok Hp. destruct (active_state c t Hok Hp) as (x & Hx & Hs). by apply (sync_ok t x); [apply Hok|..]. Qed.
Lemma leave_runs c t : cfg_ok c -> c.2 t = Active ->
  wp (leave t) (fun _ b' => op_post t LEFT c.1 b' /\ ((continues c.1 b' /\ work b' < work c.1) \/ phase_ends t c.1 b') /\
    looked t c.1 b') c.1.
Proof. intros Hok Hp. destruct (active_state c t Hok Hp) as (x & Hx & Hs). by apply (leave_ok t x); [apply Hok|..]. Qed.

(** A thread that finds its futex word changed runs. *)
Lemma woken_runs c t : cfg_ok c -> c.2 t = Sleeping -> woken t c.1 = true -> after_wait t c.1 = Ok (tt, c.1) /\ stt (TL c.1) t = RUNNING.
Proof.
  intros Hok Hp Hw. destruct (pc_thread c t Hok) as [x Hx]; [by rewrite Hp|].
  pose proof (cf_pc c Hok t) as Hpc. rewrite Hp, (stt_some _ _ _ Hx) in Hpc.
  unfold woken in Hw. rewrite Hx in Hw. apply negb_true_iff, Z.eqb_neq in Hw.
  destruct (lo_futex _ _ _ (bk_list _ (cf_bar c Hok)) t x Hx) as [Hf _].
  assert (ts_state x = RUNNING) as Hs by (destruct Hpc as [E|]; [by apply Hf in E|done]).
  rewrite (stt_some _ _ _ Hx). split; [|done].
  unfold after_wait, thread, bind, get, lift. rewrite (at_ok _ _ _ Hx). by rewrite Hs.
Qed.

Lemma wp_result {St A} (m : M St A) (Q : A -> St -> Prop) s a s' : wp m Q s -> m s = Ok (a, s') -> Q a s'.
Proof. unfold wp. intros Hq Hm. by rewrite Hm in Hq. Qed.

Lemma step_cfg c c' : step c c' -> cfg_ok c -> cfg_ok c'.
Proof.
  intros Hs Hok. destruct Hs as [t b b' pc Ht Hp Hr|t b b' pc Hp Hr|t b b' pc Hp Hr|t b pc Hp Hm|t b pc Hp Hm|t b b' pc Hp Hw Hr].
  - destruct (wp_result _ _ _ _ _ (join_runs (b, pc) t Hok Ht Hp) Hr) as [O _]. eapply op_cfg; [done|done|by left].
  - destruct (wp_result _ _ _ _ _ (sync_runs (b, pc) t Hok Hp) Hr) as [O _]. eapply op_cfg; [done|done|by left].
  - destruct (wp_result _ _ _ _ _ (leave_runs (b, pc) t Hok Hp) Hr) as [O _]. eapply op_cfg; [done|done|by right].
  - apply move_cfg; [done|]. destruct (pc_thread _ t Hok) as [x Hx]; [by simpl; rewrite Hp|].
    pose proof (cf_pc _ Hok t) as Hpc. simpl in *. rewrite Hp in Hpc. unfold must_wait in Hm. rewrite Hx in Hm.
    apply bool_decide_eq_false in Hm. rewrite (stt_some _ _ _ Hx) in *. simpl in Hpc. tauto.
  - apply move_cfg; [done|]. pose proof (cf_pc _ Hok t) as Hpc. simpl in Hpc. by rewrite Hp in Hpc.
  - destruct (woken_runs (b, pc) t Hok Hp Hw) as [E1 E2]. simpl in E1, E2. rewrite E1 in Hr. injection Hr as <-.
    by apply move_cfg.
Qed.

Lemma initial_cfg c : initial c -> cfg_ok c.
Proof.
  intros (par & ls & g & s & Hpar & Hlen & ->).
  assert (forall t, stt (map (mkTS OFFLINE 0) ls) t = OFFLINE) as Hoff.
  { intros t. unfold stt. rewrite list_lookup_fmap. by destruct (ls !! t). }
  assert (list_ok (map (mkTS OFFLINE 0) ls) (replicate MAX_THREADS 0%nat) 0) as Hl.
  { split; try (by rewrite ?length_map, ?length_replicate); [lia|constructor| |lia|].
    - intros t. rewrite Hoff. split; [by intros ?%not_elem_of_nil|done].
    - intros t x Hx. apply stt_some in Hx. rewrite Hoff in Hx. by rewrite <- Hx. }
  split; simpl; [|split; [|done]|intros t; left; apply Hoff].
  - split; simpl; try done; lia.
  - apply andb_false_iff. right. done.
Qed.

Lemma reachable_cfg c : reachable c -> cfg_ok c.
Proof. induction 1 as [c Hi|c c' _ IH Hs]; [by apply initial_cfg|by eapply step_cfg]. Qed.

(** Threads that run their phase. *)
Definition active_threads pc : list nat := filter (fun t => pc t = Active) (seq 0 MAX_THREADS).

Lemma active_bound c : cfg_ok c -> Z.of_nat (length (active_threads c.2)) <= b_parallelThreads c.1.
Proof.
  intros Hok. pose proof (cf_bar c Hok) as Hb. pose proof (bk_par _ Hb) as Hp. rewrite (bk_running _ Hb) in Hp.
  enough (length (active_threads c.2) <= cnt RUNNING (TL c.1) (runs c.1))%nat by lia.
  apply submseteq_length, NoDup_submseteq; [apply NoDup_filter, NoDup_seq|].
  intros t Ht. apply list_elem_of_filter in Ht as [Ht _]. pose proof (cf_pc c Hok t) as Hpc. rewrite Ht in Hpc. simpl in Hpc.
  apply list_elem_of_filter. split; [done|]. apply (lo_in _ _ _ (bk_list _ Hb)). by rewrite Hpc.
Qed.

Lemma ends_none_active c t b' p : cfg_ok c -> phase_ends t c.1 b' -> p <> Active -> forall u, at_pc c.2 t p u <> Active.
Proof.
  intros Hok (_ & _ & Hn) Hp u. unfold at_pc. destruct (decide (u = t)) as [->|Hne]; [done|].
  intros Ha. apply (proj1 (Hn u Hne)). pose proof (cf_pc c Hok u) as Hpc. by rewrite Ha in Hpc.
Qed.

Lemma phase_step c c' : cfg_ok c -> step c c' -> b_phaseCount c'.1 <> b_phaseCount c.1 -> forall u, c'.2 u <> Active.
Proof.
  intros Hok Hs Hph. destruct Hs as [t b b' pc Ht Hp Hr|t b b' pc Hp Hr|t b b' pc Hp Hr|t b pc Hp Hm|t b pc Hp Hm|t b b' pc Hp Hw Hr];
    simpl in *.
  - by destruct (wp_result _ _ _ _ _ (join_runs (b, pc) t Hok Ht Hp) Hr) as (_ & [E _] & _).
  - destruct (wp_result _ _ _ _ _ (sync_runs (b, pc) t Hok Hp) Hr) as (_ & [[[E _] _]|He] & _); [done|].
    by apply (ends_none_active (b, pc) t b').
  - destruct (wp_result _ _ _ _ _ (leave_runs (b, pc) t Hok Hp) Hr) as (_ & [[[E _] _]|He] & _); [done|].
    by apply (ends_none_active (b, pc) t b').
  - done.
  - done.
  - destruct (woken_runs (b, pc) t Hok Hp Hw) as [E1 _]. simpl in E1. rewrite E1 in Hr. by injection Hr as <-.
Qed.

(** A thread that waits or runs keeps some thread running. *)
Lemma some_running c t : cfg_ok c -> c.2 t <> Out -> exists u, stt (TL c.1) u = RUNNING.
Proof.
  intros Hok Hne. pose proof (cf_bar c Hok) as Hb. destruct (pc_thread c t Hok Hne) as [x Hx].
  pose proof (cf_pc c Hok t) as Hpc. rewrite (stt_some _ _ _ Hx) in Hpc.
  assert (ts_state x = WAITING \/ ts_state x = RUNNING) as [Hw|Hr] by (destruct (c.2 t); simpl in Hpc; tauto);
    [|exists t; by rewrite (stt_some _ _ _ Hx)].
  destruct (cnt RUNNING (TL c.1) (runs c.1)) as [|k] eqn:E.
  - exfalso. pose proof (bk_running _ Hb) as Hrun. rewrite E in Hrun. pose proof (proj2 (cf_quiet c Hok) Hrun) as Hl.
    rewrite (bk_left _ Hb) in Hl.
    pose proof (cnt_total (TL c.1) (runs c.1) (fun u Hin => proj1 (lo_in _ _ _ (bk_list _ Hb) u) Hin)) as Ht.
    rewrite (runs_length _ Hb) in Ht.
    assert (0 < cnt WAITING (TL c.1) (runs c.1))%nat; [|lia].
    apply (cnt_pos _ _ _ t); [apply (lo_in _ _ _ (bk_list _ Hb))|]; rewrite (stt_some _ _ _ Hx); congruence.
  - unfold cnt in E. destruct (filter _ _) as [|u l] eqn:Ef; [done|]. exists u.
    assert (u ∈ filter (fun u => stt (TL c.1) u = RUNNING) (runs c.1)) as Hin by (rewrite Ef; left).
    by apply list_elem_of_filter in Hin as [? _].
Qed.

Lemma running_proceeds c u : cfg_ok c -> stt (TL c.1) u = RUNNING ->
  c.2 u = Active \/ (c.2 u = Checking /\ must_wait u c.1 = false) \/ (c.2 u = Sleeping /\ woken u c.1 = true).
Proof.
  intros Hok Hr. pose proof (cf_pc c Hok u) as Hpc. rewrite Hr in Hpc.
  destruct (stt_online (TL c.1) u) as [x Hx]; [by rewrite Hr|]. rewrite (stt_some _ _ _ Hx) in Hr.
  destruct (lo_futex _ _ _ (bk_list _ (cf_bar c Hok)) u x Hx) as [_ Hf]. specialize (Hf Hr).
  unfold must_wait, woken. rewrite Hx, Hf, Hr. destruct (c.2 u); simpl in Hpc; try tauto. by destruct Hpc.
Qed.

(** ** The properties *)

(** C39: safety of the barrier, for every interleaving of threads that join,
    leave and synchronise.  In every reachable state each operation that a
    thread may call returns, with no failed assertion, panic or access outside
    of the arrays; a thread that joins does not end the phase; a thread whose
    wait is over is in state RUNNING; at most [parallelThreads] threads run at
    the same time; and when a step ends the phase, no thread is running. *)
Theorem barrier_safe b pc :
  reachable (b, pc) ->
  (forall t, (t < MAX_THREADS)%nat -> pc t = Out -> exists b', join t b = Ok (tt, b') /\ b_sched b' = b_sched b) /\
  (forall t, pc t = Active -> (exists b', sync t b = Ok (tt, b')) /\ (exists b', leave t b = Ok (tt, b'))) /\
  (forall t, pc t = Sleeping -> woken t b = true -> after_wait t b = Ok (tt, b)) /\
  Z.of_nat (length (active_threads pc)) <= b_parallelThreads b /\
  (forall c', step (b, pc) c' -> b_phaseCount c'.1 <> b_phaseCount b -> forall u, c'.2 u <> Active).
Proof.
  intros Hok%reachable_cfg. split_and!.
  - intros t Ht Hp. destruct (wp_ok _ _ _ (join_runs (b, pc) t Hok Ht Hp)) as ([] & b' & E & _ & [_ ?] & _). eauto.
  - intros t Hp. split.
    + destruct (wp_ok _ _ _ (sync_runs (b, pc) t Hok Hp)) as ([] & b' & E & _). eauto.
    + destruct (wp_ok _ _ _ (leave_runs (b, pc) t Hok Hp)) as ([] & b' & E & _). eauto.
  - intros t Hp Hw. by apply (woken_runs (b, pc)).
  - by apply (active_bound (b, pc)).
  - intros c' Hs. by apply (phase_step (b, pc)).
Qed.

(** C40: the barrier makes progress.  In every reachable state in which a thread
    waits, some thread is running or about to run, so no wake-up is lost.
    Every [sync] and every [leave] ends the phase, calling back once, or leaves
    strictly less to do in it: the threads not yet looked at and the running
    ones; so without new joins a phase ends after that many calls. *)
Theorem barrier_progress b pc :
  reachable (b, pc) ->
  (forall t, pc t <> Out -> exists u, pc u = Active \/ (pc u = Checking /\ must_wait u b = false) \/
     (pc u = Sleeping /\ woken u b = true)) /\
  (forall t b', pc t = Active -> sync t b = Ok (tt, b') \/ leave t b = Ok (tt, b') ->
     (b_phaseCount b' = u32 (b_phaseCount b + 1) /\ b_sched b' = callback (b_sched b)) \/
     (b_sched b' = b_sched b /\ 0 <= work b' < work b)).
Proof.
  intros Hok%reachable_cfg. split.
  - intros t Hne. destruct (some_running (b, pc) t Hok Hne) as [u Hu]. exists u. by apply (running_proceeds (b, pc)).
  - intros t b' Hp Hor.
    assert (exists s, op_post t s b b' /\ ((continues b b' /\ work b' < work b) \/ phase_ends t b b')) as (s & O & Hcase).
    { destruct Hor as [E|E]; [exists WAITING; pose proof (wp_result _ _ _ _ _ (sync_runs (b, pc) t Hok Hp) E)|
        exists LEFT; pose proof (wp_result _ _ _ _ _ (leave_runs (b, pc) t Hok Hp) E)]; simpl in *; tauto. }
    destruct Hcase as [[[_ E] Hw]|(E1 & E2 & _)]; [right|by left]. split_and!; try done.
    pose proof (counts_small b' (op_bar _ _ _ _ O)). unfold work. lia.
Qed.
End Spec.

(** ** Two threads, one at a time *)
#[local] Instance demo_callee : Callee nat := S.
#[local] Instance demo_rand : RandInt unit := { randInt n g := (0%nat, g); randInt_le n g := Nat.le_0_l n }.

(** The state after an operation that returns. *)
Definition ran (m : M (Barrier nat unit) unit) (b : Barrier nat unit) : Barrier nat unit :=
  match m b with Ok (_, b') => b' | Err _ => b end.
Lemma ran_ok m b : match m b with Ok _ => true | Err _ => false end = true -> m b = Ok (tt, ran m b).
Proof. unfold ran. by destruct (m b) as [[[] ?]|]. Qed.

Definition demo_bar : Barrier nat unit := Barrier_new 1 (replicate MAX_THREADS 7%nat) tt 0%nat.
Definition demo_joined : Barrier nat unit := ran (join 1) (ran (join 0) demo_bar).
Definition demo_pc : nat -> Pc := at_pc (at_pc (at_pc (fun _ => Out) 0 Checking) 1 Checking) 0 Active.

Lemma demo_join0 : join 0 demo_bar = Ok (tt, ran (join 0) demo_bar).
Proof. exact (ran_ok (join 0) demo_bar ltac:(vm_compute; reflexivity)). Qed.
Lemma demo_join1 : join 1 (ran (join 0) demo_bar) = Ok (tt, demo_joined).
Proof. exact (ran_ok (join 1) (ran (join 0) demo_bar) ltac:(vm_compute; reflexivity)). Qed.
Lemma demo_sync0 : sync 0 demo_joined = Ok (tt, ran (sync 0) demo_joined).
Proof. exact (ran_ok (sync 0) demo_joined ltac:(vm_compute; reflexivity)). Qed.
Lemma demo_go : must_wait 0 demo_joined = false.
Proof. vm_compute. reflexivity. Qed.

(** Thread 0 runs, thread 1 has joined. *)
Lemma demo_reachable : reachable (demo_joined, demo_pc).
Proof.
  assert (reachable (demo_bar, fun _ => Out)) as R0.
  { apply reach_init. exists 1, (replicate MAX_THREADS 7%nat), tt, 0%nat. split; [lia|]. split; [apply length_replicate|done]. }
  pose proof (reach_step _ _ R0 (step_join 0 _ _ _ ltac:(unfold MAX_THREADS; lia) eq_refl demo_join0)) as R1.
  pose proof (reach_step _ _ R1 (step_join 1 _ _ _ ltac:(unfold MAX_THREADS; lia) eq_refl demo_join1)) as R2.
  exact (reach_step _ _ R2 (step_go 0 _ _ eq_refl demo_go)).
Qed.

Lemma barrier_safe_witness :
  (exists b', sync 0 demo_joined = Ok (tt, b')) /\ (exists b', leave 0 demo_joined = Ok (tt, b')) /\
  (length (active_threads demo_pc) <= 1)%nat.
Proof.
  destruct (barrier_safe demo_joined demo_pc demo_reachable) as (_ & H1 & _ & H2 & _).
  destruct (H1 0%nat eq_refl) as [H3 H4]. split; [exact H3|]. split; [exact H4|].
  assert (b_parallelThreads demo_joined = 1) as E by (vm_compute; reflexivity). rewrite E in H2. lia.
Defined.

(** Thread 1 runs in the same phase after thread 0 has synchronised. *)
Lemma barrier_progress_witness :
  (exists u, demo_pc u = Active \/ (demo_pc u = Checking /\ must_wait u demo_joined = false) \/
     (demo_pc u = Sleeping /\ woken u demo_joined = true)) /\
  b_sched (ran (sync 0) demo_joined) = 0%nat /\ 0 <= work (ran (sync 0) demo_joined) < work demo_joined.
Proof.
  destruct (barrier_progress demo_joined demo_pc demo_reachable) as [H1 H2].  split.
  - apply (H1 1%nat). discriminate.
  - destruct (H2 0%nat (ran (sync 0) demo_joined)) as [[E _]|[H3 H4]].
    + reflexivity.
    + left. exact demo_sync0.
    + exfalso. vm_compute in E. discriminate.
    + split; [|exact H4]. rewrite H3. vm_compute. reflexivity.
Defined.

(** [leave] also accepts a waiting thread; one that has not run yet has no
    position in [lastIdx], and its next [join] fails an assertion. *)
Definition demo_left_waiting : Barrier nat unit :=
  ran (leave 1) (ran (join 1) (ran (join 0) (Barrier_new 1 (replicate MAX_THREADS 0%nat) tt 0%nat))).

Lemma leave_waiting_then_join : join 1 demo_left_waiting = Err (AssertFail "barrier.h:137").
Proof. vm_compute. reflexivity. Qed.
