(* ===== verification/OooWindow.v ===== *)
(** * The instruction window of the out-of-order core
    ([WindowStructure] of [src/src/ooo_core.h])

    A reservation table for the execution ports: for every cycle from the
    current one on, the ports that are taken.  The next [H] to [2H] cycles are
    in two arrays ([curWin] from [curPos] on, then [nextWin]), later cycles in
    an ordered map ([ubWin]).  [curPos] moves through [curWin]; at its end the
    arrays are swapped and cycles move from [ubWin] to [nextWin].  This file
    holds the data and the operations; [OooWindowInv] the invariant and
    [OooWindowSpec] the reservation table that the structure refines. *)

From stdpp Require Import base list strings.
From Stdlib Require Import ZArith Lia.
From S2P Require Import Prelude.
Local Open Scope Z_scope.

Definition u8 (z : Z) : Z := z mod 2 ^ 8.

(** ** Bits *)

(** [__builtin_ffs]: one plus the index of the lowest set bit, 0 for 0. *)
Fixpoint ffs_pos (p : positive) : Z :=
  match p with
  | xO q => 1 + ffs_pos q
  | _ => 1
  end.
Definition ffs (z : Z) : Z :=
  match z with Zpos p => ffs_pos p | _ => 0 end.

(** ** Data *)

(** [struct WinCycle] *)
Record WinCycle := mkWC { occUnits : Z; count : Z }.
#[global] Instance WinCycle_eq_dec : EqDecision WinCycle.
Proof. solve_decision. Defined.
Definition wc_empty : WinCycle := mkWC 0 0.

(** [class WindowStructure]; [ubWin] in the iteration order of [std::map]. *)
Record Window := mkWin {
  curWin : list WinCycle;
  nextWin : list WinCycle;
  ubWin : list (Z * WinCycle);
  occupancy : Z;
  curPos : Z;
  lastPort : Z
}.

(** Loops: [while (c) body], with the error of a cut-short model recursion. *)
Fixpoint while_ {S} (fuel : nat) (c : S -> bool) (body : M S unit) : M S unit :=
  fun s =>
    if c s then
      match fuel with
      | O => Err OutOfFuel
      | S n => (body ;; while_ n c body) s
      end
    else Ok (tt, s).

(** A loop whose body keeps an invariant and decreases a measure ends. *)
Lemma wp_while {S} (I : S -> Prop) (m : S -> Z) fuel (c : S -> bool) (body : M S unit) s :
  I s -> m s <= Z.of_nat fuel ->
  (forall s', I s' -> c s' = true -> 0 < m s' /\ wp body (fun _ s'' => I s'' /\ m s'' < m s') s') ->
  wp (while_ fuel c body) (fun _ s' => I s' /\ c s' = false) s.
Proof.
  intros HI Hm Hb. revert s HI Hm. induction fuel as [|n IH]; intros s HI Hm.
  - unfold wp. simpl. destruct (c s) eqn:E; [|done].
    destruct (Hb s HI E) as [? _]. lia.
  - unfold wp. simpl. destruct (c s) eqn:E; [|done].
    destruct (Hb s HI E) as [? Hw].
    apply (wp_bind body (fun _ => while_ n c body)).
    eapply wp_mono; [exact Hw|]. intros [] s' [HI' Hlt]. apply IH; [done|lia].
Qed.

Section Window.
(** [H]: cycles of one array; [WSZ]: uops the window holds. *)
Context (H WSZ : Z).

Definition Window_init : Window :=
  mkWin (replicate (Z.to_nat H) wc_empty) (replicate (Z.to_nat H) wc_empty) [] 0 0 0.

(** The window and the core's [curCycle], which is passed by reference. *)
Definition WS : Type := Window * Z.

(** ** [trySchedule]: the ports that were free, the cycle's new entry and
    [lastPort]. *)
Definition trySchedule (touchOccupancy recordPort : bool) (wc : WinCycle) (portMask lp : Z)
    : Z * WinCycle * Z :=
  let availMask := u8 (Z.land (Z.lnot (occUnits wc)) portMask) in
  if touchOccupancy then
    if availMask =? 0 then (availMask, wc, lp)
    else
      let firstAvail := u8 (ffs availMask - 1) in
      (availMask,
       mkWC (u8 (Z.lor (occUnits wc) (Z.shiftl 1 firstAvail))) (u8 (count wc + 1)),
       if recordPort then firstAvail else lp)
  else (availMask, mkWC (u8 (Z.lor (occUnits wc) portMask)) (count wc), lp).

(** [while (pos < H) { if (trySchedule(win\[pos\])) break; else pos++; }] with
    [n] positions left: the position where the search ended, the array and
    [lastPort]. *)
Fixpoint tryFrom (touch rec : bool) (n : nat) (pos : Z) (win : list WinCycle) (portMask lp : Z)
    : res (Z * list WinCycle * Z) :=
  match n with
  | O => Ok (pos, win, lp)
  | S n' =>
      match win !! Z.to_nat pos with
      | None => Err OutOfRange
      | Some wc =>
          let '(avail, wc', lp') := trySchedule touch rec wc portMask lp in
          let win' := <[Z.to_nat pos := wc']> win in
          if avail =? 0 then tryFrom touch rec n' (pos + 1) win' portMask lp'
          else Ok (pos, win', lp')
      end
  end.

(** The search of the unbounded window: [lower_bound] skips the smaller keys;
    then the iterator and [schedCycle] move together.  A missing cycle is
    inserted. *)
Fixpoint tryUb (touch rec : bool) (ub : list (Z * WinCycle)) (schedCycle portMask lp : Z)
    : res (Z * list (Z * WinCycle) * Z) :=
  let insert_here where_ rest :=
    let '(avail, wc', lp') := trySchedule touch rec wc_empty portMask lp in
    if avail =? 0 then Err (AssertFail where_)
    else Ok (schedCycle, (schedCycle, wc') :: rest, lp') in
  match ub with
  | [] => insert_here "ooo_core.h:243"%string []
  | (k, wc) :: ub' =>
      if k <? schedCycle then
        match tryUb touch rec ub' schedCycle portMask lp with
        | Ok (s, r, l) => Ok (s, (k, wc) :: r, l)
        | Err e => Err e
        end
      else if negb (k =? schedCycle) then insert_here "ooo_core.h:248"%string ub
      else
        let '(avail, wc', lp') := trySchedule touch rec wc portMask lp in
        if avail =? 0 then
          match tryUb touch rec ub' (u64 (schedCycle + 1)) portMask lp' with
          | Ok (s, r, l) => Ok (s, (k, wc') :: r, l)
          | Err e => Err e
          end
        else Ok (schedCycle, (k, wc') :: ub', lp')
  end.

(** ** [advancePos] *)

(** The entries of [ubWin] below the horizon, moved into [nextWin]. *)
Fixpoint moveUb (ub : list (Z * WinCycle)) (win : list WinCycle) (curCycle : Z)
    : res (list (Z * WinCycle) * list WinCycle) :=
  match ub with
  | [] => Ok ([], win)
  | (k, wc) :: ub' =>
      if k <? u64 (curCycle + 2 * H) then
        let nextWinPos := u32 (k - H - curCycle) in
        if nextWinPos <? H then
          match set_at win (Z.to_nat nextWinPos) wc with
          | Ok win' => moveUb ub' win' curCycle
          | Err e => Err e
          end
        else Err (AssertFail "ooo_core.h:167")
      else Ok (ub, win)
  end.

Definition advancePos : M WS unit := fun '(w, curCycle) =>
  match curWin w !! Z.to_nat (curPos w) with
  | None => Err OutOfRange
  | Some wc =>
      let occ := u32 (occupancy w - count wc) in
      let cur := <[Z.to_nat (curPos w) := wc_empty]> (curWin w) in
      let pos := u32 (curPos w + 1) in
      let cyc := u64 (curCycle + 1) in
      if pos =? H then
        match moveUb (ubWin w) cur cyc with
        | Ok (ub, nxt) => Ok (tt, (mkWin (nextWin w) nxt ub occ 0 (lastPort w), cyc))
        | Err e => Err e
        end
      else Ok (tt, (mkWin cur (nextWin w) (ubWin w) occ pos (lastPort w), cyc))
  end.

(** ** [scheduleInternal]; [schedCycle] is passed by reference and returned. *)

(** A bound on the cycles until the window holds nothing: the arrays and the
    last key of [ubWin]. *)
Definition drain_fuel (w : Window) (curCycle : Z) : nat :=
  Z.to_nat (2 * H + match last (ubWin w) with Some (k, _) => k + 1 - curCycle | None => 0 end).

Definition place (touch rec : bool) (portMask schedCycle : Z) : M WS Z := fun '(w, curCycle) =>
  let delay := if curCycle <? schedCycle then u32 (schedCycle - curCycle) else 0 in
  let curWinPos := u32 (curPos w + delay) in
  match tryFrom touch rec (Z.to_nat (H - curWinPos)) curWinPos (curWin w) portMask (lastPort w) with
  | Err e => Err e
  | Ok (p, win, lp) =>
      if p <? H then
        Ok (u64 (curCycle + u32 (p - curPos w)),
            (mkWin win (nextWin w) (ubWin w) (occupancy w) (curPos w) lp, curCycle))
      else
        let nextWinPos := u32 (p - H) in
        match tryFrom touch rec (Z.to_nat (H - nextWinPos)) nextWinPos (nextWin w) portMask lp with
        | Err e => Err e
        | Ok (q, nwin, lp') =>
            let s := u64 (curCycle + u32 (q + H - curPos w)) in
            if q <? H then
              Ok (s, (mkWin win nwin (ubWin w) (occupancy w) (curPos w) lp', curCycle))
            else
              match tryUb touch rec (ubWin w) s portMask lp' with
              | Err e => Err e
              | Ok (s', ub, lp'') =>
                  Ok (s', (mkWin win nwin ub (occupancy w) (curPos w) lp'', curCycle))
              end
        end
  end.

Definition scheduleInternal (touch rec : bool) (schedCycle portMask : Z) : M WS Z :=
  s <- get ;;
  while_ (drain_fuel s.1 s.2) (fun s => touch && (occupancy s.1 =? WSZ)) advancePos ;;
  r <- place touch rec portMask schedCycle ;;
  when touch (modify (fun '(w, c) =>
    (mkWin (curWin w) (nextWin w) (ubWin w) (u32 (occupancy w + 1)) (curPos w) (lastPort w), c))) ;;
  ret r.

(** ** [schedule], [longAdvance], [poisonRange] *)

(** The loop over the extra slots. *)
Fixpoint extraLoop (n : nat) (extraSlotCycle mask : Z) : M WS unit :=
  match n with
  | O => ret tt
  | S n' =>
      c <- scheduleInternal false false extraSlotCycle mask ;;
      extraLoop n' (u64 (c + 1)) mask
  end.

Definition schedule (schedCycle portMask extraSlots : Z) : M WS Z :=
  s <- (if extraSlots =? 0 then scheduleInternal true false schedCycle portMask
        else
          s <- scheduleInternal true true schedCycle portMask ;;
          lp <- gets (fun st => lastPort st.1) ;;
          extraLoop (Z.to_nat extraSlots) (u64 (s + 1)) (u8 (Z.shiftl 1 lp)) ;;
          ret s) ;;
  st <- get ;;
  assert_ "ooo_core.h:148" (occupancy st.1 <=? WSZ) ;;
  ret s.

Definition longAdvance (targetCycle : Z) : M WS unit :=
  s <- get ;;
  assert_ "ooo_core.h:178" (s.2 <=? targetCycle) ;;
  while_ (Z.to_nat (targetCycle - s.2))
    (fun s => negb (occupancy s.1 =? 0) && (s.2 <? targetCycle)) advancePos ;;
  s <- get ;;
  if negb (occupancy s.1 =? 0) then assert_ "ooo_core.h:187" (s.2 =? targetCycle)
  else
    assert_ "ooo_core.h:190" (s.2 <=? targetCycle) ;;
    modify (fun '(w, _) => (w, targetCycle)).

(** The loop of [poisonRange]. *)
Fixpoint poisonLoop (fuel : nat) (poisonCycle targetCycle portMask : Z) : M WS unit :=
  if poisonCycle <? targetCycle then
    match fuel with
    | O => fail OutOfFuel
    | S n =>
        c <- scheduleInternal false false poisonCycle portMask ;;
        poisonLoop n c targetCycle portMask
    end
  else ret tt.

Definition poisonRange (targetCycle portMask : Z) : M WS unit :=
  s <- get ;;
  poisonLoop (S (Z.to_nat (targetCycle - s.2))) s.2 targetCycle portMask ;;
  s' <- get ;;
  assert_ "ooo_core.h:203" (s.2 =? s'.2).

End Window.
