(* ===== verification/OooWindowInv.v ===== *)
(** * The instruction window: invariant and operations

    The entry of every cycle ([slot]), the invariant of the structure, and what
    each operation of [OooWindow] does to the entries. *)

From stdpp Require Import base list sorting strings.
From Stdlib Require Import ZArith Lia.
From S2P Require Import Prelude OooWindow.
Local Open Scope Z_scope.

(** ** Bits *)

Lemma ffs_pos_ge1 p : 1 <= ffs_pos p.
Proof. induction p; simpl; lia. Qed.

Lemma ffs_lowest p :
  Z.testbit (Zpos p) (ffs_pos p - 1) = true /\
  forall q, 0 <= q < ffs_pos p - 1 -> Z.testbit (Zpos p) q = false.
Proof.
  induction p as [p IH|p IH|]; simpl ffs_pos.
  - split; [done|]. intros; lia.
  - destruct IH as [IH1 IH2]. pose proof (ffs_pos_ge1 p).
    rewrite Pos2Z.inj_xO. split.
    + replace (1 + ffs_pos p - 1) with (Z.succ (ffs_pos p - 1)) by lia.
      by rewrite Z.testbit_even_succ by lia.
    + intros q Hq. destruct (Z.eq_dec q 0) as [->|]; [apply Z.testbit_even_0|].
      replace q with (Z.succ (q - 1)) by lia. rewrite Z.testbit_even_succ by lia.
      apply IH2. lia.
  - split; [done|]. intros; lia.
Qed.

Lemma testbit_u8_small z i : 0 <= z < 2 ^ 8 -> Z.testbit z i = true -> 0 <= i < 8.
Proof.
  intros Hz Hi. destruct (Z.lt_ge_cases i 0) as [?|?].
  { by rewrite Z.testbit_neg_r in Hi. }
  split; [done|]. apply Z.nle_gt. intros ?.
  assert (Z.testbit z i = false); [|congruence].
  destruct (Z.eq_dec z 0) as [->|]; [apply Z.testbit_0_l|].
  apply Z.bits_above_log2; [lia|]. apply Z.log2_lt_pow2; [lia|].
  eapply Z.lt_le_trans; [apply Hz|]. by apply Z.pow_le_mono_r.
Qed.

Lemma u8_range z : 0 <= u8 z < 2 ^ 8.
Proof. apply Z.mod_pos_bound. lia. Qed.

Lemma u8_id z : 0 <= z < 2 ^ 8 -> u8 z = z.
Proof. apply Z.mod_small. Qed.

Lemma testbit_u8 z i : 0 <= i < 8 -> Z.testbit (u8 z) i = Z.testbit z i.
Proof. intros Hi. unfold u8. rewrite Z.mod_pow2_bits_low; [done|lia]. Qed.

Lemma nonzero_bit z : 0 <= z < 2 ^ 8 -> z <> 0 -> exists i, 0 <= i < 8 /\ Z.testbit z i = true.
Proof.
  intros Hz Hn. destruct z as [|p|p]; [done| |lia].
  exists (ffs_pos p - 1). destruct (ffs_lowest p) as [Hb _]. split; [|done].
  by eapply testbit_u8_small.
Qed.

Lemma lor_u8 a b : 0 <= a < 2 ^ 8 -> 0 <= b < 2 ^ 8 -> 0 <= Z.lor a b < 2 ^ 8.
Proof.
  intros Ha Hb. assert (u8 (Z.lor a b) = Z.lor a b) as <-; [|apply u8_range].
  apply Z.bits_inj'. intros n Hn. unfold u8. destruct (Z.lt_ge_cases n 8).
  - rewrite Z.mod_pow2_bits_low; [done|lia].
  - rewrite Z.mod_pow2_bits_high by lia. symmetry. rewrite Z.lor_spec.
    apply orb_false_iff. split; apply not_true_is_false; intros E.
    + apply testbit_u8_small in E; lia.
    + apply testbit_u8_small in E; lia.
Qed.

(** ** One cycle *)

Definition wc_ok (wc : WinCycle) : Prop := 0 <= occUnits wc < 2 ^ 8 /\ 0 <= count wc.

(** A port mask of the decoder: some port, within the eight. *)
Definition mask_ok (portMask : Z) : Prop := 0 < portMask < 2 ^ 8.

(** Port [p] is the lowest one of the mask that is free in the cycle. *)
Definition lowest_free (wc : WinCycle) (portMask p : Z) : Prop :=
  0 <= p < 8 /\ Z.testbit portMask p = true /\ Z.testbit (occUnits wc) p = false /\
  forall q, 0 <= q < p -> Z.testbit portMask q = true -> Z.testbit (occUnits wc) q = true.

(** All ports of the mask are taken. *)
Definition taken (wc : WinCycle) (portMask : Z) : Prop :=
  forall q, Z.testbit portMask q = true -> Z.testbit (occUnits wc) q = true.

(** The entry after a uop has taken port [p], or a shadow slot the mask. *)
Definition booked (touch : bool) (wc : WinCycle) (portMask p : Z) : WinCycle :=
  if touch then mkWC (Z.lor (occUnits wc) (2 ^ p)) (count wc + 1)
  else mkWC (Z.lor (occUnits wc) portMask) (count wc).

Lemma wc_empty_ok : wc_ok wc_empty.
Proof. split; simpl; lia. Qed.

Lemma empty_not_taken portMask : mask_ok portMask -> ~ taken wc_empty portMask.
Proof.
  intros Hm Ht. destruct (nonzero_bit portMask) as (i & Hi & Hb); [unfold mask_ok in Hm; lia..|].
  apply Ht in Hb. simpl in Hb. by rewrite Z.testbit_0_l in Hb.
Qed.

Definition avail (wc : WinCycle) (portMask : Z) : Z :=
  u8 (Z.land (Z.lnot (occUnits wc)) portMask).

Lemma avail_bit wc portMask i : 0 <= i < 8 ->
  Z.testbit (avail wc portMask) i = negb (Z.testbit (occUnits wc) i) && Z.testbit portMask i.
Proof. intros Hi. unfold avail. rewrite testbit_u8, Z.land_spec, Z.lnot_spec by lia. done. Qed.

Lemma avail_zero wc portMask : mask_ok portMask -> avail wc portMask = 0 <-> taken wc portMask.
Proof.
  intros Hm. split.
  - intros H0 q Hq. assert (0 <= q < 8) as Hr by (eapply testbit_u8_small; [|done]; unfold mask_ok in Hm; lia).
    pose proof (avail_bit wc portMask q Hr) as Hb. rewrite H0, Z.testbit_0_l, Hq in Hb.
    by destruct (Z.testbit (occUnits wc) q).
  - intros Ht. destruct (Z.eq_dec (avail wc portMask) 0) as [|Hn]; [done|].
    destruct (nonzero_bit (avail wc portMask)) as (i & Hi & Hb); [apply u8_range|done|].
    rewrite avail_bit in Hb by done. apply andb_true_iff in Hb as [Hb1 Hb2].
    rewrite (Ht i Hb2) in Hb1. done.
Qed.

Lemma avail_lowest wc portMask : mask_ok portMask -> avail wc portMask <> 0 ->
  lowest_free wc portMask (ffs (avail wc portMask) - 1).
Proof.
  intros Hm Hn. pose proof (u8_range (Z.land (Z.lnot (occUnits wc)) portMask)) as Hr.
  fold (avail wc portMask) in Hr. pose proof (fun i => avail_bit wc portMask i) as Hbit.
  destruct (avail wc portMask) as [|p|p]; [done| |lia]. simpl.
  destruct (ffs_lowest p) as [Hb Hlow]. assert (0 <= ffs_pos p - 1 < 8) as Hp by (by eapply testbit_u8_small).
  rewrite Hbit in Hb by done. apply andb_true_iff in Hb as [Hb1 Hb2]. apply negb_true_iff in Hb1.
  split; [done|]. split; [done|]. split; [done|]. intros q Hq Hqm.
  specialize (Hlow q Hq). rewrite Hbit, Hqm in Hlow by lia. by destruct (Z.testbit (occUnits wc) q).
Qed.

Lemma lor_taken wc portMask : mask_ok portMask -> taken wc portMask ->
  Z.lor (occUnits wc) portMask = occUnits wc.
Proof.
  intros Hm Ht. apply Z.bits_inj'. intros n Hn. rewrite Z.lor_spec.
  destruct (Z.testbit portMask n) eqn:E; [by rewrite (Ht n E)|apply orb_false_r].
Qed.

(** [trySchedule] fails and changes nothing exactly when the ports are taken;
    otherwise it books the lowest free one. *)
Lemma trySchedule_spec touch rec wc portMask lp :
  wc_ok wc -> mask_ok portMask -> count wc < 255 ->
  (taken wc portMask /\ trySchedule touch rec wc portMask lp = (0, wc, lp)) \/
  (exists p, lowest_free wc portMask p /\ avail wc portMask <> 0 /\
     trySchedule touch rec wc portMask lp =
       (avail wc portMask, booked touch wc portMask p, if touch && rec then p else lp)).
Proof.
  intros [Ho Hc] Hm Hcnt. unfold trySchedule. fold (avail wc portMask).
  destruct (Z.eqb_spec (avail wc portMask) 0) as [E|E].
  - left. apply avail_zero in E as Ht; [|done]. split; [done|]. destruct touch; [by rewrite E|].
    rewrite E, lor_taken, u8_id by done. by destruct wc.
  - right. exists (ffs (avail wc portMask) - 1).
    pose proof (avail_lowest wc portMask Hm E) as Hl. split; [done|]. split; [done|].
    destruct Hl as (Hp & _). unfold booked. destruct touch; simpl.
    + rewrite (u8_id (ffs _ - 1)) by lia. rewrite Z.shiftl_1_l.
      assert (0 <= 2 ^ (ffs (avail wc portMask) - 1) < 2 ^ 8)
        by (split; [lia|apply Z.pow_lt_mono_r; lia]).
      rewrite (u8_id (Z.lor _ _)) by (by apply lor_u8). rewrite u8_id by lia. by destruct rec.
    + rewrite u8_id; [done|]. apply lor_u8; unfold mask_ok in Hm; lia.
Qed.

Lemma booked_ok touch wc portMask p :
  wc_ok wc -> mask_ok portMask -> 0 <= p < 8 -> wc_ok (booked touch wc portMask p).
Proof.
  intros [Ho Hc] Hm Hp. unfold booked. destruct touch; split; simpl; try lia; apply lor_u8;
    unfold mask_ok in *; try lia.
  split; [lia|]. apply Z.pow_lt_mono_r; lia.
Qed.

Lemma booked_use touch wc portMask p :
  wc_ok wc -> mask_ok portMask -> 0 <= p < 8 ->
  wc_ok (booked touch wc portMask p) /\ occUnits (booked touch wc portMask p) <> 0.
Proof.
  intros Hwc Hm Hp. split; [by apply booked_ok|]. unfold booked.
  destruct touch; simpl; intros E; apply Z.lor_eq_0_iff in E as [_ E];
    [pose proof (Z.pow_pos_nonneg 2 p)|unfold mask_ok in Hm]; lia.
Qed.

(** ** Counting the uops of the window *)

Definition cnt (l : list WinCycle) : Z := foldr (fun wc a => count wc + a) 0 l.
Definition cnt_ub (l : list (Z * WinCycle)) : Z := cnt (map snd l).
Definition touched (touch : bool) : Z := if touch then 1 else 0.

Lemma cnt_nonneg l : Forall wc_ok l -> 0 <= cnt l.
Proof. induction 1 as [|wc l [_ ?] _ IH]; simpl; lia. Qed.

Lemma cnt_app l k : cnt (l ++ k) = cnt l + cnt k.
Proof. induction l as [|wc l IH]; simpl; lia. Qed.

Lemma cnt_insert l i wc wc' :
  l !! i = Some wc -> cnt (<[i := wc']> l) = cnt l - count wc + count wc'.
Proof. revert i. induction l as [|x l IH]; intros [|i] E; simplify_eq/=; [lia|]. rewrite (IH i) by done. lia. Qed.

Lemma cnt_lookup l i wc : Forall wc_ok l -> l !! i = Some wc -> count wc <= cnt l.
Proof.
  intros Hf. revert i. induction Hf as [|x l [_ ?] Hf IH]; intros [|i] E; simplify_eq/=.
  - pose proof (cnt_nonneg l Hf). lia.
  - specialize (IH i E). lia.
Qed.

Lemma cnt_replicate n : cnt (replicate n wc_empty) = 0.
Proof. induction n; simpl; lia. Qed.

(** A window that holds a uop holds it in some cycle. *)
Lemma wcnt_pos l : 0 < cnt l -> exists i wc, l !! i = Some wc /\ 0 < count wc.
Proof.
  induction l as [|x l IH]; simpl; [lia|]. intros Hp. destruct (Z.lt_ge_cases 0 (count x)).
  - by exists 0%nat, x.
  - destruct IH as (i & wc & ? & ?); [lia|]. by exists (S i), wc.
Qed.

Lemma booked_count touch wc portMask p : count (booked touch wc portMask p) = count wc + touched touch.
Proof. destruct touch; simpl; lia. Qed.

(** ** The search in an array *)

Lemma taken_dec wc portMask : mask_ok portMask -> taken wc portMask \/ exists p, lowest_free wc portMask p.
Proof.
  intros Hm. destruct (Z.eq_dec (avail wc portMask) 0) as [E|E].
  - left. by apply avail_zero.
  - right. eexists. by apply avail_lowest.
Qed.

Lemma lowest_not_taken wc portMask p : lowest_free wc portMask p -> ~ taken wc portMask.
Proof. intros (? & Hp & Hf & _) Ht. apply Ht in Hp. congruence. Qed.

Section Search.
Context (touch rec : bool) (portMask : Z) (Hm : mask_ok portMask).

(** The search from [pos] ends at the first position with a free port, or after
    the array with the array unchanged. *)
Lemma tryFrom_spec n pos win lp :
  Forall wc_ok win -> cnt win < 255 -> 0 <= pos ->
  (n = Z.to_nat (Z.of_nat (length win) - pos)) ->
  (exists q wc p, pos <= q < Z.of_nat (length win) /\ win !! Z.to_nat q = Some wc /\
     lowest_free wc portMask p /\
     (forall j wj, pos <= j < q -> win !! Z.to_nat j = Some wj -> taken wj portMask) /\
     tryFrom touch rec n pos win portMask lp =
       Ok (q, <[Z.to_nat q := booked touch wc portMask p]> win, if touch && rec then p else lp)) \/
  ((forall j wj, pos <= j -> win !! Z.to_nat j = Some wj -> taken wj portMask) /\
   tryFrom touch rec n pos win portMask lp = Ok (Z.max pos (Z.of_nat (length win)), win, lp)).
Proof.
  intros Hok Hc. revert pos. induction n as [|n IH]; intros pos Hpos Hn.
  - right. simpl. split; [|by rewrite Z.max_l by lia].
    intros j wj Hj Hl. apply lookup_lt_Some in Hl. lia.
  - destruct (lookup_lt_is_Some_2 win (Z.to_nat pos)) as [wc Hwc]; [lia|].
    simpl. rewrite Hwc. pose proof (proj1 (Forall_lookup _ _) Hok _ _ Hwc) as Hwok.
    pose proof (cnt_lookup _ _ _ Hok Hwc).
    destruct (trySchedule_spec touch rec wc portMask lp Hwok Hm) as [[Ht ->]|(p & Hp & Hav & ->)]; [lia|..].
    + simpl. rewrite list_insert_id by done.
      destruct (IH (pos + 1)) as [(q & wq & p & Hq & Hlq & Hfq & Hbelow & ->)|[Hall ->]]; [lia..| |].
      * left. exists q, wq, p. split; [lia|]. split; [done|]. split; [done|]. split; [|done].
        intros j wj Hj Hlj. destruct (Z.eq_dec j pos) as [->|]; [by simplify_eq|].
        eapply Hbelow; [|done]. lia.
      * right. split; [|by rewrite !Z.max_r by lia].
        intros j wj Hj Hlj. destruct (Z.eq_dec j pos) as [->|]; [by simplify_eq|].
        eapply Hall; [|done]. lia.
    + apply Z.eqb_neq in Hav as ->. left. exists pos, wc, p. split; [lia|].
      split; [done|]. split; [done|]. split; [|done]. intros; lia.
Qed.

(** ** The search in the unbounded window *)

Fixpoint ub_lookup (ub : list (Z * WinCycle)) (t : Z) : WinCycle :=
  match ub with
  | [] => wc_empty
  | (k, wc) :: ub' => if k =? t then wc else ub_lookup ub' t
  end.

Definition ub_sorted (ub : list (Z * WinCycle)) : Prop := StronglySorted Z.lt (map fst ub).

Definition ub_above (b : Z) (ub : list (Z * WinCycle)) : Prop := Forall (fun e => b <= e.1) ub.
Definition ub_below (b : Z) (ub : list (Z * WinCycle)) : Prop := Forall (fun e => e.1 < b) ub.
Definition ub_ok (ub : list (Z * WinCycle)) : Prop := Forall (fun e => wc_ok e.2 /\ occUnits e.2 <> 0) ub.

Lemma ub_ok_cnt ub : ub_ok ub -> Forall wc_ok (map snd ub).
Proof. unfold ub_ok. rewrite Forall_map. intros Hf. eapply Forall_impl; [exact Hf|]. by intros ? [? _]. Qed.

Lemma ub_lookup_above b ub t : ub_above b ub -> t < b -> ub_lookup ub t = wc_empty.
Proof.
  induction 1 as [|[k wc] ub Hk _ IH]; intros Ht; simpl in *; [done|].
  destruct (Z.eqb_spec k t); [lia|]. by apply IH.
Qed.

Lemma ub_lookup_below b ub t : ub_below b ub -> b <= t -> ub_lookup ub t = wc_empty.
Proof.
  induction 1 as [|[k wc] ub Hk _ IH]; intros Ht; simpl in *; [done|].
  destruct (Z.eqb_spec k t); [lia|]. by apply IH.
Qed.

Lemma ub_sorted_cons k wc ub : ub_sorted ((k, wc) :: ub) -> ub_sorted ub /\ ub_above (k + 1) ub.
Proof.
  unfold ub_sorted, ub_above. simpl. intros Hs. apply StronglySorted_inv in Hs as [? Hf].
  split; [done|]. rewrite Forall_map in Hf. eapply Forall_impl; [exact Hf|]. simpl. lia.
Qed.

Lemma ub_sorted_intro k wc ub : ub_sorted ub -> ub_above (k + 1) ub -> ub_sorted ((k, wc) :: ub).
Proof.
  intros Hs Ha. unfold ub_sorted. simpl. constructor; [done|]. rewrite Forall_map.
  eapply Forall_impl; [exact Ha|]. simpl. lia.
Qed.

Lemma ub_above_weaken b b' ub : b' <= b -> ub_above b ub -> ub_above b' ub.
Proof. intros Hb. unfold ub_above. intros HF. eapply Forall_impl; [exact HF|]. simpl. lia. Qed.

Lemma ub_below_weaken b b' ub : b <= b' -> ub_below b ub -> ub_below b' ub.
Proof. intros Hb. unfold ub_below. intros HF. eapply Forall_impl; [exact HF|]. simpl. lia. Qed.

(** What the search from [s] leaves: it books the first cycle with a free port. *)
Definition ub_booked (ub : list (Z * WinCycle)) (s lp : Z) (r : res (Z * list (Z * WinCycle) * Z)) : Prop :=
  exists s' p ub', r = Ok (s', ub', if touch && rec then p else lp) /\ s <= s' /\
    lowest_free (ub_lookup ub s') portMask p /\
    (forall j, s <= j < s' -> taken (ub_lookup ub j) portMask) /\
    (forall t, ub_lookup ub' t = if t =? s' then booked touch (ub_lookup ub s') portMask p else ub_lookup ub t) /\
    ub_sorted ub' /\ ub_ok ub' /\ cnt_ub ub' = cnt_ub ub + touched touch /\
    (forall b, ub_above b ub -> b <= s' -> ub_above b ub') /\
    (forall b, ub_below b ub -> s' < b -> ub_below b ub').

(** A cycle that is not in the map is inserted before the larger ones. *)
Lemma ub_insert_booked w ub s lp :
  ub_sorted ub -> ub_ok ub -> ub_above (s + 1) ub ->
  ub_booked ub s lp
    (let '(av, wc', lp') := trySchedule touch rec wc_empty portMask lp in
     if av =? 0 then Err (AssertFail w) else Ok (s, (s, wc') :: ub, lp')).
Proof.
  intros Hs Hok Ha.
  destruct (trySchedule_spec touch rec wc_empty portMask lp wc_empty_ok Hm) as [[Ht _]|(p & Hp & Hav & ->)];
    [simpl; lia|by apply empty_not_taken in Ht|].
  apply Z.eqb_neq in Hav as ->.
  assert (ub_lookup ub s = wc_empty) as Hl by (eapply ub_lookup_above; [done|lia]).
  exists s, p, ((s, booked touch wc_empty portMask p) :: ub). rewrite Hl.
  split; [done|]. split; [lia|]. split; [done|]. split; [intros; lia|]. split.
  { intros t. simpl. rewrite (Z.eqb_sym s t). done. }
  split; [by apply ub_sorted_intro|]. split.
  { constructor; [|done]. apply booked_use; [apply wc_empty_ok|done|]. apply Hp. }
  split. { unfold cnt_ub. simpl. rewrite booked_count. simpl. lia. }
  split; intros b Hb Hsb; constructor; simpl; [done..|]. done.
Qed.

Lemma ub_booked_skip k wc ub s lp r :
  ub_sorted ((k, wc) :: ub) -> wc_ok wc -> occUnits wc <> 0 -> k < s -> ub_booked ub s lp r ->
  ub_booked ((k, wc) :: ub) s lp
    (match r with Ok (s', r', l) => Ok (s', (k, wc) :: r', l) | Err e => Err e end).
Proof.
  intros Hs Hwc Hnz Hk (s' & p & ub' & -> & Hle & Hp & Hbel & Hupd & Hs' & Hok' & Hcnt & Hab & Hbe).
  apply ub_sorted_cons in Hs as [Hs Ha].
  exists s', p, ((k, wc) :: ub'). simpl.
  assert ((k =? s') = false) as -> by (apply Z.eqb_neq; lia).
  split; [done|]. split; [done|]. split; [done|]. split.
  { intros j Hj. destruct (Z.eqb_spec k j); [lia|]. by apply Hbel. }
  split. { intros t. rewrite Hupd. destruct (Z.eqb_spec k t), (Z.eqb_spec t s'); try done; lia. }
  split. { apply ub_sorted_intro; [done|]. apply Hab; [done|lia]. }
  split; [by constructor|]. split. { unfold cnt_ub in *. simpl. lia. }
  split; intros b Hb Hsb; apply Forall_cons in Hb as [? ?]; (constructor; [done|]);
    [by apply Hab|by apply Hbe].
Qed.

Lemma tryUb_spec ub s lp B :
  ub_sorted ub -> ub_ok ub -> cnt_ub ub < 255 -> ub_below B ub -> 0 <= s -> s < 2 ^ 64 -> B < 2 ^ 64 ->
  ub_booked ub s lp (tryUb touch rec ub s portMask lp).
Proof.
  revert s lp. induction ub as [|[k wc] ub IH]; intros s lp Hs Hok Hc Hbel Hs0 Hsb HB.
  - apply (ub_insert_booked "ooo_core.h:243" []); constructor.
  - pose proof (ub_sorted_cons _ _ _ Hs) as [Hs' Ha].
    apply Forall_cons in Hok as [Hwc Hok]. apply Forall_cons in Hbel as [HkB Hbel]. simpl in Hwc, HkB.
    pose proof (cnt_nonneg _ (ub_ok_cnt _ Hok)) as Hnn. unfold cnt_ub in Hc. simpl in Hc.
    fold (cnt_ub ub) in Hc, Hnn. destruct Hwc as [[Ho Hcw] Hnz]. simpl tryUb.
    destruct (Z.ltb_spec k s).
    { eapply ub_booked_skip; [done|done|done|lia|]. apply IH; try done. lia. }
    destruct (Z.eqb_spec k s) as [->|Hne]; simpl.
    2:{ apply ub_insert_booked; [done|by constructor|]. constructor; [simpl; lia|].
        eapply ub_above_weaken; [|done]. lia. }
    destruct (trySchedule_spec touch rec wc portMask lp) as [[Ht ->]|(p & Hp & Hav & ->)]; [done..|lia| |].
    + simpl. rewrite u64_id by (unfold in_u64; lia).
      assert (ub_booked ub (s + 1) lp (tryUb touch rec ub (s + 1) portMask lp)) as HIH
        by (apply IH; try done; lia).
      apply (ub_booked_skip s wc) in HIH; [|done|done|done|lia].
      destruct HIH as (s' & p & ub' & E & Hle & Hp & Hbl & Hrest). rewrite E.
      exists s', p, ub'. split; [done|]. split; [lia|]. split; [done|]. split; [|done].
      intros j Hj. destruct (Z.eq_dec j s) as [->|]; [simpl; by rewrite Z.eqb_refl|]. apply Hbl. lia.
    + apply Z.eqb_neq in Hav as ->. exists s, p, ((s, booked touch wc portMask p) :: ub).
      simpl. rewrite Z.eqb_refl. split; [done|]. split; [lia|]. split; [done|]. split; [intros; lia|].
      split. { intros t. rewrite (Z.eqb_sym t s). by destruct (s =? t). }
      split; [by apply ub_sorted_intro|].
      split. { constructor; [|done]. apply booked_use; [done|done|apply Hp]. }
      split. { unfold cnt_ub. simpl. rewrite booked_count. lia. }
      split; intros b Hb Hsb'; apply Forall_cons in Hb as [? ?]; by constructor.
Qed.

End Search.

(** ** The whole window *)

Lemma lookup_insert_default (l : list WinCycle) i j x : (i < length l)%nat ->
  default wc_empty (<[i := x]> l !! j) = if (j =? i)%nat then x else default wc_empty (l !! j).
Proof.
  intros Hi. destruct (Nat.eqb_spec j i) as [->|].
  - by rewrite list_lookup_insert_eq.
  - by rewrite list_lookup_insert_ne.
Qed.

Section Whole.
Context (H WSZ : Z) (HH : 0 < H < 2 ^ 28) (HW : 0 < WSZ < 255).
#[local] Set Default Proof Using "All".

(** The entry of cycle [t]. *)
Definition slot (w : Window) (cur t : Z) : WinCycle :=
  if t <? cur then wc_empty
  else
    let d := t - cur + curPos w in
    if d <? H then default wc_empty (curWin w !! Z.to_nat d)
    else if d <? 2 * H then default wc_empty (nextWin w !! Z.to_nat (d - H))
    else ub_lookup (ubWin w) t.

Definition total (w : Window) : Z := cnt (curWin w) + cnt (nextWin w) + cnt_ub (ubWin w).

Record WinOk (w : Window) (cur : Z) : Prop := {
  wo_cyc : 0 <= cur < 2 ^ 63;
  wo_len : Z.of_nat (length (curWin w)) = H;
  wo_nlen : Z.of_nat (length (nextWin w)) = H;
  wo_pos : 0 <= curPos w < H;
  wo_cok : Forall wc_ok (curWin w);
  wo_nok : Forall wc_ok (nextWin w);
  wo_uok : ub_ok (ubWin w);
  wo_past : forall i, (i < Z.to_nat (curPos w))%nat -> curWin w !! i = Some wc_empty;
  wo_sorted : ub_sorted (ubWin w);
  wo_above : ub_above (cur - curPos w + 2 * H) (ubWin w);
  wo_below : ub_below (2 ^ 63) (ubWin w);
  wo_occ : occupancy w = total w;
  wo_max : occupancy w <= WSZ
}.

(** No port is taken from cycle [T] on. *)
Definition horizon (w : Window) (cur T : Z) : Prop := forall t, T <= t -> slot w cur t = wc_empty.

(** [t] is the first cycle from [s] on with a free port of the mask. *)
Definition first_free (sl : Z -> WinCycle) (portMask s t : Z) : Prop :=
  s <= t /\ ~ taken (sl t) portMask /\ forall j, s <= j < t -> taken (sl j) portMask.

Lemma first_free_horizon w cur T portMask s t : mask_ok portMask ->
  horizon w cur T -> first_free (slot w cur) portMask s t -> t <= Z.max s T.
Proof.
  intros Hm Hh (Hle & _ & Hj). apply Z.nlt_ge. intros Hlt.
  eapply (empty_not_taken portMask); [done|]. rewrite <- (Hh (Z.max s T)) by lia. apply Hj. lia.
Qed.

Lemma occ_parts w cur : WinOk w cur ->
  cnt (curWin w) < 255 /\ cnt (nextWin w) < 255 /\ cnt_ub (ubWin w) < 255.
Proof.
  intros []. pose proof (cnt_nonneg _ wo_cok0). pose proof (cnt_nonneg _ wo_nok0).
  pose proof (cnt_nonneg _ (ub_ok_cnt _ wo_uok0)). unfold total, cnt_ub in *. lia.
Qed.

Lemma slot_cur w cur t : WinOk w cur -> cur <= t < cur - curPos w + H ->
  exists wc, curWin w !! Z.to_nat (t - cur + curPos w) = Some wc /\ slot w cur t = wc.
Proof.
  intros [] Ht. destruct (lookup_lt_is_Some_2 (curWin w) (Z.to_nat (t - cur + curPos w))) as [wc E]; [lia|].
  exists wc. split; [done|]. unfold slot. destruct (Z.ltb_spec t cur); [lia|].
  destruct (Z.ltb_spec (t - cur + curPos w) H); [|lia]. by rewrite E.
Qed.

Lemma slot_next w cur t : WinOk w cur -> cur - curPos w + H <= t < cur - curPos w + 2 * H ->
  exists wc, nextWin w !! Z.to_nat (t - cur + curPos w - H) = Some wc /\ slot w cur t = wc.
Proof.
  intros [] Ht. destruct (lookup_lt_is_Some_2 (nextWin w) (Z.to_nat (t - cur + curPos w - H))) as [wc E]; [lia|].
  exists wc. split; [done|]. unfold slot. destruct (Z.ltb_spec t cur); [lia|].
  destruct (Z.ltb_spec (t - cur + curPos w) H); [lia|].
  destruct (Z.ltb_spec (t - cur + curPos w) (2 * H)); [|lia]. by rewrite E.
Qed.

Lemma slot_ub w cur t : WinOk w cur -> cur - curPos w + 2 * H <= t -> slot w cur t = ub_lookup (ubWin w) t.
Proof.
  intros [] Ht. unfold slot. destruct (Z.ltb_spec t cur); [lia|].
  destruct (Z.ltb_spec (t - cur + curPos w) H); [lia|].
  by destruct (Z.ltb_spec (t - cur + curPos w) (2 * H)); [lia|].
Qed.

(** Three ways in which a cycle of the window is stored. *)
Lemma slot_cases w cur t : WinOk w cur -> cur <= t ->
  t < cur - curPos w + H \/ cur - curPos w + H <= t < cur - curPos w + 2 * H \/ cur - curPos w + 2 * H <= t.
Proof. lia. Qed.

(** ** The constructor *)
Lemma Window_init_ok : WinOk (Window_init H) 0.
Proof.
  constructor; simpl; rewrite ?length_replicate; try lia; try constructor.
  - by apply Forall_replicate, wc_empty_ok.
  - by apply Forall_replicate, wc_empty_ok.
  - unfold total, cnt_ub. simpl. rewrite !cnt_replicate. lia.
Qed.

Lemma Window_init_slot t : slot (Window_init H) 0 t = wc_empty.
Proof.
  unfold slot, Window_init. simpl. destruct (t <? 0); [done|].
  assert (forall i, default wc_empty (replicate (Z.to_nat H) wc_empty !! i) = wc_empty) as E.
  { intros i. destruct (replicate _ _ !! i) as [x|] eqn:E; [|done].
    apply lookup_replicate in E as [-> _]. done. }
  rewrite !E. by repeat case_match.
Qed.

(** ** [advancePos] *)

(** The entries below the horizon move to [nextWin], where their places are
    empty. *)
Definition moved (ub : list (Z * WinCycle)) (win : list WinCycle) (cyc t : Z) : WinCycle :=
  if bool_decide (ub_lookup ub t = wc_empty) then default wc_empty (win !! Z.to_nat (t - cyc - H))
  else ub_lookup ub t.

Definition places_empty (ub : list (Z * WinCycle)) (win : list WinCycle) (cyc : Z) : Prop :=
  Forall (fun e => e.1 < cyc + 2 * H -> win !! Z.to_nat (e.1 - cyc - H) = Some wc_empty) ub.

Lemma places_empty_insert k wc ub win cyc :
  cyc + H <= k -> ub_above (k + 1) ub -> places_empty ub win cyc ->
  places_empty ub (<[Z.to_nat (k - cyc - H) := wc]> win) cyc.
Proof.
  intros Hk Ha Hp. unfold places_empty in *. rewrite Forall_forall in *. intros e He Hlt.
  unfold ub_above in Ha. rewrite Forall_forall in Ha. specialize (Ha e He).
  rewrite list_lookup_insert_ne by lia. by apply Hp.
Qed.

Lemma moved_insert k wc ub win cyc t :
  (Z.to_nat (k - cyc - H) < length win)%nat -> win !! Z.to_nat (k - cyc - H) = Some wc_empty ->
  cyc + H <= k -> cyc + H <= t -> ub_above (k + 1) ub ->
  moved ub (<[Z.to_nat (k - cyc - H) := wc]> win) cyc t = moved ((k, wc) :: ub) win cyc t.
Proof.
  intros Hlen He Hk Ht Ha. unfold moved. simpl. rewrite lookup_insert_default by done.
  destruct (Z.eqb_spec k t) as [->|Hne].
  - rewrite Nat.eqb_refl, (ub_lookup_above (t + 1) ub) by (done || lia).
    rewrite bool_decide_true by done. case_bool_decide as E; [|done]. by rewrite He, E.
  - assert ((Z.to_nat (t - cyc - H) =? Z.to_nat (k - cyc - H))%nat = false) as ->
      by (apply Nat.eqb_neq; lia). done.
Qed.

Lemma moveUb_spec ub : forall win cyc,
  ub_sorted ub -> ub_ok ub -> ub_above (cyc + H) ub -> ub_below (2 ^ 63) ub ->
  Forall wc_ok win -> Z.of_nat (length win) = H -> 0 <= cyc <= 2 ^ 63 -> places_empty ub win cyc ->
  exists ub' win', moveUb H ub win cyc = Ok (ub', win') /\
    ub_sorted ub' /\ ub_ok ub' /\ ub_above (cyc + 2 * H) ub' /\ ub_below (2 ^ 63) ub' /\
    Forall wc_ok win' /\ length win' = length win /\
    cnt win' + cnt_ub ub' = cnt win + cnt_ub ub /\
    (forall t, cyc + 2 * H <= t -> ub_lookup ub' t = ub_lookup ub t) /\
    (forall t, cyc + H <= t < cyc + 2 * H ->
       default wc_empty (win' !! Z.to_nat (t - cyc - H)) = moved ub win cyc t).
Proof.
  induction ub as [|[k wc] ub IH]; intros win cyc Hs Hok Ha Hb Hwok Hlen Hcyc Hpl; simpl.
  { exists [], win. repeat split; try done; constructor. }
  rewrite u64_id by (unfold in_u64; lia).
  apply Forall_cons in Ha as Ha'. destruct Ha' as [Hka Ha'].
  apply Forall_cons in Hb as Hb'. destruct Hb' as [Hkb Hb'].
  apply Forall_cons in Hok as Hok'. destruct Hok' as [[Hwc _] Hok'].
  apply ub_sorted_cons in Hs as Hs'. destruct Hs' as [Hs' Hab]. simpl in *.
  destruct (Z.ltb_spec k (cyc + 2 * H)).
  - rewrite u32_id by (unfold in_u32; lia). destruct (Z.ltb_spec (k - H - cyc) H); [|lia].
    rewrite set_at_ok by lia. replace (k - H - cyc) with (k - cyc - H) by lia.
    apply Forall_cons in Hpl as [Hpk Hpl]. simpl in Hpk. specialize (Hpk ltac:(lia)).
    destruct (IH (<[Z.to_nat (k - cyc - H) := wc]> win) cyc)
      as (ub' & win' & -> & ? & ? & ? & ? & ? & Hl & Hc & Hub & Hwin); try done.
    { by apply Forall_insert. }
    { by rewrite length_insert. }
    { by apply places_empty_insert. }
    rewrite length_insert in Hl. exists ub', win'. do 7 (split; [done|]). split.
    { rewrite Hc, (cnt_insert _ _ _ _ Hpk). unfold cnt_ub. simpl. lia. }
    split.
    + intros t Ht. rewrite Hub by done. by destruct (Z.eqb_spec k t); [lia|].
    + intros t Ht. rewrite Hwin by done. apply moved_insert; try done; lia.
  - exists ((k, wc) :: ub), win. do 3 (split; [done|]).
    assert (ub_above (cyc + 2 * H) ((k, wc) :: ub)) as Hnew.
    { constructor; [done|]. eapply ub_above_weaken; [|done]. lia. }
    do 6 (split; [done|]). intros t Ht. unfold moved.
    rewrite (ub_lookup_above _ _ _ Hnew) by lia. by rewrite bool_decide_true.
Qed.

(** What one step of the current cycle does: the other cycles keep their
    entries. *)
Definition advanced (w w' : Window) (cur cur' : Z) : Prop :=
  cur <= cur' /\ WinOk w' cur' /\ lastPort w' = lastPort w /\
  forall t, cur' <= t -> slot w' cur' t = slot w cur t.

Lemma advance_in_window w cur wc :
  WinOk w cur -> cur + 1 < 2 ^ 63 -> curPos w + 1 < H -> curWin w !! Z.to_nat (curPos w) = Some wc ->
  advanced w (mkWin (<[Z.to_nat (curPos w) := wc_empty]> (curWin w)) (nextWin w) (ubWin w)
                (occupancy w - count wc) (curPos w + 1) (lastPort w)) cur (cur + 1).
Proof.
  intros Hw Hc Hp E. split; [lia|]. split; [|split; [done|]].
  - pose proof (cnt_lookup _ _ _ (wo_cok _ _ Hw) E) as Hle.
    pose proof (proj1 (Forall_lookup _ _) (wo_cok _ _ Hw) _ _ E) as [_ Hn]. destruct Hw.
    constructor; simpl; rewrite ?length_insert; try done; try lia.
    + by apply Forall_insert; [|apply wc_empty_ok].
    + intros i Hi. destruct (decide (i = Z.to_nat (curPos w))) as [->|].
      * rewrite list_lookup_insert_eq; [done|]. by eapply lookup_lt_Some.
      * rewrite list_lookup_insert_ne by done. apply wo_past0. lia.
    + replace (cur + 1 - (curPos w + 1)) with (cur - curPos w) by lia. done.
    + unfold total in *. simpl. rewrite (cnt_insert _ _ _ _ E). simpl. lia.
  - intros t Ht. unfold slot. simpl.
    replace (t - (cur + 1) + (curPos w + 1)) with (t - cur + curPos w) by lia.
    destruct (Z.ltb_spec t (cur + 1)); [lia|]. destruct (Z.ltb_spec t cur); [lia|].
    rewrite list_lookup_insert_ne; [done|]. pose proof (wo_pos _ _ Hw). lia.
Qed.

(** At the end of [curWin] every cycle of it has been cleared. *)
Definition cleared (win : list WinCycle) : Prop := forall i, (i < length win)%nat -> win !! i = Some wc_empty.

Lemma cleared_at_end w cur : WinOk w cur -> curPos w + 1 = H ->
  cleared (<[Z.to_nat (curPos w) := wc_empty]> (curWin w)).
Proof.
  intros Hw Hp i Hi. rewrite length_insert in Hi. pose proof (wo_len _ _ Hw).
  destruct (decide (i = Z.to_nat (curPos w))) as [->|].
  - by rewrite list_lookup_insert_eq.
  - rewrite list_lookup_insert_ne by done. apply (wo_past _ _ Hw). lia.
Qed.

Lemma cleared_cnt win : cleared win -> cnt win = 0.
Proof.
  intros Hc. replace win with (replicate (length win) wc_empty); [apply cnt_replicate|].
  apply list_eq_same_length with (length win); [done|by rewrite length_replicate|].
  intros i x y Hi Hx Hy. apply lookup_replicate in Hx as [-> _]. rewrite Hc in Hy by done. congruence.
Qed.

Lemma cleared_places ub win cyc : cleared win -> ub_above (cyc + H) ub -> Z.of_nat (length win) = H ->
  places_empty ub win cyc.
Proof.
  intros Hc Ha Hl. unfold places_empty, ub_above in *. rewrite Forall_forall in *.
  intros e He Hlt. specialize (Ha e He). apply Hc. lia.
Qed.

(** The swap of the arrays, with the entries that move from [ubWin]. *)
Lemma advance_rebase w cur wc :
  WinOk w cur -> cur + 1 < 2 ^ 63 -> curPos w + 1 = H -> curWin w !! Z.to_nat (curPos w) = Some wc ->
  exists ub' win',
  moveUb H (ubWin w) (<[Z.to_nat (curPos w) := wc_empty]> (curWin w)) (cur + 1) = Ok (ub', win') /\
  advanced w (mkWin (nextWin w) win' ub' (occupancy w - count wc) 0 (lastPort w)) cur (cur + 1).
Proof.
  intros Hw Hc Hp E. pose proof (cleared_at_end _ _ Hw Hp) as Hemp.
  pose proof (cnt_insert _ _ _ wc_empty E) as Hci. simpl in Hci.
  set (win := <[Z.to_nat (curPos w) := wc_empty]> (curWin w)) in *.
  assert (Z.of_nat (length win) = H) as Hlen by (unfold win; rewrite length_insert; apply Hw).
  assert (ub_above (cur + 1 + H) (ubWin w)) as Hab' by (eapply ub_above_weaken; [|apply Hw]; lia).
  destruct (moveUb_spec (ubWin w) win (cur + 1)) as
    (ub' & win' & Hmv & Hs & Hok & Ha & Hb & Hwok & Hl & Hcnt & Hub & Hwin); try apply Hw; try done.
  { unfold win. apply Forall_insert; [apply Hw|apply wc_empty_ok]. }
  { pose proof (wo_cyc _ _ Hw). lia. }
  { by apply cleared_places. }
  exists ub', win'. split; [done|]. split; [lia|]. split; [|split; [done|]].
  - pose proof (cleared_cnt _ Hemp). pose proof (proj1 (Forall_lookup _ _) (wo_cok _ _ Hw) _ _ E) as [_ ?].
    destruct Hw. constructor; simpl; try done; try lia.
    + by replace (cur + 1 - 0) with (cur + 1) by lia.
    + unfold total in *. simpl. lia.
  - intros t Ht. pose proof (wo_nlen _ _ Hw). unfold slot. simpl.
    replace (t - (cur + 1) + 0) with (t - (cur + 1)) by lia.
    destruct (Z.ltb_spec t (cur + 1)); [lia|]. destruct (Z.ltb_spec t cur); [lia|].
    destruct (Z.ltb_spec (t - cur + curPos w) H); [lia|].
    destruct (Z.ltb_spec (t - (cur + 1)) H), (Z.ltb_spec (t - cur + curPos w) (2 * H)); try lia.
    + by replace (t - cur + curPos w - H) with (t - (cur + 1)) by lia.
    + destruct (Z.ltb_spec (t - (cur + 1)) (2 * H)); [|by apply Hub; lia].
      rewrite Hwin by lia. unfold moved. rewrite Hemp by lia. by case_bool_decide.
Qed.

Lemma advancePos_ok w cur : WinOk w cur -> cur + 1 < 2 ^ 63 ->
  exists w', advancePos H (w, cur) = Ok (tt, (w', cur + 1)) /\ advanced w w' cur (cur + 1) /\
    occupancy w' = occupancy w - count (slot w cur cur).
Proof.
  intros Hw Hc. pose proof (wo_pos _ _ Hw) as Hpos. pose proof (wo_cyc _ _ Hw) as Hcy.
  destruct (slot_cur w cur cur Hw) as (wc & E & Hs); [lia|].
  replace (cur - cur + curPos w) with (curPos w) in E by lia. rewrite Hs.
  pose proof (cnt_lookup _ _ _ (wo_cok _ _ Hw) E).
  pose proof (proj1 (Forall_lookup _ _) (wo_cok _ _ Hw) _ _ E) as [_ ?].
  assert (0 <= occupancy w - count wc < 255) as Hocc.
  { pose proof (occ_parts _ _ Hw) as (_ & _ & _). destruct Hw. unfold total, cnt_ub in *.
    pose proof (cnt_nonneg _ wo_nok0). pose proof (cnt_nonneg _ (ub_ok_cnt _ wo_uok0)). lia. }
  unfold advancePos. rewrite E.
  rewrite (u32_id (occupancy w - count wc)), (u32_id (curPos w + 1)), (u64_id (cur + 1))
    by (unfold in_u32, in_u64; lia).
  destruct (Z.eqb_spec (curPos w + 1) H) as [Hp|Hp].
  - destruct (advance_rebase w cur wc Hw Hc Hp E) as (ub' & win' & -> & Hadv).
    eexists. split; [done|]. by split.
  - eexists. split; [done|]. split; [|done]. apply advance_in_window; try done. lia.
Qed.

End Whole.
