(* ===== verification/OooWindowOps.v ===== *)
(** * The instruction window: scheduling

    What [scheduleInternal], [schedule], [longAdvance] and [poisonRange] do to
    the entries of the cycles, from the lemmas on searching and advancing of
    [OooWindowInv]. *)

From stdpp Require Import base list sorting strings.
From Stdlib Require Import ZArith Lia.
From S2P Require Import Prelude OooWindow OooWindowInv.
Local Open Scope Z_scope.

Section Ops.
Context (H WSZ : Z) (HH : 0 < H < 2 ^ 28) (HW : 0 < WSZ < 255).

#[local] Set Default Proof Using "All".

Definition set_occ (n : Z) (w : Window) : Window :=
  mkWin (curWin w) (nextWin w) (ubWin w) n (curPos w) (lastPort w).

(** The result of booking one slot for a mask from cycle [s] on. *)
Definition booked_at (touch rec : bool) (portMask s : Z) (w w' : Window) (cur s' : Z) : Prop :=
  exists p, first_free (slot H w cur) portMask s s' /\ lowest_free (slot H w cur s') portMask p /\
    lastPort w' = (if touch && rec then p else lastPort w) /\
    occupancy w' = occupancy w /\ WinOk H WSZ (set_occ (occupancy w + touched touch) w') cur /\
    forall t, slot H w' cur t = if t =? s' then booked touch (slot H w cur s') portMask p else slot H w cur t.

Lemma total_nonneg w cur : WinOk H WSZ w cur -> 0 <= total w.
Proof.
  intros []. unfold total, cnt_ub. pose proof (cnt_nonneg _ wo_cok).
  pose proof (cnt_nonneg _ wo_nok). pose proof (cnt_nonneg _ (ub_ok_cnt _ wo_uok)). lia.
Qed.

Section Place.
Context (touch rec : bool) (portMask : Z) (Hm : mask_ok portMask).
Context (w : Window) (cur : Z) (Hw : WinOk H WSZ w cur) (Hroom : occupancy w + touched touch <= WSZ).

(** A slot found in [curWin]. *)
Lemma book_cur s q wc p :
  cur <= s -> s - cur + curPos w <= q < H -> curWin w !! Z.to_nat q = Some wc -> lowest_free wc portMask p ->
  (forall j wj, s - cur + curPos w <= j < q -> curWin w !! Z.to_nat j = Some wj -> taken wj portMask) ->
  booked_at touch rec portMask s w
    (mkWin (<[Z.to_nat q := booked touch wc portMask p]> (curWin w)) (nextWin w) (ubWin w) (occupancy w)
       (curPos w) (if touch && rec then p else lastPort w)) cur (cur + (q - curPos w)).
Proof.
  intros Hs Hq E Hp Hbel. pose proof (wo_pos _ _ _ _ Hw). pose proof (wo_len _ _ _ _ Hw).
  set (s' := cur + (q - curPos w)).
  destruct (slot_cur _ _ HH HW w cur s' Hw) as (wc' & E' & Hsl); [lia|].
  replace (s' - cur + curPos w) with q in E' by lia. assert (wc' = wc) as -> by congruence. exists p.
  split; [|split; [by rewrite Hsl|split; [done|split; [done|split]]]].
  - split; [lia|]. split. { rewrite Hsl. by eapply lowest_not_taken. }
    intros j Hj. destruct (slot_cur _ _ HH HW w cur j Hw) as (wj & Ej & ->); [lia|].
    eapply (Hbel (j - cur + curPos w)); [lia|done].
  - pose proof (proj1 (Forall_lookup _ _) (wo_cok _ _ _ _ Hw) _ _ E) as Hok.
    destruct Hw. constructor; simpl; rewrite ?length_insert; try done.
    + apply Forall_insert; [done|]. apply booked_ok; [done|done|apply Hp].
    + intros i Hi. rewrite list_lookup_insert_ne by lia. by apply wo_past.
    + unfold total in *. simpl. rewrite (cnt_insert _ _ _ _ E), booked_count. lia.
  - intros t. unfold slot at 1. simpl. destruct (Z.ltb_spec t cur).
    { destruct (Z.eqb_spec t s'); [lia|]. unfold slot. by destruct (Z.ltb_spec t cur); [|lia]. }
    unfold slot in *. destruct (Z.ltb_spec t cur); [lia|].
    destruct (Z.ltb_spec (t - cur + curPos w) H).
    + rewrite lookup_insert_default by lia.
      destruct (Z.eqb_spec t s'), (Nat.eqb_spec (Z.to_nat (t - cur + curPos w)) (Z.to_nat q)); try lia; try done.
      by rewrite Hsl.
    + by destruct (Z.eqb_spec t s'); [lia|].
Qed.

(** A slot found in [nextWin]. *)
Lemma book_next s q wc p :
  cur <= s -> 0 <= q < H -> s - cur + curPos w <= q + H -> nextWin w !! Z.to_nat q = Some wc ->
  lowest_free wc portMask p ->
  (forall j wj, s - cur + curPos w <= j -> curWin w !! Z.to_nat j = Some wj -> taken wj portMask) ->
  (forall j wj, s - cur + curPos w - H <= j < q -> 0 <= j -> nextWin w !! Z.to_nat j = Some wj -> taken wj portMask) ->
  booked_at touch rec portMask s w
    (mkWin (curWin w) (<[Z.to_nat q := booked touch wc portMask p]> (nextWin w)) (ubWin w) (occupancy w)
       (curPos w) (if touch && rec then p else lastPort w)) cur (cur + (q + H - curPos w)).
Proof.
  intros Hs Hq Hsq E Hp Hc Hbel. pose proof (wo_pos _ _ _ _ Hw). pose proof (wo_nlen _ _ _ _ Hw).
  set (s' := cur + (q + H - curPos w)).
  destruct (slot_next _ _ HH HW w cur s' Hw) as (wc' & E' & Hsl); [lia|].
  replace (s' - cur + curPos w - H) with q in E' by lia. assert (wc' = wc) as -> by congruence. exists p.
  split; [|split; [by rewrite Hsl|split; [done|split; [done|split]]]].
  - split; [lia|]. split. { rewrite Hsl. by eapply lowest_not_taken. }
    intros j Hj. destruct (Z.lt_ge_cases j (cur - curPos w + H)).
    + destruct (slot_cur _ _ HH HW w cur j Hw) as (wj & Ej & ->); [lia|]. eapply Hc; [|done]. lia.
    + destruct (slot_next _ _ HH HW w cur j Hw) as (wj & Ej & ->); [lia|]. eapply Hbel; [..|done]; lia.
  - pose proof (proj1 (Forall_lookup _ _) (wo_nok _ _ _ _ Hw) _ _ E) as Hok.
    destruct Hw. constructor; simpl; rewrite ?length_insert; try done.
    + apply Forall_insert; [done|]. apply booked_ok; [done|done|apply Hp].
    + unfold total in *. simpl. rewrite (cnt_insert _ _ _ _ E), booked_count. lia.
  - intros t. unfold slot in *. simpl. destruct (Z.ltb_spec t cur).
    { by destruct (Z.eqb_spec t s'); [lia|]. }
    destruct (Z.ltb_spec (t - cur + curPos w) H).
    { by destruct (Z.eqb_spec t s'); [lia|]. }
    destruct (Z.ltb_spec (t - cur + curPos w) (2 * H)).
    + rewrite lookup_insert_default by lia.
      destruct (Z.eqb_spec t s'), (Nat.eqb_spec (Z.to_nat (t - cur + curPos w - H)) (Z.to_nat q)); try lia; try done.
      by rewrite Hsl.
    + by destruct (Z.eqb_spec t s'); [lia|].
Qed.

(** A slot found in the unbounded window. *)
Lemma book_ub s s0 lp r :
  cur <= s -> s0 = Z.max s (cur - curPos w + 2 * H) -> Z.max s s0 < 2 ^ 63 ->
  (exists T, horizon H w cur T /\ T < 2 ^ 63) -> lp = lastPort w ->
  (forall j wj, s - cur + curPos w <= j -> curWin w !! Z.to_nat j = Some wj -> taken wj portMask) ->
  (forall j wj, s - cur + curPos w - H <= j -> 0 <= j -> nextWin w !! Z.to_nat j = Some wj -> taken wj portMask) ->
  ub_booked touch rec portMask (ubWin w) s0 lp r ->
  exists s' ub' lp', r = Ok (s', ub', lp') /\
    booked_at touch rec portMask s w
      (mkWin (curWin w) (nextWin w) ub' (occupancy w) (curPos w) lp') cur s'.
Proof.
  intros Hs -> Hb (T & HT & HTb) -> Hc Hn (s' & p & ub' & -> & Hle & Hp & Hbel & Hupd & Hsort & Hok & Hcnt & Hab & Hbe).
  pose proof (wo_pos _ _ _ _ Hw). exists s', ub', (if touch && rec then p else lastPort w). split; [done|].
  assert (slot H w cur s' = ub_lookup (ubWin w) s') as Hsl by (apply (slot_ub _ _ HH HW); [done|lia]).
  assert (first_free (slot H w cur) portMask s s') as Hff.
  { split; [lia|]. split. { rewrite Hsl. by eapply lowest_not_taken. }
    intros j Hj. destruct (slot_cases _ _ HH HW w cur j Hw) as [?|[?|?]]; [lia|..].
    - destruct (slot_cur _ _ HH HW w cur j Hw) as (wj & Ej & ->); [lia|]. eapply Hc; [|done]. lia.
    - destruct (slot_next _ _ HH HW w cur j Hw) as (wj & Ej & ->); [lia|]. eapply Hn; [..|done]; lia.
    - rewrite (slot_ub _ _ HH HW) by done. apply Hbel. lia. }
  pose proof (first_free_horizon _ _ HH HW _ _ _ _ _ _ Hm HT Hff). exists p.
  split; [done|]. split; [by rewrite Hsl|]. split; [done|]. split; [done|]. split.
  - destruct Hw. constructor; simpl; try done.
    + apply Hab; [done|]. lia.
    + apply Hbe; [done|]. lia.
    + unfold total in *. simpl. lia.
  - intros t. rewrite Hsl. unfold slot. simpl. rewrite Hupd. destruct (Z.ltb_spec t cur).
    { by destruct (Z.eqb_spec t s'); [lia|]. }
    destruct (Z.ltb_spec (t - cur + curPos w) H).
    { by destruct (Z.eqb_spec t s'); [lia|]. }
    destruct (Z.ltb_spec (t - cur + curPos w) (2 * H)).
    { by destruct (Z.eqb_spec t s'); [lia|]. }
    done.
Qed.

(** [place] books the first cycle with a free port from [max cur sched] on. *)
Lemma place_ok sched T :
  horizon H w cur T -> T < 2 ^ 63 -> sched < 2 ^ 63 -> sched - cur < 2 ^ 31 -> cur + 2 ^ 32 < 2 ^ 63 ->
  exists s' w', place H touch rec portMask sched (w, cur) = Ok (s', (w', cur)) /\
    booked_at touch rec portMask (Z.max cur sched) w w' cur s'.
Proof.
  intros HT HTb Hsb Hd Hcb. pose proof (wo_pos _ _ _ _ Hw) as Hpos. pose proof (wo_cyc _ _ _ _ Hw) as Hcyc.
  destruct (occ_parts _ _ HH HW _ _ Hw) as (Hc1 & Hc2 & Hc3).
  pose proof (wo_len _ _ _ _ Hw) as Hl1. pose proof (wo_nlen _ _ _ _ Hw) as Hl2.
  set (s := Z.max cur sched). unfold place.
  assert ((if cur <? sched then u32 (sched - cur) else 0) = s - cur) as ->.
  { destruct (Z.ltb_spec cur sched); [rewrite u32_id by (unfold in_u32; lia)|]; lia. }
  rewrite (u32_id (curPos w + (s - cur))) by (unfold in_u32; lia).
  assert (curPos w + (s - cur) = s - cur + curPos w) as -> by lia.
  destruct (tryFrom_spec touch rec portMask Hm (Z.to_nat (H - (s - cur + curPos w))) (s - cur + curPos w)
              (curWin w) (lastPort w)) as [(q & wc & p & Hq & E & Hp & Hbel & ->)|[Hall ->]];
    [apply Hw|done|lia|lia|..].
  - destruct (Z.ltb_spec q H); [|lia]. eexists _, _. split; [reflexivity|].
    rewrite u32_id, u64_id by (unfold in_u32, in_u64; lia). apply book_cur; try done; lia.
  - rewrite Hl1. destruct (Z.ltb_spec (Z.max (s - cur + curPos w) H) H); [lia|].
    rewrite (u32_id (Z.max _ _ - H)) by (unfold in_u32; lia). set (np := Z.max (s - cur + curPos w) H - H).
    destruct (tryFrom_spec touch rec portMask Hm (Z.to_nat (H - np)) np
              (nextWin w) (lastPort w)) as [(q & wc & p & Hq & E & Hp & Hbel & ->)|[Hall' ->]];
      [apply Hw|done|lia|lia|..].
    + destruct (Z.ltb_spec q H); [|lia]. eexists _, _. split; [reflexivity|].
      rewrite u32_id, u64_id by (unfold in_u32, in_u64; lia). apply book_next; try done; try lia.
      intros j wj Hj Hj0. apply Hbel. lia.
    + rewrite Hl2. destruct (Z.ltb_spec (Z.max np H) H); [lia|].
      rewrite (u32_id (Z.max np H + H - curPos w)), u64_id by (unfold in_u32, in_u64; lia).
      destruct (book_ub s (cur + (Z.max np H + H - curPos w)) (lastPort w)
                 (tryUb touch rec (ubWin w) (cur + (Z.max np H + H - curPos w)) portMask (lastPort w)))
        as (s' & ub' & lp' & -> & Hb); try done; try lia.
      { by exists T. }
      { intros j wj Hj Hj0. apply Hall'. lia. }
      { apply (tryUb_spec touch rec portMask Hm _ _ _ (2 ^ 63)); try apply Hw; lia || done. }
      by eexists _, _.
Qed.

End Place.
(** ** The reservation table

    The specification of the window: an entry for every cycle, the current
    cycle and the number of uops that have not started. *)
Record Table := mkTab { tb_entry : Z -> WinCycle; tb_cur : Z; tb_occ : Z }.

(** The current cycle ends. *)
Definition tick (a : Table) : Table :=
  mkTab (tb_entry a) (tb_cur a + 1) (tb_occ a - count (tb_entry a (tb_cur a))).

(** Cycles end while the table holds the most uops it may hold. *)
Inductive drained : Table -> Table -> Prop :=
| drained_room a : tb_occ a < WSZ -> drained a a
| drained_full a a' : tb_occ a = WSZ -> drained (tick a) a' -> drained a a'.

(** Port [p] of cycle [s'] is booked: [s'] is the first cycle, from the
    requested and the current one on, in which a port of the mask is free, and
    [p] is its lowest free port.  A shadow booking takes the whole mask and
    does not count as a uop. *)
Definition book (touch : bool) (portMask s : Z) (a a' : Table) (s' p : Z) : Prop :=
  first_free (tb_entry a) portMask (Z.max (tb_cur a) s) s' /\
  lowest_free (tb_entry a s') portMask p /\
  tb_cur a' = tb_cur a /\ tb_occ a' = tb_occ a + touched touch /\
  forall t, tb_entry a' t = if t =? s' then booked touch (tb_entry a s') portMask p else tb_entry a t.

(** The window implements the table. *)
Definition implements (w : Window) (cur : Z) (a : Table) : Prop :=
  WinOk H WSZ w cur /\ tb_cur a = cur /\ tb_occ a = occupancy w /\
  forall t, cur <= t -> slot H w cur t = tb_entry a t.

(** From cycle [T] on the table is empty. *)
Definition ends (a : Table) (T : Z) : Prop := forall t, tb_cur a <= t -> T <= t -> tb_entry a t = wc_empty.

Lemma implements_horizon w cur a T : implements w cur a -> ends a T -> horizon H w cur T.
Proof.
  intros (Hw & Hc & _ & Hsl) HT t Ht. destruct (Z.lt_ge_cases t cur).
  - unfold slot. by destruct (Z.ltb_spec t cur); [|lia].
  - rewrite Hsl by done. apply HT; lia.
Qed.

Lemma implements_tick w cur a : implements w cur a -> cur + 1 < 2 ^ 63 ->
  exists w', advancePos H (w, cur) = Ok (tt, (w', cur + 1)) /\ implements w' (cur + 1) (tick a) /\
    lastPort w' = lastPort w.
Proof.
  intros (Hw & Hc & Ho & Hsl) Hb.
  destruct (advancePos_ok _ _ HH HW w cur Hw Hb) as (w' & E & (_ & Hw' & Hlp & Hsl') & Ho').
  exists w'. split; [done|]. split; [|done]. split; [done|]. simpl. split; [lia|]. split.
  - rewrite Ho', Ho, Hc, Hsl by lia. done.
  - intros t Ht. rewrite Hsl' by done. apply Hsl. lia.
Qed.

Lemma ub_lookup_elem ub k wc : ub_sorted ub -> (k, wc) ∈ ub -> ub_lookup ub k = wc.
Proof using Type.
  induction ub as [|[k' wc'] ub IH]; intros Hs Hin; [by apply elem_of_nil in Hin|].
  apply ub_sorted_cons in Hs as [Hs Ha]. simpl. apply elem_of_cons in Hin as [?|Hin].
  - simplify_eq. by rewrite Z.eqb_refl.
  - unfold ub_above in Ha. rewrite Forall_forall in Ha. specialize (Ha _ Hin). simpl in Ha.
    destruct (Z.eqb_spec k' k); [lia|]. by apply IH.
Qed.

(** A window with uops has one in a cycle to come. *)
Lemma occupied_slot w cur : WinOk H WSZ w cur -> 0 < occupancy w ->
  exists t, cur <= t /\ 0 < count (slot H w cur t).
Proof.
  intros Hw Ho. rewrite (wo_occ _ _ _ _ Hw) in Ho. unfold total in Ho.
  pose proof (wo_pos _ _ _ _ Hw). pose proof (wo_len _ _ _ _ Hw). pose proof (wo_nlen _ _ _ _ Hw).
  destruct (Z.lt_ge_cases 0 (cnt (curWin w))) as [Hp|].
  { apply wcnt_pos in Hp as (i & wc & E & Hc). exists (cur - curPos w + Z.of_nat i).
    assert (Z.to_nat (curPos w) <= i)%nat.
    { apply Nat.nlt_ge. intros Hlt. apply (wo_past _ _ _ _ Hw) in Hlt. simplify_eq. simpl in Hc. lia. }
    apply lookup_lt_Some in E as Hi. split; [lia|].
    destruct (slot_cur _ _ HH HW w cur (cur - curPos w + Z.of_nat i) Hw) as (wc' & E' & ->); [lia|].
    replace (Z.to_nat _) with i in E' by lia. congruence. }
  destruct (Z.lt_ge_cases 0 (cnt (nextWin w))) as [Hp|].
  { apply wcnt_pos in Hp as (i & wc & E & Hc). exists (cur - curPos w + H + Z.of_nat i).
    apply lookup_lt_Some in E as Hi. split; [lia|].
    destruct (slot_next _ _ HH HW w cur (cur - curPos w + H + Z.of_nat i) Hw) as (wc' & E' & ->); [lia|].
    replace (Z.to_nat _) with i in E' by lia. congruence. }
  destruct (wcnt_pos (map snd (ubWin w))) as (i & wc & E & Hc); [unfold cnt_ub in Ho; lia|].
  apply list_elem_of_lookup_2, list_elem_of_fmap in E as ([k wc'] & -> & Hin). simpl in Hc.
  pose proof (wo_above _ _ _ _ Hw) as Ha. unfold ub_above in Ha. rewrite Forall_forall in Ha.
  specialize (Ha _ Hin). simpl in Ha. exists k. split; [lia|].
  rewrite (slot_ub _ _ HH HW) by done. rewrite (ub_lookup_elem _ _ wc'); [done|apply Hw|done].
Qed.

Lemma full_before w cur a T : implements w cur a -> ends a T -> 0 < tb_occ a -> cur < T.
Proof.
  intros Hi HT Ho. pose proof (implements_horizon _ _ _ _ Hi HT) as Hh.
  destruct Hi as (Hw & _ & Hoc & _). destruct (occupied_slot w cur Hw) as (t & Ht & Hc); [lia|].
  apply Z.nle_gt. intros Hle. rewrite Hh in Hc by lia. simpl in Hc. lia.
Qed.

(** The loop that makes room. *)
Lemma drain_ok fuel : forall w cur a T, implements w cur a -> ends a T -> T - cur <= Z.of_nat fuel -> T < 2 ^ 62 ->
  exists w' cur' a', while_ fuel (fun s => occupancy s.1 =? WSZ) (advancePos H) (w, cur) = Ok (tt, (w', cur')) /\
    implements w' cur' a' /\ drained a a' /\ lastPort w' = lastPort w /\ tb_entry a' = tb_entry a /\
    cur <= cur' <= Z.max cur T /\ tb_occ a' < WSZ.
Proof.
  induction fuel as [|n IH]; intros w cur a T Hi HT Hf Hb; simpl.
  all: pose proof Hi as (Hw & Hc & Ho & _); pose proof (wo_max _ _ _ _ Hw);
       destruct (Z.eqb_spec (occupancy w) WSZ) as [E|E].
  2,4: eexists _, _, _; split; [reflexivity|]; split; [done|]; split; [constructor; lia|];
       split; [done|]; split; [done|]; split; lia.
  all: assert (cur < T) by (apply (full_before w cur a); [done..|lia]).
  { lia. }
  destruct (implements_tick w cur a Hi) as (w1 & E1 & Hi1 & Hl1); [lia|].
  unfold bind at 1. rewrite E1.
  destruct (IH w1 (cur + 1) (tick a) T Hi1) as (w' & cur' & a' & -> & Hi' & Hd & Hl & He & Hr & Hlt); [..|done|].
  { intros t. simpl. intros Ht. apply HT. lia. }
  { lia. }
  exists w', cur', a'. split; [done|]. split; [done|]. split; [apply drained_full; [lia|done]|].
  split; [congruence|]. split; [done|]. split; lia.
Qed.

(** The fuel that [scheduleInternal] passes reaches the end of the table. *)
Lemma drain_fuel_ends w cur a : implements w cur a -> ends a (cur + Z.of_nat (drain_fuel H w cur)).
Proof.
  intros (Hw & Hc & _ & Hsl) t Ht HT. rewrite <- Hsl by lia. unfold drain_fuel in HT.
  pose proof (wo_pos _ _ _ _ Hw). destruct (last (ubWin w)) as [[k wc]|] eqn:E.
  - apply last_Some in E as [l E]. pose proof (wo_above _ _ _ _ Hw) as Ha.
    pose proof (wo_sorted _ _ _ _ Hw) as Hs. unfold ub_sorted in Hs. rewrite E in *.
    unfold ub_above in Ha. rewrite Forall_forall in Ha.
    assert (cur - curPos w + 2 * H <= k) by (apply (Ha (k, wc)); apply elem_of_app; right; left).
    rewrite (slot_ub _ _ HH HW) by (done || lia). apply (ub_lookup_below (k + 1)); [|lia].
    rewrite E. unfold ub_below. rewrite map_app in Hs. simpl in Hs.
    apply Forall_app. split; [|constructor; [simpl; lia|constructor]].
    rewrite Forall_forall. intros e He.
    assert (e.1 < k); [|lia]. eapply (StronglySorted_app_1_elem_of Z.lt (map fst l) [k]); [done| |left].
    by apply list_elem_of_fmap_2.
  - apply last_None in E. rewrite (slot_ub _ _ HH HW) by (done || lia). by rewrite E.
Qed.

(** ** The operations on the table *)

(** [scheduleInternal]: a uop first waits for room, a shadow slot does not. *)
Definition sched_step (touch : bool) (portMask s : Z) (a a' : Table) (s' p : Z) : Prop :=
  exists a1, (if touch then drained a a1 else a1 = a) /\ book touch portMask s a1 a' s' p.

(** The extra slots of a uop, on its port, from the cycle after it on. *)
Inductive shadow_steps (portMask : Z) : nat -> Z -> Table -> Table -> Prop :=
| shadow_done s a : shadow_steps portMask 0 s a a
| shadow_next n s a a1 a' s' p :
    sched_step false portMask s a a1 s' p -> shadow_steps portMask n (s' + 1) a1 a' ->
    shadow_steps portMask (S n) s a a'.

(** [schedule] *)
Definition schedule_spec (portMask s : Z) (extra : nat) (a a' : Table) (s' p : Z) : Prop :=
  exists a1, sched_step true portMask s a a1 s' p /\ shadow_steps (2 ^ p) extra (s' + 1) a1 a'.

Lemma book_implements touch rec portMask s w w' cur a s' :
  implements w cur a -> 0 <= occupancy w + touched touch ->
  booked_at touch rec portMask (Z.max cur s) w w' cur s' ->
  exists p, book touch portMask s a
    (mkTab (fun t => if t =? s' then booked touch (tb_entry a s') portMask p else tb_entry a t)
       (tb_cur a) (tb_occ a + touched touch)) s' p /\
    lastPort w' = (if touch && rec then p else lastPort w) /\
    implements (set_occ (occupancy w + touched touch) w') cur
      (mkTab (fun t => if t =? s' then booked touch (tb_entry a s') portMask p else tb_entry a t)
         (tb_cur a) (tb_occ a + touched touch)).
Proof.
  intros (Hw & Hc & Ho & Hsl) Hn (p & (Hle & Hnt & Hbel) & Hp & Hlp & Hoc & Hw' & Hupd). exists p.
  rewrite Hsl in Hnt, Hp by lia. split; [|split; [done|]].
  - split; [|split; [done|done]]. rewrite Hc. split; [done|]. split; [done|].
    intros j Hj. rewrite <- Hsl by lia. by apply Hbel.
  - split; [done|]. simpl. split; [done|]. split; [lia|]. intros t Ht.
    change (slot H (set_occ (occupancy w + touched touch) w') cur t) with (slot H w' cur t).
    rewrite Hupd. destruct (Z.eqb_spec t s') as [->|]; by rewrite Hsl by lia.
Qed.

Lemma book_ends touch portMask s a a' s' p T : mask_ok portMask ->
  book touch portMask s a a' s' p -> ends a T -> tb_cur a <= T -> s <= T -> s' <= T /\ ends a' (T + 1).
Proof using Type.
  intros Hm (Hff & Hp & Hc & Ho & Hupd) HT Hcur Hs.
  assert (s' <= T) as Hle.
  { destruct Hff as (Hle & _ & Hbel). apply Z.nlt_ge. intros Hlt.
    eapply (empty_not_taken portMask); [done|]. rewrite <- (HT T) by lia. apply Hbel. lia. }
  split; [done|]. intros t Ht HTt. rewrite Hupd. destruct (Z.eqb_spec t s'); [lia|]. apply HT; lia.
Qed.

Lemma scheduleInternal_ok touch rec portMask sched w cur a T :
  mask_ok portMask -> implements w cur a -> ends a T -> cur <= T -> sched <= T ->
  T - cur < 2 ^ 31 -> T < 2 ^ 62 ->
  exists s' w' cur' a' p, scheduleInternal H WSZ touch rec sched portMask (w, cur) = Ok (s', (w', cur')) /\
    sched_step touch portMask sched a a' s' p /\ implements w' cur' a' /\
    lastPort w' = (if touch && rec then p else lastPort w) /\
    cur <= cur' <= T /\ (touch = false -> cur' = cur) /\ cur' <= s' <= T /\ sched <= s' /\ ends a' (T + 1).
Proof.
  intros Hm Hi HT Hcur Hs Hd HTb. unfold scheduleInternal.
  assert (exists w1 cur1 a1,
    while_ (drain_fuel H w cur) (fun s => touch && (occupancy s.1 =? WSZ)) (advancePos H) (w, cur)
      = Ok (tt, (w1, cur1)) /\ implements w1 cur1 a1 /\ (if touch then drained a a1 else a1 = a) /\
    lastPort w1 = lastPort w /\ tb_entry a1 = tb_entry a /\ cur <= cur1 <= T /\ (touch = false -> cur1 = cur) /\
    tb_occ a1 + touched touch <= WSZ)
    as (w1 & cur1 & a1 & E1 & Hi1 & Hd1 & Hl1 & He1 & Hr1 & Ht1 & Hroom).
  { destruct touch; simpl.
    - pose proof (drain_fuel_ends _ _ _ Hi) as HF.
      destruct (drain_ok (drain_fuel H w cur) w cur a (Z.min T (cur + Z.of_nat (drain_fuel H w cur)))
                  Hi) as (w' & cur' & a' & ? & ? & ? & ? & ? & ? & ?); [|lia|lia|].
      { intros t Hct Ht. destruct (Z.lt_ge_cases t T); [apply HF|apply HT]; lia. }
      exists w', cur', a'. split_and!; try done; lia.
    - exists w, cur, a. assert (tb_occ a <= WSZ). { destruct Hi as (Hw & _ & -> & _). apply Hw. }
      split_and!; try done; try lia. by destruct (drain_fuel H w cur). }
  unfold bind at 1, get. simpl. unfold bind at 1. rewrite E1.
  pose proof Hi1 as (Hw1 & Hc1 & Ho1 & _).
  pose proof (total_nonneg _ _ Hw1) as Hnn. rewrite <- (wo_occ _ _ _ _ Hw1) in Hnn.
  assert (ends a1 T) as HT1 by (intros t Ht; rewrite He1; apply HT; destruct Hi as (_ & -> & _); lia).
  destruct (place_ok touch rec portMask Hm w1 cur1 Hw1 ltac:(lia) sched T) as (s' & w2 & E2 & Hb);
    [by eapply implements_horizon|lia..|].
  unfold bind at 1. rewrite E2.
  destruct (book_implements touch rec portMask sched w1 w2 cur1 a1 s' Hi1) as (p & Hbk & Hlp & Hi2);
    [destruct touch; simpl; lia|done|].
  destruct (book_ends _ _ _ _ _ _ _ T Hm Hbk HT1) as [Hs' HT2]; [lia..|].
  pose proof Hbk as ((Hle & _) & _). rewrite Hc1 in Hle.
  assert (occupancy w2 = occupancy w1) as Hoc by (destruct Hb as (? & _ & _ & _ & ? & _); done).
  eexists s', (set_occ (occupancy w1 + touched touch) w2), cur1, _, p. split.
  { destruct touch; simpl; unfold bind, when, ret, modify; simpl.
    - simpl in Hroom. rewrite Hoc, u32_id by (unfold in_u32; lia). done.
    - unfold set_occ. rewrite Z.add_0_r, <- Hoc. by destruct w2. }
  split; [by exists a1|]. split; [done|]. simpl. rewrite Hl1 in Hlp.
  split_and!; try done; lia.
Qed.

(** ** [schedule] *)

Lemma mask_ok_bit p : 0 <= p < 8 -> mask_ok (2 ^ p).
Proof using Type. intros Hp. split; [lia|]. apply Z.pow_lt_mono_r; lia. Qed.

Lemma extraLoop_ok p n : 0 <= p < 8 -> forall c w cur a T,
  implements w cur a -> ends a T -> cur <= T -> c <= T ->
  T + Z.of_nat n - cur < 2 ^ 31 -> T + Z.of_nat n < 2 ^ 62 ->
  exists w' a', extraLoop H WSZ n c (2 ^ p) (w, cur) = Ok (tt, (w', cur)) /\
    shadow_steps (2 ^ p) n c a a' /\ implements w' cur a' /\ ends a' (T + Z.of_nat n).
Proof.
  intros Hp. induction n as [|n IH]; intros c w cur a T Hi HT Hcur Hc Hd HTb.
  - exists w, a. rewrite Z.add_0_r. split_and!; try done. constructor.
  - destruct (scheduleInternal_ok false false (2 ^ p) c w cur a T) as
      (s' & w1 & cur1 & a1 & q & E & Hst & Hi1 & _ & _ & Hcc & Hs & Hcs & HT1);
      [by apply mask_ok_bit|done|done|lia..|].
    specialize (Hcc eq_refl). subst cur1. pose proof Hi as (Hw & _).
    pose proof (wo_cyc _ _ _ _ Hw).
    destruct (IH (s' + 1) w1 cur a1 (T + 1) Hi1 HT1) as (w' & a' & E' & Hsh & Hi' & HT'); [lia..|].
    exists w', a'. split.
    { simpl. unfold bind. rewrite E, u64_id by (unfold in_u64; lia). done. }
    split; [by eapply shadow_next|]. split; [done|].
    by replace (T + Z.of_nat (S n)) with (T + 1 + Z.of_nat n) by lia.
Qed.

(** A uop with its extra slots: [schedule] does on the window what
    [schedule_spec] does on the table. *)
Lemma schedule_ok portMask sched extraSlots w cur a T :
  mask_ok portMask -> 0 <= extraSlots < 2 ^ 8 ->
  implements w cur a -> ends a T -> cur <= T -> sched <= T -> T - cur < 2 ^ 30 -> T < 2 ^ 61 ->
  exists s' w' cur' a' p, schedule H WSZ sched portMask extraSlots (w, cur) = Ok (s', (w', cur')) /\
    schedule_spec portMask sched (Z.to_nat extraSlots) a a' s' p /\ implements w' cur' a' /\
    cur <= cur' <= s' /\ sched <= s' <= T /\ ends a' (T + 1 + extraSlots).
Proof.
  intros Hm Hx Hi HT Hcur Hs Hd HTb. unfold schedule.
  destruct (scheduleInternal_ok true (negb (extraSlots =? 0)) portMask sched w cur a T) as
    (s' & w1 & cur1 & a1 & p & E & Hst & Hi1 & Hlp & Hr & _ & Hs' & Hcs & HT1); [done..|lia|lia|].
  assert (0 <= p < 8) as Hp by (destruct Hst as (? & _ & _ & Hl & _); apply Hl).
  assert (0 <= cur) by (destruct Hi as (Hw & _); apply (wo_cyc _ _ _ _ Hw)).
  destruct (extraLoop_ok p (Z.to_nat extraSlots) Hp (s' + 1) w1 cur1 a1 (T + 1) Hi1 HT1) as
    (w' & a' & E' & Hsh & Hi' & HT'); [lia..|].
  assert (occupancy w' <= WSZ) as Hocc by (destruct Hi' as (Hw & _); apply Hw).
  exists s', w', cur1, a', p. split.
  - destruct (Z.eqb_spec extraSlots 0) as [->|Hn]; simpl in E.
    + simpl in E'. unfold ret in E'. simplify_eq. unfold bind at 1. rewrite E.
      unfold bind, get. simpl. destruct (Z.leb_spec (occupancy w') WSZ); [done|lia].
    + simpl in Hlp. unfold bind at 1 2. rewrite E. unfold bind, gets, get. cbn -[extraLoop].
      rewrite Hlp, Z.shiftl_1_l, (u8_id (2 ^ p)), u64_id, E'.
      * cbn. destruct (Z.leb_spec (occupancy w') WSZ); [done|lia].
      * unfold in_u64; lia.
      * split; [lia|]. apply Z.pow_lt_mono_r; lia.
  - split; [by exists a1|]. split; [done|]. split_and!; try lia.
    replace (T + 1 + extraSlots) with (T + 1 + Z.of_nat (Z.to_nat extraSlots)) by lia. done.
Qed.

(** ** [longAdvance] *)

(** Every booked entry is a uop: there are no extra slots. *)
Definition counted (a : Table) : Prop :=
  forall t, tb_cur a <= t -> tb_entry a t <> wc_empty -> 0 < count (tb_entry a t).

Lemma ub_lookup_cnt ub t : ub_ok ub -> count (ub_lookup ub t) <= cnt_ub ub.
Proof using Type.
  intros Hok. pose proof (cnt_nonneg _ (ub_ok_cnt _ Hok)) as Hn. unfold cnt_ub in *.
  induction Hok as [|[k wc] ub [[_ Hc] _] Hok IH]; simpl in *; [lia|].
  pose proof (cnt_nonneg _ (ub_ok_cnt _ Hok)). destruct (k =? t); [lia|].
  specialize (IH ltac:(lia)). lia.
Qed.

Lemma slot_count w cur t : WinOk H WSZ w cur -> cur <= t -> count (slot H w cur t) <= occupancy w.
Proof.
  intros Hw Ht. rewrite (wo_occ _ _ _ _ Hw). unfold total.
  pose proof (cnt_nonneg _ (wo_cok _ _ _ _ Hw)). pose proof (cnt_nonneg _ (wo_nok _ _ _ _ Hw)).
  pose proof (cnt_nonneg _ (ub_ok_cnt _ (wo_uok _ _ _ _ Hw))) as Hn. fold (cnt_ub (ubWin w)) in Hn.
  destruct (slot_cases _ _ HH HW w cur t Hw Ht) as [?|[?|?]].
  - destruct (slot_cur _ _ HH HW w cur t Hw) as (wc & E & ->); [lia|].
    pose proof (cnt_lookup _ _ _ (wo_cok _ _ _ _ Hw) E). lia.
  - destruct (slot_next _ _ HH HW w cur t Hw) as (wc & E & ->); [lia|].
    pose proof (cnt_lookup _ _ _ (wo_nok _ _ _ _ Hw) E). lia.
  - rewrite (slot_ub _ _ HH HW) by done. pose proof (ub_lookup_cnt (ubWin w) t (wo_uok _ _ _ _ Hw)). lia.
Qed.

(** A drained table without extra slots is empty. *)
Lemma drained_empty w cur a : implements w cur a -> counted a -> tb_occ a = 0 ->
  forall t, cur <= t -> tb_entry a t = wc_empty.
Proof.
  intros (Hw & Hc & Ho & Hsl) Hct H0 t Ht.
  destruct (decide (tb_entry a t = wc_empty)) as [|Hn]; [done|].
  apply Hct in Hn; [|lia]. rewrite <- Hsl in Hn by lia. pose proof (slot_count w cur t Hw Ht). lia.
Qed.

Definition ticks (n : nat) (a : Table) : Table := Nat.iter n tick a.
#[local] Arguments ticks : simpl never.

Lemma ticks_S n a : ticks (S n) a = ticks n (tick a).
Proof using Type. unfold ticks. by rewrite Nat.iter_succ_r. Qed.

Lemma ticks_idle n : forall a, (forall t, tb_cur a <= t -> tb_entry a t = wc_empty) ->
  ticks n a = mkTab (tb_entry a) (tb_cur a + Z.of_nat n) (tb_occ a).
Proof using Type.
  induction n as [|n IH]; intros a He.
  - unfold ticks. simpl. rewrite Z.add_0_r. by destruct a.
  - rewrite ticks_S, IH; simpl.
    + rewrite He by lia. simpl. f_equal; lia.
    + intros t Ht. apply He. lia.
Qed.

(** With nothing booked the current cycle can move to any later one. *)
Lemma jump_ok w cur a target : implements w cur a -> (forall t, cur <= t -> tb_entry a t = wc_empty) ->
  cur <= target < 2 ^ 63 -> implements w target (ticks (Z.to_nat (target - cur)) a).
Proof.
  intros (Hw & Hc & Ho & Hsl) He Ht.
  assert (ubWin w = []) as Hub.
  { destruct (ubWin w) as [|[k wc] ub] eqn:E; [done|]. exfalso.
    pose proof (wo_above _ _ _ _ Hw) as Ha. pose proof (wo_uok _ _ _ _ Hw) as Hok.
    rewrite E in Ha, Hok. apply Forall_cons in Ha as [Ha _]. apply Forall_cons in Hok as [[_ Hnz] _].
    simpl in Ha, Hnz. pose proof (wo_pos _ _ _ _ Hw).
    assert (slot H w cur k = wc) as Hs.
    { rewrite (slot_ub _ _ HH HW) by done. rewrite E. simpl. by rewrite Z.eqb_refl. }
    rewrite Hsl, He in Hs by lia. by subst wc. }
  rewrite ticks_idle by (by rewrite Hc). split; [|split; [simpl; lia|split; [done|]]].
  - destruct Hw. rewrite Hub in *. constructor; rewrite ?Hub; try done; try lia. constructor.
  - intros t Htt. simpl. rewrite He by lia. pose proof (wo_pos _ _ _ _ Hw).
    assert (forall d, curPos w <= d -> slot H w cur (cur + (d - curPos w)) = wc_empty) as Hall
      by (intros d Hd; rewrite Hsl, He by lia; done).
    specialize (Hall (t - target + curPos w) ltac:(lia)). unfold slot in *.
    destruct (Z.ltb_spec t target); [lia|].
    destruct (Z.ltb_spec (cur + (t - target + curPos w - curPos w)) cur); [lia|].
    replace (cur + (t - target + curPos w - curPos w) - cur + curPos w) with (t - target + curPos w) in Hall by lia.
    rewrite Hub in *. by repeat case_match.
Qed.

Lemma counted_tick a : counted a -> counted (tick a).
Proof using Type. intros Hc t Ht. simpl in *. apply Hc. lia. Qed.

Definition draining (target : Z) (s : WS) : bool := negb (occupancy s.1 =? 0) && (s.2 <? target).

Lemma advance_loop_ok target n : target < 2 ^ 62 -> forall w cur a,
  implements w cur a -> counted a -> cur <= target -> n = Z.to_nat (target - cur) ->
  exists w1 cur1 a1, while_ n (draining target) (advancePos H) (w, cur) = Ok (tt, (w1, cur1)) /\
    implements w1 cur1 a1 /\ counted a1 /\ draining target (w1, cur1) = false /\ cur1 <= target /\
    ticks (Z.to_nat (target - cur1)) a1 = ticks n a.
Proof.
  intros Ht. induction n as [|n IH]; intros w cur a Hi Hct Hle Hn; simpl.
  all: destruct (draining target (w, cur)) eqn:E; [|exists w, cur, a; split_and!; try done; by rewrite <- Hn].
  all: unfold draining in E; apply andb_true_iff in E as [_ E]; apply Z.ltb_lt in E; simpl in E.
  { lia. }
  destruct (implements_tick w cur a Hi) as (w1 & E1 & Hi1 & _); [lia|].
  unfold bind at 1. rewrite E1.
  destruct (IH w1 (cur + 1) (tick a) Hi1) as (w2 & cur2 & a2 & -> & ? & ? & ? & ? & ?);
    [by apply counted_tick|lia|lia|].
  exists w2, cur2, a2. rewrite ticks_S. by split_and!.
Qed.

(** [longAdvance] is a sequence of single cycles when there are no extra
    slots. *)
Lemma longAdvance_ok w cur a target :
  implements w cur a -> counted a -> cur <= target < 2 ^ 62 ->
  exists w', longAdvance H target (w, cur) = Ok (tt, (w', target)) /\
    implements w' target (ticks (Z.to_nat (target - cur)) a).
Proof.
  intros Hi Hct Ht.
  destruct (advance_loop_ok target _ (proj2 Ht) w cur a Hi Hct (proj1 Ht) eq_refl)
    as (w1 & cur1 & a1 & E1 & Hi1 & Hct1 & Hex & Hle & Htk).
  rewrite <- Htk. unfold longAdvance, bind at 1, get. simpl.
  destruct (Z.leb_spec cur target); [|lia]. unfold bind at 1, ret, assert_. simpl.
  unfold bind at 1. unfold draining, WS in *. rewrite E1. unfold bind, get, assert_, modify. simpl.
  simpl in Hex. destruct (Z.eqb_spec (occupancy w1) 0) as [Hz|Hz]; simpl in *.
  - destruct (Z.leb_spec cur1 target); [|lia]. simpl. exists w1. split; [done|]. apply jump_ok; [done| |lia].
    eapply drained_empty; [done..|]. destruct Hi1 as (_ & _ & -> & _). done.
  - apply Z.ltb_ge in Hex. destruct (Z.eqb_spec cur1 target) as [->|]; [|lia].
    exists w1. split; [done|]. by rewrite Z.sub_diag.
Qed.

(** ** [poisonRange] *)

(** Bookings never free a port. *)
Lemma booked_taken touch wc portMask m p : taken wc m -> taken (booked touch wc portMask p) m.
Proof using Type. intros Ht q Hq. apply Ht in Hq. unfold booked. destruct touch; simpl; by rewrite Z.lor_spec, Hq. Qed.

Lemma shadow_taken wc portMask p : taken (booked false wc portMask p) portMask.
Proof using Type. intros q Hq. simpl. rewrite Z.lor_spec, Hq. apply orb_true_r. Qed.

(** Each round takes the mask in one more cycle. *)
Definition poisoned (a : Table) (portMask upto : Z) : Prop :=
  forall t, tb_cur a <= t < upto -> taken (tb_entry a t) portMask.

Lemma poison_round portMask c w cur a T upto :
  mask_ok portMask -> implements w cur a -> ends a T -> cur <= c <= T -> c <= upto <= c + 1 ->
  poisoned a portMask upto -> T - cur < 2 ^ 31 -> T < 2 ^ 62 ->
  exists c' w' a', scheduleInternal H WSZ false false c portMask (w, cur) = Ok (c', (w', cur)) /\
    implements w' cur a' /\ ends a' (T + 1) /\ upto <= c' <= T /\ poisoned a' portMask (c' + 1).
Proof.
  intros Hm Hi HT Hc Hup Hp Hd HTb. pose proof Hi as (Hw & Hcur & _).
  destruct (scheduleInternal_ok false false portMask c w cur a T) as
    (c' & w1 & cur1 & a1 & q & E & (a0 & -> & Hff & _ & Hc1 & _ & Hupd) & Hi1 & _ & _ & Hcc & Hs & Hcs & HT1);
    [done..|lia|lia|lia|lia|].
  specialize (Hcc eq_refl). subst cur1. destruct Hff as (Hle & Hnt & Hbel).
  exists c', w1, a1. split; [done|]. split; [done|]. split; [done|]. split.
  - split; [|lia]. apply Z.nlt_ge. intros Hlt. apply Hnt, Hp. lia.
  - intros t Ht. rewrite Hupd. destruct (Z.eqb_spec t c') as [->|]; [apply shadow_taken|].
    destruct (Z.lt_ge_cases t c).
    + apply Hp. lia.
    + apply Hbel. lia.
Qed.

Lemma poisonLoop_ok portMask target fuel : mask_ok portMask -> forall c w cur a T upto,
  implements w cur a -> ends a T -> cur <= c <= T -> c <= upto <= c + 1 -> poisoned a portMask upto ->
  target <= T -> T + Z.of_nat fuel - cur < 2 ^ 31 -> T + Z.of_nat fuel < 2 ^ 62 ->
  target - upto + 1 <= Z.of_nat fuel ->
  exists w' a', poisonLoop H WSZ fuel c target portMask (w, cur) = Ok (tt, (w', cur)) /\
    implements w' cur a' /\ poisoned a' portMask target.
Proof.
  intros Hm. induction fuel as [|n IH]; intros c w cur a T upto Hi HT Hc Hup Hp HtT Hd HTb Hf; simpl.
  all: destruct (Z.ltb_spec c target).
  2,4: exists w, a; split_and!; try done; intros t Ht; apply Hp; lia.
  { lia. }
  destruct (poison_round portMask c w cur a T upto) as (c' & w1 & a1 & E & Hi1 & HT1 & Hc' & Hp1);
    [done..|lia|lia|].
  unfold bind. rewrite E. apply (IH c' w1 cur a1 (T + 1) (c' + 1)); try done; lia.
Qed.

(** [poisonRange] takes the mask in every cycle before the target, and keeps
    the current cycle. *)
Lemma poisonRange_ok portMask target w cur a T :
  mask_ok portMask -> implements w cur a -> ends a T -> cur <= T -> target <= T ->
  T - cur < 2 ^ 30 -> T < 2 ^ 60 ->
  exists w' a', poisonRange H WSZ target portMask (w, cur) = Ok (tt, (w', cur)) /\
    implements w' cur a' /\ poisoned a' portMask target.
Proof.
  intros Hm Hi HT Hc Ht Hd HTb. pose proof Hi as (Hw & Hcur & _). pose proof (wo_cyc _ _ _ _ Hw).
  destruct (poisonLoop_ok portMask target (S (Z.to_nat (target - cur))) Hm cur w cur a T cur) as
    (w' & a' & E & Hi' & Hp); try done; try lia.
  { intros t Htt. lia. }
  exists w', a'. split; [|done]. unfold poisonRange, bind at 1, get. cbn -[poisonLoop].
  unfold bind at 1. rewrite E. unfold bind, assert_. simpl. by rewrite Z.eqb_refl.
Qed.

End Ops.
