(* ===== verification/OooWindowSpec.v ===== *)
(** * The instruction window refines a reservation table

    Sequences of the operations the core performs on its window, from the
    constructor on: each returns what the reservation table of [OooWindowOps]
    allows, no execution port is given twice in a cycle, and what goes wrong
    when [longAdvance] jumps over extra slots. *)

From stdpp Require Import base list sorting strings.
From Stdlib Require Import ZArith Lia.
From S2P Require Import Prelude OooWindow OooWindowInv OooWindowOps.
Local Open Scope Z_scope.

(** The operations of the core on its window, relative to the current cycle. *)
Inductive WOp :=
| OpSchedule (delay portMask extraSlots : Z)
| OpTick
| OpAdvance (delta : Z).

Definition extra_of (o : WOp) : Z := match o with OpSchedule _ _ x => x | _ => 0 end.
Definition is_advance (o : WOp) : bool := match o with OpAdvance _ => true | _ => false end.

(** The arguments the decoder and the core pass. *)
Definition op_ok (o : WOp) : Prop :=
  match o with
  | OpSchedule d m x => 0 <= d /\ mask_ok m /\ 0 <= x < 2 ^ 8
  | OpTick => True
  | OpAdvance d => 0 <= d
  end.

(** Cycles an operation can add to the horizon of the table. *)
Definition op_cost (o : WOp) : Z :=
  match o with OpSchedule d _ x => d + 1 + x | OpTick => 1 | OpAdvance d => d end.
Definition cost (l : list WOp) : Z := foldr (fun o a => op_cost o + a) 0 l.

Lemma ticks_entry n a : tb_entry (ticks n a) = tb_entry a.
Proof. revert a. induction n as [|n IH]; intros a; [done|]. by rewrite ticks_S, IH. Qed.

Section Runs.
Context (H WSZ : Z) (HH : 0 < H < 2 ^ 28) (HW : 0 < WSZ < 255).
#[local] Set Default Proof Using "All".

(** An operation on the window: the cycle it returns (the dispatch cycle of a
    uop, or the new current cycle). *)
Definition do_op (o : WOp) : M WS Z :=
  match o with
  | OpSchedule d m x => s <- get ;; schedule H WSZ (s.2 + d) m x
  | OpTick => advancePos H ;; gets snd
  | OpAdvance d => s <- get ;; longAdvance H (s.2 + d) ;; gets snd
  end.

Fixpoint run_ops (l : list WOp) : M WS (list Z) :=
  match l with
  | [] => ret []
  | o :: l' => c <- do_op o ;; cs <- run_ops l' ;; ret (c :: cs)
  end.

(** The same operation on the table, with the booking (cycle and port) of a
    scheduled uop. *)
Inductive table_op : WOp -> Table -> Table -> Z -> option (Z * Z) -> Prop :=
| t_schedule d m x a a' s p :
    schedule_spec WSZ m (tb_cur a + d) (Z.to_nat x) a a' s p ->
    table_op (OpSchedule d m x) a a' s (Some (s, p))
| t_tick a : table_op OpTick a (tick a) (tb_cur a + 1) None
| t_advance d a : table_op (OpAdvance d) a (ticks (Z.to_nat d) a) (tb_cur a + d) None.

Inductive table_run : list WOp -> Table -> Table -> list Z -> list (Z * Z) -> Prop :=
| tr_nil a : table_run [] a a [] []
| tr_cons o l a a1 a' c cs b bs :
    table_op o a a1 c b -> table_run l a1 a' cs bs ->
    table_run (o :: l) a a' (c :: cs) (option_list b ++ bs).

Definition Table_init : Table := mkTab (fun _ => wc_empty) 0 0.

Lemma init_implements : implements H WSZ (Window_init H) 0 Table_init.
Proof.
  split; [by apply Window_init_ok|]. split; [done|]. split; [done|].
  intros t _. by apply (Window_init_slot H WSZ).
Qed.

(** Without extra slots every entry stays a uop. *)
Lemma drained_entry a a' : drained WSZ a a' -> tb_entry a' = tb_entry a /\ tb_cur a <= tb_cur a'.
Proof using Type. induction 1 as [a|a a' _ _ [IH1 IH2]]; simpl in *; [split; [done|lia]|]. split; [done|lia]. Qed.

Lemma schedule_spec_counted m s a a' s' p :
  schedule_spec WSZ m s 0 a a' s' p -> counted a -> counted a'.
Proof using Type.
  intros (a1 & (a0 & Hd & Hb) & Hsh) Hc. inversion Hsh; subst.
  apply drained_entry in Hd as [He Hcur]. destruct Hb as (_ & _ & Hc' & _ & Hupd).
  intros t Ht Hn. rewrite Hupd, He in *. destruct (Z.eqb_spec t s') as [->|]; [|apply Hc; lia || done].
  simpl. destruct (decide (tb_entry a s' = wc_empty)) as [->|Hne]; [simpl; lia|].
  apply Hc in Hne; lia.
Qed.

Lemma op_refines o w cur a T :
  implements H WSZ w cur a -> ends a T -> cur <= T -> op_ok o -> (is_advance o = true -> counted a) ->
  T + op_cost o - cur < 2 ^ 30 -> T + op_cost o < 2 ^ 60 ->
  exists c w' cur' a' b, do_op o (w, cur) = Ok (c, (w', cur')) /\ table_op o a a' c b /\
    implements H WSZ w' cur' a' /\ cur <= cur' <= T + op_cost o /\ ends a' (T + op_cost o) /\
    (counted a -> extra_of o = 0 -> counted a').
Proof.
  intros Hi HT Hcur Hok Hadv Hd HTb. pose proof Hi as (Hw & Hc & _).
  destruct o as [d m x| |d]; simpl in Hok, Hd, HTb |- *.
  - destruct Hok as (Hd0 & Hm & Hx).
    destruct (schedule_ok _ _ HH HW m (cur + d) x w cur a (T + d)) as
      (s' & w' & cur' & a' & p & E & Hs & Hi' & Hr & Hsr & HT'); try done; try lia.
    { intros t Ht HTt. apply HT; lia. }
    exists s', w', cur', a', (Some (s', p)). split; [exact E|]. split.
    { constructor. by rewrite Hc. }
    split; [done|]. split; [lia|]. split; [by replace (T + (d + 1 + x)) with (T + d + 1 + x) by lia|].
    intros Hct ->. by eapply schedule_spec_counted.
  - destruct (implements_tick _ _ HH HW w cur a Hi) as (w' & E & Hi' & _); [lia|].
    exists (cur + 1), w', (cur + 1), (tick a), None. unfold bind. rewrite E. split; [done|].
    split; [rewrite <- Hc; constructor|]. split; [done|]. split; [lia|]. split.
    + intros t Ht HTt. simpl in *. apply HT; lia.
    + intros Hct _. by apply counted_tick.
  - specialize (Hadv eq_refl). pose proof (wo_cyc _ _ _ _ Hw).
    destruct (longAdvance_ok _ _ HH HW w cur a (cur + d) Hi Hadv) as (w' & E & Hi'); [lia|].
    replace (Z.to_nat (cur + d - cur)) with (Z.to_nat d) in Hi' by lia.
    exists (cur + d), w', (cur + d), (ticks (Z.to_nat d) a), None. unfold bind at 1, get. simpl.
    unfold bind. rewrite E. split; [done|]. split; [rewrite <- Hc; constructor|]. split; [done|].
    pose proof (ticks_entry (Z.to_nat d) a) as He.
    destruct Hi' as (_ & Hc' & _). split; [lia|]. split.
    + intros t Ht HTt. rewrite He. apply HT; lia.
    + intros _ _ t Ht. rewrite He. apply Hadv. lia.
Qed.

Lemma run_refines l : forall w cur a T,
  implements H WSZ w cur a -> ends a T -> cur <= T -> Forall op_ok l ->
  counted a /\ Forall (fun o => extra_of o = 0) l \/ Forall (fun o => is_advance o = false) l ->
  T + cost l - cur < 2 ^ 30 -> T + cost l < 2 ^ 60 ->
  exists cs w' cur' a' bs, run_ops l (w, cur) = Ok (cs, (w', cur')) /\ table_run l a a' cs bs /\
    implements H WSZ w' cur' a'.
Proof.
  induction l as [|o l IH]; intros w cur a T Hi HT Hcur Hok Hmode Hd HTb.
  { exists [], w, cur, a, []. split; [done|]. split; [constructor|done]. }
  apply Forall_cons in Hok as [Ho Hok]. simpl in Hd, HTb.
  assert (0 <= cost l) as Hcl.
  { clear -Hok. induction Hok as [|o l Ho _ IH]; simpl; [lia|]. destruct o; simpl in *; lia. }
  destruct (op_refines o w cur a T) as (c & w1 & cur1 & a1 & b & E & Ht & Hi1 & Hr & HT1 & Hct); try done; try lia.
  { intros Ha. destruct Hmode as [[? _]|Hm]; [done|]. apply Forall_cons in Hm as [Hm _]. congruence. }
  destruct (IH w1 cur1 a1 (T + op_cost o) Hi1 HT1) as (cs & w' & cur' & a' & bs & E' & Hr' & Hi'); try done; try lia.
  { destruct Hmode as [[Hc0 Hm]|Hm]; apply Forall_cons in Hm as [Hm1 Hm]; [left|by right]. split; [|done]. by apply Hct. }
  exists (c :: cs), w', cur', a', (option_list b ++ bs). split; [|split; [by econstructor|done]].
  simpl. unfold bind. rewrite E, E'. done.
Qed.

(** ** A port is given once *)

Definition port_taken (a : Table) (b : Z * Z) : Prop := Z.testbit (occUnits (tb_entry a b.1)) b.2 = true.

Lemma booked_keeps touch wc m p q :
  Z.testbit (occUnits wc) q = true -> Z.testbit (occUnits (booked touch wc m p)) q = true.
Proof using Type. intros Hq. unfold booked. destruct touch; simpl; by rewrite Z.lor_spec, Hq. Qed.

Lemma book_keeps touch m s a a' s' p b : book touch m s a a' s' p -> port_taken a b -> port_taken a' b.
Proof using Type.
  intros (_ & _ & _ & _ & Hupd) Hb. unfold port_taken in *. rewrite Hupd.
  destruct (Z.eqb_spec b.1 s') as [E|]; [|done]. apply booked_keeps. by rewrite <- E.
Qed.

Lemma shadow_keeps m n s a a' b : shadow_steps WSZ m n s a a' -> port_taken a b -> port_taken a' b.
Proof using Type. induction 1 as [|? ? ? ? ? ? ? (? & -> & Hb)]; [done|]. intros ?. eauto using book_keeps. Qed.

(** A uop gets a port that nothing has, and keeps it. *)
Lemma schedule_takes m s n a a' s' p : schedule_spec WSZ m s n a a' s' p ->
  ~ port_taken a (s', p) /\ port_taken a' (s', p) /\ (forall b, port_taken a b -> port_taken a' b) /\
  s <= s' /\ tb_cur a <= s' /\ Z.testbit m p = true.
Proof using Type.
  intros (a1 & (a0 & Hd & Hb) & Hsh). apply drained_entry in Hd as [He Hc].
  assert (forall b, port_taken a b -> port_taken a0 b) as Hk by (unfold port_taken; by rewrite He).
  pose proof Hb as ((Hle & _) & (Hp & Hpm & Hfree & _) & _ & _ & Hupd). split_and!.
  - unfold port_taken. simpl. rewrite <- He, Hfree. done.
  - eapply shadow_keeps; [done|]. unfold port_taken. simpl. rewrite Hupd, Z.eqb_refl. simpl.
    rewrite Z.lor_spec, Z.pow2_bits_true by lia. apply orb_true_r.
  - intros b Hb'. eapply shadow_keeps; [done|]. eapply book_keeps; [done|]. by apply Hk.
  - lia.
  - lia.
  - done.
Qed.

Lemma table_op_keeps o a a' c b : table_op o a a' c b -> forall x, port_taken a x -> port_taken a' x.
Proof using Type.
  intros [d m x a0 a1 s p Hs|a0|d a0] y Hy; [|done|].
  { apply schedule_takes in Hs as (_ & _ & Hk & _). by apply Hk. }
  unfold port_taken in *. by rewrite ticks_entry.
Qed.

Lemma table_run_keeps l a a' cs bs : table_run l a a' cs bs -> forall x, port_taken a x -> port_taken a' x.
Proof using Type. induction 1; eauto using table_op_keeps. Qed.

Lemma table_run_fresh l a a' cs bs : table_run l a a' cs bs ->
  NoDup bs /\ (forall b, b ∈ bs -> ~ port_taken a b).
Proof using Type.
  induction 1 as [a|o l a a1 a' c cs b bs Ho Hr [IHn IHf]].
  { split; [constructor|]. intros b Hb. by apply elem_of_nil in Hb. }
  assert (forall x, x ∈ bs -> ~ port_taken a x) as Hbs.
  { intros x Hx Ht. eapply IHf; [done|]. by eapply table_op_keeps. }
  destruct Ho as [d m x ? ? s p Hs|?|d ?]; simpl; try by split.
  apply schedule_takes in Hs as (Hn & Ht & _). split.
  - constructor; [|done]. intros Hin. by eapply IHf.
  - intros y [->|Hy]%elem_of_cons; [done|by apply Hbs].
Qed.

End Runs.

(** ** Claims *)

(** C8 (refinement): from the constructor on, every sequence of scheduled uops and
    single cycles, and every sequence of scheduled uops without extra slots, single
    cycles and long advances, if it adds less than 2^30 cycles, runs on the two
    arrays and the map of the window without a failed assertion or an exhausted loop, and returns exactly
    the cycles that the reservation table prescribes: the first cycle from the
    request on in which a port of the mask is free, its lowest free port, after
    waiting until the window holds fewer than [WSZ] uops.  Long advances and
    extra slots are not mixed: a long advance does not skip extra slots
    ([long_advance_keeps_extra_slots]), and the claim does not hold there. *)
Theorem window_refines H WSZ ops :
  0 < H < 2 ^ 28 -> 0 < WSZ < 255 -> Forall op_ok ops ->
  Forall (fun o => extra_of o = 0) ops \/ Forall (fun o => is_advance o = false) ops ->
  cost ops < 2 ^ 30 ->
  exists cs w cur a bs, run_ops H WSZ ops (Window_init H, 0) = Ok (cs, (w, cur)) /\
    table_run WSZ ops Table_init a cs bs /\ implements H WSZ w cur a.
Proof.
  intros HH HW Hok Hmode Hc. apply (run_refines H WSZ HH HW ops _ _ _ 0); try done; try lia.
  - by apply init_implements.
  - destruct Hmode as [?|?]; [left|by right]. split; [|done]. by intros t Ht Hn.
Qed.

(** A uop on ports 0 and 1, one with two extra slots, a cycle, a third uop. *)
Definition window_ops : list WOp :=
  [OpSchedule 3 3 0; OpSchedule 3 1 2; OpTick; OpSchedule 0 2 0].

Lemma window_ops_ok : Forall op_ok window_ops.
Proof. repeat constructor; simpl; unfold mask_ok; lia. Qed.

Lemma window_refines_witness :
  exists cs w cur a bs, run_ops 1024 36 window_ops (Window_init 1024, 0) = Ok (cs, (w, cur)) /\
    table_run 36 window_ops Table_init a cs bs /\ implements 1024 36 w cur a.
Proof.
  apply (window_refines 1024 36 window_ops); [lia|lia|apply window_ops_ok| |vm_compute; reflexivity].
  right. repeat constructor.
Defined.

(** The requests of a sequence: their earliest cycle relative to the current
    one, and their ports; the cycles returned for them. *)
Fixpoint dispatches (l : list WOp) (cs : list Z) : list (Z * Z) :=
  match l, cs with
  | OpSchedule _ m _ :: l', c :: cs' => (m, c) :: dispatches l' cs'
  | _ :: l', _ :: cs' => dispatches l' cs'
  | _, _ => []
  end.

Lemma table_run_dispatches WSZ l a a' cs bs : table_run WSZ l a a' cs bs ->
  Forall2 (fun '(m, c) '(s, p) => c = s /\ Z.testbit m p = true) (dispatches l cs) bs.
Proof.
  induction 1 as [a|o l a a1 a' c cs b bs Ho Hr IH]; [constructor|].
  destruct Ho as [d m x ? ? s p Hs|?|d ?]; simpl; [|done|done].
  constructor; [|done]. split; [done|]. by eapply schedule_takes.
Qed.

(** No execution port is given to two uops in one cycle, whatever
    the sequence of operations: the cycles that [schedule] returns come with
    ports of the requested masks such that all pairs of cycle and port are
    distinct. *)
Theorem window_ports_exclusive H WSZ ops :
  0 < H < 2 ^ 28 -> 0 < WSZ < 255 -> Forall op_ok ops ->
  Forall (fun o => extra_of o = 0) ops \/ Forall (fun o => is_advance o = false) ops ->
  cost ops < 2 ^ 30 ->
  exists cs s' bs, run_ops H WSZ ops (Window_init H, 0) = Ok (cs, s') /\
    Forall2 (fun '(m, c) '(s, p) => c = s /\ Z.testbit m p = true) (dispatches ops cs) bs /\ NoDup bs.
Proof.
  intros HH HW Hok Hmode Hc.
  destruct (run_refines H WSZ HH HW ops (Window_init H) 0 Table_init 0)
    as (cs & w & cur & a & bs & E & Hr & _); try done; try lia.
  - by apply init_implements.
  - destruct Hmode as [?|?]; [left|by right]. split; [|done]. by intros t Ht Hn.
  - exists cs, (w, cur), bs. split; [done|]. split; [by eapply table_run_dispatches|].
    by eapply table_run_fresh.
Qed.

Lemma window_ports_exclusive_witness :
  exists cs s' bs, run_ops 1024 36 window_ops (Window_init 1024, 0) = Ok (cs, s') /\
    Forall2 (fun '(m, c) '(s, p) => c = s /\ Z.testbit m p = true) (dispatches window_ops cs) bs /\ NoDup bs.
Proof.
  apply (window_ports_exclusive 1024 36 window_ops); [lia|lia|apply window_ops_ok| |vm_compute; reflexivity].
  right. repeat constructor.
Defined.

(** Divisions of 64 bits that become ready in reverse order on one port: each
    takes 62 extra slots. *)
Definition division_ops : list WOp := map (fun i => OpSchedule (Z.of_nat (35 - i)) 1 62) (seq 0 36).

Definition dispatched (l : list WOp) : res (list Z) :=
  match run_ops 1024 36 l (Window_init 1024, 0) with Ok (cs, _) => Ok cs | Err e => Err e end.

(** [longAdvance] jumps when the window holds no uops, but extra
    slots may remain.  They are then taken to lie after the target cycle: a uop
    that is ready at cycle 100 gets cycle 102, although the port is idle (cycle
    by cycle it gets 100).  Extra slots in the unbounded map fall behind the
    current cycle, and the assertion of the next rebase stops the simulator. *)
Theorem long_advance_keeps_extra_slots :
  dispatched [OpSchedule 0 1 2; OpAdvance 100; OpSchedule 0 1 0] = Ok [0; 100; 102] /\
  dispatched (OpSchedule 0 1 2 :: replicate 100 OpTick ++ [OpSchedule 0 1 0]) =
    Ok (0 :: map Z.of_nat (seq 1 100) ++ [100]) /\
  dispatched (division_ops ++ OpAdvance 100000 :: replicate 1000 OpTick) = Err (AssertFail "ooo_core.h:167").
Proof. split; [by vm_compute|]. split; by vm_compute. Qed.
