(* ===== verification/OooQueues.v ===== *)
(** * Reorder buffer, cycle queue and branch predictor
    ([ReorderBuffer], [CycleQueue], [BranchPredictorPAg] of
    [src/src/ooo_core.h])

    The structures of fixed size that the out-of-order core uses beside the
    instruction window.  A reorder buffer and a cycle queue are rings that hold
    the cycles in which the last [SZ] uops left; the predictor is a table of
    branch histories that index a table of two-bit counters. *)

From stdpp Require Import base list sorting strings.
From Stdlib Require Import ZArith Lia.
From S2P Require Import Prelude OooWindow OooWindowInv.
Local Open Scope Z_scope.

(** ** Data and operations *)

Record ReorderBuffer := mkROB {
  rb_buf : list Z;
  rb_curRetireCycle : Z;
  rb_curCycleRetires : Z;
  rb_idx : Z
}.

Definition ReorderBuffer_init (SZ : Z) : ReorderBuffer := mkROB (replicate (Z.to_nat SZ) 0) 0 1 0.

Definition rob_minAllocCycle (rb : ReorderBuffer) : res Z := at_ (rb_buf rb) (Z.to_nat (rb_idx rb)).

(** [buf\[idx++\] = c; if (idx == SZ) idx = 0;] *)
Definition ring_push (SZ c : Z) (buf : list Z) (idx : Z) : res (list Z * Z) :=
  match set_at buf (Z.to_nat idx) c with
  | Ok buf' => Ok (buf', if u32 (idx + 1) =? SZ then 0 else u32 (idx + 1))
  | Err e => Err e
  end.

Definition markRetire (SZ W minRetireCycle : Z) (rb : ReorderBuffer) : res ReorderBuffer :=
  let '(cyc, n) :=
    if minRetireCycle <=? rb_curRetireCycle rb then
      if rb_curCycleRetires rb =? W then (u64 (rb_curRetireCycle rb + 1), 0)
      else (rb_curRetireCycle rb, u32 (rb_curCycleRetires rb + 1))
    else (minRetireCycle, 1) in
  match ring_push SZ cyc (rb_buf rb) (rb_idx rb) with
  | Ok (buf, idx) => Ok (mkROB buf cyc n idx)
  | Err e => Err e
  end.

Record CycleQueue := mkCQ { cq_buf : list Z; cq_idx : Z }.

Definition CycleQueue_init (SZ : Z) : CycleQueue := mkCQ (replicate (Z.to_nat SZ) 0) 0.
Definition cq_minAllocCycle (q : CycleQueue) : res Z := at_ (cq_buf q) (Z.to_nat (cq_idx q)).
Definition markLeave (SZ leaveCycle : Z) (q : CycleQueue) : res CycleQueue :=
  match ring_push SZ leaveCycle (cq_buf q) (cq_idx q) with
  | Ok (buf, idx) => Ok (mkCQ buf idx)
  | Err e => Err e
  end.

Record BranchPredictor := mkBP { bhsr : list Z; pht : list Z }.

Definition BranchPredictorPAg (NB LB : Z) : BranchPredictor :=
  mkBP (replicate (Z.to_nat (2 ^ NB)) 0) (replicate (Z.to_nat (2 ^ LB)) 1).

(** [predict]: predicts and updates; false if mispredicted. *)
Definition predict (NB HB LB branchPc : Z) (taken : bool) : M BranchPredictor bool := fun bp =>
  let bhsrMask := Z.shiftl 1 NB - 1 in
  let histMask := Z.shiftl 1 HB - 1 in
  let phtMask := Z.shiftl 1 LB - 1 in
  let bhsrIdx := Z.land (u32 (Z.shiftr branchPc 1)) bhsrMask in
  match bhsr bp !! Z.to_nat bhsrIdx with
  | None => Err OutOfRange
  | Some h =>
      let phtIdx := Z.lxor h (Z.shiftr (Z.land h (u32 (Z.lnot phtMask))) (HB - LB)) in
      let phtIdx := Z.land phtIdx phtMask in
      match pht bp !! Z.to_nat phtIdx with
      | None => Err OutOfRange
      | Some c =>
          let pred := 1 <? c in
          let c' := if taken then (if pred then 3 else u8 (c + 1)) else (if pred then u8 (c - 1) else 0) in
          let h' := Z.lor (Z.land (u32 (Z.shiftl h 1)) histMask) (if taken then 1 else 0) in
          Ok (Bool.eqb taken pred,
              mkBP (<[Z.to_nat bhsrIdx := h']> (bhsr bp)) (<[Z.to_nat phtIdx := c']> (pht bp)))
      end
  end.

(** ** Rings *)

(** [buf] holds the last [SZ] elements of [hist], oldest first from [idx] on;
    before that it holds zeros. *)
Record ring_ok (SZ : Z) (buf : list Z) (idx : Z) (hist : list Z) : Prop := {
  ring_len : Z.of_nat (length buf) = SZ;
  ring_idx : idx = Z.of_nat (length hist) mod SZ;
  ring_val : forall k, Z.of_nat (length hist) <= k < Z.of_nat (length hist) + SZ ->
    buf !! Z.to_nat (k mod SZ) = (replicate (Z.to_nat SZ) 0 ++ hist) !! Z.to_nat k
}.

Lemma ring_init SZ : 0 < SZ -> ring_ok SZ (replicate (Z.to_nat SZ) 0) 0 [].
Proof.
  intros HS. constructor; simpl.
  - rewrite length_replicate. lia.
  - by rewrite Z.mod_0_l by lia.
  - intros k Hk. rewrite app_nil_r, Z.mod_small by lia. done.
Qed.

(** The element about to be overwritten left [SZ] pushes ago. *)
Lemma ring_oldest SZ buf idx hist : 0 < SZ -> ring_ok SZ buf idx hist ->
  exists c, at_ buf (Z.to_nat idx) = Ok c /\ (replicate (Z.to_nat SZ) 0 ++ hist) !! length hist = Some c.
Proof.
  intros HS []. specialize (ring_val0 (Z.of_nat (length hist)) ltac:(lia)).
  rewrite <- ring_idx0, Nat2Z.id in ring_val0.
  destruct (lookup_lt_is_Some_2 (replicate (Z.to_nat SZ) 0 ++ hist) (length hist)) as [c E].
  { rewrite length_app, length_replicate. lia. }
  exists c. split; [|done]. unfold at_. by rewrite ring_val0, E.
Qed.

Lemma mod_next n SZ : 0 < SZ -> 0 <= n ->
  (if n mod SZ + 1 =? SZ then 0 else n mod SZ + 1) = (n + 1) mod SZ.
Proof.
  intros HS Hn. pose proof (Z.mod_pos_bound n SZ HS). destruct (Z.eqb_spec (n mod SZ + 1) SZ) as [E|E].
  - apply (Z.mod_unique _ _ (n / SZ + 1)); [lia|]. pose proof (Z.div_mod n SZ). lia.
  - apply (Z.mod_unique _ _ (n / SZ)); [lia|]. pose proof (Z.div_mod n SZ). lia.
Qed.

Lemma mod_between n k SZ : 0 < SZ -> n < k < n + SZ -> k mod SZ <> n mod SZ.
Proof.
  intros HS Hk E. pose proof (Z.div_mod n SZ ltac:(lia)). pose proof (Z.div_mod k SZ ltac:(lia)).
  assert (k - n = SZ * (k / SZ - n / SZ)) by lia. destruct (Z.lt_ge_cases (k / SZ - n / SZ) 1); nia.
Qed.

Lemma ring_push_ok SZ c buf idx hist : 0 < SZ < 2 ^ 31 -> ring_ok SZ buf idx hist ->
  exists buf' idx', ring_push SZ c buf idx = Ok (buf', idx') /\ ring_ok SZ buf' idx' (hist ++ [c]).
Proof.
  intros HS [Hl -> Hv]. set (n := Z.of_nat (length hist)) in *.
  pose proof (Z.mod_pos_bound n SZ ltac:(lia)) as Hb. unfold ring_push.
  rewrite set_at_ok by lia. rewrite u32_id by (unfold in_u32; lia). rewrite mod_next by lia.
  eexists _, _. split; [done|]. constructor.
  - by rewrite length_insert.
  - rewrite length_app. simpl. f_equal. lia.
  - rewrite length_app. simpl. intros k Hk. destruct (Z.eq_dec k (n + SZ)) as [->|Hne].
    + replace ((n + SZ) mod SZ) with (n mod SZ) by (rewrite <- (Z.mod_add n 1 SZ) by lia; f_equal; lia).
      rewrite list_lookup_insert_eq by lia.
      rewrite app_assoc, lookup_app_r; rewrite length_app, length_replicate; [|lia].
      by replace (Z.to_nat (n + SZ) - _)%nat with 0%nat by lia.
    + pose proof (mod_between n k SZ ltac:(lia) ltac:(lia)) as Hmod.
      pose proof (Z.mod_pos_bound k SZ ltac:(lia)).
      rewrite list_lookup_insert_ne by lia. rewrite Hv by lia.
      rewrite app_assoc, (lookup_app_l (_ ++ hist)); [done|]. rewrite length_app, length_replicate. lia.
Qed.

(** ** The reorder buffer *)

(** The cycles in which uops retire: in order, not before [ms], and the ring
    holds the last of them. *)
Record rob_ok (SZ W : Z) (ms rs : list Z) (rb : ReorderBuffer) : Prop := {
  ro_ring : ring_ok SZ (rb_buf rb) (rb_idx rb) rs;
  ro_after : Forall2 Z.le ms rs;
  ro_sorted : StronglySorted Z.le rs;
  ro_last : Forall (fun r => r <= rb_curRetireCycle rb) rs;
  ro_cyc : 0 <= rb_curRetireCycle rb;
  ro_n : 0 <= rb_curCycleRetires rb <= W;
  ro_cur : Z.of_nat (count_if (Z.eqb (rb_curRetireCycle rb)) rs) <= rb_curCycleRetires rb + 1;
  ro_all : forall c, Z.of_nat (count_if (Z.eqb c) rs) <= W + 1
}.

Lemma ReorderBuffer_init_ok SZ W : 0 < SZ -> 0 < W -> rob_ok SZ W [] [] (ReorderBuffer_init SZ).
Proof.
  intros HS HW. constructor; simpl; try lia; try constructor; try lia.
  - apply (ring_init SZ HS).
  - apply (ring_init SZ HS).
  - apply (ring_init SZ HS).
Qed.

Lemma count_if_app {A} (p : A -> bool) l k : count_if p (l ++ k) = (count_if p l + count_if p k)%nat.
Proof. induction l as [|x l IH]; simpl; [done|]. rewrite IH. lia. Qed.

Lemma count_if_above rs c b : Forall (fun r => r <= b) rs -> b < c -> count_if (Z.eqb c) rs = 0%nat.
Proof.
  induction 1 as [|r rs Hr _ IH]; intros Hc; simpl; [done|].
  destruct (Z.eqb_spec c r); [lia|]. by apply IH.
Qed.

Lemma retires_sorted_snoc rs c : StronglySorted Z.le rs -> Forall (fun r => r <= c) rs -> StronglySorted Z.le (rs ++ [c]).
Proof.
  intros Hs Hf. apply StronglySorted_app_2; [|done|repeat constructor].
  intros x y Hx Hy. apply list_elem_of_singleton in Hy as ->. rewrite Forall_forall in Hf. by apply Hf.
Qed.

(** One more uop: it retires in the current cycle while there is room, in the
    next one when there is none, and otherwise when it is done. *)
Lemma markRetire_ok SZ W m ms rs rb : 0 < SZ < 2 ^ 31 -> 0 < W < 2 ^ 31 ->
  rob_ok SZ W ms rs rb -> 0 <= m < 2 ^ 63 -> rb_curRetireCycle rb < 2 ^ 63 ->
  exists r rb', markRetire SZ W m rb = Ok rb' /\ rob_ok SZ W (ms ++ [m]) (rs ++ [r]) rb' /\
    rb_curRetireCycle rb' = r /\ m <= r /\ rb_curRetireCycle rb <= r <= Z.max m (rb_curRetireCycle rb + 1).
Proof.
  intros HS HW [Hring Haft Hsort Hlast Hcyc Hn Hcur Hall] Hm Hb. unfold markRetire.
  set (cn := if m <=? rb_curRetireCycle rb then _ else _).
  assert (exists r n, cn = (r, n) /\ m <= r /\ rb_curRetireCycle rb <= r <= Z.max m (rb_curRetireCycle rb + 1) /\
    0 <= n <= W /\ Z.of_nat (count_if (Z.eqb r) (rs ++ [r])) <= n + 1) as (r & n & -> & Hmr & Hr & Hn' & Hc').
  { unfold cn. destruct (Z.leb_spec m (rb_curRetireCycle rb)).
    - destruct (Z.eqb_spec (rb_curCycleRetires rb) W).
      + rewrite u64_id by (unfold in_u64; lia). eexists _, _. split; [done|]. do 3 (split; [lia|]).
        rewrite count_if_app, (count_if_above rs _ (rb_curRetireCycle rb)) by (done || lia).
        simpl. rewrite Z.eqb_refl. lia.
      + rewrite u32_id by (unfold in_u32; lia). eexists _, _. split; [done|]. do 3 (split; [lia|]).
        rewrite count_if_app. simpl. rewrite Z.eqb_refl. lia.
    - eexists _, _. split; [done|]. do 3 (split; [lia|]).
      rewrite count_if_app, (count_if_above rs _ (rb_curRetireCycle rb)) by (done || lia).
      simpl. rewrite Z.eqb_refl. lia. }
  destruct (ring_push_ok SZ r (rb_buf rb) (rb_idx rb) rs HS Hring) as (buf' & idx' & -> & Hring').
  assert (Forall (fun x => x <= r) rs) as Hlast' by (eapply Forall_impl; [exact Hlast|]; simpl; lia).
  exists r. eexists. split; [done|]. split; [|done]. constructor; simpl; try done.
  - apply Forall2_app; [done|]. by repeat constructor.
  - by apply retires_sorted_snoc.
  - apply Forall_app. split; [done|]. repeat constructor. lia.
  - lia.
  - intros c. destruct (Z.eqb_spec c r) as [->|Hne]; [lia|].
    rewrite count_if_app. simpl. destruct (Z.eqb_spec c r); [done|]. specialize (Hall c). lia.
Qed.

Fixpoint markRetires (SZ W : Z) (ms : list Z) (rb : ReorderBuffer) : res (list Z * ReorderBuffer) :=
  match ms with
  | [] => Ok ([], rb)
  | m :: ms' =>
      match markRetire SZ W m rb with
      | Err e => Err e
      | Ok rb' =>
          match markRetires SZ W ms' rb' with
          | Ok (rs, rb'') => Ok (rb_curRetireCycle rb' :: rs, rb'')
          | Err e => Err e
          end
      end
  end.

Lemma markRetires_ok SZ W ms2 : 0 < SZ < 2 ^ 31 -> 0 < W < 2 ^ 31 -> forall ms rs rb,
  rob_ok SZ W ms rs rb -> Forall (fun m => 0 <= m < 2 ^ 62) ms2 ->
  rb_curRetireCycle rb < 2 ^ 62 + Z.of_nat (length ms) -> Z.of_nat (length ms + length ms2) < 2 ^ 62 ->
  exists rs2 rb', markRetires SZ W ms2 rb = Ok (rs2, rb') /\ rob_ok SZ W (ms ++ ms2) (rs ++ rs2) rb'.
Proof.
  intros HS HW. induction ms2 as [|m ms2 IH]; intros ms rs rb Hrb Hms Hb Hl.
  { exists [], rb. by rewrite !app_nil_r. }
  apply Forall_cons in Hms as [Hm Hms]. simpl in Hl |- *.
  destruct (markRetire_ok SZ W m ms rs rb HS HW Hrb) as (r & rb1 & -> & Hrb1 & Hr & Hmr & Hb1); [lia..|].
  destruct (IH (ms ++ [m]) (rs ++ [r]) rb1 Hrb1 Hms) as (rs2 & rb' & -> & Hrb').
  { rewrite length_app. simpl. lia. }
  { rewrite length_app. simpl. lia. }
  exists (r :: rs2), rb'. rewrite Hr. split; [done|]. by rewrite <- !app_assoc in Hrb'.
Qed.

(** ** The cycle queue *)

Lemma markLeave_ok SZ c q hist : 0 < SZ < 2 ^ 31 -> ring_ok SZ (cq_buf q) (cq_idx q) hist ->
  exists q', markLeave SZ c q = Ok q' /\ ring_ok SZ (cq_buf q') (cq_idx q') (hist ++ [c]).
Proof.
  intros HS Hr. unfold markLeave.
  destruct (ring_push_ok SZ c (cq_buf q) (cq_idx q) hist HS Hr) as (buf & idx & -> & Hr').
  by eexists.
Qed.

(** ** The branch predictor *)

Section Predictor.
Context (NB HB LB : Z) (HN : 0 <= NB <= LB) (HL : LB <= HB <= 30) (HP : 0 < HB).
#[local] Set Default Proof Using "All".

Lemma pow_u32 k : 0 <= k <= 30 -> 0 < 2 ^ k < 2 ^ 31.
Proof using Type. intros Hk. split; [lia|]. apply Z.pow_lt_mono_r; lia. Qed.

Lemma land_mask z k : 0 <= k -> Z.land z (Z.shiftl 1 k - 1) = z mod 2 ^ k.
Proof using Type. intros Hk. rewrite Z.shiftl_1_l, Z.sub_1_r, <- Z.ones_equiv. by apply Z.land_ones. Qed.

(** Histories of [HB] bits, counters of two bits, tables of their sizes. *)
Record bp_ok (bp : BranchPredictor) : Prop := {
  bp_hlen : Z.of_nat (length (bhsr bp)) = 2 ^ NB;
  bp_plen : Z.of_nat (length (pht bp)) = 2 ^ LB;
  bp_hist : Forall (fun h => 0 <= h < 2 ^ HB) (bhsr bp);
  bp_cnt : Forall (fun c => 0 <= c <= 3) (pht bp)
}.

Lemma BranchPredictorPAg_ok : bp_ok (BranchPredictorPAg NB LB).
Proof.
  pose proof (pow_u32 NB ltac:(lia)). pose proof (pow_u32 LB ltac:(lia)). pose proof (pow_u32 HB ltac:(lia)).
  constructor; simpl; rewrite ?length_replicate; try lia; apply Forall_replicate; lia.
Qed.

(** The entry of a branch, and the counter of a history. *)
Definition hist_index (branchPc : Z) : nat := Z.to_nat (u32 (Z.shiftr branchPc 1) mod 2 ^ NB).
Definition fold_hist (h : Z) : Z :=
  Z.lxor h (Z.shiftr (Z.land h (u32 (Z.lnot (Z.shiftl 1 LB - 1)))) (HB - LB)).
Definition cnt_index (h : Z) : nat := Z.to_nat (fold_hist h mod 2 ^ LB).

(** A two-bit counter counts up and down between 0 and 3; a history shifts in
    the outcome. *)
Definition saturate (taken : bool) (c : Z) : Z := if taken then Z.min 3 (c + 1) else Z.max 0 (c - 1).
Definition shift_in (taken : bool) (h : Z) : Z := (2 * h + Z.b2z taken) mod 2 ^ HB.

Lemma shift_in_range taken h : 0 <= shift_in taken h < 2 ^ HB.
Proof. apply Z.mod_pos_bound. pose proof (pow_u32 HB ltac:(lia)). lia. Qed.

Lemma shift_in_eq (taken : bool) h : 0 <= h < 2 ^ HB ->
  Z.lor (Z.land (u32 (Z.shiftl h 1)) (Z.shiftl 1 HB - 1)) (if taken then 1 else 0) = shift_in taken h.
Proof.
  intros Hh. pose proof (pow_u32 HB ltac:(lia)). rewrite land_mask by lia.
  rewrite Z.shiftl_mul_pow2, u32_id by (unfold in_u32; lia). unfold shift_in.
  assert (exists m, 2 ^ HB = 2 * m /\ 0 < m) as (m & Hm & Hm0).
  { exists (2 ^ (HB - 1)). replace HB with (Z.succ (HB - 1)) at 1 by lia. rewrite Z.pow_succ_r by lia.
    split; [done|]. apply Z.pow_pos_nonneg; lia. }
  rewrite Hm. replace (h * 2 ^ 1) with (2 * h) by lia. rewrite Zmult_mod_distr_l.
  pose proof (Z.mod_pos_bound h m Hm0). destruct taken; simpl Z.b2z.
  - assert ((2 * h + 1) mod (2 * m) = 2 * (h mod m) + 1) as ->.
    { symmetry. apply (Z.mod_unique _ _ (h / m)); [lia|]. pose proof (Z.div_mod h m). lia. }
    pose proof (Z.add_lor_land (2 * (h mod m)) 1) as Hl.
    assert (Z.land (2 * (h mod m)) 1 = (2 * (h mod m)) mod 2) as Hone by (apply (Z.land_ones _ 1); lia).
    replace (2 * (h mod m) mod 2) with 0 in Hone by (by rewrite Z.mul_comm, Z.mod_mul). lia.
  - rewrite Z.lor_0_r, Z.add_0_r, Zmult_mod_distr_l. done.
Qed.

(** [predict] compares with the counter of the branch's history, and steps
    both. *)
Lemma predict_ok branchPc taken bp : bp_ok bp ->
  exists h c, bhsr bp !! hist_index branchPc = Some h /\ pht bp !! cnt_index h = Some c /\
    0 <= h < 2 ^ HB /\ 0 <= c <= 3 /\
    predict NB HB LB branchPc taken bp =
      Ok (Bool.eqb taken (1 <? c),
          mkBP (<[hist_index branchPc := shift_in taken h]> (bhsr bp))
               (<[cnt_index h := saturate taken c]> (pht bp))) /\
    bp_ok (mkBP (<[hist_index branchPc := shift_in taken h]> (bhsr bp))
                (<[cnt_index h := saturate taken c]> (pht bp))).
Proof.
  intros [Hhl Hpl Hh Hc].
  pose proof (pow_u32 NB ltac:(lia)). pose proof (pow_u32 LB ltac:(lia)).
  pose proof (Z.mod_pos_bound (u32 (Z.shiftr branchPc 1)) (2 ^ NB) ltac:(lia)) as Hi.
  destruct (lookup_lt_is_Some_2 (bhsr bp) (hist_index branchPc)) as [h Eh]; [unfold hist_index; lia|].
  pose proof (Z.mod_pos_bound (fold_hist h) (2 ^ LB) ltac:(lia)) as Hj.
  destruct (lookup_lt_is_Some_2 (pht bp) (cnt_index h)) as [c Ec]; [unfold cnt_index; lia|].
  pose proof (proj1 (Forall_lookup _ _) Hh _ _ Eh) as Hhr. pose proof (proj1 (Forall_lookup _ _) Hc _ _ Ec) as Hcr.
  simpl in Hhr, Hcr. exists h, c. split; [done|]. split; [done|]. split; [done|]. split; [done|]. split.
  - unfold predict. cbv zeta. rewrite !land_mask by lia. fold (hist_index branchPc). rewrite Eh. cbv zeta. rewrite ?land_mask by lia.
    fold (fold_hist h). fold (cnt_index h). rewrite Ec.
    rewrite <- (land_mask _ HB) by lia. rewrite shift_in_eq by done.
    do 3 f_equal. f_equal. unfold saturate.
    destruct taken, (Z.ltb_spec 1 c); rewrite ?u8_id by lia; lia.
  - constructor; simpl; rewrite ?length_insert; try done; apply Forall_insert; try done.
    + apply shift_in_range.
    + unfold saturate. destruct taken; lia.
Qed.

(** ** A branch with one outcome *)

Fixpoint repeat_predict (n : nat) (branchPc : Z) (taken : bool) : M BranchPredictor (list bool) :=
  match n with
  | O => ret []
  | S n' => b <- predict NB HB LB branchPc taken ;; bs <- repeat_predict n' branchPc taken ;; ret (b :: bs)
  end.

(** The history that consists of one outcome. *)
Definition constant_hist (taken : bool) : Z := if taken then 2 ^ HB - 1 else 0.

Lemma shift_in_constant taken : shift_in taken (constant_hist taken) = constant_hist taken.
Proof.
  pose proof (pow_u32 HB ltac:(lia)). unfold shift_in, constant_hist. destruct taken; simpl.
  - symmetry. apply (Z.mod_unique _ _ 1); lia.
  - by rewrite Z.mod_0_l by lia.
Qed.

Definition shifts (taken : bool) (n : nat) (h : Z) : Z := Nat.iter n (shift_in taken) h.
#[local] Arguments shifts : simpl never.

(** After [HB] outcomes the history holds nothing else. *)
Lemma shifts_eq taken n h :
  0 <= h < 2 ^ HB -> shifts taken n h = (h * 2 ^ Z.of_nat n + Z.b2z taken * (2 ^ Z.of_nat n - 1)) mod 2 ^ HB.
Proof.
  intros Hh. pose proof (pow_u32 HB ltac:(lia)). unfold shifts. induction n as [|n IH].
  - simpl. rewrite Z.mod_small; [lia|]. destruct taken; simpl; lia.
  - rewrite Nat.iter_succ, IH. unfold shift_in. rewrite <- Zplus_mod_idemp_l, Zmult_mod_idemp_r, Zplus_mod_idemp_l.
    f_equal. rewrite Nat2Z.inj_succ, Z.pow_succ_r by lia. destruct taken; simpl Z.b2z; lia.
Qed.

Lemma shifts_constant taken n h : 0 <= h < 2 ^ HB -> HB <= Z.of_nat n -> shifts taken n h = constant_hist taken.
Proof.
  intros Hh Hn. pose proof (pow_u32 HB ltac:(lia)). rewrite shifts_eq by done.
  replace (Z.of_nat n) with (HB + (Z.of_nat n - HB)) by lia. rewrite Z.pow_add_r by lia.
  set (k := 2 ^ (Z.of_nat n - HB)). unfold constant_hist. destruct taken; simpl Z.b2z.
  - symmetry. apply (Z.mod_unique _ _ (h * k + k - 1)); [lia|]. lia.
  - rewrite Z.mul_0_l, Z.add_0_r. replace (h * (2 ^ HB * k)) with (h * k * 2 ^ HB) by lia. by rewrite Z.mod_mul by lia.
Qed.

(** The prediction of a counter. *)
Definition agrees (taken : bool) (c : Z) : Prop := Bool.eqb taken (1 <? c) = true.

Lemma saturate_agrees taken c : 0 <= c <= 3 -> agrees taken c -> agrees taken (saturate taken c).
Proof using Type.
  unfold agrees, saturate. intros Hc.
  destruct taken; simpl; destruct (Z.ltb_spec 1 c), (1 <? _) eqn:E; try done; apply Z.ltb_lt in E || apply Z.ltb_ge in E; lia.
Qed.

Lemma saturate_twice taken c : 0 <= c <= 3 -> agrees taken (saturate taken (saturate taken c)).
Proof using Type.
  unfold agrees, saturate. intros Hc.
  destruct taken; simpl; destruct (1 <? _) eqn:E; try done; apply Z.ltb_lt in E || apply Z.ltb_ge in E; lia.
Qed.

Section Constant.
Context (branchPc : Z) (taken : bool).

Lemma repeat_ok n : forall bp h, bp_ok bp -> bhsr bp !! hist_index branchPc = Some h ->
  exists bs bp', repeat_predict n branchPc taken bp = Ok (bs, bp') /\ bp_ok bp' /\ length bs = n /\
    bhsr bp' !! hist_index branchPc = Some (shifts taken n h).
Proof.
  induction n as [|n IH]; intros bp h Hok Eh; simpl.
  { exists [], bp. done. }
  destruct (predict_ok branchPc taken bp Hok) as (h' & c & Eh' & Ec & Hh & Hc & E & Hok'). simplify_eq.
  set (bp1 := mkBP _ _) in E, Hok'.
  assert (bhsr bp1 !! hist_index branchPc = Some (shift_in taken h)) as E1.
  { simpl. rewrite list_lookup_insert_eq; [done|]. by eapply lookup_lt_Some. }
  destruct (IH bp1 _ Hok' E1) as (bs & bp2 & E2 & ? & ? & Hs).
  exists (Bool.eqb taken (1 <? c) :: bs), bp2. unfold bind, ret. rewrite E, E2. split; [done|]. split; [done|].
  split; [simpl; lia|]. rewrite Hs. unfold shifts. by rewrite Nat.iter_succ_r.
Qed.

Lemma repeat_app a b bp bs1 bp1 bs2 bp2 :
  repeat_predict a branchPc taken bp = Ok (bs1, bp1) -> repeat_predict b branchPc taken bp1 = Ok (bs2, bp2) ->
  repeat_predict (a + b) branchPc taken bp = Ok (bs1 ++ bs2, bp2).
Proof.
  revert bp bs1. induction a as [|a IH]; intros bp bs1 E1 E2; simpl in *.
  { unfold ret in E1. by simplify_eq. }
  unfold bind, ret in *. destruct (predict NB HB LB branchPc taken bp) as [[b0 bp0]|]; [|done].
  destruct (repeat_predict a branchPc taken bp0) as [[bs0 bp0']|] eqn:E0; [|done].
  simplify_eq. by rewrite (IH _ _ E0 E2).
Qed.

(** With a constant history one counter is used. *)
Definition constant_at (bp : BranchPredictor) (c : Z) : Prop :=
  bp_ok bp /\ bhsr bp !! hist_index branchPc = Some (constant_hist taken) /\
  pht bp !! cnt_index (constant_hist taken) = Some c.

Lemma constant_step bp c : constant_at bp c ->
  exists bp', predict NB HB LB branchPc taken bp = Ok (Bool.eqb taken (1 <? c), bp') /\
    constant_at bp' (saturate taken c).
Proof.
  intros (Hok & Eh & Ec). destruct (predict_ok branchPc taken bp Hok) as (h & c' & Eh' & Ec' & _ & _ & E & Hok').
  assert (h = constant_hist taken) as -> by congruence. assert (c' = c) as -> by congruence.
  exists (mkBP (<[hist_index branchPc := shift_in taken (constant_hist taken)]> (bhsr bp))
               (<[cnt_index (constant_hist taken) := saturate taken c]> (pht bp))).
  split; [done|]. split; [done|]. simpl. rewrite shift_in_constant.
  rewrite !list_lookup_insert_eq by (by eapply lookup_lt_Some). done.
Qed.

Lemma constant_agrees n : forall bp c, constant_at bp c -> agrees taken c ->
  exists bp', repeat_predict n branchPc taken bp = Ok (replicate n true, bp').
Proof.
  induction n as [|n IH]; intros bp c Hc Ha; simpl; [by eexists|].
  destruct (constant_step bp c Hc) as (bp1 & E & Hc1). unfold agrees in Ha. rewrite Ha in E.
  assert (0 <= c <= 3) as Hr.
  { destruct Hc as (Hok & _ & Ec). exact (proj1 (Forall_lookup _ _) (bp_cnt _ Hok) _ _ Ec). }
  destruct (IH bp1 _ Hc1) as (bp2 & E2); [by apply saturate_agrees|].
  exists bp2. unfold bind, ret. by rewrite E, E2.
Qed.

(** After [HB + 2] executions in a row the branch is always predicted. *)
Lemma predict_converges n bp : bp_ok bp ->
  exists bs bp', repeat_predict (Z.to_nat HB + 2 + n) branchPc taken bp = Ok (bs ++ replicate n true, bp') /\
    length bs = (Z.to_nat HB + 2)%nat.
Proof.
  intros Hok. destruct (predict_ok branchPc taken bp Hok) as (h & _ & Eh & _ & Hh & _).
  destruct (repeat_ok (Z.to_nat HB) bp h Hok Eh) as (bs & bp1 & E1 & Hok1 & Hl & Eh1).
  rewrite shifts_constant in Eh1 by lia || done.
  destruct (predict_ok branchPc taken bp1 Hok1) as (h' & c & Eh' & Ec & _ & Hc & _). rewrite Eh1 in Eh'. simplify_eq.
  destruct (constant_step bp1 c) as (bp2 & E2 & Hc2); [done|].
  destruct (constant_step bp2 _ Hc2) as (bp3 & E3 & Hc3).
  destruct (constant_agrees n bp3 _ Hc3) as (bp4 & E4); [by apply saturate_twice|].
  assert (repeat_predict 2 branchPc taken bp1 =
    Ok ([Bool.eqb taken (1 <? c); Bool.eqb taken (1 <? saturate taken c)], bp3)) as E23
    by (simpl; unfold bind, ret; rewrite E2, E3; done).
  pose proof (repeat_app _ _ _ _ _ _ _ E1 E23) as E123.
  exists (bs ++ [Bool.eqb taken (1 <? c); Bool.eqb taken (1 <? saturate taken c)]), bp4.
  split; [by apply (repeat_app _ _ _ _ _ _ _ E123)|]. rewrite length_app. simpl. lia.
Qed.

End Constant.
End Predictor.

Fixpoint predicts (NB HB LB : Z) (l : list (Z * bool)) : M BranchPredictor (list bool) :=
  match l with
  | [] => ret []
  | (pc, taken) :: l' =>
      b <- predict NB HB LB pc taken ;; bs <- predicts NB HB LB l' ;; ret (b :: bs)
  end.

Lemma predicts_ok NB HB LB l : 0 <= NB <= LB -> LB <= HB <= 30 -> 0 < HB -> forall bp, bp_ok NB HB LB bp ->
  exists bs bp', predicts NB HB LB l bp = Ok (bs, bp') /\ length bs = length l /\ bp_ok NB HB LB bp'.
Proof.
  intros HN HL HP. induction l as [|[pc taken] l IH]; intros bp Hok; simpl.
  { by exists [], bp. }
  destruct (predict_ok NB HB LB HN HL HP pc taken bp Hok) as (h & c & _ & _ & _ & _ & E & Hok1).
  destruct (IH _ Hok1) as (bs & bp' & E' & Hl & Hok'). exists (Bool.eqb taken (1 <? c) :: bs), bp'.
  unfold bind, ret. rewrite E, E'. simpl. split; [done|]. split; [lia|done].
Qed.

(** ** Claims *)

(** C15 (bounds): uops retire in program order and not before they are done;
    at most [W + 1] of them in a cycle; and [minAllocCycle] is the cycle in
    which the uop [SZ] places earlier retired, or 0.  (The width is [W]: see
    [rob_width_exceeded].) *)
Theorem rob_in_order SZ W ms :
  0 < SZ < 2 ^ 31 -> 0 < W < 2 ^ 31 -> Forall (fun m => 0 <= m < 2 ^ 62) ms -> Z.of_nat (length ms) < 2 ^ 62 ->
  exists rs rb c, markRetires SZ W ms (ReorderBuffer_init SZ) = Ok (rs, rb) /\
    Forall2 Z.le ms rs /\ StronglySorted Z.le rs /\
    (forall t, Z.of_nat (count_if (Z.eqb t) rs) <= W + 1) /\
    rob_minAllocCycle rb = Ok c /\ (replicate (Z.to_nat SZ) 0 ++ rs) !! length rs = Some c.
Proof.
  intros HS HW Hms Hl.
  destruct (markRetires_ok SZ W ms HS HW [] [] (ReorderBuffer_init SZ)) as (rs & rb & E & Hok);
    [apply ReorderBuffer_init_ok; lia|done|simpl; lia|simpl; lia|].
  destruct Hok as [Hr Ha Hs _ _ _ _ Hc]. simpl in *.
  destruct (ring_oldest SZ (rb_buf rb) (rb_idx rb) rs) as (c & Hmin & Hc'); [lia|done|].
  by exists rs, rb, c.
Qed.

Lemma rob_in_order_witness :
  exists rs rb c, markRetires 128 4 [5; 3; 9] (ReorderBuffer_init 128) = Ok (rs, rb) /\
    Forall2 Z.le [5; 3; 9] rs /\ StronglySorted Z.le rs /\
    (forall t, Z.of_nat (count_if (Z.eqb t) rs) <= 4 + 1) /\
    rob_minAllocCycle rb = Ok c /\ (replicate (Z.to_nat 128) 0 ++ rs) !! length rs = Some c.
Proof. apply (rob_in_order 128 4 [5; 3; 9]); [lia|lia|repeat constructor; lia|vm_compute; reflexivity]. Defined.

(** A buffer of width 4 retires five uops in cycle 1: the first uop of the new
    cycle is counted as none. *)
Lemma rob_width_exceeded : exists rb,
  markRetires 128 4 (replicate 9 0) (ReorderBuffer_init 128) = Ok ([0; 0; 0; 1; 1; 1; 1; 1; 2], rb).
Proof. eexists. vm_compute. reflexivity. Qed.

(** C18 (type): after any sequence of branches the predictor's tables have
    their sizes, every history is a number of [HB] bits and every counter one of
    two bits; no access leaves a table. *)
Theorem predictor_typed NB HB LB l :
  0 <= NB <= LB -> LB <= HB <= 30 -> 0 < HB ->
  exists bs bp, predicts NB HB LB l (BranchPredictorPAg NB LB) = Ok (bs, bp) /\ length bs = length l /\
    Z.of_nat (length (bhsr bp)) = 2 ^ NB /\ Z.of_nat (length (pht bp)) = 2 ^ LB /\
    Forall (fun h => 0 <= h < 2 ^ HB) (bhsr bp) /\ Forall (fun c => 0 <= c <= 3) (pht bp).
Proof.
  intros HN HL HP. destruct (predicts_ok NB HB LB l HN HL HP (BranchPredictorPAg NB LB))
    as (bs & bp & E & Hl & []); [by apply BranchPredictorPAg_ok|]. by exists bs, bp.
Qed.

Lemma predictor_typed_witness :
  exists bs bp, predicts 3 6 4 [(2, true); (6, false); (2, true)] (BranchPredictorPAg 3 4) = Ok (bs, bp) /\
    length bs = length [(2, true); (6, false); (2, true)] /\
    Z.of_nat (length (bhsr bp)) = 2 ^ 3 /\ Z.of_nat (length (pht bp)) = 2 ^ 4 /\
    Forall (fun h => 0 <= h < 2 ^ 6) (bhsr bp) /\ Forall (fun c => 0 <= c <= 3) (pht bp).
Proof. apply (predictor_typed 3 6 4); lia. Defined.

(** Whatever branches ran before, a branch that goes one way is
    predicted in every execution after [HB + 2] executions in a row. *)
Theorem predictor_learns NB HB LB l branchPc taken n :
  0 <= NB <= LB -> LB <= HB <= 30 -> 0 < HB ->
  exists bs0 bp0 bs bp, predicts NB HB LB l (BranchPredictorPAg NB LB) = Ok (bs0, bp0) /\
    repeat_predict NB HB LB (Z.to_nat HB + 2 + n) branchPc taken bp0 = Ok (bs ++ replicate n true, bp) /\
    length bs = (Z.to_nat HB + 2)%nat.
Proof.
  intros HN HL HP. destruct (predicts_ok NB HB LB l HN HL HP (BranchPredictorPAg NB LB))
    as (bs0 & bp0 & E & _ & Hok); [by apply BranchPredictorPAg_ok|].
  destruct (predict_converges NB HB LB HN HL HP branchPc taken n bp0 Hok) as (bs & bp & E' & Hl).
  by exists bs0, bp0, bs, bp.
Qed.

Lemma predictor_learns_witness :
  exists bs0 bp0 bs bp, predicts 11 18 14 [] (BranchPredictorPAg 11 14) = Ok (bs0, bp0) /\
    repeat_predict 11 18 14 (Z.to_nat 18 + 2 + 5) 4198400 true bp0 = Ok (bs ++ replicate 5 true, bp) /\
    length bs = (Z.to_nat 18 + 2)%nat.
Proof. apply (predictor_learns 11 18 14); lia. Defined.
