(* ===== verification/OooCore.v ===== *)
(** * The out-of-order core ([src/src/ooo_core.h], [ooo_core.cpp])

    [OOOCore] is an issue-centric model: for every uop of a basic block it
    computes the cycles of decode, issue, dispatch and commit from the queues,
    the instruction window, the register scoreboard and the caches, and then
    simulates the branch prediction and the fetch of the next block.  The
    caches and the recorder are interfaces; the core keeps the timing. *)

From stdpp Require Import base list strings.
From Stdlib Require Import ZArith Lia.
From S2P Require Import Prelude OooWindow OooQueues.
Local Open Scope Z_scope.

(** ** The decoder's output ([decoder.h], [core.h]) *)

Inductive UopType := UOP_GENERAL | UOP_LOAD | UOP_STORE | UOP_STORE_ADDR | UOP_FENCE.

Record DynUop := mkUop {
  u_rs0 : Z; u_rs1 : Z;
  u_rd0 : Z; u_rd1 : Z;
  u_lat : Z;
  u_decCycle : Z;
  u_type : UopType;
  u_portMask : Z;
  u_extraSlots : Z
}.

Record DynBbl := mkDynBbl { db_approxInstrs : Z; db_uop : list DynUop }.
Definition db_uops (b : DynBbl) : Z := Z.of_nat (length (db_uop b)).
Record BblInfo := mkBbl { bi_instrs : Z; bi_bytes : Z; bi_oooBbl : DynBbl }.

(** ** The core's environment: what it calls *)

(** [l1i] and [l1d]: the cycle in which a request of a cycle is satisfied. *)
Class L1Caches (E : Type) := {
  l1i_load : Z -> Z -> M E Z;
  l1d_load : Z -> Z -> M E Z;
  l1d_store : Z -> Z -> M E Z;
  l1_contextSwitch : M E unit
}.

(** [cRec]; [globPhaseCycles] is the global clock. *)
Class CoreRec (E : Type) := {
  rec_record : Z -> Z -> Z -> M E unit;
  rec_notifyJoin : Z -> M E Z;
  rec_notifyLeave : Z -> M E unit;
  rec_cSimStart : Z -> M E Z;
  rec_cSimEnd : Z -> M E Z;
  env_globPhaseCycles : E -> Z
}.

(** ** State *)

Record FwdEntry := mkFwd { fw_addr : Z; fw_storeCycle : Z }.
Definition FWD_ENTRIES : Z := 32.

(** [branchPc], [branchTaken], [branchTakenNpc], [branchNotTakenNpc] *)
Record BranchInfo := mkBr { br_pc : Z; br_taken : bool; br_takenNpc : Z; br_notTakenNpc : Z }.

(** Front end: fetch, decode and issue. *)
Record FrontEnd := mkFront {
  fe_prevBbl : option BblInfo;
  fe_branchPred : BranchPredictor;
  fe_branch : BranchInfo;
  fe_decodeCycle : Z;
  fe_uopQueue : CycleQueue;
  fe_curCycleRFReads : Z;
  fe_curCycleIssuedUops : Z
}.

(** Load-store unit and the addresses of the current block. *)
Record Lsu := mkLsu {
  ls_loadAddrs : list Z;
  ls_storeAddrs : list Z;
  ls_loads : Z;
  ls_stores : Z;
  ls_lastStoreCommitCycle : Z;
  ls_lastStoreAddrCommitCycle : Z;
  ls_loadQueue : ReorderBuffer;
  ls_storeQueue : ReorderBuffer;
  ls_fwdArray : list FwdEntry
}.

Record CoreStats := mkStats {
  st_instrs : Z; st_uops : Z; st_bbls : Z; st_approxInstrs : Z; st_mispredBranches : Z
}.

Record OOOCore := mkCore {
  oc_phaseEndCycle : Z;
  oc_curCycle : Z;
  oc_insWindow : Window;
  oc_regScoreboard : list Z;
  oc_rob : ReorderBuffer;
  oc_front : FrontEnd;
  oc_lsu : Lsu;
  oc_stats : CoreStats
}.

Definition set_phaseEnd (v : Z) (c : OOOCore) : OOOCore :=
  mkCore v (oc_curCycle c) (oc_insWindow c) (oc_regScoreboard c) (oc_rob c) (oc_front c) (oc_lsu c) (oc_stats c).
Definition set_win (p : WS) (c : OOOCore) : OOOCore :=
  mkCore (oc_phaseEndCycle c) p.2 p.1 (oc_regScoreboard c) (oc_rob c) (oc_front c) (oc_lsu c) (oc_stats c).
Definition set_regs (v : list Z) (c : OOOCore) : OOOCore :=
  mkCore (oc_phaseEndCycle c) (oc_curCycle c) (oc_insWindow c) v (oc_rob c) (oc_front c) (oc_lsu c) (oc_stats c).
Definition set_rob (v : ReorderBuffer) (c : OOOCore) : OOOCore :=
  mkCore (oc_phaseEndCycle c) (oc_curCycle c) (oc_insWindow c) (oc_regScoreboard c) v (oc_front c) (oc_lsu c) (oc_stats c).
Definition set_front (v : FrontEnd) (c : OOOCore) : OOOCore :=
  mkCore (oc_phaseEndCycle c) (oc_curCycle c) (oc_insWindow c) (oc_regScoreboard c) (oc_rob c) v (oc_lsu c) (oc_stats c).
Definition set_lsu (v : Lsu) (c : OOOCore) : OOOCore :=
  mkCore (oc_phaseEndCycle c) (oc_curCycle c) (oc_insWindow c) (oc_regScoreboard c) (oc_rob c) (oc_front c) v (oc_stats c).
Definition set_stats (v : CoreStats) (c : OOOCore) : OOOCore :=
  mkCore (oc_phaseEndCycle c) (oc_curCycle c) (oc_insWindow c) (oc_regScoreboard c) (oc_rob c) (oc_front c) (oc_lsu c) v.

Definition set_prevBbl (v : option BblInfo) (f : FrontEnd) : FrontEnd :=
  mkFront v (fe_branchPred f) (fe_branch f) (fe_decodeCycle f) (fe_uopQueue f) (fe_curCycleRFReads f) (fe_curCycleIssuedUops f).
Definition set_bp (v : BranchPredictor) (f : FrontEnd) : FrontEnd :=
  mkFront (fe_prevBbl f) v (fe_branch f) (fe_decodeCycle f) (fe_uopQueue f) (fe_curCycleRFReads f) (fe_curCycleIssuedUops f).
Definition set_branch (v : BranchInfo) (f : FrontEnd) : FrontEnd :=
  mkFront (fe_prevBbl f) (fe_branchPred f) v (fe_decodeCycle f) (fe_uopQueue f) (fe_curCycleRFReads f) (fe_curCycleIssuedUops f).
Definition set_decode (v : Z) (f : FrontEnd) : FrontEnd :=
  mkFront (fe_prevBbl f) (fe_branchPred f) (fe_branch f) v (fe_uopQueue f) (fe_curCycleRFReads f) (fe_curCycleIssuedUops f).
Definition set_uopQueue (v : CycleQueue) (f : FrontEnd) : FrontEnd :=
  mkFront (fe_prevBbl f) (fe_branchPred f) (fe_branch f) (fe_decodeCycle f) v (fe_curCycleRFReads f) (fe_curCycleIssuedUops f).
Definition set_issue (rf iss : Z) (f : FrontEnd) : FrontEnd :=
  mkFront (fe_prevBbl f) (fe_branchPred f) (fe_branch f) (fe_decodeCycle f) (fe_uopQueue f) rf iss.

Definition set_addrs (la sa : list Z) (l s : Z) (x : Lsu) : Lsu :=
  mkLsu la sa l s (ls_lastStoreCommitCycle x) (ls_lastStoreAddrCommitCycle x) (ls_loadQueue x) (ls_storeQueue x) (ls_fwdArray x).
Definition set_commits (sc sac : Z) (x : Lsu) : Lsu :=
  mkLsu (ls_loadAddrs x) (ls_storeAddrs x) (ls_loads x) (ls_stores x) sc sac (ls_loadQueue x) (ls_storeQueue x) (ls_fwdArray x).
Definition set_loadQueue (q : ReorderBuffer) (x : Lsu) : Lsu :=
  mkLsu (ls_loadAddrs x) (ls_storeAddrs x) (ls_loads x) (ls_stores x) (ls_lastStoreCommitCycle x)
    (ls_lastStoreAddrCommitCycle x) q (ls_storeQueue x) (ls_fwdArray x).
Definition set_storeQueue (q : ReorderBuffer) (x : Lsu) : Lsu :=
  mkLsu (ls_loadAddrs x) (ls_storeAddrs x) (ls_loads x) (ls_stores x) (ls_lastStoreCommitCycle x)
    (ls_lastStoreAddrCommitCycle x) (ls_loadQueue x) q (ls_fwdArray x).
Definition set_fwd (a : list FwdEntry) (x : Lsu) : Lsu :=
  mkLsu (ls_loadAddrs x) (ls_storeAddrs x) (ls_loads x) (ls_stores x) (ls_lastStoreCommitCycle x)
    (ls_lastStoreAddrCommitCycle x) (ls_loadQueue x) (ls_storeQueue x) a.

(** ** Parameters *)

Definition FETCH_STAGE : Z := 1.
Definition DECODE_STAGE : Z := 4.
Definition ISSUE_STAGE : Z := 7.
Definition DISPATCH_STAGE : Z := 13.
Definition L1D_LAT : Z := 4.
Definition FETCH_BYTES_PER_CYCLE : Z := 16.
Definition ISSUES_PER_CYCLE : Z := 4.
Definition RF_READS_PER_CYCLE : Z := 3.
(** [(Address)-1L] *)
Definition NO_ADDR : Z := 2 ^ 64 - 1.

(** The template arguments of the core's members. *)
Definition WIN_H : Z := 1024.
Definition WIN_SZ : Z := 36.
Definition ROB_SZ : Z := 128.
Definition LSQ_SZ : Z := 32.
Definition RETIRE_W : Z := 4.
Definition UOPQ_SZ : Z := 28.
Definition BP_NB : Z := 11.
Definition BP_HB : Z := 18.
Definition BP_LB : Z := 14.

Section Core.
Context {E : Type} `{LC : L1Caches E} `{RC : CoreRec E}.
(** [MAX_REGISTERS], which depends on the registers of Pin; [zinfo]'s
    [phaseLength]; [lineBits]. *)
Context (MAX_REGISTERS phaseLength lineBits : Z).

(** The constructor.  The arrays of addresses and the branch are set before they
    are read. *)
Definition OOOCore_init : OOOCore :=
  mkCore phaseLength 0 (Window_init WIN_H) (replicate (Z.to_nat MAX_REGISTERS) 0) (ReorderBuffer_init ROB_SZ)
    (mkFront None (BranchPredictorPAg BP_NB BP_LB) (mkBr 0 false 0 0) DECODE_STAGE (CycleQueue_init UOPQ_SZ) 0 0)
    (mkLsu (replicate 256 0) (replicate 256 0) 0 0 0 0 (ReorderBuffer_init LSQ_SZ) (ReorderBuffer_init LSQ_SZ)
       (replicate (Z.to_nat FWD_ENTRIES) (mkFwd NO_ADDR 0)))
    (mkStats 0 0 0 0 0).

(** The core and its environment. *)
Definition CS : Type := OOOCore * E.
Definition on_core {A} (m : M OOOCore A) : M CS A := zoom fst (fun c s => (c, s.2)) m.
Definition on_env {A} (m : M E A) : M CS A := zoom snd (fun e s => (s.1, e)) m.
Definition on_win {A} (m : M WS A) : M OOOCore A := zoom (fun c => (oc_insWindow c, oc_curCycle c)) set_win m.
Definition mod_front (f : FrontEnd -> FrontEnd) : M OOOCore unit := modify (fun c => set_front (f (oc_front c)) c).
Definition mod_lsu (f : Lsu -> Lsu) : M OOOCore unit := modify (fun c => set_lsu (f (oc_lsu c)) c).
Definition curCycle : M OOOCore Z := gets oc_curCycle.

(** ** Loads, stores and branches of the block that executes *)

Definition load (addr : Z) : M OOOCore unit :=
  c <- get ;;
  let x := oc_lsu c in
  la <- lift (set_at (ls_loadAddrs x) (Z.to_nat (ls_loads x)) addr) ;;
  mod_lsu (set_addrs la (ls_storeAddrs x) (u32 (ls_loads x + 1)) (ls_stores x)).

Definition store (addr : Z) : M OOOCore unit :=
  c <- get ;;
  let x := oc_lsu c in
  sa <- lift (set_at (ls_storeAddrs x) (Z.to_nat (ls_stores x)) addr) ;;
  mod_lsu (set_addrs (ls_loadAddrs x) sa (ls_loads x) (u32 (ls_stores x + 1))).

Definition predFalseMemOp : M OOOCore unit := load NO_ADDR.

Definition branch (pc : Z) (taken : bool) (takenNpc notTakenNpc : Z) : M OOOCore unit :=
  mod_front (set_branch (mkBr pc taken takenNpc notTakenNpc)).

(** ** One uop *)

(** [for (i < n) insWindow.advancePos(curCycle)] *)
Fixpoint advanceN (n : nat) : M WS unit :=
  match n with O => ret tt | S n' => advancePos WIN_H ;; advanceN n' end.

(** Decode stalls. *)
Definition uop_decode (uop : DynUop) (prevDecCycle : Z) : M OOOCore unit :=
  c <- get ;;
  let decDiff := u32 (u_decCycle uop - prevDecCycle) in
  minAlloc <- lift (cq_minAllocCycle (fe_uopQueue (oc_front c))) ;;
  let decodeCycle := Z.max (u64 (fe_decodeCycle (oc_front c) + decDiff)) minAlloc in
  mod_front (set_decode decodeCycle) ;;
  when (oc_curCycle c <? decodeCycle)
    (mod_front (set_issue 0 0) ;;
     on_win (advanceN (Z.to_nat (u32 (decodeCycle - oc_curCycle c))))) ;;
  cur <- curCycle ;;
  c <- get ;;
  q <- lift (markLeave UOPQ_SZ cur (fe_uopQueue (oc_front c))) ;;
  mod_front (set_uopQueue q).

(** The issue width. *)
Definition uop_issue : M OOOCore unit :=
  c <- get ;;
  when (ISSUES_PER_CYCLE <=? fe_curCycleIssuedUops (oc_front c))
    (mod_front (set_issue 0 0) ;; on_win (advancePos WIN_H)) ;;
  mod_front (fun f => set_issue (fe_curCycleRFReads f) (u32 (fe_curCycleIssuedUops f + 1)) f).

(** The operands: the cycles in which they are ready, and the stall for reads
    of the register file. *)
Definition uop_operands (uop : DynUop) : M OOOCore (Z * Z) :=
  c <- get ;;
  let cur := oc_curCycle c in
  regs <- lift (set_at (oc_regScoreboard c) 0 cur) ;;
  modify (set_regs regs) ;;
  c0 <- lift (at_ regs (Z.to_nat (u_rs0 uop))) ;;
  c1 <- lift (at_ regs (Z.to_nat (u_rs1 uop))) ;;
  mod_front (fun f => set_issue
    (u32 (fe_curCycleRFReads f + ((if c0 <? cur then 1 else 0) + (if c1 <? cur then 1 else 0))))
    (fe_curCycleIssuedUops f) f) ;;
  c <- get ;;
  when (RF_READS_PER_CYCLE <? fe_curCycleRFReads (oc_front c))
    (mod_front (fun f => set_issue (u32 (fe_curCycleRFReads f - RF_READS_PER_CYCLE)) 0 f) ;;
     on_win (advancePos WIN_H)) ;;
  ret (c0, c1).

(** Allocation in the reorder buffer and the instruction window. *)
Definition uop_dispatch (uop : DynUop) (c0 c1 : Z) : M OOOCore Z :=
  c <- get ;;
  c2 <- lift (rob_minAllocCycle (oc_rob c)) ;;
  let c3 := oc_curCycle c in
  let cOps := Z.max c0 c1 in
  let dispatchCycle := Z.max cOps (u64 (Z.max c2 c3 + (DISPATCH_STAGE - ISSUE_STAGE))) in
  d <- on_win (schedule WIN_H WIN_SZ dispatchCycle (u_portMask uop) (u_extraSlots uop)) ;;
  cur <- curCycle ;;
  when (c3 <? cur) (mod_front (set_issue 0 0)) ;;
  ret d.

Definition fwd_index (addr : Z) : nat := Z.to_nat (Z.land (Z.shiftr addr 2) (FWD_ENTRIES - 1)).

(** [case UOP_LOAD] *)
Definition exec_load (loadIdx dispatchCycle : Z) : M CS Z :=
  c <- on_core get ;;
  let x := oc_lsu c in
  lqCycle <- lift (rob_minAllocCycle (ls_loadQueue x)) ;;
  let dispatchCycle := if dispatchCycle <? lqCycle then lqCycle else dispatchCycle in
  let dispatchCycle := Z.max (u64 (ls_lastStoreAddrCommitCycle x + 1)) dispatchCycle in
  addr <- lift (at_ (ls_loadAddrs x) (Z.to_nat loadIdx)) ;;
  reqSatisfiedCycle <-
    (if negb (addr =? NO_ADDR) then
       r <- on_env (l1d_load addr dispatchCycle) ;;
       on_env (rec_record (oc_curCycle c) dispatchCycle (u64 (r + L1D_LAT))) ;;
       ret (u64 (r + L1D_LAT))
     else ret dispatchCycle) ;;
  f <- lift (at_ (ls_fwdArray x) (fwd_index addr)) ;;
  let commitCycle := if fw_addr f =? addr then Z.max reqSatisfiedCycle (fw_storeCycle f) else reqSatisfiedCycle in
  q <- lift (markRetire LSQ_SZ RETIRE_W commitCycle (ls_loadQueue x)) ;;
  on_core (mod_lsu (set_loadQueue q)) ;;
  ret commitCycle.

(** [case UOP_STORE] *)
Definition exec_store (storeIdx dispatchCycle : Z) : M CS Z :=
  c <- on_core get ;;
  let x := oc_lsu c in
  sqCycle <- lift (rob_minAllocCycle (ls_storeQueue x)) ;;
  let dispatchCycle := if dispatchCycle <? sqCycle then sqCycle else dispatchCycle in
  let dispatchCycle := Z.max (u64 (ls_lastStoreAddrCommitCycle x + 1)) dispatchCycle in
  addr <- lift (at_ (ls_storeAddrs x) (Z.to_nat storeIdx)) ;;
  r <- on_env (l1d_store addr dispatchCycle) ;;
  let reqSatisfiedCycle := u64 (r + L1D_LAT) in
  on_env (rec_record (oc_curCycle c) dispatchCycle reqSatisfiedCycle) ;;
  fwd <- lift (set_at (ls_fwdArray x) (fwd_index addr) (mkFwd addr reqSatisfiedCycle)) ;;
  on_core (mod_lsu (set_fwd fwd)) ;;
  on_core (mod_lsu (fun x => set_commits (Z.max (ls_lastStoreCommitCycle x) reqSatisfiedCycle)
                               (ls_lastStoreAddrCommitCycle x) x)) ;;
  q <- lift (markRetire LSQ_SZ RETIRE_W reqSatisfiedCycle (ls_storeQueue x)) ;;
  on_core (mod_lsu (set_storeQueue q)) ;;
  ret reqSatisfiedCycle.

(** The [switch]: the commit cycle, with the indices of the next load and
    store. *)
Definition uop_execute (uop : DynUop) (loadIdx storeIdx dispatchCycle : Z) : M CS (Z * (Z * Z)) :=
  match u_type uop with
  | UOP_GENERAL => ret (u64 (dispatchCycle + u_lat uop), (loadIdx, storeIdx))
  | UOP_LOAD => r <- exec_load loadIdx dispatchCycle ;; ret (r, (u32 (loadIdx + 1), storeIdx))
  | UOP_STORE => r <- exec_store storeIdx dispatchCycle ;; ret (r, (loadIdx, u32 (storeIdx + 1)))
  | UOP_STORE_ADDR =>
      let commitCycle := u64 (dispatchCycle + u_lat uop) in
      on_core (mod_lsu (fun x => set_commits (ls_lastStoreCommitCycle x)
                                   (Z.max (ls_lastStoreAddrCommitCycle x) commitCycle) x)) ;;
      ret (commitCycle, (loadIdx, storeIdx))
  | UOP_FENCE =>
      let commitCycle := u64 (dispatchCycle + u_lat uop) in
      on_core (mod_lsu (fun x => set_commits (ls_lastStoreCommitCycle x)
        (Z.max commitCycle (Z.max (ls_lastStoreAddrCommitCycle x) (u64 (ls_lastStoreCommitCycle x + u_lat uop)))) x)) ;;
      ret (commitCycle, (loadIdx, storeIdx))
  end.

(** Retirement and the scoreboard. *)
Definition uop_commit (uop : DynUop) (commitCycle : Z) : M OOOCore unit :=
  c <- get ;;
  rob <- lift (markRetire ROB_SZ RETIRE_W commitCycle (oc_rob c)) ;;
  modify (set_rob rob) ;;
  regs <- lift (set_at (oc_regScoreboard c) (Z.to_nat (u_rd0 uop)) commitCycle) ;;
  regs <- lift (set_at regs (Z.to_nat (u_rd1 uop)) commitCycle) ;;
  modify (set_regs regs).

(** The body of the loop over uops: the cycles of dispatch and commit, and the
    indices. *)
Definition uop_step (uop : DynUop) (prevDecCycle loadIdx storeIdx : Z) : M CS (Z * Z * (Z * Z)) :=
  on_core (uop_decode uop prevDecCycle) ;;
  on_core uop_issue ;;
  ops <- on_core (uop_operands uop) ;;
  d <- on_core (uop_dispatch uop ops.1 ops.2) ;;
  r <- uop_execute uop loadIdx storeIdx d ;;
  on_core (uop_commit uop r.1) ;;
  ret (d, r.1, r.2).

(** The loop: [loadIdx], [storeIdx] and [lastCommitCycle] at its end. *)
Fixpoint uop_loop (l : list DynUop) (prevDecCycle loadIdx storeIdx lastCommitCycle : Z) : M CS (Z * Z * Z) :=
  match l with
  | [] => ret (loadIdx, storeIdx, lastCommitCycle)
  | uop :: l' =>
      r <- uop_step uop prevDecCycle loadIdx storeIdx ;;
      uop_loop l' (u_decCycle uop) r.2.1 r.2.2 r.1.2
  end.

(** ** Branch prediction and fetch *)

Definition lineSize : Z := Z.shiftl 1 lineBits.

(** [fetchLat = l1i->load(addr, curCycle) - curCycle], recorded *)
Definition fetch_line (addr : Z) : M CS Z :=
  cur <- on_core curCycle ;;
  r <- on_env (l1i_load addr cur) ;;
  let fetchLat := u64 (r - cur) in
  on_env (rec_record cur cur (u64 (cur + fetchLat))) ;;
  ret fetchLat.

(** The wrong-path fetches, [n] of them left. *)
Fixpoint wrong_path (n : nat) (i wrongPathAddr reqCycle lastCommitCycle : Z) : M CS unit :=
  match n with
  | O => ret tt
  | S n' =>
      fetchLat <- fetch_line (u64 (wrongPathAddr + u32 (lineSize * i))) ;;
      let respCycle := u64 (reqCycle + fetchLat) in
      if lastCommitCycle <? respCycle then ret tt
      else wrong_path n' (i + 1) wrongPathAddr (u64 (respCycle + lineSize / FETCH_BYTES_PER_CYCLE)) lastCommitCycle
  end.

(** The fetch of the block; [fuel] bounds its lines. *)
Fixpoint fetch_bbl (fuel : nat) (fetchAddr endAddr fetchCycle : Z) : M CS Z :=
  if fetchAddr <? endAddr then
    match fuel with
    | O => fail OutOfFuel
    | S n =>
        fetchLat <- fetch_line fetchAddr ;;
        fetch_bbl n (u64 (fetchAddr + lineSize)) endAddr (u64 (fetchCycle + fetchLat))
    end
  else ret fetchCycle.

(** [branchPc && !branchPred.predict(branchPc, branchTaken)] *)
Definition mispredicted : M OOOCore bool :=
  c <- get ;;
  let b := fe_branch (oc_front c) in
  if br_pc b =? 0 then ret false
  else
    match predict BP_NB BP_HB BP_LB (br_pc b) (br_taken b) (fe_branchPred (oc_front c)) with
    | Ok (ok, bp) => mod_front (set_bp bp) ;; ret (negb ok)
    | Err e => fail e
    end.

Definition frontend (bblAddr : Z) (bblInfo : BblInfo) (lastCommitCycle : Z) : M CS unit :=
  c <- on_core get ;;
  let fetchCycle := u64 (fe_decodeCycle (oc_front c) - (DECODE_STAGE - FETCH_STAGE)) in
  miss <- on_core mispredicted ;;
  let b := fe_branch (oc_front c) in
  fetchCycle <-
    (if miss : bool then
       on_core (modify (fun c => set_stats (mkStats (st_instrs (oc_stats c)) (st_uops (oc_stats c)) (st_bbls (oc_stats c))
          (st_approxInstrs (oc_stats c)) (u64 (st_mispredBranches (oc_stats c) + 1))) c)) ;;
       wrong_path (Z.to_nat (5 * 64 / lineSize)) 0 (if br_taken b then br_notTakenNpc b else br_takenNpc b)
         fetchCycle lastCommitCycle ;;
       ret lastCommitCycle
     else ret fetchCycle) ;;
  on_core (mod_front (set_branch (mkBr 0 (br_taken b) (br_takenNpc b) (br_notTakenNpc b)))) ;;
  let endAddr := u64 (bblAddr + bi_bytes bblInfo) in
  fetchCycle <- fetch_bbl (Z.to_nat (bi_bytes bblInfo / lineSize + 1)) bblAddr endAddr fetchCycle ;;
  on_core (mod_front (fun f =>
    let decodeCycle := u64 (fe_decodeCycle f + 1) in
    let minFetchDecCycle := u64 (fetchCycle + (DECODE_STAGE - FETCH_STAGE)) in
    set_decode (if decodeCycle <? minFetchDecCycle then minFetchDecCycle else decodeCycle) f)).

(** ** [bbl] *)
Definition bbl (bblAddr : Z) (bblInfo : BblInfo) : M CS unit :=
  c <- on_core get ;;
  match fe_prevBbl (oc_front c) with
  | None =>
      on_core (mod_front (set_prevBbl (Some bblInfo))) ;;
      on_core (mod_lsu (fun x => set_addrs (ls_loadAddrs x) (ls_storeAddrs x) 0 0 x))
  | Some prev =>
      on_core (mod_front (set_prevBbl (Some bblInfo))) ;;
      r <- uop_loop (db_uop (bi_oooBbl prev)) 0 0 0 0 ;;
      let '(loadIdx, storeIdx, lastCommitCycle) := r in
      on_core (modify (fun c =>
        let s := oc_stats c in
        set_stats (mkStats (u64 (st_instrs s + bi_instrs prev)) (u64 (st_uops s + db_uops (bi_oooBbl prev)))
          (u64 (st_bbls s + 1)) (u64 (st_approxInstrs s + db_approxInstrs (bi_oooBbl prev)))
          (st_mispredBranches s)) c)) ;;
      c <- on_core get ;;
      on_core (assert_ "ooo_core.cpp:358" (loadIdx =? ls_loads (oc_lsu c))) ;;
      on_core (assert_ "ooo_core.cpp:359" (storeIdx =? ls_stores (oc_lsu c))) ;;
      on_core (mod_lsu (fun x => set_addrs (ls_loadAddrs x) (ls_storeAddrs x) 0 0 x)) ;;
      frontend bblAddr bblInfo lastCommitCycle
  end.

(** ** Clock *)

(** [advance] *)
Definition advance (targetCycle : Z) : M OOOCore unit :=
  c <- get ;;
  assert_ "ooo_core.cpp:473" (oc_curCycle c <? targetCycle) ;;
  mod_front (fun f => set_decode (u64 (fe_decodeCycle f + (targetCycle - oc_curCycle c))) f) ;;
  on_win (longAdvance WIN_H targetCycle) ;;
  mod_front (set_issue 0 0) ;;
  c <- get ;;
  assert_ "ooo_core.cpp:478" (targetCycle =? oc_curCycle c).

Definition join : M CS unit :=
  cur <- on_core curCycle ;;
  targetCycle <- on_env (rec_notifyJoin cur) ;;
  when (cur <? targetCycle) (on_core (advance targetCycle)) ;;
  e <- on_env get ;;
  on_core (modify (set_phaseEnd (u64 (env_globPhaseCycles e + phaseLength)))).

Definition leave : M CS unit :=
  cur <- on_core curCycle ;; on_env (rec_notifyLeave cur).

(** [cSimStart] and [cSimEnd] *)
Definition cSimStart : M CS unit :=
  cur <- on_core curCycle ;;
  targetCycle <- on_env (rec_cSimStart cur) ;;
  on_core (assert_ "ooo_core.cpp:462" (cur <=? targetCycle)) ;;
  when (cur <? targetCycle) (on_core (advance targetCycle)).

Definition cSimEnd : M CS unit :=
  cur <- on_core curCycle ;;
  targetCycle <- on_env (rec_cSimEnd cur) ;;
  on_core (assert_ "ooo_core.cpp:468" (cur <=? targetCycle)) ;;
  when (cur <? targetCycle) (on_core (advance targetCycle)).

Definition contextSwitch (gid : Z) : M CS unit :=
  when (gid =? -1)
    (on_core (mod_front (set_prevBbl None)) ;; on_env l1_contextSwitch).

Definition getPhaseCycles (c : OOOCore) : res Z := umod (oc_curCycle c) phaseLength.

End Core.
