(* ===== verification/OooCoreInv.v ===== *)
(** * The out-of-order core: invariant and the stages of a uop

    Every time stamp of the core is bounded by a horizon [T]; each stage of
    [uop_step] returns normally and moves the horizon by a bounded amount. *)

From stdpp Require Import base list strings.
From Stdlib Require Import ZArith Lia.
From S2P Require Import Prelude OooWindow OooWindowInv OooWindowOps OooWindowSpec OooQueues OooCore.
Local Open Scope Z_scope.

(** ** Time stamps in the queues *)

Definition stamp (T x : Z) : Prop := 0 <= x <= T.

Lemma stamps_mono T T' l : T <= T' -> Forall (stamp T) l -> Forall (stamp T') l.
Proof. intros HT Hf. eapply Forall_impl; [exact Hf|]. unfold stamp. simpl. lia. Qed.

Record ring_bnd (SZ T : Z) (buf : list Z) (idx : Z) : Prop := {
  rg_len : Z.of_nat (length buf) = SZ;
  rg_idx : 0 <= idx < SZ;
  rg_val : Forall (stamp T) buf
}.

Record rob_bnd (SZ T : Z) (rb : ReorderBuffer) : Prop := {
  rbb_ring : ring_bnd SZ T (rb_buf rb) (rb_idx rb);
  rbb_cyc : stamp T (rb_curRetireCycle rb);
  rbb_n : 0 <= rb_curCycleRetires rb <= RETIRE_W
}.

Lemma ring_bnd_mono SZ T T' buf idx : T <= T' -> ring_bnd SZ T buf idx -> ring_bnd SZ T' buf idx.
Proof. intros HT []. constructor; try done. by eapply stamps_mono. Qed.

Lemma rob_bnd_mono SZ T T' rb : T <= T' -> rob_bnd SZ T rb -> rob_bnd SZ T' rb.
Proof. intros HT [? [? ?] ?]. constructor; [by eapply ring_bnd_mono|split; lia|done]. Qed.

Lemma ring_oldest_ok SZ T buf idx : ring_bnd SZ T buf idx ->
  exists c, at_ buf (Z.to_nat idx) = Ok c /\ stamp T c.
Proof.
  intros []. destruct (lookup_lt_is_Some_2 buf (Z.to_nat idx)) as [c E]; [lia|].
  exists c. split; [by apply at_ok|]. exact (proj1 (Forall_lookup _ _) rg_val0 _ _ E).
Qed.

Lemma ring_push_bnd SZ T c buf idx : SZ < 2 ^ 31 -> ring_bnd SZ T buf idx -> stamp T c ->
  exists buf' idx', ring_push SZ c buf idx = Ok (buf', idx') /\ ring_bnd SZ T buf' idx'.
Proof.
  intros HS [] Hc. unfold ring_push. rewrite set_at_ok by lia. rewrite u32_id by (unfold in_u32; lia).
  eexists _, _. split; [done|]. constructor.
  - by rewrite length_insert.
  - destruct (Z.eqb_spec (idx + 1) SZ); lia.
  - by apply Forall_insert.
Qed.

Lemma markRetire_bnd SZ T m rb : SZ < 2 ^ 31 -> T < 2 ^ 62 -> rob_bnd SZ T rb -> stamp T m ->
  exists rb', markRetire SZ RETIRE_W m rb = Ok rb' /\ rob_bnd SZ (T + 1) rb' /\ m <= rb_curRetireCycle rb' /\
    rb_curRetireCycle rb <= rb_curRetireCycle rb'.
Proof.
  intros HS HT [Hr [Hc1 Hc2] Hn] [Hm1 Hm2]. unfold markRetire. set (cn := if m <=? _ then _ else _).
  assert (exists r n, cn = (r, n) /\ m <= r /\ rb_curRetireCycle rb <= r <= T + 1 /\ 0 <= n <= RETIRE_W) as
    (r & n & -> & Hr1 & Hr2 & Hn').
  { unfold cn, RETIRE_W in *. destruct (Z.leb_spec m (rb_curRetireCycle rb)); [destruct (Z.eqb_spec (rb_curCycleRetires rb) 4)|].
    - rewrite u64_id by (unfold in_u64; lia). eexists _, _. split; [done|]. lia.
    - rewrite u32_id by (unfold in_u32; lia). eexists _, _. split; [done|]. lia.
    - eexists _, _. split; [done|]. lia. }
  destruct (ring_push_bnd SZ (T + 1) r (rb_buf rb) (rb_idx rb)) as (buf & idx & -> & Hr'); [done| |split; lia|].
  { eapply ring_bnd_mono; [|done]. lia. }
  eexists. split; [done|]. split; [|simpl; lia]. constructor; simpl; [done|split; lia|done].
Qed.

Lemma ReorderBuffer_init_bnd SZ : 0 < SZ -> rob_bnd SZ 0 (ReorderBuffer_init SZ).
Proof.
  intros HS. constructor; simpl; [|split; lia|unfold RETIRE_W; lia].
  constructor; rewrite ?length_replicate; try lia. apply Forall_replicate. split; lia.
Qed.

(** ** The window *)

Section Win.
(** [ne]: no uop has extra slots. *)
Context (ne : bool).

Definition win_ok (T : Z) (s : WS) : Prop :=
  exists a, implements WIN_H WIN_SZ s.1 s.2 a /\ ends a T /\ s.2 <= T /\ (ne = true -> counted a).

Lemma win_sizes : 0 < WIN_H < 2 ^ 28 /\ 0 < WIN_SZ < 255.
Proof. unfold WIN_H, WIN_SZ. lia. Qed.

Lemma ends_mono a T T' : T <= T' -> ends a T -> ends a T'.
Proof. intros HT He t Ht Htt. apply He; lia. Qed.

Lemma win_mono T T' s : T <= T' -> win_ok T s -> win_ok T' s.
Proof. intros HT (a & ? & ? & ? & ?). exists a. split_and!; try done; [by eapply ends_mono|lia]. Qed.

Lemma win_cyc T s : win_ok T s -> 0 <= s.2 <= T.
Proof. intros (a & (Hw & _) & _ & ? & _). pose proof (wo_cyc _ _ _ _ Hw). lia. Qed.

Lemma win_tick T s : win_ok T s -> T < 2 ^ 61 ->
  wp (advancePos WIN_H) (fun _ s' => win_ok (Z.max T (s.2 + 1)) s' /\ s'.2 = s.2 + 1) s.
Proof.
  destruct s as [w cur]. intros (a & Hi & He & Hc & Hn) HT. destruct win_sizes as [HH HW].
  destruct (implements_tick _ _ HH HW w cur a Hi) as (w' & E & Hi' & _); [simpl in *; lia|].
  eapply ok_wp; [exact E|]. split; [|done]. exists (tick a). split; [done|]. split.
  - intros t Ht Htt. simpl in *. apply He; lia.
  - simpl. split; [lia|]. intros ?. by apply counted_tick, Hn.
Qed.

Lemma win_advanceN n : forall T s, win_ok T s -> T + Z.of_nat n < 2 ^ 61 ->
  wp (advanceN n) (fun _ s' => win_ok (Z.max T (s.2 + Z.of_nat n)) s' /\ s'.2 = s.2 + Z.of_nat n) s.
Proof.
  induction n as [|n IH]; intros T s Hw HT.
  - apply wp_ret. pose proof (win_cyc _ _ Hw). split; [|lia]. eapply win_mono; [|done]. lia.
  - simpl. apply wp_bind. eapply wp_mono; [apply (win_tick T); [done|lia]|].
    intros [] s1 [Hw1 Hc1]. pose proof (win_cyc _ _ Hw). eapply wp_mono; [apply (IH _ _ Hw1); lia|].
    intros [] s2 [Hw2 Hc2]. rewrite Hc1 in *. split; [|lia]. eapply win_mono; [|done]. lia.
Qed.

Lemma win_schedule T s sched portMask extraSlots :
  win_ok T s -> mask_ok portMask -> 0 <= extraSlots < 2 ^ 8 -> (ne = true -> extraSlots = 0) ->
  sched <= T -> T - s.2 < 2 ^ 30 -> T < 2 ^ 60 ->
  wp (schedule WIN_H WIN_SZ sched portMask extraSlots)
     (fun d s' => win_ok (T + 1 + extraSlots) s' /\ s.2 <= s'.2 <= d /\ sched <= d <= T) s.
Proof.
  destruct s as [w cur]. intros (a & Hi & He & Hc & Hn) Hm Hx Hnx Hs Hd HT. destruct win_sizes as [HH HW].
  destruct (schedule_ok _ _ HH HW portMask sched extraSlots w cur a T) as
    (s' & w' & cur' & a' & p & E & Hsp & Hi' & Hr & Hsr & He'); try done; try (simpl in *; lia).
  eapply ok_wp; [exact E|]. split; [|done]. exists a'. split; [done|]. split; [done|]. split; [simpl; lia|].
  intros Hne. rewrite Hnx in Hsp by done. eapply schedule_spec_counted; [done|]. by apply Hn.
Qed.

Lemma win_long T s target : ne = true -> win_ok T s -> s.2 <= target < 2 ^ 62 ->
  wp (longAdvance WIN_H target) (fun _ s' => win_ok (Z.max T target) s' /\ s'.2 = target) s.
Proof.
  destruct s as [w cur]. intros Hne (a & Hi & He & Hc & Hn) Ht. destruct win_sizes as [HH HW].
  pose proof (Hn Hne) as Hct.
  destruct (longAdvance_ok _ _ HH HW w cur a target Hi Hct Ht) as (w' & E & Hi').
  eapply ok_wp; [exact E|]. split; [|done]. exists (ticks (Z.to_nat (target - cur)) a). simpl in *.
  destruct Hi as (_ & Hca & _). pose proof Hi' as (_ & Hca' & _).
  split; [done|]. split; [|split; [lia|]].
  - intros t Htt HTt. rewrite ticks_entry. apply He; lia.
  - intros _ t Htt. rewrite ticks_entry. apply Hct. lia.
Qed.

End Win.

(** ** What the core needs of its environment

    A request is satisfied not before its cycle and within [L] cycles; the
    recorder takes every access, and moves the clock forward by at most [L]
    cycles between phases; [I] is the environment's own invariant. *)
Class EnvLaws (E : Type) `{LC : L1Caches E} `{RC : CoreRec E} (I : E -> Prop) (L : Z) : Prop := {
  el_lat : 0 <= L;
  el_fetch : forall a c e, I e -> in_u64 a -> 0 <= c < 2 ^ 62 ->
    wp (l1i_load a c) (fun r e' => I e' /\ c <= r <= c + L) e;
  el_load : forall a c e, I e -> in_u64 a -> 0 <= c < 2 ^ 62 ->
    wp (l1d_load a c) (fun r e' => I e' /\ c <= r <= c + L) e;
  el_store : forall a c e, I e -> in_u64 a -> 0 <= c < 2 ^ 62 ->
    wp (l1d_store a c) (fun r e' => I e' /\ c <= r <= c + L) e;
  el_record : forall cur d r e, I e -> 0 <= cur <= d -> d <= r -> wp (rec_record cur d r) (fun _ e' => I e') e;
  el_switch : forall e, I e -> wp l1_contextSwitch (fun _ e' => I e') e;
  el_leave : forall cur e, I e -> 0 <= cur -> wp (rec_notifyLeave cur) (fun _ e' => I e') e;
  el_join : forall cur e, I e -> 0 <= cur < 2 ^ 62 -> wp (rec_notifyJoin cur) (fun r e' => I e' /\ r <= cur + L) e;
  el_start : forall cur e, I e -> 0 <= cur < 2 ^ 62 ->
    wp (rec_cSimStart cur) (fun r e' => I e' /\ cur <= r <= cur + L) e;
  el_end : forall cur e, I e -> 0 <= cur < 2 ^ 62 ->
    wp (rec_cSimEnd cur) (fun r e' => I e' /\ cur <= r <= cur + L) e
}.

Section Inv.
Context {E : Type} `{LC : L1Caches E} `{RC : CoreRec E} (I : E -> Prop) (L : Z) `{EL : !EnvLaws E I L}.
Context (MAXR : Z) (ne : bool).

(** ** The invariant *)

Record front_ok (T : Z) (f : FrontEnd) : Prop := {
  fo_bp : bp_ok BP_NB BP_HB BP_LB (fe_branchPred f);
  fo_dec : DECODE_STAGE <= fe_decodeCycle f <= T;
  fo_uq : ring_bnd UOPQ_SZ T (cq_buf (fe_uopQueue f)) (cq_idx (fe_uopQueue f));
  fo_rf : 0 <= fe_curCycleRFReads f <= 3;
  fo_iss : 0 <= fe_curCycleIssuedUops f <= 4
}.

Record lsu_ok (T : Z) (x : Lsu) : Prop := {
  lo_la : length (ls_loadAddrs x) = 256%nat /\ Forall in_u64 (ls_loadAddrs x);
  lo_sa : length (ls_storeAddrs x) = 256%nat /\ Forall in_u64 (ls_storeAddrs x);
  lo_n : 0 <= ls_loads x <= 256 /\ 0 <= ls_stores x <= 256;
  lo_sc : stamp T (ls_lastStoreCommitCycle x);
  lo_sac : stamp T (ls_lastStoreAddrCommitCycle x);
  lo_lq : rob_bnd LSQ_SZ T (ls_loadQueue x);
  lo_sq : rob_bnd LSQ_SZ T (ls_storeQueue x);
  lo_fwd : Z.of_nat (length (ls_fwdArray x)) = FWD_ENTRIES /\ Forall (fun f => stamp T (fw_storeCycle f)) (ls_fwdArray x)
}.

Record core_ok (T : Z) (c : OOOCore) : Prop := {
  ck_win : win_ok ne T (oc_insWindow c, oc_curCycle c);
  ck_regs : Z.of_nat (length (oc_regScoreboard c)) = MAXR /\ Forall (stamp T) (oc_regScoreboard c);
  ck_rob : rob_bnd ROB_SZ T (oc_rob c);
  ck_front : front_ok T (oc_front c);
  ck_lsu : lsu_ok T (oc_lsu c)
}.

(** The decoder's uops. *)
Record uop_ok (u : DynUop) : Prop := {
  uo_rs : 0 <= u_rs0 u < MAXR /\ 0 <= u_rs1 u < MAXR;
  uo_rd : 0 <= u_rd0 u < MAXR /\ 0 <= u_rd1 u < MAXR;
  uo_lat : 0 <= u_lat u < 2 ^ 16;
  uo_mask : mask_ok (u_portMask u);
  uo_extra : 0 <= u_extraSlots u < 2 ^ 8;
  uo_ne : ne = true -> u_extraSlots u = 0
}.

Lemma front_ok_mono T T' f : T <= T' -> front_ok T f -> front_ok T' f.
Proof. intros HT []. constructor; try done; [lia|by eapply ring_bnd_mono]. Qed.

Lemma stamp_mono T T' x : T <= T' -> stamp T x -> stamp T' x.
Proof. unfold stamp. lia. Qed.

Lemma fwd_mono T T' l : T <= T' -> Forall (fun f => stamp T (fw_storeCycle f)) l -> Forall (fun f => stamp T' (fw_storeCycle f)) l.
Proof. intros HT Hf. eapply Forall_impl; [exact Hf|]. intros f. by apply stamp_mono. Qed.

Lemma lsu_ok_mono T T' x : T <= T' -> lsu_ok T x -> lsu_ok T' x.
Proof.
  intros HT [? ? ? ? ? ? ? [? ?]]. constructor; try done; try (by eapply stamp_mono); try (by eapply rob_bnd_mono).
  split; [done|]. by eapply fwd_mono.
Qed.

Lemma core_ok_mono T T' c : T <= T' -> core_ok T c -> core_ok T' c.
Proof.
  intros HT [? [? ?] ? ? ?]. constructor;
    [by eapply win_mono|split; [done|by eapply stamps_mono]|by eapply rob_bnd_mono|by eapply front_ok_mono|by eapply lsu_ok_mono].
Qed.

(** Changing one part keeps the others. *)
Lemma core_ok_front T c f : core_ok T c -> front_ok T f -> core_ok T (set_front f c).
Proof. intros [] Hf. by constructor. Qed.
Lemma core_ok_lsu T c x : core_ok T c -> lsu_ok T x -> core_ok T (set_lsu x c).
Proof. intros [] Hx. by constructor. Qed.
Lemma core_ok_win T c s : core_ok T c -> win_ok ne T s -> core_ok T (set_win s c).
Proof. destruct s. intros [] Hs. by constructor. Qed.
Lemma core_ok_regs T c r : core_ok T c -> Z.of_nat (length r) = MAXR -> Forall (stamp T) r -> core_ok T (set_regs r c).
Proof. intros [] Hl Hr. by constructor. Qed.
Lemma core_ok_rob T c r : core_ok T c -> rob_bnd ROB_SZ T r -> core_ok T (set_rob r c).
Proof. intros [] Hr. by constructor. Qed.

Lemma front_issue T f rf iss : front_ok T f -> 0 <= rf <= 3 -> 0 <= iss <= 4 -> front_ok T (set_issue rf iss f).
Proof. intros [] ? ?. by constructor. Qed.

Lemma core_cyc T c : core_ok T c -> 0 <= oc_curCycle c <= T.
Proof. intros Hc. apply (win_cyc ne T (oc_insWindow c, oc_curCycle c)), Hc. Qed.

(** The window's operations on the core. *)
Lemma wp_on_win {A} (m : M WS A) Q c :
  wp m (fun a s => Q a (set_win s c)) (oc_insWindow c, oc_curCycle c) -> wp (on_win m) Q c.
Proof. intros Hw. by apply wp_zoom. Qed.

Lemma core_tick T c : core_ok T c -> T < 2 ^ 61 ->
  wp (on_win (advancePos WIN_H)) (fun _ c' => core_ok (T + 1) c' /\ oc_curCycle c' = oc_curCycle c + 1 /\
    c' = set_win (oc_insWindow c', oc_curCycle c') c) c.
Proof.
  intros Hc HT. pose proof (core_cyc _ _ Hc). apply wp_on_win.
  eapply wp_mono; [apply (win_tick ne T); [apply Hc|done]|]. intros [] [w' cur'] [Hw Hcur]. simpl in *.
  split; [|split; [done|by subst]]. apply core_ok_win; [by eapply core_ok_mono; [|done]; lia|].
  eapply win_mono; [|done]. lia.
Qed.

(** ** The stages *)

(** The stages before execution change the window, the front end and entry 0 of
    the scoreboard. *)
Definition keeps (c c' : OOOCore) : Prop :=
  oc_curCycle c <= oc_curCycle c' /\ oc_rob c' = oc_rob c /\ oc_lsu c' = oc_lsu c /\ oc_stats c' = oc_stats c /\
  fe_branch (oc_front c') = fe_branch (oc_front c) /\ fe_prevBbl (oc_front c') = fe_prevBbl (oc_front c).

Lemma uop_decode_ok T c u prevDec :
  core_ok T c -> 0 <= prevDec <= u_decCycle u -> u_decCycle u - prevDec < 2 ^ 16 ->
  T - oc_curCycle c < 2 ^ 30 -> T < 2 ^ 60 ->
  wp (uop_decode u prevDec) (fun _ c' => core_ok (T + (u_decCycle u - prevDec)) c' /\
    keeps c c' /\ oc_regScoreboard c' = oc_regScoreboard c) c.
Proof.
  intros Hc Hp Hd Hg HT. set (D := u_decCycle u - prevDec) in *. pose proof (core_cyc _ _ Hc) as Hcyc.
  pose proof (ck_front _ _ Hc) as [Hbp Hdec Huq Hrf Hiss]. unfold DECODE_STAGE in Hdec.
  unfold uop_decode. apply wp_bind, wp_get. cbv zeta. fold D. rewrite u32_id by (unfold in_u32; lia).
  destruct (ring_oldest_ok _ _ _ _ Huq) as (m & Em & Hm). unfold stamp in Hm.
  apply wp_bind. eapply wp_lift; [exact Em|]. rewrite u64_id by (unfold in_u64; lia).
  set (dec := Z.max (fe_decodeCycle (oc_front c) + D) m).
  apply wp_bind, wp_modify. set (c1 := set_front _ c).
  assert (core_ok (T + D) c1) as Hc1.
  { apply core_ok_front; [eapply core_ok_mono; [|done]; lia|]. constructor; simpl; try done.
    - unfold DECODE_STAGE, dec. lia.
    - eapply ring_bnd_mono; [|done]. lia. }
  apply wp_bind.
  assert (wp (when (oc_curCycle c <? dec) (mod_front (set_issue 0 0) ;;
      on_win (advanceN (Z.to_nat (u32 (dec - oc_curCycle c))))))
    (fun _ c2 => core_ok (T + D) c2 /\ keeps c c2 /\ oc_regScoreboard c2 = oc_regScoreboard c) c1) as Hst.
  { apply wp_when; intros Hb; [|by split_and!]. apply Z.ltb_lt in Hb.
    rewrite u32_id by (unfold in_u32; lia). apply wp_bind, wp_modify. set (c2 := set_front _ c1).
    assert (core_ok (T + D) c2) as Hc2 by (apply core_ok_front; [done|apply front_issue; [apply Hc1|lia|lia]]).
    apply wp_on_win. eapply wp_mono; [apply (win_advanceN ne _ (T + D)); [apply Hc2|lia]|].
    intros [] [w' cur'] [Hw' Hcur']. simpl in *. split; [|split; [split_and!; [simpl; lia|done..]|done]].
    apply core_ok_win; [done|]. eapply win_mono; [|done]. unfold dec in *. lia. }
  eapply wp_mono; [exact Hst|]. intros [] c2 (Hc2 & Hk2 & Hr2).
  apply wp_bind, wp_gets, wp_bind, wp_get.
  pose proof (ck_front _ _ Hc2) as [Hbp2 Hdec2 Huq2 Hrf2 Hiss2]. pose proof (core_cyc _ _ Hc2).
  destruct (ring_push_bnd UOPQ_SZ (T + D) (oc_curCycle c2) _ _ ltac:(unfold UOPQ_SZ; lia) Huq2 ltac:(split; lia))
    as (buf & idx & Eq & Hq).
  apply wp_bind. eapply wp_lift; [unfold markLeave; rewrite Eq; reflexivity|].
  apply wp_modify. split; [|done]. apply core_ok_front; [done|]. by constructor.
Qed.

Lemma uop_issue_ok T c : core_ok T c -> T < 2 ^ 60 ->
  wp uop_issue (fun _ c' => core_ok (T + 1) c' /\ keeps c c' /\ oc_regScoreboard c' = oc_regScoreboard c) c.
Proof.
  intros Hc HT. unfold uop_issue. apply wp_bind, wp_get, wp_bind.
  assert (wp (when (ISSUES_PER_CYCLE <=? fe_curCycleIssuedUops (oc_front c))
      (mod_front (set_issue 0 0) ;; on_win (advancePos WIN_H)))
    (fun _ c1 => core_ok (T + 1) c1 /\ fe_curCycleIssuedUops (oc_front c1) <= 3 /\
       keeps c c1 /\ oc_regScoreboard c1 = oc_regScoreboard c) c) as Hst.
  { apply wp_when; intros Hb.
    - apply wp_bind, wp_modify. set (c1 := set_front _ c).
      assert (core_ok T c1) as Hc1 by (apply core_ok_front; [done|apply front_issue; [apply Hc|lia|lia]]).
      eapply wp_mono; [apply (core_tick _ _ Hc1); lia|]. intros [] c2 (Hc2 & Hcur & E2). rewrite E2 in *. simpl in *.
      split; [done|]. split; [lia|]. split; [split_and!; [simpl; lia|done..]|done].
    - apply Z.leb_gt in Hb. unfold ISSUES_PER_CYCLE in Hb. split; [eapply core_ok_mono; [|done]; lia|].
      split; [lia|]. done. }
  eapply wp_mono; [exact Hst|]. intros [] c1 (Hc1 & Hi & Hk). apply wp_modify. simpl.
  pose proof (ck_front _ _ Hc1) as Hf. pose proof (fo_iss _ _ Hf).
  split; [|done]. apply core_ok_front; [done|]. rewrite u32_id by (unfold in_u32; lia).
  apply front_issue; [done|apply Hf|lia].
Qed.

Lemma at_stamp T (l : list Z) i : Forall (stamp T) l -> 0 <= i < Z.of_nat (length l) ->
  exists x, l !! Z.to_nat i = Some x /\ at_ l (Z.to_nat i) = Ok x /\ stamp T x.
Proof.
  intros Hf Hi. destruct (lookup_lt_is_Some_2 l (Z.to_nat i)) as [x E0]; [lia|].
  exists x. split; [done|]. split; [by apply at_ok|]. exact (proj1 (Forall_lookup _ _) Hf _ _ E0).
Qed.

Lemma uop_operands_ok T c u : core_ok T c -> uop_ok u -> T < 2 ^ 60 ->
  wp (uop_operands u) (fun p c' => core_ok (T + 1) c' /\ keeps c c' /\
    oc_regScoreboard c' = <[0%nat := oc_curCycle c]> (oc_regScoreboard c) /\
    oc_regScoreboard c' !! Z.to_nat (u_rs0 u) = Some p.1 /\ oc_regScoreboard c' !! Z.to_nat (u_rs1 u) = Some p.2 /\
    stamp T p.1 /\ stamp T p.2) c.
Proof.
  intros Hc Hu HT. pose proof (core_cyc _ _ Hc) as Hcyc. destruct (ck_regs _ _ Hc) as [Hl Hr].
  destruct (uo_rs _ Hu) as [Hs0 Hs1]. set (regs := <[0%nat := oc_curCycle c]> (oc_regScoreboard c)).
  assert (Z.of_nat (length regs) = MAXR) as Hl' by (unfold regs; by rewrite length_insert).
  assert (Forall (stamp T) regs) as Hr' by (apply Forall_insert; [done|split; lia]).
  destruct (at_stamp T regs (u_rs0 u) Hr') as (c0 & E0 & E0' & Hc0); [lia|].
  destruct (at_stamp T regs (u_rs1 u) Hr') as (c1 & E1 & E1' & Hc1); [lia|].
  unfold uop_operands. apply wp_bind, wp_get. cbv zeta. apply wp_bind.
  eapply wp_lift; [apply set_at_ok; lia|]. fold regs. apply wp_bind, wp_modify.
  apply wp_bind. eapply wp_lift; [exact E0'|]. apply wp_bind. eapply wp_lift; [exact E1'|].
  apply wp_bind, wp_modify. set (rf := fun f : FrontEnd => _). set (c2 := set_front _ _).
  pose proof (ck_front _ _ Hc) as Hf. pose proof (fo_rf _ _ Hf) as Hrf.
  set (k := (if c0 <? oc_curCycle c then 1 else 0) + (if c1 <? oc_curCycle c then 1 else 0)).
  assert (0 <= k <= 2) as Hk by (unfold k; destruct (_ <? _), (c1 <? _); lia).
  assert (fe_curCycleRFReads (oc_front c2) = fe_curCycleRFReads (oc_front c) + k) as Erf.
  { simpl. fold k. apply u32_id. unfold in_u32. lia. }
  assert (core_ok T (set_regs regs c)) as Hcr by (by apply core_ok_regs).
  apply wp_bind, wp_get, wp_bind. rewrite Erf.
  assert (wp (when (RF_READS_PER_CYCLE <? fe_curCycleRFReads (oc_front c) + k)
      (mod_front (fun f => set_issue (u32 (fe_curCycleRFReads f - RF_READS_PER_CYCLE)) 0 f) ;; on_win (advancePos WIN_H)))
    (fun _ c' => core_ok (T + 1) c' /\ keeps c c' /\ oc_regScoreboard c' = regs) c2) as Hst.
  { unfold RF_READS_PER_CYCLE. apply wp_when; intros Hb.
    - apply Z.ltb_lt in Hb. apply wp_bind, wp_modify. cbv beta. rewrite Erf, u32_id by (unfold in_u32; lia). set (c3 := set_front _ _).
      assert (core_ok T c3) as Hc3.
      { unfold c3, c2, set_front. simpl. apply (core_ok_front _ _ _ Hcr). destruct Hf. constructor; simpl; try done; lia. }
      eapply wp_mono; [apply (core_tick _ _ Hc3); lia|]. intros [] c4 (Hc4 & Hcur & E4). rewrite E4 in *. simpl in *.
      split; [done|]. split; [split_and!; [simpl; lia|done..]|done].
    - apply Z.ltb_ge in Hb. split; [|split; [by split_and!|done]].
      eapply core_ok_mono; [|apply (core_ok_front T _ _ Hcr)]; [lia|].
      destruct Hf. simpl in Erf. fold k in Erf. constructor; simpl; try done. fold k. lia. }
  eapply wp_mono; [exact Hst|]. intros [] c' (Hc' & Hkp & Er). apply wp_ret. simpl. rewrite Er. by split_and!.
Qed.

Lemma uop_dispatch_ok T c u c0 c1 : core_ok T c -> uop_ok u -> stamp T c0 -> stamp T c1 ->
  T + 6 - oc_curCycle c < 2 ^ 30 -> T < 2 ^ 59 ->
  wp (uop_dispatch u c0 c1) (fun d c' => core_ok (T + 7 + u_extraSlots u) c' /\ keeps c c' /\
    oc_regScoreboard c' = oc_regScoreboard c /\ oc_curCycle c' <= d <= T + 6 /\ c0 <= d /\ c1 <= d /\
    oc_curCycle c + 6 <= d /\ exists c2, rob_minAllocCycle (oc_rob c) = Ok c2 /\ c2 + 6 <= d) c.
Proof.
  intros Hc Hu [H0 H0'] [H1 H1'] Hg HT. pose proof (core_cyc _ _ Hc) as Hcyc.
  destruct (ring_oldest_ok _ _ _ _ (rbb_ring _ _ _ (ck_rob _ _ Hc))) as (c2 & E2 & Hc2). unfold stamp in Hc2.
  unfold uop_dispatch. apply wp_bind, wp_get, wp_bind. eapply wp_lift; [exact E2|]. cbv zeta.
  unfold DISPATCH_STAGE, ISSUE_STAGE. change (13 - 7) with 6.
  rewrite u64_id by (unfold in_u64; lia). pose proof (uo_extra _ Hu) as Hx.
  apply wp_bind, wp_on_win.
  eapply wp_mono; [apply (win_schedule ne (T + 6))|]; [| | | |lia|simpl; lia|lia|]; try apply Hu.
  { eapply win_mono; [|apply Hc]. lia. }
  intros d [w' cur'] (Hw' & Hcur & Hd). simpl in Hcur. apply wp_bind, wp_gets, wp_bind.
  assert (core_ok (T + 7 + u_extraSlots u) (set_win (w', cur') c)) as Hc'.
  { apply core_ok_win; [eapply core_ok_mono; [|done]; lia|]. eapply win_mono; [|done]. lia. }
  apply wp_when; intros Hb; [apply wp_modify|]; apply wp_ret; split_and!; try done; try (simpl; lia).
  - apply core_ok_front; [done|]. apply front_issue; [apply Hc'|lia|lia].
  - split; [simpl; lia|done].
  - exists c2. split; [done|lia].
  - split; [simpl; lia|done].
  - exists c2. split; [done|lia].
Qed.

(** ** Execution *)

(** What execution changes: the load-store unit, but for its addresses. *)
Definition lsu_only (c c' : OOOCore) : Prop :=
  c' = set_lsu (oc_lsu c') c /\ ls_loads (oc_lsu c') = ls_loads (oc_lsu c) /\ ls_stores (oc_lsu c') = ls_stores (oc_lsu c) /\
  ls_loadAddrs (oc_lsu c') = ls_loadAddrs (oc_lsu c) /\ ls_storeAddrs (oc_lsu c') = ls_storeAddrs (oc_lsu c).

Lemma fwd_index_lt addr : in_u64 addr -> (fwd_index addr < 32)%nat.
Proof.
  intros Ha. unfold fwd_index, FWD_ENTRIES. change (32 - 1) with (Z.ones 5). rewrite Z.land_ones by lia.
  pose proof (Z.mod_pos_bound (Z.shiftr addr 2) (2 ^ 5) ltac:(lia)). lia.
Qed.

Lemma wp_on_core {A} (m : M OOOCore A) Q (s : @CS E) : wp m (fun a c => Q a (c, s.2)) s.1 -> wp (on_core m) Q s.
Proof. intros Hw. by apply wp_zoom. Qed.
Lemma wp_on_env {A} (m : M E A) Q (s : @CS E) : wp m (fun a e => Q a (s.1, e)) s.2 -> wp (on_env m) Q s.
Proof. intros Hw. by apply wp_zoom. Qed.

(** The cycle in which a memory uop is ready: a free place in its queue, and
    all earlier store addresses known. *)
Definition mem_ready (x : Lsu) (q d : Z) : Z := Z.max (ls_lastStoreAddrCommitCycle x + 1) (Z.max d q).

Lemma mem_ready_eq x q d T : stamp T (ls_lastStoreAddrCommitCycle x) -> T < 2 ^ 62 ->
  Z.max (u64 (ls_lastStoreAddrCommitCycle x + 1)) (if d <? q then q else d) = mem_ready x q d.
Proof.
  intros [? ?] HT. unfold mem_ready. rewrite u64_id by (unfold in_u64; lia). destruct (Z.ltb_spec d q); lia.
Qed.

Lemma exec_load_ok T c e li d : core_ok T c -> I e -> 0 <= li < 256 -> oc_curCycle c <= d <= T -> T + L < 2 ^ 59 ->
  wp (exec_load li d) (fun r s' => core_ok (T + L + 6) s'.1 /\ I s'.2 /\ lsu_only c s'.1 /\ stamp (T + L + 5) r /\
    exists addr q f, ls_loadAddrs (oc_lsu c) !! Z.to_nat li = Some addr /\
      rob_minAllocCycle (ls_loadQueue (oc_lsu c)) = Ok q /\ ls_fwdArray (oc_lsu c) !! fwd_index addr = Some f /\
      mem_ready (oc_lsu c) q d + (if addr =? NO_ADDR then 0 else L1D_LAT) <= r /\
      (fw_addr f = addr -> fw_storeCycle f <= r)) (c, e).
Proof.
  intros Hc He Hli Hd HT. pose proof (core_cyc _ _ Hc) as Hcyc. pose proof (el_lat (EnvLaws := EL)) as HL.
  pose proof (ck_lsu _ _ Hc) as Hx. set (x := oc_lsu c) in *.
  destruct (lo_la _ _ Hx) as [Hla Hla']. destruct (lo_fwd _ _ Hx) as [Hfl Hff]. unfold FWD_ENTRIES in Hfl.
  destruct (ring_oldest_ok _ _ _ _ (rbb_ring _ _ _ (lo_lq _ _ Hx))) as (q & Eq & Hq). unfold stamp in Hq.
  destruct (lookup_lt_is_Some_2 (ls_loadAddrs x) (Z.to_nat li)) as [addr Ea]; [lia|].
  pose proof (proj1 (Forall_lookup _ _) Hla' _ _ Ea) as Ha. simpl in Ha.
  destruct (lookup_lt_is_Some_2 (ls_fwdArray x) (fwd_index addr)) as [f Ef]; [pose proof (fwd_index_lt _ Ha); lia|].
  pose proof (proj1 (Forall_lookup _ _) Hff _ _ Ef) as Hf. simpl in Hf. unfold stamp in Hf.
  pose proof (lo_sac _ _ Hx) as Hsac. pose proof Hsac as [Hs1 Hs2].
  unfold exec_load. apply wp_bind, wp_on_core, wp_get. cbv zeta. cbn [fst snd]. fold x.
  apply wp_bind. eapply wp_lift; [exact Eq|]. rewrite (mem_ready_eq x q d T) by (done || lia).
  set (m := mem_ready x q d). assert (oc_curCycle c <= m <= T + 1 /\ d <= m) as Hm by (unfold m, mem_ready; lia).
  apply wp_bind. eapply wp_lift; [by apply at_ok|]. apply wp_bind.
  assert (wp (if negb (addr =? NO_ADDR) then
       r <- on_env (l1d_load addr m) ;; on_env (rec_record (oc_curCycle c) m (u64 (r + L1D_LAT))) ;;
       ret (u64 (r + L1D_LAT)) else ret m)
    (fun r s' => s'.1 = c /\ I s'.2 /\ m + (if addr =? NO_ADDR then 0 else L1D_LAT) <= r <= T + L + 5) (c, e)) as Hacc.
  { unfold L1D_LAT. destruct (addr =? NO_ADDR); simpl.
    - apply wp_ret. simpl. split_and!; try done; lia.
    - apply wp_bind, wp_on_env. eapply wp_mono; [apply el_load; [done|done|lia]|]. intros r e' [He' Hr].
      rewrite u64_id by (unfold in_u64; lia).
      apply wp_bind, wp_on_env. eapply wp_mono; [apply el_record; [done|lia|lia]|]. intros [] e2 He2.
      apply wp_ret. simpl. split_and!; try done; lia. }
  eapply wp_mono; [exact Hacc|]. intros r [c' e'] (Hc' & He' & Hr). simpl in Hc', He'. subst c'.
  apply wp_bind. eapply wp_lift; [by apply at_ok|]. set (commit := if fw_addr f =? addr then _ else _).
  assert (r <= commit <= T + L + 5 /\ (fw_addr f = addr -> fw_storeCycle f <= commit)) as [Hcm Hfw].
  { unfold commit. destruct (Z.eqb_spec (fw_addr f) addr); split; try done; lia. }
  assert (m <= r) by (unfold L1D_LAT in Hr; destruct (addr =? NO_ADDR); lia).
  destruct (markRetire_bnd LSQ_SZ (T + L + 5) commit (ls_loadQueue x)) as (lq & Elq & Hlq & _);
    [unfold LSQ_SZ; lia|lia|eapply rob_bnd_mono; [|apply Hx]; lia|split; lia|].
  apply wp_bind. eapply wp_lift; [exact Elq|]. apply wp_bind, wp_on_core, wp_modify, wp_ret. simpl fst. simpl snd.
  split; [|split; [done|split; [by split_and!|split; [split; lia|]]]].
  - apply core_ok_lsu; [eapply core_ok_mono; [|done]; lia|].
    assert (lsu_ok (T + L + 6) x) as [] by (eapply lsu_ok_mono; [|done]; lia).
    constructor; simpl; try done. by replace (T + L + 6) with (T + L + 5 + 1) by lia.
  - exists addr, q, f. split_and!; try done; lia.
Qed.

Lemma set_lsu_set x y c : set_lsu x (set_lsu y c) = set_lsu x c.
Proof. done. Qed.

Lemma exec_store_ok T c e si d : core_ok T c -> I e -> 0 <= si < 256 -> oc_curCycle c <= d <= T -> T + L < 2 ^ 59 ->
  wp (exec_store si d) (fun r s' => core_ok (T + L + 6) s'.1 /\ I s'.2 /\ lsu_only c s'.1 /\ stamp (T + L + 5) r /\
    exists addr q, ls_storeAddrs (oc_lsu c) !! Z.to_nat si = Some addr /\
      rob_minAllocCycle (ls_storeQueue (oc_lsu c)) = Ok q /\ mem_ready (oc_lsu c) q d + L1D_LAT <= r /\
      ls_fwdArray (oc_lsu s'.1) !! fwd_index addr = Some (mkFwd addr r) /\
      r <= ls_lastStoreCommitCycle (oc_lsu s'.1)) (c, e).
Proof.
  intros Hc He Hsi Hd HT. pose proof (core_cyc _ _ Hc) as Hcyc. pose proof (el_lat (EnvLaws := EL)) as HL.
  pose proof (ck_lsu _ _ Hc) as Hx. set (x := oc_lsu c) in *.
  destruct (lo_sa _ _ Hx) as [Hsa Hsa']. destruct (lo_fwd _ _ Hx) as [Hfl Hff]. unfold FWD_ENTRIES in Hfl.
  destruct (ring_oldest_ok _ _ _ _ (rbb_ring _ _ _ (lo_sq _ _ Hx))) as (q & Eq & Hq). unfold stamp in Hq.
  destruct (lookup_lt_is_Some_2 (ls_storeAddrs x) (Z.to_nat si)) as [addr Ea]; [lia|].
  pose proof (proj1 (Forall_lookup _ _) Hsa' _ _ Ea) as Ha. simpl in Ha. pose proof (fwd_index_lt _ Ha) as Hi.
  pose proof (lo_sac _ _ Hx) as Hsac. pose proof Hsac as [Hs1 Hs2]. pose proof (lo_sc _ _ Hx) as [Hsc1 Hsc2].
  unfold exec_store. apply wp_bind, wp_on_core, wp_get. cbv zeta. cbn [fst snd]. fold x.
  apply wp_bind. eapply wp_lift; [exact Eq|]. rewrite (mem_ready_eq x q d T) by (done || lia).
  set (m := mem_ready x q d). assert (oc_curCycle c <= m <= T + 1) as Hm by (unfold m, mem_ready; lia).
  apply wp_bind. eapply wp_lift; [by apply at_ok|]. apply wp_bind, wp_on_env.
  eapply wp_mono; [apply el_store; [done|done|lia]|]. intros r e' [He' Hr]. cbn [fst snd].
  rewrite (u64_id (r + L1D_LAT)) by (unfold in_u64, L1D_LAT; lia). unfold L1D_LAT in *.
  apply wp_bind, wp_on_env. eapply wp_mono; [apply el_record; [done|lia|lia]|]. intros [] e2 He2. cbn [fst snd].
  apply wp_bind. eapply wp_lift; [apply set_at_ok; lia|].
  apply wp_bind, wp_on_core, wp_modify, wp_bind, wp_on_core, wp_modify. cbn [fst snd].
  destruct (markRetire_bnd LSQ_SZ (T + L + 5) (r + 4) (ls_storeQueue x)) as (sq & Esq & Hsq & _);
    [unfold LSQ_SZ; lia|lia|eapply rob_bnd_mono; [|apply Hx]; lia|split; lia|].
  apply wp_bind. eapply wp_lift; [exact Esq|]. apply wp_bind, wp_on_core, wp_modify, wp_ret. cbn [fst snd].
  split; [|split; [done|split; [by split_and!|split; [split; lia|]]]].
  - rewrite !set_lsu_set. apply core_ok_lsu; [eapply core_ok_mono; [|done]; lia|].
    assert (lsu_ok (T + L + 6) x) as [] by (eapply lsu_ok_mono; [|done]; lia). unfold stamp in *.
    constructor; simpl; rewrite ?length_insert; fold x; try done; try (unfold stamp; lia).
    + by replace (T + L + 6) with (T + L + 5 + 1) by lia.
    + split; [done|]. apply Forall_insert; [by eapply fwd_mono; [|exact Hff]; lia|simpl; unfold stamp; lia].
  - exists addr, q. split_and!; try done; try lia.
    + simpl. rewrite list_lookup_insert_eq; [done|]. fold x. lia.
    + simpl. lia.
Qed.

(** The uops of each kind. *)
Definition is_load (u : DynUop) : Z := match u_type u with UOP_LOAD => 1 | _ => 0 end.
Definition is_store (u : DynUop) : Z := match u_type u with UOP_STORE => 1 | _ => 0 end.

(** When a uop that is dispatched in cycle [d] commits, and what later uops
    see of it. *)
Definition commit_spec (u : DynUop) (li si d r : Z) (x x' : Lsu) : Prop :=
  match u_type u with
  | UOP_GENERAL => r = d + u_lat u /\ x' = x
  | UOP_LOAD => exists addr q f, ls_loadAddrs x !! Z.to_nat li = Some addr /\
      rob_minAllocCycle (ls_loadQueue x) = Ok q /\ ls_fwdArray x !! fwd_index addr = Some f /\
      mem_ready x q d + (if addr =? NO_ADDR then 0 else L1D_LAT) <= r /\
      (fw_addr f = addr -> fw_storeCycle f <= r)
  | UOP_STORE => exists addr q, ls_storeAddrs x !! Z.to_nat si = Some addr /\
      rob_minAllocCycle (ls_storeQueue x) = Ok q /\ mem_ready x q d + L1D_LAT <= r /\
      ls_fwdArray x' !! fwd_index addr = Some (mkFwd addr r) /\ r <= ls_lastStoreCommitCycle x'
  | UOP_STORE_ADDR => r = d + u_lat u /\ r <= ls_lastStoreAddrCommitCycle x'
  | UOP_FENCE => r = d + u_lat u /\ r <= ls_lastStoreAddrCommitCycle x' /\
      ls_lastStoreCommitCycle x + u_lat u <= ls_lastStoreAddrCommitCycle x'
  end.

Lemma uop_execute_ok T c e u li si d : core_ok T c -> I e -> uop_ok u ->
  0 <= li -> li + is_load u <= 256 -> 0 <= si -> si + is_store u <= 256 -> oc_curCycle c <= d <= T -> T + L + u_lat u < 2 ^ 59 ->
  wp (uop_execute u li si d) (fun r s' => core_ok (T + L + u_lat u + 6) s'.1 /\ I s'.2 /\ lsu_only c s'.1 /\
    stamp (T + L + u_lat u + 5) r.1 /\ r.2 = (li + is_load u, si + is_store u) /\ d <= r.1 /\
    commit_spec u li si d r.1 (oc_lsu c) (oc_lsu s'.1)) (c, e).
Proof.
  intros Hc He Hu Hli Hli' Hsi Hsi' Hd HT. pose proof (core_cyc _ _ Hc) as Hcyc.
  pose proof (el_lat (EnvLaws := EL)) as HL. pose proof (uo_lat _ Hu) as Hlat.
  pose proof (ck_lsu _ _ Hc) as Hx. pose proof (lo_sac _ _ Hx) as [Hs1 Hs2]. pose proof (lo_sc _ _ Hx) as [Hc1 Hc2].
  assert (forall v, stamp (T + u_lat u) v ->
    core_ok (T + L + u_lat u + 6) (set_lsu (set_commits (ls_lastStoreCommitCycle (oc_lsu c)) v (oc_lsu c)) c)) as Hset.
  { intros v [Hv1 Hv2]. apply core_ok_lsu; [eapply core_ok_mono; [|done]; lia|].
    assert (lsu_ok (T + L + u_lat u + 6) (oc_lsu c)) as [] by (eapply lsu_ok_mono; [|done]; lia).
    constructor; simpl; try done. unfold stamp. lia. }
  unfold uop_execute, commit_spec, is_load, is_store in *. destruct (u_type u).
  - apply wp_ret. cbn [fst snd]. rewrite u64_id, !Z.add_0_r by (unfold in_u64; lia).
    split_and!; try done; try lia; [eapply core_ok_mono; [|done]; lia|by destruct c|unfold stamp; lia].
  - apply wp_bind. eapply wp_mono; [apply (exec_load_ok T); try done; lia|].
    intros r s' (Hc' & He' & Hlo & [Hr1 Hr2] & Hsp). apply wp_ret. cbn [fst snd].
    rewrite u32_id, Z.add_0_r by (unfold in_u32; lia). split; [eapply core_ok_mono; [|done]; lia|].
    split; [done|]. split; [done|]. split; [split; lia|]. split; [done|]. split; [|done].
    destruct Hsp as (addr & q & f & _ & _ & _ & Hm & _). unfold mem_ready, L1D_LAT in Hm. destruct (addr =? NO_ADDR); lia.
  - apply wp_bind. eapply wp_mono; [apply (exec_store_ok T); try done; lia|].
    intros r s' (Hc' & He' & Hlo & [Hr1 Hr2] & Hsp). apply wp_ret. cbn [fst snd].
    rewrite u32_id, Z.add_0_r by (unfold in_u32; lia). split; [eapply core_ok_mono; [|done]; lia|].
    split; [done|]. split; [done|]. split; [split; lia|]. split; [done|]. split; [|done].
    destruct Hsp as (addr & q & _ & _ & Hm & _). unfold mem_ready, L1D_LAT in Hm. lia.
  - cbv zeta. rewrite u64_id by (unfold in_u64; lia). apply wp_bind, wp_on_core, wp_modify, wp_ret. cbn [fst snd].
    rewrite !Z.add_0_r. split; [apply Hset; unfold stamp; lia|]. split_and!; try done; simpl; try lia. unfold stamp; lia.
  - cbv zeta. rewrite u64_id by (unfold in_u64; lia). apply wp_bind, wp_on_core, wp_modify, wp_ret. cbn [fst snd].
    rewrite (u64_id (ls_lastStoreCommitCycle (oc_lsu c) + u_lat u)), !Z.add_0_r by (unfold in_u64; lia).
    split; [apply Hset; unfold stamp; lia|]. split_and!; try done; simpl; try lia. unfold stamp; lia.
Qed.

Lemma uop_commit_ok T c u r : core_ok T c -> uop_ok u -> stamp T r -> T < 2 ^ 60 ->
  wp (uop_commit u r) (fun _ c' => core_ok (T + 1) c' /\ oc_curCycle c' = oc_curCycle c /\ oc_lsu c' = oc_lsu c /\
    oc_front c' = oc_front c /\ oc_stats c' = oc_stats c /\
    oc_regScoreboard c' = <[Z.to_nat (u_rd1 u) := r]> (<[Z.to_nat (u_rd0 u) := r]> (oc_regScoreboard c)) /\
    rb_curRetireCycle (oc_rob c) <= rb_curRetireCycle (oc_rob c') /\ r <= rb_curRetireCycle (oc_rob c')) c.
Proof.
  intros Hc Hu Hr HT. destruct (ck_regs _ _ Hc) as [Hl Hf]. destruct (uo_rd _ Hu) as [Hd0 Hd1].
  destruct (markRetire_bnd ROB_SZ T r (oc_rob c)) as (rob & Er & Hrob & Hm1 & Hm2); [unfold ROB_SZ; lia|lia|apply Hc|done|].
  unfold uop_commit. apply wp_bind, wp_get, wp_bind. eapply wp_lift; [exact Er|]. apply wp_bind, wp_modify.
  apply wp_bind. eapply wp_lift; [apply set_at_ok; lia|]. apply wp_bind.
  eapply wp_lift; [apply set_at_ok; rewrite length_insert; lia|]. apply wp_modify.
  split; [|by split_and!]. apply core_ok_regs; [apply core_ok_rob; [eapply core_ok_mono; [|done]; lia|done]|..].
  - by rewrite !length_insert.
  - eapply (stamps_mono T); [lia|]. by repeat apply Forall_insert.
Qed.
End Inv.
