(* ===== verification/OooCoreRun.v ===== *)
(** * The out-of-order core: basic blocks

    The loop over the uops of a block, the front end, [bbl] and the operations
    on the clock, from the stages of [OooCoreInv]. *)

From stdpp Require Import base list strings.
From Stdlib Require Import ZArith Lia.
From S2P Require Import Prelude OooWindow OooWindowInv OooWindowOps OooQueues OooCore OooCoreInv.
Local Open Scope Z_scope.

(** A computation on the core, then the rest. *)
Ltac core_bind := apply wp_bind, wp_on_core; cbn [fst snd].
Ltac env_bind := apply wp_bind, wp_on_env; cbn [fst snd].

Section Run.
Context {E : Type} `{LC : L1Caches E} `{RC : CoreRec E} (I : E -> Prop) (L : Z) `{EL : !EnvLaws E I L}.
Context (MAXR lineBits phaseLength : Z) (ne : bool).

(** Cycles a uop can add to the horizon. *)
Definition uop_cost (prevDec : Z) (u : DynUop) : Z := u_decCycle u - prevDec + u_lat u + u_extraSlots u + L + 16.

(** The operands of a uop: entry 0 of the scoreboard stands for none. *)
Definition waits_for (c : OOOCore) (rs d : Z) : Prop :=
  0 < rs -> forall v, oc_regScoreboard c !! Z.to_nat rs = Some v -> v <= d.

(** The order that one uop respects: it is dispatched after its operands are
    ready, six cycles after it is issued and a place in the reorder buffer is
    free; its result is ready when it commits; it retires in order. *)
Record uop_order (u : DynUop) (li si d r : Z) (c c' : OOOCore) : Prop := {
  or_ops : waits_for c (u_rs0 u) d /\ waits_for c (u_rs1 u) d;
  or_issue : oc_curCycle c + 6 <= d /\ oc_curCycle c' <= d;
  or_rob : exists c2, rob_minAllocCycle (oc_rob c) = Ok c2 /\ c2 + 6 <= d;
  or_commit : d <= r /\ commit_spec u li si d r (oc_lsu c) (oc_lsu c');
  or_result : oc_regScoreboard c' !! Z.to_nat (u_rd0 u) = Some r /\ oc_regScoreboard c' !! Z.to_nat (u_rd1 u) = Some r;
  or_retire : rb_curRetireCycle (oc_rob c) <= rb_curRetireCycle (oc_rob c') /\ r <= rb_curRetireCycle (oc_rob c')
}.

(** What the uops of a block leave alone. *)
Definition same_block (c c' : OOOCore) : Prop :=
  oc_curCycle c <= oc_curCycle c' /\ oc_stats c' = oc_stats c /\ fe_branch (oc_front c') = fe_branch (oc_front c) /\
  fe_prevBbl (oc_front c') = fe_prevBbl (oc_front c) /\
  ls_loads (oc_lsu c') = ls_loads (oc_lsu c) /\ ls_stores (oc_lsu c') = ls_stores (oc_lsu c) /\
  ls_loadAddrs (oc_lsu c') = ls_loadAddrs (oc_lsu c) /\ ls_storeAddrs (oc_lsu c') = ls_storeAddrs (oc_lsu c).

Lemma uop_step_ok T c e u prevDec li si : core_ok MAXR ne T c -> I e -> uop_ok MAXR ne u ->
  0 <= prevDec <= u_decCycle u -> u_decCycle u < 2 ^ 16 ->
  0 <= li -> li + is_load u <= 256 -> 0 <= si -> si + is_store u <= 256 ->
  T + uop_cost prevDec u - oc_curCycle c < 2 ^ 30 -> T + uop_cost prevDec u < 2 ^ 58 ->
  wp (uop_step u prevDec li si) (fun r s' => core_ok MAXR ne (T + uop_cost prevDec u) s'.1 /\ I s'.2 /\
    same_block c s'.1 /\ r.2 = (li + is_load u, si + is_store u) /\ stamp (T + uop_cost prevDec u) r.1.2 /\
    uop_order u li si r.1.1 r.1.2 c s'.1) (c, e).
Proof.
  intros Hc He Hu Hdec Hdec2 Hli Hli' Hsi Hsi' Hg HT. unfold uop_cost in *.
  pose proof (el_lat (EnvLaws := EL)) as HL. pose proof (uo_lat _ _ _ Hu) as Hlat. pose proof (uo_extra _ _ _ Hu) as Hx.
  pose proof (core_cyc _ _ _ _ Hc) as Hcyc. unfold uop_step.
  core_bind. eapply wp_mono; [apply (uop_decode_ok MAXR ne T); try done; lia|].
  intros [] c1 (Hc1 & Hk1 & Hr1). cbn [fst snd]. set (T1 := T + (u_decCycle u - prevDec)) in *.
  core_bind. eapply wp_mono; [apply (uop_issue_ok MAXR ne T1); [done|lia]|].
  intros [] c2 (Hc2 & Hk2 & Hr2). cbn [fst snd].
  core_bind. eapply wp_mono; [apply (uop_operands_ok MAXR ne (T1 + 1)); [done|done|lia]|].
  intros [v0 v1] c3 (Hc3 & Hk3 & Hr3 & E0 & E1 & Hs0 & Hs1). cbn [fst snd] in *.
  destruct Hk1 as (K1 & Kr1 & Kl1 & Ks1 & Kb1 & Kp1). destruct Hk2 as (K2 & Kr2 & Kl2 & Ks2 & Kb2 & Kp2).
  destruct Hk3 as (K3 & Kr3 & Kl3 & Ks3 & Kb3 & Kp3).
  core_bind. eapply wp_mono; [apply (uop_dispatch_ok MAXR ne (T1 + 1 + 1)); try done; try lia|].
  { eapply stamp_mono; [|done]. lia. }
  { eapply stamp_mono; [|done]. lia. }
  intros d c4 (Hc4 & (K4 & Kr4 & Kl4 & Ks4 & Kb4 & Kp4) & Hr4 & Hd & Hd0 & Hd1 & Hdc & (rm & Erm & Hrm)). cbn [fst snd].
  apply wp_bind. eapply wp_mono; [apply (uop_execute_ok I L MAXR ne (T1 + 1 + 1 + 7 + u_extraSlots u)); try done; lia|].
  intros [r [li' si']] [c5 e5] (Hc5 & He5 & Hlo & Hr & Hidx & Hdr & Hsp). cbn [fst snd] in *.
  destruct Hlo as (E5 & Ll & Ls & Lla & Lsa).
  core_bind. eapply wp_mono; [apply (uop_commit_ok MAXR ne (T1 + 1 + 1 + 7 + u_extraSlots u + L + u_lat u + 6)); try done|].
  { eapply stamp_mono; [|done]. lia. }
  { lia. }
  intros [] c6 (Hc6 & K6 & Kl6 & Kf6 & Ks6 & Kr6 & Krb1 & Krb2). apply wp_ret. cbn [fst snd].
  assert (oc_curCycle c5 = oc_curCycle c4 /\ oc_stats c5 = oc_stats c4 /\ oc_front c5 = oc_front c4 /\
    oc_rob c5 = oc_rob c4 /\ oc_regScoreboard c5 = oc_regScoreboard c4) as (J1 & J2 & J3 & J4 & J5) by (rewrite E5; done).
  split; [by replace (T + _) with (T1 + 1 + 1 + 7 + u_extraSlots u + L + u_lat u + 6 + 1) by (unfold T1; lia)|].
  split; [done|]. split; [split_and!; congruence || (rewrite ?K6, ?J1; lia)|]. split; [congruence|].
  split; [eapply stamp_mono; [|exact Hr]; unfold T1; lia|].
  destruct (uo_rd _ _ _ Hu) as [Hrd0 Hrd1]. destruct (ck_regs _ _ _ _ Hc5) as [Hlen _].
  assert (forall rs v, 0 < rs -> oc_regScoreboard c !! Z.to_nat rs = Some v -> oc_regScoreboard c3 !! Z.to_nat rs = Some v) as Hkeep.
  { intros rs v Hrs Ev. rewrite Hr3, list_lookup_insert_ne by lia. congruence. }
  split.
  - split; intros Hrs v Ev; apply Hkeep in Ev; [|done| |done]; [rewrite E0 in Ev|rewrite E1 in Ev]; simplify_eq; lia.
  - rewrite K6, J1. lia.
  - exists rm. split; [congruence|lia].
  - split; [done|]. rewrite Kl6. replace (oc_lsu c) with (oc_lsu c4) by congruence. done.
  - rewrite Kr6. rewrite list_lookup_insert_eq by (rewrite length_insert; lia). split; [|done].
    destruct (decide (Z.to_nat (u_rd0 u) = Z.to_nat (u_rd1 u))) as [->|Hne].
    + by rewrite list_lookup_insert_eq by (rewrite length_insert; lia).
    + rewrite list_lookup_insert_ne by done. by rewrite list_lookup_insert_eq by lia.
  - split; [|done]. rewrite J4 in Krb1. by replace (oc_rob c) with (oc_rob c4) by congruence.
Qed.

(** ** The uops of a block *)

Fixpoint uops_cost (prevDec : Z) (l : list DynUop) : Z :=
  match l with [] => 0 | u :: l' => uop_cost prevDec u + uops_cost (u_decCycle u) l' end.
Definition loads_of (l : list DynUop) : Z := foldr (fun u n => is_load u + n) 0 l.
Definition stores_of (l : list DynUop) : Z := foldr (fun u n => is_store u + n) 0 l.

(** The decoder numbers the decode cycles of a block upwards. *)
Fixpoint dec_ordered (prevDec : Z) (l : list DynUop) : Prop :=
  match l with
  | [] => True
  | u :: l' => 0 <= prevDec <= u_decCycle u /\ u_decCycle u < 2 ^ 16 /\ dec_ordered (u_decCycle u) l'
  end.

Lemma kinds_nonneg l : 0 <= loads_of l /\ 0 <= stores_of l.
Proof. induction l as [|u l IH]; simpl; [lia|]. unfold is_load, is_store. destruct (u_type u); lia. Qed.

Lemma uop_cost_nonneg prevDec u : uop_ok MAXR ne u -> prevDec <= u_decCycle u -> 0 <= uop_cost prevDec u.
Proof. intros [] Hd. pose proof (el_lat (EnvLaws := EL)). unfold uop_cost. lia. Qed.

Lemma uops_cost_nonneg l : forall prevDec, Forall (uop_ok MAXR ne) l -> dec_ordered prevDec l -> 0 <= uops_cost prevDec l.
Proof.
  induction l as [|u l IH]; intros prevDec Hl Hd; simpl in *; [lia|]. apply Forall_cons in Hl as [Hu Hl].
  destruct Hd as (Hd1 & Hd2 & Hd3). pose proof (uop_cost_nonneg prevDec u Hu). specialize (IH _ Hl Hd3). lia.
Qed.

Lemma uop_loop_ok l : forall T c e prevDec li si last, core_ok MAXR ne T c -> I e -> Forall (uop_ok MAXR ne) l ->
  dec_ordered prevDec l -> 0 <= li -> li + loads_of l <= 256 -> 0 <= si -> si + stores_of l <= 256 -> stamp T last ->
  T + uops_cost prevDec l - oc_curCycle c < 2 ^ 30 -> T + uops_cost prevDec l < 2 ^ 58 ->
  wp (uop_loop l prevDec li si last) (fun r s' => core_ok MAXR ne (T + uops_cost prevDec l) s'.1 /\ I s'.2 /\
    same_block c s'.1 /\ r.1 = (li + loads_of l, si + stores_of l) /\ stamp (T + uops_cost prevDec l) r.2) (c, e).
Proof.
  induction l as [|u l IH]; intros T c e prevDec li si last Hc He Hl Hd Hli Hli' Hsi Hsi' Hlast Hg HT; simpl.
  { apply wp_ret. cbn [fst snd]. rewrite !Z.add_0_r. by split_and!. }
  apply Forall_cons in Hl as [Hu Hl]. simpl in *. destruct Hd as (Hd1 & Hd2 & Hd3).
  pose proof (uop_cost_nonneg prevDec u Hu (proj2 Hd1)). pose proof (uops_cost_nonneg _ _ Hl Hd3).
  pose proof (kinds_nonneg l). apply wp_bind.
  assert (0 <= is_load u <= 1 /\ 0 <= is_store u <= 1) by (unfold is_load, is_store; destruct (u_type u); lia).
  eapply wp_mono; [apply (uop_step_ok T); try done; lia|].
  intros [[d r] [li' si']] [c1 e1] (Hc1 & He1 & Hsb & Hidx & Hr & _). cbn [fst snd] in *. simplify_eq.
  destruct Hsb as (B1 & B2 & B3 & B4 & B5 & B6 & B7 & B8).
  eapply wp_mono; [apply (IH (T + uop_cost prevDec u)); try done; lia|].
  intros [[li2 si2] last2] [c2 e2] (Hc2 & He2 & (C1 & C2 & C3 & C4 & C5 & C6 & C7 & C8) & Hidx2 & Hlast2). cbn [fst snd] in *. simplify_eq.
  rewrite !Z.add_assoc in *. split; [done|]. split; [done|]. split; [split_and!; congruence || lia|]. split; [|done].
  f_equal; lia.
Qed.

(** ** The front end *)

Context (HLB : 0 <= lineBits <= 12).

Lemma lineSize_range : 0 < lineSize lineBits <= 2 ^ 12.
Proof. unfold lineSize. rewrite Z.shiftl_1_l. split; [lia|]. apply Z.pow_le_mono_r; lia. Qed.

Lemma fetch_line_ok T c e addr : core_ok MAXR ne T c -> I e -> in_u64 addr -> T + L < 2 ^ 59 ->
  wp (fetch_line addr) (fun lat s' => s'.1 = c /\ I s'.2 /\ 0 <= lat <= L) (c, e).
Proof.
  intros Hc He Ha HT. pose proof (core_cyc _ _ _ _ Hc) as Hcyc. pose proof (el_lat (EnvLaws := EL)) as HL.
  unfold fetch_line. core_bind. apply wp_gets. cbn [fst snd]. env_bind.
  eapply wp_mono; [apply el_fetch; [done|done|lia]|]. intros r e' [He' Hr]. cbn [fst snd]. cbv zeta.
  rewrite (u64_id (r - _)) by (unfold in_u64; lia). rewrite u64_id by (unfold in_u64; lia). env_bind.
  eapply wp_mono; [apply el_record; [done|lia|lia]|]. intros [] e2 He2. apply wp_ret. cbn [fst snd]. split_and!; done || lia.
Qed.

Lemma wrong_path_ok n : forall T c e i w req last, core_ok MAXR ne T c -> I e -> T + L < 2 ^ 59 ->
  wp (wrong_path lineBits n i w req last) (fun _ s' => s'.1 = c /\ I s'.2) (c, e).
Proof.
  induction n as [|n IH]; intros T c e i w req last Hc He HT; simpl.
  { by apply wp_ret. }
  apply wp_bind. eapply wp_mono; [apply (fetch_line_ok T); [done|done|apply u64_range|done]|].
  intros lat [c' e'] (Ec & He' & Hlat). simpl in Ec, He'. subst c'. case_match; [by apply wp_ret|]. by apply (IH T).
Qed.

Lemma fetch_bbl_ok n : forall T c e addr end_ fc B, core_ok MAXR ne T c -> I e -> T + L < 2 ^ 59 ->
  in_u64 addr -> 0 <= end_ < 2 ^ 63 -> end_ - addr <= Z.of_nat n * lineSize lineBits -> 0 <= fc <= B -> B + Z.of_nat n * L < 2 ^ 60 ->
  wp (fetch_bbl lineBits n addr end_ fc) (fun r s' => s'.1 = c /\ I s'.2 /\ fc <= r <= B + Z.of_nat n * L) (c, e).
Proof.
  pose proof lineSize_range as Hls. pose proof (el_lat (EnvLaws := EL)) as HL.
  induction n as [|n IH]; intros T c e addr end_ fc B Hc He HT Ha Hend Hn Hfc HB; simpl.
  all: destruct (Z.ltb_spec addr end_); [|apply wp_ret; cbn [fst snd]; split_and!; try done; lia].
  { lia. }
  apply wp_bind. eapply wp_mono; [apply (fetch_line_ok T); done|].
  intros lat [c' e'] (Ec & He' & Hlat). simpl in Ec, He'. subst c'. unfold in_u64 in Ha.
  rewrite (u64_id (addr + _)), (u64_id (fc + lat)) by (unfold in_u64; lia).
  eapply wp_mono; [apply (IH T c e' _ _ _ (B + L)); try done; try lia|].
  { unfold in_u64. lia. }
  intros r [c2 e2] (Ec2 & He2 & Hr). simpl in Ec2, He2. subst c2. cbn [fst snd]. split_and!; try done; lia.
Qed.

Lemma mispredicted_ok T c : core_ok MAXR ne T c ->
  wp mispredicted (fun _ c' => core_ok MAXR ne T c' /\ c' = set_front (oc_front c') c /\
    fe_branch (oc_front c') = fe_branch (oc_front c) /\ fe_decodeCycle (oc_front c') = fe_decodeCycle (oc_front c) /\
    fe_prevBbl (oc_front c') = fe_prevBbl (oc_front c)) c.
Proof.
  intros Hc. unfold mispredicted. apply wp_bind, wp_get. cbv zeta. case_match.
  { apply wp_ret. split; [done|]. split; [by destruct c|done]. }
  pose proof (ck_front _ _ _ _ Hc) as Hf.
  destruct (predict_ok BP_NB BP_HB BP_LB ltac:(unfold BP_NB, BP_LB; lia) ltac:(unfold BP_LB, BP_HB; lia) ltac:(unfold BP_HB; lia)
    (br_pc (fe_branch (oc_front c))) (br_taken (fe_branch (oc_front c))) _ (fo_bp _ _ Hf)) as (h & k & _ & _ & _ & _ & -> & Hbp).
  apply wp_bind, wp_modify, wp_ret. split; [|done]. apply core_ok_front; [done|]. destruct Hf. by constructor.
Qed.

Definition bbl_lines (b : BblInfo) : Z := bi_bytes b / lineSize lineBits + 1.
Definition front_cost (b : BblInfo) : Z := bbl_lines b * L + 4.

(** The counters, but for the mispredictions. *)
Definition counters (c : OOOCore) : Z * Z * Z * Z :=
  (st_instrs (oc_stats c), st_uops (oc_stats c), st_bbls (oc_stats c), st_approxInstrs (oc_stats c)).

Definition fetch_ok (addr : Z) (b : BblInfo) : Prop := 0 <= addr /\ 0 <= bi_bytes b /\ addr + bi_bytes b < 2 ^ 63.

Lemma front_cost_ge b : 0 <= bi_bytes b -> 1 <= bbl_lines b /\ L <= bbl_lines b * L /\ bi_bytes b <= bbl_lines b * lineSize lineBits.
Proof.
  intros Hb. pose proof lineSize_range. pose proof (el_lat (EnvLaws := EL)). unfold bbl_lines.
  pose proof (Z.div_pos (bi_bytes b) (lineSize lineBits)). pose proof (Z.div_mod (bi_bytes b) (lineSize lineBits)).
  pose proof (Z.mod_pos_bound (bi_bytes b) (lineSize lineBits)). nia.
Qed.

Lemma frontend_ok T c e addr b last : core_ok MAXR ne T c -> I e -> stamp T last -> fetch_ok addr b ->
  T + front_cost b < 2 ^ 58 ->
  wp (frontend lineBits addr b last) (fun _ s' => core_ok MAXR ne (T + front_cost b) s'.1 /\ I s'.2 /\
    oc_curCycle s'.1 = oc_curCycle c /\ oc_lsu s'.1 = oc_lsu c /\ counters s'.1 = counters c /\
    fe_prevBbl (oc_front s'.1) = fe_prevBbl (oc_front c)) (c, e).
Proof.
  intros Hc He [Hl1 Hl2] (Ha & Hb & Hab) HT. pose proof (el_lat (EnvLaws := EL)) as HL. unfold front_cost in *.
  destruct (front_cost_ge b Hb) as (Hn1 & Hn2 & Hn3).
  pose proof (ck_front _ _ _ _ Hc) as Hf. pose proof (fo_dec _ _ Hf) as Hdec. unfold DECODE_STAGE in Hdec.
  unfold frontend. core_bind. apply wp_get. cbn [fst snd]. cbv zeta.
  unfold DECODE_STAGE, FETCH_STAGE. change (4 - 1) with 3. rewrite (u64_id (fe_decodeCycle (oc_front c) - 3)) by (unfold in_u64; lia).
  core_bind. eapply wp_mono; [by apply (mispredicted_ok T)|]. intros miss c1 (Hc1 & E1 & Hbr1 & Hd1 & Hp1). cbn [fst snd].
  apply wp_bind.
  set (c2 := if miss then set_stats (mkStats (st_instrs (oc_stats c1)) (st_uops (oc_stats c1)) (st_bbls (oc_stats c1))
          (st_approxInstrs (oc_stats c1)) (u64 (st_mispredBranches (oc_stats c1) + 1))) c1 else c1).
  assert (core_ok MAXR ne T c2 /\ oc_front c2 = oc_front c1 /\ oc_lsu c2 = oc_lsu c /\ oc_curCycle c2 = oc_curCycle c /\
    counters c2 = counters c) as (Hc2 & Hf2 & Hlsu2 & Hcur2 & Hcnt2).
  { unfold c2. destruct miss; rewrite E1; (split; [destruct Hc1; rewrite E1 in *; by constructor|by split_and!]). }
  eapply (wp_mono _ (fun fc s' => s'.1 = c2 /\ I s'.2 /\ 0 <= fc <= T)).
  { unfold c2. destruct miss; [|apply wp_ret; cbn [fst snd]; split_and!; done || lia].
    core_bind. apply wp_modify. cbn [fst snd]. apply wp_bind.
    eapply wp_mono; [apply (wrong_path_ok _ T); [exact Hc2|done|lia]|]. intros [] [c3 e3] [E3 He3].
    apply wp_ret. cbn [fst snd] in *. split_and!; try done; lia. }
  intros fc [c3 e3] (E3 & He3 & Hfc). simpl in E3, He3. subst c3.
  core_bind. apply wp_modify. cbn [fst snd]. set (c4 := set_front _ c2). rewrite u64_id by (unfold in_u64; lia). apply wp_bind.
  pose proof (ck_front _ _ _ _ Hc2) as Hf2'.
  assert (core_ok MAXR ne T c4) as Hc4 by (apply core_ok_front; [done|destruct Hf2'; by constructor]).
  fold (bbl_lines b).
  eapply wp_mono; [apply (fetch_bbl_ok _ T c4 e3 _ _ _ T); try done; try lia|].
  { unfold in_u64. lia. }
  intros fc' [c5 e5] (E5 & He5 & Hfc'). simpl in E5, He5. subst c5.
  apply wp_on_core, wp_modify. cbn [fst snd]. cbv zeta. rewrite Z2Nat.id in Hfc' by lia.
  split; [|split; [done|split; [done|split; [done|split; [done|simpl; congruence]]]]].
  apply core_ok_front; [eapply core_ok_mono; [|done]; lia|].
  pose proof (ck_front _ _ _ _ Hc4) as Hf4. pose proof (fo_dec _ _ Hf4) as Hdec4. unfold DECODE_STAGE in Hdec4.
  rewrite !u64_id by (unfold in_u64; lia).
  assert (front_ok (T + (bbl_lines b * L + 4)) (oc_front c4)) as [] by (eapply front_ok_mono; [|done]; lia).
  constructor; simpl; try done. unfold DECODE_STAGE. simpl in Hdec4. case_match; lia.
Qed.

(** ** [bbl] *)

Definition bbl_ok (b : BblInfo) : Prop :=
  let l := db_uop (bi_oooBbl b) in Forall (uop_ok MAXR ne) l /\ dec_ordered 0 l /\ loads_of l <= 256 /\ stores_of l <= 256.

(** The state between two blocks: the loads and stores of the block that has
    executed, but is not simulated yet, are as many as the decoder found. *)
Definition between (T : Z) (prev : option BblInfo) (s : @CS E) : Prop :=
  core_ok MAXR ne T s.1 /\ I s.2 /\ fe_prevBbl (oc_front s.1) = prev /\
  forall b, prev = Some b -> bbl_ok b /\ ls_loads (oc_lsu s.1) = loads_of (db_uop (bi_oooBbl b)) /\
    ls_stores (oc_lsu s.1) = stores_of (db_uop (bi_oooBbl b)).

Definition prev_cost (prev : option BblInfo) : Z :=
  match prev with Some p => uops_cost 0 (db_uop (bi_oooBbl p)) | None => 0 end.

(** What [bbl] adds to the counters. *)
Definition count_bbl (prev : option BblInfo) (c c' : OOOCore) : Prop :=
  counters c' =
    match prev with
    | None => counters c
    | Some p =>
        let '(i, u, b, a) := counters c in
        (u64 (i + bi_instrs p), u64 (u + db_uops (bi_oooBbl p)), u64 (b + 1), u64 (a + db_approxInstrs (bi_oooBbl p)))
    end.

Lemma lsu_reset T x : lsu_ok T x -> lsu_ok T (set_addrs (ls_loadAddrs x) (ls_storeAddrs x) 0 0 x).
Proof. intros []. by constructor; simpl. Qed.

Lemma core_ok_prev T c b : core_ok MAXR ne T c -> core_ok MAXR ne T (set_front (set_prevBbl b (oc_front c)) c).
Proof. intros Hc. apply core_ok_front; [done|]. destruct (ck_front _ _ _ _ Hc). by constructor. Qed.

Lemma bbl_run_ok T c e prev addr b : between T prev (c, e) -> fetch_ok addr b ->
  T + prev_cost prev + front_cost b - oc_curCycle c < 2 ^ 30 -> T + prev_cost prev + front_cost b < 2 ^ 57 ->
  wp (bbl lineBits addr b) (fun _ s' => core_ok MAXR ne (T + prev_cost prev + front_cost b) s'.1 /\ I s'.2 /\
    fe_prevBbl (oc_front s'.1) = Some b /\ ls_loads (oc_lsu s'.1) = 0 /\ ls_stores (oc_lsu s'.1) = 0 /\
    oc_curCycle c <= oc_curCycle s'.1 /\ count_bbl prev c s'.1) (c, e).
Proof.
  intros (Hc & He & Hprev & Hbk) Hfetch Hg HT. cbn [fst snd] in *. pose proof (core_cyc _ _ _ _ Hc) as Hcyc.
  pose proof (el_lat (EnvLaws := EL)) as HL. destruct (front_cost_ge b) as (Hn1 & Hn2 & Hn3); [apply Hfetch|].
  unfold bbl. core_bind. apply wp_get. cbn [fst snd]. rewrite Hprev. unfold prev_cost, front_cost in *.
  destruct prev as [p|].
  2:{ core_bind. apply wp_modify. cbn [fst snd]. apply wp_on_core, wp_modify. cbn [fst snd].
      split_and!; try done. eapply (core_ok_mono _ _ T); [lia|]. apply core_ok_lsu; [by apply core_ok_prev|].
      apply lsu_reset, Hc. }
  destruct (Hbk p eq_refl) as ((Hu & Hdec & Hnl & Hns) & Hl & Hs). set (l := db_uop (bi_oooBbl p)) in *.
  pose proof (uops_cost_nonneg _ _ Hu Hdec) as Hcost.
  core_bind. apply wp_modify. cbn [fst snd]. set (c1 := set_front _ c).
  assert (core_ok MAXR ne T c1) as Hc1 by (by apply core_ok_prev).
  apply wp_bind. eapply wp_mono; [apply (uop_loop_ok l T c1 e 0 0 0 0); try done; try lia; simpl; try lia|].
  { unfold stamp. lia. }
  intros [[li si] last] [c2 e2] (Hc2 & He2 & (B1 & B2 & B3 & B4 & B5 & B6 & B7 & B8) & Hidx & Hlast). cbn [fst snd] in *. simplify_eq.
  core_bind. apply wp_modify. cbn [fst snd]. set (c3 := set_stats _ c2).
  core_bind. apply wp_get. cbn [fst snd].
  core_bind. apply wp_assert; [simpl; rewrite B5, <- Hl; apply Z.eqb_refl|]. cbn [fst snd].
  core_bind. apply wp_assert; [simpl; rewrite B6, <- Hs; apply Z.eqb_refl|]. cbn [fst snd].
  core_bind. apply wp_modify. cbn [fst snd]. set (c4 := set_lsu _ c3).
  assert (core_ok MAXR ne (T + uops_cost 0 l) c4) as Hc4.
  { apply core_ok_lsu; [destruct Hc2; by constructor|]. apply lsu_reset, Hc2. }
  eapply wp_mono; [apply (frontend_ok (T + uops_cost 0 l)); try done; unfold front_cost; lia|].
  intros [] [c5 e5] (Hc5 & He5 & D1 & D2 & D3 & D4). cbn [fst snd] in *.
  split; [done|]. split; [done|]. split; [rewrite D4; simpl; by rewrite B4|].
  split; [by rewrite D2|]. split; [by rewrite D2|]. split; [rewrite D1; simpl in *; lia|].
  unfold count_bbl. rewrite D3. unfold counters. simpl. by rewrite B2.
Qed.

End Run.
