(* ===== verification/OooCoreSpec.v ===== *)
(** * The out-of-order core: runs

    Sequences of executed basic blocks and of the operations on the clock, from
    the constructor on, over every environment that satisfies [EnvLaws]. *)

From stdpp Require Import base list strings.
From Stdlib Require Import ZArith Lia.
From S2P Require Import Prelude OooWindow OooWindowInv OooWindowOps OooQueues OooCore OooCoreInv OooCoreRun.
Local Open Scope Z_scope.

(** A basic block as it executes: [BblFunc], then the calls of its loads and
    stores (a predicated one that does not execute is [NO_ADDR]), then the
    branch that ends it. *)
Record Block := mkBlock {
  bk_addr : Z;
  bk_info : BblInfo;
  bk_loads : list Z;
  bk_stores : list Z;
  bk_branch : option BranchInfo
}.

Inductive COp :=
| OpBlock (b : Block)
| OpJoin
| OpLeave
| OpCSimStart
| OpCSimEnd
| OpSwitch (gid : Z).

Section Spec.
Context {E : Type} `{LC : L1Caches E} `{RC : CoreRec E} (I : E -> Prop) (L : Z) `{EL : !EnvLaws E I L}.
Context (MAXR lineBits phaseLength : Z) (ne : bool).

Definition run_block (b : Block) : M CS unit :=
  bbl lineBits (bk_addr b) (bk_info b) ;;
  on_core (forM (bk_loads b) load) ;;
  on_core (forM (bk_stores b) store) ;;
  on_core (match bk_branch b with
           | Some i => branch (br_pc i) (br_taken i) (br_takenNpc i) (br_notTakenNpc i)
           | None => ret tt
           end).

Definition run_cop (o : COp) : M CS unit :=
  match o with
  | OpBlock b => run_block b
  | OpJoin => join phaseLength
  | OpLeave => leave
  | OpCSimStart => cSimStart
  | OpCSimEnd => cSimEnd
  | OpSwitch gid => contextSwitch gid
  end.

(** The loads and stores that execute are those the decoder found. *)
Definition block_ok (b : Block) : Prop :=
  let l := db_uop (bi_oooBbl (bk_info b)) in
  bbl_ok MAXR ne (bk_info b) /\ fetch_ok (bk_addr b) (bk_info b) /\
  Z.of_nat (length (bk_loads b)) = loads_of l /\ Forall in_u64 (bk_loads b) /\
  Z.of_nat (length (bk_stores b)) = stores_of l /\ Forall in_u64 (bk_stores b).

Definition moves_clock (o : COp) : bool :=
  match o with OpJoin | OpCSimStart | OpCSimEnd => true | _ => false end.

Definition cop_ok (o : COp) : Prop :=
  (moves_clock o = true -> ne = true) /\ match o with OpBlock b => block_ok b | _ => True end.

Definition after (prev : option BblInfo) (o : COp) : option BblInfo :=
  match o with
  | OpBlock b => Some (bk_info b)
  | OpSwitch gid => if gid =? -1 then None else prev
  | _ => prev
  end.

Definition cop_cost (prev : option BblInfo) (o : COp) : Z :=
  match o with
  | OpBlock b => prev_cost L prev + front_cost L lineBits (bk_info b)
  | _ => L
  end.

Fixpoint cops_cost (prev : option BblInfo) (l : list COp) : Z :=
  match l with [] => 0 | o :: l' => cop_cost prev o + cops_cost (after prev o) l' end.

(** The blocks whose execution is simulated. *)
Fixpoint simulated (prev : option BblInfo) (l : list COp) : list BblInfo :=
  match l with
  | [] => []
  | OpBlock b :: l' => option_list prev ++ simulated (Some (bk_info b)) l'
  | o :: l' => simulated (after prev o) l'
  end.

Definition count_step (n : Z * Z * Z * Z) (p : BblInfo) : Z * Z * Z * Z :=
  let '(i, u, b, a) := n in
  (u64 (i + bi_instrs p), u64 (u + db_uops (bi_oooBbl p)), u64 (b + 1), u64 (a + db_approxInstrs (bi_oooBbl p))).

(** ** The operations *)

(** What the calls between two [bbl]s leave alone. *)
Definition calm (c c' : OOOCore) : Prop :=
  oc_curCycle c' = oc_curCycle c /\ counters c' = counters c /\ fe_prevBbl (oc_front c') = fe_prevBbl (oc_front c).

Lemma loads_ok l : forall T c, core_ok MAXR ne T c -> Forall in_u64 l -> ls_loads (oc_lsu c) + Z.of_nat (length l) <= 256 ->
  wp (forM l load) (fun _ c' => core_ok MAXR ne T c' /\ calm c c' /\
    ls_loads (oc_lsu c') = ls_loads (oc_lsu c) + Z.of_nat (length l) /\ ls_stores (oc_lsu c') = ls_stores (oc_lsu c)) c.
Proof.
  induction l as [|a l IH]; intros T c Hc Hl Hn; simpl.
  { apply wp_ret. split_and!; done || lia. }
  apply Forall_cons in Hl as [Ha Hl]. simpl in Hn. pose proof (ck_lsu _ _ _ _ Hc) as Hx.
  destruct (lo_la _ _ Hx) as [H1 H2]. destruct (lo_n _ _ Hx) as [H3 _].
  apply wp_bind. unfold load at 1. apply wp_bind, wp_get. cbv zeta. apply wp_bind.
  eapply wp_lift; [apply set_at_ok; lia|]. rewrite u32_id by (unfold in_u32; lia). apply wp_modify.
  set (c1 := set_lsu _ c).
  assert (core_ok MAXR ne T c1) as Hc1.
  { apply core_ok_lsu; [done|]. destruct Hx. constructor; simpl; try done; [|lia].
    rewrite length_insert. split; [done|]. by apply Forall_insert. }
  eapply wp_mono; [apply (IH T c1 Hc1 Hl); simpl; lia|]. intros [] c2 (Hc2 & (A1 & A2 & A3) & A4 & A5). simpl in *.
  split_and!; try done; lia.
Qed.

Lemma stores_ok l : forall T c, core_ok MAXR ne T c -> Forall in_u64 l -> ls_stores (oc_lsu c) + Z.of_nat (length l) <= 256 ->
  wp (forM l store) (fun _ c' => core_ok MAXR ne T c' /\ calm c c' /\
    ls_stores (oc_lsu c') = ls_stores (oc_lsu c) + Z.of_nat (length l) /\ ls_loads (oc_lsu c') = ls_loads (oc_lsu c)) c.
Proof.
  induction l as [|a l IH]; intros T c Hc Hl Hn; simpl.
  { apply wp_ret. split_and!; done || lia. }
  apply Forall_cons in Hl as [Ha Hl]. simpl in Hn. pose proof (ck_lsu _ _ _ _ Hc) as Hx.
  destruct (lo_sa _ _ Hx) as [H1 H2]. destruct (lo_n _ _ Hx) as [_ H3].
  apply wp_bind. unfold store at 1. apply wp_bind, wp_get. cbv zeta. apply wp_bind.
  eapply wp_lift; [apply set_at_ok; lia|]. rewrite u32_id by (unfold in_u32; lia). apply wp_modify.
  set (c1 := set_lsu _ c).
  assert (core_ok MAXR ne T c1) as Hc1.
  { apply core_ok_lsu; [done|]. destruct Hx. constructor; simpl; try done; [|lia].
    rewrite length_insert. split; [done|]. by apply Forall_insert. }
  eapply wp_mono; [apply (IH T c1 Hc1 Hl); simpl; lia|]. intros [] c2 (Hc2 & (A1 & A2 & A3) & A4 & A5). simpl in *.
  split_and!; try done; lia.
Qed.

Lemma advance_ok T c target : ne = true -> core_ok MAXR ne T c -> oc_curCycle c < target <= oc_curCycle c + L -> T + L < 2 ^ 58 ->
  wp (advance target) (fun _ c' => core_ok MAXR ne (T + L) c' /\ oc_curCycle c' = target /\ oc_lsu c' = oc_lsu c /\
    counters c' = counters c /\ fe_prevBbl (oc_front c') = fe_prevBbl (oc_front c)) c.
Proof.
  intros Hne Hc Ht HT. pose proof (core_cyc _ _ _ _ Hc) as Hcyc.
  pose proof (ck_front _ _ _ _ Hc) as Hf. pose proof (fo_dec _ _ Hf) as Hdec. unfold DECODE_STAGE in Hdec.
  unfold advance. apply wp_bind, wp_get, wp_bind, wp_assert; [apply Z.ltb_lt; lia|]. apply wp_bind, wp_modify. cbv beta.
  rewrite u64_id by (unfold in_u64; lia). set (c1 := set_front _ c).
  assert (core_ok MAXR ne (T + L) c1) as Hc1.
  { apply core_ok_front; [eapply core_ok_mono; [|done]; lia|].
    assert (front_ok (T + L) (oc_front c)) as [] by (eapply front_ok_mono; [|done]; lia).
    constructor; simpl; try done. unfold DECODE_STAGE. lia. }
  apply wp_bind, wp_on_win. eapply wp_mono; [apply (win_long ne (T + L)); [done|apply Hc1|simpl; lia]|].
  intros [] [w' cur'] [Hw Hcur]. simpl in Hcur. subst cur'. apply wp_bind, wp_modify. set (c2 := set_front _ _).
  apply wp_bind, wp_get, wp_assert; [simpl; apply Z.eqb_refl|]. split; [|done].
  apply core_ok_front; [apply core_ok_win; [done|eapply win_mono; [|done]; lia]|].
  apply front_issue; [apply Hc1|lia|lia].
Qed.

(** The clock moves to where the recorder says. *)
Lemma advance_to T c target : ne = true -> core_ok MAXR ne T c -> target <= oc_curCycle c + L -> T + L < 2 ^ 58 ->
  wp (when (oc_curCycle c <? target) (advance target)) (fun _ c' => core_ok MAXR ne (T + L) c' /\
    oc_curCycle c <= oc_curCycle c' /\ target <= oc_curCycle c' /\ oc_lsu c' = oc_lsu c /\ counters c' = counters c /\
    fe_prevBbl (oc_front c') = fe_prevBbl (oc_front c)) c.
Proof.
  intros Hne Hc Ht HT. pose proof (el_lat (EnvLaws := EL)). apply wp_when; intros Hb.
  - apply Z.ltb_lt in Hb. eapply wp_mono; [apply (advance_ok T); try done; lia|].
    intros [] c' (A1 & A2 & A3 & A4 & A5). split_and!; try done; lia.
  - apply Z.ltb_ge in Hb. split; [eapply core_ok_mono; [|done]; lia|]. split_and!; done || lia.
Qed.

(** ** Runs *)

Context (HLB : 0 <= lineBits <= 12).

Lemma cop_cost_nonneg prev o : (forall b, prev = Some b -> bbl_ok MAXR ne b) -> cop_ok o -> 0 <= cop_cost prev o.
Proof.
  intros Hp [_ Ho]. pose proof (el_lat (EnvLaws := EL)) as HL. destruct o as [b| | | | |]; simpl; try lia.
  destruct Ho as (_ & Hf & _). destruct (front_cost_ge I L lineBits HLB (bk_info b)) as (_ & ? & _); [apply Hf|].
  unfold front_cost, prev_cost. destruct prev as [p|]; [|lia].
  destruct (Hp p eq_refl) as (Hu & Hd & _). pose proof (uops_cost_nonneg I L MAXR ne _ 0 Hu Hd). lia.
Qed.

Lemma run_block_ok T c e prev b : between I MAXR ne T prev (c, e) -> block_ok b ->
  T + cop_cost prev (OpBlock b) - oc_curCycle c < 2 ^ 30 -> T + cop_cost prev (OpBlock b) < 2 ^ 57 ->
  wp (run_block b) (fun _ s' => between I MAXR ne (T + cop_cost prev (OpBlock b)) (Some (bk_info b)) s' /\
    oc_curCycle c <= oc_curCycle s'.1 /\
    counters s'.1 = fold_left count_step (option_list prev) (counters c)) (c, e).
Proof.
  intros Hb (Hok & Hf & Hl1 & Hl2 & Hs1 & Hs2) Hg HT. simpl cop_cost in *. unfold run_block.
  rewrite Z.add_assoc in *. set (T' := T + prev_cost L prev + front_cost L lineBits (bk_info b)) in *.
  apply wp_bind. eapply wp_mono; [apply (bbl_run_ok I L MAXR lineBits ne HLB T); try done|].
  intros [] [c1 e1] (Hc1 & He1 & Hp1 & Hn1 & Hn2 & Hcur1 & Hct1). fold T' in Hc1. cbn [fst snd] in *.
  destruct Hok as (Hu & Hd & Hnl & Hns).
  core_bind. eapply wp_mono; [apply (loads_ok _ T' c1 Hc1 Hl2); lia|]. intros [] c2 (Hc2 & (A1 & A2 & A3) & A4 & A5). cbn [fst snd].
  core_bind. eapply wp_mono; [apply (stores_ok _ T' c2 Hc2 Hs2); lia|]. intros [] c3 (Hc3 & (B1 & B2 & B3) & B4 & B5). cbn [fst snd].
  apply wp_on_core. cbn [fst snd].
  eapply (wp_mono _ (fun _ c4 => core_ok MAXR ne T' c4 /\ calm c3 c4 /\ oc_lsu c4 = oc_lsu c3)).
  { destruct (bk_branch b) as [i|]; [apply wp_modify|by apply wp_ret]. split; [|done].
    apply core_ok_front; [done|]. destruct (ck_front _ _ _ _ Hc3). by constructor. }
  intros [] c4 (Hc4 & (D1 & D2 & D3) & D4). cbn [fst snd]. split.
  - split; [done|]. split; [done|]. cbn [fst snd]. split; [congruence|]. intros b' [= <-]. split; [done|]. rewrite D4. lia.
  - split; [lia|]. rewrite D2, B2, A2. unfold count_bbl in Hct1. rewrite Hct1. by destruct prev.
Qed.

(** The core moves to the cycle the recorder returned. *)
Definition moved_to (T : Z) (c : OOOCore) (e : E) (s' : CS) : Prop :=
  core_ok MAXR ne (T + L) s'.1 /\ s'.2 = e /\ oc_curCycle c <= oc_curCycle s'.1 /\ oc_lsu s'.1 = oc_lsu c /\
  counters s'.1 = counters c /\ fe_prevBbl (oc_front s'.1) = fe_prevBbl (oc_front c).

Lemma move_clock_ok T c e r : ne = true -> core_ok MAXR ne T c -> r <= oc_curCycle c + L -> T + L < 2 ^ 58 ->
  wp (when (oc_curCycle c <? r) (on_core (advance r))) (fun _ => moved_to T c e) (c, e).
Proof.
  intros Hne Hc Hr HT. pose proof (advance_to T c r Hne Hc Hr HT) as Hadv. unfold when in *.
  destruct (oc_curCycle c <? r); [apply wp_on_core|apply wp_ret]; cbn [fst snd].
  - eapply wp_mono; [exact Hadv|]. intros [] c1 (A1 & A2 & A3 & A4 & A5 & A6). by split_and!.
  - pose proof (el_lat (EnvLaws := EL)). split; [eapply core_ok_mono; [|done]; lia|]. split_and!; done || (simpl; lia).
Qed.

Lemma between_moved T c e e' prev s' : between I MAXR ne T prev (c, e) -> I e' -> moved_to T c e' s' ->
  between I MAXR ne (T + L) prev s'.
Proof.
  intros (Hc & He & Hp & Hb) He' (A1 & A2 & A3 & A4 & A5 & A6). cbn [fst snd] in *.
  split; [done|]. split; [by rewrite A2|]. by rewrite A4, A6.
Qed.

Lemma between_mono T T' prev s : T <= T' -> between I MAXR ne T prev s -> between I MAXR ne T' prev s.
Proof. intros HT (? & ? & ?). split; [by eapply core_ok_mono|done]. Qed.

(** The two operations around the weave phase. *)
Lemma csim_ok T c e prev w (m : Z -> M E Z) : ne = true -> between I MAXR ne T prev (c, e) -> T + L < 2 ^ 57 ->
  (wp (m (oc_curCycle c)) (fun r e' => I e' /\ oc_curCycle c <= r <= oc_curCycle c + L) e) ->
  wp (cur <- on_core curCycle ;; target <- on_env (m cur) ;; on_core (assert_ w (cur <=? target)) ;;
      when (cur <? target) (on_core (advance target)))
     (fun _ s' => between I MAXR ne (T + L) prev s' /\ oc_curCycle c <= oc_curCycle s'.1 /\ counters s'.1 = counters c) (c, e).
Proof.
  intros Hne Hb HT Hm. pose proof Hb as (Hc & _). core_bind. apply wp_gets. cbn [fst snd]. env_bind.
  eapply wp_mono; [exact Hm|]. intros r e1 [He1 Hr]. cbn [fst snd]. core_bind. apply wp_assert; [apply Z.leb_le; lia|].
  cbn [fst snd]. eapply wp_mono; [apply (move_clock_ok T); try done; lia|].
  intros [] s' Hmv. split; [by eapply between_moved|]. destruct Hmv as (_ & _ & ? & _ & ? & _). done.
Qed.

(** An operation that is not a block. *)
Lemma clock_op_ok T c e prev o : between I MAXR ne T prev (c, e) -> cop_ok o -> (forall b, o <> OpBlock b) -> T + L < 2 ^ 57 ->
  wp (run_cop o) (fun _ s' => between I MAXR ne (T + L) (after prev o) s' /\ oc_curCycle c <= oc_curCycle s'.1 /\
    counters s'.1 = counters c) (c, e).
Proof.
  intros Hb [Hne _] Hno HT. pose proof Hb as (Hc & He & Hp & Hbk). pose proof (core_cyc _ _ _ _ Hc) as Hcyc.
  pose proof (el_lat (EnvLaws := EL)) as HL. cbn [fst snd] in *.
  destruct o as [b| | | | |gid]; simpl.
  - by destruct (Hno b).
  - unfold join. core_bind. apply wp_gets. cbn [fst snd]. env_bind. eapply wp_mono; [apply el_join; [done|lia]|].
    intros r e1 [He1 Hr]. cbn [fst snd]. apply wp_bind.
    eapply wp_mono; [apply (move_clock_ok T); [by apply Hne|done|lia|lia]|]. intros [] [c2 e2] Hmv.
    pose proof (between_moved _ _ _ _ _ _ Hb He1 Hmv) as (A1 & A2 & A3). destruct Hmv as (_ & _ & M1 & _ & M2 & _).
    env_bind. apply wp_get. cbn [fst snd] in *. apply wp_on_core, wp_modify. cbn [fst snd]. split; [|by split].
    split; [|done]. destruct A1. by constructor.
  - unfold leave. core_bind. apply wp_gets. cbn [fst snd]. apply wp_on_env. cbn [fst snd].
    eapply wp_mono; [apply el_leave; [done|lia]|]. intros [] e1 He1. cbn [fst snd]. split; [|split; [lia|done]].
    apply (between_mono T); [lia|]. by split.
  - apply (csim_ok T); [by apply Hne|done|lia|]. apply el_start; [done|lia].
  - apply (csim_ok T); [by apply Hne|done|lia|]. apply el_end; [done|lia].
  - unfold contextSwitch, when. destruct (gid =? -1).
    + core_bind. apply wp_modify. cbn [fst snd]. apply wp_on_env. cbn [fst snd].
      eapply wp_mono; [by apply el_switch|]. intros [] e1 He1. cbn [fst snd]. split; [|split; [simpl; lia|done]].
      apply (between_mono T); [lia|]. split; [by apply core_ok_prev|]. split; [done|]. split; [done|]. by intros b.
    + apply wp_ret. split; [by apply (between_mono T); [lia|]|]. split; [simpl; lia|done].
Qed.

Lemma after_bbl_ok prev o b : (forall p, prev = Some p -> bbl_ok MAXR ne p) -> cop_ok o -> after prev o = Some b -> bbl_ok MAXR ne b.
Proof.
  intros Hp [_ Ho] Eb. destruct o as [k| | | | |gid]; simpl in Eb; try (by apply Hp).
  - simplify_eq. apply Ho.
  - destruct (gid =? -1); [done|by apply Hp].
Qed.

Lemma cops_cost_nonneg l : forall prev, (forall p, prev = Some p -> bbl_ok MAXR ne p) -> Forall cop_ok l -> 0 <= cops_cost prev l.
Proof.
  induction l as [|o l IH]; intros prev Hp Hl; simpl; [lia|]. apply Forall_cons in Hl as [Ho Hl].
  pose proof (cop_cost_nonneg prev o Hp Ho).
  assert (0 <= cops_cost (after prev o) l); [|lia]. apply IH; [|done]. intros p. by apply after_bbl_ok.
Qed.

Lemma run_cop_ok T c e prev o l : between I MAXR ne T prev (c, e) -> cop_ok o ->
  T + cop_cost prev o - oc_curCycle c < 2 ^ 30 -> T + cop_cost prev o < 2 ^ 57 ->
  wp (run_cop o) (fun _ s' => between I MAXR ne (T + cop_cost prev o) (after prev o) s' /\
    oc_curCycle c <= oc_curCycle s'.1 /\
    fold_left count_step (simulated (after prev o) l) (counters s'.1) =
    fold_left count_step (simulated prev (o :: l)) (counters c)) (c, e).
Proof.
  intros Hb Ho Hg HT. destruct o as [b| | | | |gid].
  - eapply wp_mono; [apply (run_block_ok T); try done; apply Ho|].
    intros [] s' (A1 & A2 & A3). split; [done|]. split; [done|]. rewrite A3. simpl. by rewrite fold_left_app.
  - eapply wp_mono; [by apply (clock_op_ok T)|]. intros [] s' (A1 & A2 & ->). done.
  - eapply wp_mono; [by apply (clock_op_ok T)|]. intros [] s' (A1 & A2 & ->). done.
  - eapply wp_mono; [by apply (clock_op_ok T)|]. intros [] s' (A1 & A2 & ->). done.
  - eapply wp_mono; [by apply (clock_op_ok T)|]. intros [] s' (A1 & A2 & ->). done.
  - eapply wp_mono; [by apply (clock_op_ok T)|]. intros [] s' (A1 & A2 & ->). done.
Qed.

Lemma run_cops_ok l : forall T c e prev, between I MAXR ne T prev (c, e) -> Forall cop_ok l ->
  T + cops_cost prev l - oc_curCycle c < 2 ^ 30 -> T + cops_cost prev l < 2 ^ 57 ->
  wp (forM l run_cop) (fun _ s' => core_ok MAXR ne (T + cops_cost prev l) s'.1 /\ I s'.2 /\
    oc_curCycle c <= oc_curCycle s'.1 /\
    counters s'.1 = fold_left count_step (simulated prev l) (counters c)) (c, e).
Proof.
  induction l as [|o l IH]; intros T c e prev Hb Hl Hg HT.
  { apply wp_ret. cbn [fst snd cops_cost simulated fold_left]. rewrite Z.add_0_r. destruct Hb as (? & ? & _). split_and!; done || lia. }
  apply Forall_cons in Hl as [Ho Hl]. cbn [cops_cost forM] in *.
  assert (forall p, prev = Some p -> bbl_ok MAXR ne p) as Hp by (intros p Ep; destruct Hb as (_ & _ & _ & Hb); by apply Hb).
  pose proof (cops_cost_nonneg l (after prev o) (fun p => after_bbl_ok prev o p Hp Ho) Hl).
  apply wp_bind. eapply wp_mono; [apply (run_cop_ok T c e prev o l); try done; lia|].
  intros [] [c1 e1] (Hb1 & Hcur & Hcnt). cbn [fst snd] in *.
  eapply wp_mono; [apply (IH (T + cop_cost prev o) c1 e1 (after prev o)); try done; lia|].
  intros [] s' (A1 & A2 & A3 & A4). rewrite <- Hcnt, <- A4, Z.add_assoc. split_and!; done || lia.
Qed.

End Spec.

(** ** The constructor *)

Lemma OOOCore_init_ok MAXR phaseLength ne : 0 < MAXR -> core_ok MAXR ne 4 (OOOCore_init MAXR phaseLength).
Proof.
  intros HM. constructor; simpl.
  - exists (mkTab (fun _ => wc_empty) 0 0). simpl. destruct win_sizes as [HH HW]. split; [|split; [by intros t|split; [lia|by intros _ t _ ?]]].
    split; [by apply Window_init_ok|]. split; [done|]. split; [done|]. intros t _. by apply (Window_init_slot WIN_H WIN_SZ).
  - rewrite length_replicate. split; [lia|]. apply Forall_replicate. unfold stamp. lia.
  - eapply (rob_bnd_mono _ 0); [lia|]. by apply ReorderBuffer_init_bnd.
  - constructor; simpl; unfold DECODE_STAGE; try lia.
    + apply BranchPredictorPAg_ok; unfold BP_NB, BP_HB, BP_LB; lia.
    + apply (ring_bnd_mono UOPQ_SZ 0 4 _ _ ltac:(lia) (rbb_ring _ _ _ (ReorderBuffer_init_bnd UOPQ_SZ ltac:(done)))).
  - assert (rob_bnd LSQ_SZ 4 (ReorderBuffer_init LSQ_SZ)) by (eapply (rob_bnd_mono _ 0); [lia|by apply ReorderBuffer_init_bnd]).
    constructor; simpl; unfold stamp; try lia; try done.
    + split; [done|]. apply (Forall_replicate _ 256%nat). unfold in_u64. lia.
    + split; [done|]. apply (Forall_replicate _ 256%nat). unfold in_u64. lia.
    + split; [done|]. apply (Forall_replicate _ (Z.to_nat FWD_ENTRIES)). simpl. unfold stamp. lia.
Qed.

(** ** An environment for every behaviour

    The latencies of all requests and the delays of all phases, in the order in
    which the core asks for them; no record is pending. *)
Definition Oracle : Type := list Z.
Definition next_latency : M Oracle Z := fun l => match l with [] => Ok (0, []) | x :: l' => Ok (x, l') end.
Definition later (c : Z) : M Oracle Z := x <- next_latency ;; ret (c + x).

#[global] Instance oracle_caches : L1Caches Oracle :=
  {| l1i_load _ c := later c; l1d_load _ c := later c; l1d_store _ c := later c; l1_contextSwitch := ret tt |}.
#[global] Instance oracle_rec : CoreRec Oracle :=
  {| rec_record _ _ _ := ret tt; rec_notifyJoin c := later c; rec_notifyLeave _ := ret tt;
     rec_cSimStart c := later c; rec_cSimEnd c := later c; env_globPhaseCycles _ := 0 |}.

Lemma later_ok L c l : 0 <= L -> Forall (stamp L) l -> wp (later c) (fun r l' => Forall (stamp L) l' /\ c <= r <= c + L) l.
Proof.
  intros HL Hl. unfold later, next_latency. apply wp_bind. unfold wp. destruct Hl as [|x l [? ?] Hl]; simpl; split; done || lia.
Qed.

#[global] Instance oracle_laws L : TCEq (0 <=? L) true -> EnvLaws Oracle (Forall (stamp L)) L.
Proof.
  rewrite TCEq_eq. intros HL%Z.leb_le.
  split; try done; simpl; intros; try (by apply later_ok); try (by apply wp_ret).
  eapply wp_mono; [by apply later_ok|]. intros r l' [? ?]. split; [done|lia].
Qed.

(** ** Claims *)

(** C14 (safety): over every memory that answers within [L] cycles, and every
    recorder that moves the clock by at most [L] cycles, every sequence of
    the two following kinds runs on the core without a failed assertion, an access
    outside an array or an exhausted loop, as long as it stays below 2^30 cycles;
    every block but the last is simulated once, and the counters are those of the
    simulated blocks.  With [ne] the sequence has basic blocks whose uops have no
    extra slots, joins, leaves, phase boundaries ([cSimStart], [cSimEnd]) and
    context switches.  Without, uops may have extra slots, as those of divisions
    have, and the sequence has blocks, leaves and context switches, but nothing
    that moves the clock: no join, [cSimStart] or [cSimEnd]. *)
Theorem core_runs {E} `{LC : L1Caches E} `{RC : CoreRec E} (I : E -> Prop) (L MAXR lineBits phaseLength : Z) ne ops e :
  EnvLaws E I L -> 0 < MAXR -> 0 <= lineBits <= 12 -> I e -> Forall (cop_ok MAXR ne) ops ->
  4 + cops_cost L lineBits None ops < 2 ^ 30 ->
  exists c' e', forM ops (run_cop lineBits phaseLength) (OOOCore_init MAXR phaseLength, e) = Ok (tt, (c', e')) /\ I e' /\
    counters c' = fold_left count_step (simulated None ops) (0, 0, 0, 0).
Proof.
  intros EL HM HLB He Hops HC. pose proof (OOOCore_init_ok MAXR phaseLength ne HM) as Hc.
  assert (wp (forM ops (run_cop lineBits phaseLength))
    (fun _ s' => I s'.2 /\ counters s'.1 = fold_left count_step (simulated None ops) (0, 0, 0, 0))
    (OOOCore_init MAXR phaseLength, e)) as Hw.
  { eapply wp_mono; [apply (run_cops_ok I L MAXR lineBits phaseLength ne HLB ops 4 _ e None); try done|].
    - simpl. lia.
    - lia.
    - intros [] s' (_ & A2 & _ & A4). done. }
  apply wp_ok in Hw as ([] & [c' e'] & Hrun & Hi & Hcnt). by exists c', e'.
Qed.

(** A block: a load, an operation on its result, and a store of it. *)
Definition example_bbl : BblInfo :=
  mkBbl 3 12 (mkDynBbl 0
    [mkUop 5 0 6 0 0 1 UOP_LOAD 4 0; mkUop 6 7 6 0 1 1 UOP_GENERAL 35 0;
     mkUop 5 0 8 0 1 2 UOP_STORE_ADDR 8 0; mkUop 6 8 0 0 0 2 UOP_STORE 16 0]).
Definition example_block : Block := mkBlock 4198400 example_bbl [65536] [65536] (Some (mkBr 4198408 true 4198400 4198412)).
Definition example_ops : list COp :=
  [OpJoin; OpBlock example_block; OpBlock example_block; OpCSimStart; OpCSimEnd; OpBlock example_block; OpLeave; OpSwitch (-1)].

Lemma example_bbl_ok : bbl_ok 16 true example_bbl.
Proof.
  split; [|split; [simpl; lia|vm_compute; done]].
  repeat constructor; simpl; unfold mask_ok; lia || done.
Qed.

Lemma example_block_ok : block_ok 16 true example_block.
Proof.
  split; [apply example_bbl_ok|]. split; [unfold fetch_ok; simpl; lia|].
  split_and!; try done; repeat constructor; unfold in_u64; lia.
Qed.

Lemma example_ops_ok : Forall (cop_ok 16 true) example_ops.
Proof. repeat (constructor; [split; [done|]; first [exact I | apply example_block_ok]|]). constructor. Qed.

Lemma core_runs_witness :
  exists c' e', forM example_ops (run_cop 6 10000) (OOOCore_init 16 10000, [20; 7; 100; 3] : Oracle) = Ok (tt, (c', e')) /\
    Forall (stamp 1000) e' /\ counters c' = fold_left count_step (simulated None example_ops) (0, 0, 0, 0).
Proof.
  apply (core_runs (Forall (stamp 1000)) 1000 16 6 10000 true example_ops ([20; 7; 100; 3] : Oracle)).
  - apply _.
  - lia.
  - lia.
  - repeat constructor; lia.
  - apply example_ops_ok.
  - vm_compute. reflexivity.
Defined.

(** C22 (functional): a uop is dispatched after its operands are ready, six
    cycles after issue and after the uop 128 places earlier has retired; it
    commits after its latency, a load after every earlier store address is
    known, after its place in the load queue is free and after the last store
    to the same word; its result is ready when it commits, and it retires no
    earlier than it commits and than the uops before it. *)
Theorem uop_respects_order {E} `{LC : L1Caches E} `{RC : CoreRec E} (I : E -> Prop) (L MAXR : Z) ne T c e u prevDec li si :
  EnvLaws E I L -> core_ok MAXR ne T c -> I e -> uop_ok MAXR ne u ->
  0 <= prevDec <= u_decCycle u -> u_decCycle u < 2 ^ 16 ->
  0 <= li -> li + is_load u <= 256 -> 0 <= si -> si + is_store u <= 256 ->
  T + uop_cost L prevDec u - oc_curCycle c < 2 ^ 30 -> T + uop_cost L prevDec u < 2 ^ 58 ->
  exists d r c' e', uop_step u prevDec li si (c, e) = Ok (d, r, (li + is_load u, si + is_store u), (c', e')) /\
    uop_order u li si d r c c' /\ core_ok MAXR ne (T + uop_cost L prevDec u) c'.
Proof.
  intros EL Hc He Hu Hd Hd2 Hl Hl2 Hs Hs2 Hg HT.
  pose proof (uop_step_ok I L MAXR ne T c e u prevDec li si Hc He Hu Hd Hd2 Hl Hl2 Hs Hs2 Hg HT) as Hw.
  apply wp_ok in Hw as ([[d r] [li' si']] & [c' e'] & Hrun & Hc' & _ & _ & Hidx & _ & Hord). cbn [fst snd] in *.
  simplify_eq. by exists d, r, c', e'.
Qed.

Lemma uop_respects_order_witness :
  let u := mkUop 6 7 6 0 1 1 UOP_GENERAL 35 0 in
  exists d r c' e', uop_step u 0 0 0 (OOOCore_init 16 10000, [] : Oracle) =
      Ok (d, r, (0 + is_load u, 0 + is_store u), (c', e')) /\
    uop_order u 0 0 d r (OOOCore_init 16 10000) c' /\ core_ok 16 true (4 + uop_cost 1000 0 u) c'.
Proof.
  apply (uop_respects_order (Forall (stamp 1000)) 1000 16 true 4).
  - apply _.
  - by apply OOOCore_init_ok.
  - constructor.
  - constructor; simpl; unfold mask_ok; lia || done.
  - simpl. lia.
  - simpl. lia.
  - lia.
  - vm_compute. done.
  - lia.
  - vm_compute. done.
  - vm_compute. done.
  - vm_compute. done.
Defined.
