(* ===== verification/Scheduler.v ===== *)
(** * The scheduler ([src/src/scheduler.h], [scheduler.cpp], [intrusive_list.h])

    Simulated threads share the cores: a thread that joins gets a context (a
    core), or waits in the run queue; a thread that leaves keeps its context
    until another one needs it; threads sleep until a phase; at the end of a
    quantum contexts are handed to queued threads.  The barrier of
    [barrier.h] calls the scheduler back at the end of a phase.

    This file has the data and the operations, each as the sections of code
    that run under [schedLock].  The state is the barrier with the scheduler
    as its callee, so that an operation of the barrier may run the callback in
    the middle of an operation of the scheduler. *)

From stdpp Require Import base list gmap strings.
From Stdlib Require Import ZArith Lia.
From S2P Require Import Prelude Barrier.
Local Open Scope Z_scope.

(** ** Data *)

Module Th.
Inductive ThreadState := STARTED | RUNNING | OUT | BLOCKED | SLEEPING | QUEUED.
#[export] Instance ThreadState_eq_dec : EqDecision ThreadState.
Proof. solve_decision. Defined.
End Th.
Export (hints) Th.

Inductive ContextState := IDLE | USED.
#[export] Instance ContextState_eq_dec : EqDecision ContextState.
Proof. solve_decision. Defined.

Inductive FutexJoinAction := FJA_NONE | FJA_WAKE | FJA_WAIT.
#[export] Instance FutexJoinAction_eq_dec : EqDecision FutexJoinAction.
Proof. solve_decision. Defined.

Record FutexJoinInfo := mkFJ { fj_action : FutexJoinAction; fj_maxWakes : Z; fj_wokenUp : Z }.

Record FakeLeaveInfo := mkFake { fl_pc : Z; fl_syscallNumber : Z; fl_arg0 : Z; fl_arg1 : Z }.

(** The lists of threads; [owner] of an [InListNode] points to one of them. *)
Inductive Queue := RunQ | OutQ | SleepQ.
#[export] Instance Queue_eq_dec : EqDecision Queue.
Proof. solve_decision. Defined.

(** [ThreadInfo]; a pointer to one is a number.  The ids of the host's threads
    are only used to look into [/proc]. *)
Record ThreadInfo := mkTh {
  th_gid : Z;
  th_state : Th.ThreadState;
  th_cid : nat;
  th_handoffThread : option nat;
  th_futexWord : Z;
  th_needsJoin : bool;
  th_markedForSleep : bool;
  th_wakeupPhase : Z;
  th_mask : list bool;
  th_fakeLeave : option FakeLeaveInfo;
  th_futexJoin : FutexJoinInfo;
  th_owner : option Queue
}.

Definition th_set_state (v : Th.ThreadState) (t : ThreadInfo) : ThreadInfo :=
  mkTh (th_gid t) v (th_cid t) (th_handoffThread t) (th_futexWord t) (th_needsJoin t) (th_markedForSleep t)
    (th_wakeupPhase t) (th_mask t) (th_fakeLeave t) (th_futexJoin t) (th_owner t).
Definition th_set_cid (v : nat) (t : ThreadInfo) : ThreadInfo :=
  mkTh (th_gid t) (th_state t) v (th_handoffThread t) (th_futexWord t) (th_needsJoin t) (th_markedForSleep t)
    (th_wakeupPhase t) (th_mask t) (th_fakeLeave t) (th_futexJoin t) (th_owner t).
Definition th_set_handoff (v : option nat) (t : ThreadInfo) : ThreadInfo :=
  mkTh (th_gid t) (th_state t) (th_cid t) v (th_futexWord t) (th_needsJoin t) (th_markedForSleep t)
    (th_wakeupPhase t) (th_mask t) (th_fakeLeave t) (th_futexJoin t) (th_owner t).
Definition th_set_futex (v : Z) (t : ThreadInfo) : ThreadInfo :=
  mkTh (th_gid t) (th_state t) (th_cid t) (th_handoffThread t) v (th_needsJoin t) (th_markedForSleep t)
    (th_wakeupPhase t) (th_mask t) (th_fakeLeave t) (th_futexJoin t) (th_owner t).
Definition th_set_needsJoin (v : bool) (t : ThreadInfo) : ThreadInfo :=
  mkTh (th_gid t) (th_state t) (th_cid t) (th_handoffThread t) (th_futexWord t) v (th_markedForSleep t)
    (th_wakeupPhase t) (th_mask t) (th_fakeLeave t) (th_futexJoin t) (th_owner t).
Definition th_set_sleep (m : bool) (w : Z) (t : ThreadInfo) : ThreadInfo :=
  mkTh (th_gid t) (th_state t) (th_cid t) (th_handoffThread t) (th_futexWord t) (th_needsJoin t) m
    w (th_mask t) (th_fakeLeave t) (th_futexJoin t) (th_owner t).
Definition th_set_fake (v : option FakeLeaveInfo) (t : ThreadInfo) : ThreadInfo :=
  mkTh (th_gid t) (th_state t) (th_cid t) (th_handoffThread t) (th_futexWord t) (th_needsJoin t) (th_markedForSleep t)
    (th_wakeupPhase t) (th_mask t) v (th_futexJoin t) (th_owner t).
Definition th_set_futexJoin (v : FutexJoinInfo) (t : ThreadInfo) : ThreadInfo :=
  mkTh (th_gid t) (th_state t) (th_cid t) (th_handoffThread t) (th_futexWord t) (th_needsJoin t) (th_markedForSleep t)
    (th_wakeupPhase t) (th_mask t) (th_fakeLeave t) v (th_owner t).
Definition th_set_owner (v : option Queue) (t : ThreadInfo) : ThreadInfo :=
  mkTh (th_gid t) (th_state t) (th_cid t) (th_handoffThread t) (th_futexWord t) (th_needsJoin t) (th_markedForSleep t)
    (th_wakeupPhase t) (th_mask t) (th_fakeLeave t) (th_futexJoin t) v.

(** [ContextInfo]; [cx_free]: its [owner] is [freeList]. *)
Record ContextInfo := mkCx { cx_state : ContextState; cx_curThread : option nat; cx_free : bool }.

(** The cores, as the scheduler sees them, and the actions at the end of a
    phase. *)
Class CoreOps (C : Type) := {
  core_join : nat -> M C unit;
  core_leave : nat -> M C unit;
  core_contextSwitch : nat -> Z -> M C unit;
  atSyncFunc : M C unit
}.

Record Clock := mkClock { ck_curPhase : Z; ck_numPhases : Z; ck_globPhaseCycles : Z }.
Record FutexState := mkFutex { fx_maxAllowed : Z; fx_unmatched : Z }.

Record Sched (C G : Type) := mkSched {
  sc_threads : gmap nat ThreadInfo;
  sc_fresh : nat;
  sc_gidMap : gmap Z nat;
  sc_contexts : list ContextInfo;
  sc_freeList : list nat;
  sc_queues : Queue -> list nat;
  sc_fakeLeaves : list nat;
  sc_scheduledThreads : Z;
  sc_clock : Clock;
  sc_futex : FutexState;
  sc_blocking : list (gset Z);
  sc_cleanups : list (Z * Z);
  sc_rnd : G;
  sc_cores : C
}.
Arguments mkSched {C G} _ _ _ _ _ _ _ _ _ _ _ _ _ _.
Arguments sc_threads {C G} _.
Arguments sc_fresh {C G} _.
Arguments sc_gidMap {C G} _.
Arguments sc_contexts {C G} _.
Arguments sc_freeList {C G} _.
Arguments sc_queues {C G} _ _.
Arguments sc_fakeLeaves {C G} _.
Arguments sc_scheduledThreads {C G} _.
Arguments sc_clock {C G} _.
Arguments sc_futex {C G} _.
Arguments sc_blocking {C G} _.
Arguments sc_cleanups {C G} _.
Arguments sc_rnd {C G} _.
Arguments sc_cores {C G} _.

(** [gid <-> (pid, tid)] *)
Definition getGid (pid tid : Z) : Z := u32 (Z.lor (Z.shiftl pid 16) tid).
Definition getPid (gid : Z) : Z := Z.shiftr gid 16.
Definition getTid (gid : Z) : Z := Z.land gid 65535.

Section Scheduler.
Context {C G : Type} `{CoreOps C} `{RandInt G}.
Context (schedQuantum phaseLength : Z).
Abbreviation S := (Sched C G).

Definition set_heap (v : gmap nat ThreadInfo) (s : S) : S :=
  mkSched v (sc_fresh s) (sc_gidMap s) (sc_contexts s) (sc_freeList s) (sc_queues s) (sc_fakeLeaves s)
    (sc_scheduledThreads s) (sc_clock s) (sc_futex s) (sc_blocking s) (sc_cleanups s) (sc_rnd s) (sc_cores s).
Definition set_fresh (v : nat) (s : S) : S :=
  mkSched (sc_threads s) v (sc_gidMap s) (sc_contexts s) (sc_freeList s) (sc_queues s) (sc_fakeLeaves s)
    (sc_scheduledThreads s) (sc_clock s) (sc_futex s) (sc_blocking s) (sc_cleanups s) (sc_rnd s) (sc_cores s).
Definition set_gidMap (v : gmap Z nat) (s : S) : S :=
  mkSched (sc_threads s) (sc_fresh s) v (sc_contexts s) (sc_freeList s) (sc_queues s) (sc_fakeLeaves s)
    (sc_scheduledThreads s) (sc_clock s) (sc_futex s) (sc_blocking s) (sc_cleanups s) (sc_rnd s) (sc_cores s).
Definition set_contexts (v : list ContextInfo) (s : S) : S :=
  mkSched (sc_threads s) (sc_fresh s) (sc_gidMap s) v (sc_freeList s) (sc_queues s) (sc_fakeLeaves s)
    (sc_scheduledThreads s) (sc_clock s) (sc_futex s) (sc_blocking s) (sc_cleanups s) (sc_rnd s) (sc_cores s).
Definition set_freeList (v : list nat) (s : S) : S :=
  mkSched (sc_threads s) (sc_fresh s) (sc_gidMap s) (sc_contexts s) v (sc_queues s) (sc_fakeLeaves s)
    (sc_scheduledThreads s) (sc_clock s) (sc_futex s) (sc_blocking s) (sc_cleanups s) (sc_rnd s) (sc_cores s).
Definition set_queue (q : Queue) (v : list nat) (s : S) : S :=
  mkSched (sc_threads s) (sc_fresh s) (sc_gidMap s) (sc_contexts s) (sc_freeList s)
    (fun q' => if decide (q' = q) then v else sc_queues s q') (sc_fakeLeaves s)
    (sc_scheduledThreads s) (sc_clock s) (sc_futex s) (sc_blocking s) (sc_cleanups s) (sc_rnd s) (sc_cores s).
Definition set_fakeLeaves (v : list nat) (s : S) : S :=
  mkSched (sc_threads s) (sc_fresh s) (sc_gidMap s) (sc_contexts s) (sc_freeList s) (sc_queues s) v
    (sc_scheduledThreads s) (sc_clock s) (sc_futex s) (sc_blocking s) (sc_cleanups s) (sc_rnd s) (sc_cores s).
Definition set_scheduled (v : Z) (s : S) : S :=
  mkSched (sc_threads s) (sc_fresh s) (sc_gidMap s) (sc_contexts s) (sc_freeList s) (sc_queues s) (sc_fakeLeaves s)
    v (sc_clock s) (sc_futex s) (sc_blocking s) (sc_cleanups s) (sc_rnd s) (sc_cores s).
Definition set_clock (v : Clock) (s : S) : S :=
  mkSched (sc_threads s) (sc_fresh s) (sc_gidMap s) (sc_contexts s) (sc_freeList s) (sc_queues s) (sc_fakeLeaves s)
    (sc_scheduledThreads s) v (sc_futex s) (sc_blocking s) (sc_cleanups s) (sc_rnd s) (sc_cores s).
Definition set_futexState (v : FutexState) (s : S) : S :=
  mkSched (sc_threads s) (sc_fresh s) (sc_gidMap s) (sc_contexts s) (sc_freeList s) (sc_queues s) (sc_fakeLeaves s)
    (sc_scheduledThreads s) (sc_clock s) v (sc_blocking s) (sc_cleanups s) (sc_rnd s) (sc_cores s).
Definition set_blocking (v : list (gset Z)) (s : S) : S :=
  mkSched (sc_threads s) (sc_fresh s) (sc_gidMap s) (sc_contexts s) (sc_freeList s) (sc_queues s) (sc_fakeLeaves s)
    (sc_scheduledThreads s) (sc_clock s) (sc_futex s) v (sc_cleanups s) (sc_rnd s) (sc_cores s).
Definition set_cleanups (v : list (Z * Z)) (s : S) : S :=
  mkSched (sc_threads s) (sc_fresh s) (sc_gidMap s) (sc_contexts s) (sc_freeList s) (sc_queues s) (sc_fakeLeaves s)
    (sc_scheduledThreads s) (sc_clock s) (sc_futex s) (sc_blocking s) v (sc_rnd s) (sc_cores s).
Definition set_schedRnd (v : G) (s : S) : S :=
  mkSched (sc_threads s) (sc_fresh s) (sc_gidMap s) (sc_contexts s) (sc_freeList s) (sc_queues s) (sc_fakeLeaves s)
    (sc_scheduledThreads s) (sc_clock s) (sc_futex s) (sc_blocking s) (sc_cleanups s) v (sc_cores s).
Definition set_cores (v : C) (s : S) : S :=
  mkSched (sc_threads s) (sc_fresh s) (sc_gidMap s) (sc_contexts s) (sc_freeList s) (sc_queues s) (sc_fakeLeaves s)
    (sc_scheduledThreads s) (sc_clock s) (sc_futex s) (sc_blocking s) (sc_cleanups s) (sc_rnd s) v.

(** ** Threads, contexts and lists *)

Definition get_th (p : nat) : M S ThreadInfo :=
  s <- get ;; match sc_threads s !! p with Some t => ret t | None => fail NullDeref end.
Definition upd_th (p : nat) (f : ThreadInfo -> ThreadInfo) : M S unit :=
  t <- get_th p ;; modify (fun s => set_heap (<[p := f t]> (sc_threads s)) s).
Definition get_cx (c : nat) : M S ContextInfo := s <- get ;; lift (at_ (sc_contexts s) c).
Definition upd_cx (c : nat) (f : ContextInfo -> ContextInfo) : M S unit :=
  x <- get_cx c ;; s <- get ;;
  l <- lift (set_at (sc_contexts s) c (f x)) ;; modify (set_contexts l).
Definition numCores (s : S) : nat := length (sc_contexts s).
Definition in_cores {A} (m : M C A) : M S A := zoom sc_cores set_cores m.
Definition mask_at (t : ThreadInfo) (c : nat) : M S bool := lift (at_ (th_mask t) c).

(** [InList<ThreadInfo>]: [push_back], [push_front], [insertAfter], [remove],
    [pop_front]. *)
Definition owned_by (o : option Queue) (t : ThreadInfo) : bool := bool_decide (th_owner t = o).
Definition remove_one (p : nat) (l : list nat) : list nat := filter (fun x => x <> p) l.
Fixpoint insert_after (prev p : nat) (l : list nat) : list nat :=
  match l with
  | [] => []
  | x :: l' => if decide (x = prev) then x :: p :: l' else x :: insert_after prev p l'
  end.

Definition q_push_back (q : Queue) (p : nat) : M S unit :=
  t <- get_th p ;;
  assert_ "intrusive_list.h:104" (owned_by None t) ;;
  upd_th p (th_set_owner (Some q)) ;;
  modify (fun s => set_queue q (sc_queues s q ++ [p]) s).
Definition q_push_front (q : Queue) (p : nat) : M S unit :=
  t <- get_th p ;;
  assert_ "intrusive_list.h:89" (owned_by None t) ;;
  upd_th p (th_set_owner (Some q)) ;;
  modify (fun s => set_queue q (p :: sc_queues s q) s).
Definition q_insertAfter (q : Queue) (prev p : nat) : M S unit :=
  t <- get_th p ;;
  assert_ "intrusive_list.h:146" (owned_by None t) ;;
  t' <- get_th prev ;;
  assert_ "intrusive_list.h:147" (owned_by (Some q) t') ;;
  upd_th p (th_set_owner (Some q)) ;;
  modify (fun s => set_queue q (insert_after prev p (sc_queues s q)) s).
Definition q_remove (q : Queue) (p : nat) : M S unit :=
  t <- get_th p ;;
  assert_ "intrusive_list.h:55" (owned_by (Some q) t) ;;
  upd_th p (th_set_owner None) ;;
  modify (fun s => set_queue q (remove_one p (sc_queues s q)) s).
Definition q_pop_front (q : Queue) : M S unit :=
  s <- get ;; match sc_queues s q with [] => ret tt | p :: _ => q_remove q p end.

(** [freeList] *)
Definition cx_set_free (b : bool) (x : ContextInfo) : ContextInfo := mkCx (cx_state x) (cx_curThread x) b.
Definition free_push (c : nat) : M S unit :=
  x <- get_cx c ;;
  assert_ "intrusive_list.h:104" (negb (cx_free x)) ;;
  upd_cx c (cx_set_free true) ;;
  modify (fun s => set_freeList (sc_freeList s ++ [c]) s).
Definition free_remove (c : nat) : M S unit :=
  x <- get_cx c ;;
  assert_ "intrusive_list.h:55" (cx_free x) ;;
  upd_cx c (cx_set_free false) ;;
  modify (fun s => set_freeList (remove_one c (sc_freeList s)) s).

(** ** Contexts *)

Definition is_state (l : list Th.ThreadState) (t : ThreadInfo) : bool := bool_decide (th_state t ∈ l).

Definition schedule (p c : nat) : M S unit :=
  t <- get_th p ;;
  assert_ "scheduler.h:556" (is_state [Th.STARTED; Th.BLOCKED; Th.QUEUED] t) ;;
  x <- get_cx c ;;
  assert_ "scheduler.h:557" (bool_decide (cx_state x = IDLE)) ;;
  assert_ "scheduler.h:558" (bool_decide (cx_curThread x = None)) ;;
  upd_th p (fun t => th_set_cid c (th_set_state Th.RUNNING t)) ;;
  upd_cx c (fun x => mkCx USED (Some p) (cx_free x)) ;;
  modify (fun s => set_scheduled (u32 (sc_scheduledThreads s + 1)) s) ;;
  in_cores (core_contextSwitch c (th_gid t)).

Definition deschedule (p c : nat) (targetState : Th.ThreadState) : M S unit :=
  t <- get_th p ;;
  assert_ "scheduler.h:570" (is_state [Th.RUNNING; Th.OUT] t) ;;
  x <- get_cx c ;;
  assert_ "scheduler.h:571" (bool_decide (cx_state x = USED)) ;;
  assert_ "scheduler.h:572" (c =? th_cid t)%nat ;;
  assert_ "scheduler.h:573" (bool_decide (cx_curThread x = Some p)) ;;
  assert_ "scheduler.h:574" (bool_decide (targetState ∈ [Th.BLOCKED; Th.QUEUED; Th.SLEEPING])) ;;
  upd_th p (th_set_state targetState) ;;
  upd_cx c (fun x => mkCx IDLE None (cx_free x)) ;;
  modify (fun s => set_scheduled (u32 (sc_scheduledThreads s - 1)) s) ;;
  in_cores (core_contextSwitch c (-1)).

(** [wakeup], up to the wait until the woken thread shows in [/proc]. *)
Definition wakeup (p : nat) (needsJoin : bool) : M S unit :=
  upd_th p (th_set_needsJoin needsJoin) ;;
  t <- get_th p ;;
  if th_futexWord t =? 1 then upd_th p (th_set_futex 0) else fail (Panic "scheduler.h:610").

(** ** The policy *)

(** The first context of [l] that the mask of the thread allows. *)
Fixpoint find_context (t : ThreadInfo) (l : list nat) : M S (option nat) :=
  match l with
  | [] => ret None
  | c :: l' => m <- mask_at t c ;; if m : bool then ret (Some c) else find_context t l'
  end.

(** The first thread of [l] whose context the mask allows. *)
Fixpoint find_out (t : ThreadInfo) (l : list nat) : M S (option (nat * nat)) :=
  match l with
  | [] => ret None
  | p :: l' =>
      o <- get_th p ;;
      m <- mask_at t (th_cid o) ;;
      if m : bool then ret (Some (p, th_cid o)) else find_out t l'
  end.

Definition schedThread (p : nat) : M S (option nat) :=
  t <- get_th p ;;
  s <- get ;;
  assert_ "scheduler.h:643" (th_cid t <? numCores s)%nat ;;
  x <- get_cx (th_cid t) ;;
  m <- (if bool_decide (cx_state x = IDLE) then mask_at t (th_cid t) else ret false) ;;
  ctx <- (if m : bool then
            free_remove (th_cid t) ;; ret (Some (th_cid t))
          else
            f <- find_context t (sc_freeList s) ;;
            match f with
            | Some c => free_remove c ;; ret (Some c)
            | None =>
                o <- find_out t (sc_queues s OutQ) ;;
                match o with
                | Some (outTh, c) => q_remove OutQ outTh ;; deschedule outTh c Th.BLOCKED ;; ret (Some c)
                | None => ret None
                end
            end) ;;
  match ctx with
  | Some c => m <- mask_at t c ;; assert_ "scheduler.h:678" m
  | None => ret tt
  end ;;
  ret ctx.

(** The first thread of [l] whose mask allows the context. *)
Fixpoint find_thread (c : nat) (l : list nat) : M S (option nat) :=
  match l with
  | [] => ret None
  | p :: l' =>
      t <- get_th p ;;
      m <- mask_at t c ;;
      if m : bool then ret (Some p) else find_thread c l'
  end.

Definition schedContext (c : nat) : M S (option nat) :=
  s <- get ;;
  f <- find_thread c (sc_queues s RunQ) ;;
  match f with Some p => q_remove RunQ p | None => ret tt end ;;
  ret f.

(** [printState]: panics unless every used context has a thread that runs or
    is out. *)
Definition printState : M S unit :=
  s <- get ;;
  forM (sc_contexts s) (fun x =>
    if bool_decide (cx_state x = IDLE) then ret tt
    else match cx_curThread x with
         | None => fail NullDeref
         | Some p =>
             t <- get_th p ;;
             if is_state [Th.RUNNING; Th.OUT] t then ret tt else fail (Panic "scheduler.h:624")
         end).

(** The Fisher-Yates shuffle of the cores. *)
Fixpoint shuffle_cores (i : nat) (avail : list nat) : M S (list nat) :=
  match i with
  | O => ret avail
  | Datatypes.S i' =>
      s <- get ;;
      let (j, g) := randInt i (sc_rnd s) in
      modify (set_schedRnd g) ;;
      a <- lift (at_ avail i) ;;
      b <- lift (at_ avail j) ;;
      shuffle_cores i' (<[j := a]> (<[i := b]> avail))
  end.

(** The loop over the run queue: each thread is offered the first available
    core of its mask. *)
Fixpoint tick_loop (l avail : list nat) : M S (list nat) :=
  match l with
  | [] => ret avail
  | p :: l' =>
      match avail with
      | [] => ret avail
      | _ =>
          t <- get_th p ;;
          f <- find_context t avail ;;
          match f with
          | Some c =>
              x <- get_cx c ;;
              match cx_curThread x with
              | None => fail (AssertFail "scheduler.h:731")
              | Some victimTh =>
                  upd_th victimTh (th_set_handoff (Some p)) ;;
                  q_remove RunQ p ;;
                  tick_loop l' (remove_one c avail)
              end
          | None => tick_loop l' avail
          end
      end
  end.

Definition schedTick : M S unit :=
  s <- get ;;
  avail <- shuffle_cores (numCores s - 1) (seq 0 (numCores s)) ;;
  tick_loop (sc_queues s RunQ) avail ;;
  printState.

(** ** The end of a phase *)

(** Threads whose deadline is met; [l] is the sleep queue. *)
Fixpoint wake_sleepers (l : list nat) : M S unit :=
  match l with
  | [] => ret tt
  | p :: l' =>
      t <- get_th p ;;
      s <- get ;;
      if th_wakeupPhase t <=? ck_curPhase (sc_clock s) then
        assert_ "scheduler.h:443" (th_wakeupPhase t =? ck_curPhase (sc_clock s)) ;;
        upd_th p (th_set_state Th.BLOCKED) ;;
        wakeup p false ;;
        q_pop_front SleepQ ;;
        wake_sleepers l'
      else ret tt
  end.

Definition sched_callback : M S unit :=
  s <- get ;;
  assert_ "scheduler.h:425" (sc_scheduledThreads s <=? Z.of_nat (numCores s)) ;;
  in_cores atSyncFunc ;;
  modify (fun s => let k := sc_clock s in
    set_clock (mkClock (u64 (ck_curPhase k + 1)) (u64 (ck_numPhases k + 1))
                 (u64 (ck_globPhaseCycles k + phaseLength))) s) ;;
  s <- get ;;
  assert_ "scheduler.h:437" (ck_curPhase (sc_clock s) =? ck_numPhases (sc_clock s)) ;;
  wake_sleepers (sc_queues s SleepQ) ;;
  s <- get ;;
  match sc_queues s RunQ with
  | [] => ret tt
  | _ =>
      r <- lift (umod (ck_curPhase (sc_clock s)) schedQuantum) ;;
      when (r =? 0) schedTick
  end.

(** The scheduler is the callee of the barrier; a failure in the callback
    stops the simulator. *)
#[export] Instance sched_callee : Callee (res S) := fun r =>
  match r with
  | Ok s => match sched_callback s with Ok (_, s') => Ok s' | Err e => Err e end
  | Err e => Err e
  end.

Definition W : Type := Barrier (res S) G.

Definition on_sched {A} (m : M S A) : M W A := fun b =>
  match b_sched b with
  | Ok s => match m s with Ok (a, s') => Ok (a, set_sched (Ok s') b) | Err e => Err e end
  | Err e => Err e
  end.
Definition on_bar (m : M W unit) : M W unit :=
  m ;; b <- get ;; match b_sched b with Ok _ => ret tt | Err e => fail e end.

(** ** Threads come and go *)

Definition ThreadInfo_new (gid : Z) (mask : list bool) (junk : bool) : ThreadInfo :=
  mkTh gid Th.STARTED 0 None 0 junk false 0 mask None (mkFJ FJA_NONE 0 0) None.

(** [start]; the constructor leaves [needsJoin] uninitialised. *)
Definition start (pid tid : Z) (mask : list bool) (junk : bool) : M S nat :=
  s <- get ;;
  let gid := getGid pid tid in
  assert_ "scheduler.h:219" (bool_decide (sc_gidMap s !! gid = None)) ;;
  assert_ "scheduler.h:122" (length mask =? numCores s)%nat ;;
  (if existsb id mask then ret tt else fail (Panic "scheduler.h:125")) ;;
  let p := sc_fresh s in
  modify (fun s => set_heap (<[p := ThreadInfo_new gid mask junk]> (sc_threads s)) s) ;;
  modify (fun s => set_gidMap (<[gid := p]> (sc_gidMap s)) s) ;;
  modify (set_fresh (Datatypes.S p)) ;;
  ret p.

(** [gidMap\[gid\]] *)
Definition lookup_gid (e : err) (gid : Z) : M S nat :=
  s <- get ;; match sc_gidMap s !! gid with Some p => ret p | None => fail e end.

(** What a thread does after it has given up the lock: it goes on, waits in the
    barrier, or waits for a context. *)
Inductive Wait := Proceed | InBarrier | ForContext.

(** [waitForContext], up to the wait. *)
Definition waitForContext (p : nat) : M S unit := upd_th p (th_set_futex 1).

(** The core and the barrier are joined; the end of every way into a context. *)
Definition bar_join (c : nat) : M W unit :=
  on_sched (in_cores (core_join c)) ;; on_bar (Barrier.join c).

(** [waitForContext], after the wait. *)
Definition waitForContext_end (p : nat) : M W Wait :=
  t <- on_sched (get_th p) ;;
  if th_needsJoin t then bar_join (th_cid t) ;; ret InBarrier else ret Proceed.

Definition finishFakeLeave (p : nat) : M S unit :=
  t <- get_th p ;;
  assert_ "scheduler.cpp:390" (bool_decide (is_Some (th_fakeLeave t))) ;;
  assert_ "scheduler.cpp:392" (is_state [Th.RUNNING] t) ;;
  modify (fun s => set_fakeLeaves (remove_one p (sc_fakeLeaves s)) s) ;;
  upd_th p (th_set_fake None).

(** [join], after the futex matching. *)
Definition join_rest (p : nat) : M W Wait :=
  t <- on_sched (get_th p) ;;
  if bool_decide (is_Some (th_fakeLeave t)) then on_sched (finishFakeLeave p) ;; ret Proceed
  else
    assert_ "scheduler.h:299" (negb (th_markedForSleep t)) ;;
    on_sched (when (is_state [Th.SLEEPING] t) (q_remove SleepQ p ;; upd_th p (th_set_state Th.BLOCKED))) ;;
    t <- on_sched (get_th p) ;;
    if is_state [Th.OUT] t then
      on_sched (upd_th p (th_set_state Th.RUNNING) ;; q_remove OutQ p) ;;
      bar_join (th_cid t) ;;
      ret InBarrier
    else
      assert_ "scheduler.h:313" (is_state [Th.BLOCKED; Th.STARTED] t) ;;
      ctx <- on_sched (schedThread p) ;;
      match ctx with
      | Some c => on_sched (schedule p c) ;; bar_join c ;; ret InBarrier
      | None =>
          on_sched (upd_th p (th_set_state Th.QUEUED) ;; q_push_back RunQ p ;; waitForContext p) ;;
          ret ForContext
      end.

(** ** Futex matching *)

Definition notifyFutexWakeStart (pid tid maxWakes : Z) : M S unit :=
  p <- lookup_gid NullDeref (getGid pid tid) ;;
  t <- get_th p ;;
  assert_ "scheduler.cpp:305" (bool_decide (fj_action (th_futexJoin t) = FJA_NONE)) ;;
  let maxWakes := Z.min maxWakes (2 ^ 24) in
  modify (fun s => set_futexState (mkFutex (u32 (fx_maxAllowed (sc_futex s) + maxWakes)) (fx_unmatched (sc_futex s))) s) ;;
  upd_th p (fun t => th_set_futexJoin (mkFJ FJA_NONE maxWakes (fj_wokenUp (th_futexJoin t))) t).

Definition notifyFutexWakeEnd (pid tid wokenUp : Z) : M S unit :=
  p <- lookup_gid NullDeref (getGid pid tid) ;;
  upd_th p (fun t => th_set_futexJoin (mkFJ FJA_WAKE (fj_maxWakes (th_futexJoin t)) wokenUp) t).

Definition notifyFutexWaitWoken (pid tid : Z) : M S unit :=
  p <- lookup_gid NullDeref (getGid pid tid) ;;
  upd_th p (th_set_futexJoin (mkFJ FJA_WAIT 0 0)).

Definition futexWaitJoin (p : nat) : M S unit :=
  t <- get_th p ;;
  assert_ "scheduler.cpp:381" (bool_decide (fj_action (th_futexJoin t) = FJA_WAIT)) ;;
  modify (fun s => let f := sc_futex s in
    if fx_maxAllowed f <=? fx_unmatched f then s
    else set_futexState (mkFutex (fx_maxAllowed f) (u32 (fx_unmatched f + 1))) s).

(** [futexWakeJoin], up to the first release of the lock. *)
Definition futexWakeJoin (p : nat) : M S unit :=
  t <- get_th p ;;
  let j := th_futexJoin t in
  assert_ "scheduler.cpp:336" (bool_decide (fj_action j = FJA_WAKE)) ;;
  s <- get ;;
  assert_ "scheduler.cpp:342" (fj_maxWakes j <=? fx_maxAllowed (sc_futex s)) ;;
  assert_ "scheduler.cpp:343" (fj_wokenUp j <=? fj_maxWakes j) ;;
  let allowed := u32 (fx_maxAllowed (sc_futex s) - (fj_maxWakes j - fj_wokenUp j)) in
  modify (set_futexState (mkFutex allowed (fx_unmatched (sc_futex s)))) ;;
  assert_ "scheduler.cpp:346" (fx_unmatched (sc_futex s) <=? allowed).

(** The two ends of its loop: a match, with the lock held again, and the
    timeout. *)
Definition futexWakeJoin_match (p : nat) : M S bool :=
  t <- get_th p ;;
  s <- get ;;
  let f := sc_futex s in
  let w := fj_wokenUp (th_futexJoin t) in
  if w <=? fx_unmatched f then
    modify (set_futexState (mkFutex (u32 (fx_maxAllowed f - w)) (u32 (fx_unmatched f - w)))) ;; ret true
  else ret false.
Definition futexWakeJoin_timeout (p : nat) : M S unit :=
  t <- get_th p ;;
  modify (fun s => set_futexState
    (mkFutex (u32 (fx_maxAllowed (sc_futex s) - fj_wokenUp (th_futexJoin t))) 0) s).

Definition set_action_none (p : nat) : M S unit :=
  upd_th p (fun t => th_set_futexJoin (mkFJ FJA_NONE (fj_maxWakes (th_futexJoin t)) (fj_wokenUp (th_futexJoin t))) t).

(** [join]; without a result, the thread is in the loop of [futexWakeJoin]. *)
Definition join (pid tid : Z) : M W (option Wait) :=
  p <- on_sched (lookup_gid (AssertFail "scheduler.h:283") (getGid pid tid)) ;;
  t <- on_sched (get_th p) ;;
  match fj_action (th_futexJoin t) with
  | FJA_NONE => r <- join_rest p ;; ret (Some r)
  | FJA_WAIT => on_sched (futexWaitJoin p ;; set_action_none p) ;; r <- join_rest p ;; ret (Some r)
  | FJA_WAKE => on_sched (futexWakeJoin p) ;; ret None
  end.
Definition join_matched (p : nat) : M W (option Wait) :=
  m <- on_sched (futexWakeJoin_match p) ;;
  if m : bool then on_sched (set_action_none p) ;; r <- join_rest p ;; ret (Some r) else ret None.
Definition join_timeout (p : nat) : M W Wait :=
  on_sched (futexWakeJoin_timeout p ;; set_action_none p) ;; join_rest p.

(** ** Leaving *)

(** The last thread of the sleep queue, from [cur] on, that wakes up no later
    than [w]. *)
Fixpoint sleep_place (w : Z) (cur : nat) (l : list nat) : M S nat :=
  match l with
  | [] => ret cur
  | p :: l' => t <- get_th p ;; if th_wakeupPhase t <=? w then sleep_place w p l' else ret cur
  end.

(** The ordered insertion into the sleep queue. *)
Definition sleep_insert (p : nat) : M S unit :=
  t <- get_th p ;;
  s <- get ;;
  match sc_queues s SleepQ with
  | [] => q_push_front SleepQ p
  | f :: l =>
      ft <- get_th f ;;
      if th_wakeupPhase t <? th_wakeupPhase ft then q_push_front SleepQ p
      else cur <- sleep_place (th_wakeupPhase t) f l ;; q_insertAfter SleepQ cur p
  end.

(** The context goes to a queued thread; its core has just been left. *)
Definition give_context (p c : nat) : M S unit :=
  schedule p c ;; in_cores (core_join c) ;; wakeup p false.

Definition curThread (c : nat) : M S nat :=
  x <- get_cx c ;; match cx_curThread x with Some p => ret p | None => fail NullDeref end.

Definition leave (pid tid : Z) (c : nat) : M W unit :=
  p <- on_sched (curThread c) ;;
  t <- on_sched (get_th p) ;;
  assert_ "scheduler.h:335" (th_gid t =? getGid pid tid) ;;
  assert_ "scheduler.h:336" (is_state [Th.RUNNING] t) ;;
  on_sched (in_cores (core_leave c)) ;;
  if th_markedForSleep t then
    on_sched (upd_th p (fun t => th_set_sleep false (th_wakeupPhase t) t) ;;
              deschedule p c Th.SLEEPING ;; sleep_insert p) ;;
    inTh <- on_sched (schedContext c) ;;
    match inTh with
    | Some i => on_sched (give_context i c)
    | None => on_sched (free_push c) ;; on_bar (Barrier.leave c)
    end
  else
    inTh <- on_sched (schedContext c) ;;
    match inTh with
    | Some i => on_sched (deschedule p c Th.BLOCKED ;; give_context i c)
    | None => on_sched (upd_th p (th_set_state Th.OUT) ;; q_push_back OutQ p) ;; on_bar (Barrier.leave c)
    end.

(** [syscallLeave]: whether the thread has to call [leave]. *)
Definition syscallLeave (pid tid : Z) (c : nat) (pc syscallNumber arg0 arg1 : Z) : M S bool :=
  p <- curThread c ;;
  t <- get_th p ;;
  assert_ "scheduler.cpp:278" (th_gid t =? getGid pid tid) ;;
  assert_ "scheduler.cpp:279" (th_cid t =? c)%nat ;;
  assert_ "scheduler.cpp:280" (is_state [Th.RUNNING] t) ;;
  s <- get ;;
  assert_ "scheduler.cpp:281" (pid <? Z.of_nat (length (sc_blocking s))) ;;
  b <- lift (at_ (sc_blocking s) (Z.to_nat pid)) ;;
  if bool_decide (pc ∈ b) || th_markedForSleep t then ret true
  else
    assert_ "scheduler.h:797" (bool_decide (th_fakeLeave t = None)) ;;
    upd_th p (th_set_fake (Some (mkFake pc syscallNumber arg0 arg1))) ;;
    modify (fun s => set_fakeLeaves (sc_fakeLeaves s ++ [p]) s) ;;
    ret false.

(** ** Phases *)

(** [sync], up to the wait in the barrier. *)
Definition sync (c : nat) : M W nat :=
  p <- on_sched (curThread c) ;;
  t <- on_sched (get_th p) ;;
  assert_ "scheduler.h:388" (negb (th_markedForSleep t)) ;;
  on_bar (Barrier.sync c) ;;
  ret p.

(** The thread hands its context off. *)
Definition handoff (p : nat) : M W Wait :=
  t <- on_sched (get_th p) ;;
  match th_handoffThread t with
  | None => fail NullDeref
  | Some dst =>
      on_sched (upd_th p (th_set_handoff None) ;;
                deschedule p (th_cid t) Th.QUEUED ;;
                schedule dst (th_cid t) ;;
                wakeup dst false) ;;
      ctx <- on_sched (schedThread p) ;;
      match ctx with
      | Some c => on_sched (schedule p c) ;; bar_join c ;; ret InBarrier
      | None => on_sched (q_push_back RunQ p ;; waitForContext p) ;; ret ForContext
      end
  end.

(** After [bar.sync]: is there a handoff?  And the end of [sync]. *)
Definition must_handoff (p : nat) (s : S) : bool :=
  match sc_threads s !! p with Some t => bool_decide (is_Some (th_handoffThread t)) | None => false end.
Definition sync_end (p : nat) : M S nat :=
  t <- get_th p ;; assert_ "scheduler.h:418" (is_state [Th.RUNNING] t) ;; ret (th_cid t).

(** ** Sleeping *)

Definition markForSleep (pid tid wakeupPhase : Z) : M S unit :=
  p <- lookup_gid NullDeref (getGid pid tid) ;;
  t <- get_th p ;;
  assert_ "scheduler.h:468" (negb (th_markedForSleep t)) ;;
  upd_th p (fun t => th_set_futex 1 (th_set_sleep true wakeupPhase t)).

Definition isSleeping (pid tid : Z) : M S bool :=
  p <- lookup_gid NullDeref (getGid pid tid) ;;
  t <- get_th p ;; ret (is_state [Th.SLEEPING] t).

Definition notifySleepEnd (pid tid : Z) : M S unit :=
  p <- lookup_gid NullDeref (getGid pid tid) ;;
  t <- get_th p ;;
  assert_ "scheduler.h:489" (negb (th_markedForSleep t)) ;;
  assert_ "scheduler.h:491" (is_state [Th.SLEEPING; Th.BLOCKED] t) ;;
  if is_state [Th.BLOCKED] t then ret tt else q_remove SleepQ p ;; upd_th p (th_set_state Th.BLOCKED).

(** ** Finishing *)

Definition finish_end (p : nat) : M S unit :=
  t <- get_th p ;;
  assert_ "scheduler.h:254" (is_state [Th.STARTED; Th.OUT; Th.BLOCKED; Th.QUEUED] t) ;;
  (if is_state [Th.QUEUED] t then
     assert_ "scheduler.h:256" (owned_by (Some RunQ) t) ;; q_remove RunQ p
   else if negb (owned_by None t) then
     assert_ "scheduler.h:259" (owned_by (Some OutQ) t) ;;
     q_remove OutQ p ;; deschedule p (th_cid t) Th.BLOCKED ;; free_push (th_cid t)
   else ret tt) ;;
  modify (fun s => set_heap (delete p (sc_threads s)) s).

(** What is left of [finish] when it gives up the lock: a [leave], after which
    the state is checked again, a [leave] before the end, or nothing. *)
Inductive Finish := LeaveCheck | LeaveEnd | Finished.

(** A running thread leaves first. *)
Definition finish_check (p : nat) : M S Finish :=
  t <- get_th p ;; if is_state [Th.RUNNING] t then ret LeaveEnd else finish_end p ;; ret Finished.

(** [finish], up to the first release of the lock. *)
Definition finish (pid tid : Z) : M S (nat * Finish) :=
  let gid := getGid pid tid in
  p <- lookup_gid (AssertFail "scheduler.h:234") gid ;;
  modify (fun s => set_gidMap (delete gid (sc_gidMap s)) s) ;;
  t <- get_th p ;;
  if bool_decide (is_Some (th_fakeLeave t)) then finishFakeLeave p ;; ret (p, LeaveCheck)
  else r <- finish_check p ;; ret (p, r).

(** ** The watchdog *)

(** It drives time forward while every scheduled thread is out and some thread
    sleeps. *)
Definition all_out (s : S) : bool :=
  (sc_scheduledThreads s =? Z.of_nat (length (sc_queues s OutQ))) &&
  match sc_queues s SleepQ with [] => false | _ => true end.

(** At most [n] phases, until the first sleeper wakes up. *)
Fixpoint drive_loop (n p : nat) : M S unit :=
  match n with
  | O => ret tt
  | Datatypes.S n' =>
      t <- get_th p ;;
      if is_state [Th.SLEEPING] t then sched_callback ;; drive_loop n' p else ret tt
  end.
Definition drive (n : nat) : M S unit :=
  s <- get ;;
  if all_out s then match sc_queues s SleepQ with p :: _ => drive_loop n p | [] => ret tt end else ret tt.

(** The first fake leave is made a real one; [blacklistable] is the result of
    matching the system call against the process's expression.  The result is
    what the following call of [leave] gets. *)
Definition break_fakeLeave (blacklistable : Z -> Z -> bool) : M S (option (Z * Z * nat * nat * Z)) :=
  s <- get ;;
  match sc_fakeLeaves s with
  | [] => ret None
  | p :: l =>
      t <- get_th p ;;
      if bool_decide (fj_action (th_futexJoin t) = FJA_WAKE) then ret None else
      match th_fakeLeave t with
      | None => fail NullDeref
      | Some fl =>
          let pid := getPid (th_gid t) in
          if blacklistable pid (fl_syscallNumber fl) then
            when (bool_decide (l = []))
              (b <- lift (at_ (sc_blocking s) (Z.to_nat pid)) ;;
               bs <- lift (set_at (sc_blocking s) (Z.to_nat pid) ({[fl_pc fl]} ∪ b)) ;;
               modify (set_blocking bs)) ;;
            finishFakeLeave p ;;
            ret (Some (pid, getTid (th_gid t), th_cid t, p, fl_pc fl))
          else ret None
      end
  end.

(** The next round of its loop, after the [leave] of thread [p]. *)
Definition break_next (pid pc : Z) (p : nat) : M S (option (Z * Z * nat * nat * Z)) :=
  s <- get ;;
  match sc_fakeLeaves s with
  | [] => ret None
  | p' :: _ =>
      t <- get_th p ;;
      t' <- get_th p' ;;
      match th_fakeLeave t' with
      | None => fail NullDeref
      | Some fl =>
          if negb (getPid (th_gid t) =? pid) || negb (fl_pc fl =? pc) then ret None
          else if (8 <? length (sc_fakeLeaves s))%nat then
            finishFakeLeave p' ;; ret (Some (pid, getTid (th_gid t'), th_cid t', p', pc))
          else ret None
      end
  end.

(** ** Abrupt termination *)

Definition queueProcessCleanup (pid osPid : Z) : M S unit :=
  modify (fun s => set_cleanups (sc_cleanups s ++ [(pid, osPid)]) s).

(** One round of the watchdog's loop over these: the process to clean up, once
    the host has none with that id. *)
Definition pending_cleanup (gone : Z -> bool) : M S (option Z) :=
  s <- get ;;
  match last (sc_cleanups s) with
  | None => ret None
  | Some (pid, osPid) =>
      if gone osPid then
        modify (set_cleanups (take (length (sc_cleanups s) - 1) (sc_cleanups s))) ;; ret (Some pid)
      else ret None
  end.

Definition doomedTids (pid : Z) (s : S) : list Z :=
  map (fun e => getTid e.1) (filter (fun e => getPid e.1 = pid) (map_to_list (sc_gidMap s))).

(** [finish] with the calls of [leave] in the middle. *)
Definition finish_leave (pid tid : Z) (p : nat) : M W unit :=
  t <- on_sched (get_th p) ;; leave pid tid (th_cid t).
Definition finish_after (pid tid : Z) (p : nat) (r : Finish) : M W unit :=
  match r with
  | LeaveEnd => finish_leave pid tid p ;; on_sched (finish_end p)
  | _ => ret tt
  end.
Definition finish_all (pid tid : Z) : M W unit :=
  let! (p, r) := on_sched (finish pid tid) in
  match r with
  | LeaveCheck => finish_leave pid tid p ;; r <- on_sched (finish_check p) ;; finish_after pid tid p r
  | _ => finish_after pid tid p r
  end.

Definition processCleanup (pid : Z) : M W unit :=
  tids <- on_sched (gets (doomedTids pid)) ;;
  forM tids (fun tid =>
    b <- on_sched (isSleeping pid tid) ;;
    when b (on_sched (notifySleepEnd pid tid)) ;;
    finish_all pid tid).

Definition getScheduledPid (c : nat) : M S (option Z) :=
  x <- get_cx c ;;
  if bool_decide (cx_state x = USED) then
    p <- curThread c ;; t <- get_th p ;; ret (Some (getPid (th_gid t)))
  else ret None.

(** The constructor. *)
Definition Scheduler_new (n : nat) (rnd : G) (cores : C) : S :=
  mkSched ∅ 0 ∅ (replicate n (mkCx IDLE None true)) (seq 0 n) (fun _ => []) [] 0 (mkClock 0 0 0) (mkFutex 0 0)
    (replicate MAX_THREADS ∅) [] rnd cores.
End Scheduler.
