(* ===== verification/SchedulerInv.v ===== *)
(** * The invariant of the scheduler

    Threads and contexts point to each other, every list holds exactly the
    threads whose [owner] it is, the sleep queue is ordered, a handoff goes to
    one queued thread, and no queued thread could run on a context that is free
    or kept by a thread that is out.

    Inside an operation a context may be on its way ([fx]: idle, but not in the
    free list), and queued threads may be on theirs ([ft]: in no list and not
    the target of a handoff). *)

From stdpp Require Import base list gmap sets strings sorting.
From Stdlib Require Import ZArith Lia.
From S2P Require Import Prelude Barrier Scheduler.
Local Open Scope Z_scope.

Section Inv.
Context {C G : Type} `{CoreOps C} `{RandInt G}.
Abbreviation S := (Sched C G).
Implicit Types (s : S) (t : ThreadInfo) (p c : nat).

Definition holding t : Prop := th_state t = Th.RUNNING \/ th_state t = Th.OUT.
#[global] Instance holding_dec t : Decision (holding t).
Proof. unfold holding. apply _. Defined.

Definition running s c : Prop :=
  exists p t, sc_threads s !! p = Some t /\ th_state t = Th.RUNNING /\ th_cid t = c.

Definition is_used (x : ContextInfo) : bool := bool_decide (cx_state x = USED).

(** ** Contexts and the free list *)
Definition cx_ok (fx : option nat) (m : gmap nat ThreadInfo) (c : nat) (x : ContextInfo) : Prop :=
  match cx_curThread x with
  | Some p => cx_state x = USED /\ cx_free x = false /\ exists t, m !! p = Some t /\ th_cid t = c /\ holding t
  | None => cx_state x = IDLE /\ (cx_free x = true <-> fx <> Some c)
  end.

Record ctx_inv (fx : option nat) s : Prop := {
  ci_cx : forall c x, sc_contexts s !! c = Some x -> cx_ok fx (sc_threads s) c x;
  ci_hold : forall p t, sc_threads s !! p = Some t -> holding t ->
    exists x, sc_contexts s !! th_cid t = Some x /\ cx_curThread x = Some p;
  ci_nodup : NoDup (sc_freeList s);
  ci_free : forall c, c ∈ sc_freeList s <-> exists x, sc_contexts s !! c = Some x /\ cx_free x = true;
  ci_count : sc_scheduledThreads s = Z.of_nat (count_if is_used (sc_contexts s));
  ci_size : (0 < numCores s <= MAX_THREADS)%nat
}.

(** ** Queues *)
Record queue_inv s : Prop := {
  qi_nodup : forall q, NoDup (sc_queues s q);
  qi_in : forall q p, p ∈ sc_queues s q <-> exists t, sc_threads s !! p = Some t /\ th_owner t = Some q
}.

(** The sleep queue is ordered by the phases. *)
Definition wake_of s p : Z := match sc_threads s !! p with Some t => th_wakeupPhase t | None => 0 end.
Definition sleep_sorted s : Prop := StronglySorted (fun p q => wake_of s p <= wake_of s q) (sc_queues s SleepQ).

(** ** Single threads *)
Definition waits_until (k : Z) t : Prop := th_futexWord t = 1 /\ k < th_wakeupPhase t < 2 ^ 64.

Record th_local (n : nat) (k : Z) t : Prop := {
  tl_cid : (th_cid t < n)%nat;
  tl_mask : length (th_mask t) = n;
  tl_allowed : holding t -> th_mask t !! th_cid t = Some true;
  tl_sleep : th_state t = Th.SLEEPING -> waits_until k t;
  tl_marked : th_markedForSleep t = true -> th_state t = Th.RUNNING /\ waits_until k t /\ th_fakeLeave t = None;
  tl_fake : is_Some (th_fakeLeave t) -> th_state t = Th.RUNNING;
  tl_handoff : is_Some (th_handoffThread t) -> th_state t = Th.RUNNING;
  tl_action : fj_action (th_futexJoin t) = FJA_NONE;
  tl_gid : 0 <= th_gid t < 2 ^ 32 /\ getPid (th_gid t) < Z.of_nat MAX_THREADS
}.

(** The list a thread is in. *)
Definition owner_for (m : gmap nat ThreadInfo) (ft : gset nat) (p : nat) t : Prop :=
  match th_state t with
  | Th.OUT => th_owner t = Some OutQ
  | Th.SLEEPING => th_owner t = Some SleepQ
  | Th.QUEUED => (th_owner t = Some RunQ /\ th_futexWord t = 1) \/
      (th_owner t = None /\
       (p ∈ ft \/ (th_futexWord t = 1 /\ exists v tv, m !! v = Some tv /\ th_handoffThread tv = Some p)))
  | _ => th_owner t = None
  end.

Record thread_inv (ft : gset nat) s : Prop := {
  ti_local : forall p t, sc_threads s !! p = Some t -> th_local (numCores s) (ck_curPhase (sc_clock s)) t;
  ti_fresh : forall p t, sc_threads s !! p = Some t -> (p < sc_fresh s)%nat;
  ti_owner : forall p t, sc_threads s !! p = Some t -> owner_for (sc_threads s) ft p t;
  ti_target : forall v tv q, sc_threads s !! v = Some tv -> th_handoffThread tv = Some q -> (q ∉ ft) /\
    exists t, sc_threads s !! q = Some t /\ th_state t = Th.QUEUED /\ th_owner t = None /\ th_mask t !! th_cid tv = Some true;
  ti_inj : forall v tv v' tv' q, sc_threads s !! v = Some tv -> sc_threads s !! v' = Some tv' ->
    th_handoffThread tv = Some q -> th_handoffThread tv' = Some q -> v = v';
  ti_gid : forall g p, sc_gidMap s !! g = Some p -> exists t, sc_threads s !! p = Some t /\ th_gid t = g;
  ti_fakes : NoDup (sc_fakeLeaves s) /\
    forall p, p ∈ sc_fakeLeaves s <-> exists t, sc_threads s !! p = Some t /\ is_Some (th_fakeLeave t);
  ti_phase : ck_curPhase (sc_clock s) = ck_numPhases (sc_clock s) /\ in_u64 (ck_curPhase (sc_clock s));
  ti_blocking : length (sc_blocking s) = MAX_THREADS
}.

(** No queued thread could run on a context that no thread uses. *)
Definition conserving (fx : option nat) s : Prop :=
  forall p t c, p ∈ sc_queues s RunQ -> sc_threads s !! p = Some t -> th_mask t !! c = Some true -> fx <> Some c ->
    running s c.

Record sched_inv (fx : option nat) (ft : gset nat) s : Prop := {
  si_ctx : ctx_inv fx s;
  si_queue : queue_inv s;
  si_sorted : sleep_sorted s;
  si_thread : thread_inv ft s;
  si_conserve : conserving fx s
}.

(** The cores that run a thread. *)
Definition runb s c : bool :=
  match sc_contexts s !! c ≫= cx_curThread with
  | Some p => match sc_threads s !! p with Some t => bool_decide (th_state t = Th.RUNNING) | None => false end
  | None => false
  end.

Lemma runb_running fx s c : ctx_inv fx s -> runb s c = true <-> running s c.
Proof.
  intros Hc. unfold runb, running. split.
  - destruct (sc_contexts s !! c) as [x|] eqn:Ex; [|done]. simpl. destruct (cx_curThread x) as [p|] eqn:Ep; [|done].
    pose proof (ci_cx _ _ Hc c x Ex) as Hx. unfold cx_ok in Hx. rewrite Ep in Hx.
    destruct Hx as (_ & _ & t & Ht & Hcid & _). rewrite Ht. intros Hr%bool_decide_eq_true. eauto.
  - intros (p & t & Ht & Hr & <-). destruct (ci_hold _ _ Hc p t Ht (or_introl Hr)) as (x & -> & Hx).
    simpl. rewrite Hx, Ht. by apply bool_decide_eq_true.
Qed.

(** ** What the cores rely on

    [j c]: core [c] has been joined and not left since. *)
Definition joined_set (j : nat -> bool) (c : nat) (b : bool) : nat -> bool := fun x => if decide (x = c) then b else j x.

Class CoreLaws (I : (nat -> bool) -> C -> Prop) := {
  law_ext : forall j j' k, (forall c, j c = j' c) -> I j k -> I j' k;
  law_join : forall j c k, I j k -> j c = false -> wp (core_join c) (fun _ k' => I (joined_set j c true) k') k;
  law_leave : forall j c k, I j k -> j c = true -> wp (core_leave c) (fun _ k' => I (joined_set j c false) k') k;
  law_switch : forall j c g k, I j k -> wp (core_contextSwitch c g) (fun _ k' => I j k') k;
  law_sync : forall j k, I j k -> wp atSyncFunc (fun _ k' => I j k') k
}.

(** ** Single operations *)

Lemma wp_get_th p t (Q : ThreadInfo -> S -> Prop) s : sc_threads s !! p = Some t -> Q t s -> wp (get_th p) Q s.
Proof. intros Ht HQ. unfold get_th. do 2 wp_step. rewrite Ht. by wp_step. Qed.
Lemma wp_upd_th p f t (Q : unit -> S -> Prop) s :
  sc_threads s !! p = Some t -> Q tt (set_heap (<[p := f t]> (sc_threads s)) s) -> wp (upd_th p f) Q s.
Proof. intros Ht HQ. unfold upd_th. wp_step. eapply wp_get_th; [done|]. by wp_step. Qed.
Lemma wp_get_cx c x (Q : ContextInfo -> S -> Prop) s : sc_contexts s !! c = Some x -> Q x s -> wp (get_cx c) Q s.
Proof. intros Hx HQ. unfold get_cx. do 2 wp_step. eapply wp_lift; [by apply at_ok|done]. Qed.
Lemma wp_upd_cx c f x (Q : unit -> S -> Prop) s :
  sc_contexts s !! c = Some x -> Q tt (set_contexts (<[c := f x]> (sc_contexts s)) s) -> wp (upd_cx c f) Q s.
Proof.
  intros Hx HQ. unfold upd_cx. wp_step. eapply wp_get_cx; [done|]. do 3 wp_step.
  eapply wp_lift; [apply set_at_ok; by eapply lookup_lt_Some|]. by wp_step.
Qed.
Lemma wp_in_cores {A} (m : M C A) (Q : A -> S -> Prop) s :
  wp m (fun a k => Q a (set_cores k s)) (sc_cores s) -> wp (in_cores m) Q s.
Proof. apply wp_zoom. Qed.
Lemma wp_mask_at t c b (Q : bool -> S -> Prop) s : th_mask t !! c = Some b -> Q b s -> wp (mask_at t c) Q s.
Proof. intros Hm HQ. eapply wp_lift; [by apply at_ok|done]. Qed.

Lemma owned_true o t : owned_by o t = true <-> th_owner t = o.
Proof. unfold owned_by. by rewrite bool_decide_eq_true. Qed.

Lemma wp_push_back q p t (Q : unit -> S -> Prop) s :
  sc_threads s !! p = Some t -> th_owner t = None ->
  Q tt (set_queue q (sc_queues s q ++ [p]) (set_heap (<[p := th_set_owner (Some q) t]> (sc_threads s)) s)) ->
  wp (q_push_back q p) Q s.
Proof.
  intros Ht Ho HQ. unfold q_push_back. wp_step. eapply wp_get_th; [done|]. do 2 wp_step; [by apply owned_true|].
  wp_step. eapply wp_upd_th; [done|]. by wp_step.
Qed.
Lemma wp_push_front q p t (Q : unit -> S -> Prop) s :
  sc_threads s !! p = Some t -> th_owner t = None ->
  Q tt (set_queue q (p :: sc_queues s q) (set_heap (<[p := th_set_owner (Some q) t]> (sc_threads s)) s)) ->
  wp (q_push_front q p) Q s.
Proof.
  intros Ht Ho HQ. unfold q_push_front. wp_step. eapply wp_get_th; [done|]. do 2 wp_step; [by apply owned_true|].
  wp_step. eapply wp_upd_th; [done|]. by wp_step.
Qed.
Lemma wp_insertAfter q v p t tv (Q : unit -> S -> Prop) s :
  sc_threads s !! p = Some t -> th_owner t = None -> sc_threads s !! v = Some tv -> th_owner tv = Some q ->
  Q tt (set_queue q (insert_after v p (sc_queues s q)) (set_heap (<[p := th_set_owner (Some q) t]> (sc_threads s)) s)) ->
  wp (q_insertAfter q v p) Q s.
Proof.
  intros Ht Ho Hv Hov HQ. unfold q_insertAfter. wp_step. eapply wp_get_th; [done|]. do 2 wp_step; [by apply owned_true|].
  wp_step. eapply wp_get_th; [done|]. do 2 wp_step; [by apply owned_true|].
  wp_step. eapply wp_upd_th; [done|]. by wp_step.
Qed.
Lemma wp_remove q p t (Q : unit -> S -> Prop) s :
  sc_threads s !! p = Some t -> th_owner t = Some q ->
  Q tt (set_queue q (remove_one p (sc_queues s q)) (set_heap (<[p := th_set_owner None t]> (sc_threads s)) s)) ->
  wp (q_remove q p) Q s.
Proof.
  intros Ht Ho HQ. unfold q_remove. wp_step. eapply wp_get_th; [done|]. do 2 wp_step; [by apply owned_true|].
  wp_step. eapply wp_upd_th; [done|]. by wp_step.
Qed.
Lemma wp_free_push c x (Q : unit -> S -> Prop) s :
  sc_contexts s !! c = Some x -> cx_free x = false ->
  Q tt (set_freeList (sc_freeList s ++ [c]) (set_contexts (<[c := cx_set_free true x]> (sc_contexts s)) s)) ->
  wp (free_push c) Q s.
Proof.
  intros Hx Hf HQ. unfold free_push. wp_step. eapply wp_get_cx; [done|]. do 2 wp_step; [by rewrite Hf|].
  wp_step. eapply wp_upd_cx; [done|]. by wp_step.
Qed.
Lemma wp_free_remove c x (Q : unit -> S -> Prop) s :
  sc_contexts s !! c = Some x -> cx_free x = true ->
  Q tt (set_freeList (remove_one c (sc_freeList s)) (set_contexts (<[c := cx_set_free false x]> (sc_contexts s)) s)) ->
  wp (free_remove c) Q s.
Proof.
  intros Hx Hf HQ. unfold free_remove. wp_step. eapply wp_get_cx; [done|]. do 2 wp_step; [done|].
  wp_step. eapply wp_upd_cx; [done|]. by wp_step.
Qed.

Lemma is_state_true l t : is_state l t = true <-> th_state t ∈ l.
Proof. unfold is_state. by rewrite bool_decide_eq_true. Qed.
Lemma is_state_one v t : is_state [v] t = bool_decide (th_state t = v).
Proof. unfold is_state. apply bool_decide_ext. by rewrite list_elem_of_singleton. Qed.

(** ** Lists *)
Lemma elem_of_remove_one p l x : x ∈ remove_one p l <-> x ∈ l /\ x <> p.
Proof. unfold remove_one. rewrite list_elem_of_filter. tauto. Qed.
Lemma NoDup_remove_one p l : NoDup l -> NoDup (remove_one p l).
Proof. apply NoDup_filter. Qed.
Lemma NoDup_snoc (l : list nat) x : NoDup l -> x ∉ l -> NoDup (l ++ [x]).
Proof.
  intros Hl Hx. rewrite <- Permutation_cons_append. by constructor.
Qed.
Lemma insert_after_perm v p l : v ∈ l -> insert_after v p l ≡ₚ p :: l.
Proof.
  induction l as [|x l IH]; intros Hin; [by apply not_elem_of_nil in Hin|]. simpl. destruct (decide (x = v)) as [->|Hne].
  - apply Permutation_swap.
  - rewrite IH; [apply Permutation_swap|]. by apply elem_of_cons in Hin as [->|?].
Qed.
End Inv.
