(* ===== verification/SchedulerMoves.v ===== *)
(** * The parts of the scheduler's invariant under single changes

    One lemma per way in which contexts, queues and a thread can change; the
    operations combine them. *)

From stdpp Require Import base list gmap sets strings sorting.
From Stdlib Require Import ZArith Lia.
From S2P Require Import Prelude Barrier Scheduler SchedulerInv.
Local Open Scope Z_scope.

Section Moves.
Context {C G : Type} `{CoreOps C} `{RandInt G}.
Abbreviation S := (Sched C G).
Implicit Types (s : S) (t : ThreadInfo) (p c : nat).

(** ** Contexts *)

(** The parts of the state that the contexts are about. *)
Definition same_ctx s s' : Prop :=
  sc_contexts s' = sc_contexts s /\ sc_freeList s' = sc_freeList s /\ sc_scheduledThreads s' = sc_scheduledThreads s.

Lemma ctx_upd fx s s' p t t' : ctx_inv fx s -> sc_threads s !! p = Some t ->
  sc_threads s' = <[p := t']> (sc_threads s) -> same_ctx s s' ->
  (holding t' <-> holding t) -> (holding t -> th_cid t' = th_cid t) -> ctx_inv fx s'.
Proof.
  intros [K1 K2 K3 K4 K5 K6] Hp Hm (E1 & E2 & E3) Hh Hcid.
  split; rewrite ?E1, ?E2, ?E3; unfold numCores in *; rewrite ?E1; try done.
  - intros c x Hx. specialize (K1 c x Hx). unfold cx_ok in *. destruct (cx_curThread x) as [v|]; [|done].
    destruct K1 as (? & ? & tv & Hv & Hc & Hhv). split_and!; try done. rewrite Hm.
    destruct (decide (v = p)) as [->|Hne]; [|rewrite lookup_insert_ne by done; eauto].
    rewrite lookup_insert_eq. simplify_eq. exists t'. split_and!; [done|by rewrite Hcid|by apply Hh].
  - intros v tv Hv Hhv. rewrite Hm in Hv. apply lookup_insert_Some in Hv as [[<- <-]|[_ Hv]]; [|by eapply K2].
    apply Hh in Hhv as Hht. rewrite Hcid by done. by eapply K2.
Qed.

Lemma ctx_same fx s s' : ctx_inv fx s -> sc_threads s' = sc_threads s -> same_ctx s s' -> ctx_inv fx s'.
Proof.
  intros [K1 K2 K3 K4 K5 K6] Em (E1 & E2 & E3).
  split; rewrite ?E1, ?E2, ?E3, ?Em; unfold numCores in *; rewrite ?E1; try done.
Qed.

Lemma ctx_take s s' c x : ctx_inv None s -> sc_contexts s !! c = Some x -> cx_curThread x = None ->
  sc_threads s' = sc_threads s -> sc_contexts s' = <[c := cx_set_free false x]> (sc_contexts s) ->
  sc_freeList s' = remove_one c (sc_freeList s) -> sc_scheduledThreads s' = sc_scheduledThreads s -> ctx_inv (Some c) s'.
Proof.
  intros [K1 K2 K3 K4 K5 K6] Hx Hf Em Ec Ef Es. pose proof (K1 c x Hx) as Hcx. unfold cx_ok in Hcx. rewrite Hf in Hcx.
  pose proof (lookup_lt_Some _ _ _ Hx) as Hlt.
  split; rewrite ?Em, ?Ec, ?Ef, ?Es.
  - intros c' x' Hx'. apply list_lookup_insert_Some in Hx' as [(<- & <- & _)|[Hne Hx']]; unfold cx_ok.
    + simpl. rewrite Hf. split; [by destruct Hcx|]. split; [done|]. by intros [].
    + specialize (K1 c' x' Hx'). unfold cx_ok in K1. destruct (cx_curThread x'); [done|]. destruct K1 as [? K1].
      split; [done|]. rewrite K1. split; congruence.
  - intros p t Hp Hh. destruct (K2 p t Hp Hh) as (y & Hy & Hyp). destruct (decide (th_cid t = c)) as [E|Hne].
    + rewrite E in Hy. simplify_eq.
    + exists y. rewrite list_lookup_insert_ne by done. done.
  - by apply NoDup_remove_one.
  - intros c'. rewrite elem_of_remove_one, K4. split.
    + intros [(y & Hy & Hyf) Hne]. exists y. by rewrite list_lookup_insert_ne by done.
    + intros (y & Hy & Hyf). apply list_lookup_insert_Some in Hy as [(<- & <- & _)|[Hne Hy]]; [done|]. eauto.
  - rewrite K5. f_equal. pose proof (count_if_insert is_used _ c x (cx_set_free false x) Hx) as Hci.
    assert (is_used (cx_set_free false x) = is_used x) as E by done. rewrite E in Hci. lia.
  - unfold numCores in *. rewrite Ec, length_insert. done.
Qed.

Lemma ctx_give s s' c x : ctx_inv (Some c) s -> sc_contexts s !! c = Some x -> cx_curThread x = None ->
  sc_threads s' = sc_threads s -> sc_contexts s' = <[c := cx_set_free true x]> (sc_contexts s) ->
  sc_freeList s' = sc_freeList s ++ [c] -> sc_scheduledThreads s' = sc_scheduledThreads s -> ctx_inv None s'.
Proof.
  intros [K1 K2 K3 K4 K5 K6] Hx Hf Em Ec Ef Es. pose proof (K1 c x Hx) as Hcx. unfold cx_ok in Hcx. rewrite Hf in Hcx.
  pose proof (lookup_lt_Some _ _ _ Hx) as Hlt.
  assert (cx_free x = false) as Hfalse.
  { destruct Hcx as [_ Hcx]. destruct (cx_free x); [|done]. by destruct (proj1 Hcx eq_refl). }
  split; rewrite ?Em, ?Ec, ?Ef, ?Es.
  - intros c' x' Hx'. apply list_lookup_insert_Some in Hx' as [(<- & <- & _)|[Hne Hx']]; unfold cx_ok.
    + simpl. rewrite Hf. split; [by destruct Hcx|]. done.
    + specialize (K1 c' x' Hx'). unfold cx_ok in K1. destruct (cx_curThread x'); [done|]. destruct K1 as [? K1].
      split; [done|]. rewrite K1. split; congruence.
  - intros p t Hp Hh. destruct (K2 p t Hp Hh) as (y & Hy & Hyp). destruct (decide (th_cid t = c)) as [E|Hne].
    + rewrite E in Hy. simplify_eq.
    + exists y. rewrite list_lookup_insert_ne by done. done.
  - apply NoDup_snoc; [done|]. rewrite K4. intros (y & Hy & Hyf). simplify_eq. congruence.
  - intros c'. rewrite elem_of_app, list_elem_of_singleton, K4. split.
    + intros [(y & Hy & Hyf)| ->]; [|exists (cx_set_free true x); by rewrite list_lookup_insert_eq].
      exists y. rewrite list_lookup_insert_ne; [done|]. intros ->. simplify_eq. congruence.
    + intros (y & Hy & Hyf). apply list_lookup_insert_Some in Hy as [(<- & <- & _)|[Hne Hy]]; [by right|]. eauto.
  - rewrite K5. f_equal. pose proof (count_if_insert is_used _ c x (cx_set_free true x) Hx) as Hci.
    assert (is_used (cx_set_free true x) = is_used x) as E by done. rewrite E in Hci. lia.
  - unfold numCores in *. rewrite Ec, length_insert. done.
Qed.

Lemma ctx_hold s s' c x p t t' : ctx_inv (Some c) s -> sc_contexts s !! c = Some x -> cx_curThread x = None ->
  sc_threads s !! p = Some t -> ~ holding t -> holding t' -> th_cid t' = c ->
  sc_threads s' = <[p := t']> (sc_threads s) -> sc_contexts s' = <[c := mkCx USED (Some p) (cx_free x)]> (sc_contexts s) ->
  sc_freeList s' = sc_freeList s -> sc_scheduledThreads s' = u32 (sc_scheduledThreads s + 1) -> ctx_inv None s'.
Proof.
  intros [K1 K2 K3 K4 K5 K6] Hx Hf Hp Hn Hh Hcid Em Ec Ef Es.
  pose proof (K1 c x Hx) as Hcx. unfold cx_ok in Hcx. rewrite Hf in Hcx. destruct Hcx as [Hidle Hcx].
  pose proof (lookup_lt_Some _ _ _ Hx) as Hlt.
  assert (cx_free x = false) as Hfalse by (destruct (cx_free x); [by destruct (proj1 Hcx eq_refl)|done]).
  pose proof (count_if_insert is_used _ c x (mkCx USED (Some p) (cx_free x)) Hx) as Hci.
  pose proof (count_if_le is_used (<[c := mkCx USED (Some p) (cx_free x)]> (sc_contexts s))) as Hle.
  rewrite length_insert in Hle. unfold is_used in Hci at 2 4. rewrite Hidle in Hci. simpl in Hci.
  unfold numCores, MAX_THREADS in *. split; rewrite ?Em, ?Ec, ?Ef, ?Es.
  - intros c' x' Hx'. apply list_lookup_insert_Some in Hx' as [(<- & <- & _)|[Hne Hx']]; unfold cx_ok; simpl.
    + split_and!; try done. exists t'. by rewrite lookup_insert_eq.
    + specialize (K1 c' x' Hx'). unfold cx_ok in K1. destruct (cx_curThread x') as [v|].
      * destruct K1 as (? & ? & tv & Hv & ? & ?). split_and!; try done. exists tv.
        rewrite lookup_insert_ne; [done|]. intros ->. simplify_eq.
      * destruct K1 as [? K1]. split; [done|]. rewrite K1. split; congruence.
  - intros v tv Hv Hhv. apply lookup_insert_Some in Hv as [[<- <-]|[Hne Hv]].
    + rewrite Hcid. exists (mkCx USED (Some p) (cx_free x)). by rewrite list_lookup_insert_eq.
    + destruct (K2 v tv Hv Hhv) as (y & Hy & Hyp). exists y. rewrite list_lookup_insert_ne; [done|].
      intros E. rewrite <- E in Hy. simplify_eq.
  - done.
  - intros c'. rewrite K4. split.
    + intros (y & Hy & Hyf). exists y. rewrite list_lookup_insert_ne; [done|]. intros ->. simplify_eq. congruence.
    + intros (y & Hy & Hyf). apply list_lookup_insert_Some in Hy as [(<- & <- & _)|[Hne Hy]]; [simpl in *; congruence|]. eauto.
  - rewrite K5, u32_id by (unfold in_u32; lia). lia.
  - unfold numCores. by rewrite Ec, length_insert.
Qed.

Lemma ctx_release s s' c x p t t' : ctx_inv None s -> sc_contexts s !! c = Some x -> cx_curThread x = Some p ->
  sc_threads s !! p = Some t -> th_cid t = c -> ~ holding t' ->
  sc_threads s' = <[p := t']> (sc_threads s) -> sc_contexts s' = <[c := mkCx IDLE None (cx_free x)]> (sc_contexts s) ->
  sc_freeList s' = sc_freeList s -> sc_scheduledThreads s' = u32 (sc_scheduledThreads s - 1) -> ctx_inv (Some c) s'.
Proof.
  intros [K1 K2 K3 K4 K5 K6] Hx Hf Hp Hcid Hn Em Ec Ef Es.
  pose proof (K1 c x Hx) as Hcx. unfold cx_ok in Hcx. rewrite Hf in Hcx. destruct Hcx as (Hused & Hfree & _).
  pose proof (lookup_lt_Some _ _ _ Hx) as Hlt.
  pose proof (count_if_insert is_used _ c x (mkCx IDLE None (cx_free x)) Hx) as Hci.
  pose proof (count_if_le is_used (sc_contexts s)) as Hle.
  unfold is_used in Hci at 2 4. rewrite Hused in Hci. simpl in Hci. unfold numCores, MAX_THREADS in *.
  split; rewrite ?Em, ?Ec, ?Ef, ?Es.
  - intros c' x' Hx'. apply list_lookup_insert_Some in Hx' as [(<- & <- & _)|[Hne Hx']]; unfold cx_ok; simpl.
    + split; [done|]. rewrite Hfree. split; [done|]. by intros [].
    + specialize (K1 c' x' Hx'). unfold cx_ok in K1. destruct (cx_curThread x') as [v|].
      * destruct K1 as (? & ? & tv & Hv & ? & ?). split_and!; try done. exists tv.
        rewrite lookup_insert_ne; [done|]. intros ->. simplify_eq.
      * destruct K1 as [? K1]. split; [done|]. rewrite K1. split; congruence.
  - intros v tv Hv Hhv. apply lookup_insert_Some in Hv as [[<- <-]|[Hne Hv]]; [done|].
    destruct (K2 v tv Hv Hhv) as (y & Hy & Hyp). exists y. rewrite list_lookup_insert_ne; [done|].
    intros E. rewrite <- E in Hy. simplify_eq.
  - done.
  - intros c'. rewrite K4. split.
    + intros (y & Hy & Hyf). exists y. rewrite list_lookup_insert_ne; [done|]. intros ->. simplify_eq. congruence.
    + intros (y & Hy & Hyf). apply list_lookup_insert_Some in Hy as [(<- & <- & _)|[Hne Hy]]; [simpl in *; congruence|]. eauto.
  - rewrite K5, u32_id by (unfold in_u32; lia). lia.
  - unfold numCores. by rewrite Ec, length_insert.
Qed.

(** ** Queues *)

Lemma queue_upd s s' p t t' : queue_inv s -> sc_threads s !! p = Some t ->
  sc_threads s' = <[p := t']> (sc_threads s) -> (forall q, sc_queues s' q = sc_queues s q) -> th_owner t' = th_owner t -> queue_inv s'.
Proof.
  intros [K1 K2] Hp Em Eq Ho. split; intros q; rewrite ?Eq; [done|]. intros v. rewrite K2, Em.
  destruct (decide (v = p)) as [->|Hne]; [|by rewrite lookup_insert_ne].
  rewrite lookup_insert_eq. split; intros (tv & Hv & Hov); simplify_eq; [exists t'|exists t]; split; congruence.
Qed.

Lemma queue_same s s' : queue_inv s -> sc_threads s' = sc_threads s -> (forall q, sc_queues s' q = sc_queues s q) -> queue_inv s'.
Proof. intros [K1 K2] Em Eq. split; intros q; rewrite ?Eq; [done|]. intros v. by rewrite K2, Em. Qed.

Lemma queue_put s s' q p t t' l : queue_inv s -> sc_threads s !! p = Some t -> th_owner t = None -> th_owner t' = Some q ->
  sc_threads s' = <[p := t']> (sc_threads s) ->
  (forall q', sc_queues s' q' = if decide (q' = q) then l else sc_queues s q') -> l ≡ₚ p :: sc_queues s q -> queue_inv s'.
Proof.
  intros [K1 K2] Hp Ho Ho' Em Eq Hl.
  assert (p ∉ sc_queues s q) as Hnp by (rewrite K2; intros (? & ? & ?); congruence).
  split; intros q'; rewrite Eq.
  - destruct (decide (q' = q)) as [->|]; [|done]. rewrite Hl. by constructor.
  - intros v. rewrite Em. destruct (decide (v = p)) as [->|Hne].
    + rewrite lookup_insert_eq. destruct (decide (q' = q)) as [->|Hq].
      * rewrite Hl. split; [eauto|left].
      * rewrite K2. split; intros (tv & Hv & Hov); simplify_eq; congruence.
    + rewrite lookup_insert_ne by done. destruct (decide (q' = q)) as [->|Hq]; [|done].
      rewrite Hl, elem_of_cons, K2. naive_solver.
Qed.

Lemma queue_take s s' q p t t' : queue_inv s -> sc_threads s !! p = Some t -> th_owner t = Some q -> th_owner t' = None ->
  sc_threads s' = <[p := t']> (sc_threads s) ->
  (forall q', sc_queues s' q' = if decide (q' = q) then remove_one p (sc_queues s q) else sc_queues s q') -> queue_inv s'.
Proof.
  intros [K1 K2] Hp Ho Ho' Em Eq. split; intros q'; rewrite Eq.
  - destruct (decide (q' = q)) as [->|]; [|done]. by apply NoDup_remove_one.
  - intros v. rewrite Em. destruct (decide (v = p)) as [->|Hne].
    + rewrite lookup_insert_eq. destruct (decide (q' = q)) as [->|Hq].
      * rewrite elem_of_remove_one. split; [by intros [_ []]|]. intros (tv & Hv & Hov). congruence.
      * rewrite K2. split; intros (tv & Hv & Hov); simplify_eq; congruence.
    + rewrite lookup_insert_ne by done. destruct (decide (q' = q)) as [->|Hq]; [|done].
      rewrite elem_of_remove_one, K2. naive_solver.
Qed.

(** ** The order of the sleep queue *)

Lemma sorted_ext s s' : sleep_sorted s -> sc_queues s' SleepQ = sc_queues s SleepQ ->
  (forall p, p ∈ sc_queues s SleepQ -> wake_of s' p = wake_of s p) -> sleep_sorted s'.
Proof.
  unfold sleep_sorted. intros Hs -> Hw. induction Hs as [|x l Hs IH Hall]; constructor.
  - apply IH. intros p Hp. apply Hw. by right.
  - rewrite Forall_forall in *. intros y Hy. rewrite (Hw x) by left. rewrite (Hw y) by (by right). by apply Hall.
Qed.

Lemma sorted_sub (R : nat -> nat -> Prop) l p : StronglySorted R l -> StronglySorted R (remove_one p l).
Proof.
  induction 1 as [|x l Hs IH Hall]; [constructor|]. unfold remove_one in *. rewrite filter_cons.
  case_decide; [|done]. constructor; [done|]. rewrite Forall_forall in *. intros y [_ Hy]%list_elem_of_filter. by apply Hall.
Qed.

Lemma wake_of_upd s s' p t t' v : sc_threads s !! p = Some t -> sc_threads s' = <[p := t']> (sc_threads s) ->
  v <> p \/ th_wakeupPhase t' = th_wakeupPhase t -> wake_of s' v = wake_of s v.
Proof.
  intros Hp Em Hor. unfold wake_of. rewrite Em. destruct (decide (v = p)) as [->|Hne]; [|by rewrite lookup_insert_ne].
  rewrite lookup_insert_eq, Hp. by destruct Hor.
Qed.

(** A change of a thread that is not asleep, or keeps its phase. *)
Lemma sorted_upd s s' p t t' : sleep_sorted s -> queue_inv s -> sc_threads s !! p = Some t ->
  sc_threads s' = <[p := t']> (sc_threads s) -> sc_queues s' SleepQ = sc_queues s SleepQ ->
  th_owner t <> Some SleepQ \/ th_wakeupPhase t' = th_wakeupPhase t -> sleep_sorted s'.
Proof.
  intros Hs Hq Hp Em Eq Hor. eapply sorted_ext; [done|done|]. intros v Hv. eapply wake_of_upd; [done|done|].
  destruct Hor as [Ho|]; [|by right]. left. intros ->. apply (qi_in _ Hq) in Hv as (tv & ? & ?). congruence.
Qed.

Lemma sorted_remove s s' p t t' : sleep_sorted s -> sc_threads s !! p = Some t ->
  sc_threads s' = <[p := t']> (sc_threads s) -> sc_queues s' SleepQ = remove_one p (sc_queues s SleepQ) -> sleep_sorted s'.
Proof.
  unfold sleep_sorted. intros Hs Hp Em ->.
  assert (StronglySorted (fun v w => wake_of s v <= wake_of s w) (remove_one p (sc_queues s SleepQ))) as Hr by (by apply sorted_sub).
  assert (forall v, v ∈ remove_one p (sc_queues s SleepQ) -> wake_of s' v = wake_of s v) as Hw.
  { intros v [_ Hv]%elem_of_remove_one. eapply wake_of_upd; [done|done|by left]. }
  induction Hr as [|x l Hr IH Hall]; constructor.
  - apply IH. intros v Hv. apply Hw. by right.
  - rewrite Forall_forall in *. intros y Hy. rewrite (Hw x) by left. rewrite (Hw y) by (by right). by apply Hall.
Qed.

(** ** One thread changes *)

Definition targeted s p : Prop := exists v tv, sc_threads s !! v = Some tv /\ th_handoffThread tv = Some p.

(** The parts of the state that no change of a thread touches. *)
Record same_rest s s' : Prop := {
  sr_cores : numCores s' = numCores s;
  sr_fresh : sc_fresh s' = sc_fresh s;
  sr_clock : sc_clock s' = sc_clock s;
  sr_blocking : sc_blocking s' = sc_blocking s
}.

(** The fake leaves follow the thread. *)
Definition fakes_follow s s' p t t' : Prop :=
  (sc_fakeLeaves s' = sc_fakeLeaves s /\ (is_Some (th_fakeLeave t') <-> is_Some (th_fakeLeave t))) \/
  (sc_fakeLeaves s' = remove_one p (sc_fakeLeaves s) /\ th_fakeLeave t' = None) \/
  (sc_fakeLeaves s' = sc_fakeLeaves s ++ [p] /\ th_fakeLeave t = None /\ is_Some (th_fakeLeave t')).

Lemma fakes_ok s s' p t t' : (NoDup (sc_fakeLeaves s) /\
    forall p, p ∈ sc_fakeLeaves s <-> exists t, sc_threads s !! p = Some t /\ is_Some (th_fakeLeave t)) ->
  sc_threads s !! p = Some t -> sc_threads s' = <[p := t']> (sc_threads s) -> fakes_follow s s' p t t' ->
  NoDup (sc_fakeLeaves s') /\
    forall p, p ∈ sc_fakeLeaves s' <-> exists t, sc_threads s' !! p = Some t /\ is_Some (th_fakeLeave t).
Proof.
  intros [K1 K2] Hp Em Hf. split.
  - destruct Hf as [[-> _]|[[-> _]|(-> & Hn & _)]]; [done|by apply NoDup_remove_one|]. apply NoDup_snoc; [done|].
    rewrite K2. intros (tv & ? & []). congruence.
  - intros v. rewrite Em. destruct (decide (v = p)) as [->|Hne].
    + rewrite lookup_insert_eq. destruct Hf as [[-> Hf]|[[-> Hf]|(-> & Hn & Hf)]].
      * rewrite K2. split; intros (tv & ? & ?); simplify_eq; [exists t'|exists t]; split; tauto.
      * rewrite elem_of_remove_one. split; [by intros [_ []]|]. intros (tv & ? & [? ?]). congruence.
      * rewrite elem_of_app, list_elem_of_singleton. split; [eauto|by right].
    + rewrite lookup_insert_ne by done.
      destruct Hf as [[-> Hf]|[[-> Hf]|(-> & Hn & Hf)]]; rewrite ?elem_of_remove_one, ?elem_of_app, ?list_elem_of_singleton, K2; naive_solver.
Qed.

(** The handoffs: kept, or the one of [p] is dropped. *)
Lemma thread_upd ft ft' s s' p t t' : thread_inv ft s -> sc_threads s !! p = Some t ->
  sc_threads s' = <[p := t']> (sc_threads s) -> same_rest s s' -> sc_gidMap s' = sc_gidMap s ->
  fakes_follow s s' p t t' -> th_gid t' = th_gid t ->
  th_local (numCores s) (ck_curPhase (sc_clock s)) t' -> owner_for (sc_threads s') ft' p t' ->
  (forall x, x <> p -> x ∈ ft -> x ∈ ft') ->
  (forall x, x ∈ ft' -> x ∈ ft \/ x = p \/ th_handoffThread t = Some x /\ th_handoffThread t' = None) ->
  (targeted s p -> th_state t' = Th.QUEUED /\ th_owner t' = None /\ th_mask t' = th_mask t /\ p ∉ ft') ->
  (th_handoffThread t' = th_handoffThread t /\ (is_Some (th_handoffThread t) -> th_cid t' = th_cid t)) \/
  (th_handoffThread t' = None /\ forall q, th_handoffThread t = Some q -> q ∈ ft') ->
  thread_inv ft' s'.
Proof.
  intros [K1 K2 K3 K4 K5 K6 K7 K8 K9] Hp Em [R1 R2 R3 R4] Eg Hf Hg Hloc Hown Hf1 Hf2 Htg Hho.
  assert (forall v tv, sc_threads s' !! v = Some tv -> exists tv0, sc_threads s !! v = Some tv0 /\ th_gid tv = th_gid tv0 /\
    (v <> p -> tv = tv0) /\ (forall q, th_handoffThread tv = Some q -> th_handoffThread tv0 = Some q /\ th_cid tv = th_cid tv0)) as Hback.
  { intros v tv Hv. rewrite Em in Hv. apply lookup_insert_Some in Hv as [[<- <-]|[Hne Hv]]; [|by exists tv].
    exists t. split_and!; try done. intros q Hq. destruct Hho as [[E Ec]|[E _]]; [|congruence]. rewrite E in Hq. split; [done|]. eauto. }
  split; rewrite ?R1, ?R2, ?R3, ?R4, ?Eg; try done.
  - intros v tv Hv. rewrite Em in Hv. apply lookup_insert_Some in Hv as [[<- <-]|[_ Hv]]; [done|by eapply K1].
  - intros v tv (tv0 & Hv & _)%Hback. by eapply K2.
  - intros v tv Hv. destruct (decide (v = p)) as [->|Hne].
    { rewrite Em, lookup_insert_eq in Hv. by simplify_eq. }
    rewrite Em, lookup_insert_ne in Hv by done. specialize (K3 v tv Hv). unfold owner_for in *.
    destruct (th_state tv); try done. destruct K3 as [?|[? [Hin|(? & w & tw & Hw & Hwv)]]]; [by left|right|right].
    { split; [done|]. left. by apply Hf1. }
    split; [done|]. destruct (decide (w = p)) as [->|Hwp]; [|right; split; [done|]; exists w, tw; by rewrite Em, lookup_insert_ne by done].
    simplify_eq. destruct Hho as [[E _]|[E Hd]]; [right; split; [done|]; exists p, t'; rewrite Em, lookup_insert_eq; by rewrite E|].
    left. by apply Hd.
  - intros v tv q Hv Hq. destruct (Hback v tv Hv) as (tv0 & Hv0 & _ & Hsame & Hh). destruct (Hh q Hq) as [Hq0 Hc].
    destruct (K4 v tv0 q Hv0 Hq0) as (Hnf & tq & Htq & Hs & Ho & Hm). rewrite Em.
    destruct (decide (q = p)) as [->|Hne].
    + destruct Htg as (A1 & A2 & A3 & A4); [by exists v, tv0|]. split; [done|]. exists t'. rewrite lookup_insert_eq. simplify_eq.
      split_and!; try done. by rewrite A3, Hc.
    + split; [|exists tq; rewrite lookup_insert_ne by done; by rewrite Hc].
      intros [Hin|[?|[Hd Hd']]]%Hf2; [done|done|].
      assert (v = p) as -> by (by apply (K5 v tv0 p t q)). rewrite Em, lookup_insert_eq in Hv. congruence.
  - intros v tv v' tv' q Hv Hv' Hq Hq'. destruct (Hback v tv Hv) as (u & Hu & _ & _ & Hh). destruct (Hback v' tv' Hv') as (u' & Hu' & _ & _ & Hh').
    destruct (Hh q Hq) as [A _], (Hh' q Hq') as [B _]. by eapply K5.
  - intros g v Hv. destruct (K6 g v Hv) as (tv & Htv & Hgv). rewrite Em. destruct (decide (v = p)) as [->|Hne].
    + exists t'. rewrite lookup_insert_eq. split; [done|]. simplify_eq. congruence.
    + exists tv. by rewrite lookup_insert_ne.
  - by eapply fakes_ok.
Qed.
End Moves.
