(* ===== verification/SchedulerOps.v ===== *)
(** * The operations of the scheduler on contexts and queues keep the invariant *)

From stdpp Require Import base list gmap sets strings sorting.
From Stdlib Require Import ZArith Lia.
From S2P Require Import Prelude Barrier Scheduler SchedulerInv SchedulerMoves.
Local Open Scope Z_scope.

Section Ops.
Context {C G : Type} `{CoreOps C} `{RandInt G}.
Context (I : (nat -> bool) -> C -> Prop) {HI : CoreLaws I}.
Abbreviation S := (Sched C G).
Implicit Types (s : S) (t : ThreadInfo) (p c : nat) (j : nat -> bool) (ft : gset nat).

(** A context that no thread uses, and one that no queued thread wants. *)
Definition floating s c : Prop := exists x, sc_contexts s !! c = Some x /\ cx_curThread x = None.
Definition unwanted s c : Prop :=
  forall p t, p ∈ sc_queues s RunQ -> sc_threads s !! p = Some t -> th_mask t !! c <> Some true.

(** ** Consequences of the invariant *)

Lemma not_targeted ft s p t : thread_inv ft s -> sc_threads s !! p = Some t ->
  th_state t <> Th.QUEUED \/ p ∈ ft \/ th_owner t <> None -> ~ targeted s p.
Proof.
  intros Hti Hp Hor (v & tv & Hv & Hh). destruct (ti_target _ _ Hti v tv p Hv Hh) as (Hn & t' & Ht' & Hs & Ho & _).
  simplify_eq. destruct Hor as [?|[?|?]]; [done..|congruence].
Qed.

(** A thread that does not run is not marked, has no fake leave and hands
    nothing off. *)
Lemma idle_thread n k t : th_local n k t -> th_state t <> Th.RUNNING ->
  th_markedForSleep t = false /\ th_fakeLeave t = None /\ th_handoffThread t = None.
Proof.
  intros Hl Hn. split_and!.
  - destruct (th_markedForSleep t) eqn:E; [|done]. by destruct (tl_marked _ _ _ Hl E) as [? _].
  - apply eq_None_not_Some. intros Hs. by apply Hn, (tl_fake _ _ _ Hl).
  - apply eq_None_not_Some. intros Hs. by apply Hn, (tl_handoff _ _ _ Hl).
Qed.

(** The context of a thread that runs or is out. *)
Lemma hold_context fx s p t : ctx_inv fx s -> sc_threads s !! p = Some t -> holding t ->
  exists x, sc_contexts s !! th_cid t = Some x /\ cx_curThread x = Some p /\ cx_state x = USED /\ cx_free x = false.
Proof.
  intros Hc Hp Hh. destruct (ci_hold _ _ Hc p t Hp Hh) as (x & Hx & Hxp). exists x.
  pose proof (ci_cx _ _ Hc _ x Hx) as Hcx. unfold cx_ok in Hcx. rewrite Hxp in Hcx. destruct Hcx as (? & ? & _). done.
Qed.

(** A context has one thread. *)
Lemma hold_unique fx s p t p' t' : ctx_inv fx s -> sc_threads s !! p = Some t -> sc_threads s !! p' = Some t' ->
  holding t -> holding t' -> th_cid t = th_cid t' -> p = p'.
Proof.
  intros Hc Hp Hp' Hh Hh' E. destruct (ci_hold _ _ Hc p t Hp Hh) as (x & Hx & ?), (ci_hold _ _ Hc p' t' Hp' Hh') as (x' & Hx' & ?).
  rewrite E in Hx. congruence.
Qed.

(** [running] is kept when no running thread changes. *)
Lemma running_upd s s' p t t' c : sc_threads s !! p = Some t -> sc_threads s' = <[p := t']> (sc_threads s) ->
  (th_state t = Th.RUNNING -> th_cid t = c -> th_state t' = Th.RUNNING /\ th_cid t' = c) -> running s c -> running s' c.
Proof.
  intros Hp Em Hk (v & tv & Hv & Hr & Hc). destruct (decide (v = p)) as [->|Hne].
  - simplify_eq. destruct (Hk Hr eq_refl). exists p, t'. by rewrite Em, lookup_insert_eq.
  - exists v, tv. by rewrite Em, lookup_insert_ne by done.
Qed.

(** The run queue after a change of a thread outside of it. *)
Lemma conserving_upd fx fx' s s' p t t' : conserving fx s -> sc_threads s !! p = Some t ->
  sc_threads s' = <[p := t']> (sc_threads s) -> th_mask t' = th_mask t ->
  (forall v, v ∈ sc_queues s' RunQ -> v ∈ sc_queues s RunQ \/ (v = p /\ forall c, th_mask t !! c = Some true -> running s' c)) ->
  (forall v tv c, v ∈ sc_queues s' RunQ -> sc_threads s !! v = Some tv -> th_mask tv !! c = Some true ->
     fx' <> Some c -> fx = Some c -> running s' c) ->
  (forall c, fx' <> Some c -> th_state t = Th.RUNNING -> th_cid t = c ->
     (th_state t' = Th.RUNNING /\ th_cid t' = c) \/ unwanted s c) ->
  conserving fx' s'.
Proof.
  intros Hcs Hp Em Hm Hq Hfx Hrun v tv c Hv Htv Hmv Hne.
  assert (exists tv0, sc_threads s !! v = Some tv0 /\ th_mask tv0 !! c = Some true) as (tv0 & Hv0 & Hm0).
  { rewrite Em in Htv. apply lookup_insert_Some in Htv as [[<- <-]|[_ Htv]]; [exists t; by rewrite <- Hm|eauto]. }
  destruct (decide (fx = Some c)) as [E|Hnf]; [by eapply Hfx|].
  destruct (Hq v Hv) as [Hin|[-> Hall]]; [|apply Hall; by simplify_eq].
  pose proof (Hcs v tv0 c Hin Hv0 Hm0 Hnf) as Hr. destruct Hr as (w & tw & Hw & Hrw & Hcw).
  destruct (decide (w = p)) as [->|Hwp].
  - simplify_eq. destruct (Hrun (th_cid t)) as [[? ?]|Hu]; try done; [|by destruct (Hu v tv0)].
    exists p, t'. by rewrite Em, lookup_insert_eq.
  - exists w, tw. by rewrite Em, lookup_insert_ne by done.
Qed.

(** ** [schedule] and [deschedule] *)

Definition on_core_of c t := th_set_cid c (th_set_state Th.RUNNING t).

Definition after_schedule p c t (x : ContextInfo) (k : C) s : S :=
  set_cores k (set_scheduled (u32 (sc_scheduledThreads s + 1))
    (set_contexts (<[c := mkCx USED (Some p) (cx_free x)]> (sc_contexts s))
      (set_heap (<[p := on_core_of c t]> (sc_threads s)) s))).

Lemma wp_schedule p c t x j (Q : unit -> S -> Prop) s :
  sc_threads s !! p = Some t -> sc_contexts s !! c = Some x -> cx_state x = IDLE -> cx_curThread x = None ->
  th_state t ∈ [Th.STARTED; Th.BLOCKED; Th.QUEUED] -> I j (sc_cores s) ->
  (forall k, I j k -> Q tt (after_schedule p c t x k s)) -> wp (schedule p c) Q s.
Proof.
  intros Hp Hx Hi Hn Hs Hj HQ. unfold schedule. wp_step. eapply wp_get_th; [done|]. do 2 wp_step; [by apply is_state_true|].
  wp_step. eapply wp_get_cx; [done|]. do 2 wp_step; [by rewrite Hi|]. do 2 wp_step; [by rewrite Hn|].
  wp_step. eapply wp_upd_th; [done|]. wp_step. eapply wp_upd_cx; [done|]. do 2 wp_step. apply wp_in_cores.
  eapply wp_mono; [by apply (law_switch j)|]. intros [] k Hk. by apply (HQ k).
Qed.

Lemma schedule_inv ft s p c t x k : sched_inv (Some c) ft s -> sc_threads s !! p = Some t ->
  sc_contexts s !! c = Some x -> cx_curThread x = None ->
  th_state t = Th.STARTED \/ th_state t = Th.BLOCKED \/ (th_state t = Th.QUEUED /\ p ∈ ft) ->
  th_owner t = None -> th_mask t !! c = Some true ->
  sched_inv None (ft ∖ {[p]}) (after_schedule p c t x k s).
Proof.
  intros [Hc Hq Hs Ht Hcs] Hp Hx Hn Hst Ho Hm. set (s' := after_schedule p c t x k s).
  assert (sc_threads s' = <[p := on_core_of c t]> (sc_threads s)) as Em by done.
  assert (th_state t <> Th.RUNNING /\ th_state t <> Th.OUT /\ th_state t <> Th.SLEEPING) as (N1 & N2 & N3).
  { destruct Hst as [E|[E|[E _]]]; rewrite E; done. }
  pose proof (ti_local _ _ Ht p t Hp) as Hl. destruct (idle_thread _ _ _ Hl N1) as (I1 & I2 & I3).
  pose proof (lookup_lt_Some _ _ _ Hx) as Hlt.
  assert (~ targeted s p) as Hnt.
  { eapply not_targeted; [done|done|]. destruct Hst as [E|[E|[_ ?]]]; [left; by rewrite E..|by right; left]. }
  split.
  - eapply (ctx_hold s s' c x p t (on_core_of c t)); try done. by intros [?|?]. by left.
  - by eapply queue_upd.
  - eapply sorted_upd; [done|done|done|done|done|by right].
  - eapply (thread_upd ft); try done.
    + split; try done. unfold s'. simpl. unfold numCores. simpl. by rewrite length_insert.
    + left. done.
    + destruct Hl. split; simpl; try done; try congruence.
    + intros y Hy Hin. set_solver.
    + intros y Hin. set_solver.
    + left. simpl. split; [done|]. rewrite I3. by intros [].
  - eapply (conserving_upd (Some c) None); [done|done|done|done|by left| |].
    + intros v tv c' Hv Htv Hmv _ [= <-]. exists p, (on_core_of c t). by rewrite Em, lookup_insert_eq.
    + intros c' _ Hr. done.
Qed.

Definition after_deschedule p c t (x : ContextInfo) (tgt : Th.ThreadState) (k : C) s : S :=
  set_cores k (set_scheduled (u32 (sc_scheduledThreads s - 1))
    (set_contexts (<[c := mkCx IDLE None (cx_free x)]> (sc_contexts s))
      (set_heap (<[p := th_set_state tgt t]> (sc_threads s)) s))).

Lemma wp_deschedule p c t x tgt j (Q : unit -> S -> Prop) s :
  sc_threads s !! p = Some t -> holding t -> th_cid t = c -> sc_contexts s !! c = Some x -> cx_state x = USED ->
  cx_curThread x = Some p -> tgt ∈ [Th.BLOCKED; Th.QUEUED; Th.SLEEPING] -> I j (sc_cores s) ->
  (forall k, I j k -> Q tt (after_deschedule p c t x tgt k s)) -> wp (deschedule p c tgt) Q s.
Proof.
  intros Hp Hh Hc Hx Hu Hxp Htgt Hj HQ. unfold deschedule. wp_step. eapply wp_get_th; [done|]. do 2 wp_step.
  { apply is_state_true. destruct Hh as [-> | ->]; set_solver. }
  wp_step. eapply wp_get_cx; [done|]. do 2 wp_step; [by rewrite Hu|]. do 2 wp_step; [by apply Nat.eqb_eq|].
  do 2 wp_step; [by rewrite Hxp; apply bool_decide_eq_true|]. do 2 wp_step; [by apply bool_decide_eq_true|].
  wp_step. eapply wp_upd_th; [done|]. wp_step. eapply wp_upd_cx; [done|]. do 2 wp_step. apply wp_in_cores.
  eapply wp_mono; [by apply (law_switch j)|]. intros [] k Hk. by apply (HQ k).
Qed.

(** A running thread gives its context up; it blocks or is queued. *)
Lemma deschedule_inv ft ft' s p c t x tgt k : sched_inv None ft s -> sc_threads s !! p = Some t ->
  th_state t = Th.RUNNING -> th_cid t = c -> sc_contexts s !! c = Some x -> cx_curThread x = Some p ->
  th_markedForSleep t = false -> th_fakeLeave t = None -> th_handoffThread t = None ->
  (tgt = Th.BLOCKED /\ ft' = ft) \/ (tgt = Th.QUEUED /\ ft' = ft ∪ {[p]}) ->
  sched_inv (Some c) ft' (after_deschedule p c t x tgt k s).
Proof.
  intros [Hc Hq Hs Ht Hcs] Hp Hr Hcid Hx Hxp Hmk Hfk Hho Htgt. set (s' := after_deschedule p c t x tgt k s).
  assert (sc_threads s' = <[p := th_set_state tgt t]> (sc_threads s)) as Em by done.
  pose proof (ti_local _ _ Ht p t Hp) as Hl. pose proof (ti_owner _ _ Ht p t Hp) as Ho. unfold owner_for in Ho. rewrite Hr in Ho.
  split.
  - eapply (ctx_release s s' c x p t (th_set_state tgt t)); try done.
    unfold holding. simpl. destruct Htgt as [[-> _]|[-> _]]; by intros [?|?].
  - by eapply queue_upd.
  - eapply sorted_upd; [done|done|done|done|done|by right].
  - eapply (thread_upd ft); try done.
    + split; try done. unfold s'. simpl. unfold numCores. simpl. by rewrite length_insert.
    + left. done.
    + destruct Hl. split; simpl; try done; try congruence.
      * intros [E|E]; simpl in E; destruct Htgt as [[-> _]|[-> _]]; done.
      * intros E; destruct Htgt as [[-> _]|[-> _]]; done.
      * rewrite Hfk. by intros [].
      * rewrite Hho. by intros [].
    + unfold owner_for. simpl. destruct Htgt as [[-> _]|[-> ->]]; [done|]. right. split; [done|]. left. set_solver.
    + intros y Hy Hin. destruct Htgt as [[_ ->]|[_ ->]]; set_solver.
    + intros y Hin. destruct Htgt as [[_ ->]|[_ ->]]; set_solver.
    + intros Htg. exfalso. revert Htg. eapply not_targeted; [done|done|]. left. by rewrite Hr.
    + left. simpl. split; [done|]. rewrite Hho. by intros [].
  - eapply (conserving_upd None (Some c)); [done|done|done|done|by left|done|].
    intros c' Hne _ Hc'. congruence.
Qed.

(** The context of a thread that is out is taken back. *)
Lemma out_unwanted ft s p t : sched_inv None ft s -> sc_threads s !! p = Some t -> th_state t = Th.OUT -> unwanted s (th_cid t).
Proof.
  intros [Hc Hq _ _ Hcs] Hp Ho v tv Hv Htv Hm. destruct (Hcs v tv (th_cid t) Hv Htv Hm) as (w & tw & Hw & Hr & E); [done|].
  assert (p = w) as -> by (eapply (hold_unique None s p t w tw); try done; [by right|by left]). congruence.
Qed.

Definition after_remove q p t s : S :=
  set_queue q (remove_one p (sc_queues s q)) (set_heap (<[p := th_set_owner None t]> (sc_threads s)) s).

Lemma out_release_inv ft s p t x k : sched_inv None ft s -> sc_threads s !! p = Some t -> th_state t = Th.OUT ->
  sc_contexts s !! th_cid t = Some x -> cx_curThread x = Some p ->
  sched_inv (Some (th_cid t)) ft (after_deschedule p (th_cid t) (th_set_owner None t) x Th.BLOCKED k (after_remove OutQ p t s)).
Proof.
  intros Hinv Hp Ho Hx Hxp. pose proof (out_unwanted ft s p t Hinv Hp Ho) as Hun. destruct Hinv as [Hc Hq Hs Ht Hcs].
  set (s' := after_deschedule _ _ _ _ _ _ _). set (t' := th_set_state Th.BLOCKED (th_set_owner None t)).
  assert (sc_threads s' = <[p := t']> (sc_threads s)) as Em by (unfold s'; simpl; by rewrite insert_insert_eq).
  pose proof (ti_local _ _ Ht p t Hp) as Hl. pose proof (ti_owner _ _ Ht p t Hp) as Hown. unfold owner_for in Hown. rewrite Ho in Hown.
  destruct (idle_thread _ _ _ Hl) as (I1 & I2 & I3); [congruence|].
  split.
  - eapply (ctx_release s s' (th_cid t) x p t t'); try done. by intros [?|?].
  - by apply (queue_take s s' OutQ p t t').
  - eapply sorted_upd; [done|done|done|done|done|by right].
  - eapply (thread_upd ft); try done.
    + split; try done. unfold s'. simpl. unfold numCores. simpl. by rewrite length_insert.
    + left. done.
    + destruct Hl. split; simpl; try done; try congruence; try (rewrite ?I2, ?I3; by intros []).
    + intros y Hin. auto.
    + intros Htg. exfalso. revert Htg. eapply not_targeted; [done|done|]. left. by rewrite Ho.
    + left. simpl. split; [done|]. by rewrite I3; intros [].
  - eapply (conserving_upd None (Some (th_cid t))); [done|done|done|done|by left|done|].
    intros c' Hne Hr. congruence.
Qed.

(** A thread with a context changes between running and being out. *)
Definition after_push q p t s : S :=
  set_queue q (sc_queues s q ++ [p]) (set_heap (<[p := th_set_owner (Some q) t]> (sc_threads s)) s).

Lemma to_out_inv ft s p t : sched_inv None ft s -> sc_threads s !! p = Some t -> th_state t = Th.RUNNING ->
  th_markedForSleep t = false -> th_fakeLeave t = None -> th_handoffThread t = None -> unwanted s (th_cid t) ->
  sched_inv None ft (after_push OutQ p (th_set_state Th.OUT t) (set_heap (<[p := th_set_state Th.OUT t]> (sc_threads s)) s)).
Proof.
  intros [Hc Hq Hs Ht Hcs] Hp Hr Hmk Hfk Hho Hun. set (s' := after_push _ _ _ _).
  set (t' := th_set_owner (Some OutQ) (th_set_state Th.OUT t)).
  assert (sc_threads s' = <[p := t']> (sc_threads s)) as Em by (unfold s'; simpl; by rewrite insert_insert_eq).
  pose proof (ti_local _ _ Ht p t Hp) as Hl. pose proof (ti_owner _ _ Ht p t Hp) as Hown. unfold owner_for in Hown. rewrite Hr in Hown.
  split.
  - eapply ctx_upd; try done. split; intros _; [by left|by right].
  - eapply (queue_put s s' OutQ p t t' (sc_queues s OutQ ++ [p])); try done. symmetry. apply Permutation_cons_append.
  - eapply sorted_upd; [done|done|done|done|done|by right].
  - eapply (thread_upd ft); try done.
    + left. done.
    + destruct Hl. split; simpl; try done; try congruence; try (rewrite ?Hfk, ?Hho; by intros []).
      intros _. apply tl_allowed. by left.
    + intros y Hin. auto.
    + intros Htg. exfalso. revert Htg. eapply not_targeted; [done|done|]. left. by rewrite Hr.
    + left. simpl. split; [done|]. by rewrite Hho; intros [].
  - eapply (conserving_upd None None); [done|done|done|done|by left|done|].
    intros c' _ _ <-. by right.
Qed.

Lemma from_out_inv ft s p t : sched_inv None ft s -> sc_threads s !! p = Some t -> th_state t = Th.OUT ->
  sched_inv None ft (after_remove OutQ p (th_set_state Th.RUNNING t) (set_heap (<[p := th_set_state Th.RUNNING t]> (sc_threads s)) s)).
Proof.
  intros [Hc Hq Hs Ht Hcs] Hp Ho. set (s' := after_remove _ _ _ _).
  set (t' := th_set_owner None (th_set_state Th.RUNNING t)).
  assert (sc_threads s' = <[p := t']> (sc_threads s)) as Em by (unfold s'; simpl; by rewrite insert_insert_eq).
  pose proof (ti_local _ _ Ht p t Hp) as Hl. pose proof (ti_owner _ _ Ht p t Hp) as Hown. unfold owner_for in Hown. rewrite Ho in Hown.
  destruct (idle_thread _ _ _ Hl) as (I1 & I2 & I3); [congruence|].
  split.
  - eapply ctx_upd; try done. split; intros _; [by right|by left].
  - by apply (queue_take s s' OutQ p t t').
  - eapply sorted_upd; [done|done|done|done|done|by right].
  - eapply (thread_upd ft); try done.
    + left. done.
    + destruct Hl. split; simpl; try done; try congruence. intros _. apply tl_allowed. by right.
    + intros y Hin. auto.
    + intros Htg. exfalso. revert Htg. eapply not_targeted; [done|done|]. left. by rewrite Ho.
    + left. simpl. done.
  - eapply (conserving_upd None None); [done|done|done|done|by left|done|].
    intros c' _ Hr. congruence.
Qed.

(** ** Sleeping threads *)

Lemma unsleep_inv fx ft s s' p t t' : sched_inv fx ft s -> sc_threads s !! p = Some t -> th_state t = Th.SLEEPING ->
  sc_threads s' = <[p := t']> (sc_threads s) -> same_ctx s s' -> same_rest s s' -> sc_gidMap s' = sc_gidMap s ->
  sc_fakeLeaves s' = sc_fakeLeaves s ->
  (forall q, sc_queues s' q = if decide (q = SleepQ) then remove_one p (sc_queues s SleepQ) else sc_queues s q) ->
  th_state t' = Th.BLOCKED -> th_owner t' = None -> th_cid t' = th_cid t -> th_mask t' = th_mask t ->
  th_markedForSleep t' = th_markedForSleep t -> th_fakeLeave t' = th_fakeLeave t -> th_handoffThread t' = th_handoffThread t ->
  th_gid t' = th_gid t -> th_futexJoin t' = th_futexJoin t -> sched_inv fx ft s'.
Proof.
  intros [Hc Hq Hs Ht Hcs] Hp Hsl Em Hsc Hsr Hg Hfk Hqs E1 E2 E3 E4 E5 E6 E7 E8 E9.
  pose proof (ti_local _ _ Ht p t Hp) as Hl. pose proof (ti_owner _ _ Ht p t Hp) as Hown. unfold owner_for in Hown. rewrite Hsl in Hown.
  destruct (idle_thread _ _ _ Hl) as (I1 & I2 & I3); [congruence|].
  assert (sc_queues s' RunQ = sc_queues s RunQ) as ERun by by rewrite Hqs.
  split.
  - eapply ctx_upd; try done. unfold holding. rewrite E1, Hsl. split; by intros [?|?].
  - by apply (queue_take s s' SleepQ p t t').
  - eapply sorted_remove; done.
  - eapply (thread_upd ft); try done.
    + left. split; [done|]. by rewrite E6.
    + destruct Hl. split; rewrite ?E1, ?E3, ?E4, ?E5, ?E6, ?E7, ?E8, ?E9, ?I1, ?I2, ?I3; try done; try (by intros []).
      unfold holding. rewrite E1. by intros [?|?].
    + unfold owner_for. by rewrite E1.
    + intros y Hin. auto.
    + intros Htg. exfalso. revert Htg. eapply not_targeted; [done|done|]. left. by rewrite Hsl.
    + left. split; [done|]. by rewrite I3; intros [].
  - eapply (conserving_upd fx fx); [done|done|done|done|rewrite ERun; by left|done|].
    intros c' _ Hr. congruence.
Qed.

(** The place of a thread in the sleep queue. *)
Lemma sleep_place_ok w s : forall l f pre, (forall v, v ∈ pre ++ f :: l -> is_Some (sc_threads s !! v)) ->
  StronglySorted (fun p q => wake_of s p <= wake_of s q) (pre ++ f :: l) -> (forall v, v ∈ pre ++ [f] -> wake_of s v <= w) ->
  wp (sleep_place w f l) (fun v s' => s' = s /\ exists pre' post, pre ++ f :: l = pre' ++ v :: post /\
    (forall u, u ∈ pre' ++ [v] -> wake_of s u <= w) /\ (forall u, u ∈ post -> w < wake_of s u)) s.
Proof.
  induction l as [|x l IH]; intros f pre Hin Hs Hle; simpl.
  - wp_step. split; [done|]. exists pre, []. split_and!; try done. by intros u ?%not_elem_of_nil.
  - wp_step. destruct (Hin x) as [t Ht]; [set_solver|]. eapply wp_get_th; [done|].
    assert (wake_of s x = th_wakeupPhase t) as Hw by (unfold wake_of; by rewrite Ht). rewrite <- Hw.
    replace (pre ++ f :: x :: l) with ((pre ++ [f]) ++ x :: l) in * by (by rewrite <- app_assoc).
    destruct (Z.leb_spec (wake_of s x) w) as [Hx|Hx].
    + apply IH; try done. intros v. rewrite !elem_of_app, !list_elem_of_singleton in *. intros [[?|?]|?]; subst; auto; apply Hle; set_solver.
    + wp_step. split; [done|]. exists pre, (x :: l). rewrite <- app_assoc. split_and!; try done.
      intros u Hu. apply StronglySorted_app_1_r in Hs. apply elem_of_cons in Hu as [->|Hu]; [done|].
      inversion Hs as [|? ? _ Hall]; subst. rewrite Forall_forall in Hall. specialize (Hall u Hu). lia.
Qed.

Lemma insert_after_split v p pre post : v ∉ pre -> insert_after v p (pre ++ v :: post) = pre ++ v :: p :: post.
Proof.
  induction pre as [|x pre IH]; intros Hn; simpl; [by rewrite decide_True|]. rewrite decide_False by set_solver.
  rewrite IH by set_solver. done.
Qed.

Lemma sorted_insert (R : nat -> nat -> Prop) pre post p : StronglySorted R (pre ++ post) ->
  (forall u, u ∈ pre -> R u p) -> (forall u, u ∈ post -> R p u) -> StronglySorted R (pre ++ p :: post).
Proof.
  induction pre as [|x pre IH]; simpl; intros Hs H1 H2.
  - constructor; [done|]. by apply Forall_forall.
  - inversion Hs as [|? ? Hs' Hall]; subst. constructor; [apply IH; [done|set_solver|done]|].
    rewrite Forall_forall in *. intros y Hy. apply elem_of_app in Hy as [Hy|Hy]; [set_solver|].
    apply elem_of_cons in Hy as [->|Hy]; [apply H1; set_solver|set_solver].
Qed.

Definition after_sleep p t l s : S := set_queue SleepQ l (set_heap (<[p := th_set_owner (Some SleepQ) t]> (sc_threads s)) s).

Lemma sleep_insert_ok s p t : queue_inv s -> sleep_sorted s -> sc_threads s !! p = Some t -> th_owner t = None ->
  wp (sleep_insert p) (fun _ s' => exists l, s' = after_sleep p t l s /\ l ≡ₚ p :: sc_queues s SleepQ /\
    StronglySorted (fun p q => wake_of s p <= wake_of s q) l) s.
Proof.
  intros Hq Hs Hp Ho. unfold sleep_sorted in Hs. assert (wake_of s p = th_wakeupPhase t) as Hw by (unfold wake_of; by rewrite Hp).
  assert (forall v, v ∈ sc_queues s SleepQ -> exists tv, sc_threads s !! v = Some tv /\ th_owner tv = Some SleepQ) as Hin
    by (intros v; apply (qi_in _ Hq)).
  pose proof (qi_nodup _ Hq SleepQ) as Hnd.
  unfold sleep_insert. wp_step. eapply wp_get_th; [done|]. do 2 wp_step. destruct (sc_queues s SleepQ) as [|f l] eqn:E.
  - eapply wp_push_front; [done|done|]. rewrite E. exists [p]. split_and!; [done|done|]. repeat constructor.
  - wp_step. destruct (Hin f) as (tf & Hf & Hof); [left|]. eapply wp_get_th; [done|].
    assert (wake_of s f = th_wakeupPhase tf) as Hwf by (unfold wake_of; by rewrite Hf). rewrite <- Hw, <- Hwf.
    destruct (Z.ltb_spec (wake_of s p) (wake_of s f)) as [Hlt|Hge].
    + eapply wp_push_front; [done|done|]. rewrite E. exists (p :: f :: l). split_and!; [done|done|].
      apply (sorted_insert _ []); [done|by intros u ?%not_elem_of_nil|]. intros u [->|Hu]%elem_of_cons; [lia|].
      inversion Hs as [|? ? _ Hall]; subst. rewrite Forall_forall in Hall. specialize (Hall u Hu). lia.
    + wp_step. eapply wp_mono; [apply (sleep_place_ok (wake_of s p) s l f [])|].
      * intros v Hv. destruct (Hin v Hv) as (tv & -> & _). done.
      * done.
      * intros v ->%list_elem_of_singleton. done.
      * intros v s' (-> & pre & post & Hsp & H1 & H2). simpl in Hsp. rewrite Hsp in *.
        destruct (Hin v) as (tv & Hv & Hov); [set_solver|]. eapply wp_insertAfter; [done|done|done|done|].
        assert (v ∉ pre) as Hvp by (apply NoDup_app in Hnd as (_ & Hd & _); intros Hc; apply (Hd v Hc); left).
        rewrite E, insert_after_split by done. exists (pre ++ v :: p :: post). split_and!; [done|..].
        -- rewrite (cons_middle v pre), (cons_middle v pre post), !(assoc_L (++)). symmetry. apply Permutation_middle.
        -- rewrite (cons_middle v pre), (assoc_L (++)). apply sorted_insert; [by rewrite <- (assoc_L (++))|done|].
           intros u Hu. specialize (H2 u Hu). lia.
Qed.

(** A marked thread leaves its context and goes to sleep. *)
Lemma sleep_inv ft s p c t x k l : let t0 := th_set_sleep false (th_wakeupPhase t) t in
  let s1 := after_deschedule p c t0 x Th.SLEEPING k (set_heap (<[p := t0]> (sc_threads s)) s) in
  sched_inv None ft s -> sc_threads s !! p = Some t -> th_markedForSleep t = true -> th_handoffThread t = None ->
  th_cid t = c -> sc_contexts s !! c = Some x -> cx_curThread x = Some p ->
  l ≡ₚ p :: sc_queues s SleepQ -> StronglySorted (fun p q => wake_of s1 p <= wake_of s1 q) l ->
  sched_inv (Some c) ft (after_sleep p (th_set_state Th.SLEEPING t0) l s1).
Proof.
  intros t0 s1 [Hc Hq Hs Ht Hcs] Hp Hmk Hho Hcid Hx Hxp Hl Hsl. set (s' := after_sleep _ _ _ _).
  set (t' := th_set_owner (Some SleepQ) (th_set_state Th.SLEEPING t0)).
  assert (sc_threads s' = <[p := t']> (sc_threads s)) as Em by (unfold s', s1; simpl; by rewrite !insert_insert_eq).
  pose proof (ti_local _ _ Ht p t Hp) as Hloc. destruct (tl_marked _ _ _ Hloc Hmk) as (Hr & Hw & Hfk).
  pose proof (ti_owner _ _ Ht p t Hp) as Hown. unfold owner_for in Hown. rewrite Hr in Hown.
  split.
  - eapply (ctx_release s s' c x p t t'); try done. by intros [?|?].
  - by apply (queue_put s s' SleepQ p t t' l).
  - unfold sleep_sorted, s'. simpl. eapply (sorted_ext (set_queue SleepQ l s1)); [done|done|]. intros v _. unfold wake_of. simpl.
    destruct (decide (v = p)) as [->|]; [by rewrite !lookup_insert_eq|]. by rewrite (lookup_insert_ne _ p v) by done.
  - eapply (thread_upd ft); try done.
    + split; try done. unfold s', s1. simpl. unfold numCores. simpl. by rewrite length_insert.
    + left. done.
    + destruct Hloc. split; simpl; try done; try congruence; try (rewrite ?Hfk, ?Hho; by intros []).
    + intros y Hin. auto.
    + intros Htg. exfalso. revert Htg. eapply not_targeted; [done|done|]. left. by rewrite Hr.
    + left. simpl. split; [done|]. by rewrite Hho; intros [].
  - eapply (conserving_upd None (Some c)); [done|done|done|done|by left|done|]. intros c' Hne _ Hc'. congruence.
Qed.

(** ** The run queue *)

Lemma enqueue_inv ft s s' p t t' : sched_inv None ft s -> sc_threads s !! p = Some t ->
  th_state t = Th.STARTED \/ th_state t = Th.BLOCKED \/ (th_state t = Th.QUEUED /\ p ∈ ft) -> th_owner t = None ->
  (forall c, th_mask t !! c = Some true -> running s c) ->
  sc_threads s' = <[p := t']> (sc_threads s) -> same_ctx s s' -> same_rest s s' -> sc_gidMap s' = sc_gidMap s ->
  sc_fakeLeaves s' = sc_fakeLeaves s ->
  (forall q, sc_queues s' q = if decide (q = RunQ) then sc_queues s RunQ ++ [p] else sc_queues s q) ->
  t' = th_set_futex 1 (th_set_owner (Some RunQ) (th_set_state Th.QUEUED t)) -> sched_inv None (ft ∖ {[p]}) s'.
Proof.
  intros [Hc Hq Hs Ht Hcs] Hp Hst Ho Hall Em Hsc Hsr Hg Hfk Hqs ->.
  pose proof (ti_local _ _ Ht p t Hp) as Hl.
  assert (th_state t <> Th.RUNNING /\ th_state t <> Th.OUT /\ th_state t <> Th.SLEEPING) as (N1 & N2 & N3).
  { destruct Hst as [E|[E|[E _]]]; rewrite E; done. }
  destruct (idle_thread _ _ _ Hl N1) as (I1 & I2 & I3).
  assert (~ targeted s p) as Hnt.
  { eapply not_targeted; [done|done|]. destruct Hst as [E|[E|[_ ?]]]; [left; by rewrite E..|by right; left]. }
  assert (forall c, running s c -> running s' c) as Hrun.
  { intros c. eapply running_upd; [done|done|]. done. }
  split.
  - eapply ctx_upd; try done. unfold holding. simpl. naive_solver.
  - eapply (queue_put s s' RunQ p t _ (sc_queues s RunQ ++ [p])); [done|done|done| |done|done|]; [done|].
    symmetry. apply Permutation_cons_append.
  - eapply sorted_upd; [done|done|done|done|by rewrite Hqs|by right].
  - eapply (thread_upd ft); try done.
    + left. done.
    + destruct Hl. split; simpl; try done; try congruence; try (rewrite ?I2, ?I3; by intros []).
    + unfold owner_for. simpl. by left.
    + intros y Hy Hin. set_solver.
    + intros y Hin. set_solver.
    + left. simpl. split; [done|]. by rewrite I3; intros [].
  - eapply (conserving_upd None None); [done|done|done|done| |done|].
    + intros v. rewrite Hqs. simpl. rewrite elem_of_app, list_elem_of_singleton. intros [?| ->]; [by left|]. right. split; [done|].
      intros c Hm. apply Hrun, Hall, Hm.
    + intros c' _ Hr. done.
Qed.

Lemma find_thread_ok c s l : (forall p, p ∈ l -> exists t, sc_threads s !! p = Some t /\ (c < length (th_mask t))%nat) ->
  wp (find_thread c l) (fun r s' => s' = s /\ match r with
    | None => forall p t, p ∈ l -> sc_threads s !! p = Some t -> th_mask t !! c <> Some true
    | Some p => p ∈ l /\ exists t, sc_threads s !! p = Some t /\ th_mask t !! c = Some true
    end) s.
Proof.
  induction l as [|p l IH]; intros Hin; simpl.
  - wp_step. split; [done|]. by intros p t ?%not_elem_of_nil.
  - wp_step. destruct (Hin p) as (t & Ht & Hlt); [left|]. eapply wp_get_th; [done|].
    destruct (lookup_lt_is_Some_2 _ _ Hlt) as [b Hb]. wp_step. eapply wp_mask_at; [done|]. destruct b.
    + wp_step. split; [done|]. split; [left|]. eauto.
    + eapply wp_mono; [apply IH; intros v Hv; apply Hin; by right|]. intros [v|] s' [-> Hr]; (split; [done|]).
      * destruct Hr as [Hv Hr]. split; [by right|done].
      * intros v tv [->|Hv]%elem_of_cons Htv; [congruence|by eapply Hr].
Qed.

Lemma dequeue_inv fx ft s i t : sched_inv fx ft s -> sc_threads s !! i = Some t -> th_owner t = Some RunQ -> th_state t = Th.QUEUED ->
  sched_inv fx (ft ∪ {[i]}) (after_remove RunQ i t s).
Proof.
  intros [Hcx Hq Hs Ht Hcs] Hti Ho Hst.
  pose proof (ti_local _ _ Ht i t Hti) as Hl. destruct (idle_thread _ _ _ Hl) as (I1 & I2 & I3); [congruence|].
  assert (~ targeted s i) as Hnt by (eapply not_targeted; [done|done|right; right; congruence]).
  split.
  - eapply (ctx_upd fx s); try done.
  - by apply (queue_take s _ RunQ i t (th_set_owner None t)).
  - eapply (sorted_upd s); [done|done|done|done|done|by right].
  - eapply (thread_upd ft); try done.
    + left. done.
    + destruct Hl. by split.
    + unfold owner_for. simpl. rewrite Hst. right. split; [done|]. left. set_solver.
    + intros y Hy Hin'. set_solver.
    + intros y Hin'. set_solver.
    + by left.
  - eapply (conserving_upd fx fx); [done|done|done|done| |done|].
    + intros v. simpl. intros [? _]%elem_of_remove_one. by left.
    + intros c' _ Hr. congruence.
Qed.

(** [schedContext]: a queued thread that the context suits is taken out of the
    run queue. *)
Lemma schedContext_ok fx ft s c (Q : option nat -> S -> Prop) : sched_inv fx ft s -> (c < numCores s)%nat ->
  (unwanted s c -> Q None s) ->
  (forall i t, sc_threads s !! i = Some t -> th_owner t = Some RunQ -> th_state t = Th.QUEUED -> th_futexWord t = 1 ->
     th_mask t !! c = Some true -> sched_inv fx (ft ∪ {[i]}) (after_remove RunQ i t s) -> Q (Some i) (after_remove RunQ i t s)) ->
  wp (schedContext c) Q s.
Proof.
  intros Hinv Hc HN HS. pose proof Hinv as [Hcx Hq Hs Ht Hcs]. unfold schedContext. do 2 wp_step. wp_step.
  assert (forall p, p ∈ sc_queues s RunQ -> exists t, sc_threads s !! p = Some t /\ th_owner t = Some RunQ) as Hin
    by (intros p; apply (qi_in _ Hq)).
  eapply wp_mono; [apply find_thread_ok|].
  { intros p Hp. destruct (Hin p Hp) as (t & Htp & _). exists t. split; [done|].
    by rewrite (tl_mask _ _ _ (ti_local _ _ Ht p t Htp)). }
  intros [i|] s' [-> Hr].
  - destruct Hr as (Hi & t & Hti & Hm). destruct (Hin i Hi) as (t' & Hti' & Ho). simplify_eq.
    pose proof (ti_owner _ _ Ht i t Hti) as Hown. unfold owner_for in Hown.
    assert (th_state t = Th.QUEUED /\ th_futexWord t = 1) as [Hst Hfx].
    { destruct (th_state t); try congruence. destruct Hown as [[_ ?]|[? _]]; [done|congruence]. }
    wp_step. eapply wp_remove; [done|done|]. wp_step. apply HS; try done. by apply dequeue_inv.
  - do 2 wp_step. by apply HN.
Qed.

(** ** Looking for a context *)

Lemma find_context_ok t s l : (forall c, c ∈ l -> (c < length (th_mask t))%nat) ->
  wp (find_context t l) (fun r s' => s' = s /\ match r with
    | None => forall c, c ∈ l -> th_mask t !! c <> Some true
    | Some c => c ∈ l /\ th_mask t !! c = Some true
    end) s.
Proof.
  induction l as [|c l IH]; intros Hin; simpl.
  - wp_step. split; [done|]. by intros c ?%not_elem_of_nil.
  - destruct (lookup_lt_is_Some_2 (th_mask t) c) as [b Hb]; [apply Hin; left|].
    wp_step. eapply wp_mask_at; [done|]. destruct b.
    + wp_step. split; [done|]. split; [left|done].
    + eapply wp_mono; [apply IH; intros v Hv; apply Hin; by right|]. intros [v|] s' [-> Hr]; (split; [done|]).
      * destruct Hr as [Hv Hr]. split; [by right|done].
      * intros v [->|Hv]%elem_of_cons; [congruence|by apply Hr].
Qed.

Lemma find_out_ok t s l : (forall p, p ∈ l -> exists o, sc_threads s !! p = Some o /\ (th_cid o < length (th_mask t))%nat) ->
  wp (find_out t l) (fun r s' => s' = s /\ match r with
    | None => forall p o, p ∈ l -> sc_threads s !! p = Some o -> th_mask t !! th_cid o <> Some true
    | Some (p, c) => p ∈ l /\ exists o, sc_threads s !! p = Some o /\ th_cid o = c /\ th_mask t !! c = Some true
    end) s.
Proof.
  induction l as [|p l IH]; intros Hin; simpl.
  - wp_step. split; [done|]. by intros p o ?%not_elem_of_nil.
  - destruct (Hin p) as (o & Ho & Hlt); [left|]. destruct (lookup_lt_is_Some_2 _ _ Hlt) as [b Hb].
    wp_step. eapply wp_get_th; [done|]. wp_step. eapply wp_mask_at; [done|]. destruct b.
    + wp_step. split; [done|]. split; [left|]. eauto.
    + eapply wp_mono; [apply IH; intros v Hv; apply Hin; by right|]. intros [[v c]|] s' [-> Hr]; (split; [done|]).
      * destruct Hr as [Hv Hr]. split; [by right|done].
      * intros v o' [->|Hv]%elem_of_cons Ho'; [congruence|by eapply Hr].
Qed.

(** What taking context [c] changes: it was free, or a thread that is out loses
    it. *)
Record took c s s' : Prop := {
  tk_threads : sc_threads s' = sc_threads s \/ exists v tv, sc_threads s !! v = Some tv /\ th_state tv = Th.OUT /\
    th_cid tv = c /\ sc_threads s' = <[v := th_set_state Th.BLOCKED (th_set_owner None tv)]> (sc_threads s);
  tk_rest : same_rest s s';
  tk_gid : sc_gidMap s' = sc_gidMap s;
  tk_fakes : sc_fakeLeaves s' = sc_fakeLeaves s;
  tk_idle : ~ running s c
}.

Lemma took_other c s s' p t : took c s s' -> sc_threads s !! p = Some t -> th_state t <> Th.OUT -> sc_threads s' !! p = Some t.
Proof.
  intros [[->|(v & tv & Hv & Ho & _ & ->)] _ _ _] Hp Hn; [done|]. rewrite lookup_insert_ne; [done|]. intros ->. congruence.
Qed.

Lemma take_free ft s c x : sched_inv None ft s -> sc_contexts s !! c = Some x -> cx_curThread x = None ->
  let s' := set_freeList (remove_one c (sc_freeList s)) (set_contexts (<[c := cx_set_free false x]> (sc_contexts s)) s) in
  sched_inv (Some c) ft s' /\ floating s' c /\ took c s s'.
Proof.
  intros [Hc Hq Hs Ht Hcs] Hx Hn s'. pose proof (lookup_lt_Some _ _ _ Hx) as Hlt.
  assert (~ running s c) as Hnr.
  { intros (p & t & Hp & Hr & <-). destruct (ci_hold _ _ Hc p t Hp (or_introl Hr)) as (y & ? & ?). congruence. }
  assert (numCores s' = numCores s) as Hnc by (unfold numCores, s'; simpl; by rewrite length_insert).
  split_and!.
  - split.
    + by eapply (ctx_take s s' c x).
    + by apply (queue_same s).
    + done.
    + destruct Ht. split; try done. intros p t Hp. rewrite Hnc. by eapply ti_local.
    + intros p t c' Hp Htp Hm _. by eapply (Hcs p t c').
  - exists (cx_set_free false x). split; [|done]. unfold s'. simpl. by rewrite list_lookup_insert_eq.
  - split; try done. by left.
Qed.

Lemma schedThread_ok ft s p t j (Q : option nat -> S -> Prop) : sched_inv None ft s -> sc_threads s !! p = Some t ->
  I j (sc_cores s) ->
  ((forall c, th_mask t !! c = Some true -> running s c) -> Q None s) ->
  (forall c s', (c < numCores s)%nat -> th_mask t !! c = Some true -> sched_inv (Some c) ft s' -> floating s' c ->
     took c s s' -> I j (sc_cores s') -> Q (Some c) s') ->
  wp (schedThread p) Q s.
Proof.
  intros Hinv Hp Hj HN HS. pose proof Hinv as [Hc Hq Hs Ht Hcs]. pose proof (ti_local _ _ Ht p t Hp) as Hl.
  pose proof (tl_cid _ _ _ Hl) as Hcid. pose proof (tl_mask _ _ _ Hl) as Hmask.
  unfold schedThread. wp_step. eapply wp_get_th; [done|]. do 2 wp_step. do 2 wp_step; [by apply Nat.ltb_lt|].
  destruct (lookup_lt_is_Some_2 (sc_contexts s) _ Hcid) as [x Hx]. wp_step. eapply wp_get_cx; [done|]. wp_step.
  destruct (lookup_lt_is_Some_2 (th_mask t) (th_cid t)) as [m Hm]; [by rewrite Hmask|].
  assert (forall c y, sc_contexts s !! c = Some y -> cx_state y = IDLE -> cx_curThread y = None /\ cx_free y = true) as Hidle.
  { intros c y Hy Hi. pose proof (ci_cx _ _ Hc c y Hy) as Hcx. unfold cx_ok in Hcx.
    destruct (cx_curThread y); [destruct Hcx; congruence|]. split; [done|]. by apply Hcx. }
  assert (forall c y, sc_contexts s !! c = Some y -> cx_state y = IDLE -> th_mask t !! c = Some true ->
    wp (free_remove c ;; ret (Some c)) (fun r s' => wp (match r with Some c => m <- mask_at t c ;; assert_ "scheduler.h:678" m
        | None => ret tt end ;; ret r) Q s') s) as Hfree.
  { intros c y Hy Hi Hmc. destruct (Hidle c y Hy Hi) as [Hn Hf]. wp_step. eapply wp_free_remove; [done|done|].
    do 2 wp_step. wp_step. eapply wp_mask_at; [done|]. wp_step; [done|]. wp_step.
    destruct (take_free ft s c y Hinv Hy Hn) as (A1 & A2 & A3). apply HS; try done. by eapply lookup_lt_Some. }
  assert (wp (if bool_decide (cx_state x = IDLE) then mask_at t (th_cid t) else ret false)
    (fun b s' => s' = s /\ (b = true -> cx_state x = IDLE /\ m = true)) s) as Hfirst.
  { destruct (bool_decide_reflect (cx_state x = IDLE)); [eapply wp_mask_at; [done|]|wp_step]; by split. }
  eapply wp_mono; [exact Hfirst|]. intros b s' [-> Hb]. wp_step. destruct b.
  { destruct Hb as [Hi ->]; [done|]. by eapply Hfree. }
  wp_step. eapply wp_mono; [apply find_context_ok|].
  { intros c Hc'. apply (ci_free _ _ Hc) in Hc' as (y & Hy & _). rewrite Hmask. by eapply lookup_lt_Some. }
  intros [c|] s' [-> Hr].
  { destruct Hr as [Hin Hmc]. apply (ci_free _ _ Hc) in Hin as (y & Hy & Hf). eapply Hfree; [done| |done].
    pose proof (ci_cx _ _ Hc c y Hy) as Hcx. unfold cx_ok in Hcx. destruct (cx_curThread y); [|by destruct Hcx].
    destruct Hcx as (_ & ? & _). congruence. }
  wp_step. eapply wp_mono; [apply find_out_ok|].
  { intros v Hv. apply (qi_in _ Hq) in Hv as (o & Ho & _). exists o. split; [done|]. rewrite Hmask.
    apply (ti_local _ _ Ht v o Ho). }
  intros [[v c]|] s' [-> Ho].
  - destruct Ho as (Hin & o & Hvo & <- & Hmo). apply (qi_in _ Hq) in Hin as (o' & Hvo' & How). assert (o' = o) as -> by congruence.
    pose proof (ti_owner _ _ Ht v o Hvo) as Hown. unfold owner_for in Hown.
    assert (th_state o = Th.OUT) as Hout by (destruct (th_state o); try congruence; destruct Hown as [[? _]|[? _]]; congruence).
    destruct (hold_context None s v o Hc Hvo (or_intror Hout)) as (y & Hy & Hyv & Hu & _).
    wp_step. eapply wp_remove; [done|done|]. wp_step.
    eapply (wp_deschedule v (th_cid o) (th_set_owner None o) y Th.BLOCKED j); simpl; try done; [by rewrite lookup_insert_eq|by right|set_solver|].
    intros k Hk. do 2 wp_step. wp_step. eapply wp_mask_at; [done|]. wp_step; [done|]. wp_step. apply HS; try done.
    + by eapply lookup_lt_Some.
    + by apply out_release_inv.
    + exists (mkCx IDLE None (cx_free y)). simpl. split; [|done]. rewrite list_lookup_insert_eq; [done|]. by eapply lookup_lt_Some.
    + split; simpl; try done.
      * right. exists v, o. split_and!; try done. by rewrite insert_insert_eq.
      * split; try done. unfold numCores. simpl. by rewrite length_insert.
      * intros (w & tw & Hw & Hrw & E). assert (v = w) as -> by (eapply (hold_unique None s v o w tw); try done; [by right|by left]). congruence.
  - do 3 wp_step. apply HN. intros c Hmc. assert (c < numCores s)%nat as Hlt.
    { rewrite <- Hmask. by eapply lookup_lt_Some. }
    destruct (lookup_lt_is_Some_2 (sc_contexts s) c Hlt) as [y Hy]. pose proof (ci_cx _ _ Hc c y Hy) as Hcx. unfold cx_ok in Hcx.
    destruct (cx_curThread y) as [v|] eqn:Ey.
    + destruct Hcx as (_ & _ & tv & Hv & Hcv & [Hrv|Hov]); [by exists v, tv|]. exfalso. apply (Ho v tv); [|done|by rewrite Hcv].
      apply (qi_in _ Hq). exists tv. split; [done|]. pose proof (ti_owner _ _ Ht v tv Hv) as Hown. unfold owner_for in Hown. by rewrite Hov in Hown.
    + exfalso. apply (Hr c); [|done]. apply (ci_free _ _ Hc). exists y. split; [done|]. by apply Hcx.
Qed.
End Ops.
