(* ===== verification/SchedulerPhase.v ===== *)
(** * The end of a phase, and changes of single threads *)

From stdpp Require Import base list gmap sets strings sorting.
From Stdlib Require Import ZArith Lia.
From S2P Require Import Prelude Barrier BarrierInv Scheduler SchedulerInv SchedulerMoves SchedulerOps.
Local Open Scope Z_scope.

Section Phase.
Context {C G : Type} `{CoreOps C} `{RandInt G}.
Context (I : (nat -> bool) -> C -> Prop) {HI : CoreLaws I}.
Abbreviation S := (Sched C G).
Implicit Types (s : S) (t : ThreadInfo) (p c : nat) (j : nat -> bool) (ft : gset nat).

(** ** Changes that keep where a thread is *)

Record same_place t t' : Prop := {
  sp_gid : th_gid t' = th_gid t;
  sp_state : th_state t' = th_state t;
  sp_cid : th_cid t' = th_cid t;
  sp_mask : th_mask t' = th_mask t;
  sp_owner : th_owner t' = th_owner t
}.

Lemma same_place_refl t : same_place t t.
Proof. by split. Qed.

Lemma holding_same t t' : same_place t t' -> holding t' <-> holding t.
Proof. intros []. unfold holding. by rewrite sp_state0. Qed.

(** The queue of a thread that stays where it is; [ft'] has the target of a
    dropped handoff. *)
Lemma local_inv fx ft ft' s s' p t t' : sched_inv fx ft s -> sc_threads s !! p = Some t -> same_place t t' ->
  sc_threads s' = <[p := t']> (sc_threads s) -> same_ctx s s' -> same_rest s s' -> sc_gidMap s' = sc_gidMap s ->
  (forall q, sc_queues s' q = sc_queues s q) -> fakes_follow s s' p t t' ->
  th_local (numCores s) (ck_curPhase (sc_clock s)) t' ->
  (th_owner t = Some SleepQ -> th_wakeupPhase t' = th_wakeupPhase t) ->
  (th_state t = Th.QUEUED -> th_futexWord t' = th_futexWord t) ->
  (th_handoffThread t' = th_handoffThread t /\ ft' = ft) \/
    (exists q, th_handoffThread t = Some q /\ th_handoffThread t' = None /\ ft' = ft ∪ {[q]}) ->
  sched_inv fx ft' s'.
Proof.
  intros [Hc Hq Hs Ht Hcs] Hp Hsp Em Hsc Hsr Hg Hqs Hfk Hloc Hw Hf Hho. pose proof Hsp as [S1 S2 S3 S4 S5].
  pose proof (ti_owner _ _ Ht p t Hp) as Hown.
  assert (forall q, th_handoffThread t = Some q -> q <> p) as Hself.
  { intros q Hh ->. destruct (ti_target _ _ Ht p t p Hp Hh) as (_ & t2 & Ht2 & Hst & _). simplify_eq.
    rewrite (tl_handoff _ _ _ (ti_local _ _ Ht p t Hp)) in Hst; [done|]. by rewrite Hh. }
  split.
  - eapply ctx_upd; try done. by apply holding_same.
  - by eapply queue_upd.
  - eapply sorted_upd; try done. destruct (decide (th_owner t = Some SleepQ)); [right|left]; auto.
  - eapply (thread_upd ft); try done.
    + unfold owner_for in *. rewrite S2, S5. destruct (th_state t) eqn:Est; try done. rewrite Hf by done.
      destruct Hown as [?|[? [Hin|(? & v & tv & Hv & Hh)]]]; [by left|right|right]; (split; [done|]).
      * left. destruct Hho as [[_ ->]|(q & _ & _ & ->)]; set_solver.
      * destruct (decide (v = p)) as [->|Hne]; [by simplify_eq; destruct (Hself p)|].
        right. split; [done|]. exists v, tv. by rewrite Em, lookup_insert_ne by done.
    + intros x Hx Hin. destruct Hho as [[_ ->]|(q & _ & _ & ->)]; set_solver.
    + intros x Hin. destruct Hho as [[_ ->]|(q & Hq1 & Hq2 & ->)]; [by left|]. apply elem_of_union in Hin as [?|?]; [by left|].
      right. right. assert (x = q) as -> by set_solver. done.
    + intros (v & tv & Hv & Hh). destruct (ti_target _ _ Ht v tv p Hv Hh) as (Hnf & tp & Htp & A1 & A2 & _). simplify_eq.
      rewrite S2, S5. split_and!; try done. destruct Hho as [[_ ->]|(q & Hq1 & _ & ->)]; [done|]. specialize (Hself q Hq1). set_solver.
    + destruct Hho as [[E _]|(q & Hq1 & Hq2 & ->)]; [by left|right]. split; [done|]. intros q' Hq'. assert (q' = q) as -> by congruence. set_solver.
  - eapply (conserving_upd fx fx); [done|done|done|done| |done|].
    + intros v. rewrite Hqs. by left.
    + intros c _ Hr Hcid. left. by rewrite S2, S3.
Qed.

Lemma cores_inv fx ft s k : sched_inv fx ft s -> sched_inv fx ft (set_cores k s).
Proof.
  intros [Hc Hq Hs Ht Hcs]. split.
  - by apply (ctx_same fx s).
  - by apply (queue_same s).
  - done.
  - by destruct Ht; split.
  - done.
Qed.

Lemma free_push_inv ft s c x : sched_inv (Some c) ft s -> sc_contexts s !! c = Some x -> cx_curThread x = None -> unwanted s c ->
  sched_inv None ft (set_freeList (sc_freeList s ++ [c]) (set_contexts (<[c := cx_set_free true x]> (sc_contexts s)) s)).
Proof.
  intros [Hc Hq Hs Ht Hcs] Hx Hn Hun. set (s' := set_freeList _ _).
  assert (numCores s' = numCores s) as Hnc by (unfold numCores, s'; simpl; by rewrite length_insert).
  split.
  - by eapply (ctx_give s s' c x).
  - by apply (queue_same s).
  - done.
  - destruct Ht. split; try done. intros p t Hp. rewrite Hnc. by eapply ti_local.
  - intros p t c' Hp Htp Hm _. apply (Hcs p t c'); try done. intros [= <-]. by apply (Hun p t).
Qed.

Lemma wp_wakeup p nj t (Q : unit -> S -> Prop) s : sc_threads s !! p = Some t -> th_futexWord t = 1 ->
  Q tt (set_heap (<[p := th_set_futex 0 (th_set_needsJoin nj t)]> (sc_threads s)) s) -> wp (wakeup p nj) Q s.
Proof.
  intros Hp Hf HQ. unfold wakeup. wp_step. eapply wp_upd_th; [done|]. wp_step. eapply wp_get_th; [by apply lookup_insert_eq|].
  simpl. rewrite Hf. simpl. eapply wp_upd_th; [by apply lookup_insert_eq|]. simpl. by rewrite insert_insert_eq.
Qed.

(** A thread that has just got a context is woken. *)
Lemma woken_inv fx ft s p t : sched_inv fx ft s -> sc_threads s !! p = Some t -> th_state t = Th.RUNNING -> th_markedForSleep t = false ->
  sched_inv fx ft (set_heap (<[p := th_set_futex 0 (th_set_needsJoin false t)]> (sc_threads s)) s).
Proof.
  intros Hinv Hp Hr Hm. pose proof (ti_local _ _ (si_thread _ _ _ Hinv) p t Hp) as Hl.
  eapply (local_inv fx ft ft s _ p t (th_set_futex 0 (th_set_needsJoin false t))); try done; [by left|..].
  - destruct Hl. split; simpl; try done; congruence.
  - rewrite Hr. done.
  - by left.
Qed.

(** ** Handoffs *)

(** A thread that was taken out of the run queue becomes the target of a
    running thread. *)
Lemma assign_inv ft s p t w tw : sched_inv None ft s -> p ∈ ft -> sc_threads s !! p = Some t -> th_state t = Th.QUEUED ->
  th_owner t = None -> th_futexWord t = 1 -> sc_threads s !! w = Some tw -> th_state tw = Th.RUNNING -> th_handoffThread tw = None ->
  th_mask t !! th_cid tw = Some true ->
  sched_inv None (ft ∖ {[p]}) (set_heap (<[w := th_set_handoff (Some p) tw]> (sc_threads s)) s).
Proof.
  intros [Hc Hq Hs Ht Hcs] Hin Hp Hst Ho Hf Hw Hr Hh Hm. set (s' := set_heap _ _). set (tw' := th_set_handoff (Some p) tw).
  assert (sc_threads s' = <[w := tw']> (sc_threads s)) as Em by done.
  assert (w <> p) as Hwp by (intros ->; simplify_eq; congruence).
  assert (forall v tv, sc_threads s' !! v = Some tv -> exists tv0, sc_threads s !! v = Some tv0 /\ same_place tv0 tv /\
    (v <> w -> tv = tv0)) as Hback.
  { intros v tv Hv. rewrite Em in Hv. apply lookup_insert_Some in Hv as [[<- <-]|[? Hv]]; [exists tw; by split_and!|exists tv; by split_and!]. }
  split.
  - by eapply (ctx_upd None s s' w tw tw').
  - by eapply (queue_upd s s' w tw tw').
  - eapply (sorted_upd s s' w tw tw'); [done|done|done|done|done|by right].
  - destruct Ht as [K1 K2 K3 K4 K5 K6 K7 K8 K9]. split; try done.
    + intros v tv Hv. rewrite Em in Hv. apply lookup_insert_Some in Hv as [[<- <-]|[_ Hv]]; [|by eapply K1].
      pose proof (K1 w tw Hw) as Hl. destruct Hl. by split.
    + intros v tv (tv0 & Hv & _)%Hback. by eapply K2.
    + intros v tv Hv. destruct (Hback v tv Hv) as (tv0 & Hv0 & [S1 S2 S3 S4 S5] & Hsame). specialize (K3 v tv0 Hv0).
      unfold owner_for in *. rewrite S2, S5. destruct (th_state tv0) eqn:Est; try done.
      assert (v <> w) as Hvw by (intros ->; simplify_eq; congruence). rewrite (Hsame Hvw).
      destruct K3 as [?|[? [Hv'|(? & u & tu & Hu & Hhu)]]]; [by left|right|right]; (split; [done|]).
      * destruct (decide (v = p)) as [->|Hne]; [|left; set_solver]. right. simplify_eq. split; [done|].
        exists w, tw'. by rewrite Em, lookup_insert_eq.
      * right. split; [done|]. destruct (decide (u = w)) as [->|Hne]; [simplify_eq; congruence|].
        exists u, tu. by rewrite Em, lookup_insert_ne by done.
    + intros v tv q Hv Hhv. destruct (decide (v = w)) as [->|Hne].
      * rewrite Em, lookup_insert_eq in Hv. simplify_eq. simpl in Hhv. simplify_eq. split; [set_solver|].
        exists t. by rewrite Em, lookup_insert_ne by done.
      * rewrite Em, lookup_insert_ne in Hv by done. destruct (K4 v tv q Hv Hhv) as (Hnf & tq & Htq & A1 & A2 & A3).
        split; [set_solver|]. exists tq. rewrite Em, lookup_insert_ne; [done|]. intros ->. simplify_eq. congruence.
    + intros v tv v' tv' q Hv Hv' Hhv Hhv'. rewrite Em in Hv, Hv'.
      assert (forall u tu, sc_threads s !! u = Some tu -> th_handoffThread tu = Some p -> False) as Hnone.
      { intros u tu Hu Hhu. by destruct (K4 u tu p Hu Hhu) as (Hnf & _). }
      apply lookup_insert_Some in Hv as [[<- <-]|[Hn Hv]]; apply lookup_insert_Some in Hv' as [[<- <-]|[Hn' Hv']]; simpl in *; simplify_eq; try done.
      * by destruct (Hnone v' tv').
      * by destruct (Hnone v tv).
      * by eapply K5.
    + intros g v Hv. destruct (K6 g v Hv) as (tv & Htv & Hg). rewrite Em. destruct (decide (v = w)) as [->|Hne].
      * exists tw'. rewrite lookup_insert_eq. simplify_eq. done.
      * exists tv. by rewrite lookup_insert_ne.
    + eapply (fakes_ok s s' w tw tw'); try done. by left.
  - eapply (conserving_upd None None s s' w tw tw'); [done|done|done|done|by left|done|]. intros c _ _ Hcid. by left.
Qed.

(** ** What the end of a phase changes *)

(** A thread keeps its place, gets a handoff, or wakes up in phase [k]. *)
Record phase_change (k : Z) t t' : Prop := {
  pc_gid : th_gid t' = th_gid t;
  pc_cid : th_cid t' = th_cid t;
  pc_mask : th_mask t' = th_mask t;
  pc_marked : th_markedForSleep t' = th_markedForSleep t;
  pc_fake : th_fakeLeave t' = th_fakeLeave t;
  pc_wakeup : th_wakeupPhase t' = th_wakeupPhase t;
  pc_state : (th_state t' = th_state t /\ th_futexWord t' = th_futexWord t /\ th_needsJoin t' = th_needsJoin t /\
      (th_handoffThread t' = th_handoffThread t \/ th_state t = Th.RUNNING)) \/
    (th_state t = Th.SLEEPING /\ th_state t' = Th.BLOCKED /\ th_wakeupPhase t = k /\ th_handoffThread t' = th_handoffThread t /\
      th_futexWord t' = 0)
}.

Lemma phase_change_refl k t : phase_change k t t.
Proof. split; try done. left. auto. Qed.
Lemma phase_change_trans k t1 t2 t3 : phase_change k t1 t2 -> phase_change k t2 t3 -> phase_change k t1 t3.
Proof.
  intros [A1 A2 A3 A4 A5 A6 A7] [B1 B2 B3 B4 B5 B6 B7]. split; try congruence.
  destruct A7 as [(E1 & E2 & E3 & E4)|(E1 & E2 & E3 & E4 & E5)], B7 as [(F1 & F2 & F3 & F4)|(F1 & F2 & F3 & F4 & F5)]; try congruence.
  - left. split_and!; try congruence. destruct E4 as [E4|]; [|by right]. destruct F4 as [F4|F4]; [left; congruence|right; congruence].
  - right. split_and!; try congruence. destruct E4 as [E4|]; congruence.
  - right. split_and!; try congruence. destruct F4 as [F4|]; congruence.
Qed.

Definition changed (k : Z) s s' : Prop :=
  forall v, option_Forall2 (phase_change k) (sc_threads s !! v) (sc_threads s' !! v).

Lemma changed_refl k s : changed k s s.
Proof. intros v. destruct (sc_threads s !! v); constructor. apply phase_change_refl. Qed.
Lemma changed_trans k s1 s2 s3 : changed k s1 s2 -> changed k s2 s3 -> changed k s1 s3.
Proof.
  intros H1 H2 v. specialize (H1 v). specialize (H2 v). destruct H1 as [t1 t2 H12|]; inversion H2; subst; constructor.
  by eapply phase_change_trans.
Qed.
Lemma changed_upd k s s' p t t' : sc_threads s !! p = Some t -> sc_threads s' = <[p := t']> (sc_threads s) -> phase_change k t t' -> changed k s s'.
Proof.
  intros Hp Em Hc v. rewrite Em. destruct (decide (v = p)) as [->|Hne].
  - rewrite lookup_insert_eq, Hp. by constructor.
  - rewrite lookup_insert_ne by done. apply changed_refl.
Qed.
Lemma changed_some k s s' v t : changed k s s' -> sc_threads s !! v = Some t -> exists t', sc_threads s' !! v = Some t' /\ phase_change k t t'.
Proof. intros Hc Hv. specialize (Hc v). rewrite Hv in Hc. inversion Hc; subst. eauto. Qed.
Lemma changed_back k s s' v t' : changed k s s' -> sc_threads s' !! v = Some t' -> exists t, sc_threads s !! v = Some t /\ phase_change k t t'.
Proof. intros Hc Hv. specialize (Hc v). rewrite Hv in Hc. inversion Hc; subst. eauto. Qed.

Lemma changed_running k s s' c : changed k s s' -> running s c <-> running s' c.
Proof.
  intros Hc. split; intros (v & t & Hv & Hr & Hcid).
  - destruct (changed_some _ _ _ _ _ Hc Hv) as (t' & Hv' & [? ? ? ? ? ? [(E & _)|(E & _)]]); [|congruence]. exists v, t'. split_and!; congruence.
  - destruct (changed_back _ _ _ _ _ Hc Hv) as (t' & Hv' & [? ? ? ? ? ? [(E & _)|(_ & E & _)]]); [|congruence]. exists v, t'. split_and!; congruence.
Qed.

(** The parts of the state that stay. *)
Record phase_frame s s' : Prop := {
  pf_ctx : same_ctx s s';
  pf_rest : same_rest s s';
  pf_gid : sc_gidMap s' = sc_gidMap s;
  pf_fakes : sc_fakeLeaves s' = sc_fakeLeaves s;
  pf_cores : sc_cores s' = sc_cores s
}.
Lemma phase_frame_refl s : phase_frame s s.
Proof. by split. Qed.
Lemma phase_frame_trans s1 s2 s3 : phase_frame s1 s2 -> phase_frame s2 s3 -> phase_frame s1 s3.
Proof.
  intros [(A1 & A2 & A3) [B1 B2 B3 B4] A4 A5 A6] [(C1 & C2 & C3) [D1 D2 D3 D4] C4 C5 C6].
  split; [split_and!; congruence|split; congruence|congruence..].
Qed.

(** ** Time slices *)

Definition handing s c : Prop := exists v tv, sc_threads s !! v = Some tv /\ is_Some (th_handoffThread tv) /\ th_cid tv = c.

(** No thread of [l] may use a core of [avail]. *)
Definition no_match s (l avail : list nat) : Prop :=
  forall p t c, p ∈ l -> sc_threads s !! p = Some t -> c ∈ avail -> th_mask t !! c <> Some true.

Lemma tick_step s p t w tw k : sched_inv None ∅ s -> p ∈ sc_queues s RunQ -> sc_threads s !! p = Some t ->
  sc_threads s !! w = Some tw -> th_state tw = Th.RUNNING -> th_handoffThread tw = None -> th_mask t !! th_cid tw = Some true ->
  let s' := after_remove RunQ p t (set_heap (<[w := th_set_handoff (Some p) tw]> (sc_threads s)) s) in
  w <> p /\ th_owner t = Some RunQ /\ sched_inv None ∅ s' /\ changed k s s' /\ phase_frame s s' /\
  (forall c, handing s' c <-> handing s c \/ c = th_cid tw).
Proof.
  intros Hinv Hin Hp Hw Hr Hh Hm s'. pose proof Hinv as [_ Hq _ Ht _].
  apply (qi_in _ Hq) in Hin as (t0 & Hp0 & Ho). assert (t0 = t) as -> by congruence. clear Hp0.
  pose proof (ti_owner _ _ Ht p t Hp) as Hown. unfold owner_for in Hown.
  assert (th_state t = Th.QUEUED /\ th_futexWord t = 1) as [Hst Hf].
  { destruct (th_state t); try congruence. destruct Hown as [[_ ?]|[? _]]; [done|congruence]. }
  assert (w <> p) as Hwp by (intros ->; simplify_eq; congruence).
  destruct (idle_thread _ _ _ (ti_local _ _ Ht p t Hp)) as (I1 & I2 & I3); [congruence|].
  assert (sc_threads s' = <[w := th_set_handoff (Some p) tw]> (<[p := th_set_owner None t]> (sc_threads s))) as Em.
  { unfold s'. simpl. by rewrite insert_insert_ne. }
  split_and!; [done|done|..].
  - pose proof (assign_inv (∅ ∪ {[p]}) (after_remove RunQ p t s) p (th_set_owner None t) w tw) as HA. simpl in HA.
    assert ((∅ ∪ {[p]} : gset nat) ∖ {[p]} = ∅) as E by set_solver. rewrite E in HA. unfold s', after_remove. simpl.
    rewrite insert_insert_ne by done. apply HA; try done; [by apply (dequeue_inv I)|set_solver|by rewrite lookup_insert_eq|by rewrite lookup_insert_ne].
  - eapply changed_trans; [eapply (changed_upd k s (set_heap (<[w := th_set_handoff (Some p) tw]> (sc_threads s)) s)); [done|done|]|
      eapply changed_upd; [|done|]].
    + split; try done. left. auto.
    + simpl. by rewrite lookup_insert_ne.
    + split; try done. left. auto.
  - by split.
  - intros c. split.
    + intros (v & tv & Hv & Hs & Hc). rewrite Em in Hv. apply lookup_insert_Some in Hv as [[<- <-]|[_ Hv]]; [by right|].
      apply lookup_insert_Some in Hv as [[<- <-]|[_ Hv]]; [simpl in Hs; rewrite I3 in Hs; by destruct Hs|]. left. by exists v, tv.
    + intros [(v & tv & Hv & Hs & Hc)| ->]; [|exists w, (th_set_handoff (Some p) tw); rewrite Em, lookup_insert_eq; simpl; eauto].
      assert (v <> w) by (intros ->; simplify_eq; rewrite Hh in Hs; by destruct Hs).
      assert (v <> p) by (intros ->; simplify_eq; rewrite I3 in Hs; by destruct Hs).
      exists v, tv. by rewrite Em, !lookup_insert_ne by done.
Qed.

Lemma tick_loop_ok k l : forall avail s, sched_inv None ∅ s -> NoDup l -> (forall p, p ∈ l -> p ∈ sc_queues s RunQ) ->
  (forall c, c ∈ avail -> (c < numCores s)%nat) -> (forall c, handing s c -> c ∉ avail) ->
  (forall p, p ∈ sc_queues s RunQ -> p ∉ l -> no_match s [p] avail) ->
  wp (tick_loop l avail) (fun avail' s' => sched_inv None ∅ s' /\ changed k s s' /\ phase_frame s s' /\
    (forall c, c ∈ avail' -> c ∈ avail) /\ (forall c, handing s' c -> c ∉ avail') /\
    (forall c, c ∈ avail -> c ∉ avail' -> handing s' c) /\ (forall c, handing s c -> handing s' c) /\
    no_match s' (sc_queues s' RunQ) avail') s.
Proof.
  induction l as [|p l IH]; intros avail s Hinv Hnd Hl Hav Hh Hno.
  - simpl. wp_step. split_and!; try done; [apply changed_refl|].
    intros p t c Hp Ht Hc. apply (Hno p Hp ltac:(apply not_elem_of_nil) p t c); [left|done|done].
  - simpl. destruct avail as [|a avail].
    { wp_step. split_and!; try done; [apply changed_refl|]. by intros p' t c _ _ ?%not_elem_of_nil. }
    remember (a :: avail) as av eqn:Eav. clear Eav. apply NoDup_cons in Hnd as [Hpl Hnd].
    pose proof Hinv as [Hc Hq _ Ht Hcs]. assert (p ∈ sc_queues s RunQ) as Hpin by (apply Hl; left).
    pose proof Hpin as (t & Hp & Ho)%(qi_in _ Hq). wp_step. eapply wp_get_th; [done|]. wp_step.
    eapply wp_mono; [apply find_context_ok|].
    { intros c Hca. rewrite (tl_mask _ _ _ (ti_local _ _ Ht p t Hp)). by apply Hav. }
    intros [c|] s1 [-> Hr].
    + destruct Hr as [Hca Hm]. destruct (Hcs p t c Hpin Hp Hm) as (w & tw & Hw & Hrw & Hcw); [done|].
      destruct (hold_context _ _ w tw Hc Hw (or_introl Hrw)) as (x & Hx & Hxw & _). rewrite Hcw in Hx.
      wp_step. eapply wp_get_cx; [done|]. rewrite Hxw.
      assert (th_handoffThread tw = None) as Hhw.
      { apply eq_None_not_Some. intros Hs. apply (Hh c); [|done]. by exists w, tw. }
      rewrite <- Hcw in Hm. destruct (tick_step s p t w tw k Hinv Hpin Hp Hw Hrw Hhw Hm) as (Hwp & Hop & A1 & A2 & A3 & A4).
      wp_step. eapply wp_upd_th; [done|]. wp_step. eapply wp_remove; [simpl; by rewrite lookup_insert_ne|done|].
      set (s1 := after_remove _ _ _ _) in A1, A2, A3, A4.
      eapply wp_mono; [apply (IH (remove_one c av) s1); try done|].
      * intros v Hv. unfold s1. simpl. apply elem_of_remove_one. split; [apply Hl; by right|]. by intros ->.
      * intros c' [Hc' _]%elem_of_remove_one. rewrite (sr_cores _ _ (pf_rest _ _ A3)). by apply Hav.
      * intros c' Hc'. rewrite elem_of_remove_one. intros [Hin Hne]. apply A4 in Hc' as [Hc'|E]; [by apply (Hh c')|congruence].
      * intros v Hv Hvl. unfold s1 in Hv. simpl in Hv. apply elem_of_remove_one in Hv as [Hv Hvp].
        intros u tu c' ->%list_elem_of_singleton Hu [Hc' _]%elem_of_remove_one.
        destruct (changed_back _ _ _ _ _ A2 Hu) as (tv & Htv & Hpc). rewrite (pc_mask _ _ _ Hpc).
        apply (Hno v Hv ltac:(set_solver) v tv c'); [left|done|done].
      * intros av' s2 (B1 & B2 & B3 & B4 & B5 & B6 & B7 & B8). split_and!; try done.
        -- by eapply changed_trans.
        -- by eapply phase_frame_trans.
        -- intros c' Hc'. by apply B4, elem_of_remove_one in Hc' as [? _].
        -- intros c' Hin Hnin. destruct (decide (c' = c)) as [->|Hne]; [|apply B6; [by apply elem_of_remove_one|done]].
           apply B7, A4. right. congruence.
        -- intros c' Hc'. apply B7, A4. by left.
    + eapply IH; try done.
      * intros v Hv. apply Hl. by right.
      * intros v Hv Hvl u tu c' ->%list_elem_of_singleton Hu Hc'. destruct (decide (v = p)) as [->|Hne].
        -- assert (tu = t) as -> by congruence. by apply Hr.
        -- apply (Hno v Hv ltac:(set_solver) v tu c'); [left|done|done].
Qed.

Lemma shuffle_cores_ok i : forall avail s, (i < length avail)%nat ->
  wp (shuffle_cores i avail) (fun avail' s' => avail' ≡ₚ avail /\ exists g, s' = set_schedRnd g s) s.
Proof.
  induction i as [|i IH]; intros avail s Hi; simpl.
  - wp_step. split; [done|]. exists (sc_rnd s). by destruct s.
  - do 2 wp_step. destruct (randInt (Datatypes.S i) (sc_rnd s)) as [j g] eqn:E.
    pose proof (randInt_le (Datatypes.S i) (sc_rnd s)) as Hj. rewrite E in Hj. simpl in Hj.
    destruct (lookup_lt_is_Some_2 avail (Datatypes.S i) Hi) as [a Ha].
    destruct (lookup_lt_is_Some_2 avail j ltac:(lia)) as [b Hb].
    do 3 wp_step. eapply wp_lift; [by apply at_ok|]. wp_step. eapply wp_lift; [by apply at_ok|].
    eapply wp_mono; [apply IH; rewrite !length_insert; lia|]. intros av s' (Hp & g' & ->). split; [|by exists g'].
    etrans; [done|]. by apply swap_perm.
Qed.

Lemma rnd_inv fx ft s g : sched_inv fx ft s -> sched_inv fx ft (set_schedRnd g s).
Proof.
  intros [Hc Hq Hs Ht Hcs]. split.
  - by apply (ctx_same fx s).
  - by apply (queue_same s).
  - done.
  - by destruct Ht; split.
  - done.
Qed.

Lemma printState_ok fx s : ctx_inv fx s -> wp printState (fun _ s' => s' = s) s.
Proof.
  intros Hc. unfold printState. do 2 wp_step. apply (wp_forM_inv _ _ (fun s' => s' = s)); [done|].
  intros x s' (c & Hx)%list_elem_of_lookup ->. pose proof (ci_cx _ _ Hc c x Hx) as Hcx. unfold cx_ok in Hcx.
  case_bool_decide; [by wp_step|]. destruct (cx_curThread x) as [p|]; [|by destruct Hcx].
  destruct Hcx as (_ & _ & t & Ht & _ & Hh). wp_step. eapply wp_get_th; [done|].
  destruct (is_state [Th.RUNNING; Th.OUT] t) eqn:Es; [by wp_step|]. exfalso.
  apply not_true_iff_false in Es. apply Es, is_state_true. destruct Hh as [-> | ->]; set_solver.
Qed.

(** After a time slice a thread stays queued only if every core of its mask is
    handed to another thread. *)
Definition served s : Prop := forall p t c, p ∈ sc_queues s RunQ -> sc_threads s !! p = Some t -> th_mask t !! c = Some true -> handing s c.

Lemma schedTick_ok k s : sched_inv None ∅ s -> (forall c, ~ handing s c) ->
  wp schedTick (fun _ s' => sched_inv None ∅ s' /\ changed k s s' /\ phase_frame s s' /\ served s') s.
Proof.
  intros Hinv Hh. pose proof (ci_size _ _ (si_ctx _ _ _ Hinv)) as Hsize. unfold schedTick. do 3 wp_step.
  eapply wp_mono; [apply shuffle_cores_ok; rewrite length_seq; lia|]. intros avail s1 (Hperm & g & ->). wp_step.
  eapply wp_mono; [apply (tick_loop_ok k)|].
  - by apply rnd_inv.
  - apply (qi_nodup _ (si_queue _ _ _ Hinv)).
  - done.
  - intros c. rewrite Hperm, elem_of_seq. unfold numCores. simpl. lia.
  - intros c Hc. by destruct (Hh c).
  - intros p Hp Hn. by destruct Hn.
  - intros avail' s2 (A1 & A2 & A3 & A4 & A5 & A6 & _ & A8).
    eapply wp_mono; [eapply printState_ok, A1|]. intros _ s3 ->. split_and!; try done.
    + destruct A3 as [B1 [] B3 B4 B5]. by split.
    + intros p t c Hp Ht Hm. destruct (decide (c ∈ avail')) as [Hin|Hn]; [by destruct (A8 p t c)|]. apply A6; [|done].
      rewrite Hperm, elem_of_seq. apply lookup_lt_Some in Hm.
      rewrite (tl_mask _ _ _ (ti_local _ _ (si_thread _ _ _ A1) p t Ht)), (sr_cores _ _ (pf_rest _ _ A3)) in Hm. unfold numCores in *. simpl in *. lia.
Qed.
End Phase.

(** ** The callback at the end of a phase *)

Section Clock.
Context {C G : Type} `{CoreOps C} `{RandInt G}.
Context (I : (nat -> bool) -> C -> Prop) {HI : CoreLaws I}.
Context (schedQuantum phaseLength : Z) (Hquantum : 0 < schedQuantum < 2 ^ 32).
Abbreviation S := (Sched C G).
Implicit Types (s : S) (t : ThreadInfo) (p c : nat) (k : Clock).

(** ** The clock *)

Lemma next_phase (x w : Z) : in_u64 x -> x < w < 2 ^ 64 -> u64 (x + 1) = x + 1.
Proof. unfold in_u64. intros Hx Hw. apply u64_id. unfold in_u64. lia. Qed.

(** No thread is about to sleep, and no deadline is missed. *)
Definition unmarked s : Prop := forall p t, sc_threads s !! p = Some t -> th_markedForSleep t = false.
Definition deadlines (x : Z) s : Prop := forall p t, sc_threads s !! p = Some t -> th_state t = Th.SLEEPING -> x < th_wakeupPhase t.

Lemma clock_inv fx ft s k : sched_inv fx ft s -> unmarked s -> deadlines (ck_curPhase k) s ->
  ck_curPhase k = ck_numPhases k -> in_u64 (ck_curPhase k) -> sched_inv fx ft (set_clock k s).
Proof.
  intros [Hc Hq Hs Ht Hcs] Hm Hd Hk Hk'. split.
  - by apply (ctx_same fx s).
  - by apply (queue_same s).
  - done.
  - destruct Ht as [K1 K2 K3 K4 K5 K6 K7 K8 K9]. split; try done. intros p t Hp. pose proof (K1 p t Hp) as [L1 L2 L3 L4 L5 L6 L7 L8 L9].
    split; try done.
    + intros Hsl. destruct (L4 Hsl) as [? ?]. split; [done|]. split; [by apply (Hd p t)|lia].
    + intros Hmk. by rewrite (Hm p t Hp) in Hmk.
  - done.
Qed.

Lemma remove_one_notin p l : p ∉ l -> remove_one p l = l.
Proof.
  unfold remove_one. induction l as [|x l IH]; intros Hn; [done|]. rewrite filter_cons, decide_True by set_solver.
  by rewrite IH by set_solver.
Qed.
Lemma remove_one_head p l : NoDup (p :: l) -> remove_one p (p :: l) = l.
Proof.
  intros [Hn _]%NoDup_cons. unfold remove_one. rewrite filter_cons, decide_False by tauto. by apply remove_one_notin.
Qed.

(** ** Sleepers *)

(** The sleep queue while deadlines are checked: the invariant holds with the
    clock of the last phase. *)
Definition waking k0 s : Prop := sched_inv None ∅ (set_clock k0 s) /\ in_u64 (ck_curPhase k0) /\
  ck_curPhase (sc_clock s) = u64 (ck_curPhase k0 + 1).

Lemma wake_one k0 s p l t : waking k0 s -> sc_queues s SleepQ = p :: l -> sc_threads s !! p = Some t ->
  th_wakeupPhase t = ck_curPhase (sc_clock s) ->
  let t' := th_set_owner None (th_set_futex 0 (th_set_needsJoin false (th_set_state Th.BLOCKED t))) in
  let s' := set_queue SleepQ l (set_heap (<[p := t']> (sc_threads s)) s) in
  waking k0 s' /\ changed (ck_curPhase (sc_clock s)) s s' /\ phase_frame s s' /\ (forall c, handing s' c -> handing s c).
Proof.
  intros (Hinv & Hk & Ek) Eq Hp Hw t' s'. pose proof Hinv as [_ Hq _ Ht _].
  assert (p ∈ sc_queues s SleepQ) as Hin by (rewrite Eq; left).
  apply (qi_in _ Hq) in Hin as (t0 & Ht0 & Ho). simpl in Ht0. assert (t0 = t) as -> by congruence. clear Ht0.
  pose proof (ti_owner _ _ Ht p t Hp) as Hown. unfold owner_for in Hown.
  assert (th_state t = Th.SLEEPING) as Hsl by (destruct (th_state t); try congruence; destruct Hown as [[? _]|[? _]]; congruence).
  pose proof (qi_nodup _ Hq SleepQ) as Hnd. simpl in Hnd. rewrite Eq in Hnd.
  split_and!.
  - split_and!; [|done|done]. eapply (unsleep_inv None ∅ _ _ p t t' Hinv Hp Hsl); try done. intros q. simpl.
    destruct (decide (q = SleepQ)) as [->|]; [|done]. by rewrite Eq, remove_one_head.
  - eapply changed_upd; [done|done|]. split; try done. right. done.
  - by split.
  - intros c (v & tv & Hv & Hs & Hc). simpl in Hv. apply lookup_insert_Some in Hv as [[<- <-]|[_ Hv]]; [by exists p, t|by exists v, tv].
Qed.

Lemma wake_sleepers_ok k0 l : forall s, waking k0 s -> sc_queues s SleepQ = l ->
  wp (wake_sleepers l) (fun _ s' => waking k0 s' /\ deadlines (ck_curPhase (sc_clock s)) s' /\
    changed (ck_curPhase (sc_clock s)) s s' /\ phase_frame s s' /\ (forall c, handing s' c -> handing s c)) s.
Proof.
  induction l as [|p l IH]; intros s Hwk Eq; simpl; pose proof Hwk as (Hinv & Hk & Ek); pose proof Hinv as [_ Hq Hs Ht _].
  - wp_step. split_and!; [done| |apply changed_refl|done|done]. intros p t Hp Hsl.
    pose proof (ti_owner _ _ Ht p t Hp) as Hown. unfold owner_for in Hown. rewrite Hsl in Hown.
    assert (p ∈ sc_queues s SleepQ) as Hin by (apply (qi_in _ Hq); by exists t). rewrite Eq in Hin. by apply not_elem_of_nil in Hin.
  - assert (p ∈ sc_queues s SleepQ) as Hin by (rewrite Eq; left).
    apply (qi_in _ Hq) in Hin as (t & Hp & Ho). simpl in Hp. wp_step. eapply wp_get_th; [done|]. do 2 wp_step.
    pose proof (ti_owner _ _ Ht p t Hp) as Hown. unfold owner_for in Hown.
    assert (th_state t = Th.SLEEPING) as Hsl by (destruct (th_state t); try congruence; destruct Hown as [[? _]|[? _]]; congruence).
    destruct (tl_sleep _ _ _ (ti_local _ _ Ht p t Hp) Hsl) as [Hf Hlt]. simpl in Hlt. rewrite (next_phase _ _ Hk Hlt) in Ek.
    destruct (th_wakeupPhase t <=? ck_curPhase (sc_clock s)) eqn:E; [apply Z.leb_le in E|apply Z.leb_gt in E].
    + assert (th_wakeupPhase t = ck_curPhase (sc_clock s)) as Hw by lia.
      do 2 wp_step; [by apply Z.eqb_eq|]. wp_step. eapply wp_upd_th; [done|]. wp_step.
      eapply wp_wakeup; [by apply lookup_insert_eq|done|]. simpl. rewrite insert_insert_eq. wp_step.
      unfold q_pop_front. do 2 wp_step. simpl. rewrite Eq.
      eapply wp_remove; [by apply lookup_insert_eq|done|]. simpl. rewrite insert_insert_eq, Eq.
      destruct (wake_one k0 s p l t Hwk Eq Hp Hw) as (A1 & A2 & A3 & A4). set (s1 := set_queue _ _ _) in A1, A2, A3, A4.
      assert (remove_one p (p :: l) = l) as El.
      { pose proof (qi_nodup _ Hq SleepQ) as Hnd. simpl in Hnd. rewrite Eq in Hnd. by apply remove_one_head. }
      rewrite El. eapply wp_mono; [apply (IH s1); done|]. intros _ s2 (B1 & B2 & B3 & B4 & B5). split_and!; try done.
      * by eapply changed_trans.
      * by eapply phase_frame_trans.
      * intros c Hc. by apply A4, B5.
    + wp_step. split_and!; [done| |apply changed_refl|done|done]. intros v tv Hv Hslv.
      assert (v ∈ sc_queues s SleepQ) as Hin.
      { apply (qi_in _ Hq). exists tv. split; [done|]. pose proof (ti_owner _ _ Ht v tv Hv) as Hov. unfold owner_for in Hov. by rewrite Hslv in Hov. }
      unfold sleep_sorted in Hs. simpl in Hs. rewrite Eq in Hs, Hin. apply elem_of_cons in Hin as [->|Hin]; [simplify_eq; lia|].
      inversion Hs as [|? ? _ Hall]; subst. rewrite Forall_forall in Hall. specialize (Hall v Hin). unfold wake_of in Hall. simpl in Hall.
      rewrite Hp, Hv in Hall. lia.
Qed.

(** ** The callback *)

Record callback_post s s' : Prop := {
  cb_inv : sched_inv None ∅ s';
  cb_changed : changed (ck_curPhase (sc_clock s')) s s';
  cb_ctx : same_ctx s s';
  cb_gid : sc_gidMap s' = sc_gidMap s;
  cb_fresh : sc_fresh s' = sc_fresh s;
  cb_phase : ck_curPhase (sc_clock s') = u64 (ck_curPhase (sc_clock s) + 1);
  cb_cores : I (runb s') (sc_cores s');
  cb_served : ck_curPhase (sc_clock s') mod schedQuantum = 0 -> served s';
  cb_between : ck_curPhase (sc_clock s') mod schedQuantum <> 0 -> forall c, ~ handing s' c
}.

Lemma runb_ext fx fx' s s' : ctx_inv fx s -> ctx_inv fx' s' -> (forall c, running s c <-> running s' c) -> forall c, runb s c = runb s' c.
Proof.
  intros Hc Hc' Hr c. apply eq_true_iff_eq. by rewrite (runb_running fx), (runb_running fx').
Qed.

Lemma scheduled_le fx s : ctx_inv fx s -> sc_scheduledThreads s <= Z.of_nat (numCores s).
Proof.
  intros Hc. rewrite (ci_count _ _ Hc). unfold numCores. pose proof (count_if_le is_used (sc_contexts s)). lia.
Qed.

(** The clock moves and the deadlines are checked. *)
Lemma next_phase_inv s k0 (x : Z) s' : sched_inv None ∅ s -> unmarked s -> changed x s s' -> waking k0 s' -> deadlines (ck_curPhase (sc_clock s')) s' ->
  ck_curPhase (sc_clock s') = ck_numPhases (sc_clock s') -> sched_inv None ∅ s'.
Proof.
  intros Hinv Hm Hch (Hinv' & Hk & Ek) Hd He. replace s' with (set_clock (sc_clock s') (set_clock k0 s')) by (by destruct s').
  apply clock_inv; try done.
  - intros p t Hp. destruct (changed_back _ _ _ _ _ Hch Hp) as (t0 & Ht0 & Hpc). rewrite (pc_marked _ _ _ Hpc). by eapply Hm.
  - rewrite Ek. apply u64_range.
Qed.

Lemma sched_callback_ok s : sched_inv None ∅ s -> unmarked s -> (forall c, ~ handing s c) -> I (runb s) (sc_cores s) ->
  wp (sched_callback schedQuantum phaseLength) (fun _ s' => callback_post s s') s.
Proof.
  intros Hinv Hm Hh Hcore. pose proof Hinv as [Hc _ _ Ht _]. pose proof (ti_phase _ _ Ht) as [Hph Hu].
  unfold sched_callback. do 4 wp_step; [apply Z.leb_le; by eapply scheduled_le|]. wp_step. apply wp_in_cores.
  eapply wp_mono; [by apply law_sync|]. intros [] kc Hkc. do 6 wp_step; [simpl; apply Z.eqb_eq; by rewrite Hph|].
  set (s1 := set_clock _ _). wp_step.
  eapply wp_mono; [apply (wake_sleepers_ok (sc_clock s)); [|done]|].
  { split_and!; [|done|done]. replace (set_clock _ s1) with (set_cores kc s) by (by destruct s). by apply cores_inv. }
  intros _ s2 (A1 & A2 & A3 & A4 & A5). pose proof (sr_clock _ _ (pf_rest _ _ A4)) as Ek. do 2 wp_step.
  assert (changed (ck_curPhase (sc_clock s1)) s s2) as Hch by done.
  assert (sched_inv None ∅ s2) as Hinv2.
  { eapply (next_phase_inv s); try done; rewrite Ek; [done|]. simpl. by rewrite Hph. }
  assert (forall c, ~ handing s2 c) as Hh2 by (intros c Hc2; apply A5 in Hc2; by apply (Hh c)).
  assert (forall s3, sched_inv None ∅ s3 -> changed (ck_curPhase (sc_clock s1)) s2 s3 -> phase_frame s2 s3 ->
    (ck_curPhase (sc_clock s1) mod schedQuantum = 0 -> served s3) ->
    (ck_curPhase (sc_clock s1) mod schedQuantum <> 0 -> forall c, ~ handing s3 c) -> callback_post s s3) as Hfin.
  { intros s3 B1 B2 B3 B4 B5. pose proof (sr_clock _ _ (pf_rest _ _ B3)) as Ek3. rewrite Ek in Ek3.
    assert (changed (ck_curPhase (sc_clock s1)) s s3) as Hch3 by (by eapply changed_trans).
    pose proof (phase_frame_trans _ _ _ A4 B3) as [F1 [F2 F3 F4 F5] F6 F7 F8].
    split; rewrite ?Ek3; try done. rewrite F8. eapply law_ext; [|exact Hkc].
    eapply runb_ext; [done|apply B1|]. intros c. by apply (changed_running (ck_curPhase (sc_clock s1))). }
  destruct (sc_queues s2 RunQ) as [|p0 l0] eqn:Eq.
  - wp_step. apply Hfin; try done; [apply changed_refl|]. intros _ p t c Hp. rewrite Eq in Hp. by apply not_elem_of_nil in Hp.
  - wp_step. eapply wp_lift; [unfold umod; rewrite (proj2 (Z.eqb_neq schedQuantum 0)) by lia; done|].
    rewrite Ek. destruct (Z.eqb_spec (ck_curPhase (sc_clock s1) mod schedQuantum) 0) as [E|E].
    + eapply wp_mono; [by apply (schedTick_ok I (ck_curPhase (sc_clock s1)))|]. intros _ s3 (B1 & B2 & B3 & B4). by apply Hfin.
    + apply wp_ret. apply Hfin; try done. apply changed_refl.
Qed.
End Clock.
