(* ===== verification/SchedulerActs.v ===== *)
(** * Joining, leaving and handing off, up to the barrier *)

From stdpp Require Import base list gmap sets strings sorting.
From Stdlib Require Import ZArith Lia.
From S2P Require Import Prelude Barrier Scheduler SchedulerInv SchedulerMoves SchedulerOps SchedulerPhase.
Local Open Scope Z_scope.

(** ** The operations of a thread, up to the barrier

    What each operation does to the thread that calls it, to the other threads
    and to the contexts that run.  Another thread is only touched in three
    ways: it loses the context it kept while it was out, it is given a context
    it waited for, or the end of a phase changes it. *)

Section Run.
Context {C G : Type} `{CoreOps C} `{RandInt G}.
Context (I : (nat -> bool) -> C -> Prop) {HI : CoreLaws I}.
Abbreviation S := (Sched C G).
Implicit Types (s : S) (t : ThreadInfo) (p c : nat) (j : nat -> bool) (ft : gset nat).

(** ** Other threads *)

(** Nothing is pending for the thread. *)
Definition plain t : Prop := th_markedForSleep t = false /\ th_fakeLeave t = None /\ th_handoffThread t = None.

Inductive nudge (A : nat -> Prop) t t' : Prop :=
| nd_same : t' = t -> nudge A t t'
| nd_taken : th_state t = Th.OUT -> t' = th_set_state Th.BLOCKED (th_set_owner None t) -> nudge A t t'
| nd_given : th_state t = Th.QUEUED -> th_gid t' = th_gid t -> th_state t' = Th.RUNNING -> A (th_cid t') ->
    th_futexWord t' = 0 -> th_needsJoin t' = false -> plain t' -> nudge A t t'.

Lemma nudge_trans (A : nat -> Prop) t1 t2 t3 : nudge A t1 t2 -> nudge A t2 t3 -> nudge A t1 t3.
Proof.
  intros [->|E1 ->|E1 E2 E3 E4 E5 E6 E7]; [done|..]; intros [->|F1 ->|F1 F2 F3 F4 F5 F6 F7].
  - by apply nd_taken.
  - done.
  - done.
  - by apply nd_given.
  - congruence.
  - congruence.
Qed.

Record nudged p (A : nat -> Prop) s s' : Prop := {
  ng_others : forall v, v <> p -> option_Forall2 (nudge A) (sc_threads s !! v) (sc_threads s' !! v);
  ng_rest : same_rest s s';
  ng_gid : sc_gidMap s' = sc_gidMap s
}.

Lemma nudged_trans p A s1 s2 s3 : nudged p A s1 s2 -> nudged p A s2 s3 -> nudged p A s1 s3.
Proof.
  intros [A1 [] A3] [B1 [] B3]. split; [|split; congruence|congruence].
  intros v Hv. specialize (A1 v Hv). specialize (B1 v Hv). destruct A1; inversion B1; subst; constructor. by eapply nudge_trans.
Qed.

(** Changes of one thread. *)
Lemma nudged_self p A s s' t' : sc_threads s' = <[p := t']> (sc_threads s) -> same_rest s s' -> sc_gidMap s' = sc_gidMap s -> nudged p A s s'.
Proof.
  intros Em Hr Hg. split; try done. intros v Hv. rewrite Em, lookup_insert_ne by done.
  destruct (sc_threads s !! v); constructor. by apply nd_same.
Qed.
Lemma nudged_other p A s s' v t t' : v <> p -> sc_threads s !! v = Some t -> sc_threads s' = <[v := t']> (sc_threads s) -> nudge A t t' ->
  same_rest s s' -> sc_gidMap s' = sc_gidMap s -> nudged p A s s'.
Proof.
  intros Hvp Hv Em Hn Hr Hg. split; try done. intros u Hu. rewrite Em. destruct (decide (u = v)) as [->|Hne].
  - rewrite lookup_insert_eq, Hv. by constructor.
  - rewrite lookup_insert_ne by done. destruct (sc_threads s !! u); constructor. by apply nd_same.
Qed.
Lemma nudged_same p A s s' : sc_threads s' = sc_threads s -> same_rest s s' -> sc_gidMap s' = sc_gidMap s -> nudged p A s s'.
Proof.
  intros Em Hr Hg. split; try done. intros v Hv. rewrite Em. destruct (sc_threads s !! v); constructor. by apply nd_same.
Qed.
Lemma took_nudged p A c s s' t : took c s s' -> sc_threads s !! p = Some t -> th_state t <> Th.OUT -> nudged p A s s'.
Proof.
  intros [Hth Hr Hg Hf _] Hp Hn. destruct Hth as [Em|(v & tv & Hv & Ho & _ & Em)].
  - by apply nudged_same.
  - eapply (nudged_other p A s s' v tv); try done; [intros ->; congruence|]. by apply nd_taken.
Qed.

(** ** Contexts that run *)

Definition keeps s s' : Prop := forall c, running s' c <-> running s c.
Definition gains c s s' : Prop := forall c', running s' c' <-> running s c' \/ c' = c.
Definition loses c s s' : Prop := forall c', running s' c' <-> running s c' /\ c' <> c.

Lemma running_insert s s' p t' c : sc_threads s' = <[p := t']> (sc_threads s) ->
  running s' c <-> (th_state t' = Th.RUNNING /\ th_cid t' = c) \/
    exists v tv, v <> p /\ sc_threads s !! v = Some tv /\ th_state tv = Th.RUNNING /\ th_cid tv = c.
Proof.
  intros Em. unfold running. rewrite Em. split.
  - intros (v & tv & Hv & Hr & Hc). apply lookup_insert_Some in Hv as [[<- <-]|[Hn Hv]]; [by left|right]. by exists v, tv.
  - intros [[Hr Hc]|(v & tv & Hn & Hv & Hr & Hc)]; [exists p, t'; by rewrite lookup_insert_eq|].
    exists v, tv. by rewrite lookup_insert_ne by done.
Qed.
Lemma running_before s p t c : sc_threads s !! p = Some t ->
  running s c <-> (th_state t = Th.RUNNING /\ th_cid t = c) \/
    exists v tv, v <> p /\ sc_threads s !! v = Some tv /\ th_state tv = Th.RUNNING /\ th_cid tv = c.
Proof.
  intros Hp. apply (running_insert s s p t c). by rewrite insert_id.
Qed.

(** A thread starts, keeps or stops running. *)
Lemma gains_upd s s' p t t' : sc_threads s !! p = Some t -> sc_threads s' = <[p := t']> (sc_threads s) ->
  th_state t <> Th.RUNNING -> th_state t' = Th.RUNNING -> gains (th_cid t') s s'.
Proof. intros Hp Em Hn Hr c. rewrite (running_insert s s' p t' c Em), (running_before s p t c Hp). naive_solver. Qed.
Lemma keeps_upd s s' p t t' : sc_threads s !! p = Some t -> sc_threads s' = <[p := t']> (sc_threads s) ->
  (th_state t' = Th.RUNNING <-> th_state t = Th.RUNNING) -> (th_state t = Th.RUNNING -> th_cid t' = th_cid t) -> keeps s s'.
Proof. intros Hp Em Hs Hc c. rewrite (running_insert s s' p t' c Em), (running_before s p t c Hp). naive_solver. Qed.
Lemma loses_upd fx s s' p t t' : ctx_inv fx s -> sc_threads s !! p = Some t -> sc_threads s' = <[p := t']> (sc_threads s) ->
  th_state t = Th.RUNNING -> th_state t' <> Th.RUNNING -> loses (th_cid t) s s'.
Proof.
  intros Hc Hp Em Hr Hn c. rewrite (running_insert s s' p t' c Em), (running_before s p t c Hp). split.
  - intros [[? _]|(v & tv & Hv & Htv & Hrv & Hcv)]; [done|]. split; [right; by exists v, tv|]. intros ->. apply Hv.
    eapply (hold_unique fx s v tv p t); try done; by left.
  - intros [[[_ ?]|?] ?]; [congruence|by right].
Qed.
Lemma keeps_refl s : keeps s s.
Proof. done. Qed.
Lemma keeps_same s s' : sc_threads s' = sc_threads s -> keeps s s'.
Proof. intros Em c. unfold running. by rewrite Em. Qed.
Lemma keeps_trans s1 s2 s3 : keeps s1 s2 -> keeps s2 s3 -> keeps s1 s3.
Proof. intros A B c. rewrite (B c). apply A. Qed.
Lemma keeps_gains c s1 s2 s3 : keeps s1 s2 -> gains c s2 s3 -> gains c s1 s3.
Proof. intros A B c'. rewrite (B c'). by rewrite (A c'). Qed.
Lemma gains_keeps c s1 s2 s3 : gains c s1 s2 -> keeps s2 s3 -> gains c s1 s3.
Proof. intros A B c'. rewrite (B c'). apply A. Qed.
Lemma keeps_loses c s1 s2 s3 : keeps s1 s2 -> loses c s2 s3 -> loses c s1 s3.
Proof. intros A B c'. rewrite (B c'). by rewrite (A c'). Qed.
Lemma loses_keeps c s1 s2 s3 : loses c s1 s2 -> keeps s2 s3 -> loses c s1 s3.
Proof. intros A B c'. rewrite (B c'). apply A. Qed.
Lemma loses_gains c s1 s2 s3 : running s1 c -> loses c s1 s2 -> gains c s2 s3 -> keeps s1 s3.
Proof. intros Hr A B c'. rewrite (B c'), (A c'). destruct (decide (c' = c)) as [->|]; tauto. Qed.

Lemma took_keeps c s s' : took c s s' -> keeps s s'.
Proof.
  intros [[Em|(v & tv & Hv & Ho & _ & Em)] _ _ _ _]; [by apply keeps_same|]. by eapply keeps_upd; try done; simpl; rewrite Ho.
Qed.

(** The cores follow. *)
Lemma cores_gain fx fx' c s s' k : ctx_inv fx s -> ctx_inv fx' s' -> gains c s s' -> I (joined_set (runb s) c true) k -> I (runb s') k.
Proof.
  intros Hc Hc' Hg. apply law_ext. intros c'. apply eq_true_iff_eq. unfold joined_set.
  rewrite (runb_running _ _ _ Hc'), (Hg c'). destruct (decide (c' = c)) as [->|]; [tauto|]. rewrite (runb_running _ _ _ Hc). tauto.
Qed.
Lemma cores_lose fx fx' c s s' k : ctx_inv fx s -> ctx_inv fx' s' -> loses c s s' -> I (joined_set (runb s) c false) k -> I (runb s') k.
Proof.
  intros Hc Hc' Hg. apply law_ext. intros c'. apply eq_true_iff_eq. unfold joined_set.
  rewrite (runb_running _ _ _ Hc'), (Hg c'). destruct (decide (c' = c)) as [->|]; [split; [done|tauto]|]. rewrite (runb_running _ _ _ Hc). tauto.
Qed.
Lemma cores_keep fx fx' s s' k : ctx_inv fx s -> ctx_inv fx' s' -> keeps s s' -> I (runb s) k -> I (runb s') k.
Proof. intros Hc Hc' Hg. apply law_ext. eapply runb_ext; [done|done|]. intros c. by rewrite (Hg c). Qed.
Lemma runb_false fx s c : ctx_inv fx s -> ~ running s c -> runb s c = false.
Proof. intros Hc Hn. apply not_true_iff_false. by rewrite (runb_running fx). Qed.
End Run.

(** ** Joining, leaving and handing off, up to the barrier *)

Section Acts.
Context {C G : Type} `{CoreOps C} `{RandInt G}.
Context (I : (nat -> bool) -> C -> Prop) {HI : CoreLaws I}.
Abbreviation S := (Sched C G).
Implicit Types (s : S) (t : ThreadInfo) (p c : nat) (j : nat -> bool) (ft : gset nat) (A : nat -> Prop).

(** The state between the operations. *)
Definition steady s : Prop := sched_inv None ∅ s /\ I (runb s) (sc_cores s).

(** ** Into a context *)

Lemma idle_context fx ft s c : sched_inv fx ft s -> floating s c ->
  exists x, sc_contexts s !! c = Some x /\ cx_curThread x = None /\ cx_state x = IDLE.
Proof.
  intros Hinv (x & Hx & Hn). exists x. split_and!; try done. pose proof (ci_cx _ _ (si_ctx _ _ _ Hinv) c x Hx) as Hcx.
  unfold cx_ok in Hcx. rewrite Hn in Hcx. apply Hcx.
Qed.

(** A thread takes a context that the policy chose for it, and joins the
    core. *)
Lemma enter_ok ft A s s1 p t c (Q : unit -> S -> Prop) : sched_inv None ft s -> sc_threads s !! p = Some t ->
  th_state t = Th.STARTED \/ th_state t = Th.BLOCKED \/ (th_state t = Th.QUEUED /\ p ∈ ft) -> th_owner t = None ->
  th_mask t !! c = Some true -> sched_inv (Some c) ft s1 -> floating s1 c -> took c s s1 -> I (runb s) (sc_cores s1) ->
  (forall s', sched_inv None (ft ∖ {[p]}) s' -> I (runb s') (sc_cores s') -> nudged p A s s' ->
     sc_threads s' !! p = Some (on_core_of c t) -> gains c s s' -> Q tt s') ->
  wp (schedule p c ;; in_cores (core_join c)) Q s1.
Proof.
  intros Hinv Hp Hst Ho Hm Hinv1 Hfl Htk Hj HQ.
  assert (th_state t <> Th.RUNNING /\ th_state t <> Th.OUT) as [N1 N2] by (destruct Hst as [E|[E|[E _]]]; rewrite E; done).
  destruct (idle_context _ _ _ _ Hinv1 Hfl) as (x & Hx & Hxn & Hxi). pose proof (took_other _ _ _ _ _ Htk Hp N2) as Hp1.
  wp_step. eapply (wp_schedule I p c t x (runb s)); try done.
  { destruct Hst as [E|[E|[E _]]]; rewrite E; set_solver. }
  intros k Hk. pose proof (schedule_inv I ft s1 p c t x k Hinv1 Hp1 Hx Hxn Hst Ho Hm) as Hinv2.
  set (s2 := after_schedule p c t x k s1) in *. apply wp_in_cores.
  eapply wp_mono; [apply (law_join (runb s)); [done|]; eapply runb_false; [apply Hinv|apply Htk]|].
  intros [] k2 Hk2. assert (gains c s s2) as Hg.
  { eapply keeps_gains; [by eapply took_keeps|]. by apply (gains_upd s1 s2 p t (on_core_of c t)). }
  apply HQ.
  - by apply cores_inv.
  - eapply (cores_gain I None None c s); [apply Hinv|eapply cores_inv, Hinv2|done|done].
  - eapply nudged_trans; [by eapply took_nudged|]. eapply nudged_self; [done|split; try done|done].
    unfold numCores. simpl. by rewrite length_insert.
  - unfold s2. simpl. by rewrite lookup_insert_eq.
  - done.
Qed.

(** A thread that was out goes on where it was. *)
Lemma reenter_ok A s p t (Q : unit -> S -> Prop) : steady s -> sc_threads s !! p = Some t -> th_state t = Th.OUT ->
  (forall s', steady s' -> nudged p A s s' -> sc_threads s' !! p = Some (th_set_owner None (th_set_state Th.RUNNING t)) ->
     gains (th_cid t) s s' -> ~ running s (th_cid t) -> Q tt s') ->
  wp ((upd_th p (th_set_state Th.RUNNING) ;; q_remove OutQ p) ;; in_cores (core_join (th_cid t))) Q s.
Proof.
  intros [Hinv Hj] Hp Ho HQ. pose proof (from_out_inv ∅ s p t Hinv Hp Ho) as Hinv1.
  pose proof (ti_owner _ _ (si_thread _ _ _ Hinv) p t Hp) as Hown. unfold owner_for in Hown. rewrite Ho in Hown.
  assert (~ running s (th_cid t)) as Hnr.
  { intros (v & tv & Hv & Hr & Hc). assert (v = p) as -> by (eapply (hold_unique None s v tv p t); try done; [apply Hinv|by left|by right]).
    simplify_eq. congruence. }
  wp_step. wp_step. eapply wp_upd_th; [done|]. eapply wp_remove; [by apply lookup_insert_eq|done|]. simpl.
  set (s1 := after_remove OutQ p (th_set_state Th.RUNNING t) (set_heap (<[p := th_set_state Th.RUNNING t]> (sc_threads s)) s)) in Hinv1.
  assert (sc_threads s1 = <[p := th_set_owner None (th_set_state Th.RUNNING t)]> (sc_threads s)) as Em
    by (unfold s1; simpl; by rewrite insert_insert_eq).
  change (wp (in_cores (core_join (th_cid t))) Q s1). apply wp_in_cores.
  assert (gains (th_cid t) s s1) as Hg by (apply (gains_upd s s1 p t _ Hp Em); simpl; congruence).
  eapply wp_mono; [apply (law_join (runb s)); [done|]; eapply runb_false; [apply Hinv|done]|]. intros [] k Hk.
  apply HQ; try done.
  - split; [by apply cores_inv|]. eapply (cores_gain I None None _ s); [apply Hinv|eapply cores_inv, Hinv1|done|done].
  - by eapply nudged_self.
  - simpl. by rewrite insert_insert_eq, lookup_insert_eq.
Qed.

(** ** Into the run queue *)

Definition queued t : ThreadInfo := th_set_futex 1 (th_set_owner (Some RunQ) (th_set_state Th.QUEUED t)).

Lemma queued_ok ft A s s' p t : sched_inv None ft s -> I (runb s) (sc_cores s) -> sc_threads s !! p = Some t ->
  th_state t = Th.STARTED \/ th_state t = Th.BLOCKED \/ (th_state t = Th.QUEUED /\ p ∈ ft) -> th_owner t = None ->
  (forall c, th_mask t !! c = Some true -> running s c) ->
  s' = set_queue RunQ (sc_queues s RunQ ++ [p]) (set_heap (<[p := queued t]> (sc_threads s)) s) ->
  sched_inv None (ft ∖ {[p]}) s' /\ I (runb s') (sc_cores s') /\ nudged p A s s' /\ sc_threads s' !! p = Some (queued t) /\ keeps s s'.
Proof.
  intros Hinv Hj Hp Hst Ho Hall ->. set (s' := set_queue _ _ _).
  assert (sched_inv None (ft ∖ {[p]}) s') as Hinv' by (by eapply (enqueue_inv I ft s s' p t)).
  assert (keeps s s') as Hk.
  { apply (keeps_upd s s' p t (queued t)); try done; simpl; destruct Hst as [E|[E|[E _]]]; by rewrite E. }
  split_and!; try done.
  - eapply (cores_keep I None None s); [apply Hinv|apply Hinv'|done|done].
  - by eapply nudged_self.
  - unfold s'. simpl. by rewrite lookup_insert_eq.
Qed.

(** ** A context for a queued thread *)

Definition given c t : ThreadInfo := th_set_futex 0 (th_set_needsJoin false (on_core_of c t)).

Lemma given_inv ft s p t x c k : sched_inv (Some c) ft s -> sc_threads s !! p = Some t -> p ∈ ft -> th_state t = Th.QUEUED ->
  th_owner t = None -> th_mask t !! c = Some true -> sc_contexts s !! c = Some x -> cx_curThread x = None ->
  let s1 := after_schedule p c t x k s in
  sched_inv None (ft ∖ {[p]}) (set_heap (<[p := given c t]> (sc_threads s)) s1).
Proof.
  intros Hinv Hp Hin Hst Ho Hm Hx Hn s1.
  destruct (idle_thread _ _ _ (ti_local _ _ (si_thread _ _ _ Hinv) p t Hp)) as (I1 & _ & _); [congruence|].
  assert (sched_inv None (ft ∖ {[p]}) s1) as Hinv1 by (apply (schedule_inv I ft s p c t x k); auto).
  pose proof (woken_inv I None (ft ∖ {[p]}) s1 p (on_core_of c t) Hinv1) as Hw.
  unfold s1 in Hw at 1. simpl in Hw. rewrite lookup_insert_eq, insert_insert_eq in Hw. by apply Hw.
Qed.

Lemma given_nudge A ft s p t c : sched_inv (Some c) ft s -> sc_threads s !! p = Some t -> th_state t = Th.QUEUED -> A c -> nudge A t (given c t).
Proof.
  intros Hinv Hp Hst Ha. destruct (idle_thread _ _ _ (ti_local _ _ (si_thread _ _ _ Hinv) p t Hp)) as (I1 & I2 & I3); [congruence|].
  by apply nd_given.
Qed.

(** The core has just been left; its next thread joins it. *)
Lemma give_ok ft s p t c j (Q : unit -> S -> Prop) : sched_inv (Some c) ft s -> floating s c -> sc_threads s !! p = Some t -> p ∈ ft ->
  th_state t = Th.QUEUED -> th_owner t = None -> th_futexWord t = 1 -> th_mask t !! c = Some true -> I j (sc_cores s) -> j c = false ->
  (forall s', sched_inv None (ft ∖ {[p]}) s' -> sc_threads s' = <[p := given c t]> (sc_threads s) -> same_rest s s' -> sc_gidMap s' = sc_gidMap s ->
     I (joined_set j c true) (sc_cores s') -> Q tt s') ->
  wp (give_context p c) Q s.
Proof.
  intros Hinv Hfl Hp Hin Hst Ho Hf Hm Hj Hjc HQ. destruct (idle_context _ _ _ _ Hinv Hfl) as (x & Hx & Hxn & Hxi).
  unfold give_context. wp_step. eapply (wp_schedule I p c t x j); try done; [rewrite Hst; set_solver|]. intros k Hk.
  wp_step. apply wp_in_cores. eapply wp_mono; [by apply (law_join j)|]. intros [] k2 Hk2.
  eapply wp_wakeup; [simpl; by rewrite lookup_insert_eq|done|]. simpl. rewrite insert_insert_eq.
  pose proof (given_inv ft s p t x c k2 Hinv Hp Hin Hst Ho Hm Hx Hxn) as Hinv2. apply HQ; try done.
  split; try done. unfold numCores. simpl. by rewrite length_insert.
Qed.

(** Thread [p] gives its context to thread [i]; all others stay. *)
Record passed p i c s s' : Prop := {
  ps_ne : i <> p;
  ps_from : exists t t', sc_threads s !! p = Some t /\ th_state t = Th.RUNNING /\ th_cid t = c /\
    sc_threads s' !! p = Some t' /\ th_state t' <> Th.RUNNING;
  ps_to : exists t, sc_threads s !! i = Some t /\ th_state t = Th.QUEUED /\ sc_threads s' !! i = Some (given c (th_set_owner None t));
  ps_others : forall v, v <> p -> v <> i -> sc_threads s' !! v = sc_threads s !! v
}.

Lemma passed_keeps p i c s s' : passed p i c s s' -> keeps s s'.
Proof.
  intros [Hne (t & t' & Hp & Hr & Hc & Hp' & Hn) (ti & Hi & Hq & Hi') Ho] c'. unfold running. split.
  - intros (v & tv & Hv & Hrv & Hcv). destruct (decide (v = i)) as [->|Hvi].
    + simplify_eq. simpl in *. by exists p, t.
    + destruct (decide (v = p)) as [->|Hvp]; [congruence|]. exists v, tv. by rewrite <- Ho.
  - intros (v & tv & Hv & Hrv & Hcv). destruct (decide (v = p)) as [->|Hvp].
    + assert (tv = t) as -> by congruence. exists i, (given c (th_set_owner None ti)). rewrite Hi'. split_and!; simpl; congruence.
    + destruct (decide (v = i)) as [->|Hvi]; [congruence|]. exists v, tv. by rewrite Ho.
Qed.

Lemma passed_nudged A p i c ft s s' : sched_inv None ft s -> passed p i c s s' -> A c -> same_rest s s' -> sc_gidMap s' = sc_gidMap s -> nudged p A s s'.
Proof.
  intros Hinv [Hne _ (ti & Hi & Hq & Hi') Ho] Ha Hr Hg. split; try done. intros v Hv. destruct (decide (v = i)) as [->|Hvi].
  - rewrite Hi, Hi'. constructor. destruct (idle_thread _ _ _ (ti_local _ _ (si_thread _ _ _ Hinv) i ti Hi)) as (I1 & I2 & I3); [congruence|].
    by apply nd_given.
  - rewrite Ho by done. destruct (sc_threads s !! v); constructor. by apply nd_same.
Qed.

(** What a context on its way to [i] leads to: [s1] is the state in which [p]
    has given it up and [i] has been chosen. *)
Lemma pass_ok A s s1 p t t' i ti c (Q : unit -> S -> Prop) : steady s -> sc_threads s !! p = Some t -> th_state t = Th.RUNNING -> th_cid t = c ->
  sc_threads s !! i = Some ti -> th_state ti = Th.QUEUED -> th_futexWord ti = 1 -> th_mask ti !! c = Some true ->
  sched_inv (Some c) {[i]} s1 -> floating s1 c -> th_state t' <> Th.RUNNING ->
  sc_threads s1 = <[p := t']> (<[i := th_set_owner None ti]> (sc_threads s)) -> same_rest s s1 -> sc_gidMap s1 = sc_gidMap s ->
  I (joined_set (runb s) c false) (sc_cores s1) -> A c ->
  (forall s', steady s' -> nudged p A s s' -> sc_threads s' !! p = Some t' -> keeps s s' -> Q tt s') ->
  wp (give_context i c) Q s1.
Proof.
  intros [Hinv Hj] Hp Hr Hc Hi Hq Hf Hm Hinv1 Hfl Hn Em Hrest Hg Hj1 Ha HQ.
  assert (i <> p) as Hne by (intros ->; simplify_eq; congruence).
  assert (sc_threads s1 !! i = Some (th_set_owner None ti)) as Hi1 by (by rewrite Em, lookup_insert_ne, lookup_insert_eq by done).
  eapply (give_ok {[i]} s1 i (th_set_owner None ti) c _); try done; [set_solver|unfold joined_set; by rewrite decide_True|].
  intros s' Hinv' Em' Hrest' Hg' Hj'. assert (({[i]} : gset nat) ∖ {[i]} = ∅) as E by set_solver. rewrite E in Hinv'.
  assert (sc_threads s' !! p = Some t') as Hp' by (by rewrite Em', lookup_insert_ne, Em, lookup_insert_eq).
  assert (passed p i c s s') as Hps.
  { split; [done|by exists t, t'| |].
    - exists ti. by rewrite Em', lookup_insert_eq.
    - intros v Hvp Hvi. by rewrite Em', lookup_insert_ne, Em, !lookup_insert_ne by done. }
  assert (keeps s s') as Hk by (by eapply passed_keeps). apply HQ; try done.
  - split; [done|]. eapply law_ext; [|exact Hj']. intros c'. unfold joined_set.
    destruct (decide (c' = c)) as [->|]; [|eapply runb_ext; [apply Hinv|apply Hinv'|intros; symmetry; apply Hk]].
    symmetry. apply (runb_running None); [apply Hinv'|]. apply Hk. by exists p, t.
  - eapply passed_nudged; [done|done|done| |congruence]. destruct Hrest, Hrest'. split; congruence.
Qed.
End Acts.
