(* ===== verification/SchedulerWays.v ===== *)
(** * The ways into and out of a context

    [join], [leave], [sync]'s handoff: everything up to the call of the
    barrier, which is left to the continuation. *)

From stdpp Require Import base list gmap sets strings sorting.
From Stdlib Require Import ZArith Lia.
From S2P Require Import Prelude Barrier Scheduler SchedulerInv SchedulerMoves SchedulerOps SchedulerPhase SchedulerActs.
Local Open Scope Z_scope.

Section Ways.
Context {C G : Type} `{CoreOps C} `{RandInt G}.
Context (I : (nat -> bool) -> C -> Prop) {HI : CoreLaws I}.
Context (schedQuantum phaseLength : Z).
Abbreviation S := (Sched C G).
Abbreviation W := (W (C := C) (G := G)).
Implicit Types (s : S) (t : ThreadInfo) (p c : nat) (j : nat -> bool) (ft : gset nat) (A : nat -> Prop) (b : W).

Lemma wp_on_sched {R} (m : M S R) (Q : R -> W -> Prop) b s : b_sched b = Ok s ->
  wp m (fun a s' => Q a (set_sched (Ok s') b)) s -> wp (on_sched m) Q b.
Proof. unfold wp, on_sched. intros ->. by destruct (m s) as [[a s']|]. Qed.

(** Two steps of the scheduler in a row. *)
Lemma wp_on_sched2 {R} (m1 m2 : M S unit) (k : M W R) (Q : R -> W -> Prop) b s : b_sched b = Ok s ->
  wp (m1 ;; m2) (fun _ s' => wp k Q (set_sched (Ok s') b)) s -> wp (on_sched m1 ;; on_sched m2 ;; k) Q b.
Proof.
  intros Hs Hw. apply wp_bind. eapply wp_on_sched; [done|]. unfold wp, bind in Hw. unfold wp at 1.
  destruct (m1 s) as [[[] s1]|]; [|done]. apply wp_bind. eapply wp_on_sched; [done|]. unfold wp at 1.
  destruct (m2 s1) as [[[] s2]|]; [|done]. exact Hw.
Qed.

(** ** Identifiers *)

Lemma lor_disjoint (x y : Z) : 0 <= y < 2 ^ 16 -> Z.lor (Z.shiftl x 16) y = x * 2 ^ 16 + y.
Proof.
  intros Hy. assert (Z.land (Z.shiftl x 16) y = 0) as Hl.
  { apply Z.bits_inj'. intros i Hi. rewrite Z.land_spec, Z.bits_0. destruct (Z.lt_ge_cases i 16).
    - by rewrite Z.shiftl_spec_low.
    - rewrite <- (Z.mod_small y (2 ^ 16)) by lia. rewrite Z.mod_pow2_bits_high by lia. apply andb_false_r. }
  rewrite <- Z.shiftl_mul_pow2 by lia. rewrite (Z.add_nocarry_lxor _ _ Hl). symmetry. by apply Z.lxor_lor.
Qed.
Lemma gid_parts g : 0 <= g < 2 ^ 32 -> getGid (getPid g) (getTid g) = g.
Proof.
  intros Hg. unfold getGid, getPid, getTid. change 65535 with (Z.ones 16). rewrite Z.land_ones by lia.
  pose proof (Z.mod_pos_bound g (2 ^ 16) ltac:(lia)). rewrite lor_disjoint by lia. rewrite Z.shiftr_div_pow2 by lia.
  rewrite u32_id; pose proof (Z.div_mod g (2 ^ 16) ltac:(lia)); [lia|unfold in_u32; lia].
Qed.

Lemma parts_gid pid tid : 0 <= pid < 2 ^ 16 -> 0 <= tid < 2 ^ 16 ->
  0 <= getGid pid tid < 2 ^ 32 /\ getPid (getGid pid tid) = pid /\ getTid (getGid pid tid) = tid.
Proof.
  intros Hp Ht. unfold getGid. rewrite lor_disjoint by done. rewrite u32_id by (unfold in_u32; lia). split; [lia|]. unfold getPid, getTid. split.
  - rewrite Z.shiftr_div_pow2 by lia. symmetry. apply (Z.div_unique _ _ _ tid); lia.
  - change 65535 with (Z.ones 16). rewrite Z.land_ones by lia. symmetry. apply (Z.mod_unique _ _ pid); lia.
Qed.

(** ** Out of a context *)

(** The thread after [leave]. *)
Definition left_thread t t' : Prop := th_gid t' = th_gid t /\
  if th_markedForSleep t then th_state t' = Th.SLEEPING else th_state t' = Th.OUT \/ th_state t' = Th.BLOCKED.

(** Where [leave] ends: another thread has the context, or nobody does and the
    barrier is left too. *)
Definition leave_posts A (Q : unit -> W -> Prop) b s p t : Prop :=
  (forall s' t', steady I s' -> nudged p A s s' -> sc_threads s' !! p = Some t' -> left_thread t t' -> keeps s s' ->
     Q tt (set_sched (Ok s') b)) /\
  (forall s' t', steady I s' -> nudged p A s s' -> sc_threads s' !! p = Some t' -> left_thread t t' -> loses (th_cid t) s s' ->
     wp (on_bar (Barrier.leave (H := sched_callee schedQuantum phaseLength) (th_cid t))) Q (set_sched (Ok s') b)).

Lemma leave_unmarked A (Q : unit -> W -> Prop) b s p t k : b_sched b = Ok (set_cores k s) -> steady I s -> sc_threads s !! p = Some t ->
  th_state t = Th.RUNNING -> plain t -> A (th_cid t) -> I (joined_set (runb s) (th_cid t) false) k ->
  leave_posts A Q b s p t ->
  wp (inTh <- on_sched (schedContext (th_cid t)) ;;
      match inTh with
      | Some i => on_sched (deschedule p (th_cid t) Th.BLOCKED ;; give_context i (th_cid t))
      | None => on_sched (upd_th p (th_set_state Th.OUT) ;; q_push_back OutQ p) ;;
                on_bar (Barrier.leave (H := sched_callee schedQuantum phaseLength) (th_cid t))
      end) Q b.
Proof.
  intros Hb [Hinv Hj] Hp Hr (P1 & P2 & P3) Ha Hk [HG HL]. set (c := th_cid t) in *.
  pose proof (cores_inv None ∅ s k Hinv) as Hinv1. set (s1 := set_cores k s) in *.
  destruct (hold_context None s p t) as (x & Hx & Hxp & Hxu & Hxf); [apply Hinv|done|by left|].
  pose proof (tl_cid _ _ _ (ti_local _ _ (si_thread _ _ _ Hinv) p t Hp)) as Hlt.
  pose proof (ti_owner _ _ (si_thread _ _ _ Hinv) p t Hp) as Hown. unfold owner_for in Hown. rewrite Hr in Hown.
  wp_step. eapply wp_on_sched; [done|]. apply (schedContext_ok I None ∅ s1 c); [done|done|..].
  - intros Hun. wp_step. eapply wp_on_sched; [done|]. wp_step. eapply wp_upd_th; [done|].
    eapply wp_push_back; [by apply lookup_insert_eq|done|].
    pose proof (to_out_inv ∅ s1 p t Hinv1 Hp Hr P1 P2 P3 Hun) as Hinv2. set (s2 := after_push _ _ _ _) in Hinv2.
    assert (sc_threads s2 = <[p := th_set_owner (Some OutQ) (th_set_state Th.OUT t)]> (sc_threads s)) as Em
      by (unfold s2; simpl; by rewrite insert_insert_eq).
    assert (loses c s s2) as Hlo by (eapply (loses_upd None s s2 p t); [apply Hinv|done|done|done|done]).
    apply (HL s2 (th_set_owner (Some OutQ) (th_set_state Th.OUT t))).
    + split; [done|]. eapply (cores_lose I None None c s); [apply Hinv|apply Hinv2|done|done].
    + by eapply nudged_self.
    + by rewrite Em, lookup_insert_eq.
    + split; [done|]. rewrite P1. by left.
    + done.
  - intros i ti Hi Hio Hiq Hif Him Hinv2. change (sc_threads s1) with (sc_threads s) in Hi. eapply wp_on_sched; [done|]. wp_step.
    assert (i <> p) as Hne by (intros ->; simplify_eq; congruence).
    assert (sc_threads (after_remove RunQ i ti s1) !! p = Some t) as Hp2 by (simpl; by rewrite lookup_insert_ne).
    eapply (wp_deschedule I p c t x Th.BLOCKED _); try done; [by left|set_solver|]. intros k3 Hk3.
    pose proof (deschedule_inv I _ (∅ ∪ {[i]}) (after_remove RunQ i ti s1) p c t x Th.BLOCKED k3 Hinv2 Hp2 Hr eq_refl Hx Hxp P1 P2 P3
      (or_introl (conj eq_refl eq_refl))) as Hinv3.
    assert ((∅ ∪ {[i]} : gset nat) = {[i]}) as E by set_solver. rewrite E in Hinv3.
    eapply (pass_ok I A s _ p t (th_set_state Th.BLOCKED t) i ti c); try done.
    + eexists. simpl. rewrite list_lookup_insert_eq; [done|]. by eapply lookup_lt_Some.
    + split; try done. unfold numCores. simpl. by rewrite length_insert.
    + intros s' A1 A2 A3 A4. apply (HG s' _ A1 A2 A3); [|done]. split; [done|]. rewrite P1. by right.
Qed.

(** The thread goes to sleep; its context is on its way. *)
Lemma fall_asleep_ok s p t k (Q : unit -> S -> Prop) : steady I s -> sc_threads s !! p = Some t -> th_state t = Th.RUNNING ->
  th_markedForSleep t = true -> th_handoffThread t = None -> I (joined_set (runb s) (th_cid t) false) k ->
  (forall s' t', sched_inv (Some (th_cid t)) ∅ s' -> floating s' (th_cid t) -> sc_threads s' = <[p := t']> (sc_threads s) ->
     th_gid t' = th_gid t -> th_state t' = Th.SLEEPING -> same_rest s s' -> sc_gidMap s' = sc_gidMap s ->
     I (joined_set (runb s) (th_cid t) false) (sc_cores s') -> Q tt s') ->
  wp (upd_th p (fun t => th_set_sleep false (th_wakeupPhase t) t) ;; deschedule p (th_cid t) Th.SLEEPING ;; sleep_insert p) Q (set_cores k s).
Proof.
  intros [Hinv Hj] Hp Hr Hm Hh Hk HQ. set (c := th_cid t) in *. pose proof (cores_inv None ∅ s k Hinv) as Hinv1. set (s1 := set_cores k s) in *.
  destruct (hold_context None s p t) as (x & Hx & Hxp & Hxu & Hxf); [apply Hinv|done|by left|].
  pose proof (ti_owner _ _ (si_thread _ _ _ Hinv) p t Hp) as Hown. unfold owner_for in Hown. rewrite Hr in Hown.
  wp_step. eapply wp_upd_th; [done|]. wp_step. set (t0 := th_set_sleep false (th_wakeupPhase t) t).
  eapply (wp_deschedule I p c t0 x Th.SLEEPING _); try done; [by apply lookup_insert_eq|by left|set_solver|]. intros k2 Hk2.
  set (s2 := after_deschedule _ _ _ _ _ _ _). set (t1 := th_set_state Th.SLEEPING t0).
  assert (sc_threads s2 = <[p := t1]> (sc_threads s1)) as Em by (unfold s2; simpl; by rewrite insert_insert_eq).
  assert (queue_inv s2) as Hq2 by (by apply (queue_upd s1 s2 p t t1 (si_queue _ _ _ Hinv1) Hp Em)).
  assert (sleep_sorted s2) as Hs2 by (apply (sorted_upd s1 s2 p t t1 (si_sorted _ _ _ Hinv1) (si_queue _ _ _ Hinv1) Hp Em); [done|by right]).
  eapply wp_mono; [apply (sleep_insert_ok I s2 p t1 Hq2 Hs2)|].
  { by rewrite Em, lookup_insert_eq. }
  { done. }
  intros [] s3 (l & -> & Hl & Hsl). apply (HQ _ (th_set_owner (Some SleepQ) t1)); try done.
  - by eapply (sleep_inv ∅ s1 p c t x k2 l).
  - eexists. simpl. rewrite list_lookup_insert_eq; [done|]. by eapply lookup_lt_Some.
  - simpl. by rewrite !insert_insert_eq.
  - split; try done. unfold numCores. simpl. by rewrite length_insert.
Qed.

Lemma leave_marked A (Q : unit -> W -> Prop) b s s1 p t t' : b_sched b = Ok s1 -> steady I s -> sc_threads s !! p = Some t ->
  th_state t = Th.RUNNING -> th_markedForSleep t = true -> A (th_cid t) ->
  sched_inv (Some (th_cid t)) ∅ s1 -> floating s1 (th_cid t) -> sc_threads s1 = <[p := t']> (sc_threads s) ->
  th_gid t' = th_gid t -> th_state t' = Th.SLEEPING -> same_rest s s1 -> sc_gidMap s1 = sc_gidMap s ->
  I (joined_set (runb s) (th_cid t) false) (sc_cores s1) ->
  leave_posts A Q b s p t ->
  wp (inTh <- on_sched (schedContext (th_cid t)) ;;
      match inTh with
      | Some i => on_sched (give_context i (th_cid t))
      | None => on_sched (free_push (th_cid t)) ;;
                on_bar (Barrier.leave (H := sched_callee schedQuantum phaseLength) (th_cid t))
      end) Q b.
Proof.
  intros Hb [Hinv Hj] Hp Hr Hm Ha Hinv1 Hfl Em Hg Hsl Hrest Hgm Hj1 [HG HL]. set (c := th_cid t) in *.
  pose proof (tl_cid _ _ _ (ti_local _ _ (si_thread _ _ _ Hinv) p t Hp)) as Hlt. rewrite <- (sr_cores _ _ Hrest) in Hlt.
  assert (sc_threads s1 !! p = Some t') as Hp1 by (by rewrite Em, lookup_insert_eq).
  assert (left_thread t t') as Hleft by (split; [done|by rewrite Hm]).
  wp_step. eapply wp_on_sched; [done|]. apply (schedContext_ok I (Some c) ∅ s1 c); [done|done|..].
  - intros Hun. wp_step. destruct (idle_context _ _ _ _ Hinv1 Hfl) as (x & Hx & Hxn & Hxi).
    pose proof (ci_cx _ _ (si_ctx _ _ _ Hinv1) c x Hx) as Hcx. unfold cx_ok in Hcx. rewrite Hxn in Hcx. destruct Hcx as [_ Hcx].
    eapply wp_on_sched; [done|]. eapply wp_free_push; [done| |].
    { apply not_true_iff_false. rewrite Hcx. tauto. }
    pose proof (free_push_inv ∅ s1 c x Hinv1 Hx Hxn Hun) as Hinv2. set (s2 := set_freeList _ _) in *.
    assert (loses c s s2) as Hlo by (eapply (loses_upd None s s2 p t t'); [apply Hinv|done|done|done|congruence]).
    apply (HL s2 t'); try done.
    + split; [done|]. eapply (cores_lose I None None c s); [apply Hinv|apply Hinv2|done|done].
    + eapply nudged_self; [done| |done]. destruct Hrest. split; try done. unfold numCores in *. simpl. by rewrite length_insert.
  - intros i ti Hi Hio Hiq Hif Him Hinv2. eapply wp_on_sched; [done|].
    assert (i <> p) as Hne by (intros ->; simplify_eq; congruence).
    rewrite Em, lookup_insert_ne in Hi by done.
    assert ((∅ ∪ {[i]} : gset nat) = {[i]}) as E by set_solver. rewrite E in Hinv2.
    eapply (pass_ok I A s _ p t t' i ti c); try done.
    + congruence.
    + simpl. rewrite Em. by rewrite insert_insert_ne.
    + destruct Hrest. by split.
    + intros s' A1 A2 A3 A4. by apply (HG s' _ A1 A2 A3).
Qed.

Lemma leave_sched A (Q : unit -> W -> Prop) b s p t : b_sched b = Ok s -> steady I s -> sc_threads s !! p = Some t ->
  th_state t = Th.RUNNING -> th_fakeLeave t = None -> th_handoffThread t = None -> A (th_cid t) -> leave_posts A Q b s p t ->
  wp (leave schedQuantum phaseLength (getPid (th_gid t)) (getTid (th_gid t)) (th_cid t)) Q b.
Proof.
  intros Hb Hst Hp Hr Hf Hh Ha HP. pose proof Hst as [Hinv Hj].
  destruct (hold_context None s p t) as (x & Hx & Hxp & Hxu & Hxf); [apply Hinv|done|by left|].
  unfold leave. wp_step. eapply wp_on_sched; [done|]. unfold curThread. wp_step. eapply wp_get_cx; [done|]. rewrite Hxp. wp_step.
  wp_step. eapply wp_on_sched; [done|]. eapply wp_get_th; [done|]. do 2 wp_step.
  { apply Z.eqb_eq. symmetry. apply gid_parts, (tl_gid _ _ _ (ti_local _ _ (si_thread _ _ _ Hinv) p t Hp)). }
  do 2 wp_step; [by apply is_state_true; rewrite Hr; set_solver|].
  wp_step. eapply wp_on_sched; [done|]. apply wp_in_cores.
  eapply wp_mono; [apply (law_leave (runb s)); [done|]; apply (runb_running None); [apply Hinv|by exists p, t]|].
  intros [] k Hk. destruct (th_markedForSleep t) eqn:Em.
  - wp_step. eapply wp_on_sched; [done|]. apply fall_asleep_ok; try done. intros s' t' B1 B2 B3 B4 B5 B6 B7 B8.
    eapply (leave_marked A Q _ s s' p t t'); try done.
  - eapply (leave_unmarked A Q _ s p t k); try done.
Qed.

(** ** Into a context *)

Abbreviation bjoin := (Barrier.join (H := sched_callee schedQuantum phaseLength)).

(** Where the ways into a context end: in the barrier or in the run queue. *)
Record enter_posts A (Q : Wait -> W -> Prop) b s p t : Prop := {
  ep_bar : forall s' t', steady I s' -> nudged p A s s' -> sc_threads s' !! p = Some t' -> th_gid t' = th_gid t ->
    th_state t' = Th.RUNNING -> plain t' -> gains (th_cid t') s s' -> ~ running s (th_cid t') ->
    wp (on_bar (bjoin (th_cid t')) ;; ret InBarrier) Q (set_sched (Ok s') b);
  ep_queue : forall s' t', steady I s' -> nudged p A s s' -> sc_threads s' !! p = Some t' -> th_gid t' = th_gid t ->
    th_state t' = Th.QUEUED -> keeps s s' -> Q ForContext (set_sched (Ok s') b)
}.

Lemma enter_before A Q b b1 s s1 p t t1 : enter_posts A Q b s p t -> nudged p A s s1 -> keeps s s1 -> th_gid t1 = th_gid t ->
  (forall s', set_sched (Ok s') b1 = set_sched (Ok s') b) -> enter_posts A Q b1 s1 p t1.
Proof.
  intros [E1 E2] Hn Hk Hg Hb. split; intros s' t'; rewrite Hb; intros A1 A2 A3 A4 A5.
  - intros A6 A7 A8. apply (E1 s' t'); try done; [by eapply nudged_trans|congruence|by eapply keeps_gains|]. by rewrite <- (Hk (th_cid t')).
  - intros A6. apply (E2 s' t'); try done; [by eapply nudged_trans|congruence|by eapply keeps_trans].
Qed.

Lemma wp_into (m : M S unit) c (k : M W Wait) (Q : Wait -> W -> Prop) b s : b_sched b = Ok s ->
  wp (m ;; in_cores (core_join c)) (fun _ s' => wp (on_bar (bjoin c) ;; k) Q (set_sched (Ok s') b)) s ->
  wp (on_sched m ;; bar_join schedQuantum phaseLength c ;; k) Q b.
Proof.
  intros Hs Hw. apply wp_bind. eapply wp_on_sched; [done|]. unfold wp, bind in Hw. unfold wp at 1.
  destruct (m s) as [[[] s1]|]; [|done]. apply wp_bind. unfold bar_join. apply wp_bind. eapply wp_on_sched; [done|]. unfold wp at 1.
  destruct (in_cores (core_join c) s1) as [[[] s2]|]; [|done].
  change (wp (on_bar (bjoin c)) (fun _ => wp k Q) (set_sched (Ok s2) b)). unfold wp.
  by destruct (on_bar (bjoin c) (set_sched (Ok s2) b)) as [[a b']|].
Qed.

(** A thread without a context asks for one: [ft] has it if it is already
    queued. *)
Lemma ask_ok A (Q : Wait -> W -> Prop) b s p t (pre : M S unit) : b_sched b = Ok s -> let ft : gset nat := if decide (th_state t = Th.QUEUED) then {[p]} else ∅ in
  sched_inv None ft s -> I (runb s) (sc_cores s) -> sc_threads s !! p = Some t ->
  th_state t = Th.STARTED \/ th_state t = Th.BLOCKED \/ th_state t = Th.QUEUED -> th_owner t = None ->
  (forall Q', Q' tt (set_heap (<[p := th_set_state Th.QUEUED t]> (sc_threads s)) s) -> wp pre Q' s) ->
  enter_posts A Q b s p t ->
  wp (ctx <- on_sched (schedThread p) ;;
      match ctx with
      | Some c => on_sched (schedule p c) ;; bar_join schedQuantum phaseLength c ;; ret InBarrier
      | None => on_sched (pre ;; q_push_back RunQ p ;; waitForContext p) ;; ret ForContext
      end) Q b.
Proof.
  intros Hb ft Hinv Hj Hp Hst Ho Hpre [E1 E2].
  assert (th_state t = Th.STARTED \/ th_state t = Th.BLOCKED \/ (th_state t = Th.QUEUED /\ p ∈ ft)) as Hst'.
  { destruct Hst as [E|[E|E]]; auto. right. right. split; [done|]. unfold ft. rewrite decide_True by done. set_solver. }
  assert (ft ∖ {[p]} = ∅) as Eft by (unfold ft; case_decide; set_solver).
  destruct (idle_thread _ _ _ (ti_local _ _ (si_thread _ _ _ Hinv) p t Hp)) as (I1 & I2 & I3).
  { destruct Hst as [E|[E|E]]; by rewrite E. }
  wp_step. eapply wp_on_sched; [done|]. eapply (schedThread_ok I ft s p t (runb s)); [done|done|done|..].
  - intros Hall. wp_step. eapply wp_on_sched; [done|]. wp_step. apply Hpre. wp_step.
    eapply wp_push_back; [by apply lookup_insert_eq|done|]. eapply wp_upd_th; [simpl; by apply lookup_insert_eq|]. wp_step.
    simpl. rewrite !insert_insert_eq.
    destruct (queued_ok I ft A s _ p t Hinv Hj Hp Hst' Ho Hall eq_refl) as (A1 & A2 & A3 & A4 & A5). rewrite Eft in A1.
    by eapply (E2 _ (queued t)).
  - intros c s1 Hlt Hm Hinv1 Hfl Htk Hj1. eapply wp_into; [done|].
    eapply (enter_ok I ft A s s1 p t c); try done. intros s' A1 A2 A3 A4 A5. rewrite Eft in A1.
    apply (E1 s' (on_core_of c t)); try done. apply Htk.
Qed.

(** ** [join] *)

Lemma unsleep_ok A s p t (Q : unit -> S -> Prop) : steady I s -> sc_threads s !! p = Some t -> th_state t = Th.SLEEPING ->
  (forall s', steady I s' -> nudged p A s s' -> sc_threads s' !! p = Some (th_set_state Th.BLOCKED (th_set_owner None t)) -> keeps s s' -> Q tt s') ->
  wp (q_remove SleepQ p ;; upd_th p (th_set_state Th.BLOCKED)) Q s.
Proof.
  intros [Hinv Hj] Hp Hst HQ. pose proof (ti_owner _ _ (si_thread _ _ _ Hinv) p t Hp) as Hown. unfold owner_for in Hown. rewrite Hst in Hown.
  wp_step. eapply wp_remove; [done|done|]. eapply wp_upd_th; [simpl; by apply lookup_insert_eq|]. simpl. rewrite insert_insert_eq.
  set (s' := set_heap _ _). set (t' := th_set_state Th.BLOCKED (th_set_owner None t)).
  assert (sched_inv None ∅ s') as Hinv' by (by eapply (unsleep_inv None ∅ s s' p t t')).
  assert (keeps s s') as Hk by (apply (keeps_upd s s' p t t'); try done; simpl; by rewrite Hst).
  apply HQ; try done.
  - split; [done|]. eapply (cores_keep I None None s); [apply Hinv|apply Hinv'|done|done].
  - by eapply nudged_self.
  - unfold s'. simpl. by rewrite lookup_insert_eq.
Qed.

(** A thread outside of the simulation joins. *)
Definition outside t : Prop := th_state t ∈ [Th.STARTED; Th.BLOCKED; Th.OUT; Th.SLEEPING].

Lemma join_awake A (Q : Wait -> W -> Prop) b s p t : b_sched b = Ok s -> steady I s -> sc_threads s !! p = Some t ->
  th_state t = Th.STARTED \/ th_state t = Th.BLOCKED \/ th_state t = Th.OUT -> enter_posts A Q b s p t ->
  wp (if is_state [Th.OUT] t then
        on_sched (upd_th p (th_set_state Th.RUNNING) ;; q_remove OutQ p) ;;
        bar_join schedQuantum phaseLength (th_cid t) ;;
        ret InBarrier
      else
        assert_ "scheduler.h:313" (is_state [Th.BLOCKED; Th.STARTED] t) ;;
        ctx <- on_sched (schedThread p) ;;
        match ctx with
        | Some c => on_sched (schedule p c) ;; bar_join schedQuantum phaseLength c ;; ret InBarrier
        | None =>
            on_sched (upd_th p (th_set_state Th.QUEUED) ;; q_push_back RunQ p ;; waitForContext p) ;;
            ret ForContext
        end) Q b.
Proof.
  intros Hb Hst Hp Hor HE. pose proof Hst as [Hinv Hj]. rewrite is_state_one. case_bool_decide as Eo.
  - eapply wp_into; [done|]. eapply (reenter_ok I A); try done. intros s' A1 A2 A3 A4 A5.
    apply (ep_bar _ _ _ _ _ _ HE s' (th_set_owner None (th_set_state Th.RUNNING t))); try done.
    destruct (idle_thread _ _ _ (ti_local _ _ (si_thread _ _ _ Hinv) p t Hp)) as (I1 & I2 & I3); [congruence|]. done.
  - assert (th_state t <> Th.QUEUED) as Hnq by (destruct Hor as [E|[E|E]]; by rewrite E).
    do 2 wp_step; [apply is_state_true; destruct Hor as [E|[E|E]]; rewrite E; [set_solver..|done]|].
    eapply (ask_ok A Q b s p t); try done.
    + by rewrite decide_False.
    + tauto.
    + pose proof (ti_owner _ _ (si_thread _ _ _ Hinv) p t Hp) as Hown. unfold owner_for in Hown.
      destruct Hor as [E|[E|E]]; rewrite E in Hown; done.
    + intros Q' HQ'. by eapply wp_upd_th.
Qed.

Lemma join_sched A (Q : Wait -> W -> Prop) b s p t : b_sched b = Ok s -> steady I s -> sc_threads s !! p = Some t -> outside t ->
  enter_posts A Q b s p t -> wp (join_rest schedQuantum phaseLength p) Q b.
Proof.
  intros Hb Hst Hp Hout HE. pose proof Hst as [Hinv Hj].
  destruct (idle_thread _ _ _ (ti_local _ _ (si_thread _ _ _ Hinv) p t Hp)) as (I1 & I2 & I3).
  { unfold outside in Hout. intros E. rewrite E in Hout. set_solver. }
  unfold join_rest. wp_step. eapply wp_on_sched; [done|]. eapply wp_get_th; [done|]. rewrite I2. simpl.
  do 2 wp_step; [by rewrite I1|]. rewrite (is_state_one Th.SLEEPING). wp_step. eapply wp_on_sched; [done|]. case_bool_decide as Es.
  - simpl. eapply (unsleep_ok A); try done. intros s1 A1 A2 A3 A4. wp_step. eapply wp_on_sched; [done|].
    eapply wp_get_th; [done|]. eapply (join_awake A Q _ s1 p); try done; [by right; left|]. by eapply enter_before.
  - simpl. apply wp_ret. wp_step. eapply wp_on_sched; [done|]. eapply wp_get_th; [done|].
    eapply (join_awake A Q _ s p); try done.
    + unfold outside in Hout. set_solver.
    + by eapply (enter_before A Q b _ s s p t t); [done|apply nudged_same; try done; by split|done|done|].
Qed.

(** ** [sync]'s handoff *)

Lemma drop_handoff ft s p t q : sched_inv None ft s -> sc_threads s !! p = Some t -> th_handoffThread t = Some q -> th_markedForSleep t = false ->
  sched_inv None (ft ∪ {[q]}) (set_heap (<[p := th_set_handoff None t]> (sc_threads s)) s).
Proof.
  intros Hinv Hp Hh Hm. pose proof (ti_local _ _ (si_thread _ _ _ Hinv) p t Hp) as Hl.
  eapply (local_inv I None ft _ s _ p t (th_set_handoff None t)); try done.
  - by left.
  - destruct Hl. split; try done. by intros [].
  - right. exists q. done.
Qed.

(** The target takes the context over; the barrier and the core are not told. *)
Lemma hand_over_ok A s p t q (Q : unit -> S -> Prop) : steady I s -> sc_threads s !! p = Some t -> th_state t = Th.RUNNING ->
  th_markedForSleep t = false -> th_fakeLeave t = None -> th_handoffThread t = Some q -> A (th_cid t) ->
  (forall s', sched_inv None {[p]} s' -> I (runb s') (sc_cores s') -> nudged p A s s' ->
     sc_threads s' !! p = Some (th_set_state Th.QUEUED (th_set_handoff None t)) -> keeps s s' -> Q tt s') ->
  wp (upd_th p (th_set_handoff None) ;; deschedule p (th_cid t) Th.QUEUED ;; schedule q (th_cid t) ;; wakeup q false) Q s.
Proof.
  intros [Hinv Hj] Hp Hr Hm Hf Hh Ha HQ. set (c := th_cid t) in *. pose proof (si_thread _ _ _ Hinv) as Ht.
  destruct (ti_target _ _ Ht p t q Hp Hh) as (_ & tq & Hq & Hqs & Hqo & Hqm).
  assert (th_futexWord tq = 1) as Hqf.
  { pose proof (ti_owner _ _ Ht q tq Hq) as Hown. unfold owner_for in Hown. rewrite Hqs in Hown.
    destruct Hown as [[? _]|[_ [?|[? _]]]]; [congruence|set_solver|done]. }
  assert (q <> p) as Hne by (intros ->; simplify_eq; congruence).
  destruct (hold_context None s p t) as (x & Hx & Hxp & Hxu & Hxf); [apply Hinv|done|by left|]. fold c in Hx.
  pose proof (drop_handoff ∅ s p t q Hinv Hp Hh Hm) as Hinv1. wp_step. eapply wp_upd_th; [done|]. set (t1 := th_set_handoff None t) in *.
  set (s1 := set_heap _ s) in *. wp_step. assert (sc_threads s1 !! p = Some t1) as Hp1 by (by apply lookup_insert_eq).
  eapply (wp_deschedule I p c t1 x Th.QUEUED (runb s)); try done; [by left|set_solver|]. intros k1 Hk1.
  assert (sched_inv (Some c) ((∅ ∪ {[q]}) ∪ {[p]}) (after_deschedule p c t1 x Th.QUEUED k1 s1)) as Hinv2
    by (apply (deschedule_inv I (∅ ∪ {[q]})); auto).
  set (s2 := after_deschedule _ _ _ _ _ _ _) in *. pose proof (lookup_lt_Some _ _ _ Hx) as Hlt.
  assert (sc_contexts s2 !! c = Some (mkCx IDLE None (cx_free x))) as Hx2 by (simpl; by rewrite list_lookup_insert_eq).
  assert (sc_threads s2 !! q = Some tq) as Hq2 by (simpl; by rewrite !lookup_insert_ne).
  wp_step. eapply (wp_schedule I q c tq _ (runb s)); try done; [rewrite Hqs; set_solver|]. intros k2 Hk2.
  eapply wp_wakeup; [simpl; by apply lookup_insert_eq|done|].
  pose proof (given_inv I _ s2 q tq _ c k2 Hinv2 Hq2 ltac:(set_solver) Hqs Hqo Hqm Hx2 eq_refl) as Hinv3.
  assert (((∅ ∪ {[q]}) ∪ {[p]} : gset nat) ∖ {[q]} = {[p]}) as Eft by set_solver. rewrite Eft in Hinv3.
  cbv zeta in Hinv3. set (s3 := set_heap _ _) in Hinv3. assert (sc_threads s3 = <[q := given c tq]> (<[p := th_set_state Th.QUEUED t1]> (sc_threads s))) as Em
    by (unfold s3; simpl; by rewrite insert_insert_eq).
  assert (passed p q c s s3) as Hps.
  { split; [done| | |].
    - exists t, (th_set_state Th.QUEUED t1). by rewrite Em, lookup_insert_ne, lookup_insert_eq.
    - exists tq. split_and!; try done. rewrite Em, lookup_insert_eq. do 2 f_equal. destruct tq. simpl in *. by subst.
    - intros v Hvp Hvq. by rewrite Em, !lookup_insert_ne. }
  assert (keeps s s3) as Hk by (by eapply passed_keeps).
  assert (Q tt s3) as HQ3.
  { apply HQ; try done.
    - eapply (cores_keep I None None s); [apply Hinv|apply Hinv3|done|done].
    - eapply passed_nudged; [done|done|done| |done]. split; try done. unfold numCores. simpl. by rewrite !length_insert.
    - by rewrite Em, lookup_insert_ne, lookup_insert_eq. }
  unfold s3 in HQ3. simpl. by rewrite insert_insert_eq.
Qed.

Lemma handoff_sched A (Q : Wait -> W -> Prop) b s p t : b_sched b = Ok s -> steady I s -> sc_threads s !! p = Some t -> th_state t = Th.RUNNING ->
  th_markedForSleep t = false -> th_fakeLeave t = None -> is_Some (th_handoffThread t) -> A (th_cid t) ->
  enter_posts A Q b s p t -> wp (handoff schedQuantum phaseLength p) Q b.
Proof.
  intros Hb Hst Hp Hr Hm Hf [q Hh] Ha HE. unfold handoff. wp_step. eapply wp_on_sched; [done|]. eapply wp_get_th; [done|]. rewrite Hh.
  wp_step. eapply wp_on_sched; [done|]. eapply (hand_over_ok A s p t q); try done. intros s1 A1 A2 A3 A4 A5.
  set (t1 := th_set_state Th.QUEUED (th_set_handoff None t)) in *.
  eapply (ask_ok A Q _ s1 p t1 (ret tt)); try done.
  - tauto.
  - pose proof (ti_owner _ _ (si_thread _ _ _ (proj1 Hst)) p t Hp) as Hown. unfold owner_for in Hown. by rewrite Hr in Hown.
  - intros Q' HQ'. apply wp_ret. replace (th_set_state Th.QUEUED t1) with t1 in HQ' by done. rewrite insert_id in HQ' by done. by destruct s1.
  - by eapply (enter_before A Q b _ s s1 p t t1).
Qed.
End Ways.
