(* ===== verification/SchedulerSmall.v ===== *)
(** * The operations that only touch the calling thread, and the ends of a thread's life *)

From stdpp Require Import base list gmap sets strings sorting.
From Stdlib Require Import ZArith Lia.
From S2P Require Import Prelude Barrier Scheduler SchedulerInv SchedulerMoves SchedulerOps SchedulerPhase SchedulerActs SchedulerWays.
Local Open Scope Z_scope.

Section Small.
Context {C G : Type} `{CoreOps C} `{RandInt G}.
Context (I : (nat -> bool) -> C -> Prop) {HI : CoreLaws I}.
Abbreviation S := (Sched C G).
Implicit Types (s : S) (t : ThreadInfo) (p c : nat) (A : nat -> Prop).

(** ** The calling thread alone *)

(** What [goto]-like steps need. *)
Definition moves A p t' s s' : Prop := steady I s' /\ nudged p A s s' /\ keeps s s' /\ sc_threads s' !! p = Some t'.

Lemma local_ok A s s' p t t' : steady I s -> sc_threads s !! p = Some t -> same_place t t' ->
  sc_threads s' = <[p := t']> (sc_threads s) -> same_ctx s s' -> same_rest s s' -> sc_gidMap s' = sc_gidMap s ->
  (forall q, sc_queues s' q = sc_queues s q) -> sc_cores s' = sc_cores s -> fakes_follow s s' p t t' ->
  th_local (numCores s) (ck_curPhase (sc_clock s)) t' -> th_state t = Th.RUNNING -> th_handoffThread t' = th_handoffThread t ->
  moves A p t' s s'.
Proof.
  intros [Hinv Hj] Hp Hsp Em Hc Hr Hg Hq Hk Hf Hl Hrun Hh.
  assert (sched_inv None ∅ s') as Hinv'.
  { eapply (local_inv I None ∅ ∅ s s' p t t'); try done; [|congruence|by left].
    pose proof (ti_owner _ _ (si_thread _ _ _ Hinv) p t Hp) as Ho. unfold owner_for in Ho. rewrite Hrun in Ho. congruence. }
  assert (keeps s s') as Hks by (apply (keeps_upd s s' p t t'); try done; [by rewrite (sp_state _ _ Hsp)|by rewrite (sp_cid _ _ Hsp)]).
  split_and!; [split; [done|]|by eapply nudged_self|done|by rewrite Em, lookup_insert_eq].
  rewrite Hk. eapply (cores_keep I None None s); [apply Hinv|apply Hinv'|done|done].
Qed.

Lemma finishFakeLeave_ok A s p t (Q : unit -> S -> Prop) : steady I s -> sc_threads s !! p = Some t -> is_Some (th_fakeLeave t) ->
  (forall s', moves A p (th_set_fake None t) s s' -> Q tt s') -> wp (finishFakeLeave p) Q s.
Proof.
  intros Hst Hp Hf HQ. pose proof (ti_local _ _ (si_thread _ _ _ (proj1 Hst)) p t Hp) as Hl. pose proof (tl_fake _ _ _ Hl Hf) as Hr.
  unfold finishFakeLeave. wp_step. eapply wp_get_th; [done|]. do 2 wp_step; [by apply bool_decide_eq_true|].
  do 2 wp_step; [rewrite is_state_one; by apply bool_decide_eq_true|]. do 2 wp_step. eapply wp_upd_th; [done|]. apply HQ.
  eapply (local_ok A s _ p t (th_set_fake None t)); try done.
  - right. left. done.
  - destruct Hl. split; try done. intros Hm. by destruct (tl_marked Hm) as (? & ? & _).
Qed.

Lemma gid_lookup s p t : sched_inv None ∅ s -> sc_threads s !! p = Some t -> sc_gidMap s !! th_gid t = Some p ->
  sc_gidMap s !! getGid (getPid (th_gid t)) (getTid (th_gid t)) = Some p.
Proof. intros Hinv Hp Hg. rewrite gid_parts; [done|]. apply (tl_gid _ _ _ (ti_local _ _ (si_thread _ _ _ Hinv) p t Hp)). Qed.

Lemma wp_lookup_gid e g p (Q : nat -> S -> Prop) s : sc_gidMap s !! g = Some p -> Q p s -> wp (lookup_gid e g) Q s.
Proof. intros Hg HQ. unfold lookup_gid. do 2 wp_step. rewrite Hg. by wp_step. Qed.

Lemma markForSleep_ok A s p t w (Q : unit -> S -> Prop) : steady I s -> sc_threads s !! p = Some t -> sc_gidMap s !! th_gid t = Some p ->
  th_state t = Th.RUNNING -> plain t -> ck_curPhase (sc_clock s) < w < 2 ^ 64 ->
  (forall s', moves A p (th_set_futex 1 (th_set_sleep true w t)) s s' -> Q tt s') ->
  wp (markForSleep (getPid (th_gid t)) (getTid (th_gid t)) w) Q s.
Proof.
  intros Hst Hp Hg Hr (P1 & P2 & P3) Hw HQ. pose proof (ti_local _ _ (si_thread _ _ _ (proj1 Hst)) p t Hp) as Hl.
  unfold markForSleep. wp_step. eapply wp_lookup_gid; [apply gid_lookup; [apply Hst|done|done]|]. wp_step. eapply wp_get_th; [done|].
  do 2 wp_step; [by rewrite P1|]. eapply wp_upd_th; [done|]. apply HQ.
  eapply (local_ok A s _ p t (th_set_futex 1 (th_set_sleep true w t))); try done.
  - by left.
  - by destruct Hl; split.
Qed.

Lemma syscallLeave_ok A s p t pc n a0 a1 (Q : bool -> S -> Prop) : steady I s -> sc_threads s !! p = Some t ->
  th_state t = Th.RUNNING -> th_fakeLeave t = None ->
  Q true s ->
  (forall s' fl, th_markedForSleep t = false -> moves A p (th_set_fake (Some fl) t) s s' -> Q false s') ->
  wp (syscallLeave (getPid (th_gid t)) (getTid (th_gid t)) (th_cid t) pc n a0 a1) Q s.
Proof.
  intros Hst Hp Hr Hf HT HF. pose proof (ti_local _ _ (si_thread _ _ _ (proj1 Hst)) p t Hp) as Hl.
  destruct (hold_context None s p t) as (x & Hx & Hxp & _ & _); [apply Hst|done|by left|]. destruct (tl_gid _ _ _ Hl) as [Hg Hpid].
  unfold syscallLeave, curThread. do 2 wp_step. eapply wp_get_cx; [done|]. rewrite Hxp. wp_step. wp_step. eapply wp_get_th; [done|].
  do 2 wp_step; [by apply Z.eqb_eq; rewrite gid_parts|]. do 2 wp_step; [by apply Nat.eqb_eq|].
  do 2 wp_step; [rewrite is_state_one; by apply bool_decide_eq_true|].
  pose proof (ti_blocking _ _ (si_thread _ _ _ (proj1 Hst))) as Hb.
  do 4 wp_step; [rewrite Hb; by apply Z.ltb_lt|].
  assert (0 <= getPid (th_gid t)) as Hpos by (apply Z.shiftr_nonneg; lia).
  destruct (lookup_lt_is_Some_2 (sc_blocking s) (Z.to_nat (getPid (th_gid t)))) as [bs Hbs]; [rewrite Hb; lia|].
  wp_step. eapply wp_lift; [by apply at_ok|]. destruct (bool_decide (pc ∈ bs)); [by wp_step|]. simpl.
  destruct (th_markedForSleep t) eqn:Em; [by wp_step|].
  do 2 wp_step; [by rewrite Hf; apply bool_decide_eq_true|]. wp_step. eapply wp_upd_th; [done|]. do 2 wp_step. wp_step.
  eapply HF; [done|]. eapply (local_ok A s _ p t); try done.
  - right. right. done.
  - destruct Hl. split; try done. simpl. congruence.
Qed.

Lemma notifySleepEnd_ok A s p t (Q : unit -> S -> Prop) : steady I s -> sc_threads s !! p = Some t -> sc_gidMap s !! th_gid t = Some p ->
  th_state t = Th.SLEEPING \/ th_state t = Th.BLOCKED ->
  (forall s' t', th_state t' = Th.BLOCKED -> th_gid t' = th_gid t -> moves A p t' s s' -> Q tt s') ->
  wp (notifySleepEnd (getPid (th_gid t)) (getTid (th_gid t))) Q s.
Proof.
  intros Hst Hp Hg Hor HQ. pose proof (ti_local _ _ (si_thread _ _ _ (proj1 Hst)) p t Hp) as Hl.
  destruct (idle_thread _ _ _ Hl) as (I1 & _ & _); [destruct Hor; congruence|].
  unfold notifySleepEnd. wp_step. eapply wp_lookup_gid; [apply gid_lookup; [apply Hst|done|done]|]. wp_step. eapply wp_get_th; [done|].
  do 2 wp_step; [by rewrite I1|]. do 2 wp_step; [apply is_state_true; destruct Hor as [-> | ->]; set_solver|].
  rewrite is_state_one. case_bool_decide as Eb.
  - wp_step. apply (HQ s t); try done. split_and!; try done. by apply nudged_same.
  - eapply (unsleep_ok I A); try done; [tauto|]. intros s' A1 A2 A3 A4. eapply HQ; [| |by split_and!]; done.
Qed.

(** ** The end of a thread *)

Definition forgotten p s : Prop := forall g, sc_gidMap s !! g <> Some p.

Lemma delete_inv s p t : sched_inv None ∅ s -> sc_threads s !! p = Some t -> th_state t = Th.STARTED \/ th_state t = Th.BLOCKED ->
  forgotten p s -> sched_inv None ∅ (set_heap (delete p (sc_threads s)) s).
Proof.
  intros [Hc Hq Hs Ht Hcs] Hp Hst Hg. set (s' := set_heap _ _). pose proof (ti_owner _ _ Ht p t Hp) as Hown.
  assert (th_owner t = None /\ ~ holding t /\ th_state t <> Th.QUEUED) as (Ho & Hnh & Hnq).
  { unfold owner_for in Hown. destruct Hst as [E|E]; rewrite E in Hown; (split_and!; [done| |congruence]); intros [?|?]; congruence. }
  destruct (idle_thread _ _ _ (ti_local _ _ Ht p t Hp)) as (I1 & I2 & I3); [destruct Hst; congruence|].
  assert (forall v tv, sc_threads s' !! v = Some tv -> v <> p /\ sc_threads s !! v = Some tv) as Hback
    by (intros v tv Hv; simpl in Hv; apply lookup_delete_Some in Hv as [? ?]; done).
  assert (forall v tv, v <> p -> sc_threads s !! v = Some tv -> sc_threads s' !! v = Some tv) as Hforth
    by (intros v tv Hne Hv; simpl; by rewrite lookup_delete_ne).
  split.
  - destruct Hc as [K1 K2 K3 K4 K5 K6]. split; try done; [|by intros v tv [_ Hv]%Hback; eauto].
    intros c x Hx. specialize (K1 c x Hx). unfold cx_ok in *. destruct (cx_curThread x) as [v|]; [|done].
    destruct K1 as (A1 & A2 & tv & Hv & A3 & A4). split_and!; try done. exists tv. split_and!; try done. apply Hforth; [|done]. congruence.
  - destruct Hq as [K1 K2]. split; [done|]. intros q v. split.
    + intros (tv & Hv & Hov)%K2. exists tv. split; [|done]. apply Hforth; [|done]. congruence.
    + intros (tv & [_ Hv]%Hback & Hov). apply K2. by exists tv.
  - eapply sorted_ext; [done|done|]. intros v (tv & Hv & Hov)%(qi_in _ Hq). unfold wake_of. rewrite Hv, (Hforth v tv); [done| |done]. congruence.
  - destruct Ht as [K1 K2 K3 K4 K5 K6 K7 K8 K9]. split; try done.
    + intros v tv [_ Hv]%Hback. by eapply K1.
    + intros v tv [_ Hv]%Hback. by eapply K2.
    + intros v tv [_ Hv]%Hback. specialize (K3 v tv Hv). unfold owner_for in *. destruct (th_state tv); try done.
      destruct K3 as [?|[? [?|(? & w & tw & Hw & Hh)]]]; [by left|by right; split; [|left]|right]. split; [done|right]. split; [done|].
      exists w, tw. split; [|done]. apply Hforth; [|done]. congruence.
    + intros v tv q [_ Hv]%Hback Hh. destruct (K4 v tv q Hv Hh) as (A1 & tq & Htq & A2 & A3). split; [done|]. exists tq.
      split; [|done]. apply Hforth; [|done]. congruence.
    + intros v tv v' tv' q [_ Hv]%Hback [_ Hv']%Hback. by apply (K5 v tv v' tv' q).
    + intros g v Hgv. destruct (K6 g v Hgv) as (tv & Hv & Etv). exists tv. split; [|done]. apply Hforth; [|done]. intros ->. by apply (Hg g).
    + destruct K7 as [K7 K7']. split; [done|]. intros v. split.
      * intros (tv & Hv & Hf)%K7'. exists tv. split; [|done]. apply Hforth; [|done]. intros ->. simplify_eq. rewrite I2 in Hf. by destruct Hf.
      * intros (tv & [_ Hv]%Hback & Hf). apply K7'. by exists tv.
  - intros v tv c Hv [_ Htv]%Hback Hm Hfx. destruct (Hcs v tv c Hv Htv Hm Hfx) as (w & tw & Hw & Hr & Hcw). exists w, tw.
    split; [|done]. apply Hforth; [|done]. intros ->. simplify_eq. destruct Hst; congruence.
Qed.

(** What the end of a thread needs and gives. *)
Definition ended p A s s' : Prop := steady I s' /\ sc_threads s' !! p = None /\ sc_gidMap s' = sc_gidMap s /\ keeps s s' /\
  forall v, v <> p -> option_Forall2 (nudge A) (sc_threads s !! v) (sc_threads s' !! v).

Lemma delete_ok A s s1 p t : steady I s1 -> sc_threads s1 !! p = Some t -> th_state t = Th.STARTED \/ th_state t = Th.BLOCKED ->
  forgotten p s1 -> nudged p A s s1 -> keeps s s1 -> ended p A s (set_heap (delete p (sc_threads s1)) s1).
Proof.
  intros [Hinv Hj] Hp Hst Hg Hn Hk. pose proof (delete_inv s1 p t Hinv Hp Hst Hg) as Hinv'. set (s' := set_heap _ _) in *.
  assert (keeps s1 s') as Hk'.
  { intros c. unfold running. split; intros (v & tv & Hv & Hr & Hc); exists v, tv; (split; [|done]).
    - simpl in Hv. by apply lookup_delete_Some in Hv as [_ ?].
    - simpl. rewrite lookup_delete_ne; [done|]. intros ->. simplify_eq. destruct Hst; congruence. }
  split_and!; [split; [done|]| | |by eapply keeps_trans|].
  - eapply (cores_keep I None None s1); [apply Hinv|apply Hinv'|done|done].
  - simpl. apply lookup_delete_eq.
  - simpl. apply Hn.
  - intros v Hv. simpl. rewrite lookup_delete_ne by done. by apply Hn.
Qed.

Lemma finish_end_ok A s p t (Q : unit -> S -> Prop) : steady I s -> sc_threads s !! p = Some t -> forgotten p s ->
  th_state t = Th.STARTED \/ th_state t = Th.BLOCKED \/ th_state t = Th.OUT -> (forall s', ended p A s s' -> Q tt s') -> wp (finish_end p) Q s.
Proof.
  intros Hst Hp Hg Hor HQ. pose proof Hst as [Hinv Hj]. pose proof (ti_owner _ _ (si_thread _ _ _ Hinv) p t Hp) as Hown. unfold owner_for in Hown.
  unfold finish_end. wp_step. eapply wp_get_th; [done|]. do 2 wp_step.
  { apply is_state_true. destruct Hor as [-> |[-> | ->]]; set_solver. }
  rewrite is_state_one, bool_decide_eq_false_2 by (destruct Hor as [-> |[-> | ->]]; done). wp_step.
  destruct (decide (th_state t = Th.OUT)) as [Eo|Hno].
  - rewrite Eo in Hown. unfold owned_by at 1. rewrite Hown. simpl. do 2 wp_step; [by apply owned_true|].
    wp_step. eapply wp_remove; [done|done|]. wp_step.
    destruct (hold_context None s p t) as (x & Hx & Hxp & Hxu & Hxf); [apply Hinv|done|by right|].
    eapply (wp_deschedule I p (th_cid t) (th_set_owner None t) x Th.BLOCKED (runb s)); try done;
      [by simpl; rewrite lookup_insert_eq|by right|set_solver|]. intros k Hk.
    pose proof (out_release_inv ∅ s p t x k Hinv Hp Eo Hx Hxp) as Hinv1.
    change (set_queue _ _ _) with (after_remove OutQ p t s). set (s1 := after_deschedule _ _ _ _ _ _ _) in *.
    pose proof (lookup_lt_Some _ _ _ Hx) as Hlt.
    assert (sc_contexts s1 !! th_cid t = Some (mkCx IDLE None (cx_free x))) as Hx1 by (simpl; by rewrite list_lookup_insert_eq).
    assert (unwanted s1 (th_cid t)) as Hun.
    { intros v tv Hv Htv. pose proof (out_unwanted ∅ s p t Hinv Hp Eo) as Hun. apply (Hun v tv Hv).
      unfold s1 in Htv. simpl in Htv. rewrite insert_insert_eq in Htv. apply lookup_insert_Some in Htv as [[<- _]|[_ ?]]; [|done].
      apply (qi_in _ (si_queue _ _ _ Hinv)) in Hv as (? & ? & ?). congruence. }
    eapply wp_free_push; [done|done|]. pose proof (free_push_inv ∅ s1 (th_cid t) _ Hinv1 Hx1 eq_refl Hun) as Hinv2.
    set (s2 := set_freeList _ _) in *. wp_step.
    assert (sc_threads s2 = <[p := th_set_state Th.BLOCKED (th_set_owner None t)]> (sc_threads s)) as Em by (simpl; by rewrite insert_insert_eq).
    assert (keeps s s2) as Hk2 by (apply (keeps_upd s s2 p t _ Hp Em); simpl; by rewrite Eo).
    apply HQ. eapply (delete_ok A s s2 p _); [|by rewrite Em, lookup_insert_eq|by right|done| |done].
    + split; [done|]. eapply (cores_keep I None None s); [apply Hinv|apply Hinv2|done|done].
    + eapply nudged_self; [done| |done]. split; try done. unfold numCores. simpl. by rewrite !length_insert.
  - assert (th_owner t = None) as Ho by (destruct Hor as [E|[E|E]]; rewrite E in Hown; done).
    unfold owned_by. rewrite Ho. simpl. do 2 wp_step. apply HQ. eapply delete_ok; try done; [tauto|].
    by apply nudged_same.
Qed.

(** [finish], up to the first release of the lock. *)

(** The thread leaves [gidMap]. *)
Lemma unregister_inv s p t : steady I s -> sc_threads s !! p = Some t -> sc_gidMap s !! th_gid t = Some p ->
  let s' := set_gidMap (delete (th_gid t) (sc_gidMap s)) s in steady I s' /\ forgotten p s'.
Proof.
  intros [[Hc Hq Hs Ht Hcs] Hj] Hp Hg s'. split; [split|].
  - split; try done; [by apply (ctx_same None s)|by apply (queue_same s)|].
    destruct Ht as [K1 K2 K3 K4 K5 K6 K7 K8 K9]. split; try done. intros g v Hv. simpl in Hv. apply lookup_delete_Some in Hv as [_ Hv]. by apply K6.
  - done.
  - intros g Hv. simpl in Hv. apply lookup_delete_Some in Hv as [Hne Hv]. destruct (ti_gid _ _ Ht g p Hv) as (t' & Ht' & E). simplify_eq.
Qed.

Lemma nudged_from p A s s1 s' : sc_threads s1 = sc_threads s -> nudged p A s1 s' ->
  forall v, v <> p -> option_Forall2 (nudge A) (sc_threads s !! v) (sc_threads s' !! v).
Proof. intros E [Hn _ _] v Hv. rewrite <- E. by apply Hn. Qed.

Lemma finish_ok A s p t (Q : nat * Finish -> S -> Prop) : steady I s -> sc_threads s !! p = Some t -> sc_gidMap s !! th_gid t = Some p ->
  th_state t <> Th.QUEUED -> th_state t <> Th.SLEEPING -> let s1 := set_gidMap (delete (th_gid t) (sc_gidMap s)) s in
  (th_state t = Th.RUNNING -> th_fakeLeave t = None -> steady I s1 -> Q (p, LeaveEnd) s1) ->
  (forall s', is_Some (th_fakeLeave t) -> moves A p (th_set_fake None t) s1 s' -> Q (p, LeaveCheck) s') ->
  (forall s', th_state t <> Th.RUNNING -> ended p A s1 s' -> Q (p, Finished) s') ->
  wp (finish (getPid (th_gid t)) (getTid (th_gid t))) Q s.
Proof.
  intros Hst Hp Hg Hnq Hns s1 H1 H2 H3. destruct (unregister_inv s p t Hst Hp Hg) as [Hst1 Hf].
  pose proof (tl_gid _ _ _ (ti_local _ _ (si_thread _ _ _ (proj1 Hst)) p t Hp)) as [Hr _].
  unfold finish. rewrite gid_parts by done. wp_step. eapply wp_lookup_gid; [done|]. do 2 wp_step. fold s1. wp_step.
  eapply wp_get_th; [done|]. case_bool_decide as Efl.
  - wp_step. eapply (finishFakeLeave_ok A s1 p t); try done. intros s' Hm. wp_step. by apply H2.
  - wp_step. unfold finish_check. wp_step. eapply wp_get_th; [done|]. rewrite is_state_one. case_bool_decide as Er.
    + do 2 wp_step. apply H1; try done. by apply eq_None_not_Some.
    + wp_step. eapply (finish_end_ok A s1 p t); try done; [destruct (th_state t); tauto|]. intros s' He. do 2 wp_step. by apply H3.
Qed.

(** ** A new thread *)

Lemma start_inv s pid tid mask junk : sched_inv None ∅ s -> 0 <= pid < Z.of_nat MAX_THREADS -> 0 <= tid < 2 ^ 16 ->
  sc_gidMap s !! getGid pid tid = None -> length mask = numCores s ->
  let p := sc_fresh s in let t := ThreadInfo_new (getGid pid tid) mask junk in
  let s' := set_fresh (Datatypes.S p) (set_gidMap (<[getGid pid tid := p]> (sc_gidMap s)) (set_heap (<[p := t]> (sc_threads s)) s)) in
  sc_threads s !! p = None /\ sched_inv None ∅ s'.
Proof.
  intros [Hc Hq Hs Ht Hcs] Hpid Htid Hg Hm p t s'. unfold MAX_THREADS in Hpid.
  assert (sc_threads s !! p = None) as Hfr.
  { destruct (sc_threads s !! p) as [t0|] eqn:E; [|done]. pose proof (ti_fresh _ _ Ht p t0 E). unfold p in *. lia. }
  split; [done|]. destruct (parts_gid pid tid) as (G1 & G2 & _); [lia|done|].
  assert (forall v tv, sc_threads s !! v = Some tv -> v <> p /\ sc_threads s' !! v = Some tv) as Hforth.
  { intros v tv Hv. assert (v <> p) by congruence. split; [done|]. simpl. by rewrite lookup_insert_ne. }
  assert (forall v tv, sc_threads s' !! v = Some tv -> (v = p /\ tv = t) \/ sc_threads s !! v = Some tv) as Hback.
  { intros v tv Hv. simpl in Hv. apply lookup_insert_Some in Hv as [[<- <-]|[_ ?]]; auto. }
  split.
  - destruct Hc as [K1 K2 K3 K4 K5 K6]. split; try done.
    + intros c x Hx. specialize (K1 c x Hx). unfold cx_ok in *. destruct (cx_curThread x) as [v|]; [|done].
      destruct K1 as (A1 & A2 & tv & Hv & A3). split_and!; try done. exists tv. split; [|done]. by apply Hforth.
    + intros v tv [[-> ->]|Hv]%Hback Hh; [by destruct Hh|by eapply K2].
  - destruct Hq as [K1 K2]. split; [done|]. intros q v. split.
    + intros (tv & Hv & Ho)%K2. exists tv. split; [|done]. by apply Hforth.
    + intros (tv & [[-> ->]|Hv]%Hback & Ho); [done|]. apply K2. by exists tv.
  - eapply sorted_ext; [done|done|]. intros v (tv & Hv & _)%(qi_in _ Hq). unfold wake_of. by rewrite Hv, (proj2 (Hforth v tv Hv)).
  - destruct Ht as [K1 K2 K3 K4 K5 K6 K7 K8 K9]. pose proof (ci_size _ _ Hc) as Hsize. split; try done.
    + intros v tv [[-> ->]|Hv]%Hback; [|by eapply K1]. split; try done; [unfold numCores in *; simpl; lia|by intros [?|?]|by intros []|by intros []|].
      split; [done|]. simpl. rewrite G2. unfold MAX_THREADS. lia.
    + intros v tv [[-> ->]|Hv]%Hback; simpl; [lia|]. specialize (K2 v tv Hv). lia.
    + intros v tv [[-> ->]|Hv]%Hback; [done|]. specialize (K3 v tv Hv). unfold owner_for in *. destruct (th_state tv); try done.
      destruct K3 as [?|[? [?|(? & w & tw & Hw & Hh)]]]; [by left|by right; split; [|left]|right]. split; [done|right]. split; [done|].
      exists w, tw. split; [|done]. by apply Hforth.
    + intros v tv q [[-> ->]|Hv]%Hback Hh; [done|]. destruct (K4 v tv q Hv Hh) as (A1 & tq & Htq & A2). split; [done|]. exists tq.
      split; [|done]. by apply Hforth.
    + intros v tv v' tv' q [[-> ->]|Hv]%Hback [[-> ->]|Hv']%Hback; try done. by apply (K5 v tv v' tv' q).
    + intros g v Hgv. simpl in Hgv. apply lookup_insert_Some in Hgv as [[<- <-]|[_ Hgv]].
      * exists t. simpl. by rewrite lookup_insert_eq.
      * destruct (K6 g v Hgv) as (tv & Hv & Etv). exists tv. split; [|done]. by apply Hforth.
    + destruct K7 as [K7 K7']. split; [done|]. intros v. split.
      * intros (tv & Hv & Hf)%K7'. exists tv. split; [|done]. by apply Hforth.
      * intros (tv & [[-> ->]|Hv]%Hback & Hf); [by destruct Hf|]. apply K7'. by exists tv.
  - intros v tv c Hv [[-> ->]|Htv]%Hback Hmk Hfx.
    + apply (qi_in _ Hq) in Hv as (? & ? & _). congruence.
    + destruct (Hcs v tv c Hv Htv Hmk Hfx) as (w & tw & Hw & Hr). exists w, tw. split; [|done]. by apply Hforth.
Qed.
End Small.
