(* ===== verification/SchedulerSys.v ===== *)
(** * Threads, scheduler and barrier together

    The host's threads call the scheduler; between two sections of code that
    run under [schedLock] any other thread may run.  A step of the system is
    one such section, or a step of a thread inside of the barrier.

    A thread runs [start], then rounds of [join], phases that end with [sync],
    and [syscallLeave] or [leave]; it may mark itself for sleep before a system
    call, and in the end calls [finish].  The watchdog drives time forward when
    every scheduled thread is out.  Two operations are left to the theorems
    about errors: the futex matching of [join], and the watchdog's breaking of
    fake leaves. *)

From stdpp Require Import base list gmap strings.
From Stdlib Require Import ZArith Lia.
From S2P Require Import Prelude Barrier Scheduler.
Local Open Scope Z_scope.

(** Where a thread of the host is. *)
Inductive Hpc :=
| HNone                  (* not started, or finished *)
| HOut                   (* outside of the simulation *)
| HSlept                 (* in a system call that sleeps *)
| HJoin (back : bool)    (* in [bar.join]; [back]: called from [sync] *)
| HWait (back : bool)    (* in [waitForContext] *)
| HRun                   (* simulated *)
| HMarked                (* simulated, marked for sleep *)
| HMust                  (* [syscallLeave] asked for [leave] *)
| HFake                  (* in a fake leave *)
| HSync                  (* in [bar.sync] *)
| HHandoff               (* about to hand its context off *)
| HFinLeave (chk : bool) (* in [finish], before [leave]; [chk]: before the check of the state *)
| HFinCheck              (* in [finish], before the check of the state *)
| HFinEnd.               (* in [finish], before its last section *)

#[export] Instance Hpc_eq_dec : EqDecision Hpc.
Proof. solve_decision. Defined.

(** The steps; [p] is a thread, [c] a context. *)
Inductive Act :=
| AStart (pid tid : Z) (mask : list bool) (junk : bool)
| AJoin (p : nat)
| AGo (c : nat)          (* after the lock's release in the barrier: no wait *)
| ASleep (c : nat)       (* ... wait *)
| AWake (c : nat)        (* the wait in the barrier is over *)
| AJoined (p : nat)      (* [bar.join] returns *)
| AWoken (p : nat)       (* the wait for a context is over *)
| ASync (p : nat)
| ASynced (p : nat)      (* [bar.sync] returns *)
| AHandoff (p : nat)
| AMark (p : nat) (wakeupPhase : Z)
| ASyscall (p : nat) (pc syscallNumber arg0 arg1 : Z)
| ALeave (p : nat)
| ASleepEnd (p : nat)
| AFinish (p : nat)
| AFinLeave (p : nat)
| AFinCheck (p : nat)
| AFinEnd (p : nat)
| ADrive (n : nat).      (* the watchdog *)

Section Sys.
Context {C G : Type} `{CoreOps C} `{RandInt G}.
Context (schedQuantum phaseLength : Z).
Abbreviation S := (Sched C G).
Abbreviation W := (W (C := C) (G := G)).

Record Sys := mkSys { sy_bar : W; sy_bpc : nat -> Pc; sy_hpc : nat -> Hpc }.

Definition host (hpc : nat -> Hpc) (p : nat) (h : Hpc) : nat -> Hpc := fun q => if decide (q = p) then h else hpc q.

Definition thread_in (b : W) (p : nat) : option ThreadInfo := match b_sched b with Ok s => sc_threads s !! p | Err _ => None end.
Definition thread_of (x : Sys) (p : nat) : option ThreadInfo := thread_in (sy_bar x) p.
Definition cid_in (b : W) (p : nat) : nat := match thread_in b p with Some t => th_cid t | None => 0%nat end.
Definition run_in (b : W) (c : nat) : bool :=
  match b_sched b with
  | Ok s => match sc_contexts s !! c ≫= cx_curThread with
            | Some p => match sc_threads s !! p with Some t => bool_decide (th_state t = Th.RUNNING) | None => false end
            | None => false
            end
  | Err _ => false
  end.

Definition run {A} (m : M W A) (x : Sys) (k : A -> W -> Sys) : res Sys :=
  match m (sy_bar x) with Ok (a, b') => Ok (k a b') | Err e => Err e end.
Definition on_thread (p : nat) (x : Sys) (f : ThreadInfo -> res Sys) : res Sys :=
  match thread_of x p with Some t => f t | None => Err NullDeref end.

(** The thread goes to [h]. *)
Definition goto (p : nat) (h : Hpc) (x : Sys) (b : W) : Sys := mkSys b (sy_bpc x) (host (sy_hpc x) p h).

(** After one of the ways into a context. *)
Definition entered (p : nat) (back : bool) (x : Sys) (w : Wait) (b : W) : Sys :=
  match w with
  | Proceed => goto p HRun x b
  | InBarrier => mkSys b (at_pc (sy_bpc x) (cid_in b p) Checking) (host (sy_hpc x) p (HJoin back))
  | ForContext => goto p (HWait back) x b
  end.

(** After [leave]: the barrier has been left unless another thread runs on the
    context. *)
Definition departed (p c : nat) (h : Hpc) (x : Sys) (b : W) : Sys :=
  mkSys b (if run_in b c then sy_bpc x else at_pc (sy_bpc x) c Out) (host (sy_hpc x) p h).

(** The end of [join], or of [sync]. *)
Definition arrive (p : nat) (back : bool) (x : Sys) : res Sys :=
  if back then run (on_sched (sync_end p)) x (fun _ => goto p HRun x) else Ok (goto p HRun x (sy_bar x)).

Definition exec (a : Act) (x : Sys) : res Sys :=
  match a with
  | AStart pid tid mask junk => run (on_sched (start pid tid mask junk)) x (fun p => goto p HOut x)
  | AJoin p => on_thread p x (fun t =>
      run (join schedQuantum phaseLength (getPid (th_gid t)) (getTid (th_gid t))) x (fun r b =>
        match r with Some w => entered p false x w b | None => mkSys b (sy_bpc x) (sy_hpc x) end))
  | AGo c => Ok (mkSys (sy_bar x) (at_pc (sy_bpc x) c Active) (sy_hpc x))
  | ASleep c => Ok (mkSys (sy_bar x) (at_pc (sy_bpc x) c Sleeping) (sy_hpc x))
  | AWake c => run (after_wait c) x (fun _ b => mkSys b (at_pc (sy_bpc x) c Active) (sy_hpc x))
  | AJoined p => match sy_hpc x p with HJoin back => arrive p back x | _ => Ok x end
  | AWoken p =>
      match sy_hpc x p with
      | HWait back =>
          match waitForContext_end schedQuantum phaseLength p (sy_bar x) with
          | Ok (Proceed, b) => arrive p back (mkSys b (sy_bpc x) (sy_hpc x))
          | Ok (w, b) => Ok (entered p back x w b)
          | Err e => Err e
          end
      | _ => Ok x
      end
  | ASync p => on_thread p x (fun t =>
      run (sync schedQuantum phaseLength (th_cid t)) x (fun _ b =>
        mkSys b (at_pc (sy_bpc x) (th_cid t) Checking) (host (sy_hpc x) p HSync)))
  | ASynced p =>
      match b_sched (sy_bar x) with
      | Ok s => if must_handoff p s then Ok (goto p HHandoff x (sy_bar x)) else arrive p true x
      | Err e => Err e
      end
  | AHandoff p => run (handoff schedQuantum phaseLength p) x (entered p true x)
  | AMark p w => on_thread p x (fun t =>
      run (on_sched (markForSleep (getPid (th_gid t)) (getTid (th_gid t)) w)) x (fun _ => goto p HMarked x))
  | ASyscall p pc n a0 a1 => on_thread p x (fun t =>
      run (on_sched (syscallLeave (getPid (th_gid t)) (getTid (th_gid t)) (th_cid t) pc n a0 a1)) x
        (fun r => goto p (if r : bool then HMust else HFake) x))
  | ALeave p => on_thread p x (fun t =>
      run (leave schedQuantum phaseLength (getPid (th_gid t)) (getTid (th_gid t)) (th_cid t)) x
        (fun _ => departed p (th_cid t) (if th_markedForSleep t then HSlept else HOut) x))
  | ASleepEnd p => on_thread p x (fun t =>
      run (on_sched (notifySleepEnd (getPid (th_gid t)) (getTid (th_gid t)))) x (fun _ => goto p HOut x))
  | AFinish p => on_thread p x (fun t =>
      run (on_sched (finish (getPid (th_gid t)) (getTid (th_gid t)))) x (fun r =>
        goto p (match r.2 with LeaveCheck => HFinLeave true | LeaveEnd => HFinLeave false | Finished => HNone end) x))
  | AFinLeave p => on_thread p x (fun t =>
      run (leave schedQuantum phaseLength (getPid (th_gid t)) (getTid (th_gid t)) (th_cid t)) x
        (fun _ => departed p (th_cid t) (match sy_hpc x p with HFinLeave true => HFinCheck | _ => HFinEnd end) x))
  | AFinCheck p =>
      run (on_sched (finish_check p)) x (fun r => goto p (match r with Finished => HNone | _ => HFinLeave false end) x)
  | AFinEnd p => run (on_sched (finish_end p)) x (fun _ => goto p HNone x)
  | ADrive n => run (on_sched (drive schedQuantum phaseLength n)) x (fun _ b => mkSys b (sy_bpc x) (sy_hpc x))
  end.

(** When a step is possible: where its thread is, and what its arguments are. *)
Definition allowed (a : Act) (x : Sys) : Prop :=
  match a with
  | AStart pid tid mask junk => 0 <= pid < Z.of_nat MAX_THREADS /\ 0 <= tid < 2 ^ 16 /\
      exists s, b_sched (sy_bar x) = Ok s /\ sc_gidMap s !! getGid pid tid = None /\ length mask = numCores s /\ true ∈ mask
  | AJoin p => sy_hpc x p = HOut \/ sy_hpc x p = HSlept \/ sy_hpc x p = HFake
  | AGo c => sy_bpc x c = Checking /\ must_wait c (sy_bar x) = false
  | ASleep c => sy_bpc x c = Checking /\ must_wait c (sy_bar x) = true
  | AWake c => sy_bpc x c = Sleeping /\ woken c (sy_bar x) = true
  | AJoined p => (exists back, sy_hpc x p = HJoin back) /\ sy_bpc x (cid_in (sy_bar x) p) = Active
  | AWoken p => (exists back, sy_hpc x p = HWait back) /\ exists t, thread_of x p = Some t /\ th_futexWord t <> 1
  | ASync p => sy_hpc x p = HRun
  | ASynced p => sy_hpc x p = HSync /\ sy_bpc x (cid_in (sy_bar x) p) = Active
  | AHandoff p => sy_hpc x p = HHandoff
  | AMark p w => sy_hpc x p = HRun /\ exists s, b_sched (sy_bar x) = Ok s /\ ck_curPhase (sc_clock s) < w < 2 ^ 64
  | ASyscall p _ _ _ _ => sy_hpc x p = HRun \/ sy_hpc x p = HMarked
  | ALeave p => sy_hpc x p = HRun \/ sy_hpc x p = HMust
  | ASleepEnd p => sy_hpc x p = HSlept
  | AFinish p => sy_hpc x p = HOut \/ sy_hpc x p = HRun \/ sy_hpc x p = HFake
  | AFinLeave p => exists chk, sy_hpc x p = HFinLeave chk
  | AFinCheck p => sy_hpc x p = HFinCheck
  | AFinEnd p => sy_hpc x p = HFinEnd
  | ADrive _ => True
  end.

(** The simulator at its start: [n] cores in a state that [J] allows. *)
Definition initial (J : C -> Prop) (x : Sys) : Prop :=
  exists par lastIdxs rnd n srnd cores,
    0 < par < 2 ^ 32 /\ length lastIdxs = MAX_THREADS /\ (0 < n <= MAX_THREADS)%nat /\ J cores /\
    x = mkSys (Barrier_new par lastIdxs rnd (Ok (Scheduler_new n srnd cores))) (fun _ => Out) (fun _ => HNone).

Inductive reachable (J : C -> Prop) : Sys -> Prop :=
| reach_init x : initial J x -> reachable J x
| reach_step a x x' : reachable J x -> allowed a x -> exec a x = Ok x' -> reachable J x'.
End Sys.
