(* ===== verification/SchedulerLink.v ===== *)
(** * How the places of the threads, the scheduler and the barrier fit together *)

From stdpp Require Import base list gmap sets strings sorting.
From Stdlib Require Import ZArith Lia.
From S2P Require Import Prelude Barrier BarrierInv BarrierOps BarrierSteps BarrierSpec Scheduler SchedulerInv SchedulerMoves SchedulerOps SchedulerPhase SchedulerActs SchedulerWays SchedulerSys.
Local Open Scope Z_scope.

Section Link.
Context {C G : Type} `{CoreOps C} `{RandInt G}.
Context (I : (nat -> bool) -> C -> Prop) {HI : CoreLaws I}.
Context (schedQuantum phaseLength : Z).
Abbreviation S := (Sched C G).
Abbreviation W := (W (C := C) (G := G)).
Abbreviation Sys := (Sys (C := C) (G := G)).
Implicit Types (s : S) (t : ThreadInfo) (p c v : nat) (b : W) (bpc : nat -> Pc) (hpc : nat -> Hpc) (h : Hpc) (x : Sys).

(** ** The invariant of the system *)

(** The thread runs, and its context is not waiting in the barrier. *)
Definition on_cpu bpc t : Prop := th_state t = Th.RUNNING /\ bpc (th_cid t) = Active.

Definition host_ok bpc (o : option ThreadInfo) h : Prop :=
  match o with
  | None => h = HNone
  | Some t =>
      match h with
      | HNone => False
      | HOut | HFinCheck | HFinEnd => th_state t = Th.STARTED \/ th_state t = Th.BLOCKED \/ th_state t = Th.OUT
      | HSlept => th_state t = Th.SLEEPING \/ th_state t = Th.BLOCKED
      | HJoin _ => th_state t = Th.RUNNING /\ plain t
      | HWait _ => th_state t = Th.QUEUED \/ (on_cpu bpc t /\ th_futexWord t = 0 /\ th_needsJoin t = false /\ plain t)
      | HRun | HFinLeave _ => on_cpu bpc t /\ plain t
      | HMarked => on_cpu bpc t /\ th_markedForSleep t = true /\ th_fakeLeave t = None /\ th_handoffThread t = None
      | HMust => on_cpu bpc t /\ th_fakeLeave t = None /\ th_handoffThread t = None
      | HFake => on_cpu bpc t /\ th_markedForSleep t = false /\ is_Some (th_fakeLeave t) /\ th_handoffThread t = None
      | HSync => th_state t = Th.RUNNING /\ th_markedForSleep t = false /\ th_fakeLeave t = None
      | HHandoff => on_cpu bpc t /\ th_markedForSleep t = false /\ th_fakeLeave t = None /\ is_Some (th_handoffThread t)
      end
  end.

(** [gidMap] has the thread. *)
Definition registered h : Prop := match h with HNone | HFinLeave _ | HFinCheck | HFinEnd => False | _ => True end.

Record linked bpc hpc s : Prop := {
  lk_steady : steady I s;
  lk_bpc : forall c, bpc c <> Out <-> running s c;
  lk_host : forall p, host_ok bpc (sc_threads s !! p) (hpc p);
  lk_gid : forall p t, sc_threads s !! p = Some t -> (sc_gidMap s !! th_gid t = Some p <-> registered (hpc p))
}.

(** A context that has just joined, or that is to be handed off, has its turn
    in this phase. *)
Definition due hpc p t : Prop := (exists back, hpc p = HJoin back) \/ is_Some (th_handoffThread t).
Definition turns b hpc s : Prop := forall p t, sc_threads s !! p = Some t -> th_state t = Th.RUNNING -> due hpc p t ->
  stt (b_threadList b) (th_cid t) = WAITING -> unseen b (th_cid t).

Record sys_ok x : Prop := {
  so_cfg : cfg_ok (sy_bar x, sy_bpc x);
  so_sched : exists s, b_sched (sy_bar x) = Ok s /\ linked (sy_bpc x) (sy_hpc x) s /\ turns (sy_bar x) (sy_hpc x) s
}.

Lemma cfg_sched r b bpc : cfg_ok (b, bpc) -> cfg_ok (set_sched r b, bpc).
Proof. intros [[A1 A2 A3 A4 A5 A6] B D]. by split; [split|..]. Qed.

(** ** Steps *)

Lemma host_at hpc p h : host hpc p h p = h.
Proof. unfold host. by rewrite decide_True. Qed.
Lemma host_other hpc p h v : v <> p -> host hpc p h v = hpc v.
Proof. intros Hn. unfold host. by rewrite decide_False. Qed.

(** Other threads stay where they are. *)
Lemma host_nudge bpc bpc' t t' h : nudge (fun c => bpc c = Active) t t' -> (th_state t' = Th.RUNNING -> bpc' (th_cid t') = bpc (th_cid t')) ->
  host_ok bpc (Some t) h -> host_ok bpc' (Some t') h.
Proof.
  intros Hn Hb Hh. destruct Hn as [->|Ho ->|Hq Hg Hr Ha Hf Hj Hp].
  - assert (on_cpu bpc t -> on_cpu bpc' t) as Hc by (intros [E1 E2]; split; [done|]; by rewrite Hb).
    destruct h; simpl in *; tauto.
  - assert (~ on_cpu bpc t) by (intros [E _]; congruence).
    destruct h; simpl in *; rewrite ?Ho in *; intuition congruence.
  - assert (~ on_cpu bpc t) by (intros [E _]; congruence). assert (on_cpu bpc' t') by (split; [done|]; by rewrite Hb).
    destruct h; simpl in *; rewrite ?Hq in *; intuition congruence.
Qed.

Lemma nudge_gid (A : nat -> Prop) t t' : nudge A t t' -> th_gid t' = th_gid t.
Proof. by intros [->|_ ->|_ E _ _ _ _ _]. Qed.

Lemma linked_step bpc bpc' hpc s s' p h' : linked bpc hpc s -> steady I s' ->
  (forall v, v <> p -> option_Forall2 (nudge (fun c => bpc c = Active)) (sc_threads s !! v) (sc_threads s' !! v)) ->
  (forall c, bpc' c <> Out <-> running s' c) ->
  (forall v t, v <> p -> sc_threads s' !! v = Some t -> th_state t = Th.RUNNING -> bpc' (th_cid t) = bpc (th_cid t)) ->
  host_ok bpc' (sc_threads s' !! p) h' ->
  (forall v t, v <> p -> sc_threads s' !! v = Some t -> (sc_gidMap s' !! th_gid t = Some v <-> sc_gidMap s !! th_gid t = Some v)) ->
  (forall t, sc_threads s' !! p = Some t -> (sc_gidMap s' !! th_gid t = Some p <-> registered h')) ->
  linked bpc' (host hpc p h') s'.
Proof.
  intros [L1 L2 L3 L4] Hst Hn Hb Hc Hp Hg Hgp. split; [done|done|..].
  - intros v. destruct (decide (v = p)) as [->|Hne]; [by rewrite host_at|]. rewrite host_other by done.
    specialize (L3 v). specialize (Hn v Hne). specialize (Hc v).
    destruct (sc_threads s !! v) as [t|], (sc_threads s' !! v) as [t'|]; inversion Hn as [? ? Hnd|]; subst; [|done].
    eapply host_nudge; [done| |done]. intros Hr. by apply Hc.
  - intros v t Hv. destruct (decide (v = p)) as [->|Hne]; [rewrite host_at; by apply Hgp|]. rewrite host_other by done.
    rewrite (Hg v t Hne Hv). specialize (Hn v Hne). rewrite Hv in Hn. inversion Hn as [t0 ? Hnd E|]; subst. symmetry in E.
    rewrite (nudge_gid _ _ _ Hnd). by apply L4.
Qed.

(** The barrier does not move. *)
Lemma linked_stay bpc hpc s s' p h' : linked bpc hpc s -> steady I s' -> nudged p (fun c => bpc c = Active) s s' -> keeps s s' ->
  host_ok bpc (sc_threads s' !! p) h' ->
  (forall t', sc_threads s' !! p = Some t' -> exists t, sc_threads s !! p = Some t /\ th_gid t' = th_gid t) ->
  (registered h' <-> registered (hpc p)) ->
  linked bpc (host hpc p h') s'.
Proof.
  intros HL Hst [Hn Hr Hg] Hk Hh Hp Hreg. pose proof HL as [L1 L2 L3 L4]. eapply (linked_step bpc bpc hpc s s' p h'); try done.
  - intros c. by rewrite (L2 c), (Hk c).
  - intros v t Hv Ht. by rewrite Hg.
  - intros t' Ht'. destruct (Hp t' Ht') as (t & Ht & ->). rewrite Hg, Hreg. by apply L4.
Qed.

(** The threads that are due are still to be looked at. *)
Lemma turns_step bpc b b' hpc s s' p h' : linked bpc hpc s -> turns b hpc s ->
  (forall v, v <> p -> option_Forall2 (nudge (fun c => bpc c = Active)) (sc_threads s !! v) (sc_threads s' !! v)) ->
  (forall v t, v <> p -> sc_threads s' !! v = Some t -> th_state t = Th.RUNNING -> stt (b_threadList b') (th_cid t) = WAITING ->
     stt (b_threadList b) (th_cid t) = WAITING /\ (unseen b (th_cid t) -> unseen b' (th_cid t))) ->
  (forall t, sc_threads s' !! p = Some t -> th_state t = Th.RUNNING -> due (host hpc p h') p t ->
     stt (b_threadList b') (th_cid t) = WAITING -> unseen b' (th_cid t)) ->
  turns b' (host hpc p h') s'.
Proof.
  intros HL HT Hn Hb Hp v t Hv Hr Hd Hw. destruct (decide (v = p)) as [->|Hne]; [by apply (Hp t)|].
  destruct (Hb v t Hne Hv Hr Hw) as [Hw0 Hu]. apply Hu. unfold due in Hd. rewrite host_other in Hd by done.
  specialize (Hn v Hne). rewrite Hv in Hn. inversion Hn as [t0 ? Hnd E|]; subst. symmetry in E.
  destruct Hnd as [->|_ ->|Hq _ _ _ _ _ (_ & _ & Hh)]; [by apply (HT v t0)|done|].
  exfalso. destruct Hd as [[back Hd]|Hd]; [|rewrite Hh in Hd; by destruct Hd].
  pose proof (lk_host _ _ _ HL v) as Hok. rewrite E, Hd in Hok. destruct Hok as [Hok _]. congruence.
Qed.

Lemma turns_stay bpc b hpc s s' p h' : linked bpc hpc s -> turns b hpc s -> nudged p (fun c => bpc c = Active) s s' ->
  (forall t, sc_threads s' !! p = Some t -> th_state t = Th.RUNNING -> ~ due (host hpc p h') p t) ->
  turns (set_sched (Ok s') b) (host hpc p h') s'.
Proof.
  intros HL HT [Hn _ _] Hp. eapply (turns_step bpc b _ hpc s s' p h'); try done. intros t Ht Hr Hd. by destruct (Hp t).
Qed.

Lemma stay_ok x s s' p h' : sys_ok x -> b_sched (sy_bar x) = Ok s -> linked (sy_bpc x) (sy_hpc x) s -> turns (sy_bar x) (sy_hpc x) s ->
  steady I s' -> nudged p (fun c => sy_bpc x c = Active) s s' -> keeps s s' ->
  host_ok (sy_bpc x) (sc_threads s' !! p) h' ->
  (forall t', sc_threads s' !! p = Some t' -> exists t, sc_threads s !! p = Some t /\ th_gid t' = th_gid t) ->
  (registered h' <-> registered (sy_hpc x p)) ->
  (forall t, sc_threads s' !! p = Some t -> th_state t = Th.RUNNING -> ~ due (host (sy_hpc x) p h') p t) ->
  sys_ok (goto p h' x (set_sched (Ok s') (sy_bar x))).
Proof.
  intros Hok Hs HL HT Hst Hn Hk Hh Hg Hr Hd. split; simpl; [apply cfg_sched, Hok|]. exists s'. split_and!; [done|by eapply linked_stay|].
  by eapply turns_stay.
Qed.

(** ** The barrier *)

Lemma wp_on_bar (m : M W unit) (Q : unit -> W -> Prop) b :
  wp m (fun _ b' => (exists s', b_sched b' = Ok s') /\ Q tt b') b -> wp (on_bar m) Q b.
Proof.
  intros Hm. unfold on_bar. apply wp_bind. eapply wp_mono; [exact Hm|]. intros [] b' ((s' & Es) & HQ). do 2 wp_step. rewrite Es. by wp_step.
Qed.

Lemma context_small s p t : steady I s -> sc_threads s !! p = Some t -> (th_cid t < MAX_THREADS)%nat.
Proof.
  intros [Hinv _] Hp. pose proof (tl_cid _ _ _ (ti_local _ _ (si_thread _ _ _ Hinv) p t Hp)).
  pose proof (ci_size _ _ (si_ctx _ _ _ Hinv)). lia.
Qed.

Lemma waits_before c st b b' u : op_post c st b b' -> stt (b_threadList b') u = WAITING -> u <> c -> stt (b_threadList b) u = WAITING.
Proof.
  intros O Hw Hne. pose proof (op_states _ _ _ _ O u) as Hb. unfold with_state, becomes in Hb. rewrite decide_False in Hb by done.
  intuition congruence.
Qed.

(** No other thread runs on the context of [p]. *)
Lemma other_context s p t v tv : steady I s -> sc_threads s !! p = Some t -> th_state t = Th.RUNNING -> v <> p ->
  sc_threads s !! v = Some tv -> th_state tv = Th.RUNNING -> th_cid tv <> th_cid t.
Proof.
  intros [Hinv _] Hp Hr Hne Hv Hrv E. apply Hne. eapply (hold_unique None s v tv p t); try done; [apply Hinv|by left|by left].
Qed.

Lemma enter_posts_ok x s p t back : sys_ok x -> b_sched (sy_bar x) = Ok s -> linked (sy_bpc x) (sy_hpc x) s -> turns (sy_bar x) (sy_hpc x) s ->
  sc_threads s !! p = Some t -> registered (sy_hpc x p) ->
  enter_posts I schedQuantum phaseLength (fun c => sy_bpc x c = Active) (fun w b' => sys_ok (entered p back x w b')) (sy_bar x) s p t.
Proof.
  intros Hok Hs HL HT Hp Hreg. destruct x as [b bpc hpc]. simpl in *. split.
  - intros s' t' Hst Hn Hp' Hg Hr Hpl Hgain Hnr. set (c := th_cid t') in *. wp_step. apply wp_on_bar.
    assert (bpc c = Out) as Hout by (destruct (decide (bpc c = Out)) as [|Hne]; [done|]; by apply (lk_bpc _ _ _ HL) in Hne).
    eapply wp_mono; [apply (join_runs (set_sched (Ok s') b, bpc) c); [apply cfg_sched, Hok|by eapply context_small|done]|].
    intros [] b' (O & [_ Eb] & Hu). simpl in Eb, O, Hu. split; [by exists s'|]. wp_step. simpl. unfold cid_in, thread_in. rewrite Eb, Hp'.
    fold c. split; simpl.
    + eapply op_cfg; [apply cfg_sched, Hok|done|by left].
    + exists s'. split_and!; [done|..].
      * eapply (linked_step bpc _ hpc s s' p); try done.
        -- apply Hn.
        -- intros c'. unfold at_pc. rewrite (Hgain c'), <- (lk_bpc _ _ _ HL c'). destruct (decide (c' = c)) as [->|]; [split; [tauto|done]|tauto].
        -- intros v tv Hne Hv Hrv. unfold at_pc. rewrite decide_False; [done|]. by eapply other_context.
        -- by rewrite Hp'.
        -- intros v tv _ _. by rewrite (ng_gid _ _ _ _ Hn).
        -- intros t2 Ht2. assert (t2 = t') as -> by congruence. rewrite (ng_gid _ _ _ _ Hn), Hg. simpl.
           split; [done|]. intros _. by apply (lk_gid _ _ _ HL).
      * eapply (turns_step bpc b b' hpc s s' p); try done.
        -- apply Hn.
        -- intros v tv Hne Hv Hrv Hw. split; [|by intros; apply Hu; [right|]].
           eapply waits_before in Hw; [|exact O|by eapply other_context]. done.
        -- intros t2 Ht2 _ _ Hw. assert (t2 = t') as -> by congruence. apply Hu; [by left|done].
  - intros s' t' Hst Hn Hp' Hg Hq Hk. apply (stay_ok (mkSys b bpc hpc) s s'); try done; simpl.
    + rewrite Hp'. by left.
    + intros t2 Ht2. exists t. split; congruence.
    + intros t2 Ht2 Hr. congruence.
Qed.

(** ** The end of a phase *)

(** All threads that run have synchronised. *)
Definition synced hpc s : Prop := forall p t, sc_threads s !! p = Some t -> th_state t = Th.RUNNING -> hpc p = HSync /\ th_handoffThread t = None.

Lemma phase_synced b b' bpc hpc s c q : cfg_ok (b, bpc) -> linked (at_pc bpc c q) hpc s -> turns b hpc s -> phase_ends (H := sched_callee schedQuantum phaseLength) c b b' ->
  (forall p t, sc_threads s !! p = Some t -> th_state t = Th.RUNNING -> th_cid t = c -> hpc p = HSync /\ th_handoffThread t = None) ->
  synced hpc s.
Proof.
  intros Hc HL HT (_ & _ & He) Hown p t Hp Hr. destruct (decide (th_cid t = c)) as [E|Hne]; [by apply (Hown p t)|].
  destruct (He _ Hne) as [Hnr Hun]. pose proof (cf_pc _ Hc (th_cid t)) as Hpc. simpl in Hpc.
  assert (bpc (th_cid t) <> Out) as Hbp.
  { assert (running s (th_cid t)) as Hrun by (by exists p, t). apply (lk_bpc _ _ _ HL) in Hrun. unfold at_pc in Hrun. by rewrite decide_False in Hrun. }
  assert (stt (b_threadList b) (th_cid t) = WAITING) as Hw by (destruct (bpc (th_cid t)); simpl in Hpc; tauto).
  assert (~ due hpc p t) as Hnd.
  { intros Hd. pose proof (HT p t Hp Hr Hd Hw) as Hu. by apply (Hun Hu). }
  assert (~ on_cpu (at_pc bpc c q) t) as Hcpu.
  { intros [_ Ha]. unfold at_pc in Ha. rewrite decide_False in Ha by done. rewrite Ha in Hpc. simpl in Hpc. congruence. }
  assert (th_handoffThread t = None) as Hh by (apply eq_None_not_Some; intros Hs; apply Hnd; by right).
  split; [|done]. pose proof (lk_host _ _ _ HL p) as Hho. rewrite Hp in Hho.
  destruct (hpc p) as [| | |back| | | | | | | | | |] eqn:E; simpl in Hho; rewrite ?Hr in Hho; try tauto; try (intuition congruence).
  destruct Hnd. left. by exists back.
Qed.

Lemma host_phase k bpc t t' h : phase_change k t t' -> (th_state t = Th.RUNNING -> h = HSync) -> host_ok bpc (Some t) h -> host_ok bpc (Some t') h.
Proof.
  intros [P1 P2 P3 P4 P5 P6 P7] Hs Hh. destruct (decide (th_state t = Th.RUNNING)) as [Hr|Hn].
  - rewrite (Hs Hr) in *. simpl in *. rewrite P4, P5. destruct P7 as [(-> & _)|(? & _)]; [tauto|congruence].
  - assert (~ on_cpu bpc t) by (intros [? _]; done).
    destruct P7 as [(E1 & E2 & E3 & E4)|(E1 & E2 & E3 & E4 & E5)];
      destruct h; simpl in *; rewrite ?E1, ?E2 in *; intuition congruence.
Qed.

Lemma phase_linked bpc hpc s s' : linked bpc hpc s -> synced hpc s -> callback_post I schedQuantum s s' -> linked bpc hpc s'.
Proof.
  intros [L1 L2 L3 L4] Hs [C1 C2 C3 C4 C5 C6 C7 C8 C9]. split.
  - by split.
  - intros c. rewrite (L2 c). by apply (changed_running (ck_curPhase (sc_clock s'))).
  - intros p. specialize (L3 p). specialize (C2 p). specialize (Hs p). destruct (sc_threads s !! p) as [t|], (sc_threads s' !! p) as [t'|];
      inversion C2 as [? ? Hpc|]; subst; [|done]. eapply host_phase; [done| |done]. intros Hr. by apply (Hs t).
  - intros p t' Hp. destruct (changed_back _ _ _ _ _ C2 Hp) as (t & Ht & Hpc). rewrite (pc_gid _ _ _ Hpc), C4. by apply L4.
Qed.

(** What [synced] gives the callback. *)
Lemma synced_quiet bpc hpc s : linked bpc hpc s -> synced hpc s -> unmarked s /\ forall c, ~ handing s c.
Proof.
  intros HL Hs. pose proof (lk_steady _ _ _ HL) as [Hinv _]. split.
  - intros p t Hp. destruct (th_markedForSleep t) eqn:E; [|done].
    destruct (tl_marked _ _ _ (ti_local _ _ (si_thread _ _ _ Hinv) p t Hp) E) as [Hr _]. destruct (Hs p t Hp Hr) as [Eh _].
    pose proof (lk_host _ _ _ HL p) as Hho. rewrite Hp, Eh in Hho. simpl in Hho. destruct Hho as (_ & ? & _). congruence.
  - intros c (v & tv & Hv & Hh & _). destruct (Hs v tv Hv) as [_ E]; [|rewrite E in Hh; by destruct Hh].
    by apply (tl_handoff _ _ _ (ti_local _ _ (si_thread _ _ _ Hinv) v tv Hv)).
Qed.

Context (Hquantum : 0 < schedQuantum < 2 ^ 32).

Lemma callback_runs bpc hpc s : linked bpc hpc s -> synced hpc s ->
  exists s', sched_callback schedQuantum phaseLength s = Ok (tt, s') /\ callback_post I schedQuantum s s' /\ linked bpc hpc s'.
Proof.
  intros HL Hs. destruct (synced_quiet _ _ _ HL Hs) as [Hm Hh]. pose proof (lk_steady _ _ _ HL) as [Hinv Hj].
  destruct (wp_ok _ _ _ (sched_callback_ok I schedQuantum phaseLength Hquantum s Hinv Hm Hh Hj)) as ([] & s' & E & Hpost).
  exists s'. split_and!; [done|done|by eapply phase_linked].
Qed.

(** After [bar.sync] or [bar.leave] on context [c]. *)
Lemma after_barrier b b' bpc hpc s c q st : cfg_ok (b, bpc) -> b_sched b = Ok s -> linked (at_pc bpc c q) hpc s -> turns b hpc s ->
  (forall p t, sc_threads s !! p = Some t -> th_state t = Th.RUNNING -> th_cid t = c -> hpc p = HSync /\ th_handoffThread t = None) ->
  op_post c st b b' -> pc_ok q st ->
  ((continues b b' /\ work b' < work b) \/ phase_ends (H := sched_callee schedQuantum phaseLength) c b b') ->
  looked (H := sched_callee schedQuantum phaseLength) c b b' ->
  (exists s', b_sched b' = Ok s') /\ sys_ok (mkSys b' (at_pc bpc c q) hpc).
Proof.
  intros Hc Hs HL HT Hown O Hpc Hcase [LK1 LK2]. assert (cfg_ok (b', at_pc bpc c q)) as Hc' by (by eapply op_cfg).
  destruct Hcase as [[Hcont _]|Hend].
  - pose proof Hcont as [_ Es]. rewrite Hs in Es. split; [by exists s|]. split; simpl; [done|]. exists s. split_and!; try done.
    intros p t Hp Hr Hd Hw. assert (th_cid t <> c) as Hne.
    { intros E. destruct (Hown p t Hp Hr E) as [E1 E2]. destruct Hd as [[back Hd]|Hd]; [congruence|]. rewrite E2 in Hd. by destruct Hd. }
    apply LK1; [done| |done]. split; [done|]. apply (HT p t); try done. by eapply waits_before.
  - assert (synced hpc s) as Hsy by (by apply (phase_synced b b' bpc hpc s c q)). destruct (callback_runs _ _ _ HL Hsy) as (s' & E & _ & HL').
    assert (b_sched b' = Ok s') as Es.
    { pose proof Hend as (_ & Es & _). rewrite Es, Hs. unfold callback, sched_callee. by rewrite E. }
    split; [by exists s'|]. split; simpl; [done|]. exists s'. split_and!; try done.
    intros p t _ _ _ Hw. by apply LK2.
Qed.

Lemma run_in_sched b s c : b_sched b = Ok s -> run_in b c = runb s c.
Proof. unfold run_in, runb. by intros ->. Qed.

(** The thread is where [leave] leaves it. *)
Definition leaves_to t h : Prop := forall bpc t', left_thread t t' -> host_ok bpc (Some t') h.

Lemma left_not_running t t' : left_thread t t' -> th_state t' <> Th.RUNNING.
Proof. intros [_ Hs]. destruct (th_markedForSleep t); [congruence|]. destruct Hs; congruence. Qed.

Lemma leave_posts_ok x s p t h' : sys_ok x -> b_sched (sy_bar x) = Ok s -> linked (sy_bpc x) (sy_hpc x) s -> turns (sy_bar x) (sy_hpc x) s ->
  sc_threads s !! p = Some t -> on_cpu (sy_bpc x) t -> leaves_to t h' -> (registered h' <-> registered (sy_hpc x p)) ->
  leave_posts I schedQuantum phaseLength (fun c => sy_bpc x c = Active) (fun _ b' => sys_ok (departed p (th_cid t) h' x b')) (sy_bar x) s p t.
Proof.
  intros Hok Hs HL HT Hp [Hr Ha] Hh Hreg. destruct x as [b bpc hpc]. simpl in *. set (c := th_cid t) in *. split.
  - intros s' t' Hst Hn Hp' Hlt Hk. unfold departed. rewrite (run_in_sched _ s'), (proj2 (runb_running None s' c (si_ctx _ _ _ (proj1 Hst)))) by
      (done || (apply Hk; by exists p, t)). simpl.
    apply (stay_ok (mkSys b bpc hpc) s s'); try done; simpl.
    + rewrite Hp'. by apply Hh.
    + intros t2 Ht2. exists t. split; [done|]. assert (t2 = t') as -> by congruence. apply Hlt.
    + intros t2 Ht2 Hr2. assert (t2 = t') as -> by congruence. by destruct (left_not_running t t').
  - intros s' t' Hst Hn Hp' Hlt Hlo. fold c in Hlo. pose proof (left_not_running _ _ Hlt) as Hnr.
    assert (linked (at_pc bpc c Out) (host hpc p h') s') as HL'.
    { eapply (linked_step bpc _ hpc s s' p); try done.
      - apply Hn.
      - intros c'. unfold at_pc. rewrite (Hlo c'), <- (lk_bpc _ _ _ HL c'). destruct (decide (c' = c)) as [->|]; [split; [done|tauto]|tauto].
      - intros v tv Hne Hv Hrv. unfold at_pc. rewrite decide_False; [done|]. intros E.
        assert (running s' c) as Hrun by (by exists v, tv). by apply Hlo in Hrun as [_ ?].
      - rewrite Hp'. by apply Hh.
      - intros v tv _ _. by rewrite (ng_gid _ _ _ _ Hn).
      - intros t2 Ht2. assert (t2 = t') as -> by congruence. rewrite (ng_gid _ _ _ _ Hn), (proj1 Hlt), Hreg. by apply (lk_gid _ _ _ HL). }
    apply wp_on_bar. eapply wp_mono; [apply (leave_runs (set_sched (Ok s') b, bpc) c); [apply cfg_sched, Hok|done]|].
    intros [] b' (O & Hcase & LK). simpl in O, Hcase, LK.
    destruct (after_barrier (set_sched (Ok s') b) b' bpc (host hpc p h') s' c Out LEFT) as [Hres Hsys]; try done.
    + apply cfg_sched, Hok.
    + eapply turns_stay; try done. intros t2 Ht2 Hr2. congruence.
    + intros v tv Hv Hrv E. assert (running s' c) as Hrun by (by exists v, tv). by apply Hlo in Hrun as [_ ?].
    + by right.
    + split; [done|]. unfold departed. destruct (so_sched _ Hsys) as (s2 & Es & HL2 & _). simpl in Es, HL2.
      rewrite (run_in_sched _ _ _ Es), (runb_false None); [done|apply (lk_steady _ _ _ HL2)|].
      rewrite <- (lk_bpc _ _ _ HL2). unfold at_pc. rewrite decide_True by done. tauto.
Qed.

Lemma sync_sys x s p t : sys_ok x -> b_sched (sy_bar x) = Ok s -> linked (sy_bpc x) (sy_hpc x) s -> turns (sy_bar x) (sy_hpc x) s ->
  sc_threads s !! p = Some t -> on_cpu (sy_bpc x) t -> plain t -> registered (sy_hpc x p) ->
  wp (sync schedQuantum phaseLength (th_cid t))
    (fun _ b' => sys_ok (mkSys b' (at_pc (sy_bpc x) (th_cid t) Checking) (host (sy_hpc x) p HSync))) (sy_bar x).
Proof.
  intros Hok Hs HL HT Hp [Hr Ha] Hpl Hreg. destruct x as [b bpc hpc]. simpl in *. pose proof (lk_steady _ _ _ HL) as Hst. pose proof Hst as [Hinv Hj].
  destruct (hold_context None s p t) as (cx & Hx & Hxp & _ & _); [apply Hinv|done|by left|]. destruct Hpl as (P1 & P2 & P3).
  unfold sync. wp_step. eapply wp_on_sched; [done|]. unfold curThread. wp_step. eapply wp_get_cx; [done|]. rewrite Hxp. wp_step.
  wp_step. eapply wp_on_sched; [done|]. eapply wp_get_th; [done|]. do 2 wp_step; [by rewrite P1|].
  replace (set_sched (Ok s) (set_sched (Ok s) b)) with b by (destruct b; simpl in *; by subst). wp_step. apply wp_on_bar.
  eapply wp_mono; [apply (sync_runs (b, bpc) (th_cid t)); [apply Hok|done]|]. intros [] b' (O & Hcase & LK). simpl in O, Hcase, LK.
  assert (nudged p (fun c => bpc c = Active) s s) as Hn by (apply nudged_same; try done; by split).
  destruct (after_barrier b b' bpc (host hpc p HSync) s (th_cid t) Checking WAITING) as [Hres Hsys]; try done.
  - apply Hok.
  - eapply (linked_step bpc _ hpc s s p); try done.
    + apply Hn.
    + intros c'. rewrite <- (lk_bpc _ _ _ HL c'). unfold at_pc. destruct (decide (c' = th_cid t)) as [->|]; [rewrite Ha; by split|done].
    + intros v tv Hne Hv Hrv. unfold at_pc. rewrite decide_False; [done|]. by eapply other_context.
    + by rewrite Hp.
    + intros t2 Ht2. simpl. split; [done|]. intros _. by apply (lk_gid _ _ _ HL p t2 Ht2).
  - eapply (turns_step bpc b b hpc s s p); try done; [apply Hn|]. intros t2 Ht2 _ Hd. assert (t2 = t) as -> by congruence.
    unfold due in Hd. rewrite host_at, P3 in Hd. destruct Hd as [[? ?]|[? ?]]; done.
  - intros v tv Hv Hrv E. destruct (decide (v = p)) as [->|Hne]; [|by destruct (other_context s p t v tv)].
    rewrite host_at. split; [done|]. congruence.
  - by left.
Qed.
End Link.
