(* ===== verification/SchedulerStep.v ===== *)
(** * Every step of the system keeps its invariant *)

From stdpp Require Import base list gmap sets strings sorting.
From Stdlib Require Import ZArith Lia.
From S2P Require Import Prelude Barrier BarrierInv BarrierOps BarrierSteps BarrierSpec Scheduler SchedulerInv SchedulerMoves SchedulerOps SchedulerPhase SchedulerActs SchedulerWays SchedulerSmall SchedulerSys SchedulerLink.
Local Open Scope Z_scope.

Section Step.
Context {C G : Type} `{CoreOps C} `{RandInt G}.
Context (I : (nat -> bool) -> C -> Prop) {HI : CoreLaws I}.
Context (schedQuantum phaseLength : Z) (Hquantum : 0 < schedQuantum < 2 ^ 32).
Abbreviation S := (Sched C G).
Abbreviation W := (W (C := C) (G := G)).
Abbreviation Sys := (Sys (C := C) (G := G)).
Abbreviation sys_ok := (sys_ok I).
Abbreviation linked := (linked I).
Implicit Types (s : S) (t : ThreadInfo) (p c v : nat) (b : W) (bpc : nat -> Pc) (hpc : nat -> Hpc) (h : Hpc) (x : Sys).

(** ** The watchdog *)

Lemma count_used (l : list nat) : forall (cxs : list ContextInfo), NoDup l ->
  (forall c, c ∈ l -> exists y, cxs !! c = Some y /\ is_used y = true) -> (length l <= count_if is_used cxs)%nat.
Proof.
  induction l as [|c l IH]; intros cxs Hnd Hu; simpl; [lia|]. apply NoDup_cons in Hnd as [Hc Hnd].
  destruct (Hu c) as (y & Hy & Hyu); [left|]. pose proof (count_if_insert is_used cxs c y (mkCx IDLE None true) Hy) as Hi.
  rewrite Hyu in Hi. simpl in Hi. specialize (IH (<[c := mkCx IDLE None true]> cxs) Hnd).
  assert (length l <= count_if is_used (<[c := mkCx IDLE None true]> cxs))%nat; [|lia].
  apply IH. intros c' Hc'. destruct (Hu c') as (y' & Hy'); [by right|]. exists y'. rewrite list_lookup_insert_ne; [done|]. by intros ->.
Qed.

(** No thread runs when all scheduled threads are out. *)
Lemma all_out_idle s : sched_inv None ∅ s -> all_out s = true -> forall p t, sc_threads s !! p = Some t -> th_state t <> Th.RUNNING.
Proof.
  intros [Hc Hq _ Ht _] [Ha _]%andb_true_iff p t Hp Hr. apply Z.eqb_eq in Ha. rewrite (ci_count _ _ Hc) in Ha.
  set (cid v := match sc_threads s !! v with Some tv => th_cid tv | None => 0%nat end).
  assert (forall v, v ∈ p :: sc_queues s OutQ -> exists tv, sc_threads s !! v = Some tv /\ holding tv) as Hh.
  { intros v [->|Hv]%elem_of_cons; [exists t; split; [done|by left]|]. apply (qi_in _ Hq) in Hv as (tv & Htv & Ho). exists tv. split; [done|].
    pose proof (ti_owner _ _ Ht v tv Htv) as Hown. unfold owner_for in Hown. right.
    destruct (th_state tv); try congruence. destruct Hown as [[? _]|[? _]]; congruence. }
  assert (NoDup (p :: sc_queues s OutQ)) as Hnd.
  { constructor; [|apply Hq]. intros (tp & Htp & Ho)%(qi_in _ Hq). pose proof (ti_owner _ _ Ht p t Hp) as Hown. unfold owner_for in Hown.
    rewrite Hr in Hown. congruence. }
  assert (length (map cid (p :: sc_queues s OutQ)) <= count_if is_used (sc_contexts s))%nat as Hle.
  { apply count_used.
    - apply NoDup_fmap_2_strong; [|done]. intros v w Hv Hw E. destruct (Hh v Hv) as (tv & Htv & Hhv). destruct (Hh w Hw) as (tw & Htw & Hhw).
      unfold cid in E. rewrite Htv, Htw in E. by eapply (hold_unique None s v tv w tw).
    - intros c (v & -> & Hv)%list_elem_of_fmap. destruct (Hh v Hv) as (tv & Htv & Hhv). unfold cid. rewrite Htv.
      destruct (hold_context None s v tv Hc Htv Hhv) as (y & Hy & _ & Hu & _). exists y. split; [done|]. by apply bool_decide_eq_true. }
  rewrite length_map in Hle. simpl in Hle. lia.
Qed.

(** While nobody runs, the callback does not need the barrier. *)
Definition idle s : Prop := forall p t, sc_threads s !! p = Some t -> th_state t <> Th.RUNNING.

Lemma idle_synced hpc s : idle s -> synced hpc s.
Proof. intros Hi p t Hp Hr. by destruct (Hi p t). Qed.

Lemma idle_changed k s s' : idle s -> changed k s s' -> idle s'.
Proof.
  intros Hi Hc p t' Hp Hr. destruct (changed_back _ _ _ _ _ Hc Hp) as (t & Ht & [_ _ _ _ _ _ [(E & _)|(_ & E & _)]]); [|congruence].
  apply (Hi p t Ht). congruence.
Qed.

Lemma drive_loop_ok bpc hpc p n : forall s, linked bpc hpc s -> idle s -> is_Some (sc_threads s !! p) ->
  wp (drive_loop schedQuantum phaseLength n p) (fun _ s' => linked bpc hpc s' /\ idle s') s.
Proof.
  induction n as [|n IH]; intros s HL Hi [t Hp]; simpl; [by wp_step|]. wp_step. eapply wp_get_th; [done|].
  destruct (is_state [Th.SLEEPING] t); [|by wp_step].
  destruct (callback_runs I schedQuantum phaseLength Hquantum bpc hpc s HL (idle_synced hpc s Hi)) as (s' & E & Hcb & HL').
  wp_step. unfold wp at 1. rewrite E. apply IH; [done|by eapply idle_changed; [|apply Hcb]|].
  destruct (changed_some _ _ _ _ _ (cb_changed _ _ _ _ Hcb) Hp) as (t' & ? & _). by exists t'.
Qed.

Lemma drive_ok bpc hpc n s (Q : unit -> S -> Prop) : linked bpc hpc s -> Q tt s -> (forall s', linked bpc hpc s' -> idle s' -> Q tt s') ->
  wp (drive schedQuantum phaseLength n) Q s.
Proof.
  intros HL HQ HQ'. unfold drive. do 2 wp_step. pose proof (lk_steady _ _ _ _ HL) as [Hinv _].
  destruct (all_out s) eqn:Ea; [|by wp_step]. destruct (sc_queues s SleepQ) as [|p l] eqn:Eq; [by wp_step|].
  eapply wp_mono; [apply (drive_loop_ok bpc hpc p n s HL)|].
  - intros v tv. by apply all_out_idle.
  - assert (p ∈ sc_queues s SleepQ) as Hin by (rewrite Eq; left). apply (qi_in _ (si_queue _ _ _ Hinv)) in Hin as (t & Ht & _). by exists t.
  - intros [] s' [A1 A2]. by apply HQ'.
Qed.

(** ** One step *)

Definition good (r : res Sys) : Prop := exists x', r = Ok x' /\ sys_ok x'.

Lemma run_ok {R} (m : M W R) x (k : R -> W -> Sys) : wp m (fun a b' => sys_ok (k a b')) (sy_bar x) -> good (run m x k).
Proof. unfold wp, run. destruct (m (sy_bar x)) as [[a b']|]; [|done]. intros Hk. by eexists. Qed.

Lemma on_thread_ok x s p t (f : ThreadInfo -> res Sys) : b_sched (sy_bar x) = Ok s -> sc_threads s !! p = Some t -> good (f t) -> good (on_thread p x f).
Proof. intros Hs Hp Hf. unfold on_thread, thread_of, thread_in. by rewrite Hs, Hp. Qed.

Lemma host_some bpc hpc s p : linked bpc hpc s -> hpc p <> HNone -> exists t, sc_threads s !! p = Some t /\ host_ok bpc (Some t) (hpc p).
Proof.
  intros HL Hn. pose proof (lk_host _ _ _ _ HL p) as Hh. destruct (sc_threads s !! p) as [t|]; [by exists t|]. by simpl in Hh.
Qed.

(** A step of a thread inside of the barrier. *)
Lemma host_mono bpc bpc' o h : (forall c, bpc c = Active -> bpc' c = Active) -> host_ok bpc o h -> host_ok bpc' o h.
Proof.
  intros Hb. destruct o as [t|]; [|done]. assert (on_cpu bpc t -> on_cpu bpc' t) by (intros [? ?]; split; auto).
  destruct h; simpl; tauto.
Qed.

Lemma inside_ok x c q : sys_ok x -> cfg_ok (sy_bar x, at_pc (sy_bpc x) c q) -> sy_bpc x c <> Out -> sy_bpc x c <> Active -> q <> Out ->
  sys_ok (mkSys (sy_bar x) (at_pc (sy_bpc x) c q) (sy_hpc x)).
Proof.
  intros [_ (s & Hs & [L1 L2 L3 L4] & HT)] Hc Ho Hna Hq. split; simpl; [done|]. exists s. split_and!; [done| |done]. split; [done|..].
  - intros c'. rewrite <- (L2 c'). unfold at_pc. destruct (decide (c' = c)) as [->|]; [by split|done].
  - intros p. eapply host_mono; [|apply L3]. intros c' Ha. unfold at_pc. destruct (decide (c' = c)) as [->|]; [done|done].
  - done.
Qed.

Lemma go_ok a x : sys_ok x -> allowed a x -> match a with AGo _ | ASleep _ | AWake _ => True | _ => False end ->
  good (exec schedQuantum phaseLength a x).
Proof.
  intros Hok Ha Hin. destruct a; try done; destruct Ha as [Hc Hw]; simpl.
  - eexists. split; [done|]. apply inside_ok; rewrite ?Hc; try done.
    apply (step_cfg (sy_bar x, sy_bpc x) _ (step_go (H := sched_callee schedQuantum phaseLength) c _ _ Hc Hw)), Hok.
  - eexists. split; [done|]. apply inside_ok; rewrite ?Hc; try done.
    apply (step_cfg (sy_bar x, sy_bpc x) _ (step_wait (H := sched_callee schedQuantum phaseLength) c _ _ Hc Hw)), Hok.
  - destruct (woken_runs _ c (so_cfg _ _ Hok) Hc Hw) as [E _]. simpl in E. unfold run. rewrite E.
    eexists. split; [done|]. apply inside_ok; rewrite ?Hc; try done.
    apply (step_cfg (sy_bar x, sy_bpc x) _ (step_wake (H := sched_callee schedQuantum phaseLength) c _ _ _ Hc Hw E)), Hok.
Qed.

(** The calling thread moves on. *)
Lemma moves_ok x s s' p t t' h : sys_ok x -> b_sched (sy_bar x) = Ok s -> linked (sy_bpc x) (sy_hpc x) s -> turns (sy_bar x) (sy_hpc x) s ->
  sc_threads s !! p = Some t -> moves I (fun c => sy_bpc x c = Active) p t' s s' -> th_gid t' = th_gid t -> host_ok (sy_bpc x) (Some t') h ->
  (registered h <-> registered (sy_hpc x p)) -> (forall back, h <> HJoin back) -> (th_state t' = Th.RUNNING -> th_handoffThread t' = None) ->
  sys_ok (goto p h x (set_sched (Ok s') (sy_bar x))).
Proof.
  intros Hok Hs HL HT Hp (M1 & M2 & M3 & M4) Hg Hh Hr Hj Hho. eapply stay_ok; try done.
  - by rewrite M4.
  - intros t2 Ht2. exists t. split; congruence.
  - intros t2 Ht2 Hr2 [[back Hd]|Hd]; [rewrite host_at in Hd; by apply (Hj back)|].
    assert (t2 = t') as -> by congruence. rewrite (Hho Hr2) in Hd. by destruct Hd.
Qed.

Lemma moves_refl A s p t : steady I s -> sc_threads s !! p = Some t -> moves I A p t s s.
Proof. intros Hst Hp. split_and!; try done. by apply nudged_same. Qed.

Lemma same_sched b s : b_sched b = Ok s -> set_sched (Ok s) b = b.
Proof. intros Hs. destruct b. simpl in *. by subst. Qed.

Lemma arrive_ok x s p t back : sys_ok x -> b_sched (sy_bar x) = Ok s -> linked (sy_bpc x) (sy_hpc x) s -> turns (sy_bar x) (sy_hpc x) s ->
  sc_threads s !! p = Some t -> on_cpu (sy_bpc x) t -> plain t -> registered (sy_hpc x p) -> good (arrive p back x).
Proof.
  intros Hok Hs HL HT Hp [Hr Ha] Hpl Hreg. assert (sys_ok (goto p HRun x (sy_bar x))) as Hrun.
  { rewrite <- (same_sched _ s Hs) at 1. eapply (moves_ok x s s p t t); try done; [|by intros _; apply Hpl].
    apply moves_refl; [apply HL|done]. }
  destruct back; simpl; [|by eexists]. apply run_ok. eapply wp_on_sched; [done|]. unfold sync_end. wp_step. eapply wp_get_th; [done|].
  do 2 wp_step; [rewrite is_state_one; by apply bool_decide_eq_true|]. wp_step. by rewrite (same_sched _ s Hs).
Qed.

Section Ops.
Context (x : Sys) (s : S) (Hok : sys_ok x) (Hs : b_sched (sy_bar x) = Ok s) (HL : linked (sy_bpc x) (sy_hpc x) s)
  (HT : turns (sy_bar x) (sy_hpc x) s).
Abbreviation exec := (exec schedQuantum phaseLength).
Abbreviation Act_ := (fun c => sy_bpc x c = Active).

Lemma in_gidMap p t : sc_threads s !! p = Some t -> registered (sy_hpc x p) -> sc_gidMap s !! th_gid t = Some p.
Proof. intros Hp Hr. by apply (lk_gid _ _ _ _ HL). Qed.

Lemma join_step p : allowed (AJoin p) x -> good (exec (AJoin p) x).
Proof.
  intros Ha. assert (sy_hpc x p <> HNone /\ registered (sy_hpc x p)) as [Hn Hreg] by (destruct Ha as [E|[E|E]]; rewrite E; done).
  destruct (host_some _ _ _ p HL Hn) as (t & Hp & Hh). pose proof (lk_steady _ _ _ _ HL) as Hst. pose proof (proj1 Hst) as Hinv.
  pose proof (ti_local _ _ (si_thread _ _ _ Hinv) p t Hp) as Hl.
  simpl. eapply on_thread_ok; [done|done|]. apply run_ok. unfold join. wp_step. eapply wp_on_sched; [done|].
  eapply wp_lookup_gid; [apply gid_lookup; [done|done|by apply in_gidMap]|]. wp_step. eapply wp_on_sched; [done|]. eapply wp_get_th; [done|].
  rewrite (tl_action _ _ _ Hl). rewrite !(same_sched _ s Hs). wp_step.
  destruct (decide (sy_hpc x p = HFake)) as [E|Hnf].
  2: { eapply wp_mono; [apply (join_sched I schedQuantum phaseLength Act_ (fun w b' => sys_ok (entered p false x w b')) (sy_bar x) s p t Hs Hst Hp)|by intros w b' Hw; wp_step].
       - unfold outside. destruct Ha as [E|[E|E]]; [rewrite E in Hh; simpl in Hh; set_solver..|done].
       - by apply (enter_posts_ok I schedQuantum phaseLength x s p t false). }
  rewrite E in Hh. destruct Hh as (Hc & P1 & P2 & P3). unfold join_rest. wp_step. eapply wp_on_sched; [done|]. eapply wp_get_th; [done|].
  rewrite bool_decide_eq_true_2 by done. wp_step. rewrite (same_sched _ s Hs). eapply wp_on_sched; [done|].
  eapply (finishFakeLeave_ok I Act_ s p t); try done. intros s' Hm. do 2 wp_step.
  by eapply (moves_ok x s s' p t).
Qed.

Lemma cid_of p t : sc_threads s !! p = Some t -> cid_in (sy_bar x) p = th_cid t.
Proof. intros Hp. unfold cid_in, thread_in. by rewrite Hs, Hp. Qed.

Lemma joined_step p : allowed (AJoined p) x -> good (exec (AJoined p) x).
Proof.
  intros [[back E] Ha]. destruct (host_some _ _ _ p HL) as (t & Hp & Hh); [by rewrite E|]. rewrite E in Hh. destruct Hh as [Hr Hpl].
  rewrite (cid_of p t Hp) in Ha. simpl. rewrite E. eapply (arrive_ok x s p t back); try done. by rewrite E.
Qed.

Lemma woken_step p : allowed (AWoken p) x -> good (exec (AWoken p) x).
Proof.
  intros [[back E] (t0 & Ht0 & Hf)]. destruct (host_some _ _ _ p HL) as (t & Hp & Hh); [by rewrite E|]. rewrite E in Hh.
  unfold thread_of, thread_in in Ht0. rewrite Hs, Hp in Ht0. injection Ht0 as <-. pose proof (proj1 (lk_steady _ _ _ _ HL)) as Hinv.
  destruct Hh as [Hq|(Hc & Hf0 & Hj & Hpl)].
  { exfalso. pose proof (ti_owner _ _ (si_thread _ _ _ Hinv) p t Hp) as Ho. unfold owner_for in Ho. rewrite Hq in Ho.
    destruct Ho as [[_ ?]|[_ [Hin|[? _]]]]; [done|set_solver|done]. }
  simpl. rewrite E. assert (waitForContext_end schedQuantum phaseLength p (sy_bar x) = Ok (Proceed, sy_bar x)) as ->.
  { assert (on_sched (get_th p) (sy_bar x) = Ok (t, sy_bar x)) as Eg.
    { unfold on_sched. rewrite Hs. unfold get_th, bind, get, gets. simpl. rewrite Hp. simpl. by rewrite (same_sched _ s Hs). }
    unfold waitForContext_end, bind. rewrite Eg. by rewrite Hj. }
  destruct x as [b bpc hpc]. simpl in *. eapply (arrive_ok (mkSys b bpc hpc) s p t back); try done. simpl. by rewrite E.
Qed.

Lemma sync_step p : allowed (ASync p) x -> good (exec (ASync p) x).
Proof.
  intros E. simpl in E. destruct (host_some _ _ _ p HL) as (t & Hp & Hh); [by rewrite E|]. rewrite E in Hh. destruct Hh as [Hc Hpl].
  simpl. eapply on_thread_ok; [done|done|]. apply run_ok. eapply sync_sys; try done. by rewrite E.
Qed.

Lemma synced_step p : allowed (ASynced p) x -> good (exec (ASynced p) x).
Proof.
  intros [E Ha]. destruct (host_some _ _ _ p HL) as (t & Hp & Hh); [by rewrite E|]. rewrite E in Hh. destruct Hh as (Hr & P1 & P2).
  rewrite (cid_of p t Hp) in Ha. simpl. rewrite Hs. unfold must_handoff. rewrite Hp. case_bool_decide as Eh.
  - eexists. split; [done|]. split; simpl; [apply Hok|]. exists s. split_and!; [done|..].
    + eapply (linked_stay I); try done; [apply HL|by apply nudged_same|by rewrite Hp|eauto|by rewrite E].
    + eapply (turns_step I (sy_bpc x) (sy_bar x) (sy_bar x) _ s s p); try done.
      * intros v _. destruct (sc_threads s !! v); constructor. by apply nd_same.
      * intros t2 Ht2 _ _ Hw. assert (t2 = t) as -> by congruence. pose proof (cf_pc _ (so_cfg _ _ Hok) (th_cid t)) as Hpc. simpl in Hpc.
        rewrite Ha in Hpc. simpl in Hpc. congruence.
  - eapply (arrive_ok x s p t true); try done; [|by rewrite E]. split_and!; try done. by apply eq_None_not_Some.
Qed.

Lemma handoff_step p : allowed (AHandoff p) x -> good (exec (AHandoff p) x).
Proof.
  intros E. simpl in E. destruct (host_some _ _ _ p HL) as (t & Hp & Hh); [by rewrite E|]. rewrite E in Hh. destruct Hh as ([Hr Ha] & P1 & P2 & P3).
  simpl. apply run_ok. eapply (handoff_sched I schedQuantum phaseLength Act_ _ (sy_bar x) s p t); try done; [apply HL|].
  apply (enter_posts_ok I schedQuantum phaseLength x s p t true); try done. by rewrite E.
Qed.

Lemma mark_step p w : allowed (AMark p w) x -> good (exec (AMark p w) x).
Proof.
  intros [E (s0 & Hs0 & Hw)]. assert (s0 = s) as -> by congruence. destruct (host_some _ _ _ p HL) as (t & Hp & Hh); [by rewrite E|].
  rewrite E in Hh. destruct Hh as [[Hr Ha] Hpl]. simpl. eapply on_thread_ok; [done|done|]. apply run_ok. eapply wp_on_sched; [done|].
  eapply (markForSleep_ok I Act_ s p t); try done; [apply HL|apply in_gidMap; [done|by rewrite E]|]. intros s' Hm.
  eapply (moves_ok x s s' p t); try done; [|by rewrite E|by intros _; apply Hpl]. simpl. by split_and!; try done; apply Hpl.
Qed.

Lemma syscall_step p pc n a0 a1 : allowed (ASyscall p pc n a0 a1) x -> good (exec (ASyscall p pc n a0 a1) x).
Proof.
  intros Ha. assert (sy_hpc x p <> HNone /\ registered (sy_hpc x p)) as [Hn Hreg] by (destruct Ha as [E|E]; rewrite E; done).
  destruct (host_some _ _ _ p HL Hn) as (t & Hp & Hh).
  assert (on_cpu (sy_bpc x) t /\ th_fakeLeave t = None /\ th_handoffThread t = None) as ([Hr Hc] & P2 & P3)
    by (destruct Ha as [E|E]; rewrite E in Hh; simpl in Hh; unfold plain in Hh; tauto).
  simpl. eapply on_thread_ok; [done|done|]. apply run_ok. eapply wp_on_sched; [done|].
  eapply (syscallLeave_ok I Act_ s p t); try done; [apply HL|..].
  - eapply (moves_ok x s s p t t); try done. apply moves_refl; [apply HL|done].
  - intros s' fl Hm Hmv. eapply (moves_ok x s s' p t); try done.
Qed.

Lemma leave_step p : allowed (ALeave p) x -> good (exec (ALeave p) x).
Proof.
  intros Ha. assert (sy_hpc x p <> HNone /\ registered (sy_hpc x p)) as [Hn Hreg] by (destruct Ha as [E|E]; rewrite E; done).
  destruct (host_some _ _ _ p HL Hn) as (t & Hp & Hh).
  assert (on_cpu (sy_bpc x) t /\ th_fakeLeave t = None /\ th_handoffThread t = None) as (Hc & P2 & P3)
    by (destruct Ha as [E|E]; rewrite E in Hh; simpl in Hh; unfold plain in Hh; tauto).
  simpl. eapply on_thread_ok; [done|done|]. apply run_ok. pose proof Hc as [Hr Hact].
  eapply (leave_sched I schedQuantum phaseLength Act_ _ (sy_bar x) s p t); try done; [apply HL|].
  eapply (leave_posts_ok I schedQuantum phaseLength Hquantum); try done.
  - intros bpc t' [_ Hl]. destruct (th_markedForSleep t); simpl; tauto.
  - by destruct (th_markedForSleep t).
Qed.

Lemma finLeave_step p : allowed (AFinLeave p) x -> good (exec (AFinLeave p) x).
Proof.
  intros [chk E]. destruct (host_some _ _ _ p HL) as (t & Hp & Hh); [by rewrite E|]. rewrite E in Hh. destruct Hh as [Hc (P1 & P2 & P3)].
  simpl. eapply on_thread_ok; [done|done|]. apply run_ok. pose proof Hc as [Hr Hact].
  eapply (leave_sched I schedQuantum phaseLength Act_ _ (sy_bar x) s p t); try done; [apply HL|].
  eapply (leave_posts_ok I schedQuantum phaseLength Hquantum); try done.
  - intros bpc t' [_ Hl]. rewrite P1 in Hl. rewrite E. destruct chk; simpl; tauto.
  - rewrite E. by destruct chk.
Qed.

Lemma sleepEnd_step p : allowed (ASleepEnd p) x -> good (exec (ASleepEnd p) x).
Proof.
  intros E. simpl in E. destruct (host_some _ _ _ p HL) as (t & Hp & Hh); [by rewrite E|]. rewrite E in Hh. simpl in Hh.
  simpl. eapply on_thread_ok; [done|done|]. apply run_ok. eapply wp_on_sched; [done|].
  eapply (notifySleepEnd_ok I Act_ s p t); try done; [apply HL|apply in_gidMap; [done|by rewrite E]|]. intros s' t' Hb Hg Hm.
  eapply (moves_ok x s s' p t t'); try done; [by right; left|by rewrite E|congruence].
Qed.

(** The end of a thread. *)
Lemma gone_ok s1 s' p : sc_threads s1 = sc_threads s ->
  (forall v t, v <> p -> sc_threads s !! v = Some t -> (sc_gidMap s1 !! th_gid t = Some v <-> sc_gidMap s !! th_gid t = Some v)) ->
  ended I p Act_ s1 s' -> sys_ok (goto p HNone x (set_sched (Ok s') (sy_bar x))).
Proof.
  intros Em Hg (E1 & E2 & E3 & E4 & E5). split; simpl; [apply cfg_sched, Hok|]. exists s'. split; [done|].
  assert (forall v, v <> p -> option_Forall2 (nudge Act_) (sc_threads s !! v) (sc_threads s' !! v)) as Hn by (intros v Hv; rewrite <- Em; by apply E5).
  assert (forall c, running s1 c <-> running s c) as Hrun by (intros c; unfold running; by rewrite Em).
  split.
  - eapply (linked_step I (sy_bpc x) (sy_bpc x) _ s s' p); try done.
    + intros c. rewrite (E4 c), Hrun. apply (lk_bpc _ _ _ _ HL).
    + by rewrite E2.
    + intros v t' Hv Ht'. rewrite E3. specialize (Hn v Hv). rewrite Ht' in Hn. inversion Hn as [t ? Hnd Et|]; subst. symmetry in Et.
      rewrite (nudge_gid _ _ _ Hnd). by apply Hg.
    + intros t Ht. congruence.
  - eapply (turns_step I (sy_bpc x) (sy_bar x)); try done. intros t Ht. congruence.
Qed.

Lemma unregistered p t : sc_threads s !! p = Some t -> ~ registered (sy_hpc x p) -> forgotten p s.
Proof.
  intros Hp Hn g Hg. destruct (ti_gid _ _ (si_thread _ _ _ (proj1 (lk_steady _ _ _ _ HL))) g p Hg) as (t' & Ht' & <-).
  assert (t' = t) as -> by congruence. by apply (lk_gid _ _ _ _ HL) in Hg.
Qed.

Lemma finEnd_step p : allowed (AFinEnd p) x -> good (exec (AFinEnd p) x).
Proof.
  intros E. simpl in E. destruct (host_some _ _ _ p HL) as (t & Hp & Hh); [by rewrite E|]. rewrite E in Hh. simpl in Hh.
  simpl. apply run_ok. eapply wp_on_sched; [done|]. eapply (finish_end_ok I Act_ s p t); try done; [apply HL| |].
  - apply (unregistered p t Hp). rewrite E. by intros [].
  - intros s' He. by eapply (gone_ok s s' p).
Qed.

Lemma finCheck_step p : allowed (AFinCheck p) x -> good (exec (AFinCheck p) x).
Proof.
  intros E. simpl in E. destruct (host_some _ _ _ p HL) as (t & Hp & Hh); [by rewrite E|]. rewrite E in Hh. simpl in Hh.
  simpl. apply run_ok. eapply wp_on_sched; [done|]. unfold finish_check. wp_step. eapply wp_get_th; [done|].
  rewrite is_state_one, bool_decide_eq_false_2 by (destruct Hh as [-> |[-> | ->]]; done). wp_step.
  eapply (finish_end_ok I Act_ s p t); try done; [apply HL| |].
  - apply (unregistered p t Hp). rewrite E. by intros [].
  - intros s' He. wp_step. by eapply (gone_ok s s' p).
Qed.

(** A thread that [finish] has taken out of [gidMap]. *)
Lemma finLeft_ok s1 s' p t t' chk : sc_threads s !! p = Some t -> sc_gidMap s !! th_gid t = Some p ->
  s1 = set_gidMap (delete (th_gid t) (sc_gidMap s)) s -> moves I Act_ p t' s1 s' -> th_gid t' = th_gid t -> on_cpu (sy_bpc x) t' -> plain t' ->
  sys_ok (goto p (HFinLeave chk) x (set_sched (Ok s') (sy_bar x))).
Proof.
  intros Hp Hg -> (M1 & [N1 N2 N3] & M3 & M4) Hgid Hc Hpl. split; simpl; [apply cfg_sched, Hok|]. exists s'. split; [done|]. split.
  - eapply (linked_step I (sy_bpc x) (sy_bpc x) _ s s' p); try done.
    + intros c. rewrite (M3 c). apply (lk_bpc _ _ _ _ HL).
    + by rewrite M4.
    + intros v tv Hv Htv. rewrite N3. simpl. rewrite lookup_delete_Some. split; [by intros [_ ?]|]. intros Hgv. split; [|done].
      intros E. rewrite <- E in Hgv. congruence.
    + intros t2 Ht2. assert (t2 = t') as -> by congruence. rewrite N3, Hgid. simpl. rewrite lookup_delete_eq. by split.
  - eapply (turns_step I (sy_bpc x) (sy_bar x)); try done. intros t2 Ht2 _ [[back Hd]|Hd]; [by rewrite host_at in Hd|].
    assert (t2 = t') as -> by congruence. destruct Hpl as (_ & _ & E). rewrite E in Hd. by destruct Hd.
Qed.

Lemma finish_step p : allowed (AFinish p) x -> good (exec (AFinish p) x).
Proof.
  intros Ha. assert (sy_hpc x p <> HNone /\ registered (sy_hpc x p)) as [Hn Hreg] by (destruct Ha as [E|[E|E]]; rewrite E; done).
  destruct (host_some _ _ _ p HL Hn) as (t & Hp & Hh). pose proof (in_gidMap p t Hp Hreg) as Hg.
  assert (th_state t <> Th.QUEUED /\ th_state t <> Th.SLEEPING /\ (th_state t = Th.RUNNING -> on_cpu (sy_bpc x) t /\ th_markedForSleep t = false /\
    th_handoffThread t = None)) as (Q1 & Q2 & Q3).
  { destruct Ha as [E|[E|E]]; rewrite E in Hh; simpl in Hh; unfold plain, on_cpu in *; intuition congruence. }
  simpl. eapply on_thread_ok; [done|done|]. apply run_ok. eapply wp_on_sched; [done|].
  pose proof (ti_local _ _ (si_thread _ _ _ (proj1 (lk_steady _ _ _ _ HL))) p t Hp) as Hl.
  eapply (finish_ok I Act_ s p t); try done; [apply HL|..]; simpl.
  - intros Hr Hf Hst1. destruct (Q3 Hr) as (C1 & C2 & C3). eapply (finLeft_ok _ _ p t t false); try done. by apply moves_refl.
  - intros s' Hf Hm. destruct (Q3 (tl_fake _ _ _ Hl Hf)) as (C1 & C2 & C3). by eapply (finLeft_ok _ s' p t _ true).
  - intros s' Hnr He. eapply (gone_ok _ s' p); [|..|exact He]; [done|]. intros v tv Hv Htv. simpl. rewrite lookup_delete_Some.
    split; [by intros [_ ?]|]. intros Hgv. split; [|done]. intros E. rewrite <- E in Hgv. congruence.
Qed.

Lemma drive_step n : good (exec (ADrive n) x).
Proof.
  simpl. apply run_ok. eapply wp_on_sched; [done|]. eapply (drive_ok (sy_bpc x) (sy_hpc x)); [done|..].
  - rewrite (same_sched _ s Hs). by destruct x.
  - intros s' HL' Hi. split; simpl; [apply cfg_sched, Hok|]. exists s'. split_and!; [done|done|]. intros p t Hp Hr. by destruct (Hi p t).
Qed.

Lemma start_step pid tid mask junk : allowed (AStart pid tid mask junk) x -> good (exec (AStart pid tid mask junk) x).
Proof.
  intros (Hpid & Htid & s0 & Hs0 & Hg & Hm & Hone). assert (s0 = s) as -> by congruence. pose proof (lk_steady _ _ _ _ HL) as [Hinv Hj].
  destruct (start_inv s pid tid mask junk Hinv Hpid Htid Hg Hm) as [Hfr Hinv']. set (s' := set_fresh _ _) in Hinv'.
  simpl. apply run_ok. eapply wp_on_sched; [done|]. unfold start. do 4 wp_step; [by apply bool_decide_eq_true|].
  do 2 wp_step; [by apply Nat.eqb_eq|].
  assert (existsb id mask = true) as Hex by (apply existsb_exists; exists true; split; [by apply list_elem_of_In|done]).
  rewrite Hex. do 3 wp_step. do 6 wp_step. fold s'. set (p := sc_fresh s) in *. set (t := ThreadInfo_new (getGid pid tid) mask junk) in *.
  assert (sc_threads s' = <[p := t]> (sc_threads s)) as Em by done.
  assert (sy_hpc x p = HNone) as En by (pose proof (lk_host _ _ _ _ HL p) as Hh; by rewrite Hfr in Hh).
  assert (forall c, running s' c <-> running s c) as Hrun.
  { intros c. unfold running. rewrite Em. split.
    - intros (v & tv & Hv & Hr & Hc). apply lookup_insert_Some in Hv as [[<- <-]|[_ Hv]]; [done|]. by exists v, tv.
    - intros (v & tv & Hv & Hr & Hc). exists v, tv. rewrite lookup_insert_ne; [done|]. intros <-. congruence. }
  assert (forall v, v <> p -> option_Forall2 (nudge Act_) (sc_threads s !! v) (sc_threads s' !! v)) as Hn.
  { intros v Hv. rewrite Em, lookup_insert_ne by done. destruct (sc_threads s !! v); constructor. by apply nd_same. }
  split; simpl; [apply cfg_sched, Hok|]. exists s'. split; [done|]. split.
  - eapply (linked_step I (sy_bpc x) (sy_bpc x) _ s s' p); try done.
    + split; [done|]. eapply law_ext; [|exact Hj]. eapply runb_ext; [apply Hinv|apply Hinv'|]. intros c. by rewrite Hrun.
    + intros c. rewrite Hrun. apply (lk_bpc _ _ _ _ HL).
    + rewrite Em, lookup_insert_eq. by left.
    + intros v tv Hv Htv. simpl. rewrite Em, lookup_insert_ne in Htv by done. rewrite lookup_insert_Some. split.
      * intros [[_ ?]|[_ ?]]; [congruence|done].
      * intros Hgv. right. split; [|done]. intros E. rewrite E in Hg. congruence.
    + intros t2 Ht2. rewrite Em, lookup_insert_eq in Ht2. injection Ht2 as <-. simpl. rewrite lookup_insert_eq. by split.
  - eapply (turns_step I (sy_bpc x) (sy_bar x)); try done. intros t2 Ht2. rewrite Em, lookup_insert_eq in Ht2. by injection Ht2 as <-.
Qed.
End Ops.

Lemma step_ok a x : sys_ok x -> allowed a x -> good (exec schedQuantum phaseLength a x).
Proof.
  intros Hok Ha. pose proof (so_sched _ _ Hok) as (s & Hs & HL & HT). destruct a.
  - by eapply start_step.
  - by eapply join_step.
  - by apply go_ok.
  - by apply go_ok.
  - by apply go_ok.
  - by eapply joined_step.
  - by eapply woken_step.
  - by eapply sync_step.
  - by eapply synced_step.
  - by eapply handoff_step.
  - by eapply mark_step.
  - by eapply syscall_step.
  - by eapply leave_step.
  - by eapply sleepEnd_step.
  - by eapply finish_step.
  - by eapply finLeave_step.
  - by eapply finCheck_step.
  - by eapply finEnd_step.
  - by eapply drive_step.
Qed.

Lemma new_inv n (g : G) (k : C) : (0 < n <= MAX_THREADS)%nat -> sched_inv None ∅ (Scheduler_new n g k).
Proof.
  intros Hn. split.
  - split; simpl; try done.
    + intros c y [-> _]%lookup_replicate. by split.
    + apply NoDup_seq.
    + intros c. rewrite elem_of_seq. split; [intros Hc|intros (y & [_ Hc]%lookup_replicate & _); lia].
      exists (mkCx IDLE None true). split; [apply lookup_replicate_2; lia|done].
    + clear Hn. by induction n.
    + unfold numCores. simpl. by rewrite length_replicate.
  - split; [intros q; constructor|]. intros q p. simpl. split; [by intros ?%not_elem_of_nil|intros (t & ? & _); done].
  - constructor.
  - split; simpl; try done. split; [constructor|]. intros p. split; [by intros ?%not_elem_of_nil|by intros (t & ? & _)].
  - intros p t c Hp. by apply not_elem_of_nil in Hp.
Qed.

Lemma initial_ok x : initial (I (fun _ => false)) x -> sys_ok x.
Proof.
  intros (par & ls & g & n & sg & k & Hpar & Hls & Hn & HJ & ->). pose proof (new_inv n sg k Hn) as Hinv.
  assert (forall c, ~ running (Scheduler_new n sg k) c) as Hnr by (intros c (p & t & ? & _); done).
  split; simpl.
  - apply initial_cfg. exists par, ls, g, (Ok (Scheduler_new n sg k)). done.
  - exists (Scheduler_new n sg k). split_and!; [done| |by intros p t ?]. split; try done.
    + split; [done|]. eapply law_ext; [|exact HJ]. intros c. symmetry. by apply (runb_false None); [apply Hinv|].
    + intros c. split; [done|]. intros Hr. by destruct (Hnr c).
Qed.

Lemma reachable_ok x : reachable schedQuantum phaseLength (I (fun _ => false)) x -> sys_ok x.
Proof.
  induction 1 as [x Hi|a x x' _ IH Ha E]; [by apply initial_ok|]. destruct (step_ok a x IH Ha) as (x2 & E2 & Hok). congruence.
Qed.
End Step.
