(* ===== verification/SchedulerDemo.v ===== *)
(** * A small machine and runs of the system

    One core, two threads and cores that check that they are joined and left in
    turn; runs of the system as lists of steps.  And two runs of operations that
    the system leaves out, which end in failed assertions. *)

From stdpp Require Import base list gmap sets strings.
From Stdlib Require Import ZArith Lia.
From S2P Require Import Prelude Barrier Scheduler SchedulerInv SchedulerSys.
Local Open Scope Z_scope.

(** ** A small machine

    Cores that check that they are joined and left in turn. *)
#[export] Instance sched_rand : RandInt unit := { randInt n g := (0%nat, g); randInt_le n g := Nat.le_0_l n }.
#[export] Instance demo_cores : CoreOps (nat -> bool) := {
  core_join c := k <- get ;; assert_ "joined" (negb (k c)) ;; modify (fun k => joined_set k c true);
  core_leave c := k <- get ;; assert_ "not joined" (k c) ;; modify (fun k => joined_set k c false);
  core_contextSwitch _ _ := ret tt;
  atSyncFunc := ret tt
}.
Definition demo_I (j k : nat -> bool) : Prop := forall c, k c = j c.
#[export] Instance demo_laws : CoreLaws demo_I.
Proof.
  split.
  - intros j j' k E Hk c. by rewrite Hk.
  - intros j c k Hk Hj. simpl. do 4 wp_step; [by rewrite Hk, Hj|]. wp_step. intros c'. unfold joined_set. destruct (decide (c' = c)); [done|apply Hk].
  - intros j c k Hk Hj. simpl. do 4 wp_step; [by rewrite Hk, Hj|]. wp_step. intros c'. unfold joined_set. destruct (decide (c' = c)); [done|apply Hk].
  - intros j c g k Hk. simpl. by wp_step.
  - intros j k Hk. simpl. by wp_step.
Qed.

(** [allowed], decided. *)
Definition sched_is {C G} (x : Sys (C := C) (G := G)) (f : Sched C G -> bool) : bool :=
  match b_sched (sy_bar x) with Ok s => f s | Err _ => false end.
Definition at_host {C G} (x : Sys (C := C) (G := G)) (p : nat) (l : list Hpc) : bool := bool_decide (sy_hpc x p ∈ l).
Definition allowedb {C G} (a : Act) (x : Sys (C := C) (G := G)) : bool :=
  match a with
  | AStart pid tid mask _ => ((0 <=? pid) && (pid <? Z.of_nat MAX_THREADS) && (0 <=? tid) && (tid <? 2 ^ 16) &&
      sched_is x (fun s => bool_decide (sc_gidMap s !! getGid pid tid = None) && (length mask =? numCores s)%nat && bool_decide (true ∈ mask)))%bool
  | AJoin p => at_host x p [HOut; HSlept; HFake]
  | AGo c => (bool_decide (sy_bpc x c = Checking) && negb (must_wait c (sy_bar x)))%bool
  | ASleep c => (bool_decide (sy_bpc x c = Checking) && must_wait c (sy_bar x))%bool
  | AWake c => (bool_decide (sy_bpc x c = Sleeping) && woken c (sy_bar x))%bool
  | AJoined p => (at_host x p [HJoin true; HJoin false] && bool_decide (sy_bpc x (cid_in (sy_bar x) p) = Active))%bool
  | AWoken p => (at_host x p [HWait true; HWait false] &&
      match thread_of x p with Some t => negb (th_futexWord t =? 1) | None => false end)%bool
  | ASync p => at_host x p [HRun]
  | ASynced p => (at_host x p [HSync] && bool_decide (sy_bpc x (cid_in (sy_bar x) p) = Active))%bool
  | AHandoff p => at_host x p [HHandoff]
  | AMark p w => (at_host x p [HRun] && sched_is x (fun s => (ck_curPhase (sc_clock s) <? w) && (w <? 2 ^ 64)))%bool
  | ASyscall p _ _ _ _ => at_host x p [HRun; HMarked]
  | ALeave p => at_host x p [HRun; HMust]
  | ASleepEnd p => at_host x p [HSlept]
  | AFinish p => at_host x p [HOut; HRun; HFake]
  | AFinLeave p => at_host x p [HFinLeave true; HFinLeave false]
  | AFinCheck p => at_host x p [HFinCheck]
  | AFinEnd p => at_host x p [HFinEnd]
  | ADrive _ => true
  end.

Lemma sched_is_true {C G} (x : Sys (C := C) (G := G)) f : sched_is x f = true -> exists s, b_sched (sy_bar x) = Ok s /\ f s = true.
Proof. unfold sched_is. destruct (b_sched (sy_bar x)) as [s|]; [eauto|done]. Qed.
Lemma at_host_true {C G} (x : Sys (C := C) (G := G)) p l : at_host x p l = true -> sy_hpc x p ∈ l.
Proof. apply bool_decide_eq_true. Qed.

Lemma allowedb_ok {C G} a (x : Sys (C := C) (G := G)) : allowedb a x = true -> allowed a x.
Proof.
  destruct a; simpl; rewrite ?andb_true_iff; try (intros ?%at_host_true; set_solver).
  - intros [[[[? ?] ?] ?] (s & Hs & [[? ?]%andb_true_iff ?]%andb_true_iff)%sched_is_true].
    split; [lia|]. split; [lia|]. exists s. split_and!; [done|by eapply bool_decide_eq_true_1|by apply Nat.eqb_eq|by eapply bool_decide_eq_true_1].
  - intros [? ?%negb_true_iff]. split; [by eapply bool_decide_eq_true_1|done].
  - intros [? ?]. split; [by eapply bool_decide_eq_true_1|done].
  - intros [? ?]. split; [by eapply bool_decide_eq_true_1|done].
  - intros [?%at_host_true ?]. split; [set_solver|by eapply bool_decide_eq_true_1].
  - intros [?%at_host_true Hf]. split; [set_solver|]. destruct (thread_of x p) as [t|]; [|done]. exists t. split; [done|].
    apply negb_true_iff, Z.eqb_neq in Hf. done.
  - intros [?%at_host_true ?]. split; [set_solver|by eapply bool_decide_eq_true_1].
  - intros [?%at_host_true (s & Hs & Hf)%sched_is_true]. split; [set_solver|]. exists s. split; [done|]. lia.
  - done.
Qed.

(** A run of the machine. *)
Abbreviation DSys := (Sys (C := nat -> bool) (G := unit)).
Fixpoint play (l : list Act) (x : DSys) : option DSys :=
  match l with
  | [] => Some x
  | a :: l' => if allowedb a x then match exec 2 1000 a x with Ok x' => play l' x' | Err _ => None end else None
  end.

Definition demo_init : DSys :=
  mkSys (Barrier_new 2 (replicate MAX_THREADS 0%nat) tt (Ok (Scheduler_new 1 tt (fun _ => false)))) (fun _ => Out) (fun _ => HNone).

Lemma play_reachable l : forall x x', reachable 2 1000 (demo_I (fun _ => false)) x -> play l x = Some x' ->
  reachable 2 1000 (demo_I (fun _ => false)) x'.
Proof.
  induction l as [|a l IH]; intros x x' Hr E; simpl in E; [by injection E as <-|].
  destruct (allowedb a x) eqn:Ea; [|done]. destruct (exec 2 1000 a x) as [x1|] eqn:E1; [|done].
  apply (IH x1 x'); [|done]. eapply reach_step; [done|by apply allowedb_ok|done].
Qed.

(** The state after a run that is possible. *)
Definition after (l : list Act) : DSys := match play l demo_init with Some x => x | None => demo_init end.
Lemma after_reachable l : match play l demo_init with Some _ => true | None => false end = true ->
  reachable 2 1000 (demo_I (fun _ => false)) (after l).
Proof.
  unfold after. destruct (play l demo_init) as [x|] eqn:E; [|done]. intros _. apply (play_reachable l demo_init x); [|done].
  apply reach_init. exists 2, (replicate MAX_THREADS 0%nat), tt, 1%nat, tt, (fun _ => false).
  split; [lia|]. split; [apply length_replicate|]. split; [unfold MAX_THREADS; lia|]. by split.
Qed.

(** Two threads share a core: thread 0 runs, thread 1 is queued, and thread 0
    has ended the first phase. *)
Definition two_threads : list Act :=
  [AStart 0 0 [true] false; AStart 0 1 [true] true; AJoin 0; AGo 0; AJoined 0; AJoin 1; ASync 0].
(** At the end of the quantum thread 1 gets the core, and thread 0 the queue; then
    thread 1 sleeps for three phases, and thread 0 goes on. *)
Definition hand_off : list Act :=
  two_threads ++ [AGo 0; ASynced 0; ASync 0; AGo 0; ASynced 0; AHandoff 0; AWoken 1; AMark 1 5; ASyscall 1 16 35 0 0; ALeave 1; AWoken 0].
(** Thread 0 enters a system call that does not block; or it leaves. *)
Definition fake_leave : list Act := hand_off ++ [ASyscall 0 16 1 0 0].
Definition both_gone : list Act := hand_off ++ [ALeave 0].

Definition sched_after (l : list Act) : Sched (nat -> bool) unit :=
  match b_sched (sy_bar (after l)) with Ok s => s | Err _ => Scheduler_new 1 tt (fun _ => false) end.
Definition runs (l : list Act) : bool :=
  match play l demo_init with Some x => match b_sched (sy_bar x) with Ok _ => true | Err _ => false end | None => false end.
Lemma runs_after l : runs l = true -> reachable 2 1000 (demo_I (fun _ => false)) (after l) /\ b_sched (sy_bar (after l)) = Ok (sched_after l).
Proof.
  unfold runs. intros Hr. split.
  - apply after_reachable. by destruct (play l demo_init).
  - unfold sched_after, after. destruct (play l demo_init) as [x|]; [|done]. by destruct (b_sched (sy_bar x)).
Qed.
Definition thread_after (l : list Act) (p : nat) : ThreadInfo :=
  match sc_threads (sched_after l) !! p with Some t => t | None => ThreadInfo_new 0 [] false end.
Lemma has_thread l p : bool_decide (is_Some (sc_threads (sched_after l) !! p)) = true -> sc_threads (sched_after l) !! p = Some (thread_after l p).
Proof. intros [t Ht]%bool_decide_eq_true_1. unfold thread_after. by rewrite Ht. Qed.

Lemma demo_quantum : 0 < 2 < 2 ^ 32.
Proof. lia. Qed.

(** All threads of the heap satisfy a decidable property. *)
Lemma all_threads (m : gmap nat ThreadInfo) (f : nat -> ThreadInfo -> bool) : forallb (fun e => f e.1 e.2) (map_to_list m) = true ->
  forall p t, m !! p = Some t -> f p t = true.
Proof.
  intros Hf p t Hp. rewrite forallb_forall in Hf. apply (Hf (p, t)). apply list_elem_of_In, elem_of_map_to_list. exact Hp.
Qed.

Definition in_barrier (x : DSys) (p : nat) (t : ThreadInfo) : bool :=
  (negb (bool_decide (th_state t = Th.RUNNING)) || (bool_decide (sy_hpc x p = HSync) && bool_decide (th_handoffThread t = None)))%bool.

(** A late waiter breaks the futex matching.  Thread 0 announces ten wake-ups,
    thread 1 one; thread 1's single wake-up is not matched in time, so its count
    is given up; the woken thread 2 joins after that and is counted against the
    allowance of thread 0, which has woken nobody: its [join] fails. *)
Definition late_waiter : M (W (C := nat -> bool) (G := unit)) (option Wait) :=
  on_sched (start 0 0 [true] false ;; start 0 1 [true] false ;; start 0 2 [true] false ;;
            notifyFutexWakeStart 0 0 10 ;; notifyFutexWakeStart 0 1 1 ;; notifyFutexWakeEnd 0 1 1) ;;
  join 2 1000 0 1 ;;
  join_timeout 2 1000 1 ;;
  on_sched (notifyFutexWaitWoken 0 2) ;;
  join 2 1000 0 2 ;;
  on_sched (notifyFutexWakeEnd 0 0 0) ;;
  join 2 1000 0 0.

Lemma late_waiter_fails : late_waiter (sy_bar demo_init) = Err (AssertFail "scheduler.cpp:346").
Proof. vm_compute. reflexivity. Qed.

(** The loop of the watchdog compares the process of the thread it has just left
    for, not of the next one: when the first fake leave of another process is at
    the same address, [leave] is called with the wrong process. *)
Definition fake_in (pid tid : Z) : M (W (C := nat -> bool) (G := unit)) unit :=
  p <- on_sched (start pid tid (replicate 10 true) false) ;;
  join 2 1000 pid tid ;;
  t <- on_sched (get_th p) ;;
  on_sched (syscallLeave pid tid (th_cid t) 16 1 0 0) ;;
  ret tt.
Definition ten_cores : W (C := nat -> bool) (G := unit) :=
  Barrier_new 10 (replicate MAX_THREADS 0%nat) tt (Ok (Scheduler_new 10 tt (fun _ => false))).
Definition two_processes : M (W (C := nat -> bool) (G := unit)) unit :=
  fake_in 1 0 ;;
  forM (map Z.of_nat (seq 0 9)) (fake_in 2) ;;
  r <- on_sched (break_fakeLeave (fun _ _ => true)) ;;
  match r with
  | Some (pid, tid, c, p, pc) =>
      leave 2 1000 pid tid c ;;
      r <- on_sched (break_next pid pc p) ;;
      match r with Some (pid, tid, c, _, _) => leave 2 1000 pid tid c | None => ret tt end
  | None => ret tt
  end.

Lemma watchdog_wrong_process : two_processes ten_cores = Err (AssertFail "scheduler.h:335").
Proof. vm_compute. reflexivity. Qed.
