(* ===== verification/SchedulerSpec.v ===== *)
(** * Properties of the scheduler

    For every interleaving of the threads' calls, the barrier and the watchdog:
    no assertion fails; threads and contexts match; no queued thread could have
    a context; sleepers wake in their phase.  And two ways in which the
    operations outside of that system fail. *)

From stdpp Require Import base list gmap sets strings sorting.
From Stdlib Require Import ZArith Lia.
From S2P Require Import Prelude Barrier BarrierInv BarrierOps BarrierSteps BarrierSpec Scheduler SchedulerInv SchedulerMoves SchedulerOps SchedulerPhase SchedulerActs SchedulerWays SchedulerSmall SchedulerSys SchedulerLink SchedulerStep SchedulerDemo.
Local Open Scope Z_scope.

Section Spec.
Context {C G : Type} `{CoreOps C} `{RandInt G}.
Context (I : (nat -> bool) -> C -> Prop) {HI : CoreLaws I}.
Context (schedQuantum phaseLength : Z) (Hquantum : 0 < schedQuantum < 2 ^ 32).
Abbreviation S := (Sched C G).
Abbreviation Sys := (Sys (C := C) (G := G)).
Abbreviation exec := (exec schedQuantum phaseLength).
Abbreviation reachable := (reachable schedQuantum phaseLength (I (fun _ => false))).
Implicit Types (s : S) (t : ThreadInfo) (p c v : nat) (x : Sys).

(** C5: safety of the scheduler together with the barrier.  From the start of
    the simulator, for every interleaving of threads that start, join,
    synchronise, hand contexts off, make system calls, sleep, leave and finish,
    and of the watchdog that drives time forward, every step that is possible
    returns: no assertion of the scheduler, the barrier or the lists fails, no
    access is out of range, and the cores are joined and left in turn. *)
Theorem sched_safe a x : reachable x -> allowed a x -> exists x', exec a x = Ok x'.
Proof. intros Hr%(reachable_ok I schedQuantum phaseLength Hquantum) Ha. destruct (step_ok I schedQuantum phaseLength Hquantum a x Hr Ha) as (x' & E & _). by exists x'. Qed.

(** ** Placement *)

Lemma reachable_linked x s : reachable x -> b_sched (sy_bar x) = Ok s -> linked I (sy_bpc x) (sy_hpc x) s.
Proof. intros Hr%(reachable_ok I schedQuantum phaseLength Hquantum) Hs. destruct (so_sched _ _ Hr) as (s0 & E & HL & _). congruence. Qed.

Lemma context_iff s c p : sched_inv None ∅ s ->
  (exists y, sc_contexts s !! c = Some y /\ cx_curThread y = Some p) <-> (exists t, sc_threads s !! p = Some t /\ holding t /\ th_cid t = c).
Proof.
  intros [Hc _ _ _ _]. split.
  - intros (y & Hy & Hp). pose proof (ci_cx _ _ Hc c y Hy) as Hcx. unfold cx_ok in Hcx. rewrite Hp in Hcx.
    destruct Hcx as (_ & _ & t & Ht & Hcid & Hh). eauto.
  - intros (t & Hp & Hh & <-). apply (ci_hold _ _ Hc p t Hp Hh).
Qed.

Lemma free_iff s c : sched_inv None ∅ s ->
  c ∈ sc_freeList s <-> (c < numCores s)%nat /\ forall p t, sc_threads s !! p = Some t -> holding t -> th_cid t <> c.
Proof.
  intros Hinv. pose proof Hinv as [Hc _ _ _ _]. rewrite (ci_free _ _ Hc). split.
  - intros (y & Hy & Hf). split; [by eapply lookup_lt_Some|]. intros p t Hp Hh E.
    destruct (hold_context None s p t Hc Hp Hh) as (y' & Hy' & _ & _ & Hf'). rewrite E in Hy'. congruence.
  - intros [Hlt Hn]. destruct (lookup_lt_is_Some_2 _ _ Hlt) as [y Hy]. exists y. split; [done|].
    pose proof (ci_cx _ _ Hc c y Hy) as Hcx. unfold cx_ok in Hcx. destruct (cx_curThread y) as [p|].
    + destruct Hcx as (_ & _ & t & Ht & Hcid & Hh). by destruct (Hn p t).
    + by apply Hcx.
Qed.

Lemma queued_cases s p t : sched_inv None ∅ s -> sc_threads s !! p = Some t -> th_state t = Th.QUEUED ->
  (p ∈ sc_queues s RunQ /\ forall c, th_mask t !! c = Some true -> running s c) \/
  (exists v tv, sc_threads s !! v = Some tv /\ th_state tv = Th.RUNNING /\ th_handoffThread tv = Some p /\
     th_mask t !! th_cid tv = Some true /\
     forall v' tv', sc_threads s !! v' = Some tv' -> th_handoffThread tv' = Some p -> v' = v).
Proof.
  intros [_ Hq _ Ht Hcs] Hp Hst. pose proof (ti_owner _ _ Ht p t Hp) as Ho. unfold owner_for in Ho. rewrite Hst in Ho.
  destruct Ho as [[Ho _]|[_ [Hin|(_ & v & tv & Hv & Hh)]]]; [|set_solver|].
  - left. assert (p ∈ sc_queues s RunQ) as Hin by (apply (qi_in _ Hq); by exists t). split; [done|]. intros c Hm. by apply (Hcs p t c).
  - right. exists v, tv. destruct (ti_target _ _ Ht v tv p Hv Hh) as (_ & t' & Ht' & _ & _ & Hm). assert (t' = t) as -> by congruence.
    split_and!; try done.
    + apply (tl_handoff _ _ _ (ti_local _ _ Ht v tv Hv)). by rewrite Hh.
    + intros v' tv' Hv' Hh'. by apply (ti_inj _ _ Ht v' tv' v tv p).
Qed.

(** C13: where the threads are, in every reachable state.  A context belongs to
    exactly the thread that runs or is out on it, and that thread's mask allows
    it; the free contexts are exactly the others; [scheduledThreads] counts the
    contexts in use; a context is in the barrier exactly when its thread runs.
    A queued thread is in the run queue, and then all contexts of its mask run
    threads, or it is the target of the handoff of exactly one running thread,
    whose context its mask allows.  Sleepers are ordered, and none has missed
    its phase. *)
Theorem sched_placement x s : reachable x -> b_sched (sy_bar x) = Ok s ->
  (forall c p, (exists y, sc_contexts s !! c = Some y /\ cx_curThread y = Some p) <->
     (exists t, sc_threads s !! p = Some t /\ holding t /\ th_cid t = c)) /\
  (forall p t, sc_threads s !! p = Some t -> holding t -> th_mask t !! th_cid t = Some true) /\
  (forall c, c ∈ sc_freeList s <-> (c < numCores s)%nat /\ forall p t, sc_threads s !! p = Some t -> holding t -> th_cid t <> c) /\
  sc_scheduledThreads s = Z.of_nat (count_if is_used (sc_contexts s)) /\
  (forall c, sy_bpc x c <> Out <-> running s c) /\
  (forall p t, sc_threads s !! p = Some t -> th_state t = Th.QUEUED ->
     (p ∈ sc_queues s RunQ /\ forall c, th_mask t !! c = Some true -> running s c) \/
     (exists v tv, sc_threads s !! v = Some tv /\ th_state tv = Th.RUNNING /\ th_handoffThread tv = Some p /\
        th_mask t !! th_cid tv = Some true /\
        forall v' tv', sc_threads s !! v' = Some tv' -> th_handoffThread tv' = Some p -> v' = v)) /\
  (forall p t, sc_threads s !! p = Some t -> th_state t = Th.SLEEPING ->
     p ∈ sc_queues s SleepQ /\ ck_curPhase (sc_clock s) < th_wakeupPhase t) /\
  StronglySorted (fun p q => wake_of s p <= wake_of s q) (sc_queues s SleepQ).
Proof.
  intros Hr Hs. pose proof (reachable_linked x s Hr Hs) as HL. pose proof (lk_steady _ _ _ _ HL) as [Hinv _].
  pose proof Hinv as [Hc Hq Hso Ht _]. split_and!.
  - intros c p. by apply context_iff.
  - intros p t Hp. apply (tl_allowed _ _ _ (ti_local _ _ Ht p t Hp)).
  - intros c. by apply free_iff.
  - apply Hc.
  - apply HL.
  - intros p t. by apply queued_cases.
  - intros p t Hp Hst. split; [|by apply (tl_sleep _ _ _ (ti_local _ _ Ht p t Hp) Hst)].
    apply (qi_in _ Hq). exists t. split; [done|]. pose proof (ti_owner _ _ Ht p t Hp) as Ho. unfold owner_for in Ho. by rewrite Hst in Ho.
  - apply Hso.
Qed.

(** ** Phases *)

Lemma sleeper_after s s' p t : callback_post I schedQuantum s s' -> sc_threads s !! p = Some t -> th_state t = Th.SLEEPING ->
  exists t', sc_threads s' !! p = Some t' /\ th_wakeupPhase t' = th_wakeupPhase t /\
    ((th_wakeupPhase t = ck_curPhase (sc_clock s') /\ th_state t' = Th.BLOCKED /\ th_futexWord t' = 0) \/
     (ck_curPhase (sc_clock s') < th_wakeupPhase t /\ th_state t' = Th.SLEEPING /\ p ∈ sc_queues s' SleepQ)).
Proof.
  intros Hcb Hp Hst. destruct (changed_some _ _ _ _ _ (cb_changed _ _ _ _ Hcb) Hp) as (t' & Hp' & [_ _ _ _ _ Hw Hc]).
  exists t'. split_and!; try done. destruct Hc as [(E & _)|(_ & E1 & E2 & _ & E3)]; [right|by left].
  pose proof (si_thread _ _ _ (cb_inv _ _ _ _ Hcb)) as Ht. rewrite Hst in E.
  destruct (tl_sleep _ _ _ (ti_local _ _ Ht p t' Hp') E) as [_ [Hlt _]]. rewrite Hw in Hlt. split_and!; try done.
  apply (qi_in _ (si_queue _ _ _ (cb_inv _ _ _ _ Hcb))). exists t'. split; [done|].
  pose proof (ti_owner _ _ Ht p t' Hp') as Ho. unfold owner_for in Ho. by rewrite E in Ho.
Qed.

(** C17: what the end of a phase does.  When every thread that runs waits in the
    barrier and no handoff is pending, as at each end of a phase, the callback
    returns in the next phase; exactly the sleepers whose phase this is are
    woken; the contexts that run threads stay the same.  At the end of a quantum
    contexts are handed to queued threads until every context that a thread left
    in the run queue could use is already handed to another one; in between no
    context changes hands. *)
Theorem sched_phase x s : reachable x -> b_sched (sy_bar x) = Ok s ->
  (forall p t, sc_threads s !! p = Some t -> th_state t = Th.RUNNING -> sy_hpc x p = HSync /\ th_handoffThread t = None) ->
  exists s', sched_callback schedQuantum phaseLength s = Ok (tt, s') /\
    ck_curPhase (sc_clock s') = u64 (ck_curPhase (sc_clock s) + 1) /\
    (forall p t, sc_threads s !! p = Some t -> th_state t = Th.SLEEPING ->
       exists t', sc_threads s' !! p = Some t' /\ th_wakeupPhase t' = th_wakeupPhase t /\
         ((th_wakeupPhase t = ck_curPhase (sc_clock s') /\ th_state t' = Th.BLOCKED /\ th_futexWord t' = 0) \/
          (ck_curPhase (sc_clock s') < th_wakeupPhase t /\ th_state t' = Th.SLEEPING /\ p ∈ sc_queues s' SleepQ))) /\
    (forall c, running s c <-> running s' c) /\
    (ck_curPhase (sc_clock s') mod schedQuantum = 0 ->
       forall p t c, p ∈ sc_queues s' RunQ -> sc_threads s' !! p = Some t -> th_mask t !! c = Some true ->
         exists v tv, sc_threads s' !! v = Some tv /\ is_Some (th_handoffThread tv) /\ th_cid tv = c) /\
    (ck_curPhase (sc_clock s') mod schedQuantum <> 0 ->
       forall v tv, sc_threads s' !! v = Some tv -> th_handoffThread tv = None).
Proof.
  intros Hr Hs Hsy. pose proof (reachable_linked x s Hr Hs) as HL.
  destruct (callback_runs I schedQuantum phaseLength Hquantum _ _ s HL Hsy) as (s' & E & Hcb & _). exists s'. split_and!; try done.
  - apply Hcb.
  - intros p t. by apply sleeper_after.
  - intros c. apply (changed_running (ck_curPhase (sc_clock s'))). apply Hcb.
  - apply Hcb.
  - intros Hm v tv Hv. apply eq_None_not_Some. intros Hh. apply (cb_between _ _ _ _ Hcb Hm (th_cid tv)). by exists v, tv.
Qed.

(** Driving time forward, phase by phase. *)
Lemma drive_loop_wakes bpc hpc p w n : forall s t, linked I bpc hpc s -> idle s -> sc_threads s !! p = Some t -> th_state t = Th.SLEEPING ->
  th_wakeupPhase t = w -> w - ck_curPhase (sc_clock s) <= Z.of_nat n ->
  wp (drive_loop schedQuantum phaseLength n p) (fun _ s' => ck_curPhase (sc_clock s') = w /\
    exists t', sc_threads s' !! p = Some t' /\ th_state t' = Th.BLOCKED /\ th_futexWord t' = 0) s.
Proof.
  induction n as [|n IH]; intros s t HL Hi Hp Hst Hw Hn; pose proof (lk_steady _ _ _ _ HL) as [Hinv _];
    destruct (tl_sleep _ _ _ (ti_local _ _ (si_thread _ _ _ Hinv) p t Hp) Hst) as [_ Hlt]; [lia|].
  simpl. wp_step. eapply wp_get_th; [done|]. rewrite is_state_one, bool_decide_eq_true_2 by done.
  destruct (callback_runs I schedQuantum phaseLength Hquantum bpc hpc s HL (idle_synced hpc s Hi)) as (s' & E & Hcb & HL').
  wp_step. unfold wp at 1. rewrite E. destruct (sleeper_after s s' p t Hcb Hp Hst) as (t' & Hp' & Hw' & Hc).
  pose proof (ti_phase _ _ (si_thread _ _ _ Hinv)) as [_ Hu]. pose proof (cb_phase _ _ _ _ Hcb) as Ek. rewrite (next_phase _ _ Hu Hlt) in Ek.
  destruct Hc as [(C1 & C2 & C3)|(C1 & C2 & _)].
  - assert (wp (drive_loop schedQuantum phaseLength n p) (fun _ s2 => s2 = s') s') as Hstop.
    { destruct n; simpl; [by wp_step|]. wp_step. eapply wp_get_th; [done|]. rewrite is_state_one, bool_decide_eq_false_2 by congruence. by wp_step. }
    eapply wp_mono; [exact Hstop|]. intros _ s2 ->. split; [congruence|]. by exists t'.
  - apply (IH s' t'); try done; [by eapply idle_changed; [|apply Hcb]|congruence|lia].
Qed.

(** C26: the watchdog ends a wait for sleepers.  When every scheduled thread is
    out and some thread sleeps, the loop that drives time forward, when it is
    not interrupted, returns after as many phases as the first sleeper still has
    to wait; it is woken in exactly its phase. *)
Theorem drive_wakes x s p l t n : reachable x -> b_sched (sy_bar x) = Ok s -> all_out s = true -> sc_queues s SleepQ = p :: l ->
  sc_threads s !! p = Some t -> th_wakeupPhase t - ck_curPhase (sc_clock s) <= Z.of_nat n ->
  exists s', drive schedQuantum phaseLength n s = Ok (tt, s') /\ ck_curPhase (sc_clock s') = th_wakeupPhase t /\
    exists t', sc_threads s' !! p = Some t' /\ th_state t' = Th.BLOCKED /\ th_futexWord t' = 0.
Proof.
  intros Hr Hs Ha Hq Hp Hn. pose proof (reachable_linked x s Hr Hs) as HL. pose proof (lk_steady _ _ _ _ HL) as [Hinv _].
  assert (th_state t = Th.SLEEPING) as Hst.
  { assert (p ∈ sc_queues s SleepQ) as Hin by (rewrite Hq; left). apply (qi_in _ (si_queue _ _ _ Hinv)) in Hin as (t' & Ht' & Ho).
    assert (t' = t) as -> by congruence. pose proof (ti_owner _ _ (si_thread _ _ _ Hinv) p t Hp) as Hown. unfold owner_for in Hown.
    destruct (th_state t); try congruence. destruct Hown as [[? _]|[? _]]; congruence. }
  assert (wp (drive schedQuantum phaseLength n) (fun _ s' => ck_curPhase (sc_clock s') = th_wakeupPhase t /\
    exists t', sc_threads s' !! p = Some t' /\ th_state t' = Th.BLOCKED /\ th_futexWord t' = 0) s) as Hw.
  { unfold drive. do 2 wp_step. rewrite Ha, Hq. eapply (drive_loop_wakes _ _ p (th_wakeupPhase t) n s t HL); try done.
    intros v tv. by apply all_out_idle. }
  destruct (wp_ok _ _ _ Hw) as ([] & s' & E & A1 & A2). by exists s'.
Qed.

(** ** The watchdog and fake leaves *)

Lemma on_sched_ok {R} (m : M S R) (b : W (C := C) (G := G)) s a s' : b_sched b = Ok s -> m s = Ok (a, s') -> on_sched m b = Ok (a, set_sched (Ok s') b).
Proof. unfold on_sched. by intros -> ->. Qed.

Lemma join_running_fails b s pid tid p t : b_sched b = Ok s -> sc_gidMap s !! getGid pid tid = Some p -> sc_threads s !! p = Some t ->
  fj_action (th_futexJoin t) = FJA_NONE -> th_fakeLeave t = None -> th_markedForSleep t = false -> th_state t = Th.RUNNING ->
  join schedQuantum phaseLength pid tid b = Err (AssertFail "scheduler.h:313").
Proof.
  intros Hs Hg Hp Ha Hf Hm Hr.
  assert (on_sched (lookup_gid (AssertFail "scheduler.h:283") (getGid pid tid)) b = Ok (p, b)) as E1.
  { rewrite (on_sched_ok _ b s p s Hs); [by rewrite same_sched|]. unfold lookup_gid, bind, get, gets. simpl. by rewrite Hg. }
  assert (on_sched (get_th p) b = Ok (t, b)) as E2.
  { rewrite (on_sched_ok _ b s t s Hs); [by rewrite same_sched|]. unfold get_th, bind, get, gets. simpl. by rewrite Hp. }
  assert (on_sched (when false (q_remove SleepQ p ;; upd_th p (th_set_state Th.BLOCKED))) b = Ok (tt, b)) as E3
    by (rewrite (on_sched_ok _ b s tt s Hs); [by rewrite same_sched|done]).
  unfold join, bind at 1. rewrite E1. unfold bind at 1. rewrite E2, Ha. unfold bind at 1, join_rest. unfold bind at 1. rewrite E2, Hf. simpl.
  unfold bind at 1, assert_ at 1. rewrite Hm. simpl. unfold bind at 1. rewrite (is_state_one Th.SLEEPING), bool_decide_eq_false_2 by congruence.
  rewrite E3. unfold bind at 1. rewrite E2, (is_state_one Th.OUT), bool_decide_eq_false_2 by congruence.
  unfold bind at 1, assert_ at 1, is_state. rewrite bool_decide_eq_false_2; [done|]. rewrite Hr. set_solver.
Qed.

Lemma break_ok A s p l t fl regex : steady I s -> sc_fakeLeaves s = p :: l -> sc_threads s !! p = Some t -> th_fakeLeave t = Some fl ->
  regex (getPid (th_gid t)) (fl_syscallNumber fl) = true ->
  wp (break_fakeLeave regex) (fun r s' => r = Some (getPid (th_gid t), getTid (th_gid t), th_cid t, p, fl_pc fl) /\
    exists s1, steady I s1 /\ sc_threads s1 = sc_threads s /\ sc_gidMap s1 = sc_gidMap s /\ moves I A p (th_set_fake None t) s1 s') s.
Proof.
  intros Hst Hl Hp Hf Hre. pose proof Hst as [Hinv Hj]. pose proof (si_thread _ _ _ Hinv) as Ht.
  pose proof (tl_gid _ _ _ (ti_local _ _ Ht p t Hp)) as [Hg Hpid]. pose proof (ti_blocking _ _ Ht) as Hb.
  assert (0 <= getPid (th_gid t)) as Hpos by (apply Z.shiftr_nonneg; lia).
  destruct (lookup_lt_is_Some_2 (sc_blocking s) (Z.to_nat (getPid (th_gid t)))) as [bs Hbs]; [rewrite Hb; lia|].
  assert (forall s1, steady I s1 -> sc_threads s1 = sc_threads s -> sc_gidMap s1 = sc_gidMap s ->
    wp (finishFakeLeave p ;; ret (Some (getPid (th_gid t), getTid (th_gid t), th_cid t, p, fl_pc fl)))
      (fun r s' => r = Some (getPid (th_gid t), getTid (th_gid t), th_cid t, p, fl_pc fl) /\
        exists s1, steady I s1 /\ sc_threads s1 = sc_threads s /\ sc_gidMap s1 = sc_gidMap s /\ moves I A p (th_set_fake None t) s1 s') s1) as Hfin.
  { intros s1 Hst1 Em Eg. wp_step. eapply (finishFakeLeave_ok I A s1 p t); [done|by rewrite Em|by rewrite Hf|]. intros s' Hm. wp_step.
    split; [done|]. by exists s1. }
  unfold break_fakeLeave. do 2 wp_step. rewrite Hl. wp_step. eapply wp_get_th; [done|].
  rewrite bool_decide_eq_false_2 by (rewrite (tl_action _ _ _ (ti_local _ _ Ht p t Hp)); done). rewrite Hf, Hre. wp_step. case_bool_decide as El.
  - simpl. wp_step. eapply wp_lift; [by apply at_ok|]. wp_step. eapply wp_lift; [apply set_at_ok; by eapply lookup_lt_Some|]. wp_step.
    apply Hfin; try done. split; [|done]. destruct Hinv as [K1 K2 K3 K4 K5].
    split; [by apply (ctx_same None s)|by apply (queue_same s)|done| |done]. destruct K4. split; try done. simpl. by rewrite length_insert.
  - simpl. apply wp_ret. by apply Hfin.
Qed.

(** C9: the watchdog races with the threads whose fake leaves it breaks.  It ends
    the first fake leave, releases the lock and then leaves for the thread.  In
    every reachable state with a fake leave: if the thread's system call returns
    in between, its [join] fails an assertion, because the thread is still
    [RUNNING] but no longer in a fake leave. *)
Theorem watchdog_race x s p l t fl regex : reachable x -> b_sched (sy_bar x) = Ok s -> sc_fakeLeaves s = p :: l ->
  sc_threads s !! p = Some t -> th_fakeLeave t = Some fl -> regex (getPid (th_gid t)) (fl_syscallNumber fl) = true ->
  exists s', break_fakeLeave regex s = Ok (Some (getPid (th_gid t), getTid (th_gid t), th_cid t, p, fl_pc fl), s') /\
    join schedQuantum phaseLength (getPid (th_gid t)) (getTid (th_gid t)) (set_sched (Ok s') (sy_bar x)) =
      Err (AssertFail "scheduler.h:313").
Proof.
  intros Hr Hs Hl Hp Hf Hre. pose proof (reachable_linked x s Hr Hs) as HL. pose proof (lk_steady _ _ _ _ HL) as Hst.
  pose proof (ti_local _ _ (si_thread _ _ _ (proj1 Hst)) p t Hp) as Hloc.
  assert (th_state t = Th.RUNNING) as Hrun by (apply (tl_fake _ _ _ Hloc); by rewrite Hf).
  assert (registered (sy_hpc x p)) as Hreg.
  { pose proof (lk_host _ _ _ _ HL p) as Hh. rewrite Hp in Hh. destruct (sy_hpc x p); simpl in Hh; try done; unfold plain in Hh; intuition congruence. }
  destruct (wp_ok _ _ _ (break_ok (fun _ => False) s p l t fl regex Hst Hl Hp Hf Hre)) as (r & s' & E & -> & s1 & Hst1 & Em & Eg & Hst' & Hn & _ & Hp').
  exists s'. split; [done|]. eapply (join_running_fails _ s' _ _ p (th_set_fake None t)); try done.
  - rewrite (ng_gid _ _ _ _ Hn), Eg. apply gid_lookup; [apply Hst|done|]. by apply (lk_gid _ _ _ _ HL).
  - apply Hloc.
  - destruct (th_markedForSleep t) eqn:Em'; [|done]. destruct (tl_marked _ _ _ Hloc Em') as (_ & _ & ?). congruence.
Qed.
End Spec.

(** ** Witnesses *)

(** Thread 0 leaves while thread 1 sleeps. *)
Lemma sched_safe_witness : allowed (ALeave 0) (after hand_off) /\ exists x', exec 2 1000 (ALeave 0) (after hand_off) = Ok x'.
Proof.
  destruct (runs_after hand_off ltac:(vm_compute; reflexivity)) as [Hr _].
  assert (allowed (ALeave 0) (after hand_off)) as Ha by (apply allowedb_ok; vm_compute; reflexivity).
  split; [exact Ha|]. exact (sched_safe demo_I 2 1000 demo_quantum (ALeave 0) (after hand_off) Hr Ha).
Defined.

Lemma sched_placement_witness : let s := sched_after hand_off in
  th_state (thread_after hand_off 1) = Th.SLEEPING /\ 1%nat ∈ sc_queues s SleepQ /\ ck_curPhase (sc_clock s) < 5 /\
  sc_scheduledThreads s = Z.of_nat (count_if is_used (sc_contexts s)).
Proof.
  destruct (runs_after hand_off ltac:(vm_compute; reflexivity)) as [Hr Hs].
  destruct (sched_placement demo_I 2 1000 demo_quantum (after hand_off) (sched_after hand_off) Hr Hs) as (_ & _ & _ & H1 & _ & _ & H2 & _).
  assert (th_state (thread_after hand_off 1) = Th.SLEEPING) as Hst by (vm_compute; reflexivity).
  destruct (H2 1%nat (thread_after hand_off 1) (has_thread hand_off 1 ltac:(vm_compute; reflexivity)) Hst) as [H3 H4].
  assert (th_wakeupPhase (thread_after hand_off 1) = 5) as Hw by (vm_compute; reflexivity). rewrite Hw in H4.
  split; [exact Hst|]. split; [exact H3|]. split; [exact H4|]. exact H1.
Defined.

(** Thread 0 waits in the barrier, thread 1 in the run queue; the end of the
    second phase hands the core over. *)
Lemma sched_phase_witness : exists s', sched_callback 2 1000 (sched_after two_threads) = Ok (tt, s') /\ ck_curPhase (sc_clock s') = 2 /\
  forall p t c, p ∈ sc_queues s' RunQ -> sc_threads s' !! p = Some t -> th_mask t !! c = Some true ->
    exists v tv, sc_threads s' !! v = Some tv /\ is_Some (th_handoffThread tv) /\ th_cid tv = c.
Proof.
  destruct (runs_after two_threads ltac:(vm_compute; reflexivity)) as [Hr Hs].
  destruct (sched_phase demo_I 2 1000 demo_quantum (after two_threads) (sched_after two_threads) Hr Hs) as (s' & H1 & H2 & _ & _ & H3 & _).
  - intros p t Hp Hst.
    pose proof (all_threads (sc_threads (sched_after two_threads)) (in_barrier (after two_threads)) ltac:(vm_compute; reflexivity) p t Hp) as Hb. unfold in_barrier in Hb.
    rewrite Hst, bool_decide_eq_true_2 in Hb by reflexivity. simpl in Hb. apply andb_true_iff in Hb as [B1 B2].
    split; [exact (bool_decide_eq_true_1 _ B1)|exact (bool_decide_eq_true_1 _ B2)].
  - assert (u64 (ck_curPhase (sc_clock (sched_after two_threads)) + 1) = 2) as E by (vm_compute; reflexivity). rewrite E in H2.
    exists s'. split; [exact H1|]. split; [exact H2|]. apply H3. rewrite H2. reflexivity.
Defined.

(** Both threads are gone from the cores; thread 1 sleeps until phase 5. *)
Lemma drive_wakes_witness : exists s', drive 2 1000 3 (sched_after both_gone) = Ok (tt, s') /\ ck_curPhase (sc_clock s') = 5 /\
  exists t', sc_threads s' !! 1%nat = Some t' /\ th_state t' = Th.BLOCKED /\ th_futexWord t' = 0.
Proof.
  destruct (runs_after both_gone ltac:(vm_compute; reflexivity)) as [Hr Hs].
  assert (th_wakeupPhase (thread_after both_gone 1) = 5) as Hw by (vm_compute; reflexivity). rewrite <- Hw.
  apply (drive_wakes demo_I 2 1000 demo_quantum (after both_gone) (sched_after both_gone) 1 [] (thread_after both_gone 1) 3 Hr Hs).
  - vm_compute. reflexivity.
  - vm_compute. reflexivity.
  - apply has_thread. vm_compute. reflexivity.
  - rewrite Hw. vm_compute. discriminate.
Defined.

Lemma watchdog_race_witness : let t := thread_after fake_leave 0 in
  exists s', break_fakeLeave (fun _ _ => true) (sched_after fake_leave) = Ok (Some (0, 0, 0%nat, 0%nat, 16), s') /\
    join 2 1000 0 0 (set_sched (Ok s') (sy_bar (after fake_leave))) = Err (AssertFail "scheduler.h:313").
Proof.
  destruct (runs_after fake_leave ltac:(vm_compute; reflexivity)) as [Hr Hs].
  assert (getPid (th_gid (thread_after fake_leave 0)) = 0 /\ getTid (th_gid (thread_after fake_leave 0)) = 0 /\
    th_cid (thread_after fake_leave 0) = 0%nat) as (E1 & E2 & E3) by (vm_compute; repeat split; reflexivity).
  pose proof (watchdog_race demo_I 2 1000 demo_quantum (after fake_leave) (sched_after fake_leave) 0 [] (thread_after fake_leave 0)
    (mkFake 16 1 0 0) (fun _ _ => true) Hr Hs) as Hrace. rewrite E1, E2, E3 in Hrace. apply Hrace.
  - vm_compute. reflexivity.
  - apply has_thread. vm_compute. reflexivity.
  - vm_compute. reflexivity.
  - reflexivity.
Defined.
